(* ===== verification/_CoqProject ===== *)
-Q . S2P
Prelude.v
Memory.v
Endian.v
LibcString.v
LibcSort.v
DList.v
Heap.v
HeapLayout.v
HeapOps.v
HeapClients.v
RingBuffer.v
Sched.v
Sync.v
SyncSafety.v
Mmu.v
Vmm.v
YaffsEcc.v
YaffsTags.v
YaffsNameval.v
YaffsDev.v
YaffsFlash.v
YaffsBlocks.v
YaffsAlloc.v
YaffsStore.v
YaffsTnode.v
YaffsTree.v
YaffsFile.v
YaffsFiles.v
YaffsCheckpt.v
