(* ===== verification/Prelude.v ===== *)
(** * PowerPC-Demo-OS: a verification of its kernel and file system

    The repository is a small operating system for a 32-bit big-endian PowerPC board: a kernel in
    C++ ([kernel/], with its headers in [include/] and [kernel/include/]), a C library
    ([generic/libc/]), and the YAFFS file system ([fs/yaffs2/]) on a layer of memory technology
    devices ([fs/mtd/]). This development models the parts of it that carry state and proves what
    each of them promises to the parts above. Paths are relative to [src/].

    ** How code becomes definitions

    A function that changes state is a program [prog S A := S → res (A * S)]; [res] is a result or a
    [fault]: an assertion of the code ([FAssert], a build with [_DEBUG]), a [BUG()] of YAFFS ([FBug]),
    an access that the language leaves undefined ([FUndef]), or a loop that was given too little fuel
    ([FFuel]). So a theorem that concludes [m s = Ok (x, s')] says that the code ends, does not touch
    memory that is not there, passes its assertions, and has this result. Words are integers with
    the wrap-around written out ([wrapu], [wraps], [u32], [s32]); bit operations are those of [Z].
    A loop is [loop fuel body], whose body says with [inl] that it goes on and with [inr] that it is
    over; the fuel is an expression of the state that a definition computes (the length of a ring,
    the count that is left, the number of blocks), and the theorems show that it is enough. The
    functions of the C library that walk to a terminator have the bound as an argument, which the
    theorems only ask to be larger than the string. Locks that are held for a call only are the
    atomicity of the call; what a thread waits for is in the state ([Sync]).

    ** The files

    - [Prelude], [Memory]: programs, loops, words, lists; memory of bytes ([bytes m a l]).
    - [Endian]: [include/endian.h], the alignment of [include/types.h] and the size of a page.
    - [LibcString], [LibcSort]: [generic/libc/string/] and [kernel/src/arch/powerpc/string.cpp];
      [generic/libc/stdlib/qsort.c].
    - [DList]: the rings of [include/list.h] and of YAFFS ([direct/yaffs_list.h]); the scheduler,
      the heap and the virtual memory manager use its lemmas on sets of disjoint [rings].
    - [Heap], [HeapLayout], [HeapOps], [HeapClients]: [kernel/src/mm/heap.cpp]; the operations, the
      partition of the memory by the segment descriptors, the effect of each call, and what any
      sequence of calls and stores of its clients may rely on.
    - [RingBuffer]: the two templates of [include/ringbuffer.h].
    - [Sched]: [kernel/src/task/schedule.cpp], [thread.cpp] and the pool of threads of [threadmanager.cpp].
    - [Sync], [SyncSafety]: [kernel/src/ipc/semaphore.cpp] and [mutex.cpp] on the state of the scheduler;
      step relations that interleave these programs with the calls of the scheduler.
    - [Mmu], [Vmm]: [kernel/src/arch/powerpc/mmu.cpp] (the hashed page table, against the search of
      the processor) and [kernel/src/mm/vmm.cpp] (the frames of the processes) on top of it.
    - [YaffsEcc], [YaffsTags], [YaffsNameval]: what YAFFS stores beside and in a chunk: its
      error-correcting codes, tags, object headers and extended attributes.
    - [YaffsDev], [YaffsFlash], [YaffsBlocks], [YaffsAlloc]: the device, its blocks and chunks
      ([yaffs_nand.c], [yaffs_tagsmarshall.c], [yaffs_summary.c], [yaffs_bitmap.c] and the block level
      of [yaffs_guts.c] and [yaffs_yaffs2.c]); the driver that a port supplies is the class
      [yaffs_driver], and [good_flash] is what a working flash promises.
    - [YaffsStore]: the same device on a working flash, as the store of chunks that files are kept in.
    - [YaffsTnode], [YaffsTree]: the trees of files, on a store of words, with their allocator; the
      heap behind it is a class with its promise.
    - [YaffsFile], [YaffsFiles]: the data of files in [yaffs_guts.c] (chunks of a file, collection of
      garbage, the cache, reading, writing, truncation), and the files as arrays of bytes, on top of
      [YaffsStore] and [YaffsTree]. To write the header of an object and to delete one is the part of
      the objects themselves, the class [yaffs_objects].
    - [YaffsCheckpt]: the checkpoint stream of [yaffs_checkptrw.c] on the device of [YaffsDev].

    ** What the theorems show

    - Refinement of an abstract specification, over all sequences of calls: rings are lists
      ([list_h_refines_list]), ring buffers are bounded queues ([CRingBuffer_refines_queue]),
      semaphores are counters with a queue ([semaphore_refines]), the memory manager moves pages
      between lists ([vmm_refines]), a tree of tnodes is a map ([tnode_tree_is_a_map]), the
      attributes of an object are an association list ([nval_refines]), the bitmap of a block is a
      set ([chunk_bitmap_spec]), the chunks of a flash without errors are a finite map that is
      written, deleted from and read ([chunk_store_refines]), files are arrays of bytes that are
      read, written and flushed through the cache ([files_are_arrays_of_bytes]).
    - Invariants: the run queues ([run_queue_spec]), the accounts of YAFFS, which hold whatever
      the driver answers ([accounts_agree]), the data of the heap's clients ([heap_keeps_data]), and
      the state that the memory manager starts in ([vmm_starts]).
    - Safety and liveness: regions of the heap are disjoint ([heap_regions_disjoint]), mutual
      exclusion ([mutex_mutual_exclusion]) and the units of a semaphore ([semaphore_safety]) in the
      executions where the scheduler lets waiting threads wait, round robin ([schedule_round_robin]); what is freed is
      usable again ([heap_recovers]).
    - Round trips: byte order, tags, the checkpoint stream ([checkpt_roundtrip]).
    - Functional results on every branch: the search and the update of the page table
      ([insertPTE_spec], [invalidPTE_spec]), error correction ([yaffs_ecc_corrects_single_bit]), the
      truncation of a file ([resize_file_cuts]), the allocation and the deletion of chunks, the
      string functions, sorting with any comparison ([qsort_sorts]).
    - Theorems that state what the code does where it does not do what it means to:
      [SRingBuffer_stores_nothing], [lock_does_not_block], [aligned_allocate_fails],
      [unmapped_page_stays_mapped], [invalidPTE_spec].

    ** Not modelled

    The objects of YAFFS other than the data of files, with their headers, names and directories,
    and everything above them (the larger part of [yaffs_guts.c] and [yaffs_yaffs2.c],
    [yaffs_yaffs1.c], [yaffs_verify.c], the file descriptors of [direct/yaffsfs.c]) and the NAND and
    OneNAND devices below ([fs/mtd/], [yaffs2.cpp]); the virtual file system, terminals, message
    queues, signals, and of the kernel the manager of processes and the contexts and the end of threads; of the C library
    stdio, inttypes, time, unistd and what is left of stdlib; drivers, start-up code and assembly,
    which act on the hardware only.

    The collection of garbage is modelled, but what it does to the data of files is not proved:
    the theorems on files are about a device whose application holds it off ([gc_control_fn]). *)

From Stdlib Require Export ZArith Lia Bool.
From stdpp Require Export base tactics numbers list option gmap.

#[global] Open Scope Z_scope.
#[global] Set Default Proof Using "Type".

(** ** Machine integers

    An integer of [w] bits is a [Z]; [wrapu w] and [wraps w] are the conversions
    of C to an unsigned and to a two's complement signed type of [w] bits. *)

Definition wrapu (w x : Z) : Z := x mod 2 ^ w.
Definition wraps (w x : Z) : Z := (x + 2 ^ (w - 1)) mod 2 ^ w - 2 ^ (w - 1).

Abbreviation u8 := (wrapu 8).
Abbreviation u16 := (wrapu 16).
Abbreviation u32 := (wrapu 32).
Abbreviation u64 := (wrapu 64).
Abbreviation s8 := (wraps 8).
Abbreviation s32 := (wraps 32).
Abbreviation s64 := (wraps 64).

Definition in_u (w x : Z) : Prop := 0 ≤ x < 2 ^ w.
Definition in_s (w x : Z) : Prop := - 2 ^ (w - 1) ≤ x < 2 ^ (w - 1).

(** The complement [~x] of a [w]-bit unsigned value. *)
Definition notu (w x : Z) : Z := wrapu w (Z.lnot x).

Lemma wrapu_range w x : 0 ≤ w → in_u w (wrapu w x).
Proof. intros. apply Z.mod_pos_bound. lia. Qed.

Lemma wrapu_id w x : in_u w x → wrapu w x = x.
Proof. apply Z.mod_small. Qed.

Lemma wraps_range w x : 0 < w → in_s w (wraps w x).
Proof.
  intros Hw. unfold in_s, wraps.
  pose proof (Z.mod_pos_bound (x + 2 ^ (w - 1)) (2 ^ w)) as Hb.
  replace (2 ^ w) with (2 * 2 ^ (w - 1)) in *
    by (rewrite <- Z.pow_succ_r by lia; f_equal; lia).
  lia.
Qed.

Lemma wraps_id w x : 0 < w → in_s w x → wraps w x = x.
Proof.
  intros Hw Hx. unfold in_s, wraps in *.
  replace (2 ^ w) with (2 * 2 ^ (w - 1))
    by (rewrite <- Z.pow_succ_r by lia; f_equal; lia).
  rewrite Z.mod_small; lia.
Qed.

Lemma wrapu_ones w x : 0 ≤ w → wrapu w x = Z.land x (Z.ones w).
Proof. intros. by rewrite Z.land_ones. Qed.

Lemma wrapu_wrapu w x : 0 ≤ w → wrapu w (wrapu w x) = wrapu w x.
Proof. intros. by apply wrapu_id, wrapu_range. Qed.

(** The two conversions only depend on the value modulo [2 ^ w]. *)
Lemma wrapu_wraps w x : wrapu w (wraps w x) = wrapu w x.
Proof.
  unfold wrapu, wraps. rewrite Zminus_mod_idemp_l. f_equal. lia.
Qed.

Lemma wraps_wrapu w x : wraps w (wrapu w x) = wraps w x.
Proof. unfold wrapu, wraps. by rewrite Zplus_mod_idemp_l. Qed.

Lemma wrapu_spec w x i :
  0 ≤ w → 0 ≤ i → Z.testbit (wrapu w x) i = (i <? w) && Z.testbit x i.
Proof.
  intros. unfold wrapu. rewrite Z.testbit_mod_pow2 by lia. done.
Qed.

Lemma in_u_high w x i : in_u w x → 0 ≤ w ≤ i → Z.testbit x i = false.
Proof.
  intros Hx Hi. rewrite <- (wrapu_id w x) by done.
  rewrite wrapu_spec by lia. destruct (Z.ltb_spec i w); [lia|done].
Qed.

Lemma in_u_land_l w x y : 0 ≤ w → in_u w x → 0 ≤ y → in_u w (Z.land x y).
Proof.
  intros Hw Hx Hy. rewrite <- (wrapu_id w x) by done.
  replace (Z.land (wrapu w x) y) with (wrapu w (Z.land x y)).
  - by apply wrapu_range.
  - rewrite !wrapu_ones by done. rewrite <- !Z.land_assoc.
    by rewrite (Z.land_comm y).
Qed.

Lemma in_u_bits w x :
  0 ≤ w → 0 ≤ x → (∀ i, w ≤ i → Z.testbit x i = false) → in_u w x.
Proof.
  intros Hw Hx Hb. enough (wrapu w x = x) as <- by by apply wrapu_range.
  apply Z.bits_inj'. intros i Hi. rewrite wrapu_spec by done.
  destruct (Z.ltb_spec i w); [done|]. by rewrite Hb.
Qed.

Lemma in_u_lor w x y : 0 ≤ w → in_u w x → in_u w y → in_u w (Z.lor x y).
Proof.
  intros Hw Hx Hy. apply in_u_bits; [done| |].
  - apply Z.lor_nonneg. unfold in_u in *. lia.
  - intros i Hi. by rewrite Z.lor_spec, !(in_u_high w) by (done || lia).
Qed.

Lemma in_u_lxor w x y : 0 ≤ w → in_u w x → in_u w y → in_u w (Z.lxor x y).
Proof.
  intros Hw Hx Hy. apply in_u_bits; [done| |].
  - apply Z.lxor_nonneg. unfold in_u in *. lia.
  - intros i Hi. by rewrite Z.lxor_spec, !(in_u_high w) by (done || lia).
Qed.

(** A [|] whose operands share no bit is a sum. *)
Lemma lor_add k q x y :
  0 ≤ k → x = q * 2 ^ k → 0 ≤ y < 2 ^ k → Z.lor x y = x + y.
Proof.
  intros Hk -> Hy. rewrite <- Z.add_lor_land.
  replace (Z.land (q * 2 ^ k) y) with 0; [lia|]. symmetry.
  apply Z.bits_inj'. intros i Hi. rewrite Z.land_spec, Z.bits_0.
  destruct (Z.ltb_spec i k).
  - rewrite Z.mul_pow2_bits_low by lia. done.
  - rewrite (in_u_high k y) by (done || lia). apply andb_false_r.
Qed.

Lemma shiftl_lor_add k x y :
  0 ≤ k → 0 ≤ y < 2 ^ k → Z.lor (Z.shiftl x k) y = x * 2 ^ k + y.
Proof.
  intros Hk Hy. rewrite Z.shiftl_mul_pow2 by done. by apply (lor_add k x).
Qed.

(** ** Bitwise reasoning

    [bitwise] proves an equation between bit expressions of [Z] by comparing
    every bit: the rewriting base [zbits] pushes [Z.testbit] through the
    operators, and the comparisons of indices that remain are split. *)

Create Rewrite HintDb zbits.
#[export] Hint Rewrite Z.land_spec Z.lor_spec Z.lxor_spec Z.bits_0
  andb_false_r andb_true_r orb_false_r orb_true_r xorb_false_r
  andb_false_l andb_true_l orb_false_l orb_true_l xorb_false_l : zbits.
#[export] Hint Rewrite wrapu_spec Z.shiftr_spec Z.shiftl_spec Z.lnot_spec
  Z.testbit_ones_nonneg using lia : zbits.

Ltac bits_push := autorewrite with zbits.

Ltac bits_split :=
  repeat match goal with
  | |- context [ ?a <? ?b ] => destruct (Z.ltb_spec a b); try lia; bits_push
  | |- context [ ?a <=? ?b ] => destruct (Z.leb_spec a b); try lia; bits_push
  | |- context [ Z.testbit ?a ?i ] => rewrite (Z.testbit_neg_r a i) by lia; bits_push
  | |- context [ Z.testbit _ (?i - ?k) ] =>
      assert_fails (assert (0 <= i - k) by lia);
      destruct (Z.ltb_spec i k);
        [rewrite ?(fun a => Z.testbit_neg_r a (i - k)) by lia|]; bits_push
  end.

Ltac bitwise :=
  apply Z.bits_inj'; let i := fresh "i" in let Hi := fresh "Hi" in
  intros i Hi; bits_push; bits_split;
  try solve [repeat first [reflexivity | lia | f_equal]].

(** A test of one bit with a mask. *)
Lemma land_pow2_eqb x k : 0 ≤ k → (Z.land x (2 ^ k) =? 0) = negb (Z.testbit x k).
Proof.
  intros Hk. destruct (Z.eqb_spec (Z.land x (2 ^ k)) 0) as [E|E].
  - apply (f_equal (λ y, Z.testbit y k)) in E.
    rewrite Z.land_spec, Z.pow2_bits_true, andb_true_r, Z.bits_0 in E by done. by rewrite E.
  - destruct (Z.testbit x k) eqn:Hx; [done|]. destruct E. apply Z.bits_inj'. intros i Hi.
    rewrite Z.land_spec, Z.pow2_bits_eqb, Z.bits_0 by done.
    destruct (Z.eqb_spec k i); [subst; by rewrite Hx|apply andb_false_r].
Qed.

(** A property of a byte that [vm_compute] can decide on the 256 bytes. *)
Definition all_bytes (P : Z → bool) : bool :=
  forallb P (map Z.of_nat (seq 0 256)).

Lemma all_bytes_spec P : all_bytes P = true → ∀ x, in_u 8 x → P x = true.
Proof.
  unfold all_bytes, in_u. rewrite forallb_forall. intros H x Hx. apply H.
  apply in_map_iff. exists (Z.to_nat x). split; [lia|].
  apply in_seq. lia.
Qed.

(** ** Programs with a state and faults

    Code that mutates a store is a function of type [prog St A]. A fault ends
    the run: [FAssert] is a failed [assert] of a debug build, [FBug] a [BUG()],
    [FUndef] an access that C leaves undefined (a read or a write outside of the
    store, a null dereference, a division by zero) and [FFuel] an exhausted
    bound of a loop. *)

Inductive fault : Type := FAssert | FBug | FUndef | FFuel.

Inductive res (A : Type) : Type :=
  | Ok (x : A)
  | Err (f : fault).
Arguments Ok {A} x.
Arguments Err {A} f.

Definition prog (St A : Type) : Type := St → res (A * St).

#[global] Instance prog_ret {St} : MRet (prog St) := λ A x s, Ok (x, s).
#[global] Instance prog_bind {St} : MBind (prog St) := λ A B k m s,
  match m s with
  | Ok (x, s') => k x s'
  | Err f => Err f
  end.
#[global] Instance prog_fmap {St} : FMap (prog St) := λ A B f m s,
  match m s with
  | Ok (x, s') => Ok (f x, s')
  | Err e => Err e
  end.

Section prog_ops.
Context {St : Type}.

Definition get : prog St St := λ s, Ok (s, s).
Definition gets {A} (f : St → A) : prog St A := λ s, Ok (f s, s).
Definition put (s : St) : prog St () := λ _, Ok ((), s).
Definition modify (f : St → St) : prog St () := λ s, Ok ((), f s).
Definition fail {A} (f : fault) : prog St A := λ _, Err f.
Definition assert_ (b : bool) : prog St () :=
  if b then mret () else fail FAssert.
(** The value of an access that is undefined when [o] is [None]. *)
Definition defined {A} (o : option A) : prog St A :=
  match o with Some x => mret x | None => fail FUndef end.
Definition when (b : bool) (m : prog St ()) : prog St () :=
  if b then m else mret ().

(** A loop over its local variables [a]: the body returns [inl] to go round
    again and [inr] to leave the loop. [fuel] bounds the number of rounds. *)
Fixpoint loop {A R} (fuel : nat) (body : A → prog St (A + R)) (a : A)
  : prog St R :=
  match fuel with
  | O => fail FFuel
  | S n =>
      r ← body a;
      match r with
      | inl a' => loop n body a'
      | inr x => mret x
      end
  end.

Lemma loop_next {A R} n (body : A → prog St (A + R)) a a' s s' :
  body a s = Ok (inl a', s') → loop (S n) body a s = loop n body a' s'.
Proof. intros H. cbn. unfold mbind, prog_bind. by rewrite H. Qed.

Lemma loop_exit {A R} n (body : A → prog St (A + R)) a x s s' :
  body a s = Ok (inr x, s') → loop (S n) body a s = Ok (x, s').
Proof. intros H. cbn. unfold mbind, prog_bind. by rewrite H. Qed.

Lemma bind_Ok {A B} (m : prog St A) (k : A → prog St B) s x s' :
  m s = Ok (x, s') → (m ≫= k) s = k x s'.
Proof. intros H. unfold mbind, prog_bind. by rewrite H. Qed.

Lemma bind_Err {A B} (m : prog St A) (k : A → prog St B) s f :
  m s = Err f → (m ≫= k) s = Err f.
Proof. intros H. unfold mbind, prog_bind. by rewrite H. Qed.

Lemma bind_inv {A B} (m : prog St A) (k : A → prog St B) s y s' :
  (m ≫= k) s = Ok (y, s') →
  ∃ x s1, m s = Ok (x, s1) ∧ k x s1 = Ok (y, s').
Proof.
  unfold mbind, prog_bind. destruct (m s) as [[x s1]|f]; [eauto|done].
Qed.

(** The total correctness rule of [loop]: an invariant that every round keeps
    while a measure decreases, and that a leaving round turns into [Post]. *)
Lemma loop_total {A R} (Inv : A → St → Prop) (meas : A → St → nat)
    (Post : R → St → Prop) (body : A → prog St (A + R)) :
  (∀ a s, Inv a s → ∃ r s', body a s = Ok (r, s') ∧
    match r with
    | inl a' => Inv a' s' ∧ (meas a' s' < meas a s)%nat
    | inr x => Post x s'
    end) →
  ∀ fuel a s, Inv a s → (meas a s < fuel)%nat →
  ∃ x s', loop fuel body a s = Ok (x, s') ∧ Post x s'.
Proof.
  intros Hbody fuel. induction fuel as [|n IH]; intros a s Ha Hf; [lia|].
  destruct (Hbody a s Ha) as (r & s' & Hr & Hpost). simpl.
  rewrite (bind_Ok _ _ _ _ _ Hr). destruct r as [a'|x].
  - destruct Hpost as [Ha' Hm]. apply IH; [done|lia].
  - by exists x, s'.
Qed.
End prog_ops.
#[global] Arguments loop : simpl never.

(** [prog_simpl] runs the statements whose results are known: the rewriting base
    [prog] has one equation per primitive statement in front of a continuation.
    [prog_step H] runs a first statement whose result [H] gives. *)

Section prog_equations.
Context {St A B : Type}.
Implicit Types (m : prog St A) (k : A → prog St B) (s : St).

Lemma run_ret x s : (mret x : prog St A) s = Ok (x, s).
Proof. done. Qed.
Lemma run_bind_ret x k s : ((mret x : prog St A) ≫= k) s = k x s.
Proof. done. Qed.
Lemma run_bind_get (k : St → prog St B) s : (get ≫= k) s = k s s.
Proof. done. Qed.
Lemma run_bind_gets f k s : (gets f ≫= k) s = k (f s) s.
Proof. done. Qed.
Lemma run_put s s' : put s' s = Ok ((), s').
Proof. done. Qed.
Lemma run_bind_put (k : () → prog St B) s s' : (put s' ≫= k) s = k () s'.
Proof. done. Qed.
Lemma run_bind_modify f (k : () → prog St B) s : (modify f ≫= k) s = k () (f s).
Proof. done. Qed.
Lemma run_bind_defined x k s : (defined (Some x) ≫= k) s = k x s.
Proof. done. Qed.
Lemma run_bind_assert (k : () → prog St B) s : (assert_ true ≫= k) s = k () s.
Proof. done. Qed.
Lemma run_bind_bind {C} (m : prog St C) (k' : C → prog St A) k s :
  ((m ≫= k') ≫= k) s = (m ≫= λ x, k' x ≫= k) s.
Proof. unfold mbind, prog_bind. by destruct (m s) as [[]|]. Qed.
Lemma run_if (c : bool) (m1 m2 : prog St A) s :
  (if c then m1 else m2) s = if c then m1 s else m2 s.
Proof. by destruct c. Qed.
Lemma run_bind_if (c : bool) (m1 m2 : prog St A) k s :
  ((if c then m1 else m2) ≫= k) s = if c then (m1 ≫= k) s else (m2 ≫= k) s.
Proof. by destruct c. Qed.
End prog_equations.

Create Rewrite HintDb prog.
#[export] Hint Rewrite @run_ret @run_bind_ret @run_bind_get @run_bind_gets
  @run_put @run_bind_put @run_bind_modify @run_bind_defined @run_bind_assert
  @run_bind_bind @run_if @run_bind_if : prog.

Ltac prog_simpl := repeat (progress autorewrite with prog; cbn beta iota).
Ltac prog_step H := rewrite (bind_Ok _ _ _ _ _ H); prog_simpl.

(** ** Total correctness of programs

    [ends m s Q]: from the state [s] the program ends without a fault, and [Q] holds of
    its result and of the state that it leaves. *)

Section ends.
Context {St : Type}.
Implicit Types (s : St).

Definition ends {A} (m : prog St A) s (Q : A → St → Prop) : Prop :=
  ∃ x s', m s = Ok (x, s') ∧ Q x s'.

Lemma ends_bind {A B} (m : prog St A) (k : A → prog St B) s Q :
  ends m s (λ x s1, ends (k x) s1 Q) → ends (m ≫= k) s Q.
Proof.
  intros (x & s1 & H1 & y & s2 & H2 & HQ). exists y, s2.
  by rewrite (bind_Ok _ _ _ _ _ H1).
Qed.

Lemma ends_assoc {A B C} (m : prog St A) (k : A → prog St B) (l : B → prog St C) s Q :
  ends ((m ≫= k) ≫= l) s Q → ends (m ≫= λ x, k x ≫= l) s Q.
Proof. unfold ends. by rewrite run_bind_bind. Qed.

Lemma ends_mono {A} (m : prog St A) s (P Q : A → St → Prop) :
  ends m s P → (∀ x s', P x s' → Q x s') → ends m s Q.
Proof. intros (x & s' & H1 & HP) HPQ. exists x, s'. eauto. Qed.

(** A first statement with a known specification. *)
Lemma ends_seq {A B} (m : prog St A) (k : A → prog St B) s (P : A → St → Prop) Q :
  ends m s P → (∀ x s1, P x s1 → ends (k x) s1 Q) → ends (m ≫= k) s Q.
Proof. intros Hm Hk. apply ends_bind. by eapply ends_mono. Qed.

Lemma ends_ret {A} (x : A) s (Q : A → St → Prop) : Q x s → ends (mret x) s Q.
Proof. intros HQ. by exists x, s. Qed.

Lemma ends_get s (Q : St → St → Prop) : Q s s → ends get s Q.
Proof. intros HQ. by exists s, s. Qed.

Lemma ends_put s s' (Q : () → St → Prop) : Q () s' → ends (put s') s Q.
Proof. intros HQ. by exists (), s'. Qed.

Lemma ends_modify f s (Q : () → St → Prop) : Q () (f s) → ends (modify f) s Q.
Proof. intros HQ. by exists (), (f s). Qed.

Lemma ends_when (c : bool) (m : prog St ()) s Q :
  (c = true → ends m s Q) → (c = false → Q () s) → ends (when c m) s Q.
Proof. destruct c; intros H1 H2; [by apply H1|]. by apply ends_ret, H2. Qed.

Lemma ends_defined {A} (o : option A) x s (Q : A → St → Prop) : o = Some x → Q x s → ends (defined o) s Q.
Proof. intros -> HQ. by apply ends_ret. Qed.

Lemma ends_inv {A} (m : prog St A) s Q r s' : ends m s Q → m s = Ok (r, s') → Q r s'.
Proof. intros (x & s1 & H1 & HQ) H2. congruence. Qed.
End ends.

(** A program on a part of the state. *)
Definition zoom {S T A} (g : S → T) (p : T → S → S) (m : prog T A) : prog S A := λ s,
  match m (g s) with
  | Ok (x, t) => Ok (x, p t s)
  | Err f => Err f
  end.

Lemma zoom_Ok {S T A} (g : S → T) p (m : prog T A) s x t :
  m (g s) = Ok (x, t) → zoom g p m s = Ok (x, p t s).
Proof. intros H. unfold zoom. by rewrite H. Qed.

Lemma ends_zoom {S T A} (g : S → T) p (m : prog T A) s (Q : A → S → Prop) :
  ends m (g s) (λ x t, Q x (p t s)) → ends (zoom g p m) s Q.
Proof. intros (x & t & H & HQ). exists x, (p t s). split; [by apply zoom_Ok|done]. Qed.

(** ** What a program leaves of its state *)

(** Every run of the program relates the states before and after it by [R]. *)
Definition within {St A} (R : St → St → Prop) (m : prog St A) : Prop := ∀ s x s', m s = Ok (x, s') → R s s'.

Section within.
Context {St : Type} (R : St → St → Prop) `{!PreOrder R}.
#[local] Set Default Proof Using "All".

Lemma within_ret {A} (x : A) : within R (mret x).
Proof. intros s y s' [= <- <-]. done. Qed.
Lemma within_bind {A B} (m : prog St A) (k : A → prog St B) : within R m → (∀ x, within R (k x)) → within R (m ≫= k).
Proof. intros Hm Hk s y s' (x & s1 & H1 & H2)%bind_inv. etrans; [by eapply Hm|by eapply Hk]. Qed.
Lemma within_get : within R get.
Proof. intros s y s' [= <- <-]. done. Qed.
Lemma within_modify f : (∀ s, R s (f s)) → within R (modify f).
Proof. intros Hf s y s' [= <- <-]. done. Qed.
Lemma within_defined {A} (o : option A) : within R (defined o).
Proof. intros s y s' H. destruct o; [injection H as <- <-; done|done]. Qed.
Lemma within_fail {A} f : within R (fail f : prog St A).
Proof using Type. done. Qed.
Lemma within_when (c : bool) m : within R m → within R (when c m).
Proof. destruct c; [done|intros _; apply within_ret]. Qed.
Lemma within_loop {A B} n (body : A → prog St (A + B)) a : (∀ a, within R (body a)) → within R (loop n body a).
Proof.
  intros Hb. revert a. induction n as [|n IH]; intros a; [apply within_fail|].
  apply within_bind; [apply Hb|]. intros [a'|x]; [apply IH|apply within_ret].
Qed.
End within.

Ltac within_step :=
  lazymatch goal with
  | |- within _ (fail _) => apply within_fail
  | |- within _ (mret _) => notypeclasses refine (within_ret _ _); apply _
  | |- within _ get => notypeclasses refine (within_get _); apply _
  | |- within _ (defined _) => notypeclasses refine (within_defined _ _); apply _
  | |- within _ (when _ _) => notypeclasses refine (within_when _ _ _ _); [apply _|]
  | |- within _ (modify _) => notypeclasses refine (within_modify _ _ _); [apply _|intros ?]
  | |- within _ (loop _ _ _) => notypeclasses refine (within_loop _ _ _ _ _); [apply _|intros ?]
  | |- within _ (_ ≫= _) => notypeclasses refine (within_bind _ _ _ _ _); [apply _| |intros ?]
  | |- within _ (match ?x with _ => _ end) => destruct x
  end.

(** ** Lists *)

(** [list_z l i] is the element at the index [i] of C, undefined outside. *)
Definition znth {A} (l : list A) (i : Z) : option A :=
  if i <? 0 then None else l !! Z.to_nat i.

Definition zset {A} (l : list A) (i : Z) (x : A) : option (list A) :=
  if (0 <=? i) && (i <? Z.of_nat (length l))
  then Some (<[Z.to_nat i := x]> l) else None.

Abbreviation zlen l := (Z.of_nat (length l)).

Lemma znth_Some {A} (l : list A) i :
  0 ≤ i < zlen l → ∃ x, znth l i = Some x ∧ l !! Z.to_nat i = Some x.
Proof.
  intros Hi. unfold znth. destruct (Z.ltb_spec i 0); [lia|].
  destruct (lookup_lt_is_Some_2 l (Z.to_nat i)) as [x Hx]; [lia|]. eauto.
Qed.

Lemma znth_lookup {A} (l : list A) i : 0 ≤ i → znth l i = l !! Z.to_nat i.
Proof. intros. unfold znth. destruct (Z.ltb_spec i 0); [lia|done]. Qed.

Lemma zset_Some {A} (l : list A) i x :
  0 ≤ i < zlen l → zset l i x = Some (<[Z.to_nat i := x]> l).
Proof.
  intros Hi. unfold zset.
  destruct (Z.leb_spec 0 i); [|lia]. destruct (Z.ltb_spec i (zlen l)); [done|lia].
Qed.

(** The arithmetic of an index that wraps around once. *)
Lemma mod_once c x : 0 ≤ x < 2 * c → x mod c = if x <? c then x else x - c.
Proof.
  intros Hx. destruct (Z.ltb_spec x c); [apply Z.mod_small; lia|].
  symmetry. apply (Z.mod_unique_pos _ _ 1); lia.
Qed.

Lemma rem_mod c x : 0 ≤ x → 0 < c → Z.rem x c = x mod c.
Proof. intros. apply Z.rem_mod_nonneg; lia. Qed.

Lemma lookup_take_drop {A} (l : list A) (i c j : nat) :
  (j < c)%nat → take c (drop i l) !! j = l !! (i + j)%nat.
Proof. intros. rewrite lookup_take_lt by done. apply lookup_drop. Qed.

Lemma list_bind_ext_in {A B} (f g : A → list B) l : (∀ x, x ∈ l → f x = g x) → l ≫= f = l ≫= g.
Proof.
  induction l as [|x l IH]; intros H; [done|]. rewrite !bind_cons, H by set_solver. f_equal.
  apply IH. set_solver.
Qed.
