(* ===== verification/Memory.v ===== *)
(** * Byte-addressed memory

    The memory that the C library routines and the codecs of [endian.h] run on:
    a finite map from addresses to bytes. An access outside of the map is
    undefined behaviour ([FUndef]). [bytes m a l] says that [m] holds the bytes
    [l] from the address [a] on, [upd m a l] is [m] with these bytes replaced;
    they are how the theorems state which bytes a routine reads and writes. *)

From S2P Require Import Prelude.

Abbreviation mem := (gmap Z Z).

Definition load8 (a : Z) : prog mem Z := λ m,
  match m !! a with Some b => Ok (b, m) | None => Err FUndef end.

Definition store8 (a v : Z) : prog mem () := λ m,
  match m !! a with Some _ => Ok ((), <[a := wrapu 8 v]> m) | None => Err FUndef end.

(** The memory [m] holds the bytes [l] at [a]. *)
Definition bytes (m : mem) (a : Z) (l : list Z) : Prop :=
  ∀ i b, l !! i = Some b → m !! (a + Z.of_nat i) = Some b.

(** [n] bytes are mapped at [a]. *)
Definition mapped (m : mem) (a : Z) (n : nat) : Prop :=
  ∀ i, (i < n)%nat → is_Some (m !! (a + Z.of_nat i)).

Fixpoint upd (m : mem) (a : Z) (l : list Z) : mem :=
  match l with
  | [] => m
  | b :: l' => upd (<[a := b]> m) (a + 1) l'
  end.

Definition all_u8 (l : list Z) : Prop := Forall (in_u 8) l.

(** ** Reading *)

Lemma bytes_cons m a b l :
  bytes m a (b :: l) ↔ m !! a = Some b ∧ bytes m (a + 1) l.
Proof.
  split.
  - intros H. split.
    + rewrite <- (H 0%nat b eq_refl). f_equal. lia.
    + intros i x Hx. rewrite <- (H (S i) x Hx). f_equal. lia.
  - intros [Hb Hl] [|i] x Hx; cbn in Hx.
    + simplify_eq. rewrite <- Hb. f_equal. lia.
    + rewrite <- (Hl i x Hx). f_equal. lia.
Qed.

Lemma bytes_nil m a : bytes m a [].
Proof. intros i b. by rewrite lookup_nil. Qed.

Lemma bytes_app m a l1 l2 :
  bytes m a (l1 ++ l2) ↔ bytes m a l1 ∧ bytes m (a + zlen l1) l2.
Proof.
  revert a. induction l1 as [|b l1 IH]; intros a; cbn [app length].
  - replace (a + Z.of_nat 0) with a by lia.
    split; [intros H; split; [apply bytes_nil|done]|tauto].
  - rewrite !bytes_cons, IH.
    replace (a + 1 + zlen l1) with (a + Z.of_nat (S (length l1))) by lia. tauto.
Qed.

Lemma bytes_mapped m a l : bytes m a l → mapped m a (length l).
Proof.
  intros H i Hi. destruct (lookup_lt_is_Some_2 l i Hi) as [b Hb].
  exists b. by apply H.
Qed.

Lemma mapped_S m a n :
  mapped m a (S n) ↔ is_Some (m !! a) ∧ mapped m (a + 1) n.
Proof.
  split.
  - intros H. split.
    + replace a with (a + Z.of_nat 0) by lia. apply H. lia.
    + intros i Hi. replace (a + 1 + Z.of_nat i) with (a + Z.of_nat (S i)) by lia.
      apply H. lia.
  - intros [Ha H] [|i] Hi; [by replace (a + Z.of_nat 0) with a by lia|].
    replace (a + Z.of_nat (S i)) with (a + 1 + Z.of_nat i) by lia. apply H. lia.
Qed.

Lemma mapped_le m a n n' : mapped m a n → (n' ≤ n)%nat → mapped m a n'.
Proof. intros H Hn i Hi. apply H. lia. Qed.

Lemma load8_run m a b : m !! a = Some b → load8 a m = Ok (b, m).
Proof. intros H. unfold load8. by rewrite H. Qed.

Lemma store8_run m a v :
  is_Some (m !! a) → store8 a v m = Ok ((), <[a := wrapu 8 v]> m).
Proof. intros [b H]. unfold store8. by rewrite H. Qed.

(** ** Writing *)

Lemma upd_lookup_out l : ∀ m a x,
  x < a ∨ a + zlen l ≤ x → upd m a l !! x = m !! x.
Proof.
  induction l as [|b l IH]; intros m a x Hx; cbn in *; [done|].
  rewrite IH by lia. apply lookup_insert_ne. lia.
Qed.

Lemma upd_bytes l : ∀ m a, bytes (upd m a l) a l.
Proof.
  induction l as [|b l IH]; intros m a; [apply bytes_nil|].
  apply bytes_cons. cbn. split; [|apply IH].
  rewrite upd_lookup_out by lia. apply lookup_insert_eq.
Qed.

Lemma upd_app l1 : ∀ m a l2, upd m a (l1 ++ l2) = upd (upd m a l1) (a + zlen l1) l2.
Proof.
  induction l1 as [|b l1 IH]; intros m a l2; cbn [app upd length].
  - f_equal. lia.
  - rewrite IH. f_equal. lia.
Qed.

Lemma upd_bytes_out m a l a' l' :
  bytes m a' l' → (a' + zlen l' ≤ a ∨ a + zlen l ≤ a') → bytes (upd m a l) a' l'.
Proof.
  intros H Hd i b Hb. pose proof (lookup_lt_Some _ _ _ Hb).
  rewrite upd_lookup_out by lia. by apply H.
Qed.

Lemma upd_mapped l : ∀ m a a' n, mapped m a' n → mapped (upd m a l) a' n.
Proof.
  induction l as [|b l IH]; intros m a a' n H; [done|]. cbn. apply IH.
  intros i Hi. destruct (decide (a' + Z.of_nat i = a)) as [<-|].
  - rewrite lookup_insert_eq. eauto.
  - rewrite lookup_insert_ne by done. by apply H.
Qed.

Lemma insert_mapped m a b a' n : mapped m a' n → mapped (<[a := b]> m) a' n.
Proof. apply (upd_mapped [b] m a a' n). Qed.

Lemma upd_id l : ∀ m a, bytes m a l → upd m a l = m.
Proof.
  induction l as [|b l IH]; intros m a; [done|].
  rewrite bytes_cons. intros [Hb Hl]. cbn.
  rewrite (insert_id m a b) by done. by apply IH.
Qed.

(** Stores at the successive offsets of a pointer extend the run of bytes that
    [upd] has written; loads at the offsets of a run find its bytes. *)
Lemma store8_next m a n l v k :
  mapped m a n → k = zlen l → (length l < n)%nat →
  store8 (a + k) v (upd m a l) = Ok ((), upd m a (l ++ [wrapu 8 v])).
Proof.
  intros Hm -> Hl. rewrite store8_run, upd_app; [done|].
  destruct (Hm (length l) Hl) as [b Hb]. exists b. rewrite upd_lookup_out by lia. done.
Qed.

Lemma store8_first m a n v :
  mapped m a (S n) → store8 a v m = Ok ((), upd m a [wrapu 8 v]).
Proof. intros Hm. apply mapped_S in Hm. rewrite store8_run by tauto. done. Qed.

Lemma load8_at m a l k x :
  bytes m a l → 0 ≤ k → l !! Z.to_nat k = Some x → load8 (a + k) m = Ok (x, m).
Proof.
  intros H Hk Hx. apply load8_run. specialize (H _ _ Hx).
  by rewrite Z2Nat.id in H by done.
Qed.

Lemma load8_first m a x l : bytes m a (x :: l) → load8 a m = Ok (x, m).
Proof. rewrite bytes_cons. intros [H _]. by apply load8_run. Qed.

(** ** Numbers in bytes *)

(** The [n] least significant bytes of [u], the least significant one first. *)
Fixpoint le_bytes (n : nat) (u : Z) : list Z :=
  match n with
  | O => []
  | S n' => u mod 256 :: le_bytes n' (u / 256)
  end.

Fixpoint le_val (l : list Z) : Z :=
  match l with
  | [] => 0
  | b :: l' => b + 256 * le_val l'
  end.

Lemma le_bytes_length n : ∀ u, length (le_bytes n u) = n.
Proof. induction n as [|n IH]; intros u; cbn; [done|by rewrite IH]. Qed.

Lemma le_bytes_u8 n : ∀ u, all_u8 (le_bytes n u).
Proof.
  unfold all_u8. induction n as [|n IH]; intros u; constructor; [|apply IH].
  apply Z.mod_pos_bound. lia.
Qed.

Lemma le_val_bytes n : ∀ u, 0 ≤ u < 256 ^ Z.of_nat n → le_val (le_bytes n u) = u.
Proof.
  induction n as [|n IH]; intros u Hu; cbn [le_bytes le_val].
  - change (256 ^ Z.of_nat 0) with 1 in Hu. lia.
  - rewrite Nat2Z.inj_succ, Z.pow_succ_r in Hu by lia.
    rewrite IH; [pose proof (Z.div_mod u 256); lia|].
    split; [apply Z.div_pos; lia|apply Z.div_lt_upper_bound; lia].
Qed.

Lemma le_bytes_val l : all_u8 l → le_bytes (length l) (le_val l) = l.
Proof.
  unfold all_u8, in_u. change (2 ^ 8) with 256.
  induction 1 as [|b l Hb Hl IH]; cbn; [done|].
  replace ((b + 256 * le_val l) mod 256) with b
    by (rewrite Z.mul_comm, Z.mod_add by lia; by rewrite Z.mod_small by lia).
  replace ((b + 256 * le_val l) / 256) with (le_val l); [by rewrite IH|].
  rewrite Z.mul_comm, Z.div_add by lia. rewrite Z.div_small by lia. lia.
Qed.

Lemma le_val_range l : all_u8 l → 0 ≤ le_val l < 256 ^ zlen l.
Proof.
  unfold all_u8, in_u. change (2 ^ 8) with 256.
  induction 1 as [|b l Hb Hl IH]; cbn [le_val length].
  - change (256 ^ Z.of_nat 0) with 1. lia.
  - rewrite Nat2Z.inj_succ, Z.pow_succ_r by lia. lia.
Qed.

Lemma le_bytes_add n k : ∀ u,
  le_bytes (n + k) u = le_bytes n u ++ le_bytes k (u / 256 ^ Z.of_nat n).
Proof.
  induction n as [|n IH]; intros u; cbn [le_bytes Nat.add app].
  - change (256 ^ Z.of_nat 0) with 1. by rewrite Z.div_1_r.
  - rewrite IH, Nat2Z.inj_succ, Z.pow_succ_r, Z.div_div by lia. done.
Qed.

Lemma le_bytes_mod n : ∀ u, le_bytes n (u mod 256 ^ Z.of_nat n) = le_bytes n u.
Proof.
  induction n as [|n IH]; intros u; cbn [le_bytes]; [done|].
  rewrite Nat2Z.inj_succ, Z.pow_succ_r by lia.
  rewrite Z.rem_mul_r by lia. f_equal.
  - rewrite Z.mul_comm, Z_mod_plus_full. apply Z.mod_mod. lia.
  - rewrite Z.mul_comm, Z.div_add, Z.div_small by (lia || apply Z.mod_pos_bound; lia).
    apply IH.
Qed.

Lemma le_val_app l1 : ∀ l2, le_val (l1 ++ l2) = le_val l1 + 256 ^ zlen l1 * le_val l2.
Proof.
  induction l1 as [|b l1 IH]; intros l2; cbn [le_val app length].
  - change (256 ^ Z.of_nat 0) with 1. lia.
  - rewrite IH, Nat2Z.inj_succ, Z.pow_succ_r by lia. lia.
Qed.
