(* ===== verification/Endian.v ===== *)
(** * Byte order and alignment

    The conversions of [include/endian.h], the alignment arithmetic of
    [include/types.h] and the size of a page. The machine is a big-endian 32-bit PowerPC, so the
    [htobe]/[be..toh] macros are the identity and the [htole]/[le..toh] ones
    swap. [enc_dec_spec] relates the codecs to the positional representation of
    a number in bytes. *)

From S2P Require Import Prelude Memory.

(** ** The swaps, line by line *)

Definition bswap16 (x : Z) : Z :=
  u16 (Z.lor (Z.shiftl (Z.land x 0x00ff) 8) (Z.shiftr (Z.land x 0xff00) 8)).

Definition bswap32 (x : Z) : Z :=
  u32 (Z.lor (Z.lor (Z.lor (Z.shiftl (Z.land x 0x000000ff) 24)
                           (Z.shiftl (Z.land x 0x0000ff00) 8))
                    (Z.shiftr (Z.land x 0x00ff0000) 8))
             (Z.shiftr (Z.land x 0xff000000) 24)).

Definition bswap64 (x : Z) : Z :=
  let th := bswap32 (u32 (Z.land x 0x00000000ffffffff)) in
  let tl := bswap32 (u32 (Z.land (Z.shiftr x 32) 0x00000000ffffffff)) in
  Z.lor (u64 (Z.shiftl th 32)) tl.

Definition htobe16 (x : Z) : Z := x.
Definition htobe32 (x : Z) : Z := x.
Definition htobe64 (x : Z) : Z := x.
Definition htole16 (x : Z) : Z := bswap16 x.
Definition htole32 (x : Z) : Z := bswap32 x.
Definition htole64 (x : Z) : Z := bswap64 x.
Definition be16toh (x : Z) : Z := x.
Definition be32toh (x : Z) : Z := x.
Definition be64toh (x : Z) : Z := x.
Definition le16toh (x : Z) : Z := bswap16 x.
Definition le32toh (x : Z) : Z := bswap32 x.
Definition le64toh (x : Z) : Z := bswap64 x.

(** ** The codecs on memory *)

Definition be16enc (buf u : Z) : prog mem () :=
  store8 buf (Z.land (Z.shiftr u 8) 0xff);;
  store8 (buf + 1) (Z.land u 0xff).

Definition le16enc (buf u : Z) : prog mem () :=
  store8 buf (Z.land u 0xff);;
  store8 (buf + 1) (Z.land (Z.shiftr u 8) 0xff).

Definition be16dec (buf : Z) : prog mem Z :=
  p0 ← load8 buf; p1 ← load8 (buf + 1);
  mret (u16 (Z.lor (Z.shiftl p0 8) p1)).

Definition le16dec (buf : Z) : prog mem Z :=
  p1 ← load8 (buf + 1); p0 ← load8 buf;
  mret (u16 (Z.lor (Z.shiftl p1 8) p0)).

Definition be32enc (buf u : Z) : prog mem () :=
  store8 buf (Z.land (Z.shiftr u 24) 0xff);;
  store8 (buf + 1) (Z.land (Z.shiftr u 16) 0xff);;
  store8 (buf + 2) (Z.land (Z.shiftr u 8) 0xff);;
  store8 (buf + 3) (Z.land u 0xff).

Definition le32enc (buf u : Z) : prog mem () :=
  store8 buf (Z.land u 0xff);;
  store8 (buf + 1) (Z.land (Z.shiftr u 8) 0xff);;
  store8 (buf + 2) (Z.land (Z.shiftr u 16) 0xff);;
  store8 (buf + 3) (Z.land (Z.shiftr u 24) 0xff).

Definition be32dec (buf : Z) : prog mem Z :=
  p0 ← load8 buf; p1 ← load8 (buf + 1); p2 ← load8 (buf + 2); p3 ← load8 (buf + 3);
  mret (u32 (Z.lor (Z.lor (Z.lor (Z.shiftl p0 24) (Z.shiftl p1 16)) (Z.shiftl p2 8)) p3)).

Definition le32dec (buf : Z) : prog mem Z :=
  p3 ← load8 (buf + 3); p2 ← load8 (buf + 2); p1 ← load8 (buf + 1); p0 ← load8 buf;
  mret (u32 (Z.lor (Z.lor (Z.lor (Z.shiftl p3 24) (Z.shiftl p2 16)) (Z.shiftl p1 8)) p0)).

Definition be64enc (buf u : Z) : prog mem () :=
  be32enc buf (u32 (Z.shiftr u 32));;
  be32enc (buf + 4) (u32 (Z.land u 0xffffffff)).

Definition le64enc (buf u : Z) : prog mem () :=
  le32enc buf (u32 (Z.land u 0xffffffff));;
  le32enc (buf + 4) (u32 (Z.shiftr u 32)).

Definition be64dec (buf : Z) : prog mem Z :=
  h ← be32dec buf; l ← be32dec (buf + 4);
  mret (Z.lor (u64 (Z.shiftl h 32)) l).

Definition le64dec (buf : Z) : prog mem Z :=
  l ← le32dec buf; h ← le32dec (buf + 4);
  mret (Z.lor l (u64 (Z.shiftl h 32))).

(** ** Alignment of 32-bit words *)

(** A page of memory, in [kernel/include/kconst.h]: what the heap and the memory manager align to. *)
Definition PageSize : Z := Z.shiftl 1 12.

Definition addOffset (arg offset : Z) : Z := u32 (arg + offset).
Definition mask (arg mask : Z) : Z := Z.land arg mask.
Definition alignDown (arg align : Z) : Z := Z.land arg (notu 32 (u32 (align - 1))).
Definition alignUp (arg align : Z) : Z :=
  Z.land (u32 (arg + u32 (align - 1))) (notu 32 (u32 (align - 1))).
Definition isAlligned (arg align : Z) : bool :=
  Z.land arg (notu 32 (u32 (align - 1))) =? 0.

(** ** What the codecs promise

    [enc]/[dec] pick the routine of a byte order and a width. A number [u] of
    [n] bytes is written as its [n] digits in base 256, and a run of [n] bytes
    is read as the number whose digits it is. *)

Inductive order := BE | LE.
Inductive width := W16 | W32 | W64.

Definition nbytes (w : width) : nat :=
  match w with W16 => 2 | W32 => 4 | W64 => 8 end.

Definition enc (o : order) (w : width) : Z → Z → prog mem () :=
  match o, w with
  | BE, W16 => be16enc | BE, W32 => be32enc | BE, W64 => be64enc
  | LE, W16 => le16enc | LE, W32 => le32enc | LE, W64 => le64enc
  end.

Definition dec (o : order) (w : width) : Z → prog mem Z :=
  match o, w with
  | BE, W16 => be16dec | BE, W32 => be32dec | BE, W64 => be64dec
  | LE, W16 => le16dec | LE, W32 => le32dec | LE, W64 => le64dec
  end.

Definition digits (o : order) (n : nat) (u : Z) : list Z :=
  match o with BE => rev (le_bytes n u) | LE => le_bytes n u end.

Definition number (o : order) (l : list Z) : Z :=
  match o with BE => le_val (rev l) | LE => le_val l end.

Lemma digits_length o n u : length (digits o n u) = n.
Proof. destruct o; cbn; by rewrite ?length_rev, le_bytes_length. Qed.

Lemma digits_u8 o n u : all_u8 (digits o n u).
Proof.
  destruct o; [|apply le_bytes_u8].
  unfold all_u8. cbn. apply Forall_rev. apply le_bytes_u8.
Qed.

Lemma number_digits o n u :
  0 ≤ u < 256 ^ Z.of_nat n → number o (digits o n u) = u.
Proof. intros. destruct o; cbn; rewrite ?rev_involutive; by apply le_val_bytes. Qed.

Lemma digits_number o l : all_u8 l → digits o (length l) (number o l) = l.
Proof.
  intros H. destruct o; cbn; [|by apply le_bytes_val].
  rewrite <- (length_rev l). rewrite le_bytes_val; [apply rev_involutive|].
  unfold all_u8. by apply Forall_rev.
Qed.

(** The byte that [(u >> k) & 0xff] stores. *)
Lemma shr_byte u k : 0 ≤ k → wrapu 8 (Z.land (Z.shiftr u k) 0xff) = (u / 2 ^ k) mod 256.
Proof.
  intros Hk. change 0xff with (Z.ones 8).
  rewrite <- wrapu_ones, wrapu_wrapu by lia. by rewrite Z.shiftr_div_pow2 by done.
Qed.

Lemma low_byte u : wrapu 8 (Z.land u 0xff) = u mod 256.
Proof.
  change 0xff with (Z.ones 8). by rewrite <- wrapu_ones, wrapu_wrapu by lia.
Qed.

Ltac store_all H :=
  first [ erewrite bind_Ok; [|by eapply store8_first]
        | erewrite bind_Ok; [|by eapply store8_next; [exact H| |cbn; lia]]
        | erewrite store8_next; [|exact H|done|cbn; lia] ]; cbn [app].

Lemma enc16_spec o a u m :
  mapped m a 2 → enc o W16 a u m = Ok ((), upd m a (digits o 2 u)).
Proof.
  intros H. destruct o; cbn [enc]; unfold be16enc, le16enc; repeat store_all H;
    by rewrite shr_byte, low_byte by lia.
Qed.

Lemma enc32_spec o a u m :
  mapped m a 4 → enc o W32 a u m = Ok ((), upd m a (digits o 4 u)).
Proof.
  intros H. destruct o; cbn [enc]; unfold be32enc, le32enc; repeat store_all H;
    rewrite !shr_byte, low_byte by lia; cbn [digits rev le_bytes app];
    rewrite !Zdiv.Zdiv_Zdiv by lia; done.
Qed.

Lemma enc64_spec o a u m :
  mapped m a 8 → enc o W64 a u m = Ok ((), upd m a (digits o 8 u)).
Proof.
  intros H.
  assert (∀ k, le_bytes 4 (u32 k) = le_bytes 4 k) as Hmod by (intros k; apply (le_bytes_mod 4)).
  assert (∀ v w, (enc o W32 a v;; enc o W32 (a + 4) w) m
            = Ok ((), upd m a (digits o 4 v ++ digits o 4 w))) as Hrun.
  { intros v w. erewrite bind_Ok; [|apply enc32_spec, (mapped_le m a 8); [done|lia]].
    rewrite enc32_spec, upd_app, digits_length; [done|].
    apply upd_mapped. intros i Hi. specialize (H (4 + i)%nat ltac:(lia)).
    by replace (a + 4 + Z.of_nat i) with (a + Z.of_nat (4 + i)) by lia. }
  change 8%nat with (4 + 4)%nat. unfold digits.
  rewrite (le_bytes_add 4 4), <- (Hmod (u / _)), <- (Hmod u).
  change (256 ^ Z.of_nat 4) with (2 ^ 32). rewrite <- Z.shiftr_div_pow2 by lia.
  change (wrapu 32 u) with (u mod 2 ^ 32).
  replace (u mod 2 ^ 32) with (u32 (Z.land u 0xffffffff)).
  - destruct o; [|apply Hrun]. rewrite rev_app_distr. apply Hrun.
  - change 0xffffffff with (Z.ones 32). rewrite <- wrapu_ones by lia.
    by apply wrapu_wrapu.
Qed.

Lemma enc_spec o w a u m :
  mapped m a (nbytes w) →
  enc o w a u m = Ok ((), upd m a (digits o (nbytes w) u)).
Proof. destruct w; [apply enc16_spec|apply enc32_spec|apply enc64_spec]. Qed.

Ltac load_all H :=
  first [ erewrite bind_Ok; [|by eapply load8_first]
        | erewrite bind_Ok; [|by eapply load8_at; [exact H|lia|reflexivity]] ].

(** The [|] of bytes shifted to disjoint places is their sum. *)
Lemma lor_bytes4 x3 x2 x1 x0 :
  all_u8 [x0; x1; x2; x3] →
  u32 (Z.lor (Z.lor (Z.lor (Z.shiftl x3 24) (Z.shiftl x2 16)) (Z.shiftl x1 8)) x0)
  = le_val [x0; x1; x2; x3].
Proof.
  intros H. assert (Hr := le_val_range _ H). change (256 ^ _) with (2 ^ 32) in Hr.
  unfold all_u8, in_u in H. rewrite !Forall_cons in H. cbn [le_val] in *.
  rewrite !Z.shiftl_mul_pow2 by lia.
  rewrite (lor_add 24 x3 (x3 * 2 ^ 24) (x2 * 2 ^ 16)) by lia.
  rewrite (lor_add 16 (x3 * 2 ^ 8 + x2) _ (x1 * 2 ^ 8)) by lia.
  rewrite (lor_add 8 (x3 * 2 ^ 16 + x2 * 2 ^ 8 + x1) _ x0) by lia.
  rewrite wrapu_id by (unfold in_u; lia). lia.
Qed.

Lemma lor_bytes2 x1 x0 :
  all_u8 [x0; x1] → u16 (Z.lor (Z.shiftl x1 8) x0) = le_val [x0; x1].
Proof.
  intros H. assert (Hr := le_val_range _ H). change (256 ^ _) with (2 ^ 16) in Hr.
  unfold all_u8, in_u in H. rewrite !Forall_cons in H. cbn [le_val] in *.
  rewrite shiftl_lor_add, wrapu_id by (unfold in_u; lia). lia.
Qed.

Lemma dec32_spec o a l m :
  bytes m a l → length l = 4%nat → all_u8 l → dec o W32 a m = Ok (number o l, m).
Proof.
  intros H Hl Hu. destruct l as [|b0 [|b1 [|b2 [|b3 [|]]]]]; try done.
  destruct o; cbn [dec number]; unfold be32dec, le32dec; repeat load_all H;
    prog_simpl; rewrite lor_bytes4; [done| |done|done].
  by apply (Forall_rev Hu).
Qed.

Lemma dec16_spec o a l m :
  bytes m a l → length l = 2%nat → all_u8 l → dec o W16 a m = Ok (number o l, m).
Proof.
  intros H Hl Hu. destruct l as [|b0 [|b1 [|]]]; try done.
  destruct o; cbn [dec number]; unfold be16dec, le16dec; repeat load_all H;
    prog_simpl; rewrite lor_bytes2; [done| |done|done].
  by apply (Forall_rev Hu).
Qed.

Lemma lor_words h l :
  in_u 32 h → in_u 32 l → Z.lor (u64 (Z.shiftl h 32)) l = l + 2 ^ 32 * h.
Proof.
  intros Hh Hl. rewrite wrapu_id.
  - rewrite shiftl_lor_add by (done || lia). lia.
  - rewrite Z.shiftl_mul_pow2 by lia. unfold in_u in *. lia.
Qed.

Lemma dec64_spec o a l m :
  bytes m a l → length l = 8%nat → all_u8 l → dec o W64 a m = Ok (number o l, m).
Proof.
  intros H Hl Hu.
  assert (length (take 4 l) = 4%nat) as H1 by (rewrite length_take; lia).
  rewrite <- (take_drop 4 l) in *. rewrite take_drop in H1.
  set (l1 := take 4 l) in *. set (l2 := drop 4 l) in *.
  rewrite length_app in Hl. assert (length l2 = 4%nat) as H2 by lia.
  apply bytes_app in H as [Hb1 Hb2]. rewrite H1 in Hb2.
  apply Forall_app in Hu as [Hu1 Hu2].
  pose proof (dec32_spec o a l1 m Hb1 H1 Hu1) as D1.
  pose proof (dec32_spec o (a + 4) l2 m Hb2 H2 Hu2) as D2.
  assert (∀ x, all_u8 x → length x = 4%nat → in_u 32 (le_val x)) as Hr.
  { intros x Hx Hlx. pose proof (le_val_range x Hx). rewrite Hlx in *. done. }
  destruct o; cbn [dec number] in *; unfold be64dec, le64dec.
  - rewrite (bind_Ok _ _ _ _ _ D1), (bind_Ok _ _ _ _ _ D2). prog_simpl.
    rewrite rev_app_distr, le_val_app, length_rev, H2.
    rewrite lor_words by (apply Hr; rewrite ?length_rev; try done; by apply Forall_rev). done.
  - rewrite (bind_Ok _ _ _ _ _ D1), (bind_Ok _ _ _ _ _ D2). prog_simpl.
    rewrite le_val_app, H1, Z.lor_comm.
    rewrite lor_words by (by apply Hr). done.
Qed.

Lemma dec_spec o w a l m :
  bytes m a l → length l = nbytes w → all_u8 l → dec o w a m = Ok (number o l, m).
Proof. destruct w; [apply dec16_spec|apply dec32_spec|apply dec64_spec]. Qed.

(** ** Theorems *)

(** C38. The codecs of every byte order and width are inverse to each other on
    memory: an encoded number is read back, only its [nbytes w] bytes change, and
    they are its base-256 digits in that order; conversely, a run of bytes that is
    decoded and encoded again is left as it was. *)
Theorem endian_codec_roundtrip o w a u m :
  mapped m a (nbytes w) → in_u (8 * Z.of_nat (nbytes w)) u →
  (∃ m', enc o w a u m = Ok ((), m') ∧ dec o w a m' = Ok (u, m') ∧
     bytes m' a (digits o (nbytes w) u) ∧
     ∀ x, x < a ∨ a + Z.of_nat (nbytes w) ≤ x → m' !! x = m !! x) ∧
  (∀ l, bytes m a l → length l = nbytes w → all_u8 l →
     (x ← dec o w a; enc o w a x) m = Ok ((), m)).
Proof.
  intros Hm Hu. split.
  - eexists. split; [by apply enc_spec|]. split; [|split].
    + rewrite (dec_spec o w a (digits o (nbytes w) u));
        [|apply upd_bytes|apply digits_length|apply digits_u8].
      rewrite number_digits; [done|]. by destruct w.
    + apply upd_bytes.
    + intros x Hx. apply upd_lookup_out. by rewrite digits_length.
  - intros l Hl Hlen Hb. rewrite (bind_Ok _ _ _ _ _ (dec_spec o w a l m Hl Hlen Hb)).
    rewrite enc_spec by done. by rewrite <- Hlen, digits_number, upd_id.
Qed.

Lemma bswap16_bytes x : bswap16 x = number BE (digits LE 2 x).
Proof.
  cbn [number digits]. change (rev (le_bytes 2 x)) with [x / 256 mod 256; x mod 256].
  rewrite <- lor_bytes2 by apply (Forall_rev (le_bytes_u8 2 x)).
  change (x mod 256) with (u8 x). change (x / 256) with (x / 2 ^ 8).
  rewrite <- Z.shiftr_div_pow2 by lia. change (_ mod 256) with (u8 (Z.shiftr x 8)).
  unfold bswap16. change 0x00ff with (Z.ones 8). change 0xff00 with (Z.shiftl (Z.ones 8) 8).
  bitwise.
Qed.

Lemma bswap32_bytes x : bswap32 x = number BE (digits LE 4 x).
Proof.
  cbn [number digits].
  change (rev (le_bytes 4 x)) with
    [x / 256 / 256 / 256 mod 256; x / 256 / 256 mod 256; x / 256 mod 256; x mod 256].
  rewrite <- lor_bytes4 by apply (Forall_rev (le_bytes_u8 4 x)).
  change (x mod 256) with (u8 x). rewrite !Z.div_div by lia.
  change (256 * 256) with (2 ^ 16). change (2 ^ 16 * 256) with (2 ^ 24).
  change (x / 256) with (x / 2 ^ 8).
  rewrite <- !Z.shiftr_div_pow2 by lia.
  repeat change (?y mod 256) with (u8 y).
  unfold bswap32. change 0x000000ff with (Z.ones 8).
  change 0x0000ff00 with (Z.shiftl (Z.ones 8) 8).
  change 0x00ff0000 with (Z.shiftl (Z.ones 8) 16).
  change 0xff000000 with (Z.shiftl (Z.ones 8) 24).
  bitwise.
Qed.


Lemma bswap64_bytes x : in_u 64 x → bswap64 x = number BE (digits LE 8 x).
Proof.
  intros Hx. unfold bswap64. change 0x00000000ffffffff with (Z.ones 32).
  rewrite <- !wrapu_ones, !wrapu_wrapu, !bswap32_bytes by lia.
  cbn [number digits]. change 8%nat with (4 + 4)%nat.
  rewrite le_bytes_add, rev_app_distr, le_val_app.
  assert (∀ k, in_u 32 (le_val (rev (le_bytes 4 k)))) as Hr.
  { intros k. pose proof (le_val_range (rev (le_bytes 4 k))) as H.
    rewrite length_rev, le_bytes_length in H. apply H. apply Forall_rev, le_bytes_u8. }
  rewrite lor_words by done. rewrite length_rev, le_bytes_length.
  unfold wrapu. rewrite !(le_bytes_mod 4), Z.shiftr_div_pow2 by lia. done.
Qed.

(** Swapping reverses the bytes: [bswap16], [bswap32] and [bswap64] yield the
    number with the same bytes in the opposite order, so [htole] and [le..toh]
    are inverse to each other on the values of their type. *)
Theorem bswap_reverses_bytes w x :
  in_u (8 * Z.of_nat (nbytes w)) x →
  let swap := match w with W16 => bswap16 | W32 => bswap32 | W64 => bswap64 end in
  let toh := match w with W16 => le16toh | W32 => le32toh | W64 => le64toh end in
  let hto := match w with W16 => htole16 | W32 => htole32 | W64 => htole64 end in
  swap x = number BE (digits LE (nbytes w) x) ∧ toh (hto x) = x.
Proof.
  intros Hx swap toh hto.
  assert (∀ y, in_u (8 * Z.of_nat (nbytes w)) y →
            swap y = number BE (digits LE (nbytes w) y)) as Hsw.
  { intros y Hy. subst swap. destruct w;
      [apply bswap16_bytes|apply bswap32_bytes|by apply bswap64_bytes]. }
  split; [by apply Hsw|].
  assert (toh (hto x) = swap (swap x)) as -> by by destruct w.
  rewrite (Hsw x Hx), Hsw.
  - cbn [number digits].
    replace (rev (le_bytes (nbytes w) (le_val (rev (le_bytes (nbytes w) x)))))
      with (rev (digits LE (nbytes w) (number LE (rev (le_bytes (nbytes w) x))))) by done.
    rewrite <- (le_bytes_length (nbytes w) x) at 1. rewrite <- length_rev.
    rewrite digits_number by apply (Forall_rev (le_bytes_u8 _ x)).
    rewrite rev_involutive. apply le_val_bytes. by destruct w.
  - pose proof (le_val_range (rev (le_bytes (nbytes w) x))) as H.
    rewrite length_rev, le_bytes_length in H. cbn [number digits].
    specialize (H (Forall_rev (le_bytes_u8 _ x))). unfold in_u. by destruct w.
Qed.

Lemma land_notu_ones x k :
  0 ≤ k ≤ 32 → in_u 32 x → Z.land x (notu 32 (Z.ones k)) = x / 2 ^ k * 2 ^ k.
Proof.
  intros Hk Hx. rewrite <- Z.shiftl_mul_pow2, <- Z.shiftr_div_pow2 by lia.
  unfold notu. bitwise. by rewrite (in_u_high 32 x) by (done || lia).
Qed.

Lemma align_mask k : 0 ≤ k < 32 → u32 (2 ^ k - 1) = Z.ones k.
Proof.
  intros Hk. assert (2 ^ k < 2 ^ 32) by (apply Z.pow_lt_mono_r; lia).
  rewrite wrapu_id by (unfold in_u; lia). rewrite Z.ones_equiv. lia.
Qed.

Lemma land_align_mask x k : 0 ≤ k < 32 → in_u 32 x → Z.land x (notu 32 (Z.ones k)) = x - x mod 2 ^ k.
Proof. intros Hk Hx. rewrite land_notu_ones by (done || lia). pose proof (Z.div_mod x (2 ^ k)). lia. Qed.

Lemma alignDown_eq x k : 0 ≤ k < 32 → in_u 32 x → alignDown x (2 ^ k) = x - x mod 2 ^ k.
Proof. intros Hk Hx. unfold alignDown. by rewrite align_mask, land_align_mask. Qed.

Lemma alignUp_eq x k : 0 ≤ k < 32 → in_u 32 x → x + 2 ^ k - 1 < 2 ^ 32 →
  alignUp x (2 ^ k) = (x + 2 ^ k - 1) - (x + 2 ^ k - 1) mod 2 ^ k.
Proof.
  intros Hk Hx Ho. unfold alignUp, in_u in *. rewrite align_mask by done.
  rewrite Z.ones_equiv. replace (x + Z.pred (2 ^ k)) with (x + 2 ^ k - 1) by lia.
  rewrite <- Z.ones_equiv, wrapu_id by (unfold in_u; lia). apply land_align_mask; [done|unfold in_u; lia].
Qed.

Lemma sub_mod_divide y k : 0 ≤ k → (2 ^ k | y - y mod 2 ^ k).
Proof. intros Hk. exists (y / 2 ^ k). pose proof (Z.div_mod y (2 ^ k)). lia. Qed.

(** For a power of two, [alignDown] is the greatest multiple at or below its
    argument and [alignUp] the least one at or above it (as long as that does not
    overflow the word). [isAlligned] does not test alignment: it is true exactly
    of the arguments that are less than [align]. *)
Theorem align_spec x k :
  0 ≤ k < 32 → in_u 32 x →
  (alignDown x (2 ^ k) ≤ x < alignDown x (2 ^ k) + 2 ^ k ∧
   (2 ^ k | alignDown x (2 ^ k))) ∧
  (x + 2 ^ k - 1 < 2 ^ 32 →
   alignUp x (2 ^ k) - 2 ^ k < x ≤ alignUp x (2 ^ k) ∧ (2 ^ k | alignUp x (2 ^ k))) ∧
  (isAlligned x (2 ^ k) = true ↔ x < 2 ^ k).
Proof.
  intros Hk Hx. assert (0 < 2 ^ k) as Hp by lia.
  pose proof (Z.mod_pos_bound x (2 ^ k) Hp) as Hb. rewrite alignDown_eq by done. split; [|split].
  - split; [lia|]. apply sub_mod_divide. lia.
  - intros Ho. rewrite alignUp_eq by done. split; [|apply sub_mod_divide; lia].
    pose proof (Z.mod_pos_bound (x + 2 ^ k - 1) (2 ^ k) Hp). lia.
  - unfold isAlligned. rewrite align_mask, land_align_mask by done. rewrite Z.eqb_eq.
    unfold in_u in Hx. split; [lia|]. intros. rewrite Z.mod_small by lia. lia.
Qed.

(** ** Witnesses *)

Example endian_codec_roundtrip_witness :
  ∃ m' : mem, le32enc 4096 0x01020304 (upd ∅ 4096 [0; 0; 0; 0]) = Ok ((), m') ∧
  le32dec 4096 m' = Ok (0x01020304, m') ∧ bytes m' 4096 [4; 3; 2; 1].
Proof.
  destruct (endian_codec_roundtrip LE W32 4096 0x01020304 (upd ∅ 4096 [0; 0; 0; 0]))
    as [(m' & He & Hd & Hb & _) _].
  - apply (bytes_mapped _ _ [0; 0; 0; 0]), upd_bytes.
  - split; [discriminate|reflexivity].
  - exists m'. split; [exact He|]. split; [exact Hd|exact Hb].
Defined.

Example bswap_reverses_bytes_witness :
  bswap64 0x0102030405060708 = 0x0807060504030201 ∧
  le64toh (htole64 0x0102030405060708) = 0x0102030405060708.
Proof. apply (bswap_reverses_bytes W64). split; [discriminate|reflexivity]. Defined.

Example align_spec_witness :
  (alignUp 4097 4096 - 4096 < 4097 ≤ alignUp 4097 4096) ∧
  (isAlligned 8192 4096 = true ↔ 8192 < 4096).
Proof.
  destruct (align_spec 4097 12) as (_ & Hup & _);
    [lia | split; [discriminate|reflexivity] |].
  destruct (align_spec 8192 12) as (_ & _ & Hal);
    [lia | split; [discriminate|reflexivity] |].
  split; [apply Hup; reflexivity|exact Hal].
Defined.
