(* ===== verification/LibcString.v ===== *)
(** * String and memory functions of the C library

    The functions of [generic/libc/string], and those of [kernel/src/arch/powerpc/string.cpp]
    that go with them, on byte memory. A character is [signed char]
    (the build passes [-fsigned-char]): [load8] reads the byte and [s8] is its value as a
    character. The functions that walk to a terminator take a bound [fuel] of the walk as
    an additional argument, the ones with a count compute it. [string_reads] and
    [string_writes] give the results for C strings ([cstring]) in terms of lists. *)

From S2P Require Import Prelude Memory Endian.

(** ** Reading *)

Definition strlen (fuel : nat) (src : Z) : prog mem Z :=
  assert_ (negb (src =? 0));;
  loop fuel (λ cnt, c ← load8 (src + cnt);
                    mret (if c =? 0 then inr cnt else inl (cnt + 1))) 0.

Definition strnlen (s maxlen : Z) : prog mem Z :=
  assert_ (negb (s =? 0));;
  loop (S (Z.to_nat maxlen)) (λ '(s, stLen, maxlen),
    c ← load8 s;
    mret (if negb (c =? 0) && (0 <? maxlen) then inl (s + 1, stLen + 1, maxlen - 1) else inr stLen))
  (s, 0, maxlen).

(** One round of the comparison loops. *)
Definition cmp_chars {A} (c1 c2 : Z) (next : A) : A + Z :=
  if (c1 =? 0) && (c2 =? 0) then inr 0
  else if s8 c1 <? s8 c2 then inr (-1)
  else if s8 c2 <? s8 c1 then inr 1
  else inl next.

Definition strcmp (fuel : nat) (s1 s2 : Z) : prog mem Z :=
  assert_ (negb (s1 =? 0) && negb (s2 =? 0));;
  loop fuel (λ '(s1, s2), c1 ← load8 s1; c2 ← load8 s2; mret (cmp_chars c1 c2 (s1 + 1, s2 + 1))) (s1, s2).

Definition strncmp (s1 s2 len : Z) : prog mem Z :=
  assert_ (negb (s1 =? 0) && negb (s2 =? 0));;
  loop (S (Z.to_nat len)) (λ '(s1, s2, len),
    if 0 <? len
    then c1 ← load8 s1; c2 ← load8 s2; mret (cmp_chars c1 c2 (s1 + 1, s2 + 1, len - 1))
    else mret (inr 0)) (s1, s2, len).

Definition memcmp (cmp1 cmp2 size : Z) : prog mem Z :=
  i ← loop (S (Z.to_nat size)) (λ i,
    if i <? size
    then c1 ← load8 (cmp1 + i); c2 ← load8 (cmp2 + i); mret (if negb (c1 =? c2) then inr i else inl (i + 1))
    else mret (inr i)) 0;
  if size <=? i then mret 0
  else c1 ← load8 (cmp1 + i); c2 ← load8 (cmp2 + i); mret (if c2 <? c1 then 1 else -1).

(** [char *] of a search: 0 is the null pointer. *)
Definition strrchr (fuel : nat) (str ch : Z) : prog mem Z :=
  assert_ (negb (str =? 0));;
  loop fuel (λ '(str, pos),
    c ← load8 str;
    mret (if c =? 0 then inr pos else inl (str + 1, if s8 c =? ch then str else pos))) (str, 0).

Definition strchr (fuel : nat) (s c : Z) : prog mem Z :=
  assert_ (negb (s =? 0));;
  loop fuel (λ s, x ← load8 s;
    mret (if x =? 0 then (if s8 x =? c then inr s else inl (s + 1)) else inr 0)) s.

Definition memchr (buf ch count : Z) : prog mem Z :=
  loop (S (Z.to_nat count)) (λ bufPtr,
    if buf <=? bufPtr
    then x ← load8 bufPtr; mret (if s8 x =? s8 ch then inr bufPtr else inl (bufPtr - 1))
    else mret (inr 0)) (buf + (count - 1)).

(** The inner loop of [strstr]: the pointers after the common characters. *)
Definition match_prefix (fuel : nat) (srcStr sub : Z) : prog mem (Z * Z) :=
  loop fuel (λ '(srcStr, sub),
    y ← load8 sub;
    if y =? 0 then mret (inr (srcStr, sub)) else
    x ← load8 srcStr;
    mret (if x =? y then inl (srcStr + 1, sub + 1) else inr (srcStr, sub))) (srcStr, sub).

Definition strstr (fuel : nat) (srcStr subStr : Z) : prog mem Z :=
  assert_ (negb (srcStr =? 0) && negb (subStr =? 0));;
  y ← load8 subStr;
  if y =? 0 then mret srcStr else
  loop fuel (λ srcStr,
    x ← load8 srcStr;
    if x =? 0 then mret (inr 0) else
    if x =? y then
      p ← match_prefix fuel srcStr subStr;
      z ← load8 p.2;
      mret (if z =? 0 then inr srcStr else inl p.1)
    else mret (inl (srcStr + 1))) srcStr.

(** ** Writing *)

(** The loop [*to++ = *from++] up to the terminator of [from]; the result is the new [to]. *)
Definition copy_str (fuel : nat) (to from : Z) : prog mem Z :=
  loop fuel (λ '(to, from),
    c ← load8 from;
    if c =? 0 then mret (inr to) else store8 to c;; mret (inl (to + 1, from + 1))) (to, from).

(** The loop [p++] up to a terminator. *)
Definition skip_str (fuel : nat) (p : Z) : prog mem Z :=
  loop fuel (λ p, c ← load8 p; mret (if c =? 0 then inr p else inl (p + 1))) p.

Definition strcpy (fuel : nat) (to from : Z) : prog mem Z :=
  assert_ (negb (from =? 0));;
  assert_ (negb (to =? 0));;
  to' ← copy_str fuel to from;
  store8 to' 0;;
  mret to.

(** The loop [*d++ = EOS] while [--n > 0], for a count that the caller has decremented. *)
Definition pad (d n : Z) : prog mem () :=
  loop (S (Z.to_nat n)) (λ '(d, n),
    if 0 <? n then store8 d 0;; mret (inl (d + 1, n - 1)) else mret (inr ())) (d, n).

Definition strncpy (s1 s2 n : Z) : prog mem Z :=
  when (negb (n =? 0)) (
    r ← loop (S (Z.to_nat n)) (λ '(d, s2, n),
      c ← load8 s2;
      store8 d c;;
      if c =? 0 then mret (inr (Some (d + 1, n)))
      else if n - 1 =? 0 then mret (inr None)
      else mret (inl (d + 1, s2 + 1, n - 1))) (s1, s2, n);
    match r with
    | Some (d, n) => pad d (n - 1)
    | None => mret ()
    end);;
  mret s1.

Definition strlcpy (fuel : nat) (dest src destSize : Z) : prog mem Z :=
  assert_ (negb (dest =? 0));;
  assert_ (negb (src =? 0));;
  assert_ (negb (destSize =? 0));;
  r ← loop fuel (λ '(dest, tmpSrcPtr, destSize),
    c ← load8 tmpSrcPtr;
    if negb (c =? 0) && (1 <? destSize)
    then store8 dest c;; mret (inl (dest + 1, tmpSrcPtr + 1, destSize - 1))
    else mret (inr (dest, tmpSrcPtr))) (dest, src, destSize);
  store8 r.1 0;;
  t ← skip_str fuel r.2;
  mret (t - src).

Definition strcat (fuel : nat) (to from : Z) : prog mem Z :=
  tmp ← skip_str fuel to;
  tmp ← copy_str fuel tmp from;
  store8 tmp 0;;
  mret to.

(** [d] is brought to the terminator; the loop stops after it has copied the terminator of
    [src], or [n] characters. *)
Definition strncat (fuel : nat) (dst src n : Z) : prog mem Z :=
  assert_ (negb (dst =? 0) && negb (src =? 0));;
  when (negb (n =? 0)) (
    d ← skip_str fuel dst;
    r ← loop (S (Z.to_nat n)) (λ '(d, src, n),
      c ← load8 src;
      store8 d c;;
      mret (if negb (c =? 0) then (if 0 <? n - 1 then inl (d + 1, src + 1, n - 1) else inr (d + 1, n - 1))
            else inr (d + 1, n))) (d, src, n);
    when (r.2 =? 0) (store8 r.1 0));;
  mret dst.

Definition memcpy_bytes (dst src size : Z) : prog mem () :=
  loop (S (Z.to_nat size)) (λ i,
    if i <? size then c ← load8 (src + i); store8 (dst + i) c;; mret (inl (i + 1)) else mret (inr ())) 0.

(** A word at an aligned address. *)
Definition memcpy_aligned (dst src size : Z) : prog mem () :=
  loop (S (Z.to_nat size)) (λ i,
    if i <? size / 4 then
      c0 ← load8 (src + 4 * i); c1 ← load8 (src + 4 * i + 1); c2 ← load8 (src + 4 * i + 2); c3 ← load8 (src + 4 * i + 3);
      store8 (dst + 4 * i) c0;; store8 (dst + 4 * i + 1) c1;; store8 (dst + 4 * i + 2) c2;; store8 (dst + 4 * i + 3) c3;;
      mret (inl (i + 1))
    else mret (inr ())) 0.

Definition memcpy (dst src size : Z) : prog mem Z :=
  assert_ (negb (dst =? 0) && negb (src =? 0));;
  (if (dst mod 4 =? 0) && (src mod 4 =? 0) && (size mod 4 =? 0)
   then memcpy_aligned dst src size
   else memcpy_bytes dst src size);;
  mret dst.

(** [memset]: the bytes up to a word boundary, whole words, and the bytes left. *)
Definition fill_bytes (d e c : Z) : prog mem () :=
  loop (S (Z.to_nat (e - d))) (λ d,
    if negb (d =? e) then store8 d c;; mret (inl (d + 1)) else mret (inr ())) d.

Definition fill_align (d c : Z) : prog mem Z :=
  loop 4 (λ d, if negb (Z.land d 3 =? 0) then store8 d c;; mret (inl (d + 1)) else mret (inr d)) d.

Definition store_word (a v : Z) : prog mem () :=
  store8 a (Z.shiftr v 24);; store8 (a + 1) (Z.shiftr v 16);; store8 (a + 2) (Z.shiftr v 8);; store8 (a + 3) v.

Definition fill_words (lBufPtr lBufEnd v : Z) : prog mem Z :=
  loop (Z.to_nat (lBufEnd - lBufPtr)) (λ p,
    store_word p v;; mret (if negb (p + 4 =? lBufEnd) then inl (p + 4) else inr (p + 4))) lBufPtr.

Definition memset (dst c len : Z) : prog mem Z :=
  let e := dst + len in
  d ← (if 7 <=? len then
         d ← fill_align dst c;
         let v := u8 c in
         let v := s32 (Z.lor v (Z.shiftl v 8)) in
         let v := s32 (Z.lor v (Z.shiftl v 16)) in
         fill_words d (Z.land e (-4)) v
       else mret dst);
  fill_bytes d e c;;
  mret dst.

(** ** [kernel/src/arch/powerpc/string.cpp] *)

(** [for (; start < lim; start += step) body]: the value of [start] afterwards. *)
Definition for_upto (start lim step : Z) (body : Z → prog mem ()) : prog mem Z :=
  loop (S (Z.to_nat (lim - start))) (λ s,
    if s <? lim then body s;; mret (inl (u32 (s + step))) else mret (inr s)) start.

Definition POWERPC_CACHE_LINE_SIZE : Z := 32.

Fixpoint store_zeros (n : nat) (a : Z) : prog mem () :=
  match n with
  | O => mret ()
  | S n' => store8 a 0;; store_zeros n' (a + 1)
  end.

(** The instruction [dcbz] clears the cache line of its operand. *)
Definition cacheZeroBlock (addr : Z) : prog mem () :=
  store_zeros (Z.to_nat POWERPC_CACHE_LINE_SIZE) (alignDown addr POWERPC_CACHE_LINE_SIZE).

(** The code at the labels [byte1] and [word4]. *)
Definition zero_byte1 (start e : Z) : prog mem () :=
  start ← for_upto start e 1 (λ a, store8 a 0);
  store8 start 0.

Definition zero_word4 (start e : Z) : prog mem () :=
  start ← for_upto start (alignDown e 4) 4 (λ a, store_word a 0);
  zero_byte1 start e.

Definition zero_block (dst size : Z) : prog mem () :=
  assert_ (negb (dst =? 0));;
  let start := dst in
  let e := u32 (start + u32 (size - 1)) in
  let tmp := alignUp start 4 in
  if e <=? tmp then zero_byte1 start e else
  start ← for_upto start tmp 1 (λ a, store8 a 0);
  let tmp := alignUp start POWERPC_CACHE_LINE_SIZE in
  if e <=? tmp then zero_word4 start e else
  start ← for_upto start tmp 4 (λ a, store_word a 0);
  let tmp := alignDown e POWERPC_CACHE_LINE_SIZE in
  start ← for_upto start tmp POWERPC_CACHE_LINE_SIZE cacheZeroBlock;
  zero_word4 start e.

(** The digits of [num], the most significant one first, and a terminator. *)
Definition hexChars (d : Z) : Z := if d <? 10 then 48 + d else 87 + d.

Definition hex (num str : Z) : prog mem () :=
  assert_ (negb (str =? 0));;
  loop 9 (λ i,
    if i <? 8 then store8 (str + (8 - 1 - i)) (hexChars (Z.land (Z.shiftr num (Z.shiftl i 2)) 0xf));; mret (inl (i + 1))
    else mret (inr ())) 0;;
  store8 (str + 8) 0.

Definition sstrncpy (dst src n : Z) : prog mem Z :=
  assert_ (negb (dst =? 0) && negb (src =? 0));;
  index ← loop (S (Z.to_nat n)) (λ index,
    if index <? n then
      c ← load8 (src + index);
      if c =? 0 then mret (inr index)
      else c ← load8 (src + index); store8 (dst + index) c;; mret (inl (index + 1))
    else mret (inr index)) 0;
  let index := if n <=? index then u32 (n - 1) else index in
  store8 (dst + index) 0;;
  mret (u32 (index + 1)).


(** ** C strings *)

(** The characters [s], none of them the terminator, and the terminator. *)
Definition cstring (m : mem) (a : Z) (s : list Z) : Prop :=
  bytes m a (s ++ [0]) ∧ Forall (λ c, 0 < c < 256) s.

Implicit Types (m : mem) (s t l : list Z) (fuel : nat).

Lemma cstring_nil m a : cstring m a [] → load8 a m = Ok (0, m).
Proof. intros [Hb _]. by apply (load8_first m a 0 []). Qed.

Lemma cstring_cons m a c s : cstring m a (c :: s) → load8 a m = Ok (c, m) ∧ c ≠ 0 ∧ 0 < c < 256 ∧ cstring m (a + 1) s.
Proof.
  intros [Hb [Hc Hs]%Forall_cons]. cbn in Hb. split; [by apply (load8_first m a c (s ++ [0]))|].
  apply bytes_cons in Hb as [_ Hb]. split_and!; [lia|lia|lia|done].
Qed.

Lemma s8_inj c d : 0 ≤ c < 256 → 0 ≤ d < 256 → s8 c = s8 d → c = d.
Proof.
  intros Hc Hd E. rewrite <- (wrapu_id 8 c), <- (wrapu_id 8 d) by (unfold in_u; lia).
  rewrite <- (wrapu_wraps 8 c), <- (wrapu_wraps 8 d). by rewrite E.
Qed.

Lemma strlen_run fuel m a s : cstring m a s → a ≠ 0 → (length s < fuel)%nat →
  strlen fuel a m = Ok (zlen s, m).
Proof.
  intros Hs Ha Hf. unfold strlen. rewrite (proj2 (Z.eqb_neq a 0)) by done. cbn [negb]. prog_simpl.
  cut (∀ s2 fuel k, (length s2 < fuel)%nat → cstring m (a + k) s2 →
    loop fuel (λ cnt, c ← load8 (a + cnt); mret (if c =? 0 then inr cnt else inl (cnt + 1))) k m = Ok (k + zlen s2, m)).
  { intros H. rewrite (H s fuel 0); [by rewrite Z.add_0_l|done|by rewrite Z.add_0_r]. }
  clear s fuel Hs Hf. intros s. induction s as [|c s IH]; intros [|fuel] k Hf Hs; cbn [length] in *; try lia.
  - rewrite (loop_exit _ _ _ k m m); [f_equal; f_equal; lia|]. prog_step (cstring_nil _ _ Hs). done.
  - apply cstring_cons in Hs as (Hc & Hne & _ & Hs).
    rewrite (loop_next _ _ _ (k + 1) m m).
    + rewrite (IH fuel (k + 1)); [f_equal; f_equal; lia|lia|]. by replace (a + (k + 1)) with (a + k + 1) by lia.
    + prog_step Hc. by rewrite (proj2 (Z.eqb_neq c 0)) by done.
Qed.

Lemma strnlen_run m a s n : cstring m a s → a ≠ 0 → 0 ≤ n → strnlen a n m = Ok (zlen s `min` n, m).
Proof.
  intros Hs Ha Hn. unfold strnlen. rewrite (proj2 (Z.eqb_neq a 0)) by done. cbn [negb]. prog_simpl.
  cut (∀ s fuel a k n, cstring m a s → 0 ≤ n → (Z.to_nat n < fuel)%nat →
    loop fuel (λ '(s, stLen, maxlen), c ← load8 s;
      mret (if negb (c =? 0) && (0 <? maxlen) then inl (s + 1, stLen + 1, maxlen - 1) else inr stLen)) (a, k, n) m
    = Ok (k + zlen s `min` n, m)).
  { intros H. rewrite (H s _ a 0 n); [by rewrite Z.add_0_l|done|done|lia]. }
  clear. intros s. induction s as [|c s IH]; intros [|fuel] a k n Hs Hn Hf; cbn [length]; try lia.
  - rewrite (loop_exit _ _ _ k m m); [f_equal; f_equal; lia|]. prog_step (cstring_nil _ _ Hs). done.
  - apply cstring_cons in Hs as (Hc & Hne & _ & Hs). destruct (Z.ltb_spec 0 n) as [Hlt|Hge].
    + rewrite (loop_next _ _ _ (a + 1, k + 1, n - 1) m m).
      * rewrite (IH fuel); [f_equal; f_equal; lia|done|lia|lia].
      * prog_step Hc. by rewrite (proj2 (Z.eqb_neq c 0)), (proj2 (Z.ltb_lt 0 n)) by done.
    + rewrite (loop_exit _ _ _ k m m); [f_equal; f_equal; lia|].
      prog_step Hc. rewrite (proj2 (Z.ltb_ge 0 n)) by lia. by rewrite andb_false_r.
Qed.

(** The first [n] characters of two strings: equal, or the sign of the first difference. *)
Definition compares (n : nat) s t (r : Z) : Prop :=
  take n s = take n t ∧ r = 0 ∨
  ∃ i c d, (i < n)%nat ∧ take i s = take i t ∧ (s ++ [0]) !! i = Some c ∧ (t ++ [0]) !! i = Some d ∧ c ≠ d ∧
    r = Z.sgn (s8 c - s8 d).

Lemma compares_next n c s t r : compares n s t r → compares (S n) (c :: s) (c :: t) r.
Proof.
  intros [[E ->]|(i & x & y & Hi & E & Hx & Hy & Hne & ->)]; [left; cbn; by rewrite E|right].
  exists (S i), x, y. cbn. rewrite E. split_and!; [lia|done..].
Qed.

(** One character of each string. *)
Lemma cmp_chars_spec {A} n c d s t (next : A) : head (s ++ [0]) = Some c → head (t ++ [0]) = Some d →
  Forall (λ c, 0 < c < 256) s → Forall (λ c, 0 < c < 256) t →
  (∃ r, cmp_chars c d next = inr r ∧ compares (S n) s t r) ∨
  (cmp_chars c d next = inl next ∧ ∃ s' t', s = c :: s' ∧ t = c :: t').
Proof.
  intros Hc Hd Hs Ht. unfold cmp_chars.
  assert (0 ≤ c < 256 ∧ (c = 0 → s = [])) as [Hcr Hc0].
  { destruct s as [|x s]; cbn in Hc; injection Hc as <-; [done|]. apply Forall_cons in Hs as [? _].
    split; [lia|intros; lia]. }
  assert (0 ≤ d < 256 ∧ (d = 0 → t = [])) as [Hdr Hd0].
  { destruct t as [|x t]; cbn in Hd; injection Hd as <-; [done|]. apply Forall_cons in Ht as [? _].
    split; [lia|intros; lia]. }
  assert (c ≠ d → compares (S n) s t (Z.sgn (s8 c - s8 d))) as Hdiff.
  { intros Hne. right. exists 0%nat, c, d. rewrite <- !head_lookup. split_and!; [lia|done..]. }
  destruct (decide (c = d)) as [->|Hne].
  - destruct (Z.eqb_spec d 0) as [E|E]; cbn [andb].
    + left. exists 0. split; [done|]. left. by rewrite Hc0, Hd0.
    + rewrite Z.ltb_irrefl. right. split; [done|].
      destruct s as [|x s]; cbn in Hc; injection Hc as <-; [lia|]. destruct t as [|y t]; cbn in Hd; injection Hd as <-; [lia|].
      eauto.
  - left. assert (s8 c ≠ s8 d) as Hn8 by (intros E; by apply s8_inj in E). specialize (Hdiff Hne).
    rewrite (proj2 (andb_false_iff _ _)) by (rewrite !Z.eqb_neq; lia).
    destruct (Z.ltb_spec (s8 c) (s8 d)); [|rewrite (proj2 (Z.ltb_lt (s8 d) (s8 c))) by lia];
      eexists; (split; [reflexivity|]).
    + by rewrite Z.sgn_neg in Hdiff by lia.
    + by rewrite Z.sgn_pos in Hdiff by lia.
Qed.

Lemma cstring_head m a s : cstring m a s → ∃ c, head (s ++ [0]) = Some c ∧ load8 a m = Ok (c, m).
Proof.
  intros [Hb _]. destruct s as [|c s]; cbn in *; eexists; (split; [done|]); by eapply load8_first.
Qed.

Lemma strncmp_run m a s b t n : cstring m a s → cstring m b t → a ≠ 0 → b ≠ 0 → 0 ≤ n →
  ∃ r, strncmp a b n m = Ok (r, m) ∧ compares (Z.to_nat n) s t r.
Proof.
  intros Hs Ht Ha Hb Hn. unfold strncmp. rewrite !(proj2 (Z.eqb_neq _ 0)) by done. cbn [negb andb]. prog_simpl.
  apply Z_of_nat_complete in Hn as [k ->]. rewrite Nat2Z.id. rename k into n. clear Ha Hb.
  revert a b s t Hs Ht. induction n as [|n IH]; intros a b s t Hs Ht.
  - exists 0. split; [|left; done]. by apply loop_exit.
  - destruct (cstring_head _ _ _ Hs) as (c & Hc & Hlc), (cstring_head _ _ _ Ht) as (d & Hd & Hld).
    destruct (cmp_chars_spec n c d s t (a + 1, b + 1, Z.of_nat (S n) - 1) Hc Hd (proj2 Hs) (proj2 Ht))
      as [(r & Hr & Hcmp)|(Hr & s' & t' & -> & ->)].
    + exists r. split; [|done]. apply loop_exit. rewrite (proj2 (Z.ltb_lt 0 _)) by lia.
      prog_step Hlc. prog_step Hld. by rewrite Hr.
    + apply cstring_cons in Hs as (_ & _ & _ & Hs), Ht as (_ & _ & _ & Ht).
      destruct (IH (a + 1) (b + 1) s' t' Hs Ht) as (r & Hrun & Hcmp). exists r. split; [|by apply compares_next].
      rewrite (loop_next _ _ _ (a + 1, b + 1, Z.of_nat n) m m); [done|]. rewrite (proj2 (Z.ltb_lt 0 _)) by lia.
      prog_step Hlc. prog_step Hld. rewrite Hr. do 5 f_equal. lia.
Qed.

Lemma strcmp_run fuel m a s b t : cstring m a s → cstring m b t → a ≠ 0 → b ≠ 0 →
  (length s < fuel)%nat → (length t < fuel)%nat → ∃ r, strcmp fuel a b m = Ok (r, m) ∧ compares fuel s t r.
Proof.
  intros Hs Ht Ha Hb Hf Hg. unfold strcmp. rewrite !(proj2 (Z.eqb_neq _ 0)) by done. cbn [negb andb]. prog_simpl.
  clear Ha Hb. revert fuel a b t Hs Ht Hf Hg. induction s as [|c s IH]; intros [|fuel] a b t Hs Ht Hf Hg; cbn [length] in *; try lia.
  - destruct (cstring_head _ _ _ Hs) as (c & Hc & Hlc), (cstring_head _ _ _ Ht) as (d & Hd & Hld).
    destruct (cmp_chars_spec fuel c d [] t (a + 1, b + 1) Hc Hd (proj2 Hs) (proj2 Ht)) as [(r & Hr & Hcmp)|(Hr & s' & t' & ? & ?)]; [|done].
    exists r. split; [|done]. apply loop_exit. prog_step Hlc. prog_step Hld. by rewrite Hr.
  - destruct (cstring_head _ _ _ Hs) as (c' & Hc & Hlc), (cstring_head _ _ _ Ht) as (d & Hd & Hld).
    destruct (cmp_chars_spec fuel c' d (c :: s) t (a + 1, b + 1) Hc Hd (proj2 Hs) (proj2 Ht))
      as [(r & Hr & Hcmp)|(Hr & s' & t' & [= <- <-] & ->)].
    + exists r. split; [|done]. apply loop_exit. prog_step Hlc. prog_step Hld. by rewrite Hr.
    + apply cstring_cons in Hs as (_ & _ & _ & Hs), Ht as (_ & _ & _ & Ht). cbn in Hg.
      destruct (IH fuel (a + 1) (b + 1) t' Hs Ht) as (r & Hrun & Hcmp); [lia|lia|]. exists r.
      split; [|by apply compares_next]. rewrite (loop_next _ _ _ (a + 1, b + 1) m m); [done|].
      prog_step Hlc. prog_step Hld. by rewrite Hr.
Qed.

(** ** What the copying functions write *)

(** The bytes of [a, a + n) and of [b, b + k) are disjoint. *)
Definition apart (a n b k : Z) : Prop := a + n ≤ b ∨ b + k ≤ a.

Lemma cstring_apart m to l from s : cstring m from s → apart to (zlen l) from (zlen s + 1) →
  cstring (upd m to l) from s.
Proof.
  intros [Hb Hs] Ha. split; [|done]. apply upd_bytes_out; [done|]. rewrite length_app. cbn.
  unfold apart in Ha. lia.
Qed.

Lemma cstring_drop m from s1 s2 : cstring m from (s1 ++ s2) → cstring m (from + zlen s1) s2.
Proof.
  intros [Hb Hs]. apply Forall_app in Hs as [_ Hs]. split; [|done].
  rewrite <- app_assoc in Hb. by apply bytes_app in Hb as [_ Hb].
Qed.

Lemma zlen_app {A} (l1 l2 : list A) : zlen (l1 ++ l2) = zlen l1 + zlen l2.
Proof. rewrite length_app. lia. Qed.

Lemma char_u8 c : 0 < c < 256 → wrapu 8 c = c.
Proof. intros. apply wrapu_id. unfold in_u. lia. Qed.

Lemma copy_str_run fuel m to from s : cstring m from s → mapped m to (length s) →
  apart to (zlen s) from (zlen s + 1) → (length s < fuel)%nat →
  copy_str fuel to from m = Ok (to + zlen s, upd m to s).
Proof.
  intros Hs Hm Ha Hf. unfold copy_str.
  cut (∀ s2 s1 fuel, s = s1 ++ s2 → (length s2 < fuel)%nat →
    loop fuel (λ '(to, from), c ← load8 from;
      if c =? 0 then mret (inr to) else store8 to c;; mret (inl (to + 1, from + 1)))
      (to + zlen s1, from + zlen s1) (upd m to s1) = Ok (to + zlen s, upd m to s)).
  { intros H. specialize (H s [] fuel eq_refl Hf). cbn in H. by rewrite !Z.add_0_r in H. }
  clear fuel Hf. intros s2. induction s2 as [|c s2 IH]; intros s1 [|fuel] -> Hf; cbn [length] in Hf; try lia.
  - rewrite app_nil_r in *. apply loop_exit.
    assert (cstring (upd m to s1) (from + zlen s1) []) as H0.
    { apply cstring_drop with (s1 := s1). rewrite app_nil_r. by apply cstring_apart. }
    prog_step (cstring_nil _ _ H0). done.
  - rewrite zlen_app in Ha. cbn [length] in Ha.
    assert (cstring (upd m to s1) (from + zlen s1) (c :: s2)) as H0.
    { apply cstring_drop with (s1 := s1). apply cstring_apart; [done|]. rewrite zlen_app. cbn [length].
      unfold apart in *. lia. }
    apply cstring_cons in H0 as (Hc & Hne & Hr & _).
    rewrite (loop_next _ _ _ (to + zlen s1 + 1, from + zlen s1 + 1) _ (upd m to (s1 ++ [c]))).
    + specialize (IH (s1 ++ [c]) fuel). rewrite <- app_assoc in IH. specialize (IH eq_refl ltac:(lia)).
      rewrite zlen_app in IH. cbn [length] in IH. rewrite !Z.add_assoc in IH. exact IH.
    + prog_step Hc. rewrite (proj2 (Z.eqb_neq c 0)) by done.
      rewrite length_app in Hm. cbn in Hm.
      erewrite bind_Ok; [reflexivity|]. rewrite (store8_next _ _ _ _ _ _ Hm) by (done || lia). by rewrite char_u8.
Qed.

Lemma skip_str_run fuel m a s : cstring m a s → (length s < fuel)%nat → skip_str fuel a m = Ok (a + zlen s, m).
Proof.
  unfold skip_str. revert fuel a. induction s as [|c s IH]; intros [|fuel] a Hs Hf; cbn [length] in *; try lia.
  - rewrite (loop_exit _ _ _ a m m); [f_equal; f_equal; lia|]. prog_step (cstring_nil _ _ Hs). done.
  - apply cstring_cons in Hs as (Hc & Hne & _ & Hs). rewrite (loop_next _ _ _ (a + 1) m m).
    + rewrite (IH fuel (a + 1)); [f_equal; f_equal; lia|done|lia].
    + prog_step Hc. by rewrite (proj2 (Z.eqb_neq c 0)) by done.
Qed.

Lemma strcpy_run fuel m to from s : cstring m from s → mapped m to (S (length s)) →
  apart to (zlen s + 1) from (zlen s + 1) → to ≠ 0 → from ≠ 0 → (length s < fuel)%nat →
  strcpy fuel to from m = Ok (to, upd m to (s ++ [0])).
Proof.
  intros Hs Hm Ha Ht Hf Hl. unfold strcpy. rewrite !(proj2 (Z.eqb_neq _ 0)) by done. cbn [negb]. prog_simpl.
  assert (mapped m to (length s)) as Hm' by (eapply mapped_le; [exact Hm|lia]).
  rewrite (bind_Ok _ _ _ _ _ (copy_str_run fuel m to from s Hs Hm' ltac:(unfold apart in *; lia) Hl)).
  rewrite (bind_Ok _ _ _ _ _ (store8_next m to _ s 0 (zlen s) Hm eq_refl ltac:(lia))). done.
Qed.

Lemma strcat_run fuel m to t from s : cstring m to t → cstring m from s →
  mapped m (to + zlen t) (S (length s)) → apart (to + zlen t) (zlen s + 1) from (zlen s + 1) →
  (length s < fuel)%nat → (length t < fuel)%nat →
  strcat fuel to from m = Ok (to, upd m (to + zlen t) (s ++ [0])).
Proof.
  intros Ht Hs Hm Ha Hl Hl'. unfold strcat. rewrite (bind_Ok _ _ _ _ _ (skip_str_run fuel m to t Ht Hl')).
  assert (mapped m (to + zlen t) (length s)) as Hm' by (eapply mapped_le; [exact Hm|lia]).
  rewrite (bind_Ok _ _ _ _ _ (copy_str_run fuel m _ from s Hs Hm' ltac:(unfold apart in *; lia) Hl)).
  rewrite (bind_Ok _ _ _ _ _ (store8_next m _ _ s 0 (zlen s) Hm eq_refl ltac:(lia))). done.
Qed.

Lemma pad_run m a l n k : mapped m a k → 0 ≤ n → zlen l + n ≤ Z.of_nat k →
  pad (a + zlen l) n (upd m a l) = Ok ((), upd m a (l ++ replicate (Z.to_nat n) 0)).
Proof.
  intros Hm Hn. unfold pad. apply Z_of_nat_complete in Hn as [j ->]. rewrite Nat2Z.id.
  revert l. induction j as [|j IH]; intros l Hk.
  - rewrite app_nil_r. by apply loop_exit.
  - rewrite (loop_next _ _ _ (a + zlen (l ++ [0]), Z.of_nat j) _ (upd m a (l ++ [0]))).
    + rewrite IH by (rewrite zlen_app; cbn [length]; lia). by rewrite <- app_assoc.
    + rewrite (proj2 (Z.ltb_lt 0 _)) by lia.
      rewrite (bind_Ok _ _ _ _ _ (store8_next m a k l 0 (zlen l) Hm eq_refl ltac:(lia))).
      unfold mret, prog_ret. do 4 f_equal; [|lia]. rewrite zlen_app. cbn [length]. lia.
Qed.

Lemma take_pad (s : list Z) n z : (length s < n)%nat →
  take n (s ++ replicate n z) = (s ++ [z]) ++ replicate (n - length s - 1) z.
Proof.
  intros Hl. rewrite take_app, take_ge by lia. rewrite <- app_assoc. f_equal.
  rewrite take_replicate, Nat.min_l by lia.
  assert (n - length s = S (n - length s - 1))%nat as E by lia. rewrite E at 1. done.
Qed.

(** The first loop of [strncpy] leaves with the place and the count of the terminator, or
    with all [n] characters copied. *)
Lemma strncpy_loop m (d0 s0 : Z) s (n : nat) : cstring m s0 s → mapped m d0 n → (0 < n)%nat →
  apart d0 (Z.of_nat n) s0 (zlen s + 1) → ∀ t2 t1 fuel, s = t1 ++ t2 → (length t1 < n)%nat → (n - length t1 ≤ fuel)%nat →
  loop fuel (λ '(d, s2, n), c ← load8 s2; store8 d c;;
      if c =? 0 then mret (inr (Some (d + 1, n)))
      else if n - 1 =? 0 then mret (inr None) else mret (inl (d + 1, s2 + 1, n - 1)))
    (d0 + zlen t1, s0 + zlen t1, Z.of_nat n - zlen t1) (upd m d0 t1) =
  if decide (length s < n)%nat
  then Ok (Some (d0 + zlen (s ++ [0]), Z.of_nat n - zlen s), upd m d0 (s ++ [0]))
  else Ok (None, upd m d0 (take n s)).
Proof.
  intros Hs Hm Hn Ha t2. induction t2 as [|c t2 IH]; intros t1 [|fuel] E Hl Hf; try lia.
  - rewrite app_nil_r in E. subst t1. rewrite decide_True by done. apply loop_exit.
    assert (cstring (upd m d0 s) (s0 + zlen s) []) as H0.
    { apply cstring_drop with (s1 := s). rewrite app_nil_r. apply cstring_apart; [done|unfold apart in *; lia]. }
    prog_step (cstring_nil _ _ H0).
    rewrite (bind_Ok _ _ _ _ _ (store8_next m d0 n s 0 (zlen s) Hm eq_refl Hl)). cbn [Z.eqb].
    rewrite zlen_app. cbn [length]. unfold mret, prog_ret. do 5 f_equal. lia.
  - assert (cstring (upd m d0 t1) (s0 + zlen t1) (c :: t2)) as H0.
    { apply cstring_drop with (s1 := t1). rewrite <- E. apply cstring_apart; [done|unfold apart in *; lia]. }
    apply cstring_cons in H0 as (Hc & Hne & Hr & _).
    pose proof (store8_next m d0 n t1 c (zlen t1) Hm eq_refl Hl) as Hst. rewrite char_u8 in Hst by done.
    assert (length s = length t1 + S (length t2))%nat as Els by (rewrite E, length_app; done).
    destruct (decide (S (length t1) = n)) as [En|En].
    + rewrite decide_False by lia. apply loop_exit. prog_step Hc. rewrite (bind_Ok _ _ _ _ _ Hst).
      rewrite (proj2 (Z.eqb_neq c 0)) by done. rewrite (proj2 (Z.eqb_eq _ 0)) by lia.
      rewrite E. change (c :: t2) with ([c] ++ t2). rewrite app_assoc, take_app_le, take_ge; [done|..];
        rewrite length_app; cbn [length]; lia.
    + rewrite (loop_next _ _ _ (d0 + zlen (t1 ++ [c]), s0 + zlen (t1 ++ [c]), Z.of_nat n - zlen (t1 ++ [c])) _ (upd m d0 (t1 ++ [c]))).
      * apply IH; [by rewrite <- app_assoc|rewrite length_app; cbn [length]; lia|rewrite length_app; cbn [length]; lia].
      * prog_step Hc. rewrite (bind_Ok _ _ _ _ _ Hst). rewrite (proj2 (Z.eqb_neq c 0)) by done.
        rewrite (proj2 (Z.eqb_neq _ 0)) by lia. rewrite zlen_app. cbn [length]. unfold mret, prog_ret.
        do 3 f_equal. f_equal; [f_equal; lia|lia].
Qed.

Lemma strncpy_run m (d0 s0 : Z) s (n : nat) : cstring m s0 s → mapped m d0 n →
  apart d0 (Z.of_nat n) s0 (zlen s + 1) →
  strncpy d0 s0 (Z.of_nat n) m = Ok (d0, upd m d0 (take n (s ++ replicate n 0))).
Proof.
  intros Hs Hm Ha. unfold strncpy. destruct n as [|n]; [by destruct s|].
  rewrite (proj2 (Z.eqb_neq _ 0)) by lia. cbn [negb when]. rewrite Nat2Z.id.
  pose proof (strncpy_loop m d0 s0 s (S n) Hs Hm ltac:(lia) Ha s [] (S (S n)) eq_refl ltac:(cbn; lia) ltac:(cbn; lia)) as H.
  cbn [upd] in H. change (zlen (@nil Z)) with 0 in H. rewrite !Z.add_0_r, Z.sub_0_r in H.
  etransitivity; [apply bind_Ok with (x := ()) (s' := upd m d0 (take (S n) (s ++ replicate (S n) 0)))|done].
  case_decide as Hd; rewrite (bind_Ok _ _ _ _ _ H).
  - rewrite take_pad by lia. rewrite (pad_run m d0 (s ++ [0]) _ (S n) Hm) by (rewrite ?zlen_app; cbn [length]; lia).
    do 5 f_equal. lia.
  - by rewrite take_app_le by lia.
Qed.

Lemma memcpy_bytes_run m (dst src : Z) l : bytes m src l → all_u8 l → mapped m dst (length l) →
  dst ≤ src ∨ src + zlen l ≤ dst → memcpy_bytes dst src (zlen l) m = Ok ((), upd m dst l).
Proof.
  intros Hb Hu Hm Ha. unfold memcpy_bytes. rewrite Nat2Z.id.
  cut (∀ l2 l1 fuel, l = l1 ++ l2 → (length l2 < fuel)%nat →
    loop fuel (λ i, if i <? zlen l then c ← load8 (src + i); store8 (dst + i) c;; mret (inl (i + 1)) else mret (inr ()))
      (zlen l1) (upd m dst l1) = Ok ((), upd m dst l)).
  { intros H. apply (H l [] (S (length l)) eq_refl). lia. }
  intros l2. induction l2 as [|c l2 IH]; intros l1 [|fuel] E Hf; cbn [length] in Hf; try lia.
  - rewrite app_nil_r in E. subst l1. apply loop_exit. by rewrite Z.ltb_irrefl.
  - assert (zlen l1 < zlen l) as Hlt by (rewrite E, zlen_app; cbn [length]; lia).
    rewrite (loop_next _ _ _ (zlen (l1 ++ [c])) _ (upd m dst (l1 ++ [c]))).
    + apply IH; [by rewrite <- app_assoc|lia].
    + rewrite (proj2 (Z.ltb_lt _ _)) by done.
      assert (load8 (src + zlen l1) (upd m dst l1) = Ok (c, upd m dst l1)) as Hc.
      { apply load8_run. rewrite upd_lookup_out by lia. apply Hb. rewrite E. by rewrite list_lookup_middle. }
      prog_step Hc. rewrite (bind_Ok _ _ _ _ _ (store8_next m dst (length l) l1 c (zlen l1) Hm eq_refl ltac:(lia))).
      rewrite wrapu_id by (unfold all_u8 in Hu; rewrite E in Hu; apply Forall_app in Hu as [_ Hu]; by apply Forall_cons in Hu as [? _]).
      rewrite zlen_app. done.
Qed.

Lemma store4_next m a n l (c0 c1 c2 c3 : Z) : mapped m a n → (length l + 4 ≤ n)%nat → all_u8 [c0; c1; c2; c3] →
  ∀ (k : () → prog mem (Z + ())), (store8 (a + zlen l) c0;; store8 (a + zlen l + 1) c1;; store8 (a + zlen l + 2) c2;;
    store8 (a + zlen l + 3) c3 ≫= k) (upd m a l) = k () (upd m a (l ++ [c0; c1; c2; c3])).
Proof.
  intros Hm Hl Hu k. assert (∀ c, c ∈ [c0; c1; c2; c3] → wrapu 8 c = c) as Hw.
  { intros c Hc. apply wrapu_id. by apply (proj1 (Forall_forall _ _) Hu). }
  rewrite (bind_Ok _ _ _ _ _ (store8_next m a n l c0 (zlen l) Hm eq_refl ltac:(lia))), Hw by set_solver.
  replace (a + zlen l + 1) with (a + (zlen l + 1)) by lia.
  rewrite (bind_Ok _ _ _ _ _ (store8_next m a n (l ++ [c0]) c1 (zlen l + 1) Hm ltac:(rewrite zlen_app; done)
    ltac:(rewrite length_app; cbn; lia))), Hw, <- app_assoc by set_solver.
  replace (a + zlen l + 2) with (a + (zlen l + 2)) by lia.
  rewrite (bind_Ok _ _ _ _ _ (store8_next m a n (l ++ [c0; c1]) c2 (zlen l + 2) Hm ltac:(rewrite zlen_app; done)
    ltac:(rewrite length_app; cbn; lia))), Hw, <- app_assoc by set_solver.
  replace (a + zlen l + 3) with (a + (zlen l + 3)) by lia.
  rewrite (bind_Ok _ _ _ _ _ (store8_next m a n (l ++ [c0; c1; c2]) c3 (zlen l + 3) Hm ltac:(rewrite zlen_app; done)
    ltac:(rewrite length_app; cbn; lia))), Hw, <- app_assoc by set_solver. done.
Qed.

Lemma memcpy_aligned_run m (dst src : Z) l : bytes m src l → all_u8 l → mapped m dst (length l) →
  dst ≤ src ∨ src + zlen l ≤ dst → (4 | zlen l) → memcpy_aligned dst src (zlen l) m = Ok ((), upd m dst l).
Proof.
  intros Hb Hu Hm Ha H4. unfold memcpy_aligned. rewrite Nat2Z.id.
  cut (∀ k l1 l2 fuel, l = l1 ++ l2 → length l2 = (4 * k)%nat → (4 | zlen l1) → (k < fuel)%nat →
    loop fuel (λ i, if i <? zlen l / 4 then
      c0 ← load8 (src + 4 * i); c1 ← load8 (src + 4 * i + 1); c2 ← load8 (src + 4 * i + 2); c3 ← load8 (src + 4 * i + 3);
      store8 (dst + 4 * i) c0;; store8 (dst + 4 * i + 1) c1;; store8 (dst + 4 * i + 2) c2;; store8 (dst + 4 * i + 3) c3;;
      mret (inl (i + 1)) else mret (inr ())) (zlen l1 / 4) (upd m dst l1) = Ok ((), upd m dst l)).
  { intros H. destruct H4 as [q Hq]. apply (H (Z.to_nat q) [] l (S (length l)) eq_refl); [lia|by exists 0|lia]. }
  induction k as [|k IH]; intros l1 l2 [|fuel] E Hl2 [i Hi] Hf; try lia.
  - destruct l2; [|done]. rewrite app_nil_r in E. subst l1. apply loop_exit. by rewrite Z.ltb_irrefl.
  - destruct l2 as [|c0 [|c1 [|c2 [|c3 l2]]]]; cbn [length] in Hl2; try lia.
    assert (zlen l = zlen l1 + 4 + 4 * Z.of_nat k) as El by (rewrite E, zlen_app; cbn [length]; lia).
    rewrite Hi, Z.div_mul by done.
    assert (all_u8 [c0; c1; c2; c3]) as Hu4.
    { unfold all_u8 in *. rewrite E in Hu. apply Forall_app in Hu as [_ Hu].
      change (c0 :: c1 :: c2 :: c3 :: l2) with ([c0; c1; c2; c3] ++ l2) in Hu. by apply Forall_app in Hu as [Hu _]. }
    assert (∀ j c, [c0; c1; c2; c3] !! j = Some c →
      load8 (src + 4 * i + Z.of_nat j) (upd m dst l1) = Ok (c, upd m dst l1)) as Hld.
    { intros j c Hj. pose proof (lookup_lt_Some _ _ _ Hj) as Hlt. cbn in Hlt. apply load8_run.
      rewrite upd_lookup_out by lia. replace (src + 4 * i + Z.of_nat j) with (src + Z.of_nat (length l1 + j)) by lia.
      apply Hb. rewrite E, lookup_app_r, Nat.add_comm, Nat.add_sub by lia.
      change (c0 :: c1 :: c2 :: c3 :: l2) with ([c0; c1; c2; c3] ++ l2). by rewrite lookup_app_l by (cbn; lia). }
    rewrite (loop_next _ _ _ (i + 1) _ (upd m dst (l1 ++ [c0; c1; c2; c3]))).
    + replace (i + 1) with (zlen (l1 ++ [c0; c1; c2; c3]) / 4).
      * apply (IH _ l2); [by rewrite <- app_assoc|lia| |lia]. rewrite zlen_app. exists (i + 1). cbn [length]. lia.
      * rewrite zlen_app. cbn [length]. symmetry. apply Z.div_unique with 0; lia.
    + assert (i < zlen l / 4) as Hlt by (apply Z.lt_le_trans with (i + 1); [lia|apply Z.div_le_lower_bound; lia]).
      rewrite (proj2 (Z.ltb_lt _ _)) by done.
      pose proof (Hld 0%nat c0 eq_refl) as H0. rewrite Z.add_0_r in H0. prog_step H0.
      pose proof (Hld 1%nat c1 eq_refl) as H1. prog_step H1.
      pose proof (Hld 2%nat c2 eq_refl) as H2. prog_step H2.
      pose proof (Hld 3%nat c3 eq_refl) as H3. prog_step H3.
      replace (dst + 4 * i) with (dst + zlen l1) by lia.
      rewrite (store4_next m dst (length l) l1 c0 c1 c2 c3 Hm) by (done || lia). done.
Qed.

Lemma memcpy_run m (dst src : Z) l : bytes m src l → all_u8 l → mapped m dst (length l) →
  dst ≤ src ∨ src + zlen l ≤ dst → dst ≠ 0 → src ≠ 0 → memcpy dst src (zlen l) m = Ok (dst, upd m dst l).
Proof.
  intros Hb Hu Hm Ha Hd Hs. unfold memcpy. rewrite (proj2 (Z.eqb_neq dst 0)), (proj2 (Z.eqb_neq src 0)) by done. cbn [negb andb]. prog_simpl.
  destruct (_ && _) eqn:E.
  - apply andb_prop in E as [_ E4]. apply Z.eqb_eq, Z.mod_divide in E4; [|done].
    by rewrite (bind_Ok _ _ _ _ _ (memcpy_aligned_run m dst src l Hb Hu Hm Ha E4)).
  - by rewrite (bind_Ok _ _ _ _ _ (memcpy_bytes_run m dst src l Hb Hu Hm Ha)).
Qed.

(** ** memset *)

Section memset.
Context (m : mem) (dst c : Z) (n : nat).
Context (Hm : mapped m dst n).
#[local] Set Default Proof Using "All".

(** The memory with the first [i] bytes filled. *)
Definition filled (i : nat) : mem := upd m dst (replicate i (u8 c)).

Lemma fill_byte (i : nat) : (i < n)%nat → store8 (dst + Z.of_nat i) c (filled i) = Ok ((), filled (S i)).
Proof.
  intros Hi. unfold filled. pose proof (store8_next m dst n (replicate i (u8 c)) c (Z.of_nat i) Hm) as H.
  rewrite length_replicate in H. rewrite (H eq_refl Hi). rewrite <- replicate_cons_app. done.
Qed.

Lemma fill_bytes_run (j i : nat) : (i + j ≤ n)%nat →
  fill_bytes (dst + Z.of_nat i) (dst + Z.of_nat (i + j)) c (filled i) = Ok ((), filled (i + j)).
Proof.
  unfold fill_bytes. replace (dst + Z.of_nat (i + j) - (dst + Z.of_nat i)) with (Z.of_nat j) by lia. rewrite Nat2Z.id.
  intros Hle. cut (∀ k i', (i' + k = i + j)%nat → loop (S k) (λ d,
    if negb (d =? dst + Z.of_nat (i + j)) then store8 d c;; mret (inl (d + 1)) else mret (inr ()))
    (dst + Z.of_nat i') (filled i') = Ok ((), filled (i + j))).
  { intros H. by apply H. }
  induction k as [|k IH]; intros i' E.
  - apply loop_exit. rewrite (proj2 (Z.eqb_eq _ _)) by lia. cbn [negb]. by replace i' with (i + j)%nat by lia.
  - rewrite (loop_next _ _ _ (dst + Z.of_nat (S i')) _ (filled (S i'))); [apply IH; lia|].
    rewrite (proj2 (Z.eqb_neq _ _)) by lia. cbn [negb].
    rewrite (bind_Ok _ _ _ _ _ (fill_byte i' ltac:(lia))). unfold mret, prog_ret. do 3 f_equal. lia.
Qed.

Lemma land3 d : Z.land d 3 = d mod 4.
Proof. change 3 with (Z.ones 2). by rewrite Z.land_ones. Qed.

Lemma fill_align_run : (3 ≤ n)%nat → ∃ i, (i ≤ 3)%nat ∧ (4 | dst + Z.of_nat i) ∧
  fill_align dst c m = Ok (dst + Z.of_nat i, filled i).
Proof.
  intros Hn. unfold fill_align.
  cut (∀ k i, (i + k = 3)%nat → (∃ j, (i ≤ j ≤ 3)%nat ∧ (4 | dst + Z.of_nat j)) → ∃ j, (j ≤ 3)%nat ∧ (4 | dst + Z.of_nat j) ∧
    loop (S k) (λ d, if negb (Z.land d 3 =? 0) then store8 d c;; mret (inl (d + 1)) else mret (inr d))
      (dst + Z.of_nat i) (filled i) = Ok (dst + Z.of_nat j, filled j)).
  { intros H. destruct (H 3%nat 0%nat eq_refl) as (j & Hj & H4 & E).
    - pose proof (Z.mod_pos_bound (- dst) 4 ltac:(lia)) as Hb. exists (Z.to_nat (- dst mod 4)). split; [lia|].
      rewrite Z2Nat.id by lia. exists ((dst + - dst mod 4) / 4).
      pose proof (Z.div_mod (- dst) 4 ltac:(lia)). rewrite Z.mul_comm.
      apply Z_div_exact_full_2; [lia|]. apply Z.mod_divide; [lia|]. exists (- (- dst / 4)). lia.
    - exists j. split_and!; [done..|]. by rewrite Z.add_0_r in E. }
  induction k as [|k IH]; intros i E (j & Hj & H4).
  - assert (j = i) as -> by lia. exists i. split_and!; [lia|done|]. apply loop_exit.
    rewrite land3, (proj2 (Z.mod_divide _ 4 ltac:(lia)) H4). done.
  - destruct (Z.eqb_spec (Z.land (dst + Z.of_nat i) 3) 0) as [E0|E0].
    + exists i. rewrite land3 in E0. apply Z.mod_divide in E0; [|done]. split_and!; [lia|done|].
      apply loop_exit. by rewrite land3, (proj2 (Z.mod_divide _ 4 ltac:(lia)) E0).
    + assert (j ≠ i) as Hne by (intros ->; apply E0; rewrite land3; by apply Z.mod_divide).
      destruct (IH (S i)) as (j' & ? & ? & Hrun); [lia|exists j; split; [lia|done]|]. exists j'. split_and!; [done..|].
      rewrite (loop_next _ _ _ (dst + Z.of_nat (S i)) _ (filled (S i))); [done|].
      rewrite (proj2 (Z.eqb_neq _ _) E0). cbn [negb].
      rewrite (bind_Ok _ _ _ _ _ (fill_byte i ltac:(lia))). unfold mret, prog_ret. do 3 f_equal. lia.
Qed.

(** The word that [memset] stores has the byte four times. *)
Definition fill_word : Z :=
  let v := u8 c in
  let v := s32 (Z.lor v (Z.shiftl v 8)) in
  s32 (Z.lor v (Z.shiftl v 16)).

Lemma fill_word_bytes : u8 fill_word = u8 c ∧ u8 (Z.shiftr fill_word 8) = u8 c ∧
  u8 (Z.shiftr fill_word 16) = u8 c ∧ u8 (Z.shiftr fill_word 24) = u8 c.
Proof.
  unfold fill_word. cbv zeta. set (P := λ b : Z,
    let w := s32 (Z.lor (s32 (Z.lor b (Z.shiftl b 8))) (Z.shiftl (s32 (Z.lor b (Z.shiftl b 8))) 16)) in
    (u8 w =? b) && (u8 (Z.shiftr w 8) =? b) && (u8 (Z.shiftr w 16) =? b) && (u8 (Z.shiftr w 24) =? b)).
  assert (P (u8 c) = true) as HP by (apply (all_bytes_spec P); [by vm_compute|by apply wrapu_range]).
  unfold P in HP. rewrite !andb_true_iff, !Z.eqb_eq in HP. tauto.
Qed.

Lemma fill_word_run (i : nat) : (i + 4 ≤ n)%nat → store_word (dst + Z.of_nat i) fill_word (filled i) = Ok ((), filled (i + 4)).
Proof.
  intros Hi. destruct fill_word_bytes as (H0 & H1 & H2 & H3). unfold store_word.
  assert (∀ j v, (i + j < n)%nat → u8 v = u8 c →
    store8 (dst + Z.of_nat i + Z.of_nat j) v (filled (i + j)) = Ok ((), filled (i + S j))) as Hst.
  { intros j v Hj Ev. pose proof (fill_byte (i + j) Hj) as Hb. rewrite Nat.add_succ_r, <- Hb. unfold store8.
    replace (dst + Z.of_nat (i + j)) with (dst + Z.of_nat i + Z.of_nat j) by lia. by rewrite Ev. }
  pose proof (Hst 0%nat (Z.shiftr fill_word 24) ltac:(lia) H3) as S0. rewrite Z.add_0_r, Nat.add_0_r in S0.
  rewrite (bind_Ok _ _ _ _ _ S0).
  rewrite (bind_Ok _ _ _ _ _ (Hst 1%nat (Z.shiftr fill_word 16) ltac:(lia) H2)).
  rewrite (bind_Ok _ _ _ _ _ (Hst 2%nat (Z.shiftr fill_word 8) ltac:(lia) H1)).
  exact (Hst 3%nat fill_word ltac:(lia) H0).
Qed.

Lemma fill_words_run (k i : nat) : (0 < k)%nat → (i + 4 * k ≤ n)%nat →
  fill_words (dst + Z.of_nat i) (dst + Z.of_nat (i + 4 * k)) fill_word (filled i)
  = Ok (dst + Z.of_nat (i + 4 * k), filled (i + 4 * k)).
Proof.
  intros Hk Hle. unfold fill_words.
  replace (dst + Z.of_nat (i + 4 * k) - (dst + Z.of_nat i)) with (Z.of_nat (4 * k)) by lia. rewrite Nat2Z.id.
  set (e := (i + 4 * k)%nat) in *.
  cut (∀ k' i' fuel, (i' + 4 * k' = e)%nat → (0 < k' ≤ fuel)%nat → loop fuel (λ p,
    store_word p fill_word;; mret (if negb (p + 4 =? dst + Z.of_nat e) then inl (p + 4) else inr (p + 4)))
    (dst + Z.of_nat i') (filled i') = Ok (dst + Z.of_nat e, filled e)).
  { intros H. apply (H k i (4 * k)%nat); lia. }
  induction k' as [|k' IH]; intros i' [|fuel] E Hf; try lia.
  pose proof (fill_word_run i' ltac:(lia)) as Hw. destruct k' as [|k'].
  - apply loop_exit. rewrite (bind_Ok _ _ _ _ _ Hw), (proj2 (Z.eqb_eq _ _)) by lia. cbn [negb].
    unfold mret, prog_ret. replace (i' + 4)%nat with e by lia. do 3 f_equal. lia.
  - rewrite (loop_next _ _ _ (dst + Z.of_nat (i' + 4)) _ (filled (i' + 4))); [apply IH; lia|].
    rewrite (bind_Ok _ _ _ _ _ Hw), (proj2 (Z.eqb_neq _ _)) by lia. cbn [negb].
    unfold mret, prog_ret. do 3 f_equal. lia.
Qed.

Lemma land_word_mask e : Z.land e (-4) = e - e mod 4.
Proof.
  change (-4) with (Z.lnot (Z.ones 2)). rewrite <- Z.ldiff_land, Z.ldiff_ones_r, Z.shiftr_div_pow2, Z.shiftl_mul_pow2 by lia.
  change (2 ^ 2) with 4. pose proof (Z.div_mod e 4). lia.
Qed.

Lemma memset_run : memset dst c (Z.of_nat n) m = Ok (dst, filled n).
Proof.
  unfold memset. destruct (Z.leb_spec 7 (Z.of_nat n)) as [H7|H7]; prog_simpl.
  - destruct (fill_align_run ltac:(lia)) as (i & Hi & Hd & Hrun). 
    rewrite (bind_Ok _ _ _ _ _ Hrun). cbv zeta. fold fill_word. rewrite land_word_mask.
    pose proof (Z.mod_pos_bound (dst + Z.of_nat n) 4 ltac:(lia)) as Hr.
    set (r := (dst + Z.of_nat n) mod 4) in *.
    assert (4 | dst + Z.of_nat n - r - (dst + Z.of_nat i)) as [q Hq] by (apply Z.divide_sub_r; [apply (sub_mod_divide _ 2); lia|done]).
    pose proof (fill_words_run (Z.to_nat q) i ltac:(lia) ltac:(lia)) as Hw.
    replace (dst + Z.of_nat (i + 4 * Z.to_nat q)) with (dst + Z.of_nat n - r) in Hw by lia.
    rewrite (bind_Ok _ _ _ _ _ Hw).
    pose proof (fill_bytes_run (n - (i + 4 * Z.to_nat q)) (i + 4 * Z.to_nat q) ltac:(lia)) as Hb.
    replace (i + 4 * Z.to_nat q + (n - (i + 4 * Z.to_nat q)))%nat with n in Hb by lia.
    replace (dst + Z.of_nat (i + 4 * Z.to_nat q)) with (dst + Z.of_nat n - r) in Hb by lia.
    by rewrite (bind_Ok _ _ _ _ _ Hb).
  - pose proof (fill_bytes_run n 0 ltac:(lia)) as H. rewrite Z.add_0_r in H. by rewrite (bind_Ok _ _ _ _ _ H).
Qed.

(** ** zero_block *)

(** A counted loop whose body fills [step] bytes fills all of them up to the limit. *)
Lemma for_upto_run (step : nat) body : (0 < step)%nat →
  (∀ i : nat, (i + step ≤ n)%nat → (Z.of_nat step | dst + Z.of_nat i) →
    body (dst + Z.of_nat i) (filled i) = Ok ((), filled (i + step))) →
  dst + Z.of_nat n < 2 ^ 32 → 0 ≤ dst → ∀ q i : nat, (i + q * step ≤ n)%nat → (Z.of_nat step | dst + Z.of_nat i) →
  for_upto (dst + Z.of_nat i) (dst + Z.of_nat (i + q * step)) (Z.of_nat step) body (filled i)
  = Ok (dst + Z.of_nat (i + q * step), filled (i + q * step)).
Proof.
  intros Hs Hb Ho Hd q i Hle Hal. unfold for_upto.
  replace (dst + Z.of_nat (i + q * step) - (dst + Z.of_nat i)) with (Z.of_nat (q * step)) by lia. rewrite Nat2Z.id.
  assert (q < S (q * step))%nat as Hf by nia. revert Hf. generalize (S (q * step)). intros fuel.
  remember (i + q * step)%nat as e eqn:Ee. revert i fuel Hal Ee. induction q as [|q IH]; intros i [|fuel] Hal Ee Hf; try lia.
  - replace e with i by lia. apply loop_exit. by rewrite Z.ltb_irrefl.
  - cbn in Ee. rewrite (loop_next _ _ _ (dst + Z.of_nat (i + step)) _ (filled (i + step))).
    + apply IH; [|lia|lia]. rewrite Nat2Z.inj_add, Z.add_assoc. apply Z.divide_add_r; [done|apply Z.divide_refl].
    + rewrite (proj2 (Z.ltb_lt _ _)) by nia. rewrite (bind_Ok _ _ _ _ _ (Hb i ltac:(nia) Hal)).
      rewrite wrapu_id by (unfold in_u; nia). unfold mret, prog_ret. do 3 f_equal. lia.
Qed.

(** From one place of the region to a later one, both at a multiple of the step. *)
Lemma for_upto_to (step : nat) body start lim (i : nat) : (0 < step)%nat →
  (∀ i : nat, (i + step ≤ n)%nat → (Z.of_nat step | dst + Z.of_nat i) →
    body (dst + Z.of_nat i) (filled i) = Ok ((), filled (i + step))) →
  dst + Z.of_nat n < 2 ^ 32 → 0 ≤ dst → start = dst + Z.of_nat i → start ≤ lim ≤ dst + Z.of_nat n →
  (Z.of_nat step | start) → (Z.of_nat step | lim) →
  for_upto start lim (Z.of_nat step) body (filled i) = Ok (lim, filled (Z.to_nat (lim - dst))).
Proof.
  intros Hs Hb Ho Hd -> Hl Ha1 Ha2. pose proof (Z.divide_sub_r _ _ _ Ha2 Ha1) as [q Hq].
  assert (0 ≤ q) as Hq0 by nia.
  pose proof (for_upto_run step body Hs Hb Ho Hd (Z.to_nat q) i ltac:(nia) Ha1) as H.
  replace (dst + Z.of_nat (i + Z.to_nat q * step)) with lim in H by nia.
  by replace (i + Z.to_nat q * step)%nat with (Z.to_nat (lim - dst)) in H by nia.
Qed.
End memset.

Lemma alignUp4 x : 0 ≤ x < 2 ^ 32 - 4 → alignUp x 4 = x + 4 - 1 - (x + 4 - 1) mod 4.
Proof. intros. apply (alignUp_eq x 2); unfold in_u; lia. Qed.
Lemma alignUp32 x : 0 ≤ x < 2 ^ 32 - 32 → alignUp x 32 = x + 32 - 1 - (x + 32 - 1) mod 32.
Proof. intros. apply (alignUp_eq x 5); unfold in_u; lia. Qed.
Lemma alignDown4 x : 0 ≤ x < 2 ^ 32 → alignDown x 4 = x - x mod 4.
Proof. intros. by apply (alignDown_eq x 2). Qed.
Lemma alignDown32 x : 0 ≤ x < 2 ^ 32 → alignDown x 32 = x - x mod 32.
Proof. intros. by apply (alignDown_eq x 5). Qed.

Section zero_block.
Context (m : mem) (dst : Z) (n : nat).
Context (Hm : mapped m dst n) (Hn : (0 < n)%nat) (Hd : 0 < dst) (Ho : dst + Z.of_nat n + 32 ≤ 2 ^ 32).
#[local] Set Default Proof Using "All".

#[local] Notation zeroed := (filled m dst 0).

Lemma zero_bytes_body (i : nat) : (i + 1 ≤ n)%nat → (Z.of_nat 1 | dst + Z.of_nat i) →
  store8 (dst + Z.of_nat i) 0 (zeroed i) = Ok ((), zeroed (i + 1)).
Proof. intros Hi _. rewrite Nat.add_comm. apply (fill_byte m dst 0 n Hm). lia. Qed.

Lemma zero_words_body (i : nat) : (i + 4 ≤ n)%nat → (Z.of_nat 4 | dst + Z.of_nat i) →
  store_word (dst + Z.of_nat i) 0 (zeroed i) = Ok ((), zeroed (i + 4)).
Proof. intros Hi _. apply (fill_word_run m dst 0 n Hm i Hi). Qed.

Lemma store_zeros_run (k i : nat) : (i + k ≤ n)%nat →
  store_zeros k (dst + Z.of_nat i) (zeroed i) = Ok ((), zeroed (i + k)).
Proof.
  revert i. induction k as [|k IH]; intros i Hi; cbn [store_zeros].
  - by rewrite Nat.add_0_r.
  - rewrite (bind_Ok _ _ _ _ _ (fill_byte m dst 0 n Hm i ltac:(lia))).
    replace (dst + Z.of_nat i + 1) with (dst + Z.of_nat (S i)) by lia. rewrite IH by lia. do 3 f_equal. lia.
Qed.

Lemma zero_lines_body (i : nat) : (i + 32 ≤ n)%nat → (Z.of_nat 32 | dst + Z.of_nat i) →
  cacheZeroBlock (dst + Z.of_nat i) (zeroed i) = Ok ((), zeroed (i + 32)).
Proof.
  intros Hi Ha. unfold cacheZeroBlock, POWERPC_CACHE_LINE_SIZE.
  rewrite alignDown32 by lia.
  rewrite (proj2 (Z.mod_divide _ 32 ltac:(lia)) Ha), Z.sub_0_r. apply (store_zeros_run 32 i Hi).
Qed.

Lemma zero_byte1_run (i : nat) : (i < n)%nat →
  zero_byte1 (dst + Z.of_nat i) (dst + Z.of_nat n - 1) (zeroed i) = Ok ((), zeroed n).
Proof.
  intros Hi. unfold zero_byte1.
  pose proof (for_upto_to m dst 0 n Hm 1 (λ a, store8 a 0) (dst + Z.of_nat i) (dst + Z.of_nat n - 1) i ltac:(lia)
    zero_bytes_body ltac:(lia) ltac:(lia) eq_refl ltac:(lia) ltac:(apply Z.divide_1_l) ltac:(apply Z.divide_1_l)) as H.
  rewrite (bind_Ok _ _ _ _ _ H). pose proof (fill_byte m dst 0 n Hm (n - 1) ltac:(lia)) as Hf.
  replace (dst + Z.of_nat (n - 1)) with (dst + Z.of_nat n - 1) in Hf by lia.
  replace (Z.to_nat (dst + Z.of_nat n - 1 - dst)) with (n - 1)%nat by lia. rewrite Hf. do 3 f_equal. lia.
Qed.

Lemma zero_word4_run (start : Z) : (4 | start) → dst ≤ start < dst + Z.of_nat n →
  zero_word4 start (dst + Z.of_nat n - 1) (zeroed (Z.to_nat (start - dst))) = Ok ((), zeroed n).
Proof.
  intros Ha Hs. unfold zero_word4. set (e := dst + Z.of_nat n - 1).
  rewrite (alignDown4 e) by lia. pose proof (Z.mod_pos_bound e 4 ltac:(lia)) as Hr.
  assert (start ≤ e - e mod 4) as Hle.
  { destruct Ha as [q ->]. pose proof (Z.div_mod e 4 ltac:(lia)). assert (q ≤ e / 4); [|lia].
    apply Z.div_le_lower_bound; lia. }
  pose proof (for_upto_to m dst 0 n Hm 4 (λ a, store_word a 0) start (e - e mod 4) (Z.to_nat (start - dst)) ltac:(lia)
    zero_words_body ltac:(lia) ltac:(lia) ltac:(lia) ltac:(lia) Ha (sub_mod_divide e 2 ltac:(lia))) as H.
  rewrite (bind_Ok _ _ _ _ _ H).
  pose proof (zero_byte1_run (Z.to_nat (e - e mod 4 - dst)) ltac:(lia)) as Hb.
  by rewrite Z2Nat.id, Zplus_minus in Hb by lia.
Qed.

Lemma zero_block_run : zero_block dst (Z.of_nat n) m = Ok ((), zeroed n).
Proof.
  unfold zero_block. rewrite (proj2 (Z.eqb_neq dst 0)) by lia. cbn [negb]. prog_simpl.
  rewrite (wrapu_id 32 (Z.of_nat n - 1)), wrapu_id by (unfold in_u; lia).
  replace (dst + (Z.of_nat n - 1)) with (dst + Z.of_nat n - 1) by lia.
  set (e := dst + Z.of_nat n - 1). assert (zeroed 0 = m) as H0 by done.
  rewrite (alignUp4 dst) by lia.
  pose proof (Z.mod_pos_bound (dst + 4 - 1) 4 ltac:(lia)) as Hr.
  pose proof (sub_mod_divide (dst + 4 - 1) 2 ltac:(lia)) as Ha1. change (2 ^ 2) with 4 in Ha1.
  set (t1 := dst + 4 - 1 - (dst + 4 - 1) mod 4) in *.
  destruct (Z.leb_spec e t1) as [Hle|Hlt].
  { pose proof (zero_byte1_run 0 Hn) as H. by rewrite Z.add_0_r in H. }
  pose proof (for_upto_to m dst 0 n Hm 1 (λ a, store8 a 0) dst t1 0 ltac:(lia) zero_bytes_body ltac:(lia) ltac:(lia)
    ltac:(lia) ltac:(lia) ltac:(apply Z.divide_1_l) ltac:(apply Z.divide_1_l)) as H1.
  rewrite H0 in H1. rewrite (bind_Ok _ _ _ _ _ H1). unfold POWERPC_CACHE_LINE_SIZE.
  rewrite (alignUp32 t1) by lia.
  pose proof (Z.mod_pos_bound (t1 + 32 - 1) 32 ltac:(lia)) as Hr2.
  pose proof (sub_mod_divide (t1 + 32 - 1) 5 ltac:(lia)) as Ha2. change (2 ^ 5) with 32 in Ha2.
  set (t2 := t1 + 32 - 1 - (t1 + 32 - 1) mod 32) in *. prog_simpl.
  destruct (Z.leb_spec e t2) as [Hle2|Hlt2]; [by apply zero_word4_run; [|lia]|].
  assert (4 | t2) as Ha24 by (apply Z.divide_trans with 32; [by exists 8|done]).
  pose proof (for_upto_to m dst 0 n Hm 4 (λ a, store_word a 0) t1 t2 (Z.to_nat (t1 - dst)) ltac:(lia) zero_words_body
    ltac:(lia) ltac:(lia) ltac:(lia) ltac:(lia) Ha1 Ha24) as H2.
  rewrite (bind_Ok _ _ _ _ _ H2).
  rewrite (alignDown32 e) by lia.
  pose proof (Z.mod_pos_bound e 32 ltac:(lia)) as Hr3.
  pose proof (sub_mod_divide e 5 ltac:(lia)) as Ha3. change (2 ^ 5) with 32 in Ha3.
  assert (t2 ≤ e - e mod 32) as Hle3.
  { destruct Ha2 as [q Hq]. pose proof (Z.div_mod e 32 ltac:(lia)). assert (q ≤ e / 32); [|lia].
    apply Z.div_le_lower_bound; lia. }
  pose proof (for_upto_to m dst 0 n Hm 32 cacheZeroBlock t2 (e - e mod 32) (Z.to_nat (t2 - dst)) ltac:(lia) zero_lines_body
    ltac:(lia) ltac:(lia) ltac:(lia) ltac:(lia) Ha2 Ha3) as H3.
  rewrite (bind_Ok _ _ _ _ _ H3). apply zero_word4_run; [|lia].
  apply Z.divide_trans with 32; [by exists 8|done].
Qed.
End zero_block.

(** ** Bounded copies *)

Lemma strlcpy_run fuel m (to0 from0 : Z) s (n : nat) : cstring m from0 s → mapped m to0 n → (0 < n)%nat →
  apart to0 (Z.of_nat n) from0 (zlen s + 1) → to0 ≠ 0 → from0 ≠ 0 → (length s < fuel)%nat →
  strlcpy fuel to0 from0 (Z.of_nat n) m = Ok (zlen s, upd m to0 (take (n - 1) s ++ [0])).
Proof.
  intros Hs Hm Hn Ha Ht Hf Hl. unfold strlcpy.
  rewrite (proj2 (Z.eqb_neq to0 0)), (proj2 (Z.eqb_neq from0 0)), (proj2 (Z.eqb_neq (Z.of_nat n) 0)) by lia.
  cbn [negb]. prog_simpl.
  assert (∀ s2 s1 fuel, s = s1 ++ s2 → (length s1 < n)%nat → (length s2 < fuel)%nat →
    ∃ k, (k ≤ length s)%nat ∧ take k s = take (n - 1) s ∧
    loop fuel (λ '(dest, tmpSrcPtr, destSize), c ← load8 tmpSrcPtr;
      if negb (c =? 0) && (1 <? destSize)
      then store8 dest c;; mret (inl (dest + 1, tmpSrcPtr + 1, destSize - 1))
      else mret (inr (dest, tmpSrcPtr))) (to0 + zlen s1, from0 + zlen s1, Z.of_nat n - zlen s1) (upd m to0 s1)
    = Ok ((to0 + zlen (take k s), from0 + Z.of_nat k), upd m to0 (take k s)) ∧ zlen (take k s) < Z.of_nat n) as Hloop.
  { clear fuel Hl. intros s2. induction s2 as [|c s2 IH]; intros s1 [|fuel] -> Hl Hf'; cbn [length] in Hf'; try lia.
    - exists (length s1). rewrite app_nil_r in *. rewrite (take_ge s1 (length s1)), (take_ge s1 (n - 1)) by lia. split_and!; [lia|done| |lia].
      assert (cstring (upd m to0 s1) (from0 + zlen s1) []) as H0.
      { apply cstring_drop with (s1 := s1). rewrite app_nil_r. apply cstring_apart; [done|unfold apart in *; lia]. }
      apply loop_exit. prog_step (cstring_nil _ _ H0). done.
    - assert (cstring (upd m to0 s1) (from0 + zlen s1) (c :: s2)) as H0.
      { apply cstring_drop with (s1 := s1). apply cstring_apart; [done|]. rewrite zlen_app in *. cbn [length] in *.
        unfold apart in *. lia. }
      apply cstring_cons in H0 as (Hc & Hne & Hr & _).
      pose proof (store8_next m to0 n s1 c (zlen s1) Hm eq_refl Hl) as Hst. rewrite char_u8 in Hst by done.
      destruct (Z.ltb_spec 1 (Z.of_nat n - zlen s1)) as [Hlt|Hge].
      + destruct (IH (s1 ++ [c]) fuel) as (k & Hk & Ek & Hrun & Hkn); [by rewrite <- app_assoc|rewrite length_app; cbn; lia|lia|].
        exists k. split_and!; [done|done| |done]. rewrite <- Hrun. apply loop_next. prog_step Hc.
        rewrite (proj2 (Z.eqb_neq c 0)), (proj2 (Z.ltb_lt 1 _)) by done. cbn [negb andb].
        rewrite (bind_Ok _ _ _ _ _ Hst). rewrite zlen_app. cbn [length]. unfold mret, prog_ret.
        do 3 f_equal. f_equal; [f_equal; lia|lia].
      + exists (length s1). rewrite take_app_length, (take_app_le s1 _ (n - 1)), (take_ge s1) by lia. split_and!; [rewrite length_app; lia|done| |lia].
        apply loop_exit. prog_step Hc. rewrite (proj2 (Z.ltb_ge 1 _)) by done. by rewrite andb_false_r. }
  destruct (Hloop s [] fuel eq_refl Hn Hl) as (k & Hk & Ek & Hrun & Hkn).
  change (zlen (@nil Z)) with 0 in Hrun. rewrite !Z.add_0_r, Z.sub_0_r in Hrun. cbn [upd] in Hrun.
  rewrite (bind_Ok _ _ _ _ _ Hrun). cbn [fst snd].
  rewrite (bind_Ok _ _ _ _ _ (store8_next m to0 n (take k s) 0 _ Hm eq_refl ltac:(lia))).
  assert (cstring (upd m to0 (take k s ++ [0])) (from0 + Z.of_nat k) (drop k s)) as Hd.
  { replace (Z.of_nat k) with (zlen (take k s)) by (rewrite length_take; lia). apply cstring_drop.
    rewrite take_drop. apply cstring_apart; [done|]. rewrite zlen_app. cbn [length]. unfold apart in *. lia. }
  rewrite (bind_Ok _ _ _ _ _ (skip_str_run fuel _ _ _ Hd ltac:(rewrite length_drop; lia))).
  rewrite Ek, length_drop. unfold mret, prog_ret. do 2 f_equal. lia.
Qed.

Lemma strncat_run fuel m (to0 : Z) t (from0 : Z) s (n : nat) : cstring m to0 t → cstring m from0 s →
  mapped m (to0 + zlen t) (S n) → apart (to0 + zlen t) (Z.of_nat n + 1) from0 (zlen s + 1) →
  to0 ≠ 0 → from0 ≠ 0 → (0 < n)%nat → (length t < fuel)%nat →
  strncat fuel to0 from0 (Z.of_nat n) m = Ok (to0, upd m (to0 + zlen t) (take n s ++ [0])).
Proof.
  intros Ht Hs Hm Ha Hto Hfr Hn Hl. unfold strncat.
  rewrite (proj2 (Z.eqb_neq to0 0)), (proj2 (Z.eqb_neq from0 0)), (proj2 (Z.eqb_neq (Z.of_nat n) 0)) by lia.
  cbn [negb andb when]. prog_simpl. rewrite Nat2Z.id. set (d0 := to0 + zlen t) in *.
  rewrite (bind_Ok _ _ _ _ _ (skip_str_run fuel m to0 t Ht Hl)). fold d0.
  assert (∀ s2 s1 fuel, s = s1 ++ s2 → (length s1 < n)%nat → (n - length s1 < fuel)%nat →
    ∃ r l, loop fuel (λ '(d, src, n), c ← load8 src; store8 d c;;
      mret (if negb (c =? 0) then (if 0 <? n - 1 then inl (d + 1, src + 1, n - 1) else inr (d + 1, n - 1))
            else inr (d + 1, n))) (d0 + zlen s1, from0 + zlen s1, Z.of_nat n - zlen s1) (upd m d0 s1)
    = Ok (r, upd m d0 l) ∧ (r.2 ≠ 0 ∧ l = take n s ++ [0] ∨ r = (d0 + Z.of_nat n, 0) ∧ l = take n s ∧ length l = n)) as Hloop.
  { clear fuel Hl. intros s2. induction s2 as [|c s2 IH]; intros s1 [|fuel] E Hl Hf; try lia.
    - exists (d0 + zlen s1 + 1, Z.of_nat n - zlen s1), (s1 ++ [0]). rewrite app_nil_r in E. subst s1. split; [|left; cbn; rewrite take_ge by lia; split; [lia|done]].
      assert (cstring (upd m d0 s) (from0 + zlen s) []) as H0.
      { apply cstring_drop with (s1 := s). rewrite app_nil_r. apply cstring_apart; [done|unfold apart in *; lia]. }
      apply loop_exit. prog_step (cstring_nil _ _ H0).
      by rewrite (bind_Ok _ _ _ _ _ (store8_next m d0 (S n) s 0 (zlen s) Hm eq_refl ltac:(lia))).
    - assert (cstring (upd m d0 s1) (from0 + zlen s1) (c :: s2)) as H0.
      { apply cstring_drop with (s1 := s1). rewrite <- E. apply cstring_apart; [done|unfold apart in *; lia]. }
      apply cstring_cons in H0 as (Hc & Hne & Hr & _).
      pose proof (store8_next m d0 (S n) s1 c (zlen s1) Hm eq_refl ltac:(lia)) as Hst. rewrite char_u8 in Hst by done.
      assert (length s = length s1 + S (length s2))%nat as Els by (rewrite E, length_app; done).
      destruct (decide (S (length s1) = n)) as [En|En].
      + exists (d0 + Z.of_nat n, 0), (s1 ++ [c]). assert (take n s = s1 ++ [c]) as Et.
        { rewrite E. change (c :: s2) with ([c] ++ s2). rewrite app_assoc, take_app_le, take_ge; [done|..]; rewrite length_app; cbn; lia. }
        split; [|right; rewrite Et; split_and!; [done|done|rewrite length_app; cbn; lia]].
        apply loop_exit. prog_step Hc. rewrite (bind_Ok _ _ _ _ _ Hst).
        rewrite (proj2 (Z.eqb_neq c 0)), (proj2 (Z.ltb_ge 0 _)) by lia. cbn [negb]. unfold mret, prog_ret.
        do 4 f_equal; lia.
      + destruct (IH (s1 ++ [c]) fuel) as (r & l & Hrun & Hres);
          [by rewrite <- app_assoc|rewrite length_app; cbn; lia|rewrite length_app; cbn; lia|].
        exists r, l. split; [|done]. rewrite <- Hrun. apply loop_next. prog_step Hc.
        rewrite (bind_Ok _ _ _ _ _ Hst), (proj2 (Z.eqb_neq c 0)), (proj2 (Z.ltb_lt 0 _)) by lia. cbn [negb].
        rewrite zlen_app. cbn [length]. unfold mret, prog_ret. do 3 f_equal. f_equal; [f_equal; lia|lia]. }
  destruct (Hloop s [] (S n) eq_refl Hn ltac:(cbn; lia)) as (r & l & Hrun & Hres).
  change (zlen (@nil Z)) with 0 in Hrun. rewrite !Z.add_0_r, Z.sub_0_r in Hrun. cbn [upd] in Hrun.
  prog_simpl.
  rewrite (bind_Ok _ _ _ _ _ Hrun). destruct Hres as [[Hr ->]|(-> & -> & Hln)].
  - by rewrite (proj2 (Z.eqb_neq _ 0)) by done.
  - cbn [fst snd Z.eqb when]. rewrite <- Hln at 1.
    by rewrite (bind_Ok _ _ _ _ _ (store8_next m d0 (S n) (take n s) 0 _ Hm eq_refl ltac:(lia))).
Qed.

Lemma insert_upd_before m a b l : <[a := b]> (upd m (a + 1) l) = upd m a (b :: l).
Proof.
  cbn. revert m. cut (∀ m k, a < k → <[a := b]> (upd m k l) = upd (<[a := b]> m) k l).
  { intros H m. apply H. lia. }
  induction l as [|x l IH]; intros m k Hk; cbn; [done|]. rewrite IH by lia. by rewrite insert_insert_ne by lia.
Qed.

(** The last [k] hexadecimal digits of a number. *)
Fixpoint hex_digits (num : Z) (k : nat) : list Z :=
  match k with
  | O => []
  | S k' => hexChars (num / 16 ^ Z.of_nat k' mod 16) :: hex_digits num k'
  end.

Lemma hex_digits_length num k : length (hex_digits num k) = k.
Proof. induction k; cbn; congruence. Qed.

Lemma hex_run m num (str : Z) : mapped m str 9 → str ≠ 0 → hex num str m = Ok ((), upd m str (hex_digits num 8 ++ [0])).
Proof.
  intros Hm Hs. unfold hex. rewrite (proj2 (Z.eqb_neq str 0)) by done. cbn [negb]. prog_simpl.
  erewrite bind_Ok.
  - rewrite (store8_next m str 9 (hex_digits num 8) 0 8 Hm) by (rewrite ?hex_digits_length; lia). done.
  - cut (∀ j k fuel, (k + j = 8)%nat → (j < fuel)%nat → loop fuel (λ i, if i <? 8
      then store8 (str + (8 - 1 - i)) (hexChars (Z.land (Z.shiftr num (Z.shiftl i 2)) 0xf));; mret (inl (i + 1))
      else mret (inr ())) (Z.of_nat k) (upd m (str + 8 - Z.of_nat k) (hex_digits num k)) = Ok ((), upd m str (hex_digits num 8))).
    { intros H. rewrite <- (H 8%nat 0%nat 9%nat eq_refl); [done|lia]. }
    induction j as [|j IH]; intros k [|fuel] E Hf; try lia.
    + replace k with 8%nat by lia. apply loop_exit. cbn [Z.ltb]. replace (str + 8 - Z.of_nat 8) with str by lia. done.
    + rewrite (loop_next _ _ _ (Z.of_nat (S k)) _ (upd m (str + 8 - Z.of_nat (S k)) (hex_digits num (S k)))); [apply IH; lia|].
      rewrite (proj2 (Z.ltb_lt _ 8)) by lia. cbn [hex_digits]. set (d := hexChars (num / 16 ^ Z.of_nat k mod 16)).
      replace (str + 8 - Z.of_nat k) with (str + 8 - Z.of_nat (S k) + 1) by lia.
      replace (str + (8 - 1 - Z.of_nat k)) with (str + 8 - Z.of_nat (S k)) by lia.
      rewrite <- insert_upd_before.
      assert (hexChars (Z.land (Z.shiftr num (Z.shiftl (Z.of_nat k) 2)) 15) = d) as ->.
      { unfold d. f_equal. change 15 with (Z.ones 4). rewrite Z.land_ones, Z.shiftl_mul_pow2 by lia. rewrite Z.shiftr_div_pow2 by lia.
        change 16 with (2 ^ 4) at 1. rewrite <- Z.pow_mul_r by lia. do 3 f_equal. lia. }
      assert (wrapu 8 d = d) as Hd.
      { apply wrapu_id. unfold in_u, d, hexChars. pose proof (Z.mod_pos_bound (num / 16 ^ Z.of_nat k) 16 ltac:(lia)).
        destruct (_ <? 10); lia. }
      assert (is_Some (upd m (str + 8 - Z.of_nat (S k) + 1) (hex_digits num k) !! (str + 8 - Z.of_nat (S k)))) as Hin.
      { rewrite upd_lookup_out by lia. specialize (Hm (7 - k)%nat ltac:(lia)).
        by replace (str + Z.of_nat (7 - k)) with (str + 8 - Z.of_nat (S k)) in Hm by lia. }
      rewrite (bind_Ok _ _ _ _ _ (store8_run _ _ d Hin)), Hd. unfold mret, prog_ret. do 3 f_equal. lia.
Qed.

Lemma upd_last m a l (x y : Z) : <[a + zlen l := y]> (upd m a (l ++ [x])) = upd m a (l ++ [y]).
Proof. rewrite !upd_app. cbn. apply insert_insert_eq. Qed.

Lemma sstrncpy_run m (d0 s0 : Z) s (n : nat) : cstring m s0 s → mapped m d0 n → (0 < n)%nat → Z.of_nat n < 2 ^ 32 →
  apart d0 (Z.of_nat n) s0 (zlen s + 1) → d0 ≠ 0 → s0 ≠ 0 →
  sstrncpy d0 s0 (Z.of_nat n) m = Ok (zlen s `min` (Z.of_nat n - 1) + 1, upd m d0 (take (n - 1) s ++ [0])).
Proof.
  intros Hs Hm Hn Ho Ha Hd Hs0. unfold sstrncpy.
  rewrite (proj2 (Z.eqb_neq d0 0)), (proj2 (Z.eqb_neq s0 0)) by done. cbn [negb andb]. prog_simpl.
  assert (∀ s2 s1 fuel, s = s1 ++ s2 → (length s1 ≤ n)%nat → (n - length s1 < fuel)%nat → loop fuel (λ index,
    if index <? Z.of_nat n then c ← load8 (s0 + index);
      if c =? 0 then mret (inr index)
      else c ← load8 (s0 + index); store8 (d0 + index) c;; mret (inl (index + 1))
    else mret (inr index)) (zlen s1) (upd m d0 s1) = Ok (zlen (take n s), upd m d0 (take n s))) as Hloop.
  { intros s2. induction s2 as [|c s2 IH]; intros s1 [|fuel] E Hl Hf; try lia.
    - rewrite app_nil_r in E. subst s1. rewrite take_ge by lia. apply loop_exit.
      destruct (Z.ltb_spec (zlen s) (Z.of_nat n)); [|done].
      assert (cstring (upd m d0 s) (s0 + zlen s) []) as H0.
      { apply cstring_drop with (s1 := s). rewrite app_nil_r. apply cstring_apart; [done|unfold apart in *; lia]. }
      prog_step (cstring_nil _ _ H0). done.
    - destruct (Z.ltb_spec (zlen s1) (Z.of_nat n)) as [Hlt|Hge].
      + assert (cstring (upd m d0 s1) (s0 + zlen s1) (c :: s2)) as H0.
        { apply cstring_drop with (s1 := s1). rewrite <- E. apply cstring_apart; [done|unfold apart in *; lia]. }
        apply cstring_cons in H0 as (Hc & Hne & Hr & _).
        pose proof (store8_next m d0 n s1 c (zlen s1) Hm eq_refl ltac:(lia)) as Hst. rewrite char_u8 in Hst by done.
        rewrite (loop_next _ _ _ (zlen (s1 ++ [c])) _ (upd m d0 (s1 ++ [c]))).
        * apply IH; [by rewrite <- app_assoc|rewrite length_app; cbn; lia|rewrite length_app; cbn; lia].
        * rewrite (proj2 (Z.ltb_lt _ _)) by lia. prog_step Hc. rewrite (proj2 (Z.eqb_neq c 0)) by done. prog_step Hc.
          rewrite (bind_Ok _ _ _ _ _ Hst). by rewrite zlen_app.
      + assert (take n s = s1) as -> by (rewrite E, take_app_le, take_ge by lia; done).
        apply loop_exit. by rewrite (proj2 (Z.ltb_ge _ _)) by lia. }
  assert (n - length (@nil Z) < S n)%nat as Hf by (cbn; lia).
  rewrite Nat2Z.id, (bind_Ok _ _ _ _ _ (Hloop s [] (S n) eq_refl ltac:(cbn; lia) Hf)).
  rewrite (wrapu_id 32 (Z.of_nat n - 1)) by (unfold in_u; lia). rewrite length_take.
  destruct (Z.leb_spec (Z.of_nat n) (Z.of_nat (n `min` length s))) as [Hle|Hlt].
  - destruct (lookup_lt_is_Some_2 s (n - 1)) as [c Hc]; [lia|].
    assert (take n s = take (n - 1) s ++ [c]) as Et.
    { rewrite <- take_S_r by done. f_equal. lia. }
    assert (Z.of_nat n - 1 = zlen (take (n - 1) s)) as En by (rewrite length_take; lia).
    rewrite Et, En. erewrite bind_Ok.
    2: { apply store8_run. rewrite <- En. destruct (upd_mapped (take (n - 1) s ++ [c]) m d0 d0 n Hm (n - 1)%nat ltac:(lia)) as [x Hx].
         exists x. by replace (d0 + (Z.of_nat n - 1)) with (d0 + Z.of_nat (n - 1)) by lia. }
    rewrite upd_last, <- En, wrapu_id by (unfold in_u; lia). unfold mret, prog_ret. do 2 f_equal. lia.
  - rewrite take_ge, take_ge by lia. replace (Z.of_nat (n `min` length s)) with (zlen s) by lia.
    rewrite (bind_Ok _ _ _ _ _ (store8_next m d0 n s 0 (zlen s) Hm eq_refl ltac:(lia))).
    rewrite wrapu_id by (unfold in_u; lia). unfold mret, prog_ret. do 2 f_equal. lia.
Qed.

(** ** Searching and comparing blocks *)

Lemma strrchr_run fuel m a s ch : cstring m a s → a ≠ 0 → (length s < fuel)%nat →
  ∃ r, strrchr fuel a ch m = Ok (r, m) ∧
    (r = 0 ∧ Forall (λ c, s8 c ≠ ch) s ∨
     ∃ i c, s !! i = Some c ∧ s8 c = ch ∧ r = a + Z.of_nat i ∧ Forall (λ c, s8 c ≠ ch) (drop (S i) s)).
Proof.
  intros Hs Ha Hf. unfold strrchr. rewrite (proj2 (Z.eqb_neq a 0)) by done. cbn [negb]. prog_simpl. generalize 0 at 2 3.
  clear Ha. revert fuel a Hs Hf. induction s as [|c s IH]; intros [|fuel] a Hs Hf pos; cbn [length] in Hf; try lia.
  - exists pos. split; [|by left]. apply loop_exit. by prog_step (cstring_nil _ _ Hs).
  - apply cstring_cons in Hs as (Hc & Hne & _ & Hs).
    destruct (IH fuel (a + 1) Hs ltac:(lia) (if s8 c =? ch then a else pos)) as (r & Hrun & Hr). exists r. split.
    + rewrite <- Hrun. apply loop_next. prog_step Hc. by rewrite (proj2 (Z.eqb_neq c 0)) by done.
    + destruct Hr as [[-> Hall]|(i & d & Hd & Ed & -> & Hall)].
      * destruct (Z.eqb_spec (s8 c) ch) as [E|E].
        -- right. exists 0%nat, c. cbn. rewrite drop_0. split_and!; [done|done|lia|done].
        -- left. split; [done|by constructor].
      * right. exists (S i), d. split_and!; [done|done|lia|done].
Qed.

Lemma memcmp_run m a b l l' : bytes m a l → bytes m b l' → length l = length l' →
  ∃ r, memcmp a b (zlen l) m = Ok (r, m) ∧
    (l = l' ∧ r = 0 ∨ ∃ i c d, take i l = take i l' ∧ l !! i = Some c ∧ l' !! i = Some d ∧ c ≠ d ∧ r = Z.sgn (c - d)).
Proof.
  intros Hl Hl' En. unfold memcmp. rewrite Nat2Z.id.
  assert (∀ j i : nat, (i + j = length l)%nat → take i l = take i l' → ∃ k : nat, (k ≤ length l)%nat ∧ take k l = take k l' ∧
    ((k < length l)%nat → l !! k ≠ l' !! k) ∧
    loop (S j) (λ i, if i <? zlen l
      then c1 ← load8 (a + i); c2 ← load8 (b + i); mret (if negb (c1 =? c2) then inr i else inl (i + 1))
      else mret (inr i)) (Z.of_nat i) m = Ok (Z.of_nat k, m)) as Hloop.
  { induction j as [|j IH]; intros i E Et.
    - exists i. split_and!; [lia|done|lia|]. apply loop_exit. by rewrite (proj2 (Z.ltb_ge _ _)) by lia.
    - destruct (lookup_lt_is_Some_2 l i) as [c Hc]; [lia|]. destruct (lookup_lt_is_Some_2 l' i) as [d Hd]; [lia|].
      pose proof (load8_run _ _ _ (Hl _ _ Hc)) as Lc. pose proof (load8_run _ _ _ (Hl' _ _ Hd)) as Ld.
      destruct (Z.eqb_spec c d) as [<-|Hne].
      + destruct (IH (S i)) as (k & ? & ? & ? & Hrun); [lia|by rewrite (take_S_r _ _ _ Hc), (take_S_r _ _ _ Hd), Et|].
        exists k. split_and!; [done..|]. rewrite <- Hrun. apply loop_next. rewrite (proj2 (Z.ltb_lt _ _)) by lia.
        prog_step Lc. prog_step Ld. rewrite Z.eqb_refl. cbn [negb]. do 3 f_equal. lia.
      + exists i. split_and!; [lia|done|rewrite Hc, Hd; congruence|]. apply loop_exit. rewrite (proj2 (Z.ltb_lt _ _)) by lia.
        prog_step Lc. prog_step Ld. by rewrite (proj2 (Z.eqb_neq c d)) by done. }
  destruct (Hloop (length l) 0%nat eq_refl eq_refl) as (k & Hk & Et & Hne & Hrun).
  change (Z.of_nat 0) with 0 in Hrun. rewrite (bind_Ok _ _ _ _ _ Hrun).
  destruct (Z.leb_spec (zlen l) (Z.of_nat k)) as [Hge|Hlt].
  - exists 0. split; [done|]. left. split; [|done]. rewrite !take_ge in Et by lia. done.
  - destruct (lookup_lt_is_Some_2 l k) as [c Hc]; [lia|]. destruct (lookup_lt_is_Some_2 l' k) as [d Hd]; [lia|].
    exists (Z.sgn (c - d)). specialize (Hne ltac:(lia)). rewrite Hc, Hd in Hne. assert (c ≠ d) as Hcd by congruence.
    split; [|right; by exists k, c, d]. prog_step (load8_run _ _ _ (Hl _ _ Hc)). prog_step (load8_run _ _ _ (Hl' _ _ Hd)).
    unfold mret, prog_ret. destruct (Z.ltb_spec d c); do 2 f_equal; [by rewrite Z.sgn_pos by lia|by rewrite Z.sgn_neg by lia].
Qed.

(** ** Properties *)

(** C36. The functions that read C strings (and [memcmp]) end without a fault on any two
    strings in memory and change nothing. [strlen] and [strnlen] return the length;
    [strcmp], [strncmp] and [memcmp] return 0 when the (first [n]) characters agree and
    otherwise the sign of the difference of the first characters that do not, compared as
    [signed char] by the string functions and as bytes by [memcmp]; [strrchr] returns the
    last occurrence of a character, or null. *)
Theorem string_reads fuel m a s b t n ch :
  cstring m a s → cstring m b t → a ≠ 0 → b ≠ 0 → 0 ≤ n → (length s < fuel)%nat → (length t < fuel)%nat →
  strlen fuel a m = Ok (zlen s, m) ∧
  strnlen a n m = Ok (zlen s `min` n, m) ∧
  (∃ r, strncmp a b n m = Ok (r, m) ∧ compares (Z.to_nat n) s t r) ∧
  (∃ r, strcmp fuel a b m = Ok (r, m) ∧ compares fuel s t r) ∧
  (length s = length t → ∃ r, memcmp a b (zlen s) m = Ok (r, m) ∧ (s = t ∧ r = 0 ∨ ∃ i c d, take i s = take i t ∧
     s !! i = Some c ∧ t !! i = Some d ∧ c ≠ d ∧ r = Z.sgn (c - d))) ∧
  (∃ r, strrchr fuel a ch m = Ok (r, m) ∧ (r = 0 ∧ Forall (λ c, s8 c ≠ ch) s ∨
     ∃ i c, s !! i = Some c ∧ s8 c = ch ∧ r = a + Z.of_nat i ∧ Forall (λ c, s8 c ≠ ch) (drop (S i) s))).
Proof.
  intros Hs Ht Ha Hb Hn Hf Hg. split_and!.
  - by apply strlen_run.
  - by apply strnlen_run.
  - by apply strncmp_run.
  - by apply strcmp_run.
  - intros El. apply memcmp_run; [..|done].
    + destruct Hs as [Hs _]. by apply bytes_app in Hs as [? _].
    + destruct Ht as [Ht _]. by apply bytes_app in Ht as [? _].
  - by apply strrchr_run.
Qed.

(** A memory of [n] bytes 170 at 100, with the strings "ab" at 100 and "xyz" at 104. *)
Definition sample_mem : mem :=
  upd (upd (upd ∅ 100 (replicate 40 170)) 100 [97; 98; 0]) 104 [120; 121; 122; 0].

Lemma sample_mapped : mapped sample_mem 100 40.
Proof. intros i Hi. do 40 (destruct i as [|i]; [by eexists|]). lia. Qed.

Lemma sample_ab : cstring sample_mem 100 [97; 98].
Proof. split; [|repeat constructor; lia]. cbn [app]. rewrite !bytes_cons. split_and!; [done..|apply bytes_nil]. Qed.

Lemma sample_xyz : cstring sample_mem 104 [120; 121; 122].
Proof. split; [|repeat constructor; lia]. cbn [app]. rewrite !bytes_cons. split_and!; [done..|apply bytes_nil]. Qed.

Example string_reads_witness :
  cstring sample_mem 100 [97; 98] ∧ cstring sample_mem 104 [120; 121; 122] ∧
  strlen 5 100 sample_mem = Ok (2, sample_mem).
Proof.
  split_and!; [apply sample_ab|apply sample_xyz|].
  by apply (string_reads 5 sample_mem 100 [97; 98] 104 [120; 121; 122] 2 98 sample_ab sample_xyz); cbn; lia.
Defined.

(** C28. The functions that copy C strings end without a fault whenever the room that their
    interface asks for is mapped and apart from the source, and write exactly the characters
    they should: [strcpy] the string with its terminator, [strcat] and [strncat] (the first
    [n] characters of) the string behind the terminator's place, [strncpy] exactly [n] bytes,
    padded with zeros and without a terminator when the string is too long, [strlcpy] and
    [sstrncpy] at most [n - 1] characters and always a terminator; [strlcpy] returns the
    length of the source and [sstrncpy] the number of bytes written. *)
Theorem string_writes fuel m dst t src s (n : nat) :
  cstring m src s → cstring m dst t → src ≠ 0 → dst ≠ 0 → (0 < n)%nat → Z.of_nat n < 2 ^ 32 →
  (length s < fuel)%nat → (length t < fuel)%nat →
  (mapped m dst (S (length s)) → apart dst (zlen s + 1) src (zlen s + 1) →
   strcpy fuel dst src m = Ok (dst, upd m dst (s ++ [0]))) ∧
  (mapped m (dst + zlen t) (S (length s)) → apart (dst + zlen t) (zlen s + 1) src (zlen s + 1) →
   strcat fuel dst src m = Ok (dst, upd m (dst + zlen t) (s ++ [0]))) ∧
  (mapped m (dst + zlen t) (S n) → apart (dst + zlen t) (Z.of_nat n + 1) src (zlen s + 1) →
   strncat fuel dst src (Z.of_nat n) m = Ok (dst, upd m (dst + zlen t) (take n s ++ [0]))) ∧
  (mapped m dst n → apart dst (Z.of_nat n) src (zlen s + 1) →
   strncpy dst src (Z.of_nat n) m = Ok (dst, upd m dst (take n (s ++ replicate n 0))) ∧
   strlcpy fuel dst src (Z.of_nat n) m = Ok (zlen s, upd m dst (take (n - 1) s ++ [0])) ∧
   sstrncpy dst src (Z.of_nat n) m = Ok (zlen s `min` (Z.of_nat n - 1) + 1, upd m dst (take (n - 1) s ++ [0]))).
Proof.
  intros Hs Ht Ha Hb Hn Ho Hf Hg. split_and!.
  - intros. by apply strcpy_run.
  - intros. by apply strcat_run.
  - intros. by apply strncat_run.
  - intros. split_and!; [by apply strncpy_run|by apply strlcpy_run|by apply sstrncpy_run].
Qed.

Example string_writes_witness : mapped sample_mem (100 + 2) 2 ∧
  strncat 5 100 104 1 sample_mem = Ok (100, upd sample_mem (100 + 2) [120; 0]).
Proof.
  assert (mapped sample_mem (100 + 2) 2) as Hm.
  { intros i Hi. replace (100 + 2 + Z.of_nat i) with (100 + Z.of_nat (2 + i)) by lia. apply sample_mapped. lia. }
  split; [exact Hm|].
  apply (string_writes 5 sample_mem 100 [97; 98] 104 [120; 121; 122] 1 sample_xyz sample_ab);
    try exact Hm; unfold apart; cbn; lia.
Defined.

(** C19. The routines that work by words and cache lines do what their byte by byte
    references do, at any alignment and length: [memset] fills, [zero_block] clears (for a
    positive length, away from the end of the address space) and [memcpy] copies exactly the
    [n] bytes at [dst], the latter also when the source overlaps the destination from
    above. *)
Theorem block_operations_bytewise m dst (n : nat) : mapped m dst n →
  (∀ c, memset dst c (Z.of_nat n) m = (fill_bytes dst (dst + Z.of_nat n) c;; mret dst) m ∧
        memset dst c (Z.of_nat n) m = Ok (dst, upd m dst (replicate n (u8 c)))) ∧
  ((0 < n)%nat → 0 < dst → dst + Z.of_nat n + 32 ≤ 2 ^ 32 →
   zero_block dst (Z.of_nat n) m = fill_bytes dst (dst + Z.of_nat n) 0 m ∧
   zero_block dst (Z.of_nat n) m = Ok ((), upd m dst (replicate n 0))) ∧
  (∀ src l, length l = n → bytes m src l → all_u8 l → dst ≤ src ∨ src + Z.of_nat n ≤ dst → dst ≠ 0 → src ≠ 0 →
   memcpy dst src (Z.of_nat n) m = (memcpy_bytes dst src (Z.of_nat n);; mret dst) m ∧
   memcpy dst src (Z.of_nat n) m = Ok (dst, upd m dst l)).
Proof.
  intros Hm. assert (∀ c, fill_bytes dst (dst + Z.of_nat n) c m = Ok ((), upd m dst (replicate n (u8 c)))) as Hf.
  { intros c. pose proof (fill_bytes_run m dst c n Hm n 0 ltac:(lia)) as H. by rewrite Z.add_0_r in H. }
  split_and!.
  - intros c. rewrite (bind_Ok _ _ _ _ _ (Hf c)), (memset_run m dst c n Hm). done.
  - intros Hn Hd Ho. rewrite Hf, (zero_block_run m dst n Hm Hn Hd Ho). done.
  - intros src l <- Hb Hu Ha Hd Hs.
    rewrite (bind_Ok _ _ _ _ _ (memcpy_bytes_run m dst src l Hb Hu Hm Ha)), memcpy_run by done. done.
Qed.

Example block_operations_bytewise_witness : mapped sample_mem 100 40 ∧
  memset 100 7 40 sample_mem = Ok (100, upd sample_mem 100 (replicate 40 7)).
Proof.
  split; [exact sample_mapped|].
  destruct (block_operations_bytewise sample_mem 100 40 sample_mapped) as [H _]. exact (proj2 (H 7)).
Defined.

(** What the searching functions do where they differ from the interface of C: [strchr]
    tests for the terminator the wrong way round and so finds nothing in a string that is not
    empty; [memchr] returns the last occurrence; [strstr] misses an occurrence that overlaps
    a failed match; [strrchr] does not find the terminator; [zero_block] of no byte clears
    one. *)
Example strchr_finds_nothing : strchr 5 100 97 sample_mem = Ok (0, sample_mem).
Proof. by vm_compute. Qed.

Example memchr_finds_last : memchr 100 97 3 (upd sample_mem 100 [97; 97; 98]) =
  Ok (101, upd sample_mem 100 [97; 97; 98]).
Proof. by vm_compute. Qed.

Example strstr_misses_overlap :
  let m := upd sample_mem 110 [97; 97; 97; 98; 0; 97; 97; 98; 0] in strstr 9 110 115 m = Ok (0, m).
Proof. by vm_compute. Qed.

Example strrchr_skips_terminator : strrchr 5 100 0 sample_mem = Ok (0, sample_mem).
Proof. by vm_compute. Qed.

Example zero_block_of_nothing : zero_block 100 0 sample_mem = Ok ((), <[100 := 0]> sample_mem).
Proof. by vm_compute. Qed.
