(* ===== verification/LibcSort.v ===== *)
(** * Sorting of the C library

    [qsort] of [generic/libc/stdlib/qsort.c] on byte memory: the elements are runs of [es] bytes,
    which are swapped by bytes or by words, and the caller's comparison sees the bytes of two
    elements. The proofs follow what the routine does to the elements as permutations of their
    positions ([moved]): whatever the comparison answers, nothing is lost, and if it is an order
    the elements end up sorted. *)

From Stdlib Require Import Sorted.
From S2P Require Import Prelude Memory.

(** ** The routine *)

(** A value of [n] bytes is read from [p], or the value [l] written. *)
Fixpoint load_n (n : nat) (p : Z) : prog mem (list Z) :=
  match n with
  | O => mret []
  | S n' => b ← load8 p; l ← load_n n' (p + 1); mret (b :: l)
  end.

Fixpoint store_n (p : Z) (l : list Z) : prog mem () :=
  match l with
  | [] => mret ()
  | b :: l' => store8 p b;; store_n (p + 1) l'
  end.

(** [t = *pi; *pi = *pj; *pj = t] for a type of [w] bytes. *)
Definition swap_item (w pi pj : Z) : prog mem () :=
  t ← load_n (Z.to_nat w) pi;
  x ← load_n (Z.to_nat w) pj;
  store_n pi x;;
  store_n pj t.

Definition swapcode (w parmi parmj n : Z) : prog mem () :=
  loop (S (Z.to_nat (n / w))) (λ '(i, pi, pj),
    swap_item w pi pj;;
    mret (if 0 <? i - 1 then inl (i - 1, pi + w, pj + w) else inr ())) (n / w, parmi, parmj).

Definition sizeof_long : Z := 4.

Definition SWAPINIT (a es : Z) : Z :=
  if negb (a mod sizeof_long =? 0) || negb (es mod sizeof_long =? 0) then 2
  else if es =? sizeof_long then 0 else 1.

Definition swapfunc (a b n swaptype : Z) : prog mem () :=
  if swaptype <=? 1 then swapcode sizeof_long a b n else swapcode 1 a b n.

Section qsort.
(** The size of an element, and the comparison, on the bytes of two elements. *)
Variables (es : Z) (cmp : list Z → list Z → Z).

Definition yswap (swaptype a b : Z) : prog mem () :=
  if swaptype =? 0 then swap_item sizeof_long a b else swapfunc a b (s32 es) swaptype.

Definition vecswap (swaptype a b n : Z) : prog mem () := when (0 <? n) (swapfunc a b n swaptype).

(** A call of the comparison. *)
Definition cmp_at (p q : Z) : prog mem Z :=
  x ← load_n (Z.to_nat es) p; y ← load_n (Z.to_nat es) q; mret (cmp x y).

Definition med3 (a b c : Z) : prog mem Z :=
  r ← cmp_at a b;
  if r <? 0 then
    r ← cmp_at b c;
    if r <? 0 then mret b else r ← cmp_at a c; mret (if r <? 0 then c else a)
  else
    r ← cmp_at b c;
    if 0 <? r then mret b else r ← cmp_at a c; mret (if r <? 0 then a else c).

(** The element at [pm] is brought down to its place. *)
Definition insert_down (swaptype a pm : Z) : prog mem () :=
  loop (S (Z.to_nat (pm - a))) (λ pl,
    if a <? pl then
      r ← cmp_at (pl - es) pl;
      if 0 <? r then yswap swaptype pl (pl - es);; mret (inl (pl - es)) else mret (inr ())
    else mret (inr ())) pm.

Definition insertion_sort (swaptype a n : Z) : prog mem () :=
  loop (S (Z.to_nat n)) (λ pm,
    if pm <? a + u32 (n * es) then insert_down swaptype a pm;; mret (inl (pm + es)) else mret (inr ())) (a + es).

(** The pivot: the middle, the median of three, or of three medians of three. *)
Definition choose_pivot (a n : Z) : prog mem Z :=
  let pm := a + u32 (n / 2 * es) in
  if 7 <? n then
    let pl := a in
    let pn := a + u32 ((n - 1) * es) in
    if 40 <? n then
      let d := s32 (n / 8 * es) in
      pl ← med3 pl (pl + d) (pl + 2 * d);
      pm ← med3 (pm - d) pm (pm + d);
      pn ← med3 (pn - 2 * d) (pn - d) pn;
      med3 pl pm pn
    else med3 pl pm pn
  else mret pm.

(** [pb] goes up over the elements that are not greater than the pivot, those equal to it are
    collected below [pa]; the result is [pa], [pb], [swap_cnt]. *)
Definition scan_up (n swaptype a pc pa pb swap_cnt : Z) : prog mem (Z * Z * Z) :=
  loop (S (Z.to_nat n)) (λ '(pa, pb, swap_cnt),
    if pb <=? pc then
      r ← cmp_at pb a;
      if r <=? 0 then
        if r =? 0 then yswap swaptype pa pb;; mret (inl (pa + es, pb + es, 1))
        else mret (inl (pa, pb + es, swap_cnt))
      else mret (inr (pa, pb, swap_cnt))
    else mret (inr (pa, pb, swap_cnt))) (pa, pb, swap_cnt).

(** [pc] comes down over those that are not less; the result is [pc], [pd], [swap_cnt]. *)
Definition scan_down (n swaptype a pb pc pd swap_cnt : Z) : prog mem (Z * Z * Z) :=
  loop (S (Z.to_nat n)) (λ '(pc, pd, swap_cnt),
    if pb <=? pc then
      r ← cmp_at pc a;
      if 0 <=? r then
        if r =? 0 then yswap swaptype pc pd;; mret (inl (pc - es, pd - es, 1))
        else mret (inl (pc - es, pd, swap_cnt))
      else mret (inr (pc, pd, swap_cnt))
    else mret (inr (pc, pd, swap_cnt))) (pc, pd, swap_cnt).

Definition partition (n swaptype a : Z) : prog mem (Z * Z * Z * Z * Z) :=
  let e := a + es in
  let f := a + u32 ((n - 1) * es) in
  loop (S (Z.to_nat n)) (λ '(pa, pb, pc, pd, swap_cnt),
    '(pa, pb, swap_cnt) ← scan_up n swaptype a pc pa pb swap_cnt;
    '(pc, pd, swap_cnt) ← scan_down n swaptype a pb pc pd swap_cnt;
    if pc <? pb then mret (inr (pa, pb, pc, pd, swap_cnt))
    else yswap swaptype pb pc;; mret (inl (pa, pb + es, pc - es, pd, 1))) (e, e, f, f, 0).

(** The elements equal to the pivot are brought to the middle. *)
Definition gather (swaptype a pn pa pb pc pd : Z) : prog mem () :=
  let r := s32 (Z.min (pa - a) (pb - pa)) in
  vecswap swaptype a (pb - r) r;;
  let r := s32 (Z.min (s32 (pd - pc)) (s32 (pn - pd - es))) in
  vecswap swaptype pb (pn - r) r.

(** [fuel] bounds the depth of the calls and jumps back. *)
Fixpoint qsort (fuel : nat) (a n : Z) : prog mem () :=
  match fuel with
  | O => fail FFuel
  | S fuel =>
      let swaptype := SWAPINIT a es in
      if n <? 7 then insertion_sort swaptype a n
      else
        pm ← choose_pivot a n;
        yswap swaptype a pm;;
        '(pa, pb, pc, pd, swap_cnt) ← partition n swaptype a;
        if swap_cnt =? 0 then insertion_sort swaptype a n
        else
          let pn := a + u32 (n * es) in
          gather swaptype a pn pa pb pc pd;;
          let r := s32 (pb - pa) in
          when (es <? u32 r) (qsort fuel a (u32 r / es));;
          let r := s32 (pd - pc) in
          when (es <? u32 r) (qsort fuel (pn - r) (u32 r / es))
  end.
End qsort.

Example sorts_ten_bytes :
  let l := [3; 9; 1; 7; 3; 3; 250; 0; 8; 3] in
  match qsort 1 (λ x y, hd 0 x - hd 0 y) 11 100 10 (upd ∅ 100 l) with
  | Ok (_, m) => (λ i, m !! (100 + Z.of_nat i)) <$> seq 0 10 = Some <$> [0; 1; 3; 3; 3; 3; 7; 8; 9; 250]
  | Err _ => False
  end.
Proof. by vm_compute. Qed.

(** ** Reading and swapping runs of bytes *)

(** The bytes of a value of [n] bytes at [p]. *)
Definition value (m : mem) (p : Z) (n : nat) : list Z := (λ i, default 0 (m !! (p + Z.of_nat i))) <$> seq 0 n.

(** The addresses from [p] to [q] hold bytes. *)
Definition cells (m : mem) (p q : Z) : Prop := ∀ x, p ≤ x < q → ∃ b, m !! x = Some b ∧ in_u 8 b.

(** [m'] is [m] with the [n] bytes at [p] and [q] swapped. *)
Definition swap_addr (p q n x : Z) : Z := if decide (p ≤ x < p + n) then x - p + q else if decide (q ≤ x < q + n) then x - q + p else x.
Definition swapped (p q n : Z) (m m' : mem) : Prop := ∀ x, m' !! x = m !! swap_addr p q n x.
Definition apart (p q n : Z) : Prop := p = q ∨ p + n ≤ q ∨ q + n ≤ p.

Lemma value_S m p n : value m p (S n) = default 0 (m !! p) :: value m (p + 1) n.
Proof.
  unfold value. cbn [seq fmap list_fmap]. f_equal; [do 2 f_equal; lia|]. rewrite <- fmap_S_seq.
  rewrite <- list_fmap_compose. apply list_fmap_ext. intros i x _. cbn. do 2 f_equal. lia.
Qed.

Lemma length_value m p n : length (value m p n) = n.
Proof. unfold value. by rewrite length_fmap, length_seq. Qed.

Lemma value_bytes m p n : cells m p (p + Z.of_nat n) → bytes m p (value m p n) ∧ all_u8 (value m p n).
Proof.
  revert p. induction n as [|n IH]; intros p H; [split; [apply bytes_nil|by constructor]|]. rewrite value_S.
  destruct (H p ltac:(lia)) as (b & Hb & Hu). destruct (IH (p + 1)) as [I1 I2]; [intros x Hx; apply H; lia|]. rewrite Hb. cbn.
  split; [by apply bytes_cons|by constructor].
Qed.

Lemma load_n_run m n : ∀ p, cells m p (p + Z.of_nat n) → load_n n p m = Ok (value m p n, m).
Proof.
  induction n as [|n IH]; intros p H; [done|]. rewrite value_S. destruct (H p ltac:(lia)) as (b & Hb & _). cbn [load_n].
  rewrite (bind_Ok _ _ _ _ _ (load8_run m p b Hb)), (bind_Ok _ _ _ _ _ (IH (p + 1) ltac:(intros x Hx; apply H; lia))). by rewrite Hb.
Qed.

Lemma store_n_run l : ∀ m p, cells m p (p + zlen l) → all_u8 l → store_n p l m = Ok ((), upd m p l).
Proof.
  induction l as [|b l IH]; intros m p H Hu; [done|]. apply Forall_cons in Hu as [Hb Hl]. cbn [store_n upd].
  destruct (H p ltac:(cbn; lia)) as (c & Hc & _). rewrite (bind_Ok _ _ _ _ _ (store8_run m p b ltac:(by exists c))). rewrite wrapu_id by done.
  apply IH; [|done]. intros x Hx. rewrite lookup_insert_ne by lia. apply H. cbn. lia.
Qed.

Lemma upd_in m p l x : p ≤ x < p + zlen l → upd m p l !! x = l !! Z.to_nat (x - p).
Proof.
  intros Hx. destruct (lookup_lt_is_Some_2 l (Z.to_nat (x - p))) as [b Hb]; [lia|]. rewrite Hb.
  rewrite <- (upd_bytes l m p _ _ Hb). f_equal. lia.
Qed.

Lemma value_lookup m p n i : cells m p (p + Z.of_nat n) → 0 ≤ i < Z.of_nat n → value m p n !! Z.to_nat i = m !! (p + i).
Proof.
  intros H Hx. destruct (value_bytes m p n H) as [Hb _]. destruct (lookup_lt_is_Some_2 (value m p n) (Z.to_nat i)) as [b E];
    [rewrite length_value; lia|]. rewrite E. rewrite <- (Hb _ _ E). f_equal. lia.
Qed.

Lemma upd_cells m p l a b : cells m a b → all_u8 l → cells (upd m p l) a b.
Proof.
  intros H Hl x Hx. destruct (decide (p ≤ x < p + zlen l)) as [Hin|Hout]; [|rewrite upd_lookup_out by lia; by apply H].
  rewrite upd_in by done. destruct (lookup_lt_is_Some_2 l (Z.to_nat (x - p))) as [c Hc]; [lia|]. exists c. split; [done|].
  by eapply (proj1 (Forall_lookup _ _) Hl).
Qed.

Lemma swap_item_run w p q m : 0 < w → cells m p (p + w) → cells m q (q + w) → apart p q w →
  ends (swap_item w p q) m (λ _ m', swapped p q w m m').
Proof.
  intros Hw Hp Hq Ha. assert (Z.of_nat (Z.to_nat w) = w) as E by lia.
  destruct (value_bytes m p (Z.to_nat w)) as [_ Up], (value_bytes m q (Z.to_nat w)) as [_ Uq]; [by rewrite E..|].
  eexists (), _. split.
  - unfold swap_item. rewrite (bind_Ok _ _ _ _ _ (load_n_run m _ p ltac:(by rewrite E))), (bind_Ok _ _ _ _ _ (load_n_run m _ q ltac:(by rewrite E))).
    rewrite (bind_Ok _ _ _ _ _ (store_n_run _ m p ltac:(by rewrite length_value, E) Uq)). apply store_n_run; [|done].
    apply upd_cells; [by rewrite length_value, E|done].
  - intros x. unfold swap_addr. destruct (decide (p ≤ x < p + w)) as [H1|H1].
    + destruct (decide (p = q)) as [<-|Hne].
      * rewrite upd_in by (rewrite length_value; lia). rewrite value_lookup by (rewrite ?E; done || lia). f_equal. lia.
      * destruct Ha as [?|Ha]; [done|]. rewrite upd_lookup_out by (rewrite length_value; lia). rewrite upd_in by (rewrite length_value; lia).
        rewrite value_lookup by (rewrite ?E; done || lia). f_equal. lia.
    + destruct (decide (q ≤ x < q + w)) as [H2|H2].
      * rewrite upd_in by (rewrite length_value; lia). rewrite value_lookup by (rewrite ?E; done || lia). f_equal. lia.
      * rewrite !upd_lookup_out by (rewrite length_value; lia). done.
Qed.

Lemma swapped_trans p q w k m m1 m2 : 0 < w → 0 ≤ k → apart p q (w + k) →
  swapped p q w m m1 → swapped (p + w) (q + w) k m1 m2 → swapped p q (w + k) m m2.
Proof.
  intros Hw Hk Ha H1 H2 x. rewrite H2, H1. f_equal. unfold apart, swap_addr in *. repeat case_decide; lia.
Qed.

Lemma swapped_cells p q n m m' a b : swapped p q n m m' → cells m p (p + n) → cells m q (q + n) → cells m a b → cells m' a b.
Proof.
  intros H Hp Hq Hab x Hx. rewrite H. unfold swap_addr. destruct (decide _); [apply Hq; lia|]. destruct (decide _); [apply Hp; lia|by apply Hab].
Qed.

Lemma swapcode_run w k p q m fuel : 0 < w → (k < fuel)%nat →
  cells m p (p + w * Z.of_nat (S k)) → cells m q (q + w * Z.of_nat (S k)) → apart p q (w * Z.of_nat (S k)) →
  ends (loop fuel (λ '(i, pi, pj), swap_item w pi pj;; mret (if 0 <? i - 1 then inl (i - 1, pi + w, pj + w) else inr ())) (Z.of_nat (S k), p, q)) m
    (λ _ m', swapped p q (w * Z.of_nat (S k)) m m').
Proof.
  intros Hw. revert fuel p q m. induction k as [|k IH]; intros [|fuel] p q m Hf Hp Hq Ha; try lia.
  all: destruct (swap_item_run w p q m Hw) as ([] & m1 & E & Hsw); [intros x Hx; apply Hp; lia|intros x Hx; apply Hq; lia|unfold apart in *; lia|].
  - eexists (), m1. split; [|by rewrite Z.mul_1_r]. apply loop_exit. rewrite (bind_Ok _ _ _ _ _ E). done.
  - assert (∀ a b, cells m a b → cells m1 a b) as Hc.
    { intros a b. eapply swapped_cells; [done|intros x Hx; apply Hp; lia|intros x Hx; apply Hq; lia]. }
    destruct (IH fuel (p + w) (q + w) m1) as ([] & m2 & E2 & Hsw2); [lia|intros x Hx; eapply Hc; [exact Hp|lia]|intros x Hx; eapply Hc; [exact Hq|lia]|
      unfold apart in *; lia|].
    eexists (), m2. split.
    + erewrite loop_next; [exact E2|]. rewrite (bind_Ok _ _ _ _ _ E), run_ret. rewrite (proj2 (Z.ltb_lt _ _)) by lia. do 5 f_equal. lia.
    + replace (w * Z.of_nat (S (S k))) with (w + w * Z.of_nat (S k)) in * by lia. eapply swapped_trans; [done|lia|done..].
Qed.

Lemma swapfunc_run p q n st m : 0 < n → (st ≤ 1 → n mod 4 = 0) → cells m p (p + n) → cells m q (q + n) → apart p q n →
  ends (swapfunc p q n st) m (λ _ m', swapped p q n m m').
Proof.
  intros Hn Hst Hp Hq Ha. unfold swapfunc, swapcode.
  assert (∀ w, 0 < w → n = w * (n / w) → ends (loop (S (Z.to_nat (n / w))) (λ '(i, pi, pj),
    swap_item w pi pj;; mret (if 0 <? i - 1 then inl (i - 1, pi + w, pj + w) else inr ())) (n / w, p, q)) m (λ _ m', swapped p q n m m')) as H.
  { intros w Hw E. remember (Z.to_nat (n / w - 1)) as k. assert (n / w = Z.of_nat (S k)) as Ei by nia.
    clear Heqk. rewrite Ei in *. subst n. apply swapcode_run; [done|lia|done..]. }
  destruct (Z.leb_spec st 1) as [Hle|Hlt]; [|apply H; [lia|by rewrite Z.div_1_r, Z.mul_1_l]].
  specialize (Hst Hle). apply H; [done|]. unfold sizeof_long. apply Z.div_exact; lia.
Qed.

(** ** Permutations of the elements *)

(** Every address is in an element of an array that is based at [A]. *)
Section elements.
Context (es : Z) (A : Z) (cmp : list Z → list Z → Z).
Hypothesis Hes : 0 < es < 2 ^ 31.
#[local] Set Default Proof Using "Type*".

Definition ptr (k : Z) : Z := A + k * es.
Definition elem (m : mem) (k : Z) : list Z := value m (ptr k) (Z.to_nat es).

(** The address from which a byte comes when the elements are moved by [σ]. *)
Definition source (σ : Z → Z) (x : Z) : Z := ptr (σ ((x - A) / es)) + (x - A) mod es.
Definition moved (σ : Z → Z) (m m' : mem) : Prop := ∀ x, m' !! x = m !! source σ x.

(** [σ] permutes the numbers from [lo] to [hi]. *)
Record permutes (lo hi : Z) (σ : Z → Z) : Prop := {
  pm_in k : lo ≤ k < hi → lo ≤ σ k < hi;
  pm_out k : ¬ lo ≤ k < hi → σ k = k;
  pm_inj j k : σ j = σ k → j = k;
}.

(** The elements from [lo] to [hi] are permuted, nothing else is changed. *)
Definition shuffled (lo hi : Z) (m m' : mem) : Prop := ∃ σ, permutes lo hi σ ∧ moved σ m m'.

Definition present (m : mem) (lo hi : Z) : Prop := cells m (ptr lo) (ptr hi).

Lemma ptr_le i j : (ptr i <=? ptr j) = (i <=? j).
Proof. unfold ptr. destruct (Z.leb_spec i j), (Z.leb_spec (A + i * es) (A + j * es)); nia. Qed.
Lemma ptr_lt i j : (ptr i <? ptr j) = (i <? j).
Proof. unfold ptr. destruct (Z.ltb_spec i j), (Z.ltb_spec (A + i * es) (A + j * es)); nia. Qed.
Lemma ptr_next i : ptr i + es = ptr (i + 1).
Proof. unfold ptr. lia. Qed.
Lemma ptr_prev i : ptr i - es = ptr (i - 1).
Proof. unfold ptr. lia. Qed.
Lemma ptr_add i j : ptr i + j * es = ptr (i + j).
Proof. unfold ptr. lia. Qed.
Lemma ptr_sub i j : ptr i - j * es = ptr (i - j).
Proof. unfold ptr. lia. Qed.
Lemma ptr_diff i j : ptr i - ptr j = (i - j) * es.
Proof. unfold ptr. lia. Qed.

Lemma source_ptr σ k o : 0 ≤ o < es → source σ (ptr k + o) = ptr (σ k) + o.
Proof.
  intros Ho. unfold source, ptr. replace (A + k * es + o - A) with (o + k * es) by lia.
  rewrite Z.div_add, Z.mod_add, Z.div_small, Z.mod_small by lia. done.
Qed.

Lemma in_element x : ∃ k o, 0 ≤ o < es ∧ x = ptr k + o.
Proof.
  exists ((x - A) / es), ((x - A) mod es). unfold ptr. pose proof (Z.div_mod (x - A) es). pose proof (Z.mod_pos_bound (x - A) es). lia.
Qed.

Lemma element_range k o lo hi : 0 ≤ o < es → ptr lo ≤ ptr k + o < ptr hi ↔ lo ≤ k < hi.
Proof. unfold ptr. intros Ho. split; nia. Qed.

Lemma moved_elem σ m m' k : moved σ m m' → elem m' k = elem m (σ k).
Proof.
  intros H. unfold elem, value. apply list_fmap_ext. intros i x [-> Hi]%lookup_seq. cbn. rewrite H, source_ptr by lia. done.
Qed.

Lemma moved_trans σ1 σ2 m m1 m2 : moved σ1 m m1 → moved σ2 m1 m2 → moved (λ k, σ1 (σ2 k)) m m2.
Proof.
  intros H1 H2 x. destruct (in_element x) as (k & o & Ho & ->). by rewrite H2, source_ptr, H1, !source_ptr.
Qed.

#[global] Instance shuffled_refl lo hi : Reflexive (shuffled lo hi).
Proof. intros m. exists id. split; [done|]. intros x. destruct (in_element x) as (k & o & Ho & ->). by rewrite source_ptr. Qed.

#[global] Instance shuffled_trans lo hi : Transitive (shuffled lo hi).
Proof.
  intros m m1 m2 (σ1 & [I1 O1 J1] & M1) (σ2 & [I2 O2 J2] & M2). exists (λ k, σ1 (σ2 k)). split; [|by eapply moved_trans].
  split; [auto| |auto]. intros k Hk. by rewrite (O2 k Hk), O1.
Qed.

Lemma shuffled_wider lo hi lo' hi' m m' : shuffled lo hi m m' → lo' ≤ lo → hi ≤ hi' → shuffled lo' hi' m m'.
Proof.
  intros (σ & [I O J] & M) Hl Hh. exists σ. split; [|done]. split; [|intros k Hk; apply O; lia|done].
  intros k Hk. destruct (decide (lo ≤ k < hi)) as [Hin|Hout]; [specialize (I k Hin); lia|by rewrite O].
Qed.

Lemma shuffled_present lo hi m m' lo' hi' : shuffled lo hi m m' → lo' ≤ lo → hi ≤ hi' → present m lo' hi' → present m' lo' hi'.
Proof.
  intros Hs Hl Hh H. destruct (shuffled_wider _ _ lo' hi' _ _ Hs Hl Hh) as (σ & [I O J] & M).
  intros x Hx. destruct (in_element x) as (k & o & Ho & ->). rewrite M, source_ptr by done. apply H.
  apply element_range; [done|]. by apply I, (element_range k o).
Qed.

Lemma shuffled_out lo hi m m' k : shuffled lo hi m m' → ¬ lo ≤ k < hi → elem m' k = elem m k.
Proof. intros (σ & [_ O _] & M) Hk. rewrite (moved_elem σ m m'), O by done. done. Qed.

(** What all elements of the range have in common is kept. *)
Lemma shuffled_all (P : list Z → Prop) lo hi m m' :
  shuffled lo hi m m' → (∀ k, lo ≤ k < hi → P (elem m k)) → ∀ k, lo ≤ k < hi → P (elem m' k).
Proof. intros (σ & [I _ _] & M) H k Hk. rewrite (moved_elem σ m m') by done. auto. Qed.

(** Two runs of [c] elements are swapped. *)
Definition swap_runs (i j c k : Z) : Z :=
  if decide (i ≤ k < i + c) then k - i + j else if decide (j ≤ k < j + c) then k - j + i else k.

Lemma swap_runs_permutes lo hi i j c : lo ≤ i → lo ≤ j → i + c ≤ hi → j + c ≤ hi → i = j ∨ i + c ≤ j ∨ j + c ≤ i → permutes lo hi (swap_runs i j c).
Proof. intros. unfold swap_runs. split; intros; repeat case_decide; lia. Qed.

Lemma swapped_moved i j c m m' : swapped (ptr i) (ptr j) (c * es) m m' → moved (swap_runs i j c) m m'.
Proof.
  intros H x. rewrite H. destruct (in_element x) as (k & o & Ho & ->). rewrite source_ptr by done. f_equal. unfold swap_addr, swap_runs.
  rewrite !ptr_add. repeat case_decide; rewrite ?element_range in * by done; try (unfold ptr; lia).
Qed.

(** The way in which [SWAPINIT] says that elements can be swapped. *)
Definition swap_type (st : Z) : Prop := (st = 0 → es = 4) ∧ (st ≤ 1 → es mod 4 = 0).

Lemma SWAPINIT_type a : swap_type (SWAPINIT a es).
Proof.
  unfold SWAPINIT, swap_type, sizeof_long. destruct (Z.eqb_spec (a mod 4) 0), (Z.eqb_spec (es mod 4) 0), (Z.eqb_spec es 4); cbn; lia.
Qed.

Lemma present_run m lo hi i c : present m lo hi → lo ≤ i → i + c ≤ hi → 0 ≤ c → cells m (ptr i) (ptr i + c * es).
Proof. intros H Hl Hh Hc x Hx. apply H. unfold ptr in *. nia. Qed.

Lemma vecswap_run lo hi i j c st m n : swap_type st → present m lo hi → lo ≤ i → lo ≤ j → i + c ≤ hi → j + c ≤ hi → 0 ≤ c →
  i = j ∨ i + c ≤ j ∨ j + c ≤ i → n = c * es →
  ends (vecswap st (ptr i) (ptr j) n) m (λ _ m', shuffled lo hi m m' ∧ ∀ k, elem m' k = elem m (swap_runs i j c k)).
Proof.
  intros [_ Hst] Hp Hi Hj Hih Hjh Hc Ha ->. unfold vecswap. destruct (Z.ltb_spec 0 (c * es)) as [H0|H0].
  - eapply ends_mono.
    + apply swapfunc_run; [done| |by eapply present_run..|unfold apart, ptr; nia].
      intros Hle. rewrite Z.mul_mod, (Hst Hle), Z.mul_0_r by done. done.
    + intros [] m' H%swapped_moved. split; [|intros k; by apply moved_elem]. exists (swap_runs i j c). split; [by apply swap_runs_permutes|done].
  - apply ends_ret. split; [done|]. intros k. f_equal. unfold swap_runs. assert (c = 0) by nia. repeat case_decide; lia.
Qed.

Lemma yswap_run lo hi i j st m : swap_type st → present m lo hi → lo ≤ i < hi → lo ≤ j < hi →
  ends (yswap es st (ptr i) (ptr j)) m (λ _ m', shuffled lo hi m m' ∧ ∀ k, elem m' k = elem m (swap_runs i j 1 k)).
Proof.
  intros Hst Hp Hi Hj. assert (∀ m', swapped (ptr i) (ptr j) (1 * es) m m' → shuffled lo hi m m' ∧ ∀ k, elem m' k = elem m (swap_runs i j 1 k)) as Hend.
  { intros m' H%swapped_moved. split; [|intros k; by apply moved_elem]. exists (swap_runs i j 1). split; [apply swap_runs_permutes; lia|done]. }
  rewrite Z.mul_1_l in Hend. pose proof (present_run m lo hi i 1 Hp) as Ci. pose proof (present_run m lo hi j 1 Hp) as Cj. rewrite Z.mul_1_l in Ci, Cj.
  assert (apart (ptr i) (ptr j) es) as Ha by (unfold apart, ptr; destruct (Z.lt_trichotomy i j) as [|[->|]]; nia). unfold yswap. destruct (Z.eqb_spec st 0) as [->|Hne].
  - destruct Hst as [H4 _]. specialize (H4 eq_refl). replace sizeof_long with es by done.
    eapply ends_mono; [apply swap_item_run; [lia|apply Ci; lia|apply Cj; lia|done]|]. intros [] m'. apply Hend.
  - rewrite wraps_id by (unfold in_s; lia).
    eapply ends_mono; [apply swapfunc_run; [lia|apply Hst|apply Ci; lia|apply Cj; lia|done]|]. intros [] m'. apply Hend.
Qed.

Lemma cmp_at_run lo hi i j m : present m lo hi → lo ≤ i < hi → lo ≤ j < hi → cmp_at es cmp (ptr i) (ptr j) m = Ok (cmp (elem m i) (elem m j), m).
Proof.
  intros Hp Hi Hj. unfold cmp_at. assert (∀ k, lo ≤ k < hi → load_n (Z.to_nat es) (ptr k) m = Ok (elem m k, m)) as H.
  { intros k Hk. apply load_n_run. intros x Hx. apply (present_run m lo hi k 1 Hp); lia. }
  by rewrite (bind_Ok _ _ _ _ _ (H i Hi)), (bind_Ok _ _ _ _ _ (H j Hj)).
Qed.

Lemma med3_run lo hi i j k m : present m lo hi → lo ≤ i < hi → lo ≤ j < hi → lo ≤ k < hi →
  ∃ x, lo ≤ x < hi ∧ med3 es cmp (ptr i) (ptr j) (ptr k) m = Ok (ptr x, m).
Proof.
  intros Hp Hi Hj Hk. unfold med3. assert (∀ x y, lo ≤ x < hi → lo ≤ y < hi → cmp_at es cmp (ptr x) (ptr y) m = Ok (cmp (elem m x) (elem m y), m)) as C
    by (intros; by eapply cmp_at_run).
  rewrite (bind_Ok _ _ _ _ _ (C i j Hi Hj)). destruct (_ <? 0); rewrite (bind_Ok _ _ _ _ _ (C j k Hj Hk)).
  - destruct (_ <? 0); [by exists j|]. rewrite (bind_Ok _ _ _ _ _ (C i k Hi Hk)). destruct (_ <? 0); [by exists k|by exists i].
  - destruct (0 <? _); [by exists j|]. rewrite (bind_Ok _ _ _ _ _ (C i k Hi Hk)). destruct (_ <? 0); [by exists i|by exists k].
Qed.

(** ** Insertion sort *)

(** The answers of the comparison are those of an order. *)
Record comparison : Prop := {
  cmp_flip x y : 0 < cmp x y ↔ cmp y x < 0;
  cmp_trans x y z : cmp x y ≤ 0 → cmp y z ≤ 0 → cmp x z ≤ 0;
}.

Definition sorted (m : mem) (lo hi : Z) : Prop := ∀ i j, lo ≤ i → i < j → j < hi → cmp (elem m i) (elem m j) ≤ 0.

(** Sorted up to [t], but for what is before the element [j]. *)
Definition sorted_but (m : mem) (lo j t : Z) : Prop := ∀ x y, lo ≤ x → x < y → y ≤ t → y ≠ j → cmp (elem m x) (elem m y) ≤ 0.

Lemma sorted_but_end m lo j t : comparison → sorted_but m lo j t → (j = lo ∨ cmp (elem m (j - 1)) (elem m j) ≤ 0) → sorted m lo (t + 1).
Proof.
  intros Hc H Hj x y Hx Hxy Hy. destruct (decide (y = j)) as [->|Hne]; [|apply H; lia]. destruct Hj as [->|Hj]; [lia|].
  destruct (decide (x = j - 1)) as [->|Hne]; [done|]. eapply (cmp_trans Hc); [|exact Hj]. apply H; lia.
Qed.

Lemma sorted_but_step m m' lo j t : comparison → sorted_but m lo j t → lo < j → 0 < cmp (elem m (j - 1)) (elem m j) →
  (∀ k, elem m' k = elem m (swap_runs j (j - 1) 1 k)) → sorted_but m' lo (j - 1) t.
Proof.
  intros Hc H Hj Hlt E x y Hx Hxy Hy Hne. rewrite !E. unfold swap_runs.
  destruct (decide (j ≤ x < j + 1)) as [X|X]; [|destruct (decide (j - 1 ≤ x < j - 1 + 1)) as [X'|X']];
    (destruct (decide (j ≤ y < j + 1)) as [Y|Y]; [|destruct (decide (j - 1 ≤ y < j - 1 + 1)) as [Y'|Y']]); try lia; try (apply H; lia).
  replace (x - (j - 1) + j) with j by lia. replace (y - j + (j - 1)) with (j - 1) by lia. apply (cmp_flip Hc) in Hlt. lia.
Qed.

Lemma insert_down_run st lo t m : swap_type st → lo ≤ t → present m lo (t + 1) →
  ends (insert_down es cmp st (ptr lo) (ptr t)) m (λ _ m', shuffled lo (t + 1) m m' ∧ (comparison → sorted m lo t → sorted m' lo (t + 1))).
Proof.
  intros Hst Ht Hp. unfold insert_down.
  eapply (loop_total (λ pl m1, ∃ j, pl = ptr j ∧ lo ≤ j ≤ t ∧ shuffled lo (t + 1) m m1 ∧ (comparison → sorted m lo t → sorted_but m1 lo j t))
    (λ pl _, Z.to_nat (pl - ptr lo))); [|exists t; split; [done|]; split; [lia|]; split; [done|]|lia].
  - intros pl m1 (j & -> & Hj & Hs & Hso). pose proof (shuffled_present _ _ _ _ lo (t + 1) Hs ltac:(lia) ltac:(lia) Hp) as Hp1. rewrite ptr_lt.
    destruct (Z.ltb_spec lo j) as [Hlt|Hge].
    + rewrite !ptr_prev. rewrite (bind_Ok _ _ _ _ _ (cmp_at_run lo (t + 1) (j - 1) j m1 Hp1 ltac:(lia) ltac:(lia))).
      destruct (Z.ltb_spec 0 (cmp (elem m1 (j - 1)) (elem m1 j))) as [Hgt|Hle].
      * destruct (yswap_run lo (t + 1) j (j - 1) st m1 Hst Hp1) as ([] & m2 & E & Hs2 & E2); [lia..|]. rewrite (bind_Ok _ _ _ _ _ E).
        eexists _, m2. split; [done|]. split; [|rewrite !ptr_diff; nia]. exists (j - 1). split; [done|]. split; [lia|]. split; [by etrans|].
        intros Hc Hsm. by eapply sorted_but_step; [..|exact E2]; auto.
      * eexists _, m1. split; [done|]. split; [done|]. intros Hc Hsm. eapply sorted_but_end; [done|auto|by right].
    + eexists _, m1. split; [done|]. split; [done|]. intros Hc Hsm. eapply sorted_but_end; [done|auto|left; lia].
  - intros Hc Hsm x y Hx Hxy Hy Hne. apply Hsm; lia.
Qed.

Lemma present_less m lo hi lo' hi' : present m lo hi → lo ≤ lo' → hi' ≤ hi → present m lo' hi'.
Proof. intros H Hl Hh x Hx. apply H. unfold ptr in *. nia. Qed.

Lemma insertion_sort_run st lo n m : swap_type st → 0 ≤ n → n * es < 2 ^ 31 → present m lo (lo + n) →
  ends (insertion_sort es cmp st (ptr lo) n) m (λ _ m', shuffled lo (lo + n) m m' ∧ (comparison → sorted m' lo (lo + n))).
Proof.
  intros Hst Hn Hb Hp. unfold insertion_sort. rewrite wrapu_id by (unfold in_u; nia). rewrite ptr_add, ptr_next.
  eapply (loop_total (λ pm m1, ∃ t, pm = ptr t ∧ lo + 1 ≤ t ∧ (t ≤ lo + n ∨ n = 0) ∧ shuffled lo (lo + n) m m1 ∧ (comparison → sorted m1 lo t))
    (λ pm _, Z.to_nat ((ptr (lo + n) - pm) / es)));
    [|exists (lo + 1); split; [done|]; split; [lia|]; split; [lia|]; split; [done|intros _ x y; lia]|rewrite ptr_diff, Z.div_mul by lia; lia].
  intros pm m1 (t & -> & Ht & Htn & Hs & Hso). rewrite ptr_lt. destruct (Z.ltb_spec t (lo + n)) as [Hlt|Hge].
  - pose proof (shuffled_present _ _ _ _ lo (lo + n) Hs ltac:(lia) ltac:(lia) Hp) as Hp1.
    destruct (insert_down_run st lo t m1 Hst) as ([] & m2 & E & Hs2 & Hso2); [lia|by eapply present_less; [exact Hp1|lia..]|].
    rewrite (bind_Ok _ _ _ _ _ E). eexists _, m2. split; [done|]. rewrite ptr_next. split; [|rewrite !ptr_diff, !Z.div_mul by lia; lia].
    exists (t + 1). split; [done|]. split; [lia|]. split; [lia|]. split; [|auto]. etrans; [done|]. eapply shuffled_wider; [done|lia..].
  - eexists _, m1. split; [done|]. split; [done|]. intros Hc x y Hx Hxy Hy. apply Hso; [done|lia..].
Qed.

(** ** The pivot *)

Lemma choose_pivot_run lo n m : 7 ≤ n → n * es < 2 ^ 31 → present m lo (lo + n) →
  ∃ x, lo ≤ x < lo + n ∧ choose_pivot es cmp (ptr lo) n m = Ok (ptr x, m).
Proof.
  intros Hn Hb Hp. assert (∀ c, 0 ≤ c ≤ n → u32 (c * es) = c * es ∧ s32 (c * es) = c * es) as Hw.
  { intros c Hc. split; [apply wrapu_id|apply wraps_id; [done|]]; unfold in_u, in_s; nia. }
  assert (∀ x y z, lo ≤ x < lo + n → lo ≤ y < lo + n → lo ≤ z < lo + n → ∃ r, lo ≤ r < lo + n ∧ med3 es cmp (ptr x) (ptr y) (ptr z) m = Ok (ptr r, m)) as Hm
    by (intros; by apply med3_run).
  assert (n / 2 * 2 ≤ n < n / 2 * 2 + 2) as H2 by (pose proof (Z.div_mod n 2); pose proof (Z.mod_pos_bound n 2); lia).
  assert (0 ≤ n / 8 ∧ n / 8 * 8 ≤ n) as H8 by (pose proof (Z.div_mod n 8); pose proof (Z.mod_pos_bound n 8); lia).
  unfold choose_pivot. rewrite (proj1 (Hw (n / 2) ltac:(lia))), (proj1 (Hw (n - 1) ltac:(lia))), (proj2 (Hw (n / 8) ltac:(lia))), !ptr_add.
  destruct (7 <? n); [|exists (lo + n / 2); split; [lia|done]]. destruct (40 <? n); [|apply Hm; lia].
  replace (2 * (n / 8 * es)) with (2 * (n / 8) * es) by lia. rewrite !ptr_add, !ptr_sub.
  destruct (Hm lo (lo + n / 8) (lo + 2 * (n / 8))) as (x & Hx & Ex); [lia..|]. rewrite (bind_Ok _ _ _ _ _ Ex).
  destruct (Hm (lo + n / 2 - n / 8) (lo + n / 2) (lo + n / 2 + n / 8)) as (y & Hy & Ey); [lia..|]. rewrite (bind_Ok _ _ _ _ _ Ey).
  destruct (Hm (lo + (n - 1) - 2 * (n / 8)) (lo + (n - 1) - n / 8) (lo + (n - 1))) as (z & Hz & Ez); [lia..|]. rewrite (bind_Ok _ _ _ _ _ Ez). by apply Hm.
Qed.

(** ** The partition *)

(** Where the elements are while [ptr lo] is the pivot: those below [pa] and above [pd] are equal to it,
    those from [pa] to [pb] less and those behind [pc] greater. *)
Record parted (m : mem) (lo n pa pb pc pd : Z) : Prop := {
  pt_range : lo < pa ∧ pa ≤ pb ∧ pb ≤ pc + 1 ∧ pc ≤ pd ∧ pd < lo + n;
  pt_low k : lo < k < pa → cmp (elem m k) (elem m lo) = 0;
  pt_less k : pa ≤ k < pb → cmp (elem m k) (elem m lo) < 0;
  pt_more k : pc < k ≤ pd → 0 < cmp (elem m k) (elem m lo);
  pt_high k : pd < k < lo + n → cmp (elem m k) (elem m lo) = 0;
}.

(** Two elements that are not the pivot are swapped. *)
Lemma pivot_kept m m' lo i j : lo < i → lo < j → (∀ k, elem m' k = elem m (swap_runs i j 1 k)) → elem m' lo = elem m lo.
Proof. intros Hi Hj E. rewrite E. f_equal. unfold swap_runs. repeat case_decide; lia. Qed.

(** An element equal to the pivot goes to the equal ones below, one that is less stays. *)
Lemma parted_low m m' lo n pa pb pc pd : parted m lo n pa pb pc pd → pb ≤ pc → cmp (elem m pb) (elem m lo) = 0 →
  (∀ k, elem m' k = elem m (swap_runs pa pb 1 k)) → parted m' lo n (pa + 1) (pb + 1) pc pd.
Proof.
  intros [R L1 L2 L3 L4] Hpc H0 E. assert (∀ k, k = pb → cmp (elem m k) (elem m lo) = 0) as L0 by (by intros k ->).
  assert (elem m' lo = elem m lo) as El by (eapply pivot_kept; [..|exact E]; lia).
  split; [lia|..]; intros k Hk; rewrite El, E; unfold swap_runs; repeat case_decide;
    first [lia|apply L0; lia|apply L1; lia|apply L2; lia|apply L3; lia|apply L4; lia].
Qed.

Lemma parted_less m lo n pa pb pc pd : parted m lo n pa pb pc pd → pb ≤ pc → cmp (elem m pb) (elem m lo) < 0 → parted m lo n pa (pb + 1) pc pd.
Proof.
  intros [R L1 L2 L3 L4] Hpc H0. split; [lia|done| |done|done]. intros k Hk. destruct (decide (k = pb)) as [->|Hne]; [done|apply L2; lia].
Qed.

(** The same from the other side. *)
Lemma parted_high m m' lo n pa pb pc pd : parted m lo n pa pb pc pd → pb ≤ pc → cmp (elem m pc) (elem m lo) = 0 →
  (∀ k, elem m' k = elem m (swap_runs pc pd 1 k)) → parted m' lo n pa pb (pc - 1) (pd - 1).
Proof.
  intros [R L1 L2 L3 L4] Hpc H0 E. assert (∀ k, k = pc → cmp (elem m k) (elem m lo) = 0) as L0 by (by intros k ->).
  assert (elem m' lo = elem m lo) as El by (eapply pivot_kept; [..|exact E]; lia).
  split; [lia|..]; intros k Hk; rewrite El, E; unfold swap_runs; repeat case_decide;
    first [lia|apply L0; lia|apply L1; lia|apply L2; lia|apply L3; lia|apply L4; lia].
Qed.

Lemma parted_more m lo n pa pb pc pd : parted m lo n pa pb pc pd → pb ≤ pc → 0 < cmp (elem m pc) (elem m lo) → parted m lo n pa pb (pc - 1) pd.
Proof.
  intros [R L1 L2 L3 L4] Hpc H0. split; [lia|done|done| |done]. intros k Hk. destruct (decide (k = pc)) as [->|Hne]; [done|apply L3; lia].
Qed.

(** A greater element is swapped with a lesser one behind it. *)
Lemma parted_swap m m' lo n pa pb pc pd : parted m lo n pa pb pc pd → pb < pc → 0 < cmp (elem m pb) (elem m lo) → cmp (elem m pc) (elem m lo) < 0 →
  (∀ k, elem m' k = elem m (swap_runs pb pc 1 k)) → parted m' lo n pa (pb + 1) (pc - 1) pd.
Proof.
  intros [R L1 L2 L3 L4] Hpc Hb Hc E. assert (∀ k, k = pb → 0 < cmp (elem m k) (elem m lo)) as Lb by (by intros k ->).
  assert (∀ k, k = pc → cmp (elem m k) (elem m lo) < 0) as Lc by (by intros k ->).
  assert (elem m' lo = elem m lo) as El by (eapply pivot_kept; [..|exact E]; lia).
  split; [lia|..]; intros k Hk; rewrite El, E; unfold swap_runs; repeat case_decide;
    first [lia|apply Lb; lia|apply Lc; lia|apply L1; lia|apply L2; lia|apply L3; lia|apply L4; lia].
Qed.

Lemma scan_up_run st lo n m pa pb pc pd sc : swap_type st → present m lo (lo + n) → parted m lo n pa pb pc pd →
  ends (scan_up es cmp n st (ptr lo) (ptr pc) (ptr pa) (ptr pb) sc) m (λ r m', ∃ pa' pb' sc', r = (ptr pa', ptr pb', sc') ∧
    shuffled lo (lo + n) m m' ∧ parted m' lo n pa' pb' pc pd ∧ pb ≤ pb' ∧ (pb' ≤ pc → 0 < cmp (elem m' pb') (elem m' lo))).
Proof.
  intros Hst Hp Hpt. unfold scan_up. pose proof (pt_range _ _ _ _ _ _ _ Hpt) as Hr.
  eapply (loop_total (λ a m1, ∃ pa' pb' sc', a = (ptr pa', ptr pb', sc') ∧ shuffled lo (lo + n) m m1 ∧ parted m1 lo n pa' pb' pc pd ∧ pb ≤ pb')
    (λ a _, Z.to_nat ((ptr (pc + 1) - a.1.2) / es)));
    [|by exists pa, pb, sc; split; [done|]; split; [done|]; split|cbn; rewrite ptr_diff, Z.div_mul by lia; lia].
  intros a m1 (pa1 & pb1 & sc1 & -> & Hs & Hpt1 & Hle). pose proof (shuffled_present _ _ _ _ lo (lo + n) Hs ltac:(lia) ltac:(lia) Hp) as Hp1.
  pose proof (pt_range _ _ _ _ _ _ _ Hpt1) as R. rewrite ptr_le. destruct (Z.leb_spec pb1 pc) as [Hin|Hout].
  2: { eexists _, m1. split; [done|]. exists pa1, pb1, sc1. do 4 (split; [done|]). lia. }
  rewrite (bind_Ok _ _ _ _ _ (cmp_at_run lo (lo + n) pb1 lo m1 Hp1 ltac:(lia) ltac:(lia))). cbn [fst snd].
  destruct (Z.leb_spec (cmp (elem m1 pb1) (elem m1 lo)) 0) as [Hc|Hc].
  2: { eexists _, m1. split; [done|]. exists pa1, pb1, sc1. do 4 (split; [done|]). lia. }
  destruct (Z.eqb_spec (cmp (elem m1 pb1) (elem m1 lo)) 0) as [H0|H0].
  - destruct (yswap_run lo (lo + n) pa1 pb1 st m1 Hst Hp1) as ([] & m2 & E & Hs2 & E2); [lia..|]. rewrite (bind_Ok _ _ _ _ _ E).
    eexists _, m2. split; [done|]. rewrite !ptr_next. cbn [fst snd]. split; [|rewrite !ptr_diff, !Z.div_mul by lia; lia].
    exists (pa1 + 1), (pb1 + 1), 1. split; [done|]. split; [by etrans|]. split; [by eapply parted_low|lia].
  - eexists _, m1. split; [done|]. rewrite !ptr_next. cbn [fst snd]. split; [|rewrite !ptr_diff, !Z.div_mul by lia; lia].
    exists pa1, (pb1 + 1), sc1. split; [done|]. split; [done|]. split; [apply parted_less; [done|done|lia]|lia].
Qed.

Lemma scan_down_run st lo n m pa pb pc pd sc : swap_type st → present m lo (lo + n) → parted m lo n pa pb pc pd →
  (pb ≤ pc → 0 < cmp (elem m pb) (elem m lo)) →
  ends (scan_down es cmp n st (ptr lo) (ptr pb) (ptr pc) (ptr pd) sc) m (λ r m', ∃ pc' pd' sc', r = (ptr pc', ptr pd', sc') ∧
    shuffled lo (lo + n) m m' ∧ parted m' lo n pa pb pc' pd' ∧ pc' ≤ pc ∧
    (pb ≤ pc' → pb < pc' ∧ 0 < cmp (elem m' pb) (elem m' lo) ∧ cmp (elem m' pc') (elem m' lo) < 0)).
Proof.
  intros Hst Hp Hpt Hb. unfold scan_down. pose proof (pt_range _ _ _ _ _ _ _ Hpt) as Hr.
  eapply (loop_total (λ a m1, ∃ pc' pd' sc', a = (ptr pc', ptr pd', sc') ∧ shuffled lo (lo + n) m m1 ∧ parted m1 lo n pa pb pc' pd' ∧ pc' ≤ pc ∧
      (pb ≤ pc' → 0 < cmp (elem m1 pb) (elem m1 lo)))
    (λ a _, Z.to_nat ((a.1.1 + es - ptr pb) / es)));
    [|exists pc, pd, sc; by do 4 (split; [done|])|cbn; rewrite ptr_next, ptr_diff, Z.div_mul by lia; lia].
  intros a m1 (pc1 & pd1 & sc1 & -> & Hs & Hpt1 & Hle & Hb1). pose proof (shuffled_present _ _ _ _ lo (lo + n) Hs ltac:(lia) ltac:(lia) Hp) as Hp1.
  pose proof (pt_range _ _ _ _ _ _ _ Hpt1) as R. rewrite ptr_le. destruct (Z.leb_spec pb pc1) as [Hin|Hout].
  2: { eexists _, m1. split; [done|]. exists pc1, pd1, sc1. do 4 (split; [done|]). lia. }
  specialize (Hb1 Hin). rewrite (bind_Ok _ _ _ _ _ (cmp_at_run lo (lo + n) pc1 lo m1 Hp1 ltac:(lia) ltac:(lia))). cbn [fst snd].
  destruct (Z.leb_spec 0 (cmp (elem m1 pc1) (elem m1 lo))) as [Hc|Hc].
  2: { eexists _, m1. split; [done|]. exists pc1, pd1, sc1. do 4 (split; [done|]). intros _. split; [|done].
       destruct (decide (pb = pc1)) as [->|]; lia. }
  destruct (Z.eqb_spec (cmp (elem m1 pc1) (elem m1 lo)) 0) as [H0|H0].
  - destruct (yswap_run lo (lo + n) pc1 pd1 st m1 Hst Hp1) as ([] & m2 & E & Hs2 & E2); [lia..|]. rewrite (bind_Ok _ _ _ _ _ E).
    eexists _, m2. split; [done|]. rewrite !ptr_prev, !ptr_next. cbn [fst snd]. split; [|rewrite !ptr_next, !ptr_diff, !Z.div_mul by lia; lia].
    exists (pc1 - 1), (pd1 - 1), 1. split; [done|]. split; [by etrans|]. split; [by eapply parted_high|]. split; [lia|].
    intros Hlt. rewrite (pivot_kept m1 m2 lo pc1 pd1) by (done || lia). rewrite E2. unfold swap_runs. by rewrite !decide_False by lia.
  - eexists _, m1. split; [done|]. rewrite !ptr_prev, !ptr_next. cbn [fst snd]. split; [|rewrite !ptr_next, !ptr_diff, !Z.div_mul by lia; lia].
    exists (pc1 - 1), pd1, sc1. split; [done|]. split; [done|]. split; [apply parted_more; [done|done|lia]|]. split; [lia|done].
Qed.

Lemma partition_run st lo n m : swap_type st → 7 ≤ n → n * es < 2 ^ 31 → present m lo (lo + n) →
  ends (partition es cmp n st (ptr lo)) m (λ r m', ∃ pa pb pc pd sc, r = (ptr pa, ptr pb, ptr pc, ptr pd, sc) ∧
    shuffled lo (lo + n) m m' ∧ parted m' lo n pa pb pc pd ∧ pb = pc + 1).
Proof.
  intros Hst Hn Hb Hp. unfold partition. rewrite wrapu_id by (unfold in_u; nia). rewrite ptr_next, ptr_add.
  eapply (loop_total (λ a m1, ∃ pa pb pc pd sc, a = (ptr pa, ptr pb, ptr pc, ptr pd, sc) ∧ shuffled lo (lo + n) m m1 ∧ parted m1 lo n pa pb pc pd)
    (λ a _, Z.to_nat ((a.1.1.2 + es - a.1.1.1.2) / es)));
    [|exists (lo + 1), (lo + 1), (lo + (n - 1)), (lo + (n - 1)), 0; split; [done|]; split; [done|]; split; lia|cbn; rewrite ptr_next, ptr_diff, Z.div_mul by lia; lia].
  intros a m0 (pa0 & pb0 & pc0 & pd0 & sc0 & -> & Hs0 & Hpt0). pose proof (shuffled_present _ _ _ _ lo (lo + n) Hs0 ltac:(lia) ltac:(lia) Hp) as Hp0.
  destruct (scan_up_run st lo n m0 pa0 pb0 pc0 pd0 sc0 Hst Hp0 Hpt0) as (r1 & m1 & E1 & pa & pb & sc1 & -> & Hs1 & Hpt1 & Hle1 & Hup).
  rewrite (bind_Ok _ _ _ _ _ E1). pose proof (shuffled_present _ _ _ _ lo (lo + n) Hs1 ltac:(lia) ltac:(lia) Hp0) as Hp1.
  destruct (scan_down_run st lo n m1 pa pb pc0 pd0 sc1 Hst Hp1 Hpt1 Hup) as (r2 & m2 & E2 & pc & pd & sc2 & -> & Hs2 & Hpt2 & Hle2 & Hdn).
  rewrite (bind_Ok _ _ _ _ _ E2). pose proof (shuffled_present _ _ _ _ lo (lo + n) Hs2 ltac:(lia) ltac:(lia) Hp1) as Hp2.
  assert (shuffled lo (lo + n) m m2) as Hs by (etrans; [done|]; by etrans). pose proof (pt_range _ _ _ _ _ _ _ Hpt2) as R. rewrite ptr_lt.
  destruct (Z.ltb_spec pc pb) as [Hlt|Hge].
  - eexists _, m2. split; [done|]. exists pa, pb, pc, pd, sc2. split; [done|]. split; [done|]. split; [done|lia].
  - destruct (Hdn Hge) as (Hlt & Gb & Lc). destruct (yswap_run lo (lo + n) pb pc st m2 Hst Hp2) as ([] & m3 & E3 & Hs3 & Q3); [lia..|].
    rewrite (bind_Ok _ _ _ _ _ E3). eexists _, m3. split; [done|]. rewrite !ptr_prev, !ptr_next. cbn [fst snd].
    split; [|rewrite !ptr_next, !ptr_diff, !Z.div_mul by lia; lia].
    exists pa, (pb + 1), (pc - 1), pd, 1. split; [done|]. split; [by etrans|]. by eapply parted_swap.
Qed.

(** ** The whole *)

(** Below [l] the elements are less than [pv], from [h] on greater, and between equal. *)
Record split_by (m : mem) (lo l h hi : Z) (pv : list Z) : Prop := {
  sb_range : lo ≤ l ∧ l < h ∧ h ≤ hi;
  sb_less k : lo ≤ k < l → cmp (elem m k) pv < 0;
  sb_equal k : l ≤ k < h → elem m k = pv ∨ cmp (elem m k) pv = 0;
  sb_more k : h ≤ k < hi → 0 < cmp (elem m k) pv;
}.

(** The equal elements come from both ends to the middle. *)
Lemma parted_split m m1 m2 lo n pa pc pd c1 c2 : parted m lo n pa (pc + 1) pc pd →
  c1 = Z.min (pa - lo) (pc + 1 - pa) → c2 = Z.min (pd - pc) (lo + n - 1 - pd) →
  (∀ k, elem m1 k = elem m (swap_runs lo (pc + 1 - c1) c1 k)) → (∀ k, elem m2 k = elem m1 (swap_runs (pc + 1) (lo + n - c2) c2 k)) →
  split_by m2 lo (lo + (pc + 1 - pa)) (lo + n - (pd - pc)) (lo + n) (elem m lo).
Proof.
  intros [R L1 L2 L3 L4] H1 H2 E1 E2. assert (∀ k, lo ≤ k < pa ∨ pd < k < lo + n → elem m k = elem m lo ∨ cmp (elem m k) (elem m lo) = 0) as L0.
  { intros k [Hk|Hk]; [|right; by apply L4]. destruct (decide (k = lo)) as [->|Hne]; [by left|right; apply L1; lia]. }
  split; [lia|..]; intros k Hk; rewrite E2; unfold swap_runs; repeat case_decide; rewrite E1; unfold swap_runs; repeat case_decide;
    first [lia|apply L0; lia|apply L2; lia|apply L3; lia].
Qed.

Lemma gather_run st lo n m pa pc pd : swap_type st → n * es < 2 ^ 31 → present m lo (lo + n) → parted m lo n pa (pc + 1) pc pd →
  ends (gather es st (ptr lo) (ptr (lo + n)) (ptr pa) (ptr (pc + 1)) (ptr pc) (ptr pd)) m
    (λ _ m', shuffled lo (lo + n) m m' ∧ split_by m' lo (lo + (pc + 1 - pa)) (lo + n - (pd - pc)) (lo + n) (elem m lo)).
Proof.
  intros Hst Hb Hp Hpt. pose proof (pt_range _ _ _ _ _ _ _ Hpt) as R. unfold gather.
  set (c1 := Z.min (pa - lo) (pc + 1 - pa)). set (c2 := Z.min (pd - pc) (lo + n - 1 - pd)).
  rewrite !ptr_diff, (wraps_id 32 ((pd - pc) * es)) by (try done; unfold in_s; nia).
  replace ((lo + n - pd) * es - es) with ((lo + n - 1 - pd) * es) by lia. rewrite (wraps_id 32 ((lo + n - 1 - pd) * es)) by (try done; unfold in_s; nia).
  rewrite !Z.mul_min_distr_nonneg_r by lia. fold c1 c2. rewrite !wraps_id by (try done; unfold in_s; nia). rewrite !ptr_sub.
  eapply ends_seq; [eapply (vecswap_run lo (lo + n) lo (pc + 1 - c1) c1); [done|done|lia..|done]|]. intros [] m1 [S1 E1].
  eapply ends_mono; [eapply (vecswap_run lo (lo + n) (pc + 1) (lo + n - c2) c2); [done|by eapply shuffled_present|lia..|done]|]. intros [] m2 [S2 E2].
  split; [by etrans|]. by eapply parted_split.
Qed.

Lemma split_sorted m lo l h hi pv : comparison → split_by m lo l h hi pv → sorted m lo l → sorted m h hi → sorted m lo hi.
Proof.
  intros Hc [R L1 L2 L3] Sl Sh i j Hi Hij Hj. assert (∀ x, cmp x x = 0) as Hrefl by (intros x; pose proof (cmp_flip Hc x x); lia).
  assert (∀ k, lo ≤ k < h → cmp (elem m k) pv ≤ 0) as Lo.
  { intros k Hk. destruct (decide (k < l)) as [Hlt|Hge]; [specialize (L1 k); lia|]. destruct (L2 k) as [->|E]; [lia|rewrite Hrefl; lia|lia]. }
  assert (∀ k, l ≤ k < hi → cmp pv (elem m k) ≤ 0) as Hi'.
  { intros k Hk. enough (0 ≤ cmp (elem m k) pv) by (pose proof (cmp_flip Hc pv (elem m k)); lia).
    destruct (decide (k < h)) as [Hlt|Hge]; [|specialize (L3 k); lia]. destruct (L2 k) as [->|E]; [lia|rewrite Hrefl; lia|lia]. }
  destruct (decide (j < l)) as [|Hjl]; [apply Sl; lia|]. destruct (decide (h ≤ i)) as [|Hih]; [apply Sh; lia|].
  apply (cmp_trans Hc _ pv); [apply Lo; lia|apply Hi'; lia].
Qed.

(** Sorting below [l] and from [h] on keeps the split. *)
Lemma split_shuffled m m1 m2 lo l h hi pv : split_by m lo l h hi pv → shuffled lo l m m1 → shuffled h hi m1 m2 → split_by m2 lo l h hi pv.
Proof.
  intros [R L1 L2 L3] S1 S2. split; [done|..].
  - intros k Hk. rewrite (shuffled_out h hi m1 m2) by (done || lia). by apply (shuffled_all (λ x, cmp x pv < 0) lo l m m1).
  - intros k Hk. rewrite (shuffled_out h hi m1 m2), (shuffled_out lo l m m1) by (done || lia). by apply L2.
  - apply (shuffled_all (λ x, 0 < cmp x pv) h hi m1 m2); [done|]. intros k Hk. rewrite (shuffled_out lo l m m1) by (done || lia). by apply L3.
Qed.

Lemma sorted_out m m' lo hi lo' hi' : shuffled lo' hi' m m' → hi ≤ lo' → sorted m lo hi → sorted m' lo hi.
Proof. intros Hs Hle H i j Hi Hij Hj. rewrite !(shuffled_out lo' hi' m m') by (done || lia). by apply H. Qed.

(** What the proof of [qsort] shows of the sorting of [n] elements from [lo] on. *)
Definition sorts (p : prog mem ()) (lo n : Z) : Prop := ∀ m, present m lo (lo + n) →
  ends p m (λ _ m', shuffled lo (lo + n) m m' ∧ (comparison → sorted m' lo (lo + n))).

(** A part of one element is left alone. *)
Lemma sorts_part fuel lo c : (∀ lo, sorts (qsort es cmp fuel (ptr lo) c) lo c) → 0 ≤ c → c * es < 2 ^ 31 →
  sorts (when (es <? u32 (c * es)) (qsort es cmp fuel (ptr lo) (u32 (c * es) / es))) lo c.
Proof.
  intros IH Hc Hb m Hp. rewrite wrapu_id, Z.div_mul by (try done; unfold in_u; nia).
  destruct (Z.ltb_spec es (c * es)) as [Hlt|Hge]; [by apply IH|]. apply ends_ret. split; [done|]. intros _ i j Hi Hij Hj. nia.
Qed.

Lemma qsort_run fuel : ∀ lo n, 0 ≤ n < Z.of_nat fuel → n * es < 2 ^ 31 → sorts (qsort es cmp fuel (ptr lo) n) lo n.
Proof.
  induction fuel as [|fuel IH]; intros lo n Hn Hb m Hp; [lia|]. cbn [qsort]. pose proof (SWAPINIT_type (ptr lo)) as Hst.
  set (st := SWAPINIT (ptr lo) es) in *. destruct (Z.ltb_spec n 7) as [Hlt|Hge]; [apply insertion_sort_run; [done|lia|done|done]|].
  destruct (choose_pivot_run lo n m Hge Hb Hp) as (x & Hx & Ex). apply ends_bind. eexists _, m. split; [exact Ex|].
  assert (∀ m1, shuffled lo (lo + n) m m1 → present m1 lo (lo + n)) as Hpr by (intros m1 Hs; by eapply shuffled_present).
  eapply ends_seq; [by eapply yswap_run; [exact Hst|exact Hp|lia..]|]. intros [] m1 [S1 _]. pose proof (Hpr m1 S1) as Hp1.
  eapply ends_seq; [by apply partition_run|]. intros ? m2 (pa & pb & pc & pd & sc & -> & S2 & Hpt & ->).
  assert (shuffled lo (lo + n) m m2) as S02 by (by etrans). pose proof (Hpr m2 S02) as Hp2. destruct (sc =? 0).
  { eapply ends_mono; [apply insertion_sort_run; [done|lia|done|done]|]. intros [] m3 [S3 Hso]. split; [by etrans|done]. }
  pose proof (pt_range _ _ _ _ _ _ _ Hpt) as R. rewrite (wrapu_id 32 (n * es)), ptr_add, !ptr_diff by (unfold in_u; nia).
  eapply ends_seq; [by apply gather_run|]. intros [] m3 [S3 Hsp]. rewrite !wraps_id, ptr_sub by (try done; unfold in_s; nia).
  assert (shuffled lo (lo + n) m m3) as S03 by (by etrans). pose proof (Hpr m3 S03) as Hp3.
  set (l := pc + 1 - pa) in *. set (r := pd - pc) in *.
  eapply ends_seq; [apply (sorts_part fuel lo l)|]; [intros; apply IH; nia|lia|nia|eapply present_less; [exact Hp3|lia..]|]. intros [] m4 [S4 So4].
  assert (shuffled lo (lo + n) m m4) as S04 by (etrans; [done|]; eapply shuffled_wider; [done|lia..]). pose proof (Hpr m4 S04) as Hp4.
  eapply ends_mono; [apply (sorts_part fuel (lo + n - r) r)|]; [intros; apply IH; nia|lia|nia|eapply present_less; [exact Hp4|lia..]|]. intros [] m5 [S5 So5].
  replace (lo + n - r + r) with (lo + n) in * by lia. split; [etrans; [done|]; eapply shuffled_wider; [done|lia..]|]. intros Hc.
  eapply split_sorted; [done|eapply split_shuffled; [exact Hsp|done|done]|eapply sorted_out; [exact S5|lia|auto]|auto].
Qed.
End elements.

(** The [n] elements of the array at [a]. *)
Definition elements (es a : Z) (m : mem) (n : Z) : list (list Z) := elem es a m <$> seqZ 0 n.

Lemma permutes_seqZ n σ : 0 ≤ n → permutes 0 n σ → σ <$> seqZ 0 n ≡ₚ seqZ 0 n.
Proof.
  intros Hn [I O J]. apply submseteq_length_Permutation; [|by rewrite length_fmap]. apply NoDup_submseteq.
  - apply NoDup_fmap_2; [exact J|apply NoDup_seqZ].
  - intros x (k & -> & Hk)%list_elem_of_fmap. apply elem_of_seqZ in Hk. apply elem_of_seqZ. specialize (I k). lia.
Qed.

Lemma shuffled_elements es a m m' n : 0 < es < 2 ^ 31 → 0 ≤ n → shuffled es a 0 n m m' → elements es a m' n ≡ₚ elements es a m n.
Proof.
  intros Hes Hn (σ & Hσ & M). unfold elements. rewrite <- (permutes_seqZ n σ Hn Hσ) at 2. rewrite <- list_fmap_compose.
  rewrite (list_fmap_ext (elem es a m') (elem es a m ∘ σ)); [done|]. intros i k _. by apply moved_elem.
Qed.

Lemma shuffled_outside es a m m' n x : 0 < es < 2 ^ 31 → 0 ≤ n → shuffled es a 0 n m m' → ¬ a ≤ x < a + n * es → m' !! x = m !! x.
Proof.
  intros Hes Hn (σ & [I O J] & M) Hx. destruct (in_element es a Hes x) as (k & o & Ho & ->). rewrite M, source_ptr, O by (done || (unfold ptr in *; nia)). done.
Qed.

Lemma sorted_elements es a cmp m n : 0 ≤ n → sorted es a cmp m 0 n → StronglySorted (λ x y, cmp x y ≤ 0) (elements es a m n).
Proof.
  intros Hn H. unfold elements. assert (∀ l : list Z, StronglySorted Z.lt l → (∀ k, k ∈ l → 0 ≤ k < n) → StronglySorted (λ x y, cmp x y ≤ 0) (elem es a m <$> l)) as Hl.
  { induction l as [|k l IH]; intros Hs Hin; [by constructor|]. apply StronglySorted_inv in Hs as [Hs Hk]. constructor.
    - apply IH; [done|]. intros j Hj. apply Hin. by right.
    - apply Forall_fmap, Forall_forall. intros j Hj. pose proof (proj1 (Forall_forall _ _) Hk j Hj). apply H; [apply Hin; by left|done|apply Hin; by right]. }
  apply Hl; [|intros k Hk%elem_of_seqZ; lia]. clear. assert (∀ j c, StronglySorted Z.lt (seqZ j (Z.of_nat c))) as Hs.
  { intros j c. revert j. induction c as [|c IH]; intros j; [by constructor|]. rewrite seqZ_cons by lia. replace (Z.pred (Z.of_nat (S c))) with (Z.of_nat c) by lia.
    constructor; [apply IH|]. apply Forall_forall. intros x Hx%elem_of_seqZ. lia. }
  destruct (decide (0 ≤ n)) as [Hn|Hn]; [rewrite <- (Z2Nat.id n) by done; apply Hs|]. rewrite seqZ_nil by lia. constructor.
Qed.

(** C20. [qsort] ends without a fault for every comparison, whatever it answers, and permutes the
    elements: none is lost or changed, and no byte outside of the array. If the comparison is an
    order, the elements are sorted afterwards. One level of calls more than elements is enough. *)
Theorem qsort_sorts es cmp a n m fuel :
  0 < es < 2 ^ 31 → 0 ≤ n < Z.of_nat fuel → n * es < 2 ^ 31 → cells m a (a + n * es) →
  ∃ m', qsort es cmp fuel a n m = Ok ((), m') ∧ elements es a m' n ≡ₚ elements es a m n ∧
    (∀ x, ¬ a ≤ x < a + n * es → m' !! x = m !! x) ∧
    (comparison cmp → StronglySorted (λ x y, cmp x y ≤ 0) (elements es a m' n)).
Proof.
  intros Hes Hn Hb Hc. assert (ptr es a 0 = a) as E0 by (unfold ptr; lia).
  destruct (qsort_run es a cmp Hes fuel 0 n Hn Hb m) as ([] & m' & E & Hs & Hso); [by unfold present; rewrite E0|].
  rewrite E0 in E. exists m'. split; [done|]. split; [apply shuffled_elements; [done|lia|done]|].
  split; [intros x Hx; apply (shuffled_outside es a m m' n x); [done|lia|done..]|].
  intros Hcmp. apply sorted_elements; [lia|auto].
Qed.

(** Nine elements of two bytes are sorted by their first byte. *)
Example qsort_sorts_witness : ∃ m',
  let cmp := λ x y : list Z, hd 0 x - hd 0 y in
  let m := upd ∅ 1000 [7; 0; 3; 1; 9; 2; 3; 3; 250; 4; 3; 5; 0; 6; 7; 7; 1; 8] in
  qsort 2 cmp 10 1000 9 m = Ok ((), m') ∧ elements 2 1000 m' 9 ≡ₚ [[7; 0]; [3; 1]; [9; 2]; [3; 3]; [250; 4]; [3; 5]; [0; 6]; [7; 7]; [1; 8]] ∧
  StronglySorted (λ x y, cmp x y ≤ 0) (elements 2 1000 m' 9).
Proof.
  pose (cmp := λ x y : list Z, hd 0 x - hd 0 y). pose (m := upd ∅ 1000 [7; 0; 3; 1; 9; 2; 3; 3; 250; 4; 3; 5; 0; 6; 7; 7; 1; 8]).
  assert (cells m 1000 (1000 + 9 * 2)) as Hc.
  { intros x Hx. assert (Forall (λ x, from_option (λ b, bool_decide (0 ≤ b < 256)) false (m !! x) = true) (seqZ 1000 18)) as H by (repeat constructor).
    assert (x ∈ seqZ 1000 18) as Hin by (apply elem_of_seqZ; lia). pose proof (proj1 (Forall_forall _ _) H x Hin) as Hb. cbn beta in Hb. destruct (m !! x) as [b|]; [|done].
    exists b. split; [done|]. by apply bool_decide_eq_true in Hb. }
  destruct (qsort_sorts 2 cmp 1000 9 m 10 ltac:(lia) ltac:(lia) ltac:(lia) Hc) as (m' & E & Hp & _ & Hs). exists m'.
  split; [exact E|]. split; [etrans; [exact Hp|]; by vm_compute|]. apply Hs. split; unfold cmp; lia.
Defined.
