(* ===== verification/DList.v ===== *)
(** * Intrusive ring lists

    The ring lists of [include/list.h] (kernel) and
    [fs/yaffs2/_private/direct/yaffs_list.h] (YAFFS): doubly linked rings whose
    nodes are embedded in the structures they link and whose header is a node of
    the ring. A heap maps a node to its two pointers, over an arbitrary type [K] of
    nodes; [None] is the null pointer. [ring h hdr l] says that the ring of the
    header [hdr] links the nodes [l] in this order, and every operation is given
    by the list it makes of [l] and by a frame: the rings that share no node with
    it stay as they are. *)

From S2P Require Import Prelude.

Record node (K : Type) := Node { next : option K; prev : option K }.
Arguments Node {K} _ _.
Arguments next {K} _.
Arguments prev {K} _.

Section dlist.
Context {K : Type} `{Countable K}.

Abbreviation heap := (gmap K (node K)).
Implicit Types (h : heap) (a b x y hdr : K) (l : list K) (p : option K).

(** Dereferences: a null or an unmapped node is undefined behaviour. *)
Definition node_of p : prog heap (node K) := λ h,
  match p with
  | Some a => match h !! a with Some n => Ok (n, h) | None => Err FUndef end
  | None => Err FUndef
  end.

Definition set_next p (v : option K) : prog heap () := λ h,
  match p with
  | Some a =>
      match h !! a with
      | Some n => Ok ((), <[a := Node v (prev n)]> h)
      | None => Err FUndef
      end
  | None => Err FUndef
  end.

Definition set_prev p (v : option K) : prog heap () := λ h,
  match p with
  | Some a =>
      match h !! a with
      | Some n => Ok ((), <[a := Node (next n) v]> h)
      | None => Err FUndef
      end
  | None => Err FUndef
  end.

(** ** list.h *)

Definition initRingDoubleList (header : option K) : prog heap () :=
  set_next header header;;
  set_prev header header.

Definition addNodeToRingDoubleListHeader (header newNode : option K) : prog heap () :=
  h ← node_of header;
  set_next newNode (next h);;
  set_prev newNode header;;
  set_next header newNode;;
  n ← node_of newNode;
  set_prev (next n) newNode.

Definition addNodeToRingDoubleListTail (header newNode : option K) : prog heap () :=
  h ← node_of header;
  set_prev newNode (prev h);;
  set_next newNode header;;
  set_prev header newNode;;
  n ← node_of newNode;
  set_next (prev n) newNode.

Definition delNodeFromRingDoubleList (deletingNode : option K) : prog heap () :=
  d ← node_of deletingNode;
  set_next (prev d) (next d);;
  d ← node_of deletingNode;
  set_prev (next d) (prev d);;
  set_prev deletingNode None;;
  set_next deletingNode None.

Definition ringListIsEmpty (header : option K) : prog heap bool :=
  h ← node_of header;
  mret (bool_decide (next h = header)).

(** ** yaffs_list.h *)

Definition INIT_LIST_HEAD (p : option K) : prog heap () :=
  set_next p p;;
  set_prev p p.

Definition list_add (new_entry list : option K) : prog heap () :=
  n ← node_of list;
  let list_next := next n in
  set_next list new_entry;;
  set_prev new_entry list;;
  set_next new_entry list_next;;
  set_prev list_next new_entry.

Definition list_add_tail (new_entry list : option K) : prog heap () :=
  n ← node_of list;
  let list_prev := prev n in
  set_prev list new_entry;;
  set_next new_entry list;;
  set_prev new_entry list_prev;;
  set_next list_prev new_entry.

Definition list_del (entry : option K) : prog heap () :=
  n ← node_of entry;
  let list_next := next n in
  let list_prev := prev n in
  set_prev list_next list_prev;;
  set_next list_prev list_next.

Definition list_del_init (entry : option K) : prog heap () :=
  list_del entry;;
  set_prev entry entry;;
  set_next entry entry.

Definition list_empty (entry : option K) : prog heap bool :=
  n ← node_of entry;
  mret (bool_decide (next n = entry)).

(** ** Rings *)

Definition next_of h a : option (option K) := next <$> h !! a.
Definition prev_of h a : option (option K) := prev <$> h !! a.

Definition link h a b : Prop :=
  next_of h a = Some (Some b) ∧ prev_of h b = Some (Some a).

(** The nodes [l] lie between [a] and [b]. *)
Fixpoint path h a l b : Prop :=
  match l with
  | [] => link h a b
  | x :: l' => link h a x ∧ path h x l' b
  end.

Definition ring h hdr l : Prop := path h hdr l hdr ∧ NoDup (hdr :: l).

Lemma path_app h a l1 x l2 b : path h a (l1 ++ x :: l2) b ↔ path h a l1 x ∧ path h x l2 b.
Proof. revert a. induction l1 as [|y l1 IH]; intros a; cbn; [done|]. rewrite IH. tauto. Qed.

(** A path depends on the forward pointers of [a :: l] and on the backward
    pointers of [l ++ [b]]. *)
Lemma path_frame h h' a l b :
  path h a l b →
  (∀ x, x ∈ a :: l → next_of h' x = next_of h x) →
  (∀ x, x ∈ b :: l → prev_of h' x = prev_of h x) →
  path h' a l b.
Proof.
  revert a. induction l as [|y l IH]; intros a; cbn.
  - intros [Hn Hp] Hnf Hpf. split; [rewrite Hnf|rewrite Hpf]; set_solver.
  - intros [[Hn Hp] Hpath] Hnf Hpf. split; [split|].
    + rewrite Hnf; set_solver.
    + rewrite Hpf; set_solver.
    + apply IH; [done|intros x Hx; apply Hnf; set_solver|intros x Hx; apply Hpf; set_solver].
Qed.

Lemma ring_rotate h hdr l1 c l2 :
  ring h hdr (l1 ++ c :: l2) ↔ ring h c (l2 ++ hdr :: l1).
Proof.
  unfold ring. rewrite !path_app.
  assert (hdr :: l1 ++ c :: l2 ≡ₚ c :: l2 ++ hdr :: l1) as Hp.
  { change (hdr :: l1 ++ c :: l2) with ((hdr :: l1) ++ (c :: l2)). by rewrite Permutation_app_comm. }
  rewrite Hp. tauto.
Qed.

Lemma next_of_Some h a v : next_of h a = Some v → ∃ n, h !! a = Some n ∧ next n = v.
Proof. unfold next_of. destruct (h !! a) as [n|]; cbn; intros; simplify_eq. eauto. Qed.

Lemma prev_of_Some h a v : prev_of h a = Some v → ∃ n, h !! a = Some n ∧ prev n = v.
Proof. unfold prev_of. destruct (h !! a) as [n|]; cbn; intros; simplify_eq. eauto. Qed.

(** The first and the last link of a ring. *)
Lemma ring_first h hdr l :
  ring h hdr l → next_of h hdr = Some (Some (default hdr (head l))).
Proof. intros [Hp _]. destruct l as [|x l]; cbn in *; apply Hp. Qed.

Lemma path_last h a l b :
  path h a l b → prev_of h b = Some (Some (default a (last l))).
Proof.
  revert a. induction l as [|x l IH]; intros a; cbn [path]; [intros [_ E]; done|].
  intros [_ Hp]. rewrite (IH _ Hp). rewrite last_cons. by destruct (last l).
Qed.

Lemma ring_last h hdr l :
  ring h hdr l → prev_of h hdr = Some (Some (default hdr (last l))).
Proof. intros [Hp _]. by apply path_last in Hp. Qed.

Lemma ring_mapped h hdr l x : ring h hdr l → x ∈ hdr :: l → is_Some (h !! x).
Proof.
  intros Hr Hx. apply elem_of_cons in Hx as [->|Hx].
  - apply ring_first, next_of_Some in Hr as (n & -> & _). eauto.
  - apply list_elem_of_split in Hx as (l1 & l2 & ->).
    apply ring_rotate, ring_first, next_of_Some in Hr as (n & -> & _). eauto.
Qed.

(** ** What an assignment changes *)

Lemma set_next_run h a n v :
  h !! a = Some n → set_next (Some a) v h = Ok ((), <[a := Node v (prev n)]> h).
Proof. intros E. unfold set_next. by rewrite E. Qed.

Lemma set_prev_run h a n v :
  h !! a = Some n → set_prev (Some a) v h = Ok ((), <[a := Node (next n) v]> h).
Proof. intros E. unfold set_prev. by rewrite E. Qed.

(** [upd_next h a v] and [upd_prev h a v] are the heaps after [a->next = v] and
    [a->prev = v]; the lemmas read them back. *)
Definition upd_next h a v : heap := alter (λ n, Node v (prev n)) a h.
Definition upd_prev h a v : heap := alter (λ n, Node (next n) v) a h.

Lemma set_next_upd h a v : is_Some (h !! a) → set_next (Some a) v h = Ok ((), upd_next h a v).
Proof.
  intros [n E]. rewrite (set_next_run _ _ n) by done. do 2 f_equal.
  unfold upd_next. apply map_eq. intros i. destruct (decide (i = a)) as [->|Hne].
  - by rewrite lookup_insert_eq, lookup_alter_eq, E.
  - by rewrite lookup_insert_ne, lookup_alter_ne.
Qed.

Lemma set_prev_upd h a v : is_Some (h !! a) → set_prev (Some a) v h = Ok ((), upd_prev h a v).
Proof.
  intros [n E]. rewrite (set_prev_run _ _ n) by done. do 2 f_equal.
  unfold upd_prev. apply map_eq. intros i. destruct (decide (i = a)) as [->|Hne].
  - by rewrite lookup_insert_eq, lookup_alter_eq, E.
  - by rewrite lookup_insert_ne, lookup_alter_ne.
Qed.

Lemma upd_next_mapped h a v x : is_Some (upd_next h a v !! x) ↔ is_Some (h !! x).
Proof. apply lookup_alter_is_Some. Qed.
Lemma upd_prev_mapped h a v x : is_Some (upd_prev h a v !! x) ↔ is_Some (h !! x).
Proof. apply lookup_alter_is_Some. Qed.

Lemma next_of_upd_next h a v x :
  is_Some (h !! a) → next_of (upd_next h a v) x = if decide (x = a) then Some v else next_of h x.
Proof.
  intros [n E]. unfold next_of, upd_next. destruct (decide (x = a)) as [->|Hne].
  - by rewrite lookup_alter_eq, E.
  - by rewrite lookup_alter_ne.
Qed.

Lemma prev_of_upd_next h a v x : prev_of (upd_next h a v) x = prev_of h x.
Proof.
  unfold prev_of, upd_next. destruct (decide (x = a)) as [->|Hne].
  - rewrite lookup_alter_eq. by destruct (h !! a).
  - by rewrite lookup_alter_ne.
Qed.

Lemma prev_of_upd_prev h a v x :
  is_Some (h !! a) → prev_of (upd_prev h a v) x = if decide (x = a) then Some v else prev_of h x.
Proof.
  intros [n E]. unfold prev_of, upd_prev. destruct (decide (x = a)) as [->|Hne].
  - by rewrite lookup_alter_eq, E.
  - by rewrite lookup_alter_ne.
Qed.

Lemma next_of_upd_prev h a v x : next_of (upd_prev h a v) x = next_of h x.
Proof.
  unfold next_of, upd_prev. destruct (decide (x = a)) as [->|Hne].
  - rewrite lookup_alter_eq. by destruct (h !! a).
  - by rewrite lookup_alter_ne.
Qed.

Lemma node_of_run h a : is_Some (h !! a) →
  ∃ n, node_of (Some a) h = Ok (n, h) ∧ next_of h a = Some (next n) ∧ prev_of h a = Some (prev n).
Proof. intros [n E]. exists n. unfold node_of, next_of, prev_of. by rewrite E. Qed.
(** ** Inserting and deleting

    All insertions make the heap of [spliced_in], whatever order they assign the
    pointers in, and all deletions that of [spliced_out]. *)

Definition spliced_in h a x b h' : Prop :=
  (∀ y, next_of h' y = if decide (y = a) then Some (Some x)
                       else if decide (y = x) then Some (Some b) else next_of h y) ∧
  (∀ y, prev_of h' y = if decide (y = b) then Some (Some x)
                       else if decide (y = x) then Some (Some a) else prev_of h y).

Definition spliced_out h a x b h' : Prop :=
  (∀ y, y ≠ x → next_of h' y = if decide (y = a) then Some (Some b) else next_of h y) ∧
  (∀ y, y ≠ x → prev_of h' y = if decide (y = b) then Some (Some a) else prev_of h y).

Lemma path_spliced_in h a x b h' c l d :
  spliced_in h a x b h' → path h c l d →
  a ∉ c :: l → b ∉ d :: l → x ∉ c :: d :: l → path h' c l d.
Proof.
  intros [Hn Hp] Hpath Ha Hb Hx. eapply path_frame; [exact Hpath| |].
  - intros y Hy. rewrite Hn. rewrite !decide_False by set_solver. done.
  - intros y Hy. rewrite Hp. rewrite !decide_False by set_solver. done.
Qed.

Lemma path_spliced_out h a x b h' c l d :
  spliced_out h a x b h' → path h c l d →
  a ∉ c :: l → b ∉ d :: l → x ∉ c :: d :: l → path h' c l d.
Proof.
  intros [Hn Hp] Hpath Ha Hb Hx. eapply path_frame; [exact Hpath| |].
  - intros y Hy. rewrite Hn by set_solver. rewrite !decide_False by set_solver. done.
  - intros y Hy. rewrite Hp by set_solver. rewrite !decide_False by set_solver. done.
Qed.

Lemma ring_insert_after h hdr l x h' :
  ring h hdr l → x ∉ hdr :: l →
  spliced_in h hdr x (default hdr (head l)) h' → ring h' hdr (x :: l).
Proof.
  intros [Hp Hnd] Hx Hs. split.
  - assert (link h' hdr x ∧ link h' x (default hdr (head l))) as [H1 H2].
    { destruct Hs as [Hn Hpv]. unfold link. rewrite !Hn, !Hpv.
      assert (x ≠ default hdr (head l)) by (destruct l; cbn; set_solver).
      repeat case_decide; set_solver. }
    destruct l as [|b l]; [done|]. split; [done|]. split; [done|].
    destruct Hp as [_ Hp]. eapply path_spliced_in; [done|exact Hp|..];
      repeat (apply NoDup_cons in Hnd as [? Hnd]); set_solver.
  - apply NoDup_cons in Hnd as [Hh Hl].
    apply NoDup_cons; split; [set_solver|]. apply NoDup_cons. set_solver.
Qed.

Lemma ring_insert_before h hdr l x h' :
  ring h hdr l → x ∉ hdr :: l →
  spliced_in h (default hdr (last l)) x hdr h' → ring h' hdr (l ++ [x]).
Proof.
  intros Hr Hx Hs. destruct l as [|a l _] using rev_ind; cbn in *.
  - by apply (ring_insert_after h hdr []).
  - rewrite last_snoc in Hs. cbn in Hs.
    apply (ring_rotate h hdr l a []) in Hr. cbn in Hr.
    rewrite <- app_assoc. cbn. apply (ring_rotate h' hdr l a [x]). cbn.
    apply (ring_insert_after h); set_solver.
Qed.

Lemma path_redirect h a x b h' c l :
  spliced_out h a x b h' → path h c l x → last (c :: l) = Some a →
  NoDup (x :: c :: l) → b ≠ x → b ∉ l → path h' c l b.
Proof.
  intros Hs Hp Hl Hnd Hbx Hbl. apply NoDup_cons in Hnd as [Hx Hnd].
  assert (a ∈ c :: l) as Ha by by apply last_Some_elem_of.
  assert (link h' a b) as Hlink.
  { destruct Hs as [Hn Hpv]. split; [rewrite Hn by set_solver|rewrite Hpv by set_solver];
      by rewrite decide_True. }
  destruct l as [|z l _] using rev_ind; cbn in *; [by simplify_eq|].
  rewrite app_comm_cons, last_snoc in Hl. injection Hl as ->.
  apply path_app in Hp as [Hp _]. apply path_app. split; [|done].
  apply NoDup_cons in Hnd as [Hc Hnd]. apply NoDup_app in Hnd as (_ & Hd & _).
  eapply path_spliced_out; [done|exact Hp|..]; set_solver.
Qed.

Lemma ring_delete h hdr l1 x l2 h' :
  ring h hdr (l1 ++ x :: l2) →
  spliced_out h (default hdr (last l1)) x (default hdr (head l2)) h' →
  ring h' hdr (l1 ++ l2).
Proof.
  intros Hr Hs. apply ring_rotate in Hr as [Hp Hnd].
  assert (last (l2 ++ hdr :: l1) = Some (default hdr (last l1))) as Hlast.
  { rewrite last_app, last_cons. by destruct (last l1). }
  destruct l2 as [|b l2]; cbn in *.
  - destruct Hp as [_ Hp]. rewrite app_nil_r. split.
    + eapply path_redirect; [done|exact Hp|done|done|..];
        repeat (apply NoDup_cons in Hnd as [? Hnd]); set_solver.
    + by apply NoDup_cons in Hnd as [_ ?].
  - destruct Hp as [_ Hp]. apply ring_rotate. split.
    + eapply path_redirect; [done|exact Hp|done|done|..];
        repeat (apply NoDup_cons in Hnd as [? Hnd]); set_solver.
    + by apply NoDup_cons in Hnd as [_ ?].
Qed.

(** A ring that shares no node with the change is left alone. *)
Lemma ring_frame h h' hdr l :
  ring h hdr l →
  (∀ y, y ∈ hdr :: l → next_of h' y = next_of h y ∧ prev_of h' y = prev_of h y) →
  ring h' hdr l.
Proof.
  intros [Hp Hnd] Hf. split; [|done].
  eapply path_frame; [exact Hp|..]; intros; by apply Hf.
Qed.

(** ** What the operations do *)

Ltac mapped_tac :=
  repeat first [rewrite upd_next_mapped | rewrite upd_prev_mapped]; done.

Ltac read_back :=
  repeat first
    [ rewrite prev_of_upd_next | rewrite next_of_upd_prev
    | rewrite next_of_upd_next by mapped_tac | rewrite prev_of_upd_prev by mapped_tac ].

(** One statement: a read names the pointers of its node, a write updates. *)
Ltac dl_step :=
  match goal with
  | |- context [ (node_of (Some ?a) ≫= _) ?h ] =>
      let n := fresh "n" in let E := fresh "E" in
      let N := fresh "N" in let P := fresh "P" in
      destruct (node_of_run h a ltac:(mapped_tac)) as (n & E & N & P);
      rewrite (bind_Ok _ _ _ _ _ E); clear E;
      revert N P; read_back; intros N P
  | |- context [ (set_next (Some ?a) ?v ≫= _) ?h ] =>
      rewrite (bind_Ok _ _ _ _ _ (set_next_upd h a v ltac:(mapped_tac)))
  | |- context [ (set_prev (Some ?a) ?v ≫= _) ?h ] =>
      rewrite (bind_Ok _ _ _ _ _ (set_prev_upd h a v ltac:(mapped_tac)))
  | |- context [ set_next (Some ?a) ?v ?h ] =>
      rewrite (set_next_upd h a v ltac:(mapped_tac))
  | |- context [ set_prev (Some ?a) ?v ?h ] =>
      rewrite (set_prev_upd h a v ltac:(mapped_tac))
  end.

Ltac spliced :=
  split; intros; read_back; repeat case_decide; simplify_eq; congruence.

(** The frame of an operation: which nodes are mapped does not change. *)
Definition same_nodes h h' : Prop := ∀ y, is_Some (h' !! y) ↔ is_Some (h !! y).

Lemma addHeader_run h hdr x b :
  is_Some (h !! hdr) → is_Some (h !! x) → is_Some (h !! b) →
  next_of h hdr = Some (Some b) → x ≠ hdr → x ≠ b →
  ∃ h', addNodeToRingDoubleListHeader (Some hdr) (Some x) h = Ok ((), h') ∧
    spliced_in h hdr x b h' ∧ same_nodes h h'.
Proof.
  intros Mh Mx Mb Hb Hxh Hxb. unfold addNodeToRingDoubleListHeader.
  dl_step. rewrite Hb in N. injection N as N. rewrite <- N.
  dl_step. dl_step. dl_step. dl_step.
  rewrite decide_False, decide_True in N0 by done. injection N0 as <-.
  dl_step. eexists. split; [done|]. split; [spliced|]. intros y. mapped_tac.
Qed.

Lemma addTail_run h hdr x a :
  is_Some (h !! hdr) → is_Some (h !! x) → is_Some (h !! a) →
  prev_of h hdr = Some (Some a) → x ≠ hdr → x ≠ a →
  ∃ h', addNodeToRingDoubleListTail (Some hdr) (Some x) h = Ok ((), h') ∧
    spliced_in h a x hdr h' ∧ same_nodes h h'.
Proof.
  intros Mh Mx Ma Ha Hxh Hxa. unfold addNodeToRingDoubleListTail.
  dl_step. rewrite Ha in P. injection P as P. rewrite <- P.
  dl_step. dl_step. dl_step. dl_step.
  rewrite decide_False, decide_True in P0 by done. injection P0 as <-.
  dl_step. eexists. split; [done|]. split; [spliced|]. intros y. mapped_tac.
Qed.

Lemma list_add_run h hdr x b :
  is_Some (h !! hdr) → is_Some (h !! x) → is_Some (h !! b) →
  next_of h hdr = Some (Some b) → x ≠ hdr → x ≠ b →
  ∃ h', list_add (Some x) (Some hdr) h = Ok ((), h') ∧
    spliced_in h hdr x b h' ∧ same_nodes h h'.
Proof.
  intros Mh Mx Mb Hb Hxh Hxb. unfold list_add.
  dl_step. rewrite Hb in N. injection N as N. rewrite <- N.
  dl_step. dl_step. dl_step. dl_step.
  eexists. split; [done|]. split; [spliced|]. intros y. mapped_tac.
Qed.

Lemma list_add_tail_run h hdr x a :
  is_Some (h !! hdr) → is_Some (h !! x) → is_Some (h !! a) →
  prev_of h hdr = Some (Some a) → x ≠ hdr → x ≠ a →
  ∃ h', list_add_tail (Some x) (Some hdr) h = Ok ((), h') ∧
    spliced_in h a x hdr h' ∧ same_nodes h h'.
Proof.
  intros Mh Mx Ma Ha Hxh Hxa. unfold list_add_tail.
  dl_step. rewrite Ha in P. injection P as P. rewrite <- P.
  dl_step. dl_step. dl_step. dl_step.
  eexists. split; [done|]. split; [spliced|]. intros y. mapped_tac.
Qed.

Lemma delNode_run h a x b :
  is_Some (h !! a) → is_Some (h !! x) → is_Some (h !! b) → a ≠ x → b ≠ x →
  link h a x → link h x b →
  ∃ h', delNodeFromRingDoubleList (Some x) h = Ok ((), h') ∧
    spliced_out h a x b h' ∧ next_of h' x = Some None ∧ prev_of h' x = Some None ∧
    same_nodes h h'.
Proof.
  intros Ma Mx Mb Hax Hbx [_ Ha] [Hb _]. unfold delNodeFromRingDoubleList.
  dl_step. rewrite Ha in P. rewrite Hb in N. injection P as P. injection N as N.
  rewrite <- P, <- N. dl_step. dl_step.
  rewrite decide_False, Hb in N0 by done. rewrite Ha in P0.
  injection P0 as P0. injection N0 as N0. rewrite <- P0, <- N0.
  dl_step. dl_step. dl_step. eexists. split; [done|]. split; [spliced|].
  read_back. rewrite !decide_True by done. split; [done|]. split; [done|].
  intros y. mapped_tac.
Qed.

Lemma list_del_run h a x b :
  is_Some (h !! a) → is_Some (h !! x) → is_Some (h !! b) → a ≠ x → b ≠ x →
  link h a x → link h x b →
  ∃ h', list_del (Some x) h = Ok ((), h') ∧ spliced_out h a x b h' ∧ same_nodes h h'.
Proof.
  intros Ma Mx Mb Hax Hbx [_ Ha] [Hb _]. unfold list_del.
  dl_step. rewrite Ha in P. rewrite Hb in N. injection P as P. injection N as N.
  rewrite <- P, <- N. dl_step. dl_step. eexists. split; [done|]. split; [spliced|].
  intros y. mapped_tac.
Qed.

(** ** The operations on rings *)

(** The neighbours of a node of a ring, and that they differ from the node. *)
Lemma ring_neighbours h hdr l1 x l2 :
  ring h hdr (l1 ++ x :: l2) →
  let a := default hdr (last l1) in let b := default hdr (head l2) in
  link h a x ∧ link h x b ∧ a ≠ x ∧ b ≠ x ∧ a ∈ hdr :: l1 ∧ b ∈ hdr :: l2.
Proof.
  intros Hr a b. pose proof Hr as [Hp Hnd]. apply path_app in Hp as [Hp1 Hp2].
  assert (a ∈ hdr :: l1) as Ha.
  { subst a. destruct (last l1) eqn:E; cbn; [apply last_Some_elem_of in E|]; set_solver. }
  assert (b ∈ hdr :: l2) as Hb by (subst b; destruct l2; cbn; set_solver).
  apply NoDup_cons in Hnd as [Hh Hnd]. apply NoDup_app in Hnd as (_ & Hd & Hnd2).
  apply NoDup_cons in Hnd2 as [Hx _].
  assert (link h a x) as Hl.
  { subst a. destruct l1 as [|z l1 _] using rev_ind; [done|].
    rewrite last_snoc. apply path_app in Hp1. apply Hp1. }
  assert (link h x b) by (subst b; destruct l2; apply Hp2).
  split; [done|]. split; [done|]. repeat split; set_solver.
Qed.

Lemma spliced_in_ring h a x b h' hdr l :
  spliced_in h a x b h' → ring h hdr l → a ∉ hdr :: l → b ∉ hdr :: l → x ∉ hdr :: l →
  ring h' hdr l.
Proof.
  intros [Hn Hp] Hr Ha Hb Hx. apply (ring_frame h); [done|]. intros y Hy.
  rewrite Hn, Hp, !decide_False by set_solver. done.
Qed.

Lemma spliced_out_ring h a x b h' hdr l :
  spliced_out h a x b h' → ring h hdr l → a ∉ hdr :: l → b ∉ hdr :: l → x ∉ hdr :: l →
  ring h' hdr l.
Proof.
  intros [Hn Hp] Hr Ha Hb Hx. apply (ring_frame h); [done|]. intros y Hy.
  rewrite Hn, Hp, !decide_False by set_solver. done.
Qed.

(** The rings of [h] that share no node with [ns] are rings of [h']. *)
Definition frames h h' (ns : list K) : Prop :=
  ∀ hdr l, ring h hdr l → (∀ y, y ∈ hdr :: l → y ∉ ns) → ring h' hdr l.

Lemma default_last_elem hdr l : default hdr (last l) ∈ hdr :: l.
Proof. destruct (last l) eqn:E; cbn; [apply last_Some_elem_of in E|]; set_solver. Qed.

Lemma default_head_elem hdr l : default hdr (head l) ∈ hdr :: l.
Proof. destruct l; cbn; set_solver. Qed.

Lemma addHeader_spec h hdr l x :
  ring h hdr l → x ∉ hdr :: l → is_Some (h !! x) →
  ∃ h', addNodeToRingDoubleListHeader (Some hdr) (Some x) h = Ok ((), h') ∧
    ring h' hdr (x :: l) ∧ same_nodes h h' ∧ frames h h' (x :: hdr :: l).
Proof.
  intros Hr Hx Mx. pose proof (default_head_elem hdr l) as Hb.
  destruct (addHeader_run h hdr x (default hdr (head l))) as (h' & Hrun & Hs & Hn);
    [eapply ring_mapped; [done|set_solver]|done|by eapply ring_mapped|
     by eapply ring_first|set_solver|set_solver|].
  exists h'. split; [done|]. split; [by eapply ring_insert_after|]. split; [done|].
  intros hdr' l' Hr' Hd. eapply spliced_in_ring; [done|done|..]; set_solver.
Qed.

Lemma addTail_spec h hdr l x :
  ring h hdr l → x ∉ hdr :: l → is_Some (h !! x) →
  ∃ h', addNodeToRingDoubleListTail (Some hdr) (Some x) h = Ok ((), h') ∧
    ring h' hdr (l ++ [x]) ∧ same_nodes h h' ∧ frames h h' (x :: hdr :: l).
Proof.
  intros Hr Hx Mx. pose proof (default_last_elem hdr l) as Hb.
  destruct (addTail_run h hdr x (default hdr (last l))) as (h' & Hrun & Hs & Hn);
    [eapply ring_mapped; [done|set_solver]|done|by eapply ring_mapped|
     by eapply ring_last|set_solver|set_solver|].
  exists h'. split; [done|]. split; [by eapply ring_insert_before|]. split; [done|].
  intros hdr' l' Hr' Hd. eapply spliced_in_ring; [done|done|..]; set_solver.
Qed.

Lemma list_add_spec h hdr l x :
  ring h hdr l → x ∉ hdr :: l → is_Some (h !! x) →
  ∃ h', list_add (Some x) (Some hdr) h = Ok ((), h') ∧
    ring h' hdr (x :: l) ∧ same_nodes h h' ∧ frames h h' (x :: hdr :: l).
Proof.
  intros Hr Hx Mx. pose proof (default_head_elem hdr l) as Hb.
  destruct (list_add_run h hdr x (default hdr (head l))) as (h' & Hrun & Hs & Hn);
    [eapply ring_mapped; [done|set_solver]|done|by eapply ring_mapped|
     by eapply ring_first|set_solver|set_solver|].
  exists h'. split; [done|]. split; [by eapply ring_insert_after|]. split; [done|].
  intros hdr' l' Hr' Hd. eapply spliced_in_ring; [done|done|..]; set_solver.
Qed.

Lemma list_add_tail_spec h hdr l x :
  ring h hdr l → x ∉ hdr :: l → is_Some (h !! x) →
  ∃ h', list_add_tail (Some x) (Some hdr) h = Ok ((), h') ∧
    ring h' hdr (l ++ [x]) ∧ same_nodes h h' ∧ frames h h' (x :: hdr :: l).
Proof.
  intros Hr Hx Mx. pose proof (default_last_elem hdr l) as Hb.
  destruct (list_add_tail_run h hdr x (default hdr (last l))) as (h' & Hrun & Hs & Hn);
    [eapply ring_mapped; [done|set_solver]|done|by eapply ring_mapped|
     by eapply ring_last|set_solver|set_solver|].
  exists h'. split; [done|]. split; [by eapply ring_insert_before|]. split; [done|].
  intros hdr' l' Hr' Hd. eapply spliced_in_ring; [done|done|..]; set_solver.
Qed.

Lemma delNode_spec h hdr l1 x l2 :
  ring h hdr (l1 ++ x :: l2) →
  ∃ h', delNodeFromRingDoubleList (Some x) h = Ok ((), h') ∧
    ring h' hdr (l1 ++ l2) ∧ next_of h' x = Some None ∧ prev_of h' x = Some None ∧
    same_nodes h h' ∧ frames h h' (hdr :: l1 ++ x :: l2).
Proof.
  intros Hr. destruct (ring_neighbours _ _ _ _ _ Hr) as (Hl & Hl' & Ha & Hb & Hia & Hib).
  destruct (delNode_run h (default hdr (last l1)) x (default hdr (head l2)))
    as (h' & Hrun & Hs & Hn & Hp & Hsame); try done; try (eapply ring_mapped; [done|set_solver]).
  exists h'. split; [done|]. split; [by eapply ring_delete|].
  split; [done|]. split; [done|]. split; [done|].
  intros hdr' l' Hr' Hd. eapply spliced_out_ring; [done|done|..]; set_solver.
Qed.

Lemma list_del_spec h hdr l1 x l2 :
  ring h hdr (l1 ++ x :: l2) →
  ∃ h', list_del (Some x) h = Ok ((), h') ∧ ring h' hdr (l1 ++ l2) ∧
    same_nodes h h' ∧ frames h h' (hdr :: l1 ++ x :: l2).
Proof.
  intros Hr. destruct (ring_neighbours _ _ _ _ _ Hr) as (Hl & Hl' & Ha & Hb & Hia & Hib).
  destruct (list_del_run h (default hdr (last l1)) x (default hdr (head l2)))
    as (h' & Hrun & Hs & Hsame); try done; try (eapply ring_mapped; [done|set_solver]).
  exists h'. split; [done|]. split; [by eapply ring_delete|]. split; [done|].
  intros hdr' l' Hr' Hd. eapply spliced_out_ring; [done|done|..]; set_solver.
Qed.

Lemma init_spec h hdr :
  is_Some (h !! hdr) →
  ∃ h', initRingDoubleList (Some hdr) h = Ok ((), h') ∧ ring h' hdr [] ∧
    same_nodes h h' ∧ frames h h' [hdr].
Proof.
  intros M. unfold initRingDoubleList. dl_step. dl_step. eexists. split; [done|].
  split; [|split].
  - split; [|by apply NoDup_singleton]. split; read_back; by rewrite decide_True.
  - intros y. mapped_tac.
  - intros hdr' l' Hr Hd. apply (ring_frame h); [done|]. intros y Hy.
    read_back. rewrite !decide_False by set_solver. done.
Qed.

Lemma isEmpty_spec h hdr l :
  ring h hdr l → ringListIsEmpty (Some hdr) h = Ok (bool_decide (l = []), h).
Proof.
  intros Hr. unfold ringListIsEmpty. pose proof (ring_first _ _ _ Hr) as Hf.
  assert (is_Some (h !! hdr)) as M by (eapply ring_mapped; [done|set_solver]).
  dl_step. rewrite Hf in N. injection N as <-. unfold mret, prog_ret. do 2 f_equal.
  apply bool_decide_ext. destruct Hr as [_ Hnd]. destruct l as [|x l]; cbn; [done|].
  split; [|done]. intros [= ->]. apply NoDup_cons in Hnd as [Hx _]. set_solver.
Qed.
(** The nodes outside of [ns] are not written. *)
Definition touches h h' (ns : list K) : Prop := ∀ y, y ∉ ns → h' !! y = h !! y.

Lemma node_ext h h' y :
  next_of h' y = next_of h y → prev_of h' y = prev_of h y → h' !! y = h !! y.
Proof.
  unfold next_of, prev_of. destruct (h' !! y) as [[n p]|], (h !! y) as [[n' p']|]; cbn; congruence.
Qed.

Lemma spliced_in_touches h a x b h' : spliced_in h a x b h' → touches h h' [a; x; b].
Proof.
  intros [Hn Hp] y Hy. apply node_ext; [rewrite Hn|rewrite Hp]; rewrite !decide_False by set_solver; done.
Qed.

Lemma spliced_out_touches h a x b h' : spliced_out h a x b h' → touches h h' [a; x; b].
Proof.
  intros [Hn Hp] y Hy. apply node_ext; [rewrite Hn|rewrite Hp]; try set_solver;
    rewrite !decide_False by set_solver; done.
Qed.

Lemma addHeader_touch h hdr l x :
  ring h hdr l → x ∉ hdr :: l → is_Some (h !! x) →
  ∃ h', addNodeToRingDoubleListHeader (Some hdr) (Some x) h = Ok ((), h') ∧
    ring h' hdr (x :: l) ∧ same_nodes h h' ∧ touches h h' (x :: hdr :: l).
Proof.
  intros Hr Hx Mx. pose proof (default_head_elem hdr l) as Hb.
  destruct (addHeader_run h hdr x (default hdr (head l))) as (h' & Hrun & Hs & Hn);
    [eapply ring_mapped; [done|set_solver]|done|by eapply ring_mapped|
     by eapply ring_first|set_solver|set_solver|].
  exists h'. split; [done|]. split; [by eapply ring_insert_after|]. split; [done|].
  intros y Hy. apply (spliced_in_touches _ _ _ _ _ Hs). set_solver.
Qed.

Lemma addTail_touch h hdr l x :
  ring h hdr l → x ∉ hdr :: l → is_Some (h !! x) →
  ∃ h', addNodeToRingDoubleListTail (Some hdr) (Some x) h = Ok ((), h') ∧
    ring h' hdr (l ++ [x]) ∧ same_nodes h h' ∧ touches h h' (x :: hdr :: l).
Proof.
  intros Hr Hx Mx. pose proof (default_last_elem hdr l) as Hb.
  destruct (addTail_run h hdr x (default hdr (last l))) as (h' & Hrun & Hs & Hn);
    [eapply ring_mapped; [done|set_solver]|done|by eapply ring_mapped|
     by eapply ring_last|set_solver|set_solver|].
  exists h'. split; [done|]. split; [by eapply ring_insert_before|]. split; [done|].
  intros y Hy. apply (spliced_in_touches _ _ _ _ _ Hs). set_solver.
Qed.

Lemma delNode_touch h hdr l1 x l2 :
  ring h hdr (l1 ++ x :: l2) →
  ∃ h', delNodeFromRingDoubleList (Some x) h = Ok ((), h') ∧
    ring h' hdr (l1 ++ l2) ∧ h' !! x = Some (Node None None) ∧
    same_nodes h h' ∧ touches h h' (hdr :: l1 ++ x :: l2).
Proof.
  intros Hr. destruct (ring_neighbours _ _ _ _ _ Hr) as (Hl & Hl' & Ha & Hb & Hia & Hib).
  destruct (delNode_run h (default hdr (last l1)) x (default hdr (head l2)))
    as (h' & Hrun & Hs & Hn & Hp & Hsame); try done; try (eapply ring_mapped; [done|set_solver]).
  exists h'. split; [done|]. split; [by eapply ring_delete|]. split; [|split; [done|]].
  - apply next_of_Some in Hn as (n & E & Hn). unfold prev_of in Hp. rewrite E in *. cbn in *. simplify_eq.
    destruct n; cbn in *; by subst.
  - intros y Hy. apply (spliced_out_touches _ _ _ _ _ Hs). set_solver.
Qed.

(** ** Families of rings

    [rings h Q]: the heap holds the ring of every header that [Q] maps to a list,
    and no node lies on two of them. *)

Implicit Types (Q : gmap K (list K)) (hd c : K).

Definition rings h Q : Prop :=
  (∀ hd l, Q !! hd = Some l → ring h hd l) ∧
  (∀ hd1 l1 hd2 l2, Q !! hd1 = Some l1 → Q !! hd2 = Some l2 → hd1 ≠ hd2 →
     ∀ y, y ∈ hd1 :: l1 → y ∉ hd2 :: l2).

Definition unlinked Q x : Prop := ∀ hd l, Q !! hd = Some l → x ∉ hd :: l.

(** Insertion next to a cursor [c], which is the header or a node of the list, and
    the order in which a walk from the cursor meets the other nodes. *)
Fixpoint ins_at (before : bool) c x l : list K :=
  match l with
  | [] => []
  | y :: l' =>
      if decide (y = c) then (if before then x :: y :: l' else y :: x :: l')
      else y :: ins_at before c x l'
  end.

Definition ins_before hd c x l : list K :=
  if decide (c = hd) then l ++ [x] else ins_at true c x l.

Definition ins_after hd c x l : list K :=
  if decide (c = hd) then x :: l else ins_at false c x l.

Fixpoint walk_from hd c (seen l : list K) : list K :=
  match l with
  | [] => []
  | y :: l' => if decide (y = c) then l' ++ hd :: seen else walk_from hd c (seen ++ [y]) l'
  end.

Definition walk hd c l : list K := if decide (c = hd) then l else walk_from hd c [] l.

Lemma ins_at_app (bf : bool) c x l1 l2 :
  c ∉ l1 →
  ins_at bf c x (l1 ++ c :: l2) = l1 ++ (if bf then x :: c :: l2 else c :: x :: l2).
Proof.
  induction l1 as [|y l1 IH]; intros Hc; cbn.
  - by rewrite decide_True.
  - rewrite decide_False by set_solver. rewrite IH by set_solver. done.
Qed.

Lemma walk_from_app hd c l1 l2 : ∀ seen,
  c ∉ l1 → walk_from hd c seen (l1 ++ c :: l2) = l2 ++ hd :: seen ++ l1.
Proof.
  induction l1 as [|y l1 IH]; intros seen Hc; cbn.
  - by rewrite decide_True, app_nil_r.
  - rewrite decide_False by set_solver. rewrite IH by set_solver.
    by rewrite <- (app_assoc seen).
Qed.

(** A cursor on a ring: the ring seen from the cursor is the walk. *)
Lemma ring_cursor h hd l c :
  ring h hd l → c ∈ hd :: l →
  (c = hd ∧ walk hd c l = l) ∨
  (∃ l1 l2, l = l1 ++ c :: l2 ∧ c ≠ hd ∧ c ∉ l1 ∧ walk hd c l = l2 ++ hd :: l1).
Proof.
  intros [_ Hnd] Hc. unfold walk. case_decide as Hd; [by left|right].
  assert (c ∈ l) as Hl by set_solver. apply list_elem_of_split in Hl as (l1 & l2 & ->).
  exists l1, l2. apply NoDup_cons in Hnd as [_ Hnd]. apply NoDup_app in Hnd as (_ & Hx & _).
  assert (c ∉ l1) by (intros Hin; apply (Hx c Hin); set_solver).
  by rewrite walk_from_app.
Qed.

Lemma ring_walk h hd l c : ring h hd l → c ∈ hd :: l → ring h c (walk hd c l).
Proof.
  intros Hr Hc. destruct (ring_cursor h hd l c Hr Hc) as [[-> ->]|(l1 & l2 & -> & _ & _ & ->)];
    [done|by apply ring_rotate].
Qed.

Lemma ring_unwalk h h' hd l c x :
  ring h hd l → c ∈ hd :: l →
  (ring h' c (walk hd c l ++ [x]) → ring h' hd (ins_before hd c x l)) ∧
  (ring h' c (x :: walk hd c l) → ring h' hd (ins_after hd c x l)).
Proof.
  intros Hr Hc. unfold ins_before, ins_after.
  destruct (ring_cursor h hd l c Hr Hc) as [[-> ->]|(l1 & l2 & -> & Hne & Hn & ->)].
  - rewrite !decide_True by done. done.
  - rewrite !decide_False, !ins_at_app by done. split; intros Hr'.
    + rewrite <- app_assoc in Hr'. cbn in Hr'. apply ring_rotate in Hr'.
      by rewrite <- app_assoc in Hr'.
    + by apply (ring_rotate h' hd l1 c (x :: l2)).
Qed.

Lemma ins_before_perm hd c x l : c ∈ hd :: l → ins_before hd c x l ≡ₚ x :: l.
Proof.
  intros Hc. unfold ins_before. case_decide as Hd; [by rewrite Permutation_app_comm|].
  assert (c ∈ l) as Hl by set_solver. clear Hc Hd. induction l as [|y l IH]; [set_solver|].
  cbn. case_decide; [done|]. rewrite IH by set_solver. apply Permutation_swap.
Qed.

Lemma ins_after_perm hd c x l : c ∈ hd :: l → ins_after hd c x l ≡ₚ x :: l.
Proof.
  intros Hc. unfold ins_after. case_decide as Hd; [done|].
  assert (c ∈ l) as Hl by set_solver. clear Hc Hd. induction l as [|y l IH]; [set_solver|].
  cbn. case_decide; [apply Permutation_swap|]. rewrite IH by set_solver. apply Permutation_swap.
Qed.

Lemma walk_elem h hd l c y :
  ring h hd l → c ∈ hd :: l → y ∈ c :: walk hd c l ↔ y ∈ hd :: l.
Proof.
  intros Hr Hc. destruct (ring_cursor h hd l c Hr Hc) as [[-> ->]|(l1 & l2 & -> & _ & _ & ->)];
    set_solver.
Qed.

(** The ring of a node is determined by the pointers. *)
Lemma path_unique h a b l1 : ∀ l2,
  path h a l1 b → path h a l2 b → b ∉ l1 → b ∉ l2 → l1 = l2.
Proof.
  revert a. induction l1 as [|x l1 IH]; intros a [|y l2]; cbn; try done.
  - intros [Hn _] [[Hn' _] _] _ Hb. rewrite Hn in Hn'. set_solver.
  - intros [[Hn _] _] [Hn' _] Hb _. rewrite Hn in Hn'. set_solver.
  - intros [[Hn _] Hp1] [[Hn' _] Hp2] Hb1 Hb2. rewrite Hn in Hn'. injection Hn' as ->.
    f_equal. apply (IH y); [done|done|set_solver..].
Qed.

Lemma ring_unique h a l1 l2 : ring h a l1 → ring h a l2 → l1 = l2.
Proof.
  intros [Hp1 [H1 _]%NoDup_cons] [Hp2 [H2 _]%NoDup_cons]. by eapply path_unique.
Qed.

Lemma walk_rotate h hd l c w1 y w2 :
  ring h hd l → c ∈ hd :: l → walk hd c l = w1 ++ y :: w2 →
  walk hd y l = w2 ++ c :: w1 ∧ y ∈ hd :: l.
Proof.
  intros Hr Hc Hw. assert (y ∈ hd :: l) as Hy.
  { apply (walk_elem h hd l c y Hr Hc). rewrite Hw. set_solver. }
  split; [|done]. apply (ring_unique h y); [by apply ring_walk|].
  apply ring_rotate. rewrite <- Hw. by apply ring_walk.
Qed.

(** A ring has no more nodes than the heap. *)
Lemma ring_size h hd l : ring h hd l → (length l < size h)%nat.
Proof.
  intros Hr. pose proof Hr as [_ Hnd].
  assert (length (hd :: l) ≤ size h)%nat; [|cbn in *; lia].
  rewrite <- (size_list_to_set (C := gset K) (hd :: l)) by done. rewrite <- size_dom.
  apply subseteq_size. intros x Hx. apply elem_of_list_to_set in Hx.
  apply elem_of_dom. by eapply ring_mapped.
Qed.

(** A change of one ring of a family. *)
Lemma rings_change h h' Q hd l l' x :
  rings h Q → Q !! hd = Some l → ring h' hd l' →
  (∀ y, y ∈ l' → y ∈ x :: l) → (x ∈ l' → x ∉ hd :: l → unlinked Q x) →
  frames h h' (x :: hd :: l) → x ∈ hd :: l ∨ unlinked Q x →
  rings h' (<[hd := l']> Q).
Proof.
  intros [Hr Hd] Hl Hr' Hsub Hfresh Hf Hx.
  assert (∀ hd2 l2, Q !! hd2 = Some l2 → hd2 ≠ hd → ∀ y, y ∈ hd2 :: l2 → y ∉ x :: hd :: l) as Hdis.
  { intros hd2 l2 Hl2 Hne y Hy Hin. apply elem_of_cons in Hin as [->|Hin].
    - destruct Hx as [Hx|Hx]; [|by eapply Hx]. by eapply (Hd hd2 l2 hd l).
    - by eapply (Hd hd2 l2 hd l). }
  split.
  - intros hd2 l2. rewrite lookup_insert. case_decide as Hne; [intros [= <-]; by subst|].
    intros Hl2. apply Hf; [by apply Hr|]. by apply (Hdis hd2 l2).
  - intros hd1 l1 hd2 l2. rewrite !lookup_insert.
    case_decide as H1; case_decide as H2; intros E1 E2 Hne y Hy; subst; simplify_eq.
    + intros Hin. apply (Hdis hd2 l2 E2 ltac:(done) y Hin).
      apply elem_of_cons in Hy as [->|Hy]; [set_solver|]. apply Hsub in Hy. set_solver.
    + intros Hin. apply (Hdis hd1 l1 E1 ltac:(done) y Hy).
      apply elem_of_cons in Hin as [->|Hin]; [set_solver|]. apply Hsub in Hin. set_solver.
    + by eapply (Hd hd1 l1 hd2 l2).
Qed.

Lemma rings_init h Q hd :
  rings h Q → Q !! hd = None → unlinked Q hd → is_Some (h !! hd) →
  ∃ h', initRingDoubleList (Some hd) h = Ok ((), h') ∧ rings h' (<[hd := []]> Q) ∧
    same_nodes h h'.
Proof.
  intros [Hr Hd] Hn Hu M. destruct (init_spec h hd M) as (h' & Hrun & Hr' & Hs & Hf).
  exists h'. split; [done|]. split; [|done].
  assert (∀ hd2 l2, Q !! hd2 = Some l2 → ∀ y, y ∈ hd2 :: l2 → y ∉ [hd]) as Hdis.
  { intros hd2 l2 H2 y Hy Hin. apply list_elem_of_singleton in Hin as ->. by eapply Hu. }
  split.
  - intros hd2 l2. rewrite lookup_insert. case_decide as E; [intros [= <-]; by subst|].
    intros H2. apply Hf; [by apply Hr|by eapply Hdis].
  - intros hd1 l1 hd2 l2. rewrite !lookup_insert.
    case_decide as E1; case_decide as E2; intros H1 H2 Hne y Hy; subst; simplify_eq.
    + intros Hin. by apply (Hdis _ _ H2 y Hin).
    + by apply (Hdis _ _ H1 y Hy).
    + by eapply (Hd hd1 l1 hd2 l2).
Qed.

Lemma rings_addTail h Q hd l c x :
  rings h Q → Q !! hd = Some l → c ∈ hd :: l → unlinked Q x → is_Some (h !! x) →
  ∃ h', addNodeToRingDoubleListTail (Some c) (Some x) h = Ok ((), h') ∧
    rings h' (<[hd := ins_before hd c x l]> Q) ∧ same_nodes h h'.
Proof.
  intros HQ Hl Hc Hx M. pose proof (proj1 HQ _ _ Hl) as Hr.
  destruct (addTail_spec h c (walk hd c l) x (ring_walk _ _ _ _ Hr Hc)) as (h' & Hrun & Hr' & Hs & Hf);
    [rewrite (walk_elem h) by done; by eapply Hx|done|].
  exists h'. split; [done|]. split; [|done].
  apply (rings_change h _ _ _ l _ x HQ Hl); [by apply (ring_unwalk h)| |done| |by right].
  - intros y Hy. by rewrite (ins_before_perm hd c x l) in Hy by done.
  - intros hd' k Hk Hdis. apply Hf; [done|]. intros y Hy Hin.
    apply (Hdis y Hy). apply elem_of_cons in Hin as [->|Hin]; [set_solver|].
    apply elem_of_cons; right. by eapply walk_elem.
Qed.

Lemma rings_addHeader h Q hd l c x :
  rings h Q → Q !! hd = Some l → c ∈ hd :: l → unlinked Q x → is_Some (h !! x) →
  ∃ h', addNodeToRingDoubleListHeader (Some c) (Some x) h = Ok ((), h') ∧
    rings h' (<[hd := ins_after hd c x l]> Q) ∧ same_nodes h h'.
Proof.
  intros HQ Hl Hc Hx M. pose proof (proj1 HQ _ _ Hl) as Hr.
  destruct (addHeader_spec h c (walk hd c l) x (ring_walk _ _ _ _ Hr Hc)) as (h' & Hrun & Hr' & Hs & Hf);
    [rewrite (walk_elem h) by done; by eapply Hx|done|].
  exists h'. split; [done|]. split; [|done].
  apply (rings_change h _ _ _ l _ x HQ Hl); [by apply (ring_unwalk h)| |done| |by right].
  - intros y Hy. by rewrite (ins_after_perm hd c x l) in Hy by done.
  - intros hd' k Hk Hdis. apply Hf; [done|]. intros y Hy Hin.
    apply (Hdis y Hy). apply elem_of_cons in Hin as [->|Hin]; [set_solver|].
    apply elem_of_cons; right. by eapply walk_elem.
Qed.

Lemma rings_del h Q hd l1 x l2 :
  rings h Q → Q !! hd = Some (l1 ++ x :: l2) →
  ∃ h', delNodeFromRingDoubleList (Some x) h = Ok ((), h') ∧
    rings h' (<[hd := l1 ++ l2]> Q) ∧ same_nodes h h' ∧
    next_of h' x = Some None ∧ prev_of h' x = Some None ∧ unlinked (<[hd := l1 ++ l2]> Q) x.
Proof.
  intros HQ Hl. pose proof (proj1 HQ _ _ Hl) as Hr.
  destruct (delNode_spec h hd l1 x l2 Hr) as (h' & Hrun & Hr' & Hn & Hp & Hs & Hf).
  exists h'. split; [done|].
  assert (rings h' (<[hd := l1 ++ l2]> Q)) as HQ'.
  { apply (rings_change h _ _ _ (l1 ++ x :: l2) _ x HQ Hl Hr'); [set_solver| | |left; set_solver].
    - intros _ Hx. set_solver.
    - intros hd' k Hk Hdis. apply Hf; [done|]. intros y Hy. specialize (Hdis y Hy). set_solver. }
  split; [done|]. split; [done|]. split; [done|]. split; [done|].
  intros hd' k Hk Hin. destruct HQ' as [Hrs _]. apply Hrs in Hk.
  assert (next_of h' x ≠ Some None) as Hc; [|by apply Hc].
  apply elem_of_cons in Hin as [->|Hin]; [by rewrite (ring_first _ _ _ Hk)|].
  apply list_elem_of_split in Hin as (k1 & k2 & ->).
  apply ring_rotate in Hk. by rewrite (ring_first _ _ _ Hk).
Qed.

(** ** The interface of a ring list

    What both implementations promise to the code that uses them. The scheduler,
    the thread pool and the semaphores are proved from these laws. *)

Class RingList := {
  ring_add_head : K → K → prog heap ();
  ring_add_tail : K → K → prog heap ();
  ring_del : K → prog heap ();
  ring_add_head_law h hdr l x :
    ring h hdr l → x ∉ hdr :: l → is_Some (h !! x) →
    ∃ h', ring_add_head hdr x h = Ok ((), h') ∧ ring h' hdr (x :: l) ∧
      same_nodes h h' ∧ frames h h' (x :: hdr :: l);
  ring_add_tail_law h hdr l x :
    ring h hdr l → x ∉ hdr :: l → is_Some (h !! x) →
    ∃ h', ring_add_tail hdr x h = Ok ((), h') ∧ ring h' hdr (l ++ [x]) ∧
      same_nodes h h' ∧ frames h h' (x :: hdr :: l);
  ring_del_law h hdr l1 x l2 :
    ring h hdr (l1 ++ x :: l2) →
    ∃ h', ring_del x h = Ok ((), h') ∧ ring h' hdr (l1 ++ l2) ∧
      same_nodes h h' ∧ frames h h' (hdr :: l1 ++ x :: l2)
}.

#[refine] Instance kernel_ring : RingList := {
  ring_add_head hdr x := addNodeToRingDoubleListHeader (Some hdr) (Some x);
  ring_add_tail hdr x := addNodeToRingDoubleListTail (Some hdr) (Some x);
  ring_del x := delNodeFromRingDoubleList (Some x)
}.
Proof.
  - apply addHeader_spec.
  - apply addTail_spec.
  - intros h hdr l1 x l2 Hr. destruct (delNode_spec _ _ _ _ _ Hr)
      as (h' & Hrun & Hr' & _ & _ & Hs & Hf). eauto 6.
Defined.

#[refine] Instance yaffs_ring : RingList := {
  ring_add_head hdr x := list_add (Some x) (Some hdr);
  ring_add_tail hdr x := list_add_tail (Some x) (Some hdr);
  ring_del x := list_del (Some x)
}.
Proof.
  - apply list_add_spec.
  - apply list_add_tail_spec.
  - apply list_del_spec.
Defined.

(** Calls on one ring, on the heap and on the list. *)
Inductive ring_call := AddHead (x : K) | AddTail (x : K) | Del (x : K).

Definition run_ring_call {RL : RingList} hdr (c : ring_call) : prog heap () :=
  match c with
  | AddHead x => ring_add_head hdr x
  | AddTail x => ring_add_tail hdr x
  | Del x => ring_del x
  end.

Fixpoint run_ring_calls {RL : RingList} hdr (cs : list ring_call) : prog heap () :=
  match cs with
  | [] => mret ()
  | c :: cs' => run_ring_call hdr c;; run_ring_calls hdr cs'
  end.

(** What a call makes of the list; [None] when its precondition fails: a node is
    added only when it is in no list, and deleted only from a list. *)
Definition spec_ring_call hdr (c : ring_call) (l : list K) : option (list K) :=
  match c with
  | AddHead x => if decide (x ∈ hdr :: l) then None else Some (x :: l)
  | AddTail x => if decide (x ∈ hdr :: l) then None else Some (l ++ [x])
  | Del x => if decide (x ∈ l) then Some (filter (.≠ x) l) else None
  end.

Fixpoint spec_ring_calls hdr (cs : list ring_call) (l : list K) : option (list K) :=
  match cs with
  | [] => Some l
  | c :: cs' => l' ← spec_ring_call hdr c l; spec_ring_calls hdr cs' l'
  end.

Definition call_node (c : ring_call) : K :=
  match c with AddHead x | AddTail x | Del x => x end.

Lemma filter_delete_nodup l1 x l2 :
  NoDup (l1 ++ x :: l2) → filter (.≠ x) (l1 ++ x :: l2) = l1 ++ l2.
Proof.
  intros Hnd. apply NoDup_app in Hnd as (_ & Hd & Hnd).
  apply NoDup_cons in Hnd as [Hx _].
  rewrite filter_app, filter_cons_False by (intros Hn; by apply Hn).
  assert (∀ l, x ∉ l → filter (.≠ x) l = l) as Hid.
  { induction l as [|y l IH]; intros Hl; [done|].
    rewrite filter_cons_True by set_solver. f_equal. apply IH. set_solver. }
  rewrite !Hid; [done|done|]. intros Hin. apply (Hd x Hin). set_solver.
Qed.

Lemma run_ring_call_spec {RL : RingList} h hdr l (c : ring_call) l' :
  ring h hdr l → is_Some (h !! call_node c) → spec_ring_call hdr c l = Some l' →
  ∃ h', run_ring_call hdr c h = Ok ((), h') ∧ ring h' hdr l' ∧ same_nodes h h' ∧
    frames h h' (call_node c :: hdr :: l).
Proof.
  intros Hr M Hs. destruct c as [x|x|x]; cbn in *; case_decide as Hd; simplify_eq.
  - by apply ring_add_head_law.
  - by apply ring_add_tail_law.
  - apply list_elem_of_split in Hd as (l1 & l2 & ->).
    rewrite filter_delete_nodup by by destruct Hr as [_ [_ ?]%NoDup_cons].
    destruct (ring_del_law _ _ _ _ _ Hr) as (h' & Hrun & Hr' & Hsame & Hf).
    exists h'. split; [done|]. split; [done|]. split; [done|].
    intros hdr' l' Hr2 Hdis. apply Hf; [done|]. intros y Hy. specialize (Hdis y Hy). set_solver.
Qed.

Lemma run_ring_calls_spec {RL : RingList} cs : ∀ h hdr l l',
  ring h hdr l → (∀ c : ring_call, c ∈ cs → is_Some (h !! call_node c)) →
  spec_ring_calls hdr cs l = Some l' →
  ∃ h', run_ring_calls hdr cs h = Ok ((), h') ∧ ring h' hdr l' ∧ same_nodes h h' ∧
    frames h h' (hdr :: l ++ map call_node cs).
Proof.
  induction cs as [|c cs IH]; intros h hdr l l' Hr M Hs; cbn in *.
  - simplify_eq. exists h. split; [done|]. split; [done|]. split; [done|]. by intros ?? ?.
  - destruct (spec_ring_call hdr c l) as [l1|] eqn:E; [|done]. cbn in Hs.
    destruct (run_ring_call_spec h hdr l c l1 Hr) as (h1 & Hrun & Hr1 & Hsame1 & Hf1);
      [apply M; set_solver|done|].
    destruct (IH h1 hdr l1 l' Hr1) as (h2 & Hrun2 & Hr2 & Hsame2 & Hf2);
      [intros c' Hc'; apply Hsame1, M; set_solver|done|].
    exists h2. split; [by rewrite (bind_Ok _ _ _ _ _ Hrun)|]. split; [done|].
    split; [intros y; by rewrite (Hsame2 y)|].
    intros hdr' k Hk Hdis. apply Hf2; [apply Hf1; [done|]|];
      intros y Hy; specialize (Hdis y Hy); [set_solver|].
    assert (∀ z, z ∈ l1 → z ∈ call_node c :: l) as Hsub.
    { intros z Hz. destruct c as [x|x|x]; cbn in *; case_decide; simplify_eq.
      - done.
      - apply elem_of_app in Hz as [Hz|Hz]; set_solver.
      - apply list_elem_of_filter in Hz as [_ Hz]. set_solver. }
    intros Hin. apply Hdis.
    apply elem_of_cons in Hin as [->|Hin]; [set_solver|].
    apply elem_of_app in Hin as [Hin%Hsub|Hin]; set_solver.
Qed.
End dlist.

(** ** Theorems *)

(** C34. The ring lists of [include/list.h] refine lists: from an empty ring, any
    sequence of insertions of free nodes at either end and of deletions of
    linked nodes runs without a fault and links, forwards and backwards, exactly
    the nodes of the list that the sequence builds; a ring that shares no node
    with the calls is not touched. *)
Theorem list_h_refines_list `{Countable K} (cs : list ring_call) (h : gmap K (node K))
    hdr (l : list K) :
  is_Some (h !! hdr) → (∀ c : ring_call, c ∈ cs → is_Some (h !! call_node c)) →
  spec_ring_calls hdr cs [] = Some l →
  ∃ h', (initRingDoubleList (Some hdr);; run_ring_calls (RL := kernel_ring) hdr cs) h
          = Ok ((), h') ∧
    ring h' hdr l ∧ ringListIsEmpty (Some hdr) h' = Ok (bool_decide (l = []), h') ∧
    frames h h' (hdr :: map call_node cs).
Proof.
  intros M Mc Hs. destruct (init_spec h hdr M) as (h1 & Hrun1 & Hr1 & Hsame1 & Hf1).
  destruct (run_ring_calls_spec (RL := kernel_ring) cs h1 hdr [] l Hr1)
    as (h2 & Hrun2 & Hr2 & Hsame2 & Hf2); [intros c Hc; by apply Hsame1, Mc|done|].
  exists h2. split; [by rewrite (bind_Ok _ _ _ _ _ Hrun1)|]. split; [done|].
  split; [by apply isEmpty_spec|].
  intros hdr' k Hk Hd. apply Hf2; [apply Hf1; [done|]|done]. set_solver.
Qed.

(** The lists of [yaffs_list.h] refine lists in the same way. *)
Theorem yaffs_list_refines_list `{Countable K} (cs : list ring_call) (h : gmap K (node K))
    hdr (l : list K) :
  is_Some (h !! hdr) → (∀ c : ring_call, c ∈ cs → is_Some (h !! call_node c)) →
  spec_ring_calls hdr cs [] = Some l →
  ∃ h', (INIT_LIST_HEAD (Some hdr);; run_ring_calls (RL := yaffs_ring) hdr cs) h
          = Ok ((), h') ∧
    ring h' hdr l ∧ list_empty (Some hdr) h' = Ok (bool_decide (l = []), h') ∧
    frames h h' (hdr :: map call_node cs).
Proof.
  intros M Mc Hs. destruct (init_spec h hdr M) as (h1 & Hrun1 & Hr1 & Hsame1 & Hf1).
  destruct (run_ring_calls_spec (RL := yaffs_ring) cs h1 hdr [] l Hr1)
    as (h2 & Hrun2 & Hr2 & Hsame2 & Hf2); [intros c Hc; by apply Hsame1, Mc|done|].
  exists h2. split; [by rewrite (bind_Ok _ _ _ _ _ Hrun1)|]. split; [done|].
  split; [by apply isEmpty_spec|].
  intros hdr' k Hk Hd. apply Hf2; [apply Hf1; [done|]|done]. set_solver.
Qed.

(** ** Witnesses *)

Definition five_nodes : gmap Z (node Z) :=
  list_to_map (map (λ i, (i, Node None None)) [0; 1; 2; 3; 4]).

Example list_h_refines_list_witness :
  ∃ h', (initRingDoubleList (Some 0);;
     run_ring_calls (RL := kernel_ring) 0
       [AddTail 1; AddHead 2; AddTail 3; Del 1; AddHead 1]) five_nodes = Ok ((), h') ∧
    ring h' 0 [1; 2; 3].
Proof.
  destruct (list_h_refines_list [AddTail 1; AddHead 2; AddTail 3; Del 1; AddHead 1]
    five_nodes 0 [1; 2; 3]) as (h' & Hrun & Hr & _).
  - vm_compute. eexists. reflexivity.
  - intros c Hc. repeat (apply elem_of_cons in Hc as [->|Hc]; [vm_compute; eexists; reflexivity|]).
    by apply elem_of_nil in Hc.
  - reflexivity.
  - exists h'. split; [exact Hrun|exact Hr].
Defined.

Example yaffs_list_refines_list_witness :
  ∃ h', (INIT_LIST_HEAD (Some 0);;
     run_ring_calls (RL := yaffs_ring) 0
       [AddHead 4; AddTail 2; Del 4]) five_nodes = Ok ((), h') ∧ ring h' 0 [2].
Proof.
  destruct (yaffs_list_refines_list [AddHead 4; AddTail 2; Del 4] five_nodes 0 [2])
    as (h' & Hrun & Hr & _).
  - vm_compute. eexists. reflexivity.
  - intros c Hc. repeat (apply elem_of_cons in Hc as [->|Hc]; [vm_compute; eexists; reflexivity|]).
    by apply elem_of_nil in Hc.
  - reflexivity.
  - exists h'. split; [exact Hrun|exact Hr].
Defined.
