(* ===== verification/Heap.v ===== *)
(** * The kernel heap

    [Kernel::MM::Heap] of [kernel/src/mm/heap.cpp]: a boundary-tag allocator. Every
    segment of a registered block starts with a descriptor; the descriptors of a block
    are chained by [left] and [right] in the order of their addresses, and the free ones
    are linked in one ring. The memory is typed: [descs] holds the descriptors that lie
    in memory by their addresses, [freeRing] their two ring pointers (and the header's),
    [words] the words of memory outside of the descriptors: the clients' data and the
    word in front of an aligned payload. A null pointer of a chain is [None].

    [HeapLayout] says what it means that the descriptors partition the registered memory,
    [HeapOps] proves what every operation does, [HeapClients] what clients may rely on. *)

From S2P Require Import Prelude Endian DList.

(** ** The state *)

Record desc := Desc {
  seg_left : option Z;
  seg_right : option Z;
  availableSize : Z;
  headerOffset : Z
}.

(** The owners of a [DoubleList]: the header of the heap and the segments. *)
Inductive hkey := FreeHdr | Seg (a : Z).

#[global] Instance hkey_eq_dec : EqDecision hkey.
Proof. solve_decision. Defined.
#[global] Program Instance hkey_countable : Countable hkey :=
  inj_countable' (λ k, match k with FreeHdr => None | Seg a => Some a end)
                 (λ o, match o with None => FreeHdr | Some a => Seg a end) _.
Next Obligation. by intros []. Qed.

Record kheap := KHeap {
  freeRing : gmap hkey (node hkey);
  descs : gmap Z desc;
  words : gmap Z Z;
  _start : Z;
  _end : Z
}.

Definition DESC : Z := 24.

(** The heap before [addHeapBlock]: static storage, all zero. *)
Definition heap0 : kheap := KHeap {[FreeHdr := Node None None]} ∅ ∅ 0 0.

Definition set_freeRing f (h : kheap) := KHeap f (descs h) (words h) (_start h) (_end h).
Definition set_descs D (h : kheap) := KHeap (freeRing h) D (words h) (_start h) (_end h).
Definition set_words w (h : kheap) := KHeap (freeRing h) (descs h) w (_start h) (_end h).
Definition set_start a (h : kheap) := KHeap (freeRing h) (descs h) (words h) a (_end h).
Definition set_end a (h : kheap) := KHeap (freeRing h) (descs h) (words h) (_start h) a.

Definition ring_op {A} (m : prog (gmap hkey (node hkey)) A) : prog kheap A :=
  zoom freeRing set_freeRing m.

(** ** Descriptors in memory *)

Definition desc_at (a : Z) : prog kheap desc := h ← get; defined (descs h !! a).

Definition upd_desc (a : Z) (f : desc → desc) : prog kheap () :=
  d ← desc_at a; modify (λ h, set_descs (<[a := f d]> (descs h)) h).

Definition with_left v d := Desc v (seg_right d) (availableSize d) (headerOffset d).
Definition with_right v d := Desc (seg_left d) v (availableSize d) (headerOffset d).
Definition with_avail n d := Desc (seg_left d) (seg_right d) n (headerOffset d).
Definition with_offset n d := Desc (seg_left d) (seg_right d) (availableSize d) n.

(** The words of [a, a + n) are no longer among [words]. *)
Definition forget_words (a n : Z) (w : gmap Z Z) : gmap Z Z :=
  filter (λ p, ¬ (a ≤ p.1 < a + n)) w.

(** The pointer [a] is used as a descriptor from here on; its fields are assigned
    before they are read. *)
Definition new_desc (a : Z) : prog kheap () :=
  modify (λ h, KHeap (<[Seg a := Node None None]> (freeRing h))
                     (<[a := Desc None None 0 0]> (descs h))
                     (forget_words a DESC (words h)) (_start h) (_end h)).

Fixpoint zero_words (a : Z) (n : nat) (w : gmap Z Z) : gmap Z Z :=
  match n with
  | O => w
  | S n' => <[a := 0]> (zero_words (a + 4) n' w)
  end.

(** [zero_block] of a header of [n] bytes, a multiple of the word size. *)
Definition zero_header (a n : Z) : prog kheap () :=
  modify (λ h, KHeap (delete (Seg a) (freeRing h)) (delete a (descs h))
                     (zero_words a (Z.to_nat (n / 4)) (words h)) (_start h) (_end h)).

(** The caller takes over the header at [a] as well: it is no descriptor any more. *)
Definition give_away (a : Z) : prog kheap () :=
  modify (λ h, KHeap (delete (Seg a) (freeRing h)) (delete a (descs h))
                     (words h) (_start h) (_end h)).

(** The word in front of the payload [p]: the field [headerOffset] of a descriptor that
    ends there, or a word outside of the descriptors. *)
Definition word_before (p : Z) : prog kheap Z :=
  h ← get;
  match descs h !! (p - DESC) with
  | Some d => mret (headerOffset d)
  | None => defined (words h !! (p - 4))
  end.

(** ** The operations *)

(** [if (d->right) d->right->left = v], with [d] given by its field. *)
Definition set_left_of (r : option Z) (v : option Z) : prog kheap () :=
  match r with Some b => upd_desc b (with_left v) | None => mret () end.
Definition set_right_of (r : option Z) (v : option Z) : prog kheap () :=
  match r with Some b => upd_desc b (with_right v) | None => mret () end.

Definition add_free (a : Z) : prog kheap () :=
  d ← desc_at a;
  if PageSize <? availableSize d
  then ring_op (addNodeToRingDoubleListTail (Some FreeHdr) (Some (Seg a)))
  else ring_op (addNodeToRingDoubleListHeader (Some FreeHdr) (Some (Seg a))).

(** [RingList_Foreach] over the free ring: [look] computes the locals of the loop from
    a segment and says whether the loop is left there. *)
Definition foreach_body {A} (look : Z → desc → A → A * bool) (s : option hkey * A)
    : prog kheap ((option hkey * A) + (option Z * A)) :=
  let (p, acc) := s in
  match p with
  | Some FreeHdr => mret (inr (None, acc))
  | Some (Seg a) =>
      d ← desc_at a;
      let (acc', found) := look a d acc in
      if found then mret (inr (Some a, acc'))
      else n ← ring_op (node_of p); mret (inl (next n, acc'))
  | None => fail FUndef
  end.

Definition ring_foreach {A} (look : Z → desc → A → A * bool) (acc : A)
    : prog kheap (option Z * A) :=
  h ← get;
  n ← ring_op (node_of (Some FreeHdr));
  loop (S (size (freeRing h))) (foreach_body look) (next n, acc).

Definition addHeapBlock (from to : Z) : prog kheap () :=
  n ← ring_op (node_of (Some FreeHdr));
  when (bool_decide (next n = None)) (
    ring_op (initRingDoubleList (Some FreeHdr));;
    modify (set_start from);;
    modify (set_end to));;
  h ← get;
  when (from <? _start h) (modify (set_start from));;
  when (_end h <? to) (modify (set_end to));;
  new_desc from;;
  upd_desc from (with_right None);;
  upd_desc from (with_left None);;
  upd_desc from (with_offset DESC);;
  upd_desc from (with_avail (u32 (to - from - DESC)));;
  ring_op (addNodeToRingDoubleListTail (Some FreeHdr) (Some (Seg from))).

(** The rest of [leftSize] bytes behind the payload of [a], which keeps [n] bytes from
    [retAddr] on, becomes a free segment. *)
Definition split_rest (a retAddr n leftSize : Z) : prog kheap () :=
  let b := u32 (retAddr + n) in
  new_desc b;;
  d ← desc_at a;
  upd_desc b (with_right (seg_right d));;
  upd_desc b (with_left (Some a));;
  upd_desc a (with_right (Some b));;
  e ← desc_at b;
  set_left_of (seg_right e) (Some b);;
  upd_desc b (with_avail (u32 (leftSize - DESC)));;
  upd_desc b (with_offset DESC);;
  upd_desc a (with_avail n);;
  add_free b.

Definition allocate (neededSize : Z) : prog kheap Z :=
  let n := alignUp neededSize 4 in
  r ← ring_foreach (λ _ d _, ((), n <=? availableSize d)) ();
  match r.1 with
  | None => mret 0
  | Some a =>
      d ← desc_at a;
      let leftSize := u32 (availableSize d - n) in
      let retAddr := u32 (a + headerOffset d) in
      when (DESC <? leftSize) (split_rest a retAddr n leftSize);;
      ring_op (delNodeFromRingDoubleList (Some (Seg a)));;
      mret retAddr
  end.

(** The locals [leftSize], [retAddr] and [availableSize] of the aligned [allocate]. *)
Record place := Place { p_left : Z; p_ret : Z; p_avail : Z }.

Definition place_of (align : Z) (a : Z) (d : desc) : place :=
  let left := u32 (a + headerOffset d) in
  let ret := alignUp left align in
  Place left ret (u32 (left + availableSize d - ret)).

(** The segment that gives out [p_ret]: a new one cut off the free segment [a], or [a]
    itself with the offset of the payload in its header and in the word in front of the
    payload (which is that field of the header when the header has the usual size). *)
Definition carve_aligned (a : Z) (p : place) : prog kheap Z :=
  let newNode := alignDown (u32 (p_ret p - DESC)) 4 in
  node ← (if p_left p <? newNode then
            new_desc newNode;;
            upd_desc newNode (with_left (Some a));;
            d ← desc_at a;
            upd_desc newNode (with_right (seg_right d));;
            upd_desc a (with_right (Some newNode));;
            e ← desc_at newNode;
            set_left_of (seg_right e) (Some newNode);;
            upd_desc a (with_avail (u32 (newNode - p_left p)));;
            ring_op (set_prev (Some (Seg newNode)) None);;
            ring_op (set_next (Some (Seg newNode)) None);;
            mret newNode
          else
            ring_op (delNodeFromRingDoubleList (Some (Seg a)));;
            mret a);
  upd_desc node (with_avail (p_avail p));;
  upd_desc node (with_offset (u32 (p_ret p - node)));;
  d ← desc_at node;
  when (DESC <? headerOffset d)
    (modify (λ h, set_words (<[p_ret p - 4 := headerOffset d]> (words h)) h));;
  mret node.

Definition allocate_aligned (neededSize neededAlignment : Z) : prog kheap Z :=
  let n := alignUp neededSize 4 in
  r ← ring_foreach (λ a d _, let p := place_of neededAlignment a d in (p, n <=? p_avail p))
                   (Place 0 0 0);
  let p := r.2 in
  match r.1 with
  | None => mret (p_ret p)
  | Some a =>
      node ← carve_aligned a p;
      let leftSize := u32 (p_avail p - n) in
      when (DESC <? leftSize) (split_rest node (p_ret p) n leftSize);;
      mret (p_ret p)
  end.

(** Whether a descriptor is linked in the ring. *)
Definition in_ring (a : Z) : prog kheap (node hkey) := ring_op (node_of (Some (Seg a))).

(** [theNode && 0 != theNode->doubleList.prev] *)
Definition is_free (r : option Z) : prog kheap bool :=
  match r with
  | Some a => n ← in_ring a; mret (bool_decide (prev n ≠ None))
  | None => mret false
  end.

(** The segment [b] is merged into its left neighbour [a] and its header is cleared. *)
Definition absorb (a b : Z) : prog kheap () :=
  e ← desc_at b;
  upd_desc a (with_right (seg_right e));;
  set_left_of (seg_right e) (Some a);;
  upd_desc a (λ d, with_avail (u32 (availableSize d + u32 (availableSize e + headerOffset e))) d);;
  zero_header b (headerOffset e).

Definition free (baseAddr : Z) : prog kheap () :=
  h ← get;
  if (baseAddr =? 0) || (baseAddr <? _start h) || (_end h <? baseAddr) then mret () else
  offset ← word_before baseAddr;
  if offset <? DESC then mret () else
  let node := u32 (baseAddr - offset) in
  l ← in_ring node;
  if bool_decide (next l ≠ None) then mret () else
  d ← desc_at node;
  rfree ← is_free (seg_right d);
  match seg_right d with
  | Some b =>
      when rfree (
        ring_op (delNodeFromRingDoubleList (Some (Seg b)));;
        absorb node b)
  | None => mret ()
  end;;
  d ← desc_at node;
  lfree ← is_free (seg_left d);
  match seg_left d, lfree with
  | Some b, true => absorb b node
  | _, _ =>
      when (DESC <? headerOffset d) (
        upd_desc node (λ d, with_avail (u32 (availableSize d + u32 (headerOffset d - DESC))) d);;
        upd_desc node (with_offset DESC));;
      add_free node
  end.

Definition separateFreeBlock (size0 : Z) : prog kheap Z :=
  let size := alignUp size0 4 in
  r ← ring_foreach (λ _ d _, ((), size <? u32 (availableSize d + DESC))) ();
  match r.1 with
  | None => mret 0
  | Some ret =>
      d ← desc_at ret;
      let leftSize := u32 (u32 (availableSize d + DESC) - size) in
      (if DESC <? leftSize then
         let node := u32 (ret + size) in
         new_desc node;;
         upd_desc node (with_avail (u32 (leftSize - DESC)));;
         upd_desc node (with_offset DESC);;
         upd_desc node (with_right (seg_right d));;
         set_left_of (seg_right d) (Some node);;
         upd_desc node (with_left None);;
         set_right_of (seg_left d) None;;
         add_free node
       else
         set_left_of (seg_right d) None;;
         set_right_of (seg_left d) None);;
      ring_op (delNodeFromRingDoubleList (Some (Seg ret)));;
      give_away ret;;
      mret ret
  end.
