(* ===== verification/HeapLayout.v ===== *)
(** * The partition of the heap's memory

    [layout R D]: the descriptors [D] of [Heap] partition the registered ranges [R] and are
    chained in the order of their addresses. Each change that an operation makes to the
    descriptors (a split, a new offset of the payload, a merge of neighbours, a new range, a
    segment given away) keeps it. *)

From S2P Require Import Prelude Heap.

(** ** The partition of the registered memory *)

Definition dend (a : Z) (d : desc) : Z := a + headerOffset d + availableSize d.

Implicit Types (R : list (Z * Z)) (D : gmap Z desc) (a b c x : Z) (d e : desc).

(** The ranges of memory that the heap may use. *)
Record ranges_ok R : Prop := {
  range_bounds f t : (f, t) ∈ R → 0 < f ∧ f < t < 2 ^ 32 ∧ (4 | f) ∧ (4 | t);
  range_apart f t f' t' : (f, t) ∈ R → (f', t') ∈ R → f = f' ∧ t = t' ∨ t ≤ f' ∨ t' ≤ f
}.

Definition seg_ok a d : Prop :=
  (4 | a) ∧ (4 | headerOffset d) ∧ (4 | availableSize d) ∧ DESC ≤ headerOffset d ∧ 0 < availableSize d.

(** The segments partition the ranges. *)
Record outline R D : Prop := {
  lay_ranges : ranges_ok R;
  lay_seg a d : D !! a = Some d → seg_ok a d;
  lay_apart a d b e : D !! a = Some d → D !! b = Some e → a < b → dend a d ≤ b;
  lay_in a d : D !! a = Some d → ∃ f t, (f, t) ∈ R ∧ f ≤ a ∧ dend a d ≤ t;
  lay_cover f t x : (f, t) ∈ R → f ≤ x < t → ∃ a d, D !! a = Some d ∧ a ≤ x < dend a d
}.

(** Every range is one chain. *)
Record chained R D : Prop := {
  lay_right a d : D !! a = Some d →
    match seg_right d with
    | Some b => b = dend a d ∧ ∃ e, D !! b = Some e ∧ seg_left e = Some a
    | None => ∃ f, (f, dend a d) ∈ R
    end;
  lay_left a d : D !! a = Some d →
    match seg_left d with
    | Some b => ∃ e, D !! b = Some e ∧ seg_right e = Some a
    | None => ∃ t, (a, t) ∈ R
    end;
  lay_inner a d : D !! a = Some d → is_Some (seg_right d) → ∃ f t, (f, t) ∈ R ∧ f ≤ a ∧ dend a d < t
}.

Definition layout R D : Prop := outline R D ∧ chained R D.

Lemma lay_bounds R D a d : outline R D → D !! a = Some d →
  0 < a ∧ 24 ≤ headerOffset d ∧ 0 < availableSize d ∧ dend a d < 2 ^ 32.
Proof.
  intros HL Ha. destruct (lay_in _ _ HL a d Ha) as (f & t & HR & Hf & Ht).
  pose proof (range_bounds _ (lay_ranges _ _ HL) f t HR). pose proof (lay_seg _ _ HL a d Ha) as Hs.
  unfold seg_ok, DESC in Hs. lia.
Qed.

(** No descriptor lies inside of a segment. *)
Lemma lay_inside R D a d x : outline R D → D !! a = Some d → a < x < dend a d → D !! x = None.
Proof.
  intros HL Ha Hx. destruct (D !! x) as [e|] eqn:E; [|done].
  pose proof (lay_apart _ _ HL a d x e Ha E). lia.
Qed.

Definition fix_left (r v : option Z) D : gmap Z desc :=
  match r with Some b => alter (with_left v) b D | None => D end.
Definition fix_right (r v : option Z) D : gmap Z desc :=
  match r with Some b => alter (with_right v) b D | None => D end.

Lemma fix_left_lookup r v D x :
  fix_left r v D !! x = if decide (r = Some x) then with_left v <$> D !! x else D !! x.
Proof.
  destruct r as [b|]; cbn; [|by rewrite decide_False by done].
  destruct (decide (b = x)) as [->|Hne].
  - by rewrite lookup_alter_eq, decide_True.
  - rewrite lookup_alter_ne, decide_False by congruence. done.
Qed.

Lemma fix_right_lookup r v D x :
  fix_right r v D !! x = if decide (r = Some x) then with_right v <$> D !! x else D !! x.
Proof.
  destruct r as [b|]; cbn; [|by rewrite decide_False by done].
  destruct (decide (b = x)) as [->|Hne].
  - by rewrite lookup_alter_eq, decide_True.
  - rewrite lookup_alter_ne, decide_False by congruence. done.
Qed.

Lemma dend_with_left v a d : dend a (with_left v d) = dend a d.
Proof. done. Qed.
Lemma dend_with_right v a d : dend a (with_right v d) = dend a d.
Proof. done. Qed.

Lemma dend_if (P : Prop) `{Decision P} v a d : dend a (if decide P then with_left v d else d) = dend a d.
Proof. by case_decide. Qed.
Lemma seg_right_if (P : Prop) `{Decision P} v d :
  seg_right (if decide P then with_left v d else d) = seg_right d.
Proof. by case_decide. Qed.

Lemma lay_other R D a d x e : outline R D → D !! a = Some d → D !! x = Some e → x ≠ a →
  x < a ∧ dend x e ≤ a ∨ a < x ∧ dend a d ≤ x.
Proof.
  intros HL Ha Hx Hne. destruct (Z.lt_ge_cases x a).
  - left. split; [done|]. by apply (lay_apart _ _ HL x e a d).
  - right. split; [lia|]. apply (lay_apart _ _ HL a d x e); [done..|lia].
Qed.

(** [a] is split: the segment [b] takes the end of its payload. *)
Definition split_map a b av ho d D : gmap Z desc :=
  <[a := Desc (seg_left d) (Some b) (b - a - headerOffset d) (headerOffset d)]>
    (<[b := Desc (Some a) (seg_right d) av ho]> (fix_left (seg_right d) (Some b) D)).

(** The outline of a segment that a change of the map keeps, its links apart. *)
Lemma split_map_lookup a b av ho d D x y :
  split_map a b av ho d D !! x = Some y ↔
  (x = a ∧ y = Desc (seg_left d) (Some b) (b - a - headerOffset d) (headerOffset d)) ∨
  (x ≠ a ∧ x = b ∧ y = Desc (Some a) (seg_right d) av ho) ∨
  (x ≠ a ∧ x ≠ b ∧ ∃ y0, D !! x = Some y0 ∧
    y = if decide (seg_right d = Some x) then with_left (Some b) y0 else y0).
Proof.
  unfold split_map. rewrite lookup_insert_Some, lookup_insert_Some, fix_left_lookup.
  case_decide; [rewrite fmap_Some|]; split; intros HH; naive_solver.
Qed.

(** A change of the segments between [lo] and [hi] keeps the partition when the new
    segments there partition the same addresses. *)
Section outline_change.
Context (R : list (Z * Z)) (D D' : gmap Z desc) (lo hi : Z).

Record rearranged : Prop := {
  re_range : ∃ f t, (f, t) ∈ R ∧ f ≤ lo ∧ hi ≤ t;
  re_old x y : D !! x = Some y → lo ≤ x ∧ dend x y ≤ hi ∨ dend x y ≤ lo ∨ hi ≤ x;
  re_new x y : D' !! x = Some y →
    lo ≤ x ∧ dend x y ≤ hi ∧ seg_ok x y ∨
    ∃ y0, D !! x = Some y0 ∧ headerOffset y = headerOffset y0 ∧ availableSize y = availableSize y0 ∧
      ¬ (lo ≤ x < hi);
  re_keep x y0 : D !! x = Some y0 → ¬ (lo ≤ x < hi) → ∃ y, D' !! x = Some y ∧ dend x y = dend x y0;
  re_apart x y x' y' : D' !! x = Some y → D' !! x' = Some y' → lo ≤ x → x < x' → x' < hi → dend x y ≤ x';
  re_cover z : lo ≤ z < hi → ∃ x y, D' !! x = Some y ∧ x ≤ z < dend x y
}.

Lemma outline_rearranged : outline R D → rearranged → outline R D'.
Proof.
  intros HL HC. assert (∀ x y, D' !! x = Some y → ¬ (lo ≤ x < hi) →
    ∃ y0, D !! x = Some y0 ∧ headerOffset y = headerOffset y0 ∧ availableSize y = availableSize y0) as Hout.
  { intros x y Hx Hn. destruct (re_new HC x y Hx) as [(? & ? & Hs)|(y0 & ? & ? & ? & _)]; [|by exists y0].
    unfold seg_ok, dend, DESC in *. lia. }
  split.
  - by apply (lay_ranges R D).
  - intros x y Hx. destruct (re_new HC x y Hx) as [(_ & _ & ?)|(y0 & Hy & E1 & E2 & _)]; [done|].
    unfold seg_ok. rewrite E1, E2. by apply (lay_seg _ _ HL).
  - intros x y x' y' Hx Hx' Hlt.
    pose proof (re_new HC x y Hx) as Nx. pose proof (re_new HC x' y' Hx') as Nx'.
    destruct Nx as [(? & ? & Hs)|(y0 & Hy & ? & ? & Hn)], Nx' as [(? & ? & Hs')|(y0' & Hy' & ? & ? & Hn')].
    + apply (re_apart HC x y x' y'); [done..|]. unfold seg_ok, dend, DESC in *. lia.
    + unfold seg_ok, dend, DESC in *. lia.
    + destruct (re_old HC x y0 Hy); unfold seg_ok, dend, DESC in *; lia.
    + replace (dend x y) with (dend x y0) by (unfold dend; congruence).
      by apply (lay_apart _ _ HL x y0 x' y0').
  - intros x y Hx. destruct (re_new HC x y Hx) as [(? & ? & _)|(y0 & Hy & E1 & E2 & _)].
    + destruct (re_range HC) as (f & t & ? & ? & ?). exists f, t. split_and!; [done|lia..].
    + unfold dend. rewrite E1, E2. by apply (lay_in _ _ HL).
  - intros f t z HR Hz. destruct (decide (lo ≤ z < hi)) as [Hin|Hout']; [by apply (re_cover HC)|].
    destruct (lay_cover _ _ HL f t z HR Hz) as (c & e & Hc & Hce).
    destruct (re_old HC c e Hc) as [?|Hc']; [lia|].
    destruct (re_keep HC c e Hc) as (y & Hy & E); [unfold dend in *; pose proof (lay_seg _ _ HL c e Hc) as Hs; unfold seg_ok, DESC in Hs; lia|].
    exists c, y. split; [done|lia].
Qed.
End outline_change.

(** ** Splitting a segment *)

Section split.
Context (R : list (Z * Z)) (D : gmap Z desc) (a b av ho : Z) (d : desc).
Context (HL : layout R D) (Ha : D !! a = Some d).
Context (Hb : a + headerOffset d < b) (Hend : b + ho + av = dend a d) (Hho : DESC ≤ ho) (Hav : 0 < av).
Context (Hb4 : (4 | b)) (Hho4 : (4 | ho)).
#[local] Set Default Proof Using "All".

Definition split_lhs := Desc (seg_left d) (Some b) (b - a - headerOffset d) (headerOffset d).
Definition split_rhs := Desc (Some a) (seg_right d) av ho.
#[local] Abbreviation D' := (split_map a b av ho d D).

Lemma split_inv x y : D' !! x = Some y ↔
  x = a ∧ y = split_lhs ∨ x = b ∧ y = split_rhs ∨ x ≠ a ∧ x ≠ b ∧ ∃ y0, D !! x = Some y0 ∧
    y = if decide (seg_right d = Some x) then with_left (Some b) y0 else y0.
Proof.
  pose proof (lay_bounds R D a d (proj1 HL) Ha). assert (a ≠ b) by (unfold DESC in *; lia).
  rewrite split_map_lookup. unfold split_lhs, split_rhs. naive_solver.
Qed.

Lemma split_fresh : D !! b = None.
Proof.
  pose proof (lay_bounds R D a d (proj1 HL) Ha).
  apply (lay_inside R D a d); [apply HL|done|unfold DESC, dend in *; lia].
Qed.

Lemma split_outline : outline R D'.
Proof.
  destruct HL as [HO _]. pose proof (lay_bounds R D a d HO Ha) as (Hpos & Hh & Hv & _).
  destruct (lay_seg _ _ HO a d Ha) as (Ha4 & Hh4 & Hv4 & _ & _). unfold DESC in Hho, Hh.
  assert (dend a split_lhs = b) as E1 by (unfold dend; cbn; lia).
  assert (dend b split_rhs = dend a d) as E2 by (unfold dend in *; cbn; lia).
  assert (D' !! a = Some split_lhs) as G1 by (apply split_inv; by left).
  assert (D' !! b = Some split_rhs) as G2 by (apply split_inv; right; by left).
  apply (outline_rearranged R D D' a (dend a d)); [done|]. split.
  - apply (lay_in _ _ HO a d Ha).
  - intros x y Hx. destruct (decide (x = a)) as [->|Hne]; [simplify_eq; lia|].
    pose proof (lay_other R D a d x y HO Ha Hx Hne). lia.
  - intros x y Hx. apply split_inv in Hx as [[-> ->]|[[-> ->]|(Hna & Hnb & y0 & Hy & ->)]].
    + left. rewrite E1. unfold seg_ok, DESC. cbn. split_and!; try done; try lia.
      apply Z.divide_sub_r; [by apply Z.divide_sub_r|done].
    + left. rewrite E2. unfold seg_ok, DESC. cbn. split_and!; try done; try lia.
      replace av with (dend a d - b - ho) by lia. unfold dend.
      repeat first [apply Z.divide_sub_r|apply Z.divide_add_r]; done.
    + right. exists y0. pose proof (lay_other R D a d x y0 HO Ha Hy Hna).
      split_and!; [done|by case_decide..|lia].
  - intros x y0 Hx Hn. eexists. split; [apply split_inv; do 2 right; split_and!; [lia..|eauto]|].
    by rewrite dend_if.
  - intros x y x' y' Hx Hx' Hlo Hlt Hhi.
    apply split_inv in Hx as [[-> ->]|[[-> ->]|(Hna & Hnb & y0 & Hy & ->)]];
      apply split_inv in Hx' as [[-> ->]|[[-> ->]|(Hna' & Hnb' & y0' & Hy' & ->)]]; try lia.
    + pose proof (lay_other R D a d x' y0' HO Ha Hy' Hna'). lia.
    + pose proof (lay_other R D a d x' y0' HO Ha Hy' Hna'). lia.
    + pose proof (lay_other R D a d x y0 HO Ha Hy Hna). lia.
    + pose proof (lay_other R D a d x y0 HO Ha Hy Hna). lia.
  - intros z Hz. destruct (Z.lt_ge_cases z b); [exists a, split_lhs|exists b, split_rhs]; (split; [done|lia]).
Qed.

Lemma split_chained : chained R D'.
Proof.
  destruct HL as [HO HC]. pose proof (lay_bounds R D a d HO Ha) as (Hpos & Hh & Hv & _).
  pose proof split_fresh as Hnb. unfold DESC in *.
  assert (D' !! a = Some split_lhs) as G1 by (apply split_inv; by left).
  assert (D' !! b = Some split_rhs) as G2 by (apply split_inv; right; by left).
  pose proof (lay_right _ _ HC a d Ha) as Har.
  assert (b < dend a d) as Hbd by lia.
  split; intros x y Hxy; apply split_inv in Hxy as [[-> ->]|[[-> ->]|(Hxa & Hxb & y0 & Hy & ->)]]; cbn.
  - split; [unfold dend; cbn; lia|]. by exists split_rhs.
  - replace (dend b split_rhs) with (dend a d) by (unfold dend in *; cbn; lia).
    destruct (seg_right d) as [r|] eqn:Er; [|done]. destruct Har as (-> & e & He & Hl).
    split; [done|]. exists (with_left (Some b) e). split; [|done].
    apply split_inv. do 2 right. split_and!; [unfold dend in *; lia..|]. exists e. by rewrite decide_True.
  - rewrite seg_right_if, dend_if. pose proof (lay_right _ _ HC x y0 Hy) as Hr.
    destruct (seg_right y0) as [z|] eqn:Ez; [|done]. destruct Hr as (-> & e & He & Hl). split; [done|].
    destruct (decide (dend x y0 = a)) as [Ea|Hna].
    + exists split_lhs. rewrite Ea in *. simplify_eq. done.
    + destruct (decide (seg_right d = Some (dend x y0))) as [Er|Hnr].
      { exfalso. rewrite Er in Har. destruct Har as (_ & e' & He' & Hl'). congruence. }
      exists e. split; [|done]. apply split_inv. do 2 right. split_and!; [done|congruence|].
      exists e. by rewrite decide_False.
  - pose proof (lay_left _ _ HC a d Ha) as Hl. destruct (seg_left d) as [z|] eqn:Ez; [|done].
    destruct Hl as (e & He & Hr). pose proof (lay_right _ _ HC z e He) as Hz. rewrite Hr in Hz.
    destruct Hz as [Hza _]. pose proof (lay_bounds _ _ z e HO He).
    eexists. split; [apply split_inv; do 2 right; split_and!; [unfold dend in *; lia|congruence|]; eauto|].
    by rewrite seg_right_if.
  - by exists split_lhs.
  - case_decide as Hr; cbn; [by exists split_rhs|].
    pose proof (lay_left _ _ HC x y0 Hy) as Hl. destruct (seg_left y0) as [z|] eqn:Ez; [|done].
    destruct Hl as (e & He & Hre). assert (z ≠ a) by congruence.
    eexists. split; [apply split_inv; do 2 right; split_and!; [done|congruence|]; eauto|].
    by rewrite seg_right_if.
  - intros _. destruct (lay_in _ _ HO a d Ha) as (f & t & ? & ? & ?). exists f, t.
    split_and!; [done..|]. replace (dend a split_lhs) with b by (unfold dend; cbn; lia). lia.
  - intros Hs. destruct (lay_inner _ _ HC a d Ha Hs) as (f & t & ? & ? & ?). exists f, t.
    split_and!; [done|lia|]. unfold dend in *; cbn; lia.
  - rewrite seg_right_if, dend_if. by apply (lay_inner _ _ HC).
Qed.

Lemma layout_split : layout R D'.
Proof. split; [apply split_outline|apply split_chained]. Qed.
End split.

(** ** Resizing a header *)

Section resize.
Context (R : list (Z * Z)) (D : gmap Z desc) (a av ho : Z) (d : desc).
Context (HL : layout R D) (Ha : D !! a = Some d).
Context (Hend : ho + av = headerOffset d + availableSize d) (Hho : DESC ≤ ho) (Hav : 0 < av) (Hho4 : (4 | ho)).
#[local] Set Default Proof Using "All".

Lemma layout_resize : layout R (<[a := Desc (seg_left d) (seg_right d) av ho]> D).
Proof.
  set (d' := Desc (seg_left d) (seg_right d) av ho). destruct HL as [HO HC].
  assert (dend a d' = dend a d) as E by (unfold dend; cbn; lia).
  destruct (lay_seg _ _ HO a d Ha) as (Ha4 & Hh4 & Hv4 & _ & _).
  pose proof (lay_bounds R D a d HO Ha) as (Hpos & Hh & Hv & _). unfold DESC in *.
  split.
  - apply (outline_rearranged R D _ a (dend a d)); [done|]. split.
    + apply (lay_in _ _ HO a d Ha).
    + intros x y Hx. destruct (decide (x = a)) as [->|Hne]; [simplify_eq; lia|].
      pose proof (lay_other R D a d x y HO Ha Hx Hne). lia.
    + intros x y [[<- <-]|[Hne Hx]]%lookup_insert_Some.
      * left. rewrite E. unfold seg_ok, DESC. cbn. split_and!; try done; try lia.
        replace av with (headerOffset d + availableSize d - ho) by lia.
        apply Z.divide_sub_r; [by apply Z.divide_add_r|done].
      * right. exists y. pose proof (lay_other R D a d x y HO Ha Hx (not_eq_sym Hne)). split_and!; [done..|lia].
    + intros x y0 Hx Hn. exists y0. rewrite lookup_insert_ne; [done|]. unfold dend in *. lia.
    + intros x y x' y' Hx Hx' Hlo Hlt Hhi. apply lookup_insert_Some in Hx' as [[-> _]|[Hne Hx']]; [lia|].
      pose proof (lay_other R D a d x' y' HO Ha Hx' (not_eq_sym Hne)). lia.
    + intros z Hz. exists a, d'. rewrite lookup_insert_eq. by rewrite E.
  - assert (∀ z e, D !! z = Some e → ∃ e', <[a := d']> D !! z = Some e' ∧
      seg_left e' = seg_left e ∧ seg_right e' = seg_right e) as Hl.
    { intros z e He. destruct (decide (z = a)) as [->|Hne].
      - exists d'. rewrite lookup_insert_eq. by simplify_eq.
      - exists e. by rewrite lookup_insert_ne. }
    assert (∀ x y, <[a := d']> D !! x = Some y → ∃ y0, D !! x = Some y0 ∧
      seg_left y = seg_left y0 ∧ seg_right y = seg_right y0 ∧ dend x y = dend x y0) as Hinv.
    { intros x y [[<- <-]|[Hne Hx]]%lookup_insert_Some; [by exists d|by exists y]. }
    split; intros x y (y0 & Hy & E1 & E2 & E3)%Hinv; rewrite ?E1, ?E2, ?E3.
    + pose proof (lay_right _ _ HC x y0 Hy) as Hr. destruct (seg_right y0); [|done].
      destruct Hr as (Hd & e & He & ?). destruct (Hl _ e He) as (e' & ? & ? & ?).
      split; [done|]. exists e'. split; [done|congruence].
    + pose proof (lay_left _ _ HC x y0 Hy) as Hr. destruct (seg_left y0); [|done].
      destruct Hr as (e & He & ?). destruct (Hl _ e He) as (e' & ? & ? & ?).
      exists e'. split; [done|congruence].
    + by apply (lay_inner _ _ HC).
Qed.
End resize.

(** ** Merging two segments *)

Definition merge_map a b d e D : gmap Z desc :=
  fix_left (seg_right e) (Some a)
    (<[a := Desc (seg_left d) (seg_right e) (availableSize d + (availableSize e + headerOffset e)) (headerOffset d)]>
      (delete b D)).

Section merge.
Context (R : list (Z * Z)) (D : gmap Z desc) (a b : Z) (d e : desc).
Context (HL : layout R D) (Ha : D !! a = Some d) (Hb : D !! b = Some e) (Hab : seg_right d = Some b).
#[local] Set Default Proof Using "All".

Definition merged :=
  Desc (seg_left d) (seg_right e) (availableSize d + (availableSize e + headerOffset e)) (headerOffset d).
#[local] Abbreviation D' := (merge_map a b d e D).

Lemma merge_facts : b = dend a d ∧ seg_left e = Some a ∧ a < b ∧ dend a merged = dend b e ∧
  seg_right e ≠ Some a ∧ seg_right e ≠ Some b.
Proof.
  destruct HL as [HO HC]. pose proof (lay_right _ _ HC a d Ha) as Hr. rewrite Hab in Hr.
  destruct Hr as (-> & e' & He & Hl). simplify_eq.
  pose proof (lay_bounds R D a d HO Ha). pose proof (lay_bounds R D _ e HO Hb).
  split_and!; [done|done|unfold dend; lia|unfold dend; cbn; lia|..].
  - intros Hra. pose proof (lay_right _ _ HC _ e Hb) as Hz. rewrite Hra in Hz. unfold dend in *. lia.
  - intros Hra. pose proof (lay_right _ _ HC _ e Hb) as Hz. rewrite Hra in Hz. unfold dend in *. lia.
Qed.

Lemma merge_inv x y : D' !! x = Some y ↔
  x = a ∧ y = merged ∨ x ≠ a ∧ x ≠ b ∧ ∃ y0, D !! x = Some y0 ∧
    y = if decide (seg_right e = Some x) then with_left (Some a) y0 else y0.
Proof.
  pose proof merge_facts as (_ & _ & _ & _ & Hna & Hnb). unfold merge_map, merged. rewrite fix_left_lookup.
  case_decide as Hr.
  - rewrite lookup_insert_ne, lookup_delete_ne by congruence. rewrite fmap_Some. naive_solver.
  - rewrite lookup_insert_Some, lookup_delete_Some. naive_solver.
Qed.

Lemma merge_outside x y : D !! x = Some y → x ≠ a → x ≠ b → x < a ∧ dend x y ≤ a ∨ b < x ∧ dend b e ≤ x.
Proof.
  intros Hx Hxa Hxb. destruct HL as [HO HC]. pose proof merge_facts as (Eb & _ & Hlt & _).
  pose proof (lay_other R D a d x y HO Ha Hx Hxa). pose proof (lay_other R D b e x y HO Hb Hx Hxb).
  pose proof (lay_bounds R D x y HO Hx). unfold dend in *. lia.
Qed.

Lemma merge_outline : outline R D'.
Proof.
  destruct HL as [HO HC]. pose proof merge_facts as (Eb & _ & Hlt & Em & _).
  pose proof (lay_bounds R D a d HO Ha). pose proof (lay_bounds R D b e HO Hb).
  destruct (lay_seg _ _ HO a d Ha) as (Ha4 & Hh4 & Hv4 & _ & _).
  destruct (lay_seg _ _ HO b e Hb) as (Hb4 & Hhe4 & Hve4 & _ & _).
  assert (D' !! a = Some merged) as G1 by (apply merge_inv; by left).
  apply (outline_rearranged R D D' a (dend b e)); [done|]. split.
  - destruct (lay_inner _ _ HC a d Ha) as (f & t & HR & Hf & Ht); [by rewrite Hab|].
    exists f, t. split_and!; [done..|].
    destruct (lay_in _ _ HO b e Hb) as (f' & t' & HR' & Hf' & Ht').
    pose proof (range_apart _ (lay_ranges _ _ HO) f t f' t' HR HR'). unfold dend in *. lia.
  - intros x y Hx. destruct (decide (x = a)) as [->|Hna]; [simplify_eq; unfold dend in *; lia|].
    destruct (decide (x = b)) as [->|Hnb]; [simplify_eq; lia|].
    pose proof (merge_outside x y Hx Hna Hnb). lia.
  - intros x y Hx. apply merge_inv in Hx as [[-> ->]|(Hna & Hnb & y0 & Hy & ->)].
    + left. rewrite Em. unfold seg_ok, DESC. cbn. split_and!; try done; try lia.
      by repeat apply Z.divide_add_r.
    + right. exists y0. pose proof (merge_outside x y0 Hy Hna Hnb). split_and!; [done|by case_decide..|lia].
  - intros x y0 Hx Hn. eexists. split; [apply merge_inv; right; split_and!; [unfold dend in *; lia..|eauto]|].
    by rewrite dend_if.
  - intros x y x' y' Hx Hx' Hlo Hlt' Hhi. apply merge_inv in Hx' as [[-> ->]|(Hna & Hnb & y0 & Hy & ->)]; [lia|].
    pose proof (merge_outside x' y0 Hy Hna Hnb). unfold dend in *. lia.
  - intros z Hz. exists a, merged. by rewrite Em.
Qed.

Lemma merge_chained : chained R D'.
Proof.
  destruct HL as [HO HC]. pose proof merge_facts as (Eb & Hel & Hlt & Em & Hra & Hrb).
  assert (D' !! a = Some merged) as G1 by (apply merge_inv; by left).
  pose proof (lay_right _ _ HC b e Hb) as Hbr.
  split; intros x y Hxy; apply merge_inv in Hxy as [[-> ->]|(Hxa & Hxb & y0 & Hy & ->)]; cbn.
  - rewrite Em. destruct (seg_right e) as [r|] eqn:Er; [|done]. destruct Hbr as (-> & e' & He & Hl).
    split; [done|]. exists (with_left (Some a) e'). split; [|done].
    apply merge_inv. right. split_and!; [congruence..|]. exists e'. by rewrite Er, decide_True.
  - rewrite seg_right_if, dend_if. pose proof (lay_right _ _ HC x y0 Hy) as Hr.
    destruct (seg_right y0) as [z|] eqn:Ez; [|done]. destruct Hr as (-> & e' & He & Hl). split; [done|].
    destruct (decide (dend x y0 = a)) as [Ea|Hna]; [exists merged; rewrite Ea in *; by simplify_eq|].
    exists e'. split; [|done]. apply merge_inv. right. split_and!; [done|congruence|].
    exists e'. rewrite decide_False; [done|]. intros Er. rewrite Er in Hbr.
    destruct Hbr as (_ & e2 & He2 & Hl2). congruence.
  - pose proof (lay_left _ _ HC a d Ha) as Hl. destruct (seg_left d) as [z|] eqn:Ez; [|done].
    destruct Hl as (e' & He & Hr). pose proof (lay_right _ _ HC z e' He) as Hz. rewrite Hr in Hz.
    destruct Hz as [Hza _]. pose proof (lay_bounds _ _ z e' HO He).
    eexists. split; [apply merge_inv; right; split_and!; [unfold dend in *; lia..|]; eauto|].
    by rewrite seg_right_if.
  - case_decide as Hr; cbn; [by exists merged|].
    pose proof (lay_left _ _ HC x y0 Hy) as Hl. destruct (seg_left y0) as [z|] eqn:Ez; [|done].
    destruct Hl as (e' & He & Hre). assert (z ≠ a) by congruence. assert (z ≠ b) by congruence.
    eexists. split; [apply merge_inv; right; split_and!; [done..|]; eauto|].
    by rewrite seg_right_if.
  - intros Hs. rewrite Em. destruct (lay_inner _ _ HC b e Hb Hs) as (f' & t' & HR' & Hf' & Ht').
    destruct (lay_inner _ _ HC a d Ha) as (f & t & HR & Hf & Ht); [by rewrite Hab|].
    pose proof (range_apart _ (lay_ranges _ _ HO) f t f' t' HR HR'). pose proof (lay_bounds R D b e HO Hb).
    exists f, t. split_and!; [done|done|]. unfold dend in *. lia.
  - rewrite seg_right_if, dend_if. by apply (lay_inner _ _ HC).
Qed.

Lemma layout_merge : layout R D'.
Proof. split; [apply merge_outline|apply merge_chained]. Qed.
End merge.

(** ** Registering a range *)

Section register.
Context (R : list (Z * Z)) (D : gmap Z desc) (from to : Z).
Context (HL : layout R D) (H0 : 0 < from) (Hsize : from + DESC < to) (Hto : to < 2 ^ 32).
Context (Hf4 : (4 | from)) (Ht4 : (4 | to)).
Context (Hfree : ∀ f t, (f, t) ∈ R → t ≤ from ∨ to ≤ f).
#[local] Set Default Proof Using "All".

Definition new_range : desc := Desc None None (to - from - DESC) DESC.
#[local] Abbreviation D' := (<[from := new_range]> D).

Lemma register_outside x y : D !! x = Some y → dend x y ≤ from ∨ to ≤ x.
Proof.
  intros Hx. destruct HL as [HO HC]. destruct (lay_in _ _ HO x y Hx) as (f & t & HR & ? & ?).
  pose proof (Hfree f t HR). lia.
Qed.

Lemma register_new x y : D !! x = Some y → from ≠ x.
Proof.
  intros E <-. pose proof (register_outside from y E). pose proof (lay_bounds R D from y (proj1 HL) E).
  unfold dend, DESC in *. lia.
Qed.

Lemma register_outline : outline ((from, to) :: R) D'.
Proof.
  destruct HL as [HO HC]. assert (dend from new_range = to) as E by (unfold dend; cbn; unfold DESC in *; lia).
  unfold DESC in Hsize. split.
  - split.
    + intros f t [[= -> ->]|HR]%elem_of_cons; [split_and!; (done||lia)|by apply (range_bounds _ (lay_ranges _ _ HO))].
    + intros f t f' t' [[= -> ->]|HR]%elem_of_cons [[= -> ->]|HR']%elem_of_cons;
        [lia|destruct (Hfree f' t' HR'); lia|destruct (Hfree f t HR); lia|].
      by apply (range_apart _ (lay_ranges _ _ HO)).
  - intros x y [[<- <-]|[_ Hx]]%lookup_insert_Some; [|by apply (lay_seg _ _ HO)].
    unfold seg_ok, new_range, DESC. cbn. split_and!; try lia; [done|by exists 6|].
    apply Z.divide_sub_r; [by apply Z.divide_sub_r|by exists 6].
  - intros x y x' y' [[<- <-]|[_ Hx]]%lookup_insert_Some [[<- <-]|[_ Hx']]%lookup_insert_Some Hlt; try lia.
    + rewrite E. pose proof (register_outside x' y' Hx'). pose proof (lay_bounds R D x' y' HO Hx').
      unfold dend in *. lia.
    + pose proof (register_outside x y Hx). lia.
    + by apply (lay_apart _ _ HO x y x' y').
  - intros x y [[<- <-]|[_ Hx]]%lookup_insert_Some.
    + exists from, to. rewrite E. split_and!; [by left|lia..].
    + destruct (lay_in _ _ HO x y Hx) as (f & t & ? & ? & ?). exists f, t. split_and!; [by right|done..].
  - intros f t x [[= -> ->]|HR]%elem_of_cons Hx.
    + exists from, new_range. rewrite lookup_insert_eq. by rewrite E.
    + destruct (lay_cover _ _ HO f t x HR Hx) as (c & e & Hc & ?). exists c, e. split; [|done].
      rewrite lookup_insert_ne; [done|]. by apply (register_new c e).
Qed.

Lemma layout_register : layout ((from, to) :: R) D'.
Proof.
  split; [apply register_outline|]. destruct HL as [HO HC].
  assert (∀ z e, D !! z = Some e → D' !! z = Some e) as Hk.
  { intros z e Hz. rewrite lookup_insert_ne; [done|]. by apply (register_new z e). }
  split; intros x y [[<- <-]|[_ Hx]]%lookup_insert_Some; cbn.
  - exists from. replace (dend from new_range) with to by (unfold dend; cbn; lia). by left.
  - pose proof (lay_right _ _ HC x y Hx) as Hr. destruct (seg_right y) as [b|].
    + destruct Hr as (-> & e & He & ?). split; [done|]. exists e. auto.
    + destruct Hr as [f ?]. exists f. by right.
  - exists to. by left.
  - pose proof (lay_left _ _ HC x y Hx) as Hr. destruct (seg_left y) as [b|].
    + destruct Hr as (e & He & ?). exists e. auto.
    + destruct Hr as [f ?]. exists f. by right.
  - intros [? [=]].
  - intros Hs. destruct (lay_inner _ _ HC x y Hx Hs) as (f & t & ? & ? & ?). exists f, t.
    split_and!; [by right|done..].
Qed.
End register.

(** ** Giving a segment away *)

(** The ranges without [a, q). *)
Definition cut_range a (q : Z) R : list (Z * Z) :=
  R ≫= λ r, if (r.1 <=? a) && (a <? r.2)
            then (if r.1 <? a then [(r.1, a)] else []) ++ (if q <? r.2 then [(q, r.2)] else [])
            else [r].

Lemma cut_range_elem a q R f' t' : (f', t') ∈ cut_range a q R ↔
  ∃ f t, (f, t) ∈ R ∧ (¬ (f ≤ a < t) ∧ f' = f ∧ t' = t ∨
    f ≤ a < t ∧ (f' = f ∧ t' = a ∧ f < a ∨ f' = q ∧ t' = t ∧ q < t)).
Proof.
  unfold cut_range. rewrite list_elem_of_bind. split.
  - intros ([f t] & Hin & HR). exists f, t. split; [done|]. cbn in Hin.
    destruct (Z.leb_spec f a), (Z.ltb_spec a t); cbn in Hin;
      try (apply list_elem_of_singleton in Hin; simplify_eq; left; lia).
    right. split; [done|]. apply elem_of_app in Hin as [Hin|Hin].
    + destruct (Z.ltb_spec f a); set_solver.
    + destruct (Z.ltb_spec q t); set_solver.
  - intros (f & t & HR & Hc). exists (f, t). split; [|done]. cbn.
    destruct Hc as [(Hn & -> & ->)|(Hin & Hc)].
    + destruct (Z.leb_spec f a), (Z.ltb_spec a t); cbn; try lia; by left.
    + rewrite (proj2 (Z.leb_le f a)), (proj2 (Z.ltb_lt a t)) by lia. cbn. apply elem_of_app.
      destruct Hc as [(-> & -> & Hlt)|(-> & -> & Hlt)]; [left|right];
        rewrite (proj2 (Z.ltb_lt _ _)) by done; by left.
Qed.

Definition detach_map a d D : gmap Z desc :=
  fix_right (seg_left d) None (fix_left (seg_right d) None (delete a D)).

Section detach.
Context (R : list (Z * Z)) (D : gmap Z desc) (a : Z) (d : desc).
Context (HL : layout R D) (Ha : D !! a = Some d).
#[local] Set Default Proof Using "All".

#[local] Abbreviation D' := (detach_map a d D).
#[local] Abbreviation R' := (cut_range a (dend a d) R).
Definition unlink x y : desc :=
  let y1 := if decide (seg_right d = Some x) then with_left None y else y in
  if decide (seg_left d = Some x) then with_right None y1 else y1.

Lemma detach_inv x y : D' !! x = Some y ↔ x ≠ a ∧ ∃ y0, D !! x = Some y0 ∧ y = unlink x y0.
Proof.
  unfold detach_map, unlink. rewrite fix_right_lookup, fix_left_lookup.
  destruct (decide (x = a)) as [->|Hne].
  - rewrite lookup_delete_eq. repeat case_decide; cbn; naive_solver.
  - rewrite lookup_delete_ne by done. destruct (D !! x); repeat case_decide; cbn; naive_solver.
Qed.

Lemma dend_unlink x y : dend x (unlink x y) = dend x y.
Proof. unfold unlink. by repeat case_decide. Qed.

Lemma unlink_right x y : seg_right (unlink x y) = if decide (seg_left d = Some x) then None else seg_right y.
Proof. unfold unlink. by repeat case_decide. Qed.
Lemma unlink_left x y : seg_left (unlink x y) = if decide (seg_right d = Some x) then None else seg_left y.
Proof. unfold unlink. by repeat case_decide. Qed.

Lemma detach_range : ∃ f t, (f, t) ∈ R ∧ f ≤ a ∧ dend a d ≤ t ∧ a < dend a d ∧
  ∀ f' t', (f', t') ∈ R → f' = f ∧ t' = t ∨ t' ≤ a ∨ dend a d ≤ f'.
Proof.
  destruct HL as [HO _]. destruct (lay_in _ _ HO a d Ha) as (f & t & HR & Hf & Ht). exists f, t.
  pose proof (lay_bounds R D a d HO Ha). split_and!; [done..|unfold dend in *; lia|].
  intros f' t' HR'. pose proof (range_apart _ (lay_ranges _ _ HO) f t f' t' HR HR'). lia.
Qed.

Lemma detach_within f t x y : D !! x = Some y → x ≠ a → (f, t) ∈ R → f ≤ x → dend x y ≤ t →
  ∃ f' t', (f', t') ∈ R' ∧ f' ≤ x ∧ dend x y ≤ t'.
Proof.
  intros Hx Hne HR Hf Ht. destruct HL as [HO _].
  destruct detach_range as (f0 & t0 & HR0 & Hf0 & Ht0 & Hlt & Hothers).
  pose proof (lay_other R D a d x y HO Ha Hx Hne) as Ho. pose proof (lay_bounds R D x y HO Hx).
  destruct (Hothers _ _ HR) as [[-> ->]|Hout].
  - destruct Ho; [exists f0, a|exists (dend a d), t0]; (split; [|lia]); apply cut_range_elem;
      exists f0, t0; (split; [done|]); right; unfold dend in *; lia.
  - exists f, t. split; [|lia]. apply cut_range_elem. exists f, t. split; [done|]. left.
    unfold dend in *. lia.
Qed.

Lemma detach_outline : outline R' D'.
Proof.
  destruct HL as [HO HC]. destruct detach_range as (f0 & t0 & HR0 & Hf0 & Ht0 & Hlt & Hothers).
  destruct (lay_seg _ _ HO a d Ha) as (Ha4 & Hh4 & Hv4 & _ & _).
  assert (4 | dend a d) as Hd4 by (unfold dend; by repeat apply Z.divide_add_r).
  split.
  - split.
    + intros f t (f1 & t1 & HR & Hc)%cut_range_elem. destruct (range_bounds _ (lay_ranges _ _ HO) f1 t1 HR) as (? & ? & ? & ?).
      destruct Hc as [(_ & -> & ->)|(Hin & [(-> & -> & ?)|(-> & -> & ?)])]; [done|split_and!; (done||lia)..].
    + intros f t f' t' (f1 & t1 & HR & Hc)%cut_range_elem (f1' & t1' & HR' & Hc')%cut_range_elem.
      pose proof (range_apart _ (lay_ranges _ _ HO) f1 t1 f1' t1' HR HR').
      pose proof (Hothers _ _ HR). pose proof (Hothers _ _ HR'). lia.
  - intros x y (_ & y0 & Hy & ->)%detach_inv. pose proof (lay_seg _ _ HO x y0 Hy).
    unfold unlink. by repeat case_decide.
  - intros x y x' y' (Hne & y0 & Hy & ->)%detach_inv (Hne' & y0' & Hy' & ->)%detach_inv Hxx.
    rewrite dend_unlink. by apply (lay_apart _ _ HO x y0 x' y0').
  - intros x y (Hne & y0 & Hy & ->)%detach_inv. rewrite dend_unlink.
    destruct (lay_in _ _ HO x y0 Hy) as (f & t & HR & Hf & Ht).
    destruct (detach_within f t x y0) as (f' & t' & ? & ? & ?); [done..|]. eauto.
  - intros f t x (f1 & t1 & HR & Hc)%cut_range_elem Hx.
    destruct (lay_cover _ _ HO f1 t1 x HR) as (c & e & Hc' & Hce); [lia|].
    exists c, (unlink c e). rewrite dend_unlink. split; [|done]. apply detach_inv. split; [|eauto].
    intros ->. simplify_eq. pose proof (Hothers _ _ HR). lia.
Qed.

(** The ends of the segments that are left. *)
Lemma detach_last f x y : D !! x = Some y → x ≠ a → (f, dend x y) ∈ R → ∃ f', (f', dend x y) ∈ R'.
Proof.
  intros Hx Hne HR. destruct HL as [HO _]. destruct detach_range as (f0 & t0 & HR0 & Hf0 & Ht0 & Hlt & Hothers).
  pose proof (lay_other R D a d x y HO Ha Hx Hne). pose proof (lay_bounds R D x y HO Hx).
  destruct (Hothers _ _ HR) as [[-> E]|Hout].
  - exists (dend a d). apply cut_range_elem. exists f0, t0. split; [done|]. right. unfold dend in *. lia.
  - exists f. apply cut_range_elem. exists f, (dend x y). split; [done|]. left. split; [lia|done].
Qed.

Lemma detach_first t x y : D !! x = Some y → x ≠ a → (x, t) ∈ R → ∃ t', (x, t') ∈ R'.
Proof.
  intros Hx Hne HR. destruct HL as [HO _]. destruct detach_range as (f0 & t0 & HR0 & Hf0 & Ht0 & Hlt & Hothers).
  pose proof (lay_other R D a d x y HO Ha Hx Hne). pose proof (lay_bounds R D x y HO Hx).
  destruct (Hothers _ _ HR) as [[-> E]|Hout].
  - exists a. apply cut_range_elem. exists f0, t0. split; [done|]. right. lia.
  - exists t. apply cut_range_elem. exists x, t. split; [done|]. left. split; [lia|done].
Qed.

Lemma detach_inner f t x y : D !! x = Some y → x ≠ a → dend x y ≠ a → (f, t) ∈ R → f ≤ x → dend x y < t →
  ∃ f' t', (f', t') ∈ R' ∧ f' ≤ x ∧ dend x y < t'.
Proof.
  intros Hx Hne Hna HR Hf Ht. destruct HL as [HO _].
  destruct detach_range as (f0 & t0 & HR0 & Hf0 & Ht0 & Hlt & Hothers).
  pose proof (lay_other R D a d x y HO Ha Hx Hne) as Ho. pose proof (lay_bounds R D x y HO Hx).
  destruct (Hothers _ _ HR) as [[-> ->]|Hout].
  - destruct Ho; [exists f0, a|exists (dend a d), t0]; (split; [|lia]); apply cut_range_elem;
      exists f0, t0; (split; [done|]); right; unfold dend in *; lia.
  - exists f, t. split; [|lia]. apply cut_range_elem. exists f, t. split; [done|]. left.
    unfold dend in *. lia.
Qed.

(** A neighbour of [a] was in the same range. *)
Lemma detach_neighbours :
  (∀ x, seg_left d = Some x → ∃ y f, D !! x = Some y ∧ dend x y = a ∧ seg_right y = Some a ∧ (f, a) ∈ R') ∧
  (∀ x, seg_right d = Some x → x = dend a d ∧ ∃ t, (x, t) ∈ R').
Proof.
  destruct HL as [HO HC]. destruct detach_range as (f0 & t0 & HR0 & Hf0 & Ht0 & Hlt & Hothers). split; intros x Hx.
  - pose proof (lay_left _ _ HC a d Ha) as Hal. rewrite Hx in Hal. destruct Hal as (y & Hy & Hr).
    pose proof (lay_right _ _ HC x y Hy) as Hxr. rewrite Hr in Hxr. destruct Hxr as [Ea _].
    destruct (lay_inner _ _ HC x y Hy) as (f & t & HR & Hf & Ht); [by rewrite Hr|].
    pose proof (lay_bounds R D x y HO Hy). exists y, f. split_and!; [done..|].
    apply cut_range_elem. exists f, t. split; [done|]. right. unfold dend in *. lia.
  - pose proof (lay_right _ _ HC a d Ha) as Har. rewrite Hx in Har. destruct Har as [-> _]. split; [done|].
    destruct (lay_inner _ _ HC a d Ha) as (f & t & HR & Hf & Ht); [by rewrite Hx|].
    exists t. apply cut_range_elem. exists f, t. split; [done|]. right. lia.
Qed.

Lemma detach_chained : chained R' D'.
Proof.
  destruct HL as [HO HC]. destruct detach_neighbours as [HNl HNr].
  pose proof (lay_right _ _ HC a d Ha) as Har. pose proof (lay_left _ _ HC a d Ha) as Hal.
  split; intros x y (Hne & y0 & Hy & ->)%detach_inv; rewrite ?dend_unlink;
    pose proof (lay_right _ _ HC x y0 Hy) as Hr; pose proof (lay_left _ _ HC x y0 Hy) as Hl.
  - rewrite unlink_right. case_decide as El.
    + destruct (HNl x El) as (? & f & ? & Ea & ? & ?). simplify_eq. by exists f.
    + destruct (seg_right y0) as [b|] eqn:Eb; [|destruct Hr as [f ?]; by apply (detach_last f)].
      destruct Hr as (-> & e & He & Hel). split; [done|]. exists (unlink (dend x y0) e).
      assert (dend x y0 ≠ a) by (intros Ea; rewrite Ea in *; simplify_eq; congruence).
      split; [apply detach_inv; eauto|]. rewrite unlink_left, decide_False; [done|].
      intros Er. rewrite Er in Har. destruct Har as (_ & ? & ? & ?). congruence.
  - rewrite unlink_left. case_decide as Er.
    + destruct (HNr x Er) as (-> & t & ?). by exists t.
    + destruct (seg_left y0) as [b|] eqn:Eb; [|destruct Hl as [t ?]; by apply (detach_first t x y0)].
      destruct Hl as (e & He & Her). exists (unlink b e).
      assert (b ≠ a) by congruence.
      split; [apply detach_inv; eauto|]. rewrite unlink_right, decide_False; [done|].
      intros El. rewrite El in Hal. destruct Hal as (? & ? & ?). congruence.
  - rewrite unlink_right. case_decide as El; [by intros [? [=]]|]. intros Hs.
    destruct (lay_inner _ _ HC x y0 Hy Hs) as (f & t & HR & Hf & Ht).
    apply (detach_inner f t); [done..| |done|done|done]. intros Ea.
    destruct Hs as [b Eb]. rewrite Eb in Hr. destruct Hr as (-> & e & He & Hel). rewrite Ea in He.
    simplify_eq.
Qed.

Lemma layout_detach : layout R' D'.
Proof. split; [apply detach_outline|apply detach_chained]. Qed.
End detach.

