(* ===== verification/HeapOps.v ===== *)
(** * The operations of the heap

    [heap_ok R l h]: the memory is partitioned, the ring links the free segments [l] and the
    offsets in front of the aligned payloads are there. Each operation ends without a fault
    in a state that is [heap_ok] again; the lemmas [heap_allocate], [heap_allocate_aligned],
    [heap_free], [heap_addHeapBlock] and [heap_separate] say what it changes of what is in
    use ([seg_live]) and of the words there. *)

From S2P Require Import Prelude Endian DList Heap HeapLayout.

Implicit Types (R : list (Z * Z)) (D : gmap Z desc) (a b c x : Z) (d e : desc).

(** ** The free ring and the descriptors

    [linked r D l]: [r] has a node for each descriptor of [D] and for the header, links
    [l] and leaves the links of the other descriptors null. *)

Implicit Types (l : list Z) (r : gmap hkey (node hkey)).

Record linked r D l : Prop := {
  lk_ring : ring r FreeHdr (Seg <$> l);
  lk_dom k : is_Some (r !! k) ↔ k = FreeHdr ∨ ∃ a, k = Seg a ∧ is_Some (D !! a);
  lk_null a : is_Some (D !! a) → a ∉ l → r !! Seg a = Some (Node None None);
  lk_in a : a ∈ l → is_Some (D !! a)
}.

Lemma elem_of_segs a l : Seg a ∈ Seg <$> l ↔ a ∈ l.
Proof. rewrite list_elem_of_fmap. split; [by intros (? & [= ->] & ?)|by exists a]. Qed.

Lemma linked_nodup r D l : linked r D l → NoDup l.
Proof. intros HK. destruct (lk_ring _ _ _ HK) as [_ [_ Hnd]%NoDup_cons]. by apply NoDup_fmap_1 in Hnd. Qed.

Lemma linked_dom r D D' l :
  linked r D l → (∀ x, is_Some (D' !! x) ↔ is_Some (D !! x)) → linked r D' l.
Proof.
  intros HK HD. split; [by apply (lk_ring _ _ _ HK)|..].
  - intros k. rewrite (lk_dom _ _ _ HK). by setoid_rewrite HD.
  - intros a Ha. apply (lk_null _ _ _ HK). by apply HD.
  - intros a Ha. apply HD. by apply (lk_in _ _ _ HK).
Qed.

(** A change of the nodes that are not on the ring. *)
Lemma linked_off r r' D D' l : linked r D l →
  touches r r' (Seg <$> filter (λ a, a ∉ l) (elements (dom D ∪ dom D'))) →
  (∀ k, is_Some (r' !! k) ↔ k = FreeHdr ∨ ∃ a, k = Seg a ∧ is_Some (D' !! a)) →
  (∀ a, is_Some (D' !! a) → a ∉ l → r' !! Seg a = Some (Node None None)) →
  (∀ a, a ∈ l → is_Some (D' !! a)) → linked r' D' l.
Proof.
  intros HK Ht Hd Hn Hi. split; [|done..]. apply (ring_frame r); [apply (lk_ring _ _ _ HK)|].
  intros y Hy. unfold next_of, prev_of. rewrite Ht; [done|]. intros (a & -> & Ha)%list_elem_of_fmap.
  apply list_elem_of_filter in Ha as [Ha _]. apply elem_of_cons in Hy as [?|Hy]; [done|].
  by apply elem_of_segs in Hy.
Qed.

Lemma linked_new r D l b d : linked r D l → D !! b = None →
  linked (<[Seg b := Node None None]> r) (<[b := d]> D) l.
Proof.
  intros HK Hb. assert (b ∉ l) as Hl by (intros Hl; apply (lk_in _ _ _ HK) in Hl; rewrite Hb in Hl; by destruct Hl).
  apply (linked_off r _ D); [done|..].
  - intros y Hy. rewrite lookup_insert_ne; [done|]. intros <-. apply Hy. apply list_elem_of_fmap_2.
    apply list_elem_of_filter. split; [done|]. set_solver.
  - intros k. rewrite lookup_insert_is_Some', (lk_dom _ _ _ HK). setoid_rewrite lookup_insert_is_Some'.
    naive_solver.
  - intros a Ha Hal. rewrite lookup_insert. case_decide as E; [done|].
    apply (lk_null _ _ _ HK); [|done]. rewrite lookup_insert_ne in Ha by congruence. done.
  - intros a Ha. apply lookup_insert_is_Some'. right. by apply (lk_in _ _ _ HK).
Qed.

Lemma linked_delete r D l b : linked r D l → b ∉ l → linked (delete (Seg b) r) (delete b D) l.
Proof.
  intros HK Hl. destruct (D !! b) as [d|] eqn:Hb.
  - apply (linked_off r _ D); [done|..].
    + intros y Hy. rewrite lookup_delete_ne; [done|]. intros <-. apply Hy. apply list_elem_of_fmap_2.
      apply list_elem_of_filter. split; [done|]. apply elem_of_elements, elem_of_union_l.
      by apply elem_of_dom_2 in Hb.
    + intros k. rewrite lookup_delete_is_Some, (lk_dom _ _ _ HK). setoid_rewrite lookup_delete_is_Some.
      naive_solver.
    + intros a [Hne Ha]%lookup_delete_is_Some Hal. rewrite lookup_delete_ne by congruence.
      by apply (lk_null _ _ _ HK).
    + intros a Ha. apply lookup_delete_is_Some. split; [congruence|]. by apply (lk_in _ _ _ HK).
  - rewrite (delete_id D) by done. rewrite delete_id; [done|].
    destruct (r !! Seg b) as [n|] eqn:E; [|done]. destruct (proj1 (lk_dom _ _ _ HK (Seg b))) as [?|(? & [= ->] & [? ?])];
      [by rewrite E|done|congruence].
Qed.

(** ** Runs of the primitives *)

Implicit Types (s : kheap).

Lemma ends_desc_at a d s Q : descs s !! a = Some d → Q d s → ends (desc_at a) s Q.
Proof. intros Ha HQ. unfold desc_at. apply ends_bind, ends_get. rewrite Ha. by apply ends_ret. Qed.

Lemma ends_upd_desc a f d s (Q : () → kheap → Prop) :
  descs s !! a = Some d → Q () (set_descs (<[a := f d]> (descs s)) s) → ends (upd_desc a f) s Q.
Proof. intros Ha HQ. unfold upd_desc. eapply ends_bind, ends_desc_at; [done|]. by apply ends_modify. Qed.

Lemma alter_as_insert f b d D : D !! b = Some d → alter f b D = <[b := f d]> D.
Proof.
  intros Hb. apply map_eq. intros x. rewrite lookup_alter, lookup_insert.
  case_decide as E; [subst; by rewrite Hb|done].
Qed.

Lemma ends_set_left_of o v s (Q : () → kheap → Prop) :
  (∀ b, o = Some b → is_Some (descs s !! b)) → Q () (set_descs (fix_left o v (descs s)) s) →
  ends (set_left_of o v) s Q.
Proof.
  intros Ho HQ. destruct o as [b|]; cbn; [|apply ends_ret; by destruct s].
  destruct (Ho b eq_refl) as [d Hd]. eapply ends_upd_desc; [done|]. cbn in HQ.
  by rewrite (alter_as_insert _ _ d) in HQ.
Qed.

Lemma ends_set_right_of o v s (Q : () → kheap → Prop) :
  (∀ b, o = Some b → is_Some (descs s !! b)) → Q () (set_descs (fix_right o v (descs s)) s) →
  ends (set_right_of o v) s Q.
Proof.
  intros Ho HQ. destruct o as [b|]; cbn; [|apply ends_ret; by destruct s].
  destruct (Ho b eq_refl) as [d Hd]. eapply ends_upd_desc; [done|]. cbn in HQ.
  by rewrite (alter_as_insert _ _ d) in HQ.
Qed.

Lemma ends_ring_op {A} (m : prog _ A) s (Q : A → kheap → Prop) :
  ends m (freeRing s) (λ (x : A) r, Q x (set_freeRing r s)) → ends (ring_op m) s Q.
Proof. apply ends_zoom. Qed.

Lemma ends_node_of k n s (Q : node hkey → kheap → Prop) :
  freeRing s !! k = Some n → Q n s → ends (ring_op (node_of (Some k))) s Q.
Proof.
  intros Hk HQ. apply ends_ring_op. exists n, (freeRing s). unfold node_of. rewrite Hk. split; [done|].
  by destruct s.
Qed.

(** The state keeps everything but its ring, its descriptors and its words. *)
Definition bounds_of s : Z * Z := (_start s, _end s).

Lemma ends_add_free a d l s (Q : () → kheap → Prop) :
  linked (freeRing s) (descs s) l → descs s !! a = Some d → a ∉ l →
  (∀ r l', linked r (descs s) l' → l' ≡ₚ a :: l → Q () (set_freeRing r s)) →
  ends (add_free a) s Q.
Proof.
  intros HK Ha Hal HQ. assert (Seg a ∉ FreeHdr :: (Seg <$> l)) as Hn.
  { intros [?|Hin]%elem_of_cons; [done|]. by apply elem_of_segs in Hin. }
  assert (is_Some (freeRing s !! Seg a)) as Hs by (apply (lk_dom _ _ _ HK); right; eauto).
  assert (∀ r l', ring r FreeHdr (Seg <$> l') → same_nodes (freeRing s) r →
    touches (freeRing s) r (Seg a :: FreeHdr :: (Seg <$> l)) → l' ≡ₚ a :: l → linked r (descs s) l') as Hk.
  { intros r l' Hr Hsame Ht Hp. split; [done|..].
    - intros k. rewrite (Hsame k). apply (lk_dom _ _ _ HK).
    - intros x Hx Hxl. rewrite Hp in Hxl. rewrite Ht; [apply (lk_null _ _ _ HK); set_solver|].
      rewrite !elem_of_cons, elem_of_segs. intros [[=]|[?|?]]; set_solver.
    - intros x Hx. rewrite Hp in Hx. apply elem_of_cons in Hx as [->|Hx]; [eauto|by apply (lk_in _ _ _ HK)]. }
  unfold add_free. eapply ends_bind, ends_desc_at; [done|]. destruct (PageSize <? availableSize d); apply ends_ring_op.
  - destruct (addTail_touch _ _ _ (Seg a) (lk_ring _ _ _ HK) Hn Hs) as (r & Hrun & Hr & Hsame & Ht).
    exists (), r. split; [done|]. assert (l ++ [a] ≡ₚ a :: l) as Hp by (by rewrite Permutation_app_comm).
    apply (HQ r (l ++ [a])); [|done]. apply Hk; [by rewrite fmap_app|done..].
  - destruct (addHeader_touch _ _ _ (Seg a) (lk_ring _ _ _ HK) Hn Hs) as (r & Hrun & Hr & Hsame & Ht).
    exists (), r. split; [done|]. apply (HQ r (a :: l)); [|done]. by apply Hk.
Qed.

Lemma ends_del_free a l1 l2 s (Q : () → kheap → Prop) :
  linked (freeRing s) (descs s) (l1 ++ a :: l2) →
  (∀ r, linked r (descs s) (l1 ++ l2) → Q () (set_freeRing r s)) →
  ends (ring_op (delNodeFromRingDoubleList (Some (Seg a)))) s Q.
Proof.
  intros HK HQ. apply ends_ring_op. pose proof (lk_ring _ _ _ HK) as Hr. rewrite fmap_app, fmap_cons in Hr.
  destruct (delNode_touch _ _ _ _ _ Hr) as (r & Hrun & Hr' & Hnull & Hsame & Ht).
  exists (), r. split; [done|]. apply HQ. split.
  - by rewrite fmap_app.
  - intros k. rewrite (Hsame k). apply (lk_dom _ _ _ HK).
  - intros x Hx Hxl. destruct (decide (x = a)) as [->|Hne]; [done|].
    assert (x ∉ l1 ++ a :: l2) as Hn by set_solver.
    rewrite Ht; [by apply (lk_null _ _ _ HK)|]. intros [?|Hin]%elem_of_cons; [done|].
    rewrite <- fmap_cons, <- fmap_app in Hin.
    by apply elem_of_segs in Hin.
  - intros x Hx. apply (lk_in _ _ _ HK). set_solver.
Qed.

(** ** The search of the free ring *)

(** The loop as a function of the free segments in ring order. *)
Fixpoint scan {A} (look : Z → desc → A → A * bool) (acc : A) l D : option Z * A :=
  match l with
  | [] => (None, acc)
  | a :: l' =>
      match D !! a with
      | Some d => let (acc', found) := look a d acc in
                  if found then (Some a, acc') else scan look acc' l' D
      | None => (None, acc)
      end
  end.

Lemma foreach_loop {A} (look : Z → desc → A → A * bool) s l : ∀ fuel acc p,
  (length l < fuel)%nat → path (freeRing s) p (Seg <$> l) FreeHdr → (∀ a, a ∈ l → is_Some (descs s !! a)) →
  ends (loop fuel (foreach_body look) (Some (default FreeHdr (head (Seg <$> l))), acc)) s
       (λ (o : option Z * A) s', s' = s ∧ o = scan look acc l (descs s)).
Proof.
  induction l as [|a l IH]; intros [|fuel] acc p Hf Hp HD; cbn in Hf; try lia; cbn [fmap list_fmap head default].
  - eexists _, s. split; [by apply loop_exit|done].
  - destruct (HD a) as [d Hd]; [by left|]. destruct Hp as [_ Hp].
    assert (∃ n, freeRing s !! Seg a = Some n ∧ next n = Some (default FreeHdr (head (Seg <$> l)))) as (n & Hn & En).
    { apply next_of_Some. destruct l; apply Hp. }
    assert (desc_at a s = Ok (d, s)) as Hrun by (unfold desc_at; by rewrite run_bind_get, Hd).
    assert (ring_op (node_of (Some (Seg a))) s = Ok (n, s)) as Hrun2.
    { unfold ring_op, zoom, node_of. rewrite Hn. by destruct s. }
    cbn [scan]. rewrite Hd. destruct (look a d acc) as [acc' found] eqn:El. destruct found.
    + eexists _, s. split; [|done]. apply loop_exit. cbn. prog_step Hrun. by rewrite El.
    + destruct (IH fuel acc' (Seg a)) as (o & s' & Hl & -> & ->); [lia|done|set_solver|].
      eexists _, s. split; [|done]. rewrite <- Hl. apply loop_next. cbn. prog_step Hrun. rewrite El.
      prog_step Hrun2. by rewrite En.
Qed.

Lemma ends_foreach {A} (look : Z → desc → A → A * bool) acc l s (Q : option Z * A → kheap → Prop) :
  linked (freeRing s) (descs s) l → Q (scan look acc l (descs s)) s → ends (ring_foreach look acc) s Q.
Proof.
  intros HK HQ. pose proof (lk_ring _ _ _ HK) as Hr. unfold ring_foreach. apply ends_bind, ends_get.
  destruct (next_of_Some _ _ _ (ring_first _ _ _ Hr)) as (n & Hn & En).
  eapply ends_bind, ends_node_of; [done|]. rewrite En. pose proof (ring_size _ _ _ Hr) as Hs.
  rewrite length_fmap in Hs.
  eapply ends_mono; [apply (foreach_loop look s l _ acc FreeHdr); [lia|apply Hr|apply (lk_in _ _ _ HK)]|].
  by intros o s' [-> ->].
Qed.

(** What a successful search says. *)
Lemma scan_found {A} (look : Z → desc → A → A * bool) l D : ∀ acc a acc',
  scan look acc l D = (Some a, acc') → ∃ l1 l2 d acc0, l = l1 ++ a :: l2 ∧ D !! a = Some d ∧
    look a d acc0 = (acc', true).
Proof.
  induction l as [|b l IH]; intros acc a acc'; cbn; [done|]. destruct (D !! b) as [d|] eqn:Hd; [|done].
  destruct (look b d acc) as [acc1 []] eqn:El.
  - intros [= -> ->]. by exists [], l, d, acc.
  - intros (l1 & l2 & d' & acc0 & -> & ? & ?)%IH. by exists (b :: l1), l2, d', acc0.
Qed.

Lemma scan_not_found {A} (look : Z → desc → A → A * bool) l D : ∀ acc acc',
  (∀ a, a ∈ l → is_Some (D !! a)) → scan look acc l D = (None, acc') →
  ∀ a d, a ∈ l → D !! a = Some d → ∃ acc0 acc1, look a d acc0 = (acc1, false).
Proof.
  induction l as [|b l IH]; intros acc acc' HD; cbn; [set_solver|].
  destruct (HD b) as [d Hd]; [by left|]. rewrite Hd.
  destruct (look b d acc) as [acc1 []] eqn:El; [done|]. intros Hs a d' [->|Ha]%elem_of_cons Hd'.
  - simplify_eq. eauto.
  - eapply IH; [|done..]. set_solver.
Qed.

(** The same rules on a state given by its fields. *)
Section runs.
Context {r : gmap hkey (node hkey)} {D : gmap Z desc} {w : gmap Z Z} {st en : Z}.

Lemma run_desc_at {B} a d (k : desc → prog kheap B) Q :
  D !! a = Some d → ends (k d) (KHeap r D w st en) Q → ends (desc_at a ≫= k) (KHeap r D w st en) Q.
Proof. intros Ha HQ. by eapply ends_bind, ends_desc_at. Qed.

Lemma run_upd_desc {B} a f d (k : () → prog kheap B) Q :
  D !! a = Some d → ends (k ()) (KHeap r (<[a := f d]> D) w st en) Q →
  ends (upd_desc a f ≫= k) (KHeap r D w st en) Q.
Proof. intros Ha HQ. by eapply ends_bind, ends_upd_desc. Qed.

Lemma run_last_upd a f d (Q : () → kheap → Prop) :
  D !! a = Some d → Q () (KHeap r (<[a := f d]> D) w st en) → ends (upd_desc a f) (KHeap r D w st en) Q.
Proof. intros Ha HQ. by eapply ends_upd_desc. Qed.

Lemma run_set_left_of {B} o v (k : () → prog kheap B) Q :
  (∀ b, o = Some b → is_Some (D !! b)) → ends (k ()) (KHeap r (fix_left o v D) w st en) Q →
  ends (set_left_of o v ≫= k) (KHeap r D w st en) Q.
Proof. intros Ho HQ. by apply ends_bind, ends_set_left_of. Qed.

Lemma run_set_right_of {B} o v (k : () → prog kheap B) Q :
  (∀ b, o = Some b → is_Some (D !! b)) → ends (k ()) (KHeap r (fix_right o v D) w st en) Q →
  ends (set_right_of o v ≫= k) (KHeap r D w st en) Q.
Proof. intros Ho HQ. by apply ends_bind, ends_set_right_of. Qed.

Lemma run_new_desc {B} b (k : () → prog kheap B) Q :
  ends (k ()) (KHeap (<[Seg b := Node None None]> r) (<[b := Desc None None 0 0]> D)
                     (forget_words b DESC w) st en) Q →
  ends (new_desc b ≫= k) (KHeap r D w st en) Q.
Proof. intros HQ. by apply ends_bind, ends_modify. Qed.

Lemma run_add_free a d l (Q : () → kheap → Prop) :
  linked r D l → D !! a = Some d → a ∉ l →
  (∀ r' l', linked r' D l' → l' ≡ₚ a :: l → Q () (KHeap r' D w st en)) → ends (add_free a) (KHeap r D w st en) Q.
Proof. intros HK Ha Hal HQ. by apply (ends_add_free a d l). Qed.

Lemma run_del_free {B} a l1 l2 (k : () → prog kheap B) Q :
  linked r D (l1 ++ a :: l2) → (∀ r', linked r' D (l1 ++ l2) → ends (k ()) (KHeap r' D w st en) Q) →
  ends (ring_op (delNodeFromRingDoubleList (Some (Seg a))) ≫= k) (KHeap r D w st en) Q.
Proof. intros HK HQ. by apply ends_bind, (ends_del_free a l1 l2). Qed.
End runs.

(** The lookups of a run: a descriptor that the run has just written, or another one. *)
Ltac lk := repeat first
    [ progress rewrite lookup_insert_eq
    | rewrite lookup_insert_ne by congruence
    | rewrite fix_left_lookup, decide_False by congruence
    | rewrite fix_right_lookup, decide_False by congruence ];
  try reflexivity; try eassumption.

Ltac run_desc := first [ eapply run_upd_desc; [lk|] | eapply run_desc_at; [lk|] ];
  cbn [with_left with_right with_avail with_offset seg_left seg_right availableSize headerOffset].

(** Two maps of descriptors that are written in different orders. *)
Ltac desc_maps := apply map_eq; let x := fresh "x" in intros x; unfold split_map, merge_map, detach_map;
  repeat (rewrite ?lookup_insert, ?lookup_delete, ?fix_left_lookup, ?fix_right_lookup);
  repeat case_decide; simplify_eq; try done; try congruence.

Lemma ends_split_rest a (n rest : Z) d l r D w st en (Q : () → kheap → Prop) :
  let b := a + headerOffset d + n in
  let D' := split_map a b (rest - 24) 24 d D in
  linked r D l → D !! a = Some d → D !! b = None →
  (∀ z, seg_right d = Some z → is_Some (D !! z) ∧ z ≠ a) →
  0 < a → 24 ≤ headerOffset d → 0 < n → 24 < rest → a + headerOffset d + n + rest < 2 ^ 32 →
  (∀ r' l', linked r' D' l' → l' ≡ₚ b :: l → Q () (KHeap r' D' (forget_words b 24 w) st en)) →
  ends (split_rest a (a + headerOffset d) n rest) (KHeap r D w st en) Q.
Proof.
  intros b D' HK Ha Hb Hr H0 Hh Hn Hrest Hlim HQ. unfold split_rest.
  rewrite wrapu_id by (unfold in_u; lia). fold b. rewrite wrapu_id by (unfold in_u, DESC; lia).
  assert (a ≠ b) as Hab by (unfold b; lia).
  assert (∀ z, seg_right d = Some z → z ≠ b) as Hrb.
  { intros z Er ->. destruct (Hr b Er) as [[? E] _]. congruence. }
  pose proof (linked_new _ _ _ b (Desc None None 0 0) HK Hb) as HK1.
  apply run_new_desc. do 5 run_desc. apply run_set_left_of.
  { intros z Er. destruct (Hr z Er) as [[e He] Hza]. exists e. specialize (Hrb z Er). lk. }
  assert (seg_right d ≠ Some a) as Hna by (intros E; destruct (Hr a E); done).
  assert (seg_right d ≠ Some b) as Hnb by (intros E; by apply (Hrb b E)).
  do 3 run_desc.
  match goal with |- ends _ (KHeap _ ?M _ _ _) _ => assert (M = D') as -> end.
  { unfold D', DESC. desc_maps; subst; unfold with_left, with_right, with_avail, with_offset; cbn;
      try (do 2 f_equal; unfold b; lia). }
  assert (b ∉ l) as Hbl by (intros Hbl; apply (lk_in _ _ _ HK) in Hbl; rewrite Hb in Hbl; by destruct Hbl).
  eapply (run_add_free b); [|by apply split_map_lookup; right; left|exact Hbl|done].
  eapply linked_dom; [exact HK1|]. intros x. unfold D', split_map.
  rewrite !lookup_insert_is_Some', fix_left_lookup. case_decide; rewrite ?fmap_is_Some; naive_solver.
Qed.

(** ** The invariant of the heap *)

(** [words] has the offset of every aligned payload in front of it. *)
Definition tags_ok l D (w : gmap Z Z) : Prop := ∀ a d, D !! a = Some d → a ∉ l → 24 < headerOffset d →
  w !! (a + headerOffset d - 4) = Some (headerOffset d).

Record heap_ok R l s : Prop := {
  ok_layout : layout R (descs s);
  ok_linked : linked (freeRing s) (descs s) l;
  ok_free a d : a ∈ l → descs s !! a = Some d → headerOffset d = 24;
  ok_tags : tags_ok l (descs s) (words s);
  ok_bounds f t : (f, t) ∈ R → _start s ≤ f ∧ t ≤ _end s
}.

(** No two neighbours are free. *)
Definition coalesced l D : Prop := ∀ a d b, a ∈ l → D !! a = Some d → seg_right d = Some b → b ∉ l.

(** The segment [x] is in use: it gives out [n] bytes from [p] on. *)
Definition seg_live l D x (p n : Z) : Prop :=
  ∃ d, D !! x = Some d ∧ x ∉ l ∧ p = x + headerOffset d ∧ n = availableSize d.

(** The words of the payloads in use. *)
Definition keeps_words l D (w w' : gmap Z Z) : Prop := ∀ x p n z,
  seg_live l D x p n → p ≤ z < p + n → w' !! z = w !! z.

Lemma forget_words_lookup b n w z : forget_words b n w !! z = if decide (b ≤ z < b + n) then None else w !! z.
Proof.
  unfold forget_words. case_decide as Hz.
  - apply map_lookup_filter_None. right. intros v _ Hn. by apply Hn.
  - destruct (w !! z) as [v|] eqn:E.
    + by apply map_lookup_filter_Some.
    + apply map_lookup_filter_None. by left.
Qed.

Lemma forget_words_out b n w z : ¬ (b ≤ z < b + n) → forget_words b n w !! z = w !! z.
Proof. intros. by rewrite forget_words_lookup, decide_False. Qed.

(** A segment is split, whatever becomes of the two halves. *)
Section split_ok.
Context (R : list (Z * Z)) (l l' : list Z) (r r' : gmap hkey (node hkey)) (D : gmap Z desc) (w : gmap Z Z).
Context (st en a b av : Z) (d : desc).
Context (Hok : heap_ok R l (KHeap r D w st en)) (Ha : D !! a = Some d).
Context (Hb : a + headerOffset d < b) (Hend : b + 24 + av = dend a d) (Hav : 0 < av) (Hb4 : (4 | b)).
Context (HK : linked r' (split_map a b av 24 d D) l') (Hl : ∀ x, x ≠ a → x ≠ b → x ∈ l' ↔ x ∈ l)
  (Hla : a ∈ l' → a ∈ l).
#[local] Set Default Proof Using "All".
#[local] Abbreviation D' := (split_map a b av 24 d D).

Lemma split_fresh_here : D !! b = None ∧ a ≠ b ∧ b ∉ l.
Proof.
  destruct Hok as [HL HKo _ _ _]; cbn in *. pose proof (lay_bounds R D a d (proj1 HL) Ha).
  assert (D !! b = None) as Hnb by (apply (lay_inside R D a d); [apply HL|done|unfold dend in *; lia]).
  split_and!; [done|lia|]. intros Hin. apply (lk_in _ _ _ HKo) in Hin. rewrite Hnb in Hin. by destruct Hin.
Qed.

Lemma split_outside x y : D !! x = Some y → x ≠ a → dend x y ≤ a ∨ dend a d ≤ x.
Proof.
  intros Hx Hne. destruct Hok as [HL _ _ _ _]; cbn in *.
  pose proof (lay_other R D a d x y (proj1 HL) Ha Hx Hne). lia.
Qed.

Lemma heap_split : heap_ok R l' (KHeap r' D' (forget_words b 24 w) st en).
Proof.
  pose proof split_fresh_here as (Hnb & Hab & Hbl). destruct Hok as [HL HKo HF HT HB]; cbn in *.
  pose proof (lay_bounds R D a d (proj1 HL) Ha). split; cbn; [|done| | |done].
  - apply layout_split; unfold DESC; first [done|lia|by exists 6].
  - intros x y Hx [[-> ->]|[(_ & -> & ->)|(Hxa & Hxb & y0 & Hy & ->)]]%split_map_lookup; cbn; [|done|].
    + apply (HF a d); [by apply Hla|done].
    + apply Hl in Hx; [|done..]. case_decide; cbn; by apply (HF x y0).
  - intros x y [[-> ->]|[(_ & -> & ->)|(Hxa & Hxb & y0 & Hy & ->)]]%split_map_lookup; cbn; intros Hx Hh; [|lia|].
    + rewrite forget_words_out by lia. apply HT; [done| |done]. intros Hal. rewrite (HF a d) in Hh by done. lia.
    + rewrite Hl in Hx by done. pose proof (split_outside x y0 Hy Hxa).
      pose proof (lay_bounds R D x y0 (proj1 HL) Hy).
      assert (headerOffset (if decide (seg_right d = Some x) then with_left (Some b) y0 else y0) = headerOffset y0)
        as E by (by case_decide). rewrite E in *.
      rewrite forget_words_out by (unfold dend in *; lia). by apply HT.
Qed.

(** What is in use after a split. *)
Lemma split_live x p n : seg_live l' D' x p n ↔
  x = a ∧ a ∉ l' ∧ p = a + headerOffset d ∧ n = b - a - headerOffset d ∨
  x = b ∧ b ∉ l' ∧ p = b + 24 ∧ n = av ∨
  x ≠ a ∧ x ≠ b ∧ seg_live l D x p n.
Proof.
  pose proof split_fresh_here as (Hnb & Hab & Hbl). unfold seg_live. split.
  - intros (y & [[-> ->]|[(_ & -> & ->)|(Hxa & Hxb & y0 & Hy & ->)]]%split_map_lookup & Hx & -> & ->); cbn.
    + by left.
    + right. by left.
    + do 2 right. split_and!; [done..|]. exists y0. rewrite Hl in Hx by done. split_and!; [done..| |]; by case_decide.
  - intros [(-> & Hx & -> & ->)|[(-> & Hx & -> & ->)|(Hxa & Hxb & y & Hy & Hx & -> & ->)]].
    + eexists. split; [apply split_map_lookup; by left|]. done.
    + eexists. split; [apply split_map_lookup; right; left; eauto|]. done.
    + eexists. split; [apply split_map_lookup; do 2 right; eauto 6|]. rewrite Hl by done.
      split_and!; [done|by case_decide..].
Qed.

(** Only the new header is written. *)
Lemma split_words x p n z : seg_live l D x p n → p ≤ z < p + n → (x = a → z < b) →
  forget_words b 24 w !! z = w !! z.
Proof.
  intros (y & Hx & Hxl & -> & ->) Hz Hza. apply forget_words_out.
  destruct (decide (x = a)) as [->|Hne]; [lia|]. pose proof (proj1 (ok_layout _ _ _ Hok)) as HO. cbn in HO.
  pose proof (split_outside x y Hx Hne). pose proof (lay_bounds R D a d HO Ha).
  pose proof (lay_bounds R D x y HO Hx). unfold dend in *. lia.
Qed.

(** The left half is in use, the right half and what follows [a] are not free neighbours. *)
Lemma split_coalesced : coalesced l D → a ∉ l' → (∀ z, seg_right d = Some z → z ∉ l) → coalesced l' D'.
Proof.
  intros Hco Hal Hr. pose proof split_fresh_here as (Hnb & Hab & Hbl).
  destruct Hok as [[HO HC] HKo HF HT HB]; cbn in *.
  assert (∀ y y0 z, D !! y = Some y0 → seg_right y0 = Some z → z ≠ b) as Hzb.
  { intros y y0 z Hy Hz ->. pose proof (lay_right _ _ HC y y0 Hy) as Hzr. rewrite Hz in Hzr.
    destruct Hzr as (_ & e & He & _). congruence. }
  intros x y z Hx [[-> ->]|[(_ & -> & ->)|(Hxa & Hxb & y0 & Hy & ->)]]%split_map_lookup; [done|..].
  - cbn. intros Hz Hzl. destruct (decide (z = a)) as [->|Hna]; [done|].
    apply (Hr z Hz), Hl; [done| |done]. by apply (Hzb a d).
  - rewrite seg_right_if. intros Hz Hzl. destruct (decide (z = a)) as [->|Hna]; [done|].
    apply (Hco x y0 z); [by apply Hl|done|done|]. apply Hl; [done| |done]. by apply (Hzb x y0).
Qed.

(** The rest of a payload in use has become free. *)
Lemma split_rest_live x p n : a ∉ l' → b ∈ l' → seg_live l' D' x p n ↔
  x = a ∧ p = a + headerOffset d ∧ n = b - a - headerOffset d ∨ x ≠ a ∧ seg_live l D x p n.
Proof.
  intros Hal Hbl. rewrite split_live. pose proof split_fresh_here as (Hnb & Hab & _).
  assert (seg_live l D x p n → x ≠ b) by (intros (? & ? & _) ->; congruence). naive_solver.
Qed.
End split_ok.

(** A free segment is taken off the ring. *)
Lemma heap_take R l1 a l2 r r' D w st en : heap_ok R (l1 ++ a :: l2) (KHeap r D w st en) →
  linked r' D (l1 ++ l2) → heap_ok R (l1 ++ l2) (KHeap r' D w st en).
Proof.
  intros [HL HKo HF HT HB] HK. cbn in *. split; cbn; [done|done| | |done].
  - intros x y Hx. apply HF. set_solver.
  - intros x y Hx Hxl Hh. destruct (decide (x = a)) as [->|Hne].
    + rewrite (HF a y) in Hh; [lia|set_solver|done].
    + apply HT; [done|set_solver|done].
Qed.

(** ** allocate *)

(** One more segment is in use, at [p] and of at least [n] bytes; the other payloads in
    use stay and keep their words. *)
Definition gives l s l' s' (p n : Z) : Prop := ∃ x k, n ≤ k ∧
  (∀ y q j, seg_live l' (descs s') y q j ↔ y = x ∧ q = p ∧ j = k ∨ seg_live l (descs s) y q j) ∧
  keeps_words l (descs s) (words s) (words s').

Lemma align4 n : 0 < n → n + 3 < 2 ^ 32 → n ≤ alignUp n 4 < n + 4 ∧ (4 | alignUp n 4).
Proof.
  intros H1 H2. pose proof (alignUp_eq n 2) as E. change (2 ^ 2) with 4 in E.
  rewrite E by (unfold in_u; lia).
  pose proof (Z.mod_pos_bound (n + 4 - 1) 4). split; [lia|]. apply (sub_mod_divide _ 2). lia.
Qed.

Lemma ok_free_seg R l s a : heap_ok R l s → a ∈ l → ∃ d, descs s !! a = Some d ∧ headerOffset d = 24 ∧
  0 < a ∧ (4 | a) ∧ (4 | availableSize d) ∧ 0 < availableSize d ∧ dend a d < 2 ^ 32.
Proof.
  intros Hok Ha. destruct (lk_in _ _ _ (ok_linked _ _ _ Hok) a Ha) as [d Hd]. exists d.
  pose proof (lay_bounds R _ a d (proj1 (ok_layout _ _ _ Hok)) Hd).
  destruct (lay_seg _ _ (proj1 (ok_layout _ _ _ Hok)) a d Hd) as (? & ? & ? & _ & _).
  pose proof (ok_free _ _ _ Hok a d Ha Hd). split_and!; (done || lia).
Qed.

(** The right neighbour of a segment is a segment. *)
Lemma ok_right R l s a d z : heap_ok R l s → descs s !! a = Some d → seg_right d = Some z →
  is_Some (descs s !! z) ∧ z ≠ a.
Proof.
  intros Hok Ha Hz. pose proof (ok_layout _ _ _ Hok) as [HO HC].
  pose proof (lay_right _ _ HC a d Ha) as Hr. rewrite Hz in Hr. destruct Hr as (-> & e & He & _).
  pose proof (lay_bounds R _ a d HO Ha). split; [eauto|unfold dend; lia].
Qed.

Lemma take_gives l1 l2 a d r r' D w st en n : NoDup (l1 ++ a :: l2) → D !! a = Some d → n ≤ availableSize d →
  gives (l1 ++ a :: l2) (KHeap r D w st en) (l1 ++ l2) (KHeap r' D w st en) (a + headerOffset d) n.
Proof.
  intros Hnd Ha Hn. assert (a ∉ l1 ++ l2) as Hal by (rewrite <- Permutation_middle in Hnd; by apply NoDup_cons in Hnd as [? _]).
  exists a, (availableSize d). split; [done|]. split; [|done]. intros y q j. cbn. unfold seg_live. split.
  - intros (e & He & Hy & -> & ->). destruct (decide (y = a)) as [->|Hne]; [left; by simplify_eq|].
    right. exists e. set_solver.
  - intros [(-> & -> & ->)|(e & He & Hy & -> & ->)]; [by exists d|exists e; set_solver].
Qed.

Lemma heap_allocate R l s n : heap_ok R l s → coalesced l (descs s) → 0 < n → n + 3 < 2 ^ 32 →
  ends (allocate n) s (λ p s',
    p = 0 ∧ s' = s ∧ (∀ a d, a ∈ l → descs s !! a = Some d → availableSize d < n) ∨
    0 < p ∧ (4 | p) ∧ ∃ l', heap_ok R l' s' ∧ coalesced l' (descs s') ∧ gives l s l' s' p n).
Proof.
  intros Hok Hco Hn Hlim. destruct (align4 n Hn Hlim) as [Hm Hm4]. set (m := alignUp n 4) in *.
  pose proof (ok_linked _ _ _ Hok) as HK. unfold allocate. fold m.
  eapply ends_bind, ends_foreach; [exact HK|].
  destruct (scan _ () l (descs s)) as [[a|] []] eqn:Hscan; cbn [fst].
  2: { apply ends_ret. left. split_and!; [done..|]. intros a d Ha Hd.
    destruct (scan_not_found _ _ _ _ _ (lk_in _ _ _ HK) Hscan a d Ha Hd) as (? & ? & [= _ Hlt]).
    apply Z.leb_gt in Hlt. destruct (ok_free_seg _ _ _ a Hok Ha) as (d' & ? & _ & _ & _ & [q Hq] & _).
    simplify_eq. destruct Hm4 as [q' Hq']. lia. }
  destruct (scan_found _ _ _ _ _ _ Hscan) as (l1 & l2 & d & [] & -> & Hd & [= Hle]).
  apply Z.leb_le in Hle. assert (a ∈ l1 ++ a :: l2) as Hal by set_solver.
  destruct (ok_free_seg _ _ _ a Hok Hal) as (d' & Hd' & Hh & Hpos & Ha4 & Hv4 & Hv & Hde). simplify_eq.
  unfold dend in Hde. destruct s as [r D w st en]; cbn [descs freeRing] in *.
  apply run_desc_at with d; [done|]. rewrite !wrapu_id by (unfold in_u; lia).
  pose proof (linked_nodup _ _ _ HK) as Hnd.
  apply ends_bind, ends_when; unfold DESC; [intros Hlt%Z.ltb_lt|intros Hge%Z.ltb_ge].
  - set (b := a + headerOffset d + m).
    assert (D !! b = None) as Hb by (apply (lay_inside R D a d); [apply Hok|done|unfold dend, b; lia]).
    eapply (ends_split_rest a m _ d (l1 ++ a :: l2)); [done|done|done|intros z Hz; by apply (ok_right R _ _ a d z Hok)|lia|lia|lia|lia|lia|].
    fold b. intros r' l' HK' Hl'.
    assert (4 | b) as Hb4 by (unfold b; rewrite Hh; repeat apply Z.divide_add_r; first [done|by exists 6]).
    assert (a + headerOffset d < b) as Hb1 by (unfold b; lia).
    assert (b + 24 + (availableSize d - m - 24) = dend a d) as Hend by (unfold dend, b; lia).
    assert (0 < availableSize d - m - 24) as Hav by lia.
    assert (a ∈ l') as (la & lb & ->)%list_elem_of_split by (rewrite Hl'; set_solver).
    apply (run_del_free a la lb); [done|]. intros r2 HK2. apply ends_ret. right.
    split_and!; [lia|rewrite Hh; apply Z.divide_add_r; [done|by exists 6]|].
    assert (a ∉ l1 ++ l2) as Hnal by (rewrite <- Permutation_middle in Hnd; by apply NoDup_cons in Hnd as [? _]).
    assert (la ++ lb ≡ₚ b :: l1 ++ l2) as Hp.
    { apply (Permutation_cons_inv (a := a)). rewrite Permutation_middle, Hl', <- Permutation_middle. apply Permutation_swap. }
    assert (∀ x, x ≠ a → x ≠ b → x ∈ la ++ lb ↔ x ∈ l1 ++ a :: l2) as Hel by (intros x ? ?; rewrite Hp; set_solver).
    assert (a ∉ la ++ lb) as Hnal' by (rewrite Hp; unfold b; rewrite not_elem_of_cons; split; [lia|done]).
    assert (a ∈ la ++ lb → a ∈ l1 ++ a :: l2) as Hla by done.
    exists (la ++ lb). split_and!; [by apply (heap_split R _ _ r r2 D w st en a b _ d Hok)| |].
    + apply (split_coalesced R _ _ r r2 D w st en a b _ d Hok Hd Hb1 Hend Hav Hb4 HK2 Hel Hla Hco Hnal').
      intros z Hz. by apply (Hco a d).
    + exists a, m. split; [lia|]. split; [|intros x p k z Hx Hz;
        apply (split_words R _ _ r r2 D w st en a b _ d Hok Hd Hb1 Hend Hav Hb4 HK2 Hel Hla x p k z Hx Hz)].
      * intros y q j. cbn [descs].
        rewrite (split_rest_live R _ _ r r2 D w st en a b _ d Hok Hd Hb1 Hend Hav Hb4 HK2 Hel Hla); [|done|rewrite Hp; by left].
        assert (¬ seg_live (l1 ++ a :: l2) D a q j) by (intros (? & _ & ? & _); done).
        destruct (decide (y = a)) as [Ea|Ea]; [subst y|]; unfold b; intuition lia.
      * intros ->. by destruct Hx as (? & _ & ? & _).
  - apply (run_del_free a l1 l2); [done|]. intros r' HK'. apply ends_ret. right.
    split_and!; [lia|rewrite Hh; apply Z.divide_add_r; [done|by exists 6]|].
    exists (l1 ++ l2). split_and!; [by apply (heap_take R l1 a l2 r)| |].
    + intros x y z Hx Hy Hz Hzl. apply (Hco x y z); [set_solver|done|done|set_solver].
    + apply take_gives; [done|done|lia].
Qed.

(** ** The aligned allocate *)

(** The payload of a free segment reaches a multiple of the alignment. *)
Definition reaches (k : Z) a d : Prop := ∃ m, (2 ^ k | m) ∧ a + 24 ≤ m ≤ dend a d.

(** For the alignments of the kernel (4 and 8) every free segment does. *)
Lemma reaches_small R l s k a d : heap_ok R l s → a ∈ l → descs s !! a = Some d → 2 ≤ k ≤ 3 → reaches k a d.
Proof.
  intros Hok Ha Hd Hk. destruct (ok_free_seg _ _ _ a Hok Ha) as (d' & ? & Hh & _ & [q Hq] & [v Hv] & Hpos & _).
  rewrite Hd in H. injection H as <-. unfold reaches, dend. rewrite Hh. assert (k = 2 ∨ k = 3) as [-> | ->] by lia.
  - exists (a + 24). split; [exists (q + 6); lia|lia].
  - destruct (Z.Even_or_Odd q) as [[i Hi]|[i Hi]].
    + exists (a + 24). split; [exists (i + 3); lia|lia].
    + exists (a + 28). split; [exists (i + 4); lia|lia].
Qed.

Lemma place_spec k a d : 0 < a → dend a d < 2 ^ 32 → headerOffset d = 24 → 2 ≤ k < 32 → reaches k a d →
  ∃ ret, place_of (2 ^ k) a d = Place (a + 24) ret (dend a d - ret) ∧ alignUp (a + 24) (2 ^ k) = ret ∧
    (2 ^ k | ret) ∧ a + 24 ≤ ret ≤ dend a d.
Proof.
  intros Ha Hlim Hh Hk (m & [q Hm] & Hr). unfold dend in *.
  assert (2 ^ 32 = 2 ^ (32 - k) * 2 ^ k) as E32 by (rewrite <- Z.pow_add_r by lia; f_equal; lia).
  assert (0 < 2 ^ k) as Hp by lia.
  assert (q + 1 ≤ 2 ^ (32 - k)) as Hq.
  { apply Z.lt_pred_le. cut (q < 2 ^ (32 - k)); [lia|]. apply (Z.mul_lt_mono_pos_r (2 ^ k)); [done|lia]. }
  assert (a + 24 + 2 ^ k - 1 < 2 ^ 32).
  { pose proof (Z.mul_le_mono_nonneg_r _ _ (2 ^ k) ltac:(lia) Hq). lia. }
  set (y := a + 24 + 2 ^ k - 1). pose proof (Z.mod_pos_bound y (2 ^ k) Hp) as Hb.
  assert (alignUp (a + 24) (2 ^ k) = y - y mod 2 ^ k) as E by (apply alignUp_eq; unfold in_u; lia).
  assert (y - y mod 2 ^ k ≤ m) as Hle.
  { pose proof (Z.div_mod y (2 ^ k) ltac:(lia)) as Hdm. assert (y / 2 ^ k < q + 1) as Hlt.
    { apply Z.div_lt_upper_bound; [done|]. unfold y. lia. }
    replace (y - y mod 2 ^ k) with (y / 2 ^ k * 2 ^ k) by lia. rewrite Hm.
    apply Z.mul_le_mono_nonneg_r; lia. }
  exists (y - y mod 2 ^ k). unfold place_of. rewrite Hh, wrapu_id, E by (unfold in_u; lia).
  split_and!; [|reflexivity|apply sub_mod_divide; lia|unfold y in *; lia|lia].
  rewrite wrapu_id by (unfold in_u, y in *; lia). f_equal; lia.
Qed.

(** A segment in use moves the end of its header. *)
Lemma heap_resize R l r D w st en a d av ho : heap_ok R l (KHeap r D w st en) → D !! a = Some d → a ∉ l →
  ho + av = headerOffset d + availableSize d → 24 ≤ ho → 0 < av → (4 | ho) →
  heap_ok R l (KHeap r (<[a := Desc (seg_left d) (seg_right d) av ho]> D)
                       (if 24 <? ho then <[a + ho - 4 := ho]> w else w) st en).
Proof.
  intros [HL HK HF HT HB] Ha Hal Hend Hho Hav Hho4. cbn in *. split; cbn.
  - by apply layout_resize.
  - eapply linked_dom; [done|]. intros x. rewrite lookup_insert_is_Some'. naive_solver.
  - intros x y Hx [[<- <-]|[_ Hy]]%lookup_insert_Some; [done|by apply (HF x)].
  - intros x y [[<- <-]|[Hne Hy]]%lookup_insert_Some Hx Hh; cbn in *.
    + rewrite (proj2 (Z.ltb_lt 24 ho)) by done. by rewrite lookup_insert_eq.
    + pose proof (lay_other R D a d x y (proj1 HL) Ha Hy (not_eq_sym Hne)). pose proof (lay_bounds R D x y (proj1 HL) Hy).
      pose proof (lay_bounds R D a d (proj1 HL) Ha).
      destruct (24 <? ho); [rewrite lookup_insert_ne by (unfold dend in *; lia)|]; by apply HT.
  - done.
Qed.

(** The end of a payload in use that is not needed becomes free. *)
Lemma ends_trim R l r D w st en x e n p : heap_ok R l (KHeap r D w st en) → coalesced l D → D !! x = Some e → x ∉ l →
  (∀ z, seg_right e = Some z → z ∉ l) → p = x + headerOffset e → 0 < n ≤ availableSize e → (4 | n) →
  ends (when (DESC <? u32 (availableSize e - n)) (split_rest x p n (u32 (availableSize e - n)));; mret p)
    (KHeap r D w st en) (λ q s', q = p ∧ ∃ l' k, heap_ok R l' s' ∧ coalesced l' (descs s') ∧ n ≤ k ∧
      (∀ y q j, seg_live l' (descs s') y q j ↔ y = x ∧ q = p ∧ j = k ∨ y ≠ x ∧ seg_live l D y q j) ∧
      (∀ y q j z, y ≠ x → seg_live l D y q j → q ≤ z < q + j → words s' !! z = w !! z)).
Proof.
  intros Hok Hco Hx Hxl Hr -> Hn Hn4. pose proof (ok_linked _ _ _ Hok) as HK. cbn in HK.
  pose proof (lay_bounds R D x e (proj1 (ok_layout _ _ _ Hok)) Hx) as Hb. unfold dend in Hb.
  destruct (lay_seg _ _ (proj1 (ok_layout _ _ _ Hok)) x e Hx) as (Hx4 & Hh4 & _ & _ & _).
  rewrite wrapu_id by (unfold in_u; lia).
  apply ends_bind, ends_when; unfold DESC; [intros Hlt%Z.ltb_lt|intros _].
  - set (b := x + headerOffset e + n).
    assert (D !! b = None) as Hnb by (apply (lay_inside R D x e); [apply Hok|done|unfold dend, b; lia]).
    apply (ends_split_rest x n _ e l); [done|done|done|intros z Hz; by apply (ok_right R _ _ x e z Hok)|lia|lia|lia|lia|lia|].
    fold b. intros r' l' HK' Hl'. apply ends_ret. split; [done|].
    assert (4 | b) as Hb4 by (unfold b; by repeat apply Z.divide_add_r).
    assert (x + headerOffset e < b) as Hb1 by (unfold b; lia).
    assert (b + 24 + (availableSize e - n - 24) = dend x e) as Hend by (unfold dend, b; lia).
    assert (0 < availableSize e - n - 24) as Hav.
    { destruct (lay_seg _ _ (proj1 (ok_layout _ _ _ Hok)) x e Hx) as (_ & _ & [v Hv] & _). destruct Hn4. lia. }
    assert (∀ y, y ≠ x → y ≠ b → y ∈ l' ↔ y ∈ l) as Hel by (intros y ? ?; rewrite Hl'; set_solver).
    assert (x ∉ l') as Hxl' by (rewrite Hl', not_elem_of_cons; split; [lia|done]).
    assert (x ∈ l' → x ∈ l) as Hla by done.
    exists l', n. split_and!; [by apply (heap_split R _ _ r r' D w st en x b _ e Hok)| |done| |].
    + by apply (split_coalesced R _ _ r r' D w st en x b _ e Hok Hx Hb1 Hend Hav Hb4 HK' Hel Hla).
    + intros y q j. cbn [descs].
      rewrite (split_rest_live R _ _ r r' D w st en x b _ e Hok Hx Hb1 Hend Hav Hb4 HK' Hel Hla); [|done|rewrite Hl'; by left].
      unfold b. intuition lia.
    + intros y q j z Hne Hy Hz. cbn.
      by apply (split_words R _ _ r r' D w st en x b _ e Hok Hx Hb1 Hend Hav Hb4 HK' Hel Hla y q j).
  - apply ends_ret. split; [done|]. exists l, (availableSize e). split_and!; [done|done|lia| |done].
    intros y q j. cbn [descs]. unfold seg_live. split.
    + intros (d & Hd & Hy & -> & ->). destruct (decide (y = x)) as [->|]; [simplify_eq; by left|right; eauto 10].
    + intros [(-> & -> & ->)|(_ & ?)]; [by exists e|done].
Qed.

Lemma scan_last {A} (look : Z → desc → A → A * bool) l D : ∀ acc acc',
  (∀ a, a ∈ l → is_Some (D !! a)) → scan look acc l D = (None, acc') →
  match last l with
  | Some a => ∃ d acc0, D !! a = Some d ∧ look a d acc0 = (acc', false)
  | None => acc' = acc
  end.
Proof.
  induction l as [|b l IH]; intros acc acc' HD; cbn [scan]; [by intros [= ->]|].
  destruct (HD b) as [d Hd]; [by left|]. rewrite Hd.
  destruct (look b d acc) as [acc1 []] eqn:El; [done|]. intros Hs. rewrite last_cons.
  specialize (IH acc1 acc' ltac:(set_solver) Hs). destruct (last l); [done|]. subst. eauto.
Qed.

Lemma run_null_links {r D w st en B} b (k : () → prog kheap B) Q : r !! Seg b = Some (Node None None) →
  ends (k ()) (KHeap r D w st en) Q →
  ends (ring_op (set_prev (Some (Seg b)) None);; ring_op (set_next (Some (Seg b)) None) ≫= k) (KHeap r D w st en) Q.
Proof.
  intros Hb HQ. apply ends_bind, ends_ring_op. eexists (), _. split; [by apply set_prev_run|].
  cbn. rewrite insert_id by done. apply ends_bind, ends_ring_op. eexists (), _. split; [by apply set_next_run|].
  cbn. by rewrite insert_id.
Qed.

(** The first half of the aligned [allocate]: the segment that begins at the aligned
    place is cut off, or the free segment moves the end of its header. *)
Definition placed R l s a d (ret : Z) node l1 s1 : Prop := ∃ e,
  heap_ok R l1 s1 ∧ coalesced l1 (descs s1) ∧ descs s1 !! node = Some e ∧ node ∉ l1 ∧
  (∀ z, seg_right e = Some z → z ∉ l1) ∧ ret = node + headerOffset e ∧ availableSize e = dend a d - ret ∧
  (∀ q j, ¬ seg_live l (descs s) node q j) ∧
  (∀ y q j, y ≠ node → seg_live l1 (descs s1) y q j ↔ seg_live l (descs s) y q j) ∧
  keeps_words l (descs s) (words s) (words s1).

(** The two cases, up to the assignments that both end with. *)
Lemma carve_split R l a d ret r D w st en : let b := ret - 24 in let s := KHeap r D w st en in
  heap_ok R l s → coalesced l D → D !! a = Some d → headerOffset d = 24 → a ∈ l →
  0 < a → (4 | b) → a + 24 < b → ret < dend a d → dend a d < 2 ^ 32 →
  ends (new_desc b;;
        upd_desc b (with_left (Some a));;
        d ← desc_at a;
        upd_desc b (with_right (seg_right d));;
        upd_desc a (with_right (Some b));;
        e ← desc_at b;
        set_left_of (seg_right e) (Some b);;
        upd_desc a (with_avail (u32 (b - (a + 24))));;
        ring_op (set_prev (Some (Seg b)) None);;
        ring_op (set_next (Some (Seg b)) None);;
        mret b) s
    (λ node s0, ends (upd_desc node (with_avail (dend a d - ret));;
      upd_desc node (with_offset (u32 (ret - node)));;
      d ← desc_at node;
      when (24 <? headerOffset d) (modify (λ h, set_words (<[ret - 4 := headerOffset d]> (words h)) h));;
      mret node) s0 (λ node s1, ∃ l', placed R l s a d ret node l' s1)).
Proof.
  intros b s Hok Hco Ha Hh Hal Hpos Hb4 Hlt Hret Hde. pose proof (ok_linked _ _ _ Hok) as HK. cbn in HK.
  assert (D !! b = None) as Hnb by (apply (lay_inside R D a d); [apply Hok|done|unfold dend, b in *; lia]).
  assert (a ≠ b) as Hab by lia. assert (a + headerOffset d < b) as Hb1 by lia.
  assert (b + 24 + (dend a d - ret) = dend a d) as Hend by (unfold b; lia). assert (0 < dend a d - ret) as Hav by lia.
  assert (∀ z, seg_right d = Some z → is_Some (D !! z) ∧ z ≠ a) as Hr.
  { intros z. by apply (ok_right R l s a d z Hok). }
  assert (seg_right d ≠ Some a) as Hna by (intros E; destruct (Hr a E); done).
  assert (seg_right d ≠ Some b) as Hnb' by (intros E; destruct (Hr b E) as [[? ?] _]; congruence).
  apply run_new_desc. do 5 run_desc. apply run_set_left_of.
  { intros z Er. destruct (Hr z Er) as [[e He] Hza]. exists e. assert (b ≠ z) by congruence. lk. }
  run_desc. apply run_null_links; [by rewrite lookup_insert_eq|]. apply ends_ret.
  do 3 run_desc. rewrite (wrapu_id 32 (ret - b)) by (unfold in_u, b; lia). replace (ret - b) with 24 by (unfold b; lia).
  cbn [Z.ltb Z.compare Pos.compare Pos.compare_cont when]. apply ends_bind, ends_ret, ends_ret.
  set (D' := split_map a b (dend a d - ret) 24 d D).
  match goal with |- context [KHeap _ ?M (forget_words _ _ _) _ _] => assert (M = D') as -> end.
  { rewrite (wrapu_id 32) by (unfold in_u, dend in *; lia).
    unfold D'. desc_maps; subst; unfold with_left, with_right, with_avail, with_offset; cbn;
      try (do 2 f_equal; lia). }
  assert (linked (<[Seg b:=Node None None]> r) D' l) as HK'.
  { eapply linked_dom; [by apply (linked_new r D l b (Desc None None 0 0))|]. intros x. unfold D', split_map.
    rewrite !lookup_insert_is_Some', fix_left_lookup. case_decide; rewrite ?fmap_is_Some; naive_solver. }
  assert (∀ x, x ≠ a → x ≠ b → x ∈ l ↔ x ∈ l) as Hel by done. assert (a ∈ l → a ∈ l) as Hla by done.
  assert (b ∉ l) as Hbl by (intros Hin; apply (lk_in _ _ _ HK) in Hin; rewrite Hnb in Hin; by destruct Hin).
  exists l, (Desc (Some a) (seg_right d) (dend a d - ret) 24). cbn [descs words].
  split_and!; [by apply (heap_split R l l r _ D w st en a b _ d Hok)| |
    apply split_map_lookup; right; left; split_and!; by try congruence|done| |unfold b; cbn; lia|done|
    intros q j (? & E & _); cbn in E; congruence| |].
  - intros x y z Hx [[-> ->]|[(_ & -> & ->)|(Hxa & Hxb & y0 & Hy & ->)]]%split_map_lookup; [by intros [= <-]|done|].
    rewrite seg_right_if. by apply (Hco x y0).
  - cbn. intros z Hz. by apply (Hco a d).
  - intros y q j Hne. unfold D'. rewrite (split_live R l l r _ D w st en a b _ d Hok Ha Hb1 Hend Hav Hb4 HK' Hel Hla).
    assert (¬ seg_live l D a q j) by (intros (? & _ & ? & _); done).
    destruct (decide (y = a)) as [Ea|Ea]; [subst y|]; intuition.
  - intros x p n z Hx Hz. apply (split_words R l l r _ D w st en a b _ d Hok Ha Hb1 Hend Hav Hb4 HK' Hel Hla x p n z Hx Hz).
    intros ->. by destruct Hx as (? & _ & ? & _).
Qed.

Lemma carve_whole R l1 l2 a d ret r D w st en r0 : let l := l1 ++ a :: l2 in
  heap_ok R (l1 ++ l2) (KHeap r D w st en) → coalesced l D → D !! a = Some d → headerOffset d = 24 → a ∉ l1 ++ l2 →
  0 < a → (4 | a) → (4 | ret) → a + 24 ≤ ret < dend a d → dend a d < 2 ^ 32 →
  ends (upd_desc a (with_avail (dend a d - ret));;
      upd_desc a (with_offset (u32 (ret - a)));;
      d ← desc_at a;
      when (24 <? headerOffset d) (modify (λ h, set_words (<[ret - 4 := headerOffset d]> (words h)) h));;
      mret a) (KHeap r D w st en) (λ node s1, ∃ l', placed R l (KHeap r0 D w st en) a d ret node l' s1).
Proof.
  intros l Hok Hco Ha Hh Hal Hpos Ha4 Hr4 Hret Hde. run_desc. run_desc. run_desc.
  rewrite (wrapu_id 32) by (unfold in_u; lia). rewrite insert_insert_eq.
  set (d' := Desc (seg_left d) (seg_right d) (dend a d - ret) (ret - a)).
  assert (4 | ret - a) as Hd4 by (by apply Z.divide_sub_r).
  pose proof (heap_resize R (l1 ++ l2) r D w st en a d (dend a d - ret) (ret - a) Hok Ha Hal) as Hok'.
  replace (a + (ret - a) - 4) with (ret - 4) in Hok' by lia.
  assert (∀ Q : Z → kheap → Prop, Q a (KHeap r (<[a := d']> D) (if 24 <? ret - a then <[ret - 4 := ret - a]> w else w) st en) →
    ends (when (24 <? ret - a) (modify (λ h, set_words (<[ret - 4 := ret - a]> (words h)) h));; mret a)
         (KHeap r (<[a := d']> D) w st en) Q) as Hrun.
  { intros Q HQ. apply ends_bind, ends_when; intros E; rewrite E in HQ; [apply ends_modify|]; by apply ends_ret. }
  apply Hrun. exists (l1 ++ l2), d'. cbn [descs words].
  assert (ret - a + (dend a d - ret) = headerOffset d + availableSize d) as E1 by (unfold dend; lia).
  split_and!; [apply Hok'; first [exact E1|exact Hd4|lia]| |by rewrite lookup_insert_eq|done| |unfold d'; cbn; lia|done|
    intros q j (? & _ & Hn & _); apply Hn; unfold l; set_solver| |].
  - intros x y z Hx [[<- <-]|[Hne Hy]]%lookup_insert_Some Hz Hzl; [done|].
    apply (Hco x y z); [unfold l; set_solver|done|done|unfold l; set_solver].
  - cbn. intros z Hz Hzl. apply (Hco a d z); [unfold l; set_solver|done|done|unfold l; set_solver].
  - intros y q j Hne. unfold seg_live. rewrite lookup_insert_ne by done.
    split; intros (e & He & Hy & ?); exists e; (split_and!; [done| |tauto..]); unfold l in *; set_solver.
  - intros x p n z (e & He & Hx & -> & ->) Hz. destruct (24 <? ret - a); [|done].
    assert (x ≠ a) by (intros ->; unfold l in Hx; set_solver).
    pose proof (lay_other R D a d x e (proj1 (ok_layout _ _ _ Hok)) Ha He ltac:(done)).
    pose proof (lay_bounds R D x e (proj1 (ok_layout _ _ _ Hok)) He).
    rewrite lookup_insert_ne; [done|]. unfold dend in *. lia.
Qed.

Lemma divide_four k x : 2 ≤ k → (2 ^ k | x) → (4 | x).
Proof.
  intros Hk [q ->]. exists (q * 2 ^ (k - 2)). replace 4 with (2 ^ 2) by done.
  rewrite <- Z.mul_assoc, <- Z.pow_add_r by lia. do 2 f_equal. lia.
Qed.

Lemma ends_carve R l1 l2 a d ret k r D w st en : let l := l1 ++ a :: l2 in let s := KHeap r D w st en in
  heap_ok R l s → coalesced l D → D !! a = Some d → headerOffset d = 24 → 2 ≤ k < 32 → (2 ^ k | ret) →
  a + 24 ≤ ret < dend a d →
  ends (carve_aligned a (Place (a + 24) ret (dend a d - ret))) s (λ node s1, ∃ l', placed R l s a d ret node l' s1).
Proof.
  intros l s Hok Hco Ha Hh Hk Hkr Hret. assert (a ∈ l) as Hal by (unfold l; set_solver).
  destruct (ok_free_seg _ _ _ a Hok Hal) as (d' & Hd' & _ & Hpos & Ha4 & Hv4 & Hv & Hde). cbn in Hd'. simplify_eq.
  assert (4 | ret) as Hr4.
  { apply (divide_four k); [lia|done]. }
  assert (4 | ret - 24) as Hb4 by (apply Z.divide_sub_r; [done|by exists 6]).
  pose proof (ok_linked _ _ _ Hok) as HK. cbn in HK. unfold carve_aligned, DESC. cbn [p_left p_ret p_avail].
  rewrite (wrapu_id 32 (ret - 24)) by (unfold in_u; lia).
  pose proof (alignDown_eq (ret - 24) 2) as Ed. change (2 ^ 2) with 4 in Ed.
  rewrite Ed by (unfold in_u; lia). rewrite (proj2 (Z.mod_divide _ 4 ltac:(lia)) Hb4), Z.sub_0_r. clear Ed.
  apply ends_bind. destruct (Z.ltb_spec (a + 24) (ret - 24)) as [Hlt|Hge].
  - apply (carve_split R l a d ret); first [done|lia].
  - apply (run_del_free a l1 l2); [done|]. intros r' HK'. apply ends_ret.
    pose proof (heap_take R l1 a l2 r r' D w st en Hok HK') as Hok'.
    assert (a ∉ l1 ++ l2) as Hnal.
    { pose proof (linked_nodup _ _ _ HK) as Hnd. unfold l in Hnd. rewrite <- Permutation_middle in Hnd.
      by apply NoDup_cons in Hnd as [? _]. }
    apply (carve_whole R l1 l2 a d ret r'); first [done|lia].
Qed.
Lemma heap_allocate_aligned R l s n k : heap_ok R l s → coalesced l (descs s) → 0 < n → n + 3 < 2 ^ 32 → 2 ≤ k < 32 →
  (∀ a d, a ∈ l → descs s !! a = Some d → reaches k a d) →
  ends (allocate_aligned n (2 ^ k)) s (λ p s',
    s' = s ∧ (∀ a d, a ∈ l → descs s !! a = Some d → dend a d - alignUp (a + 24) (2 ^ k) < n) ∧
      p = match last l with Some a => alignUp (a + 24) (2 ^ k) | None => 0 end ∨
    0 < p ∧ (2 ^ k | p) ∧ (∃ a d, a ∈ l ∧ descs s !! a = Some d ∧ n ≤ dend a d - alignUp (a + 24) (2 ^ k)) ∧
    ∃ l', heap_ok R l' s' ∧ coalesced l' (descs s') ∧ gives l s l' s' p n).
Proof.
  intros Hok Hco Hn Hlim Hk Hreach. destruct (align4 n Hn Hlim) as [Hm Hm4]. unfold allocate_aligned.
  set (m := alignUp n 4) in *. pose proof (ok_linked _ _ _ Hok) as HK. cbv zeta.
  set (look := λ (a : Z) (d : desc) (_ : place), let p := place_of (2 ^ k) a d in (p, m <=? p_avail p)).
  eapply ends_bind, ends_foreach; [exact HK|].
  destruct (scan look (Place 0 0 0) l (descs s)) as [[a|] p] eqn:Hscan; cbn [fst snd].
  2: { apply ends_ret. left. split; [done|]. split.
    - intros a d Ha Hd. destruct (ok_free_seg _ _ _ a Hok Ha) as (d' & Hd' & Hh & Hpos & [q Hq] & [v Hv] & Hv0 & Hde).
      rewrite Hd in Hd'. injection Hd' as <-.
      destruct (place_spec k a d Hpos Hde Hh Hk (Hreach a d Ha Hd)) as (ret & Hp & -> & Hkr & Hret).
      destruct (scan_not_found _ _ _ _ _ (lk_in _ _ _ HK) Hscan a d Ha Hd) as (? & ? & Hlook).
      unfold look in Hlook. rewrite Hp in Hlook. injection Hlook as _ Hlt. apply Z.leb_gt in Hlt. cbn in Hlt.
      destruct (divide_four k ret ltac:(lia) Hkr) as [i Hi]. destruct Hm4 as [j Hj]. unfold dend in *. lia.
    - pose proof (scan_last _ _ _ _ _ (lk_in _ _ _ HK) Hscan) as Hlast.
      destruct (last l) as [a|] eqn:El; [|by rewrite Hlast].
      apply last_Some_elem_of in El as Ha. destruct Hlast as (d & acc0 & Hd & Hlook).
      destruct (ok_free_seg _ _ _ a Hok Ha) as (d' & Hd' & Hh & Hpos & _ & _ & Hv0 & Hde).
      rewrite Hd in Hd'. injection Hd' as <-.
      destruct (place_spec k a d Hpos Hde Hh Hk (Hreach a d Ha Hd)) as (ret & Hp & -> & _).
      unfold look in Hlook. rewrite Hp in Hlook. by injection Hlook as <- _. }
  destruct (scan_found _ _ _ _ _ _ Hscan) as (l1 & l2 & d & p0 & -> & Hd & Hlook).
  assert (a ∈ l1 ++ a :: l2) as Hal by set_solver.
  destruct (ok_free_seg _ _ _ a Hok Hal) as (d' & Hd' & Hh & Hpos & Ha4 & Hv4 & Hv & Hde).
  rewrite Hd in Hd'. injection Hd' as <-.
  destruct (place_spec k a d Hpos Hde Hh Hk (Hreach a d Hal Hd)) as (ret & Hp & Eup & Hkr & Hret).
  unfold look in Hlook. rewrite Hp in Hlook. injection Hlook as <- Hle. apply Z.leb_le in Hle.
  cbn [p_avail p_ret p_left] in *. destruct s as [r D w st en]; cbn [descs freeRing] in *.
  eapply ends_seq; [apply (ends_carve R l1 l2 a d ret k); first [done|lia]|].
  intros node s1 (l' & e & Hok1 & Hco1 & He & Hnode & Hre & Eret & Eav & Hno & Hlive & Hwords). cbn beta.
  destruct s1 as [r1 D1 w1 st1 en1]; cbn [descs words] in *. rewrite <- Eav.
  eapply ends_mono; [apply (ends_trim R l' r1 D1 w1 st1 en1 node e m ret); first [done|lia]|].
  intros q s2 (-> & l2' & j & Hok2 & Hco2 & Hj & Hlive2 & Hwords2). right.
  split_and!; [lia|done|exists a, d; rewrite Eup; split_and!; [done|done|lia]|]. exists l2'. split_and!; [done|done|]. exists node, j. split_and!; [lia|..].
  - intros y p i. rewrite Hlive2. cbn [descs]. specialize (Hno p i). specialize (Hlive y p i).
    destruct (decide (y = node)) as [Ey|Ey]; [subst y|]; intuition.
  - intros x p i z Hx Hz. assert (x ≠ node) as Hne by (intros ->; by apply (Hno p i)).
    etransitivity; [|by apply (Hwords x p i z)]. apply (Hwords2 x p i); [done| |done]. by apply Hlive.
Qed.

(** ** free *)

Lemma zero_words_out a n w z : z < a ∨ a + 4 * Z.of_nat n ≤ z → zero_words a n w !! z = w !! z.
Proof.
  revert a. induction n as [|n IH]; intros a Hz; cbn; [done|].
  rewrite lookup_insert_ne by lia. apply IH. lia.
Qed.

Lemma zero_header_out b ho w z : 0 ≤ ho → (4 | ho) → ¬ (b ≤ z < b + ho) → zero_words b (Z.to_nat (ho / 4)) w !! z = w !! z.
Proof.
  intros H0 [q ->] Hz. rewrite Z.div_mul by done. apply zero_words_out. lia.
Qed.

(** Two neighbours become one segment. *)
Section merge_ok.
Context (R : list (Z * Z)) (l l' : list Z) (r r' : gmap hkey (node hkey)) (D : gmap Z desc) (w : gmap Z Z).
Context (st en a b : Z) (d e : desc).
Context (Hok : heap_ok R l (KHeap r D w st en)) (Ha : D !! a = Some d) (Hb : D !! b = Some e).
Context (Hab : seg_right d = Some b).
Context (HK : linked r' (merge_map a b d e D) l') (Hl : ∀ x, x ≠ b → x ∈ l' ↔ x ∈ l).
#[local] Set Default Proof Using "All".
#[local] Abbreviation D' := (merge_map a b d e D).
#[local] Abbreviation w' := (zero_words b (Z.to_nat (headerOffset e / 4)) w).

Lemma merge_words x y z : D !! x = Some y → x ≠ b → x + 4 ≤ z → z < dend x y → w' !! z = w !! z.
Proof.
  intros Hx Hne H1 H2. destruct Hok as [HL _ _ _ _]; cbn in *.
  destruct (lay_seg _ _ (proj1 HL) b e Hb) as (_ & Hh4 & _ & Hh & _).
  pose proof (lay_bounds R D b e (proj1 HL) Hb). pose proof (lay_other R D b e x y (proj1 HL) Hb Hx Hne).
  apply zero_header_out; [lia|done|]. unfold dend in *. lia.
Qed.

Lemma heap_merge : heap_ok R l' (KHeap r' D' w' st en).
Proof.
  destruct Hok as [HL HKo HF HT HB] eqn:E; clear E; cbn in *.
  destruct (merge_facts R D a b d e HL Ha Hb Hab) as (_ & _ & Hlt & _).
  split; cbn; [by apply layout_merge|done| | |done].
  - intros x y Hx [[-> ->]|(Hxa & Hxb & y0 & Hy & ->)]%(merge_inv R D a b d e HL Ha Hb Hab); cbn.
    + apply (HF a d); [apply Hl; [lia|done]|done].
    + apply Hl in Hx; [|done]. case_decide; cbn; by apply (HF x y0).
  - intros x y [[-> ->]|(Hxa & Hxb & y0 & Hy & ->)]%(merge_inv R D a b d e HL Ha Hb Hab) Hx Hh; cbn in *.
    + rewrite Hl in Hx by lia. rewrite (merge_words a d); [by apply HT|done|lia|lia|].
      pose proof (lay_bounds R D a d (proj1 HL) Ha). unfold dend. lia.
    + rewrite Hl in Hx by done.
      assert (headerOffset (if decide (seg_right e = Some x) then with_left (Some a) y0 else y0) = headerOffset y0)
        as E by (by case_decide). rewrite E in *.
      pose proof (lay_bounds R D x y0 (proj1 HL) Hy).
      rewrite (merge_words x y0); [by apply HT|done|done|lia|unfold dend; lia].
Qed.

Lemma merge_live x p n : seg_live l' D' x p n ↔
  x = a ∧ a ∉ l ∧ p = a + headerOffset d ∧ n = availableSize d + (availableSize e + headerOffset e) ∨
  x ≠ a ∧ x ≠ b ∧ seg_live l D x p n.
Proof.
  pose proof (ok_layout _ _ _ Hok) as HL. cbn in HL.
  destruct (merge_facts R D a b d e HL Ha Hb Hab) as (_ & _ & Hlt & _). unfold seg_live. split.
  - intros (y & [[-> ->]|(Hxa & Hxb & y0 & Hy & ->)]%(merge_inv R D a b d e HL Ha Hb Hab) & Hx & -> & ->); cbn.
    + left. rewrite Hl in Hx by lia. done.
    + right. split_and!; [done..|]. exists y0. rewrite Hl in Hx by done. split_and!; [done..| |]; by case_decide.
  - intros [(-> & Hx & -> & ->)|(Hxa & Hxb & y & Hy & Hx & -> & ->)].
    + eexists. split; [apply (merge_inv R D a b d e HL Ha Hb Hab); by left|]. rewrite Hl by lia. done.
    + eexists. split; [apply (merge_inv R D a b d e HL Ha Hb Hab); right; eauto 6|]. rewrite Hl by done.
      split_and!; [done|by case_decide..].
Qed.

Lemma merge_coalesced : coalesced l D → b ∉ l' → (∀ z, seg_right e = Some z → z ∉ l) → coalesced l' D'.
Proof.
  intros Hco Hbl Hr. pose proof (ok_layout _ _ _ Hok) as HL. cbn in HL.
  intros x y z Hx [[-> ->]|(Hxa & Hxb & y0 & Hy & ->)]%(merge_inv R D a b d e HL Ha Hb Hab).
  - cbn. intros Hz Hzl. destruct (decide (z = b)) as [->|Hne]; [done|]. apply (Hr z Hz). by apply Hl.
  - rewrite seg_right_if. intros Hz Hzl. destruct (decide (z = b)) as [->|Hne]; [done|].
    apply (Hco x y0 z); [by apply Hl|done|done|by apply Hl].
Qed.
End merge_ok.

(** [absorb] merges. *)
Lemma ends_absorb R l l' r r0 D w st en a b d e (Q : () → kheap → Prop) :
  heap_ok R l (KHeap r D w st en) → D !! a = Some d → D !! b = Some e → seg_right d = Some b →
  linked r0 D l' → b ∉ l' →
  (∀ r', linked r' (merge_map a b d e D) l' →
    Q () (KHeap r' (merge_map a b d e D) (zero_words b (Z.to_nat (headerOffset e / 4)) w) st en)) →
  ends (absorb a b) (KHeap r0 D w st en) Q.
Proof.
  intros Hok Ha Hb Hab HK Hbl HQ. pose proof (ok_layout _ _ _ Hok) as HL. cbn in HL.
  destruct (merge_facts R D a b d e HL Ha Hb Hab) as (Eb & _ & Hlt & Em & Hra & Hrb).
  pose proof (lay_bounds R D a d (proj1 HL) Ha). pose proof (lay_bounds R D b e (proj1 HL) Hb).
  unfold absorb. assert (a ≠ b) as Hne by lia. run_desc. run_desc.
  apply run_set_left_of.
  { intros z Hz. destruct (ok_right R l _ b e z Hok Hb Hz) as [Hs _]. rewrite lookup_insert_is_Some'. by right. }
  run_desc. unfold zero_header. apply ends_modify. cbn [freeRing descs words _start _end].
  rewrite (wrapu_id 32 (availableSize e + headerOffset e)) by (unfold in_u, dend in *; lia).
  rewrite (wrapu_id 32) by (unfold in_u, dend in *; lia).
  match goal with |- Q _ (KHeap _ ?M _ _ _) => assert (M = merge_map a b d e D) as -> end.
  { desc_maps; subst; unfold with_left, with_right, with_avail, with_offset; cbn; done. }
  apply HQ. eapply linked_dom; [by apply linked_delete|]. intros x. unfold merge_map.
  rewrite fix_left_lookup. rewrite lookup_delete_is_Some.
  case_decide; rewrite ?fmap_is_Some, lookup_insert_is_Some', lookup_delete_is_Some; naive_solver.
Qed.

(** Whether the link of a segment to a neighbour leads to a free one. *)
Definition free_link (o : option Z) l : bool := match o with Some b => bool_decide (b ∈ l) | None => false end.

Lemma run_is_free {r D w st en B} l o (k : bool → prog kheap B) Q : linked r D l →
  (∀ b, o = Some b → is_Some (D !! b)) → ends (k (free_link o l)) (KHeap r D w st en) Q →
  ends (is_free o ≫= k) (KHeap r D w st en) Q.
Proof.
  intros HK Ho HQ. apply ends_bind. destruct o as [b|]; cbn; [|by apply ends_ret].
  specialize (Ho b eq_refl). cbn in HQ. unfold in_ring.
  destruct (decide (b ∈ l)) as [Hin|Hn].
  - rewrite bool_decide_true in HQ by done. apply list_elem_of_split in Hin as (l1 & l2 & ->).
    pose proof (lk_ring _ _ _ HK) as Hr. rewrite fmap_app, fmap_cons in Hr. apply ring_rotate in Hr.
    destruct (prev_of_Some _ _ _ (ring_last _ _ _ Hr)) as (n & Hn & Hp).
    eapply ends_bind, ends_node_of; [exact Hn|]. rewrite Hp. by apply ends_ret.
  - rewrite bool_decide_false in HQ by done.
    eapply ends_bind, ends_node_of; [by apply (lk_null _ _ _ HK)|]. by apply ends_ret.
Qed.

(** The offset in front of a payload in use. *)
Lemma run_word_before R l r D w st en x d {B} (k : Z → prog kheap B) Q :
  heap_ok R l (KHeap r D w st en) → D !! x = Some d → x ∉ l →
  ends (k (headerOffset d)) (KHeap r D w st en) Q →
  ends (word_before (x + headerOffset d) ≫= k) (KHeap r D w st en) Q.
Proof.
  intros Hok Hx Hxl HQ. pose proof (lay_bounds R D x d (proj1 (ok_layout _ _ _ Hok)) Hx) as Hb.
  unfold word_before. apply ends_bind, ends_bind, ends_get. cbn [descs words]. unfold DESC.
  destruct (decide (headerOffset d = 24)) as [E|Hne].
  - replace (x + headerOffset d - 24) with x by lia. rewrite Hx. by apply ends_ret.
  - assert (D !! (x + headerOffset d - 24) = None) as ->.
    { apply (lay_inside R D x d); [apply Hok|done|unfold dend; lia]. }
    eapply ends_defined; [apply (ok_tags _ _ _ Hok); [done|done|lia]|done].
Qed.

(** The first half of [free]: the right neighbour is merged when it is free. *)
Definition right_merged R l s x l1 s1 : Prop := ∃ d1,
  heap_ok R l1 s1 ∧ coalesced l1 (descs s1) ∧ descs s1 !! x = Some d1 ∧ x ∉ l1 ∧
  (∀ z, seg_right d1 = Some z → z ∉ l1) ∧
  (∀ y q j, y ≠ x → seg_live l1 (descs s1) y q j ↔ seg_live l (descs s) y q j) ∧
  (∀ y q j z, y ≠ x → seg_live l (descs s) y q j → q ≤ z < q + j → words s1 !! z = words s !! z).

Lemma ends_merge_right R l r D w st en x d : let s := KHeap r D w st en in
  heap_ok R l s → coalesced l D → D !! x = Some d → x ∉ l →
  ends (match seg_right d with
        | Some b => when (free_link (seg_right d) l)
            (ring_op (delNodeFromRingDoubleList (Some (Seg b)));; absorb x b)
        | None => mret ()
        end) s (λ _ s1, ∃ l1, right_merged R l s x l1 s1).
Proof.
  intros s Hok Hco Hx Hxl.
  assert ((∀ z, seg_right d = Some z → z ∉ l) → ∃ l1, right_merged R l s x l1 s) as Hsame.
  { intros Hr. by exists l, d. }
  pose proof (ok_linked _ _ _ Hok) as HK. cbn in HK. unfold free_link.
  destruct (seg_right d) as [b|] eqn:Er; [|by apply ends_ret, Hsame].
  apply ends_when; intros Hb; [apply bool_decide_eq_true in Hb|apply bool_decide_eq_false in Hb];
    [|apply Hsame; by intros z [= <-]].
  destruct (ok_free_seg _ _ _ b Hok Hb) as (e & He & Heh & _). cbn in He.
  apply list_elem_of_split in Hb as (l1 & l2 & Hl). pose proof (linked_nodup _ _ _ HK) as Hnd. rewrite Hl in Hnd, HK.
  rewrite <- Permutation_middle in Hnd. apply NoDup_cons in Hnd as [Hbl Hnd].
  assert (∀ y, y ≠ b → y ∈ l1 ++ l2 ↔ y ∈ l) as Hel by (intros y ?; rewrite Hl; set_solver).
  apply (run_del_free b l1 l2); [done|]. intros r1 HK1.
  eapply (ends_absorb R l (l1 ++ l2) r); [done..|]. intros r' HK'.
  assert (∀ z, seg_right e = Some z → z ∉ l) as Hre.
  { intros z Hz. apply (Hco b e z); [rewrite Hl; set_solver|done|done]. }
  exists (l1 ++ l2), (merged d e). cbn [descs words].
  assert (x ∉ l1 ++ l2) as Hxl' by (rewrite Hl in Hxl; set_solver).
  split_and!.
  - by apply (heap_merge R l _ r).
  - by apply (merge_coalesced R l _ r r' D w st en x b d e Hok Hx He Er HK' Hel).
  - apply (merge_inv R D x b d e (ok_layout _ _ _ Hok) Hx He Er). by left.
  - done.
  - cbn. intros z Hz Hzl. apply (Hre z Hz). rewrite Hl. set_solver.
  - intros y q j Hne. rewrite (merge_live R l _ r r' D w st en x b d e Hok Hx He Er HK' Hel).
    assert (¬ seg_live l D b q j) by (intros (? & _ & Hn & _); rewrite Hl in Hn; set_solver).
    cbn [descs s]. destruct (decide (y = b)) as [Ey|Ey]; [subst y|]; intuition.
  - intros y q j z Hne (dy & Hy & Hyl & -> & ->) Hz. pose proof (lay_bounds R D y dy (proj1 (ok_layout _ _ _ Hok)) Hy).
    assert (y ≠ b) by (intros ->; rewrite Hl in Hyl; set_solver).
    apply (merge_words R l _ r r' D w st en x b d e Hok Hx He Er HK' Hel y dy z Hy); [done|lia|unfold dend; lia].
Qed.

(** A segment with the usual header becomes free. *)
Lemma heap_add R l l' r r' D w st en x d : heap_ok R l (KHeap r D w st en) → D !! x = Some d →
  headerOffset d = 24 → linked r' D l' → l' ≡ₚ x :: l → heap_ok R l' (KHeap r' D w st en).
Proof.
  intros [HL HKo HF HT HB] Hx Hh HK Hl. cbn in *. split; cbn; [done|done| | |done].
  - intros y dy Hy Hd. rewrite Hl in Hy. apply elem_of_cons in Hy as [->|Hy]; [congruence|by apply (HF y)].
  - intros y dy Hd Hy. apply HT; [done|]. rewrite Hl in Hy. set_solver.
Qed.

(** The state when [x] is no longer in use. *)
Definition released R l s x s' : Prop := ∃ l', heap_ok R l' s' ∧ coalesced l' (descs s') ∧
  (∀ y q j, seg_live l' (descs s') y q j ↔ y ≠ x ∧ seg_live l (descs s) y q j) ∧
  (∀ y q j z, y ≠ x → seg_live l (descs s) y q j → q ≤ z < q + j → words s' !! z = words s !! z).

Lemma released_join R l r D w st en x d : let s := KHeap r D w st en in
  heap_ok R l s → coalesced l D → D !! x = Some d → x ∉ l → (∀ z, seg_right d = Some z → z ∉ l) →
  ∀ b, seg_left d = Some b → b ∈ l → ends (absorb b x) s (λ _, released R l s x).
Proof.
  intros s Hok Hco Hx Hxl Hr b Hb Hbl. pose proof (ok_layout _ _ _ Hok) as [HO HC]. cbn in HO, HC.
  pose proof (lay_left _ _ HC x d Hx) as Hl. rewrite Hb in Hl. destruct Hl as (e & He & Her).
  assert (∀ y, y ≠ x → y ∈ l ↔ y ∈ l) as Hel by done.
  eapply (ends_absorb R l l r); [exact Hok|done..|apply Hok|done|]. intros r' HK'. exists l. cbn [descs words s].
  split_and!; [by apply (heap_merge R l l r)| | |].
  - by apply (merge_coalesced R l l r r' D w st en b x e d Hok He Hx Her HK' Hel).
  - intros y q j. rewrite (merge_live R l l r r' D w st en b x e d Hok He Hx Her HK' Hel).
    assert (¬ seg_live l D b q j) by (intros (? & _ & Hn & _); done).
    destruct (decide (y = b)) as [Ey|Ey]; [subst y|]; intuition.
  - intros y q j z Hne (dy & Hy & Hyl & -> & ->) Hz. pose proof (lay_bounds R D y dy HO Hy).
    apply (merge_words R l l r r' D w st en b x e d Hok He Hx Her HK' Hel y dy z Hy); [done|lia|unfold dend; lia].
Qed.

Lemma released_add R l r D w st en x d : let s := KHeap r D w st en in
  heap_ok R l s → coalesced l D → D !! x = Some d → x ∉ l → (∀ z, seg_right d = Some z → z ∉ l) →
  (∀ b, seg_left d = Some b → b ∉ l) →
  ends (when (DESC <? headerOffset d) (
          upd_desc x (λ d, with_avail (u32 (availableSize d + u32 (headerOffset d - DESC))) d);;
          upd_desc x (with_offset DESC));;
        add_free x) s (λ _, released R l s x).
Proof.
  intros s Hok Hco Hx Hxl Hr Hleft. pose proof (ok_layout _ _ _ Hok) as [HO HC]. cbn in HO, HC.
  pose proof (lay_bounds R D x d HO Hx) as Hb. unfold dend in Hb.
  set (d' := Desc (seg_left d) (seg_right d) (availableSize d + headerOffset d - 24) 24).
  assert (heap_ok R l (KHeap r (<[x := d']> D) w st en)) as Hok'.
  { apply (heap_resize R l r D w st en x d (availableSize d + headerOffset d - 24) 24 Hok Hx Hxl); try lia. by exists 6. }
  apply ends_bind.
  assert (∀ Q : () → kheap → Prop, Q () (KHeap r (<[x := d']> D) w st en) →
    ends (when (DESC <? headerOffset d) (
          upd_desc x (λ d, with_avail (u32 (availableSize d + u32 (headerOffset d - DESC))) d);;
          upd_desc x (with_offset DESC))) s Q) as Hrun.
  { intros Q HQ. apply ends_when; unfold DESC; [intros Hlt%Z.ltb_lt|intros Hge%Z.ltb_ge].
    - unfold s. run_desc. eapply run_last_upd; [lk|]. unfold with_offset, with_avail.
      cbn [availableSize headerOffset seg_left seg_right]. rewrite insert_insert_eq. rewrite !(wrapu_id 32) by (unfold in_u; rewrite ?(wrapu_id 32) by (unfold in_u; lia); lia).
      by replace (availableSize d + (headerOffset d - 24)) with (availableSize d + headerOffset d - 24) by lia.
    - rewrite insert_id in HQ; [done|]. rewrite Hx. destruct d; cbn in *. unfold d'; cbn. do 2 f_equal; lia. }
  apply Hrun. clear Hrun. assert (<[x := d']> D !! x = Some d') as Hd' by (by rewrite lookup_insert_eq).
  eapply (run_add_free x d' l); [apply Hok'|done|done|]. intros r' l' HK' Hl'. exists l'. cbn [descs words s].
  split_and!; [by apply (heap_add R l l' r r' _ w st en x d')| | |done].
  - intros y dy z Hy Hdy Hz Hzl. rewrite Hl' in Hy, Hzl. apply elem_of_cons in Hy as [->|Hy].
    + rewrite Hd' in Hdy. injection Hdy as <-. cbn in Hz. apply elem_of_cons in Hzl as [->|Hzl]; [|by apply (Hr z)].
      by destruct (ok_right R l s x d x Hok Hx Hz).
    + rewrite lookup_insert_ne in Hdy by (intros ->; done).
      apply elem_of_cons in Hzl as [->|Hzl]; [|by apply (Hco y dy z)].
      pose proof (lay_right _ _ HC y dy Hdy) as Hyr. rewrite Hz in Hyr. destruct Hyr as (_ & e & He & Hle).
      assert (seg_left d = Some y) as Hxy by congruence. by apply (Hleft y).
  - intros y q j. unfold seg_live. split.
    + intros (dy & Hdy & Hy & -> & ->). rewrite Hl' in Hy. apply not_elem_of_cons in Hy as [Hne Hy].
      rewrite lookup_insert_ne in Hdy by congruence. split; [done|]. by exists dy.
    + intros (Hne & dy & Hdy & Hy & -> & ->). exists dy. rewrite lookup_insert_ne by congruence.
      split_and!; [done| |done..]. rewrite Hl', not_elem_of_cons. done.
Qed.

Lemma heap_free R l s x p n : heap_ok R l s → coalesced l (descs s) → seg_live l (descs s) x p n →
  ends (free p) s (λ _, released R l s x).
Proof.
  intros Hok Hco (d & Hx & Hxl & -> & ->). destruct s as [r D w st en]; cbn [descs] in *.
  pose proof (ok_layout _ _ _ Hok) as [HO HC]. cbn in HO, HC.
  destruct (lay_in _ _ HO x d Hx) as (f & t & HR & Hf & Ht). pose proof (ok_bounds _ _ _ Hok f t HR) as Hbd. cbn in Hbd.
  pose proof (lay_bounds R D x d HO Hx) as Hb. unfold dend in *.
  unfold free. apply ends_bind, ends_get. cbn [_start _end].
  rewrite (proj2 (Z.eqb_neq _ _)), !(proj2 (Z.ltb_ge _ _)) by lia. cbn [orb].
  eapply (run_word_before R l); [done..|]. unfold DESC at 1. rewrite (proj2 (Z.ltb_ge _ _)) by lia.
  replace (u32 (x + headerOffset d - headerOffset d)) with x by (rewrite wrapu_id; [lia|unfold in_u; lia]).
  eapply ends_bind, ends_node_of; [by apply (lk_null _ _ _ (ok_linked _ _ _ Hok))|]. cbn [next].
  rewrite bool_decide_false by (intros Hn; by apply Hn). run_desc.
  eapply (run_is_free l); [apply Hok|intros z Hz; by apply (ok_right R l _ x d z Hok)|].
  eapply ends_seq; [by apply (ends_merge_right R l r D w st en x d)|].
  intros [] [r1 D1 w1 st1 en1] (l1 & d1 & Hok1 & Hco1 & Hx1 & Hxl1 & Hr1 & Hlive & Hwords); cbn [descs words] in *.
  run_desc. eapply (run_is_free l1); [apply Hok1| |].
  { intros z Hz. pose proof (lay_left _ _ (proj2 (ok_layout _ _ _ Hok1)) x d1 Hx1) as Hl. rewrite Hz in Hl.
    destruct Hl as (e & He & _). by exists e. }
  eapply ends_mono.
  - instantiate (1 := λ _, released R l1 (KHeap r1 D1 w1 st1 en1) x). unfold free_link.
    destruct (seg_left d1) as [b|] eqn:El; [|apply (released_add R l1); [done..|by rewrite El]].
    destruct (bool_decide (b ∈ l1)) eqn:Eb.
    + apply bool_decide_eq_true in Eb. by apply (released_join R l1 r1 D1 w1 st1 en1 x d1).
    + apply bool_decide_eq_false in Eb. apply (released_add R l1); [done..|]. rewrite El. by intros z [= <-].
  - intros _ s' (l' & Hok' & Hco' & Hlive' & Hwords'). exists l'. cbn [descs words] in *. split_and!; [done|done| |].
    + intros y q j. rewrite Hlive'. specialize (Hlive y q j). intuition.
    + intros y q j z Hne Hy Hz. etransitivity; [|by apply (Hwords y q j z)].
      apply (Hwords' y q j); [done|by apply Hlive|done].
Qed.

(** ** addHeapBlock *)

(** A range can be registered: word-aligned, with room for a header and some payload, and
    disjoint from the others. *)
Definition fresh_range R (from to : Z) : Prop :=
  0 < from ∧ from + DESC < to ∧ to < 2 ^ 32 ∧ (4 | from) ∧ (4 | to) ∧
  ∀ f t, (f, t) ∈ R → t ≤ from ∨ to ≤ f.

Lemma run_add_tail {r D w st en} a l (Q : () → kheap → Prop) : linked r D l → is_Some (D !! a) → a ∉ l →
  (∀ r', linked r' D (l ++ [a]) → Q () (KHeap r' D w st en)) →
  ends (ring_op (addNodeToRingDoubleListTail (Some FreeHdr) (Some (Seg a)))) (KHeap r D w st en) Q.
Proof.
  intros HK Ha Hal HQ. apply ends_ring_op.
  assert (Seg a ∉ FreeHdr :: (Seg <$> l)) as Hn.
  { intros [?|Hin]%elem_of_cons; [done|]. by apply elem_of_segs in Hin. }
  assert (is_Some (r !! Seg a)) as Hs by (apply (lk_dom _ _ _ HK); right; eauto).
  destruct (addTail_touch _ _ _ (Seg a) (lk_ring _ _ _ HK) Hn Hs) as (r' & Hrun & Hr & Hsame & Ht).
  exists (), r'. split; [done|]. apply HQ. split.
  - by rewrite fmap_app.
  - intros k. rewrite (Hsame k). apply (lk_dom _ _ _ HK).
  - intros x Hx Hxl. rewrite Ht; [apply (lk_null _ _ _ HK); set_solver|].
    rewrite !elem_of_cons, elem_of_segs. intros [[=]|[?|?]]; set_solver.
  - intros x Hx. apply elem_of_app in Hx as [Hx|Hx%list_elem_of_singleton]; [by apply (lk_in _ _ _ HK)|by subst].
Qed.

(** The payloads in use, and their words, are the same. *)
Definition same_use l s l' s' : Prop :=
  (∀ x p n, seg_live l' (descs s') x p n ↔ seg_live l (descs s) x p n) ∧
  keeps_words l (descs s) (words s) (words s').

Lemma heap_widen R l r D w st en st' en' : heap_ok R l (KHeap r D w st en) → st' ≤ st → en ≤ en' →
  heap_ok R l (KHeap r D w st' en').
Proof.
  intros [HL HKo HF HT HB] Hs He. split; try done. cbn in *. intros f t HR. pose proof (HB f t HR). lia.
Qed.

Lemma ends_register R l r D w st en from to : heap_ok R l (KHeap r D w st en) → coalesced l D →
  fresh_range R from to → st ≤ from → to ≤ en →
  ends (new_desc from;;
    upd_desc from (with_right None);;
    upd_desc from (with_left None);;
    upd_desc from (with_offset DESC);;
    upd_desc from (with_avail (u32 (to - from - DESC)));;
    ring_op (addNodeToRingDoubleListTail (Some FreeHdr) (Some (Seg from)))) (KHeap r D w st en)
  (λ _ s', heap_ok ((from, to) :: R) (l ++ [from]) s' ∧ coalesced (l ++ [from]) (descs s') ∧
    same_use l (KHeap r D w st en) (l ++ [from]) s').
Proof.
  intros Hok Hco (H0 & Hsz & Hto & Hf4 & Ht4 & Hfree) Hst Hen. pose proof (ok_layout _ _ _ Hok) as HL. cbn in HL.
  pose proof (λ x y, register_new R D from to HL H0 Hsz Hto Hf4 Ht4 Hfree x y) as Hnew.
  pose proof (λ x y, register_outside R D from to HL H0 Hsz Hto Hf4 Ht4 Hfree x y) as Hout.
  assert (D !! from = None) as Hnone.
  { destruct (D !! from) as [y|] eqn:E; [|done]. by destruct (Hnew from y E). }
  pose proof (ok_linked _ _ _ Hok) as HK. cbn in HK. unfold DESC in *.
  assert (from ∉ l) as Hfl by (intros Hin; apply (lk_in _ _ _ HK) in Hin; rewrite Hnone in Hin; by destruct Hin).
  apply run_new_desc. do 4 run_desc. rewrite (wrapu_id 32) by (unfold in_u; lia). rewrite !insert_insert_eq.
  unfold with_offset, with_left, with_right, with_avail. cbn [seg_left seg_right availableSize headerOffset].
  change (Desc None None (to - from - 24) 24) with (new_range from to).
  apply (run_add_tail from l); [by apply linked_new|by rewrite lookup_insert_eq|done|]. intros r' HK'.
  cbn [descs words]. split_and!; [split; cbn| |split].
  - by apply layout_register.
  - done.
  - intros x y [Hx|Hx]%elem_of_app Hy; [|apply list_elem_of_singleton in Hx as ->].
    + rewrite lookup_insert_ne in Hy by congruence. by apply (ok_free _ _ _ Hok x y).
    + rewrite lookup_insert_eq in Hy. by simplify_eq.
  - intros x y [[<- <-]|[Hne Hy]]%lookup_insert_Some Hx Hh; [done|].
    pose proof (Hout x y Hy). pose proof (lay_bounds R D x y (proj1 HL) Hy).
    rewrite forget_words_out by (unfold dend, DESC in *; lia). apply (ok_tags _ _ _ Hok); [done|set_solver|done].
  - intros f t [[= -> ->]|HR]%elem_of_cons; [lia|by apply (ok_bounds _ _ _ Hok)].
  - intros x y z Hx [[<- <-]|[Hne Hy]]%lookup_insert_Some Hz; [done|].
    intros [Hzl|Hzl]%elem_of_app; [apply (Hco x y z); [set_solver|done..]|].
    apply list_elem_of_singleton in Hzl as ->.
    destruct (ok_right R l _ x y from Hok Hy Hz) as [[? E] _]. cbn in E. congruence.
  - intros x p n. cbn [descs]. unfold seg_live. split; intros (y & Hy & Hx & -> & ->).
    + rewrite lookup_insert_ne in Hy by set_solver. exists y. set_solver.
    + exists y. rewrite lookup_insert_ne by congruence. split_and!; [done| |done..].
      assert (x ≠ from) by congruence. set_solver.
  - intros x p n z (y & Hy & Hx & -> & ->) Hz. cbn [descs words] in *. pose proof (Hout x y Hy).
    pose proof (lay_bounds R D x y (proj1 HL) Hy). apply forget_words_out. unfold dend, DESC in *. lia.
Qed.

Lemma heap_addHeapBlock R l s from to :
  s = heap0 ∧ R = [] ∧ l = [] ∨ heap_ok R l s ∧ coalesced l (descs s) → fresh_range R from to →
  ends (addHeapBlock from to) s (λ _ s',
    heap_ok ((from, to) :: R) (l ++ [from]) s' ∧ coalesced (l ++ [from]) (descs s') ∧ same_use l s (l ++ [from]) s').
Proof.
  intros Hs Hfr. unfold addHeapBlock. destruct Hs as [(-> & -> & ->)|[Hok Hco]].
  - eapply ends_bind, ends_node_of; [done|]. cbn [next]. rewrite bool_decide_true by done. cbn [when].
    assert (∃ r, initRingDoubleList (Some FreeHdr) {[FreeHdr := Node None None]} = Ok ((), r) ∧ linked r ∅ []) as (r & Hr & HK).
    { destruct (init_spec {[FreeHdr := Node None None]} FreeHdr) as (r & Hrun & Hring & Hsame & _); [done|].
      exists r. split; [done|]. split; [done| | |intros a Ha; by apply elem_of_nil in Ha].
      2: { intros a [? E]. by rewrite lookup_empty in E. }
      intros k. rewrite (Hsame k), lookup_singleton_is_Some. split; [intros <-; by left|].
      intros [->|(a & _ & [? E])]; [done|]. by rewrite lookup_empty in E. }
    apply ends_bind, ends_bind, ends_ring_op. exists (), r. split; [exact Hr|].
    apply ends_bind, ends_modify, ends_modify. apply ends_bind, ends_get. cbn [_start _end set_start set_end set_freeRing].
    rewrite !Z.ltb_irrefl. apply ends_bind, ends_ret, ends_bind, ends_ret.
    assert (heap_ok [] [] (KHeap r ∅ ∅ from to)) as Hok.
    { split; cbn; [|done|intros a d Ha; by apply elem_of_nil in Ha|done|intros f t HR; by apply elem_of_nil in HR].
      split; split; try done; try (intros f t HR; by apply elem_of_nil in HR); try (intros f t x HR; by apply elem_of_nil in HR).
      split; intros f t; [intros HR|intros f' t' HR]; by apply elem_of_nil in HR. }
    by eapply (ends_register [] [] r ∅ ∅ from to from to).
  - destruct s as [r D w st en].
    destruct (next_of_Some _ _ _ (ring_first _ _ _ (lk_ring _ _ _ (ok_linked _ _ _ Hok)))) as (n & Hn & En).
    eapply ends_bind, ends_node_of; [exact Hn|]. rewrite En, bool_decide_false by done. cbn [when].
    apply ends_bind, ends_ret, ends_bind, ends_get. cbn [_start _end].
    assert (∀ st' en', st' ≤ st → en ≤ en' → st' ≤ from → to ≤ en' → ends (new_desc from;;
      upd_desc from (with_right None);;
      upd_desc from (with_left None);;
      upd_desc from (with_offset DESC);;
      upd_desc from (with_avail (u32 (to - from - DESC)));;
      ring_op (addNodeToRingDoubleListTail (Some FreeHdr) (Some (Seg from)))) (KHeap r D w st' en') (λ _ s',
        heap_ok ((from, to) :: R) (l ++ [from]) s' ∧ coalesced (l ++ [from]) (descs s') ∧
        same_use l (KHeap r D w st en) (l ++ [from]) s')) as Hrun.
    { intros st' en' ? ? ? ?. eapply ends_mono; [apply (ends_register R l); [by apply (heap_widen R l r D w st en)|done..]|].
      by intros [] s'. }
    apply ends_bind, ends_when; intros Hc1; [apply ends_modify; apply Z.ltb_lt in Hc1|apply Z.ltb_ge in Hc1];
      (apply ends_bind, ends_when; intros Hc2; [apply ends_modify; apply Z.ltb_lt in Hc2|apply Z.ltb_ge in Hc2]);
      cbn [set_start set_end freeRing descs words _start _end]; apply Hrun; cbn in *; lia.
Qed.

(** ** separateFreeBlock *)

(** A segment leaves the heap. *)
Section detach_ok.
Context (R : list (Z * Z)) (l l' : list Z) (r r' : gmap hkey (node hkey)) (D : gmap Z desc) (w : gmap Z Z).
Context (st en a : Z) (d : desc).
Context (Hok : heap_ok R l (KHeap r D w st en)) (Ha : D !! a = Some d).
Context (HK : linked r' (detach_map a d D) l') (Hl : ∀ x, x ∈ l' ↔ x ≠ a ∧ x ∈ l).
#[local] Set Default Proof Using "All".
#[local] Abbreviation D' := (detach_map a d D).

Lemma unlink_sizes x y : headerOffset (unlink d x y) = headerOffset y ∧ availableSize (unlink d x y) = availableSize y.
Proof. unfold unlink. by repeat case_decide. Qed.

Lemma heap_detach : heap_ok (cut_range a (dend a d) R) l' (KHeap r' D' w st en).
Proof.
  pose proof (ok_layout _ _ _ Hok) as HL. cbn in HL. split; cbn; [by apply layout_detach|done|..].
  - intros x y Hx (_ & y0 & Hy & ->)%(detach_inv R D a d HL Ha). rewrite (proj1 (unlink_sizes x y0)).
    apply Hl in Hx as [_ Hx]. by apply (ok_free _ _ _ Hok x y0).
  - intros x y (Hne & y0 & Hy & ->)%(detach_inv R D a d HL Ha) Hx. rewrite (proj1 (unlink_sizes x y0)).
    apply (ok_tags _ _ _ Hok); [done|]. intros Hin. apply Hx, Hl. done.
  - intros f t (f0 & t0 & HR & Hc)%cut_range_elem. pose proof (ok_bounds _ _ _ Hok f0 t0 HR) as Hb. cbn in Hb.
    pose proof (lay_bounds R D a d (proj1 HL) Ha). unfold dend in *. lia.
Qed.

Lemma detach_live x p n : seg_live l' D' x p n ↔ x ≠ a ∧ seg_live l D x p n.
Proof.
  pose proof (ok_layout _ _ _ Hok) as HL. cbn in HL. unfold seg_live. split.
  - intros (y & (Hne & y0 & Hy & ->)%(detach_inv R D a d HL Ha) & Hx & -> & ->).
    destruct (unlink_sizes x y0) as [-> ->]. split; [done|]. exists y0. split_and!; [done| |done..].
    intros Hin. apply Hx, Hl. done.
  - intros (Hne & y & Hy & Hx & -> & ->). exists (unlink d x y). destruct (unlink_sizes x y) as [-> ->].
    split_and!; [apply (detach_inv R D a d HL Ha); eauto| |done..]. intros Hin. by apply Hl in Hin as [_ Hin].
Qed.

Lemma detach_coalesced : coalesced l D → coalesced l' D'.
Proof.
  pose proof (ok_layout _ _ _ Hok) as HL. cbn in HL.
  intros Hco x y z Hx (Hne & y0 & Hy & ->)%(detach_inv R D a d HL Ha). rewrite (unlink_right R D a d HL Ha).
  case_decide; [done|]. intros Hz [_ Hzl]%Hl. apply Hl in Hx as [_ Hx]. by apply (Hco x y0 z).
Qed.
End detach_ok.

Lemma lay_neighbours R D a d : layout R D → D !! a = Some d →
  (∀ z, seg_left d = Some z → is_Some (D !! z) ∧ z ≠ a ∧ seg_right d ≠ Some z) ∧
  (∀ z, seg_right d = Some z → is_Some (D !! z) ∧ z ≠ a).
Proof.
  intros [HO HC] Ha. pose proof (lay_bounds R D a d HO Ha) as Hb. split; intros z Hz.
  - pose proof (lay_left _ _ HC a d Ha) as Hl. rewrite Hz in Hl. destruct Hl as (e & He & Hr).
    pose proof (lay_right _ _ HC z e He) as Hzr. rewrite Hr in Hzr. destruct Hzr as [Ez _].
    pose proof (lay_bounds R D z e HO He). unfold dend in *. split_and!; [eauto|lia|].
    intros E. pose proof (lay_right _ _ HC a d Ha) as Har. rewrite E in Har. unfold dend in *. lia.
  - pose proof (lay_right _ _ HC a d Ha) as Har. rewrite Hz in Har. destruct Har as (-> & e & He & _).
    unfold dend in *. split; [eauto|lia].
Qed.

(** The bytes [a, q) left the heap: nothing that is in use was there. *)
Definition cut_off R l s s' (a q : Z) : Prop := ∃ l', heap_ok (cut_range a q R) l' s' ∧ coalesced l' (descs s') ∧
  same_use l s l' s'.

Lemma detach_delete a d D : seg_right d ≠ Some a → seg_left d ≠ Some a →
  delete a (fix_right (seg_left d) None (fix_left (seg_right d) None D)) = detach_map a d D.
Proof. intros Hr Hl. desc_maps. Qed.

Lemma cut_off_detach R l l' r r' D w st en a d : heap_ok R l (KHeap r D w st en) → coalesced l D → D !! a = Some d →
  a ∈ l → linked r' (detach_map a d D) l' → (∀ x, x ∈ l' ↔ x ≠ a ∧ x ∈ l) →
  cut_off R l (KHeap r D w st en) (KHeap r' (detach_map a d D) w st en) a (dend a d).
Proof.
  intros Hok Hco Ha Hal HK Hl. exists l'. split_and!; [by apply (heap_detach R l l' r)| |split; [|done]].
  - by apply (detach_coalesced R l l' r r' D w st en a d).
  - intros x p n. cbn [descs]. rewrite (detach_live R l l' r r' D w st en a d Hok Ha HK Hl). split; [tauto|].
    intros Hx. split; [|done]. intros ->. by destruct Hx as (? & _ & ? & _).
Qed.

Lemma detach_split a b av d D : seg_right d ≠ Some a → seg_right d ≠ Some b → seg_left d ≠ Some a →
  seg_left d ≠ Some b → (∀ z, seg_left d = Some z → seg_right d ≠ Some z) → a ≠ b → D !! b = None →
  delete a (fix_right (seg_left d) None (<[b := Desc None (seg_right d) av 24]> (fix_left (seg_right d) (Some b) D))) =
  detach_map a (Desc (seg_left d) (Some b) (b - a - headerOffset d) (headerOffset d)) (split_map a b av 24 d D).
Proof.
  intros H1 H2 H3 H4 H5 H6 H7. apply map_eq. intros x. unfold detach_map, split_map. cbn [seg_left seg_right].
  rewrite fix_right_lookup, fix_left_lookup, !lookup_delete, fix_right_lookup, !lookup_insert, fix_left_lookup.
  repeat case_decide; simplify_eq; try done; try congruence; by cbn.
Qed.

(** The segment [a] is split and its left half leaves the heap. *)
Lemma cut_off_split R l l' r r1 r' D w st en a b av d : let S := split_map a b av 24 d D in
  let d1 := Desc (seg_left d) (Some b) (b - a - headerOffset d) (headerOffset d) in
  heap_ok R l (KHeap r D w st en) → coalesced l D → D !! a = Some d → a ∈ l →
  a + headerOffset d < b → b + 24 + av = dend a d → 0 < av → (4 | b) →
  linked r1 S l' → linked r' (detach_map a d1 S) l' → (∀ x, x ≠ a → x ≠ b → x ∈ l' ↔ x ∈ l) → a ∉ l' → b ∈ l' →
  cut_off R l (KHeap r D w st en) (KHeap r' (detach_map a d1 S) (forget_words b 24 w) st en) a b.
Proof.
  intros S d1 Hok Hco Ha Hal Hb1 Hend Hav Hb4 HK1 HK' Hel Hnal Hbl. assert (a ∈ l' → a ∈ l) as Hla by done.
  pose proof (heap_split R l l' r r1 D w st en a b av d Hok Ha Hb1 Hend Hav Hb4 HK1 Hel Hla) as Hok1.
  assert (S !! a = Some d1) as HSa by (apply split_map_lookup; by left).
  assert (∀ x, x ∈ l' ↔ x ≠ a ∧ x ∈ l') as Hl2 by (intros x; split; [intros Hx; split; [congruence|done]|by intros [_ ?]]).
  assert (∀ z, seg_right d = Some z → z ∉ l) as Hr by (intros z Hz; by apply (Hco a d)).
  exists l'. replace b with (dend a d1) at 1 by (unfold dend, d1; cbn; lia).
  split_and!; [by apply (heap_detach R l' l' r1)| |split].
  - apply (detach_coalesced R l' l' r1 r' S (forget_words b 24 w) st en a d1 Hok1 HSa HK' Hl2).
    by apply (split_coalesced R l l' r r1 D w st en a b av d Hok Ha Hb1 Hend Hav Hb4 HK1 Hel Hla).
  - intros x p n. cbn [descs]. rewrite (detach_live R l' l' r1 r' S (forget_words b 24 w) st en a d1 Hok1 HSa HK' Hl2).
    unfold S. rewrite (split_rest_live R l l' r r1 D w st en a b av d Hok Ha Hb1 Hend Hav Hb4 HK1 Hel Hla) by done.
    assert (¬ seg_live l D a p n) by (intros (? & _ & ? & _); done).
    destruct (decide (x = a)) as [Ex|Ex]; [subst x|]; intuition.
  - intros x p n z Hx Hz. cbn [descs words] in *.
    apply (split_words R l l' r r1 D w st en a b av d Hok Ha Hb1 Hend Hav Hb4 HK1 Hel Hla x p n z Hx Hz).
    intros ->. by destruct Hx as (? & _ & ? & _).
Qed.

Lemma ends_cut_split R l1 a l2 r D w st en d m : let l := l1 ++ a :: l2 in let s := KHeap r D w st en in
  let b := a + m in
  heap_ok R l s → coalesced l D → D !! a = Some d → headerOffset d = 24 → 24 < m → (4 | m) →
  24 < availableSize d + 24 - m →
  ends ((let node := b in
    new_desc node;;
    upd_desc node (with_avail (availableSize d + 24 - m - 24));;
    upd_desc node (with_offset 24);;
    upd_desc node (with_right (seg_right d));;
    set_left_of (seg_right d) (Some node);;
    upd_desc node (with_left None);;
    set_right_of (seg_left d) None;;
    add_free node);;
    ring_op (delNodeFromRingDoubleList (Some (Seg a)));;
    give_away a;;
    mret a) s (λ p s', p = a ∧ cut_off R l s s' a b).
Proof.
  intros l s b Hok Hco Ha Hh Hm Hm4 Hlt. pose proof (ok_linked _ _ _ Hok) as HK. cbn in HK.
  assert (a ∈ l) as Hal by (unfold l; set_solver).
  destruct (ok_free_seg _ _ _ a Hok Hal) as (d' & Hd' & _ & Hpos & Ha4 & Hv4 & Hv & Hde). cbn in Hd'.
  rewrite Ha in Hd'. injection Hd' as <-.
  destruct (lay_neighbours R D a d (ok_layout _ _ _ Hok) Ha) as [Hnl Hnr].
  set (av := availableSize d + 24 - m - 24).
  assert (D !! b = None) as Hnb by (apply (lay_inside R D a d); [apply Hok|done|unfold dend, b in *; lia]).
  assert (a ≠ b) as Hab by (unfold b; lia). assert (a + headerOffset d < b) as Hb1 by (unfold b; lia).
  assert (b + 24 + av = dend a d) as Hend by (unfold b, av, dend; lia). assert (0 < av) as Hav by (unfold av; lia).
  assert (4 | b) as Hb4 by (by apply Z.divide_add_r).
  assert (seg_right d ≠ Some a ∧ seg_right d ≠ Some b) as [Hra Hrb].
  { split; intros E; destruct (Hnr _ E) as [[? ?] ?]; congruence. }
  assert (seg_left d ≠ Some a ∧ seg_left d ≠ Some b) as [Hla Hlb].
  { split; intros E; destruct (Hnl _ E) as ([? ?] & ? & ?); congruence. }
  apply ends_bind, run_new_desc. do 3 run_desc. apply run_set_left_of.
  { intros z Er. destruct (Hnr z Er) as [[e He] Hza]. exists e. assert (b ≠ z) by congruence. lk. }
  run_desc. apply run_set_right_of.
  { intros z El. destruct (Hnl z El) as ([e He] & Hza & Hzr). exists e. assert (b ≠ z) by congruence. lk. }
  match goal with |- ends _ (KHeap _ ?M _ _ _) _ =>
    assert (M = fix_right (seg_left d) None (<[b := Desc None (seg_right d) av 24]> (fix_left (seg_right d) (Some b) D))) as -> end.
  { f_equal. desc_maps. }
  set (M := fix_right _ _ _).
  assert (∀ x, is_Some (M !! x) ↔ x = b ∨ is_Some (D !! x)) as HM.
  { intros x. unfold M. rewrite fix_right_lookup. case_decide; rewrite ?fmap_is_Some, lookup_insert_is_Some', fix_left_lookup;
      case_decide; rewrite ?fmap_is_Some; naive_solver. }
  assert (b ∉ l) as Hbl by (intros Hin; apply (lk_in _ _ _ HK) in Hin; rewrite Hnb in Hin; by destruct Hin).
  eapply (run_add_free b (Desc None (seg_right d) av 24) l); [|unfold M; lk|done|].
  { eapply linked_dom; [by apply (linked_new r D l b (Desc None None 0 0))|]. intros x.
    rewrite HM, lookup_insert_is_Some'. naive_solver. }
  intros r1 l' HK1 Hl'. assert (a ∈ l') as (la & lb & ->)%list_elem_of_split by (rewrite Hl'; set_solver).
  apply (run_del_free a la lb); [done|]. intros r2 HK2. unfold give_away. apply ends_bind, ends_modify, ends_ret.
  split; [done|]. cbn [descs freeRing words _start _end]. clear HK1.
  pose proof (linked_nodup _ _ _ HK) as Hnd. unfold l in Hnd. rewrite <- Permutation_middle in Hnd.
  apply NoDup_cons in Hnd as [Hnal _].
  assert (la ++ lb ≡ₚ b :: l1 ++ l2) as Hp.
  { apply (Permutation_cons_inv (a := a)). unfold l in Hl'.
    rewrite Permutation_middle, Hl', <- Permutation_middle. apply Permutation_swap. }
  unfold M. rewrite (detach_split a b av d D); [|done|done|done|done|intros z Hz; by apply (Hnl z)|done|done].
  apply (cut_off_split R l (la ++ lb) r r2 (delete (Seg a) r2) D w st en a b av d); try done.
  - eapply linked_dom; [exact HK2|]. intros x. rewrite HM. unfold split_map.
    rewrite !lookup_insert_is_Some', fix_left_lookup. case_decide; rewrite ?fmap_is_Some; naive_solver.
  - rewrite <- detach_split; [|done|done|done|done|intros z Hz; by apply (Hnl z)|done|done].
    apply linked_delete; [exact HK2|]. rewrite Hp, not_elem_of_cons. done.
  - intros x Hxa Hxb. rewrite Hp. unfold l. set_solver.
  - rewrite Hp, not_elem_of_cons. done.
  - rewrite Hp. by left.
Qed.

(** Where the bytes that [separateFreeBlock n] takes from the segment [p] end. *)
Definition cut_end (n p : Z) d : Z :=
  if DESC <? availableSize d + DESC - alignUp n 4 then p + alignUp n 4 else dend p d.

Lemma heap_separate R l s n : heap_ok R l s → coalesced l (descs s) → 24 < n → n + 3 < 2 ^ 32 →
  ends (separateFreeBlock n) s (λ p s',
    p = 0 ∧ s' = s ∧ (∀ a d, a ∈ l → descs s !! a = Some d → availableSize d + 24 < n + 4) ∨
    0 < p ∧ (4 | p) ∧ ∃ d f t, let q := cut_end n p d in descs s !! p = Some d ∧ n ≤ q - p ∧
      (f, t) ∈ R ∧ f ≤ p ∧ q ≤ t ∧ cut_off R l s s' p q).
Proof.
  intros Hok Hco Hn Hlim. destruct (align4 n ltac:(lia) Hlim) as [Hm Hm4]. unfold separateFreeBlock.
  set (m := alignUp n 4) in *. pose proof (ok_linked _ _ _ Hok) as HK. cbv zeta.
  eapply ends_bind, ends_foreach; [exact HK|].
  destruct (scan _ () l (descs s)) as [[a|] []] eqn:Hscan; cbn [fst].
  2: { apply ends_ret. left. split_and!; [done..|]. intros a d Ha Hd.
    destruct (scan_not_found _ _ _ _ _ (lk_in _ _ _ HK) Hscan a d Ha Hd) as (? & ? & [= _ Hlt]).
    apply Z.ltb_ge in Hlt. destruct (ok_free_seg _ _ _ a Hok Ha) as (d' & Hd' & Hh & Hp & _ & _ & Hv & Hde).
    rewrite Hd in Hd'. injection Hd' as <-. unfold dend, DESC in *. rewrite wrapu_id in Hlt by (unfold in_u; lia). lia. }
  destruct (scan_found _ _ _ _ _ _ Hscan) as (l1 & l2 & d & [] & -> & Hd & [= Hle]). apply Z.ltb_lt in Hle.
  assert (a ∈ l1 ++ a :: l2) as Hal by set_solver.
  destruct (ok_free_seg _ _ _ a Hok Hal) as (d' & Hd' & Hh & Hpos & Ha4 & Hv4 & Hv & Hde).
  rewrite Hd in Hd'. injection Hd' as <-. destruct s as [r D w st en]; cbn [descs freeRing] in *.
  pose proof Hok as Hok0. unfold dend, DESC in *. rewrite (wrapu_id 32 (availableSize d + 24)) in * by (unfold in_u; lia).
  destruct (lay_in _ _ (proj1 (ok_layout _ _ _ Hok)) a d Hd) as (f & t & HR & Hf & Ht). unfold dend in Ht.
  eapply run_desc_at; [done|]. rewrite !(wrapu_id 32) by (unfold in_u; rewrite ?(wrapu_id 32) by (unfold in_u; lia); lia).
  pose proof (linked_nodup _ _ _ HK) as Hnd. rewrite <- Permutation_middle in Hnd. apply NoDup_cons in Hnd as [Hnal Hnd].
  destruct (lay_neighbours R D a d (ok_layout _ _ _ Hok) Hd) as [Hnl Hnr].
  destruct (Z.ltb_spec 24 (availableSize d + 24 - m)) as [Hlt|Hge].
  - rewrite (wrapu_id 32) by (unfold in_u; lia).
    eapply ends_mono; [apply (ends_cut_split R l1 a l2 r D w st en d m); first [done|lia]|].
    intros p s' (-> & Hcut). right. split_and!; [done..|]. exists d, f, t. unfold cut_end, DESC. fold m.
    rewrite (proj2 (Z.ltb_lt _ _)) by lia. split_and!; [done|lia|done|done|lia|done].
  - apply ends_bind. apply run_set_left_of; [intros z Hz; by apply Hnr|]. apply ends_set_right_of.
    { cbn. intros z Hz. destruct (Hnl z Hz) as ([e He] & _ & Hne). exists e. by rewrite fix_left_lookup, decide_False. }
    cbn [set_descs descs freeRing words _start _end].
    apply (run_del_free a l1 l2).
    { eapply linked_dom; [exact HK|]. intros x. rewrite fix_right_lookup, fix_left_lookup.
      repeat case_decide; by rewrite ?fmap_is_Some. }
    intros r' HK'. unfold give_away. apply ends_bind, ends_modify, ends_ret. right.
    cbn [descs freeRing words _start _end].
    assert (delete a (fix_right (seg_left d) None (fix_left (seg_right d) None D)) = detach_map a d D) as ->.
    { apply detach_delete; [intros E; by destruct (Hnr a E)|intros E; by destruct (Hnl a E) as (_ & ? & _)]. }
    split_and!; [done..|]. exists d, f, t. unfold cut_end, DESC. fold m.
    rewrite (proj2 (Z.ltb_ge _ _)) by lia. split_and!; [done|unfold dend; lia|done|done|unfold dend; lia|].
    assert (∀ x, x ∈ l1 ++ l2 ↔ x ≠ a ∧ x ∈ l1 ++ a :: l2) as Hel.
    { intros x. split; [intros Hx; split; [congruence|set_solver]|set_solver]. }
    assert (linked (delete (Seg a) r') (detach_map a d D) (l1 ++ l2)) as HK2.
    { eapply linked_dom; [by apply linked_delete|]. intros x. unfold detach_map.
      rewrite !lookup_delete_is_Some, !fix_right_lookup, !fix_left_lookup.
      repeat case_decide; rewrite ?fmap_is_Some, ?lookup_delete_is_Some; naive_solver. }
    by apply (cut_off_detach R _ (l1 ++ l2) r).
Qed.
