(* ===== verification/HeapClients.v ===== *)
(** * The heap and its clients

    Sequences of calls and of stores of clients that use what they were given: what they own
    stays disjoint and keeps its data, and freeing everything restores the ranges. *)

From S2P Require Import Prelude Endian DList Heap HeapLayout HeapOps.

Implicit Types (R : list (Z * Z)) (D : gmap Z desc) (a b c x : Z) (d e : desc).
Implicit Types (l : list Z) (r : gmap hkey (node hkey)).
Implicit Types (s : kheap).

(** ** The heap and its clients

    A system is the registered ranges, what the clients own (the pointers that they were
    given and did not free, with the sizes that they asked for) and the heap. Clients call
    the heap, free what they own and write words of the regions that they own. An aligned
    allocation is made only where every free segment reaches an aligned address and one of
    them is large enough (see [aligned_allocate_fails]). *)

Record hsys := HSys { ranges : list (Z * Z); owned : gmap Z Z; hstate : kheap }.

Inductive hevent :=
  | EAdd (from to : Z) | EAlloc (n : Z) | EAligned (n k : Z) | EFree (p : Z) | EStore (a v : Z) | ESeparate (n : Z).

Definition is_linked s a : bool :=
  match freeRing s !! Seg a with Some n => bool_decide (prev n ≠ None) | None => false end.
Definition free_segs s : list (Z * desc) := filter (λ p, is_linked s p.1 = true) (map_to_list (descs s)).

Definition can_align s (n k : Z) : Prop :=
  2 ≤ k < 32 ∧ Forall (λ p, reaches k p.1 p.2) (free_segs s) ∧
  Exists (λ p, n ≤ dend p.1 p.2 - alignUp (p.1 + 24) (2 ^ k)) (free_segs s).

Inductive hstep : hsys → hevent → hsys → Prop :=
  | step_add R M s s' from to : fresh_range R from to → addHeapBlock from to s = Ok ((), s') →
      hstep (HSys R M s) (EAdd from to) (HSys ((from, to) :: R) M s')
  | step_alloc R M s s' n p : R ≠ [] → 0 < n → n + 3 < 2 ^ 32 → allocate n s = Ok (p, s') →
      hstep (HSys R M s) (EAlloc n) (HSys R (if p =? 0 then M else <[p := n]> M) s')
  | step_aligned R M s s' n k p : 0 < n → n + 3 < 2 ^ 32 → can_align s n k →
      allocate_aligned n (2 ^ k) s = Ok (p, s') → hstep (HSys R M s) (EAligned n k) (HSys R (<[p := n]> M) s')
  | step_free R M s s' p : is_Some (M !! p) → free p s = Ok ((), s') →
      hstep (HSys R M s) (EFree p) (HSys R (delete p M) s')
  | step_store R M s p n a v : M !! p = Some n → p ≤ a < p + n →
      hstep (HSys R M s) (EStore a v) (HSys R M (set_words (<[a := v]> (words s)) s))
  | step_separate R M s s' n p d : R ≠ [] → 24 < n → n + 3 < 2 ^ 32 → separateFreeBlock n s = Ok (p, s') →
      descs s !! p = Some d → hstep (HSys R M s) (ESeparate n) (HSys (cut_range p (cut_end n p d) R) M s').

Definition hsys0 : hsys := HSys [] ∅ heap0.
Definition reachable : hsys → Prop := rtc (λ y z, ∃ ev, hstep y ev z) hsys0.

(** What the clients own is what is in use. *)
Definition owns l D (M : gmap Z Z) : Prop :=
  (∀ p n, M !! p = Some n → ∃ x k, n ≤ k ∧ 0 < n ∧ seg_live l D x p k) ∧
  (∀ x p k, seg_live l D x p k → is_Some (M !! p)).

Definition hinv (y : hsys) : Prop :=
  y = hsys0 ∨ ∃ l, heap_ok (ranges y) l (hstate y) ∧ coalesced l (descs (hstate y)) ∧ owns l (descs (hstate y)) (owned y).

(** Payloads in use have different addresses and do not overlap. *)
Lemma live_apart R l s x p n y q j : heap_ok R l s → seg_live l (descs s) x p n → seg_live l (descs s) y q j →
  x = y ∧ p = q ∧ n = j ∨ x ≠ y ∧ p ≠ q ∧ (p + n ≤ q ∨ q + j ≤ p).
Proof.
  intros Hok (d & Hd & _ & -> & ->) (e & He & _ & -> & ->). pose proof (proj1 (ok_layout _ _ _ Hok)) as HO.
  pose proof (lay_bounds _ _ x d HO Hd). pose proof (lay_bounds _ _ y e HO He).
  destruct (decide (y = x)) as [->|Hne]; [left; by simplify_eq|right].
  pose proof (lay_other _ _ x d y e HO Hd He Hne). unfold dend in *. lia.
Qed.

Lemma live_region R l s x p n : heap_ok R l s → seg_live l (descs s) x p n →
  0 < n ∧ (4 | p) ∧ ∃ f t, (f, t) ∈ R ∧ f ≤ p ∧ p + n ≤ t.
Proof.
  intros Hok (d & Hd & _ & -> & ->). pose proof (proj1 (ok_layout _ _ _ Hok)) as HO.
  destruct (lay_seg _ _ HO x d Hd) as (Hx4 & Hh4 & _ & _ & Hv). pose proof (lay_bounds _ _ x d HO Hd).
  destruct (lay_in _ _ HO x d Hd) as (f & t & HR & Hf & Ht). unfold dend in *.
  split_and!; [done|by apply Z.divide_add_r|]. exists f, t. split_and!; [done|lia|lia].
Qed.

Lemma free_segs_elem R l s : heap_ok R l s → ∀ x d, (x, d) ∈ free_segs s ↔ x ∈ l ∧ descs s !! x = Some d.
Proof.
  intros Hok x d. pose proof (ok_linked _ _ _ Hok) as HK. unfold free_segs, is_linked. rewrite list_elem_of_filter, elem_of_map_to_list.
  cbn [fst]. split; [|intros [Hx Hd]; split; [|done]].
  - intros [Hp Hd]. split; [|done]. destruct (decide (x ∈ l)) as [|Hx]; [done|].
    by rewrite (lk_null _ _ _ HK) in Hp by eauto.
  - apply list_elem_of_split in Hx as (l1 & l2 & ->). pose proof (lk_ring _ _ _ HK) as Hr.
    rewrite fmap_app, fmap_cons in Hr. apply ring_rotate in Hr.
    destruct (prev_of_Some _ _ _ (ring_last _ _ _ Hr)) as (n & -> & Hp). by rewrite Hp.
Qed.

Lemma owns_same l D l' D' M : owns l D M → (∀ x p n, seg_live l' D' x p n ↔ seg_live l D x p n) → owns l' D' M.
Proof.
  intros [H1 H2] Hs. split.
  - intros p n Hp. destruct (H1 p n Hp) as (x & k & ? & ? & ?). exists x, k. by rewrite Hs.
  - intros x p k Hx. apply (H2 x p k). by apply Hs.
Qed.

Lemma owns_give l s l' s' M p n : owns l (descs s) M → 0 < n → gives l s l' s' p n → owns l' (descs s') (<[p := n]> M).
Proof.
  intros [H1 H2] Hn (x & k & Hk & Hl & _). split.
  - intros q j [[<- <-]|[Hne Hq]]%lookup_insert_Some; [exists x, k; split_and!; [done..|apply Hl; by left]|].
    destruct (H1 q j Hq) as (y & i & ? & ? & ?). exists y, i. split_and!; [done..|]. apply Hl. by right.
  - intros y q j Hy. apply Hl in Hy as [(-> & -> & ->)|Hy]; apply lookup_insert_is_Some'; [by left|right; eauto].
Qed.

Lemma owns_release R l s x p n l' D' M : heap_ok R l s → owns l (descs s) M → seg_live l (descs s) x p n →
  (∀ y q j, seg_live l' D' y q j ↔ y ≠ x ∧ seg_live l (descs s) y q j) → owns l' D' (delete p M).
Proof.
  intros Hok [H1 H2] Hx Hl. split.
  - intros q j [Hne Hq]%lookup_delete_Some. destruct (H1 q j Hq) as (y & i & ? & ? & Hy). exists y, i.
    split_and!; [done..|]. apply Hl. split; [|done]. intros ->.
    destruct (live_apart R l s x p n x q i Hok Hx Hy); naive_solver.
  - intros y q j [Hne Hy]%Hl. apply lookup_delete_is_Some. split; [|eauto].
    destruct (live_apart R l s x p n y q j Hok Hx Hy); naive_solver.
Qed.

(** The words of the regions that stay owned change only by the stores of their owner. *)
Definition keeps_owned (y : hsys) (ev : hevent) (y' : hsys) : Prop := ∀ p n z,
  owned y !! p = Some n → owned y' !! p = Some n → p ≤ z < p + n → (∀ v, ev ≠ EStore z v) →
  words (hstate y') !! z = words (hstate y) !! z.

Lemma keeps_owned_frame l y ev y' x0 : owns l (descs (hstate y)) (owned y) →
  (∀ x p n z, x ≠ x0 ∨ is_Some (owned y' !! p) → seg_live l (descs (hstate y)) x p n → p ≤ z < p + n →
    words (hstate y') !! z = words (hstate y) !! z) → keeps_owned y ev y'.
Proof.
  intros [H1 _] Hw p n z Hp Hp' Hz _. destruct (H1 p n Hp) as (x & k & ? & _ & Hx).
  apply (Hw x p k z); [right; by rewrite Hp'|done|lia].
Qed.

Lemma hinv_live y : hinv y → ranges y ≠ [] ∨ is_Some (head (map_to_list (owned y))) ∨ free_segs (hstate y) ≠ [] →
  ∃ l, heap_ok (ranges y) l (hstate y) ∧ coalesced l (descs (hstate y)) ∧ owns l (descs (hstate y)) (owned y).
Proof. intros [->|?]; [|done]. cbn. rewrite map_to_list_empty. intros [?|[[? ?]|?]]; done. Qed.

(** Every event of a system in the invariant keeps the invariant. *)
Definition keeps_hinv y ev y' : Prop := hinv y' ∧ keeps_owned y ev y'.

Lemma step_add_inv R M s s' from to : hinv (HSys R M s) → fresh_range R from to → addHeapBlock from to s = Ok ((), s') →
  keeps_hinv (HSys R M s) (EAdd from to) (HSys ((from, to) :: R) M s').
Proof.
  intros Hi Hfr Hrun.
  assert (∃ l, (s = heap0 ∧ R = [] ∧ l = [] ∨ heap_ok R l s ∧ coalesced l (descs s)) ∧ owns l (descs s) M)
    as (l & Hs & Hown).
  { destruct Hi as [[= -> -> ->]|(l & ? & ? & ?)]; [exists []|exists l; by auto]. split; [by left|].
    split; [done|]. by intros x p k (d & ? & _). }
  destruct (ends_inv _ _ _ _ _ (heap_addHeapBlock R l s from to Hs Hfr) Hrun) as (Hok' & Hco' & Hsame & Hw).
  split; [right; exists (l ++ [from]); split_and!; [done..|]; by apply (owns_same l (descs s))|].
  apply (keeps_owned_frame l _ _ _ 0); [done|]. intros x p n z _ Hx Hz. by apply (Hw x p n).
Qed.

Lemma step_alloc_inv R M s s' n p : hinv (HSys R M s) → R ≠ [] → 0 < n → n + 3 < 2 ^ 32 → allocate n s = Ok (p, s') →
  keeps_hinv (HSys R M s) (EAlloc n) (HSys R (if p =? 0 then M else <[p := n]> M) s').
Proof.
  intros Hi HR Hn Hlim Hrun. destruct (hinv_live _ Hi ltac:(by left)) as (l & Hok & Hco & Hown); cbn in *.
  destruct (ends_inv _ _ _ _ _ (heap_allocate R l s n Hok Hco Hn Hlim) Hrun)
    as [(-> & -> & _)|(Hp & _ & l' & Hok' & Hco' & Hg)].
  - split; [right; by exists l|]. by apply (keeps_owned_frame l _ _ _ 0).
  - rewrite (proj2 (Z.eqb_neq p 0)) by lia. split; [right; exists l'; split_and!; [done..|]; by apply (owns_give l s)|].
    apply (keeps_owned_frame l _ _ _ 0); [done|]. destruct Hg as (_ & _ & _ & _ & Hw).
    intros x q j z _ Hx Hz. by apply (Hw x q j).
Qed.

Lemma can_align_fits R l s n k : heap_ok R l s → can_align s n k → 2 ≤ k < 32 ∧
  (∀ a d, a ∈ l → descs s !! a = Some d → reaches k a d) ∧
  (∃ a d, a ∈ l ∧ descs s !! a = Some d ∧ n ≤ dend a d - alignUp (a + 24) (2 ^ k)).
Proof.
  intros Hok (Hk & Hr & Hf). split; [done|]. split.
  - intros a d Ha Hd. rewrite Forall_forall in Hr. apply (Hr (a, d)). by apply (free_segs_elem R l s Hok).
  - apply Exists_exists in Hf as ([a d] & Hin & Hle). apply (free_segs_elem R l s Hok) in Hin as [? ?]. by exists a, d.
Qed.

Lemma can_align_live y n k : hinv y → can_align (hstate y) n k →
  ∃ l, heap_ok (ranges y) l (hstate y) ∧ coalesced l (descs (hstate y)) ∧ owns l (descs (hstate y)) (owned y).
Proof.
  intros Hi (_ & _ & Hf). apply (hinv_live _ Hi). right; right. intros E. rewrite E in Hf. by apply Exists_nil in Hf.
Qed.

Lemma step_aligned_inv R M s s' n k p : hinv (HSys R M s) → 0 < n → n + 3 < 2 ^ 32 → can_align s n k →
  allocate_aligned n (2 ^ k) s = Ok (p, s') →
  keeps_hinv (HSys R M s) (EAligned n k) (HSys R (<[p := n]> M) s') ∧ (2 ^ k | p).
Proof.
  intros Hi Hn Hlim Hca Hrun. destruct (can_align_live _ n k Hi Hca) as (l & Hok & Hco & Hown); cbn in *.
  destruct (can_align_fits R l s n k Hok Hca) as (Hk & Hr & a & d & Ha & Hd & Hfit).
  destruct (ends_inv _ _ _ _ _ (heap_allocate_aligned R l s n k Hok Hco Hn Hlim Hk Hr) Hrun)
    as [(_ & Hno & _)|(Hp & Hkp & _ & l' & Hok' & Hco' & Hg)]; [specialize (Hno a d Ha Hd); lia|].
  split; [|done]. split; [right; exists l'; split_and!; [done..|]; by apply (owns_give l s)|].
  apply (keeps_owned_frame l _ _ _ 0); [done|]. destruct Hg as (_ & _ & _ & _ & Hw).
  intros x q j z _ Hx Hz. by apply (Hw x q j).
Qed.

Lemma step_free_inv R M s s' p : hinv (HSys R M s) → is_Some (M !! p) → free p s = Ok ((), s') →
  keeps_hinv (HSys R M s) (EFree p) (HSys R (delete p M) s').
Proof.
  intros Hi [n Hp] Hrun. assert (hinv (HSys R M s)) as [[= -> -> ->]|(l & Hok & Hco & Hown)] by done; [done|]. cbn in *.
  destruct (proj1 Hown p n Hp) as (x & k & _ & _ & Hx).
  destruct (ends_inv _ _ _ _ _ (heap_free R l s x p k Hok Hco Hx) Hrun) as (l' & Hok' & Hco' & Hl & Hw).
  split; [right; exists l'; split_and!; [done..|]; by apply (owns_release R l s x p k)|].
  apply (keeps_owned_frame l _ _ _ x); [done|]. cbn. intros y q j z Hor Hy Hz.
  apply (Hw y q j); [|done|done]. destruct Hor as [?|[i Hi']]; [done|]. apply lookup_delete_Some in Hi' as [Hne _].
  destruct (live_apart R l s x p k y q j Hok Hx Hy); naive_solver.
Qed.

Lemma step_store_inv R M s p n a v : hinv (HSys R M s) → M !! p = Some n → p ≤ a < p + n →
  keeps_hinv (HSys R M s) (EStore a v) (HSys R M (set_words (<[a := v]> (words s)) s)).
Proof.
  intros Hi Hp Ha. destruct Hi as [[= -> -> ->]|(l & Hok & Hco & Hown)]; [done|]. cbn in *.
  destruct (proj1 Hown p n Hp) as (x & k & Hk & _ & Hx). split.
  - right. exists l. cbn. split_and!; [|done..]. destruct Hok as [HL HK HF HT HB]; split; cbn; try done.
    intros y d Hd Hy Hh. destruct Hx as (dx & Hx & Hxl & -> & ->).
    rewrite lookup_insert_ne; [by apply HT|]. intros ->.
    pose proof (lay_bounds _ _ x dx (proj1 HL) Hx). pose proof (lay_bounds _ _ y d (proj1 HL) Hd).
    destruct (decide (y = x)) as [->|Hne]; [simplify_eq; lia|].
    pose proof (lay_other _ _ x dx y d (proj1 HL) Hx Hd Hne). unfold dend in *. lia.
  - intros q j z _ _ _ Hev. cbn. rewrite lookup_insert_ne; [done|]. intros ->. by apply (Hev v).
Qed.

Lemma step_separate_inv R M s s' n p d : hinv (HSys R M s) → R ≠ [] → 24 < n → n + 3 < 2 ^ 32 →
  separateFreeBlock n s = Ok (p, s') → descs s !! p = Some d →
  keeps_hinv (HSys R M s) (ESeparate n) (HSys (cut_range p (cut_end n p d) R) M s').
Proof.
  intros Hi HR Hn Hlim Hrun Hd. destruct (hinv_live _ Hi ltac:(by left)) as (l & Hok & Hco & Hown); cbn in *.
  destruct (ends_inv _ _ _ _ _ (heap_separate R l s n Hok Hco Hn Hlim) Hrun)
    as [(-> & _ & _)|(Hp & _ & d' & f & t & Hd' & _ & _ & _ & _ & l' & Hok' & Hco' & Hsame & Hw)].
  - pose proof (lay_bounds _ _ 0 d (proj1 (ok_layout _ _ _ Hok)) Hd). lia.
  - rewrite Hd in Hd'. injection Hd' as <-.
    split; [right; exists l'; split_and!; [done..|]; by apply (owns_same l (descs s))|].
    apply (keeps_owned_frame l _ _ _ 0); [done|]. intros x q j z _ Hx Hz. by apply (Hw x q j).
Qed.

Lemma hstep_inv y ev y' : hinv y → hstep y ev y' → keeps_hinv y ev y'.
Proof.
  intros Hi Hs. destruct Hs.
  - by apply step_add_inv.
  - by apply step_alloc_inv.
  - by eapply step_aligned_inv.
  - by apply step_free_inv.
  - by eapply step_store_inv.
  - by apply step_separate_inv.
Qed.

Lemma reachable_hinv y : reachable y → hinv y.
Proof.
  revert y. apply rtc_ind_r; [by left|]. intros y z _ [ev Hs] Hy. by apply (hstep_inv y ev z).
Qed.

(** ** What the heap promises *)

(** C1. Whatever sequence of calls the clients make, the regions that they own are word
    aligned, lie in registered memory and do not overlap, and no call faults: [allocate]
    and a possible aligned [allocate] answer and [free] of an owned pointer returns. *)
Theorem heap_regions_disjoint y : reachable y →
  (∀ p n, owned y !! p = Some n → 0 < n ∧ (4 | p) ∧ ∃ f t, (f, t) ∈ ranges y ∧ f ≤ p ∧ p + n ≤ t) ∧
  (∀ p n q j, owned y !! p = Some n → owned y !! q = Some j → p ≠ q → p + n ≤ q ∨ q + j ≤ p) ∧
  (∀ n, ranges y ≠ [] → 0 < n → n + 3 < 2 ^ 32 → ∃ p s', allocate n (hstate y) = Ok (p, s')) ∧
  (∀ n k, 0 < n → n + 3 < 2 ^ 32 → can_align (hstate y) n k →
     ∃ p s', allocate_aligned n (2 ^ k) (hstate y) = Ok (p, s') ∧ (2 ^ k | p)) ∧
  (∀ p, is_Some (owned y !! p) → ∃ s', free p (hstate y) = Ok ((), s')).
Proof.
  intros Hr. pose proof (reachable_hinv y Hr) as Hi. destruct y as [R M s]. cbn in *.
  split_and!.
  - intros p n Hp. destruct Hi as [[= -> -> ->]|(l & Hok & Hco & Hown)]; [done|]. cbn in *.
    destruct (proj1 Hown p n Hp) as (x & k & Hk & Hn & Hx).
    destruct (live_region R l s x p k Hok Hx) as (_ & H4 & f & t & ? & ? & ?). split_and!; [done..|].
    exists f, t. split_and!; [done..|lia].
  - intros p n q j Hp Hq Hne. destruct Hi as [[= -> -> ->]|(l & Hok & Hco & Hown)]; [done|]. cbn in *.
    destruct (proj1 Hown p n Hp) as (x & k & Hk & _ & Hx), (proj1 Hown q j Hq) as (y & i & Hj & _ & Hy).
    destruct (live_apart R l s x p k y q i Hok Hx Hy) as [(_ & ? & _)|(_ & _ & ?)]; [done|lia].
  - intros n HR Hn Hlim. destruct (hinv_live _ Hi ltac:(by left)) as (l & Hok & Hco & _); cbn in *.
    destruct (heap_allocate R l s n Hok Hco Hn Hlim) as (p & s' & Hrun & _). eauto.
  - intros n k Hn Hlim Hca. destruct (can_align_live _ n k Hi Hca) as (l & Hok & Hco & _); cbn in *.
    destruct (can_align_fits R l s n k Hok Hca) as (Hk & Hre & _).
    destruct (heap_allocate_aligned R l s n k Hok Hco Hn Hlim Hk Hre) as (p & s' & Hrun & _).
    exists p, s'. split; [done|]. by apply (step_aligned_inv R M s s' n k p).
  - intros p [n Hp]. destruct Hi as [[= -> -> ->]|(l & Hok & Hco & Hown)]; [done|]. cbn in *.
    destruct (proj1 Hown p n Hp) as (x & k & _ & _ & Hx).
    destruct (heap_free R l s x p k Hok Hco Hx) as ([] & s' & Hrun & _). eauto.
Qed.

(** C32. No event changes a word of a region that its owner keeps, but a store of the
    owner to that word: neither the calls of the heap, which write headers and the words
    in front of aligned payloads, nor the other clients. *)
Theorem heap_keeps_data y ev y' p n z : reachable y → hstep y ev y' →
  owned y !! p = Some n → owned y' !! p = Some n → p ≤ z < p + n → (∀ v, ev ≠ EStore z v) →
  words (hstate y') !! z = words (hstate y) !! z.
Proof.
  intros Hr Hs Hp Hp' Hz Hev. destruct (hstep_inv y ev y' (reachable_hinv y Hr) Hs) as [_ Hk].
  by apply (Hk p n z).
Qed.

(** C12. Nothing is lost and nothing stays in pieces: when the clients have freed what they
    owned, every registered range is one free segment again. *)
Theorem heap_recovers y f t : reachable y → owned y = ∅ → (f, t) ∈ ranges y →
  descs (hstate y) !! f = Some (Desc None None (t - f - DESC) DESC) ∧ is_linked (hstate y) f = true.
Proof.
  intros Hr HM HR. destruct (reachable_hinv y Hr) as [->|(l & Hok & Hco & Hown)]; [by apply elem_of_nil in HR|].
  destruct y as [R M s]; cbn in *. subst M. pose proof (ok_layout _ _ _ Hok) as [HO HC].
  assert (∀ x d, descs s !! x = Some d → x ∈ l) as Hall.
  { intros x d Hx. destruct (decide (x ∈ l)) as [|Hxl]; [done|].
    destruct (proj2 Hown x (x + headerOffset d) (availableSize d)) as [? E]; [by exists d|].
    by rewrite lookup_empty in E. }
  pose proof (range_bounds _ (lay_ranges _ _ HO) f t HR) as (_ & Hft & _).
  destruct (lay_cover _ _ HO f t f HR ltac:(lia)) as (a & d & Ha & Haf).
  destruct (lay_in _ _ HO a d Ha) as (f' & t' & HR' & Hf' & Ht').
  destruct (range_apart _ (lay_ranges _ _ HO) f t f' t' HR HR') as [[<- <-]|?]; [|lia].
  assert (a = f) as -> by lia.
  assert (seg_right d = None) as Er.
  { destruct (seg_right d) as [z|] eqn:Ez; [|done]. exfalso. apply (Hco f d z); [by eapply Hall|done|done|].
    destruct (ok_right R l s f d z Hok Ha Ez) as [[e He] _]. by eapply Hall. }
  assert (seg_left d = None) as El.
  { destruct (seg_left d) as [z|] eqn:Ez; [|done]. exfalso. pose proof (lay_left _ _ HC f d Ha) as Hl.
    rewrite Ez in Hl. destruct Hl as (e & He & Hre). apply (Hco z e f); [by eapply Hall|done|done|by eapply Hall]. }
  pose proof (lay_right _ _ HC f d Ha) as Hend. rewrite Er in Hend. destruct Hend as [f2 HR2].
  pose proof (lay_bounds R _ f d HO Ha) as Hb.
  assert (dend f d = t) as Et.
  { pose proof (range_bounds _ (lay_ranges _ _ HO) _ _ HR2).
    destruct (range_apart _ (lay_ranges _ _ HO) f t f2 (dend f d) HR HR2); unfold dend in *; lia. }
  assert (f ∈ l) as Hfl by (by eapply Hall). pose proof (ok_free _ _ _ Hok f d Hfl Ha) as Hh.
  assert (d = Desc None None (t - f - DESC) DESC) as <-.
  { destruct d; cbn in *. unfold dend, DESC in *. cbn in *. f_equal; [done|done|lia|lia]. }
  split; [done|]. assert ((f, d) ∈ free_segs s) as Hin by (by apply (free_segs_elem R l s Hok)).
  by apply list_elem_of_filter in Hin as [? _].
Qed.

(** C40. When every free segment reaches an aligned address and none has room for the request behind
    it, the aligned [allocate] does not answer with a null pointer: it returns the aligned address
    in the last free segment that it looked at, and changes nothing. Where a segment ends before its first aligned
    address this fails in another way: memory outside of the heap is given out, as
    [aligned_allocate_escapes] shows. *)
Theorem aligned_allocate_fails R l s n k a : heap_ok R l s → coalesced l (descs s) → 0 < n → n + 3 < 2 ^ 32 → 2 ≤ k < 32 →
  (∀ x d, x ∈ l → descs s !! x = Some d → reaches k x d ∧ dend x d - alignUp (x + 24) (2 ^ k) < n) → last l = Some a →
  allocate_aligned n (2 ^ k) s = Ok (alignUp (a + 24) (2 ^ k), s) ∧ 0 < alignUp (a + 24) (2 ^ k).
Proof.
  intros Hok Hco Hn Hlim Hk Hno Hl.
  destruct (heap_allocate_aligned R l s n k Hok Hco Hn Hlim Hk) as (p & s' & Hrun & Hpost).
  { intros x d Hx Hd. by apply (Hno x d). }
  destruct Hpost as [(-> & _ & ->)|(_ & _ & (x & d & Hx & Hd & Hfit) & _)].
  - rewrite Hl in Hrun. split; [exact Hrun|]. apply last_Some_elem_of in Hl as Ha.
    destruct (ok_free_seg R l s a Hok Ha) as (d & Hd & Hh & Hp & _ & _ & _ & Hde).
    destruct (place_spec k a d Hp Hde Hh Hk) as (ret & _ & -> & _ & ?); [by apply (Hno a d)|lia].
  - destruct (Hno x d Hx Hd). lia.
Qed.

(** ** Concrete heaps *)

Definition after {A} (m : prog kheap A) s : kheap := match m s with Ok (_, s') => s' | Err _ => s end.

Definition demo_heap1 : kheap := after (addHeapBlock 4096 8192) heap0.
Definition demo_heap2 : kheap := after (allocate 100) demo_heap1.
Definition demo_heap3 : kheap := after (allocate_aligned 64 8) demo_heap2.
Definition demo_heap4 : kheap := after (free 4120) demo_heap3.
Definition demo_heap5 : kheap := after (free 4248) demo_heap4.

(** An aligned request that no aligned address of a free segment can serve: the unsigned
    size wraps around and the heap gives out memory that it does not have. *)
Example aligned_allocate_escapes :
  match addHeapBlock 4096 4160 heap0 with
  | Ok (_, s) => match allocate_aligned 8 4096 s with Ok (p, _) => p = 8192 | Err _ => False end
  | Err _ => False
  end.
Proof. vm_compute. reflexivity. Qed.

(** A request whose size rounds up to zero is answered with an empty region. *)
Example allocate_wraps :
  match allocate 0xFFFFFFFF demo_heap1 with
  | Ok (p, s) => p = 4120 ∧ availableSize <$> descs s !! 4096 = Some 0
  | Err _ => False
  end.
Proof. vm_compute. split; reflexivity. Qed.


Definition demo_range : list (Z * Z) := [(4096, 8192)].

Lemma demo_sys1 : reachable (HSys demo_range ∅ demo_heap1).
Proof.
  eapply rtc_once. exists (EAdd 4096 8192). apply step_add; [|by vm_compute].
  unfold fresh_range, DESC. split_and!; try lia; [by exists 1024|by exists 2048|intros f t Hr; by apply elem_of_nil in Hr].
Qed.

Lemma demo_sys2 : reachable (HSys demo_range {[4120 := 100]} demo_heap2).
Proof.
  eapply rtc_r; [exact demo_sys1|]. exists (EAlloc 100).
  apply (step_alloc _ ∅ _ _ 100 4120); [done|lia|lia|by vm_compute].
Qed.

Lemma demo_can_align : can_align demo_heap2 64 3.
Proof.
  assert (free_segs demo_heap2 = [(4220, Desc (Some 4096) None 3948 24)]) as E by (vm_compute; reflexivity).
  unfold can_align. rewrite E. split_and!; [lia|lia| |].
  - constructor; [|by constructor]. exists 4248. split; [by exists 531|unfold dend; cbn; lia].
  - constructor. vm_compute. discriminate.
Qed.

Lemma demo_sys3 : reachable (HSys demo_range {[4248 := 64; 4120 := 100]} demo_heap3).
Proof.
  eapply rtc_r; [exact demo_sys2|]. exists (EAligned 64 3).
  apply (step_aligned _ _ _ _ 64 3 4248); [lia|lia|exact demo_can_align|by vm_compute].
Qed.

Lemma demo_sys5 : reachable (HSys demo_range ∅ demo_heap5).
Proof.
  set (M3 := {[4248 := 64; 4120 := 100]} : gmap Z Z). assert (delete 4248 (delete 4120 M3) = ∅) as E by (by vm_compute).
  eapply rtc_r with (HSys demo_range (delete 4120 M3) demo_heap4).
  - eapply rtc_r; [exact demo_sys3|]. exists (EFree 4120). apply step_free; [by eexists|by vm_compute].
  - exists (EFree 4248). rewrite <- E. apply step_free; [by eexists|by vm_compute].
Qed.

Example heap_regions_disjoint_witness :
  reachable (HSys demo_range {[4248 := 64; 4120 := 100]} demo_heap3) ∧ (4120 + 100 ≤ 4248 ∨ 4248 + 64 ≤ 4120).
Proof.
  split; [exact demo_sys3|]. destruct (heap_regions_disjoint _ demo_sys3) as (_ & Hd & _).
  apply (Hd 4120 100 4248 64); [reflexivity|reflexivity|discriminate].
Defined.

Definition demo_stored : kheap := set_words (<[4124 := 7]> (words demo_heap2)) demo_heap2.

Lemma demo_sys_stored : reachable (HSys demo_range {[4120 := 100]} demo_stored).
Proof.
  eapply rtc_r; [exact demo_sys2|]. exists (EStore 4124 7). by apply (step_store _ _ _ 4120 100).
Qed.

Example heap_keeps_data_witness :
  words (after (allocate 64) demo_stored) !! 4124 = words demo_stored !! 4124.
Proof.
  apply (heap_keeps_data (HSys demo_range {[4120 := 100]} demo_stored) (EAlloc 64)
    (HSys demo_range {[4244 := 64; 4120 := 100]} (after (allocate 64) demo_stored)) 4120 100 4124).
  - exact demo_sys_stored.
  - apply (step_alloc _ _ _ _ 64 4244); [discriminate|lia|lia|by vm_compute].
  - reflexivity.
  - reflexivity.
  - lia.
  - discriminate.
Defined.

Example heap_recovers_witness :
  descs demo_heap5 !! 4096 = Some (Desc None None 4072 24) ∧ is_linked demo_heap5 4096 = true.
Proof. apply (heap_recovers _ 4096 8192 demo_sys5); [reflexivity|by left]. Defined.

Lemma demo_free_segs : ∃ l, heap_ok demo_range l demo_heap2 ∧ coalesced l (descs demo_heap2) ∧ l = [4220].
Proof.
  destruct (reachable_hinv _ demo_sys2) as [[=]|(l & Hok & Hco & _)]. cbn in *. exists l. split_and!; [done|done|].
  assert (free_segs demo_heap2 = [(4220, Desc (Some 4096) None 3948 24)]) as E by (vm_compute; reflexivity).
  pose proof (linked_nodup _ _ _ (ok_linked _ _ _ Hok)) as Hnd. apply Permutation_singleton_r.
  apply NoDup_Permutation; [done|apply NoDup_singleton|]. intros x. rewrite list_elem_of_singleton. split.
  - intros Hx. destruct (lk_in _ _ _ (ok_linked _ _ _ Hok) x Hx) as [d Hd].
    assert ((x, d) ∈ free_segs demo_heap2) as Hin by (by apply (free_segs_elem demo_range l demo_heap2 Hok)).
    rewrite E in Hin. apply list_elem_of_singleton in Hin. congruence.
  - intros ->. apply (free_segs_elem demo_range l demo_heap2 Hok 4220 (Desc (Some 4096) None 3948 24)). rewrite E. by left.
Qed.

Example aligned_allocate_fails_witness : allocate_aligned 4000 8 demo_heap2 = Ok (4248, demo_heap2) ∧ 0 < 4248.
Proof.
  destruct demo_free_segs as (l & Hok & Hco & ->).
  apply (aligned_allocate_fails demo_range [4220] demo_heap2 4000 3 4220 Hok Hco); [lia|lia|lia| |reflexivity].
  intros x d ->%list_elem_of_singleton Hd. vm_compute in Hd. injection Hd as <-. split.
  - exists 4248. split; [exists 531; lia|unfold dend; cbn; lia].
  - vm_compute. reflexivity.
Defined.
