(* ===== verification/RingBuffer.v ===== *)
(** * Ring buffers (src/include/ringbuffer.h)

    [CRingBuffer<T>] counts its elements and [SRingBuffer<T>] keeps one slot
    free; both store their elements in one block of the kernel heap. The first
    is proved to refine a bounded FIFO queue, operation by operation and for
    every sequence of operations; of the second it is proved that its fullness
    test makes every buffer refuse to store anything. *)

From S2P Require Import Prelude.

(** The pointer [_data]: null, a block that was freed, or a live block. *)
Inductive block (A : Type) : Type :=
  | Null
  | Freed
  | Live (l : list A).
Arguments Null {A}.
Arguments Freed {A}.
Arguments Live {A} l.

(** A read and a write of [_data[i]]; what C leaves undefined is [FUndef]. *)
Definition block_get {A} (b : block A) (i : Z) : option A :=
  match b with Live l => znth l i | _ => None end.
Definition block_set {A} (b : block A) (i : Z) (x : A) : option (block A) :=
  match b with Live l => Live <$> zset l i x | _ => None end.
(** [memcpy(e, _data + i, c * sizeof(T))]: the [c] elements from index [i]. *)
Definition block_slice {A} (b : block A) (i c : Z) : option (list A) :=
  match b with
  | Live l =>
      if (0 <=? i) && (0 <=? c) && (i + c <=? zlen l)
      then Some (take (Z.to_nat c) (drop (Z.to_nat i) l)) else None
  | _ => None
  end.
Definition block_nonnull {A} (b : block A) : bool :=
  match b with Null => false | _ => true end.

(** [enum class RingBufferFlag] *)
Inductive RingBufferFlag : Type := RBF_DEFAULT | RBF_OVERWRITE.

#[export] Instance RingBufferFlag_eq_dec : EqDecision RingBufferFlag.
Proof. solve_decision. Defined.

Module CRingBuffer.

Record t (A : Type) : Type := mk {
  _rIndex : Z;
  _wIndex : Z;
  _count : Z;
  _capacity : Z;
  _flag : RingBufferFlag;
  _data : block A;
}.
Arguments mk {A}.
Arguments _rIndex {A}. Arguments _wIndex {A}. Arguments _count {A}.
Arguments _capacity {A}. Arguments _flag {A}. Arguments _data {A}.

Section ops.
Context {A : Type}.
Implicit Types b : t A.

(** [init(bufSize, rbf)], given the block that [kheap.allocate] returned. *)
Definition init (bufSize : Z) (rbf : RingBufferFlag) (mem : block A)
  : prog (t A) bool :=
  assert_ (0 <? bufSize);;
  put (mk 0 0 0 bufSize rbf mem);;
  mret (block_nonnull mem).

Definition reset : prog (t A) () :=
  modify (λ b, mk 0 0 (_count b) (_capacity b) (_flag b) (_data b)).

Definition destroy : prog (t A) () :=
  modify (λ b, mk 0 0 0 0 (_flag b)
                 (if block_nonnull (_data b) then Freed else Null)).

Definition capacity b : Z := _capacity b.
Definition length b : Z := _count b.
Definition freeSpace b : Z := _capacity b - _count b.
Definition isFull b : bool := _capacity b <=? _count b.
Definition isEmpty b : bool := _count b =? 0.

Definition write (d : A) : prog (t A) bool :=
  b ← get;
  assert_ (block_nonnull (_data b));;
  let maxReaded := isFull b in
  if bool_decide (_flag b = RBF_DEFAULT) && maxReaded then mret false
  else
    data' ← defined (block_set (_data b) (_wIndex b) d);
    w' ← defined (if _capacity b =? 0 then None
                  else Some (Z.rem (_wIndex b + 1) (_capacity b)));
    (if bool_decide (_flag b = RBF_OVERWRITE) && maxReaded
     then put (mk (Z.rem (_rIndex b + 1) (_capacity b)) w' (_count b)
                  (_capacity b) (_flag b) data')
     else put (mk (_rIndex b) w' (_count b + 1)
                  (_capacity b) (_flag b) data'));;
    mret true.

(** The loop of [writen]: [e] lists the elements that [*e], [*(e + 1)], ...
    may read. *)
Definition writen_body (en : list A * Z) : prog (t A) (list A * Z + Z) :=
  let (e, n) := en in
  if 0 <? n then
    x ← defined (head e);
    ok ← write x;
    if (ok : bool) then mret (inl (tail e, n - 1)) else mret (inr n)
  else mret (inr n).

Definition writen (e : list A) (n : Z) : prog (t A) Z :=
  n' ← loop (S (Z.to_nat n)) writen_body (e, n);
  mret (n - n').

(** [read(e)]: the element stored in [*e], [None] when it returns false. *)
Definition read : prog (t A) (option A) :=
  b ← get;
  assert_ (block_nonnull (_data b));;
  if isEmpty b then mret None
  else
    x ← defined (block_get (_data b) (_rIndex b));
    r' ← defined (if _capacity b =? 0 then None
                  else Some (Z.rem (_rIndex b + 1) (_capacity b)));
    put (mk r' (_wIndex b) (_count b - 1) (_capacity b) (_flag b) (_data b));;
    mret (Some x).

(** The copying loop of [readn]: [e] holds what was copied so far. *)
Definition readn_body (ce : Z * list A) : prog (t A) (Z * list A + list A) :=
  let (count, e) := ce in
  if 0 <? count then
    b ← get;
    let c := Z.min (_capacity b - _rIndex b) count in
    chunk ← defined (block_slice (_data b) (_rIndex b) c);
    r' ← defined (if _capacity b =? 0 then None
                  else Some (Z.rem (_rIndex b + c) (_capacity b)));
    put (mk r' (_wIndex b) (_count b) (_capacity b) (_flag b) (_data b));;
    mret (inl (count - c, e ++ chunk))
  else mret (inr e).

(** [readn(e, n)]: what it returns and the elements stored at [e]. *)
Definition readn (n : Z) : prog (t A) (Z * list A) :=
  b ← get;
  assert_ (block_nonnull (_data b));;
  let count := if _count b <? n then _count b else n in
  put (mk (_rIndex b) (_wIndex b) (_count b - count)
          (_capacity b) (_flag b) (_data b));;
  e ← loop (S (Z.to_nat count)) readn_body (count, []);
  mret (count, e).

(** Runs an operation of the destination buffer of [move]. *)
Definition on_dst {B} (m : prog (t A) B) : prog (t A * t A) B := λ s,
  match m s.1 with
  | Ok (x, d') => Ok (x, (d', s.2))
  | Err f => Err f
  end.

Definition move_body (count : Z) : prog (t A * t A) (Z + ()) :=
  if 0 <? count then
    '(d, src) ← get;
    let sc := Z.min (_capacity src - _rIndex src) count in
    e ← defined (block_slice (_data src) (_rIndex src) sc);
    sc ← on_dst (writen e sc);
    '(d, src) ← get;
    r' ← defined (if _capacity src =? 0 then None
                  else Some (Z.rem (_rIndex src + sc) (_capacity src)));
    put (d, mk r' (_wIndex src) (_count src - sc)
               (_capacity src) (_flag src) (_data src));;
    mret (inl (count - sc))
  else mret (inr ()).

(** [move(src, n)] on a destination and a source that are distinct. *)
Definition move (n : Z) : prog (t A * t A) Z :=
  '(d, src) ← get;
  assert_ (block_nonnull (_data d));;
  let count := if bool_decide (_flag d = RBF_DEFAULT)
               then Z.min n (_capacity d - _count d) else n in
  let count := Z.min count (_count src) in
  loop (S (Z.to_nat count)) move_body count;;
  mret count.
End ops.

(** A client's call, and the run of a sequence of calls. *)
Inductive call (A : Type) : Type :=
  | Write (d : A)
  | Writen (e : list A)
  | Read
  | Readn (n : Z).
Arguments Write {A}. Arguments Writen {A}. Arguments Read {A}. Arguments Readn {A}.

Definition run_call {A} (c : call A) : prog (t A) (Z * list A) :=
  match c with
  | Write d => ok ← write d; mret (Z.b2z ok, [])
  | Writen e => k ← writen e (zlen e); mret (k, [])
  | Read => o ← read; mret (match o with Some x => (1, [x]) | None => (0, []) end)
  | Readn n => readn n
  end.

Fixpoint run_calls {A} (cs : list (call A)) : prog (t A) (list (Z * list A)) :=
  match cs with
  | [] => mret []
  | c :: cs => r ← run_call c; rs ← run_calls cs; mret (r :: rs)
  end.
End CRingBuffer.

Module SRingBuffer.

Record t (A : Type) : Type := mk {
  _rIndex : Z;
  _wIndex : Z;
  _capacity : Z;
  _data : block A;
}.
Arguments mk {A}.
Arguments _rIndex {A}. Arguments _wIndex {A}.
Arguments _capacity {A}. Arguments _data {A}.

Section ops.
Context {A : Type}.
Implicit Types b : t A.

Definition init (bufSize : Z) (mem : block A) : prog (t A) bool :=
  assert_ (0 <? bufSize);;
  put (mk 0 0 bufSize mem);;
  mret (block_nonnull mem).

Definition reset : prog (t A) () :=
  modify (λ b, mk 0 0 (_capacity b) (_data b)).

Definition destroy : prog (t A) () :=
  modify (λ b, mk 0 0 0 (if block_nonnull (_data b) then Freed else Null)).

(** [/] and [%] of the source truncate and trap on a zero divisor; their
    operands are [sint]s. *)
Definition div b (x : Z) : option Z :=
  if _capacity b =? 0 then None else Some (Z.quot (s32 x) (_capacity b)).
Definition mod_ b (x : Z) : option Z :=
  if _capacity b =? 0 then None else Some (Z.rem (s32 x) (_capacity b)).

Definition isFull b : option bool :=
  (λ q, negb (q =? 0)) <$> div b (_capacity b + _wIndex b + 1 - _rIndex b).
Definition isEmpty b : bool := _rIndex b =? _wIndex b.
Definition capacity b : Z := _capacity b.
Definition length b : option Z := mod_ b (_capacity b + _wIndex b - _rIndex b).
Definition freeSpace b : option Z := mod_ b (_capacity b + _rIndex b - _wIndex b).

Definition write (e : A) : prog (t A) bool :=
  b ← get;
  assert_ (block_nonnull (_data b));;
  full ← defined (isFull b);
  if (full : bool) then mret false
  else
    data' ← defined (block_set (_data b) (_wIndex b) e);
    w' ← defined (mod_ b (_wIndex b + 1));
    put (mk (_rIndex b) w' (_capacity b) data');;
    mret true.

Definition writen_body (en : list A * Z) : prog (t A) (list A * Z + Z) :=
  let (e, n) := en in
  if 0 <? n then
    x ← defined (head e);
    ok ← write x;
    if (ok : bool) then mret (inl (tail e, n - 1)) else mret (inr n)
  else mret (inr n).

Definition writen (e : list A) (n : Z) : prog (t A) Z :=
  n' ← loop (S (Z.to_nat n)) writen_body (e, n);
  mret (n - n').

Definition read : prog (t A) (option A) :=
  b ← get;
  assert_ (block_nonnull (_data b));;
  if isEmpty b then mret None
  else
    x ← defined (block_get (_data b) (_rIndex b));
    r' ← defined (mod_ b (_rIndex b + 1));
    put (mk r' (_wIndex b) (_capacity b) (_data b));;
    mret (Some x).

Definition readn_body (ce : Z * list A) : prog (t A) (Z * list A + list A) :=
  let (count, e) := ce in
  if 0 <? count then
    b ← get;
    let c := Z.min (_capacity b - _rIndex b) count in
    chunk ← defined (block_slice (_data b) (_rIndex b) c);
    r' ← defined (mod_ b (_rIndex b + c));
    put (mk r' (_wIndex b) (_capacity b) (_data b));;
    mret (inl (count - c, e ++ chunk))
  else mret (inr e).

Definition readn (n : Z) : prog (t A) (Z * list A) :=
  b ← get;
  assert_ (block_nonnull (_data b));;
  len ← defined (length b);
  let count := if n <? len then n else len in
  e ← loop (S (Z.to_nat count)) readn_body (count, []);
  mret (count, e).

Definition on_dst {B} (m : prog (t A) B) : prog (t A * t A) B := λ s,
  match m s.1 with
  | Ok (x, d') => Ok (x, (d', s.2))
  | Err f => Err f
  end.

Definition move_body (count : Z) : prog (t A * t A) (Z + ()) :=
  if 0 <? count then
    '(d, src) ← get;
    let sc := Z.min (_capacity src - _rIndex src) count in
    e ← defined (block_slice (_data src) (_rIndex src) sc);
    sc ← on_dst (writen e sc);
    '(d, src) ← get;
    r' ← defined (mod_ src (_rIndex src + sc));
    put (d, mk r' (_wIndex src) (_capacity src) (_data src));;
    mret (inl (count - sc))
  else mret (inr ()).

Definition move (n : Z) : prog (t A * t A) Z :=
  '(d, src) ← get;
  len ← defined (length d);
  let count := Z.min n len in
  len ← defined (length src);
  let count := Z.min count len in
  loop (S (Z.to_nat count)) move_body count;;
  mret count.
End ops.

Definition run_call {A} (c : CRingBuffer.call A) : prog (t A) (Z * list A) :=
  match c with
  | CRingBuffer.Write d => ok ← write d; mret (Z.b2z ok, [])
  | CRingBuffer.Writen e => k ← writen e (zlen e); mret (k, [])
  | CRingBuffer.Read =>
      o ← read; mret (match o with Some x => (1, [x]) | None => (0, []) end)
  | CRingBuffer.Readn n => readn n
  end.

Fixpoint run_calls {A} (cs : list (CRingBuffer.call A))
  : prog (t A) (list (Z * list A)) :=
  match cs with
  | [] => mret []
  | c :: cs => r ← run_call c; rs ← run_calls cs; mret (r :: rs)
  end.
End SRingBuffer.

(** ** The contract: a bounded FIFO queue *)

Module BoundedQueue.
Section spec.
Context {A : Type}.

(** [store flag cap q e] appends [e] to [q]: a full queue drops the new
    elements, or its oldest ones when it may overwrite. *)
Definition store (flag : RingBufferFlag) (cap : Z) (q e : list A)
  : Z * list A :=
  match flag with
  | RBF_DEFAULT =>
      let k := Z.min (zlen e) (cap - zlen q) in
      (k, q ++ take (Z.to_nat k) e)
  | RBF_OVERWRITE =>
      (zlen e, drop (Z.to_nat (zlen q + zlen e - cap)) (q ++ e))
  end.

Definition call (flag : RingBufferFlag) (cap : Z) (c : CRingBuffer.call A)
    (q : list A) : (Z * list A) * list A :=
  match c with
  | CRingBuffer.Write d =>
      let (k, q') := store flag cap q [d] in ((k, []), q')
  | CRingBuffer.Writen e =>
      let (k, q') := store flag cap q e in ((k, []), q')
  | CRingBuffer.Read =>
      match q with [] => ((0, []), []) | x :: q' => ((1, [x]), q') end
  | CRingBuffer.Readn n =>
      let k := Z.to_nat (Z.min n (zlen q)) in
      ((zlen (take k q), take k q), drop k q)
  end.

Fixpoint calls flag cap (cs : list (CRingBuffer.call A)) (q : list A)
  : list (Z * list A) * list A :=
  match cs with
  | [] => ([], q)
  | c :: cs =>
      let (r, q1) := call flag cap c q in
      let (rs, q2) := calls flag cap cs q1 in (r :: rs, q2)
  end.
End spec.
End BoundedQueue.

Section refinement.
Context {A : Type}.
Implicit Types (b : CRingBuffer.t A) (q e l : list A) (d : A).
Import CRingBuffer.

(** The elements of [q] lie in [l] from the index [r] on, wrapping at [cap]. *)
Definition slots l (cap r : Z) q : Prop :=
  ∀ i x, q !! i = Some x →
    l !! Z.to_nat ((r + Z.of_nat i) mod cap) = Some x.

Lemma slots_nil l cap r : slots l cap r [].
Proof. intros i x. by rewrite lookup_nil. Qed.

Lemma slots_drop l cap r q c :
  0 ≤ c → slots l cap r q → slots l cap ((r + c) mod cap) (drop (Z.to_nat c) q).
Proof.
  intros Hc Hs i x Hx. rewrite lookup_drop in Hx. apply Hs in Hx.
  rewrite Zplus_mod_idemp_l, <- Hx. do 3 f_equal. lia.
Qed.

(** A run of slots that does not wrap is a slice of the block. *)
Lemma slots_slice l cap r q c :
  slots l cap r q → zlen l = cap → 0 ≤ r → 0 ≤ c → r + c ≤ cap → c ≤ zlen q →
  block_slice (Live l) r c = Some (take (Z.to_nat c) q).
Proof.
  intros Hs Hl Hr Hc Hrc Hq. unfold block_slice.
  destruct (Z.leb_spec 0 r), (Z.leb_spec 0 c), (Z.leb_spec (r + c) (zlen l));
    try lia. cbn [andb]. f_equal. apply list_eq. intros i.
  destruct (decide (i < Z.to_nat c)%nat) as [Hi|Hi].
  - rewrite lookup_take_drop, lookup_take_lt by done.
    destruct (lookup_lt_is_Some_2 q i) as [x Hx]; [lia|].
    rewrite Hx. rewrite <- (Hs i x Hx). f_equal.
    rewrite Z.mod_small by lia. lia.
  - by rewrite !lookup_take_ge by lia.
Qed.

(** [b] holds the queue [q], oldest element first. *)
Definition rep b q : Prop :=
  ∃ l, _data b = Live l ∧ zlen l = _capacity b ∧ 0 < _capacity b ∧
    0 ≤ _rIndex b < _capacity b ∧ _count b = zlen q ∧
    zlen q ≤ _capacity b ∧
    _wIndex b = (_rIndex b + zlen q) mod _capacity b ∧
    slots l (_capacity b) (_rIndex b) q.

(** What an operation never changes. *)
Definition same_shape b b' : Prop :=
  _capacity b' = _capacity b ∧ _flag b' = _flag b.

Lemma rep_init n f l :
  0 < n → zlen l = n → rep (mk 0 0 0 n f (Live l)) [].
Proof.
  intros Hn Hl. exists l. simpl. rewrite Z.mod_0_l by lia.
  repeat split; try (done || lia).
Qed.

(** The slot at [_wIndex] takes the element after the last of the queue. *)
Lemma rep_push b q d l :
  rep b q → _data b = Live l → zlen q < _capacity b →
  zset l (_wIndex b) d = Some (<[Z.to_nat (_wIndex b) := d]> l) ∧
  rep (mk (_rIndex b) (Z.rem (_wIndex b + 1) (_capacity b)) (_count b + 1)
          (_capacity b) (_flag b) (Live (<[Z.to_nat (_wIndex b) := d]> l)))
      (q ++ [d]).
Proof.
  intros (l' & Hd & Hl & Hc & Hr & Hn & Hq & Hw & Hi) Hd' Hlt.
  assert (l' = l) as -> by congruence.
  pose proof (Z.mod_pos_bound (_rIndex b + zlen q) (_capacity b)) as Hb.
  split; [apply zset_Some; lia|].
  exists (<[Z.to_nat (_wIndex b) := d]> l). simpl.
  rewrite length_insert, length_app, Nat2Z.inj_add. simpl.
  repeat split; try (done || lia).
  - rewrite rem_mod, Hw, Zplus_mod_idemp_l by lia. f_equal. lia.
  - intros i x Hx. rewrite Hw. apply lookup_app_Some in Hx as [Hx|[Hge Hx]].
    + rewrite list_lookup_insert_ne; [by apply Hi|].
      apply lookup_lt_Some in Hx. revert Hb.
      rewrite !mod_once by lia. repeat case_match; lia.
    + destruct (i - Datatypes.length q)%nat eqn:E; [|done]. simplify_eq/=.
      replace i with (Datatypes.length q) by lia.
      apply list_lookup_insert_eq. lia.
Qed.

(** A buffer that is full and overwrites loses its oldest element. *)
Lemma rep_shift b q d l x :
  rep b (x :: q) → _data b = Live l → _capacity b = zlen (x :: q) →
  zset l (_wIndex b) d = Some (<[Z.to_nat (_wIndex b) := d]> l) ∧
  rep (mk (Z.rem (_rIndex b + 1) (_capacity b))
          (Z.rem (_wIndex b + 1) (_capacity b)) (_count b)
          (_capacity b) (_flag b) (Live (<[Z.to_nat (_wIndex b) := d]> l)))
      (q ++ [d]).
Proof.
  intros (l' & Hd & Hl & Hc & Hr & Hn & Hq & Hw & Hi) Hd' Hcap.
  assert (l' = l) as -> by congruence.
  assert (_wIndex b = _rIndex b) as Hwr.
  { rewrite Hw, <- Hcap, <- Zplus_mod_idemp_r, Z.mod_same, Z.add_0_r by lia.
    by apply Z.mod_small. }
  split; [apply zset_Some; lia|].
  exists (<[Z.to_nat (_wIndex b) := d]> l). cbn [_data _rIndex _wIndex _count _capacity].
  rewrite length_insert, length_app. cbn [Datatypes.length] in *.
  pose proof (Z.mod_pos_bound (_rIndex b + 1) (_capacity b)).
  rewrite Hwr, rem_mod by lia.
  repeat split; try (done || lia).
  - rewrite Zplus_mod_idemp_l.
    replace (_rIndex b + 1 + Z.of_nat (Datatypes.length q + 1))
      with (_rIndex b + 1 + 1 * _capacity b) by lia.
    by rewrite Z.mod_add by lia.
  - intros i y Hy. rewrite Zplus_mod_idemp_l.
    apply lookup_app_Some in Hy as [Hy|[Hge Hy]].
    + pose proof (lookup_lt_Some _ _ _ Hy).
      rewrite list_lookup_insert_ne by
        (rewrite mod_once by lia; repeat case_match; lia).
      rewrite <- (Hi (S i) y Hy). f_equal. f_equal. f_equal. lia.
    + destruct (i - Datatypes.length q)%nat eqn:E; [|done]. simplify_eq/=.
      replace (_rIndex b + 1 + Z.of_nat i)
        with (_rIndex b + 1 * _capacity b) by lia.
      rewrite Z.mod_add, Z.mod_small by lia.
      apply list_lookup_insert_eq. lia.
Qed.

Lemma write_rep b q d :
  rep b q →
  ∃ ok b', write d b = Ok (ok, b') ∧ same_shape b b' ∧
    Z.b2z ok = fst (BoundedQueue.store (_flag b) (_capacity b) q [d]) ∧
    rep b' (snd (BoundedQueue.store (_flag b) (_capacity b) q [d])).
Proof.
  intros Hrep. pose proof Hrep as (l & Hd & Hl & Hc & Hr & Hn & Hq & Hw & Hi).
  assert ((_capacity b =? 0) = false) as Hc0 by lia.
  unfold write. prog_simpl. rewrite Hd, Hc0. cbn [block_nonnull block_set].
  unfold isFull, BoundedQueue.store.
  destruct (Z.leb_spec (_capacity b) (_count b)) as [Hfull|Hfree].
  - destruct (_flag b) eqn:Hf; repeat case_bool_decide; try done; prog_simpl;
      cbn [andb fst snd].
    + (* refused *)
      exists false, b.
      replace (Z.min (zlen [d]) (_capacity b - zlen q)) with 0 by (simpl; lia).
      by rewrite take_0, app_nil_r.
    + (* overwrites *)
      destruct q as [|x q]; [simpl in *; lia|].
      destruct (rep_shift b q d l x Hrep Hd ltac:(lia)) as [Hs Hrep'].
      rewrite Hs. cbn [fmap option_fmap option_map]. prog_simpl.
      eexists true, _. split; [done|].
      replace (Z.to_nat (zlen (x :: q) + zlen [d] - _capacity b)) with 1%nat
        by (simpl in *; lia).
      repeat split; try done; rewrite <- Hf; apply Hrep'.
  - destruct (rep_push b q d l Hrep Hd ltac:(lia)) as [Hs Hrep'].
    rewrite Hs, !andb_false_r. cbn [fmap option_fmap option_map]. prog_simpl.
    eexists true, _. split; [done|]. destruct (_flag b) eqn:Hf; cbn [fst snd].
    + rewrite Z.min_l by (simpl; lia). repeat split; try done; rewrite <- Hf; apply Hrep'.
    + replace (Z.to_nat (zlen q + zlen [d] - _capacity b)) with 0%nat
        by (simpl; lia).
      repeat split; try done; rewrite <- Hf; apply Hrep'.
Qed.
(** *** The contract of a store, one element at a time *)

Lemma store_nil f cap q :
  zlen q ≤ cap → BoundedQueue.store f cap q [] = (0, q).
Proof.
  intros Hq. destruct f; simpl.
  - rewrite Z.min_l by lia. simpl. by rewrite app_nil_r.
  - replace (Z.to_nat _) with 0%nat by lia. by rewrite drop_0, app_nil_r.
Qed.

Lemma store_cons f cap q d e :
  0 < cap → zlen q ≤ cap →
  let s := BoundedQueue.store f cap q [d] in
  BoundedQueue.store f cap q (d :: e) =
    if fst s =? 0 then (0, q)
    else (1 + fst (BoundedQueue.store f cap (snd s) e),
          snd (BoundedQueue.store f cap (snd s) e)).
Proof.
  intros Hc Hq. destruct f; cbn [BoundedQueue.store fst snd].
  - destruct (decide (zlen q < cap)).
    + rewrite (Z.min_l (zlen [d])) by (simpl; lia).
      change (Z.to_nat (zlen [d])) with 1%nat. cbn [take].
      destruct (Z.eqb_spec (zlen [d]) 0); [simpl in *; lia|].
      rewrite length_app. cbn [Datatypes.length].
      f_equal; [lia|]. rewrite <- app_assoc. f_equal. cbn [app].
      rewrite <- firstn_cons. f_equal. lia.
    + replace (Z.min (zlen [d]) (cap - zlen q)) with 0 by (simpl; lia).
      cbn [Z.eqb]. rewrite Z.min_r by (simpl; lia). f_equal; [lia|].
      replace (Z.to_nat (cap - zlen q)) with 0%nat by lia.
      by rewrite take_0, app_nil_r.
  - destruct (Z.eqb_spec (zlen [d]) 0); [simpl in *; lia|].
    cbn [Datatypes.length]. f_equal; [lia|].
    destruct (decide (zlen q < cap)).
    + replace (Z.to_nat (zlen q + Z.of_nat 1 - cap)) with 0%nat by lia.
      rewrite drop_0, length_app, <- app_assoc. cbn [app Datatypes.length].
      f_equal. lia.
    + replace (Z.to_nat (zlen q + Z.of_nat 1 - cap)) with 1%nat by lia.
      destruct q as [|y q]; [simpl in *; lia|]. cbn [app drop Datatypes.length] in *.
      rewrite !drop_0, length_app, <- app_assoc. cbn [app Datatypes.length].
      replace (Z.to_nat (Z.of_nat (S (Datatypes.length q)) + Z.of_nat (S (Datatypes.length e)) - cap))
        with (S (Z.to_nat (Z.of_nat (Datatypes.length q + 1) + zlen e - cap))) by lia.
      done.
Qed.

Lemma writen_rep b q e n :
  rep b q → 0 ≤ n ≤ zlen e →
  let s := BoundedQueue.store (_flag b) (_capacity b) q (take (Z.to_nat n) e) in
  ∃ b', writen e n b = Ok (fst s, b') ∧ same_shape b b' ∧ rep b' (snd s).
Proof.
  intros Hrep Hn. unfold writen.
  enough (∀ m e b q, rep b q → (m <= Datatypes.length e)%nat →
    let s := BoundedQueue.store (_flag b) (_capacity b) q (take m e) in
    ∃ b', loop (S m) writen_body (e, Z.of_nat m) b = Ok (Z.of_nat m - fst s, b') ∧
      same_shape b b' ∧ rep b' (snd s)) as Hloop.
  { destruct (Hloop (Z.to_nat n) e b q Hrep ltac:(lia)) as (b' & Hrun & Hb').
    rewrite Z2Nat.id in Hrun by lia. exists b'.
    prog_step Hrun. split; [|done]. f_equal. f_equal. lia. }
  clear. intros m. induction m as [|m IH]; intros e b q Hrep He s.
  - exists b. pose proof Hrep as (l & _ & _ & _ & _ & _ & Hq & _).
    subst s. rewrite take_0, store_nil by done. by cbn.
  - destruct e as [|x e]; [simpl in He; lia|].
    pose proof Hrep as (l & _ & _ & Hc & _ & _ & Hq & _).
    destruct (write_rep b q x Hrep) as (ok & b1 & Hw & [Hc1 Hf1] & Hok & Hrep1).
    subst s. cbn [take]. rewrite store_cons by done. rewrite <- Hok.
    assert (writen_body (x :: e, Z.of_nat (S m)) b = Ok
      (if ok then inl (e, Z.of_nat m) else inr (Z.of_nat (S m)), b1)) as Hbody.
    { unfold writen_body. destruct (Z.ltb_spec 0 (Z.of_nat (S m))); [|lia].
      cbn [head tail]. prog_simpl. prog_step Hw. destruct ok; prog_simpl; [|done].
      do 4 f_equal. lia. }
    destruct ok; cbn [Z.eqb Z.b2z fst snd].
    + rewrite (loop_next _ _ _ _ _ _ Hbody).
      destruct (IH e b1 _ Hrep1 ltac:(simpl in He; lia))
        as (b' & Hrun & [Hc' Hf'] & Hrep').
      rewrite Hc1, Hf1 in *. exists b'. rewrite Hrun. split; [do 2 f_equal; lia|].
      split; [|done]. split; congruence.
    + rewrite (loop_exit _ _ _ _ _ _ Hbody).
      exists b1. split; [do 2 f_equal; lia|]. split; [done|].
      assert (snd (BoundedQueue.store (_flag b) (_capacity b) q [x]) = q) as Hs.
      { destruct (_flag b); cbn [BoundedQueue.store fst snd Z.b2z] in *; [|done].
        rewrite <- Hok. cbn. by rewrite app_nil_r. }
      by rewrite Hs in Hrep1.
Qed.

Lemma read_rep b q :
  rep b q →
  ∃ b', read b = Ok (head q, b') ∧ same_shape b b' ∧ rep b' (tail q).
Proof.
  intros Hrep. pose proof Hrep as (l & Hd & Hl & Hc & Hr & Hn & Hq & Hw & Hi).
  unfold read. prog_simpl. rewrite Hd. cbn [block_nonnull]. prog_simpl.
  unfold isEmpty. rewrite Hn. destruct q as [|x q]; cbn [Datatypes.length head tail].
  { exists b. done. }
  destruct (Z.eqb_spec (Z.of_nat (S (Datatypes.length q))) 0); [lia|].
  destruct (Z.eqb_spec (_capacity b) 0); [lia|].
  cbn [block_get]. rewrite znth_lookup by lia.
  pose proof (Hi 0%nat x eq_refl) as Hx.
  rewrite Z.add_0_r, Z.mod_small in Hx by lia. rewrite Hx. prog_simpl.
  eexists. split; [done|]. split; [done|].
  exists l. cbn [_data _rIndex _wIndex _count _capacity Datatypes.length] in *.
  pose proof (Z.mod_pos_bound (_rIndex b + 1) (_capacity b)).
  rewrite rem_mod by lia. repeat split; try (done || lia).
  - rewrite Hw, Zplus_mod_idemp_l. f_equal. lia.
  - apply (slots_drop _ _ _ (x :: q) 1); [lia|done].
Qed.

(** The copying loop reads the next [count] elements from [_rIndex] on. *)
Lemma readn_loop fuel count b l q e :
  _data b = Live l → zlen l = _capacity b → 0 < _capacity b →
  0 ≤ _rIndex b < _capacity b → slots l (_capacity b) (_rIndex b) q →
  0 ≤ count ≤ zlen q → (Z.to_nat count < fuel)%nat →
  loop fuel readn_body (count, e) b =
    Ok (e ++ take (Z.to_nat count) q,
        mk ((_rIndex b + count) mod _capacity b) (_wIndex b) (_count b)
           (_capacity b) (_flag b) (_data b)).
Proof.
  revert count b q e. induction fuel as [|fuel IH]; intros count b q e; [lia|].
  intros Hd Hl Hc Hr Hs Hq Hf.
  destruct (Z.ltb_spec 0 count) as [Hpos|].
  - set (c := Z.min (_capacity b - _rIndex b) count).
    set (b1 := mk ((_rIndex b + c) mod _capacity b) (_wIndex b) (_count b)
                  (_capacity b) (_flag b) (_data b)).
    assert (readn_body (count, e) b =
      Ok (inl (count - c, e ++ take (Z.to_nat c) q), b1)) as Hbody.
    { unfold readn_body. destruct (Z.ltb_spec 0 count); [|lia].
      prog_simpl. rewrite Hd, (slots_slice l _ _ _ _ Hs) by lia. prog_simpl.
      destruct (Z.eqb_spec (_capacity b) 0); [lia|]. prog_simpl.
      unfold b1, c. by rewrite rem_mod, Hd by lia. }
    rewrite (loop_next _ _ _ _ _ _ Hbody).
    rewrite (IH _ b1 (drop (Z.to_nat c) q)); subst b1;
      cbn [_data _capacity _rIndex _wIndex _count _flag]; try (done || lia).
    + rewrite <- app_assoc, take_take_drop, Zplus_mod_idemp_l.
      replace (Z.to_nat c + Z.to_nat (count - c))%nat with (Z.to_nat count) by lia.
      by replace (_rIndex b + c + (count - c)) with (_rIndex b + count) by lia.
    + apply Z.mod_pos_bound. lia.
    + apply slots_drop; [lia|done].
    + rewrite length_drop. lia.
  - assert (count = 0) as -> by lia.
    assert (readn_body (0, e) b = Ok (inr e, b)) as Hbody by done.
    rewrite (loop_exit _ _ _ _ _ _ Hbody), take_0, app_nil_r.
    rewrite Z.add_0_r, Z.mod_small by lia. by destruct b.
Qed.

Lemma readn_rep b q n :
  rep b q → 0 ≤ n →
  let k := Z.to_nat (Z.min n (zlen q)) in
  ∃ b', readn n b = Ok ((zlen (take k q), take k q), b') ∧
    same_shape b b' ∧ rep b' (drop k q).
Proof.
  intros Hrep Hn0 k. pose proof Hrep as (l & Hd & Hl & Hc & Hr & Hn & Hq & Hw & Hi).
  unfold readn. prog_simpl. rewrite Hd. cbn [block_nonnull]. prog_simpl.
  assert ((if _count b <? n then _count b else n) = Z.min n (zlen q)) as ->
    by (case_match; lia).
  rewrite <- Hd.
  erewrite bind_Ok; [|by apply (readn_loop _ _ (mk _ _ _ _ _ _) l q);
    cbn [_data _capacity _rIndex]; (done || lia)].
  cbn [app _data _rIndex _wIndex _count _capacity _flag]. prog_simpl.
  eexists. split; [|split].
  - rewrite length_take. subst k. do 3 f_equal. lia.
  - done.
  - exists l. cbn [_data _rIndex _wIndex _count _capacity].
    rewrite length_drop. pose proof (Z.mod_pos_bound (_rIndex b + Z.min n (zlen q)) (_capacity b)).
    repeat split; try (done || lia).
    + rewrite Hw, Zplus_mod_idemp_l. f_equal. lia.
    + apply slots_drop; [lia|done].
Qed.

Lemma store_app f cap q e1 e2 :
  0 < cap → zlen q ≤ cap →
  (f = RBF_DEFAULT → zlen e1 + zlen e2 ≤ cap - zlen q) →
  snd (BoundedQueue.store f cap q (e1 ++ e2)) =
  snd (BoundedQueue.store f cap (snd (BoundedQueue.store f cap q e1)) e2).
Proof.
  intros Hc Hq Hfit. destruct f; cbn [BoundedQueue.store fst snd].
  - specialize (Hfit eq_refl). rewrite (take_ge e1) by lia.
    rewrite !length_app, !take_ge by (rewrite ?length_app; lia).
    by rewrite app_assoc.
  - rewrite length_drop, !length_app.
    rewrite <- drop_app_le by (rewrite length_app; lia).
    rewrite drop_drop, <- app_assoc. f_equal. lia.
Qed.

Lemma store_fst_fits f cap q e :
  (f = RBF_DEFAULT → zlen e ≤ cap - zlen q) →
  fst (BoundedQueue.store f cap q e) = zlen e.
Proof. intros Hfit. destruct f; cbn; [specialize (Hfit eq_refl); lia|done]. Qed.

Lemma store_length f cap q e :
  (f = RBF_DEFAULT → zlen e ≤ cap - zlen q) → f = RBF_DEFAULT →
  zlen (snd (BoundedQueue.store f cap q e)) = zlen q + zlen e.
Proof.
  intros Hfit ->. specialize (Hfit eq_refl). cbn.
  rewrite length_app, length_take. lia.
Qed.

Lemma move_loop fuel count (d src : t A) qd qs :
  rep d qd → rep src qs → 0 ≤ count ≤ zlen qs →
  (_flag d = RBF_DEFAULT → count ≤ _capacity d - zlen qd) →
  (Z.to_nat count < fuel)%nat →
  ∃ (d' src' : t A), loop fuel move_body count (d, src) = Ok ((), (d', src')) ∧
    same_shape d d' ∧ same_shape src src' ∧
    rep d' (snd (BoundedQueue.store (_flag d) (_capacity d) qd
                   (take (Z.to_nat count) qs))) ∧
    rep src' (drop (Z.to_nat count) qs).
Proof.
  revert count d src qd qs. induction fuel as [|fuel IH];
    intros count d src qd qs Hd Hs Hcount Hfit Hfuel; [lia|].
  pose proof Hd as (ld & _ & _ & Hcd & _ & _ & Hqd & _ & _).
  pose proof Hs as (l & Hl & Hlen & Hc & Hr & Hn & Hq & Hw & Hi).
  destruct (Z.ltb_spec 0 count) as [Hpos|].
  - set (c := Z.min (_capacity src - _rIndex src) count).
    assert (zlen (take (Z.to_nat c) qs) = c) as Hlc by (rewrite length_take; lia).
    destruct (writen_rep d qd (take (Z.to_nat c) qs) c Hd ltac:(lia))
      as (d1 & Hrun & [Hc1 Hf1] & Hd1).
    rewrite take_take, Nat.min_id in Hrun, Hd1.
    rewrite store_fst_fits, Hlc in Hrun by (intros Hf; specialize (Hfit Hf); lia).
    set (s1 := mk ((_rIndex src + c) mod _capacity src) (_wIndex src)
                  (_count src - c) (_capacity src) (_flag src) (_data src)).
    assert (move_body count (d, src) = Ok (inl (count - c), (d1, s1))) as Hbody.
    { unfold move_body. destruct (Z.ltb_spec 0 count); [|lia].
      prog_simpl. rewrite Hl, (slots_slice l _ _ _ _ Hi) by lia. prog_simpl.
      erewrite bind_Ok; [|unfold on_dst; cbn [fst snd]; fold c; by rewrite Hrun].
      prog_simpl. destruct (Z.eqb_spec (_capacity src) 0); [lia|]. prog_simpl.
      unfold s1. by rewrite rem_mod, Hl by lia. }
    assert (rep s1 (drop (Z.to_nat c) qs)) as Hs1.
    { exists l. subst s1. cbn [_data _rIndex _wIndex _count _capacity].
      rewrite length_drop. pose proof (Z.mod_pos_bound (_rIndex src + c) (_capacity src)).
      repeat split; try (done || lia).
      - rewrite Hw, Zplus_mod_idemp_l. f_equal. lia.
      - apply slots_drop; [lia|done]. }
    destruct (IH (count - c) d1 s1 _ _ Hd1 Hs1) as (d' & src' & Hgo & Hsd & Hss & Hrd & Hrs).
    { rewrite length_drop. lia. }
    { rewrite Hf1, Hc1. intros Hf. specialize (Hfit Hf).
      rewrite store_length by (done || (intros; lia)). lia. }
    { lia. }
    exists d', src'. rewrite (loop_next _ _ _ _ _ _ Hbody), Hgo.
    rewrite Hf1, Hc1, <- store_app, take_take_drop in Hrd
      by (done || (intros Hf; specialize (Hfit Hf); rewrite ?length_take, ?length_drop; lia)).
    rewrite drop_drop in Hrs.
    replace (Z.to_nat c + Z.to_nat (count - c))%nat with (Z.to_nat count) in * by lia.
    destruct Hsd, Hss. repeat split; (done || congruence).
  - assert (count = 0) as -> by lia. exists d, src.
    rewrite (loop_exit _ _ _ () _ (d, src)) by done.
    by rewrite take_0, store_nil, drop_0 by done.
Qed.
End refinement.

(** ** Theorems *)

Section theorems.
Context {A : Type}.
Implicit Types (b : CRingBuffer.t A) (q l : list A) (cs : list (CRingBuffer.call A)).

Definition call_ok (c : CRingBuffer.call A) : Prop :=
  match c with CRingBuffer.Readn n => 0 ≤ n | _ => True end.

Lemma run_call_rep b q c :
  rep b q → call_ok c →
  let s := BoundedQueue.call (CRingBuffer._flag b) (CRingBuffer._capacity b) c q in
  ∃ b', CRingBuffer.run_call c b = Ok (fst s, b') ∧ same_shape b b' ∧ rep b' (snd s).
Proof.
  intros Hrep Hok s. destruct c as [d|e| |n]; subst s; cbn [BoundedQueue.call].
  - destruct (write_rep b q d Hrep) as (ok & b' & Hw & Hs & Hk & Hr).
    exists b'. destruct (BoundedQueue.store _ _ _ _) as [k q']. cbn in *. subst k.
    by prog_step Hw.
  - destruct (writen_rep b q e (zlen e) Hrep ltac:(lia)) as (b' & Hw & Hs & Hr).
    rewrite take_ge in Hw, Hr by lia.
    exists b'. destruct (BoundedQueue.store _ _ _ _) as [k q'].
    unfold CRingBuffer.run_call. by prog_step Hw.
  - destruct (read_rep b q Hrep) as (b' & Hw & Hs & Hr). exists b'.
    unfold CRingBuffer.run_call. prog_step Hw. by destruct q.
  - destruct (readn_rep b q n Hrep Hok) as (b' & Hw & Hs & Hr). by exists b'.
Qed.

Lemma run_calls_rep cs : ∀ b q,
  rep b q → Forall call_ok cs →
  let s := BoundedQueue.calls (CRingBuffer._flag b) (CRingBuffer._capacity b) cs q in
  ∃ b', CRingBuffer.run_calls cs b = Ok (fst s, b') ∧ same_shape b b' ∧ rep b' (snd s).
Proof.
  induction cs as [|c cs IH]; intros b q Hrep Hok s; [by exists b|].
  inversion_clear Hok as [|? ? Hc Hcs]. subst s. cbn [BoundedQueue.calls].
  destruct (run_call_rep b q c Hrep Hc) as (b1 & Hrun & [Hcap Hflag] & Hrep1).
  destruct (BoundedQueue.call _ _ _ _) as [r q1]. cbn [fst snd] in *.
  destruct (IH b1 q1 Hrep1 Hcs) as (b2 & Hrun2 & [Hcap2 Hflag2] & Hrep2).
  rewrite Hcap, Hflag in *. destruct (BoundedQueue.calls _ _ _ _) as [rs q2].
  exists b2. cbn [CRingBuffer.run_calls fst snd] in *. prog_step Hrun. prog_step Hrun2.
  split; [done|]. split; [split; congruence|done].
Qed.

(** C14. A [CRingBuffer] that [init] made refines a bounded FIFO queue: every
    sequence of [write], [writen], [read] and [readn] calls runs without a
    fault, returns exactly what the queue returns, and leaves the buffer
    holding what the queue holds, for both values of [RingBufferFlag]. *)
Theorem CRingBuffer_refines_queue (n : Z) f l cs b0 :
  0 < n → zlen l = n → Forall call_ok cs →
  let s := BoundedQueue.calls f n cs [] in
  ∃ b', (CRingBuffer.init n f (Live l);; CRingBuffer.run_calls cs) b0
          = Ok (fst s, b') ∧ rep b' (snd s).
Proof.
  intros Hn Hl Hcs s.
  destruct (run_calls_rep cs _ [] (rep_init n f l Hn Hl) Hcs) as (b' & Hrun & _ & Hrep).
  exists b'. split; [|done]. unfold CRingBuffer.init.
  destruct (Z.ltb_spec 0 n); [|lia]. prog_simpl. exact Hrun.
Qed.

(** [move] transfers the oldest [k] elements of the source, in order, into
    the destination, where [k] is the least of [n], the elements of the source
    and, for a buffer that does not overwrite, the free space of the
    destination: it terminates, faults nowhere, and loses no element. *)
Theorem CRingBuffer_move_spec (d src : CRingBuffer.t A) qd qs (n : Z) :
  rep d qd → rep src qs → 0 ≤ n →
  let k := Z.min (if bool_decide (CRingBuffer._flag d = RBF_DEFAULT)
                  then Z.min n (CRingBuffer._capacity d - zlen qd) else n)
                 (zlen qs) in
  ∃ (d' src' : CRingBuffer.t A),
    CRingBuffer.move n (d, src) = Ok (k, (d', src')) ∧
    rep d' (snd (BoundedQueue.store (CRingBuffer._flag d) (CRingBuffer._capacity d)
                   qd (take (Z.to_nat k) qs))) ∧
    rep src' (drop (Z.to_nat k) qs).
Proof.
  intros Hd Hs Hn k.
  pose proof Hd as (l1 & Hl1 & _ & _ & _ & Hcd & Hqd & _).
  pose proof Hs as (l2 & _ & _ & _ & _ & Hcs & _).
  destruct (move_loop (S (Z.to_nat k)) k d src qd qs Hd Hs)
    as (d' & src' & Hrun & _ & _ & Hrd & Hrs).
  { subst k. case_bool_decide; lia. }
  { subst k. intros Hf. rewrite bool_decide_true by done. lia. }
  { lia. }
  exists d', src'. split; [|done]. unfold CRingBuffer.move. prog_simpl.
  rewrite Hl1. cbn [block_nonnull]. prog_simpl. rewrite Hcd, Hcs.
  prog_step Hrun. done.
Qed.

(** [reset] does not reset [_count]: a buffer that held [q] still reports
    [q]'s length, and the next [read] succeeds although the buffer was reset. *)
Theorem CRingBuffer_reset_keeps_count b q :
  rep b q →
  ∃ b', CRingBuffer.reset b = Ok ((), b') ∧
    CRingBuffer.length b' = zlen q ∧
    (q ≠ [] → ∃ x b'', CRingBuffer.read b' = Ok (Some x, b'')).
Proof.
  intros (l & Hd & Hl & Hc & Hr & Hn & Hq & Hw & Hi).
  eexists. split; [done|]. split; [done|]. intros Hne.
  destruct (znth_Some l 0 ltac:(lia)) as (x & Hx & _).
  assert (zlen q ≠ 0) by (destruct q; [done|cbn; lia]).
  unfold CRingBuffer.read. prog_simpl.
  cbn [CRingBuffer._data CRingBuffer._count CRingBuffer._capacity CRingBuffer._rIndex].
  rewrite Hd. cbn [block_nonnull block_get]. rewrite Hx. prog_simpl.
  unfold CRingBuffer.isEmpty. cbn [CRingBuffer._count]. rewrite Hn.
  destruct (Z.eqb_spec (zlen q) 0), (Z.eqb_spec (CRingBuffer._capacity b) 0);
    try (done || lia). prog_simpl. eauto.
Qed.

(** The fullness test of [SRingBuffer] answers true unless the write index is
    at least two slots behind the read index. *)
Lemma SRingBuffer_isFull_spec (s : SRingBuffer.t A) :
  let c := SRingBuffer._capacity s in
  0 < c < 2 ^ 30 → 0 ≤ SRingBuffer._rIndex s < c → 0 ≤ SRingBuffer._wIndex s < c →
  SRingBuffer.isFull s =
    Some (SRingBuffer._rIndex s <=? SRingBuffer._wIndex s + 1).
Proof.
  intros c Hc Hr Hw. unfold SRingBuffer.isFull, SRingBuffer.div. fold c.
  destruct (Z.eqb_spec c 0); [lia|]. rewrite wraps_id by (unfold in_s; lia).
  cbn. f_equal. rewrite Z.quot_div_nonneg by lia.
  destruct (Z.leb_spec (SRingBuffer._rIndex s) (SRingBuffer._wIndex s + 1)).
  - pose proof (Z.div_le_lower_bound (c + SRingBuffer._wIndex s + 1 - SRingBuffer._rIndex s) c 1).
    destruct (Z.eqb_spec ((c + SRingBuffer._wIndex s + 1 - SRingBuffer._rIndex s) / c) 0);
      [lia|done].
  - by rewrite Z.div_small by lia.
Qed.

(** C37. An [SRingBuffer] never stores anything: from [init] on, whatever the
    sequence of calls, every call returns 0 elements and the buffer stays
    empty, because [isFull] is true of an empty buffer. *)
Theorem SRingBuffer_stores_nothing (n : Z) l cs s0 :
  0 < n < 2 ^ 30 → zlen l = n → Forall call_ok cs →
  (SRingBuffer.init n (Live l);; SRingBuffer.run_calls cs) s0
    = Ok (map (λ _, (0, [])) cs, SRingBuffer.mk 0 0 n (Live l)).
Proof.
  intros Hn Hl Hcs. unfold SRingBuffer.init.
  destruct (Z.ltb_spec 0 n); [|lia]. prog_simpl.
  set (s := SRingBuffer.mk 0 0 n (Live l)).
  assert (SRingBuffer.isFull s = Some true) as Hfull.
  { rewrite SRingBuffer_isFull_spec; cbn; (done || lia). }
  assert (SRingBuffer.length s = Some 0) as Hlen.
  { unfold SRingBuffer.length, SRingBuffer.mod_. cbn.
    destruct (Z.eqb_spec n 0); [lia|]. rewrite wraps_id by (unfold in_s; lia).
    f_equal. rewrite Z.rem_mod_nonneg by lia.
    replace (n + 0 - 0) with n by lia. apply Z.mod_same. lia. }
  assert (∀ d, SRingBuffer.write d s = Ok (false, s)) as Hwrite.
  { intros d. unfold SRingBuffer.write. prog_simpl. cbn [SRingBuffer._data block_nonnull s].
    fold s. rewrite Hfull. done. }
  induction Hcs as [|c cs Hc Hcs IH]; [done|].
  cbn [SRingBuffer.run_calls map]. erewrite bind_Ok; [by prog_step IH|].
  destruct c as [d|e| |k]; cbn [SRingBuffer.run_call].
  - by prog_step (Hwrite d).
  - unfold SRingBuffer.writen. prog_simpl. erewrite bind_Ok.
    2: { apply (loop_exit _ _ _ (zlen e) _ s). unfold SRingBuffer.writen_body.
         destruct (Z.ltb_spec 0 (zlen e)); [|done]. destruct e as [|x e]; [cbn in *; lia|].
         cbn [head]. prog_simpl. by prog_step (Hwrite x). }
    prog_simpl. do 3 f_equal. lia.
  - done.
  - unfold SRingBuffer.readn. prog_simpl. cbn [SRingBuffer._data block_nonnull s].
    fold s. rewrite Hlen. prog_simpl. cbn in Hc.
    destruct (Z.ltb_spec k 0); [lia|]. done.
Qed.
End theorems.

(** ** Witnesses *)

Example CRingBuffer_refines_queue_witness :
  0 < 2 ∧ ∃ b', (CRingBuffer.init 2 RBF_OVERWRITE (Live [0; 0]);;
     CRingBuffer.run_calls [CRingBuffer.Writen [5; 6; 7]; CRingBuffer.Readn 9])
     (CRingBuffer.mk 0 0 0 0 RBF_DEFAULT Null)
     = Ok ([(3, []); (2, [6; 7])], b').
Proof.
  split; [lia|].
  destruct (CRingBuffer_refines_queue 2 RBF_OVERWRITE [0; 0]
    [CRingBuffer.Writen [5; 6; 7]; CRingBuffer.Readn 9]
    (CRingBuffer.mk 0 0 0 0 RBF_DEFAULT Null)) as (b' & Hrun & _);
    [lia | reflexivity | repeat constructor; cbn; lia |].
  exists b'. exact Hrun.
Defined.

Lemma rep_full_2 : rep (CRingBuffer.mk 1 1 2 2 RBF_DEFAULT (Live [8; 7])) [7; 8].
Proof.
  exists [8; 7]. cbn. repeat split; try lia.
  intros [|[|i]] x Hx; cbn in *; done.
Qed.

Example CRingBuffer_move_spec_witness :
  ∃ d' src', CRingBuffer.move 5
    (CRingBuffer.mk 0 0 0 1 RBF_DEFAULT (Live [0]),
     CRingBuffer.mk 1 1 2 2 RBF_DEFAULT (Live [8; 7])) = Ok (1, (d', src'))
    ∧ rep d' [7] ∧ rep src' [8].
Proof.
  destruct (CRingBuffer_move_spec (CRingBuffer.mk 0 0 0 1 RBF_DEFAULT (Live [0]))
    (CRingBuffer.mk 1 1 2 2 RBF_DEFAULT (Live [8; 7])) [] [7; 8] 5)
    as (d' & src' & Hrun & Hd & Hs);
    [apply rep_init; [lia|reflexivity] | apply rep_full_2 | lia |].
  exists d', src'. split; [exact Hrun|]. split; [exact Hd|exact Hs].
Defined.

Example CRingBuffer_reset_keeps_count_witness :
  ∃ b', CRingBuffer.reset (CRingBuffer.mk 1 1 2 2 RBF_DEFAULT (Live [8; 7]))
    = Ok ((), b') ∧ CRingBuffer.length b' = 2.
Proof.
  destruct (CRingBuffer_reset_keeps_count
    (CRingBuffer.mk 1 1 2 2 RBF_DEFAULT (Live [8; 7])) [7; 8] rep_full_2)
    as (b' & Hrun & Hlen & _).
  exists b'. split; [exact Hrun|exact Hlen].
Defined.

Example SRingBuffer_stores_nothing_witness :
  (SRingBuffer.init 4 (Live [0; 0; 0; 0]);;
   SRingBuffer.run_calls [CRingBuffer.Write 7; CRingBuffer.Read])
    (SRingBuffer.mk 0 0 0 Null)
  = Ok ([(0, []); (0, [])], SRingBuffer.mk 0 0 4 (Live [0; 0; 0; 0])).
Proof.
  apply (SRingBuffer_stores_nothing 4 [0; 0; 0; 0]
    [CRingBuffer.Write 7; CRingBuffer.Read]);
    [lia | reflexivity | repeat constructor].
Defined.
