(* ===== verification/Sched.v ===== *)
(** * Threads and the scheduler

    [kernel/src/task/schedule.cpp], [thread.cpp], the pool of threads of [threadmanager.cpp] and the
    classes of [kernel/include/task/{thread,schedule,state,generalproc}.h]. A run queue is a ring list
    through the [_commList] nodes of the threads, one per priority, with a cursor
    [_curNodeInGroup] that new threads are linked next to and that the search for
    the next thread starts from. The pointers are those of [DList]: the node of
    a thread, of a queue's header, of a semaphore's waiter list. [List_Entry] of a
    header is no thread, and a program that follows it is undefined.

    [wf] is the invariant: the rings of all the queues are well formed and
    disjoint, and each cursor lies on its ring. The theorems give each operation
    by its effect on the queues, from the boot with the two idle threads on, and round-robin
    scheduling by rotation. [sched_inv] and [orderly] say when a call of the scheduler keeps to the
    threads that can run; the code calls it where that does not hold too (see [Sync]). *)

From S2P Require Import Prelude DList.

(** ** Data *)

Inductive State : Type :=
  | Stopped | Ready | Waiting | Lock | WaitingNextActivation | DelayedStart | Running.

#[global] Instance State_eq_dec : EqDecision State.
Proof. solve_decision. Defined.

(** The [DoubleList] nodes of the kernel: the header of a run queue, of a
    semaphore's waiters, of the pool of free threads, and [_commList] of a thread. *)
Inductive knode : Type :=
  | PrioHdr (prio : Z)
  | SemHdr (sem : Z)
  | FreeHdr
  | Thr (tid : Z).

#[global] Instance knode_eq_dec : EqDecision knode.
Proof. solve_decision. Defined.

#[global] Instance knode_countable : Countable knode.
Proof.
  refine (inj_countable'
    (λ n, match n with
          | PrioHdr q => (0, q) | SemHdr s => (1, s) | FreeHdr => (2, 0) | Thr t => (3, t)
          end)
    (λ p, match p with
          | (0, q) => PrioHdr q | (1, s) => SemHdr s | (3, t) => Thr t | _ => FreeHdr
          end) _).
  by intros [].
Defined.

Definition MaxPriority : Z := 255.

Record thread := mkThread {
  _state : State;
  _priority : Z;
  _execTicks : Z;
  _totalTicks : Z;
  _proc : option Z
}.

#[global] Instance thread_eq_dec : EqDecision thread.
Proof. solve_decision. Defined.

(** The nodes of the lists of the threads of a process: the header in the process, [_procList] in a thread. *)
Inductive pnode : Type := ProcHdr (pid : Z) | ProcThr (tid : Z).

#[global] Instance pnode_eq_dec : EqDecision pnode.
Proof. solve_decision. Defined.

#[global] Instance pnode_countable : Countable pnode.
Proof.
  refine (inj_countable' (λ n, match n with ProcHdr p => (0, p) | ProcThr t => (1, t) end)
    (λ p, match p with (0, p) => ProcHdr p | (_, t) => ProcThr t end) _).
  by intros [].
Defined.

(** The scheduler of one CPU, the threads, and the manager of the pool of threads. A pointer
    to a thread is a pointer to its node; the thread at the index [t] of the pool has the [_id] [t]. *)
Record kernel := mkKernel {
  nodes : gmap knode (node knode);
  threads : gmap Z thread;
  _curNodeInGroup : gmap Z (option knode);
  _maxPrio : Z;
  _higherPriorityThread : option knode;
  _curThread : option knode;
  procNodes : gmap pnode (node pnode);
  _curUsedThreadNum : Z;
  _maxUsedThreadNum : Z
}.

Definition set_nodes h k :=
  mkKernel h (threads k) (_curNodeInGroup k) (_maxPrio k) (_higherPriorityThread k) (_curThread k)
    (procNodes k) (_curUsedThreadNum k) (_maxUsedThreadNum k).
Definition set_threads ts k :=
  mkKernel (nodes k) ts (_curNodeInGroup k) (_maxPrio k) (_higherPriorityThread k) (_curThread k)
    (procNodes k) (_curUsedThreadNum k) (_maxUsedThreadNum k).
Definition set_cursors cs k :=
  mkKernel (nodes k) (threads k) cs (_maxPrio k) (_higherPriorityThread k) (_curThread k)
    (procNodes k) (_curUsedThreadNum k) (_maxUsedThreadNum k).
Definition set_max q p k :=
  mkKernel (nodes k) (threads k) (_curNodeInGroup k) q p (_curThread k)
    (procNodes k) (_curUsedThreadNum k) (_maxUsedThreadNum k).
Definition set_higher p k :=
  mkKernel (nodes k) (threads k) (_curNodeInGroup k) (_maxPrio k) p (_curThread k)
    (procNodes k) (_curUsedThreadNum k) (_maxUsedThreadNum k).
Definition set_cur p k :=
  mkKernel (nodes k) (threads k) (_curNodeInGroup k) (_maxPrio k) (_higherPriorityThread k) p
    (procNodes k) (_curUsedThreadNum k) (_maxUsedThreadNum k).
Definition set_procNodes h k :=
  mkKernel (nodes k) (threads k) (_curNodeInGroup k) (_maxPrio k) (_higherPriorityThread k) (_curThread k) h (_curUsedThreadNum k) (_maxUsedThreadNum k).
Definition set_used c m k :=
  mkKernel (nodes k) (threads k) (_curNodeInGroup k) (_maxPrio k) (_higherPriorityThread k) (_curThread k)
    (procNodes k) c m.

Definition with_state s t := mkThread s (_priority t) (_execTicks t) (_totalTicks t) (_proc t).
Definition with_ticks n t := mkThread (_state t) (_priority t) n (_totalTicks t) (_proc t).
Definition with_proc p t := mkThread (_state t) (_priority t) (_execTicks t) (_totalTicks t) p.

Definition on_nodes {A} (m : prog (gmap knode (node knode)) A) : prog kernel A :=
  zoom nodes set_nodes m.

Definition on_procs {A} (m : prog (gmap pnode (node pnode)) A) : prog kernel A :=
  zoom procNodes set_procNodes m.

(** [p->...] of a thread pointer. *)
Definition thr (p : option knode) : prog kernel thread := λ k,
  match p with
  | Some (Thr t) => match threads k !! t with Some x => Ok (x, k) | None => Err FUndef end
  | _ => Err FUndef
  end.

Definition upd_thr (p : option knode) (f : thread → thread) : prog kernel () := λ k,
  match p with
  | Some (Thr t) =>
      match threads k !! t with
      | Some x => Ok ((), set_threads (<[t := f x]> (threads k)) k)
      | None => Err FUndef
      end
  | _ => Err FUndef
  end.

(** [_priorityArray[q]._curNodeInGroup]: undefined outside of the array. *)
Definition cursor (q : Z) : prog kernel (option knode) := λ k,
  match _curNodeInGroup k !! q with Some p => Ok (p, k) | None => Err FUndef end.

Definition set_cursor (q : Z) (p : option knode) : prog kernel () := λ k,
  match _curNodeInGroup k !! q with
  | Some _ => Ok ((), set_cursors (<[q := p]> (_curNodeInGroup k)) k)
  | None => Err FUndef
  end.

(** ** Operations of the scheduler *)

(** The queues of [Scheduler::init]: the loop over the priorities. *)
Fixpoint init_queues (n : nat) (i : Z) : prog kernel () :=
  match n with
  | O => mret ()
  | S n' =>
      set_cursor i (Some (PrioHdr i));;
      p ← cursor i;
      on_nodes (initRingDoubleList p);;
      init_queues n' (i + 1)
  end.

#[global] Arguments init_queues : simpl never.

(** [Scheduler::init] up to the creation of the idle threads. *)
Definition init_array : prog kernel () :=
  modify (set_max (-1) None);;
  init_queues 256 0.

(** [Scheduler::start], up to the assembly that loads the thread's context; the
    tick is set by [CPU::setTick]. *)
Definition start : prog kernel () :=
  k ← get;
  upd_thr (_curThread k) (with_state Running);;
  t ← thr (_curThread k);
  set_cursor (_priority t) (_curThread k).

Definition push (newThread : option knode) : prog kernel () :=
  assert_ (bool_decide (newThread ≠ None));;
  t ← thr newThread;
  if decide (_state t = Ready) then
    let newPrio := _priority t in
    c ← cursor newPrio;
    on_nodes (addNodeToRingDoubleListHeader c newThread);;
    k ← get;
    when (_maxPrio k <? newPrio) (modify (set_max newPrio newThread))
  else mret ().

Definition append (newThread : option knode) : prog kernel () :=
  assert_ (bool_decide (newThread ≠ None));;
  t ← thr newThread;
  if decide (_state t = Ready) then
    let newPrio := _priority t in
    c ← cursor newPrio;
    on_nodes (addNodeToRingDoubleListTail c newThread);;
    k ← get;
    when (_maxPrio k <? newPrio) (modify (set_max newPrio newThread))
  else mret ().

Definition remove (delThread : option knode) : prog kernel () :=
  assert_ (bool_decide (delThread ≠ None));;
  t ← thr delThread;
  n ← on_nodes (node_of delThread);
  set_cursor (_priority t) (next n);;
  on_nodes (delNodeFromRingDoubleList delThread).

(** The loop of [findNextThread] from the cursor [c], at the node [p]. *)
Definition find_body (q : Z) (c p : option knode) : prog kernel (option knode + option knode) :=
  if decide (p = c) then mret (inr p)
  else
    n ← on_nodes (node_of p);
    if decide (p = Some (PrioHdr q)) then mret (inl (next n))
    else
      t ← thr p;
      if decide (_state t = Ready) then
        set_cursor q p;;
        mret (inr p)
      else mret (inl (next n)).

(** The walk visits each node at most once: the number of nodes is fuel enough. *)
Definition findNextThread : prog kernel (option knode) :=
  k ← get;
  cur ← thr (_curThread k);
  assert_ (_maxPrio k =? _priority cur);;
  c ← cursor (_maxPrio k);
  n ← on_nodes (node_of c);
  loop (S (S (size (nodes k)))) (find_body (_maxPrio k) c) (next n).

(** [Powerpc::contextSwitch] stores the stack pointer of the current thread and
    loads that of [_higherPriorityThread], which becomes the current one. *)
Definition switchContext : prog kernel () :=
  k ← get;
  _ ← thr (_curThread k);
  _ ← thr (_higherPriorityThread k);
  modify (set_cur (_higherPriorityThread k)).

Definition scheduleInInterrupt : prog kernel () :=
  k ← get;
  let cur := _curThread k in
  upd_thr cur (λ t, with_ticks (u32 (_execTicks t + 1)) t);;
  t ← thr cur;
  if _priority t <? _maxPrio k then
    set_cursor (_maxPrio k) (_higherPriorityThread k);;
    when (_totalTicks t <=? _execTicks t) (upd_thr cur (with_ticks 0));;
    _ ← thr (_higherPriorityThread k);
    switchContext
  else if _totalTicks t <=? _execTicks t then
    upd_thr cur (with_ticks 0);;
    nextThread ← findNextThread;
    if decide (nextThread = cur) then mret ()
    else
      upd_thr cur (with_state Ready);;
      upd_thr nextThread (with_state Running);;
      modify (set_higher nextThread);;
      _ ← thr nextThread;
      switchContext
  else mret ().

Definition scheduleInSemaphore : prog kernel () := scheduleInInterrupt.

(** The path of [scheduleInKernel] that switches has no [return]: its result is
    undefined. *)
Definition scheduleInKernel : prog kernel Z :=
  k ← get;
  nextThread ← findNextThread;
  _ ← thr nextThread;
  if decide (nextThread = _curThread k) then mret 0
  else
    upd_thr (_curThread k) (with_state Ready);;
    upd_thr nextThread (with_state Running);;
    fail FUndef.

(** ** Operations of a thread *)

(** [this->suspend(tid)] with [that] the thread of [tid]. *)
Definition suspend (this that : option knode) : prog kernel () :=
  a ← thr that;
  b ← thr this;
  assert_ (_priority a <=? _priority b);;
  remove that;;
  upd_thr that (with_state Waiting).

Definition suspendSelf (this : option knode) : prog kernel () := suspend this this.

(** [this->wakeup(tid)]: the state of [that] changes, but it is [this] whose state
    is tested and who is appended to its run queue. *)
Definition wakeup (this that : option knode) : prog kernel () :=
  t ← thr this;
  match _state t with
  | Waiting =>
      upd_thr that (with_state Ready);;
      append this
  | _ => mret ()
  end.

(** ** The pool of threads *)

Definition InherentThreadNum : Z := 200.

(** The loop of [ThreadManager::init]. *)
Fixpoint init_pool (n : nat) (i : Z) : prog kernel () :=
  match n with
  | O => mret ()
  | S n' => on_nodes (addNodeToRingDoubleListTail (Some FreeHdr) (Some (Thr i)));; init_pool n' (i + 1)
  end.

#[global] Arguments init_pool : simpl never.

Definition tm_init : prog kernel () :=
  modify (set_used 0 0);;
  on_nodes (initRingDoubleList (Some FreeHdr));;
  init_pool (Z.to_nat InherentThreadNum) 0.

Definition allocateThread : prog kernel (option knode) :=
  h ← on_nodes (node_of (Some FreeHdr));
  assert_ (bool_decide (next h ≠ Some FreeHdr));;
  let p := next h in
  on_nodes (delNodeFromRingDoubleList p);;
  modify (λ k, let c := u32 (_curUsedThreadNum k + 1) in
               set_used c (if _maxUsedThreadNum k <? c then c else _maxUsedThreadNum k) k);;
  mret p.

Definition deallocateThread (thread : option knode) : prog kernel () :=
  match thread with
  | Some (Thr t) =>
      assert_ (t <? InherentThreadNum);;
      upd_thr thread (with_state Stopped);;
      on_nodes (addNodeToRingDoubleListTail (Some FreeHdr) thread);;
      modify (λ k, set_used (u32 (_curUsedThreadNum k - 1)) (_maxUsedThreadNum k) k)
  | _ => fail FUndef
  end.

(** [createThread]. The entry, the stack, the context and the [_io] of the thread (an address that is
    computed from [_proc] while that is null) are not part of the state, so the answer of the
    heap to [createContext] makes no difference. *)
Definition createThread : prog kernel (option knode) :=
  thread ← allocateThread;
  when (bool_decide (thread ≠ None)) (upd_thr thread (λ t, mkThread Ready (_priority t) 0 10 None));;
  mret thread.

(** [GeneralProc::addThread] of the process [pid]. *)
Definition addThread (pid : Z) (thread : option knode) : prog kernel () :=
  t ← thr thread;
  when (bool_decide (_proc t = None)) (upd_thr thread (with_proc (Some pid)));;
  match thread with
  | Some (Thr t) => on_procs (addNodeToRingDoubleListTail (Some (ProcHdr pid)) (Some (ProcThr t)))
  | _ => fail FUndef
  end.

(** An idle thread of [Scheduler::init]; [_rootProc] is the process 0. *)
Definition create_idle : prog kernel () :=
  t ← createThread;
  modify (set_cur t);;
  addThread 0 t;;
  append t.

Definition init : prog kernel () :=
  init_array;;
  create_idle;;
  create_idle.

(** ** The invariant *)

Implicit Types (k : kernel) (Q : gmap knode (list knode)).

Record wf k Q : Prop := {
  wf_rings : rings (nodes k) Q;
  wf_cursor q : 0 ≤ q ≤ MaxPriority → ∃ l c,
    Q !! PrioHdr q = Some l ∧ _curNodeInGroup k !! q = Some (Some c) ∧ c ∈ PrioHdr q :: l;
  wf_thread t x : threads k !! t = Some x →
    is_Some (nodes k !! Thr t) ∧ 0 ≤ _priority x ≤ MaxPriority;
  wf_linked hd l y : Q !! hd = Some l → y ∈ l →
    ∃ t x, y = Thr t ∧ threads k !! t = Some x ∧
           ∀ q, hd = PrioHdr q → _priority x = q;
  wf_header hd l t : Q !! hd = Some l → hd ≠ Thr t
}.

(** The thread [t] is not linked, or is linked in the list of [hd]. *)
Lemma wf_unlinked_fresh k Q t : wf k Q → unlinked Q (Thr t) ↔ ∀ hd l, Q !! hd = Some l → Thr t ∉ l.
Proof.
  intros H. split; intros Hu hd l Hl.
  - specialize (Hu hd l Hl). set_solver.
  - pose proof (wf_header _ _ H hd l t Hl). specialize (Hu hd l Hl). set_solver.
Qed.

(** A list of threads that a header links has room for no thread of another. *)
Lemma wf_disjoint k Q hd1 l1 hd2 l2 t :
  wf k Q → Q !! hd1 = Some l1 → Q !! hd2 = Some l2 → hd1 ≠ hd2 →
  Thr t ∈ l1 → Thr t ∉ l2.
Proof.
  intros H H1 H2 Hne Ht Hin. destruct (wf_rings _ _ H) as [_ Hd].
  apply (Hd hd1 l1 hd2 l2 H1 H2 Hne (Thr t)); set_solver.
Qed.

(** Any change of the state that keeps the parts [wf] reads. *)
Lemma wf_same k k' Q :
  wf k Q → nodes k' = nodes k → _curNodeInGroup k' = _curNodeInGroup k →
  (∀ t x', threads k' !! t = Some x' →
     ∃ x, threads k !! t = Some x ∧ _priority x' = _priority x) →
  (∀ t x, threads k !! t = Some x →
     ∃ x', threads k' !! t = Some x' ∧ _priority x' = _priority x) →
  wf k' Q.
Proof.
  intros [Hr Hc Ht Hl Hh] Hn Hcs Hsub Hsup. split.
  - by rewrite Hn.
  - intros q Hq. rewrite Hcs. by apply Hc.
  - intros t x' Hx'. destruct (Hsub t x' Hx') as (x & Hx & ->). rewrite Hn. by eapply Ht.
  - intros hd l y HQ Hy. destruct (Hl hd l y HQ Hy) as (t & x & -> & Hx & Hp).
    destruct (Hsup t x Hx) as (x' & Hx' & Hp'). exists t, x'. rewrite Hp'. eauto.
  - done.
Qed.

Lemma wf_upd_thr k Q t x f :
  wf k Q → threads k !! t = Some x → (∀ y, _priority (f y) = _priority y) →
  wf (set_threads (<[t := f x]> (threads k)) k) Q.
Proof.
  intros H Hx Hf. eapply wf_same; [exact H|done|done|..]; cbn; intros t' y.
  - rewrite lookup_insert. case_decide as E; [subst|eauto].
    intros [= <-]. exists x. by rewrite Hf.
  - intros Hy. rewrite lookup_insert. case_decide as E; [subst|eauto].
    exists (f x). simplify_eq. by rewrite Hf.
Qed.

(** A change of the ring of one header [hd] to [l'], with its cursor kept on it. *)
Lemma wf_change k Q hd l l' h' cs' :
  wf k Q → Q !! hd = Some l → rings h' (<[hd := l']> Q) → same_nodes (nodes k) h' →
  (∀ y, y ∈ l' → y ∈ l ∨ ∃ t x, y = Thr t ∧ threads k !! t = Some x ∧
     ∀ q, hd = PrioHdr q → _priority x = q) →
  (∀ q, hd ≠ PrioHdr q → cs' !! q = _curNodeInGroup k !! q) →
  (∀ q, hd = PrioHdr q → ∃ c, cs' !! q = Some (Some c) ∧ c ∈ hd :: l') →
  wf (set_cursors cs' (set_nodes h' k)) (<[hd := l']> Q).
Proof.
  intros [Hr Hc Ht Hl Hh] HQ Hr' Hs Hsub Hcs Hcs'. split; cbn.
  - done.
  - intros q Hq. destruct (decide (hd = PrioHdr q)) as [->|Hne].
    + destruct (Hcs' q eq_refl) as (c & Hc1 & Hc2). exists l', c.
      by rewrite lookup_insert_eq.
    + rewrite lookup_insert_ne, Hcs by done. by apply Hc.
  - intros t x Hx. destruct (Ht t x Hx) as [Hm Hp]. split; [by apply Hs|done].
  - intros hd2 l2 y. rewrite lookup_insert. case_decide as E; [|by apply Hl].
    intros [= <-] Hy. subst hd2. destruct (Hsub y Hy) as [Hin|Hnew]; [by eapply Hl|done].
  - intros hd2 l2 t. rewrite lookup_insert. case_decide as E; [|by apply Hh].
    intros _. subst. by eapply Hh.
Qed.

(** ** What the operations do *)

Lemma thr_run k t x : threads k !! t = Some x → thr (Some (Thr t)) k = Ok (x, k).
Proof. intros H. unfold thr. by rewrite H. Qed.

Lemma upd_thr_run k t x f : threads k !! t = Some x →
  upd_thr (Some (Thr t)) f k = Ok ((), set_threads (<[t := f x]> (threads k)) k).
Proof. intros H. unfold upd_thr. by rewrite H. Qed.

Lemma cursor_run k q p : _curNodeInGroup k !! q = Some p → cursor q k = Ok (p, k).
Proof. intros H. unfold cursor. by rewrite H. Qed.

Lemma set_cursor_run k q p : is_Some (_curNodeInGroup k !! q) →
  set_cursor q p k = Ok ((), set_cursors (<[q := p]> (_curNodeInGroup k)) k).
Proof. intros [v H]. unfold set_cursor. by rewrite H. Qed.

Lemma on_nodes_run {A} (m : prog _ A) k x h :
  m (nodes k) = Ok (x, h) → on_nodes m k = Ok (x, set_nodes h k).
Proof. apply zoom_Ok. Qed.

(** The end of [push] and [append]: the greatest priority seen. *)
Definition raise_max (q : Z) p k : kernel :=
  if _maxPrio k <? q then set_max q p k else k.

Lemma wf_raise_max k Q q p : wf k Q → wf (raise_max q p k) Q.
Proof. intros H. unfold raise_max. destruct (_ <? _); [|done]. eapply wf_same; eauto. Qed.

Lemma append_run k Q t x :
  wf k Q → threads k !! t = Some x → _state x = Ready → unlinked Q (Thr t) →
  let hd := PrioHdr (_priority x) in
  ∃ h' l c, append (Some (Thr t)) k = Ok ((), raise_max (_priority x) (Some (Thr t)) (set_nodes h' k)) ∧
    Q !! hd = Some l ∧ _curNodeInGroup k !! _priority x = Some (Some c) ∧ c ∈ hd :: l ∧
    wf (raise_max (_priority x) (Some (Thr t)) (set_nodes h' k))
       (<[hd := ins_before hd c (Thr t) l]> Q).
Proof.
  intros H Hx Hst Hu hd. pose proof H as [Hr Hc Ht Hl Hh].
  destruct (Ht t x Hx) as [Hm Hp]. destruct (Hc _ Hp) as (l & c & HQ & Hcur & Hin).
  destruct (rings_addTail (nodes k) Q hd l c (Thr t) Hr HQ Hin Hu Hm) as (h' & Hrun & Hr' & Hs).
  exists h', l, c. split; [|split; [done|split; [done|split; [done|]]]].
  - unfold append. rewrite bool_decide_true by done. cbn [assert_].
    prog_simpl. prog_step (thr_run k t x Hx). rewrite decide_True by done.
    prog_step (cursor_run k _ _ Hcur). prog_step (on_nodes_run _ k _ _ Hrun).
    unfold raise_max, when. cbn [_maxPrio set_nodes]. by destruct (_ <? _).
  - apply wf_raise_max.
    assert (set_nodes h' k = set_cursors (_curNodeInGroup k) (set_nodes h' k)) as -> by done.
    eapply wf_change; [exact H|exact HQ|exact Hr'|exact Hs|..].
    + intros y Hy. rewrite (ins_before_perm hd c (Thr t) l) in Hy by done.
      apply elem_of_cons in Hy as [->|Hy]; [right|by left].
      exists t, x. split; [done|]. split; [done|]. by intros q [= ->].
    + done.
    + intros q [= <-]. exists c. split; [done|].
      rewrite (ins_before_perm hd c (Thr t) l) by done. set_solver.
Qed.

Lemma push_run k Q t x :
  wf k Q → threads k !! t = Some x → _state x = Ready → unlinked Q (Thr t) →
  let hd := PrioHdr (_priority x) in
  ∃ h' l c, push (Some (Thr t)) k = Ok ((), raise_max (_priority x) (Some (Thr t)) (set_nodes h' k)) ∧
    Q !! hd = Some l ∧ _curNodeInGroup k !! _priority x = Some (Some c) ∧ c ∈ hd :: l ∧
    wf (raise_max (_priority x) (Some (Thr t)) (set_nodes h' k))
       (<[hd := ins_after hd c (Thr t) l]> Q).
Proof.
  intros H Hx Hst Hu hd. pose proof H as [Hr Hc Ht Hl Hh].
  destruct (Ht t x Hx) as [Hm Hp]. destruct (Hc _ Hp) as (l & c & HQ & Hcur & Hin).
  destruct (rings_addHeader (nodes k) Q hd l c (Thr t) Hr HQ Hin Hu Hm) as (h' & Hrun & Hr' & Hs).
  exists h', l, c. split; [|split; [done|split; [done|split; [done|]]]].
  - unfold push. rewrite bool_decide_true by done. cbn [assert_].
    prog_simpl. prog_step (thr_run k t x Hx). rewrite decide_True by done.
    prog_step (cursor_run k _ _ Hcur). prog_step (on_nodes_run _ k _ _ Hrun).
    unfold raise_max, when. cbn [_maxPrio set_nodes]. by destruct (_ <? _).
  - apply wf_raise_max.
    assert (set_nodes h' k = set_cursors (_curNodeInGroup k) (set_nodes h' k)) as -> by done.
    eapply wf_change; [exact H|exact HQ|exact Hr'|exact Hs|..].
    + intros y Hy. rewrite (ins_after_perm hd c (Thr t) l) in Hy by done.
      apply elem_of_cons in Hy as [->|Hy]; [right|by left].
      exists t, x. split; [done|]. split; [done|]. by intros q [= ->].
    + done.
    + intros q [= <-]. exists c. split; [done|].
      rewrite (ins_after_perm hd c (Thr t) l) by done. set_solver.
Qed.

Lemma remove_run k Q t x l1 l2 :
  wf k Q → threads k !! t = Some x →
  let q := _priority x in
  Q !! PrioHdr q = Some (l1 ++ Thr t :: l2) →
  ∃ h', let k' := set_cursors (<[q := Some (default (PrioHdr q) (head l2))]> (_curNodeInGroup k))
                    (set_nodes h' k) in
    remove (Some (Thr t)) k = Ok ((), k') ∧ wf k' (<[PrioHdr q := l1 ++ l2]> Q) ∧
    unlinked (<[PrioHdr q := l1 ++ l2]> Q) (Thr t) ∧ next_of h' (Thr t) = Some None.
Proof.
  intros H Hx q HQ. pose proof H as [Hr Hc Ht Hl Hh].
  destruct (Ht t x Hx) as [Hm Hp]. destruct (Hc _ Hp) as (l & c & HQ' & Hcur & Hin).
  fold q in HQ', Hcur, Hin. assert (l = l1 ++ Thr t :: l2) as -> by congruence.
  destruct (rings_del _ _ _ _ _ _ Hr HQ) as (h' & Hrun & Hr' & Hs & Hnone & _ & Hu).
  pose proof (proj1 Hr _ _ HQ) as Hring. apply ring_rotate, ring_first in Hring.
  exists h'. cbv zeta. split; [|split; [|split; [done|done]]].
  - unfold remove. rewrite bool_decide_true by done. cbn [assert_]. prog_simpl.
    prog_step (thr_run k t x Hx).
    destruct (node_of_run (nodes k) (Thr t) Hm) as (n & Hn & Hnext & _).
    prog_step (on_nodes_run _ k _ _ Hn).
    assert (next n = Some (default (PrioHdr q) (head l2))) as ->.
    { rewrite Hring in Hnext. injection Hnext as <-. by destruct l2. }
    rewrite (bind_Ok _ _ _ _ _ (set_cursor_run (set_nodes (nodes k) k) q _ ltac:(cbn; eauto))).
    rewrite (on_nodes_run _ _ () h'); done.
  - eapply wf_change; [exact H|exact HQ|exact Hr'|exact Hs|..].
    + intros y Hy. left. set_solver.
    + intros q' Hne. apply lookup_insert_ne. congruence.
    + intros q' [= <-]. eexists. rewrite lookup_insert_eq. split; [done|].
      destruct l2; set_solver.
Qed.

(** ** The search for the next thread *)

Definition is_ready k (y : knode) : bool :=
  match y with
  | Thr t =>
      match threads k !! t with Some x => bool_decide (_state x = Ready) | None => false end
  | _ => false
  end.

(** The first ready thread of a walk. *)
Definition first_ready k (w : list knode) : option knode := List.find (is_ready k) w.

(** The nodes of a queue other than its header are threads. *)
Definition queue_node k (q : Z) (y : knode) : Prop :=
  y = PrioHdr q ∨ ∃ t x, y = Thr t ∧ threads k !! t = Some x.

Lemma find_loop k q c w fuel w1 : ∀ w2,
  ring (nodes k) c w → w = w1 ++ w2 → is_Some (_curNodeInGroup k !! q) →
  Forall (queue_node k q) w2 → (length w2 < fuel)%nat →
  loop fuel (find_body q (Some c)) (Some (default c (head w2))) k =
    match first_ready k w2 with
    | Some y => Ok (Some y, set_cursors (<[q := Some y]> (_curNodeInGroup k)) k)
    | None => Ok (Some c, k)
    end.
Proof.
  revert w1. induction fuel as [|fuel IH]; intros w1 w2 Hr Hw Hcur Hq Hf; [lia|].
  destruct w2 as [|y w2]; cbn [head default from_option first_ready List.find]; unfold id.
  { apply loop_exit. unfold find_body. by rewrite decide_True. }
  apply Forall_cons in Hq as [Hy Hq].
  assert (y ≠ c) as Hyc.
  { destruct Hr as [_ [Hc _]%NoDup_cons]. subst w. set_solver. }
  assert (is_Some (nodes k !! y)) as Hm by (eapply ring_mapped; [exact Hr|subst w; set_solver]).
  destruct (node_of_run _ _ Hm) as (n & Hn & Hnext & _).
  assert (next n = Some (default c (head w2))) as Hnx.
  { subst w. apply ring_rotate, ring_first in Hr. rewrite Hnext in Hr.
    injection Hr as ->. by destruct w2. }
  assert (find_body q (Some c) (Some y) k = Ok (inl (next n), k) →
     loop (S fuel) (find_body q (Some c)) (Some y) k
     = match first_ready k w2 with
       | Some y' => Ok (Some y', set_cursors (<[q := Some y']> (_curNodeInGroup k)) k)
       | None => Ok (Some c, k)
       end) as Hgo.
  { intros Hb. rewrite (loop_next _ _ _ _ _ _ Hb), Hnx.
    apply (IH (w1 ++ [y])); [done|by rewrite <- app_assoc|done|done|cbn in *; lia]. }
  assert (on_nodes (node_of (Some y)) k = Ok (n, k)) as Hon.
  { rewrite (on_nodes_run _ _ _ _ Hn). by destruct k. }
  destruct Hy as [->|(t & x & -> & Hx)]; cbn [is_ready].
  - apply Hgo. unfold find_body. rewrite decide_False by congruence.
    prog_step Hon. by rewrite decide_True.
  - rewrite Hx. case_bool_decide as Hst.
    + apply loop_exit. unfold find_body. rewrite decide_False by congruence.
      prog_step Hon. rewrite decide_False by done. prog_step (thr_run k t x Hx).
      rewrite decide_True by done.
      by rewrite (bind_Ok _ _ _ _ _ (set_cursor_run k q _ Hcur)).
    + apply Hgo. unfold find_body. rewrite decide_False by congruence.
      prog_step Hon. rewrite decide_False by done. prog_step (thr_run k t x Hx).
      by rewrite decide_False by done.
Qed.

Lemma wf_walk_nodes k Q q l c :
  wf k Q → Q !! PrioHdr q = Some l → c ∈ PrioHdr q :: l →
  Forall (queue_node k q) (walk (PrioHdr q) c l).
Proof.
  intros H HQ Hc. apply Forall_forall. intros y Hy.
  pose proof (proj1 (wf_rings _ _ H) _ _ HQ) as Hr.
  assert (y ∈ PrioHdr q :: l) as Hin by (eapply walk_elem; [done|done|set_solver]).
  apply elem_of_cons in Hin as [->|Hin]; [by left|right].
  destruct (wf_linked _ _ H _ _ y HQ Hin) as (t & x & -> & Hx & _). eauto.
Qed.

(** The current thread runs at the greatest priority: the search returns the first
    ready thread after the cursor and moves the cursor to it; when there is none
    it returns the owner of the cursor itself. *)
Lemma findNextThread_run k Q t x l c :
  wf k Q → _curThread k = Some (Thr t) → threads k !! t = Some x →
  _maxPrio k = _priority x → Q !! PrioHdr (_priority x) = Some l →
  _curNodeInGroup k !! _priority x = Some (Some c) → c ∈ PrioHdr (_priority x) :: l →
  findNextThread k =
    match first_ready k (walk (PrioHdr (_priority x)) c l) with
    | Some y => Ok (Some y, set_cursors (<[_priority x := Some y]> (_curNodeInGroup k)) k)
    | None => Ok (Some c, k)
    end.
Proof.
  intros H Hct Hx Hmax HQ Hcur Hc. set (q := _priority x) in *.
  pose proof (proj1 (wf_rings _ _ H) _ _ HQ) as Hr.
  pose proof (ring_walk _ _ _ _ Hr Hc) as Hw.
  assert (is_Some (nodes k !! c)) as Hm by (eapply ring_mapped; [exact Hw|set_solver]).
  destruct (node_of_run _ _ Hm) as (n & Hn & Hnext & _).
  unfold findNextThread. prog_simpl. rewrite Hct. prog_step (thr_run k t x Hx).
  fold q. rewrite Hmax, Z.eqb_refl. cbn [assert_]. prog_simpl.
  prog_step (cursor_run k q _ Hcur).
  assert (on_nodes (node_of (Some c)) k = Ok (n, k)) as Hon.
  { rewrite (on_nodes_run _ _ _ _ Hn). by destruct k. }
  prog_step Hon.
  rewrite (ring_first _ _ _ Hw) in Hnext. injection Hnext as <-.
  apply (find_loop k q c (walk (PrioHdr q) c l) _ []); [done|done|eauto|by eapply wf_walk_nodes|].
  pose proof (ring_size _ _ _ Hw). lia.
Qed.

(** ** A time slice *)

(** The current thread [t] runs at the greatest priority, with its slice not used
    up, from the cursor of its queue [l]. *)
Record running k Q (t : Z) (x : thread) (l : list knode) : Prop := {
  run_wf : wf k Q;
  run_cur : _curThread k = Some (Thr t);
  run_thr : threads k !! t = Some x;
  run_state : _state x = Running;
  run_max : _maxPrio k = _priority x;
  run_queue : Q !! PrioHdr (_priority x) = Some l;
  run_in : Thr t ∈ l;
  run_cursor : _curNodeInGroup k !! _priority x = Some (Some (Thr t));
  run_slice : 0 ≤ _execTicks x < _totalTicks x ∧ _totalTicks x < 2 ^ 32
}.

Definition upd_thread (t : Z) (x : thread) k : kernel :=
  set_threads (<[t := x]> (threads k)) k.

Lemma wf_upd_thread k Q t x x' :
  wf k Q → threads k !! t = Some x → _priority x' = _priority x → wf (upd_thread t x' k) Q.
Proof.
  intros H Hx Hp. eapply wf_same; [exact H|done|done|..]; cbn; intros u y.
  - rewrite lookup_insert. case_decide as E; [subst|eauto].
    intros [= <-]. eauto.
  - intros Hy. rewrite lookup_insert. case_decide as E; [subst|eauto].
    exists x'. by simplify_eq.
Qed.

Lemma wf_set_cursor k Q q l c :
  wf k Q → Q !! PrioHdr q = Some l → c ∈ PrioHdr q :: l →
  wf (set_cursors (<[q := Some c]> (_curNodeInGroup k)) k) Q.
Proof.
  intros H HQ Hc. destruct H as [Hr Hcu Ht Hl Hh]. split; try done; cbn.
  intros q' Hq'. rewrite lookup_insert. case_decide as E; [subst; eauto|by apply Hcu].
Qed.

(** Within the slice a tick only counts. *)
Lemma tick_in_slice k Q t x l :
  running k Q t x l → _execTicks x + 1 < _totalTicks x →
  scheduleInInterrupt k = Ok ((), upd_thread t (with_ticks (_execTicks x + 1) x) k) ∧
  running (upd_thread t (with_ticks (_execTicks x + 1) x) k) Q t
    (with_ticks (_execTicks x + 1) x) l.
Proof.
  intros [H Hcur Hx Hst Hmax HQ Hin Hc [He Ht]] Hlt.
  set (x' := with_ticks (_execTicks x + 1) x).
  assert (threads (upd_thread t x' k) !! t = Some x') as Hx' by apply lookup_insert_eq.
  split.
  - unfold scheduleInInterrupt. prog_simpl. rewrite Hcur.
    prog_step (upd_thr_run k t x (λ t, with_ticks (u32 (_execTicks t + 1)) t) Hx).
    rewrite wrapu_id by (unfold in_u; lia).
    prog_step (thr_run (upd_thread t x' k) t x' Hx'). cbn [x' with_ticks _priority _totalTicks _execTicks].
    rewrite Hmax, Z.ltb_irrefl. destruct (Z.leb_spec (_totalTicks x) (_execTicks x + 1)); [lia|done].
  - split; try done; [by eapply wf_upd_thread|cbn; lia].
Qed.

(** The last tick of a slice: the next ready thread of the ring runs. *)
Lemma tick_end_of_slice k Q t x l u y :
  running k Q t x l → _execTicks x + 1 = _totalTicks x →
  first_ready k (walk (PrioHdr (_priority x)) (Thr t) l) = Some (Thr u) →
  threads k !! u = Some y →
  let k1 := upd_thread u (with_state Running y)
              (upd_thread t (with_state Ready (with_ticks 0 x)) k) in
  scheduleInInterrupt k
  = Ok ((), set_cur (Some (Thr u)) (set_higher (Some (Thr u))
        (set_cursors (<[_priority x := Some (Thr u)]> (_curNodeInGroup k)) k1))).
Proof.
  intros [H Hcur Hx Hst Hmax HQ Hin Hc [He Ht]] Hend Hf Hy k1.
  assert (u ≠ t) as Hne.
  { intros ->. apply find_some in Hf as [_ Hr]. cbn in Hr. rewrite Hx in Hr.
    apply bool_decide_eq_true in Hr. congruence. }
  set (xa := with_ticks (_execTicks x + 1) x). set (ka := upd_thread t xa k).
  set (x0 := with_ticks 0 x). set (k0 := upd_thread t x0 ka).
  assert (threads ka !! t = Some xa) as Hxa by apply lookup_insert_eq.
  assert (threads k0 !! t = Some x0) as Hx0 by apply lookup_insert_eq.
  assert (wf ka Q) as Ha by by eapply wf_upd_thread.
  assert (wf k0 Q) as H0 by by eapply wf_upd_thread.
  assert (Thr t ∈ PrioHdr (_priority x) :: l) as Hin' by set_solver.
  pose proof (findNextThread_run k0 Q t x0 l (Thr t) H0 Hcur Hx0 Hmax HQ Hc Hin') as Hfind.
  assert (∀ w, first_ready k0 w = first_ready k w) as Hsame.
  { intros w. unfold first_ready. induction w as [|z w IH]; [done|]. cbn. rewrite IH.
    assert (is_ready k0 z = is_ready k z) as ->; [|done].
    destruct z as [| | |z]; [done..|]. cbn. rewrite insert_insert_eq, lookup_insert.
    case_decide as E; [subst|done]. by rewrite Hx. }
  cbn [x0 with_ticks _priority] in Hfind. rewrite Hsame, Hf in Hfind.
  unfold scheduleInInterrupt. prog_simpl. rewrite Hcur.
  prog_step (upd_thr_run k t x (λ t, with_ticks (u32 (_execTicks t + 1)) t) Hx).
  rewrite wrapu_id by (unfold in_u; lia).
  prog_step (thr_run ka t xa Hxa). cbn [xa with_ticks _priority _totalTicks _execTicks].
  rewrite Hmax, Z.ltb_irrefl, (proj2 (Z.leb_le _ _)) by lia.
  prog_step (upd_thr_run ka t xa (with_ticks 0) Hxa). prog_step Hfind.
  rewrite decide_False by congruence.
  set (kc := set_cursors _ k0).
  prog_step (upd_thr_run kc t x0 (with_state Ready) Hx0).
  assert (threads (upd_thread t (with_state Ready x0) kc) !! u = Some y) as Hyc.
  { cbn. by rewrite !insert_insert_eq, lookup_insert_ne. }
  prog_step (upd_thr_run (upd_thread t (with_state Ready x0) kc) u y (with_state Running) Hyc).
  set (ks := set_higher _ _).
  assert (threads ks !! u = Some (with_state Running y)) as Hu by apply lookup_insert_eq.
  assert (threads ks !! t = Some (with_state Ready x0)) as Ht'.
  { cbn. by rewrite lookup_insert_ne, lookup_insert_eq. }
  prog_step (thr_run ks u _ Hu). unfold switchContext. prog_simpl.
  change (_curThread ks) with (_curThread k). rewrite Hcur.
  prog_step (thr_run ks t _ Ht'). change (_higherPriorityThread ks) with (Some (Thr u)).
  prog_step (thr_run ks u _ Hu). unfold modify. do 2 f_equal.
  unfold ks, kc, k1, k0, ka, upd_thread, set_cur, set_higher, set_cursors, set_threads. cbn.
  by rewrite !insert_insert_eq.
Qed.

(** ** Any call of the scheduler

    The queues hold the threads that can run, a candidate is known for the greatest priority
    seen, and the current thread can run or has just been suspended. A call of the scheduler
    keeps that, unless it gives the CPU to a thread that waits, or the slice of a thread ends
    that waits, which makes it [Ready] without linking it; [orderly] says that neither happens. *)

Definition runnable (x : thread) : Prop := _state x = Ready ∨ _state x = Running.

Definition candidate k : Prop :=
  ∃ u z, _higherPriorityThread k = Some (Thr u) ∧ threads k !! u = Some z ∧ _priority z = _maxPrio k.

Record sched_inv k Q : Prop := {
  si_wf : wf k Q;
  si_linked t x : threads k !! t = Some x → runnable x →
    ∃ l, Q !! PrioHdr (_priority x) = Some l ∧ Thr t ∈ l;
  si_queued q l t : Q !! PrioHdr q = Some l → Thr t ∈ l → ∃ x, threads k !! t = Some x ∧ runnable x;
  si_candidate : candidate k;
  si_current : ∃ t x, _curThread k = Some (Thr t) ∧ threads k !! t = Some x ∧ (runnable x ∨ _state x = Waiting)
}.

(** The thread [t] has the CPU and can run. *)
Definition at_work k (t : Z) : Prop :=
  _curThread k = Some (Thr t) ∧ ∃ x, threads k !! t = Some x ∧ runnable x.

Definition waits k (t : Z) : Prop := _state <$> threads k !! t = Some Waiting.

Definition orderly k k' : Prop := (∃ t, at_work k' t) ∧ ∀ t, waits k t → waits k' t.

(** A change of the threads that keeps their priorities and which of them can run. *)
Lemma sched_inv_threads k k' Q :
  sched_inv k Q → wf k' Q → _higherPriorityThread k' = _higherPriorityThread k → _maxPrio k' = _maxPrio k →
  (∀ t x', threads k' !! t = Some x' → runnable x' → ∃ x, threads k !! t = Some x ∧ runnable x ∧ _priority x' = _priority x) →
  (∀ t x, threads k !! t = Some x → ∃ x', threads k' !! t = Some x' ∧ _priority x' = _priority x ∧ (runnable x → runnable x')) →
  (∃ t x, _curThread k' = Some (Thr t) ∧ threads k' !! t = Some x ∧ (runnable x ∨ _state x = Waiting)) →
  sched_inv k' Q.
Proof.
  intros [H Hl Hq (u & z & Hh & Hz & Hp) _] H' Hh' Hm' Hsub Hsup Hcur. split; [done| | | |done].
  - intros t x' Hx' Hr. destruct (Hsub t x' Hx' Hr) as (x & Hx & Hrx & ->). by eapply Hl.
  - intros q l t HQ Hin. destruct (Hq q l t HQ Hin) as (x & Hx & Hr). destruct (Hsup t x Hx) as (x' & ? & _ & ?). eauto.
  - destruct (Hsup u z Hz) as (z' & Hz' & Hpz & _). exists u, z'. rewrite Hh', Hm', Hpz. done.
Qed.

(** The greatest priority is above that of the current thread: the candidate gets the CPU, and
    no state of a thread changes. *)
Lemma preempt_run k Q t x : sched_inv k Q → _curThread k = Some (Thr t) → threads k !! t = Some x →
  _priority x < _maxPrio k →
  ∃ u n, _higherPriorityThread k = Some (Thr u) ∧
    scheduleInInterrupt k = Ok ((), set_cur (Some (Thr u)) (upd_thread t (with_ticks n x)
      (set_cursors (<[_maxPrio k := Some (Thr u)]> (_curNodeInGroup k)) k))).
Proof.
  intros [H _ _ (u & z & Hh & Hz & Hp) _] Hc Hx Hlt. exists u.
  set (e := u32 (_execTicks x + 1)). exists (if _totalTicks x <=? e then 0 else e). split; [done|].
  destruct (wf_thread _ _ H u z Hz) as [_ Hq]. rewrite Hp in Hq.
  assert (is_Some (_curNodeInGroup k !! _maxPrio k)) as Hcs by (destruct (wf_cursor _ _ H _ Hq) as (? & ? & _ & -> & _); eauto).
  unfold scheduleInInterrupt. prog_simpl. rewrite Hc.
  prog_step (upd_thr_run k t x (λ t, with_ticks (u32 (_execTicks t + 1)) t) Hx). fold e.
  set (ka := set_threads _ k). assert (threads ka !! t = Some (with_ticks e x)) as Hxa by apply lookup_insert_eq.
  prog_step (thr_run ka t _ Hxa). cbn [with_ticks _priority _totalTicks _execTicks]. rewrite (proj2 (Z.ltb_lt _ _)) by done.
  rewrite Hh. prog_step (set_cursor_run ka (_maxPrio k) (Some (Thr u)) Hcs). set (kb := set_cursors _ ka).
  assert (∀ kc y, threads kc = <[t := y]> (threads k) → _curThread kc = Some (Thr t) → _higherPriorityThread kc = Some (Thr u) →
    (_ ← thr (Some (Thr u)); switchContext) kc = Ok ((), set_cur (Some (Thr u)) kc)) as Hsw.
  { intros kc y Ht Hck Hhk. assert (∃ v, threads kc !! u = Some v) as (v & Hv).
    { rewrite Ht, lookup_insert. case_decide; [by eexists|by exists z]. }
    prog_step (thr_run kc u v Hv). unfold switchContext. prog_simpl. rewrite Hck, Hhk.
    prog_step (thr_run kc t y ltac:(rewrite Ht; apply lookup_insert_eq)). by prog_step (thr_run kc u v Hv). }
  unfold when. destruct (_totalTicks x <=? e).
  - prog_step (upd_thr_run kb t _ (with_ticks 0) Hxa).
    rewrite (Hsw _ (with_ticks 0 x)); [|unfold kb, ka; cbn; by rewrite insert_insert_eq|done|done].
    do 2 f_equal. unfold kb, ka, upd_thread, set_cursors, set_threads, set_cur. cbn. by rewrite insert_insert_eq.
  - prog_simpl. by rewrite (Hsw kb (with_ticks e x)).
Qed.

Lemma find_keeps k Q t x : wf k Q → _curThread k = Some (Thr t) → threads k !! t = Some x → _maxPrio k = _priority x →
  ∃ y cs l, findNextThread k = Ok (Some y, set_cursors cs k) ∧ wf (set_cursors cs k) Q ∧
    Q !! PrioHdr (_priority x) = Some l ∧ y ∈ PrioHdr (_priority x) :: l.
Proof.
  intros H Hc Hx Hm. destruct (wf_thread _ _ H t x Hx) as [_ Hq].
  destruct (wf_cursor _ _ H _ Hq) as (l & c & HQ & Hcu & Hin).
  rewrite (findNextThread_run k Q t x l c H Hc Hx Hm HQ Hcu Hin).
  destruct (first_ready k _) as [y|] eqn:Hf.
  - apply find_some in Hf as [Hy%list_elem_of_In _]. pose proof (proj1 (wf_rings _ _ H) _ _ HQ) as Hr.
    assert (y ∈ PrioHdr (_priority x) :: l) as Hy' by (eapply walk_elem; [done|done|set_solver]).
    eexists y, _, l. split; [done|]. split; [by eapply wf_set_cursor|done].
  - exists c, (_curNodeInGroup k), l. assert (set_cursors (_curNodeInGroup k) k = k) as -> by by destruct k. done.
Qed.

(** The other outcomes: the thread goes on, with the cursor of its queue on it or not, or the
    slice is over and a thread [u] of the same queue gets the CPU. *)
Lemma no_preempt_run k Q t x k' : sched_inv k Q → _curThread k = Some (Thr t) → threads k !! t = Some x →
  _maxPrio k ≤ _priority x → scheduleInInterrupt k = Ok ((), k') →
  (∃ n cs, k' = upd_thread t (with_ticks n x) (set_cursors cs k) ∧ wf (set_cursors cs k) Q) ∨
  (∃ u z cs l, threads k !! u = Some z ∧ u ≠ t ∧ _priority z = _maxPrio k ∧ wf (set_cursors cs k) Q ∧
     Q !! PrioHdr (_priority z) = Some l ∧ Thr u ∈ l ∧
     k' = set_cur (Some (Thr u)) (set_higher (Some (Thr u)) (upd_thread u (with_state Running z)
       (upd_thread t (with_state Ready (with_ticks 0 x)) (set_cursors cs k))))).
Proof.
  intros [H _ _ _ _] Hc Hx Hle. set (e := u32 (_execTicks x + 1)).
  unfold scheduleInInterrupt. prog_simpl. rewrite Hc.
  prog_step (upd_thr_run k t x (λ t, with_ticks (u32 (_execTicks t + 1)) t) Hx). fold e.
  change (set_threads _ k) with (upd_thread t (with_ticks e x) k).
  set (ka := upd_thread t _ k). assert (threads ka !! t = Some (with_ticks e x)) as Hxa by apply lookup_insert_eq.
  prog_step (thr_run ka t _ Hxa). cbn [with_ticks _priority _totalTicks _execTicks]. rewrite (proj2 (Z.ltb_ge _ _)) by done.
  assert (∀ k, set_cursors (_curNodeInGroup k) k = k) as Hid by by intros [].
  destruct (_totalTicks x <=? e).
  2: { intros [= <-]. left. exists e, (_curNodeInGroup k). by rewrite Hid. }
  prog_step (upd_thr_run ka t _ (with_ticks 0) Hxa).
  set (k0 := set_threads _ ka). assert (k0 = upd_thread t (with_ticks 0 x) k) as E0.
  { unfold k0, ka, upd_thread, set_threads. cbn. by rewrite insert_insert_eq. }
  assert (threads k0 !! t = Some (with_ticks 0 x)) as Hx0 by apply lookup_insert_eq.
  destruct (decide (_maxPrio k = _priority x)) as [Hm|Hm].
  2: { unfold findNextThread. prog_simpl. rewrite E0 at 1. cbn. rewrite Hc. rewrite (bind_Ok _ _ _ _ _ (thr_run k0 t _ Hx0)).
       change (_maxPrio k0) with (_maxPrio k). cbn [with_ticks _priority]. by rewrite (proj2 (Z.eqb_neq _ _)). }
  assert (wf k0 Q) as H0 by (rewrite E0; by eapply wf_upd_thread).
  destruct (find_keeps k0 Q t _ H0 Hc Hx0 Hm) as (y & cs & l & Hf & Hwf & HQ & Hy). prog_step Hf.
  assert (wf (set_cursors cs k) Q) as Hwf'.
  { rewrite E0 in Hwf. eapply wf_same; [exact Hwf|done|done|..]; cbn; intros v w Hv.
    - rewrite lookup_insert. case_decide; [subst|by eauto]. eexists. split; [done|]. by simplify_eq.
    - rewrite lookup_insert in Hv. case_decide; [subst; simplify_eq|by eauto]. by exists x. }
  case_decide as Hyt.
  { intros [= <-]. left. exists 0, cs. split; [by rewrite E0|done]. }
  set (kc := set_cursors cs k0). prog_step (upd_thr_run kc t _ (with_state Ready) Hx0).
  apply elem_of_cons in Hy as [->|Hy]; [done|].
  destruct (wf_linked _ _ H _ _ y HQ Hy) as (u & z & -> & Hz & Hp). cbn [with_ticks _priority] in HQ, Hp.
  specialize (Hp _ eq_refl). assert (u ≠ t) as Hne by congruence.
  set (kd := set_threads _ kc). assert (threads kd !! u = Some z) as Hzd.
  { unfold kd, kc. rewrite E0. cbn. by rewrite !lookup_insert_ne. }
  prog_step (upd_thr_run kd u z (with_state Running) Hzd). set (ks := set_higher _ _).
  assert (threads ks !! u = Some (with_state Running z)) as Hu by apply lookup_insert_eq.
  assert (threads ks !! t = Some (with_state Ready (with_ticks 0 x))) as Ht'.
  { cbn. by rewrite lookup_insert_ne, lookup_insert_eq. }
  prog_step (thr_run ks u _ Hu). unfold switchContext. prog_simpl.
  change (_curThread ks) with (_curThread k). rewrite Hc.
  prog_step (thr_run ks t _ Ht'). change (_higherPriorityThread ks) with (Some (Thr u)).
  prog_step (thr_run ks u _ Hu). intros [= <-]. right. exists u, z, cs, l. rewrite Hm, Hp. split_and!; try done.
  unfold ks, kd, kc. rewrite E0. unfold upd_thread, set_cur, set_higher, set_cursors, set_threads. cbn. by rewrite insert_insert_eq.
Qed.

Lemma schedule_orderly k Q k' : sched_inv k Q → scheduleInInterrupt k = Ok ((), k') → orderly k k' →
  sched_inv k' Q ∧ dom (threads k') = dom (threads k).
Proof.
  intros Hinv Hrun [(v & Hv & y & Hy & Hry) Hw]. pose proof Hinv as [H Hl Hq Hh (t & x & Hc & Hx & Hst)].
  destruct (Z.ltb_spec (_maxPrio k) (_priority x + 1)) as [Hle|Hlt].
  - destruct (no_preempt_run k Q t x k' Hinv Hc Hx ltac:(lia) Hrun)
      as [(n & cs & -> & Hwf)|(u & z & cs & l & Hz & Hne & Hp & Hwf & HQ & Hin & ->)].
    + split; [|cbn; rewrite dom_insert_L; apply elem_of_dom_2 in Hx; set_solver].
      eapply sched_inv_threads; [exact Hinv|by eapply wf_upd_thread|done|done|..]; cbn.
      * intros w x'. rewrite lookup_insert. case_decide; [|by eauto]. intros [= <-] Hr. subst. by exists x.
      * intros w x' Hx'. rewrite lookup_insert. case_decide; [|by eauto]. eexists. split; [done|]. by simplify_eq.
      * exists t, (with_ticks n x). by rewrite lookup_insert_eq.
    + assert (runnable x) as Hrx.
      { destruct Hst as [|Hst]; [done|]. specialize (Hw t). unfold waits in Hw. cbn in Hw.
        rewrite lookup_insert_ne, lookup_insert_eq, Hx in Hw by done. cbn in Hw. rewrite Hst in Hw. by specialize (Hw eq_refl). }
      split; [|cbn; rewrite !dom_insert_L; apply elem_of_dom_2 in Hx, Hz; set_solver]. split; cbn.
      * eapply wf_same; [exact Hwf|done|done|..]; cbn; intros w x'; rewrite !lookup_insert; repeat case_decide; subst; try by eauto.
        -- intros [= <-]. by exists z.
        -- intros [= <-]. by exists x.
        -- intros ?. simplify_eq. by eexists.
        -- intros ?. simplify_eq. by eexists.
      * intros w x'. rewrite !lookup_insert. repeat case_decide; subst; [|..|by apply Hl].
        -- intros [= <-] _. by exists l.
        -- intros [= <-] _. by apply (Hl _ x).
      * intros q l' w HQ' Hw'. destruct (Hq q l' w HQ' Hw') as (x' & Hx' & Hr'). rewrite !lookup_insert.
        repeat case_decide; [by eexists; split; [|right]|by eexists; split; [|left]|by exists x'].
      * exists u, (with_state Running z). cbn. by rewrite lookup_insert_eq.
      * exists u, (with_state Running z). rewrite lookup_insert_eq. split; [done|]. split; [done|]. left. by right.
  - destruct (preempt_run k Q t x Hinv Hc Hx ltac:(lia)) as (u & n & Hu & Hrun'). rewrite Hrun in Hrun'. injection Hrun' as ->.
    cbn in Hv, Hy. injection Hv as <-.
    split; [|cbn; rewrite dom_insert_L; apply elem_of_dom_2 in Hx; set_solver].
    destruct Hh as (u' & z & Hu' & Hz & Hp). assert (u' = u) as -> by congruence.
    assert (runnable z) as Hrz. { rewrite lookup_insert in Hy. case_decide; [|by simplify_eq]. subst. by simplify_eq. }
    destruct (Hl u z Hz Hrz) as (l & HQ & Hin). rewrite Hp in HQ.
    assert (wf (set_cursors (<[_maxPrio k := Some (Thr u)]> (_curNodeInGroup k)) k) Q) as Hwf by (eapply wf_set_cursor; [done..|set_solver]).
    eapply sched_inv_threads; [exact Hinv| |done|done|..]; cbn.
    + eapply wf_same; [eapply (wf_upd_thread _ _ t x (with_ticks n x)); [exact Hwf|done|done]|done|done|by eauto|by eauto].
    + intros w x'. rewrite lookup_insert. case_decide; [|by eauto]. intros [= <-] Hr. subst. by exists x.
    + intros w x' Hx'. rewrite lookup_insert. case_decide; [|by eauto]. eexists. split; [done|]. by simplify_eq.
    + exists u, y. split; [done|]. split; [exact Hy|by left].
Qed.

(** Where that holds: a call with a thread at work, and no candidate that waits in its way; and a
    call that finds a candidate of a greater priority which can run. *)
Lemma preempt_orderly k Q t x u z : sched_inv k Q → _curThread k = Some (Thr t) → threads k !! t = Some x →
  _priority x < _maxPrio k → _higherPriorityThread k = Some (Thr u) → threads k !! u = Some z → runnable z →
  ∃ k', scheduleInInterrupt k = Ok ((), k') ∧ orderly k k' ∧ at_work k' u.
Proof.
  intros Hinv Hc Hx Hlt Hu Hz Hr. destruct (preempt_run k Q t x Hinv Hc Hx Hlt) as (u' & n & Hu' & Hrun).
  assert (u' = u) as -> by congruence. eexists. split; [exact Hrun|]. match goal with |- orderly _ ?K ∧ _ => set (k' := K) in * end.
  assert (at_work k' u) as Hat.
  { split; [done|]. cbn. rewrite lookup_insert. case_decide; [subst; simplify_eq; by eexists|by exists z]. }
  split; [|done]. split; [by exists u|]. intros w. unfold waits. cbn. rewrite lookup_insert. case_decide; [|done]. subst. by rewrite Hx.
Qed.

Lemma tick_orderly k Q t x k' : sched_inv k Q → at_work k t → threads k !! t = Some x → _maxPrio k ≤ _priority x →
  scheduleInInterrupt k = Ok ((), k') → orderly k k'.
Proof.
  intros Hinv [Hc (x' & Hx' & Hr)] Hx Hle Hrun. assert (x' = x) as -> by congruence.
  destruct (no_preempt_run k Q t x k' Hinv Hc Hx Hle Hrun)
    as [(n & cs & -> & Hwf)|(u & z & cs & l & Hz & Hne & Hp & Hwf & HQ & Hin & ->)].
  - split.
    + exists t. split; [done|]. cbn. rewrite lookup_insert_eq. by eexists.
    + intros w. unfold waits. cbn. rewrite lookup_insert. case_decide; [|done]. subst. by rewrite Hx.
  - destruct (si_queued _ _ Hinv _ _ _ HQ Hin) as (z' & Hz' & Hrz). assert (z' = z) as -> by congruence. split.
    + exists u. split; [done|]. cbn. rewrite lookup_insert_eq. eexists. split; [done|by right].
    + intros w. unfold waits. cbn. rewrite !lookup_insert. repeat case_decide; subst; [rewrite Hz|rewrite Hx|done];
        cbn; intros [= Hw]; [destruct Hrz|destruct Hr]; congruence.
Qed.

(** ** Round robin

    [rr k Q t rest]: the thread [t] runs at the start of its slice and the other
    threads of its queue, in the order the ring meets them, are [rest], all ready. *)

Definition is_thr (y : knode) : Prop := match y with Thr _ => True | _ => False end.
#[global] Instance is_thr_dec y : Decision (is_thr y).
Proof. destruct y; solve_decision. Defined.

Record rr k Q (t : Z) (x : thread) (l : list knode) (rest : list Z) : Prop := {
  rr_running : running k Q t x l;
  rr_start : _execTicks x = 0;
  rr_rest : filter is_thr (walk (PrioHdr (_priority x)) (Thr t) l) = map Thr rest;
  rr_ready u : u ∈ rest → ∃ y, threads k !! u = Some y ∧ _state y = Ready ∧
    _execTicks y = 0 ∧ 0 < _totalTicks y < 2 ^ 32
}.

Lemma rr_nodup k Q t x l rest : rr k Q t x l rest → NoDup (t :: rest).
Proof.
  intros [[Hwf _ _ _ _ HQ Hin _ _] _ Hrest _].
  pose proof (proj1 (wf_rings _ _ Hwf) _ _ HQ) as Hring.
  assert (Thr t ∈ PrioHdr (_priority x) :: l) as Hin' by set_solver.
  destruct (ring_walk _ _ _ _ Hring Hin') as [_ [Hn Hnd]%NoDup_cons].
  assert (map Thr rest = Thr <$> rest) as Hm by done. rewrite Hm in Hrest.
  apply NoDup_cons. split.
  - intros Hx. apply Hn. eapply list_elem_of_filter. rewrite Hrest.
    by apply list_elem_of_fmap_2.
  - apply (NoDup_fmap_1 Thr). rewrite <- Hrest. by apply NoDup_filter.
Qed.

Fixpoint ticks (n : nat) : prog kernel () :=
  match n with
  | O => mret ()
  | S n' => scheduleInInterrupt;; ticks n'
  end.

Lemma ticks_app n m k k' : ticks n k = Ok ((), k') → ticks (n + m) k = ticks m k'.
Proof.
  revert k. induction n as [|n IH]; intros k; cbn; [by intros [= ->]|].
  intros H. apply bind_inv in H as ([] & k1 & H1 & H2).
  rewrite (bind_Ok _ _ _ _ _ H1). by apply IH.
Qed.

(** Before its slice is used up, the thread keeps running. *)
Lemma ticks_in_slice k Q t x l n :
  running k Q t x l → _execTicks x + Z.of_nat n < _totalTicks x →
  ∃ k' x', ticks n k = Ok ((), k') ∧ running k' Q t x' l ∧
    x' = with_ticks (_execTicks x + Z.of_nat n) x ∧
    (∀ u, u ≠ t → threads k' !! u = threads k !! u) ∧ nodes k' = nodes k.
Proof.
  revert k x. induction n as [|n IH]; intros k x Hr Hn.
  - exists k, x. split; [done|]. split; [done|]. split; [|done].
    destruct x; unfold with_ticks; cbn. f_equal. lia.
  - destruct (tick_in_slice k Q t x l Hr ltac:(lia)) as [Hrun Hr'].
    destruct (IH _ _ Hr' ltac:(cbn; lia)) as (k' & x' & Hrun' & Hr2 & -> & Hth & Hnd).
    exists k'. eexists. split; [cbn; by rewrite (bind_Ok _ _ _ _ _ Hrun)|].
    split; [exact Hr2|]. split; [|split].
    + unfold with_ticks; cbn. f_equal. lia.
    + intros u Hu. rewrite Hth by done. cbn. by rewrite lookup_insert_ne.
    + by rewrite Hnd.
Qed.

Lemma filter_first_ready k w u rest :
  filter is_thr w = Thr u :: rest → is_ready k (Thr u) = true →
  first_ready k w = Some (Thr u) ∧
  ∃ w1 w2, w = w1 ++ Thr u :: w2 ∧ filter is_thr w1 = [] ∧ filter is_thr w2 = rest.
Proof.
  intros Hf Hrd. unfold first_ready. induction w as [|y w IH]; [done|].
  rewrite filter_cons in Hf. case_decide as Hy.
  - injection Hf as -> Hf. split; [cbn in *; by rewrite Hrd|].
    exists [], w. split; [done|]. split; [done|]. done.
  - destruct (IH Hf) as [H1 (w1 & w2 & -> & Hw1 & Hw2)]. split.
    + cbn. by destruct y; [..|destruct Hy].
    + exists (y :: w1), w2. split; [done|]. split; [by rewrite filter_cons_False|done].
Qed.

(** The state after a switch from [t] to [u]. *)
Definition switched (t u : Z) (x y : thread) k : kernel :=
  set_cur (Some (Thr u)) (set_higher (Some (Thr u))
    (set_cursors (<[_priority x := Some (Thr u)]> (_curNodeInGroup k))
      (upd_thread u (with_state Running y)
        (upd_thread t (with_state Ready (with_ticks 0 x)) k)))).

Lemma switched_wf k Q t u x y l :
  wf k Q → threads k !! t = Some x → threads k !! u = Some y → t ≠ u →
  Q !! PrioHdr (_priority x) = Some l → Thr u ∈ l → wf (switched t u x y k) Q.
Proof.
  intros H Hx Hy Hne HQ Hu.
  apply (wf_same (set_cursors (<[_priority x := Some (Thr u)]> (_curNodeInGroup k))
    (upd_thread u (with_state Running y) (upd_thread t (with_state Ready (with_ticks 0 x)) k))));
    [|done|done|cbn; eauto..].
  apply (wf_set_cursor (upd_thread u _ (upd_thread t _ k)) _ _ l); [|done|set_solver].
  apply (wf_upd_thread _ _ u y); [by apply (wf_upd_thread _ _ t x)| |done].
  cbn. by rewrite lookup_insert_ne.
Qed.

Lemma rr_slice k Q t x l u rest :
  rr k Q t x l (u :: rest) →
  ∃ k' y, ticks (Z.to_nat (_totalTicks x)) k = Ok ((), k') ∧ rr k' Q u y l (rest ++ [t]) ∧
    threads k !! u = Some (with_state Ready y) ∧
    (∀ v yv, v ≠ t → v ≠ u → threads k !! v = Some yv → threads k' !! v = Some yv).
Proof.
  intros Hrr. pose proof (rr_nodup _ _ _ _ _ _ Hrr) as Hndr.
  destruct Hrr as [Hrun Hz Hrest Hready].
  destruct (Hready u ltac:(set_solver)) as (y & Hy & Hyr & Hye & Hyt).
  pose proof Hrun as [Hwf Hcur Hx Hst Hmax HQ Hin Hcu [He Ht]].
  assert (u ≠ t) as Hut by (intros ->; congruence).
  destruct (ticks_in_slice k Q t x l (Z.to_nat (_totalTicks x - 1)) Hrun ltac:(lia))
    as (k1 & x1 & Hrun1 & Hr1 & Hx1 & Hth & Hnd).
  replace (_execTicks x + Z.of_nat (Z.to_nat (_totalTicks x - 1))) with (_totalTicks x - 1)
    in Hx1 by lia.
  assert (threads k1 !! u = Some y) as Hy1 by by rewrite Hth.
  assert (is_ready k1 (Thr u) = true) as Hrd.
  { cbn. rewrite Hy1. by apply bool_decide_eq_true. }
  assert (_priority x1 = _priority x) as Hp1 by by rewrite Hx1.
  destruct (filter_first_ready k1 _ u (map Thr rest) Hrest Hrd) as (Hfr & w1 & w2 & Hw & Hw1 & Hw2).
  rewrite <- Hp1 in Hfr.
  pose proof (tick_end_of_slice k1 Q t x1 l u y Hr1 ltac:(subst x1; cbn; lia) Hfr Hy1) as Htick.
  exists (switched t u x1 y k1), (with_state Running y). split; [|split; [|split]].
  - replace (Z.to_nat (_totalTicks x)) with (Z.to_nat (_totalTicks x - 1) + 1)%nat by lia.
    rewrite (ticks_app _ _ _ _ Hrun1). cbn. by rewrite (bind_Ok _ _ _ _ _ Htick).
  - pose proof (run_wf _ _ _ _ _ Hr1) as Hwf1. pose proof (run_thr _ _ _ _ _ Hr1) as Hthr1.
    assert (Thr t ∈ PrioHdr (_priority x) :: l) as Hin' by set_solver.
    pose proof (proj1 (wf_rings _ _ Hwf) _ _ HQ) as Hring.
    destruct (walk_rotate _ _ _ _ _ _ _ Hring Hin' Hw) as [Hwu Hul].
    assert (Thr u ∈ l) as Hul' by set_solver.
    destruct (wf_linked _ _ Hwf _ _ _ HQ Hul') as (u' & y' & [= <-] & Hy' & Hpy).
    specialize (Hpy _ eq_refl). assert (y' = y) as -> by congruence. clear Hy'.
    split.
    + split; try done.
      * eapply switched_wf; [done|exact Hthr1|done|done| |exact Hul']. by rewrite Hp1.
      * cbn. by rewrite lookup_insert_eq.
      * cbn. rewrite (run_max _ _ _ _ _ Hr1). by rewrite Hp1.
      * cbn. by rewrite Hpy.
      * cbn. rewrite Hpy, Hp1. by rewrite lookup_insert_eq.
      * cbn. lia.
    + done.
    + cbn. rewrite Hpy, Hwu, filter_app, filter_cons_True by done.
      by rewrite Hw1, Hw2, map_app.
    + intros v Hv. apply elem_of_app in Hv as [Hv|Hv].
      * destruct (Hready v ltac:(set_solver)) as (yv & Hyv & Hv1 & Hv2 & Hv3).
        assert (v ≠ t) by (intros ->; congruence).
        exists yv. split; [|done]. cbn.
        destruct (decide (v = u)) as [->|Hne]; [exfalso|].
        -- apply NoDup_cons in Hndr as [_ [Hn _]%NoDup_cons]. done.
        -- by rewrite !lookup_insert_ne, Hth.
      * apply list_elem_of_singleton in Hv as ->. eexists. cbn.
        rewrite lookup_insert_ne, lookup_insert_eq by done. split; [done|]. cbn.
        subst x1. cbn. split; [done|]. split; [done|lia].
  - rewrite Hy. by destruct y; cbn in *; subst.
  - intros v yv Hvt Hvu Hv. cbn. by rewrite !lookup_insert_ne, Hth.
Qed.

(** The ticks that the slices of the threads [us] take. *)
Definition slices k (us : list Z) : nat :=
  list_sum (map (λ u, match threads k !! u with
                      | Some y => Z.to_nat (_totalTicks y) | None => O end) us).

(** C29. Round robin: from the start of a slice of [t], with the other threads of
    the queue ready in ring order [us ++ u :: vs], the thread [u] gets the CPU
    after exactly the slices of [t] and of [us] have passed; then [vs], [t] and
    [us] are waiting in this order. So no ready thread of the running priority
    starves. *)
Theorem schedule_round_robin k Q t x l us u vs :
  rr k Q t x l (us ++ u :: vs) →
  ∃ k' y, ticks (slices k (t :: us)) k = Ok ((), k') ∧
    _curThread k' = Some (Thr u) ∧ rr k' Q u y l (vs ++ t :: us).
Proof.
  revert k t x vs. induction us as [|v us IH]; intros k t x vs Hrr.
  - destruct (rr_slice k Q t x l u vs Hrr) as (k' & y & Hrun & Hrr' & _ & _).
    exists k', y. unfold slices. cbn.
    rewrite (run_thr _ _ _ _ _ (rr_running _ _ _ _ _ _ Hrr)), Nat.add_0_r.
    split; [done|]. split; [|done]. by destruct Hrr' as [[]].
  - cbn [app] in Hrr. pose proof Hrr as [_ _ _ Hready].
    pose proof (rr_nodup _ _ _ _ _ _ Hrr) as Hnd.
    destruct (rr_slice k Q t x l v (us ++ u :: vs) Hrr) as (k1 & y1 & Hrun1 & Hrr1 & Hv & Hfr).
    rewrite <- app_assoc in Hrr1. cbn in Hrr1.
    destruct (IH k1 v y1 (vs ++ [t]) Hrr1) as (k' & y & Hrun & Hc & Hrr').
    exists k', y. split; [|split; [done|by rewrite <- app_assoc in Hrr']].
    assert (slices k (t :: v :: us) = Z.to_nat (_totalTicks x) + slices k1 (v :: us))%nat as ->.
    { unfold slices. cbn. rewrite (run_thr _ _ _ _ _ (rr_running _ _ _ _ _ _ Hrr)), Hv.
      rewrite (run_thr _ _ _ _ _ (rr_running _ _ _ _ _ _ Hrr1)). do 2 f_equal. cbn.
      f_equal. apply map_ext_in. intros w Hw. apply list_elem_of_In in Hw.
      apply NoDup_cons in Hnd as [Ht Hnd]. apply NoDup_cons in Hnd as [Hvn Hnd].
      destruct (Hready w ltac:(set_solver)) as (yw & Hyw & _).
      rewrite Hyw, (Hfr w yw); [done|set_solver|set_solver|done]. }
    by rewrite (ticks_app _ _ _ _ Hrun1).
Qed.

(** ** Starting up *)

(** The storage of the scheduler: the array of queues, the threads and all their
    nodes, with any contents. *)
Record storage k : Prop := {
  st_cursor q : 0 ≤ q ≤ MaxPriority → is_Some (_curNodeInGroup k !! q);
  st_node q : 0 ≤ q ≤ MaxPriority → is_Some (nodes k !! PrioHdr q);
  st_thread t x : threads k !! t = Some x →
    is_Some (nodes k !! Thr t) ∧ 0 ≤ _priority x ≤ MaxPriority
}.

(** The first [n] queues are empty rings with the cursor on the header. *)
Definition empty_queues (n : nat) : gmap knode (list knode) :=
  list_to_map (map (λ i, (PrioHdr (Z.of_nat i), [])) (seq 0 n)).

Lemma empty_queues_lookup n y :
  empty_queues n !! y =
  match y with
  | PrioHdr q => if decide (0 ≤ q < Z.of_nat n) then Some [] else None
  | _ => None
  end.
Proof.
  unfold empty_queues. destruct (list_to_map _ !! y) as [l|] eqn:E.
  - apply elem_of_list_to_map_2, list_elem_of_fmap in E as (i & [= -> ->] & Hi).
    apply elem_of_seq in Hi. by rewrite decide_True by lia.
  - apply not_elem_of_list_to_map_2 in E.
    destruct y as [q| | |]; try done. case_decide as Hq; [|done]. destruct E.
    apply list_elem_of_fmap. exists (PrioHdr q, []). split; [done|].
    apply list_elem_of_fmap. exists (Z.to_nat q). split; [by rewrite Z2Nat.id by lia|].
    apply elem_of_seq. lia.
Qed.

Lemma empty_queues_S n :
  empty_queues (S n) = <[PrioHdr (Z.of_nat n) := []]> (empty_queues n).
Proof.
  apply map_eq. intros y. rewrite empty_queues_lookup, lookup_insert, empty_queues_lookup.
  case_decide as E.
  - subst. by rewrite decide_True by lia.
  - destruct y as [q| | |]; [|done..].
    destruct (decide (0 ≤ q < Z.of_nat n)); [by rewrite decide_True by lia|].
    rewrite decide_False; [done|]. intros Hq. apply E. f_equal. lia.
Qed.

Lemma init_queues_S n i :
  init_queues (S n) i =
    (set_cursor i (Some (PrioHdr i));; p ← cursor i;
     on_nodes (initRingDoubleList p);; init_queues n (i + 1)).
Proof. done. Qed.

(** The lists beside the run queues: of other headers, with threads only. *)
Record beside_queues (B : gmap knode (list knode)) k : Prop := {
  bq_queue q : B !! PrioHdr q = None;
  bq_linked hd l y : B !! hd = Some l → y ∈ l → ∃ t x, y = Thr t ∧ threads k !! t = Some x;
  bq_header hd l t : B !! hd = Some l → hd ≠ Thr t
}.

Lemma beside_none k : beside_queues ∅ k.
Proof. split; intros *; by rewrite ?lookup_empty. Qed.

Lemma rings_none (h : gmap knode (node knode)) : rings h ∅.
Proof. split; intros *; by rewrite lookup_empty. Qed.

Lemma over_queue B k n q : beside_queues B k → (empty_queues n ∪ B) !! PrioHdr q = if decide (0 ≤ q < Z.of_nat n) then Some [] else None.
Proof.
  intros H. rewrite lookup_union, empty_queues_lookup, (bq_queue _ _ H). by case_decide.
Qed.

Lemma over_other B n hd : (∀ q, hd ≠ PrioHdr q) → (empty_queues n ∪ B) !! hd = B !! hd.
Proof.
  intros H. rewrite lookup_union, empty_queues_lookup. destruct hd as [q| | |]; [by destruct (H q)|..]; by rewrite (left_id None _).
Qed.

Lemma over_inv B n hd l : (empty_queues n ∪ B) !! hd = Some l → (l = [] ∧ ∃ q, hd = PrioHdr q ∧ 0 ≤ q < Z.of_nat n) ∨ B !! hd = Some l.
Proof.
  rewrite lookup_union, empty_queues_lookup. destruct hd as [q| | |]; [|rewrite (left_id None _); by right..].
  case_decide; [|rewrite (left_id None _); by right]. destruct (B !! PrioHdr q); intros [= <-]; eauto.
Qed.

Lemma init_queues_run B n i : ∀ k,
  (n + i = 256)%nat → storage k → beside_queues B k → rings (nodes k) (empty_queues i ∪ B) →
  (∀ q, 0 ≤ q < Z.of_nat i → _curNodeInGroup k !! q = Some (Some (PrioHdr q))) →
  ∃ k', init_queues n (Z.of_nat i) k = Ok ((), k') ∧ storage k' ∧
    rings (nodes k') (empty_queues 256 ∪ B) ∧
    (∀ q, 0 ≤ q < 256 → _curNodeInGroup k' !! q = Some (Some (PrioHdr q))) ∧
    ∃ h cs, k' = set_cursors cs (set_nodes h k).
Proof.
  revert i. induction n as [|n IH]; intros i k Hi Hst HB Hr Hc.
  - assert (i = 256%nat) as -> by lia. exists k. repeat (split; [done|]). exists (nodes k), (_curNodeInGroup k). by destruct k.
  - set (q := Z.of_nat i). assert (0 ≤ q ≤ MaxPriority) as Hq by (unfold MaxPriority; lia).
    set (k1 := set_cursors (<[q := Some (PrioHdr q)]> (_curNodeInGroup k)) k).
    destruct (rings_init (nodes k) (empty_queues i ∪ B) (PrioHdr q)) as (h' & Hrun & Hr' & Hs).
    { done. }
    { rewrite (over_queue B k) by done. apply decide_False. lia. }
    { intros hd l [(-> & q' & -> & Hq')|Hl]%over_inv.
      - intros Hin%list_elem_of_singleton. simplify_eq. lia.
      - intros [<-|Hin]%elem_of_cons; [by rewrite (bq_queue _ _ HB) in Hl|].
        by destruct (bq_linked _ _ HB _ _ _ Hl Hin) as (t & x & ? & _). }
    { by apply (st_node _ Hst). }
    destruct (IH (S i) (set_nodes h' k1)) as (k' & Hrun' & Hst' & Hr2 & Hc' & h2 & cs2 & ->).
    + lia.
    + split; cbn.
      * intros q' Hq'. destruct (decide (q' = q)) as [->|]; [rewrite lookup_insert_eq; eauto|].
        rewrite lookup_insert_ne by done. by apply Hst.
      * intros q' Hq'. apply Hs. by apply Hst.
      * intros t x Hx. destruct (st_thread _ Hst t x Hx). split; [by apply Hs|done].
    + by destruct HB.
    + by rewrite empty_queues_S, <- insert_union_l.
    + intros q' Hq'. cbn. destruct (decide (q' = q)) as [->|]; [by rewrite lookup_insert_eq|].
      rewrite lookup_insert_ne by done. apply Hc. lia.
    + eexists. split; [|split; [exact Hst'|split; [exact Hr2|split; [exact Hc'|by exists h2, cs2]]]]. rewrite init_queues_S. fold q.
      rewrite (bind_Ok _ _ _ _ _ (set_cursor_run k q _ (st_cursor _ Hst q Hq))). fold k1.
      assert (_curNodeInGroup k1 !! q = Some (Some (PrioHdr q))) as Hcq by apply lookup_insert_eq.
      prog_step (cursor_run k1 q _ Hcq). rewrite (bind_Ok _ _ _ _ _ (on_nodes_run _ k1 _ _ Hrun)).
      replace (q + 1) with (Z.of_nat (S i)) by lia. done.
Qed.

(** The queues are empty, whatever other lists there are. *)
Lemma init_array_run B k :
  storage k → beside_queues B k → rings (nodes k) B → ∃ k', init_array k = Ok ((), k') ∧ wf k' (empty_queues 256 ∪ B) ∧
    (∀ q, 0 ≤ q < 256 → _curNodeInGroup k' !! q = Some (Some (PrioHdr q))) ∧
    ∃ h cs, k' = set_cursors cs (set_nodes h (set_max (-1) None k)).
Proof.
  intros Hst HB Hr. assert (beside_queues B (set_max (-1) None k)) as HB' by (by destruct HB).
  destruct (init_queues_run B 256 0 (set_max (-1) None k)) as (k' & Hrun & Hst' & Hr' & Hc & h & cs & ->); [done|by destruct Hst|done| |lia|].
  - replace (empty_queues 0 ∪ B) with B; [done|]. apply map_eq. intros hd. rewrite lookup_union, empty_queues_lookup.
    destruct hd as [q| | |]; [rewrite decide_False by lia|..]; by rewrite (left_id None _).
  - eexists. split; [exact Hrun|]. split; [|split; [exact Hc|by exists h, cs]]. clear Hrun. split.
    + done.
    + intros q Hq. exists [], (PrioHdr q). rewrite (over_queue B k) by done.
      rewrite decide_True by (unfold MaxPriority in *; lia).
      split; [done|]. split; [apply Hc; unfold MaxPriority in *; lia|].
      by apply elem_of_cons; left.
    + apply Hst'.
    + intros hd l y [(-> & _)|Hl]%over_inv Hy; [by apply not_elem_of_nil in Hy|].
      destruct (bq_linked _ _ HB _ _ _ Hl Hy) as (t & x & -> & Hx). exists t, x. split; [done|]. split; [done|].
      intros q ->. by rewrite (bq_queue _ _ HB) in Hl.
    + intros hd l t [(_ & q & -> & _)|Hl]%over_inv; [done|by eapply bq_header].
Qed.

Lemma start_run k Q t x l :
  wf k Q → _curThread k = Some (Thr t) → threads k !! t = Some x →
  Q !! PrioHdr (_priority x) = Some l → Thr t ∈ l →
  let k' := set_cursors (<[_priority x := Some (Thr t)]> (_curNodeInGroup k))
              (upd_thread t (with_state Running x) k) in
  start k = Ok ((), k') ∧ wf k' Q.
Proof.
  intros H Hc Hx HQ Hin. assert (wf (upd_thread t (with_state Running x) k) Q) as H'
    by by eapply wf_upd_thread.
  split.
  - unfold start. prog_simpl. rewrite Hc. prog_step (upd_thr_run k t x (with_state Running) Hx).
    prog_step (thr_run (upd_thread t (with_state Running x) k) t (with_state Running x)
      ltac:(apply lookup_insert_eq)).
    apply (set_cursor_run (upd_thread t (with_state Running x) k)). cbn.
    destruct (wf_thread _ _ H t x Hx) as [_ Hp].
    destruct (wf_cursor _ _ H _ Hp) as (? & ? & _ & Hcu & _). eauto.
  - apply (wf_set_cursor (upd_thread t (with_state Running x) k) Q _ l); [done|done|set_solver].
Qed.

(** Appending a fresh ready thread to a queue whose cursor is its header. *)
Lemma append_at_header k Q t x l :
  wf k Q → threads k !! t = Some x → _state x = Ready → unlinked Q (Thr t) →
  Q !! PrioHdr (_priority x) = Some l →
  _curNodeInGroup k !! _priority x = Some (Some (PrioHdr (_priority x))) →
  ∃ h', append (Some (Thr t)) k
        = Ok ((), raise_max (_priority x) (Some (Thr t)) (set_nodes h' k)) ∧
    wf (raise_max (_priority x) (Some (Thr t)) (set_nodes h' k))
       (<[PrioHdr (_priority x) := l ++ [Thr t]]> Q).
Proof.
  intros H Hx Hst Hu HQ Hc.
  destruct (append_run k Q t x H Hx Hst Hu) as (h' & l' & c' & Hrun & HQ' & Hc' & _ & Hwf).
  assert (l' = l) as -> by congruence.
  assert (c' = PrioHdr (_priority x)) as -> by congruence.
  exists h'. split; [done|]. unfold ins_before in Hwf. by rewrite decide_True in Hwf.
Qed.

(** *** The idle threads *)

(** The pool of threads is in static storage, so the priorities in it are 0. *)
Record pool k : Prop := {
  pl_header : is_Some (nodes k !! FreeHdr);
  pl_thread t : 0 ≤ t < InherentThreadNum → is_Some (nodes k !! Thr t) ∧ ∃ x, threads k !! t = Some x ∧ _priority x = 0
}.

Definition free_list (F : list Z) : gmap knode (list knode) := {[FreeHdr := map Thr F]}.

Lemma free_list_Some F hd l : free_list F !! hd = Some l → FreeHdr = hd ∧ map Thr F = l.
Proof. apply lookup_singleton_Some. Qed.

Lemma init_pool_run n i : ∀ k, (n + i = 200)%nat → pool k → rings (nodes k) (free_list (seqZ 0 (Z.of_nat i))) →
  ∃ h, init_pool n (Z.of_nat i) k = Ok ((), set_nodes h k) ∧ rings h (free_list (seqZ 0 200)) ∧ same_nodes (nodes k) h.
Proof.
  revert i. induction n as [|n IH]; intros i k Hi Hp Hr.
  - assert (i = 200%nat) as -> by lia. exists (nodes k). split; [by destruct k|]. by split.
  - destruct (rings_addTail (nodes k) _ FreeHdr (map Thr (seqZ 0 (Z.of_nat i))) FreeHdr (Thr (Z.of_nat i)) Hr) as (h1 & Hadd & Hr1 & Hs1).
    { by apply lookup_singleton_eq. } { by left. }
    { intros hd l [<- <-]%free_list_Some. intros [?|Hin]%elem_of_cons; [done|].
      apply list_elem_of_fmap in Hin as (j & [= <-] & Hj%elem_of_seqZ). lia. }
    { apply Hp. unfold InherentThreadNum. lia. }
    destruct (IH (S i) (set_nodes h1 k)) as (h2 & Hrun & Hr2 & Hs2); [lia| | |].
    + destruct Hp as [H1 H2]. split; cbn; [by apply Hs1|]. intros t Ht. destruct (H2 t Ht). split; [by apply Hs1|done].
    + cbn. unfold free_list in *. rewrite insert_singleton_eq in Hr1. unfold ins_before in Hr1. rewrite decide_True in Hr1 by done.
      rewrite seqZ_S, map_app. done.
    + exists h2. split; [|split; [done|intros y; rewrite (Hs2 y); apply Hs1]].
      change (init_pool (S n) (Z.of_nat i)) with (on_nodes (addNodeToRingDoubleListTail (Some FreeHdr) (Some (Thr (Z.of_nat i))));; init_pool n (Z.of_nat i + 1)).
      rewrite (bind_Ok _ _ _ _ _ (on_nodes_run _ k _ _ Hadd)). by replace (Z.of_nat i + 1) with (Z.of_nat (S i)) by lia.
Qed.

Lemma tm_init_run k : pool k → ∃ h, tm_init k = Ok ((), set_nodes h (set_used 0 0 k)) ∧ rings h (free_list (seqZ 0 200)) ∧ same_nodes (nodes k) h.
Proof.
  intros Hp. destruct (rings_init (nodes k) ∅ FreeHdr) as (h1 & Hini & Hr1 & Hs1).
  { split; intros *; by rewrite lookup_empty. } { done. } { intros hd l. by rewrite lookup_empty. } { apply Hp. }
  destruct (init_pool_run 200 0 (set_nodes h1 (set_used 0 0 k))) as (h2 & Hrun & Hr2 & Hs2); [done| |exact Hr1|].
  - destruct Hp as [H1 H2]. split; cbn; [by apply Hs1|]. intros t Ht. destruct (H2 t Ht). split; [by apply Hs1|done].
  - exists h2. split; [|split; [done|intros y; rewrite (Hs2 y); apply Hs1]].
    unfold tm_init. prog_simpl. by rewrite (bind_Ok _ _ _ _ _ (on_nodes_run _ (set_used 0 0 k) _ _ Hini)).
Qed.

Definition fresh_thread (q : Z) : thread := mkThread Ready q 0 10 None.

Lemma allocateThread_run k Q t F : wf k Q → Q !! FreeHdr = Some (map Thr (t :: F)) →
  ∃ h c m, allocateThread k = Ok (Some (Thr t), set_used c m (set_nodes h k)) ∧ c = u32 (_curUsedThreadNum k + 1) ∧
    m = Z.max (_maxUsedThreadNum k) c ∧ wf (set_nodes h k) (<[FreeHdr := map Thr F]> Q) ∧ unlinked (<[FreeHdr := map Thr F]> Q) (Thr t).
Proof.
  intros H HQ. pose proof (proj1 (wf_rings _ _ H) _ _ HQ) as Hring.
  destruct (node_of_run (nodes k) FreeHdr) as (n & Hn & Hnext & _); [eapply ring_mapped; [exact Hring|by left]|].
  assert (next n = Some (Thr t)) as Hnx by (rewrite (ring_first _ _ _ Hring) in Hnext; by injection Hnext as <-).
  destruct (rings_del _ _ _ [] (Thr t) (map Thr F) (wf_rings _ _ H) HQ) as (h & Hdel & Hr & Hs & _ & _ & Hu). cbn [app] in *.
  exists h, (u32 (_curUsedThreadNum k + 1)). eexists. split; [|split; [done|split; [done|split; [|done]]]].
  - unfold allocateThread. assert (on_nodes (node_of (Some FreeHdr)) k = Ok (n, k)) as Hon by (rewrite (on_nodes_run _ k _ _ Hn); by destruct k).
    prog_step Hon. rewrite Hnx, bool_decide_true by done. cbn [assert_]. prog_simpl. prog_step (on_nodes_run _ k _ _ Hdel).
    cbn [_curUsedThreadNum _maxUsedThreadNum set_nodes]. do 2 f_equal. f_equal. destruct (Z.ltb_spec (_maxUsedThreadNum k) (u32 (_curUsedThreadNum k + 1))); lia.
  - assert (set_nodes h k = set_cursors (_curNodeInGroup k) (set_nodes h k)) as -> by done.
    eapply wf_change; [exact H|exact HQ|exact Hr|exact Hs| |done|done]. intros y Hy. left. cbn. by right.
Qed.

Lemma create_idle_run k Q t x F P :
  wf k Q → Q !! FreeHdr = Some (map Thr (t :: F)) → threads k !! t = Some x → _priority x = 0 →
  Q !! PrioHdr 0 = Some (map Thr P) → _curNodeInGroup k !! 0 = Some (Some (PrioHdr 0)) →
  ring (procNodes k) (ProcHdr 0) (map ProcThr P) → is_Some (procNodes k !! ProcThr t) →
  ∃ h hp m, let k' := raise_max 0 (Some (Thr t)) (set_nodes h (set_procNodes hp (set_cur (Some (Thr t))
                  (upd_thread t (with_proc (Some 0) (fresh_thread 0)) (set_used (u32 (_curUsedThreadNum k + 1)) m k))))) in
    create_idle k = Ok ((), k') ∧ wf k' (<[PrioHdr 0 := map Thr (P ++ [t])]> (<[FreeHdr := map Thr F]> Q)) ∧
    ring hp (ProcHdr 0) (map ProcThr (P ++ [t])) ∧ same_nodes (procNodes k) hp.
Proof.
  intros H HQ Hx Hp0 HQ0 Hcu Hpr Hpm. destruct (allocateThread_run k Q t F H HQ) as (h1 & c & m & Hal & -> & _ & Hwf1 & Hu1).
  set (c := u32 _) in *. set (Q1 := <[FreeHdr := map Thr F]> Q) in *. set (k1 := set_used c m (set_nodes h1 k)) in *.
  set (k2 := upd_thread t (fresh_thread 0) k1). set (k3 := set_cur (Some (Thr t)) k2). set (y := with_proc (Some 0) (fresh_thread 0)).
  set (k4 := upd_thread t y k3).
  assert (ProcThr t ∉ ProcHdr 0 :: map ProcThr P) as Hnew.
  { intros [?|Hin]%elem_of_cons; [done|]. apply list_elem_of_fmap in Hin as (u & [= <-] & Hin).
    apply (wf_disjoint k Q FreeHdr _ (PrioHdr 0) _ t H HQ HQ0); [done|by left|by apply list_elem_of_fmap_2]. }
  destruct (addTail_spec (procNodes k) (ProcHdr 0) (map ProcThr P) (ProcThr t) Hpr Hnew Hpm) as (hp & Hadd & Hpr' & Hps & _).
  set (k5 := set_procNodes hp k4).
  assert (wf k5 Q1) as Hwf5.
  { apply (wf_same (upd_thread t y (upd_thread t (fresh_thread 0) (set_nodes h1 k)))); [|done|done|cbn; eauto..].
    eapply wf_upd_thread; [eapply wf_upd_thread; [exact Hwf1|exact Hx|by rewrite Hp0]|apply lookup_insert_eq|done]. }
  destruct (append_at_header k5 Q1 t y (map Thr P) Hwf5) as (h2 & Happ & Hwf2); [apply lookup_insert_eq|done|done|by unfold Q1; rewrite lookup_insert_ne|done|].
  exists h2, hp, m. cbv zeta. rewrite !map_app. split; [|split; [|split; [exact Hpr'|exact Hps]]].
  - unfold create_idle, createThread. prog_simpl. prog_step Hal. rewrite bool_decide_true by done. cbn [when].
    rewrite (bind_Ok _ _ _ _ _ (upd_thr_run k1 t x _ Hx)). rewrite Hp0. prog_simpl. unfold addThread. prog_simpl.
    prog_step (thr_run k3 t (fresh_thread 0) ltac:(apply lookup_insert_eq)). rewrite bool_decide_true by done. cbn [when].
    prog_step (upd_thr_run k3 t (fresh_thread 0) (with_proc (Some 0)) ltac:(apply lookup_insert_eq)).
    rewrite (bind_Ok _ _ _ _ _ (zoom_Ok procNodes set_procNodes _ k4 _ _ Hadd)). fold k5. rewrite Happ. do 2 f_equal.
    unfold k5, k4, k3, k2, k1, raise_max, upd_thread. cbn. by rewrite insert_insert_eq.
  - revert Hwf2. unfold k5, k4, k3, k2, k1, raise_max, upd_thread. cbn. by rewrite insert_insert_eq.
Qed.

(** The state that the boot leaves: the idle threads 0 and 1 in the queue of the priority 0. *)
Definition boot_queues : gmap knode (list knode) :=
  <[PrioHdr 0 := map Thr [0; 1]]> (<[FreeHdr := map Thr (seqZ 2 198)]> (empty_queues 256)).

Definition idle_thread : thread := mkThread Ready 0 0 10 (Some 0).

Lemma start_up_run k : storage k → pool k → ring (procNodes k) (ProcHdr 0) [] → is_Some (procNodes k !! ProcThr 0) → is_Some (procNodes k !! ProcThr 1) →
  ∃ k', (tm_init;; init) k = Ok ((), k') ∧ wf k' boot_queues ∧ _curThread k' = Some (Thr 1) ∧ _maxPrio k' = 0 ∧
    _higherPriorityThread k' = Some (Thr 0) ∧ threads k' = <[1 := idle_thread]> (<[0 := idle_thread]> (threads k)) ∧
    _curUsedThreadNum k' = 2 ∧ ring (procNodes k') (ProcHdr 0) (map ProcThr [0; 1]).
Proof.
  intros Hst Hpl Hpr P0 P1. destruct (tm_init_run k Hpl) as (h & Htm & Hr & Hs). set (k0 := set_nodes h (set_used 0 0 k)) in *.
  assert (storage k0) as Hst0.
  { destruct Hst as [S1 S2 S3]. split; [done|intros q Hq; by apply Hs, S2|]. intros t x Hx. destruct (S3 t x Hx). split; [by apply Hs|done]. }
  assert (beside_queues (free_list (seqZ 0 200)) k0) as HB.
  { split; [intros q; by apply lookup_singleton_ne|intros hd l y|by intros hd l t [<- _]%free_list_Some]. intros [<- <-]%free_list_Some Hy.
    apply list_elem_of_fmap in Hy as (t & -> & Ht%elem_of_seqZ). destruct (pl_thread _ Hpl t) as [_ (x & Hx & _)]; [unfold InherentThreadNum; lia|]. by exists t, x. }
  destruct (init_array_run _ k0 Hst0 HB Hr) as (k1 & Hini & Hwf1 & Hc1 & h1 & cs & ->). set (k1 := set_cursors _ _) in *.
  destruct (pl_thread _ Hpl 0) as [_ (x0 & Hx0 & Hq0)]; [done|]. destruct (pl_thread _ Hpl 1) as [_ (x1 & Hx1 & Hq1)]; [done|].
  destruct (create_idle_run k1 _ 0 x0 (seqZ 1 199) [] Hwf1) as (h2 & hp2 & m2 & Hrun2 & Hwf2 & Hpr2 & Hps2).
  { by rewrite over_other. } { exact Hx0. } { exact Hq0. } { by rewrite (over_queue _ k0). } { by apply Hc1. } { exact Hpr. } { exact P0. }
  set (k2 := raise_max _ _ _) in *.
  destruct (create_idle_run k2 _ 1 x1 (seqZ 2 198) [0] Hwf2) as (h3 & hp3 & m3 & Hrun3 & Hwf3 & Hpr3 & _).
  { by rewrite lookup_insert_ne, lookup_insert_eq. } { cbn. by rewrite lookup_insert_ne. } { exact Hq1. } { by rewrite lookup_insert_eq. }
  { by apply Hc1. } { exact Hpr2. } { by apply Hps2. }
  match type of Hrun3 with _ = Ok ((), ?K) => exists K end. split; [|split; [|split; [reflexivity|split; [reflexivity|split; [reflexivity|split; [reflexivity|split; [reflexivity|exact Hpr3]]]]]]].
  - unfold init. rewrite (bind_Ok _ _ _ _ _ Htm), (bind_Ok _ _ _ _ _ Hini), (bind_Ok _ _ _ _ _ Hrun2). exact Hrun3.
  - replace boot_queues with (<[PrioHdr 0 := map Thr [0; 1]]> (<[FreeHdr := map Thr (seqZ 2 198)]> (<[PrioHdr 0 := map Thr [0]]>
      (<[FreeHdr := map Thr (seqZ 1 199)]> (empty_queues 256 ∪ free_list (seqZ 0 200)))))); [exact Hwf3|].
    apply map_eq. intros hd. unfold boot_queues. rewrite !lookup_insert. repeat case_decide; try done.
    rewrite lookup_union. unfold free_list. rewrite lookup_singleton_ne by done. by rewrite (right_id None _).
Qed.

(** C13. The run queues. At the boot, after [ThreadManager::init], [Scheduler::init] leaves all
    queues empty but that of the priority 0, which has the two idle threads; the second is the
    current thread, the first the candidate of the highest priority, both are in the root
    process and the other threads are in the free list. From then on
    [append] and [push] link a ready, unlinked thread before and after the cursor
    of its priority's queue and raise [_maxPrio] to its priority if that is
    greater; [remove] unlinks a thread and moves the cursor to its successor;
    all keep the invariant, and none touches another queue. *)
Theorem run_queue_spec :
  (∀ k, storage k → pool k → ring (procNodes k) (ProcHdr 0) [] → is_Some (procNodes k !! ProcThr 0) → is_Some (procNodes k !! ProcThr 1) →
   ∃ k', (tm_init;; init) k = Ok ((), k') ∧ wf k' boot_queues ∧ _curThread k' = Some (Thr 1) ∧ _maxPrio k' = 0 ∧
     _higherPriorityThread k' = Some (Thr 0) ∧ threads k' = <[1 := idle_thread]> (<[0 := idle_thread]> (threads k)) ∧
     _curUsedThreadNum k' = 2 ∧ ring (procNodes k') (ProcHdr 0) (map ProcThr [0; 1])) ∧
  ∀ k Q t x, wf k Q → threads k !! t = Some x →
    let q := _priority x in let hd := PrioHdr q in
    (_state x = Ready → unlinked Q (Thr t) →
     ∃ l c, Q !! hd = Some l ∧ _curNodeInGroup k !! q = Some (Some c) ∧
       (∃ k', append (Some (Thr t)) k = Ok ((), k') ∧
          wf k' (<[hd := ins_before hd c (Thr t) l]> Q) ∧
          _maxPrio k' = Z.max (_maxPrio k) q ∧ _curNodeInGroup k' = _curNodeInGroup k) ∧
       (∃ k', push (Some (Thr t)) k = Ok ((), k') ∧
          wf k' (<[hd := ins_after hd c (Thr t) l]> Q) ∧
          _maxPrio k' = Z.max (_maxPrio k) q ∧ _curNodeInGroup k' = _curNodeInGroup k)) ∧
    (∀ l1 l2, Q !! hd = Some (l1 ++ Thr t :: l2) →
     ∃ k', remove (Some (Thr t)) k = Ok ((), k') ∧ wf k' (<[hd := l1 ++ l2]> Q) ∧
       unlinked (<[hd := l1 ++ l2]> Q) (Thr t) ∧
       _curNodeInGroup k' !! q = Some (Some (default hd (head l2)))).
Proof.
  split; [apply start_up_run|].
  assert (∀ q p k, _maxPrio (raise_max q p k) = Z.max (_maxPrio k) q ∧
    _curNodeInGroup (raise_max q p k) = _curNodeInGroup k) as Hmax.
  { intros q p k. unfold raise_max. destruct (Z.ltb_spec (_maxPrio k) q); cbn; split; (done || lia). }
  intros k Q t x H Hx q hd. split.
  - intros Hst Hu.
    destruct (append_run k Q t x H Hx Hst Hu) as (h1 & l & c & Hrun & HQ & Hc & _ & Hwf).
    destruct (push_run k Q t x H Hx Hst Hu) as (h2 & l' & c' & Hrun' & HQ' & Hc' & _ & Hwf').
    assert (l' = l) as -> by congruence. assert (c' = c) as -> by congruence.
    pose proof (Hmax q (Some (Thr t)) (set_nodes h1 k)).
    pose proof (Hmax q (Some (Thr t)) (set_nodes h2 k)).
    exists l, c. split; [done|]. split; [done|]. split; eauto.
  - intros l1 l2 HQ. destruct (remove_run k Q t x l1 l2 H Hx HQ) as (h' & Hrun & Hwf & Hu & _).
    eexists. split; [done|]. split; [done|]. split; [done|]. apply lookup_insert_eq.
Qed.

(** ** Witnesses *)

(** Three ready threads of priority 5 with slices of two ticks, and the storage
    of the scheduler. *)
Definition sample_thread : thread := mkThread Ready 5 0 2 None.

Definition sample_kernel : kernel :=
  mkKernel
    (list_to_map (map (λ i, (PrioHdr (Z.of_nat i), Node None None)) (seq 0 256) ++
                  [(Thr 1, Node None None); (Thr 2, Node None None); (Thr 3, Node None None)]))
    (list_to_map [(1, sample_thread); (2, sample_thread); (3, sample_thread)])
    (list_to_map (map (λ i, (Z.of_nat i, None)) (seq 0 256)))
    0 None (Some (Thr 1)) ∅ 0 0.

Lemma sample_storage : storage sample_kernel.
Proof.
  split.
  - intros q Hq. cbn [sample_kernel _curNodeInGroup]. apply elem_of_dom.
    rewrite dom_list_to_map_L. apply elem_of_list_to_set, list_elem_of_fmap.
    exists (q, None). split; [done|]. apply list_elem_of_fmap. exists (Z.to_nat q).
    split; [by rewrite Z2Nat.id by lia|]. apply elem_of_seq. unfold MaxPriority in *. lia.
  - intros q Hq. cbn [sample_kernel nodes]. apply elem_of_dom.
    rewrite dom_list_to_map_L. apply elem_of_list_to_set, list_elem_of_fmap.
    exists (PrioHdr q, Node None None). split; [done|]. apply elem_of_app. left.
    apply list_elem_of_fmap. exists (Z.to_nat q).
    split; [by rewrite Z2Nat.id by lia|]. apply elem_of_seq. unfold MaxPriority in *. lia.
  - intros t x Hx. apply elem_of_list_to_map_2 in Hx.
    repeat (apply elem_of_cons in Hx as [[= -> ->]|Hx];
      [split; [vm_compute; eexists; reflexivity|split; discriminate]|]).
    by apply elem_of_nil in Hx.
Qed.

Lemma empty_queues_unlinked n t : unlinked (empty_queues n) (Thr t).
Proof.
  intros hd l Hl. rewrite empty_queues_lookup in Hl. destruct hd; [|done..].
  case_decide; [|done]. simplify_eq. by intros Hin%list_elem_of_singleton.
Qed.

(** Three threads of priority 5, appended in turn, share the CPU round robin. *)
Lemma three_threads_rr k :
  storage k → _curThread k = Some (Thr 1) →
  (∀ t, t = 1 ∨ t = 2 ∨ t = 3 → threads k !! t = Some sample_thread) →
  ∃ k' Q l, (init_array;; append (Some (Thr 1));; append (Some (Thr 2));;
             append (Some (Thr 3));; start) k = Ok ((), k') ∧
    rr k' Q 1 (with_state Running sample_thread) l [2; 3] ∧
    threads k' !! 2 = Some sample_thread.
Proof.
  intros Hst Hc Hthr.
  destruct (init_array_run ∅ k Hst (beside_none k) (rings_none _)) as (k0 & Hrun0 & H0 & _ & h0 & cs0 & E0).
  rewrite (right_id_L ∅ (∪)) in H0.
  assert (threads k0 = threads k ∧ _maxPrio k0 = -1 ∧ _curThread k0 = Some (Thr 1)) as (Ht0 & Hm0 & Hc0) by (by subst k0).
  clear E0. rewrite <- Ht0 in Hthr.
  pose proof (empty_queues_unlinked 256) as Hun0.
  destruct (wf_cursor _ _ H0 5 ltac:(unfold MaxPriority; lia)) as (l0 & c0 & HQ0 & Hcu0 & Hin0).
  rewrite empty_queues_lookup, decide_True in HQ0 by lia. simplify_eq.
  apply list_elem_of_singleton in Hin0 as ->.
  set (Q0 := empty_queues 256) in *.
  assert (Q0 !! PrioHdr 5 = Some []) as HQ0.
  { unfold Q0. rewrite empty_queues_lookup. by rewrite decide_True by lia. }
  clearbody Q0.
  set (hd := PrioHdr 5) in *.
  destruct (append_at_header k0 Q0 1 sample_thread [] H0 (Hthr 1 ltac:(tauto)) eq_refl
    (Hun0 1) HQ0 Hcu0) as (h1 & Hrun1 & H1).
  set (k1 := raise_max _ _ (set_nodes h1 k0)) in *.
  assert (_maxPrio k1 = 5 ∧ _curNodeInGroup k1 = _curNodeInGroup k0 ∧ threads k1 = threads k0 ∧
    _curThread k1 = _curThread k0) as (Hm1 & Hcu1 & Ht1 & Hc1).
  { unfold k1, raise_max. cbn [_maxPrio set_nodes]. rewrite Hm0. done. }
  clearbody k1.
  assert (∀ k h t, _maxPrio k = 5 →
    raise_max (_priority sample_thread) (Some (Thr t)) (set_nodes h k) = set_nodes h k) as Hno.
  { intros k' h t Hm. unfold raise_max. cbn [_maxPrio set_nodes]. by rewrite Hm. }
  destruct (append_at_header k1 _ 2 sample_thread [Thr 1] H1) as (h2 & Hrun2 & H2);
    [by rewrite Ht1; apply Hthr; tauto|done| |apply lookup_insert_eq|by rewrite Hcu1|].
  { intros hd' l'. rewrite lookup_insert. case_decide; [|by apply Hun0].
    intros [= <-]. subst. cbn. set_solver. }
  rewrite Hno in Hrun2, H2 by done. set (k2 := set_nodes h2 k1) in *.
  destruct (append_at_header k2 _ 3 sample_thread [Thr 1; Thr 2] H2) as (h3 & Hrun3 & H3);
    [by cbn; rewrite Ht1; apply Hthr; tauto|done| |apply lookup_insert_eq|by cbn; rewrite Hcu1|].
  { rewrite insert_insert_eq. intros hd' l'. rewrite lookup_insert. case_decide; [|by apply Hun0].
    intros [= <-]. subst. cbn. set_solver. }
  rewrite Hno in Hrun3, H3 by done. set (k3 := set_nodes h3 k2) in *.
  cbn [app] in H3. rewrite !insert_insert_eq in H3.
  destruct (start_run k3 _ 1 sample_thread [Thr 1; Thr 2; Thr 3] H3) as [Hrun4 H4].
  { cbn. by rewrite Hc1, Hc0. } { cbn. rewrite Ht1. apply Hthr. tauto. }
  { apply lookup_insert_eq. } { set_solver. }
  eexists _, _, [Thr 1; Thr 2; Thr 3]. split; [|split].
  - rewrite (bind_Ok _ _ _ _ _ Hrun0), (bind_Ok _ _ _ _ _ Hrun1), (bind_Ok _ _ _ _ _ Hrun2),
      (bind_Ok _ _ _ _ _ Hrun3). exact Hrun4.
  - split; [split|done|done|]; cbn.
    + exact H4.
    + by rewrite Hc1, Hc0.
    + apply lookup_insert_eq.
    + done.
    + done.
    + apply lookup_insert_eq.
    + set_solver.
    + apply lookup_insert_eq.
    + lia.
    + intros u Hu. exists sample_thread.
      assert (u = 2 ∨ u = 3) as [-> | ->] by set_solver;
        rewrite lookup_insert_ne, Ht1 by done; repeat split; try lia; apply Hthr; tauto.
  - cbn. rewrite lookup_insert_ne, Ht1 by done. apply Hthr. tauto.
Qed.

(** The storage at the boot: the pool and the header of the root process, all zero. *)
Definition zero_thread : thread := mkThread Stopped 0 0 0 None.
Definition boot_kernel : kernel :=
  mkKernel
    (list_to_map ((FreeHdr, Node None None) :: map (λ i, (PrioHdr (Z.of_nat i), Node None None)) (seq 0 256) ++
                  map (λ i, (Thr (Z.of_nat i), Node None None)) (seq 0 200)))
    (list_to_map (map (λ i, (Z.of_nat i, zero_thread)) (seq 0 200)))
    (list_to_map (map (λ i, (Z.of_nat i, None)) (seq 0 256)))
    0 None None
    (list_to_map ((ProcHdr 0, Node (Some (ProcHdr 0)) (Some (ProcHdr 0))) :: map (λ i, (ProcThr (Z.of_nat i), Node None None)) (seq 0 200)))
    0 0.

Lemma boot_all (P : Z → Prop) `{!∀ z, Decision (P z)} n : forallb (λ z, bool_decide (P z)) (seqZ 0 n) = true → ∀ z, 0 ≤ z < n → P z.
Proof. intros Hall z Hz. apply (bool_decide_eq_true_1 (P z)). apply (proj1 (forallb_forall _ _) Hall), list_elem_of_In, elem_of_seqZ. lia. Qed.

Lemma boot_thread t x : threads boot_kernel !! t = Some x → 0 ≤ t < 200 ∧ x = zero_thread.
Proof.
  intros Hx%elem_of_list_to_map_2. apply list_elem_of_fmap in Hx as (i & [= -> ->] & Hi%elem_of_seq). split; [lia|done].
Qed.

Lemma boot_nodes t : 0 ≤ t < 200 → is_Some (nodes boot_kernel !! Thr t).
Proof. apply (boot_all (λ t, is_Some (nodes boot_kernel !! Thr t)) 200). by vm_compute. Qed.

Lemma boot_storage : storage boot_kernel.
Proof.
  split.
  - intros q Hq. apply (boot_all (λ q, is_Some (_curNodeInGroup boot_kernel !! q)) 256); [by vm_compute|unfold MaxPriority in Hq; lia].
  - intros q Hq. apply (boot_all (λ q, is_Some (nodes boot_kernel !! PrioHdr q)) 256); [by vm_compute|unfold MaxPriority in Hq; lia].
  - intros t x [Ht ->]%boot_thread. split; [by apply boot_nodes|done].
Qed.

Lemma boot_pool : pool boot_kernel.
Proof.
  split; [eexists; vm_compute; reflexivity|]. intros t Ht. split; [by apply boot_nodes|]. exists zero_thread. split; [|done].
  apply (boot_all (λ t, threads boot_kernel !! t = Some zero_thread) 200); [by vm_compute|exact Ht].
Qed.

Lemma boot_root : ring (procNodes boot_kernel) (ProcHdr 0) [].
Proof. split; [split; vm_compute; reflexivity|apply NoDup_singleton]. Qed.

Example run_queue_spec_witness :
  ∃ k', (tm_init;; init) boot_kernel = Ok ((), k') ∧ wf k' boot_queues ∧ _curThread k' = Some (Thr 1).
Proof.
  destruct run_queue_spec as [Hboot _].
  destruct (Hboot boot_kernel boot_storage boot_pool boot_root ltac:(eexists; vm_compute; reflexivity) ltac:(eexists; vm_compute; reflexivity)) as (k' & H1 & H2 & H3 & _).
  exists k'. split; [exact H1|split; [exact H2|exact H3]].
Defined.

Example schedule_round_robin_witness :
  ∃ k0 k', (init_array;; append (Some (Thr 1));; append (Some (Thr 2));;
            append (Some (Thr 3));; start) sample_kernel = Ok ((), k0) ∧
    ticks 4 k0 = Ok ((), k') ∧ _curThread k' = Some (Thr 3).
Proof.
  destruct (three_threads_rr sample_kernel sample_storage eq_refl)
    as (k0 & Q & l & Hrun & Hrr & Ht2);
    [intros t [-> | [-> | ->]]; reflexivity|].
  destruct (schedule_round_robin k0 Q 1 (with_state Running sample_thread) l [2] 3 [] Hrr)
    as (k' & y & Hticks & Hc & _).
  exists k0, k'. split; [exact Hrun|]. split; [|exact Hc].
  replace 4%nat with (slices k0 [1; 2]); [exact Hticks|].
  unfold slices. cbn [map list_sum fold_right].
  rewrite (run_thr _ _ _ _ _ (rr_running _ _ _ _ _ _ Hrr)), Ht2. reflexivity.
Defined.
