(* ===== verification/Sync.v ===== *)
(** * Semaphores and mutexes

    [kernel/src/ipc/semaphore.cpp] and [mutex.cpp] with their classes in
    [include/semaphore.h] and [mutex.h]. The waiters of a semaphore are linked
    through the same [_commList] node that links a thread in its run queue, so the
    operations are modelled on the scheduler's state of [Sched] with the counters
    of the semaphores and the fields of the mutexes beside it.

    The file has three parts: the operations; their refinement of an abstract counting semaphore
    with a FIFO of waiters, [semaphore_refines], and the calls of a mutex on every branch,
    [mutex_spec]; and [lock_does_not_block], which shows where the scheduler does not keep a
    thread that has queued up from running on. [SyncSafety] has the interleaving of threads. *)

From S2P Require Import Prelude DList Sched.

(** ** State *)

Record mutex := mkMutex { _holder : Z; _depth : Z }.

#[global] Instance mutex_eq_dec : EqDecision mutex.
Proof. solve_decision. Defined.

(** [_val] of each semaphore and the fields of each mutex; the mutex [m] embeds
    the semaphore [m]. *)
Record ipc := mkIpc { kern : kernel; vals : gmap Z Z; mutexes : gmap Z mutex }.

Definition set_kern k i := mkIpc k (vals i) (mutexes i).
Definition set_vals v i := mkIpc (kern i) v (mutexes i).
Definition set_mutexes m i := mkIpc (kern i) (vals i) m.

Definition on_kern {A} (m : prog kernel A) : prog ipc A := zoom kern set_kern m.

Definition INVALID : Z := 0xFFFF.

Definition getValue (s : Z) : prog ipc Z := λ i,
  match vals i !! s with Some v => Ok (v, i) | None => Err FUndef end.

(** [_val = v]: the value must be an [s32], signed overflow is undefined. *)
Definition set_val (s v : Z) : prog ipc () := λ i,
  match vals i !! s with
  | Some _ =>
      if (- 2 ^ 31 <=? v) && (v <? 2 ^ 31)
      then Ok ((), set_vals (<[s := v]> (vals i)) i) else Err FUndef
  | None => Err FUndef
  end.

Definition add_val (s d : Z) : prog ipc () := v ← getValue s; set_val s (v + d).

Definition mutex_of (m : Z) : prog ipc mutex := λ i,
  match mutexes i !! m with Some x => Ok (x, i) | None => Err FUndef end.

(** [_depth] is a [sint]: its overflow is undefined. *)
Definition upd_mutex (m : Z) (f : mutex → mutex) : prog ipc () := λ i,
  match mutexes i !! m with
  | Some x =>
      if (- 2 ^ 31 <=? _depth (f x)) && (_depth (f x) <? 2 ^ 31)
      then Ok ((), set_mutexes (<[m := f x]> (mutexes i)) i) else Err FUndef
  | None => Err FUndef
  end.

(** [thread->id()]: the identity of a thread pointer. *)
Definition id_of (p : option knode) : prog ipc Z :=
  match p with Some (Thr t) => mret t | _ => fail FUndef end.

(** ** Semaphore *)

Definition waiters (s : Z) : option knode := Some (SemHdr s).

Definition sem_init (s val : Z) : prog ipc () :=
  set_val s val;;
  on_kern (on_nodes (initRingDoubleList (waiters s))).

Definition sem_clear (s val : Z) : prog ipc () := set_val s val.

Definition blkTaskCount (s : Z) : prog ipc Z :=
  v ← getValue s; mret (if 0 <=? v then 0 else - v).

(** One pass of [lock] from [_Lret] up to the call of the scheduler: [true] when
    the semaphore is taken, [false] when the thread has queued up. *)
Definition lock_pass (s : Z) : prog ipc bool :=
  add_val s (-1);;
  v ← getValue s;
  if v <? 0 then
    i ← get;
    let curThread := _curThread (kern i) in
    on_kern (suspendSelf curThread);;
    n ← on_kern (on_nodes (node_of curThread));
    assert_ (bool_decide (next n = None));;
    on_kern (on_nodes (addNodeToRingDoubleListTail (waiters s) curThread));;
    mret false
  else mret true.

(** [lock]: passes, until one takes a unit ([true]) or the scheduler gives the CPU to another
    thread ([false]). In that case the caller stands before [goto _Lret] and has no other state:
    when it is current again, it goes on as a new call would. [fuel] bounds the passes. *)
Definition lock (fuel : nat) (s : Z) : prog ipc bool :=
  loop fuel (λ _,
    i ← get;
    taken ← lock_pass s;
    if taken : bool then mret (inr true)
    else
      on_kern scheduleInSemaphore;;
      i' ← get;
      mret (if decide (_curThread (kern i') = _curThread (kern i)) then inl () else inr false)) ().

Definition trylock (s : Z) : prog ipc bool :=
  v ← getValue s;
  if 0 <? v then add_val s (-1);; mret true else mret false.

(** The loop [RingList_Foreach_Safe(p, n, &_waiterList)] of [unlock]. *)
Definition unlock_body (s : Z) (pn : option knode * option knode)
  : prog ipc ((option knode * option knode) + ()) :=
  let '(p, n) := pn in
  if decide (p = waiters s) then mret (inr ())
  else
    add_val s 1;;
    on_kern (on_nodes (delNodeFromRingDoubleList p));;
    _ ← id_of p;
    on_kern (wakeup p p);;
    x ← on_kern (on_nodes (node_of n));
    mret (inl (n, next x)).

Definition unlock (s : Z) : prog ipc () :=
  add_val s 1;;
  h ← on_kern (on_nodes (node_of (waiters s)));
  x ← on_kern (on_nodes (node_of (next h)));
  i ← get;
  loop (S (size (nodes (kern i)))) (unlock_body s) (next h, next x).

Definition destroy (s : Z) : prog ipc () := unlock s.

(** ** Mutex *)

Definition mutex_init (m : Z) : prog ipc () :=
  sem_init m 1;;
  upd_mutex m (λ _, mkMutex INVALID 0).

(** The start of [lock] and [trylock]: the caller, and whether it is the holder. *)
Definition mutex_enter (m : Z) : prog ipc (Z * bool) :=
  v ← getValue m;
  assert_ (v <? 2);;
  i ← get;
  t ← id_of (_curThread (kern i));
  x ← mutex_of m;
  mret (t, bool_decide (t = _holder x)).

Definition mutex_own (m t : Z) : prog ipc () := upd_mutex m (λ y, mkMutex t (_depth y)).
Definition mutex_deeper (m : Z) : prog ipc () := upd_mutex m (λ y, mkMutex (_holder y) (_depth y + 1)).

(** [lock] behind [_sem.lock()]. *)
Definition mutex_acquired (m t : Z) : prog ipc () :=
  y ← mutex_of m;
  assert_ ((_holder y =? INVALID) && (_depth y =? 0));;
  mutex_own m t;;
  mutex_deeper m.

(** [lock] from [_sem.lock()] on, by the thread [t]: what it goes on with when it has waited. *)
Definition mutex_wait (fuel : nat) (m t : Z) : prog ipc bool :=
  taken ← lock fuel m;
  when taken (mutex_acquired m t);;
  mret taken.

(** [false] when the caller has lost the CPU inside [_sem.lock()]. *)
Definition mutex_lock (fuel : nat) (m : Z) : prog ipc bool :=
  '(t, own) ← mutex_enter m;
  if own : bool then mutex_deeper m;; mret true else mutex_wait fuel m t.

Definition mutex_trylock (m : Z) : prog ipc bool :=
  '(t, own) ← mutex_enter m;
  if own : bool then mutex_deeper m;; mret true
  else
    res ← trylock m;
    when res (mutex_own m t;; mutex_deeper m);;
    mret res.

(** [unlock] up to [_sem.unlock()], and whether that is to be called. *)
Definition mutex_leave (m : Z) : prog ipc bool :=
  v ← getValue m;
  assert_ (v <? 1);;
  i ← get;
  t ← id_of (_curThread (kern i));
  x ← mutex_of m;
  assert_ (t =? _holder x);;
  assert_ (0 <? _depth x);;
  upd_mutex m (λ y, mkMutex (_holder y) (_depth y - 1));;
  y ← mutex_of m;
  if _depth y =? 0 then mutex_own m INVALID;; mret true else mret false.

Definition mutex_unlock (m : Z) : prog ipc () :=
  last ← mutex_leave m;
  when last (unlock m).

Definition mutex_destroy (m : Z) : prog ipc () :=
  x ← mutex_of m;
  if _depth x <? 0 then
    upd_mutex m (λ _, mkMutex INVALID 0);;
    unlock m
  else mret ().

(** ** The abstract semaphore

    A counter and a FIFO of waiting threads. A waiter counts as a unit that the
    counter owes, and a release wakes all the waiters and gives their units back:
    each of them tries again. *)

Record asem := ASem { a_val : Z; a_waiters : list Z }.

Definition sem_take (t : Z) (a : asem) : bool * asem :=
  if a_val a - 1 <? 0 then (false, ASem (a_val a - 1) (a_waiters a ++ [t]))
  else (true, ASem (a_val a - 1) (a_waiters a)).

Definition sem_try (a : asem) : bool * asem :=
  if 0 <? a_val a then (true, ASem (a_val a - 1) (a_waiters a)) else (false, a).

Definition sem_release (a : asem) : asem :=
  ASem (a_val a + 1 + zlen (a_waiters a)) [].

(** The semaphore [s] of [i] is [a]: its counter, and the ring of its waiters,
    all of them waiting threads. *)
Record sem_rep (i : ipc) (Q : gmap knode (list knode)) (s : Z) (a : asem) : Prop := {
  rep_wf : wf (kern i) Q;
  rep_val : vals i !! s = Some (a_val a);
  rep_ring : Q !! SemHdr s = Some (map Thr (a_waiters a));
  rep_waiting u : u ∈ a_waiters a → ∃ x,
    threads (kern i) !! u = Some x ∧ _state x = Waiting;
  rep_range : - 2 ^ 31 < a_val a ∧ a_val a + 1 + zlen (a_waiters a) < 2 ^ 31
}.

(** ** Running the primitives *)

Lemma on_kern_run {A} (m : prog kernel A) i x k :
  m (kern i) = Ok (x, k) → on_kern m i = Ok (x, set_kern k i).
Proof. apply zoom_Ok. Qed.

Lemma getValue_run i s v : vals i !! s = Some v → getValue s i = Ok (v, i).
Proof. intros H. unfold getValue. by rewrite H. Qed.

Lemma set_val_run i s v v' :
  vals i !! s = Some v → - 2 ^ 31 ≤ v' < 2 ^ 31 →
  set_val s v' i = Ok ((), set_vals (<[s := v']> (vals i)) i).
Proof.
  intros H Hv. unfold set_val. rewrite H.
  rewrite (proj2 (Z.leb_le _ _)), (proj2 (Z.ltb_lt _ _)) by lia. done.
Qed.

Lemma add_val_run i s v d :
  vals i !! s = Some v → - 2 ^ 31 ≤ v + d < 2 ^ 31 →
  add_val s d i = Ok ((), set_vals (<[s := v + d]> (vals i)) i).
Proof.
  intros H Hv. unfold add_val. rewrite (bind_Ok _ _ _ _ _ (getValue_run _ _ _ H)).
  by eapply set_val_run.
Qed.

Lemma mutex_of_run i m x : mutexes i !! m = Some x → mutex_of m i = Ok (x, i).
Proof. intros H. unfold mutex_of. by rewrite H. Qed.

Lemma upd_mutex_run i m x f : mutexes i !! m = Some x → - 2 ^ 31 ≤ _depth (f x) < 2 ^ 31 →
  upd_mutex m f i = Ok ((), set_mutexes (<[m := f x]> (mutexes i)) i).
Proof. intros H Hd. unfold upd_mutex. rewrite H, (proj2 (Z.leb_le _ _)), (proj2 (Z.ltb_lt _ _)) by lia. done. Qed.

Lemma suspendSelf_run k Q t x l1 l2 :
  wf k Q → threads k !! t = Some x → Q !! PrioHdr (_priority x) = Some (l1 ++ Thr t :: l2) →
  let hd := PrioHdr (_priority x) in
  ∃ h', let k' := upd_thread t (with_state Waiting x)
          (set_cursors (<[_priority x := Some (default hd (head l2))]> (_curNodeInGroup k))
             (set_nodes h' k)) in
    suspendSelf (Some (Thr t)) k = Ok ((), k') ∧ wf k' (<[hd := l1 ++ l2]> Q) ∧
    unlinked (<[hd := l1 ++ l2]> Q) (Thr t) ∧ next_of h' (Thr t) = Some None.
Proof.
  intros H Hx HQ hd.
  destruct (remove_run k Q t x l1 l2 H Hx HQ) as (h' & Hrun & Hwf & Hu & Hn).
  exists h'. cbv zeta. split; [|split; [|split; [done|done]]].
  - unfold suspendSelf, suspend. prog_step (thr_run k t x Hx). prog_step (thr_run k t x Hx).
    rewrite Z.leb_refl. cbn [assert_]. prog_simpl.
    rewrite (bind_Ok _ _ _ _ _ Hrun). by apply (upd_thr_run _ t x).
  - by eapply wf_upd_thread.
Qed.

(** ** The operations implement the abstract semaphore *)

(** The current thread [t] of [i] is linked in its run queue. *)
Record current (i : ipc) (Q : gmap knode (list knode)) (t : Z) (x : thread) (l1 l2 : list knode)
  : Prop := {
  cur_is : _curThread (kern i) = Some (Thr t);
  cur_thr : threads (kern i) !! t = Some x;
  cur_queue : Q !! PrioHdr (_priority x) = Some (l1 ++ Thr t :: l2)
}.

Lemma current_not_waiting i Q s a t x l1 l2 :
  sem_rep i Q s a → current i Q t x l1 l2 → t ∉ a_waiters a.
Proof.
  intros Hr [_ _ HQ] Hin.
  apply (wf_disjoint _ _ _ _ _ _ t (rep_wf _ _ _ _ Hr) HQ (rep_ring _ _ _ _ Hr)); [done|set_solver|].
  by apply list_elem_of_fmap_2.
Qed.

Lemma rep_nodup i Q s a : sem_rep i Q s a → NoDup (a_waiters a).
Proof.
  intros [H _ HQ _ _]. pose proof (proj1 (wf_rings _ _ H) _ _ HQ) as [_ [_ Hnd]%NoDup_cons].
  change (NoDup (Thr <$> a_waiters a)) in Hnd. by apply NoDup_fmap_1 in Hnd.
Qed.

Lemma lock_pass_take i Q s a t x l1 l2 :
  sem_rep i Q s a → current i Q t x l1 l2 → 0 < a_val a →
  lock_pass s i = Ok (true, set_vals (<[s := a_val a - 1]> (vals i)) i) ∧
  sem_take t a = (true, ASem (a_val a - 1) (a_waiters a)) ∧
  sem_rep (set_vals (<[s := a_val a - 1]> (vals i)) i) Q s (ASem (a_val a - 1) (a_waiters a)).
Proof.
  intros Hr Hc Hv. pose proof Hr as [Hwf Hval Hring Hwait Hrange].
  assert (vals (set_vals (<[s := a_val a - 1]> (vals i)) i) !! s = Some (a_val a - 1)) as Hval'
    by apply lookup_insert_eq.
  split; [|split].
  - unfold lock_pass. rewrite (bind_Ok _ _ _ _ _ (add_val_run i s _ (-1) Hval ltac:(lia))).
    change (a_val a + -1) with (a_val a - 1).
    rewrite (bind_Ok _ _ _ _ _ (getValue_run _ _ _ Hval')).
    destruct (Z.ltb_spec (a_val a - 1) 0); [lia|done].
  - unfold sem_take. destruct (Z.ltb_spec (a_val a - 1) 0); [lia|done].
  - split; cbn; [done|done|done|done|lia].
Qed.

Lemma lock_pass_block i Q s a t x l1 l2 :
  sem_rep i Q s a → current i Q t x l1 l2 → a_val a ≤ 0 → - 2 ^ 31 < a_val a - 1 →
  let a' := ASem (a_val a - 1) (a_waiters a ++ [t]) in
  let Q' := <[SemHdr s := map Thr (a_waiters a ++ [t])]>
              (<[PrioHdr (_priority x) := l1 ++ l2]> Q) in
  ∃ i', lock_pass s i = Ok (false, i') ∧ sem_take t a = (false, a') ∧ sem_rep i' Q' s a' ∧
    threads (kern i') = <[t := with_state Waiting x]> (threads (kern i)) ∧
    _curThread (kern i') = Some (Thr t) ∧ _maxPrio (kern i') = _maxPrio (kern i) ∧
    _curNodeInGroup (kern i') = <[_priority x := Some (default (PrioHdr (_priority x)) (head l2))]>
      (_curNodeInGroup (kern i)) ∧
    vals i' = <[s := a_val a - 1]> (vals i) ∧ mutexes i' = mutexes i ∧
    _higherPriorityThread (kern i') = _higherPriorityThread (kern i).
Proof.
  intros Hr Hc Hv Hlow a' Q'. pose proof Hr as [Hwf Hval Hring Hwait Hrange].
  pose proof Hc as [Hcur Hx HQ].
  set (k := kern i) in *. set (q := _priority x) in *. set (hd := PrioHdr q) in *.
  set (Q1 := <[hd := l1 ++ l2]> Q) in *.
  set (i1 := set_vals (<[s := a_val a - 1]> (vals i)) i).
  assert (vals i1 !! s = Some (a_val a - 1)) as Hval1 by apply lookup_insert_eq.
  destruct (suspendSelf_run k Q t x l1 l2 Hwf Hx HQ) as (h' & Hsus & Hwf1 & Hu & Hnone).
  set (k1 := upd_thread t _ _) in *. fold hd q Q1 in Hwf1, Hu.
  assert (Q1 !! SemHdr s = Some (map Thr (a_waiters a))) as Hring1.
  { unfold Q1. by rewrite lookup_insert_ne. }
  assert (is_Some (nodes k1 !! Thr t)) as Hm.
  { destruct (wf_thread _ _ Hwf1 t (with_state Waiting x)) as [Hm _]; [apply lookup_insert_eq|done]. }
  destruct (rings_addTail (nodes k1) Q1 (SemHdr s) _ (SemHdr s) (Thr t) (wf_rings _ _ Hwf1) Hring1
    ltac:(set_solver) Hu Hm) as (h2 & Hadd & Hr2 & Hs2).
  set (k2 := set_nodes h2 k1).
  assert (ins_before (SemHdr s) (SemHdr s) (Thr t) (map Thr (a_waiters a))
          = map Thr (a_waiters a ++ [t])) as Hins.
  { unfold ins_before. by rewrite decide_True, map_app. }
  rewrite Hins in Hr2. fold Q' in Hr2.
  exists (set_kern k2 i1). split; [|split; [|split]].
  - unfold lock_pass. rewrite (bind_Ok _ _ _ _ _ (add_val_run i s _ (-1) Hval ltac:(lia))).
    change (a_val a + -1) with (a_val a - 1). fold i1.
    rewrite (bind_Ok _ _ _ _ _ (getValue_run _ _ _ Hval1)).
    destruct (Z.ltb_spec (a_val a - 1) 0); [|lia]. prog_simpl.
    change (kern i1) with k. rewrite Hcur.
    prog_step (on_kern_run _ i1 _ _ Hsus).
    destruct (node_of_run (nodes k1) (Thr t) Hm) as (n & Hn & Hnext & _).
    change (nodes k1) with h' in Hnext. rewrite Hnone in Hnext. injection Hnext as Hnext.
    assert (on_kern (on_nodes (node_of (Some (Thr t)))) (set_kern k1 i1) = Ok (n, set_kern k1 i1)) as Hon.
    { rewrite (on_kern_run _ (set_kern k1 i1) n (set_nodes (nodes k1) k1)); [done|].
      apply on_nodes_run. exact Hn. }
    prog_step Hon. rewrite <- Hnext, bool_decide_true by done. cbn [assert_]. prog_simpl.
    rewrite (bind_Ok _ _ _ _ _ (on_kern_run _ (set_kern k1 i1) _ _ (on_nodes_run _ k1 _ _ Hadd))).
    done.
  - unfold sem_take. destruct (Z.ltb_spec (a_val a - 1) 0); [done|lia].
  - assert (k2 = set_cursors (_curNodeInGroup k1) (set_nodes h2 k1)) as Hk2 by done.
    split; cbn [kern set_kern a_val a_waiters a'].
    + rewrite Hk2. eapply wf_change; [exact Hwf1|exact Hring1|exact Hr2|exact Hs2|..].
      * intros y Hy. apply list_elem_of_fmap in Hy as (u & -> & Hu').
        apply elem_of_app in Hu' as [Hu'|Hu'].
        -- left. by apply list_elem_of_fmap_2.
        -- apply list_elem_of_singleton in Hu' as ->. right. exists t, (with_state Waiting x).
           split; [done|]. split; [apply lookup_insert_eq|done].
      * done.
      * done.
    + done.
    + apply lookup_insert_eq.
    + intros u Hu'. cbn. apply elem_of_app in Hu' as [Hu'|Hu'].
      * destruct (Hwait u Hu') as (y & Hy & Hyw). exists y.
        assert (u ≠ t) by (intros ->; by eapply current_not_waiting).
        by rewrite lookup_insert_ne.
      * apply list_elem_of_singleton in Hu' as ->. eexists.
        rewrite lookup_insert_eq. done.
    + rewrite length_app. cbn. lia.
  - done.
Qed.

Lemma trylock_run i Q s a :
  sem_rep i Q s a →
  ∃ i', trylock s i = Ok (fst (sem_try a), i') ∧ sem_rep i' Q s (snd (sem_try a)) ∧
    kern i' = kern i ∧ mutexes i' = mutexes i ∧
    vals i' = if 0 <? a_val a then <[s := a_val a - 1]> (vals i) else vals i.
Proof.
  intros Hr. pose proof Hr as [Hwf Hval Hring Hwait Hrange]. unfold trylock, sem_try.
  rewrite (bind_Ok _ _ _ _ _ (getValue_run _ _ _ Hval)).
  destruct (Z.ltb_spec 0 (a_val a)); [|by exists i].
  rewrite (bind_Ok _ _ _ _ _ (add_val_run i s _ (-1) Hval ltac:(lia))).
  change (a_val a + -1) with (a_val a - 1).
  eexists. split; [done|]. split; [|done].
  split; cbn; [done|apply lookup_insert_eq|done|done|lia].
Qed.

(** *** Release *)

(** What waking a thread makes of its run queue. *)
Definition wake_one k (Q : gmap knode (list knode)) (u : Z) : gmap knode (list knode) :=
  match threads k !! u with
  | Some x =>
      match Q !! PrioHdr (_priority x), _curNodeInGroup k !! _priority x with
      | Some l, Some (Some c) =>
          <[PrioHdr (_priority x) := ins_before (PrioHdr (_priority x)) c (Thr u) l]> Q
      | _, _ => Q
      end
  | None => Q
  end.

Lemma wake_one_ext k k' Q u :
  (_priority <$> threads k' !! u) = (_priority <$> threads k !! u) →
  _curNodeInGroup k' = _curNodeInGroup k → wake_one k' Q u = wake_one k Q u.
Proof.
  intros Ht Hc. unfold wake_one. rewrite Hc.
  destruct (threads k' !! u), (threads k !! u); cbn in *; simplify_eq; [|done].
  by replace (_priority t) with (_priority t0).
Qed.

Lemma wake_one_other k Q u hd : (∀ q, hd ≠ PrioHdr q) → wake_one k Q u !! hd = Q !! hd.
Proof.
  intros Hne. unfold wake_one. destruct (threads k !! u); [|done].
  destruct (Q !! PrioHdr _); [|done]. destruct (_curNodeInGroup k !! _) as [[]|]; [|done..].
  apply lookup_insert_ne. congruence.
Qed.

Lemma wake_one_insert k Q u s l :
  wake_one k (<[SemHdr s := l]> Q) u = <[SemHdr s := l]> (wake_one k Q u).
Proof.
  unfold wake_one. destruct (threads k !! u); [|done].
  rewrite lookup_insert_ne by done. destruct (Q !! PrioHdr _); [|done].
  destruct (_curNodeInGroup k !! _) as [[]|]; [|done..]. by rewrite insert_insert_ne.
Qed.

Definition awake (ts : gmap Z thread) (u : Z) : gmap Z thread :=
  match ts !! u with Some x => <[u := with_state Ready x]> ts | None => ts end.

(** Deleting the first waiter and waking it. *)
Lemma wakeup_run k Q s u x us :
  wf k Q → Q !! SemHdr s = Some (map Thr (u :: us)) →
  threads k !! u = Some x → _state x = Waiting →
  ∃ h1 k2,
    delNodeFromRingDoubleList (Some (Thr u)) (nodes k) = Ok ((), h1) ∧
    wakeup (Some (Thr u)) (Some (Thr u)) (set_nodes h1 k) = Ok ((), k2) ∧
    wf k2 (<[SemHdr s := map Thr us]> (wake_one k Q u)) ∧
    threads k2 = awake (threads k) u ∧ _curNodeInGroup k2 = _curNodeInGroup k ∧
    _curThread k2 = _curThread k ∧ (candidate k → candidate k2).
Proof.
  intros H HQ Hx Hst.
  destruct (rings_del _ _ _ [] (Thr u) (map Thr us) (wf_rings _ _ H) HQ)
    as (h1 & Hdel & Hr1 & Hs1 & _ & _ & Hu). cbn [app] in *.
  assert (set_nodes h1 k = set_cursors (_curNodeInGroup k) (set_nodes h1 k)) as Hk1 by done.
  assert (wf (set_nodes h1 k) (<[SemHdr s := map Thr us]> Q)) as H1.
  { rewrite Hk1. eapply wf_change; [exact H|exact HQ|exact Hr1|exact Hs1| |done|done].
    intros y Hy. left. cbn. set_solver. }
  set (k1 := set_nodes h1 k) in *.
  assert (threads k1 !! u = Some x) as Hx1 by done.
  set (ku := upd_thread u (with_state Ready x) k1).
  assert (wf ku (<[SemHdr s := map Thr us]> Q)) as Hu1 by by eapply wf_upd_thread.
  destruct (append_run ku _ u (with_state Ready x) Hu1 ltac:(apply lookup_insert_eq) eq_refl Hu)
    as (h2 & l & c & Happ & HQl & Hcur & Hin & Hwf2). cbn [with_state _priority] in *.
  rewrite lookup_insert_ne in HQl by done.
  exists h1, (raise_max (_priority x) (Some (Thr u)) (set_nodes h2 ku)).
  assert (wake_one k Q u =
    <[PrioHdr (_priority x) := ins_before (PrioHdr (_priority x)) c (Thr u) l]> Q) as Hwake.
  { unfold wake_one. rewrite Hx, HQl. change (_curNodeInGroup ku) with (_curNodeInGroup k) in Hcur.
    by rewrite Hcur. }
  split; [done|]. split; [|split; [|split; [|split; [|split]]]].
  - unfold wakeup. prog_step (thr_run k1 u x Hx1). rewrite Hst. cbn beta iota. prog_simpl.
    rewrite (bind_Ok _ _ _ _ _ (upd_thr_run k1 u x (with_state Ready) Hx1)). exact Happ.
  - rewrite Hwake, insert_insert_ne by done. exact Hwf2.
  - unfold raise_max, awake. rewrite Hx. by destruct (_ <? _).
  - unfold raise_max. by destruct (_ <? _).
  - unfold raise_max. by destruct (_ <? _).
  - intros (w & z & Hw & Hz & Hp). unfold raise_max. destruct (_ <? _).
    + exists u, (with_state Ready x). cbn. by rewrite lookup_insert_eq.
    + destruct (decide (w = u)) as [->|Hne].
      * exists u, (with_state Ready x). cbn. rewrite lookup_insert_eq. by simplify_eq.
      * exists w, z. cbn. by rewrite lookup_insert_ne.
Qed.

(** The nodes [p] and [n] of the loop when [us] are the waiters left. *)
Definition loop_nodes (s : Z) (us : list Z) (p n : option knode) : Prop :=
  match us with
  | [] => p = waiters s
  | u :: us' => p = Some (Thr u) ∧ n = Some (default (SemHdr s) (head (map Thr us')))
  end.

Lemma awake_other ts u v : u ≠ v → awake ts u !! v = ts !! v.
Proof. intros Hne. unfold awake. destruct (ts !! u); [|done]. by rewrite lookup_insert_ne. Qed.

Lemma awake_priority ts u v : _priority <$> awake ts u !! v = _priority <$> ts !! v.
Proof.
  unfold awake. destruct (ts !! u) eqn:E; [|done]. rewrite lookup_insert.
  case_decide; [subst; by rewrite E|done].
Qed.

Lemma unlock_loop s us : ∀ i Q v p n fuel,
  wf (kern i) Q → vals i !! s = Some v → Q !! SemHdr s = Some (map Thr us) →
  (∀ u, u ∈ us → ∃ x, threads (kern i) !! u = Some x ∧ _state x = Waiting) →
  - 2 ^ 31 ≤ v → v + zlen us < 2 ^ 31 → loop_nodes s us p n → (length us < fuel)%nat →
  ∃ k', loop fuel (unlock_body s) (p, n) i
      = Ok ((), set_kern k' (set_vals (<[s := v + zlen us]> (vals i)) i)) ∧
    wf k' (<[SemHdr s := []]> (foldl (wake_one (kern i)) Q us)) ∧
    threads k' = foldl awake (threads (kern i)) us ∧
    _curNodeInGroup k' = _curNodeInGroup (kern i) ∧ _curThread k' = _curThread (kern i) ∧
    (candidate (kern i) → candidate k').
Proof.
  induction us as [|u us IH]; intros i Q v p n fuel H Hv HQ Hw Hlow Hhigh Hpn Hf;
    (destruct fuel as [|fuel]; [cbn in *; lia|]); cbn [loop_nodes] in Hpn.
  - subst p. exists (kern i). split; [|split; [|done]].
    + rewrite (loop_exit _ _ _ () i i); [|cbn; by rewrite decide_True].
      destruct i as [k vs ms]. cbn in *. rewrite Z.add_0_r. by rewrite insert_id.
    + cbn. by rewrite insert_id.
  - destruct Hpn as [-> ->]. destruct (Hw u ltac:(set_solver)) as (x & Hx & Hst).
    destruct (wakeup_run (kern i) Q s u x us H HQ Hx Hst)
      as (h1 & k2 & Hdel & Hwake & H2 & Ht2 & Hc2 & Hcu2 & Hca2).
    set (i1 := set_vals (<[s := v + 1]> (vals i)) i).
    set (Q1 := wake_one (kern i) Q u) in *.
    assert ((<[SemHdr s := map Thr us]> Q1) !! SemHdr s = Some (map Thr us)) as HQ1
      by apply lookup_insert_eq.
    (* the node after the next one *)
    set (n' := default (SemHdr s) (head (map Thr us))).
    pose proof (proj1 (wf_rings _ _ H2) _ _ HQ1) as Hring.
    assert (n' ∈ SemHdr s :: map Thr us) as Hn'.
    { subst n'. destruct us; cbn; set_solver. }
    destruct (node_of_run (nodes k2) n') as (x' & Hn & Hnext & _);
      [by eapply ring_mapped|].
    assert (NoDup (u :: us)) as Hnd.
    { pose proof (proj1 (wf_rings _ _ H) _ _ HQ) as [_ [_ Hnd]%NoDup_cons].
      change (NoDup (Thr <$> (u :: us))) in Hnd. by apply NoDup_fmap_1 in Hnd. }
    apply NoDup_cons in Hnd as [Hu Hnd].
    destruct (IH (set_kern k2 i1) (<[SemHdr s := map Thr us]> Q1) (v + 1) (Some n') (next x') fuel)
      as (k' & Hrun & Hwf' & Hth' & Hcg' & Hct' & Hca').
    { exact H2. }
    { apply lookup_insert_eq. }
    { exact HQ1. }
    { intros w Hin. destruct (Hw w ltac:(set_solver)) as (y & Hy & Hys). exists y.
      cbn. rewrite Ht2, awake_other; [done|]. intros ->. done. }
    { lia. } { cbn in Hhigh. lia. }
    { subst n'. destruct us as [|w us]; cbn; [done|]. split; [done|].
      assert (next x' = Some (default (SemHdr s) (head (map Thr us)))) as ->; [|done].
      cbn in Hnext. cbn [map] in Hring. apply (ring_rotate _ _ [] (Thr w)) in Hring.
      apply ring_first in Hring. unfold id in Hnext. rewrite Hring in Hnext. injection Hnext as <-.
      by destruct us. }
    { cbn in Hf. lia. }
    exists k'. split; [|split; [|split; [|split; [|split]]]].
    + rewrite (loop_next _ _ _ (Some n', next x') i (set_kern k2 i1)).
      * rewrite Hrun. cbn. rewrite insert_insert_eq.
        replace (v + 1 + zlen us) with (v + Z.of_nat (S (length us))) by lia. done.
      * unfold unlock_body. rewrite decide_False by done.
        rewrite (bind_Ok _ _ _ _ _ (add_val_run i s v 1 Hv ltac:(cbn in Hhigh; lia))). fold i1.
        change (kern i) with (kern i1) in Hdel, Hwake.
        prog_step (on_kern_run _ i1 _ _ (on_nodes_run _ _ _ _ Hdel)).
        cbn [id_of]. prog_simpl.
        prog_step (on_kern_run _ (set_kern (set_nodes h1 (kern i1)) i1) _ _ Hwake).
        fold n'. assert (on_kern (on_nodes (node_of (Some n')))
          (set_kern k2 (set_kern (set_nodes h1 (kern i1)) i1)) = Ok (x', set_kern k2 i1)) as Hon.
        { rewrite (on_kern_run _ _ x' k2); [done|]. cbn.
          rewrite (on_nodes_run _ k2 _ _ Hn). by destruct k2. }
        by prog_step Hon.
    + cbn [kern set_kern] in Hwf'. cbn [foldl]. fold Q1.
      assert (∀ ws Q0, foldl (wake_one k2) (<[SemHdr s := map Thr us]> Q0) ws
        = <[SemHdr s := map Thr us]> (foldl (wake_one (kern i)) Q0 ws)) as Hfold.
      { induction ws as [|w ws IHw]; intros Q0; cbn; [done|].
        rewrite (wake_one_ext (kern i)); [|by rewrite Ht2, awake_priority|done].
        by rewrite wake_one_insert, IHw. }
      by rewrite Hfold, insert_insert_eq in Hwf'.
    + cbn [kern set_kern] in Hth'. by rewrite Hth', Ht2.
    + by rewrite Hcg'.
    + by rewrite Hct'.
    + intros Hca. by apply Hca', Hca2.
Qed.

Lemma foldl_wake_other k us Q hd :
  (∀ q, hd ≠ PrioHdr q) → foldl (wake_one k) Q us !! hd = Q !! hd.
Proof.
  intros Hne. revert Q. induction us as [|u us IH]; intros Q; cbn; [done|].
  by rewrite IH, wake_one_other.
Qed.

Lemma foldl_awake us : ∀ ts u,
  NoDup us → (foldl awake ts us) !! u =
    if decide (u ∈ us) then with_state Ready <$> ts !! u else ts !! u.
Proof.
  induction us as [|w us IH]; intros ts u Hnd; cbn; [done|].
  apply NoDup_cons in Hnd as [Hw Hnd]. rewrite IH by done.
  destruct (decide (u ∈ us)) as [Hin|Hin].
  - rewrite awake_other by (intros ->; done). by rewrite decide_True by set_solver.
  - destruct (decide (u = w)) as [->|Hne].
    + rewrite decide_True by set_solver. unfold awake. destruct (ts !! w) eqn:E; [|by rewrite E].
      by rewrite lookup_insert_eq.
    + rewrite decide_False by set_solver. by rewrite awake_other.
Qed.

(** A woken thread is linked in its run queue, and the others stay. *)
Lemma foldl_wake_queue k us : ∀ Q q l,
  Q !! PrioHdr q = Some l → (∃ c, _curNodeInGroup k !! q = Some (Some c) ∧ c ∈ PrioHdr q :: l) →
  ∃ l', foldl (wake_one k) Q us !! PrioHdr q = Some l' ∧
    l' ≡ₚ map Thr (filter (λ u, (_priority <$> threads k !! u) = Some q) us) ++ l.
Proof.
  induction us as [|u us IH]; intros Q q l HQ (c & Hc & Hin).
  - exists l. done.
  - cbn [foldl]. assert (∃ l1, wake_one k Q u !! PrioHdr q = Some l1 ∧
      l1 ≡ₚ (if decide ((_priority <$> threads k !! u) = Some q) then Thr u :: l else l))
      as (l1 & HQ1 & Hl1).
    { unfold wake_one. destruct (threads k !! u) as [x|] eqn:Hx; cbn.
      - destruct (decide (Some (_priority x) = Some q)) as [[= <-]|Hne].
        + rewrite HQ, Hc, lookup_insert_eq. eexists. split; [done|]. by apply ins_before_perm.
        + exists l. split; [|done]. destruct (Q !! PrioHdr (_priority x)); [|done].
          destruct (_curNodeInGroup k !! _priority x) as [[]|]; [|done..].
          rewrite lookup_insert_ne; [done|]. congruence.
      - exists l. split; [done|]. by rewrite decide_False. }
    destruct (IH _ q l1 HQ1) as (l' & HQ' & Hl').
    { exists c. split; [done|]. rewrite Hl1. case_decide; set_solver. }
    exists l'. split; [done|]. rewrite Hl', Hl1, filter_cons.
    case_decide; [|done]. cbn. by rewrite Permutation_middle.
Qed.

(** The queues after a release. *)
Definition released s Q (i : ipc) (a : asem) : gmap knode (list knode) :=
  <[SemHdr s := []]> (foldl (wake_one (kern i)) Q (a_waiters a)).

Lemma unlock_run i Q s a :
  sem_rep i Q s a →
  ∃ k', unlock s i = Ok ((), set_kern k' (set_vals (<[s := a_val (sem_release a)]> (vals i)) i)) ∧
    wf k' (released s Q i a) ∧ threads k' = foldl awake (threads (kern i)) (a_waiters a) ∧
    _curNodeInGroup k' = _curNodeInGroup (kern i) ∧ _curThread k' = _curThread (kern i) ∧
    (candidate (kern i) → candidate k').
Proof.
  intros [H Hv HQ Hw Hr]. unfold unlock, sem_release. cbn [a_val].
  set (us := a_waiters a) in *. set (v := a_val a) in *.
  rewrite (bind_Ok _ _ _ _ _ (add_val_run i s v 1 Hv ltac:(lia))).
  set (i1 := set_vals (<[s := v + 1]> (vals i)) i).
  pose proof (proj1 (wf_rings _ _ H) _ _ HQ) as Hring.
  destruct (node_of_run (nodes (kern i)) (SemHdr s)) as (hn & Hhn & Hnext & _);
    [eapply ring_mapped; [exact Hring|set_solver]|].
  assert (∀ p x, node_of p (nodes (kern i)) = Ok (x, nodes (kern i)) →
    on_kern (on_nodes (node_of p)) i1 = Ok (x, i1)) as Hon.
  { intros p x Hp. rewrite (on_kern_run _ i1 x (kern i)); [by destruct i|]. cbn.
    rewrite (on_nodes_run _ (kern i) _ _ Hp). by destruct (kern i). }
  prog_step (Hon _ _ Hhn).
  set (p := default (SemHdr s) (head (map Thr us))).
  assert (next hn = Some p) as ->.
  { rewrite (ring_first _ _ _ Hring) in Hnext. by injection Hnext as <-. }
  assert (p ∈ SemHdr s :: map Thr us) as Hp by (subst p; destruct us; cbn; set_solver).
  destruct (node_of_run (nodes (kern i)) p) as (pn & Hpn & Hpnext & _);
    [by eapply ring_mapped|].
  prog_step (Hon _ _ Hpn).
  assert (length us < S (size (nodes (kern i))))%nat as Hfuel.
  { pose proof (ring_size _ _ _ Hring) as Hs. rewrite length_map in Hs. lia. }
  destruct (unlock_loop s us i1 Q (v + 1) (Some p) (next pn)
    (S (size (nodes (kern i)))) H ltac:(apply lookup_insert_eq) HQ Hw
    ltac:(lia) ltac:(lia)) as (k' & Hrun & Hrest); [|exact Hfuel|].
  - unfold loop_nodes. subst p. destruct us as [|u us']; [done|]. cbn. split; [done|].
    cbn in Hring. apply (ring_rotate _ _ [] (Thr u)), ring_first in Hring. cbn in Hpnext.
    unfold id in Hpnext. rewrite Hring in Hpnext. injection Hpnext as <-. by destruct us'.
  - exists k'. split; [|exact Hrest]. change (kern i1) with (kern i). rewrite Hrun.
    cbn. by rewrite insert_insert_eq.
Qed.

(** *** The invariant of the scheduler *)

(** The run queue of the current thread: it can run, so it is linked there. *)
Lemma at_work_current i Q t : sched_inv (kern i) Q → at_work (kern i) t → ∃ x l1 l2, current i Q t x l1 l2 ∧ runnable x.
Proof.
  intros Hinv [Hc (x & Hx & Hr)]. destruct (si_linked _ _ Hinv t x Hx Hr) as (l & HQ & (l1 & l2 & ->)%list_elem_of_split).
  exists x, l1, l2. by split.
Qed.

Lemma block_inv i i' Q s us t x l1 l2 :
  sched_inv (kern i) Q → current i Q t x l1 l2 →
  wf (kern i') (<[SemHdr s := us]> (<[PrioHdr (_priority x) := l1 ++ l2]> Q)) →
  threads (kern i') = <[t := with_state Waiting x]> (threads (kern i)) → _curThread (kern i') = Some (Thr t) →
  _maxPrio (kern i') = _maxPrio (kern i) → _higherPriorityThread (kern i') = _higherPriorityThread (kern i) →
  sched_inv (kern i') (<[SemHdr s := us]> (<[PrioHdr (_priority x) := l1 ++ l2]> Q)).
Proof.
  intros [H Hl Hq (w & z & Hw & Hz & Hp) _] [Hc Hx HQ] H' Ht Hc' Hm Hh.
  pose proof (proj1 (wf_rings _ _ H) _ _ HQ) as [_ [_ Hnd]%NoDup_cons].
  split; [done|..].
  - intros u y. rewrite Ht, lookup_insert. case_decide as Hut; [subst; intros [= <-] []; done|]. intros Hy Hr.
    destruct (Hl u y Hy Hr) as (l & HQu & Hin). rewrite lookup_insert_ne, lookup_insert by done. case_decide as Hpr; [|by exists l].
    rewrite <- Hpr in HQu. assert (l = l1 ++ Thr t :: l2) as -> by congruence. exists (l1 ++ l2). split; [done|]. set_solver.
  - intros q l u. rewrite lookup_insert_ne, lookup_insert by done. case_decide as Hpr.
    + intros [= <-] Hin. destruct (Hq _ _ u HQ ltac:(set_solver)) as (y & Hy & Hr). exists y. rewrite Ht, lookup_insert_ne; [done|].
      intros <-. apply NoDup_app in Hnd as (_ & Hd & [Hn _]%NoDup_cons). set_solver.
    + intros HQu Hin. destruct (Hq _ _ u HQu Hin) as (y & Hy & Hr). exists y. rewrite Ht, lookup_insert_ne; [done|].
      intros <-. by apply (wf_disjoint _ _ _ _ _ _ t H HQu HQ); [congruence| |set_solver].
  - exists w. rewrite Hh, Hm, Ht, lookup_insert. case_decide; [|by exists z]. subst. eexists. split; [done|]. split; [done|]. cbn. congruence.
  - exists t, (with_state Waiting x). rewrite Hc', Ht, lookup_insert_eq. split; [done|]. split; [done|by right].
Qed.

Lemma released_queue i Q s a q l : sem_rep i Q s a → 0 ≤ q ≤ MaxPriority → Q !! PrioHdr q = Some l →
  ∃ l', released s Q i a !! PrioHdr q = Some l' ∧
    l' ≡ₚ map Thr (filter (λ u, (_priority <$> threads (kern i) !! u) = Some q) (a_waiters a)) ++ l.
Proof.
  intros Hr Hq Hl. unfold released. rewrite lookup_insert_ne by done.
  destruct (wf_cursor _ _ (rep_wf _ _ _ _ Hr) q Hq) as (l0 & c & HQ0 & Hc & Hin). assert (l0 = l) as -> by congruence.
  apply foldl_wake_queue; [done|by eauto].
Qed.

Lemma released_inv i Q s a k' : sched_inv (kern i) Q → sem_rep i Q s a →
  wf k' (released s Q i a) → threads k' = foldl awake (threads (kern i)) (a_waiters a) →
  _curThread k' = _curThread (kern i) → (candidate (kern i) → candidate k') →
  sched_inv k' (released s Q i a).
Proof.
  intros [H Hl Hqu Hca (t & x & Hc & Hx & Hst)] Hr H' Ht Hc' Hca'. pose proof (rep_nodup _ _ _ _ Hr) as Hnd.
  assert (∀ q l', released s Q i a !! PrioHdr q = Some l' → 0 ≤ q ≤ MaxPriority →
    ∃ l, Q !! PrioHdr q = Some l ∧ ∀ u, Thr u ∈ l' ↔ (u ∈ a_waiters a ∧ (_priority <$> threads (kern i) !! u) = Some q) ∨ Thr u ∈ l) as Hrel.
  { intros q l' HQ' Hq. destruct (wf_cursor _ _ H q Hq) as (l & _ & HQ & _). exists l. split; [done|]. intros u.
    destruct (released_queue i Q s a q l Hr Hq HQ) as (l2 & HQ2 & Hp). assert (l2 = l') as -> by congruence.
    rewrite Hp, elem_of_app. apply or_iff_compat_r. split.
    - intros (v & [= <-] & [??]%list_elem_of_filter)%list_elem_of_fmap. done.
    - intros [??]. by apply list_elem_of_fmap_2, list_elem_of_filter. }
  split; [done|..|by apply Hca'|].
  - intros u y Hy Hry. destruct (wf_thread _ _ H' u y Hy) as [_ Hq].
    destruct (wf_cursor _ _ H' _ Hq) as (l' & _ & HQ' & _). exists l'. split; [done|].
    destruct (Hrel _ _ HQ' Hq) as (l & HQ & Hin). apply Hin. rewrite Ht, foldl_awake in Hy by done. case_decide as Hu.
    + left. split; [done|]. destruct (threads (kern i) !! u); [|done]. by injection Hy as <-.
    + right. destruct (Hl u y Hy Hry) as (l2 & HQ2 & Hin2). by assert (l2 = l) as -> by congruence.
  - intros q l' u HQ' Hu. destruct (wf_linked _ _ H' _ _ _ HQ' Hu) as (u' & y & [= <-] & Hy & Hp).
    destruct (wf_thread _ _ H' u y Hy) as [_ Hq]. rewrite (Hp q eq_refl) in Hq.
    destruct (Hrel _ _ HQ' Hq) as (l & HQ & Hin). exists y. split; [done|]. rewrite Ht, foldl_awake in Hy by done. case_decide as Hw.
    + destruct (threads (kern i) !! u); [|done]. injection Hy as <-. by left.
    + apply Hin in Hu as [[Hw' _]|Hu]; [done|]. destruct (Hqu _ _ _ HQ Hu) as (z & Hz & Hrz). congruence.
  - exists t. rewrite Hc', Ht, foldl_awake, Hx by done. case_decide.
    + eexists. split; [done|]. split; [done|]. left. by left.
    + by exists x.
Qed.

(** *** The whole of [lock] *)

Lemma sem_take_busy t a : a_val a ≤ 0 → sem_take t a = (false, ASem (a_val a - 1) (a_waiters a ++ [t])).
Proof. intros H. unfold sem_take. by rewrite (proj2 (Z.ltb_lt _ _)) by lia. Qed.

(** A call of the scheduler keeps the semaphore, as long as no waiter is made runnable. *)
Lemma sem_rep_scheduled i Q s a k2 : sem_rep i Q s a → sched_inv k2 Q → orderly (kern i) k2 → sem_rep (set_kern k2 i) Q s a.
Proof.
  intros [H Hv HQ Hw Hr] Hinv [_ Hord]. split; [by apply si_wf|done|done| |done].
  intros u Hu. destruct (Hw u Hu) as (x & Hx & Hst). specialize (Hord u). unfold waits in Hord. rewrite Hx in Hord. cbn in *.
  destruct (threads k2 !! u) as [y|]; [exists y; split; [done|]|]; cbn in Hord; rewrite Hst in Hord; specialize (Hord eq_refl); [by simplify_eq|done].
Qed.

Lemma lock_takes i Q s a t x l1 l2 n :
  sem_rep i Q s a → current i Q t x l1 l2 → 0 < a_val a →
  lock (S n) s i = Ok (true, set_vals (<[s := a_val a - 1]> (vals i)) i).
Proof.
  intros Hr Hc Hv. destruct (lock_pass_take i Q s a t x l1 l2 Hr Hc Hv) as (Hrun & _ & _).
  apply (loop_exit _ _ _ _ _ (set_vals (<[s := a_val a - 1]> (vals i)) i)). prog_simpl. by prog_step Hrun.
Qed.

(** The thread has queued up: it goes on with the next pass if the scheduler stays with it. *)
Lemma lock_waits i s t i1 k2 n :
  _curThread (kern i) = Some (Thr t) → lock_pass s i = Ok (false, i1) → scheduleInSemaphore (kern i1) = Ok ((), k2) →
  lock (S n) s i = if decide (_curThread k2 = Some (Thr t)) then lock n s (set_kern k2 i1)
                   else Ok (false, set_kern k2 i1).
Proof.
  intros Hc Hrun Hsch. case_decide as Hk.
  - apply (loop_next _ _ _ () _ (set_kern k2 i1)). prog_simpl. prog_step Hrun.
    prog_step (on_kern_run _ _ _ _ Hsch). cbn. by rewrite Hc, Hk, decide_True.
  - apply (loop_exit _ _ _ _ _ (set_kern k2 i1)). prog_simpl. prog_step Hrun.
    prog_step (on_kern_run _ _ _ _ Hsch). cbn. by rewrite Hc, decide_False.
Qed.

(** A thread that finds no unit: the pass, what [lock] does after it, and when that is what the
    abstract semaphore asks for. *)
Lemma lock_contended i Q s a t x l1 l2 n :
  sem_rep i Q s a → current i Q t x l1 l2 → a_val a ≤ 0 → - 2 ^ 31 < a_val a - 1 →
  ∃ i1 Q1, lock_pass s i = Ok (false, i1) ∧ sem_rep i1 Q1 s (snd (sem_take t a)) ∧
    mutexes i1 = mutexes i ∧ waits (kern i1) t ∧ (sched_inv (kern i) Q → sched_inv (kern i1) Q1) ∧
    (∀ k2, scheduleInSemaphore (kern i1) = Ok ((), k2) →
       lock (S n) s i = if decide (_curThread k2 = Some (Thr t)) then lock n s (set_kern k2 i1)
                        else Ok (false, set_kern k2 i1)) ∧
    (∀ u z, sched_inv (kern i) Q → _priority x < _maxPrio (kern i) → _higherPriorityThread (kern i) = Some (Thr u) →
       threads (kern i) !! u = Some z → runnable z →
       ∃ i2, lock (S n) s i = Ok (false, i2) ∧ sem_rep i2 Q1 s (snd (sem_take t a)) ∧
         sched_inv (kern i2) Q1 ∧ at_work (kern i2) u ∧ waits (kern i2) t).
Proof.
  intros Hr Hc Hv Hlow.
  destruct (lock_pass_block i Q s a t x l1 l2 Hr Hc Hv Hlow) as (i1 & Hrun & Ht & Hr1 & Hth & Hc1 & Hm1 & _ & Hv1 & Hx1 & Hh1).
  exists i1. eexists. rewrite Ht. split; [done|]. split; [exact Hr1|]. split; [done|].
  assert (threads (kern i1) !! t = Some (with_state Waiting x)) as Hxt by (rewrite Hth; apply lookup_insert_eq).
  assert (waits (kern i1) t) as Hwt by (unfold waits; by rewrite Hxt).
  assert (∀ k2, scheduleInSemaphore (kern i1) = Ok ((), k2) →
       lock (S n) s i = if decide (_curThread k2 = Some (Thr t)) then lock n s (set_kern k2 i1)
                        else Ok (false, set_kern k2 i1)) as Hlock.
  { intros k2. apply lock_waits; [exact (cur_is _ _ _ _ _ _ Hc)|done]. }
  split; [done|]. split; [|split; [done|]].
  { intros Hinv. eapply block_inv; [done..|exact (rep_wf _ _ _ _ Hr1)|done|done|done|done]. }
  intros u z Hinv Hlt Hu Hz Hrz. assert (u ≠ t) as Hne.
  { destruct (si_candidate _ _ Hinv) as (u' & z' & ? & ? & ?). intros ->. pose proof (cur_thr _ _ _ _ _ _ Hc).
    assert (u' = t) as -> by congruence. assert (z' = x) as -> by congruence. lia. }
  assert (sched_inv (kern i1) (<[SemHdr s := map Thr (a_waiters a ++ [t])]> (<[PrioHdr (_priority x) := l1 ++ l2]> Q))) as Hinv1
    by (eapply block_inv; [done..|exact (rep_wf _ _ _ _ Hr1)|done|done|done|done]).
  destruct (preempt_orderly _ _ t _ u z Hinv1 Hc1 Hxt) as (k2 & Hsch & Hord & Hat);
    [cbn; congruence|congruence|by rewrite Hth, lookup_insert_ne|done|].
  destruct (schedule_orderly _ _ _ Hinv1 Hsch Hord) as [Hinv2 _].
  exists (set_kern k2 i1). split; [|split; [|split; [done|split; [done|by apply (proj2 Hord)]]]].
  - rewrite (Hlock k2 Hsch), decide_False; [done|]. destruct Hat as [-> _]. congruence.
  - by eapply sem_rep_scheduled.
Qed.

(** C8. The semaphore implements its abstraction. [lock] takes a unit when there is one. When there is
    none, its pass makes the current thread leave its run queue, wait and be the last of the
    waiters; what follows is the answer of the scheduler: if it gives the CPU to a thread of a
    greater priority that can run, [lock] has done what the abstract semaphore asks for, and the
    caller waits; if it switches to any other thread, the call stands before its next pass; and if
    it returns to the caller, the loop makes that pass at once, though the caller is a waiter
    ([lock_does_not_block] shows a case). [trylock] takes a unit or changes nothing.
    [unlock] terminates, wakes all the waiters, empties their list, and links
    each of them in the run queue of its priority, and no other thread changes. *)
Theorem semaphore_refines i Q s a :
  sem_rep i Q s a →
  (∀ t x l1 l2, current i Q t x l1 l2 → - 2 ^ 31 < a_val a - 1 →
     ∃ i' Q', lock_pass s i = Ok (fst (sem_take t a), i') ∧
       sem_rep i' Q' s (snd (sem_take t a)) ∧
       (fst (sem_take t a) = true → kern i' = kern i ∧ Q' = Q) ∧
       (fst (sem_take t a) = false →
          threads (kern i') = <[t := with_state Waiting x]> (threads (kern i)) ∧
          Q' !! PrioHdr (_priority x) = Some (l1 ++ l2))) ∧
  (∀ t x l1 l2 n, current i Q t x l1 l2 → 0 < a_val a →
     ∃ i', lock (S n) s i = Ok (true, i') ∧ sem_take t a = (true, snd (sem_take t a)) ∧
       sem_rep i' Q s (snd (sem_take t a)) ∧ kern i' = kern i) ∧
  (∀ t x l1 l2 n, current i Q t x l1 l2 → a_val a ≤ 0 → - 2 ^ 31 < a_val a - 1 →
     ∃ i1 Q1, lock_pass s i = Ok (false, i1) ∧ sem_take t a = (false, snd (sem_take t a)) ∧
       sem_rep i1 Q1 s (snd (sem_take t a)) ∧ waits (kern i1) t ∧
       (∀ k2, scheduleInSemaphore (kern i1) = Ok ((), k2) →
          lock (S n) s i = if decide (_curThread k2 = Some (Thr t)) then lock n s (set_kern k2 i1)
                           else Ok (false, set_kern k2 i1)) ∧
       (∀ u z, sched_inv (kern i) Q → _priority x < _maxPrio (kern i) → _higherPriorityThread (kern i) = Some (Thr u) →
          threads (kern i) !! u = Some z → runnable z →
          ∃ i2, lock (S n) s i = Ok (false, i2) ∧ sem_rep i2 Q1 s (snd (sem_take t a)) ∧
            sched_inv (kern i2) Q1 ∧ at_work (kern i2) u ∧ waits (kern i2) t)) ∧
  (∃ i', trylock s i = Ok (fst (sem_try a), i') ∧ sem_rep i' Q s (snd (sem_try a)) ∧
     kern i' = kern i) ∧
  (∃ i' Q', unlock s i = Ok ((), i') ∧
     wf (kern i') Q' ∧ vals i' !! s = Some (a_val (sem_release a)) ∧ Q' !! SemHdr s = Some [] ∧
     (∀ u x, threads (kern i) !! u = Some x →
        threads (kern i') !! u = Some (if decide (u ∈ a_waiters a) then with_state Ready x else x)) ∧
     (∀ q l, 0 ≤ q ≤ MaxPriority → Q !! PrioHdr q = Some l →
        ∃ l', Q' !! PrioHdr q = Some l' ∧
        l' ≡ₚ map Thr (filter (λ u, (_priority <$> threads (kern i) !! u) = Some q)
                         (a_waiters a)) ++ l)).
Proof.
  intros Hr. split; [|split; [|split; [|split]]].
  - intros t x l1 l2 Hc Hlow. destruct (Z.ltb_spec 0 (a_val a)).
    + destruct (lock_pass_take i Q s a t x l1 l2 Hr Hc) as (Hrun & Ht & Hr'); [done|].
      exists (set_vals (<[s := a_val a - 1]> (vals i)) i), Q. rewrite Ht. split; [done|].
      split; [done|]. split; done.
    + destruct (lock_pass_block i Q s a t x l1 l2 Hr Hc ltac:(lia) Hlow)
        as (i' & Hrun & Ht & Hr' & Hth & _).
      exists i'. eexists. rewrite Ht. split; [done|]. split; [exact Hr'|]. split; [done|].
      intros _. split; [done|]. by rewrite lookup_insert_ne, lookup_insert_eq.
  - intros t x l1 l2 n Hc Hpos. destruct (lock_pass_take i Q s a t x l1 l2 Hr Hc Hpos) as (_ & Ht & Hr').
    eexists. rewrite (lock_takes i Q s a t x l1 l2 n Hr Hc Hpos), Ht. split; [done|]. split; [done|]. split; [exact Hr'|done].
  - intros t x l1 l2 n Hc Hv Hlow.
    destruct (lock_contended i Q s a t x l1 l2 n Hr Hc Hv Hlow) as (i1 & Q1 & Hrun & Hr1 & _ & Hw & _ & Hlock & Hpre).
    exists i1, Q1. split; [done|]. split; [by rewrite (sem_take_busy t a Hv)|done].
  - destruct (trylock_run i Q s a Hr) as (i' & Hrun & Hr' & Hk & _). eauto.
  - destruct (unlock_run i Q s a Hr) as (k' & Hrun & Hwf & Hth & _ & _).
    pose proof (rep_nodup _ _ _ _ Hr) as Hnd.
    eexists _, _. split; [exact Hrun|]. split; [exact Hwf|]. split; [apply lookup_insert_eq|].
    split; [apply lookup_insert_eq|]. split; [|intros q l; by apply released_queue].
    intros u x Hx. cbn. rewrite Hth, foldl_awake, Hx by done. by case_decide.
Qed.

(** ** The operations of the mutex, one call at a time *)

Lemma sem_init_run i Q s v val :
  wf (kern i) Q → Q !! SemHdr s = None → is_Some (nodes (kern i) !! SemHdr s) →
  vals i !! s = Some v → - 2 ^ 31 < val < 2 ^ 31 - 1 →
  ∃ i', sem_init s val i = Ok ((), i') ∧
    sem_rep i' (<[SemHdr s := []]> Q) s (ASem val []) ∧ mutexes i' = mutexes i ∧
    threads (kern i') = threads (kern i) ∧ _curThread (kern i') = _curThread (kern i) ∧
    _maxPrio (kern i') = _maxPrio (kern i) ∧ _higherPriorityThread (kern i') = _higherPriorityThread (kern i).
Proof.
  intros H HQ Hm Hv Hr.
  assert (unlinked Q (SemHdr s)) as Hu.
  { intros hd l Hl [<-|Hin]%elem_of_cons; [congruence|].
    by destruct (wf_linked _ _ H hd l _ Hl Hin) as (u & y & ? & _). }
  destruct (rings_init _ _ (SemHdr s) (wf_rings _ _ H) HQ Hu Hm) as (h' & Hrun & Hr' & Hs).
  set (i1 := set_vals (<[s := val]> (vals i)) i).
  exists (set_kern (set_nodes h' (kern i)) i1). split; [|split; [|done]].
  - unfold sem_init. rewrite (bind_Ok _ _ _ _ _ (set_val_run i s v val Hv ltac:(lia))).
    exact (on_kern_run _ i1 _ _ (on_nodes_run _ (kern i) _ _ Hrun)).
  - split; cbn; [|apply lookup_insert_eq|apply lookup_insert_eq|set_solver|lia].
    destruct H as [_ Hc Ht Hl Hh]. split; cbn.
    + done.
    + intros q Hq. destruct (Hc q Hq) as (l & c & ? & ? & ?). exists l, c.
      by rewrite lookup_insert_ne.
    + intros t x Hx. destruct (Ht t x Hx). split; [by apply Hs|done].
    + intros hd l y. rewrite lookup_insert. case_decide; [|by apply Hl].
      intros [= <-]. set_solver.
    + intros hd l t. rewrite lookup_insert. case_decide; [by intros _; subst|by apply Hh].
Qed.

Lemma id_of_thread t i : id_of (Some (Thr t)) i = Ok (t, i).
Proof. done. Qed.

Definition with_mutex (m : Z) (x : mutex) (i : ipc) : ipc := set_mutexes (<[m := x]> (mutexes i)) i.

Lemma with_mutex_twice m x y i : with_mutex m y (with_mutex m x i) = with_mutex m y i.
Proof. unfold with_mutex, set_mutexes. cbn. by rewrite insert_insert_eq. Qed.

Lemma with_mutex_run i m x f : mutexes i !! m = Some x → - 2 ^ 31 ≤ _depth (f x) < 2 ^ 31 →
  upd_mutex m f i = Ok ((), with_mutex m (f x) i).
Proof. apply upd_mutex_run. Qed.

Lemma with_mutex_lookup i m x : mutexes (with_mutex m x i) !! m = Some x.
Proof. apply lookup_insert_eq. Qed.

Lemma sem_rep_with_mutex i Q s a m x : sem_rep i Q s a → sem_rep (with_mutex m x i) Q s a.
Proof. by intros []. Qed.

(** The pieces of the calls, by the fields [x] of the mutex. *)

Lemma mutex_own_run i m x t : mutexes i !! m = Some x → - 2 ^ 31 ≤ _depth x < 2 ^ 31 →
  mutex_own m t i = Ok ((), with_mutex m (mkMutex t (_depth x)) i).
Proof. intros Hx Hd. by apply (with_mutex_run i m x). Qed.

Lemma mutex_deeper_run i m x : mutexes i !! m = Some x → - 2 ^ 31 ≤ _depth x < 2 ^ 31 - 1 →
  mutex_deeper m i = Ok ((), with_mutex m (mkMutex (_holder x) (_depth x + 1)) i).
Proof. intros Hx Hd. apply (with_mutex_run i m x); [done|]. cbn. lia. Qed.

(** [_holder = id; ++_depth]. *)
Lemma mutex_take_run i m x t : mutexes i !! m = Some x → - 2 ^ 31 ≤ _depth x < 2 ^ 31 - 1 →
  (mutex_own m t;; mutex_deeper m) i = Ok ((), with_mutex m (mkMutex t (_depth x + 1)) i).
Proof.
  intros Hx Hd. rewrite (bind_Ok _ _ _ _ _ (mutex_own_run i m x t Hx ltac:(lia))).
  rewrite (mutex_deeper_run _ m _ (with_mutex_lookup _ _ _)) by (cbn; lia). by rewrite with_mutex_twice.
Qed.

Definition free : mutex := mkMutex INVALID 0.

Lemma mutex_acquired_run i m x t : mutexes i !! m = Some x →
  mutex_acquired m t i = if decide (x = free) then Ok ((), with_mutex m (mkMutex t 1) i) else Err FAssert.
Proof.
  intros Hx. unfold mutex_acquired. rewrite (bind_Ok _ _ _ _ _ (mutex_of_run _ _ _ Hx)). case_decide as Hf.
  - subst x. cbn [_holder _depth free]. rewrite Z.eqb_refl. cbn [andb Z.eqb assert_]. prog_simpl.
    apply (mutex_take_run i m free t Hx). cbn. lia.
  - replace ((_holder x =? INVALID) && (_depth x =? 0)) with false; [done|]. symmetry.
    destruct (Z.eqb_spec (_holder x) INVALID), (Z.eqb_spec (_depth x) 0); try done. destruct Hf. destruct x. cbn in *. by subst.
Qed.

Lemma mutex_enter_run i m v t x : vals i !! m = Some v → _curThread (kern i) = Some (Thr t) → mutexes i !! m = Some x →
  mutex_enter m i = if v <? 2 then Ok ((t, bool_decide (t = _holder x)), i) else Err FAssert.
Proof.
  intros Hv Hc Hx. unfold mutex_enter. rewrite (bind_Ok _ _ _ _ _ (getValue_run _ _ _ Hv)).
  destruct (v <? 2); [|done]. cbn [assert_]. prog_simpl. rewrite Hc, (bind_Ok _ _ _ _ _ (id_of_thread _ _)).
  by prog_step (mutex_of_run _ _ _ Hx).
Qed.

(** Past the assertions of [unlock]: one level less, and at the last the mutex is free. *)
Lemma mutex_leave_run i m v t x : vals i !! m = Some v → _curThread (kern i) = Some (Thr t) → mutexes i !! m = Some x →
  v < 1 → _holder x = t → 0 < _depth x < 2 ^ 31 →
  mutex_leave m i = Ok (if decide (_depth x = 1) then (true, with_mutex m free i)
                        else (false, with_mutex m (mkMutex t (_depth x - 1)) i)).
Proof.
  intros Hv Hc Hx Hlow <- Hd. unfold mutex_leave.
  rewrite (bind_Ok _ _ _ _ _ (getValue_run _ _ _ Hv)), (proj2 (Z.ltb_lt v 1)) by lia. cbn [assert_]. prog_simpl.
  rewrite Hc, (bind_Ok _ _ _ _ _ (id_of_thread _ _)).
  prog_step (mutex_of_run _ _ _ Hx). rewrite Z.eqb_refl, (proj2 (Z.ltb_lt _ _)) by lia. cbn [assert_]. prog_simpl.
  rewrite (bind_Ok _ _ _ _ _ (with_mutex_run i m x (λ y, mkMutex (_holder y) (_depth y - 1)) Hx ltac:(cbn; lia))).
  prog_step (mutex_of_run _ _ _ (with_mutex_lookup i m (mkMutex (_holder x) (_depth x - 1)))). cbn [_depth].
  case_decide as H1.
  - rewrite H1. cbn [Z.sub Z.opp Z.add Z.pos_sub Z.eqb].
    rewrite (bind_Ok _ _ _ _ _ (mutex_own_run _ m _ INVALID (with_mutex_lookup i m (mkMutex (_holder x) 0)) ltac:(cbn; lia))).
    by rewrite with_mutex_twice.
  - by rewrite (proj2 (Z.eqb_neq (_depth x - 1) 0)) by lia.
Qed.

Lemma mutex_leave_fails i m v t x : vals i !! m = Some v → _curThread (kern i) = Some (Thr t) → mutexes i !! m = Some x →
  1 ≤ v ∨ _holder x ≠ t ∨ _depth x ≤ 0 → mutex_leave m i = Err FAssert.
Proof.
  intros Hv Hc Hx Hbad. unfold mutex_leave. rewrite (bind_Ok _ _ _ _ _ (getValue_run _ _ _ Hv)).
  destruct (Z.ltb_spec v 1); [|done]. cbn [assert_]. prog_simpl. rewrite Hc, (bind_Ok _ _ _ _ _ (id_of_thread _ _)).
  prog_step (mutex_of_run _ _ _ Hx). destruct (Z.eqb_spec t (_holder x)); [|done]. cbn [assert_]. prog_simpl.
  destruct (Z.ltb_spec 0 (_depth x)); [|done]. exfalso. destruct Hbad as [|[|]]; [lia|congruence|lia].
Qed.

(** The calls on a mutex, by the state that it is in. *)
Section mutex_calls.
#[local] Set Default Proof Using "All".
Context (i : ipc) (Q : gmap knode (list knode)) (m : Z) (a : asem) (x : mutex) (t : Z) (y : thread) (l1 l2 : list knode) (n : nat).
Context (Hr : sem_rep i Q m a) (Hx : mutexes i !! m = Some x) (Hcur : current i Q t y l1 l2).
Context (Hd : - 2 ^ 31 ≤ _depth x < 2 ^ 31).

Lemma enter_run : mutex_enter m i = if a_val a <? 2 then Ok ((t, bool_decide (t = _holder x)), i) else Err FAssert.
Proof. exact (mutex_enter_run i m _ t x (rep_val _ _ _ _ Hr) (cur_is _ _ _ _ _ _ Hcur) Hx). Qed.

Lemma mutex_asserts : 2 ≤ a_val a → mutex_lock n m i = Err FAssert ∧ mutex_trylock m i = Err FAssert.
Proof.
  intros Hv. pose proof enter_run as He. rewrite (proj2 (Z.ltb_ge _ _)) in He by lia.
  unfold mutex_lock, mutex_trylock. by rewrite !(bind_Err _ _ _ _ He).
Qed.

Lemma mutex_too_deep : _holder x = t → a_val a < 2 → _depth x = 2 ^ 31 - 1 →
  mutex_lock n m i = Err FUndef ∧ mutex_trylock m i = Err FUndef.
Proof.
  intros Hh Hv Hmax. pose proof enter_run as He. rewrite (proj2 (Z.ltb_lt _ _)), bool_decide_true in He by done.
  assert (mutex_deeper m i = Err FUndef) as Herr by (unfold mutex_deeper, upd_mutex; rewrite Hx; cbn [_depth]; by rewrite Hmax).
  unfold mutex_lock, mutex_trylock. by rewrite !(bind_Ok _ _ _ _ _ He), !(bind_Err _ _ _ _ Herr).
Qed.

Lemma mutex_relock : _holder x = t → a_val a < 2 → _depth x < 2 ^ 31 - 1 →
   mutex_lock n m i = Ok (true, with_mutex m (mkMutex t (_depth x + 1)) i) ∧
   mutex_trylock m i = Ok (true, with_mutex m (mkMutex t (_depth x + 1)) i).
Proof.
  intros Hh Hv Hmax. pose proof enter_run as He. rewrite (proj2 (Z.ltb_lt _ _)), bool_decide_true in He by done.
  unfold mutex_lock, mutex_trylock. rewrite !(bind_Ok _ _ _ _ _ He), !(bind_Ok _ _ _ _ _ (mutex_deeper_run i m x Hx ltac:(lia))). by rewrite Hh.
Qed.

Lemma mutex_lock_waits : _holder x ≠ t → a_val a < 2 → mutex_lock n m i = mutex_wait n m t i.
Proof.
  intros Hh Hv. pose proof enter_run as He. rewrite (proj2 (Z.ltb_lt _ _)), bool_decide_false in He by congruence.
  unfold mutex_lock. by rewrite !(bind_Ok _ _ _ _ _ He).
Qed.

Lemma mutex_try_other : _holder x ≠ t → a_val a < 2 → _depth x < 2 ^ 31 - 1 →
  mutex_trylock m i =
    if 0 <? a_val a then Ok (true, with_mutex m (mkMutex t (_depth x + 1)) (set_vals (<[m := a_val a - 1]> (vals i)) i))
    else Ok (false, i).
Proof.
  intros Hh Hv Hmax. pose proof enter_run as He. rewrite (proj2 (Z.ltb_lt _ _)), bool_decide_false in He by congruence.
  destruct (trylock_run i Q m a Hr) as (i2 & Htry & _ & Hk & Hm & Hv2).
  unfold mutex_trylock. rewrite (bind_Ok _ _ _ _ _ He). rewrite (bind_Ok _ _ _ _ _ Htry). unfold sem_try.
  destruct (Z.ltb_spec 0 (a_val a)); cbn [fst when].
  - assert (i2 = set_vals (<[m := a_val a - 1]> (vals i)) i) as -> by (destruct i, i2; cbn in *; by simplify_eq).
    by rewrite (bind_Ok _ _ _ _ _ (mutex_take_run (set_vals (<[m := a_val a - 1]> (vals i)) i) m x t Hx ltac:(lia))).
  - assert (i2 = i) as -> by (destruct i, i2; cbn in *; by simplify_eq). done.
Qed.

Lemma mutex_wait_takes : 0 < a_val a →
  mutex_wait (S n) m t i =
    if decide (x = free) then Ok (true, with_mutex m (mkMutex t 1) (set_vals (<[m := a_val a - 1]> (vals i)) i)) else Err FAssert.
Proof.
  intros Hv. unfold mutex_wait. rewrite (bind_Ok _ _ _ _ _ (lock_takes i Q m a t y l1 l2 n Hr Hcur Hv)). cbn [when].
  pose proof (mutex_acquired_run (set_vals (<[m := a_val a - 1]> (vals i)) i) m x t Hx) as Ha. case_decide.
  - by rewrite (bind_Ok _ _ _ _ _ Ha).
  - by rewrite (bind_Err _ _ _ _ Ha).
Qed.

Lemma mutex_wait_busy : a_val a ≤ 0 → - 2 ^ 31 < a_val a - 1 →
  ∃ i1 Q1, lock_pass m i = Ok (false, i1) ∧ sem_rep i1 Q1 m (snd (sem_take t a)) ∧ mutexes i1 = mutexes i ∧ waits (kern i1) t ∧
    ∀ k2, scheduleInSemaphore (kern i1) = Ok ((), k2) →
      mutex_wait (S n) m t i = if decide (_curThread k2 = Some (Thr t)) then mutex_wait n m t (set_kern k2 i1)
                               else Ok (false, set_kern k2 i1).
Proof.
  intros Hv Hlow. destruct (lock_contended i Q m a t y l1 l2 n Hr Hcur Hv Hlow) as (i1 & Q1 & Hrun & Hr1 & Hm & Hw & _ & Hlock & _).
  exists i1, Q1. split_and!; [done..|]. intros k2 Hk2. specialize (Hlock k2 Hk2). unfold mutex_wait. case_decide as Hk.
  - unfold mbind, prog_bind. by rewrite Hlock.
  - by rewrite (bind_Ok _ _ _ _ _ Hlock).
Qed.

Lemma mutex_unlock_fails : 1 ≤ a_val a ∨ _holder x ≠ t ∨ _depth x ≤ 0 → mutex_unlock m i = Err FAssert.
Proof.
  intros Hbad. unfold mutex_unlock.
  by rewrite (bind_Err _ _ _ _ (mutex_leave_fails i m _ t x (rep_val _ _ _ _ Hr) (cur_is _ _ _ _ _ _ Hcur) Hx Hbad)).
Qed.

(** The end of the last [unlock] and of [destroy]. *)
Definition mutex_released (i' : ipc) : Prop :=
  mutexes i' = <[m := free]> (mutexes i) ∧ vals i' !! m = Some (a_val (sem_release a)) ∧
  ∀ u, u ∈ a_waiters a → _state <$> threads (kern i') !! u = Some Ready.

Lemma free_unlock : ∃ i', unlock m (with_mutex m free i) = Ok ((), i') ∧ mutex_released i'.
Proof.
  destruct (unlock_run (with_mutex m free i) Q m a ltac:(by apply sem_rep_with_mutex)) as (k' & Hrun & _ & Hth & _).
  eexists. split; [exact Hrun|]. split; [done|]. split; [apply lookup_insert_eq|].
  intros u Hu. cbn. rewrite Hth, foldl_awake, decide_True by (done || by eapply rep_nodup).
  destruct (rep_waiting _ _ _ _ Hr u Hu) as (z & Hz & _). cbn. by rewrite Hz.
Qed.

Lemma mutex_unlock_held : _holder x = t → a_val a < 1 → 0 < _depth x →
  if decide (_depth x = 1) then ∃ i', mutex_unlock m i = Ok ((), i') ∧ mutex_released i'
  else mutex_unlock m i = Ok ((), with_mutex m (mkMutex t (_depth x - 1)) i).
Proof.
  intros Hh Hv Hpos. destruct free_unlock as (i' & Hun & Hrel).
  pose proof (mutex_leave_run i m _ t x (rep_val _ _ _ _ Hr) (cur_is _ _ _ _ _ _ Hcur) Hx Hv Hh ltac:(lia)) as Hl.
  unfold mutex_unlock. case_decide.
  - exists i'. by rewrite (bind_Ok _ _ _ _ _ Hl).
  - by rewrite (bind_Ok _ _ _ _ _ Hl).
Qed.

Lemma mutex_destroy_run :
  if decide (_depth x < 0) then ∃ i', mutex_destroy m i = Ok ((), i') ∧ mutex_released i' else mutex_destroy m i = Ok ((), i).
Proof.
  destruct free_unlock as (i' & Hun & Hrel). unfold mutex_destroy.
  rewrite !(bind_Ok _ _ _ _ _ (mutex_of_run _ _ _ Hx)). destruct (decide (_depth x < 0)) as [Hneg|Hneg].
  - exists i'. split; [|done]. rewrite (proj2 (Z.ltb_lt _ _)) by done.
    by rewrite (bind_Ok _ _ _ _ _ (with_mutex_run i m x (λ _, free) Hx ltac:(cbn; lia))).
  - by rewrite (proj2 (Z.ltb_ge _ _)) by lia.
Qed.

End mutex_calls.

(** C18. The calls of a mutex by the running thread [t], on every branch. On entry [lock] and [trylock]
    assert that the semaphore has fewer than two units. The holder re-enters with both, which only
    count (past the range of [_depth] that is undefined). Another thread waits with [lock] for the
    unit and tries it with [trylock]. When the unit is free, [trylock] makes [t] the holder, and
    [lock] does so if the mutex is free and fails its assertion if it is not. When it is not,
    [trylock] fails and changes nothing; [lock] queues [t] up, and then goes on waiting if the
    scheduler returns to [t], and stands before its next pass if another thread gets the CPU.
    [unlock] fails an assertion if the semaphore has a unit, if [t] is not the holder or if the
    depth is not positive; else it counts down, and at the last level resets the holder and
    releases the semaphore, which makes every waiter ready. [destroy] does nothing unless the
    depth is negative; then it frees the mutex and releases. *)
Theorem mutex_spec i Q m a x t y l1 l2 n :
  sem_rep i Q m a → mutexes i !! m = Some x → current i Q t y l1 l2 → - 2 ^ 31 ≤ _depth x < 2 ^ 31 →
  let released i' := mutexes i' = <[m := mkMutex INVALID 0]> (mutexes i) ∧ vals i' !! m = Some (a_val (sem_release a)) ∧
    ∀ u, u ∈ a_waiters a → _state <$> threads (kern i') !! u = Some Ready in
  let taken := set_vals (<[m := a_val a - 1]> (vals i)) i in
  (2 ≤ a_val a → mutex_lock n m i = Err FAssert ∧ mutex_trylock m i = Err FAssert) ∧
  (_holder x = t → a_val a < 2 →
     (_depth x < 2 ^ 31 - 1 →
        mutex_lock n m i = Ok (true, with_mutex m (mkMutex t (_depth x + 1)) i) ∧
        mutex_trylock m i = Ok (true, with_mutex m (mkMutex t (_depth x + 1)) i)) ∧
     (_depth x = 2 ^ 31 - 1 → mutex_lock n m i = Err FUndef ∧ mutex_trylock m i = Err FUndef)) ∧
  (_holder x ≠ t → a_val a < 2 →
     mutex_lock n m i = mutex_wait n m t i ∧
     (_depth x < 2 ^ 31 - 1 →
        mutex_trylock m i = if 0 <? a_val a then Ok (true, with_mutex m (mkMutex t (_depth x + 1)) taken) else Ok (false, i))) ∧
  (0 < a_val a →
     mutex_wait (S n) m t i =
       if decide (x = mkMutex INVALID 0) then Ok (true, with_mutex m (mkMutex t 1) taken) else Err FAssert) ∧
  (a_val a ≤ 0 → - 2 ^ 31 < a_val a - 1 →
     ∃ i1 Q1, lock_pass m i = Ok (false, i1) ∧ sem_rep i1 Q1 m (snd (sem_take t a)) ∧ mutexes i1 = mutexes i ∧ waits (kern i1) t ∧
       ∀ k2, scheduleInSemaphore (kern i1) = Ok ((), k2) →
         mutex_wait (S n) m t i = if decide (_curThread k2 = Some (Thr t)) then mutex_wait n m t (set_kern k2 i1)
                                  else Ok (false, set_kern k2 i1)) ∧
  (1 ≤ a_val a ∨ _holder x ≠ t ∨ _depth x ≤ 0 → mutex_unlock m i = Err FAssert) ∧
  (_holder x = t → a_val a < 1 → 0 < _depth x →
     if decide (_depth x = 1) then ∃ i', mutex_unlock m i = Ok ((), i') ∧ released i'
     else mutex_unlock m i = Ok ((), with_mutex m (mkMutex t (_depth x - 1)) i)) ∧
  (if decide (_depth x < 0) then ∃ i', mutex_destroy m i = Ok ((), i') ∧ released i' else mutex_destroy m i = Ok ((), i)).
Proof.
  intros Hr Hx Hcur Hd released taken. split_and!.
  - by eapply mutex_asserts.
  - intros Hh Hv. split; [by eapply mutex_relock|by eapply mutex_too_deep].
  - intros Hh Hv. split; [by eapply mutex_lock_waits|by eapply mutex_try_other].
  - by eapply mutex_wait_takes.
  - by eapply mutex_wait_busy.
  - by eapply mutex_unlock_fails.
  - by eapply mutex_unlock_held.
  - by eapply mutex_destroy_run.
Qed.

(** ** A waiter that keeps running

    [scheduleInSemaphore] is [scheduleInInterrupt]: it switches to another thread
    only at the end of a time slice or for a thread of a higher priority. *)

Lemma scheduleInSemaphore_stays k t x :
  _curThread k = Some (Thr t) → threads k !! t = Some x →
  _maxPrio k ≤ _priority x → 0 ≤ _execTicks x → _execTicks x + 1 < _totalTicks x < 2 ^ 32 →
  scheduleInSemaphore k = Ok ((), upd_thread t (with_ticks (_execTicks x + 1) x) k).
Proof.
  intros Hc Hx Hm H0 Hs. unfold scheduleInSemaphore, scheduleInInterrupt. prog_simpl.
  rewrite Hc, (bind_Ok _ _ _ _ _ (upd_thr_run k t x _ Hx)).
  rewrite (wrapu_id 32) by (unfold in_u; lia).
  prog_step (thr_run (upd_thread t (with_ticks (_execTicks x + 1) x) k) t
    (with_ticks (_execTicks x + 1) x) ltac:(apply lookup_insert_eq)).
  cbn [with_ticks _priority _totalTicks _execTicks].
  rewrite (proj2 (Z.ltb_ge _ _)), (proj2 (Z.leb_gt _ _)) by lia. done.
Qed.

(** A second pass of [lock] by a thread that is already the last waiter. *)
Lemma lock_pass_again i Q s a t x us :
  sem_rep i Q s a → a_waiters a = us ++ [t] → a_val a ≤ 0 → - 2 ^ 31 < a_val a - 1 →
  _curThread (kern i) = Some (Thr t) → threads (kern i) !! t = Some x →
  ∃ i', lock_pass s i = Ok (false, i') ∧
    vals i' !! s = Some (a_val a - 1) ∧
    _curNodeInGroup (kern i') !! _priority x = Some (Some (SemHdr s)).
Proof.
  intros [H Hv HQ Hw Hr] Ha Hneg Hlow Hc Hx. set (k := kern i) in *. set (q := _priority x).
  set (i1 := set_vals (<[s := a_val a - 1]> (vals i)) i).
  assert (vals i1 !! s = Some (a_val a - 1)) as Hv1 by apply lookup_insert_eq.
  rewrite Ha, map_app in HQ. cbn [map] in HQ.
  destruct (wf_thread _ _ H t x Hx) as [Hm Hp].
  assert (is_Some (_curNodeInGroup k !! q)) as Hcs.
  { destruct (wf_cursor _ _ H q Hp) as (? & ? & _ & ? & _). eauto. }
  pose proof (proj1 (wf_rings _ _ H) _ _ HQ) as Hring.
  destruct (node_of_run (nodes k) (Thr t) Hm) as (n & Hn & Hnext & _).
  assert (next n = Some (SemHdr s)) as Hhd.
  { apply (ring_rotate _ _ (map Thr us) (Thr t) []), ring_first in Hring. cbn in Hring.
    rewrite Hring in Hnext. by injection Hnext. }
  destruct (rings_del _ _ _ _ (Thr t) [] (wf_rings _ _ H) HQ)
    as (h1 & Hdel & Hr1 & Hs1 & Hn1 & _ & Hu). rewrite app_nil_r in Hr1, Hu.
  set (k0 := set_cursors (<[q := Some (SemHdr s)]> (_curNodeInGroup k)) k).
  set (k1 := upd_thread t (with_state Waiting x) (set_nodes h1 k0)).
  assert (suspendSelf (Some (Thr t)) k = Ok ((), k1)) as Hsus.
  { unfold suspendSelf, suspend. prog_step (thr_run k t x Hx). prog_step (thr_run k t x Hx).
    rewrite Z.leb_refl. cbn [assert_]. prog_simpl. unfold remove.
    rewrite bool_decide_true by done. cbn [assert_]. prog_simpl. prog_step (thr_run k t x Hx).
    prog_step (on_nodes_run _ k _ _ Hn). rewrite Hhd.
    replace (set_nodes (nodes k) k) with k by by destruct k.
    fold q. prog_step (set_cursor_run k q (Some (SemHdr s)) Hcs). fold k0.
    prog_step (on_nodes_run _ k0 _ _ Hdel). by apply (upd_thr_run _ t x). }
  assert (is_Some (h1 !! Thr t)) as Hm1 by by apply Hs1.
  destruct (rings_addTail h1 _ (SemHdr s) (map Thr us) (SemHdr s) (Thr t) Hr1
    ltac:(apply lookup_insert_eq) ltac:(set_solver) Hu Hm1) as (h2 & Hadd & _ & _).
  destruct (node_of_run h1 (Thr t) Hm1) as (n1 & Hnode1 & Hnext1 & _).
  assert (next n1 = None) as Hnone by congruence.
  exists (set_kern (set_nodes h2 k1) i1). split; [|split; [done|]].
  - unfold lock_pass. rewrite (bind_Ok _ _ _ _ _ (add_val_run i s _ (-1) Hv ltac:(lia))).
    change (a_val a + -1) with (a_val a - 1). fold i1.
    rewrite (bind_Ok _ _ _ _ _ (getValue_run _ _ _ Hv1)), (proj2 (Z.ltb_lt _ _)) by lia. prog_simpl.
    change (kern i1) with k. rewrite Hc. prog_step (on_kern_run _ i1 _ _ Hsus).
    prog_step (on_kern_run _ (set_kern k1 i1) _ _ (on_nodes_run _ k1 _ _ Hnode1)).
    rewrite bool_decide_true by done. cbn [assert_]. prog_simpl.
    by rewrite (bind_Ok _ _ _ _ _ (on_kern_run _ (set_kern k1 i1) _ _ (on_nodes_run _ k1 _ _ Hadd))).
  - apply lookup_insert_eq.
Qed.

(** C39. [lock] on an exhausted semaphore does not stop the caller before its time
    slice ends: [scheduleInSemaphore] returns to the same thread, whose state is
    [Waiting] and which is linked in the list of waiters. The next pass takes a
    further unit off the counter for the same waiter, and its [remove] moves the
    cursor of the run queue onto the header of the list of waiters. *)
Theorem lock_does_not_block i Q s a t x l1 l2 :
  sem_rep i Q s a → current i Q t x l1 l2 → a_val a ≤ 0 → - 2 ^ 31 < a_val a - 2 →
  _maxPrio (kern i) ≤ _priority x → 0 ≤ _execTicks x → _execTicks x + 1 < _totalTicks x < 2 ^ 32 →
  ∃ i1 k2 i3, lock_pass s i = Ok (false, i1) ∧
    scheduleInSemaphore (kern i1) = Ok ((), k2) ∧
    _curThread k2 = Some (Thr t) ∧ _state <$> threads k2 !! t = Some Waiting ∧
    lock_pass s (set_kern k2 i1) = Ok (false, i3) ∧
    vals i3 !! s = Some (a_val a - 2) ∧
    _curNodeInGroup (kern i3) !! _priority x = Some (Some (SemHdr s)).
Proof.
  intros Hr Hc Hneg Hlow Hm H0 Hs.
  destruct (lock_pass_block i Q s a t x l1 l2 Hr Hc Hneg ltac:(lia))
    as (i1 & Hrun & _ & Hr1 & Ht1 & Hc1 & Hm1 & _).
  assert (threads (kern i1) !! t = Some (with_state Waiting x)) as Hx1
    by (rewrite Ht1; apply lookup_insert_eq).
  pose proof (scheduleInSemaphore_stays (kern i1) t _ Hc1 Hx1
    ltac:(cbn; lia) ltac:(done) ltac:(done)) as Hsched.
  set (k2 := upd_thread _ _ _) in *. set (a1 := ASem _ _) in *.
  match type of Hr1 with sem_rep _ ?R _ _ => set (Q1 := R) in * end.
  assert (sem_rep (set_kern k2 i1) Q1 s a1) as Hr2.
  { destruct Hr1 as [H1 Hv1 HQ1 Hw1 Hl1]. split; [|done|exact HQ1| |done].
    - eapply wf_upd_thread; [exact H1|exact Hx1|done].
    - intros u Hu. cbn. rewrite lookup_insert. case_decide; [subst; by eexists|by apply Hw1]. }
  destruct (lock_pass_again (set_kern k2 i1) Q1 s a1 t (with_ticks (_execTicks x + 1)
    (with_state Waiting x)) (a_waiters a) Hr2 eq_refl) as (i3 & Hrun3 & Hv3 & Hc3).
  { cbn. lia. } { cbn. lia. } { done. } { apply lookup_insert_eq. }
  exists i1, k2, i3. split; [done|]. split; [done|]. split; [done|]. split.
  { cbn. by rewrite lookup_insert_eq. }
  split; [done|]. split; [|done]. rewrite Hv3. cbn. f_equal. lia.
Qed.

(** ** Witnesses *)

(** A kernel whose threads 1, 2 and 3 of priority 5 are ready in their run queue,
    the first one running, and a semaphore 0 that is initialised with [val]. *)
Definition sample_ipc : ipc :=
  mkIpc (set_nodes (<[SemHdr 0 := Node None None]> (nodes sample_kernel)) sample_kernel)
    {[ 0 := 0 ]} {[ 0 := mkMutex 0 0 ]}.

Definition boot : prog kernel () :=
  init_array;; append (Some (Thr 1));; append (Some (Thr 2));; append (Some (Thr 3));; start.

Lemma sample_ipc_storage : storage (kern sample_ipc).
Proof.
  destruct sample_storage as [Hc Hn Ht]. split; [exact Hc| |].
  - intros q Hq. cbn [sample_ipc kern nodes set_nodes].
    rewrite lookup_insert_ne by discriminate. by apply Hn.
  - intros t x Hx. destruct (Ht t x Hx) as [Hm Hp]. split; [|exact Hp].
    cbn [sample_ipc kern nodes set_nodes]. rewrite lookup_insert_ne by discriminate. exact Hm.
Qed.

(** The header of the semaphore is untouched by the start of the scheduler. *)
Definition header_fresh (r : res (() * kernel)) : bool :=
  match r with
  | Ok (_, k) => match nodes k !! SemHdr 0 with Some (Node None None) => true | _ => false end
  | Err _ => false
  end.

Lemma boot_header : header_fresh (boot (kern sample_ipc)) = true.
Proof. vm_compute. reflexivity. Qed.

Lemma header_not_linked k Q :
  wf k Q → header_fresh (Ok ((), k)) = true →
  Q !! SemHdr 0 = None ∧ is_Some (nodes k !! SemHdr 0).
Proof.
  unfold header_fresh. intros H Hf. destruct (nodes k !! SemHdr 0) as [[[] []]|] eqn:E; try done.
  split; [|by eexists]. destruct (Q !! SemHdr 0) as [l|] eqn:HQ; [|done].
  pose proof (ring_first _ _ _ (proj1 (wf_rings _ _ H) _ _ HQ)) as Hn.
  unfold next_of in Hn. rewrite E in Hn. done.
Qed.

(** The threads that the boot leaves, and the candidate. *)
Definition sample_threads : gmap Z thread :=
  list_to_map [(1, with_state Running sample_thread); (2, sample_thread); (3, sample_thread)].

Lemma boot_result : (if boot (kern sample_ipc) is Ok (_, k)
  then bool_decide (map_to_list (threads k) = map_to_list sample_threads ∧ _higherPriorityThread k = Some (Thr 1)) else false) = true.
Proof. vm_compute. reflexivity. Qed.

Lemma sample_threads_some t x : sample_threads !! t = Some x → (t = 1 ∨ t = 2 ∨ t = 3) ∧ _priority x = 5 ∧ runnable x.
Proof.
  intros Hx%elem_of_list_to_map_2. unfold runnable.
  repeat (apply elem_of_cons in Hx as [[= -> ->]|Hx]; [cbn; tauto|]). by apply elem_of_nil in Hx.
Qed.

Lemma boot_sched_inv k Q l : running k Q 1 (with_state Running sample_thread) l →
  threads k = sample_threads → _higherPriorityThread k = Some (Thr 1) → Thr 2 ∈ l → Thr 3 ∈ l → sched_inv k Q.
Proof.
  intros [H Hc Hx _ Hm HQ Hin _ _] Ht Hh H2 H3. split; [done|..].
  - intros t x. rewrite Ht. intros ([-> | [-> | ->]] & -> & _)%sample_threads_some _; by exists l.
  - intros q l' t HQ' Ht'. destruct (wf_linked _ _ H _ _ _ HQ' Ht') as (u & x & [= <-] & Hu & _). exists x. split; [done|].
    rewrite Ht in Hu. by apply sample_threads_some in Hu as (_ & _ & ?).
  - exists 1. eexists. split; [done|]. split; [exact Hx|done].
  - exists 1. eexists. split; [done|]. split; [exact Hx|]. left. by right.
Qed.

(** A new semaphore changes nothing for the scheduler. *)
Lemma sched_inv_init k k' Q s : sched_inv k Q → wf k' (<[SemHdr s := []]> Q) → threads k' = threads k →
  _curThread k' = _curThread k → _maxPrio k' = _maxPrio k → _higherPriorityThread k' = _higherPriorityThread k →
  sched_inv k' (<[SemHdr s := []]> Q).
Proof.
  intros [_ Hl Hq Hca Hcu] H' Ht Hc Hm Hh. split; [done|..].
  - intros t x. rewrite Ht, lookup_insert_ne by done. by apply Hl.
  - intros q l t. rewrite lookup_insert_ne, Ht by done. by apply Hq.
  - unfold candidate. by rewrite Hh, Ht, Hm.
  - by rewrite Hc, Ht.
Qed.

Lemma boot_sample val : - 2 ^ 31 < val < 2 ^ 31 - 1 → ∃ k i Q,
  boot (kern sample_ipc) = Ok ((), k) ∧
  sem_init 0 val (set_kern k sample_ipc) = Ok ((), i) ∧
  sem_rep i Q 0 (ASem val []) ∧ mutexes i = mutexes sample_ipc ∧
  _maxPrio (kern i) = 5 ∧ sched_inv (kern i) Q ∧ threads (kern i) = sample_threads ∧
  ∃ l1 l2, current i Q 1 (with_state Running sample_thread) l1 l2.
Proof.
  intros Hval.
  destruct (three_threads_rr (kern sample_ipc) sample_ipc_storage eq_refl)
    as (k & Q & l & Hrun & [Hrunning _ Hrest _] & _).
  { intros t [-> | [-> | ->]]; reflexivity. }
  pose proof Hrunning as [H Hc Ht _ Hmax HQ Hin _ _].
  assert (∀ u, u = 2 ∨ u = 3 → Thr u ∈ l) as Hother.
  { intros u Hu. assert (Thr u ∈ filter is_thr (walk (PrioHdr 5) (Thr 1) l)) as [_ Hw]%list_elem_of_filter.
    { cbn in Hrest. rewrite Hrest. cbn. destruct Hu as [-> | ->]; [by left|by right; left]. }
    pose proof (proj1 (wf_rings _ _ H) _ _ HQ) as Hring.
    assert (Thr u ∈ PrioHdr 5 :: l) as Hu' by (eapply walk_elem; [exact Hring|by right|by right]).
    by apply elem_of_cons in Hu' as [|]. }
  assert (threads k = sample_threads ∧ _higherPriorityThread k = Some (Thr 1)) as [Hts Hh].
  { pose proof boot_result as Hb. unfold boot in Hb. rewrite Hrun in Hb. apply bool_decide_eq_true in Hb as [Hm Hh].
    split; [|done]. by rewrite <- (list_to_map_to_list (threads k)), Hm, list_to_map_to_list. }
  pose proof (boot_sched_inv k Q l Hrunning Hts Hh (Hother 2 ltac:(tauto)) (Hother 3 ltac:(tauto))) as Hinv.
  pose proof boot_header as Hf. unfold boot in Hf. rewrite Hrun in Hf.
  destruct (header_not_linked k Q H Hf) as [HQ0 Hm].
  destruct (sem_init_run (set_kern k sample_ipc) Q 0 0 val H HQ0 Hm eq_refl Hval)
    as (i & Hi & Hr & Hmx & Hth & Hcu & Hmp & Hhi).
  exists k, i, (<[SemHdr 0 := []]> Q). split; [exact Hrun|]. split; [exact Hi|].
  split; [exact Hr|]. split; [exact Hmx|]. split; [rewrite Hmp; exact Hmax|].
  split; [exact (sched_inv_init _ _ _ _ Hinv (rep_wf _ _ _ _ Hr) Hth Hcu Hmp Hhi)|]. split; [by rewrite Hth|].
  apply list_elem_of_split in Hin as (l1 & l2 & ->). exists l1, l2. split.
  - rewrite Hcu. exact Hc.
  - rewrite Hth. exact Ht.
  - rewrite lookup_insert_ne by discriminate. exact HQ.
Qed.

Example semaphore_refines_witness : ∃ i i1 i2,
  lock 1 0 i = Ok (true, i1) ∧ vals i1 !! 0 = Some 0 ∧
  unlock 0 i = Ok ((), i2) ∧ vals i2 !! 0 = Some 2.
Proof.
  destruct (boot_sample 1 ltac:(lia)) as (k & i & Q & _ & _ & Hr & _ & _ & _ & _ & l1 & l2 & Hc).
  destruct (semaphore_refines i Q 0 (ASem 1 []) Hr) as (_ & Hlock & _ & _ & (i2 & Q2 & Hun & _ & Hv2 & _)).
  destruct (Hlock 1 _ l1 l2 0%nat Hc ltac:(cbn; lia)) as (i1 & Hrun & _ & Hr1 & _).
  exists i, i1, i2. split; [exact Hrun|]. split; [exact (rep_val _ _ _ _ Hr1)|].
  split; [exact Hun|]. exact Hv2.
Defined.

Example lock_does_not_block_witness : ∃ i i1 k2 i3,
  lock_pass 0 i = Ok (false, i1) ∧ scheduleInSemaphore (kern i1) = Ok ((), k2) ∧
  _curThread k2 = Some (Thr 1) ∧ lock_pass 0 (set_kern k2 i1) = Ok (false, i3) ∧
  vals i3 !! 0 = Some (-2) ∧ _curNodeInGroup (kern i3) !! 5 = Some (Some (SemHdr 0)).
Proof.
  destruct (boot_sample 0 ltac:(lia)) as (k & i & Q & _ & _ & Hr & _ & Hm & _ & _ & l1 & l2 & Hc).
  destruct (lock_does_not_block i Q 0 (ASem 0 []) 1 _ l1 l2 Hr Hc ltac:(cbn; lia)
    ltac:(cbn; lia) ltac:(cbn; lia) ltac:(cbn; lia) ltac:(cbn; lia))
    as (i1 & k2 & i3 & H1 & H2 & H3 & _ & H4 & H5 & H6).
  exists i, i1, k2, i3. split; [exact H1|]. split; [exact H2|]. split; [exact H3|].
  split; [exact H4|]. split; [exact H5|exact H6].
Defined.

Example mutex_spec_witness : ∃ i i1,
  mutex_lock 1 0 i = Ok (true, i1) ∧ mutexes i1 !! 0 = Some (mkMutex 1 1).
Proof.
  destruct (boot_sample 1 ltac:(lia)) as (k & i & Q & _ & _ & Hr & Hmx & _ & _ & _ & l1 & l2 & Hc).
  set (i' := with_mutex 0 (mkMutex INVALID 0) i).
  destruct (mutex_spec i' Q 0 (ASem 1 []) (mkMutex INVALID 0) 1
    (with_state Running sample_thread) l1 l2 1) as (_ & _ & Hother & _).
  - apply sem_rep_with_mutex. exact Hr.
  - apply with_mutex_lookup.
  - destruct Hc as [H1 H2 H3]. split; [exact H1|exact H2|exact H3].
  - cbn. lia.
  - destruct (mutex_spec i' Q 0 (ASem 1 []) (mkMutex INVALID 0) 1
      (with_state Running sample_thread) l1 l2 0) as (_ & _ & _ & Hwait & _).
    + apply sem_rep_with_mutex. exact Hr.
    + apply with_mutex_lookup.
    + destruct Hc as [H1 H2 H3]. split; [exact H1|exact H2|exact H3].
    + cbn. lia.
    + destruct (Hother ltac:(cbn; discriminate) ltac:(cbn; lia)) as [Hl _].
      eexists _, _. split; [rewrite Hl; exact (Hwait ltac:(cbn; lia))|]. apply with_mutex_lookup.
Defined.
