(* ===== verification/SyncSafety.v ===== *)
(** * Threads that share a semaphore or a mutex

    Interleavings of [kernel/src/ipc/semaphore.cpp] and [mutex.cpp] with the scheduler of
    [kernel/src/task/schedule.cpp]. The steps are the programs of [Sync] and [Sched], run by the
    thread that has the CPU on the state of the kernel: a pass of [lock], [trylock], [unlock], the
    pieces of the calls of a mutex between which the CPU can be lost, and [scheduleInInterrupt],
    called by the tick or by [lock]. A step is taken when the program ends with [Ok]; that each of
    them does so wherever a thread comes to it is part of the theorems.

    One thing is asked of the scheduler, [Sched.orderly]: that a call of it neither resumes a thread
    that waits nor takes it out of its state. [Sched.tick_orderly] and [Sched.preempt_orderly] are
    the calls that comply: those with a thread at work when no greater priority has been seen,
    and those where the candidate of the greatest priority can run. The code does not comply by itself:
    [Sync.lock_does_not_block] has a call that returns to the thread that has just queued up. So
    the theorems are about the executions in which this does not happen. *)

From S2P Require Import Prelude DList Sched Sync.

(** ** The kernel with a semaphore

    [D] are the identities of the threads. *)

Record live (D : gset Z) (i : ipc) Q s a : Prop := {
  lv_rep : sem_rep i Q s a;
  lv_inv : sched_inv (kern i) Q;
  lv_dom : dom (threads (kern i)) = D
}.

Lemma live_waiters D i Q s a : live D i Q s a → zlen (a_waiters a) ≤ Z.of_nat (size D).
Proof.
  intros [Hr _ HD]. apply inj_le. rewrite <- (size_list_to_set (C := gset Z)) by by eapply rep_nodup.
  apply subseteq_size. intros u Hu%elem_of_list_to_set. rewrite <- HD. apply elem_of_dom.
  destruct (rep_waiting _ _ _ _ Hr u Hu) as (x & -> & _). by eexists.
Qed.

Lemma at_work_in D i Q s a t : live D i Q s a → at_work (kern i) t → t ∈ D.
Proof. intros [_ _ <-] [_ (x & Hx & _)]. by apply elem_of_dom_2 in Hx. Qed.

Lemma at_work_not_waiter D i Q s a t : live D i Q s a → at_work (kern i) t → t ∉ a_waiters a.
Proof.
  intros Hl [_ (x & Hx & Hr)] Hin. destruct (rep_waiting _ _ _ _ (lv_rep _ _ _ _ _ Hl) t Hin) as (y & Hy & Hst).
  assert (y = x) as -> by congruence. destruct Hr; congruence.
Qed.

Lemma live_take D i Q s a t : live D i Q s a → at_work (kern i) t → 0 < a_val a →
  ∃ i', lock_pass s i = Ok (true, i') ∧ live D i' Q s (ASem (a_val a - 1) (a_waiters a)) ∧ mutexes i' = mutexes i.
Proof.
  intros [Hr Hinv HD] Hat Hv. destruct (at_work_current i Q t Hinv Hat) as (x & l1 & l2 & Hc & _).
  destruct (lock_pass_take i Q s a t x l1 l2 Hr Hc Hv) as (Hrun & _ & Hr'). eexists. split; [exact Hrun|]. by split.
Qed.

Lemma live_block D i Q s a t : live D i Q s a → at_work (kern i) t → a_val a ≤ 0 → - 2 ^ 31 < a_val a - 1 →
  ∃ i' Q', lock_pass s i = Ok (false, i') ∧ live D i' Q' s (ASem (a_val a - 1) (a_waiters a ++ [t])) ∧ mutexes i' = mutexes i.
Proof.
  intros [Hr Hinv HD] Hat Hv Hlow. destruct (at_work_current i Q t Hinv Hat) as (x & l1 & l2 & Hc & _).
  destruct (lock_pass_block i Q s a t x l1 l2 Hr Hc Hv Hlow) as (i1 & Hrun & _ & Hr1 & Hth & Hc1 & Hm1 & _ & _ & Hx1 & Hh1).
  exists i1. eexists. split; [exact Hrun|]. split; [|done]. split; [exact Hr1| |].
  - by eapply block_inv; [| |exact (rep_wf _ _ _ _ Hr1)|..].
  - rewrite Hth, dom_insert_L, <- HD. pose proof (cur_thr _ _ _ _ _ _ Hc) as Hd%elem_of_dom_2. set_solver.
Qed.

Lemma live_try D i Q s a : live D i Q s a →
  ∃ i', trylock s i = Ok (fst (sem_try a), i') ∧ live D i' Q s (snd (sem_try a)) ∧ mutexes i' = mutexes i ∧ kern i' = kern i.
Proof.
  intros [Hr Hinv HD]. destruct (trylock_run i Q s a Hr) as (i' & Hrun & Hr' & Hk & Hm & _).
  exists i'. split; [done|]. split; [|done]. split; [done|by rewrite Hk|by rewrite Hk].
Qed.

Lemma dom_awake us : ∀ ts : gmap Z thread, dom (foldl awake ts us) = dom ts.
Proof.
  induction us as [|u us IH]; intros ts; cbn; [done|]. rewrite IH. unfold awake.
  destruct (ts !! u) eqn:Hu; [|done]. apply elem_of_dom_2 in Hu. set_solver.
Qed.

Lemma live_unlock D i Q s a : live D i Q s a → - 2 ^ 31 < a_val (sem_release a) < 2 ^ 31 - 1 →
  ∃ i', unlock s i = Ok ((), i') ∧ live D i' (released s Q i a) s (sem_release a) ∧ mutexes i' = mutexes i.
Proof.
  intros [Hr Hinv HD] Hrange. destruct (unlock_run i Q s a Hr) as (k' & Hrun & Hwf & Hth & Hcs & Hc & Hca).
  eexists. split; [exact Hrun|]. split; [|done]. split.
  - split; cbn; [done|apply lookup_insert_eq|apply lookup_insert_eq|set_solver|cbn in Hrange; lia].
  - by apply released_inv.
  - cbn. by rewrite Hth, dom_awake.
Qed.

Lemma live_schedule D i Q s a k' : live D i Q s a → scheduleInInterrupt (kern i) = Ok ((), k') → orderly (kern i) k' →
  live D (set_kern k' i) Q s a.
Proof.
  intros [Hr Hinv HD] Hrun Hord. destruct (schedule_orderly _ _ _ Hinv Hrun Hord) as [Hinv' HD'].
  split; [by apply sem_rep_scheduled|done|cbn; congruence].
Qed.

(** ** A semaphore *)

(** The kernel, and how many units have been taken and not given back. *)
Record sem_system := SemSystem { sys_ipc : ipc; sys_held : Z }.

Inductive sem_step (s : Z) : sem_system → sem_system → Prop :=
  | step_pass t i h b i' : at_work (kern i) t → lock_pass s i = Ok (b, i') →
      sem_step s (SemSystem i h) (SemSystem i' (if b : bool then h + 1 else h))
  | step_try t i h b i' : at_work (kern i) t → trylock s i = Ok (b, i') →
      sem_step s (SemSystem i h) (SemSystem i' (if b : bool then h + 1 else h))
  | step_unlock t i h i' : at_work (kern i) t → 0 < h → unlock s i = Ok ((), i') →
      sem_step s (SemSystem i h) (SemSystem i' (h - 1))
  | step_schedule i h k' : scheduleInInterrupt (kern i) = Ok ((), k') → orderly (kern i) k' →
      sem_step s (SemSystem i h) (SemSystem (set_kern k' i) h).

(** A call of [lock] is a sequence of steps: one that takes its unit, or one that queues up and the
    call of the scheduler by which the caller loses the CPU. *)
Lemma lock_steps s i h t b i' : at_work (kern i) t → lock 1 s i = Ok (b, i') →
  (∀ i1 k2, lock_pass s i = Ok (false, i1) → scheduleInSemaphore (kern i1) = Ok ((), k2) → orderly (kern i1) k2) →
  rtc (sem_step s) (SemSystem i h) (SemSystem i' (if b then h + 1 else h)).
Proof.
  intros Hat Hlock Hord. destruct (lock_pass s i) as [[[] i1]|f] eqn:Hp.
  - assert (lock 1 s i = Ok (true, i1)) as E by (apply (loop_exit _ _ _ _ _ i1); prog_simpl; by prog_step Hp).
    assert (b = true ∧ i' = i1) as [-> ->] by (split; congruence). exact (rtc_once _ _ (step_pass s t i h true i1 Hat Hp)).
  - destruct (scheduleInSemaphore (kern i1)) as [[[] k2]|f] eqn:Hk.
    + rewrite (lock_waits i s t i1 k2 0 (proj1 Hat) Hp Hk) in Hlock. case_decide; [done|]. injection Hlock as <- <-.
      eapply rtc_l; [exact (step_pass s t i h false i1 Hat Hp)|]. eapply rtc_once, step_schedule; [exact Hk|by apply Hord].
    + exfalso. revert Hlock. unfold lock, loop, on_kern, zoom, mbind, prog_bind, get. by rewrite Hp, Hk.
  - exfalso. revert Hlock. unfold lock, loop, mbind, prog_bind, get. by rewrite Hp.
Qed.

(** The counter is what is left, less what the waiters owe. *)
Definition sem_inv (D : gset Z) (s n : Z) (σ : sem_system) : Prop :=
  ∃ Q us, live D (sys_ipc σ) Q s (ASem (n - sys_held σ - zlen us) us) ∧ 0 ≤ sys_held σ ≤ n ∧ (us ≠ [] → sys_held σ = n).

Section semaphore.
#[local] Set Default Proof Using "All".
Context (D : gset Z) (s n : Z) (HD : Z.of_nat (size D) < 2 ^ 30) (Hn : 0 ≤ n < 2 ^ 30).

(** What the calls of the thread at work do to the invariant. *)
Lemma sem_inv_pass i h t : sem_inv D s n (SemSystem i h) → at_work (kern i) t →
  ∃ b i', lock_pass s i = Ok (b, i') ∧ sem_inv D s n (SemSystem i' (if b : bool then h + 1 else h)).
Proof.
  intros (Q & us & Hl & Hh & Hw) Hat. cbn in *. pose proof (live_waiters _ _ _ _ _ Hl) as Hus. cbn in Hus.
  set (a := ASem _ us) in *. destruct (Z.ltb_spec 0 (a_val a)) as [Hv|Hv].
  - destruct (live_take D i Q s a t Hl Hat Hv) as (i' & Hrun & Hl' & _). exists true, i'. split; [done|].
    exists Q, us. cbn in *. replace (n - (h + 1) - zlen us) with (n - h - zlen us - 1) by lia. split; [exact Hl'|].
    split; [lia|]. intros Hne. specialize (Hw Hne). lia.
  - destruct (live_block D i Q s a t Hl Hat Hv ltac:(cbn; lia)) as (i' & Q' & Hrun & Hl' & _). exists false, i'. split; [done|].
    exists Q', (us ++ [t]). cbn in *. rewrite length_app. cbn.
    replace (n - h - Z.of_nat (length us + 1)) with (n - h - zlen us - 1) by lia. split; [exact Hl'|]. split; [done|].
    intros _. destruct us as [|u us]; [cbn in Hv; lia|by apply Hw].
Qed.

Lemma sem_inv_try i h : sem_inv D s n (SemSystem i h) →
  ∃ b i', trylock s i = Ok (b, i') ∧ sem_inv D s n (SemSystem i' (if b : bool then h + 1 else h)).
Proof.
  intros (Q & us & Hl & Hh & Hw). cbn in *. destruct (live_try D i Q s _ Hl) as (i' & Hrun & Hl' & _).
  exists (fst (sem_try (ASem (n - h - zlen us) us))), i'. split; [done|]. unfold sem_try in *. cbn in *.
  destruct (Z.ltb_spec 0 (n - h - zlen us)); exists Q, us; cbn in *; [|done].
  replace (n - (h + 1) - zlen us) with (n - h - zlen us - 1) by lia. split; [exact Hl'|].
  split; [lia|]. intros Hne. specialize (Hw Hne). lia.
Qed.

Lemma sem_inv_unlock i h : sem_inv D s n (SemSystem i h) → 0 < h →
  ∃ i', unlock s i = Ok ((), i') ∧ sem_inv D s n (SemSystem i' (h - 1)).
Proof.
  intros (Q & us & Hl & Hh & Hw) Hpos. cbn in *.
  destruct (live_unlock D i Q s _ Hl ltac:(cbn; lia)) as (i' & Hrun & Hl' & _). exists i'. split; [done|].
  eexists _, []. cbn in *. unfold sem_release in Hl'. cbn in Hl'.
  replace (n - (h - 1) - Z.of_nat 0) with (n - h - zlen us + 1 + zlen us) by lia. split; [exact Hl'|]. split; [lia|done].
Qed.

Lemma sem_inv_step σ σ' : sem_inv D s n σ → sem_step s σ σ' → sem_inv D s n σ'.
Proof.
  intros Hinv Hstep. destruct Hstep as [t i h b i' Hat Hrun|t i h b i' Hat Hrun|t i h i' Hat Hpos Hrun|i h k' Hrun Hord].
  - destruct (sem_inv_pass i h t Hinv Hat) as (b' & i2 & Hrun2 & Hi2). rewrite Hrun in Hrun2. by injection Hrun2 as -> ->.
  - destruct (sem_inv_try i h Hinv) as (b' & i2 & Hrun2 & Hi2). rewrite Hrun in Hrun2. by injection Hrun2 as -> ->.
  - destruct (sem_inv_unlock i h Hinv Hpos) as (i2 & Hrun2 & Hi2). rewrite Hrun in Hrun2. by injection Hrun2 as ->.
  - destruct Hinv as (Q & us & Hl & Hrest). exists Q, us. split; [by apply live_schedule|done].
Qed.

End semaphore.

(** C31. Threads that share a semaphore of [n] units: in every execution of passes of [lock],
    [trylock], [unlock] of a unit that was taken, and calls of the scheduler that neither resume nor
    release a waiting thread, at most [n] units are out; the counter of the semaphore is what is left
    minus its waiters, all of whom wait; none waits while a unit is free; and whatever thread has
    the CPU, its next call ends without a fault. *)
Theorem semaphore_safety s i Q n σ :
  sem_rep i Q s (ASem n []) → sched_inv (kern i) Q → 0 ≤ n < 2 ^ 30 → Z.of_nat (size (dom (threads (kern i)))) < 2 ^ 30 →
  rtc (sem_step s) (SemSystem i 0) σ →
  0 ≤ sys_held σ ≤ n ∧
  (∃ Q' us, sem_rep (sys_ipc σ) Q' s (ASem (n - sys_held σ - zlen us) us) ∧ sched_inv (kern (sys_ipc σ)) Q' ∧
     (us ≠ [] → sys_held σ = n)) ∧
  (∀ t, at_work (kern (sys_ipc σ)) t →
     (∃ b i', lock_pass s (sys_ipc σ) = Ok (b, i')) ∧ (∃ b i', trylock s (sys_ipc σ) = Ok (b, i')) ∧
     (0 < sys_held σ → ∃ i', unlock s (sys_ipc σ) = Ok ((), i'))).
Proof.
  intros Hr Hs Hn HD Hσ. assert (sem_inv (dom (threads (kern i))) s n σ) as Hinv.
  { revert σ Hσ. apply rtc_ind_r.
    - exists Q, []. cbn. replace (n - 0 - Z.of_nat 0) with n by lia. split; [by split|]. split; [lia|done].
    - intros σ σ' _ Hstep Hinv. by eapply sem_inv_step. }
  destruct σ as [i' h]. pose proof Hinv as (Q' & us & [Hr' Hs' _] & Hh & Hw). cbn in *. split; [done|]. split; [by exists Q', us|].
  intros t Hat. split_and!.
  - destruct (sem_inv_pass _ s n HD Hn i' h t Hinv Hat) as (b & i2 & Hrun & _). by exists b, i2.
  - destruct (sem_inv_try _ s n HD Hn i' h Hinv) as (b & i2 & Hrun & _). by exists b, i2.
  - intros Hpos. destruct (sem_inv_unlock _ s n HD Hn i' h Hinv Hpos) as (i2 & Hrun & _). by exists i2.
Qed.

(** ** A mutex *)

(** Where a thread is in the code of one mutex: outside; in [_sem.lock()] or before [_sem.trylock()],
    and in the list of waiters; past them with the holder not yet set, in [lock] ([Got]) or
    [trylock] ([Won]); inside; and in [unlock] with [_sem.unlock()] to come. *)
Inductive phase := Out | Try | Got | Won | In | Leaving.

#[global] Instance phase_eq_dec : EqDecision phase.
Proof. solve_decision. Defined.

Record mutex_system := MutexSystem { ms_ipc : ipc; ms_phase : Z → phase }.

Definition set_phase (f : Z → phase) (t : Z) (p : phase) : Z → phase :=
  λ u, if decide (u = t) then p else f u.

(** The steps of the thread [t] at work, between which the scheduler may be called. *)
Inductive mutex_step (m : Z) : mutex_system → mutex_system → Prop :=
  (* [lock] and [trylock] by the holder *)
  | ms_reenter t i f i1 i2 : at_work (kern i) t → f t = Out ∨ f t = In →
      mutex_enter m i = Ok ((t, true), i1) → mutex_deeper m i1 = Ok ((), i2) →
      mutex_step m (MutexSystem i f) (MutexSystem i2 (set_phase f t In))
  (* [lock] and [trylock] by another thread, up to the call of the semaphore *)
  | ms_enter t i f i1 : at_work (kern i) t → f t = Out ∨ f t = In →
      mutex_enter m i = Ok ((t, false), i1) →
      mutex_step m (MutexSystem i f) (MutexSystem i1 (set_phase f t Try))
  (* a pass of [_sem.lock()] *)
  | ms_pass t i f b i1 : at_work (kern i) t → f t = Try → lock_pass m i = Ok (b, i1) →
      mutex_step m (MutexSystem i f) (MutexSystem i1 (if b : bool then set_phase f t Got else f))
  (* [_sem.trylock()] *)
  | ms_trylock t i f b i1 : at_work (kern i) t → f t = Try → trylock m i = Ok (b, i1) →
      mutex_step m (MutexSystem i f) (MutexSystem i1 (set_phase f t (if b : bool then Won else Out)))
  (* [lock] and [trylock] with the unit *)
  | ms_acquired t i f i1 : at_work (kern i) t → f t = Got → mutex_acquired m t i = Ok ((), i1) →
      mutex_step m (MutexSystem i f) (MutexSystem i1 (set_phase f t In))
  | ms_won t i f i1 : at_work (kern i) t → f t = Won → (mutex_own m t;; mutex_deeper m) i = Ok ((), i1) →
      mutex_step m (MutexSystem i f) (MutexSystem i1 (set_phase f t In))
  (* [unlock] up to [_sem.unlock()] *)
  | ms_leave t i f b i1 : at_work (kern i) t → f t = In → mutex_leave m i = Ok (b, i1) →
      mutex_step m (MutexSystem i f) (MutexSystem i1 (set_phase f t (if b : bool then Leaving else In)))
  (* [_sem.unlock()] *)
  | ms_release t i f i1 : at_work (kern i) t → f t = Leaving → unlock m i = Ok ((), i1) →
      mutex_step m (MutexSystem i f) (MutexSystem i1 (set_phase f t Out))
  | ms_schedule i f k' : scheduleInInterrupt (kern i) = Ok ((), k') → orderly (kern i) k' →
      mutex_step m (MutexSystem i f) (MutexSystem (set_kern k' i) f).

(** The thread has the unit. *)
Definition critical (p : phase) : Prop :=
  match p with Got | Won | In | Leaving => True | _ => False end.

(** The fields of the mutex when [o] has the unit. *)
Definition fields (f : Z → phase) (o : option Z) (x : mutex) : Prop :=
  match o with
  | Some t => if decide (f t = In) then _holder x = t ∧ 0 < _depth x < 2 ^ 31 else x = free
  | None => x = free
  end.

(** The invariant, with [o] the thread that has the unit and [us] the waiters. *)
Record mutex_inv (D : gset Z) (m : Z) i (f : Z → phase) Q us (o : option Z) : Prop := {
  mi_live : live D i Q m (ASem ((if o then 0 else 1) - zlen us) us);
  mi_owner t : critical (f t) ↔ o = Some t;
  mi_wait : us ≠ [] → o ≠ None;
  mi_queued t : t ∈ us → f t = Try;
  mi_fields : ∃ x, mutexes i !! m = Some x ∧ fields f o x
}.

Lemma set_phase_eq f t p : set_phase f t p t = p.
Proof. unfold set_phase. by rewrite decide_True. Qed.

Lemma set_phase_ne f t p u : u ≠ t → set_phase f t p u = f u.
Proof. intros H. unfold set_phase. by rewrite decide_False. Qed.

Ltac phase_case t u :=
  destruct (decide (u = t)) as [->|?];
  [rewrite ?set_phase_eq in *|rewrite ?set_phase_ne in * by done].

Section mutex.
#[local] Set Default Proof Using "All".
Context (D : gset Z) (m : Z) (HD : Z.of_nat (size D) < 2 ^ 30) (Hinvalid : INVALID ∉ D).

(** What the thread at work finds. *)
Lemma mi_enter i f Q us o t : mutex_inv D m i f Q us o → at_work (kern i) t →
  mutex_enter m i = Ok ((t, bool_decide (f t = In)), i).
Proof.
  intros [Hl Ho Hw Hq (x & Hx & Hf)] Hat.
  rewrite (mutex_enter_run i m _ t x (rep_val _ _ _ _ (lv_rep _ _ _ _ _ Hl)) (proj1 Hat) Hx). cbn.
  rewrite (proj2 (Z.ltb_lt _ _)) by (destruct o; lia).
  assert (bool_decide (t = _holder x) = bool_decide (f t = In)) as ->; [|done]. apply bool_decide_ext.
  pose proof (at_work_in _ _ _ _ _ _ Hl Hat) as Ht. assert (t ≠ INVALID) by (intros ->; done).
  unfold fields in Hf. destruct o as [u|].
  - case_decide as Hu; [destruct Hf as [<- _]|subst x; cbn].
    + split; [by intros ->|]. intros Ht'. specialize (Ho t). rewrite Ht' in Ho. destruct Ho as [Ho _]. specialize (Ho I). congruence.
    + split; [done|]. intros Ht'. specialize (Ho t). rewrite Ht' in Ho. destruct Ho as [Ho _]. specialize (Ho I). congruence.
  - subst x. cbn. split; [done|]. intros Ht'. specialize (Ho t). rewrite Ht' in Ho. destruct Ho as [Ho _]. by specialize (Ho I).
Qed.

(** A move between the phases that have no unit. *)
Lemma mi_move i f Q us o t p : mutex_inv D m i f Q us o → ¬ critical (f t) → ¬ critical p → t ∉ us ∨ p = Try →
  mutex_inv D m i (set_phase f t p) Q us o.
Proof.
  intros [Hl Ho Hw Hq (x & Hx & Hf)] Hft Hp Ht. split; [done|..|done| |].
  - intros u. phase_case t u; [|done]. rewrite <- Ho. done.
  - intros u Hu. phase_case t u; [|by apply Hq]. by destruct Ht.
  - exists x. split; [done|]. unfold fields in *. destruct o as [u|]; [|done]. rewrite set_phase_ne; [done|].
    intros ->. by apply Hft, Ho.
Qed.

Lemma mi_pass i f Q us o t : mutex_inv D m i f Q us o → at_work (kern i) t → f t = Try →
  ∃ b i1, lock_pass m i = Ok (b, i1) ∧ ∃ Q1 us1 o1, mutex_inv D m i1 (if b : bool then set_phase f t Got else f) Q1 us1 o1.
Proof.
  intros [Hl Ho Hw Hq (x & Hx & Hf)] Hat Hp. pose proof (live_waiters _ _ _ _ _ Hl) as Hus. cbn in Hus.
  set (a := ASem _ us) in *. destruct (Z.ltb_spec 0 (a_val a)) as [Hv|Hv]; cbn in Hv.
  - assert (us = []) as -> by (destruct us; [done|destruct o; [cbn in Hv; lia|by destruct (Hw ltac:(done))]]).
    destruct o; [lia|]. destruct (live_take D i Q m a t Hl Hat ltac:(cbn; lia)) as (i1 & Hrun & Hl' & Hm1). exists true, i1.
    split; [done|]. exists Q, [], (Some t). split; [exact Hl'| |done|set_solver|].
    + intros u. phase_case t u; [done|]. rewrite Ho. split; [done|congruence].
    + exists x. rewrite Hm1. split; [done|]. cbn in *. by rewrite set_phase_eq, decide_False.
  - destruct (live_block D i Q m a t Hl Hat ltac:(cbn; lia) ltac:(cbn; destruct o; lia)) as (i1 & Q1 & Hrun & Hl' & Hm1).
    exists false, i1. split; [done|]. exists Q1, (us ++ [t]), o. split; [|done| | |by exists x; rewrite Hm1].
    + cbn in Hl'. rewrite length_app. cbn. replace ((if o then 0 else 1) - Z.of_nat (length us + 1)) with ((if o then 0 else 1) - zlen us - 1) by lia. done.
    + intros _ ->. destruct us as [|u us]; [cbn in Hv; lia|by apply Hw].
    + intros u [Hu|Hu]%elem_of_app; [by apply Hq|]. by apply list_elem_of_singleton in Hu as ->.
Qed.

Lemma mi_try i f Q us o t : mutex_inv D m i f Q us o → at_work (kern i) t → f t = Try →
  ∃ b i1, trylock m i = Ok (b, i1) ∧ ∃ o1, mutex_inv D m i1 (set_phase f t (if b : bool then Won else Out)) Q us o1.
Proof.
  intros Hinv Hat Hp. pose proof Hinv as [Hl Ho Hw Hq (x & Hx & Hf)]. pose proof (at_work_not_waiter _ _ _ _ _ _ Hl Hat) as Hn.
  destruct (live_try D i Q m _ Hl) as (i1 & Hrun & Hl' & Hm1 & _).
  exists (fst (sem_try (ASem ((if o then 0 else 1) - zlen us) us))), i1. split; [done|]. unfold sem_try in *. cbn in *.
  destruct (Z.ltb_spec 0 ((if o then 0 else 1) - zlen us)) as [Hv|Hv]; cbn in *.
  - assert (us = []) as -> by (destruct us; [done|destruct o; [cbn in Hv; lia|by destruct (Hw ltac:(done))]]).
    destruct o; [cbn in Hv; lia|]. exists (Some t). split; [exact Hl'| |done|set_solver|].
    + intros u. phase_case t u; [done|]. rewrite Ho. split; [done|congruence].
    + exists x. rewrite Hm1. split; [done|]. cbn in *. by rewrite set_phase_eq, decide_False.
  - exists o. apply mi_move; [|rewrite Hp; by intros []|by intros []|by left]. split; [done..|]. exists x. by rewrite Hm1.
Qed.

(** The thread that has the unit sets the fields of the mutex to [x'] and goes on in [p]. *)
Lemma mi_with_mutex i f Q us t p x' : mutex_inv D m i f Q us (Some t) → critical p →
  (if decide (p = In) then _holder x' = t ∧ 0 < _depth x' < 2 ^ 31 else x' = free) →
  mutex_inv D m (with_mutex m x' i) (set_phase f t p) Q us (Some t).
Proof.
  intros [[Hr Hs HDo] Ho Hw Hq _] Hp Hx'. split; [split; [by apply sem_rep_with_mutex|done|done]|..|done| |].
  - intros u. phase_case t u; [done|by apply Ho].
  - intros u Hu. phase_case t u; [|by apply Hq]. pose proof (proj2 (Ho t) eq_refl) as Hc. by rewrite (Hq t Hu) in Hc.
  - exists x'. split; [apply with_mutex_lookup|]. cbn. by rewrite set_phase_eq.
Qed.

Lemma mi_acquired i f Q us o t : mutex_inv D m i f Q us o → f t = Got ∨ f t = Won →
  ∃ i1, mutex_acquired m t i = Ok ((), i1) ∧ (mutex_own m t;; mutex_deeper m) i = Ok ((), i1) ∧
    mutex_inv D m i1 (set_phase f t In) Q us o.
Proof.
  intros Hinv Hp. pose proof Hinv as [_ Ho _ _ (x & Hx & Hf)].
  assert (o = Some t) as -> by (apply Ho; by destruct Hp as [-> | ->]). cbn in Hf.
  rewrite decide_False in Hf by (by destruct Hp as [-> | ->]). subst x. exists (with_mutex m (mkMutex t 1) i).
  split; [by rewrite (mutex_acquired_run i m free t Hx), decide_True|].
  split; [apply (mutex_take_run i m free t Hx); cbn; lia|]. apply mi_with_mutex; [done|done|]. rewrite decide_True by done. cbn. lia.
Qed.

Lemma mi_leave i f Q us o t : mutex_inv D m i f Q us o → at_work (kern i) t → f t = In →
  ∃ b i1, mutex_leave m i = Ok (b, i1) ∧ mutex_inv D m i1 (set_phase f t (if b : bool then Leaving else In)) Q us o.
Proof.
  intros Hinv Hat Hp. pose proof Hinv as [Hl Ho _ _ (x & Hx & Hf)].
  assert (o = Some t) as -> by (apply Ho; by rewrite Hp). cbn in Hf. rewrite Hp, decide_True in Hf by done. destruct Hf as [Hh Hd].
  pose proof (mutex_leave_run i m _ t x (rep_val _ _ _ _ (lv_rep _ _ _ _ _ Hl)) (proj1 Hat) Hx ltac:(cbn; lia) Hh Hd) as Hrun.
  case_decide; eexists _, _; (split; [exact Hrun|]); apply mi_with_mutex; try done. rewrite decide_True by done. cbn. lia.
Qed.

Lemma mi_release i f Q us o t : mutex_inv D m i f Q us o → f t = Leaving →
  ∃ i1, unlock m i = Ok ((), i1) ∧ ∃ Q1, mutex_inv D m i1 (set_phase f t Out) Q1 [] None.
Proof.
  intros [Hl Ho Hw Hq (x & Hx & Hf)] Hp. assert (o = Some t) as -> by (apply Ho; by rewrite Hp).
  cbn in Hf. rewrite Hp, decide_False in Hf by done. subst x.
  destruct (live_unlock D i Q m _ Hl ltac:(cbn; lia)) as (i1 & Hrun & Hl' & Hm1). exists i1. split; [done|].
  exists (released m Q i (ASem (0 - zlen us) us)). split; [|..|done|set_solver|].
  - unfold sem_release in Hl'. cbn in Hl'. by replace (0 - zlen us + 1 + zlen us) with (1 - Z.of_nat 0) in Hl' by lia.
  - intros u. phase_case t u; [done|]. rewrite Ho. split; [congruence|done].
  - exists free. by rewrite Hm1.
Qed.

Lemma mi_reenter i f Q us o t i1 : mutex_inv D m i f Q us o → f t = In → mutex_deeper m i = Ok ((), i1) →
  mutex_inv D m i1 (set_phase f t In) Q us o.
Proof.
  intros Hinv Hp Hrun. pose proof Hinv as [Hl Ho _ _ (x & Hx & Hf)].
  assert (o = Some t) as -> by (apply Ho; by rewrite Hp). cbn in Hf. rewrite Hp, decide_True in Hf by done. destruct Hf as [Hh Hd].
  unfold mutex_deeper, upd_mutex in Hrun. rewrite Hx in Hrun. cbn [_depth] in Hrun.
  destruct (Z.ltb_spec (_depth x + 1) (2 ^ 31)); [|by rewrite andb_false_r in Hrun].
  rewrite (proj2 (Z.leb_le _ _)) in Hrun by lia. injection Hrun as <-. apply mi_with_mutex; [done|done|]. rewrite decide_True by done. cbn. lia.
Qed.

Lemma mutex_inv_step i f Q us o σ' : mutex_inv D m i f Q us o → mutex_step m (MutexSystem i f) σ' →
  ∃ Q' us' o', mutex_inv D m (ms_ipc σ') (ms_phase σ') Q' us' o'.
Proof.
  intros Hinv Hstep. inversion Hstep as [t ? ? i1 i2 Hat Hp He Hrun|t ? ? i1 Hat Hp He|t ? ? b i1 Hat Hp Hrun|t ? ? b i1 Hat Hp Hrun
    |t ? ? i1 Hat Hp Hrun|t ? ? i1 Hat Hp Hrun|t ? ? b i1 Hat Hp Hrun|t ? ? i1 Hat Hp Hrun|? ? k' Hrun Hord]; subst; cbn.
  - rewrite (mi_enter i f Q us o t Hinv Hat) in He. injection He as He <-. apply bool_decide_eq_true in He.
    exists Q, us, o. by apply (mi_reenter i).
  - rewrite (mi_enter i f Q us o t Hinv Hat) in He. injection He as He <-. apply bool_decide_eq_false in He.
    assert (f t = Out) as Hout by tauto. exists Q, us, o. apply mi_move; [done|rewrite Hout; by intros []|by intros []|by right].
  - destruct (mi_pass i f Q us o t Hinv Hat Hp) as (b' & i2 & Hrun2 & H). rewrite Hrun in Hrun2. by injection Hrun2 as -> ->.
  - destruct (mi_try i f Q us o t Hinv Hat Hp) as (b' & i2 & Hrun2 & o1 & H). rewrite Hrun in Hrun2. injection Hrun2 as -> ->. eauto.
  - destruct (mi_acquired i f Q us o t Hinv (or_introl Hp)) as (i2 & Hrun2 & _ & H). rewrite Hrun in Hrun2. injection Hrun2 as ->. eauto.
  - destruct (mi_acquired i f Q us o t Hinv (or_intror Hp)) as (i2 & _ & Hrun2 & H). rewrite Hrun in Hrun2. injection Hrun2 as ->. eauto.
  - destruct (mi_leave i f Q us o t Hinv Hat Hp) as (b' & i2 & Hrun2 & H). rewrite Hrun in Hrun2. injection Hrun2 as -> ->. eauto.
  - destruct (mi_release i f Q us o t Hinv Hp) as (i2 & Hrun2 & Q1 & H). rewrite Hrun in Hrun2. injection Hrun2 as ->. eauto.
  - destruct Hinv as [Hl Ho Hw Hq Hf]. exists Q, us, o. split; [by apply live_schedule|done..].
Qed.

End mutex.

(** C30. Mutual exclusion: in every execution of [lock], [trylock] and [unlock] on an initialised mutex by any
    number of threads, with calls of the scheduler, that neither resume nor release a waiting
    thread, between their pieces, at most one thread is between the acquisition of the mutex and its
    release; the holder is that thread and the depth is positive while it is inside; and none of the pieces
    fails, the assertions of [mutex.cpp] among them: whatever thread has the CPU, what it does next
    ends with [Ok], a re-entry as long as the depth is in the range of its type. *)
Theorem mutex_mutual_exclusion m i Q σ :
  sem_rep i Q m (ASem 1 []) → sched_inv (kern i) Q → mutexes i !! m = Some (mkMutex INVALID 0) →
  Z.of_nat (size (dom (threads (kern i)))) < 2 ^ 30 → threads (kern i) !! INVALID = None →
  rtc (mutex_step m) (MutexSystem i (λ _, Out)) σ →
  let i' := ms_ipc σ in let f := ms_phase σ in
  (∀ t u, critical (f t) → critical (f u) → t = u) ∧
  (∃ x, mutexes i' !! m = Some x ∧
     (∀ t, f t = In → _holder x = t ∧ 0 < _depth x < 2 ^ 31) ∧ ((∀ t, f t ≠ In) → x = mkMutex INVALID 0)) ∧
  (∀ t, at_work (kern i') t →
     (f t = Out ∨ f t = In → mutex_enter m i' = Ok ((t, bool_decide (f t = In)), i')) ∧
     (f t = Try → (∃ b i1, lock_pass m i' = Ok (b, i1)) ∧ ∃ b i1, trylock m i' = Ok (b, i1)) ∧
     (f t = Got → ∃ i1, mutex_acquired m t i' = Ok ((), i1)) ∧
     (f t = Won → ∃ i1, (mutex_own m t;; mutex_deeper m) i' = Ok ((), i1)) ∧
     (f t = In → ∃ b i1, mutex_leave m i' = Ok (b, i1)) ∧
     (f t = Leaving → ∃ i1, unlock m i' = Ok ((), i1))).
Proof.
  intros Hr Hs Hx HD Hinv Hσ. set (D := dom (threads (kern i))).
  assert (INVALID ∉ D) as HI by by apply not_elem_of_dom.
  assert (∃ Q' us o, mutex_inv D m (ms_ipc σ) (ms_phase σ) Q' us o) as (Q' & us & o & H).
  { revert σ Hσ. apply rtc_ind_r.
    - exists Q, [], None. split; [by split|done|done|set_solver|]. by exists free.
    - intros [i1 f1] σ' _ Hstep (Q1 & us & o & H). by eapply mutex_inv_step. }
  intros i' f. pose proof H as [Hl Ho Hw Hq (x & Hx' & Hf)]. split; [|split].
  - intros t u Ht%Ho Hu%Ho. congruence.
  - exists x. split; [done|]. split.
    + intros t Ht. assert (o = Some t) as -> by (apply Ho; fold f; by rewrite Ht). cbn in Hf. fold f in Hf. by rewrite Ht, decide_True in Hf by done.
    + intros Hn. destruct o as [t|]; [|done]. cbn in Hf. fold f in Hf. by rewrite decide_False in Hf.
  - intros t Hat. split_and!.
    + intros _. by eapply mi_enter.
    + intros Hp. destruct (mi_pass D m HD HI i' f Q' us o t H Hat Hp) as (b & i1 & Hrun & _).
      destruct (mi_try D m HD HI i' f Q' us o t H Hat Hp) as (b' & i2 & Hrun' & _). split; by eexists _, _.
    + intros Hp. destruct (mi_acquired D m HD HI i' f Q' us o t H (or_introl Hp)) as (i1 & Hrun & _). by exists i1.
    + intros Hp. destruct (mi_acquired D m HD HI i' f Q' us o t H (or_intror Hp)) as (i1 & _ & Hrun & _). by exists i1.
    + intros Hp. destruct (mi_leave D m HD HI i' f Q' us o t H Hat Hp) as (b & i1 & Hrun & _). by exists b, i1.
    + intros Hp. destruct (mi_release D m HD HI i' f Q' us o t H Hp) as (i1 & Hrun & _). by exists i1.
Qed.

(** ** Witnesses *)

(** The three threads of [boot_sample] with a semaphore of [val] units: thread 1 has the CPU. *)
Lemma boot_safe val : - 2 ^ 31 < val < 2 ^ 31 - 1 → ∃ i Q,
  sem_rep i Q 0 (ASem val []) ∧ sched_inv (kern i) Q ∧ Z.of_nat (size (dom (threads (kern i)))) < 2 ^ 30 ∧
  threads (kern i) !! INVALID = None ∧ mutexes i = mutexes sample_ipc ∧ at_work (kern i) 1.
Proof.
  intros Hval. destruct (boot_sample val Hval) as (k & i & Q & _ & _ & Hr & Hm & _ & Hs & Ht & l1 & l2 & [Hc Hx _]).
  exists i, Q. split; [done|]. split; [done|]. rewrite Ht. split; [by vm_compute|]. split; [by vm_compute|]. split; [done|].
  split; [done|]. eexists. split; [exact Hx|by right].
Qed.

(** Thread 1 takes the only unit of a semaphore; then another pass and the release end too. *)
Example semaphore_safety_witness : ∃ i i1, lock_pass 0 i = Ok (true, i1) ∧ (∃ b i2, lock_pass 0 i1 = Ok (b, i2)) ∧
  ∃ i3, unlock 0 i1 = Ok ((), i3).
Proof.
  destruct (boot_safe 1 ltac:(lia)) as (i & Q & Hr & Hs & Hsz & _ & _ & Hat).
  destruct (live_take _ i Q 0 _ 1 (Build_live _ _ _ _ _ Hr Hs eq_refl) Hat ltac:(cbn; lia)) as (i1 & Hrun & [Hr1 Hs1 _] & _).
  assert (kern i1 = kern i) as Hk.
  { destruct (at_work_current i Q 1 Hs Hat) as (x & l1 & l2 & Hc & _).
    destruct (lock_pass_take i Q 0 _ 1 x l1 l2 Hr Hc ltac:(cbn; lia)) as (Hrun' & _). rewrite Hrun in Hrun'. by injection Hrun' as ->. }
  destruct (semaphore_safety 0 i Q 1 (SemSystem i1 1) Hr Hs ltac:(lia) Hsz) as (_ & _ & Hcalls).
  { exact (rtc_once _ _ (step_pass 0 1 i 0 true i1 Hat Hrun)). }
  cbn in Hcalls. rewrite Hk in Hcalls. destruct (Hcalls 1 Hat) as (Hp & _ & Hu).
  exists i, i1. split; [exact Hrun|]. split; [exact Hp|]. apply Hu. lia.
Defined.

(** Thread 1 goes from outside to the pass of the semaphore, which takes its unit. *)
Example mutex_mutual_exclusion_witness : ∃ i b i1,
  mutex_enter 0 i = Ok ((1, false), i) ∧ lock_pass 0 i = Ok (b, i1).
Proof.
  destruct (boot_safe 1 ltac:(lia)) as (i0 & Q & Hr & Hs & Hsz & Hno & _ & Hat). set (i := with_mutex 0 free i0).
  assert (mutexes i !! 0 = Some (mkMutex INVALID 0)) as Hx by apply with_mutex_lookup.
  assert (sem_rep i Q 0 (ASem 1 [])) as Hr' by (apply sem_rep_with_mutex; exact Hr).
  destruct (mutex_mutual_exclusion 0 i Q (MutexSystem i (λ _, Out)) Hr' Hs Hx Hsz Hno (rtc_refl _ _)) as (_ & _ & Hc0).
  destruct (Hc0 1 Hat) as (He & _). specialize (He (or_introl eq_refl)).
  destruct (mutex_mutual_exclusion 0 i Q (MutexSystem i (set_phase (λ _, Out) 1 Try)) Hr' Hs Hx Hsz Hno) as (_ & _ & Hc1).
  { eapply rtc_once, (ms_enter 0 1); [exact Hat|by left|exact He]. }
  destruct (Hc1 1 Hat) as (_ & Hp & _). destruct (Hp eq_refl) as [(b & i1 & Hrun) _].
  exists i, b, i1. split; [exact He|exact Hrun].
Defined.
