(* ===== verification/Mmu.v ===== *)
(** * The memory management unit

    [kernel/include/arch/powerpc/mmu.h] and [kernel/src/arch/powerpc/mmu.cpp]: the hashed page
    table of the PowerPC. The state holds the entries of the table by their addresses, the
    segment registers and the addresses of the [tlbie] instructions, the last one first; the
    barriers ([sync], [eieio], [tlbsync]) and the spin lock have no effect on it. A word of an
    entry is its raw value, its bit-fields are read and written in place.

    [hw_translate] is the search of the processor as its architecture defines it, from SDR1 and
    the segment registers. The theorems say what the calls of the kernel do to it. *)

From S2P Require Import Prelude.

(** ** Bit-fields of a word *)

Definition field (lo n w : Z) : Z := Z.land (Z.shiftr w lo) (Z.ones n).
Definition set_field (lo n v w : Z) : Z :=
  Z.lor (Z.land w (notu 32 (Z.shiftl (Z.ones n) lo))) (Z.shiftl (Z.land v (Z.ones n)) lo).

(** [class PTE]: [virWord] is v, vsid, h, api and [phyWord] rpn, r, c, wimg, pp, from the highest
    bit down. *)
Record PTE := mk_pte { virWord : Z; phyWord : Z }.
Definition set_virWord (v : Z) (p : PTE) : PTE := mk_pte v (phyWord p).
Definition set_phyWord (v : Z) (p : PTE) : PTE := mk_pte (virWord p) v.

Definition pte_v (p : PTE) : Z := field 31 1 (virWord p).
Definition pte_vsid (p : PTE) : Z := field 7 24 (virWord p).
Definition pte_h (p : PTE) : Z := field 6 1 (virWord p).
Definition pte_api (p : PTE) : Z := field 0 6 (virWord p).
Definition pte_r (p : PTE) : Z := field 8 1 (phyWord p).
Definition pte_c (p : PTE) : Z := field 7 1 (phyWord p).

Definition set_v (x : Z) (p : PTE) : PTE := set_virWord (set_field 31 1 x (virWord p)) p.
Definition set_vsid (x : Z) (p : PTE) : PTE := set_virWord (set_field 7 24 x (virWord p)) p.
Definition set_h (x : Z) (p : PTE) : PTE := set_virWord (set_field 6 1 x (virWord p)) p.
Definition set_api (x : Z) (p : PTE) : PTE := set_virWord (set_field 0 6 x (virWord p)) p.
Definition set_rpn (x : Z) (p : PTE) : PTE := set_phyWord (set_field 12 20 x (phyWord p)) p.
Definition set_r (x : Z) (p : PTE) : PTE := set_phyWord (set_field 8 1 x (phyWord p)) p.
Definition set_c (x : Z) (p : PTE) : PTE := set_phyWord (set_field 7 1 x (phyWord p)) p.
Definition set_wimg (x : Z) (p : PTE) : PTE := set_phyWord (set_field 3 4 x (phyWord p)) p.
Definition set_pp (x : Z) (p : PTE) : PTE := set_phyWord (set_field 0 2 x (phyWord p)) p.

Definition sizeof_PTE : Z := 8.
Definition POWERPC_PAGE_OFFSET_BITS : Z := 12.
Definition PPC_HASH_TAB_MASK : Z := Z.shiftl 1 19 - 1.
Definition PPC_PETG_PAGE_MASK : Z := Z.shiftl 1 16 - 1.
Definition PPC_PTEG_SIZE : nat := 8.
Definition MMU_PTES_IN_PTEG : nat := 8.
Definition MMU_HASH_VALUE_LOW : Z := 0x000003ff.
Definition MMU_HASH_VALUE_HIGH : Z := 0x0007fc00.
Definition MMU_HASH_VALUE_HIGH_SHIFT : Z := 10.
Definition MMU_PTE_HASH_VALUE_HIGH_SHIFT : Z := 16.
Definition MMU_PTE_HASH_VALUE_LOW_SHIFT : Z := 6.

(** ** The state *)

Record mmu := mk_mmu {
  ptes : gmap Z PTE;
  segment : list Z;
  tlbie : list Z;
  _baseAddr : Z;
  _size : Z;
  _hashMask : Z
}.
Definition set_ptes (v : gmap Z PTE) (m : mmu) : mmu := mk_mmu v (segment m) (tlbie m) (_baseAddr m) (_size m) (_hashMask m).
Definition set_segment (v : list Z) (m : mmu) : mmu := mk_mmu (ptes m) v (tlbie m) (_baseAddr m) (_size m) (_hashMask m).
Definition set_tlbie (v : list Z) (m : mmu) : mmu := mk_mmu (ptes m) (segment m) v (_baseAddr m) (_size m) (_hashMask m).
Definition set_baseAddr (v : Z) (m : mmu) : mmu := mk_mmu (ptes m) (segment m) (tlbie m) v (_size m) (_hashMask m).
Definition set_size (v : Z) (m : mmu) : mmu := mk_mmu (ptes m) (segment m) (tlbie m) (_baseAddr m) v (_hashMask m).
Definition set_hashMask (v : Z) (m : mmu) : mmu := mk_mmu (ptes m) (segment m) (tlbie m) (_baseAddr m) (_size m) v.

Abbreviation M := (prog mmu).

Definition pte_of (a : Z) : M PTE := m ← get; defined (ptes m !! a).
Definition upd_pte (a : Z) (f : PTE → PTE) : M () :=
  p ← pte_of a;
  modify (λ m, set_ptes (<[a := f p]> (ptes m)) m).

(** [mfsrin] and [mtsrin] take the number of the register from the highest four bits. *)
Definition getSR (effAddr : Z) : M Z := m ← get; defined (znth (segment m) (Z.shiftr (u32 effAddr) 28)).
Definition setSR (sr val : Z) : M () :=
  m ← get;
  l ← defined (zset (segment m) (Z.shiftr (u32 (Z.shiftl sr 28)) 28) val);
  put (set_segment l m).
Definition SR_vsid (word : Z) : Z := field 0 24 word.

Definition ppcInvalidTlbe (effAddr : Z) : M () := modify (λ m, set_tlbie (effAddr :: tlbie m) m).

(** ** Page table entries *)

Definition virtAddr2API (virtAddr : Z) : Z := Z.land (Z.shiftr virtAddr 22) 0x3F.

Definition buildPTE_fields (this virtAddr phyAddr vsid isSecondaryHash wimg pp : Z) : M () :=
  upd_pte this (set_phyWord 0);;
  upd_pte this (set_virWord 0);;
  upd_pte this (set_rpn (Z.shiftr phyAddr POWERPC_PAGE_OFFSET_BITS));;
  upd_pte this (set_r 1);;
  upd_pte this (set_c 1);;
  upd_pte this (set_wimg wimg);;
  upd_pte this (set_pp pp);;
  upd_pte this (set_v 1);;
  upd_pte this (set_vsid vsid);;
  upd_pte this (set_h isSecondaryHash);;
  upd_pte this (set_api (virtAddr2API virtAddr)).

Definition buildPTE (this virtAddr entry vsid isSecondaryHash : Z) : M () :=
  upd_pte this (set_virWord 0);;
  upd_pte this (set_phyWord entry);;
  upd_pte this (set_vsid vsid);;
  upd_pte this (set_h isSecondaryHash);;
  upd_pte this (set_api (virtAddr2API virtAddr));;
  upd_pte this (set_v 1).

Definition invalidSelf (this virAddr : Z) : M () :=
  upd_pte this (set_phyWord 0);;
  upd_pte this (set_virWord 0);;
  ppcInvalidTlbe virAddr.

(** ** The hash table *)

(** The size of the table for a memory, with the masks of [init] for a table of that size. *)
Definition size_classes : list (Z * Z * Z) :=
  [(0x02000000, 0xfe000000, 0x000001ff); (0x01000000, 0xff000000, 0x000000ff);
   (0x00800000, 0xff800000, 0x0000007f); (0x00400000, 0xffc00000, 0x0000003f);
   (0x00200000, 0xffe00000, 0x0000001f); (0x00100000, 0xfff00000, 0x0000000f);
   (0x00080000, 0xfff80000, 0x00000007); (0x00040000, 0xfffc0000, 0x00000003);
   (0x00020000, 0xfffe0000, 0x00000001)].

(** The chain of comparisons of [init]. *)
Fixpoint table_masks (classes : list (Z * Z * Z)) (size : Z) : Z * Z :=
  match classes with
  | [] => (0xffff0000, 0)
  | (min, org, mask) :: classes => if min <=? size then (org, mask) else table_masks classes size
  end.

Definition HashTable_init (phyAddr size : Z) : M () :=
  modify (set_size size);;
  let '(tabOrgMask, mask) := table_masks size_classes size in
  modify (set_hashMask mask);;
  modify (set_baseAddr (Z.land phyAddr tabOrgMask)).

Definition sdr1 (m : mmu) : Z := Z.lor (_baseAddr m) (_hashMask m).

Definition primaryHash (virAddr vsid : Z) : Z :=
  let pgi := Z.shiftr virAddr POWERPC_PAGE_OFFSET_BITS in
  let pgi := Z.land pgi PPC_PETG_PAGE_MASK in
  Z.lxor (Z.land vsid PPC_HASH_TAB_MASK) pgi.

Definition secondaryHash (hashVal : Z) : Z := Z.land (notu 32 hashVal) PPC_HASH_TAB_MASK.

Definition getPTEG (hashVal : Z) (m : mmu) : Z :=
  let lower := Z.shiftl (Z.land hashVal MMU_HASH_VALUE_LOW) MMU_PTE_HASH_VALUE_LOW_SHIFT in
  let higher := Z.shiftr (Z.land hashVal MMU_HASH_VALUE_HIGH) MMU_HASH_VALUE_HIGH_SHIFT in
  let higher := Z.shiftl (Z.land higher (_hashMask m)) MMU_PTE_HASH_VALUE_HIGH_SHIFT in
  Z.lor (Z.lor (_baseAddr m) higher) lower.

(** The loops over a group look at the entries from [pteg] on. *)
Fixpoint first_pte (P : PTE → bool) (n : nat) (pteg : Z) : M (option Z) :=
  match n with
  | O => mret None
  | S n' =>
      p ← pte_of pteg;
      if P p then mret (Some pteg) else first_pte P n' (pteg + sizeof_PTE)
  end.

Definition locateThePTE (pteg vsid api : Z) : M (option Z) :=
  first_pte (λ p, (pte_v p =? 1) && (pte_vsid p =? vsid) && (pte_api p =? api)) PPC_PTEG_SIZE pteg.

Definition findInvalidPTE (pteg : Z) : M (option Z) := first_pte (λ p, pte_v p =? 0) MMU_PTES_IN_PTEG pteg.
Definition findUnChangedPTE (pteg : Z) : M (option Z) :=
  first_pte (λ p, (pte_r p =? 0) && (pte_c p =? 0)) MMU_PTES_IN_PTEG pteg.

Definition locatePTE (virt : Z) : M (option Z) :=
  sr ← getSR (Z.shiftr virt 28);
  let vsid := SR_vsid sr in
  let hash := primaryHash virt vsid in
  let api := virtAddr2API virt in
  m ← get;
  pte ← locateThePTE (getPTEG hash m) vsid api;
  match pte with
  | Some p => mret (Some p)
  | None => locateThePTE (getPTEG (secondaryHash hash) m) vsid api
  end.

(** The entry, and the value of [isSecondaryHash]. *)
Definition findPTE (virtAddr : Z) : M (Z * Z) :=
  sr ← getSR virtAddr;
  let hash := primaryHash virtAddr (SR_vsid sr) in
  m ← get;
  let pteg := getPTEG hash m in
  retPte ← findInvalidPTE pteg;
  match retPte with
  | Some p => mret (p, 0)
  | None =>
      let secPteg := getPTEG (secondaryHash hash) m in
      retPte ← findInvalidPTE secPteg;
      match retPte with
      | Some p => mret (p, 1)
      | None =>
          retPte ← findUnChangedPTE pteg;
          match retPte with
          | Some p => mret (p, 0)
          | None =>
              retPte ← findUnChangedPTE secPteg;
              match retPte with
              | Some p => mret (p, 1)
              | None => mret (secPteg, 1)
              end
          end
      end
  end.

Definition insertPTE (virtAddr phyAddr : Z) : M () :=
  sr ← getSR virtAddr;
  r ← findPTE virtAddr;
  let '(pte, isSecondaryHash) := r in
  p ← pte_of pte;
  when (negb (pte_v p =? 0)) (ppcInvalidTlbe virtAddr);;
  buildPTE pte virtAddr phyAddr (SR_vsid sr) isSecondaryHash.

Definition invalidPTE (virAddr : Z) : M () :=
  pte ← locatePTE virAddr;
  match pte with
  | Some a => p ← pte_of a; when (negb (pte_v p =? 0)) (invalidSelf a virAddr)
  | None => mret ()
  end.

Definition MB (x : Z) : Z := u32 (Z.shiftl x 20).
Definition GB (x : Z) : Z := u32 (Z.shiftl x 30).

Definition optimalSize (totalPhyMemSize : Z) : Z :=
  if totalPhyMemSize <? MB 8 then 0
  else if 0xFFFFFFFF <=? totalPhyMemSize then 0x02000000
  else if GB 2 <=? totalPhyMemSize then 0x01000000
  else if GB 1 <=? totalPhyMemSize then 0x00800000
  else if MB 512 <=? totalPhyMemSize then 0x00400000
  else if MB 256 <=? totalPhyMemSize then 0x00200000
  else if MB 128 <=? totalPhyMemSize then 0x00100000
  else if MB 64 <=? totalPhyMemSize then 0x00080000
  else if MB 32 <=? totalPhyMemSize then 0x00040000
  else if MB 16 <=? totalPhyMemSize then 0x00020000
  else 0x00010000.

(** The loop of [MMU::init]; the BAT registers and SDR1 are not part of the state. *)
Fixpoint init_segments (n : nat) (i : Z) : M () :=
  match n with
  | O => mret ()
  | S n' => setSR i i;; init_segments n' (i + 1)
  end.
Definition MMU_init : M () := init_segments 16 0.

(** ** The search of the processor *)

(** The address of a group, from SDR1 (HTABORG is its high half, HTABMASK its low nine bits). *)
Definition hw_pteg (sdr1 hash : Z) : Z :=
  Z.lor (Z.shiftl (Z.lor (field 16 16 sdr1) (Z.land (field 0 9 sdr1) (Z.shiftr hash 10))) 16)
        (Z.shiftl (Z.land hash 0x3ff) 6).

Definition group (pteg : Z) : list Z := (λ i, pteg + sizeof_PTE * i) <$> seqZ 0 8.

(** The virtual page of an address: the segment's identifier and the index of the page. *)
Definition vsid_of (m : mmu) (ea : Z) : Z := SR_vsid (default 0 (segment m !! Z.to_nat (Z.shiftr ea 28))).
Definition page_index (ea : Z) : Z := field 12 16 ea.
Definition hw_api (ea : Z) : Z := field 22 6 ea.
Definition hw_hash (m : mmu) (ea : Z) : Z := Z.lxor (field 0 19 (vsid_of m ea)) (page_index ea).

Definition hit (vsid api h : Z) (p : PTE) : bool :=
  (pte_v p =? 1) && (pte_vsid p =? vsid) && (pte_h p =? h) && (pte_api p =? api).

Definition hit_at (m : mmu) (vsid api h a : Z) : bool :=
  match ptes m !! a with Some p => hit vsid api h p | None => false end.

(** The entry that the processor takes: of the primary group, or of the secondary one. *)
Definition hw_lookup (m : mmu) (ea : Z) : option Z :=
  let vsid := vsid_of m ea in
  match filter (λ a, hit_at m vsid (hw_api ea) 0 a) (group (hw_pteg (sdr1 m) (hw_hash m ea))) with
  | a :: _ => Some a
  | [] => head (filter (λ a, hit_at m vsid (hw_api ea) 1 a) (group (hw_pteg (sdr1 m) (Z.lxor (hw_hash m ea) (Z.ones 19)))))
  end.

Definition hw_translate (m : mmu) (ea : Z) : option Z :=
  a ← hw_lookup m ea; p ← ptes m !! a; Some (phyWord p).

(** The two groups of an address, and the entries that translate it. *)
Definition group_of (m : mmu) (h ea : Z) : list Z :=
  group (getPTEG (if h =? 0 then hw_hash m ea else Z.lxor (hw_hash m ea) (Z.ones 19)) m).
Definition hits (m : mmu) (ea a : Z) : Prop := ∃ h, (h = 0 ∨ h = 1) ∧ a ∈ group_of m h ea ∧ hit_at m (vsid_of m ea) (hw_api ea) h a.
Definition same_page (m : mmu) (ea ea' : Z) : Prop := vsid_of m ea = vsid_of m ea' ∧ page_index ea = page_index ea'.
#[export] Instance same_page_dec m ea ea' : Decision (same_page m ea ea').
Proof. unfold same_page. apply _. Defined.

(** The table that [init] sets up. *)
Record mmu_shape (m : mmu) : Prop := mk_shape {
  wf_segments : length (segment m) = 16%nat;
  wf_base : in_u 32 (_baseAddr m) ∧ _baseAddr m mod 2 ^ 16 = 0;
  wf_mask : in_u 9 (_hashMask m);
  wf_table hash a : in_u 19 hash → a ∈ group (getPTEG hash m) → is_Some (ptes m !! a)
}.
(** ... with at most one entry for a page. *)
Record mmu_wf (m : mmu) : Prop := mk_wf {
  wf_shape : mmu_shape m;
  wf_unique ea a b : in_u 32 ea → hits m ea a → hits m ea b → a = b
}.

(** ** Lemmas on words *)

Lemma field_spec lo n w i : 0 ≤ lo → 0 ≤ n → 0 ≤ i →
  Z.testbit (field lo n w) i = Z.testbit w (i + lo) && (i <? n).
Proof.
  intros Hlo Hn Hi. unfold field. rewrite Z.land_spec, Z.shiftr_spec, Z.testbit_ones_nonneg by lia. done.
Qed.

Lemma field_range lo n w : 0 ≤ n → in_u n (field lo n w).
Proof. intros Hn. unfold field. rewrite Z.land_ones by done. apply Z.mod_pos_bound. lia. Qed.

Lemma field_of_field lo n w : 0 ≤ n → Z.land (field lo n w) (Z.ones n) = field lo n w.
Proof. intros Hn. unfold field. by rewrite <- Z.land_assoc, Z.land_diag. Qed.

Lemma set_field_spec lo n v w i : 0 ≤ lo → 0 ≤ n → 0 ≤ i →
  Z.testbit (set_field lo n v w) i =
    if (lo <=? i) && (i <? lo + n) then Z.testbit v (i - lo) else Z.testbit w i && (i <? 32).
Proof.
  intros Hlo Hn Hi. unfold set_field, notu. rewrite Z.lor_spec, Z.land_spec, wrapu_spec, Z.lnot_spec by lia.
  rewrite (Z.shiftl_spec (Z.ones n)), (Z.shiftl_spec (Z.land v _)), Z.land_spec by lia.
  destruct (Z.leb_spec lo i), (Z.ltb_spec i (lo + n)), (Z.ltb_spec i 32); cbn [andb];
    rewrite ?(Z.testbit_neg_r _ (i - lo)) by lia; rewrite ?Z.testbit_ones_nonneg by lia;
    destruct (Z.ltb_spec (i - lo) n); try lia; cbn; rewrite ?andb_false_r, ?andb_true_r, ?orb_false_r; done.
Qed.

Lemma field_set_same lo n v w : 0 ≤ lo → 0 ≤ n → field lo n (set_field lo n v w) = Z.land v (Z.ones n).
Proof.
  intros Hlo Hn. apply Z.bits_inj'. intros i Hi. rewrite field_spec, set_field_spec, Z.land_spec, Z.testbit_ones_nonneg by lia.
  destruct (Z.ltb_spec i n); [|by rewrite !andb_false_r]. rewrite (proj2 (Z.leb_le _ _)), (proj2 (Z.ltb_lt (i + lo) _)) by lia.
  cbn [andb]. by replace (i + lo - lo) with i by lia.
Qed.

Lemma field_set_other lo n lo' n' v w : 0 ≤ lo → 0 ≤ n → lo + n ≤ 32 → 0 ≤ lo' → 0 ≤ n' → lo + n ≤ lo' ∨ lo' + n' ≤ lo →
  field lo n (set_field lo' n' v w) = field lo n w.
Proof.
  intros Hlo Hn H32 Hlo' Hn' Hdis. apply Z.bits_inj'. intros i Hi. rewrite !field_spec, set_field_spec by lia.
  destruct (Z.ltb_spec i n); [|by rewrite !andb_false_r].
  destruct (Z.leb_spec lo' (i + lo)), (Z.ltb_spec (i + lo) (lo' + n')), (Z.ltb_spec (i + lo) 32); try lia; cbn [andb]; by rewrite ?andb_true_r.
Qed.

Lemma field_ext lo n x y : 0 ≤ lo → 0 ≤ n → field lo n x = field lo n y → ∀ i, lo ≤ i < lo + n → Z.testbit x i = Z.testbit y i.
Proof.
  intros Hlo Hn E i Hi. apply (f_equal (λ w, Z.testbit w (i - lo))) in E. rewrite !field_spec in E by lia.
  rewrite (proj2 (Z.ltb_lt _ _)), !andb_true_r in E by lia. by replace (i - lo + lo) with i in E by lia.
Qed.

(** ** Groups *)

Lemma elem_of_group a g : a ∈ group g ↔ ∃ i, 0 ≤ i < 8 ∧ a = g + 8 * i.
Proof. unfold group, sizeof_PTE. rewrite list_elem_of_fmap. setoid_rewrite elem_of_seqZ. naive_solver. Qed.

Lemma group_inj a g g' : a ∈ group g → a ∈ group g' → g mod 64 = 0 → g' mod 64 = 0 → g = g'.
Proof.
  intros (i & Hi & ->)%elem_of_group (j & Hj & E)%elem_of_group Hg Hg'.
  pose proof (Z.div_mod g 64). pose proof (Z.div_mod g' 64). lia.
Qed.

Lemma primaryHash_field ea vsid : primaryHash ea vsid = Z.lxor (field 0 19 vsid) (field 12 16 ea).
Proof. unfold primaryHash, field. by rewrite Z.shiftr_0_r. Qed.

Lemma secondaryHash_lxor h : in_u 19 h → secondaryHash h = Z.lxor h (Z.ones 19).
Proof.
  intros Hh. unfold secondaryHash, notu. change PPC_HASH_TAB_MASK with (Z.ones 19). bitwise.
  - by rewrite (in_u_high 19 h) by (done || lia).
  - by rewrite (in_u_high 19 h) by (done || lia).
Qed.

Lemma hw_hash_range m ea : in_u 19 (hw_hash m ea).
Proof.
  apply in_u_lxor; [lia|by apply field_range|]. pose proof (field_range 12 16 ea ltac:(lia)). unfold page_index, in_u in *. lia.
Qed.

Lemma hash_of_kind m h ea : in_u 19 (if h =? 0 then hw_hash m ea else Z.lxor (hw_hash m ea) (Z.ones 19)).
Proof. destruct (h =? 0); [apply hw_hash_range|]. apply in_u_lxor; [lia|apply hw_hash_range|]. by vm_compute. Qed.

Section groups.
Context (m : mmu) (Hbase : in_u 32 (_baseAddr m) ∧ _baseAddr m mod 2 ^ 16 = 0) (Hmask : in_u 9 (_hashMask m)).
#[local] Set Default Proof Using "All".

Lemma base_low i : i < 16 → Z.testbit (_baseAddr m) i = false.
Proof.
  intros Hi. destruct (Z.ltb_spec i 0); [by apply Z.testbit_neg_r|]. destruct Hbase as [_ Hb].
  rewrite <- (Z.mod_pow2_bits_low _ 16) by lia. by rewrite Hb, Z.bits_0.
Qed.

Lemma pteg_bits h i : 0 ≤ i → Z.testbit (getPTEG h m) i =
  (Z.testbit (_baseAddr m) i || (16 <=? i) && Z.testbit h (i - 6) && (i <? 25) && Z.testbit (_hashMask m) (i - 16)) ||
  (6 <=? i) && (i <? 16) && Z.testbit h (i - 6).
Proof.
  intros Hi. unfold getPTEG, MMU_HASH_VALUE_LOW, MMU_HASH_VALUE_HIGH, MMU_HASH_VALUE_HIGH_SHIFT, MMU_PTE_HASH_VALUE_HIGH_SHIFT, MMU_PTE_HASH_VALUE_LOW_SHIFT.
  change 0x3ff with (Z.ones 10). change 0x7fc00 with (Z.shiftl (Z.ones 9) 10).
  rewrite !Z.lor_spec, !Z.shiftl_spec by lia. f_equal; [f_equal|].
  - destruct (Z.leb_spec 16 i); [|by rewrite Z.testbit_neg_r by lia].
    rewrite Z.land_spec, Z.shiftr_spec, Z.land_spec, Z.shiftl_spec, Z.testbit_ones_nonneg by lia.
    replace (i - 16 + 10) with (i - 6) by lia.
    destruct (Z.ltb_spec (i - 6 - 10) 9), (Z.ltb_spec i 25); try lia; by rewrite ?andb_true_r, ?andb_false_r.
  - destruct (Z.leb_spec 6 i); [|by rewrite Z.testbit_neg_r by lia].
    rewrite Z.land_spec, Z.testbit_ones_nonneg by lia. destruct (Z.ltb_spec (i - 6) 10), (Z.ltb_spec i 16); try lia; by rewrite ?andb_true_r, ?andb_false_r.
Qed.

Lemma pteg_hw h : in_u 19 h → hw_pteg (sdr1 m) h = getPTEG h m.
Proof.
  intros Hh. apply Z.bits_inj'. intros i Hi. rewrite pteg_bits by done. unfold hw_pteg, sdr1. change 0x3ff with (Z.ones 10).
  rewrite Z.lor_spec, !Z.shiftl_spec by lia. f_equal.
  - destruct (Z.leb_spec 16 i); [|by rewrite Z.testbit_neg_r, base_low by lia].
    rewrite Z.lor_spec, Z.land_spec, !field_spec, Z.shiftr_spec, !Z.lor_spec by lia.
    replace (i - 16 + 16) with i by lia. replace (i - 16 + 0) with (i - 16) by lia. replace (i - 16 + 10) with (i - 6) by lia.
    rewrite (in_u_high 9 (_hashMask m) i) by (done || lia). rewrite orb_false_r. destruct Hbase as [Hb _].
    destruct (Z.ltb_spec i 32).
    + rewrite (proj2 (Z.ltb_lt (i - 16) 16)), andb_true_r by lia. f_equal.
      destruct (Z.ltb_spec i 25); [|by rewrite (proj2 (Z.ltb_ge (i - 16) 9)), !andb_false_r by lia].
      rewrite base_low, (proj2 (Z.ltb_lt (i - 16) 9)), !andb_true_r by lia. cbn [orb andb]. apply andb_comm.
    + rewrite (in_u_high 32 _ i), (proj2 (Z.ltb_ge i 25)), (proj2 (Z.ltb_ge (i - 16) 9)) by (done || lia). by rewrite !andb_false_r.
  - destruct (Z.leb_spec 6 i); [|by rewrite Z.testbit_neg_r by lia].
    rewrite Z.land_spec, Z.testbit_ones_nonneg by lia. destruct (Z.ltb_spec (i - 6) 10), (Z.ltb_spec i 16); try lia; by rewrite ?andb_true_r, ?andb_false_r.
Qed.

Lemma pteg_aligned h : getPTEG h m mod 64 = 0.
Proof.
  change 64 with (2 ^ 6). apply Z.bits_inj'. intros i Hi. rewrite Z.testbit_mod_pow2, Z.bits_0 by lia.
  destruct (Z.ltb_spec i 6); [|done]. rewrite pteg_bits, base_low by lia.
  rewrite (proj2 (Z.leb_gt 16 i)), (proj2 (Z.leb_gt 6 i)) by lia. done.
Qed.

(** A group determines the low bits of the hash value. *)
Lemma pteg_low h h' : getPTEG h m = getPTEG h' m → ∀ i, 0 ≤ i < 10 → Z.testbit h i = Z.testbit h' i.
Proof.
  intros E i Hi. apply (f_equal (λ w, Z.testbit w (i + 6))) in E. rewrite !pteg_bits, !base_low in E by lia.
  rewrite (proj2 (Z.leb_gt 16 _)), (proj2 (Z.leb_le 6 _)), (proj2 (Z.ltb_lt (i + 6) 16)) in E by lia.
  cbn [andb orb] in E. by replace (i + 6 - 6) with i in E by lia.
Qed.
End groups.

(** ** What translates an address *)

Lemma head_filter_Some (P : Z → bool) (l : list Z) a : head (filter P l) = Some a → a ∈ l ∧ P a.
Proof.
  destruct (filter P l) as [|b k] eqn:E; [done|]. intros [= ->].
  assert (a ∈ filter P l) as Ha by (rewrite E; by left). apply list_elem_of_filter in Ha. tauto.
Qed.

Lemma head_filter_None (P : Z → bool) (l : list Z) : head (filter P l) = None → ∀ a, a ∈ l → ¬ P a.
Proof.
  destruct (filter P l) as [|b k] eqn:E; [|done]. intros _ a Ha HP.
  assert (a ∈ filter P l) as Hin by by apply list_elem_of_filter. by rewrite E in Hin; apply not_elem_of_nil in Hin.
Qed.

Lemma hw_lookup_hits m (Hwf : mmu_wf m) ea a : in_u 32 ea → hw_lookup m ea = Some a ↔ hits m ea a.
Proof.
  intros Hea. destruct Hwf as [[_ Hb Hm _] Hu]. unfold hw_lookup.
  rewrite (pteg_hw m Hb Hm (hw_hash m ea)) by apply (hash_of_kind m 0).
  rewrite (pteg_hw m Hb Hm (Z.lxor (hw_hash m ea) (Z.ones 19))) by apply (hash_of_kind m 1).
  set (P h := λ a, hit_at m (vsid_of m ea) (hw_api ea) h a).
  set (g0 := group (getPTEG (hw_hash m ea) m)). set (g1 := group (getPTEG (Z.lxor (hw_hash m ea) (Z.ones 19)) m)).
  assert (∀ r, match filter (P 0) g0 with a :: _ => Some a | [] => r end =
    match head (filter (P 0) g0) with Some a => Some a | None => r end) as -> by by destruct (filter (P 0) g0).
  assert (∀ b, (b ∈ g0 ∧ P 0 b) ∨ (b ∈ g1 ∧ P 1 b) → hits m ea b) as Hin.
  { intros b [[H1 H2]|[H1 H2]]; [exists 0|exists 1]; by auto. }
  assert (∀ b, hits m ea b → (b ∈ g0 ∧ P 0 b) ∨ (b ∈ g1 ∧ P 1 b)) as Hout.
  { intros b (h & [-> | ->] & H1 & H2); auto. }
  destruct (head (filter (P 0) g0)) as [b|] eqn:E0.
  - apply head_filter_Some in E0. split; [intros [= ->]; by auto|]. intros Ha. f_equal. apply (Hu ea); auto.
  - destruct (head (filter (P 1) g1)) as [b|] eqn:E1.
    + apply head_filter_Some in E1. split; [intros [= ->]; by auto|]. intros Ha. f_equal. apply (Hu ea); auto.
    + split; [done|]. intros [[H1 H2]|[H1 H2]]%Hout; exfalso.
      * by apply (head_filter_None _ _ E0 a).
      * by apply (head_filter_None _ _ E1 a).
Qed.

Section lookup.
Context (m : mmu) (Hwf : mmu_shape m).
#[local] Set Default Proof Using "All".

Lemma hits_pte ea a : hits m ea a → ∃ p, ptes m !! a = Some p ∧ pte_v p = 1 ∧ pte_vsid p = vsid_of m ea ∧ pte_api p = hw_api ea.
Proof.
  intros (h & _ & _ & Hh). unfold hit_at, hit in Hh. destruct (ptes m !! a) as [p|]; [|done]. exists p.
  rewrite !andb_True in Hh. destruct Hh as (((H1 & H2) & _) & H4). apply Is_true_true, Z.eqb_eq in H1, H2, H4. done.
Qed.

(** The table has an entry at every place that is looked at. *)
Lemma group_mapped h ea a : a ∈ group_of m h ea → is_Some (ptes m !! a).
Proof. intros Ha. eapply (wf_table _ Hwf); [|exact Ha]. apply hash_of_kind. Qed.

Lemma first_pte_run P n g : (∀ i, 0 ≤ i < Z.of_nat n → is_Some (ptes m !! (g + 8 * i))) →
  ∃ r, first_pte P n g m = Ok (r, m) ∧
    match r with
    | Some a => ∃ i p, 0 ≤ i < Z.of_nat n ∧ a = g + 8 * i ∧ ptes m !! a = Some p ∧ P p = true
    | None => ∀ i p, 0 ≤ i < Z.of_nat n → ptes m !! (g + 8 * i) = Some p → P p = false
    end.
Proof.
  revert g. induction n as [|n IH]; intros g Hg; cbn [first_pte].
  { exists None. split; [done|]. intros i p Hi. lia. }
  destruct (Hg 0 ltac:(lia)) as [p Hp]. rewrite Z.mul_0_r, Z.add_0_r in Hp.
  assert (pte_of g m = Ok (p, m)) as Hrun by (unfold pte_of; rewrite run_bind_get, Hp; done).
  prog_step Hrun. destruct (P p) eqn:HP.
  - exists (Some g). split; [done|]. exists 0, p. rewrite Z.mul_0_r, Z.add_0_r. split_and!; try done; lia.
  - destruct (IH (g + 8)) as (r & Hr & Hres).
    { intros i Hi. replace (g + 8 + 8 * i) with (g + 8 * (i + 1)) by lia. apply Hg. lia. }
    exists r. split; [done|]. destruct r as [a|].
    + destruct Hres as (i & q & Hi & -> & Hq & HPq). exists (i + 1), q.
      replace (g + 8 * (i + 1)) with (g + 8 + 8 * i) by lia. split_and!; try done; lia.
    + intros i q Hi Hq. destruct (decide (i = 0)) as [->|Hne].
      * rewrite Z.mul_0_r, Z.add_0_r, Hp in Hq. by injection Hq as <-.
      * apply (Hres (i - 1) q); [lia|]. by replace (g + 8 + 8 * (i - 1)) with (g + 8 * i) by lia.
Qed.

(** A search of a group. *)
Lemma hash_search P hash : in_u 19 hash → ∃ r, first_pte P 8 (getPTEG hash m) m = Ok (r, m) ∧
  match r with
  | Some a => a ∈ group (getPTEG hash m) ∧ ∃ p, ptes m !! a = Some p ∧ P p = true
  | None => ∀ a p, a ∈ group (getPTEG hash m) → ptes m !! a = Some p → P p = false
  end.
Proof.
  intros Hh. destruct (first_pte_run P 8 (getPTEG hash m)) as (r & Hr & Hres).
  { intros i Hi. apply (wf_table _ Hwf hash); [done|]. apply elem_of_group. exists i. done. }
  exists r. split; [done|]. destruct r as [a|].
  - destruct Hres as (i & p & Hi & -> & Hp & HP). split; [apply elem_of_group; by exists i|by exists p].
  - intros a p (i & Hi & ->)%elem_of_group Hp. by apply (Hres i p).
Qed.

Lemma group_search P h ea : ∃ r,
  first_pte P 8 (getPTEG (if h =? 0 then hw_hash m ea else Z.lxor (hw_hash m ea) (Z.ones 19)) m) m = Ok (r, m) ∧
  match r with
  | Some a => a ∈ group_of m h ea ∧ ∃ p, ptes m !! a = Some p ∧ P p = true
  | None => ∀ a p, a ∈ group_of m h ea → ptes m !! a = Some p → P p = false
  end.
Proof. apply hash_search, hash_of_kind. Qed.

Lemma getSR_run ea : in_u 32 ea → ∃ w, getSR ea m = Ok (w, m) ∧ SR_vsid w = vsid_of m ea.
Proof.
  intros Hea. unfold getSR. rewrite run_bind_get, (wrapu_id 32) by done.
  assert (0 ≤ Z.shiftr ea 28 < 16) as Hs.
  { rewrite Z.shiftr_div_pow2 by lia. unfold in_u in Hea. split; [apply Z.div_pos; lia|apply Z.div_lt_upper_bound; lia]. }
  destruct (znth_Some (segment m) (Z.shiftr ea 28)) as (w & Hw & Hl); [rewrite (wf_segments _ Hwf); lia|].
  rewrite Hw. exists w. split; [done|]. unfold vsid_of. by rewrite Hl.
Qed.
End lookup.

(** ** Insertion *)

(** The entry that [buildPTE] leaves. *)
Lemma upd_pte_run m a p f : ptes m !! a = Some p → upd_pte a f m = Ok ((), set_ptes (<[a := f p]> (ptes m)) m).
Proof. intros Hp. unfold upd_pte, pte_of. rewrite !run_bind_bind, run_bind_get, Hp. done. Qed.

Lemma buildPTE_run m a p ea entry vsid h : ptes m !! a = Some p → in_u 24 vsid → in_u 1 h →
  ∃ q, buildPTE a ea entry vsid h m = Ok ((), set_ptes (<[a := q]> (ptes m)) m) ∧
    phyWord q = entry ∧ pte_v q = 1 ∧ pte_vsid q = vsid ∧ pte_h q = h ∧ pte_api q = hw_api ea.
Proof.
  intros Hp Hv Hh. unfold buildPTE.
  rewrite (bind_Ok _ _ _ _ _ (upd_pte_run m a p _ Hp)).
  do 4 (rewrite (bind_Ok _ _ _ _ _ (upd_pte_run _ a _ _ (lookup_insert_eq _ _ _)));
        cbn [ptes set_ptes]; rewrite insert_insert_eq).
  rewrite (upd_pte_run _ a _ _ (lookup_insert_eq _ _ _)). cbn [ptes set_ptes]. rewrite insert_insert_eq.
  eexists. split; [reflexivity|].
  unfold pte_v, pte_vsid, pte_h, pte_api, set_v, set_api, set_h, set_vsid, set_virWord, set_phyWord. cbn [virWord phyWord].
  split; [done|].
  assert (∀ n x, 0 ≤ n → in_u n x → Z.land x (Z.ones n) = x) as Hland.
  { intros n x Hn Hx. rewrite Z.land_ones by done. by apply Z.mod_small. }
  split_and!.
  - by rewrite field_set_same by lia.
  - rewrite !(field_set_other 7 24) by lia. rewrite field_set_same by lia. by apply Hland.
  - rewrite !(field_set_other 6 1) by lia. rewrite field_set_same by lia. by apply Hland.
  - rewrite !(field_set_other 0 6) by lia. rewrite field_set_same by lia. apply Hland; [lia|]. by apply (field_range 22 6).
Qed.

Section insertion.
Context (m : mmu) (Hwf : mmu_shape m).
#[local] Set Default Proof Using "All".

Lemma vsid_range ea : in_u 24 (vsid_of m ea).
Proof. by apply field_range. Qed.

(** Addresses of one page have the same groups; an entry identifies its page. *)
Lemma page_of_entry h ea ea' v : h = 0 ∨ h = 1 → v ∈ group_of m h ea → v ∈ group_of m h ea' →
  vsid_of m ea = vsid_of m ea' → hw_api ea = hw_api ea' → same_page m ea ea'.
Proof.
  intros Hh Hv Hv' Hs Ha. split; [done|].
  pose proof (group_inj _ _ _ Hv Hv' (pteg_aligned m (wf_base _ Hwf) (wf_mask _ Hwf) _) (pteg_aligned m (wf_base _ Hwf) (wf_mask _ Hwf) _)) as Hg.
  pose proof (pteg_low m (wf_base _ Hwf) (wf_mask _ Hwf) _ _ Hg) as Hlow.
  assert (∀ i, 0 ≤ i < 10 → Z.testbit (page_index ea) i = Z.testbit (page_index ea') i) as Hp.
  { intros i Hi. specialize (Hlow i Hi). unfold hw_hash in Hlow. rewrite Hs in Hlow.
    destruct Hh as [-> | ->]; cbn [Z.eqb] in Hlow; rewrite !Z.lxor_spec in Hlow;
      destruct (Z.testbit (field 0 19 _) i), (Z.testbit (page_index ea) i), (Z.testbit (page_index ea') i), (Z.testbit (Z.ones 19) i); done. }
  apply Z.bits_inj'. intros i Hi. destruct (Z.ltb_spec i 10); [by apply Hp|].
  unfold page_index. rewrite !field_spec by lia. destruct (Z.ltb_spec i 16); [|by rewrite !andb_false_r].
  rewrite !andb_true_r. apply (field_ext 22 6); [lia|lia|exact Ha|lia].
Qed.

Lemma same_page_group ea ea' h : same_page m ea ea' → group_of m h ea = group_of m h ea' ∧ hw_api ea = hw_api ea'.
Proof.
  intros [Hs Hp]. split; [unfold group_of, hw_hash; by rewrite Hs, Hp|].
  apply Z.bits_inj'. intros i Hi. unfold hw_api. rewrite !field_spec by lia. destruct (Z.ltb_spec i 6); [|by rewrite !andb_false_r].
  f_equal. apply (field_ext 12 16); [lia|lia|exact Hp|lia].
Qed.

Lemma same_page_hits ea ea' a : same_page m ea ea' → hits m ea a → hits m ea' a.
Proof.
  intros Hp (h & Hh & Ha & Ht). destruct (same_page_group ea ea' h Hp) as [Hg Hapi]. destruct Hp as [Hs _].
  exists h. by rewrite <- Hg, <- Hapi, <- Hs.
Qed.

(** The table with one entry changed. *)
Definition with_entry (v : Z) (q : PTE) (t : list Z) : mmu := set_tlbie t (set_ptes (<[v := q]> (ptes m)) m).

Lemma hits_other v q t ea a : a ≠ v → hits (with_entry v q t) ea a ↔ hits m ea a.
Proof.
  intros Hne. unfold hits, hit_at. cbn [ptes with_entry set_tlbie set_ptes]. by rewrite lookup_insert_ne by done.
Qed.

Lemma hits_new v q t h ea ea' : h = 0 ∨ h = 1 → v ∈ group_of m h ea → pte_v q = 1 → pte_vsid q = vsid_of m ea →
  pte_h q = h → pte_api q = hw_api ea → hits (with_entry v q t) ea' v ↔ same_page m ea ea'.
Proof.
  intros Hh Hv Q1 Q2 Q3 Q4. unfold hits, hit_at, hit. cbn [ptes with_entry set_tlbie set_ptes]. rewrite lookup_insert_eq, Q1, Q2, Q3, Q4.
  change (vsid_of (with_entry v q t)) with (vsid_of m). split.
  - intros (h' & _ & Hv' & Ht). change (group_of (with_entry v q t)) with (group_of m) in Hv'.
    rewrite !andb_True in Ht. destruct Ht as (((_ & E1) & E2) & E3). apply Is_true_true, Z.eqb_eq in E1, E2, E3. subst h'.
    by apply (page_of_entry h ea ea' v).
  - intros Hp. destruct (same_page_group ea ea' h Hp) as [Hg Hapi]. destruct Hp as [Hs _]. exists h.
    change (group_of (with_entry v q t)) with (group_of m). rewrite <- Hg, Hapi, Hs, !Z.eqb_refl. done.
Qed.

Lemma table_with_entry v q t hash a : is_Some (ptes m !! v) → in_u 19 hash → a ∈ group (getPTEG hash m) → is_Some (ptes (with_entry v q t) !! a).
Proof.
  intros Hv Hh Ha. cbn [ptes with_entry set_tlbie set_ptes]. apply lookup_insert_is_Some'. right. by apply (wf_table _ Hwf hash).
Qed.

Lemma translate_hits (m' : mmu) ea a p : mmu_wf m' → in_u 32 ea → hits m' ea a → ptes m' !! a = Some p → hw_translate m' ea = Some (phyWord p).
Proof.
  intros Hwf' Hea Ha Hp. unfold hw_translate. apply (hw_lookup_hits m' Hwf' ea a Hea) in Ha. by rewrite Ha; cbn; rewrite Hp.
Qed.

(** The entry that is used for an address. *)
Lemma findPTE_run ea : in_u 32 ea → ∃ v h, findPTE ea m = Ok ((v, h), m) ∧ (h = 0 ∨ h = 1) ∧ v ∈ group_of m h ea ∧
  ∀ p, ptes m !! v = Some p → pte_v p ≠ 0 → ∀ h' a p', h' = 0 ∨ h' = 1 → a ∈ group_of m h' ea → ptes m !! a = Some p' → pte_v p' ≠ 0.
Proof.
  intros Hea. destruct (getSR_run m Hwf ea Hea) as (w & Hw & Hv). unfold findPTE. prog_step Hw. cbv zeta.
  rewrite Hv, primaryHash_field. fold (page_index ea) (hw_hash m ea). rewrite secondaryHash_lxor by apply hw_hash_range.
  unfold findInvalidPTE, findUnChangedPTE, MMU_PTES_IN_PTEG.
  destruct (group_search m Hwf (λ p, pte_v p =? 0) 0 ea) as (r0 & R0 & S0). cbn [Z.eqb] in R0.
  destruct (group_search m Hwf (λ p, pte_v p =? 0) 1 ea) as (r1 & R1 & S1). cbn [Z.eqb] in R1.
  destruct (group_search m Hwf (λ p, (pte_r p =? 0) && (pte_c p =? 0)) 0 ea) as (r2 & R2 & S2). cbn [Z.eqb] in R2.
  destruct (group_search m Hwf (λ p, (pte_r p =? 0) && (pte_c p =? 0)) 1 ea) as (r3 & R3 & S3). cbn [Z.eqb] in R3.
  rewrite (bind_Ok _ _ _ _ _ R0). destruct r0 as [a|].
  { exists a, 0. destruct S0 as [Ha (p & Hp & Hz)]. split_and!; [done|by left|done|]. intros q Hq Hne. rewrite Hp in Hq. injection Hq as <-. lia. }
  rewrite (bind_Ok _ _ _ _ _ R1). destruct r1 as [a|].
  { exists a, 1. destruct S1 as [Ha (p & Hp & Hz)]. split_and!; [done|by right|done|]. intros q Hq Hne. rewrite Hp in Hq. injection Hq as <-. lia. }
  assert (∀ h' a p', h' = 0 ∨ h' = 1 → a ∈ group_of m h' ea → ptes m !! a = Some p' → pte_v p' ≠ 0) as Hfull.
  { intros h' a p' [-> | ->] Ha Hp'; [apply (Z.eqb_neq _ 0), (S0 a)|apply (Z.eqb_neq _ 0), (S1 a)]; done. }
  rewrite (bind_Ok _ _ _ _ _ R2). destruct r2 as [a|].
  { exists a, 0. destruct S2 as [Ha _]. split_and!; [done|by left|done|]. by intros _ _ _. }
  rewrite (bind_Ok _ _ _ _ _ R3). destruct r3 as [a|].
  { exists a, 1. destruct S3 as [Ha _]. split_and!; [done|by right|done|]. by intros _ _ _. }
  eexists _, 1. split_and!; [reflexivity|by right| |by intros _ _ _]. apply elem_of_group. exists 0. split; [lia|]. by rewrite Z.mul_0_r, Z.add_0_r.
Qed.

(** A translation that is entered, and the one that its place had. *)
Lemma insert_run ea entry : in_u 32 ea → ∃ v h p q,
  insertPTE ea entry m = Ok ((), with_entry v q (if pte_v p =? 0 then tlbie m else ea :: tlbie m)) ∧
  (h = 0 ∨ h = 1) ∧ v ∈ group_of m h ea ∧ ptes m !! v = Some p ∧ phyWord q = entry ∧ pte_v q = 1 ∧ pte_vsid q = vsid_of m ea ∧
  pte_h q = h ∧ pte_api q = hw_api ea ∧
  (pte_v p ≠ 0 → ∀ h' a p', h' = 0 ∨ h' = 1 → a ∈ group_of m h' ea → ptes m !! a = Some p' → pte_v p' ≠ 0).
Proof.
  intros Hea. destruct (findPTE_run ea Hea) as (v & h & Hf & Hh & Hv & Hfull).
  destruct (group_mapped m Hwf h ea v Hv) as [p Hp]. destruct (getSR_run m Hwf ea Hea) as (w & Hw & Hvs).
  unfold insertPTE. rewrite (bind_Ok _ _ _ _ _ Hw), (bind_Ok _ _ _ _ _ Hf). cbn iota beta.
  assert (pte_of v m = Ok (p, m)) as Hpo by (unfold pte_of; by rewrite run_bind_get, Hp).
  rewrite (bind_Ok _ _ _ _ _ Hpo). set (m1 := if pte_v p =? 0 then m else set_tlbie (ea :: tlbie m) m).
  assert (when (negb (pte_v p =? 0)) (ppcInvalidTlbe ea) m = Ok ((), m1)) as Hwh by (unfold m1; by destruct (pte_v p =? 0)).
  rewrite (bind_Ok _ _ _ _ _ Hwh), Hvs.
  assert (ptes m1 !! v = Some p) as Hp1 by (unfold m1; by destruct (pte_v p =? 0)).
  destruct (buildPTE_run m1 v p ea entry (vsid_of m ea) h Hp1 (vsid_range ea)) as (q & Hb & Q0 & Q1 & Q2 & Q3 & Q4).
  { unfold in_u. destruct Hh as [-> | ->]; lia. }
  exists v, h, p, q. rewrite Hb. split_and!; try done; [|by apply Hfull].
  unfold m1, with_entry. by destruct (pte_v p =? 0), m.
Qed.
End insertion.

Lemma with_entry_shape m v q t : mmu_shape m → is_Some (ptes m !! v) → mmu_shape (with_entry m v q t).
Proof.
  intros Hwf Hv. destruct Hwf as [W1 W2 W3 W4]. assert (mmu_shape m) as Hwf by done. split; try done.
  intros hash a Hh Ha. by apply (table_with_entry m Hwf v q t hash a).
Qed.

Lemma with_entry_wf m v q t h ea : mmu_wf m → h = 0 ∨ h = 1 → v ∈ group_of m h ea → in_u 32 ea → (∀ a, ¬ hits m ea a) → pte_v q = 1 →
  pte_vsid q = vsid_of m ea → pte_h q = h → pte_api q = hw_api ea → mmu_wf (with_entry m v q t).
Proof.
  intros [Hwf W5] Hh Hv Hea Hno Q1 Q2 Q3 Q4. pose proof (group_mapped m Hwf h ea v Hv) as Hm.
  split; [by apply with_entry_shape|].
  intros ea' a b Hea' Ha Hb. pose proof (hits_new m Hwf v q t h ea ea' Hh Hv Q1 Q2 Q3 Q4) as Hnew.
    assert (∀ c, same_page m ea ea' → ¬ hits m ea' c) as Hnone.
    { intros c [Hs Hp] Hc. apply (Hno c). apply (same_page_hits m Hwf ea' ea); [split; congruence|done]. }
    destruct (decide (a = v)) as [->|Ha1], (decide (b = v)) as [->|Hb1]; [done| | |].
    + exfalso. apply (Hnone b (proj1 Hnew Ha)). exact (proj1 (hits_other m Hwf v q t ea' b Hb1) Hb).
    + exfalso. apply (Hnone a (proj1 Hnew Hb)). exact (proj1 (hits_other m Hwf v q t ea' a Ha1) Ha).
    + apply (W5 ea' a b Hea'); [exact (proj1 (hits_other m Hwf v q t ea' a Ha1) Ha)|exact (proj1 (hits_other m Hwf v q t ea' b Hb1) Hb)].
Qed.

(** What the change of an entry does to the other pages. *)
Lemma translate_other m v q t ea' : mmu_wf m → mmu_wf (with_entry m v q t) → in_u 32 ea' → ¬ hits (with_entry m v q t) ea' v →
  hw_translate (with_entry m v q t) ea' = if decide (hw_lookup m ea' = Some v) then None else hw_translate m ea'.
Proof.
  intros Hwf Hwf' Hea Hv. set (m' := with_entry m v q t) in *.
  assert (∀ b, hw_lookup m' ea' = Some b → b ≠ v ∧ hw_lookup m ea' = Some b) as Hback.
  { intros b Hb. apply (hw_lookup_hits m' Hwf' ea' b Hea) in Hb. assert (b ≠ v) as Hne by (intros ->; done). split; [done|].
    apply (hw_lookup_hits m Hwf ea' b Hea). exact (proj1 (hits_other m (wf_shape _ Hwf) v q t ea' b Hne) Hb). }
  unfold hw_translate. destruct (hw_lookup m ea') as [a|] eqn:E.
  - destruct (decide (a = v)) as [->|Hne].
    + rewrite decide_True by done. destruct (hw_lookup m' ea') as [b|] eqn:E'; [|done].
      destruct (Hback b eq_refl) as [H1 [= H2]]. congruence.
    + rewrite decide_False by congruence. assert (hw_lookup m' ea' = Some a) as ->.
      { apply (hw_lookup_hits m' Hwf' ea' a Hea), (hits_other m (wf_shape _ Hwf) v q t ea' a Hne), (hw_lookup_hits m Hwf ea' a Hea), E. }
      cbn [mbind option_bind]. unfold m'. cbn [ptes with_entry set_tlbie set_ptes]. by rewrite lookup_insert_ne.
  - rewrite decide_False by done. destruct (hw_lookup m' ea') as [b|] eqn:E'; [|done]. by destruct (Hback b eq_refl).
Qed.

Lemma no_hits m ea : mmu_wf m → in_u 32 ea → hw_translate m ea = None → ∀ a, ¬ hits m ea a.
Proof.
  intros Hwf Hea Hn a Ha. destruct (hits_pte m (wf_shape _ Hwf) ea a Ha) as (p & Hp & _). by rewrite (translate_hits m (wf_shape _ Hwf) m ea a p Hwf Hea Ha Hp) in Hn.
Qed.

Lemma insert_translates m ea entry : mmu_wf m → in_u 32 ea → hw_translate m ea = None →
  ∃ m' victim, insertPTE ea entry m = Ok ((), m') ∧ mmu_wf m' ∧
    (∀ ea', in_u 32 ea' → hw_translate m' ea' =
       if decide (same_page m ea ea') then Some entry
       else if decide (hw_lookup m ea' = Some victim) then None else hw_translate m ea') ∧
    (∃ p, ptes m !! victim = Some p ∧ tlbie m' = (if pte_v p =? 0 then tlbie m else ea :: tlbie m) ∧
       (pte_v p ≠ 0 → ∀ h a p', h = 0 ∨ h = 1 → a ∈ group_of m h ea → ptes m !! a = Some p' → pte_v p' ≠ 0)).
Proof.
  intros Hwf Hea Hnone. pose proof (no_hits m ea Hwf Hea Hnone) as Hno.
  destruct (insert_run m (wf_shape _ Hwf) ea entry Hea) as (v & h & p & q & Hrun & Hh & Hv & Hp & Q0 & Q1 & Q2 & Q3 & Q4 & Hfull).
  set (t := if pte_v p =? 0 then _ else _) in *. set (m' := with_entry m v q t) in *.
  assert (mmu_wf m') as Hwf' by (by apply (with_entry_wf m v q t h ea)).
  exists m', v. split_and!; [done|done| |by exists p].
  intros ea' Hea'. pose proof (hits_new m (wf_shape _ Hwf) v q t h ea ea' Hh Hv Q1 Q2 Q3 Q4) as Hnew. fold m' in Hnew. destruct (decide (same_page m ea ea')) as [Hs|Hs].
  - rewrite <- Q0. apply (translate_hits m (wf_shape _ Hwf) m' ea' v q Hwf' Hea' (proj2 Hnew Hs)).
    unfold m'. cbn [ptes with_entry set_tlbie set_ptes]. apply lookup_insert_eq.
  - apply translate_other; [done|done|done|]. intros Hh'. by apply Hs, Hnew.
Qed.

(** C10. Entering a page. On a table that [init] has set up, with at most one entry for a page, [insertPTE] of an
    address that is not translated ends without a fault, and then the processor translates the page of the address,
    and no other, by the entry. One other page can lose its translation, that of the entry which is replaced; a valid
    entry is replaced only when all the entries of both groups are valid. The [tlbie] that follows is of the new
    address, not of the page that lost its translation. *)
Theorem insertPTE_spec m ea entry : mmu_wf m → in_u 32 ea → hw_translate m ea = None →
  ∃ m' victim, insertPTE ea entry m = Ok ((), m') ∧ mmu_wf m' ∧
    (∀ ea', in_u 32 ea' → hw_translate m' ea' =
       if decide (same_page m ea ea') then Some entry
       else if decide (hw_lookup m ea' = Some victim) then None else hw_translate m ea') ∧
    (∃ p, ptes m !! victim = Some p ∧ tlbie m' = (if pte_v p =? 0 then tlbie m else ea :: tlbie m) ∧
       (pte_v p ≠ 0 → ∀ h a p', h = 0 ∨ h = 1 → a ∈ group_of m h ea → ptes m !! a = Some p' → pte_v p' ≠ 0)).
Proof. apply insert_translates. Qed.

(** ** Removal *)

(** The pages whose entries [locatePTE] cannot tell from those of an address: it does not look at the hash bit. *)
Definition unconfused (m : mmu) (ea : Z) : Prop := ∀ h a p, h = 0 ∨ h = 1 → a ∈ group_of m h ea → ptes m !! a = Some p →
  pte_v p = 1 → pte_vsid p = vsid_of m ea → pte_api p = hw_api ea → pte_h p = h.

Lemma with_zero_wf m v t : mmu_wf m → is_Some (ptes m !! v) → mmu_wf (with_entry m v (mk_pte 0 0) t) ∧
  ∀ ea, ¬ hits (with_entry m v (mk_pte 0 0) t) ea v.
Proof.
  intros Hwf Hv. assert (∀ ea, ¬ hits (with_entry m v (mk_pte 0 0) t) ea v) as Hno.
  { intros ea (h & _ & _ & Ht). unfold hit_at in Ht. cbn [ptes with_entry set_tlbie set_ptes] in Ht. by rewrite lookup_insert_eq in Ht. }
  split; [|done]. destruct Hwf as [Hwf W5]. split; [by apply with_entry_shape|].
  intros ea a b Hea Ha Hb. assert (a ≠ v) as H1 by (intros ->; by apply (Hno ea)). assert (b ≠ v) as H2 by (intros ->; by apply (Hno ea)).
    apply (W5 ea a b Hea); [exact (proj1 (hits_other m Hwf v _ t ea a H1) Ha)|exact (proj1 (hits_other m Hwf v _ t ea b H2) Hb)].
Qed.

(** What [locatePTE] finds: an entry with the identifier of segment 0. *)
Definition located (m : mmu) (ea : Z) (p : PTE) : Prop := pte_v p = 1 ∧ pte_vsid p = vsid_of m 0 ∧ pte_api p = hw_api ea.

Lemma locate_run m ea : mmu_shape m → in_u 32 ea → let hash := Z.lxor (field 0 19 (vsid_of m 0)) (page_index ea) in
  ∃ r, locatePTE ea m = Ok (r, m) ∧
    match r with
    | Some a => (a ∈ group (getPTEG hash m) ∨ a ∈ group (getPTEG (Z.lxor hash (Z.ones 19)) m)) ∧ ∃ p, ptes m !! a = Some p ∧ located m ea p
    | None => ∀ a p, (a ∈ group (getPTEG hash m) ∨ a ∈ group (getPTEG (Z.lxor hash (Z.ones 19)) m)) → ptes m !! a = Some p → ¬ located m ea p
    end.
Proof.
  intros Hwf Hea hash.
  assert (0 ≤ Z.shiftr ea 28 < 16) as Hs.
  { rewrite Z.shiftr_div_pow2 by lia. unfold in_u in Hea. split; [apply Z.div_pos; lia|apply Z.div_lt_upper_bound; lia]. }
  assert (in_u 19 hash) as H0.
  { apply in_u_lxor; [lia|by apply field_range|]. pose proof (field_range 12 16 ea ltac:(lia)). unfold page_index, in_u in *. lia. }
  assert (in_u 19 (Z.lxor hash (Z.ones 19))) as H1 by (apply in_u_lxor; [lia|done|by vm_compute]).
  destruct (getSR_run m Hwf 0 ltac:(by vm_compute)) as (w & Hw & Hv).
  assert (getSR (Z.shiftr ea 28) m = Ok (w, m)) as Hw'.
  { rewrite <- Hw. unfold getSR. rewrite !wrapu_id by (unfold in_u; lia). do 2 f_equal. rewrite (Z.shiftr_div_pow2 (Z.shiftr ea 28)) by lia.
    by rewrite Z.div_small by lia. }
  unfold locatePTE. rewrite (bind_Ok _ _ _ _ _ Hw'). cbv zeta. rewrite Hv, primaryHash_field. fold (page_index ea). fold hash.
  rewrite secondaryHash_lxor by done. rewrite run_bind_get. unfold locateThePTE, PPC_PTEG_SIZE.
  set (P := λ p, (pte_v p =? 1) && (pte_vsid p =? vsid_of m 0) && (pte_api p =? virtAddr2API ea)).
  assert (∀ p, P p = true ↔ located m ea p) as HP.
  { intros p. unfold P, located. rewrite !andb_true_iff, !Z.eqb_eq. change (virtAddr2API ea) with (hw_api ea). tauto. }
  destruct (hash_search m Hwf P hash H0) as (r0 & R0 & S0). destruct (hash_search m Hwf P _ H1) as (r1 & R1 & S1).
  rewrite (bind_Ok _ _ _ _ _ R0). destruct r0 as [a|].
  - exists (Some a). split; [done|]. destruct S0 as [Ha (p & Hp & Ht)]. split; [by left|]. exists p. split; [done|by apply HP].
  - exists r1. split; [done|]. destruct r1 as [a|].
    + destruct S1 as [Ha (p & Hp & Ht)]. split; [by right|]. exists p. split; [done|by apply HP].
    + intros a p [Ha|Ha] Hp Hl%HP; [by rewrite (S0 a p) in Hl|by rewrite (S1 a p) in Hl].
Qed.

Lemma invalid_run m ea : mmu_shape m → in_u 32 ea → ∃ r, locatePTE ea m = Ok (r, m) ∧ invalidPTE ea m =
  Ok ((), match r with Some a => with_entry m a (mk_pte 0 0) (ea :: tlbie m) | None => m end).
Proof.
  intros Hwf Hea. destruct (locate_run m ea Hwf Hea) as (r & Hr & Hs). exists r. split; [done|]. unfold invalidPTE.
  rewrite (bind_Ok _ _ _ _ _ Hr). destruct r as [a|]; [|done]. destruct Hs as (_ & p & Hp & Hv & _).
  assert (pte_of a m = Ok (p, m)) as Hpo by (unfold pte_of; by rewrite run_bind_get, Hp).
  rewrite (bind_Ok _ _ _ _ _ Hpo), Hv. cbn [Z.eqb negb when]. unfold invalidSelf.
  rewrite (bind_Ok _ _ _ _ _ (upd_pte_run m a p _ Hp)), (bind_Ok _ _ _ _ _ (upd_pte_run _ a _ _ (lookup_insert_eq _ _ _))).
  cbn [ptes set_ptes]. rewrite insert_insert_eq. done.
Qed.

Lemma invalid_translates m ea : mmu_wf m → in_u 32 ea → ∃ m', invalidPTE ea m = Ok ((), m') ∧ mmu_wf m' ∧
  (∀ ea', in_u 32 ea' → vsid_of m ea' ≠ vsid_of m 0 → hw_translate m' ea' = hw_translate m ea') ∧
  (vsid_of m ea = vsid_of m 0 → unconfused m ea →
     hw_translate m' ea = None ∧ ∀ ea', in_u 32 ea' → ¬ same_page m ea ea' → hw_translate m' ea' = hw_translate m ea').
Proof.
  intros Hwf Hea. destruct (locate_run m ea (wf_shape _ Hwf) Hea) as (r & Hr & Hs). destruct (invalid_run m ea (wf_shape _ Hwf) Hea) as (r' & Hr' & Hrun).
  rewrite Hr in Hr'. injection Hr' as <-. eexists. split; [exact Hrun|].
  assert (vsid_of m ea = vsid_of m 0 → Z.lxor (field 0 19 (vsid_of m 0)) (page_index ea) = hw_hash m ea) as Hhash
    by (intros E; unfold hw_hash; by rewrite E).
  assert (∀ x, vsid_of m ea = vsid_of m 0 → hits m ea x → r ≠ None) as Hfound.
  { intros x E Hx ->. destruct (hits_pte m (wf_shape _ Hwf) ea x Hx) as (p & Hp & H1 & H2 & H3). destruct Hx as (h & Hh & Hx & _).
    apply (Hs x p); [|done|unfold located; split_and!; congruence]. rewrite Hhash by done. destruct Hh as [-> | ->]; [by left|by right]. }
  destruct r as [a|].
  - destruct Hs as (Ha & p & Hp & Hv & Hvs & Hapi). destruct (with_zero_wf m a (ea :: tlbie m) Hwf ltac:(by exists p)) as [Hwf' Hno].
    split; [done|]. split.
    + intros ea' Hea' Hne. rewrite translate_other by done. rewrite decide_False; [done|].
      intros Hl%(hw_lookup_hits m Hwf ea' a Hea'). destruct (hits_pte m (wf_shape _ Hwf) ea' a Hl) as (p' & Hp' & _ & Hvs' & _). congruence.
    + intros E Hun. assert (hits m ea a) as Hit.
      { rewrite Hhash in Ha by done. destruct Ha as [Ha|Ha]; [exists 0|exists 1]; (split; [auto|split; [exact Ha|]]);
          unfold hit_at, hit; rewrite Hp, Hv, Hvs, Hapi, E, !Z.eqb_refl, andb_true_r; cbn [andb]; apply Is_true_true, Z.eqb_eq.
        - apply (Hun 0 a p); auto; congruence.
        - apply (Hun 1 a p); auto; congruence. }
      assert (∀ ea', in_u 32 ea' → ¬ same_page m ea ea' → hw_lookup m ea' ≠ Some a) as Hoth.
      { intros ea' Hea' Hns Hl%(hw_lookup_hits m Hwf ea' a Hea'). apply Hns. destruct Hit as (h & Hh & Hg & Ht).
        destruct Hl as (h' & _ & Hg' & Ht'). unfold hit_at, hit in Ht, Ht'. rewrite Hp in Ht, Ht'. rewrite !andb_True in Ht, Ht'.
        destruct Ht as (((_ & T1) & T2) & T3), Ht' as (((_ & U1) & U2) & U3). apply Is_true_true, Z.eqb_eq in T1, T2, T3, U1, U2, U3.
        assert (h' = h) as -> by congruence. apply (page_of_entry m (wf_shape _ Hwf) h ea ea' a); congruence. }
      split.
      * rewrite translate_other by done. rewrite decide_True; [done|]. by apply (hw_lookup_hits m Hwf ea a Hea).
      * intros ea' Hea' Hns. rewrite translate_other by done. by rewrite decide_False by by apply Hoth.
  - split; [done|]. split; [done|]. intros E Hun. split; [|done].
    unfold hw_translate. destruct (hw_lookup m ea) as [x|] eqn:El; [|done]. apply (hw_lookup_hits m Hwf ea x Hea) in El.
    by destruct (Hfound x E El).
Qed.

(** C23. Taking a page away. [invalidPTE] ends without a fault on every address, but it looks with the identifier of
    segment 0 ([getSR] is handed the number of the segment, not the address): no page of a segment with another
    identifier ever loses its translation, so that such a page stays mapped after it was taken away. In a segment with
    the identifier of segment 0 the page loses its translation and no other does, unless a group has an entry that
    differs in the hash bit only. *)
Theorem invalidPTE_spec m ea : mmu_wf m → in_u 32 ea → ∃ m', invalidPTE ea m = Ok ((), m') ∧ mmu_wf m' ∧
  (∀ ea', in_u 32 ea' → vsid_of m ea' ≠ vsid_of m 0 → hw_translate m' ea' = hw_translate m ea') ∧
  (vsid_of m ea = vsid_of m 0 → unconfused m ea →
     hw_translate m' ea = None ∧ ∀ ea', in_u 32 ea' → ¬ same_page m ea ea' → hw_translate m' ea' = hw_translate m ea').
Proof. apply invalid_translates. Qed.

(** ** The size of the table *)

(** The classes: the table has [2 ^ k] bytes, its address a multiple of that. *)
Lemma size_class total : MB 8 ≤ total < 2 ^ 32 → ∃ k, 16 ≤ k ≤ 25 ∧ optimalSize total = 2 ^ k ∧
  table_masks size_classes (optimalSize total) = (2 ^ 32 - 2 ^ k, 2 ^ (k - 16) - 1).
Proof.
  intros Ht. unfold optimalSize. rewrite (proj2 (Z.ltb_ge _ _)) by lia.
  repeat (case_match; [match goal with |- ∃ k, _ ∧ ?s = _ ∧ _ =>
    exists (Z.log2 s); split; [by vm_compute|by split; vm_compute] end|]).
  exists 16. split; [lia|by split; vm_compute].
Qed.

Lemma aligned_base k phyAddr : 16 ≤ k ≤ 25 → in_u 32 phyAddr → phyAddr mod 2 ^ k = 0 → Z.land phyAddr (2 ^ 32 - 2 ^ k) = phyAddr.
Proof.
  intros Hk Hp Hm.
  assert (2 ^ 32 - 2 ^ k = Z.shiftl (Z.ones (32 - k)) k) as ->.
  { rewrite Z.shiftl_mul_pow2, Z.ones_equiv by lia. rewrite Z.mul_comm, <- Z.sub_1_r, Z.mul_sub_distr_l, <- Z.pow_add_r by lia. f_equal; [f_equal; lia|lia]. }
  apply Z.bits_inj'. intros i Hi. rewrite Z.land_spec, Z.shiftl_spec by lia.
  destruct (Z.ltb_spec i k).
  - rewrite (Z.testbit_neg_r _ (i - k)) by lia. rewrite andb_false_r. symmetry.
    rewrite <- (Z.mod_pow2_bits_low _ k) by lia. by rewrite Hm, Z.bits_0.
  - rewrite Z.testbit_ones_nonneg by lia. destruct (Z.ltb_spec (i - k) (32 - k)); [by rewrite andb_true_r|].
    by rewrite (in_u_high 32 phyAddr) by (done || lia).
Qed.

Lemma pteg_sum k m hash : 16 ≤ k ≤ 25 → _baseAddr m mod 2 ^ k = 0 → _hashMask m = 2 ^ (k - 16) - 1 →
  getPTEG hash m = _baseAddr m + (hash / 2 ^ 10 mod 2 ^ 9) mod 2 ^ (k - 16) * 2 ^ 16 + hash mod 2 ^ 10 * 2 ^ 6.
Proof.
  intros Hk Hb Hm. unfold getPTEG, MMU_HASH_VALUE_LOW, MMU_HASH_VALUE_HIGH, MMU_HASH_VALUE_HIGH_SHIFT, MMU_PTE_HASH_VALUE_HIGH_SHIFT, MMU_PTE_HASH_VALUE_LOW_SHIFT.
  rewrite Hm. change 0x3ff with (Z.ones 10). change 0x7fc00 with (Z.shiftl (Z.ones 9) 10).
  assert (2 ^ (k - 16) - 1 = Z.ones (k - 16)) as -> by (rewrite Z.ones_equiv; lia).
  assert (Z.shiftr (Z.land hash (Z.shiftl (Z.ones 9) 10)) 10 = Z.land (Z.shiftr hash 10) (Z.ones 9)) as -> by (rewrite Z.shiftr_land; done).
  rewrite !Z.land_ones, Z.shiftr_div_pow2, !Z.shiftl_mul_pow2 by lia.
  set (hi := (hash / 2 ^ 10 mod 2 ^ 9) mod 2 ^ (k - 16)). set (lo := hash mod 2 ^ 10).
  assert (0 ≤ hi < 2 ^ (k - 16)) as Hhi by (apply Z.mod_pos_bound; lia). assert (0 ≤ lo < 2 ^ 10) as Hlo by (apply Z.mod_pos_bound; lia).
  assert (2 ^ k = 2 ^ (k - 16) * 2 ^ 16) as H2k by (rewrite <- Z.pow_add_r by lia; f_equal; lia).
  pose proof (Z.pow_pos_nonneg 2 (k - 16) ltac:(lia) ltac:(lia)) as Hpos.
  pose proof (Z.div_mod (_baseAddr m) (2 ^ k) ltac:(lia)) as Hdm. rewrite Hb, Z.add_0_r, Z.mul_comm in Hdm.
  assert (0 ≤ hi * 2 ^ 16 < 2 ^ k) as Hhik by (rewrite H2k; split; [lia|apply Z.mul_lt_mono_pos_r; lia]).
  rewrite (lor_add k (_baseAddr m / 2 ^ k) (_baseAddr m) (hi * 2 ^ 16)) by (done || lia).
  rewrite (lor_add 16 (_baseAddr m / 2 ^ k * 2 ^ (k - 16) + hi)); [done|lia|lia|lia].
Qed.

(** C25. The table stays in its memory. For a memory of at least 8 MB and a table of the size that [optimalSize] gives,
    at an address that is a multiple of it, [init] keeps the address; the group of every hash value lies in the table,
    at a multiple of 64, and is the group that the processor computes from SDR1. *)
Theorem table_in_bounds total phyAddr m hash : MB 8 ≤ total < 2 ^ 32 → let size := optimalSize total in
  in_u 32 phyAddr → phyAddr mod size = 0 → in_u 19 hash →
  ∃ m', HashTable_init phyAddr size m = Ok ((), m') ∧ _baseAddr m' = phyAddr ∧ ptes m' = ptes m ∧ segment m' = segment m ∧
    phyAddr ≤ getPTEG hash m' ≤ phyAddr + size - 64 ∧ getPTEG hash m' mod 64 = 0 ∧
    hw_pteg (sdr1 m') hash = getPTEG hash m'.
Proof.
  intros Ht size Hp Hal Hh. destruct (size_class total Ht) as (k & Hk & Hsz & Hmasks). subst size.
  unfold HashTable_init. rewrite run_bind_modify, Hmasks, run_bind_modify. rewrite Hsz in *.
  eexists. split; [reflexivity|]. rewrite aligned_base by done. set (m' := set_baseAddr _ _).
  assert (_baseAddr m' = phyAddr) as Hb by done. assert (_hashMask m' = 2 ^ (k - 16) - 1) as Hm by done.
  assert (2 ^ k = 2 ^ (k - 16) * 2 ^ 16) as H2k by (rewrite <- Z.pow_add_r by lia; f_equal; lia).
  assert (in_u 32 (_baseAddr m') ∧ _baseAddr m' mod 2 ^ 16 = 0) as Hbase.
  { split; [by rewrite Hb|]. rewrite Hb. apply Z.mod_divide; [lia|]. apply Z.mod_divide in Hal; [|lia].
    etrans; [|exact Hal]. exists (2 ^ (k - 16)). lia. }
  assert (in_u 9 (_hashMask m')) as Hmask.
  { rewrite Hm. unfold in_u. pose proof (Z.pow_le_mono_r 2 (k - 16) 9 ltac:(lia) ltac:(lia)). pose proof (Z.pow_pos_nonneg 2 (k - 16)). lia. }
  split_and!; try done; [| |by apply pteg_aligned|by apply pteg_hw];
    rewrite (pteg_sum k) by (done || by rewrite Hb); rewrite Hb;
    pose proof (Z.mod_pos_bound (hash / 2 ^ 10 mod 2 ^ 9) (2 ^ (k - 16)) ltac:(lia)); pose proof (Z.mod_pos_bound hash (2 ^ 10) ltac:(lia)); lia.
Qed.

(** ** The start of the system *)

Lemma MMU_init_run m : length (segment m) = 16%nat → MMU_init m = Ok ((), set_segment (seqZ 0 16) m).
Proof.
  intros Hl. destruct m as [ps l tl b s hm]. cbn in Hl.
  do 16 (destruct l as [|? l]; [done|]). by destruct l.
Qed.

(** A table of zeros, as [Powerpc::init] leaves it, translates nothing. *)
Lemma boot_run total phyAddr m : MB 8 ≤ total < 2 ^ 32 → in_u 32 phyAddr → phyAddr mod optimalSize total = 0 →
  length (segment m) = 16%nat → (∀ a, phyAddr ≤ a ≤ phyAddr + optimalSize total - 8 → a mod 8 = 0 → ptes m !! a = Some (mk_pte 0 0)) →
  (∀ a p, ptes m !! a = Some p → p = mk_pte 0 0) →
  ∃ m', (HashTable_init phyAddr (optimalSize total);; MMU_init) m = Ok ((), m') ∧ segment m' = seqZ 0 16 ∧ mmu_wf m' ∧ ∀ ea, hw_translate m' ea = None.
Proof.
  intros Ht Hp Hal Hl Hz Hzero. destruct (size_class total Ht) as (k & Hk & Hsz & Hmasks). rewrite Hsz in *.
  unfold HashTable_init. rewrite run_bind_bind, run_bind_modify, Hmasks, run_bind_bind, run_bind_modify, run_bind_modify, aligned_base by done.
  rewrite MMU_init_run by done. eexists. split; [reflexivity|]. set (m' := set_segment _ _). split; [done|].
  assert (∀ v a h ap, hit_at m' v a h ap → False) as Hno.
  { intros v a h ap Ht'. unfold hit_at in Ht'. change (ptes m') with (ptes m) in Ht'. destruct (ptes m !! ap) as [p|] eqn:E; [|done].
    by rewrite (Hzero _ _ E) in Ht'. }
  assert (2 ^ k = 2 ^ (k - 16) * 2 ^ 16) as H2k by (rewrite <- Z.pow_add_r by lia; f_equal; lia).
  split.
  - split; [split; try done|].
    + split; [done|]. apply Z.mod_divide; [lia|]. apply Z.mod_divide in Hal; [|lia]. etrans; [|exact Hal]. exists (2 ^ (k - 16)). lia.
    + change (in_u 9 (2 ^ (k - 16) - 1)). unfold in_u. pose proof (Z.pow_le_mono_r 2 (k - 16) 9 ltac:(lia) ltac:(lia)). pose proof (Z.pow_pos_nonneg 2 (k - 16)). lia.
    + intros hash a Hh (i & Hi & ->)%elem_of_group. exists (mk_pte 0 0). rewrite (pteg_sum k) by done. change (ptes m') with (ptes m). change (_baseAddr m') with phyAddr.
      pose proof (Z.mod_pos_bound (hash / 2 ^ 10 mod 2 ^ 9) (2 ^ (k - 16)) ltac:(lia)). pose proof (Z.mod_pos_bound hash (2 ^ 10) ltac:(lia)).
      apply Hz; [lia|]. apply Z.mod_divide in Hal as [c Hc]; [|lia]. apply Z.mod_divide; [lia|].
      exists (c * 2 ^ (k - 16) * 2 ^ 13 + (hash / 2 ^ 10 mod 2 ^ 9) mod 2 ^ (k - 16) * 2 ^ 13 + hash mod 2 ^ 10 * 2 ^ 3 + i). lia.
    + intros ea a b _ (h & _ & _ & Ht') _. by apply Hno in Ht'.
  - intros ea. unfold hw_translate. destruct (hw_lookup m' ea) as [a|] eqn:E; [exfalso|done].
    unfold hw_lookup in E. destruct (filter _ (group (hw_pteg (sdr1 m') (hw_hash m' ea)))) as [|b l] eqn:F.
    + destruct (filter _ (group (hw_pteg (sdr1 m') (Z.lxor _ _)))) as [|b l] eqn:F'; [done|].
      assert (b ∈ b :: l) as Hb by by left. rewrite <- F' in Hb. apply list_elem_of_filter in Hb as [Hb _]. by apply Hno in Hb.
    + assert (b ∈ b :: l) as Hb by by left. rewrite <- F in Hb. apply list_elem_of_filter in Hb as [Hb _]. by apply Hno in Hb.
Qed.

(** A table of 64 KB for a memory of 8 MB. *)
Definition demo_ptes : gmap Z PTE := gset_to_gmap (mk_pte 0 0) (list_to_set ((λ i, 0x10000 + 8 * i) <$> seqZ 0 8192)).
Definition demo_mmu : mmu := mk_mmu demo_ptes (seqZ 0 16) [] 0x10000 0x10000 0.

Lemma demo_ptes_lookup a p : demo_ptes !! a = Some p ↔ 0x10000 ≤ a < 0x20000 ∧ a mod 8 = 0 ∧ p = mk_pte 0 0.
Proof.
  unfold demo_ptes. rewrite lookup_gset_to_gmap_Some, elem_of_list_to_set, list_elem_of_fmap. setoid_rewrite elem_of_seqZ.
  pose proof (Z.div_mod a 8 ltac:(lia)) as Hdm. split.
  - intros [(i & -> & Hi) <-]. split; [lia|]. split; [|done]. replace (0x10000 + 8 * i) with ((0x2000 + i) * 8) by lia. by apply Z.mod_mul.
  - intros (Ha & Hm & ->). split; [|done]. exists ((a - 0x10000) / 8).
    pose proof (Z.div_mod (a - 0x10000) 8 ltac:(lia)). assert ((a - 0x10000) mod 8 = 0) as E.
    { replace (a - 0x10000) with (a + (-0x2000) * 8) by lia. by rewrite Z.mod_add. }
    lia.
Qed.
#[local] Opaque demo_ptes.

Lemma demo_mmu_wf : mmu_wf demo_mmu ∧ ∀ ea, hw_translate demo_mmu ea = None.
Proof.
  destruct (boot_run (MB 8) 0x10000 (mk_mmu demo_ptes (replicate 16 0) [] 0 0 0)) as (m' & Hrun & _ & Hwf);
    [by vm_compute|by vm_compute|reflexivity|reflexivity| | |].
  - intros a Ha Hm. change (optimalSize (MB 8)) with 0x10000 in Ha. cbn [ptes]. apply demo_ptes_lookup. split; [lia|]. by split.
  - intros a p Hp. cbn [ptes] in Hp. by apply demo_ptes_lookup in Hp as (_ & _ & ->).
  - change (optimalSize (MB 8)) with 0x10000 in Hrun.
    assert (Ok ((), demo_mmu) = Ok ((), m')) as E by (rewrite <- Hrun; reflexivity). injection E as <-. exact Hwf.
Qed.
#[local] Transparent demo_ptes.

Example insertPTE_spec_witness : ∃ m', insertPTE 0x30001000 0x00ABC002 demo_mmu = Ok ((), m') ∧ hw_translate m' 0x30001FFC = Some 0x00ABC002 ∧
  hw_translate m' 0x20001000 = None.
Proof.
  destruct (insertPTE_spec demo_mmu 0x30001000 0x00ABC002 (proj1 demo_mmu_wf) ltac:(split; lia) (proj2 demo_mmu_wf _))
    as (m' & v & Hrun & _ & Ht & _).
  exists m'. split; [exact Hrun|]. split.
  - rewrite (Ht 0x30001FFC) by (split; lia). apply decide_True. split; reflexivity.
  - rewrite (Ht 0x20001000) by (split; lia). rewrite decide_False by (intros [H _]; discriminate H).
    rewrite (proj2 demo_mmu_wf). by case_decide.
Defined.

(** A page of segment 3 stays translated. *)
Example invalidPTE_spec_witness : ∃ m m', insertPTE 0x30001000 0x00ABC002 demo_mmu = Ok ((), m) ∧
  invalidPTE 0x30001000 m = Ok ((), m') ∧ hw_translate m' 0x30001000 = Some 0x00ABC002.
Proof.
  destruct demo_mmu_wf as [Hwf Hnone]. set (ea := 0x30001000). assert (in_u 32 ea) as Hea by (split; unfold ea; lia).
  pose proof (no_hits demo_mmu ea Hwf Hea (Hnone ea)) as Hno.
  destruct (insert_run demo_mmu (wf_shape _ Hwf) ea 0x00ABC002 Hea) as (v & h & p & q & Hrun & Hh & Hv & Hp & Q0 & Q1 & Q2 & Q3 & Q4 & _).
  set (t := if pte_v p =? 0 then _ else _) in *. set (m := with_entry demo_mmu v q t) in *.
  assert (mmu_wf m) as Hm by exact (with_entry_wf demo_mmu v q t h ea Hwf Hh Hv Hea Hno Q1 Q2 Q3 Q4).
  destruct (invalidPTE_spec m ea Hm Hea) as (m' & Hinv & _ & Hstay & _).
  exists m, m'. split; [exact Hrun|]. split; [exact Hinv|]. rewrite (Hstay ea Hea) by (intros H; discriminate H).
  rewrite <- Q0. apply (translate_hits demo_mmu (wf_shape _ Hwf) m ea v q Hm Hea).
  - apply (hits_new demo_mmu (wf_shape _ Hwf) v q t h ea ea Hh Hv Q1 Q2 Q3 Q4). by split.
  - apply lookup_insert_eq.
Defined.

Example table_in_bounds_witness : ∃ m', HashTable_init 0x10000 (optimalSize (MB 8)) demo_mmu = Ok ((), m') ∧
  0x10000 ≤ getPTEG 0x7ffff m' ≤ 0x10000 + optimalSize (MB 8) - 64.
Proof.
  destruct (table_in_bounds (MB 8) 0x10000 demo_mmu 0x7ffff) as (m' & H1 & _ & _ & _ & H2 & _);
    [by vm_compute|by vm_compute|reflexivity|by vm_compute|].
  exists m'. split; [exact H1|exact H2].
Defined.

(** [locatePTE] does not look at the hash bit: the nine pages below have the same hash value, so that the last one is
    entered in its secondary group; taking away the page that has this group as its primary one, which was never
    entered, takes away that page. *)
Definition two_groups : mmu :=
  mk_mmu (list_to_map ((λ i, (0x10000 + i, mk_pte 0 0)) <$> ((λ i, 8 * i) <$> seqZ 0 8) ++ ((λ i, 0xffc0 + 8 * i) <$> seqZ 0 8)))
    (seqZ 0 16) [] 0x10000 0x10000 0.

Example invalidPTE_takes_other_page :
  match foldr (λ ea (m : res (() * mmu)), match m with Ok (_, m) => insertPTE ea (ea + 2) m | Err f => Err f end) (Ok ((), two_groups))
          ((λ api, Z.shiftl api 22) <$> [9; 8; 7; 6; 5; 4; 3; 2; 1]) with
  | Ok (_, m) => hw_translate m 0x02400000 = Some 0x02400002 ∧
      match invalidPTE 0x027FF000 m with Ok (_, m') => hw_translate m 0x027FF000 = None ∧ hw_translate m' 0x02400000 = None | Err _ => False end
  | Err _ => False
  end.
Proof. vm_compute. done. Qed.
