(* ===== verification/Vmm.v ===== *)
(** * The virtual memory manager

    [kernel/include/mm/vmm.h] and [kernel/src/mm/vmm.cpp]: the frames of the memory that is left
    to the processes, each with a [Page] that is linked into the ring of the free pages or into
    the ring of the process that has it, and the calls that map and unmap them in the hashed page
    table of [Mmu]. The rings are those of [DList], on the addresses of the nodes; a process is
    given by the address of its [_pageHeader]. The memory that the heap returns for the pages is an
    argument, and so are the ranges of [OMLayout::VmmSpaces] and the address of [_freePageList].
    The mutex and the spin locks are not part of the state.

    [vmm_refines] gives every call by what it does to the lists of pages, and shows that no frame
    ever is in two places; [unmapped_page_stays_mapped] shows what the search in segment 0 only
    ([Mmu]) means for the pages that are given back. *)

From S2P Require Import Prelude Memory Endian DList Mmu.

Inductive ErrNo := ENONE | ENOMEM | EFAULT.

(** [struct Page]: the two words before the node at the offset 8. *)
Record Page := mk_page { _virAddr : Z; _phyAddr : Z }.
Definition set_virAddr (v : Z) (p : Page) : Page := mk_page v (_phyAddr p).
Definition sizeof_Page : Z := 16.
Definition node_of_page (p : Z) : Z := p + 8.
Definition List_Entry_Page (node : Z) : Z := node - 8.

Record vmm := mk_vmm {
  nodes : gmap Z (node Z);
  pages : gmap Z Page;
  table : mmu;
  _freePageCounter : Z
}.
Definition set_nodes (v : gmap Z (node Z)) (s : vmm) : vmm := mk_vmm v (pages s) (table s) (_freePageCounter s).
Definition set_pages (v : gmap Z Page) (s : vmm) : vmm := mk_vmm (nodes s) v (table s) (_freePageCounter s).
Definition set_table (v : mmu) (s : vmm) : vmm := mk_vmm (nodes s) (pages s) v (_freePageCounter s).
Definition set_freePageCounter (v : Z) (s : vmm) : vmm := mk_vmm (nodes s) (pages s) (table s) v.

Abbreviation V := (prog vmm).

Definition on_nodes {A} (m : prog (gmap Z (node Z)) A) : V A := zoom nodes set_nodes m.
Definition on_table {A} (m : prog mmu A) : V A := zoom table set_table m.
Definition page_of (p : Z) : V Page := s ← get; defined (pages s !! p).
Definition upd_page (p : Z) (f : Page → Page) : V () :=
  pg ← page_of p;
  modify (λ s, set_pages (<[p := f pg]> (pages s)) s).
Definition count_pages (d : Z) : V () := modify (λ s, set_freePageCounter (u32 (_freePageCounter s + d)) s).

Section vmm.
(** The ranges of the memory, and [&_freePageList]. *)
Context (VmmSpaces : list (Z * Z)) (_freePageList : Z).

(** The page-aligned part of a range. *)
Definition space_bounds (b : Z * Z) : Z * Z := (alignUp b.1 PageSize, alignDown (u32 (b.1 + b.2)) PageSize).

Definition firstInit : V () :=
  on_nodes (initRingDoubleList (Some _freePageList));;
  modify (set_freePageCounter 0);;
  modify (set_freePageCounter
    (foldl (λ n b, let '(start, end_) := space_bounds b in u32 (n + u32 (end_ - start))) 0 VmmSpaces));;
  modify (λ s, set_freePageCounter (Z.shiftr (_freePageCounter s) 12) s).

(** [p = (Page * )block]: the memory at [block] is taken as a page, whose fields are set. *)
Definition make_page (block start : Z) : V () :=
  modify (λ s, set_pages (<[block := mk_page 0 start]> (pages s)) s);;
  modify (λ s, set_nodes (<[node_of_page block := Node None None]> (nodes s)) s);;
  on_nodes (addNodeToRingDoubleListTail (Some _freePageList) (Some (node_of_page block))).

(** The body of [while(start < end)]: the loop carries [start], [startCtlBlock] and [tmp]. *)
Definition second_body (end_ : Z) (st : Z * Z * Z) : V (Z * Z * Z + Z * Z) :=
  let '(start, block, tmp) := st in
  if start <? end_ then
    make_page block start;;
    mret (inl (u32 (start + PageSize), u32 (block + sizeof_Page), u32 (tmp + 1)))
  else mret (inr (block, tmp)).

Fixpoint second_spaces (spaces : list (Z * Z)) (endCtlBlock block tmp : Z) : V Z :=
  match spaces with
  | [] => mret tmp
  | b :: spaces =>
      if negb (block <? endCtlBlock) then mret tmp else
      let '(start, end_) := space_bounds b in
      r ← loop (S (Z.to_nat ((end_ - start) / PageSize))) (second_body end_) (start, block, tmp);
      let '(block, tmp) := r in
      second_spaces spaces endCtlBlock block tmp
  end.

(** [startCtlBlock] is what [kheap.separateFreeBlock] returns. *)
Definition secondInit (startCtlBlock : Z) : V ErrNo :=
  s ← get;
  let tmp := u32 (_freePageCounter s * sizeof_Page) in
  if startCtlBlock =? 0 then mret ENOMEM else
  _ ← second_spaces VmmSpaces (u32 (startCtlBlock + tmp)) startCtlBlock 0;
  mret ENONE.

(** The body of the loop of [init], which stops where the pages end too. *)
Definition init_body (end_ to : Z) (st : Z * Z) : V (Z * Z + Z) :=
  let '(start, header) := st in
  if (start <? end_) && (u32 (header + sizeof_Page) <? to) then
    make_page header start;;
    count_pages 1;;
    mret (inl (u32 (start + PageSize), u32 (header + sizeof_Page)))
  else mret (inr header).

Fixpoint init_spaces (spaces : list (Z * Z)) (header to : Z) : V Z :=
  match spaces with
  | [] => mret header
  | b :: spaces =>
      if negb (header <? to) then mret header else
      let '(start, end_) := space_bounds b in
      header ← loop (S (Z.to_nat ((end_ - start) / PageSize))) (init_body end_ to) (start, header);
      init_spaces spaces header to
  end.

(** The result and the new value of [*from]; the local variable that is returned is not set on
    the way that succeeds. *)
Definition vmm_init (from to : Z) : V (ErrNo * Z) :=
  modify (set_freePageCounter 0);;
  on_nodes (initRingDoubleList (Some _freePageList));;
  header ← init_spaces VmmSpaces (alignUp from 4) to;
  if to <? u32 (header + sizeof_Page) then mret (ENOMEM, from) else fail FUndef.

(** A pointer to a page, or null. *)
Definition getFreePage : V (option Z) :=
  empty ← on_nodes (ringListIsEmpty (Some _freePageList));
  if empty : bool then mret None else
  h ← on_nodes (node_of (Some _freePageList));
  p ← defined (next h);
  on_nodes (delNodeFromRingDoubleList (Some p));;
  count_pages (-1);;
  mret (Some (List_Entry_Page p)).

(** [RingList_Foreach_Safe(p, n, &proc->_pageHeader)] *)
Definition release_body (proc : Z) (st : option Z * option Z) : V (option Z * option Z + ()) :=
  let '(p, n) := st in
  if bool_decide (p = Some proc) then mret (inr ()) else
  x ← defined p;
  pg ← page_of (List_Entry_Page x);
  on_table (invalidPTE (_virAddr pg));;
  on_nodes (delNodeFromRingDoubleList p);;
  on_nodes (addNodeToRingDoubleListTail (Some _freePageList) p);;
  count_pages 1;;
  h ← on_nodes (node_of n);
  mret (inl (n, next h)).

Definition releaseProcAllPages (proc : Z) : V () :=
  s ← get;
  h ← on_nodes (node_of (Some proc));
  h' ← on_nodes (node_of (next h));
  loop (S (size (nodes s))) (release_body proc) (next h, next h').

Definition mapping4KB (gproc virAddr flags : Z) (isIdentityMapping : bool) : V ErrNo :=
  page ← getFreePage;
  match page with
  | None => mret ENOMEM
  | Some page =>
      let virAddr := alignDown virAddr PageSize in
      on_nodes (addNodeToRingDoubleListTail (Some gproc) (Some (node_of_page page)));;
      upd_page page (λ pg, set_virAddr (if isIdentityMapping then _phyAddr pg else virAddr) pg);;
      pg ← page_of page;
      on_table (insertPTE virAddr (Z.lor (_phyAddr pg) flags));;
      mret ENONE
  end.

Definition unmap_body (gproc virAddr : Z) (p : option Z) : V (option Z + ErrNo) :=
  if bool_decide (p = Some gproc) then mret (inr EFAULT) else
  x ← defined p;
  pg ← page_of (List_Entry_Page x);
  if _virAddr pg =? virAddr then
    on_nodes (delNodeFromRingDoubleList p);;
    on_table (invalidPTE virAddr);;
    on_nodes (addNodeToRingDoubleListTail (Some _freePageList) p);;
    count_pages 1;;
    mret (inr ENONE)
  else
    h ← on_nodes (node_of p);
    mret (inl (next h)).

Definition unmapping4KB (gproc virAddr : Z) : V ErrNo :=
  assert_ (negb (gproc =? 0));;
  let virAddr := alignDown virAddr PageSize in
  s ← get;
  h ← on_nodes (node_of (Some gproc));
  loop (S (size (nodes s))) (unmap_body gproc virAddr) (next h).
End vmm.

(** ** The calls on lists of pages *)

(** The lists of the nodes in the rings, and the pages. *)
Abbreviation alists := (gmap Z (list Z)).

Definition page_at (P : gmap Z Page) (x : Z) : Page := default (mk_page 0 0) (P !! List_Entry_Page x).

(** The first element with a property, and the others. *)
Fixpoint take_out (f : Z → bool) (l : list Z) : option (Z * list Z) :=
  match l with
  | [] => None
  | x :: l => if f x then Some (x, l) else '(y, k) ← take_out f l; Some (y, x :: k)
  end.

Section spec.
Context (VmmSpaces : list (Z * Z)) (fl : Z).

Definition the_list (Q : alists) (hd : Z) : list Z := default [] (Q !! hd).

Definition spec_map (proc va : Z) (ident : bool) (A : alists * gmap Z Page) : ErrNo * (alists * gmap Z Page) :=
  let '(Q, P) := A in
  match the_list Q fl with
  | [] => (ENOMEM, A)
  | x :: l =>
      let pg := page_at P x in
      (ENONE, (<[proc := the_list Q proc ++ [x]]> (<[fl := l]> Q),
               <[List_Entry_Page x := mk_page (if ident then _phyAddr pg else alignDown va PageSize) (_phyAddr pg)]> P))
  end.

Definition spec_unmap (proc va : Z) (A : alists * gmap Z Page) : ErrNo * (alists * gmap Z Page) :=
  let '(Q, P) := A in
  match take_out (λ x, _virAddr (page_at P x) =? alignDown va PageSize) (the_list Q proc) with
  | None => (EFAULT, A)
  | Some (x, l) => (ENONE, (<[fl := the_list Q fl ++ [x]]> (<[proc := l]> Q), P))
  end.

Definition spec_release (proc : Z) (A : alists * gmap Z Page) : alists * gmap Z Page :=
  let '(Q, P) := A in (<[fl := the_list Q fl ++ the_list Q proc]> (<[proc := []]> Q), P).

Inductive vmm_call :=
  | Map (gproc virAddr flags : Z) (isIdentityMapping : bool)
  | Unmap (gproc virAddr : Z)
  | Release (proc : Z).

Definition run_call (c : vmm_call) : prog vmm ErrNo :=
  match c with
  | Map proc va flags ident => mapping4KB fl proc va flags ident
  | Unmap proc va => unmapping4KB fl proc va
  | Release proc => releaseProcAllPages fl proc;; mret ENONE
  end.

Definition spec_call (c : vmm_call) (A : alists * gmap Z Page) : ErrNo * (alists * gmap Z Page) :=
  match c with
  | Map proc va _ ident => spec_map proc va ident A
  | Unmap proc va => spec_unmap proc va A
  | Release proc => (ENONE, spec_release proc A)
  end.

Fixpoint spec_calls (cs : list vmm_call) (A : alists * gmap Z Page) : list ErrNo * (alists * gmap Z Page) :=
  match cs with
  | [] => ([], A)
  | c :: cs => let '(r, A) := spec_call c A in let '(rs, A) := spec_calls cs A in (r :: rs, A)
  end.

Definition call_proc (c : vmm_call) : Z := match c with Map p _ _ _ => p | Unmap p _ => p | Release p => p end.
Definition call_addr (c : vmm_call) : Z := match c with Map _ va _ _ => va | Unmap _ va => va | Release _ => 0 end.

(** A node of a page in one of the rings. *)
Definition linked (Q : alists) (x : Z) : Prop := ∃ hd l, Q !! hd = Some l ∧ x ∈ l.

(** The invariant: the rings are those of the lists, the count is the length of the free list, and
    no two pages have the same frame. *)
Record vmm_inv (Q : alists) (s : vmm) : Prop := mk_inv {
  inv_rings : rings (nodes s) Q;
  inv_free : is_Some (Q !! fl);
  inv_count : _freePageCounter s = u32 (zlen (the_list Q fl));
  inv_pages x : linked Q x → ∃ pg, pages s !! List_Entry_Page x = Some pg ∧ in_u 32 (_virAddr pg) ∧ in_u 32 (_phyAddr pg);
  inv_frames x y : linked Q x → linked Q y → _phyAddr (page_at (pages s) x) = _phyAddr (page_at (pages s) y) → x = y;
  inv_table : mmu_shape (table s)
}.

Definition proc_ok (Q : alists) (c : vmm_call) : Prop :=
  call_proc c ≠ fl ∧ call_proc c ≠ 0 ∧ is_Some (Q !! call_proc c) ∧ in_u 32 (call_addr c).
End spec.

(** ** Runs of the parts *)

Implicit Types (s : vmm).

Lemma vmm_nodes_run {A} (m : prog (gmap Z (node Z)) A) s x h : m (nodes s) = Ok (x, h) → on_nodes m s = Ok (x, set_nodes h s).
Proof. intros H. unfold on_nodes. by apply zoom_Ok. Qed.
Lemma on_table_run {A} (m : prog mmu A) s x t : m (table s) = Ok (x, t) → on_table m s = Ok (x, set_table t s).
Proof. intros H. unfold on_table. by apply zoom_Ok. Qed.
Lemma on_nodes_read {A} (m : prog (gmap Z (node Z)) A) s x : m (nodes s) = Ok (x, nodes s) → on_nodes m s = Ok (x, s).
Proof. intros H. rewrite (vmm_nodes_run m s x _ H). by destruct s. Qed.
Lemma page_of_run p s pg : pages s !! p = Some pg → page_of p s = Ok (pg, s).
Proof. intros H. unfold page_of. by rewrite run_bind_get, H. Qed.
Lemma upd_page_run p f s pg : pages s !! p = Some pg → upd_page p f s = Ok ((), set_pages (<[p := f pg]> (pages s)) s).
Proof. intros H. unfold upd_page. by rewrite (bind_Ok _ _ _ _ _ (page_of_run p s pg H)). Qed.

Lemma insertPTE_ends m ea e : mmu_shape m → in_u 32 ea → ∃ m', insertPTE ea e m = Ok ((), m') ∧ mmu_shape m'.
Proof.
  intros Hm Hea. destruct (insert_run m Hm ea e Hea) as (v & h & p & q & Hrun & _ & _ & Hp & _).
  eexists. split; [exact Hrun|]. apply with_entry_shape; [done|by eexists].
Qed.

Lemma invalidPTE_ends m ea : mmu_shape m → in_u 32 ea → ∃ m', invalidPTE ea m = Ok ((), m') ∧ mmu_shape m'.
Proof.
  intros Hm Hea. destruct (invalid_run m ea Hm Hea) as (r & Hr & Hrun). destruct (locate_run m ea Hm Hea) as (r' & Hr' & Hs).
  rewrite Hr in Hr'. injection Hr' as <-. eexists. split; [exact Hrun|]. destruct r as [a|]; [|done].
  destruct Hs as (_ & p & Hp & _). apply with_entry_shape; [done|by eexists].
Qed.

Lemma u32_add a b : u32 (u32 a + b) = u32 (a + b).
Proof. unfold wrapu. by rewrite Zplus_mod_idemp_l. Qed.

Lemma alignDown_range va : in_u 32 va → in_u 32 (alignDown va PageSize).
Proof.
  intros H. unfold alignDown. apply in_u_land_l; [lia|done|]. unfold notu. apply wrapu_range. lia.
Qed.

Lemma page_at_eq P x pg : P !! List_Entry_Page x = Some pg → page_at P x = pg.
Proof. intros H. unfold page_at. by rewrite H. Qed.

(** The successor of the first node. *)
Lemma ring_second (h : gmap Z (node Z)) hd x l : ring h hd (x :: l) → next_of h x = Some (Some (default hd (head l))).
Proof. intros Hr. apply (ring_rotate h hd [] x l) in Hr. apply ring_first in Hr. by destruct l. Qed.

Lemma node_next (h : gmap Z (node Z)) a v : next_of h a = Some v → ∃ n, node_of (Some a) h = Ok (n, h) ∧ next n = v.
Proof. intros (n & Hn & Hv)%next_of_Some. exists n. unfold node_of. by rewrite Hn. Qed.

Section calls.
Context (fl : Z).

Lemma linked_insert Q hd l x : linked (<[hd := l]> Q) x → x ∈ l ∨ linked Q x.
Proof.
  intros (h & k & Hk & Hx). rewrite lookup_insert in Hk. case_decide; [injection Hk as <-; by left|]. right. by exists h, k.
Qed.

Lemma the_list_insert Q hd l hd' : the_list (<[hd := l]> Q) hd' = if decide (hd = hd') then l else the_list Q hd'.
Proof. unfold the_list. rewrite lookup_insert. by case_decide. Qed.

Lemma the_list_Some Q hd : is_Some (Q !! hd) → Q !! hd = Some (the_list Q hd).
Proof. intros [l Hl]. unfold the_list. by rewrite Hl. Qed.

Lemma linked_list Q hd x : is_Some (Q !! hd) → x ∈ the_list Q hd → linked Q x.
Proof. intros Hs Hx. exists hd, (the_list Q hd). by rewrite <- the_list_Some. Qed.

(** What keeps the invariant. *)
Lemma inv_step Q s Q' s' : vmm_inv fl Q s → rings (nodes s') Q' → is_Some (Q' !! fl) →
  _freePageCounter s' = u32 (zlen (the_list Q' fl)) → (∀ x, linked Q' x → linked Q x) →
  (∀ p pg, pages s !! p = Some pg → in_u 32 (_virAddr pg) → in_u 32 (_phyAddr pg) →
     ∃ pg', pages s' !! p = Some pg' ∧ _phyAddr pg' = _phyAddr pg ∧ in_u 32 (_virAddr pg')) →
  mmu_shape (table s') → vmm_inv fl Q' s'.
Proof.
  intros [_ _ _ Hp Hf _] Hr Hfl Hc Hl Hpg Ht.
  assert (∀ x, linked Q' x → ∃ pg, pages s !! List_Entry_Page x = Some pg ∧ in_u 32 (_phyAddr pg) ∧
    ∃ pg', pages s' !! List_Entry_Page x = Some pg' ∧ _phyAddr pg' = _phyAddr pg ∧ in_u 32 (_virAddr pg')) as Hall.
  { intros x Hx. destruct (Hp x (Hl x Hx)) as (pg & E & H1 & H2). exists pg. split; [done|]. split; [done|]. by apply Hpg. }
  split; try done.
  - intros x Hx. destruct (Hall x Hx) as (pg & _ & H2 & pg' & E' & Hphy & Hv). exists pg'. rewrite Hphy. done.
  - intros x y Hx Hy E. destruct (Hall x Hx) as (px & E1 & _ & px' & E1' & H1 & _). destruct (Hall y Hy) as (py & E2 & _ & py' & E2' & H2 & _).
    rewrite (page_at_eq _ _ _ E1'), (page_at_eq _ _ _ E2') in E. apply Hf; [by apply Hl|by apply Hl|].
    rewrite (page_at_eq _ _ _ E1), (page_at_eq _ _ _ E2). congruence.
Qed.

(** A node moves from the place that it has in one list to the end of another. *)
Lemma getFreePage_run Q s x l : vmm_inv fl Q s → the_list Q fl = x :: l → ∃ h,
  getFreePage fl s = Ok (Some (List_Entry_Page x), set_freePageCounter (u32 (zlen l)) (set_nodes h s)) ∧
  rings h (<[fl := l]> Q) ∧ unlinked (<[fl := l]> Q) x ∧ is_Some (h !! x).
Proof.
  intros Hinv Hl. destruct Hinv as [Hr Hfl Hc _ _ _]. pose proof (the_list_Some Q fl Hfl) as HQ. rewrite Hl in HQ.
  pose proof (proj1 Hr _ _ HQ) as Hring. unfold getFreePage.
  rewrite (bind_Ok _ _ _ _ _ (on_nodes_read _ s _ (isEmpty_spec _ _ _ Hring))). rewrite bool_decide_false by done.
  destruct (node_next _ _ _ (ring_first _ _ _ Hring)) as (n & Hn & Hnx). cbn [head default from_option id] in Hnx.
  rewrite (bind_Ok _ _ _ _ _ (on_nodes_read _ s _ Hn)), Hnx, run_bind_defined.
  destruct (rings_del (nodes s) Q fl [] x l Hr HQ) as (h & Hdel & Hr' & Hs & _ & _ & Hu).
  rewrite (bind_Ok _ _ _ _ _ (vmm_nodes_run _ s _ _ Hdel)). unfold count_pages. rewrite run_bind_modify.
  exists h. split; [|split; [done|split; [done|]]].
  - cbn [_freePageCounter set_nodes]. rewrite Hc, Hl, u32_add. cbn [length]. by replace (Z.of_nat (S (length l)) + -1) with (zlen l) by lia.
  - apply Hs. eapply ring_mapped; [exact Hring|]. right. by left.
Qed.

Lemma getFreePage_empty Q s : vmm_inv fl Q s → the_list Q fl = [] → getFreePage fl s = Ok (None, s).
Proof.
  intros [Hr Hfl _ _ _ _] Hl. pose proof (the_list_Some Q fl Hfl) as HQ. rewrite Hl in HQ. unfold getFreePage.
  by rewrite (bind_Ok _ _ _ _ _ (on_nodes_read _ s _ (isEmpty_spec _ _ _ (proj1 Hr _ _ HQ)))).
Qed.

Lemma ins_before_end (hd x : Z) l : ins_before hd hd x l = l ++ [x].
Proof. unfold ins_before. by rewrite decide_True. Qed.

Lemma mapping_run Q s proc va flags ident : vmm_inv fl Q s → proc ≠ fl → is_Some (Q !! proc) → in_u 32 va →
  ∃ s', mapping4KB fl proc va flags ident s = Ok ((spec_map fl proc va ident (Q, pages s)).1, s') ∧
    (spec_map fl proc va ident (Q, pages s)).2.2 = pages s' ∧ vmm_inv fl (spec_map fl proc va ident (Q, pages s)).2.1 s' ∧
    (∀ x l, the_list Q fl = x :: l → ∃ e, e = Z.lor (_phyAddr (page_at (pages s) x)) flags ∧
       insertPTE (alignDown va PageSize) e (table s) = Ok ((), table s')).
Proof.
  intros Hinv Hne Hproc Hva. unfold mapping4KB, spec_map. destruct (the_list Q fl) as [|x l] eqn:Hl.
  { rewrite (bind_Ok _ _ _ _ _ (getFreePage_empty Q s Hinv Hl)). exists s. done. }
  destruct (getFreePage_run Q s x l Hinv Hl) as (h & Hget & Hr & Hu & Hm). rewrite (bind_Ok _ _ _ _ _ Hget). cbv zeta.
  assert (Q !! fl = Some (x :: l)) as HQ by (rewrite <- Hl; apply the_list_Some, Hinv).
  pose proof (inv_pages _ _ _ Hinv x ltac:(by exists fl, (x :: l); split; [|left])) as (pg & Hpg & Hv & Hp).
  replace (node_of_page (List_Entry_Page x)) with x by (unfold node_of_page, List_Entry_Page; lia).
  set (s1 := set_freePageCounter _ _).
  assert ((<[fl := l]> Q) !! proc = Some (the_list Q proc)) as HQ1 by (rewrite lookup_insert_ne by done; by apply the_list_Some).
  destruct (rings_addTail h _ proc _ proc x Hr HQ1 ltac:(by left) Hu Hm) as (h' & Hadd & Hr' & _). rewrite ins_before_end in Hr'.
  rewrite (bind_Ok _ _ _ _ _ (vmm_nodes_run _ s1 _ _ Hadd)), (page_at_eq _ _ _ Hpg).
  rewrite (bind_Ok _ _ _ _ _ (upd_page_run (List_Entry_Page x) _ (set_nodes h' s1) pg Hpg)).
  rewrite (bind_Ok _ _ _ _ _ (page_of_run (List_Entry_Page x) _ _ (lookup_insert_eq _ _ _))). cbn [_phyAddr set_virAddr].
  destruct (insertPTE_ends (table s) (alignDown va PageSize) (Z.lor (_phyAddr pg) flags) (inv_table _ _ _ Hinv) (alignDown_range va Hva)) as (t & Ht & Hsh).
  rewrite (bind_Ok _ _ _ _ _ (on_table_run _ (set_pages _ (set_nodes h' s1)) _ _ Ht)).
  eexists. split; [reflexivity|]. cbn [fst snd pages set_table set_pages]. split_and!.
  - done.
  - apply (inv_step Q s); [done|done| | | | |done].
    + rewrite lookup_insert_ne by done. apply lookup_insert_is_Some'. by left.
    + rewrite !the_list_insert. by rewrite decide_False, decide_True.
    + intros y [[Hy|Hy]%elem_of_app|Hy]%linked_insert.
      * by apply (linked_list Q proc).
      * apply list_elem_of_singleton in Hy as ->. exists fl, (x :: l). split; [done|by left].
      * apply linked_insert in Hy as [Hy|Hy]; [|done]. exists fl, (x :: l). split; [done|by right].
    + intros p pg' Hpg' Hv' Hp'. cbn [pages set_table set_pages]. destruct (decide (p = List_Entry_Page x)) as [->|Hnp].
      * rewrite lookup_insert_eq. eexists. split; [reflexivity|]. rewrite Hpg in Hpg'. injection Hpg' as <-. cbn [_phyAddr _virAddr].
        split; [done|]. destruct ident; [done|by apply alignDown_range].
      * rewrite lookup_insert_ne by done. by exists pg'.
  - intros y k [= <- <-]. exists (Z.lor (_phyAddr pg) flags). rewrite (page_at_eq _ _ _ Hpg). done.
Qed.

Lemma take_out_split f l x k : take_out f l = Some (x, k) → ∃ l1 l2, l = l1 ++ x :: l2 ∧ k = l1 ++ l2 ∧ f x = true.
Proof.
  revert k. induction l as [|y l IH]; intros k; cbn [take_out]; [done|]. destruct (f y) eqn:E.
  - intros [= -> ->]. by exists [], k.
  - destruct (take_out f l) as [[z k']|]; cbn; [|done]. intros [= -> <-]. destruct (IH k' eq_refl) as (l1 & l2 & -> & -> & Hf).
    by exists (y :: l1), l2.
Qed.

Lemma take_out_app f l1 l2 : (∀ x, x ∈ l1 → f x = false) → take_out f (l1 ++ l2) = ('(y, k) ← take_out f l2; Some (y, l1 ++ k)).
Proof.
  induction l1 as [|x l1 IH]; intros Hf; cbn [app take_out].
  - by destruct (take_out f l2) as [[y k]|].
  - rewrite Hf by by left. rewrite IH by (intros y Hy; apply Hf; by right). by destruct (take_out f l2) as [[y k]|].
Qed.

(** The page [x] of a process is given back. *)
Lemma give_back_run Q s proc l1 x l2 h t : vmm_inv fl Q s → proc ≠ fl → Q !! proc = Some (l1 ++ x :: l2) →
  delNodeFromRingDoubleList (Some x) (nodes s) = Ok ((), h) → rings h (<[proc := l1 ++ l2]> Q) → same_nodes (nodes s) h →
  unlinked (<[proc := l1 ++ l2]> Q) x → mmu_shape t → ∃ h',
  addNodeToRingDoubleListTail (Some fl) (Some x) h = Ok ((), h') ∧ same_nodes h h' ∧
  vmm_inv fl (<[fl := the_list Q fl ++ [x]]> (<[proc := l1 ++ l2]> Q))
    (set_freePageCounter (u32 (_freePageCounter s + 1)) (set_nodes h' (set_table t s))).
Proof.
  intros Hinv Hne HQ Hdel Hr Hs Hu Ht. pose proof (inv_free _ _ _ Hinv) as Hfl.
  assert ((<[proc := l1 ++ l2]> Q) !! fl = Some (the_list Q fl)) as HQ1 by (rewrite lookup_insert_ne by done; by apply the_list_Some).
  assert (is_Some (h !! x)) as Hm.
  { apply Hs. eapply ring_mapped; [by apply (proj1 (inv_rings _ _ _ Hinv) proc)|]. right. apply elem_of_app. right. by left. }
  destruct (rings_addTail h _ fl _ fl x Hr HQ1 ltac:(by left) Hu Hm) as (h' & Hadd & Hr' & Hs'). rewrite ins_before_end in Hr'.
  exists h'. split; [done|]. split; [done|]. assert (linked Q x) as Hx.
  { exists proc, (l1 ++ x :: l2). split; [done|]. apply elem_of_app. right. by left. }
  apply (inv_step Q s); [done|done| | | | |done].
  - apply lookup_insert_is_Some'. by left.
  - cbn [_freePageCounter set_freePageCounter]. rewrite the_list_insert, decide_True, (inv_count _ _ _ Hinv), u32_add, length_app by done. f_equal. cbn. lia.
  - intros y [[Hy|Hy]%elem_of_app|Hy]%linked_insert.
    + by apply (linked_list Q fl).
    + by apply list_elem_of_singleton in Hy as ->.
    + apply linked_insert in Hy as [Hy|Hy]; [|done]. exists proc, (l1 ++ x :: l2). split; [done|]. set_solver.
  - intros p pg Hpg Hv Hp. by exists pg.
Qed.

Lemma unmap_loop_run Q s proc va : vmm_inv fl Q s → proc ≠ fl → in_u 32 va → ∀ l2 l1 fuel, Q !! proc = Some (l1 ++ l2) →
  (length l2 < fuel)%nat → (∀ x, x ∈ l1 → (_virAddr (page_at (pages s) x) =? va) = false) →
  ∃ s', loop fuel (unmap_body fl proc va) (Some (default proc (head l2))) s =
    Ok (match take_out (λ x, _virAddr (page_at (pages s) x) =? va) l2 with Some _ => ENONE | None => EFAULT end, s') ∧
    match take_out (λ x, _virAddr (page_at (pages s) x) =? va) l2 with
    | Some (x, k) => pages s' = pages s ∧ vmm_inv fl (<[fl := the_list Q fl ++ [x]]> (<[proc := l1 ++ k]> Q)) s' ∧
        invalidPTE va (table s) = Ok ((), table s')
    | None => s' = s
    end.
Proof.
  intros Hinv Hne Hva. induction l2 as [|x l2 IH]; intros l1 fuel HQ Hfuel Hno; (destruct fuel as [|fuel]; [cbn in Hfuel; lia|]).
  - exists s. split; [|done]. apply loop_exit. unfold unmap_body. by rewrite bool_decide_true.
  - pose proof (inv_rings _ _ _ Hinv) as Hr. pose proof (proj1 Hr _ _ HQ) as Hring.
    assert (x ≠ proc) as Hxp.
    { intros ->. destruct Hring as [_ Hnd]. apply NoDup_cons in Hnd as [Hnd _]. apply Hnd, elem_of_app. right. by left. }
    assert (linked Q x) as Hx by (exists proc, (l1 ++ x :: l2); split; [done|]; apply elem_of_app; right; by left).
    destruct (inv_pages _ _ _ Hinv x Hx) as (pg & Hpg & _). cbn [head default from_option id take_out]. rewrite (page_at_eq _ _ _ Hpg).
    assert (∀ k, (x' ← defined (Some x); pg ← page_of (List_Entry_Page x'); k x' pg) s = (k x pg : V (option Z + ErrNo)) s) as Hhead.
    { intros k. rewrite run_bind_defined. by rewrite (bind_Ok _ _ _ _ _ (page_of_run _ s pg Hpg)). }
    destruct (_virAddr pg =? va) eqn:Ev.
    + destruct (rings_del _ Q proc l1 x l2 Hr HQ) as (h & Hdel & Hr1 & Hs1 & _ & _ & Hu1).
      destruct (invalidPTE_ends (table s) va (inv_table _ _ _ Hinv) Hva) as (t & Ht & Hsh).
      destruct (give_back_run Q s proc l1 x l2 h t Hinv Hne HQ Hdel Hr1 Hs1 Hu1 Hsh) as (h' & Hadd & _ & Hinv').
      eexists. split.
      * apply loop_exit. unfold unmap_body. rewrite bool_decide_false by congruence. rewrite Hhead, Ev.
        rewrite (bind_Ok _ _ _ _ _ (vmm_nodes_run _ s _ _ Hdel)), (bind_Ok _ _ _ _ _ (on_table_run _ (set_nodes h s) _ _ Ht)).
        rewrite (bind_Ok _ _ _ _ _ (vmm_nodes_run _ (set_table t (set_nodes h s)) _ _ Hadd)). reflexivity.
      * split_and!; [done|exact Hinv'|done].
    + destruct (node_next (nodes s) x (Some (default proc (head l2)))) as (n & Hn & Hnx).
      { apply (ring_rotate _ _ l1 x l2) in Hring. apply ring_first in Hring. by destruct l2. }
      destruct (IH (l1 ++ [x]) fuel) as (s' & Hrun & Hres).
      * by rewrite <- app_assoc.
      * cbn in Hfuel. lia.
      * intros y [Hy|Hy]%elem_of_app; [by apply Hno|]. apply list_elem_of_singleton in Hy as ->. by rewrite (page_at_eq _ _ _ Hpg).
      * exists s'. split.
        -- rewrite (loop_next _ _ _ (Some (default proc (head l2))) s s).
           ++ rewrite Hrun. by destruct (take_out _ l2) as [[y k]|].
           ++ unfold unmap_body. rewrite bool_decide_false by congruence. rewrite Hhead, Ev.
              rewrite (bind_Ok _ _ _ _ _ (on_nodes_read _ s _ Hn)). by rewrite Hnx.
        -- destruct (take_out _ l2) as [[y k]|]; [|done]. cbn. by rewrite <- app_assoc in Hres.
Qed.

Lemma unmapping_run Q s proc va : vmm_inv fl Q s → proc ≠ fl → proc ≠ 0 → is_Some (Q !! proc) → in_u 32 va →
  ∃ s', unmapping4KB fl proc va s = Ok ((spec_unmap fl proc va (Q, pages s)).1, s') ∧
    (spec_unmap fl proc va (Q, pages s)).2.2 = pages s' ∧ vmm_inv fl (spec_unmap fl proc va (Q, pages s)).2.1 s' ∧
    (∀ x k, take_out (λ x, _virAddr (page_at (pages s) x) =? alignDown va PageSize) (the_list Q proc) = Some (x, k) →
       invalidPTE (alignDown va PageSize) (table s) = Ok ((), table s')).
Proof.
  intros Hinv Hne H0 Hproc Hva. pose proof (the_list_Some Q proc Hproc) as HQ. pose proof (proj1 (inv_rings _ _ _ Hinv) _ _ HQ) as Hring.
  destruct (node_next _ _ _ (ring_first _ _ _ Hring)) as (n & Hn & Hnx).
  unfold unmapping4KB, spec_unmap. rewrite (proj2 (Z.eqb_neq _ _) H0). cbn [negb]. rewrite run_bind_assert, run_bind_get.
  rewrite (bind_Ok _ _ _ _ _ (on_nodes_read _ s _ Hn)), Hnx.
  destruct (unmap_loop_run Q s proc (alignDown va PageSize) Hinv Hne (alignDown_range va Hva) (the_list Q proc) [] (S (size (nodes s))) HQ)
    as (s' & Hrun & Hres).
  { pose proof (ring_size _ _ _ Hring). lia. } { intros x Hx. by apply not_elem_of_nil in Hx. }
  exists s'. rewrite Hrun. destruct (take_out _ (the_list Q proc)) as [[x k]|].
  - destruct Hres as (Hp & Hi & Ht). cbn [fst snd]. split_and!; [done|by rewrite Hp|done|]. by intros _ _ _.
  - subst s'. cbn [fst snd]. split_and!; done.
Qed.

Lemma release_loop_run proc : proc ≠ fl → ∀ l Q s fuel, vmm_inv fl Q s → Q !! proc = Some l → (length l < fuel)%nat →
  ∃ s', loop fuel (release_body fl proc) (Some (default proc (head l)), Some (default proc (head (tail l)))) s = Ok ((), s') ∧
    pages s' = pages s ∧ vmm_inv fl (<[fl := the_list Q fl ++ l]> (<[proc := []]> Q)) s'.
Proof.
  intros Hne. induction l as [|x l IH]; intros Q s fuel Hinv HQ Hfuel; (destruct fuel as [|fuel]; [cbn in Hfuel; lia|]).
  - exists s. split; [apply loop_exit; unfold release_body; by rewrite bool_decide_true|]. split; [done|].
    rewrite app_nil_r, (insert_id Q proc) by done. rewrite insert_id; [done|]. apply the_list_Some, Hinv.
  - pose proof (inv_rings _ _ _ Hinv) as Hr. pose proof (proj1 Hr _ _ HQ) as Hring.
    assert (x ≠ proc) as Hxp.
    { intros ->. destruct Hring as [_ Hnd]. apply NoDup_cons in Hnd as [Hnd _]. apply Hnd. by left. }
    destruct (inv_pages _ _ _ Hinv x ltac:(exists proc, (x :: l); split; [done|by left])) as (pg & Hpg & Hv & _).
    cbn [head tail default from_option id].
    destruct (rings_del _ Q proc [] x l Hr HQ) as (h & Hdel & Hr1 & Hs1 & _ & _ & Hu1).
    destruct (invalidPTE_ends (table s) (_virAddr pg) (inv_table _ _ _ Hinv) Hv) as (t & Ht & Hsh).
    destruct (give_back_run Q s proc [] x l h t Hinv Hne HQ Hdel Hr1 Hs1 Hu1 Hsh) as (h' & Hadd & _ & Hinv').
    cbn [app] in Hinv'. set (s1 := set_freePageCounter _ _) in *. set (Q1 := <[fl := _]> _) in *.
    assert (Q1 !! proc = Some l) as HQ1 by (unfold Q1; rewrite lookup_insert_ne by done; apply lookup_insert_eq).
    pose proof (proj1 (inv_rings _ _ _ Hinv') _ _ HQ1) as Hring1.
    destruct (node_next (nodes s1) (default proc (head l)) (Some (default proc (head (tail l))))) as (n & Hn & Hnx).
    { destruct l as [|y l]; [exact (ring_first _ _ _ Hring1)|]. exact (ring_second _ _ _ _ Hring1). }
    destruct (IH Q1 s1 fuel Hinv' HQ1 ltac:(cbn in Hfuel; lia)) as (s' & Hrun & Hpgs & Hfin).
    exists s'. split; [|split; [done|]].
    + rewrite (loop_next _ _ _ (Some (default proc (head l)), Some (default proc (head (tail l)))) s s1); [done|].
      unfold release_body. rewrite bool_decide_false by congruence. rewrite run_bind_defined, (bind_Ok _ _ _ _ _ (page_of_run _ s pg Hpg)).
      rewrite (bind_Ok _ _ _ _ _ (on_table_run _ s _ _ Ht)), (bind_Ok _ _ _ _ _ (vmm_nodes_run _ (set_table t s) _ _ Hdel)).
      rewrite (bind_Ok _ _ _ _ _ (vmm_nodes_run _ (set_nodes h (set_table t s)) _ _ Hadd)). unfold count_pages. rewrite run_bind_modify.
      change (set_freePageCounter _ _) with s1. by rewrite (bind_Ok _ _ _ _ _ (on_nodes_read _ s1 _ Hn)), Hnx.
    + replace (<[fl := the_list Q fl ++ x :: l]> (<[proc := []]> Q)) with (<[fl := the_list Q1 fl ++ l]> (<[proc := []]> Q1)); [done|].
      unfold Q1. rewrite the_list_insert, decide_True, <- app_assoc by done. cbn [app]. apply map_eq. intros i.
      rewrite !lookup_insert. repeat case_decide; congruence.
Qed.

Lemma release_pages_run Q s proc : vmm_inv fl Q s → proc ≠ fl → is_Some (Q !! proc) →
  ∃ s', releaseProcAllPages fl proc s = Ok ((), s') ∧ (spec_release fl proc (Q, pages s)).2 = pages s' ∧
    vmm_inv fl (spec_release fl proc (Q, pages s)).1 s'.
Proof.
  intros Hinv Hne Hproc. pose proof (the_list_Some Q proc Hproc) as HQ. pose proof (proj1 (inv_rings _ _ _ Hinv) _ _ HQ) as Hring.
  destruct (node_next _ _ _ (ring_first _ _ _ Hring)) as (n & Hn & Hnx).
  destruct (node_next (nodes s) (default proc (head (the_list Q proc))) (Some (default proc (head (tail (the_list Q proc)))))) as (n' & Hn' & Hnx').
  { destruct (the_list Q proc) as [|y l] eqn:E; [exact (ring_first _ _ _ Hring)|]. exact (ring_second _ _ _ _ Hring). }
  destruct (release_loop_run proc Hne (the_list Q proc) Q s (S (size (nodes s))) Hinv HQ) as (s' & Hrun & Hp & Hi).
  { pose proof (ring_size _ _ _ Hring). lia. }
  exists s'. split; [|by split]. unfold releaseProcAllPages. rewrite run_bind_get.
  rewrite (bind_Ok _ _ _ _ _ (on_nodes_read _ s _ Hn)), Hnx, (bind_Ok _ _ _ _ _ (on_nodes_read _ s _ Hn')), Hnx'. exact Hrun.
Qed.

(** The calls of a process keep the headers. *)
Lemma spec_call_dom c Q P : is_Some (Q !! fl) → is_Some (Q !! call_proc c) → ∀ hd, is_Some (Q !! hd) → is_Some ((spec_call fl c (Q, P)).2.1 !! hd).
Proof.
  intros Hfl Hp hd Hh. assert (∀ l k, is_Some (<[l := k]> Q !! hd)) as H1 by (intros; apply lookup_insert_is_Some'; by right).
  destruct c as [p va f i|p va|p]; cbn [spec_call spec_map spec_unmap spec_release fst snd].
  - destruct (the_list Q fl) as [|x l]; [done|]. cbn. rewrite lookup_insert_is_Some'. right. apply H1.
  - destruct (take_out _ _) as [[x k]|]; [|done]. cbn. rewrite lookup_insert_is_Some'. right. apply H1.
  - rewrite lookup_insert_is_Some'. right. apply H1.
Qed.

Lemma call_run Q s c : vmm_inv fl Q s → proc_ok fl Q c → ∃ s', run_call fl c s = Ok ((spec_call fl c (Q, pages s)).1, s') ∧
  (spec_call fl c (Q, pages s)).2.2 = pages s' ∧ vmm_inv fl (spec_call fl c (Q, pages s)).2.1 s'.
Proof.
  intros Hinv (Hne & H0 & Hp & Hva). destruct c as [p va f i|p va|p]; cbn [call_proc call_addr run_call spec_call] in *.
  - destruct (mapping_run Q s p va f i Hinv Hne Hp Hva) as (s' & H1 & H2 & H3 & _). by exists s'.
  - destruct (unmapping_run Q s p va Hinv Hne H0 Hp Hva) as (s' & H1 & H2 & H3 & _). by exists s'.
  - destruct (release_pages_run Q s p Hinv Hne Hp) as (s' & H1 & H2 & H3). exists s'. split; [by prog_step H1|]. by split.
Qed.

Fixpoint run_calls (cs : list vmm_call) : V (list ErrNo) :=
  match cs with
  | [] => mret []
  | c :: cs => r ← run_call fl c; rs ← run_calls cs; mret (r :: rs)
  end.

(** C9. Each call of the memory manager does what it says to the lists of pages: a mapping takes the first
    free page and puts it behind the pages of the process, an unmapping moves the first page with the address
    to the end of the free list, the release of a process moves all of its pages there in order; a mapping
    fails only when no page is free, an unmapping only when the process has no page with the address. From a
    state with the invariant every sequence of calls runs without a fault and ends in such a state: the rings are
    well formed, no page is in two lists, no two pages have the same frame, and the count is that of the
    free pages. *)
Theorem vmm_refines cs Q s : vmm_inv fl Q s → Forall (proc_ok fl Q) cs →
  ∃ s', run_calls cs s = Ok ((spec_calls fl cs (Q, pages s)).1, s') ∧
    (spec_calls fl cs (Q, pages s)).2.2 = pages s' ∧ vmm_inv fl (spec_calls fl cs (Q, pages s)).2.1 s'.
Proof.
  revert Q s. induction cs as [|c cs IH]; intros Q s Hinv Hcs.
  { exists s. split; [done|]. by split. }
  apply Forall_cons in Hcs as [Hc Hcs]. destruct (call_run Q s c Hinv Hc) as (s1 & Hrun & Hp1 & Hi1).
  pose proof (spec_call_dom c Q (pages s) (inv_free _ _ _ Hinv)) as Hdom. cbn [spec_calls run_calls].
  destruct (spec_call fl c (Q, pages s)) as [r [Q1 P1]]. cbn [fst snd] in *. subst P1.
  destruct (IH Q1 s1 Hi1) as (s2 & Hrun2 & Hp2 & Hi2).
  { eapply Forall_impl; [exact Hcs|]. intros c' (H1 & H2 & H3 & H4). split_and!; try done. apply Hdom; [apply Hc|done]. }
  destruct (spec_calls fl cs (Q1, pages s1)) as [rs [Q2 P2]]. cbn [fst snd] in *.
  exists s2. split; [|by split]. by rewrite (bind_Ok _ _ _ _ _ Hrun), (bind_Ok _ _ _ _ _ Hrun2).
Qed.

(** C24. What becomes of the translation. A page that is mapped is translated by its frame with the flags. When it is
    unmapped again it is at the end of the free list, ready for another process; its translation is gone if the
    identifier of its segment is that of segment 0 and the table has no entry that differs in the hash bit only, but
    in every segment with another identifier the processor still translates the address to the frame that was freed. *)
Theorem unmapped_page_stays_mapped Q s proc va flags x l :
  vmm_inv fl Q s → mmu_wf (table s) → the_list Q fl = x :: l → proc ≠ fl → proc ≠ 0 → is_Some (Q !! proc) → in_u 32 va →
  hw_translate (table s) (alignDown va PageSize) = None →
  take_out (λ y, _virAddr (page_at (pages s) y) =? alignDown va PageSize) (the_list Q proc) = None →
  let va' := alignDown va PageSize in let e := Z.lor (_phyAddr (page_at (pages s) x)) flags in
  ∃ s1 s2, mapping4KB fl proc va flags false s = Ok (ENONE, s1) ∧ hw_translate (table s1) va' = Some e ∧
    unmapping4KB fl proc va s1 = Ok (ENONE, s2) ∧ vmm_inv fl (<[proc := the_list Q proc]> (<[fl := l ++ [x]]> Q)) s2 ∧
    (vsid_of (table s) va' ≠ vsid_of (table s) 0 → hw_translate (table s2) va' = Some e) ∧
    (vsid_of (table s) va' = vsid_of (table s) 0 → unconfused (table s1) va' → hw_translate (table s2) va' = None).
Proof.
  intros Hinv Hwf Hl Hne H0 Hproc Hva Hnone Hout va' e. pose proof (alignDown_range va Hva : in_u 32 va') as Hva'.
  destruct (mapping_run Q s proc va flags false Hinv Hne Hproc Hva) as (s1 & Hmap & Hp1 & Hi1 & Ht1).
  destruct (Ht1 x l Hl) as (e' & -> & Hins). fold va' e in Hins. unfold spec_map in Hmap, Hp1, Hi1. rewrite Hl in Hmap, Hp1, Hi1. cbn [fst snd] in *.
  destruct (insert_translates (table s) va' e Hwf Hva' Hnone) as (t1 & v & Hins' & Hwf1 & Htr & _). rewrite Hins in Hins'. injection Hins' as <-.
  assert (hw_translate (table s1) va' = Some e) as Hmapped by (rewrite (Htr va' Hva'); by rewrite decide_True by by split).
  assert (vsid_of (table s1) = vsid_of (table s)) as Hvs.
  { destruct (insert_run (table s) (wf_shape _ Hwf) va' e Hva') as (v' & h & p & q & Hrun & _). rewrite Hins in Hrun. apply (f_equal (λ r, match r with Ok (_, t) => segment t | Err _ => [] end)) in Hrun. cbn in Hrun. unfold vsid_of. by rewrite Hrun. }
  set (Q1 := <[proc := _]> _) in Hi1. set (P1 := <[List_Entry_Page x := _]> _) in Hp1.
  pose proof (linked_list Q fl x (inv_free _ _ _ Hinv) ltac:(rewrite Hl; by left)) as Hlx.
  assert (x ∉ the_list Q proc) as Hxp.
  { intros Hin. pose proof (proj2 (inv_rings _ _ _ Hinv) proc _ fl _ (the_list_Some Q proc Hproc) (the_list_Some Q fl (inv_free _ _ _ Hinv)) Hne x) as Hd.
    apply Hd; [by right|]. rewrite Hl. right. by left. }
  assert (take_out (λ y, _virAddr (page_at (pages s1) y) =? va') (the_list Q1 proc) = Some (x, the_list Q proc)) as Hto.
  { unfold Q1. rewrite the_list_insert, decide_True by done. rewrite take_out_app.
    - cbn [take_out]. rewrite <- Hp1. unfold P1. rewrite (page_at_eq _ _ _ (lookup_insert_eq _ _ _)). cbn [_virAddr]. fold va'. rewrite Z.eqb_refl. cbn.
      by rewrite app_nil_r.
    - intros y Hy. rewrite <- Hp1. unfold P1, page_at. rewrite lookup_insert_ne by (unfold List_Entry_Page; intros E; assert (x = y) as -> by lia; done).
      change (default _ _) with (page_at (pages s) y). revert Hy Hout. fold va'. generalize (the_list Q proc). clear. intros k Hy.
      induction k as [|z k IH]; [by apply not_elem_of_nil in Hy|]. cbn [take_out]. destruct (_virAddr (page_at (pages s) z) =? va') eqn:E; [done|].
      destruct (take_out _ k) as [[? ?]|] eqn:Et; [done|]. intros _. apply elem_of_cons in Hy as [->|Hy]; [done|]. by apply IH. }
  assert (is_Some (Q1 !! proc)) as Hproc1 by (apply lookup_insert_is_Some'; by left).
  destruct (unmapping_run Q1 s1 proc va Hi1 Hne H0 Hproc1 Hva) as (s2 & Hun & _ & Hi2 & Ht2).
  specialize (Ht2 x (the_list Q proc) Hto). fold va' in Ht2. unfold spec_unmap in Hun, Hi2. fold va' in Hun, Hi2. rewrite Hto in Hun, Hi2. cbn [fst snd] in Hun, Hi2.
  destruct (invalid_translates (table s1) va' Hwf1 Hva') as (t2 & Hinvl & _ & Hstay & Hgone). rewrite Ht2 in Hinvl. injection Hinvl as <-.
  exists s1, s2. split_and!; [done|done|done| | |].
  - replace (<[proc := the_list Q proc]> (<[fl := l ++ [x]]> Q)) with (<[fl := the_list Q1 fl ++ [x]]> (<[proc := the_list Q proc]> Q1)); [done|].
    unfold Q1. rewrite !the_list_insert, decide_False, decide_True by done. apply map_eq. intros i. rewrite !lookup_insert. repeat case_decide; congruence.
  - intros Hd. by rewrite Hstay by (done || by rewrite Hvs).
  - intros He Hu. apply Hgone; [by rewrite Hvs|done].
Qed.
End calls.

(** ** The start of the system *)

Section boot.
Context (VmmSpaces : list (Z * Z)) (fl : Z).

Definition space_ok (b : Z * Z) : Prop := 0 ≤ b.1 ∧ 0 ≤ b.2 ∧ b.1 + b.2 < 2 ^ 32 ∧ b.1 + PageSize - 1 < 2 ^ 32 ∧
  (space_bounds b).1 ≤ (space_bounds b).2.
(** The frames of a range, and the nodes of the first [n] pages of a block. *)
Definition n_frames (b : Z * Z) : Z := ((space_bounds b).2 - (space_bounds b).1) / PageSize.
Definition frames_of (b : Z * Z) : list Z := (λ i, (space_bounds b).1 + PageSize * i) <$> seqZ 0 (n_frames b).
Definition nodes_at (block : Z) (n : nat) : list Z := (λ i, node_of_page (block + sizeof_Page * i)) <$> seqZ 0 (Z.of_nat n).

Lemma space_aligned b : space_ok b → (space_bounds b).2 = (space_bounds b).1 + PageSize * n_frames b ∧ 0 ≤ n_frames b ∧
  0 ≤ (space_bounds b).1 ∧ (space_bounds b).2 < 2 ^ 32.
Proof.
  intros (H1 & H2 & H3 & H4 & H5). unfold n_frames. unfold space_bounds in *. cbn [fst snd] in *.
  change PageSize with (2 ^ 12) in *. rewrite wrapu_id in * by (unfold in_u; lia).
  rewrite alignDown_eq, alignUp_eq in * by (unfold in_u; lia).
  pose proof (Z.div_mod (b.1 + 2 ^ 12 - 1) (2 ^ 12) ltac:(lia)) as D1. pose proof (Z.div_mod (b.1 + b.2) (2 ^ 12) ltac:(lia)) as D2.
  pose proof (Z.mod_pos_bound (b.1 + 2 ^ 12 - 1) (2 ^ 12) ltac:(lia)). pose proof (Z.mod_pos_bound (b.1 + b.2) (2 ^ 12) ltac:(lia)).
  set (u := (b.1 + 2 ^ 12 - 1) / 2 ^ 12) in *. set (v := (b.1 + b.2) / 2 ^ 12) in *.
  assert (b.1 + b.2 - (b.1 + b.2) mod 2 ^ 12 - (b.1 + 2 ^ 12 - 1 - (b.1 + 2 ^ 12 - 1) mod 2 ^ 12) = (v - u) * 2 ^ 12) as E by lia.
  rewrite E, Z.div_mul by lia. lia.
Qed.

(** The pages of the frames [F], from [block] on. *)
Record boot_state (block : Z) (F : list Z) (t : mmu) (s : vmm) : Prop := mk_boot {
  bs_rings : rings (nodes s) {[fl := nodes_at block (length F)]};
  bs_pages i f : F !! i = Some f → pages s !! (block + sizeof_Page * Z.of_nat i) = Some (mk_page 0 f);
  bs_table : table s = t
}.

Lemma nodes_at_S block n : nodes_at block (S n) = nodes_at block n ++ [node_of_page (block + sizeof_Page * Z.of_nat n)].
Proof.
  unfold nodes_at. replace (Z.of_nat (S n)) with (Z.of_nat n + 1) by lia. rewrite seqZ_app by lia. rewrite fmap_app.
  rewrite (seqZ_cons (0 + Z.of_nat n)), (seqZ_nil (Z.succ _)) by lia. by rewrite Z.add_0_l.
Qed.

Lemma elem_of_nodes_at x block n : x ∈ nodes_at block n ↔ ∃ i, 0 ≤ i < Z.of_nat n ∧ x = node_of_page (block + sizeof_Page * i).
Proof. unfold nodes_at. rewrite list_elem_of_fmap. setoid_rewrite elem_of_seqZ. naive_solver. Qed.

(** The header is not in the memory of the pages. *)
Definition apart (block : Z) (n : nat) : Prop := ∀ i, 0 ≤ i < Z.of_nat n → fl ≠ node_of_page (block + sizeof_Page * i).

Lemma make_page_run block F t s f : boot_state block F t s → apart block (S (length F)) → ∃ s',
  make_page fl (block + sizeof_Page * zlen F) f s = Ok ((), s') ∧ boot_state block (F ++ [f]) t s' ∧ _freePageCounter s' = _freePageCounter s.
Proof.
  intros [Hr Hp Ht] Hap. set (a := block + sizeof_Page * zlen F). set (x := node_of_page a).
  assert (fl ≠ x) as Hfl by (apply Hap; lia).
  assert (x ∉ fl :: nodes_at block (length F)) as Hx.
  { intros [Hx|Hx]%elem_of_cons; [by apply Hfl|]. apply elem_of_nodes_at in Hx as (i & Hi & Hx). unfold x, a, node_of_page, sizeof_Page in Hx. lia. }
  set (Q := {[fl := nodes_at block (length F)]} : gmap Z (list Z)) in *. assert (Q !! fl = Some (nodes_at block (length F))) as HQ by apply lookup_singleton_eq.
  assert (∀ hd l, Q !! hd = Some l → hd = fl ∧ l = nodes_at block (length F)) as HQ'.
  { intros hd l Hl. apply lookup_singleton_Some in Hl as [-> <-]. done. }
  assert (rings (<[x := Node None None]> (nodes s)) Q) as Hr1.
  { split; [|apply Hr]. intros hd l Hl. apply (ring_frame (nodes s)); [by apply Hr|]. destruct (HQ' hd l Hl) as [-> ->].
    intros y Hy. unfold next_of, prev_of. rewrite lookup_insert_ne; [done|]. intros ->. done. }
  assert (unlinked Q x) as Hu by (intros hd l Hl; destruct (HQ' hd l Hl) as [-> ->]; done).
  unfold make_page. rewrite !run_bind_modify. set (s1 := set_nodes _ _).
  destruct (rings_addTail _ Q fl _ fl x Hr1 HQ ltac:(by left) Hu ltac:(by rewrite lookup_insert_eq)) as (h' & Hadd & Hr2 & _).
  eexists. split; [apply (vmm_nodes_run _ s1 _ _ Hadd)|]. split; [|done]. rewrite ins_before_end in Hr2. split; [| |done].
  - cbn [nodes set_nodes]. rewrite length_app. cbn [length]. rewrite Nat.add_1_r, nodes_at_S. unfold Q in Hr2.
    by rewrite insert_singleton_eq in Hr2.
  - intros i f' Hf. cbn [pages set_nodes s1 set_pages]. destruct (decide (i = length F)) as [->|Hne].
    + rewrite lookup_app_r, Nat.sub_diag in Hf by lia. injection Hf as <-. apply lookup_insert_eq.
    + pose proof (lookup_lt_Some _ _ _ Hf) as Hlt. rewrite length_app in Hlt. cbn in Hlt. rewrite lookup_app_l in Hf by lia.
      rewrite lookup_insert_ne by (unfold a, sizeof_Page; lia). by apply Hp.
Qed.

(** The loop over the frames of a range. *)
Lemma second_loop_run block t n : ∀ F s start tmp, boot_state block F t s → apart block (length F + n) →
  0 ≤ start → start + PageSize * Z.of_nat n < 2 ^ 32 → 0 ≤ block → block + sizeof_Page * (zlen F + Z.of_nat n) < 2 ^ 32 →
  0 ≤ tmp → tmp + Z.of_nat n < 2 ^ 32 → ∃ s',
  loop (S n) (second_body fl (start + PageSize * Z.of_nat n)) (start, block + sizeof_Page * zlen F, tmp) s =
    Ok ((block + sizeof_Page * (zlen F + Z.of_nat n), tmp + Z.of_nat n), s') ∧
  boot_state block (F ++ ((λ i, start + PageSize * i) <$> seqZ 0 (Z.of_nat n))) t s' ∧ _freePageCounter s' = _freePageCounter s.
Proof.
  unfold PageSize, sizeof_Page. change (Z.shiftl 1 12) with 4096.
  induction n as [|n IH]; intros F s start tmp Hb Hap Hst Hend Hbl Hble Htmp Htmpe.
  - exists s. rewrite seqZ_nil, app_nil_r by lia. split; [|done]. apply loop_exit. unfold second_body.
    rewrite (proj2 (Z.ltb_ge _ _)) by lia. unfold mret, prog_ret. do 3 f_equal; f_equal; lia.
  - destruct (make_page_run block F t s start Hb) as (s1 & Hmk & Hb1 & Hc1).
    { intros i Hi. apply Hap. lia. }
    destruct (IH (F ++ [start]) s1 (start + 4096) (tmp + 1) Hb1) as (s2 & Hrun & Hb2 & Hc2).
    { rewrite length_app. cbn [length]. intros i Hi. apply Hap. lia. }
    all: rewrite ?length_app; cbn [length]; try lia.
    exists s2. split_and!; [| |congruence].
    + rewrite (loop_next _ _ _ (start + 4096, block + 16 * zlen (F ++ [start]), tmp + 1) s s1).
      * replace (start + 4096 * Z.of_nat (S n)) with (start + 4096 + 4096 * Z.of_nat n) by lia. rewrite Hrun. rewrite length_app. cbn [length].
        do 2 f_equal; f_equal; lia.
      * unfold second_body. rewrite (proj2 (Z.ltb_lt _ _)) by lia. rewrite (bind_Ok _ _ _ _ _ Hmk).
        unfold PageSize, sizeof_Page. change (Z.shiftl 1 12) with 4096. rewrite !wrapu_id by (unfold in_u; lia).
        rewrite length_app. cbn [length]. unfold mret, prog_ret. do 5 f_equal. lia.
    + rewrite <- app_assoc in Hb2. replace (Z.of_nat (S n)) with (1 + Z.of_nat n) by lia. rewrite seqZ_app by lia. cbn [app fmap list_fmap].
      rewrite (seqZ_cons 0) by lia. rewrite (seqZ_nil (Z.succ 0)) by lia. cbn [app fmap list_fmap].
      replace (start + 4096 * 0) with start by lia. cbn [app] in Hb2.
      replace ((λ i, start + 4096 * i) <$> seqZ (0 + 1) (Z.of_nat n)) with ((λ i, start + 4096 + 4096 * i) <$> seqZ 0 (Z.of_nat n)); [done|].
      replace (seqZ (0 + 1) (Z.of_nat n)) with (Z.add 1 <$> seqZ 0 (Z.of_nat n)) by apply (fmap_add_seqZ 1 0).
      rewrite <- list_fmap_compose. apply list_fmap_ext. intros i x _. cbn. lia.
Qed.

Lemma length_frames_of b : space_ok b → zlen (frames_of b) = n_frames b.
Proof. intros Hb. unfold frames_of. rewrite length_fmap, length_seqZ. destruct (space_aligned b Hb) as (_ & ? & _). lia. Qed.

Lemma second_spaces_run block t spaces : Forall space_ok spaces → 0 ≤ block → ∀ F s,
  let N := zlen F + zlen (spaces ≫= frames_of) in
  boot_state block F t s → apart block (Z.to_nat N) → block + sizeof_Page * N < 2 ^ 32 → N < 2 ^ 32 →
  ∃ s', second_spaces fl spaces (block + sizeof_Page * N) (block + sizeof_Page * zlen F) (zlen F) s = Ok (N, s') ∧
    boot_state block (F ++ (spaces ≫= frames_of)) t s' ∧ _freePageCounter s' = _freePageCounter s.
Proof.
  intros Hok Hbl. induction Hok as [|b spaces Hb Hok IH]; intros F s N Hbs Hap Hle HN.
  - exists s. cbn [second_spaces]. unfold N. cbn. rewrite app_nil_r, Z.add_0_r. done.
  - pose proof (length_frames_of b Hb) as Hlf. destruct (space_aligned b Hb) as (He & Hn0 & Hs0 & He32).
    assert (((b :: spaces) ≫= frames_of) = frames_of b ++ (spaces ≫= frames_of)) as Hbind by done.
    assert (N = zlen F + n_frames b + zlen (spaces ≫= frames_of)) as HNe by (unfold N; rewrite Hbind, length_app; lia).
    cbn [second_spaces]. destruct (Z.ltb_spec (block + sizeof_Page * zlen F) (block + sizeof_Page * N)) as [Hlt|Hge]; cbn [negb].
    + unfold space_bounds at 1. cbn iota beta. change (alignUp b.1 PageSize) with (space_bounds b).1.
      change (alignDown (u32 (b.1 + b.2)) PageSize) with (space_bounds b).2. fold (n_frames b).
      destruct (second_loop_run block t (Z.to_nat (n_frames b)) F s (space_bounds b).1 (zlen F) Hbs) as (s1 & Hrun & Hb1 & Hc1);
        [intros i Hi; apply Hap; lia|lia|rewrite Z2Nat.id, <- He by lia; lia|lia|unfold sizeof_Page in *; lia|lia|lia|].
      rewrite Z2Nat.id in Hrun, Hb1 by lia. rewrite <- He in Hrun. rewrite (bind_Ok _ _ _ _ _ Hrun). cbn iota beta.
      fold (frames_of b) in Hb1. destruct (IH (F ++ frames_of b) s1 Hb1) as (s2 & Hrun2 & Hb2 & Hc2);
        rewrite ?length_app, ?Nat2Z.inj_add, ?Hlf, <- ?HNe; try done.
      exists s2. rewrite length_app, Nat2Z.inj_add, Hlf, <- HNe in Hrun2. rewrite Hrun2, Hbind, app_assoc. split_and!; [done|done|congruence].
    + unfold sizeof_Page in Hge. assert (zlen (frames_of b) = 0 ∧ zlen (spaces ≫= frames_of) = 0) as [Z1 Z2] by lia.
      exists s. rewrite Hbind. destruct (frames_of b); [|done]. destruct (spaces ≫= frames_of); [|done]. cbn [app]. rewrite app_nil_r.
      split_and!; [|done|done]. unfold mret, prog_ret. cbn in HNe. do 2 f_equal. lia.
Qed.

Lemma count_run spaces : Forall space_ok spaces → ∀ n, 0 ≤ n → n + PageSize * zlen (spaces ≫= frames_of) < 2 ^ 32 →
  foldl (λ n b, let '(start, end_) := space_bounds b in u32 (n + u32 (end_ - start))) n spaces = n + PageSize * zlen (spaces ≫= frames_of).
Proof.
  induction 1 as [|b spaces Hb Hok IH]; intros n Hn Hlt; [cbn; lia|].
  pose proof (length_frames_of b Hb) as Hlf. destruct (space_aligned b Hb) as (He & Hn0 & Hs0 & He32).
  assert (((b :: spaces) ≫= frames_of) = frames_of b ++ (spaces ≫= frames_of)) as Hbind by done.
  rewrite Hbind, length_app in Hlt |- *. cbn [foldl]. destruct (space_bounds b) as [start end_] eqn:E. cbn [fst snd] in *.
  assert (end_ - start = PageSize * n_frames b) as -> by lia. unfold PageSize in *. change (Z.shiftl 1 12) with 4096 in *.
  rewrite (wrapu_id 32 (4096 * n_frames b)), (wrapu_id 32 (n + _)) by (unfold in_u; lia). rewrite IH by lia. lia.
Qed.

Lemma frames_range spaces f : Forall space_ok spaces → f ∈ spaces ≫= frames_of → in_u 32 f.
Proof.
  intros Hok (b & Hin & Hb)%list_elem_of_bind. pose proof (proj1 (Forall_forall _ _) Hok b Hb) as Hbok.
  destruct (space_aligned b Hbok) as (H1 & H2 & H3 & H4). unfold frames_of in Hin. apply list_elem_of_fmap in Hin as (j & -> & Hj%elem_of_seqZ).
  unfold PageSize in *. change (Z.shiftl 1 12) with 4096 in *. unfold in_u. lia.
Qed.

(** The state of the start is well formed when no frame is there twice. *)
Lemma boot_inv block F t s : let L := nodes_at block (length F) in
  boot_state block F t s → mmu_shape t → NoDup F → (∀ f, f ∈ F → in_u 32 f) → zlen F < 2 ^ 32 → _freePageCounter s = zlen F →
  vmm_inv fl {[fl := L]} s ∧ (λ x, page_at (pages s) x) <$> L = mk_page 0 <$> F.
Proof.
  intros L [Hr2 Hp2 Ht2] Ht Hnd Hfr HF Hc2. unfold sizeof_Page in *.
  assert (∀ i f, F !! i = Some f → L !! i = Some (node_of_page (block + 16 * Z.of_nat i)) ∧
    pages s !! List_Entry_Page (node_of_page (block + 16 * Z.of_nat i)) = Some (mk_page 0 f)) as Hat.
  { intros i f Hf. pose proof (lookup_lt_Some _ _ _ Hf). split.
    - unfold L, nodes_at, sizeof_Page. rewrite list_lookup_fmap, lookup_seqZ_lt by lia. done.
    - unfold List_Entry_Page, node_of_page. rewrite Z.add_simpl_r. by apply Hp2. }
  assert (∀ x, linked {[fl := L]} x → ∃ i f, F !! i = Some f ∧ x = node_of_page (block + 16 * Z.of_nat i)) as Hlk.
  { intros x (hd & l & [<- <-]%lookup_singleton_Some & Hx). apply elem_of_nodes_at in Hx as (i & Hi & ->).
    destruct (lookup_lt_is_Some_2 F (Z.to_nat i) ltac:(lia)) as [f Hf]. exists (Z.to_nat i), f. split; [done|]. unfold sizeof_Page. do 2 f_equal. lia. }
  split.
  - split; try done.
    + rewrite lookup_singleton_eq. done.
    + change (_freePageCounter s = u32 (zlen (the_list {[fl := L]} fl))). unfold the_list. rewrite lookup_singleton_eq. cbn [default from_option id].
      rewrite Hc2. unfold L, nodes_at. rewrite length_fmap, length_seqZ, Nat2Z.id, wrapu_id by (unfold in_u; lia). done.
    + intros x (i & f & Hf & ->)%Hlk. destruct (Hat i f Hf) as [_ E]. exists (mk_page 0 f). split; [done|]. cbn. split; [split; lia|].
      by apply Hfr, (list_elem_of_lookup_2 _ i).
    + intros x y (i & f & Hf & ->)%Hlk (j & g & Hg & ->)%Hlk E. destruct (Hat i f Hf) as [_ E1], (Hat j g Hg) as [_ E2].
      rewrite (page_at_eq _ _ _ E1), (page_at_eq _ _ _ E2) in E. cbn in E. subst g. by rewrite (NoDup_lookup F i j f Hnd Hf Hg).
    + by rewrite Ht2.
  - apply list_eq. intros i. rewrite !list_lookup_fmap. destruct (F !! i) as [f|] eqn:Hf.
    + destruct (Hat i f Hf) as [-> E]. cbn. by rewrite (page_at_eq _ _ _ E).
    + rewrite (lookup_ge_None_2 L); [done|]. unfold L, nodes_at. rewrite length_fmap, length_seqZ. apply lookup_ge_None_1 in Hf. lia.
Qed.

(** C22. The start of the memory manager. Whatever the ranges of the memory are, as long as each of them has its page
    bounds in order and they have no frame in common, [firstInit] and [secondInit] end and leave a well-formed state: the free
    list has a page for each page-aligned frame of the ranges, in their order, in the memory that the heap gave, and
    the count is their number. *)
Theorem vmm_starts s block : let F := VmmSpaces ≫= frames_of in let L := nodes_at block (length F) in
  is_Some (nodes s !! fl) → mmu_shape (table s) → Forall space_ok VmmSpaces → NoDup F → PageSize * zlen F < 2 ^ 32 →
  0 < block → block + sizeof_Page * zlen F < 2 ^ 32 → apart block (length F) →
  ∃ s', (firstInit VmmSpaces fl;; secondInit VmmSpaces fl block) s = Ok (ENONE, s') ∧
    vmm_inv fl {[fl := L]} s' ∧ (λ x, page_at (pages s') x) <$> L = mk_page 0 <$> F ∧ _freePageCounter s' = zlen F.
Proof.
  intros F L Hfl Ht Hok Hnd HF Hbl Hble Hap. destruct (init_spec (nodes s) fl Hfl) as (h & Hinit & Hring & _).
  unfold firstInit. rewrite !run_bind_bind, (bind_Ok _ _ _ _ _ (vmm_nodes_run _ s _ _ Hinit)), !run_bind_bind, !run_bind_modify, !run_bind_bind, !run_bind_modify.
  rewrite (count_run VmmSpaces Hok 0) by (fold F; lia). cbn [_freePageCounter set_freePageCounter set_nodes]. fold F. rewrite Z.add_0_l.
  assert (Z.shiftr (PageSize * zlen F) 12 = zlen F) as ->.
  { rewrite Z.shiftr_div_pow2 by lia. rewrite Z.mul_comm. by apply Z.div_mul. }
  set (s1 := set_freePageCounter (zlen F) _).
  assert (boot_state block [] (table s) s1) as Hb0.
  { split; [|done|done]. split.
    - intros hd l [<- <-]%lookup_singleton_Some. exact Hring.
    - intros hd1 l1 hd2 l2 [<- _]%lookup_singleton_Some [<- _]%lookup_singleton_Some. done. }
  unfold secondInit. rewrite run_bind_get. change (_freePageCounter s1) with (zlen F).
  unfold PageSize, sizeof_Page in *. change (Z.shiftl 1 12) with 4096 in *. rewrite (wrapu_id 32 (zlen F * 16)), (wrapu_id 32 (block + _)) by (unfold in_u; lia).
  rewrite (proj2 (Z.eqb_neq block 0)) by lia.
  pose proof (second_spaces_run block (table s) VmmSpaces Hok ltac:(lia) [] s1) as Hss. cbn [length app] in Hss.
  change (VmmSpaces ≫= frames_of) with F in Hss. unfold sizeof_Page in Hss. rewrite Nat2Z.inj_0, !Z.add_0_l, Nat2Z.id, Z.mul_0_r, Z.add_0_r in Hss.
  destruct (Hss Hb0 Hap Hble ltac:(lia)) as (s2 & Hrun & Hb2 & Hc2). rewrite Z.mul_comm in Hrun. rewrite (bind_Ok _ _ _ _ _ Hrun).
  destruct (boot_inv block F (table s) s2 Hb2 Ht Hnd (λ f, frames_range VmmSpaces f Hok) ltac:(lia) Hc2) as [Hinv Hp].
  by exists s2.
Qed.
End boot.

(** ** The theorems at work *)

(** Two free pages, and a process without pages. *)
Definition demo_vmm : vmm :=
  mk_vmm {[0x100 := Node (Some 0x1008) (Some 0x1018); 0x1008 := Node (Some 0x1018) (Some 0x100); 0x1018 := Node (Some 0x100) (Some 0x1008);
           0x200 := Node (Some 0x200) (Some 0x200)]}
    {[0x1000 := mk_page 0 0x400000; 0x1010 := mk_page 0 0x401000]} demo_mmu 2.
Definition demo_lists : alists := {[0x100 := [0x1008; 0x1018]; 0x200 := []]}.
#[local] Opaque demo_ptes.

Lemma demo_lists_lookup hd l : demo_lists !! hd = Some l → hd = 0x100 ∧ l = [0x1008; 0x1018] ∨ hd = 0x200 ∧ l = [].
Proof. unfold demo_lists. rewrite lookup_insert_Some, lookup_singleton_Some. naive_solver. Qed.

Lemma demo_linked x : linked demo_lists x → x = 0x1008 ∨ x = 0x1018.
Proof. intros (hd & l & [[_ ->]|[_ ->]]%demo_lists_lookup & Hx); set_solver. Qed.

Lemma demo_inv : vmm_inv 0x100 demo_lists demo_vmm.
Proof.
  split.
  - split.
    + intros hd l [[-> ->]|[-> ->]]%demo_lists_lookup; (split; [|by apply (bool_decide_eq_true_1 _); vm_compute]); cbn; done.
    + intros hd1 l1 hd2 l2 [[-> ->]|[-> ->]]%demo_lists_lookup [[-> ->]|[-> ->]]%demo_lists_lookup Hne y; set_solver.
  - by eexists.
  - reflexivity.
  - intros x [->| ->]%demo_linked; eexists; (split; [reflexivity|]); (split; split; cbn; lia).
  - intros x y [->| ->]%demo_linked [->| ->]%demo_linked H; try done; vm_compute in H; discriminate H.
  - apply wf_shape, demo_mmu_wf.
Qed.

(** The process takes both pages, is refused a third one, gives one back and dies. *)
Example vmm_refines_witness : ∃ s, run_calls 0x100 [Map 0x200 0x30001234 2 false; Map 0x200 0x30002000 2 false; Map 0x200 0x30003000 2 false;
    Unmap 0x200 0x30001000; Unmap 0x200 0x30001000; Release 0x200] demo_vmm = Ok ([ENONE; ENONE; ENOMEM; ENONE; EFAULT; ENONE], s) ∧
  rings (nodes s) {[0x100 := [0x1008; 0x1018]; 0x200 := []]} ∧ _freePageCounter s = 2.
Proof.
  destruct (vmm_refines 0x100 [Map 0x200 0x30001234 2 false; Map 0x200 0x30002000 2 false; Map 0x200 0x30003000 2 false;
    Unmap 0x200 0x30001000; Unmap 0x200 0x30001000; Release 0x200] demo_lists demo_vmm demo_inv) as (s & Hrun & _ & Hinv).
  - repeat constructor; cbn; try lia; by eexists.
  - exists s. split; [exact Hrun|]. split; [exact (inv_rings _ _ _ Hinv)|exact (inv_count _ _ _ Hinv)].
Defined.

(** A page of segment 3 still translates to its frame when it is free again. *)
Example unmapped_page_stays_mapped_witness : ∃ s1 s2, mapping4KB 0x100 0x200 0x30001234 2 false demo_vmm = Ok (ENONE, s1) ∧
  unmapping4KB 0x100 0x200 0x30001234 s1 = Ok (ENONE, s2) ∧ rings (nodes s2) {[0x100 := [0x1018; 0x1008]; 0x200 := []]} ∧
  hw_translate (table s2) 0x30001000 = Some 0x400002.
Proof.
  destruct (unmapped_page_stays_mapped 0x100 demo_lists demo_vmm 0x200 0x30001234 2 0x1008 [0x1018] demo_inv (proj1 demo_mmu_wf))
    as (s1 & s2 & Hmap & _ & Hun & Hinv & Hstay & _); [reflexivity|lia|lia|by eexists|split; lia|apply demo_mmu_wf|reflexivity|].
  - exists s1, s2. split_and!; [exact Hmap|exact Hun|exact (inv_rings _ _ _ Hinv)|]. apply Hstay. intros H. discriminate H.
Defined.

(** Two ranges: the first one has no whole frame but the one at [0x1000], the second one has two. *)
Example vmm_starts_witness : ∃ s, (firstInit [(0x800, 0x1900); (0x400010, 0x3000)] 0x100;; secondInit [(0x800, 0x1900); (0x400010, 0x3000)] 0x100 0x2000)
    demo_vmm = Ok (ENONE, s) ∧
  (λ x, page_at (pages s) x) <$> nodes_at 0x2000 3 = [mk_page 0 0x1000; mk_page 0 0x401000; mk_page 0 0x402000].
Proof.
  destruct (vmm_starts [(0x800, 0x1900); (0x400010, 0x3000)] 0x100 demo_vmm 0x2000) as (s & Hrun & _ & Hp & _).
  - by eexists.
  - apply wf_shape, demo_mmu_wf.
  - apply Forall_cons. split; [by vm_compute|]. apply Forall_singleton. by vm_compute.
  - by apply (bool_decide_eq_true_1 _); vm_compute.
  - by vm_compute.
  - lia.
  - by vm_compute.
  - intros i Hi. unfold node_of_page, sizeof_Page. lia.
  - exists s. split; [exact Hrun|exact Hp].
Defined.

(** [Vmm::init], on its way that succeeds, returns a variable that was not set. *)
Example vmm_init_returns_nothing :
  let s := mk_vmm {[0x100 := Node None None]} ∅ (mk_mmu ∅ [] [] 0 0 0) 0 in
  match vmm_init [(0x400000, 0x2000)] 0x100 0x2000 0x3000 s with Err f => f = FUndef | _ => False end ∧
  match vmm_init [(0x400000, 0x2000)] 0x100 0x2000 0x2018 s with Ok (r, _) => r = (ENOMEM, 0x2000) | _ => False end.
Proof. vm_compute. done. Qed.
