(* ===== verification/YaffsEcc.v ===== *)
(** * YAFFS: bit counts and the NAND error-correcting code

    [fs/yaffs2/_private/direct/yaffs_hweight.c] and [yaffs_ecc.c]: the code that
    YAFFS keeps for every 256 bytes of a page ([yaffs_ecc_calc]) and for its packed
    tags ([yaffs_ecc_calc_other]), and the two routines that repair a page with
    the code it was stored with. The theorems: every single flipped bit of the
    data is found and repaired, a flipped bit of the stored code leaves the data
    alone, and two flipped bits of the data are reported and never miscorrected. *)

From S2P Require Import Prelude.

(** ** yaffs_hweight.c *)

Definition yaffs_count_bits_table : list Z :=
  [0; 1; 1; 2; 1; 2; 2; 3; 1; 2; 2; 3; 2; 3; 3; 4;
   1; 2; 2; 3; 2; 3; 3; 4; 2; 3; 3; 4; 3; 4; 4; 5;
   1; 2; 2; 3; 2; 3; 3; 4; 2; 3; 3; 4; 3; 4; 4; 5;
   2; 3; 3; 4; 3; 4; 4; 5; 3; 4; 4; 5; 4; 5; 5; 6;
   1; 2; 2; 3; 2; 3; 3; 4; 2; 3; 3; 4; 3; 4; 4; 5;
   2; 3; 3; 4; 3; 4; 4; 5; 3; 4; 4; 5; 4; 5; 5; 6;
   2; 3; 3; 4; 3; 4; 4; 5; 3; 4; 4; 5; 4; 5; 5; 6;
   3; 4; 4; 5; 4; 5; 5; 6; 4; 5; 5; 6; 5; 6; 6; 7;
   1; 2; 2; 3; 2; 3; 3; 4; 2; 3; 3; 4; 3; 4; 4; 5;
   2; 3; 3; 4; 3; 4; 4; 5; 3; 4; 4; 5; 4; 5; 5; 6;
   2; 3; 3; 4; 3; 4; 4; 5; 3; 4; 4; 5; 4; 5; 5; 6;
   3; 4; 4; 5; 4; 5; 5; 6; 4; 5; 5; 6; 5; 6; 6; 7;
   2; 3; 3; 4; 3; 4; 4; 5; 3; 4; 4; 5; 4; 5; 5; 6;
   3; 4; 4; 5; 4; 5; 5; 6; 4; 5; 5; 6; 5; 6; 6; 7;
   3; 4; 4; 5; 4; 5; 5; 6; 4; 5; 5; 6; 5; 6; 6; 7;
   4; 5; 5; 6; 5; 6; 6; 7; 5; 6; 6; 7; 6; 7; 7; 8].

Definition yaffs_hweight8 (x : Z) : Z := nth (Z.to_nat x) yaffs_count_bits_table 0.
#[global] Arguments yaffs_hweight8 : simpl never.

Definition yaffs_hweight32 (x : Z) : Z :=
  yaffs_hweight8 (Z.land x 0xff) +
  yaffs_hweight8 (Z.land (Z.shiftr x 8) 0xff) +
  yaffs_hweight8 (Z.land (Z.shiftr x 16) 0xff) +
  yaffs_hweight8 (Z.land (Z.shiftr x 24) 0xff).

(** ** yaffs_ecc.c *)

Definition column_parity_table : list Z :=
  [0x00; 0x55; 0x59; 0x0c; 0x65; 0x30; 0x3c; 0x69;
   0x69; 0x3c; 0x30; 0x65; 0x0c; 0x59; 0x55; 0x00;
   0x95; 0xc0; 0xcc; 0x99; 0xf0; 0xa5; 0xa9; 0xfc;
   0xfc; 0xa9; 0xa5; 0xf0; 0x99; 0xcc; 0xc0; 0x95;
   0x99; 0xcc; 0xc0; 0x95; 0xfc; 0xa9; 0xa5; 0xf0;
   0xf0; 0xa5; 0xa9; 0xfc; 0x95; 0xc0; 0xcc; 0x99;
   0x0c; 0x59; 0x55; 0x00; 0x69; 0x3c; 0x30; 0x65;
   0x65; 0x30; 0x3c; 0x69; 0x00; 0x55; 0x59; 0x0c;
   0xa5; 0xf0; 0xfc; 0xa9; 0xc0; 0x95; 0x99; 0xcc;
   0xcc; 0x99; 0x95; 0xc0; 0xa9; 0xfc; 0xf0; 0xa5;
   0x30; 0x65; 0x69; 0x3c; 0x55; 0x00; 0x0c; 0x59;
   0x59; 0x0c; 0x00; 0x55; 0x3c; 0x69; 0x65; 0x30;
   0x3c; 0x69; 0x65; 0x30; 0x59; 0x0c; 0x00; 0x55;
   0x55; 0x00; 0x0c; 0x59; 0x30; 0x65; 0x69; 0x3c;
   0xa9; 0xfc; 0xf0; 0xa5; 0xcc; 0x99; 0x95; 0xc0;
   0xc0; 0x95; 0x99; 0xcc; 0xa5; 0xf0; 0xfc; 0xa9;
   0xa9; 0xfc; 0xf0; 0xa5; 0xcc; 0x99; 0x95; 0xc0;
   0xc0; 0x95; 0x99; 0xcc; 0xa5; 0xf0; 0xfc; 0xa9;
   0x3c; 0x69; 0x65; 0x30; 0x59; 0x0c; 0x00; 0x55;
   0x55; 0x00; 0x0c; 0x59; 0x30; 0x65; 0x69; 0x3c;
   0x30; 0x65; 0x69; 0x3c; 0x55; 0x00; 0x0c; 0x59;
   0x59; 0x0c; 0x00; 0x55; 0x3c; 0x69; 0x65; 0x30;
   0xa5; 0xf0; 0xfc; 0xa9; 0xc0; 0x95; 0x99; 0xcc;
   0xcc; 0x99; 0x95; 0xc0; 0xa9; 0xfc; 0xf0; 0xa5;
   0x0c; 0x59; 0x55; 0x00; 0x69; 0x3c; 0x30; 0x65;
   0x65; 0x30; 0x3c; 0x69; 0x00; 0x55; 0x59; 0x0c;
   0x99; 0xcc; 0xc0; 0x95; 0xfc; 0xa9; 0xa5; 0xf0;
   0xf0; 0xa5; 0xa9; 0xfc; 0x95; 0xc0; 0xcc; 0x99;
   0x95; 0xc0; 0xcc; 0x99; 0xf0; 0xa5; 0xa9; 0xfc;
   0xfc; 0xa9; 0xa5; 0xf0; 0x99; 0xcc; 0xc0; 0x95;
   0x00; 0x55; 0x59; 0x0c; 0x65; 0x30; 0x3c; 0x69;
   0x69; 0x3c; 0x30; 0x65; 0x0c; 0x59; 0x55; 0x00].

(** The lookup [column_parity_table[*data]]. *)
Definition column_parity (b : Z) : Z := nth (Z.to_nat b) column_parity_table 0.
#[global] Arguments column_parity : simpl never.

(** The three parities that a loop over the data accumulates. *)
Record parity := Parity {
  col_parity_of : Z;
  line_parity_of : Z;
  line_parity_prime_of : Z
}.

(** The loops [for (i = 0; i < n; i++)] of [yaffs_ecc_calc] and
    [yaffs_ecc_calc_other]: the line parities are unsigned characters ([w] = 8) in
    the first and unsigned integers ([w] = 32) in the second. *)
Definition parity_step (w i b : Z) (p : parity) : parity :=
  let c := column_parity b in
  let col := Z.lxor (col_parity_of p) c in
  if Z.land c 0x01 =? 0 then Parity col (line_parity_of p) (line_parity_prime_of p)
  else Parity col
         (wrapu w (Z.lxor (line_parity_of p) i))
         (wrapu w (Z.lxor (line_parity_prime_of p) (notu 32 i))).

(** [None]: the loop reads past the data. *)
Fixpoint parity_loop (w : Z) (n : nat) (i : Z) (data : list Z) (p : parity)
  : option parity :=
  match n with
  | O => Some p
  | S n' =>
      match data with
      | [] => None
      | b :: data' => parity_loop w n' (i + 1) data' (parity_step w i b p)
      end
  end.

(** [if (x & m) t |= v;] *)
Definition or_if (x m v t : Z) : Z := if Z.land x m =? 0 then t else Z.lor t v.

(** A stored code: [ecc[0]], [ecc[1]], [ecc[2]]. *)
Record ecc3 := Ecc3 { ecc_0 : Z; ecc_1 : Z; ecc_2 : Z }.

(** The interleaving of four bits of each line parity, from the mask [m] down. *)
Definition ecc_interleave (m lp lpp : Z) : Z :=
  let t := or_if lp m 0x80 0 in
  let t := or_if lpp m 0x40 t in
  let t := or_if lp (Z.shiftr m 1) 0x20 t in
  let t := or_if lpp (Z.shiftr m 1) 0x10 t in
  let t := or_if lp (Z.shiftr m 2) 0x08 t in
  let t := or_if lpp (Z.shiftr m 2) 0x04 t in
  let t := or_if lp (Z.shiftr m 3) 0x02 t in
  or_if lpp (Z.shiftr m 3) 0x01 t.

(** The three bytes of the code that the parities make. *)
Definition ecc_pack (p : parity) : ecc3 :=
  Ecc3
    (notu 8 (ecc_interleave 0x08 (line_parity_of p) (line_parity_prime_of p)))
    (notu 8 (ecc_interleave 0x80 (line_parity_of p) (line_parity_prime_of p)))
    (Z.lor (notu 8 (col_parity_of p)) 0x03).

Definition yaffs_ecc_calc (data : list Z) : option ecc3 :=
  p ← parity_loop 8 256 0 data (Parity 0 0 0);
  Some (ecc_pack p).

(** [data[i] ^= v]; [None] when the index is outside of the data. *)
Definition xor_at (data : list Z) (i v : Z) : option (list Z) :=
  match znth data i with
  | Some b => zset data i (Z.lxor b v)
  | None => None
  end.

(** The test of a syndrome [d0], [d1], [d2] for a single flipped bit of the data,
    and the place of that bit. *)
Definition ecc_single_bit (d0 d1 d2 : Z) : bool :=
  (Z.land (Z.lxor d0 (Z.shiftr d0 1)) 0x55 =? 0x55) &&
  (Z.land (Z.lxor d1 (Z.shiftr d1 1)) 0x55 =? 0x55) &&
  (Z.land (Z.lxor d2 (Z.shiftr d2 1)) 0x54 =? 0x54).

Definition ecc_byte (d0 d1 : Z) : Z :=
  let byte := or_if d1 0x80 0x80 0 in
  let byte := or_if d1 0x20 0x40 byte in
  let byte := or_if d1 0x08 0x20 byte in
  let byte := or_if d1 0x02 0x10 byte in
  let byte := or_if d0 0x80 0x08 byte in
  let byte := or_if d0 0x20 0x04 byte in
  let byte := or_if d0 0x08 0x02 byte in
  or_if d0 0x02 0x01 byte.

Definition ecc_bit (d2 : Z) : Z :=
  let bit := or_if d2 0x80 0x04 0 in
  let bit := or_if d2 0x20 0x02 bit in
  or_if d2 0x08 0x01 bit.

(** The result of a repair: the return value, the data, the stored code. *)
Definition yaffs_ecc_correct (data : list Z) (read_ecc test_ecc : ecc3)
  : option (Z * list Z * ecc3) :=
  let d0 := Z.lxor (ecc_0 read_ecc) (ecc_0 test_ecc) in
  let d1 := Z.lxor (ecc_1 read_ecc) (ecc_1 test_ecc) in
  let d2 := Z.lxor (ecc_2 read_ecc) (ecc_2 test_ecc) in
  if Z.lor (Z.lor d0 d1) d2 =? 0 then Some (0, data, read_ecc)
  else if ecc_single_bit d0 d1 d2 then
    data' ← xor_at data (ecc_byte d0 d1) (u8 (Z.shiftl 1 (ecc_bit d2)));
    Some (1, data', read_ecc)
  else if yaffs_hweight8 d0 + yaffs_hweight8 d1 + yaffs_hweight8 d2 =? 1 then
    Some (1, data, test_ecc)
  else Some (-1, data, read_ecc).

Record yaffs_ecc_other := mk_ecc_other {
  col_parity : Z;
  line_parity : Z;
  line_parity_prime : Z
}.

Definition ecc_other_pack (p : parity) : yaffs_ecc_other :=
  mk_ecc_other (Z.land (Z.shiftr (col_parity_of p) 2) 0x3f)
    (line_parity_of p) (line_parity_prime_of p).

Definition yaffs_ecc_calc_other (data : list Z) (n_bytes : nat)
  : option yaffs_ecc_other :=
  p ← parity_loop 32 n_bytes 0 data (Parity 0 0 0);
  Some (ecc_other_pack p).

Definition yaffs_ecc_correct_other (data : list Z) (n_bytes : nat)
    (read_ecc test_ecc : yaffs_ecc_other)
  : option (Z * list Z * yaffs_ecc_other) :=
  let delta_col := Z.lxor (col_parity read_ecc) (col_parity test_ecc) in
  let delta_line := Z.lxor (line_parity read_ecc) (line_parity test_ecc) in
  let delta_line_prime :=
    Z.lxor (line_parity_prime read_ecc) (line_parity_prime test_ecc) in
  if Z.lor (Z.lor delta_col delta_line) delta_line_prime =? 0
  then Some (0, data, read_ecc)
  else if (delta_line =? notu 32 delta_line_prime) &&
          (Z.land (Z.lxor delta_col (Z.shiftr delta_col 1)) 0x15 =? 0x15)
  then
    let bit := or_if delta_col 0x20 0x04 0 in
    let bit := or_if delta_col 0x08 0x02 bit in
    let bit := or_if delta_col 0x02 0x01 bit in
    if Z.of_nat n_bytes <=? delta_line then Some (-1, data, read_ecc)
    else
      data' ← xor_at data delta_line (u8 (Z.shiftl 1 bit));
      Some (1, data', read_ecc)
  else if yaffs_hweight32 delta_line + yaffs_hweight32 delta_line_prime +
          yaffs_hweight8 delta_col =? 1
  then Some (1, data, test_ecc)
  else Some (-1, data, read_ecc).

(** ** The parities are linear

    Flipping the bit [k] of the byte [j] xors a fixed value into each of the
    three parities, whatever the data. *)

Definition flip (data : list Z) (j : nat) (k : Z) : list Z :=
  alter (λ b, Z.lxor b (2 ^ k)) j data.

Definition parity_xor (p : parity) (c l l' : Z) : parity :=
  Parity (Z.lxor (col_parity_of p) c) (Z.lxor (line_parity_of p) l)
         (Z.lxor (line_parity_prime_of p) l').

Definition parity_wf (w : Z) (p : parity) : Prop :=
  in_u 8 (col_parity_of p) ∧ in_u w (line_parity_of p) ∧
  in_u w (line_parity_prime_of p).

Definition all_bytes2 (P : Z → Z → bool) : bool := all_bytes (λ x, all_bytes (P x)).

Lemma all_bytes2_spec P :
  all_bytes2 P = true → ∀ x y, in_u 8 x → in_u 8 y → P x y = true.
Proof.
  intros H x y Hx Hy. apply (all_bytes_spec (P x)); [|done].
  by apply (all_bytes_spec (λ x, all_bytes (P x))).
Qed.

Lemma column_parity_u8 b : in_u 8 b → in_u 8 (column_parity b).
Proof.
  intros H.
  pose proof (all_bytes_spec (λ b, (0 <=? column_parity b) && (column_parity b <? 256))
    ltac:(vm_compute; reflexivity) b H) as Hb. cbv beta in Hb.
  unfold in_u. lia.
Qed.

(** A bit of a byte, to case on. *)
Lemma bit_cases k : 0 ≤ k < 8 →
  k = 0 ∨ k = 1 ∨ k = 2 ∨ k = 3 ∨ k = 4 ∨ k = 5 ∨ k = 6 ∨ k = 7.
Proof. lia. Qed.

Lemma column_parity_flip b k :
  in_u 8 b → 0 ≤ k < 8 →
  column_parity (Z.lxor b (2 ^ k)) = Z.lxor (column_parity b) (column_parity (2 ^ k)).
Proof.
  intros Hb Hk. apply Z.eqb_eq.
  apply (all_bytes_spec (λ b, forallb (λ k, column_parity (Z.lxor b (2 ^ k)) =?
    Z.lxor (column_parity b) (column_parity (2 ^ k))) [0;1;2;3;4;5;6;7])) in Hb;
    [|vm_compute; reflexivity].
  rewrite forallb_forall in Hb. apply Hb.
  destruct (bit_cases k Hk) as [|[|[|[|[|[|[|]]]]]]]; subst; cbn; tauto.
Qed.

(** Every column code of a single bit is odd: the flip toggles the line parities. *)
Lemma column_parity_odd k :
  0 ≤ k < 8 → in_u 8 (2 ^ k) ∧ in_u 8 (column_parity (2 ^ k)) ∧
  Z.land (column_parity (2 ^ k)) 1 = 1.
Proof.
  intros Hk. destruct (bit_cases k Hk) as [|[|[|[|[|[|[|]]]]]]]; subst;
    repeat split; (discriminate || reflexivity).
Qed.

Lemma land_1_cases x : Z.land x 1 = 0 ∨ Z.land x 1 = 1.
Proof.
  pose proof (Z.land_ones x 1 ltac:(lia)) as H. change (Z.ones 1) with 1 in H.
  change (2 ^ 1) with 2 in H. rewrite H. pose proof (Z.mod_pos_bound x 2). lia.
Qed.

Lemma land_1_lxor x y : Z.land y 1 = 1 → Z.land (Z.lxor x y) 1 = 1 - Z.land x 1.
Proof.
  assert (∀ z, Z.land z 1 = z mod 2) as Hl by (intros z; apply (Z.land_ones z 1); lia).
  rewrite !Hl, !Zmod_odd. intros Hy.
  rewrite <- !Z.bit0_odd in *. rewrite Z.lxor_spec.
  destruct (Z.testbit y 0); [|done]. by destruct (Z.testbit x 0).
Qed.

Section parity.
Variable w : Z.
Hypothesis Hw : 0 ≤ w ≤ 32.
#[local] Set Default Proof Using "Type*".

Lemma parity_step_wf i b p :
  in_u 8 b → parity_wf w p → parity_wf w (parity_step w i b p).
Proof.
  intros Hb (Hc & Hl & Hp). unfold parity_step. pose proof (column_parity_u8 b Hb).
  destruct (_ =? 0); (split; [by apply in_u_lxor|]); split; cbn;
    first [done | apply wrapu_range; lia].
Qed.

Lemma notu_32_wrap x y :
  in_u w x → wrapu w (Z.lxor x (notu 32 y)) = Z.lxor x (notu w y).
Proof.
  intros Hx. unfold notu. bitwise. by rewrite (in_u_high w x) by (done || lia).
Qed.

Lemma notu_range x : in_u w (notu w x).
Proof. apply wrapu_range. lia. Qed.

(** A step with a parity that differs, and a step with a flipped bit. *)
Lemma parity_step_xor i b p c l l' :
  0 ≤ i → in_u w l → in_u w l' →
  parity_step w i b (parity_xor p c l l')
  = parity_xor (parity_step w i b p) c l l'.
Proof.
  intros Hi Hl Hl'. unfold parity_step, parity_xor. destruct (_ =? 0); cbn.
  - f_equal. rewrite !Z.lxor_assoc. f_equal. apply Z.lxor_comm.
  - assert (∀ x y z, in_u w z →
      wrapu w (Z.lxor (Z.lxor x z) y) = Z.lxor (wrapu w (Z.lxor x y)) z) as Hx.
    { intros x y z Hz. bitwise.
      - destruct (Z.testbit x i0), (Z.testbit y i0), (Z.testbit z i0); done.
      - by rewrite (in_u_high w z) by (done || lia). }
    f_equal; [|by apply Hx..].
    rewrite !Z.lxor_assoc. f_equal. apply Z.lxor_comm.
Qed.

Lemma parity_step_flip i b k p :
  in_u w i → in_u 8 b → 0 ≤ k < 8 → parity_wf w p →
  parity_step w i (Z.lxor b (2 ^ k)) p
  = parity_xor (parity_step w i b p) (column_parity (2 ^ k)) i (notu w i).
Proof.
  intros Hi Hb Hk (Hc & Hl & Hp). unfold parity_step, parity_xor.
  rewrite column_parity_flip by done.
  destruct (column_parity_odd k Hk) as (_ & _ & Hodd).
  rewrite land_1_lxor by done.
  assert (wrapu w (Z.lxor (line_parity_of p) i) = Z.lxor (line_parity_of p) i) as Hwl
    by (apply wrapu_id, in_u_lxor; (done || lia)).
  rewrite notu_32_wrap, Hwl by done.
  destruct (land_1_cases (column_parity b)) as [-> | ->]; cbn.
  - by rewrite !Z.lxor_assoc.
  - rewrite !Z.lxor_assoc, !Z.lxor_nilpotent, !Z.lxor_0_r. done.
Qed.

Lemma parity_loop_xor n : ∀ i data p q c l l',
  0 ≤ i → in_u w l → in_u w l' →
  parity_loop w n i data p = Some q →
  parity_loop w n i data (parity_xor p c l l') = Some (parity_xor q c l l').
Proof.
  induction n as [|n IH]; intros i data p q c l l' Hi Hl Hl' H; cbn in *.
  - by simplify_eq.
  - destruct data as [|b data]; [done|].
    rewrite parity_step_xor by done. apply IH; (done || lia).
Qed.

Lemma parity_loop_wf n : ∀ i data p q,
  Forall (in_u 8) data → parity_wf w p →
  parity_loop w n i data p = Some q → parity_wf w q.
Proof.
  induction n as [|n IH]; intros i data p q Hd Hp H; cbn in *; [by simplify_eq|].
  destruct Hd as [|b data Hb Hd]; [done|].
  eapply IH; [exact Hd| |exact H]. by apply parity_step_wf.
Qed.

Lemma parity_loop_flip n : ∀ i j k data p q,
  0 ≤ i → i + Z.of_nat n ≤ 2 ^ w → (j < n)%nat → 0 ≤ k < 8 →
  Forall (in_u 8) data → parity_wf w p →
  parity_loop w n i data p = Some q →
  parity_loop w n i (flip data j k) p
  = Some (parity_xor q (column_parity (2 ^ k)) (i + Z.of_nat j)
            (notu w (i + Z.of_nat j))).
Proof.
  induction n as [|n IH]; intros i j k data p q Hi Hin Hj Hk Hd Hp H; [lia|].
  destruct Hd as [|b data Hb Hd]; [done|]. cbn [parity_loop] in *.
  destruct j as [|j]; unfold flip; cbn [alter list_alter].
  - rewrite Z.add_0_r, parity_step_flip by (done || unfold in_u; lia).
    apply parity_loop_xor; [lia|unfold in_u; lia|apply notu_range|done].
  - change (list_alter _ j data) with (flip data j k).
    rewrite (IH (i + 1) j k data _ q); try (done || lia).
    + by replace (i + 1 + Z.of_nat j) with (i + Z.of_nat (S j)) by lia.
    + by apply parity_step_wf.
Qed.

Lemma parity_loop_total n : ∀ i data p,
  (n ≤ length data)%nat → ∃ q, parity_loop w n i data p = Some q.
Proof.
  induction n as [|n IH]; intros i [|b data] p Hl; cbn in *; try lia; eauto.
  apply IH. lia.
Qed.
End parity.

Lemma flip_u8 data j k : 0 ≤ k < 8 → Forall (in_u 8) data → Forall (in_u 8) (flip data j k).
Proof.
  intros Hk Hd. apply Forall_alter; [done|]. intros b _ Hb.
  apply in_u_lxor; [lia|done|]. by apply column_parity_odd.
Qed.

Lemma flip_length data j k : length (flip data j k) = length data.
Proof. apply length_alter. Qed.

(** Flipping a bit again restores the data: what [data[byte] ^= 1 << bit] does. *)
Lemma xor_at_flip data j k :
  (j < length data)%nat → 0 ≤ k < 8 →
  xor_at (flip data j k) (Z.of_nat j) (u8 (Z.shiftl 1 k)) = Some data.
Proof.
  intros Hj Hk. unfold xor_at. destruct (lookup_lt_is_Some_2 data j Hj) as [b Hb].
  rewrite znth_lookup, Nat2Z.id by lia. unfold flip.
  rewrite list_lookup_alter_eq, Hb. cbn.
  rewrite zset_Some by (rewrite length_alter; lia).
  rewrite Z.shiftl_1_l, wrapu_id by (destruct (column_parity_odd k Hk); done).
  rewrite Z.lxor_assoc, Z.lxor_nilpotent, Z.lxor_0_r, Nat2Z.id. f_equal.
  apply list_eq. intros i. destruct (decide (i = j)) as [->|Hne].
  - rewrite list_lookup_insert_eq; [done|]. by rewrite length_alter.
  - rewrite list_lookup_insert_ne, list_lookup_alter_ne; done.
Qed.

(** ** The syndrome of a page *)

Lemma testbit_or_if x a c t i :
  0 ≤ a → 0 ≤ c →
  Z.testbit (or_if x (2 ^ a) (2 ^ c) t) i
  = Z.testbit t i || ((c =? i) && Z.testbit x a).
Proof.
  intros Ha Hc. unfold or_if.
  assert (Z.land x (2 ^ a) = if Z.testbit x a then 2 ^ a else 0) as ->.
  { apply Z.bits_inj'. intros n Hn. rewrite Z.land_spec, Z.pow2_bits_eqb by done.
    destruct (Z.eqb_spec a n) as [<-|Hne].
    - rewrite andb_true_r. destruct (Z.testbit x a); [|by rewrite Z.bits_0].
      by rewrite Z.pow2_bits_true.
    - rewrite andb_false_r. destruct (Z.testbit x a); [|by rewrite Z.bits_0].
      rewrite Z.pow2_bits_eqb by done. symmetry. by apply Z.eqb_neq. }
  destruct (Z.testbit x a); cbn.
  - destruct (Z.eqb_spec (2 ^ a) 0); [lia|].
    by rewrite Z.lor_spec, Z.pow2_bits_eqb, andb_true_r by done.
  - by rewrite andb_false_r, orb_false_r.
Qed.

(** The bits of an interleaving: bit [2 i + 1] is the bit [s + i] of [lp], bit
    [2 i] that of [lpp], where [s] is 0 for the mask 0x08 and 4 for 0x80. *)
Lemma testbit_ecc_interleave s lp lpp i :
  s = 0 ∨ s = 4 →
  Z.testbit (ecc_interleave (2 ^ (s + 3)) lp lpp) i
  = ((7 =? i) && Z.testbit lp (s + 3)) || ((6 =? i) && Z.testbit lpp (s + 3)) ||
    ((5 =? i) && Z.testbit lp (s + 2)) || ((4 =? i) && Z.testbit lpp (s + 2)) ||
    ((3 =? i) && Z.testbit lp (s + 1)) || ((2 =? i) && Z.testbit lpp (s + 1)) ||
    ((1 =? i) && Z.testbit lp s) || ((0 =? i) && Z.testbit lpp s).
Proof.
  intros Hs. unfold ecc_interleave.
  assert (∀ k, 0 ≤ k ≤ 3 → Z.shiftr (2 ^ (s + 3)) k = 2 ^ (s + (3 - k))) as Hsh.
  { intros k Hk. rewrite Z.shiftr_div_pow2, <- Z.pow_sub_r by lia. f_equal. lia. }
  rewrite !Hsh by lia. cbv zeta.
  pose proof (λ x a c t (Ha : 0 ≤ a) (Hc : 0 ≤ c), testbit_or_if x a c t i Ha Hc) as H.
  rewrite (H lpp _ 0), (H lp _ 1), (H lpp _ 2), (H lp _ 3), (H lpp _ 4), (H lp _ 5),
    (H lpp _ 6), (H lp _ 7) by lia. rewrite Z.bits_0. cbn [orb].
  replace (s + (3 - 1)) with (s + 2) by lia. replace (s + (3 - 2)) with (s + 1) by lia.
  replace (s + (3 - 3)) with s by lia. done.
Qed.

Ltac case_bit i :=
  destruct (Z.eqb_spec 7 i), (Z.eqb_spec 6 i), (Z.eqb_spec 5 i), (Z.eqb_spec 4 i),
    (Z.eqb_spec 3 i), (Z.eqb_spec 2 i), (Z.eqb_spec 1 i), (Z.eqb_spec 0 i); try lia.

Lemma ecc_interleave_xor s a b a' b' :
  s = 0 ∨ s = 4 →
  ecc_interleave (2 ^ (s + 3)) (Z.lxor a a') (Z.lxor b b')
  = Z.lxor (ecc_interleave (2 ^ (s + 3)) a b) (ecc_interleave (2 ^ (s + 3)) a' b').
Proof.
  intros Hs. apply Z.bits_inj'. intros i Hi.
  rewrite Z.lxor_spec, !testbit_ecc_interleave, !Z.lxor_spec by done.
  case_bit i; cbn; rewrite ?orb_false_r; done.
Qed.

Lemma ecc_interleave_u8 s a b : s = 0 ∨ s = 4 → in_u 8 (ecc_interleave (2 ^ (s + 3)) a b).
Proof.
  intros Hs. apply in_u_bits; [lia| |].
  - unfold ecc_interleave, or_if. repeat destruct (_ =? 0); discriminate.
  - intros i Hi. rewrite testbit_ecc_interleave by done. by case_bit i.
Qed.

Lemma notu_8_xor x y :
  in_u 8 x → in_u 8 y → Z.lxor (notu 8 x) (notu 8 (Z.lxor x y)) = y.
Proof.
  intros Hx Hy. unfold notu. bitwise.
  - by destruct (Z.testbit x i), (Z.testbit y i).
  - by rewrite (in_u_high 8 y) by (done || lia).
Qed.

Lemma ecc_2_xor x y :
  in_u 8 x → in_u 8 y →
  Z.lxor (Z.lor (notu 8 x) 3) (Z.lor (notu 8 (Z.lxor x y)) 3) = Z.land y 0xfc.
Proof.
  intros Hx Hy. unfold notu. change 3 with (Z.ones 2).
  replace (Z.land y 0xfc) with (Z.land y (Z.shiftl (Z.ones 6) 2)) by done.
  bitwise. by destruct (Z.testbit x i), (Z.testbit y i).
Qed.

(** The syndrome that a difference of the parities makes. *)
Lemma ecc_pack_xor p c l l' :
  parity_wf 8 p → in_u 8 c → in_u 8 l → in_u 8 l' →
  let e := ecc_pack p in let e' := ecc_pack (parity_xor p c l l') in
  Z.lxor (ecc_0 e) (ecc_0 e') = ecc_interleave 0x08 l l' ∧
  Z.lxor (ecc_1 e) (ecc_1 e') = ecc_interleave 0x80 l l' ∧
  Z.lxor (ecc_2 e) (ecc_2 e') = Z.land c 0xfc.
Proof.
  intros (Hc & Hl & Hp) Hc' Hl' Hp'. cbn.
  change 0x08 with (2 ^ (0 + 3)). change 0x80 with (2 ^ (4 + 3)).
  rewrite !ecc_interleave_xor by tauto.
  rewrite !notu_8_xor, ecc_2_xor by (done || apply ecc_interleave_u8; tauto). done.
Qed.

Lemma ecc_calc_flip data j k p :
  Forall (in_u 8) data → (j < 256)%nat → 0 ≤ k < 8 →
  parity_loop 8 256 0 data (Parity 0 0 0) = Some p →
  parity_loop 8 256 0 (flip data j k) (Parity 0 0 0)
  = Some (parity_xor p (column_parity (2 ^ k)) (Z.of_nat j) (notu 8 (Z.of_nat j))).
Proof.
  intros Hd Hj Hk Hp. apply (parity_loop_flip 8 ltac:(lia) 256 0);
    done || lia || by repeat split.
Qed.

Lemma parity_of_page data :
  Forall (in_u 8) data → (256 ≤ length data)%nat →
  ∃ p, parity_loop 8 256 0 data (Parity 0 0 0) = Some p ∧ parity_wf 8 p ∧
       yaffs_ecc_calc data = Some (ecc_pack p).
Proof.
  intros Hd Hl. destruct (parity_loop_total 8 ltac:(lia) 256 0 data (Parity 0 0 0) Hl) as (p & Hp).
  exists p. split; [done|]. split.
  - eapply (parity_loop_wf 8); [lia|exact Hd| |exact Hp]. by repeat split.
  - unfold yaffs_ecc_calc. by rewrite Hp.
Qed.

(** What [yaffs_ecc_correct] makes of the syndromes of one and of two flips. *)
Lemma ecc_single_flip_syndrome j k :
  (j < 256)%nat → 0 ≤ k < 8 →
  let d0 := ecc_interleave 0x08 (Z.of_nat j) (notu 8 (Z.of_nat j)) in
  let d1 := ecc_interleave 0x80 (Z.of_nat j) (notu 8 (Z.of_nat j)) in
  let d2 := Z.land (column_parity (2 ^ k)) 0xfc in
  (Z.lor (Z.lor d0 d1) d2 =? 0) = false ∧ ecc_single_bit d0 d1 d2 = true ∧
  ecc_byte d0 d1 = Z.of_nat j ∧ ecc_bit d2 = k.
Proof.
  intros Hj Hk.
  assert (in_u 8 (Z.of_nat j)) as Hu by (unfold in_u; lia).
  revert Hu. generalize (Z.of_nat j) as i. intros i Hi. clear j Hj.
  cbv zeta. set (P := λ i,
    let d0 := ecc_interleave 0x08 i (notu 8 i) in
    let d1 := ecc_interleave 0x80 i (notu 8 i) in
    forallb (λ k, let d2 := Z.land (column_parity (2 ^ k)) 0xfc in
      negb (Z.lor (Z.lor d0 d1) d2 =? 0) && ecc_single_bit d0 d1 d2 &&
      (ecc_byte d0 d1 =? i) && (ecc_bit d2 =? k)) [0;1;2;3;4;5;6;7]).
  pose proof (all_bytes_spec P ltac:(vm_compute; reflexivity) i Hi) as H.
  subst P. cbv beta zeta in H. rewrite forallb_forall in H.
  specialize (H k ltac:(destruct (bit_cases k Hk) as [|[|[|[|[|[|[|]]]]]]]; subst; cbn; tauto)).
  rewrite !andb_true_iff, negb_true_iff, !Z.eqb_eq in H. tauto.
Qed.

(** Two flips toggle both bits of a pair, or none. *)
Lemma ecc_pairs_syndrome x :
  in_u 8 x →
  let d0 := ecc_interleave 0x08 x x in
  let d1 := ecc_interleave 0x80 x x in
  (∀ d2, ecc_single_bit d0 d1 d2 = false) ∧
  (if x =? 0 then d0 = 0 ∧ d1 = 0
   else Z.lor d0 d1 ≠ 0 ∧ 2 ≤ yaffs_hweight8 d0 + yaffs_hweight8 d1).
Proof.
  intros Hx d0 d1.
  pose proof (all_bytes_spec (λ x, 
    let d0 := ecc_interleave 0x08 x x in
    let d1 := ecc_interleave 0x80 x x in
    negb (Z.land (Z.lxor d0 (Z.shiftr d0 1)) 0x55 =? 0x55) &&
    (if x =? 0 then (d0 =? 0) && (d1 =? 0)
     else negb (Z.lor d0 d1 =? 0) && (2 <=? yaffs_hweight8 d0 + yaffs_hweight8 d1)))
    ltac:(vm_compute; reflexivity) x Hx) as H.
  cbv beta zeta in H. fold d0 d1 in H. apply andb_true_iff in H as [H1 H2].
  apply negb_true_iff in H1. split; [|destruct (x =? 0); lia].
  intros d2. unfold ecc_single_bit. by rewrite H1.
Qed.

Lemma column_parity_pair k1 k2 :
  0 ≤ k1 < 8 → 0 ≤ k2 < 8 → k1 ≠ k2 →
  let c := Z.lxor (column_parity (2 ^ k1)) (column_parity (2 ^ k2)) in
  Z.land c 0xfc ≠ 0 ∧ 2 ≤ yaffs_hweight8 (Z.land c 0xfc) ∧
  2 ≤ yaffs_hweight8 (Z.land (Z.shiftr c 2) 0x3f).
Proof.
  intros H1 H2 Hne.
  destruct (bit_cases k1 H1) as [|[|[|[|[|[|[|]]]]]]]; subst k1;
  destruct (bit_cases k2 H2) as [|[|[|[|[|[|[|]]]]]]]; subst k2;
    first [done | repeat split; (vm_compute; discriminate)].
Qed.

Lemma yaffs_hweight8_nonneg x : 0 ≤ yaffs_hweight8 x.
Proof.
  unfold yaffs_hweight8. set (n := Z.to_nat x).
  destruct (nth_in_or_default n yaffs_count_bits_table 0) as [Hin| ->]; [|done].
  assert (forallb (λ y, 0 <=? y) yaffs_count_bits_table = true) as H by reflexivity.
  rewrite forallb_forall in H. specialize (H _ Hin). lia.
Qed.

Lemma ecc_double_flip_syndrome x k1 k2 :
  in_u 8 x → 0 ≤ k1 < 8 → 0 ≤ k2 < 8 → (x = 0 → k1 ≠ k2) →
  let d0 := ecc_interleave 0x08 x x in
  let d1 := ecc_interleave 0x80 x x in
  let d2 := Z.land (Z.lxor (column_parity (2 ^ k1)) (column_parity (2 ^ k2))) 0xfc in
  (Z.lor (Z.lor d0 d1) d2 =? 0) = false ∧ ecc_single_bit d0 d1 d2 = false ∧
  (yaffs_hweight8 d0 + yaffs_hweight8 d1 + yaffs_hweight8 d2 =? 1) = false.
Proof.
  intros Hx Hk1 Hk2 Hne d0 d1 d2.
  destruct (ecc_pairs_syndrome x Hx) as [Hs Hw]. fold d0 d1 in Hs, Hw.
  pose proof (yaffs_hweight8_nonneg d2) as Hw2.
  split; [|split; [apply Hs|]]; apply Z.eqb_neq; destruct (Z.eqb_spec x 0) as [Hx0|Hx0].
  - destruct Hw as [-> ->]. rewrite !Z.lor_0_l.
    by apply (column_parity_pair k1 k2 Hk1 Hk2 (Hne Hx0)).
  - intros H. apply Z.lor_eq_0_l in H. tauto.
  - destruct Hw as [-> ->]. destruct (column_parity_pair k1 k2 Hk1 Hk2 (Hne Hx0)) as (_ & H & _).
    fold d2 in H. change (yaffs_hweight8 0) with 0. lia.
  - lia.
Qed.

(** ** Theorems *)

Lemma lxor_stored a b : Z.lxor (Z.lxor a b) b = a.
Proof. by rewrite Z.lxor_assoc, Z.lxor_nilpotent, Z.lxor_0_r. Qed.

(** C16. A page of 256 bytes read back with the code it was stored with: untouched
    data is accepted; a single flipped bit of the data, any of the 2048, is found
    and flipped back; a single flipped bit of the stored code leaves the data
    alone and restores the code. *)
Theorem yaffs_ecc_corrects_single_bit data e :
  Forall (in_u 8) data → length data = 256%nat → yaffs_ecc_calc data = Some e →
  yaffs_ecc_correct data e e = Some (0, data, e) ∧
  (∀ j k, (j < 256)%nat → 0 ≤ k < 8 →
     ∃ e', yaffs_ecc_calc (flip data j k) = Some e' ∧
           yaffs_ecc_correct (flip data j k) e e' = Some (1, data, e)) ∧
  (∀ k, 0 ≤ k < 8 →
     ∀ e', e' = Ecc3 (Z.lxor (ecc_0 e) (2 ^ k)) (ecc_1 e) (ecc_2 e) ∨
           e' = Ecc3 (ecc_0 e) (Z.lxor (ecc_1 e) (2 ^ k)) (ecc_2 e) ∨
           e' = Ecc3 (ecc_0 e) (ecc_1 e) (Z.lxor (ecc_2 e) (2 ^ k)) →
     yaffs_ecc_correct data e' e = Some (1, data, e)).
Proof.
  intros Hd Hlen He.
  destruct (parity_of_page data Hd ltac:(lia)) as (p & Hp & Hwf & He').
  rewrite He' in He. injection He as <-. split; [|split].
  - unfold yaffs_ecc_correct. by rewrite !Z.lxor_nilpotent.
  - intros j k Hj Hk. eexists. split.
    { unfold yaffs_ecc_calc. by rewrite (ecc_calc_flip data j k p). }
    destruct (ecc_pack_xor p (column_parity (2 ^ k)) (Z.of_nat j) (notu 8 (Z.of_nat j)) Hwf)
      as (H0 & H1 & H2).
    { apply column_parity_odd, Hk. } { unfold in_u. lia. } { apply wrapu_range. lia. }
    destruct (ecc_single_flip_syndrome j k Hj Hk) as (Hz & Hs & Hbyte & Hbit).
    unfold yaffs_ecc_correct. rewrite H0, H1, H2, Hz, Hs, Hbyte, Hbit.
    by rewrite xor_at_flip by lia.
  - assert (∀ a b, Z.lxor (Z.lxor a b) a = b) as Hx.
    { intros a b. by rewrite Z.lxor_comm, <- Z.lxor_assoc, Z.lxor_nilpotent, Z.lxor_0_l. }
    intros k Hk e' He''. unfold yaffs_ecc_correct.
    destruct He'' as [-> | [-> | ->]]; cbn [ecc_0 ecc_1 ecc_2];
      rewrite !Z.lxor_nilpotent, Hx;
      destruct (bit_cases k Hk) as [|[|[|[|[|[|[|]]]]]]]; subst k; by destruct (ecc_pack p).
Qed.

(** C35. Two different flipped bits of a page are always reported (-1): the data
    and the code are left as they were read, never miscorrected. *)
Theorem yaffs_ecc_detects_double_bit data e j1 k1 j2 k2 :
  Forall (in_u 8) data → length data = 256%nat → yaffs_ecc_calc data = Some e →
  (j1 < 256)%nat → (j2 < 256)%nat → 0 ≤ k1 < 8 → 0 ≤ k2 < 8 → (j1, k1) ≠ (j2, k2) →
  ∃ e', yaffs_ecc_calc (flip (flip data j1 k1) j2 k2) = Some e' ∧
    yaffs_ecc_correct (flip (flip data j1 k1) j2 k2) e e'
    = Some (-1, flip (flip data j1 k1) j2 k2, e).
Proof.
  intros Hd Hlen He Hj1 Hj2 Hk1 Hk2 Hne.
  destruct (parity_of_page data Hd ltac:(lia)) as (p & Hp & Hwf & He').
  rewrite He' in He. injection He as <-.
  pose proof (ecc_calc_flip data j1 k1 p Hd Hj1 Hk1 Hp) as Hp1.
  pose proof (ecc_calc_flip _ j2 k2 _ (flip_u8 data j1 k1 Hk1 Hd) Hj2 Hk2 Hp1) as Hp2.
  eexists. split. { unfold yaffs_ecc_calc. by rewrite Hp2. }
  set (x := Z.lxor (Z.of_nat j1) (Z.of_nat j2)).
  assert (parity_xor (parity_xor p (column_parity (2 ^ k1)) (Z.of_nat j1)
            (notu 8 (Z.of_nat j1))) (column_parity (2 ^ k2)) (Z.of_nat j2)
            (notu 8 (Z.of_nat j2))
          = parity_xor p (Z.lxor (column_parity (2 ^ k1)) (column_parity (2 ^ k2))) x x) as ->.
  { unfold parity_xor. cbn. rewrite !Z.lxor_assoc. do 2 f_equal.
    unfold x, notu. bitwise; [by destruct (Z.testbit (Z.of_nat j1) i), (Z.testbit (Z.of_nat j2) i)|].
    by rewrite !(in_u_high 8) by (unfold in_u; lia). }
  assert (in_u 8 x) as Hx by (apply in_u_lxor; unfold in_u; lia).
  destruct (ecc_pack_xor p (Z.lxor (column_parity (2 ^ k1)) (column_parity (2 ^ k2))) x x Hwf)
    as (H0 & H1 & H2); [|done..|].
  { apply in_u_lxor; [lia|by apply column_parity_odd..]. }
  destruct (ecc_double_flip_syndrome x k1 k2 Hx Hk1 Hk2) as (Hz & Hs & Hw).
  { intros Hx0 ->. unfold x in Hx0; rewrite Z.lxor_eq_0_iff in Hx0. apply Hne. f_equal. lia. }
  unfold yaffs_ecc_correct. by rewrite H0, H1, H2, Hz, Hs, Hw.
Qed.

(** ** The code of the packed tags *)

Lemma yaffs_hweight32_pos x : in_u 32 x → x ≠ 0 → 1 ≤ yaffs_hweight32 x.
Proof.
  intros Hx Hne. unfold yaffs_hweight32.
  assert (∀ b, in_u 8 b → 0 < b → 1 ≤ yaffs_hweight8 b) as Hpos.
  { intros b Hb Hb0.
    pose proof (all_bytes_spec (λ b, (b =? 0) || (1 <=? yaffs_hweight8 b))
      ltac:(vm_compute; reflexivity) b Hb) as H. cbv beta in H. lia. }
  assert (∀ k, 0 ≤ k → in_u 8 (Z.land (Z.shiftr x k) 0xff)) as Hb.
  { intros k Hk. change 0xff with (Z.ones 8). rewrite <- wrapu_ones by lia.
    apply wrapu_range. lia. }
  pose proof (Hb 0 ltac:(lia)) as B0. rewrite Z.shiftr_0_r in B0.
  pose proof (Hb 8 ltac:(lia)) as B1. pose proof (Hb 16 ltac:(lia)) as B2.
  pose proof (Hb 24 ltac:(lia)) as B3. clear Hb.
  set (b0 := Z.land x 0xff) in *. set (b1 := Z.land (Z.shiftr x 8) 0xff) in *.
  set (b2 := Z.land (Z.shiftr x 16) 0xff) in *. set (b3 := Z.land (Z.shiftr x 24) 0xff) in *.
  pose proof (yaffs_hweight8_nonneg b0). pose proof (yaffs_hweight8_nonneg b1).
  pose proof (yaffs_hweight8_nonneg b2). pose proof (yaffs_hweight8_nonneg b3).
  pose proof (Hpos b0 B0). pose proof (Hpos b1 B1). pose proof (Hpos b2 B2).
  pose proof (Hpos b3 B3). unfold in_u in *.
  enough (b0 ≠ 0 ∨ b1 ≠ 0 ∨ b2 ≠ 0 ∨ b3 ≠ 0) by lia.
  destruct (decide (b0 = 0)) as [Z0|]; [|tauto]. destruct (decide (b1 = 0)) as [Z1|]; [|tauto].
  destruct (decide (b2 = 0)) as [Z2|]; [|tauto]. destruct (decide (b3 = 0)) as [Z3|]; [|tauto].
  destruct Hne. apply Z.bits_inj'. intros i Hi. rewrite Z.bits_0.
  assert (∀ k, 0 ≤ k → Z.land (Z.shiftr x k) 0xff = 0 → k ≤ i < k + 8 →
            Z.testbit x i = false) as Hbit.
  { intros k Hk Hz Hik. apply (f_equal (λ y, Z.testbit y (i - k))) in Hz.
    change 0xff with (Z.ones 8) in Hz.
    rewrite Z.bits_0, Z.land_spec, Z.shiftr_spec, Z.testbit_ones_nonneg in Hz by lia.
    replace (i - k + k) with i in Hz by lia.
    destruct (Z.ltb_spec (i - k) 8); [by rewrite andb_true_r in Hz|lia]. }
  destruct (Z.ltb_spec i 8); [apply (Hbit 0); (done || lia)|].
  destruct (Z.ltb_spec i 16); [apply (Hbit 8); (done || lia)|].
  destruct (Z.ltb_spec i 24); [apply (Hbit 16); (done || lia)|].
  destruct (Z.ltb_spec i 32); [apply (Hbit 24); (done || lia)|].
  by apply (in_u_high 32 x).
Qed.

Lemma column_field_xor c d :
  Z.lxor (Z.land (Z.shiftr c 2) 0x3f) (Z.land (Z.shiftr (Z.lxor c d) 2) 0x3f)
  = Z.land (Z.shiftr d 2) 0x3f.
Proof.
  change 0x3f with (Z.ones 6). bitwise. by destruct (Z.testbit c (i + 2)), (Z.testbit d (i + 2)).
Qed.

Lemma lxor_cancel a b : Z.lxor a (Z.lxor a b) = b.
Proof. by rewrite <- Z.lxor_assoc, Z.lxor_nilpotent, Z.lxor_0_l. Qed.

(** The place of a single flip in the column field. *)
Lemma column_field_bit k :
  0 ≤ k < 8 →
  let d := Z.land (Z.shiftr (column_parity (2 ^ k)) 2) 0x3f in
  (Z.land (Z.lxor d (Z.shiftr d 1)) 0x15 =? 0x15) = true ∧ 0 < d ∧
  or_if d 0x02 0x01 (or_if d 0x08 0x02 (or_if d 0x20 0x04 0)) = k.
Proof.
  intros Hk. destruct (bit_cases k Hk) as [|[|[|[|[|[|[|]]]]]]]; subst; by vm_compute.
Qed.

Lemma column_field_pair k1 k2 :
  0 ≤ k1 < 8 → 0 ≤ k2 < 8 →
  let d := Z.land (Z.shiftr (Z.lxor (column_parity (2 ^ k1)) (column_parity (2 ^ k2))) 2) 0x3f in
  (Z.land (Z.lxor d (Z.shiftr d 1)) 0x15 =? 0x15) = false.
Proof.
  intros H1 H2.
  destruct (bit_cases k1 H1) as [|[|[|[|[|[|[|]]]]]]]; subst k1;
  destruct (bit_cases k2 H2) as [|[|[|[|[|[|[|]]]]]]]; subst k2; reflexivity.
Qed.

Lemma ecc_other_calc n q d :
  parity_loop 32 n 0 d (Parity 0 0 0) = Some q →
  yaffs_ecc_calc_other d n = Some (ecc_other_pack q).
Proof. intros H. unfold yaffs_ecc_calc_other. by rewrite H. Qed.

Section ecc_other.
Variables (data : list Z) (n : nat) (p : parity).
Hypothesis Hd : Forall (in_u 8) data.
Hypothesis Hn : (n ≤ length data)%nat.
Hypothesis Hmax : Z.of_nat n ≤ 2 ^ 32.
Hypothesis Hp : parity_loop 32 n 0 data (Parity 0 0 0) = Some p.
#[local] Set Default Proof Using "Type*".

Lemma ecc_other_flip j k :
  (j < n)%nat → 0 ≤ k < 8 →
  parity_loop 32 n 0 (flip data j k) (Parity 0 0 0)
  = Some (parity_xor p (column_parity (2 ^ k)) (Z.of_nat j) (notu 32 (Z.of_nat j))).
Proof.
  intros Hj Hk. apply (parity_loop_flip 32 ltac:(lia) n 0); done || lia || by repeat split.
Qed.

(** A flip makes the two line syndromes complementary. *)
Lemma ecc_other_single j k :
  (j < n)%nat → 0 ≤ k < 8 →
  yaffs_ecc_correct_other (flip data j k) n (ecc_other_pack p)
    (ecc_other_pack (parity_xor p (column_parity (2 ^ k)) (Z.of_nat j) (notu 32 (Z.of_nat j))))
  = Some (1, data, ecc_other_pack p).
Proof.
  intros Hj Hk. unfold yaffs_ecc_correct_other. cbn [ecc_other_pack col_parity line_parity
    line_parity_prime col_parity_of line_parity_of line_parity_prime_of parity_xor].
  rewrite column_field_xor, !lxor_cancel.
  destruct (column_field_bit k Hk) as (Hc & Hpos & Hbit). rewrite Hc, Hbit.
  set (d := Z.land (Z.shiftr (column_parity (2 ^ k)) 2) 0x3f) in *.
  assert (in_u 32 (Z.of_nat j)) as Hj32 by (unfold in_u; lia).
  destruct (Z.eqb_spec (Z.lor (Z.lor d (Z.of_nat j)) (notu 32 (Z.of_nat j))) 0) as [Hz|_].
  { apply Z.lor_eq_0_iff in Hz as [Hz _]. apply Z.lor_eq_0_iff in Hz. lia. }
  assert (notu 32 (notu 32 (Z.of_nat j)) = Z.of_nat j) as ->.
  { unfold notu. bitwise. - by rewrite negb_involutive.
    - by rewrite (in_u_high 32) by (done || lia). }
  rewrite Z.eqb_refl. cbn [andb].
  destruct (Z.leb_spec (Z.of_nat n) (Z.of_nat j)); [lia|].
  by rewrite xor_at_flip by lia.
Qed.

(** Two flips make them equal. *)
Lemma ecc_other_double d c x :
  in_u 32 x → (x = 0 → 2 ≤ yaffs_hweight8 (Z.land (Z.shiftr c 2) 0x3f)) →
  (let d := Z.land (Z.shiftr c 2) 0x3f in
   (Z.land (Z.lxor d (Z.shiftr d 1)) 0x15 =? 0x15) = false) →
  yaffs_ecc_correct_other d n (ecc_other_pack p) (ecc_other_pack (parity_xor p c x x))
  = Some (-1, d, ecc_other_pack p).
Proof.
  intros Hx Hw Hs. unfold yaffs_ecc_correct_other. cbn [ecc_other_pack col_parity line_parity
    line_parity_prime col_parity_of line_parity_of line_parity_prime_of parity_xor].
  rewrite column_field_xor, !lxor_cancel, Hs, andb_false_r.
  set (e := Z.land (Z.shiftr c 2) 0x3f) in *.
  pose proof (yaffs_hweight8_nonneg e) as He.
  assert (Z.lor (Z.lor e x) x ≠ 0 ∧ yaffs_hweight32 x + yaffs_hweight32 x + yaffs_hweight8 e ≠ 1)
    as [Hz Hwt].
  { destruct (decide (x = 0)) as [->|Hne].
    - specialize (Hw eq_refl). split.
      + rewrite !Z.lor_0_r. intros ->. change (yaffs_hweight8 0) with 0 in Hw. lia.
      + change (yaffs_hweight32 0) with 0. lia.
    - pose proof (yaffs_hweight32_pos x Hx Hne). split; [|lia].
      intros Hz%Z.lor_eq_0_iff. tauto. }
  by rewrite (proj2 (Z.eqb_neq _ _) Hz), (proj2 (Z.eqb_neq _ _) Hwt).
Qed.
End ecc_other.

(** The code of the packed tags, over [n] bytes: an untouched record is
    accepted, every single flipped bit is found and flipped back, and two flipped
    bits are reported (-1) with the record left as it was read. *)
Theorem yaffs_ecc_other_spec data n e :
  Forall (in_u 8) data → (n ≤ length data)%nat → Z.of_nat n ≤ 2 ^ 32 →
  yaffs_ecc_calc_other data n = Some e →
  yaffs_ecc_correct_other data n e e = Some (0, data, e) ∧
  ∀ j k, (j < n)%nat → 0 ≤ k < 8 →
    (∃ e', yaffs_ecc_calc_other (flip data j k) n = Some e' ∧
           yaffs_ecc_correct_other (flip data j k) n e e' = Some (1, data, e)) ∧
    (∀ j' k', (j' < n)%nat → 0 ≤ k' < 8 → (j, k) ≠ (j', k') →
       let data2 := flip (flip data j k) j' k' in
       ∃ e', yaffs_ecc_calc_other data2 n = Some e' ∧
             yaffs_ecc_correct_other data2 n e e' = Some (-1, data2, e)).
Proof.
  intros Hd Hn Hmax He.
  destruct (parity_loop_total 32 ltac:(lia) n 0 data (Parity 0 0 0) Hn) as (p & Hp).
  rewrite (ecc_other_calc n p data Hp) in He. injection He as <-. split.
  { unfold yaffs_ecc_correct_other. by rewrite !Z.lxor_nilpotent. }
  intros j k Hj Hk. pose proof (ecc_other_flip data n p Hd Hn Hmax Hp j k Hj Hk) as Hp1.
  split.
  { eexists. split; [by apply ecc_other_calc|]. by apply ecc_other_single. }
  intros j' k' Hj' Hk' Hne data2.
  assert (n ≤ length (flip data j k))%nat as Hn' by by rewrite flip_length.
  pose proof (ecc_other_flip _ n _ (flip_u8 data j k Hk Hd) Hn' Hmax Hp1 j' k' Hj' Hk') as Hp2.
  eexists. split; [by apply ecc_other_calc|].
  set (x := Z.lxor (Z.of_nat j) (Z.of_nat j')).
  replace (parity_xor _ _ _ _) with
    (parity_xor p (Z.lxor (column_parity (2 ^ k)) (column_parity (2 ^ k'))) x x).
  - apply (ecc_other_double data n p); try done.
    + apply in_u_lxor; unfold in_u; lia.
    + intros Hx0. unfold x in Hx0; rewrite Z.lxor_eq_0_iff in Hx0. apply column_parity_pair; try done.
      intros ->. apply Hne. f_equal. lia.
    + by apply column_field_pair.
  - unfold parity_xor. cbn. rewrite !Z.lxor_assoc. do 2 f_equal.
    unfold x, notu. bitwise;
      [by destruct (Z.testbit (Z.of_nat j) i), (Z.testbit (Z.of_nat j') i)|].
    by rewrite !(in_u_high 32) by (unfold in_u; lia).
Qed.

(** ** Witnesses *)

Definition sample_page : list Z := map (λ i, Z.of_nat i mod 251) (seq 0 256).

Lemma sample_page_u8 : Forall (in_u 8) sample_page.
Proof.
  apply Forall_map, Forall_forall. intros i _. unfold in_u.
  pose proof (Z.mod_pos_bound (Z.of_nat i) 251). lia.
Qed.

Example yaffs_ecc_corrects_single_bit_witness :
  ∃ e e', yaffs_ecc_calc sample_page = Some e ∧
    yaffs_ecc_calc (flip sample_page 77 5) = Some e' ∧
    yaffs_ecc_correct (flip sample_page 77 5) e e' = Some (1, sample_page, e).
Proof.
  destruct (yaffs_ecc_corrects_single_bit sample_page (Ecc3 195 255 255))
    as (_ & H & _); [apply sample_page_u8 | reflexivity | reflexivity |].
  destruct (H 77%nat 5 ltac:(lia) ltac:(lia)) as (e' & He' & Hc).
  eexists. exists e'. split; [reflexivity|]. split; [exact He'|exact Hc].
Defined.

Example yaffs_ecc_detects_double_bit_witness :
  ∃ e', yaffs_ecc_calc (flip (flip sample_page 3 1) 200 7) = Some e' ∧
    yaffs_ecc_correct (flip (flip sample_page 3 1) 200 7) (Ecc3 195 255 255) e'
    = Some (-1, flip (flip sample_page 3 1) 200 7, Ecc3 195 255 255).
Proof.
  destruct (yaffs_ecc_detects_double_bit sample_page (Ecc3 195 255 255) 3 1 200 7)
    as (e' & He' & Hc);
    [apply sample_page_u8 | reflexivity | reflexivity | lia | lia | lia | lia | done |].
  exists e'. split; [exact He'|exact Hc].
Defined.

Example yaffs_ecc_other_spec_witness :
  ∃ e e', yaffs_ecc_calc_other [1; 2; 3; 4] 4 = Some e ∧
    yaffs_ecc_calc_other (flip [1; 2; 3; 4] 2 6) 4 = Some e' ∧
    yaffs_ecc_correct_other (flip [1; 2; 3; 4] 2 6) 4 e e' = Some (1, [1; 2; 3; 4], e).
Proof.
  destruct (yaffs_ecc_other_spec [1; 2; 3; 4] 4 (mk_ecc_other 25 2 4294967293)) as (_ & H);
    [repeat constructor; lia | cbn; lia | lia | reflexivity |].
  destruct (H 2%nat 6 ltac:(lia) ltac:(lia)) as [(e' & He' & Hc) _].
  eexists. exists e'. split; [reflexivity|]. split; [exact He'|exact Hc].
Defined.
