(* ===== verification/YaffsTags.v ===== *)
(** * YAFFS: what is stored beside a chunk

    The on-flash formats of [fs/yaffs2/_private]: the byte order of stored words
    ([yaffs_endian.{c,h}]), the object header, the packed tags of yaffs1
    ([yaffs_packedtags1.{c,h}]) and yaffs2 ([yaffs_packedtags2.{c,h}]), and the tags
    of the spare area with their error-correcting code ([yaffs_tagscompat.c]).
    [dev->swap_endian] is an argument of the functions that read it.

    A C structure that is viewed as bytes is given by its big-endian image: the
    compiler of the target places the first bit-field of a word in its most
    significant bits. *)

From S2P Require Import Prelude Memory Endian YaffsEcc.

(** ** Byte order *)

Definition swap_u32 (val : Z) : Z :=
  Z.lor (Z.lor (Z.lor
    (Z.land (Z.shiftr val 24) 0x000000ff)
    (Z.land (Z.shiftr val 8) 0x0000ff00))
    (Z.land (u32 (Z.shiftl val 8)) 0x00ff0000))
    (Z.land (u32 (Z.shiftl val 24)) 0xff000000).

Definition swap_s32 (val : Z) : Z := s32 (swap_u32 (u32 val)).

Definition swap_loff_t (lval : Z) : Z :=
  let vall := swap_u32 (u32 (Z.land lval 0xffffffff)) in
  let valh := swap_u32 (u32 (Z.land (Z.shiftr lval 32) 0xffffffff)) in
  s64 (Z.lor (u64 (Z.shiftl vall 32)) valh).

Definition yaffs_do_endian_u32 (swap_endian : bool) (val : Z) : Z :=
  if swap_endian then swap_u32 val else val.

Definition yaffs_do_endian_s32 (swap_endian : bool) (val : Z) : Z :=
  if swap_endian then swap_s32 val else val.

(** [yaffs_endian_config] on the big-endian machine of the kernel, where the first
    byte of the word 1 is 0; [stored_endian] is 1 for a little-endian and 2 for a
    big-endian flash. The buffer that it allocates is [tn_swap_buffer]. *)
Definition yaffs_endian_config (tnode_size stored_endian : Z) : res bool :=
  if tnode_size <? 1 then Err FBug
  else
    let first := nth 0 (digits BE 4 1) 0 in
    Ok (if first =? 1 then stored_endian =? 2 else stored_endian =? 1).

(** ** Object header *)

Record yaffs_obj_hdr := mk_obj_hdr {
  oh_type : Z;
  parent_obj_id : Z;
  sum_no_longer_used : Z;
  oh_name : list Z;
  yst_mode : Z;
  yst_uid : Z;
  yst_gid : Z;
  yst_atime : Z;
  yst_mtime : Z;
  yst_ctime : Z;
  file_size_low : Z;
  equiv_id : Z;
  oh_alias : list Z;
  yst_rdev : Z;
  win_ctime : Z * Z;
  win_atime : Z * Z;
  win_mtime : Z * Z;
  inband_shadowed_obj_id : Z;
  inband_is_shrink : Z;
  file_size_high : Z;
  reserved : Z;
  shadows_obj : Z;
  is_shrink : Z
}.

Definition swap_pair (p : Z * Z) : Z * Z := (swap_u32 p.1, swap_u32 p.2).

(** [equiv_id] is an [int]: [swap_u32] of it converts it to a word and back, which is
    what [swap_s32] does. *)
Definition yaffs_do_endian_oh (swap_endian : bool) (oh : yaffs_obj_hdr) : yaffs_obj_hdr :=
  if swap_endian then
    mk_obj_hdr (swap_u32 (oh_type oh)) (swap_u32 (parent_obj_id oh))
      (sum_no_longer_used oh) (oh_name oh)
      (swap_u32 (yst_mode oh))
      (swap_u32 (yst_uid oh)) (swap_u32 (yst_gid oh))
      (swap_u32 (yst_atime oh)) (swap_u32 (yst_mtime oh)) (swap_u32 (yst_ctime oh))
      (swap_u32 (file_size_low oh))
      (swap_s32 (equiv_id oh))
      (oh_alias oh)
      (swap_u32 (yst_rdev oh))
      (swap_pair (win_ctime oh)) (swap_pair (win_atime oh)) (swap_pair (win_mtime oh))
      (swap_u32 (inband_shadowed_obj_id oh)) (swap_u32 (inband_is_shrink oh))
      (swap_u32 (file_size_high oh)) (swap_u32 (reserved oh))
      (swap_s32 (shadows_obj oh))
      (swap_u32 (is_shrink oh))
  else oh.

(** ** Extended tags: the tags in memory *)

Inductive yaffs_ecc_result : Type :=
  | YAFFS_ECC_RESULT_UNKNOWN
  | YAFFS_ECC_RESULT_NO_ERROR
  | YAFFS_ECC_RESULT_FIXED
  | YAFFS_ECC_RESULT_UNFIXED.

#[global] Instance yaffs_ecc_result_eq_dec : EqDecision yaffs_ecc_result.
Proof. solve_decision. Defined.

(** [enum yaffs_obj_type]: a variable of it may hold any four bits of a flash
    word, so it is a number. *)
Definition YAFFS_OBJECT_TYPE_UNKNOWN : Z := 0.
Definition YAFFS_OBJECT_TYPE_FILE : Z := 1.
Definition YAFFS_OBJECT_TYPE_SYMLINK : Z := 2.
Definition YAFFS_OBJECT_TYPE_DIRECTORY : Z := 3.
Definition YAFFS_OBJECT_TYPE_HARDLINK : Z := 4.
Definition YAFFS_OBJECT_TYPE_SPECIAL : Z := 5.

Record yaffs_ext_tags := mk_ext_tags {
  chunk_used : Z;
  obj_id : Z;
  chunk_id : Z;
  n_bytes : Z;
  ecc_result : yaffs_ecc_result;
  block_bad : Z;
  is_deleted : Z;
  serial_number : Z;
  seq_number : Z;
  extra_available : Z;
  extra_parent_id : Z;
  extra_is_shrink : Z;
  extra_shadows : Z;
  extra_obj_type : Z;
  extra_file_size : Z;
  extra_equiv_id : Z
}.

(** [memset(t, 0, sizeof ( * t))]. *)
Definition ext_tags_zero : yaffs_ext_tags :=
  mk_ext_tags 0 0 0 0 YAFFS_ECC_RESULT_UNKNOWN 0 0 0 0 0 0 0 0 0 0 0.

Definition set_ecc_result (r : yaffs_ecc_result) (t : yaffs_ext_tags) : yaffs_ext_tags :=
  mk_ext_tags (chunk_used t) (obj_id t) (chunk_id t) (n_bytes t) r (block_bad t) (is_deleted t)
    (serial_number t) (seq_number t) (extra_available t) (extra_parent_id t) (extra_is_shrink t)
    (extra_shadows t) (extra_obj_type t) (extra_file_size t) (extra_equiv_id t).

(** ** Packed tags of yaffs1 *)

Record yaffs_packed_tags1 := mk_pt1 {
  pt1_chunk_id : Z;
  pt1_serial_number : Z;
  pt1_n_bytes : Z;
  pt1_obj_id : Z;
  pt1_ecc : Z;
  pt1_deleted : Z;
  pt1_unused_stuff : Z;
  should_be_ff : Z
}.

(** The words of the structure. *)
Definition pt1_words (pt : yaffs_packed_tags1) : list Z :=
  [Z.lor (Z.lor (Z.shiftl (pt1_chunk_id pt) 12) (Z.shiftl (pt1_serial_number pt) 10))
     (pt1_n_bytes pt);
   Z.lor (Z.lor (Z.lor (Z.shiftl (pt1_obj_id pt) 14) (Z.shiftl (pt1_ecc pt) 2))
     (Z.shiftl (pt1_deleted pt) 1)) (pt1_unused_stuff pt);
   should_be_ff pt].

Definition pt1_bytes (pt : yaffs_packed_tags1) : list Z := pt1_words pt ≫= digits BE 4.

Definition all_ff : list Z := repeat 0xff 12.

Definition yaffs_pack_tags1 (t : yaffs_ext_tags) : yaffs_packed_tags1 :=
  mk_pt1 (wrapu 20 (chunk_id t)) (wrapu 2 (serial_number t)) (wrapu 10 (n_bytes t))
    (wrapu 18 (obj_id t)) 0 (if is_deleted t =? 0 then 1 else 0) 0 0xffffffff.

(** The fields of [t] that are not assigned keep their values. *)
Definition yaffs_unpack_tags1 (t : yaffs_ext_tags) (pt : yaffs_packed_tags1) : yaffs_ext_tags :=
  if bool_decide (pt1_bytes pt = all_ff) then ext_tags_zero
  else
    mk_ext_tags 1 (pt1_obj_id pt) (pt1_chunk_id pt) (pt1_n_bytes pt) YAFFS_ECC_RESULT_NO_ERROR
      (if should_be_ff pt =? 0xffffffff then 0 else 1)
      (if pt1_deleted pt =? 0 then 1 else 0)
      (pt1_serial_number pt) (seq_number t) (extra_available t) (extra_parent_id t)
      (extra_is_shrink t) (extra_shadows t) (extra_obj_type t) (extra_file_size t)
      (extra_equiv_id t).

(** ** Packed tags of yaffs2 *)

Definition EXTRA_HEADER_INFO_FLAG : Z := 0x80000000.
Definition EXTRA_SHRINK_FLAG : Z := 0x40000000.
Definition EXTRA_SHADOWS_FLAG : Z := 0x20000000.
Definition ALL_EXTRA_FLAGS : Z := 0xf0000000.
Definition EXTRA_OBJECT_TYPE_SHIFT : Z := 28.
Definition EXTRA_OBJECT_TYPE_MASK : Z := 0xf0000000.

Record yaffs_packed_tags2_tags_only := mk_ptt {
  pt_seq_number : Z;
  pt_obj_id : Z;
  pt_chunk_id : Z;
  pt_n_bytes : Z
}.

Record yaffs_packed_tags2 := mk_pt2 {
  pt_t : yaffs_packed_tags2_tags_only;
  pt_ecc : yaffs_ecc_other
}.

Definition yaffs_do_endian_packed_tags2 (swap_endian : bool) (ptt : yaffs_packed_tags2_tags_only)
  : yaffs_packed_tags2_tags_only :=
  if swap_endian then
    mk_ptt (swap_u32 (pt_seq_number ptt)) (swap_u32 (pt_obj_id ptt))
      (swap_u32 (pt_chunk_id ptt)) (swap_u32 (pt_n_bytes ptt))
  else ptt.

Definition yaffs_check_tags_extra_packable (t : yaffs_ext_tags) : bool :=
  if negb (chunk_id t =? 0) || (extra_available t =? 0) then false
  else if (extra_obj_type t =? YAFFS_OBJECT_TYPE_FILE) &&
          negb (Z.shiftr (extra_file_size t) 31 =? 0) then false
  else true.

Definition yaffs_pack_tags2_tags_only (swap_endian : bool) (t : yaffs_ext_tags)
  : yaffs_packed_tags2_tags_only :=
  let ptt := mk_ptt (seq_number t) (obj_id t) (chunk_id t) (n_bytes t) in
  let ptt :=
    if yaffs_check_tags_extra_packable t then
      let c := Z.lor EXTRA_HEADER_INFO_FLAG (extra_parent_id t) in
      let c := if extra_is_shrink t =? 0 then c else Z.lor c EXTRA_SHRINK_FLAG in
      let c := if extra_shadows t =? 0 then c else Z.lor c EXTRA_SHADOWS_FLAG in
      let o := Z.land (pt_obj_id ptt) (notu 32 EXTRA_OBJECT_TYPE_MASK) in
      let o := Z.lor o (u32 (Z.shiftl (extra_obj_type t) EXTRA_OBJECT_TYPE_SHIFT)) in
      let n :=
        if extra_obj_type t =? YAFFS_OBJECT_TYPE_HARDLINK then extra_equiv_id t
        else if extra_obj_type t =? YAFFS_OBJECT_TYPE_FILE then u32 (extra_file_size t)
        else 0 in
      mk_ptt (pt_seq_number ptt) o c n
    else ptt in
  yaffs_do_endian_packed_tags2 swap_endian ptt.

(** [(unsigned char * )&pt->t] and back. *)
Definition ptt_bytes (ptt : yaffs_packed_tags2_tags_only) : list Z :=
  [pt_seq_number ptt; pt_obj_id ptt; pt_chunk_id ptt; pt_n_bytes ptt] ≫= digits BE 4.

Definition ptt_of_bytes (l : list Z) : yaffs_packed_tags2_tags_only :=
  let word i := number BE (take 4 (drop (4 * i) l)) in
  mk_ptt (word 0%nat) (word 1%nat) (word 2%nat) (word 3%nat).

(** The size of [struct yaffs_packed_tags2_tags_only]. *)
Definition ptt_size : nat := 16.

(** Without [tags_ecc] the code of [*pt] is left as it is. *)
Definition yaffs_pack_tags2 (swap_endian : bool) (pt : yaffs_packed_tags2) (t : yaffs_ext_tags)
    (tags_ecc : bool) : option yaffs_packed_tags2 :=
  let ptt := yaffs_pack_tags2_tags_only swap_endian t in
  if tags_ecc then
    e ← yaffs_ecc_calc_other (ptt_bytes ptt) ptt_size;
    Some (mk_pt2 ptt e)
  else Some (mk_pt2 ptt (pt_ecc pt)).

Definition yaffs_unpack_tags2_tags_only (swap_endian : bool) (ptt : yaffs_packed_tags2_tags_only)
  : yaffs_ext_tags :=
  if pt_seq_number ptt =? 0xffffffff then ext_tags_zero
  else
    let p := yaffs_do_endian_packed_tags2 swap_endian ptt in
    if Z.land (pt_chunk_id p) EXTRA_HEADER_INFO_FLAG =? 0 then
      mk_ext_tags 1 (pt_obj_id p) (pt_chunk_id p) (pt_n_bytes p) YAFFS_ECC_RESULT_UNKNOWN 0 0 0
        (pt_seq_number p) 0 0 0 0 0 0 0
    else
      let ty := Z.shiftr (pt_obj_id p) EXTRA_OBJECT_TYPE_SHIFT in
      let hard := ty =? YAFFS_OBJECT_TYPE_HARDLINK in
      mk_ext_tags 1 (Z.land (pt_obj_id p) (notu 32 EXTRA_OBJECT_TYPE_MASK)) 0 0
        YAFFS_ECC_RESULT_UNKNOWN 0 0 0 (pt_seq_number p) 1
        (Z.land (pt_chunk_id p) (notu 32 ALL_EXTRA_FLAGS))
        (if Z.land (pt_chunk_id p) EXTRA_SHRINK_FLAG =? 0 then 0 else 1)
        (if Z.land (pt_chunk_id p) EXTRA_SHADOWS_FLAG =? 0 then 0 else 1)
        ty (if hard then 0 else pt_n_bytes p) (if hard then pt_n_bytes p else 0).

(** Both the tags and the repaired [*pt]. *)
Definition yaffs_unpack_tags2 (swap_endian : bool) (pt : yaffs_packed_tags2) (tags_ecc : bool)
  : option (yaffs_ext_tags * yaffs_packed_tags2) :=
  if negb (pt_seq_number (pt_t pt) =? 0xffffffff) && tags_ecc then
    e ← yaffs_ecc_calc_other (ptt_bytes (pt_t pt)) ptt_size;
    r ← yaffs_ecc_correct_other (ptt_bytes (pt_t pt)) ptt_size (pt_ecc pt) e;
    let '(result, data, e') := r in
    let pt' := mk_pt2 (ptt_of_bytes data) e' in
    let ecc :=
      if result =? 0 then YAFFS_ECC_RESULT_NO_ERROR
      else if result =? 1 then YAFFS_ECC_RESULT_FIXED
      else if result =? -1 then YAFFS_ECC_RESULT_UNFIXED
      else YAFFS_ECC_RESULT_UNKNOWN in
    Some (set_ecc_result ecc (yaffs_unpack_tags2_tags_only swap_endian (pt_t pt')), pt')
  else
    Some (set_ecc_result YAFFS_ECC_RESULT_NO_ERROR
            (yaffs_unpack_tags2_tags_only swap_endian (pt_t pt)), pt).

(** ** Tags of yaffs1 in the spare area *)

Record yaffs_tags := mk_tags {
  tg_chunk_id : Z;
  tg_serial_number : Z;
  tg_n_bytes_lsb : Z;
  tg_obj_id : Z;
  tg_ecc : Z;
  tg_n_bytes_msb : Z
}.

Definition set_tg_ecc (e : Z) (t : yaffs_tags) : yaffs_tags :=
  mk_tags (tg_chunk_id t) (tg_serial_number t) (tg_n_bytes_lsb t) (tg_obj_id t) (wrapu 12 e)
    (tg_n_bytes_msb t).

(** [union yaffs_tags_union]: the bit-fields as two words, and as eight bytes. *)
Definition tags_as_u32 (t : yaffs_tags) : Z * Z :=
  (Z.lor (Z.lor (Z.shiftl (tg_chunk_id t) 12) (Z.shiftl (tg_serial_number t) 10))
     (tg_n_bytes_lsb t),
   Z.lor (Z.lor (Z.shiftl (tg_obj_id t) 14) (Z.shiftl (tg_ecc t) 2)) (tg_n_bytes_msb t)).

Definition u32_as_tags (w : Z * Z) : yaffs_tags :=
  mk_tags (Z.shiftr w.1 12) (wrapu 2 (Z.shiftr w.1 10)) (wrapu 10 w.1)
    (Z.shiftr w.2 14) (wrapu 12 (Z.shiftr w.2 2)) (wrapu 2 w.2).

Definition u32_as_bytes (w : Z * Z) : list Z := digits BE 4 w.1 ++ digits BE 4 w.2.
Definition bytes_as_u32 (l : list Z) : Z * Z := (number BE (take 4 l), number BE (drop 4 l)).

Definition tags_as_bytes (t : yaffs_tags) : list Z := u32_as_bytes (tags_as_u32 t).
Definition bytes_as_tags (l : list Z) : yaffs_tags := u32_as_tags (bytes_as_u32 l).

(** The inner loop of [yaffs_calc_tags_ecc] over the bits [j] of a byte. *)
Fixpoint tags_ecc_bits (b : Z) (js : list Z) (ecc bit : Z) : Z * Z :=
  match js with
  | [] => (ecc, bit)
  | j :: js' =>
      let bit := bit + 1 in
      tags_ecc_bits b js' (if Z.land b j =? 0 then ecc else Z.lxor ecc bit) bit
  end.

(** The values of [j]: it is shifted until it leaves the byte. *)
Definition byte_masks : list Z := [0x01; 0x02; 0x04; 0x08; 0x10; 0x20; 0x40; 0x80].

Fixpoint tags_ecc_loop (l : list Z) (ecc bit : Z) : Z :=
  match l with
  | [] => ecc
  | b :: l' => let '(ecc, bit) := tags_ecc_bits b byte_masks ecc bit in tags_ecc_loop l' ecc bit
  end.

Definition yaffs_calc_tags_ecc (tags : yaffs_tags) : yaffs_tags :=
  let tags := set_tg_ecc 0 tags in
  set_tg_ecc (tags_ecc_loop (tags_as_bytes tags) 0 0) tags.

Definition yaffs_check_tags_ecc (tags : yaffs_tags) : Z * yaffs_tags :=
  let ecc := tg_ecc tags in
  let tags := yaffs_calc_tags_ecc tags in
  let ecc := Z.lxor ecc (tg_ecc tags) in
  if negb (ecc =? 0) && (ecc <=? 64) then
    let ecc := ecc - 1 in
    let b := alter (λ x, Z.lxor x (Z.shiftl 1 (Z.land ecc 7))) (Z.to_nat (ecc / 8))
               (tags_as_bytes tags) in
    (1, yaffs_calc_tags_ecc (bytes_as_tags b))
  else if negb (ecc =? 0) then (-1, tags)
  else (0, tags).

Record yaffs_spare := mk_spare {
  tb0 : Z; tb1 : Z; tb2 : Z; tb3 : Z;
  page_status : Z;
  block_status : Z;
  tb4 : Z; tb5 : Z;
  ecc1 : ecc3;
  tb6 : Z; tb7 : Z;
  ecc2 : ecc3
}.

Definition ecc3_bytes (e : ecc3) : list Z := [ecc_0 e; ecc_1 e; ecc_2 e].

(** The 16 bytes of the structure. *)
Definition spare_bytes (s : yaffs_spare) : list Z :=
  [tb0 s; tb1 s; tb2 s; tb3 s; page_status s; block_status s; tb4 s; tb5 s] ++
  ecc3_bytes (ecc1 s) ++ [tb6 s; tb7 s] ++ ecc3_bytes (ecc2 s).

Definition yaffs_spare_init : yaffs_spare :=
  let f := Ecc3 0xff 0xff 0xff in
  mk_spare 0xff 0xff 0xff 0xff 0xff 0xff 0xff 0xff f 0xff 0xff f.

Definition set_page_status (x : Z) (s : yaffs_spare) : yaffs_spare :=
  mk_spare (tb0 s) (tb1 s) (tb2 s) (tb3 s) x (block_status s) (tb4 s) (tb5 s) (ecc1 s)
    (tb6 s) (tb7 s) (ecc2 s).

Definition set_block_status (x : Z) (s : yaffs_spare) : yaffs_spare :=
  mk_spare (tb0 s) (tb1 s) (tb2 s) (tb3 s) (page_status s) x (tb4 s) (tb5 s) (ecc1 s)
    (tb6 s) (tb7 s) (ecc2 s).

Definition set_spare_ecc (e1 e2 : ecc3) (s : yaffs_spare) : yaffs_spare :=
  mk_spare (tb0 s) (tb1 s) (tb2 s) (tb3 s) (page_status s) (block_status s) (tb4 s) (tb5 s) e1
    (tb6 s) (tb7 s) e2.

Definition yaffs_load_tags_to_spare (swap_endian : bool) (s : yaffs_spare) (t : yaffs_tags)
  : yaffs_spare :=
  let w := tags_as_u32 (yaffs_calc_tags_ecc t) in
  let b := u32_as_bytes (yaffs_do_endian_u32 swap_endian w.1, yaffs_do_endian_u32 swap_endian w.2) in
  let at_ i := nth i b 0 in
  mk_spare (at_ 0%nat) (at_ 1%nat) (at_ 2%nat) (at_ 3%nat) (page_status s) (block_status s)
    (at_ 4%nat) (at_ 5%nat) (ecc1 s) (at_ 6%nat) (at_ 7%nat) (ecc2 s).

(** The tags with the result of their check, which the caller's counters
    [n_tags_ecc_fixed] and [n_tags_ecc_unfixed] record. *)
Definition yaffs_get_tags_from_spare (swap_endian : bool) (s : yaffs_spare) : Z * yaffs_tags :=
  let w := bytes_as_u32 [tb0 s; tb1 s; tb2 s; tb3 s; tb4 s; tb5 s; tb6 s; tb7 s] in
  yaffs_check_tags_ecc
    (u32_as_tags (yaffs_do_endian_u32 swap_endian w.1, yaffs_do_endian_u32 swap_endian w.2)).

#[global] Arguments swap_u32 : simpl never.
#[global] Arguments swap_s32 : simpl never.

(** ** Byte order: the swaps reverse the bytes *)

Lemma swap_u32_bswap x : swap_u32 x = bswap32 x.
Proof.
  unfold swap_u32, bswap32. change 0x000000ff with (Z.ones 8).
  change 0x0000ff00 with (Z.shiftl (Z.ones 8) 8).
  change 0x00ff0000 with (Z.shiftl (Z.ones 8) 16).
  change 0xff000000 with (Z.shiftl (Z.ones 8) 24).
  bitwise.
Qed.

Lemma swap_u32_digits x : digits BE 4 (swap_u32 x) = digits LE 4 x.
Proof.
  rewrite swap_u32_bswap, bswap32_bytes.
  rewrite <- (digits_length LE 4 x) at 1. apply digits_number, digits_u8.
Qed.

Lemma swap_u32_range x : in_u 32 (swap_u32 x).
Proof. rewrite swap_u32_bswap. unfold bswap32. apply wrapu_range. lia. Qed.

Lemma digits_inj x y : in_u 32 x → in_u 32 y → digits BE 4 x = digits BE 4 y → x = y.
Proof.
  intros Hx Hy H. rewrite <- (number_digits BE 4 x), <- (number_digits BE 4 y) by done.
  by rewrite H.
Qed.

Lemma digits_BE_LE x : digits BE 4 x = rev (digits LE 4 x).
Proof. done. Qed.

Lemma swap_u32_twice x : in_u 32 x → swap_u32 (swap_u32 x) = x.
Proof.
  intros Hx. apply digits_inj; [apply swap_u32_range|done|].
  rewrite swap_u32_digits. rewrite <- (rev_involutive (digits LE 4 (swap_u32 x))).
  rewrite <- digits_BE_LE, swap_u32_digits. done.
Qed.

Lemma swap_s32_twice x : in_s 32 x → swap_s32 (swap_s32 x) = x.
Proof.
  intros Hx. unfold swap_s32. rewrite wrapu_wraps, (wrapu_id 32) by apply swap_u32_range.
  rewrite swap_u32_twice by (apply wrapu_range; lia). rewrite wraps_wrapu. by apply wraps_id.
Qed.

Lemma digits_BE_8 h l : in_u 32 h → in_u 32 l →
  digits BE 8 (Z.lor (u64 (Z.shiftl h 32)) l) = digits BE 4 h ++ digits BE 4 l.
Proof.
  intros Hh Hl. unfold in_u in *.
  replace (u64 (Z.shiftl h 32)) with (h * 2 ^ 32) by
    (rewrite Z.shiftl_mul_pow2 by lia; symmetry; apply wrapu_id; unfold in_u; lia).
  rewrite (lor_add 32 h) by (done || lia).
  cbn [digits]. rewrite (le_bytes_add 4 4), rev_app_distr. f_equal; f_equal.
  - replace ((h * 2 ^ 32 + l) / 256 ^ Z.of_nat 4) with h; [done|].
    change (256 ^ Z.of_nat 4) with (2 ^ 32). rewrite Z.div_add_l, Z.div_small by lia. lia.
  - rewrite <- (le_bytes_mod 4 (_ + _)). f_equal. change (256 ^ Z.of_nat 4) with (2 ^ 32).
    rewrite Z.add_comm, Z.mod_add, Z.mod_small by lia. done.
Qed.

Lemma swap_loff_t_digits x : digits BE 8 (u64 (swap_loff_t x)) = digits LE 8 (u64 x).
Proof.
  unfold swap_loff_t. rewrite wrapu_wraps, wrapu_id.
  2: { apply in_u_lor; [lia|apply wrapu_range; lia|].
       pose proof (swap_u32_range (u32 (Z.land (Z.shiftr x 32) 0xffffffff))). unfold in_u in *. lia. }
  rewrite digits_BE_8, !swap_u32_digits by apply swap_u32_range.
  cbn [digits]. rewrite (le_bytes_add 4 4). change 0xffffffff with (Z.ones 32).
  rewrite <- !wrapu_ones, !wrapu_wrapu by lia.
  assert (∀ y, le_bytes 4 (u32 y) = le_bytes 4 y) as Hm by (intros; apply (le_bytes_mod 4)).
  rewrite !Hm. f_equal.
  - rewrite <- (Hm (u64 x)), <- (Hm x). f_equal. bitwise.
  - change (256 ^ Z.of_nat 4) with (2 ^ 32). rewrite <- Z.shiftr_div_pow2 by lia.
    rewrite <- (Hm (Z.shiftr (u64 x) 32)), <- (Hm (Z.shiftr x 32)). f_equal. bitwise.
Qed.

Ltac unswap :=
  repeat match goal with
  | H : in_u 32 ?x |- context [swap_u32 (swap_u32 ?x)] => rewrite (swap_u32_twice x H)
  | H : in_s 32 ?x |- context [swap_s32 (swap_s32 ?x)] => rewrite (swap_s32_twice x H)
  end.

(** The header as the flash keeps it: words of 32 bits. *)
Record obj_hdr_wf (oh : yaffs_obj_hdr) : Prop := {
  ohw_words : Forall (in_u 32)
    [oh_type oh; parent_obj_id oh; yst_mode oh; yst_uid oh; yst_gid oh; yst_atime oh;
     yst_mtime oh; yst_ctime oh; file_size_low oh; yst_rdev oh; (win_ctime oh).1;
     (win_ctime oh).2; (win_atime oh).1; (win_atime oh).2; (win_mtime oh).1; (win_mtime oh).2;
     inband_shadowed_obj_id oh; inband_is_shrink oh; file_size_high oh; reserved oh;
     is_shrink oh];
  ohw_ints : Forall (in_s 32) [equiv_id oh; shadows_obj oh]
}.

(** Byte order of the flash: [swap_u32] writes the bytes of its word in the
    opposite order, [swap_loff_t] the two swapped halves; the conversions of words,
    of an object header and of packed tags are involutions (what is written in the
    flash's order is read back as it was), and the header's name, alias and
    checksum are not touched. *)
Theorem yaffs_endian_involutive b :
  (∀ x, digits BE 4 (swap_u32 x) = digits LE 4 x) ∧
  (∀ x, digits BE 8 (u64 (swap_loff_t x)) = digits LE 8 (u64 x)) ∧
  (∀ x, in_u 32 x → yaffs_do_endian_u32 b (yaffs_do_endian_u32 b x) = x) ∧
  (∀ x, in_s 32 x → yaffs_do_endian_s32 b (yaffs_do_endian_s32 b x) = x) ∧
  (∀ oh, obj_hdr_wf oh →
     let oh' := yaffs_do_endian_oh b oh in
     yaffs_do_endian_oh b oh' = oh ∧ oh_name oh' = oh_name oh ∧ oh_alias oh' = oh_alias oh ∧
     sum_no_longer_used oh' = sum_no_longer_used oh) ∧
  (∀ p, Forall (in_u 32) [pt_seq_number p; pt_obj_id p; pt_chunk_id p; pt_n_bytes p] →
     yaffs_do_endian_packed_tags2 b (yaffs_do_endian_packed_tags2 b p) = p).
Proof.
  split; [apply swap_u32_digits|]. split; [apply swap_loff_t_digits|].
  split; [intros x Hx; destruct b; [by apply swap_u32_twice|done]|].
  split; [intros x Hx; destruct b; [by apply swap_s32_twice|done]|].
  split.
  - intros oh [Hw Hi]. destruct b; [|done]. split; [|done]. destruct oh.
    destruct win_ctime0, win_atime0, win_mtime0. cbn in Hw, Hi.
    decompose_Forall_hyps. cbn. unfold swap_pair. cbn.
    unswap. reflexivity.
  - intros p Hp. destruct b; [|done]. destruct p. cbn in *. decompose_Forall_hyps.
    unswap. reflexivity.
Qed.

(** A header of a directory, written by a machine of the other byte order. *)
Definition sample_obj_hdr : yaffs_obj_hdr :=
  mk_obj_hdr 3 1 0xffff [100; 105; 114; 0] 16877 7 8 0x5f5e100 0x5f5e101 0x5f5e102 0 (-1) [] 0
    (1, 2) (3, 4) (5, 6) 0 0 0 0xffffffff (-2) 1.

Example yaffs_endian_involutive_witness :
  yaffs_do_endian_oh true (yaffs_do_endian_oh true sample_obj_hdr) = sample_obj_hdr ∧
  yst_atime (yaffs_do_endian_oh true sample_obj_hdr) = 0x00e1f505.
Proof.
  destruct (yaffs_endian_involutive true) as (_ & _ & _ & _ & H & _).
  destruct (H sample_obj_hdr) as [E _]; [|split; [exact E|vm_compute; reflexivity]].
  split; repeat (apply List.Forall_cons; [split; vm_compute; first [discriminate|reflexivity]|]);
    apply List.Forall_nil.
Defined.

(** ** The images of structures as bytes *)

Lemma number_digits_32 x : in_u 32 x → number BE (digits BE 4 x) = x.
Proof. intros H. by apply number_digits. Qed.

Lemma ptt_bytes_eq a b c d :
  ptt_bytes (mk_ptt a b c d) = digits BE 4 a ++ digits BE 4 b ++ digits BE 4 c ++ digits BE 4 d.
Proof. unfold ptt_bytes. cbn [mbind list_bind pt_seq_number pt_obj_id pt_chunk_id pt_n_bytes].
  by rewrite app_nil_r. Qed.

Definition ptt_wf (p : yaffs_packed_tags2_tags_only) : Prop :=
  in_u 32 (pt_seq_number p) ∧ in_u 32 (pt_obj_id p) ∧ in_u 32 (pt_chunk_id p) ∧
  in_u 32 (pt_n_bytes p).

Lemma ptt_of_bytes_bytes p : ptt_wf p → ptt_of_bytes (ptt_bytes p) = p.
Proof.
  destruct p as [a b c d]. intros (Ha & Hb & Hc & Hd). cbn in Ha, Hb, Hc, Hd.
  transitivity (mk_ptt (number BE (digits BE 4 a)) (number BE (digits BE 4 b))
                  (number BE (digits BE 4 c)) (number BE (digits BE 4 d))); [reflexivity|].
  by rewrite !number_digits_32.
Qed.

Lemma ptt_bytes_of_bytes l :
  Forall (in_u 8) l → length l = ptt_size → ptt_bytes (ptt_of_bytes l) = l.
Proof.
  intros Hl Hlen. do 16 (destruct l as [|? l]; [done|]). destruct l; [|done].
  decompose_Forall_hyps. unfold ptt_of_bytes. rewrite ptt_bytes_eq. cbn [Nat.mul Nat.add drop take].
  assert (∀ a b c d, in_u 8 a → in_u 8 b → in_u 8 c → in_u 8 d →
    digits BE 4 (number BE [a; b; c; d]) = [a; b; c; d]) as Hd.
  { intros. apply (digits_number BE [a; b; c; d]). by repeat (apply List.Forall_cons; [done|]). }
  by rewrite !Hd.
Qed.

Lemma ptt_bytes_length p : length (ptt_bytes p) = ptt_size.
Proof. destruct p. rewrite ptt_bytes_eq, !length_app, !digits_length. done. Qed.

Lemma ptt_bytes_u8 p : Forall (in_u 8) (ptt_bytes p).
Proof. destruct p. rewrite ptt_bytes_eq, !Forall_app. repeat split; apply digits_u8. Qed.

(** ** Packed tags of yaffs1 *)

Lemma testbit_mod_256 x : Z.testbit (x mod 256) 0 = Z.testbit x 0.
Proof. change 256 with (2 ^ 8). by rewrite Z.testbit_mod_pow2. Qed.

(** The last byte of a word of ones is odd, and [unused_stuff] is its lowest bit. *)
Lemma pack_tags1_not_ff t : pt1_bytes (yaffs_pack_tags1 t) ≠ all_ff.
Proof.
  intros H. unfold pt1_bytes, pt1_words in H. cbn [mbind list_bind] in H.
  apply (f_equal (λ l, nth 7 l 0)) in H.
  rewrite app_nth2, app_nth1 in H by (rewrite !digits_length; lia).
  rewrite digits_length in H. change (nth 7 all_ff 0) with 255 in H.
  change (nth (7 - 4) (digits BE 4 ?x) 0) with (x mod 256) in H.
  apply (f_equal (λ x, Z.testbit x 0)) in H. rewrite testbit_mod_256 in H.
  cbn [yaffs_pack_tags1 pt1_obj_id pt1_ecc pt1_deleted pt1_unused_stuff] in H.
  change (Z.testbit 255 0) with true in H. rewrite !Z.lor_spec, !Z.shiftl_spec_low in H by lia.
  done.
Qed.

(** The packed tags of yaffs1 are a codec: what [yaffs_unpack_tags1] yields of the
    packed tags is a used, good chunk with the chunk, object and byte counts that
    fit their bit-fields, the deletion mark and the serial number. A record of
    ones, an erased page, unpacks to no tags at all. *)
Theorem packed_tags1_roundtrip t0 t :
  in_u 20 (chunk_id t) → in_u 18 (obj_id t) → in_u 10 (n_bytes t) → in_u 2 (serial_number t) →
  is_deleted t = 0 ∨ is_deleted t = 1 →
  yaffs_unpack_tags1 t0 (yaffs_pack_tags1 t) =
    mk_ext_tags 1 (obj_id t) (chunk_id t) (n_bytes t) YAFFS_ECC_RESULT_NO_ERROR 0 (is_deleted t)
      (serial_number t) (seq_number t0) (extra_available t0) (extra_parent_id t0)
      (extra_is_shrink t0) (extra_shadows t0) (extra_obj_type t0) (extra_file_size t0)
      (extra_equiv_id t0) ∧
  yaffs_unpack_tags1 t0 (mk_pt1 (2 ^ 20 - 1) 3 1023 (2 ^ 18 - 1) 4095 1 1 0xffffffff)
  = ext_tags_zero.
Proof.
  intros Hc Ho Hn Hs Hd. split; [|reflexivity]. unfold yaffs_unpack_tags1.
  rewrite bool_decide_false by apply pack_tags1_not_ff.
  cbn [yaffs_pack_tags1 pt1_obj_id pt1_chunk_id pt1_n_bytes pt1_deleted pt1_serial_number
       should_be_ff]. rewrite !wrapu_id by done. by destruct Hd as [-> | ->].
Qed.

Definition sample_tags : yaffs_ext_tags :=
  mk_ext_tags 1 257 42 512 YAFFS_ECC_RESULT_UNKNOWN 0 1 2 0 0 0 0 0 0 0 0.

Example packed_tags1_roundtrip_witness :
  obj_id (yaffs_unpack_tags1 ext_tags_zero (yaffs_pack_tags1 sample_tags)) = 257 ∧
  is_deleted (yaffs_unpack_tags1 ext_tags_zero (yaffs_pack_tags1 sample_tags)) = 1.
Proof.
  destruct (packed_tags1_roundtrip ext_tags_zero sample_tags) as [-> _];
    [unfold in_u; cbn; lia..|right; reflexivity|split; reflexivity].
Defined.

(** ** Packed tags of yaffs2 *)

(** The tags that a record can hold: words, with the flag bits of the chunk and
    object numbers free. *)
Record tags2_ok (t : yaffs_ext_tags) : Prop := {
  t2_seq : in_u 32 (seq_number t) ∧ seq_number t ≠ 0xffffffff;
  t2_obj : in_u 28 (obj_id t);
  t2_chunk : in_u 31 (chunk_id t);
  t2_bytes : in_u 32 (n_bytes t);
  t2_parent : in_u 28 (extra_parent_id t);
  t2_type : in_u 4 (extra_obj_type t);
  t2_size : 0 ≤ extra_file_size t;
  t2_equiv : in_u 32 (extra_equiv_id t)
}.

(** What is read back, with [r] for the result of the check: the extra fields
    replace the chunk and byte counts of a packable header chunk. *)
Definition tags2_stored (r : yaffs_ecc_result) (t : yaffs_ext_tags) : yaffs_ext_tags :=
  if yaffs_check_tags_extra_packable t then
    mk_ext_tags 1 (obj_id t) 0 0 r 0 0 0 (seq_number t) 1 (extra_parent_id t)
      (if extra_is_shrink t =? 0 then 0 else 1) (if extra_shadows t =? 0 then 0 else 1)
      (extra_obj_type t)
      (if extra_obj_type t =? YAFFS_OBJECT_TYPE_FILE then extra_file_size t else 0)
      (if extra_obj_type t =? YAFFS_OBJECT_TYPE_HARDLINK then extra_equiv_id t else 0)
  else
    mk_ext_tags 1 (obj_id t) (chunk_id t) (n_bytes t) r 0 0 0 (seq_number t) 0 0 0 0 0 0 0.

(** The chunk word of a packable header: the flags above the parent's number. *)
Definition extra_word (parent shrink shadows : Z) : Z :=
  let c := Z.lor EXTRA_HEADER_INFO_FLAG parent in
  let c := if shrink =? 0 then c else Z.lor c EXTRA_SHRINK_FLAG in
  if shadows =? 0 then c else Z.lor c EXTRA_SHADOWS_FLAG.

Lemma extra_word_bit p s d i : 0 ≤ i → in_u 28 p →
  Z.testbit (extra_word p s d) i =
  (if i <? 28 then Z.testbit p i
   else (i =? 31) || (i =? 30) && negb (s =? 0) || (i =? 29) && negb (d =? 0)).
Proof.
  intros Hi Hp. unfold extra_word, EXTRA_HEADER_INFO_FLAG, EXTRA_SHRINK_FLAG, EXTRA_SHADOWS_FLAG.
  change 0x80000000 with (2 ^ 31). change 0x40000000 with (2 ^ 30). change 0x20000000 with (2 ^ 29).
  destruct (s =? 0), (d =? 0); rewrite ?Z.lor_spec, !Z.pow2_bits_eqb by lia;
    rewrite ?(Z.eqb_sym 31), ?(Z.eqb_sym 30), ?(Z.eqb_sym 29);
    (destruct (Z.ltb_spec i 28);
      [|rewrite (in_u_high 28 p) by (done || lia)]);
    destruct (Z.eqb_spec i 31), (Z.eqb_spec i 30), (Z.eqb_spec i 29); try lia;
    by destruct (Z.testbit p i).
Qed.

Lemma extra_word_range p s d : in_u 28 p → in_u 32 (extra_word p s d).
Proof.
  intros Hp. apply in_u_bits; [lia| |].
  - unfold in_u in Hp. unfold extra_word, EXTRA_HEADER_INFO_FLAG, EXTRA_SHRINK_FLAG, EXTRA_SHADOWS_FLAG.
    destruct (s =? 0), (d =? 0); rewrite ?Z.lor_nonneg; lia.
  - intros i Hi. rewrite extra_word_bit by (done || lia).
    destruct (Z.ltb_spec i 28), (Z.eqb_spec i 31), (Z.eqb_spec i 30), (Z.eqb_spec i 29); lia || done.
Qed.

Lemma extra_word_fields p s d : in_u 28 p →
  let c := extra_word p s d in
  (Z.land c EXTRA_HEADER_INFO_FLAG =? 0) = false ∧
  (Z.land c EXTRA_SHRINK_FLAG =? 0) = (s =? 0) ∧ (Z.land c EXTRA_SHADOWS_FLAG =? 0) = (d =? 0) ∧
  Z.land c (notu 32 ALL_EXTRA_FLAGS) = p.
Proof.
  intros Hp c. subst c. unfold EXTRA_HEADER_INFO_FLAG, EXTRA_SHRINK_FLAG, EXTRA_SHADOWS_FLAG.
  change 0x80000000 with (2 ^ 31). change 0x40000000 with (2 ^ 30). change 0x20000000 with (2 ^ 29).
  rewrite !land_pow2_eqb, !extra_word_bit by (done || lia).
  split; [done|]. split; [by destruct (s =? 0)|]. split; [by destruct (d =? 0)|].
  change (notu 32 ALL_EXTRA_FLAGS) with (Z.ones 28).
  apply Z.bits_inj'. intros i Hi.
  rewrite Z.land_spec, extra_word_bit, Z.testbit_ones_nonneg by (done || lia).
  destruct (Z.ltb_spec i 28); [by rewrite andb_true_r|].
  by rewrite (in_u_high 28 p), andb_false_r by (done || lia).
Qed.

(** The object word: the type above the object's number. *)
Lemma type_word o ty : in_u 28 o → in_u 4 ty →
  let w := Z.lor (Z.land o (notu 32 EXTRA_OBJECT_TYPE_MASK))
             (u32 (Z.shiftl ty EXTRA_OBJECT_TYPE_SHIFT)) in
  in_u 32 w ∧ Z.shiftr w EXTRA_OBJECT_TYPE_SHIFT = ty ∧
  Z.land w (notu 32 EXTRA_OBJECT_TYPE_MASK) = o.
Proof.
  intros Ho Hty. cbv zeta. unfold EXTRA_OBJECT_TYPE_SHIFT.
  change (notu 32 EXTRA_OBJECT_TYPE_MASK) with (Z.ones 28).
  rewrite <- wrapu_ones, (wrapu_id 28) by (done || lia).
  split; [apply in_u_lor; [lia| |apply wrapu_range; lia]; unfold in_u in *; lia|].
  assert (∀ i, 28 ≤ i → Z.testbit o i = false) as Hoh by (intros; apply (in_u_high 28); done || lia).
  assert (∀ i, 4 ≤ i → Z.testbit ty i = false) as Hth by (intros; apply (in_u_high 4); done || lia).
  split; apply Z.bits_inj'; intros i Hi.
  - rewrite Z.shiftr_spec, Z.lor_spec, Hoh, wrapu_spec, Z.shiftl_spec by lia.
    replace (i + 28 - 28) with i by lia. destruct (Z.ltb_spec (i + 28) 32); [done|].
    cbn. by rewrite Hth by lia.
  - rewrite Z.land_spec, Z.lor_spec, wrapu_spec, Z.shiftl_spec, Z.testbit_ones_nonneg by lia.
    destruct (Z.ltb_spec i 28).
    + rewrite (Z.testbit_neg_r ty) by lia. by rewrite andb_false_r, orb_false_r, andb_true_r.
    + by rewrite andb_false_r, Hoh by lia.
Qed.

Lemma endian_ptt_twice b p :
  ptt_wf p → yaffs_do_endian_packed_tags2 b (yaffs_do_endian_packed_tags2 b p) = p.
Proof.
  destruct p as [p1 p2 p3 p4]. intros (H1 & H2 & H3 & H4).
  cbn [pt_seq_number pt_obj_id pt_chunk_id pt_n_bytes] in *. destruct b; [|done].
  cbn [yaffs_do_endian_packed_tags2 pt_seq_number pt_obj_id pt_chunk_id pt_n_bytes].
  by unswap.
Qed.

Lemma endian_ptt_wf b p : ptt_wf p → ptt_wf (yaffs_do_endian_packed_tags2 b p).
Proof.
  intros H. destruct b; [|done]. repeat split; apply swap_u32_range.
Qed.

Lemma swap_u32_ones x : in_u 32 x → x ≠ 0xffffffff → swap_u32 x ≠ 0xffffffff.
Proof.
  intros Hx Hne H. apply Hne. rewrite <- (swap_u32_twice x Hx), H. reflexivity.
Qed.

Section tags2.
Variables (b : bool) (t : yaffs_ext_tags).
Hypothesis Ht : tags2_ok t.
#[local] Set Default Proof Using "Type*".

(** The record before the bytes are put in the order of the flash. *)
Definition tags2_plain : yaffs_packed_tags2_tags_only := yaffs_pack_tags2_tags_only false t.

Lemma pack_endian :
  yaffs_pack_tags2_tags_only b t = yaffs_do_endian_packed_tags2 b tags2_plain.
Proof. done. Qed.

Lemma tags2_plain_eq :
  tags2_plain =
  if yaffs_check_tags_extra_packable t then
    mk_ptt (seq_number t)
      (Z.lor (Z.land (obj_id t) (notu 32 EXTRA_OBJECT_TYPE_MASK))
         (u32 (Z.shiftl (extra_obj_type t) EXTRA_OBJECT_TYPE_SHIFT)))
      (extra_word (extra_parent_id t) (extra_is_shrink t) (extra_shadows t))
      (if extra_obj_type t =? YAFFS_OBJECT_TYPE_HARDLINK then extra_equiv_id t
       else if extra_obj_type t =? YAFFS_OBJECT_TYPE_FILE then u32 (extra_file_size t) else 0)
  else mk_ptt (seq_number t) (obj_id t) (chunk_id t) (n_bytes t).
Proof. unfold tags2_plain, yaffs_pack_tags2_tags_only. by destruct (yaffs_check_tags_extra_packable t). Qed.

Lemma tags2_plain_wf : ptt_wf tags2_plain.
Proof.
  destruct Ht as [[Hs _] Ho Hc Hn Hp Hty Hf He]. rewrite tags2_plain_eq.
  assert (∀ w x, in_u w x → 0 ≤ w ≤ 32 → in_u 32 x) as Hw.
  { intros w x [? Hx] ?. split; [done|]. eapply Z.lt_le_trans; [exact Hx|].
    apply Z.pow_le_mono_r; lia. }
  destruct (yaffs_check_tags_extra_packable t); (split; [done|]);
    cbn [pt_obj_id pt_chunk_id pt_n_bytes].
  - split; [by apply type_word|]. split; [by apply extra_word_range|].
    destruct (_ =? _); [done|]. destruct (_ =? _); [apply wrapu_range; lia|unfold in_u; lia].
  - split; [by apply (Hw 28)|]. split; [by apply (Hw 31)|done].
Qed.

Lemma pack_tags2_wf : ptt_wf (yaffs_pack_tags2_tags_only b t).
Proof. rewrite pack_endian. apply endian_ptt_wf, tags2_plain_wf. Qed.

Lemma pack_tags2_seq : (pt_seq_number (yaffs_pack_tags2_tags_only b t) =? 0xffffffff) = false.
Proof.
  destruct Ht as [[Hs Hne] _ _ _ _ _ _ _]. apply Z.eqb_neq. rewrite pack_endian.
  assert (pt_seq_number tags2_plain = seq_number t) as Hq.
  { rewrite tags2_plain_eq. by destruct (yaffs_check_tags_extra_packable t). }
  destruct b; cbn [yaffs_do_endian_packed_tags2 pt_seq_number]; rewrite Hq;
    [by apply swap_u32_ones|done].
Qed.

Lemma unpack_pack_only :
  yaffs_unpack_tags2_tags_only b (yaffs_pack_tags2_tags_only b t)
  = tags2_stored YAFFS_ECC_RESULT_UNKNOWN t.
Proof.
  unfold yaffs_unpack_tags2_tags_only. rewrite pack_tags2_seq, pack_endian.
  rewrite endian_ptt_twice by apply tags2_plain_wf. cbv zeta. rewrite tags2_plain_eq.
  destruct Ht as [_ Ho Hc _ Hp Hty Hf _]. unfold tags2_stored.
  destruct (yaffs_check_tags_extra_packable t) eqn:Hpack;
    cbn [pt_seq_number pt_obj_id pt_chunk_id pt_n_bytes].
  - destruct (extra_word_fields (extra_parent_id t) (extra_is_shrink t) (extra_shadows t) Hp)
      as (-> & -> & -> & ->).
    destruct (type_word (obj_id t) (extra_obj_type t) Ho Hty) as (_ & -> & ->).
    destruct (Z.eqb_spec (extra_obj_type t) YAFFS_OBJECT_TYPE_HARDLINK) as [E|E];
      [rewrite E; done|].
    destruct (Z.eqb_spec (extra_obj_type t) YAFFS_OBJECT_TYPE_FILE) as [E'|E']; [|done].
    assert (u32 (extra_file_size t) = extra_file_size t) as ->; [|done].
    apply wrapu_id. unfold yaffs_check_tags_extra_packable in Hpack.
    destruct (_ || _); [done|]. rewrite E', Z.eqb_refl in Hpack. cbn [andb] in Hpack.
    destruct (Z.eqb_spec (Z.shiftr (extra_file_size t) 31) 0) as [E2|]; [|done].
    rewrite Z.shiftr_div_pow2 in E2 by lia. unfold in_u. apply Z.div_small_iff in E2; lia.
  - unfold EXTRA_HEADER_INFO_FLAG. change 0x80000000 with (2 ^ 31).
    by rewrite land_pow2_eqb, (in_u_high 31) by (done || lia).
Qed.
End tags2.

(** The code of a record that is untouched, or has one flipped bit. *)
Lemma ecc_other_repairs data n e :
  Forall (in_u 8) data → (n ≤ length data)%nat → Z.of_nat n ≤ 2 ^ 32 →
  yaffs_ecc_calc_other data n = Some e →
  yaffs_ecc_correct_other data n e e = Some (0, data, e) ∧
  ∀ j k, (j < n)%nat → 0 ≤ k < 8 →
    ∃ e', yaffs_ecc_calc_other (flip data j k) n = Some e' ∧
          yaffs_ecc_correct_other (flip data j k) n e e' = Some (1, data, e).
Proof.
  intros Hd Hn Hmax He.
  destruct (parity_loop_total 32 ltac:(lia) n 0 data (Parity 0 0 0) Hn) as (p & Hp).
  rewrite (ecc_other_calc n p data Hp) in He. injection He as <-. split.
  { unfold yaffs_ecc_correct_other. by rewrite !Z.lxor_nilpotent. }
  intros j k Hj Hk. eexists. split.
  - by apply ecc_other_calc, (ecc_other_flip data n p Hd Hn Hmax Hp j k).
  - by apply ecc_other_single.
Qed.

(** A record that is packed and unpacked, with or without its code. *)
Lemma pack_unpack_tags2 b (tags_ecc : bool) pt0 t :
  tags2_ok t → in_u 32 (line_parity (pt_ecc pt0)) → in_u 32 (line_parity_prime (pt_ecc pt0)) →
  ∃ pt, yaffs_pack_tags2 b pt0 t tags_ecc = Some pt ∧
    yaffs_unpack_tags2 b pt tags_ecc = Some (tags2_stored YAFFS_ECC_RESULT_NO_ERROR t, pt) ∧
    ptt_wf (pt_t pt) ∧ in_u 32 (line_parity (pt_ecc pt)) ∧ in_u 32 (line_parity_prime (pt_ecc pt)).
Proof.
  intros Ht Hl0 Hp0. set (p := yaffs_pack_tags2_tags_only b t).
  pose proof (pack_tags2_wf b t Ht) as Hwf. pose proof (pack_tags2_seq b t Ht) as Hseq.
  pose proof (unpack_pack_only b t Ht) as Hun. fold p in Hwf, Hseq, Hun.
  pose proof (ptt_bytes_u8 p) as Hu8. pose proof (ptt_bytes_length p) as Hlen.
  assert (set_ecc_result YAFFS_ECC_RESULT_NO_ERROR (tags2_stored YAFFS_ECC_RESULT_UNKNOWN t)
          = tags2_stored YAFFS_ECC_RESULT_NO_ERROR t) as Hset.
  { unfold tags2_stored. by destruct (yaffs_check_tags_extra_packable t). }
  unfold yaffs_pack_tags2, yaffs_unpack_tags2. cbv zeta. fold p. destruct tags_ecc.
  - destruct (parity_loop_total 32 ltac:(lia) ptt_size 0 (ptt_bytes p) (Parity 0 0 0) ltac:(lia)) as (q & Hq).
    pose proof (ecc_other_calc _ _ _ Hq) as He.
    destruct (ecc_other_repairs (ptt_bytes p) ptt_size _ Hu8 ltac:(lia) ltac:(done) He) as [Hsame _].
    destruct (parity_loop_wf 32 ltac:(lia) ptt_size 0 (ptt_bytes p) (Parity 0 0 0) q Hu8 ltac:(unfold parity_wf, in_u; cbn; lia) Hq) as (_ & Hl & Hp).
    rewrite He. cbn [mbind option_bind]. eexists. split; [done|]. cbn [pt_t pt_ecc]. rewrite Hseq. cbn [negb andb].
    rewrite He. cbn [mbind option_bind]. rewrite Hsame. cbn [mbind option_bind pt_t]. rewrite ptt_of_bytes_bytes by done.
    cbn [pt_t Z.eqb]. by rewrite Hun, Hset.
  - eexists. split; [done|]. cbn [pt_t pt_ecc]. rewrite andb_false_r, Hun, Hset. done.
Qed.

(** C17. The packed tags of yaffs2 survive the flash. Whatever the byte order, tags
    that fit their fields are packed with a code; unpacking the record yields them
    back, with the fields of a header chunk in its extra form (parent, type, size
    or equivalent object, flags) and a result of no error. With any one bit of the
    record flipped, unpacking repairs the record and yields the same tags, marked
    as fixed, unless the flip makes the sequence number that of an erased page. *)
Theorem packed_tags2_roundtrip b pt0 t :
  tags2_ok t →
  ∃ pt, yaffs_pack_tags2 b pt0 t true = Some pt ∧
    yaffs_unpack_tags2 b pt true = Some (tags2_stored YAFFS_ECC_RESULT_NO_ERROR t, pt) ∧
    (∀ j k, (j < ptt_size)%nat → 0 ≤ k < 8 →
       let pt' := mk_pt2 (ptt_of_bytes (flip (ptt_bytes (pt_t pt)) j k)) (pt_ecc pt) in
       pt_seq_number (pt_t pt') ≠ 0xffffffff →
       yaffs_unpack_tags2 b pt' true = Some (tags2_stored YAFFS_ECC_RESULT_FIXED t, pt)) ∧
    (∃ pt1, yaffs_pack_tags2 b pt0 t false = Some pt1 ∧
       yaffs_unpack_tags2 b pt1 false = Some (tags2_stored YAFFS_ECC_RESULT_NO_ERROR t, pt1)).
Proof.
  intros Ht. set (p := yaffs_pack_tags2_tags_only b t).
  pose proof (pack_tags2_wf b t Ht) as Hwf. pose proof (pack_tags2_seq b t Ht) as Hseq.
  pose proof (unpack_pack_only b t Ht) as Hun. fold p in Hwf, Hseq, Hun.
  pose proof (ptt_bytes_u8 p) as Hu8. pose proof (ptt_bytes_length p) as Hlen.
  assert (∃ e, yaffs_ecc_calc_other (ptt_bytes p) ptt_size = Some e) as [e He].
  { destruct (parity_loop_total 32 ltac:(lia) ptt_size 0 (ptt_bytes p) (Parity 0 0 0) ltac:(lia))
      as (q & Hq). eexists. by apply ecc_other_calc. }
  destruct (ecc_other_repairs (ptt_bytes p) ptt_size e Hu8 ltac:(lia) ltac:(done) He)
    as [Hsame Hflip].
  assert (∀ r, set_ecc_result r (tags2_stored YAFFS_ECC_RESULT_UNKNOWN t) = tags2_stored r t) as Hset.
  { intros r. unfold tags2_stored. by destruct (yaffs_check_tags_extra_packable t). }
  exists (mk_pt2 p e). split; [|split; [|split]].
  - unfold yaffs_pack_tags2. cbv zeta. fold p. by rewrite He.
  - unfold yaffs_unpack_tags2. cbn [pt_t pt_ecc]. rewrite Hseq. cbn [negb andb].
    rewrite He. cbn [mbind option_bind]. rewrite Hsame.
    cbn [mbind option_bind pt_t]. rewrite ptt_of_bytes_bytes by done. cbn [pt_t].
    by rewrite Hun, Hset.
  - intros j k Hj Hk pt' Hne. destruct (Hflip j k Hj Hk) as (e' & He' & Hfix).
    unfold yaffs_unpack_tags2. rewrite (proj2 (Z.eqb_neq _ _) Hne).
    cbn [negb andb pt_t pt' pt_ecc].
    assert (ptt_bytes (ptt_of_bytes (flip (ptt_bytes p) j k)) = flip (ptt_bytes p) j k) as ->.
    { apply ptt_bytes_of_bytes; [by apply flip_u8|]. by rewrite flip_length. }
    rewrite He'. cbn [mbind option_bind]. rewrite Hfix. cbn [mbind option_bind pt_t].
    rewrite ptt_of_bytes_bytes by done. cbn [pt_t]. by rewrite Hun, Hset.
  - eexists. split; [reflexivity|]. unfold yaffs_unpack_tags2. cbn [pt_t].
    rewrite andb_false_r. cbv zeta. fold p. by rewrite Hun, Hset.
Qed.

Definition sample_header : yaffs_ext_tags :=
  mk_ext_tags 1 300 0 0 YAFFS_ECC_RESULT_UNKNOWN 0 0 0 0x1001 1 17 0 1 YAFFS_OBJECT_TYPE_FILE 5000 0.

Example packed_tags2_roundtrip_witness :
  ∃ pt t', yaffs_pack_tags2 true (mk_pt2 (mk_ptt 0 0 0 0) (mk_ecc_other 0 0 0)) sample_header true
    = Some pt ∧
    yaffs_unpack_tags2 true (mk_pt2 (ptt_of_bytes (flip (ptt_bytes (pt_t pt)) 9 3)) (pt_ecc pt)) true
    = Some (t', pt) ∧
    ecc_result t' = YAFFS_ECC_RESULT_FIXED ∧ extra_file_size t' = 5000 ∧ extra_parent_id t' = 17.
Proof.
  destruct (packed_tags2_roundtrip true (mk_pt2 (mk_ptt 0 0 0 0) (mk_ecc_other 0 0 0)) sample_header)
    as (pt & Hpack & _ & Hflip & _).
  { split; repeat split; vm_compute; first [discriminate | reflexivity]. }
  exists pt. eexists. split; [exact Hpack|]. split.
  - apply (Hflip 9%nat 3); [unfold ptt_size; lia|lia|].
    vm_compute in Hpack. injection Hpack as <-. vm_compute. discriminate.
  - repeat split.
Defined.

(** ** The code of the yaffs1 tags *)

Definition tags_wf (t : yaffs_tags) : Prop :=
  in_u 20 (tg_chunk_id t) ∧ in_u 2 (tg_serial_number t) ∧ in_u 10 (tg_n_bytes_lsb t) ∧
  in_u 18 (tg_obj_id t) ∧ in_u 12 (tg_ecc t) ∧ in_u 2 (tg_n_bytes_msb t).

(** The two words as packings of their bit-fields. *)
Definition word3 (s1 s2 a b c : Z) : Z := Z.lor (Z.lor (Z.shiftl a s1) (Z.shiftl b s2)) c.

Lemma word3_bit s1 s2 a b c i :
  0 ≤ s2 ≤ s1 → in_u (s1 - s2) b → in_u s2 c → 0 ≤ i →
  Z.testbit (word3 s1 s2 a b c) i =
  if i <? s2 then Z.testbit c i else if i <? s1 then Z.testbit b (i - s2) else Z.testbit a (i - s1).
Proof.
  intros Hs Hb Hc Hi. unfold word3. rewrite !Z.lor_spec, !Z.shiftl_spec by lia.
  destruct (Z.ltb_spec i s2); [|destruct (Z.ltb_spec i s1)].
  - by rewrite (Z.testbit_neg_r a), (Z.testbit_neg_r b) by lia.
  - rewrite (Z.testbit_neg_r a), (in_u_high s2 c) by (done || lia). by rewrite orb_false_r.
  - rewrite (in_u_high (s1 - s2) b), (in_u_high s2 c) by (done || lia). by rewrite !orb_false_r.
Qed.

Lemma word3_fields s1 s2 a b c :
  0 ≤ s2 ≤ s1 → in_u (s1 - s2) b → in_u s2 c →
  Z.shiftr (word3 s1 s2 a b c) s1 = a ∧ wrapu (s1 - s2) (Z.shiftr (word3 s1 s2 a b c) s2) = b ∧
  wrapu s2 (word3 s1 s2 a b c) = c.
Proof.
  intros Hs Hb Hc.
  split; [|split]; apply Z.bits_inj'; intros i Hi; rewrite ?wrapu_spec, ?Z.shiftr_spec by lia;
    rewrite word3_bit by (done || lia).
  - destruct (Z.ltb_spec (i + s1) s2), (Z.ltb_spec (i + s1) s1); try lia. f_equal. lia.
  - destruct (Z.ltb_spec i (s1 - s2)).
    + destruct (Z.ltb_spec (i + s2) s2), (Z.ltb_spec (i + s2) s1); try lia. cbn. f_equal. lia.
    + symmetry. by apply (in_u_high (s1 - s2)); [|lia].
  - destruct (Z.ltb_spec i s2); [done|]. symmetry. by apply (in_u_high s2); [|lia].
Qed.

Lemma word3_range w s1 s2 a b c :
  0 ≤ s2 ≤ s1 → s1 ≤ w → in_u (w - s1) a → in_u (s1 - s2) b → in_u s2 c →
  in_u w (word3 s1 s2 a b c).
Proof.
  intros Hs Hw Ha Hb Hc. apply in_u_bits; [lia| |].
  - unfold word3. rewrite !Z.lor_nonneg, !Z.shiftl_nonneg. unfold in_u in *. lia.
  - intros i Hi. rewrite word3_bit by (done || lia).
    destruct (Z.ltb_spec i s2), (Z.ltb_spec i s1); try lia. apply (in_u_high (w - s1)); [done|lia].
Qed.

(** A flipped bit of the word is a flipped bit of the field it lies in. *)
Lemma word3_flip s1 s2 a b c x :
  0 ≤ s2 ≤ s1 → in_u (s1 - s2) b → in_u s2 c → 0 ≤ x →
  Z.lxor (word3 s1 s2 a b c) (2 ^ x) =
  if x <? s2 then word3 s1 s2 a b (Z.lxor c (2 ^ x))
  else if x <? s1 then word3 s1 s2 a (Z.lxor b (2 ^ (x - s2))) c
  else word3 s1 s2 (Z.lxor a (2 ^ (x - s1))) b c.
Proof.
  intros Hs Hb Hc Hx. apply Z.bits_inj'. intros i Hi.
  rewrite Z.lxor_spec, word3_bit, Z.pow2_bits_eqb by (done || lia).
  assert (∀ w y z, 0 ≤ z < w → in_u w y → in_u w (Z.lxor y (2 ^ z))) as Hin.
  { intros w y z Hz Hy. apply in_u_lxor; [lia|done|]. split; [lia|]. apply Z.pow_lt_mono_r; lia. }
  destruct (Z.ltb_spec x s2); [|destruct (Z.ltb_spec x s1)];
    rewrite word3_bit by (done || lia || (apply Hin; done || lia));
    (destruct (Z.ltb_spec i s2); [|destruct (Z.ltb_spec i s1)]);
    rewrite ?Z.lxor_spec, ?Z.pow2_bits_eqb by lia;
    repeat match goal with |- context [?p =? ?q] => destruct (Z.eqb_spec p q); try lia end;
    by rewrite ?xorb_false_r.
Qed.

Lemma tags_as_u32_eq t : tags_as_u32 t =
  (word3 12 10 (tg_chunk_id t) (tg_serial_number t) (tg_n_bytes_lsb t),
   word3 14 2 (tg_obj_id t) (tg_ecc t) (tg_n_bytes_msb t)).
Proof. done. Qed.

Lemma u32_as_tags_word3 a b c d e f :
  in_u 2 b → in_u 10 c → in_u 12 e → in_u 2 f →
  u32_as_tags (word3 12 10 a b c, word3 14 2 d e f) = mk_tags a b c d e f.
Proof.
  intros Hb Hc He Hf. unfold u32_as_tags. cbn [fst snd].
  destruct (word3_fields 12 10 a b c ltac:(lia) Hb Hc) as (H1 & H2 & H3).
  destruct (word3_fields 14 2 d e f ltac:(lia) He Hf) as (H4 & H5 & H6).
  change (12 - 10) with 2 in H2. change (14 - 2) with 12 in H5.
  by rewrite H1, H2, H3, H4, H5, H6.
Qed.

Lemma u32_as_tags_as_u32 t : tags_wf t → u32_as_tags (tags_as_u32 t) = t.
Proof.
  intros (Ha & Hb & Hc & Hd & He & Hf). rewrite tags_as_u32_eq, u32_as_tags_word3 by done.
  by destruct t.
Qed.

Lemma tags_as_u32_range t : tags_wf t → in_u 32 (tags_as_u32 t).1 ∧ in_u 32 (tags_as_u32 t).2.
Proof.
  intros (Ha & Hb & Hc & Hd & He & Hf). rewrite tags_as_u32_eq.
  split; apply word3_range; done || lia.
Qed.

Lemma bytes_as_u32_bytes w : in_u 32 w.1 → in_u 32 w.2 → bytes_as_u32 (u32_as_bytes w) = w.
Proof.
  intros H1 H2. unfold bytes_as_u32, u32_as_bytes.
  rewrite take_app_length', drop_app_length' by by rewrite digits_length.
  rewrite !number_digits_32 by done. by destruct w.
Qed.

Lemma bytes_as_tags_bytes t : tags_wf t → bytes_as_tags (tags_as_bytes t) = t.
Proof.
  intros Ht. unfold bytes_as_tags, tags_as_bytes. destruct (tags_as_u32_range t Ht).
  rewrite bytes_as_u32_bytes by done. by apply u32_as_tags_as_u32.
Qed.

(** The bytes of a word with a flipped bit. *)
Lemma byte_flip w m k m' : 0 ≤ m → 0 ≤ m' → 0 ≤ k < 8 →
  u8 (Z.shiftr (Z.lxor w (2 ^ (8 * m + k))) (8 * m')) =
  if m =? m' then Z.lxor (u8 (Z.shiftr w (8 * m'))) (2 ^ k) else u8 (Z.shiftr w (8 * m')).
Proof.
  intros Hm Hm' Hk. apply Z.bits_inj'. intros i Hi.
  rewrite wrapu_spec, Z.shiftr_spec, Z.lxor_spec, Z.pow2_bits_eqb by lia.
  destruct (Z.eqb_spec m m') as [->|];
    rewrite ?Z.lxor_spec, wrapu_spec, Z.shiftr_spec, ?Z.pow2_bits_eqb by lia;
    destruct (Z.ltb_spec i 8);
    repeat match goal with |- context [?p =? ?q] => destruct (Z.eqb_spec p q); try lia end;
    by rewrite ?xorb_false_r.
Qed.

Lemma digits_shiftr x : digits BE 4 x =
  [u8 (Z.shiftr x (8 * 3)); u8 (Z.shiftr x (8 * 2)); u8 (Z.shiftr x (8 * 1)); u8 (Z.shiftr x (8 * 0))].
Proof.
  rewrite !Z.shiftr_div_pow2 by lia. cbn [digits le_bytes rev app].
  change 256 with (2 ^ 8). rewrite !Z.div_div by lia. rewrite <- !Z.pow_add_r by lia.
  change (2 ^ (8 * 0)) with 1. rewrite Z.div_1_r. reflexivity.
Qed.

Lemma digits_flip x j k : (j < 4)%nat → 0 ≤ k < 8 →
  digits BE 4 (Z.lxor x (2 ^ (8 * (3 - Z.of_nat j) + k))) = flip (digits BE 4 x) j k.
Proof.
  intros Hj Hk. rewrite !digits_shiftr, !byte_flip by lia.
  destruct j as [|[|[|[|j]]]]; [..|lia]; reflexivity.
Qed.

(** *** A flipped bit of the record *)

#[local] Arguments Nat.ltb : simpl never.
#[local] Arguments Nat.leb : simpl never.

Definition tags_flip (t : yaffs_tags) (j : nat) (k : Z) : yaffs_tags :=
  bytes_as_tags (flip (tags_as_bytes t) j k).

(** The bit [x] of the first and of the second word. *)
Definition tags_xor1 (x : Z) (t : yaffs_tags) : yaffs_tags :=
  let '(mk_tags c s l o e m) := t in
  if x <? 10 then mk_tags c s (Z.lxor l (2 ^ x)) o e m
  else if x <? 12 then mk_tags c (Z.lxor s (2 ^ (x - 10))) l o e m
  else mk_tags (Z.lxor c (2 ^ (x - 12))) s l o e m.

Definition tags_xor2 (x : Z) (t : yaffs_tags) : yaffs_tags :=
  let '(mk_tags c s l o e m) := t in
  if x <? 2 then mk_tags c s l o e (Z.lxor m (2 ^ x))
  else if x <? 14 then mk_tags c s l o (Z.lxor e (2 ^ (x - 2))) m
  else mk_tags c s l (Z.lxor o (2 ^ (x - 14))) e m.

(** The place of the bit [k] of the byte [j] in its word. *)
Definition word_bit (j : nat) (k : Z) : Z := 8 * (3 - Z.of_nat (j mod 4)) + k.

Definition tags_xor (j : nat) (k : Z) (t : yaffs_tags) : yaffs_tags :=
  if (j <? 4)%nat then tags_xor1 (word_bit j k) t else tags_xor2 (word_bit j k) t.

(** The bits that store the code. *)
Definition is_ecc_bit (j : nat) (k : Z) : bool :=
  (4 <=? j)%nat && (2 <=? word_bit j k) && (word_bit j k <? 14).

Lemma word_bit_range j k : (j < 8)%nat → 0 ≤ k < 8 → 0 ≤ word_bit j k < 32.
Proof.
  intros Hj Hk. unfold word_bit. pose proof (Nat.mod_upper_bound j 4). lia.
Qed.

Lemma in_u_flip w x y : in_u w x → 0 ≤ y < w → in_u w (Z.lxor x (2 ^ y)).
Proof.
  intros Hx Hy. apply in_u_lxor; [lia|done|]. split; [lia|]. apply Z.pow_lt_mono_r; lia.
Qed.

Lemma tags_xor_wf j k t : tags_wf t → (j < 8)%nat → 0 ≤ k < 8 → tags_wf (tags_xor j k t).
Proof.
  intros Ht Hj Hk. pose proof (word_bit_range j k Hj Hk). unfold tags_xor.
  destruct t. unfold tags_xor1, tags_xor2, tags_wf in *. cbn in Ht.
  destruct (j <? 4)%nat;
    repeat match goal with |- context [?a <? ?b] => destruct (Z.ltb_spec a b) end; cbn;
    repeat (split; [first [tauto | apply in_u_flip; [tauto|lia]]|]);
    first [tauto | apply in_u_flip; [tauto|lia]].
Qed.

Lemma tags_xor_twice j k t : tags_xor j k (tags_xor j k t) = t.
Proof.
  unfold tags_xor. destruct t. unfold tags_xor1, tags_xor2.
  assert (∀ a b, Z.lxor (Z.lxor a b) b = a) as Hx.
  { intros. by rewrite Z.lxor_assoc, Z.lxor_nilpotent, Z.lxor_0_r. }
  destruct (j <? 4)%nat;
    repeat match goal with |- context [?a <? ?b] => destruct (Z.ltb_spec a b) end;
    by rewrite Hx.
Qed.

Lemma tags_as_bytes_flip t j k :
  tags_wf t → (j < 8)%nat → 0 ≤ k < 8 →
  flip (tags_as_bytes t) j k = tags_as_bytes (tags_xor j k t).
Proof.
  intros Ht Hj Hk. pose proof (word_bit_range j k Hj Hk) as Hx.
  unfold tags_as_bytes, u32_as_bytes.
  pose proof Ht as (Ha & Hb & Hc & Hd & He & Hf).
  rewrite !tags_as_u32_eq. cbn [fst snd]. unfold tags_xor, flip.
  destruct (Nat.ltb_spec j 4).
  - rewrite alter_app_l by by rewrite digits_length.
    change (alter _ j (digits BE 4 ?x)) with (flip (digits BE 4 x) j k).
    rewrite <- digits_flip by done. rewrite (word3_flip 12 10) by (done || lia).
    unfold word_bit, tags_xor1 in *. rewrite Nat.mod_small in * by lia. destruct t. cbn.
    by repeat match goal with |- context [?a <? ?b] => destruct (Z.ltb_spec a b) end.
  - replace j with (length (digits BE 4 (word3 12 10 (tg_chunk_id t) (tg_serial_number t)
      (tg_n_bytes_lsb t))) + (j - 4))%nat at 1 by (rewrite digits_length; lia).
    rewrite alter_app_r.
    change (alter _ (j - 4)%nat (digits BE 4 ?x)) with (flip (digits BE 4 x) (j - 4) k).
    rewrite <- digits_flip by lia. rewrite (word3_flip 14 2) by (done || lia).
    assert (j mod 4 = j - 4)%nat as Hm by (symmetry; apply (Nat.mod_unique j 4 1); lia).
    unfold word_bit, tags_xor2 in *. rewrite Hm in *. destruct t. cbn.
    by repeat match goal with |- context [?a <? ?b] => destruct (Z.ltb_spec a b) end.
Qed.

Lemma tags_flip_xor t j k :
  tags_wf t → (j < 8)%nat → 0 ≤ k < 8 → tags_flip t j k = tags_xor j k t.
Proof.
  intros Ht Hj Hk. unfold tags_flip. rewrite tags_as_bytes_flip by done.
  by apply bytes_as_tags_bytes, tags_xor_wf.
Qed.

(** The code field and the other bits are independent. *)
Lemma tags_xor_data j k e t : is_ecc_bit j k = false →
  tags_xor j k (set_tg_ecc e t) = set_tg_ecc e (tags_xor j k t) ∧
  tg_ecc (tags_xor j k t) = tg_ecc t.
Proof.
  unfold is_ecc_bit, tags_xor, tags_xor1, tags_xor2, set_tg_ecc. intros Hd. destruct t. cbn.
  destruct (Nat.ltb_spec j 4), (Nat.leb_spec 4 j); try lia;
    repeat match goal with |- context [?a <? ?b] => destruct (Z.ltb_spec a b) end; try done.
  destruct (Z.leb_spec 2 (word_bit j k)), (Z.ltb_spec (word_bit j k) 14); done || lia.
Qed.

Lemma tags_xor_ecc j k t : is_ecc_bit j k = true → tags_wf t →
  tags_xor j k t = set_tg_ecc (Z.lxor (tg_ecc t) (2 ^ (word_bit j k - 2))) t.
Proof.
  unfold is_ecc_bit, tags_xor, tags_xor2, set_tg_ecc. intros Hd (_ & _ & _ & _ & He & _).
  destruct t. cbn in *.
  destruct (Nat.leb_spec 4 j), (Z.leb_spec 2 (word_bit j k)), (Z.ltb_spec (word_bit j k) 14); try done.
  destruct (Nat.ltb_spec j 4), (Z.ltb_spec (word_bit j k) 2), (Z.ltb_spec (word_bit j k) 14); try lia.
  rewrite (wrapu_id 12); [done|]. apply in_u_flip; [done|lia].
Qed.

Lemma set_tg_ecc_wf e t : tags_wf t → tags_wf (set_tg_ecc e t).
Proof. intros (?&?&?&?&?&?). repeat (split; [done|]). split; [apply wrapu_range; lia|done]. Qed.

Lemma calc_set_ecc e t : yaffs_calc_tags_ecc (set_tg_ecc e t) = yaffs_calc_tags_ecc t.
Proof. done. Qed.

Lemma calc_wf t : tags_wf t → tags_wf (yaffs_calc_tags_ecc t).
Proof. intros. by apply set_tg_ecc_wf, set_tg_ecc_wf. Qed.

(** *** The code is linear *)

(** What the byte [b] contributes when [bit] bits come before it. *)
Definition bit_code (b i bit : Z) : Z := if Z.testbit b i then bit + i + 1 else 0.

Fixpoint xor_sum (f : Z → Z) (l : list Z) : Z :=
  match l with [] => 0 | i :: l' => Z.lxor (f i) (xor_sum f l') end.

Definition byte_code (b bit : Z) : Z := xor_sum (λ i, bit_code b i bit) [0; 1; 2; 3; 4; 5; 6; 7].

Fixpoint tags_code (l : list Z) (bit : Z) : Z :=
  match l with
  | [] => 0
  | b :: l' => Z.lxor (byte_code b bit) (tags_code l' (bit + 8))
  end.

Lemma tags_ecc_bits_seq b bit n : ∀ k ecc,
  tags_ecc_bits b (map (λ i, 2 ^ Z.of_nat i) (seq k n)) ecc (bit + Z.of_nat k) =
  (Z.lxor ecc (xor_sum (λ i, bit_code b i bit) (map Z.of_nat (seq k n))),
   bit + Z.of_nat k + Z.of_nat n).
Proof.
  induction n as [|n IH]; intros k ecc; cbn [seq map tags_ecc_bits xor_sum].
  - rewrite Z.lxor_0_r. f_equal. lia.
  - rewrite land_pow2_eqb by lia.
    replace (bit + Z.of_nat k + 1) with (bit + Z.of_nat (S k)) by lia. rewrite IH.
    unfold bit_code at 2. f_equal; [|lia]. destruct (Z.testbit b (Z.of_nat k)); cbn [negb].
    + rewrite Z.lxor_assoc. do 2 f_equal. lia.
    + by rewrite Z.lxor_0_l.
Qed.

Lemma tags_ecc_bits_code b ecc bit :
  tags_ecc_bits b byte_masks ecc bit = (Z.lxor ecc (byte_code b bit), bit + 8).
Proof.
  pose proof (tags_ecc_bits_seq b bit 8 0 ecc) as H.
  replace (bit + Z.of_nat 0) with bit in H by lia. exact H.
Qed.

Lemma tags_ecc_loop_code l : ∀ ecc bit, tags_ecc_loop l ecc bit = Z.lxor ecc (tags_code l bit).
Proof.
  induction l as [|b l IH]; intros ecc bit; cbn [tags_ecc_loop tags_code].
  - by rewrite Z.lxor_0_r.
  - rewrite tags_ecc_bits_code, IH. by rewrite Z.lxor_assoc.
Qed.

Lemma xor_sum_ext f g l : (∀ i, i ∈ l → f i = g i) → xor_sum f l = xor_sum g l.
Proof.
  induction l as [|i l IH]; intros H; cbn; [done|]. rewrite H, IH; set_solver.
Qed.

Lemma xor_sum_at f k v l : NoDup l → k ∈ l →
  xor_sum (λ i, if i =? k then Z.lxor (f i) v else f i) l = Z.lxor (xor_sum f l) v.
Proof.
  induction l as [|i l IH]; intros Hnd Hk; [set_solver|]. cbn.
  apply NoDup_cons in Hnd as [Hi Hnd]. destruct (Z.eqb_spec i k) as [->|Hne].
  - rewrite (xor_sum_ext _ f l).
    + rewrite !Z.lxor_assoc. f_equal. apply Z.lxor_comm.
    + intros i' Hi'. destruct (Z.eqb_spec i' k); [by subst|done].
  - rewrite IH by set_solver. by rewrite Z.lxor_assoc.
Qed.

Lemma byte_code_flip b k bit : 0 ≤ k < 8 →
  byte_code (Z.lxor b (2 ^ k)) bit = Z.lxor (byte_code b bit) (bit + k + 1).
Proof.
  intros Hk. unfold byte_code. rewrite <- (xor_sum_at _ k).
  - apply xor_sum_ext. intros i Hi. unfold bit_code.
    assert (0 ≤ i) as Hi0 by (repeat (apply elem_of_cons in Hi as [->|Hi]; [lia|]); set_solver).
    rewrite Z.lxor_spec, Z.pow2_bits_eqb, Z.eqb_sym by lia.
    destruct (Z.testbit b i), (Z.eqb_spec i k); subst; cbn;
      by rewrite ?Z.lxor_nilpotent, ?Z.lxor_0_l.
  - apply (bool_decide_unpack _). by vm_compute.
  - destruct (bit_cases k Hk) as [|[|[|[|[|[|[|]]]]]]]; subst k; set_solver.
Qed.

Lemma tags_code_flip l : ∀ j k bit, (j < length l)%nat → 0 ≤ k < 8 →
  tags_code (flip l j k) bit = Z.lxor (tags_code l bit) (bit + 8 * Z.of_nat j + k + 1).
Proof.
  induction l as [|b l IH]; intros j k bit Hj Hk; [cbn in Hj; lia|].
  destruct j as [|j].
  - change (tags_code (flip (b :: l) 0 k) bit)
      with (Z.lxor (byte_code (Z.lxor b (2 ^ k)) bit) (tags_code l (bit + 8))).
    cbn [tags_code]. rewrite byte_code_flip by done. rewrite !Z.lxor_assoc. f_equal.
    rewrite Z.lxor_comm. f_equal. lia.
  - change (tags_code (flip (b :: l) (S j) k) bit)
      with (Z.lxor (byte_code b bit) (tags_code (flip l j k) (bit + 8))).
    cbn [tags_code]. rewrite IH by (cbn in Hj; lia). rewrite Z.lxor_assoc. do 2 f_equal. lia.
Qed.

Lemma tags_code_range l : ∀ bit, 0 ≤ bit → bit + 8 * zlen l < 128 → in_u 7 (tags_code l bit).
Proof.
  induction l as [|b l IH]; intros bit H0 Hb; cbn [tags_code]; [by split|].
  cbn [length] in Hb. apply in_u_lxor; [lia| |apply IH; lia].
  unfold byte_code. cbn [xor_sum].
  assert (∀ i, 0 ≤ i < 8 → in_u 7 (bit_code b i bit)) as Hc.
  { intros i Hi. unfold bit_code, in_u. destruct (Z.testbit b i); lia. }
  repeat (apply in_u_lxor; [lia|apply Hc; lia|]). by split.
Qed.

Lemma tags_as_bytes_length t : length (tags_as_bytes t) = 8%nat.
Proof. unfold tags_as_bytes, u32_as_bytes. by rewrite length_app, !digits_length. Qed.

(** The code of the tags with the code field cleared. *)
Definition code_of (t : yaffs_tags) : Z := tags_code (tags_as_bytes (set_tg_ecc 0 t)) 0.

#[local] Arguments code_of : simpl never.

Lemma code_range t : in_u 7 (code_of t).
Proof. apply tags_code_range; [lia|]. rewrite tags_as_bytes_length. lia. Qed.

Lemma calc_eq t : yaffs_calc_tags_ecc t = set_tg_ecc (code_of t) t.
Proof. unfold yaffs_calc_tags_ecc. by rewrite tags_ecc_loop_code, Z.lxor_0_l. Qed.

Lemma code_flip t j k : tags_wf t → (j < 8)%nat → 0 ≤ k < 8 → is_ecc_bit j k = false →
  code_of (tags_xor j k t) = Z.lxor (code_of t) (8 * Z.of_nat j + k + 1).
Proof.
  intros Ht Hj Hk Hd. unfold code_of.
  rewrite <- (proj1 (tags_xor_data j k 0 t Hd)).
  rewrite <- tags_as_bytes_flip by (done || by apply set_tg_ecc_wf).
  rewrite tags_code_flip by (done || by rewrite tags_as_bytes_length). done.
Qed.

Lemma is_ecc_bit_range j k : is_ecc_bit j k = true → 2 ≤ word_bit j k < 14.
Proof.
  unfold is_ecc_bit. rewrite !andb_true_iff, Z.leb_le, Z.ltb_lt. lia.
Qed.

(** The repair step: [yaffs_check_tags_ecc] flips the bit of the place [p]. *)
Definition tags_repair (p : Z) (t : yaffs_tags) : yaffs_tags :=
  yaffs_calc_tags_ecc (bytes_as_tags (alter (λ x, Z.lxor x (Z.shiftl 1 (Z.land p 7)))
    (Z.to_nat (p / 8)) (tags_as_bytes t))).

Lemma tags_repair_xor t j k : tags_wf t → (j < 8)%nat → 0 ≤ k < 8 →
  tags_repair (8 * Z.of_nat j + k) t = yaffs_calc_tags_ecc (tags_xor j k t).
Proof.
  intros Ht Hj Hk. unfold tags_repair. f_equal. rewrite <- tags_flip_xor by done.
  unfold tags_flip, flip. f_equal.
  replace ((8 * Z.of_nat j + k) / 8) with (Z.of_nat j) by
    (apply (Z.div_unique_pos _ _ _ k); lia).
  rewrite Nat2Z.id. change 7 with (Z.ones 3). rewrite Z.land_ones by lia.
  change (2 ^ 3) with 8.
  replace ((8 * Z.of_nat j + k) mod 8) with k by
    (apply (Z.mod_unique_pos _ _ (Z.of_nat j)); lia).
  by rewrite Z.shiftl_1_l.
Qed.

Lemma check_cases t : tags_wf t →
  let d := Z.lxor (tg_ecc t) (code_of t) in
  yaffs_check_tags_ecc t =
  if d =? 0 then (0, yaffs_calc_tags_ecc t)
  else if d <=? 64 then (1, tags_repair (d - 1) (yaffs_calc_tags_ecc t))
  else (-1, yaffs_calc_tags_ecc t).
Proof.
  intros Ht d. unfold yaffs_check_tags_ecc.
  assert (tg_ecc (yaffs_calc_tags_ecc t) = code_of t) as ->.
  { rewrite calc_eq. cbn. apply wrapu_id. pose proof (code_range t). unfold in_u in *. lia. }
  fold d. destruct (d =? 0); [done|]. cbn [negb andb]. by destruct (d <=? 64).
Qed.

(** The code of the yaffs1 tags, for any tags [t] stored with their code: a record
    that is read as it was written is accepted; with one flipped bit outside of the
    code field it is repaired; with one flipped bit [i] of the code field, the check
    reports an error that it cannot repair when [i] is above 6, repairs the field
    when [i] is 6, and for the lower six bits flips the data bit of the place
    [2 ^ i - 1] instead, and returns these other tags as repaired. *)
Theorem tags_ecc_spec t :
  tags_wf t →
  let t0 := yaffs_calc_tags_ecc t in
  yaffs_check_tags_ecc t0 = (0, t0) ∧
  (∀ j k, (j < 8)%nat → 0 ≤ k < 8 → is_ecc_bit j k = false →
     yaffs_check_tags_ecc (tags_flip t0 j k) = (1, t0)) ∧
  (∀ j k, (j < 8)%nat → 0 ≤ k < 8 → is_ecc_bit j k = true →
     let i := word_bit j k - 2 in
     (6 < i → yaffs_check_tags_ecc (tags_flip t0 j k) = (-1, t0)) ∧
     (i = 6 → yaffs_check_tags_ecc (tags_flip t0 j k) = (1, t0)) ∧
     (i < 6 → ∃ t', yaffs_check_tags_ecc (tags_flip t0 j k) = (1, t') ∧ t' ≠ t0 ∧
        t' = yaffs_calc_tags_ecc
               (tags_flip t0 (Z.to_nat ((2 ^ i - 1) / 8)) ((2 ^ i - 1) mod 8)))).
Proof.
  intros Ht t0. assert (tags_wf t0) as Ht0 by by apply calc_wf.
  assert (code_of t0 = code_of t) as Hcode.
  { subst t0. rewrite calc_eq. done. }
  assert (tg_ecc t0 = code_of t) as Hecc.
  { subst t0. rewrite calc_eq. cbn. apply wrapu_id. pose proof (code_range t). unfold in_u in *. lia. }
  assert (yaffs_calc_tags_ecc t0 = t0) as Hidem by done. clearbody t0.
  split; [|split].
  - rewrite check_cases by done. rewrite Hcode, Hecc, Z.lxor_nilpotent. cbn iota. by rewrite Hidem.
  - intros j k Hj Hk Hd. rewrite tags_flip_xor by done.
    destruct (tags_xor_data j k 0 t0 Hd) as [_ He].
    rewrite check_cases by (by apply tags_xor_wf). rewrite He, code_flip, Hcode, Hecc by done.
    rewrite lxor_cancel.
    destruct (Z.eqb_spec (8 * Z.of_nat j + k + 1) 0), (Z.leb_spec (8 * Z.of_nat j + k + 1) 64); try lia.
    f_equal. replace (8 * Z.of_nat j + k + 1 - 1) with (8 * Z.of_nat j + k) by lia.
    pose proof (calc_wf _ (tags_xor_wf j k t0 Ht0 Hj Hk)) as Hw.
    rewrite (tags_repair_xor _ j k Hw Hj Hk), (calc_eq (tags_xor j k t0)).
    by rewrite (proj1 (tags_xor_data j k _ _ Hd)), calc_set_ecc, tags_xor_twice, Hidem.
  - intros j k Hj Hk Hd i.
    assert (0 ≤ i < 12) as Hi.
    { pose proof (is_ecc_bit_range j k Hd). unfold i. lia. }
    assert (yaffs_check_tags_ecc (tags_flip t0 j k) =
      if 2 ^ i <=? 64 then (1, tags_repair (2 ^ i - 1) t0) else (-1, t0)) as Hcheck.
    { rewrite tags_flip_xor, tags_xor_ecc by done. fold i.
      rewrite check_cases by (by apply set_tg_ecc_wf). rewrite calc_set_ecc, Hidem.
      change (code_of (set_tg_ecc ?e t0)) with (code_of t0). cbn [set_tg_ecc tg_ecc].
      rewrite Hcode, Hecc, (wrapu_id 12).
      2: { apply in_u_flip; [|done]. pose proof (code_range t). unfold in_u in *. lia. }
      rewrite Z.lxor_comm, lxor_cancel.
      destruct (Z.eqb_spec (2 ^ i) 0); [|done]. pose proof (Z.pow_pos_nonneg 2 i). lia. }
    rewrite Hcheck.
    split; [|split].
    + intros Hhi. pose proof (Z.pow_le_mono_r 2 7 i ltac:(lia) ltac:(lia)).
      destruct (Z.leb_spec (2 ^ i) 64); [lia|done].
    + intros ->. change (2 ^ 6 <=? 64) with true. cbn iota. f_equal.
      change (2 ^ 6 - 1) with (8 * Z.of_nat 7 + 7). rewrite tags_repair_xor by (done || lia).
      by rewrite tags_xor_ecc, calc_set_ecc, Hidem by done.
    + intros Hlo. pose proof (Z.pow_le_mono_r 2 i 5 ltac:(lia) ltac:(lia)) as Hp.
      pose proof (Z.pow_pos_nonneg 2 i ltac:(lia) ltac:(lia)) as Hp0.
      destruct (Z.leb_spec (2 ^ i) 64); [|lia].
      set (q := 2 ^ i - 1) in *. pose proof (Z.mod_pos_bound q 8 ltac:(lia)) as Hm.
      pose proof (Z.div_mod q 8 ltac:(lia)) as Hdm.
      assert (0 ≤ q / 8 < 4) as Hq by (split; [apply Z.div_pos; lia|apply Z.div_lt_upper_bound; lia]).
      assert (8 * Z.of_nat (Z.to_nat (q / 8)) + q mod 8 = q) as Hqe by lia.
      set (j' := Z.to_nat (q / 8)) in *. set (k' := q mod 8) in *.
      assert (is_ecc_bit j' k' = false) as Hd'.
      { unfold is_ecc_bit. destruct (Nat.leb_spec 4 j'); [lia|done]. }
      exists (tags_repair q t0). split; [done|].
      rewrite <- Hqe, tags_repair_xor, tags_flip_xor by (done || lia). split; [|done].
      intros Heq%(f_equal tg_ecc). rewrite calc_eq in Heq. cbn [set_tg_ecc tg_ecc] in Heq.
      rewrite code_flip, Hcode, Hecc, (wrapu_id 12) in Heq by (done || lia ||
        (apply in_u_lxor; [lia|pose proof (code_range t); unfold in_u in *; lia|unfold in_u; lia])).
      apply (f_equal (λ x, Z.lxor (code_of t) x)) in Heq.
      rewrite lxor_cancel, Z.lxor_nilpotent in Heq. lia.
Qed.

Example tags_ecc_spec_witness :
  let t0 := yaffs_calc_tags_ecc (mk_tags 42 1 512 257 0 3) in
  yaffs_check_tags_ecc (tags_flip t0 5 1) = (1, t0) ∧
  ∃ t', yaffs_check_tags_ecc (tags_flip t0 7 5) = (1, t') ∧ t' ≠ t0.
Proof.
  intros t0.
  destruct (tags_ecc_spec (mk_tags 42 1 512 257 0 3)) as (_ & Hdata & Hfield).
  { repeat split; vm_compute; first [discriminate | reflexivity]. }
  split; [apply (Hdata 5%nat 1); [lia|lia|reflexivity]|].
  destruct (Hfield 7%nat 5 ltac:(lia) ltac:(lia) eq_refl) as (_ & _ & Hlow).
  destruct (Hlow ltac:(vm_compute; reflexivity)) as (t' & Hc & Hne & _).
  exists t'. split; [exact Hc|exact Hne].
Defined.

(** ** The spare area *)

Lemma u32_as_bytes_length w : length (u32_as_bytes w) = 8%nat.
Proof. unfold u32_as_bytes. by rewrite length_app, !digits_length. Qed.

Lemma list_8_nth (l : list Z) : length l = 8%nat →
  [nth 0 l 0; nth 1 l 0; nth 2 l 0; nth 3 l 0; nth 4 l 0; nth 5 l 0; nth 6 l 0; nth 7 l 0] = l.
Proof. intros H. do 8 (destruct l as [|? l]; [done|]). by destruct l. Qed.

(** The tags of a chunk survive the spare area in either byte order: what
    [yaffs_get_tags_from_spare] reads of tags that were stored are these tags with
    their code, accepted by the check; the other bytes of the spare area, the page
    and block status and the codes of the data, are not touched. *)
Theorem spare_tags_roundtrip b s t :
  tags_wf t →
  let s' := yaffs_load_tags_to_spare b s t in
  yaffs_get_tags_from_spare b s' = (0, yaffs_calc_tags_ecc t) ∧
  page_status s' = page_status s ∧ block_status s' = block_status s ∧
  ecc1 s' = ecc1 s ∧ ecc2 s' = ecc2 s.
Proof.
  intros Ht s'. split; [|done]. unfold yaffs_get_tags_from_spare.
  set (t0 := yaffs_calc_tags_ecc t). assert (tags_wf t0) as Ht0 by by apply calc_wf.
  destruct (tags_as_u32_range t0 Ht0) as [H1 H2].
  set (w := (yaffs_do_endian_u32 b (tags_as_u32 t0).1, yaffs_do_endian_u32 b (tags_as_u32 t0).2)).
  assert (in_u 32 w.1 ∧ in_u 32 w.2) as [Hw1 Hw2].
  { subst w. cbn [fst snd]. destruct b; [|done]. split; apply swap_u32_range. }
  assert ([tb0 s'; tb1 s'; tb2 s'; tb3 s'; tb4 s'; tb5 s'; tb6 s'; tb7 s'] = u32_as_bytes w) as ->.
  { subst s'. unfold yaffs_load_tags_to_spare. fold t0. fold w.
    cbn [tb0 tb1 tb2 tb3 tb4 tb5 tb6 tb7]. apply list_8_nth, u32_as_bytes_length. }
  rewrite bytes_as_u32_bytes by done. subst w. cbn [fst snd].
  assert (∀ x, in_u 32 x → yaffs_do_endian_u32 b (yaffs_do_endian_u32 b x) = x) as Hinv.
  { intros x Hx. destruct b; [by apply swap_u32_twice|done]. }
  rewrite !Hinv by done. rewrite <- surjective_pairing, u32_as_tags_as_u32 by done.
  rewrite check_cases by done.
  assert (tg_ecc t0 = code_of t0) as ->; [|by rewrite Z.lxor_nilpotent].
  subst t0. rewrite calc_eq. cbn [set_tg_ecc tg_ecc]. rewrite wrapu_id.
  - done.
  - pose proof (code_range t). unfold in_u in *. lia.
Qed.

Example spare_tags_roundtrip_witness :
  let t := mk_tags 42 1 512 257 0 3 in
  yaffs_get_tags_from_spare true (yaffs_load_tags_to_spare true yaffs_spare_init t)
  = (0, yaffs_calc_tags_ecc t).
Proof.
  intros t. destruct (spare_tags_roundtrip true yaffs_spare_init t) as [H _]; [|exact H].
  repeat split; vm_compute; first [discriminate | reflexivity].
Defined.
