(* ===== verification/YaffsNameval.v ===== *)
(** * Extended attributes in an object header

    [fs/yaffs2/_private/yaffs_nameval.c]: the attributes of an object are records of a size,
    a name and a value, one after the other in a buffer [xb] of [xb_size] bytes that follows
    the object header in its chunk, and zeros behind them. The functions run on byte memory;
    [swap] is [dev->swap_endian]. [stored] says that a buffer holds a list of attributes;
    [nval_refines] relates every operation to the list. *)

From S2P Require Import Prelude Memory Endian LibcString YaffsTags.

Definition ENODATA : Z := 78.
Definition EEXIST : Z := 17.
Definition ENOSPC : Z := 28.
Definition ERANGE : Z := 38.
Definition XATTR_CREATE : Z := 1.
Definition XATTR_REPLACE : Z := 2.

(** [memcpy(&size, xb + pos, sizeof(size))] and [yaffs_do_endian_s32]: the bytes of a
    variable are in the order of the big-endian machine. *)
Definition get_size (swap : bool) (a : Z) : prog mem Z :=
  v ← be32dec a;
  mret (yaffs_do_endian_s32 swap (s32 v)).

(** The size of the record at [pos] when there is room for one. *)
Definition next_size (swap : bool) (xb xb_size pos : Z) : prog mem Z :=
  if pos <? s32 (u32 (xb_size - 4)) then get_size swap (xb + pos) else mret 0.

(** The result and [*exist_size]. *)
Definition nval_find (swap : bool) (xb xb_size name : Z) : prog mem (Z * Z) :=
  size ← get_size swap xb;
  loop (S (Z.to_nat xb_size)) (λ '(pos, size),
    if (0 <? size) && (size <? xb_size) && (pos + size <? xb_size) then
      r ← strncmp (xb + pos + 4) name size;
      if r =? 0 then mret (inr (pos, size)) else
      size' ← next_size swap xb xb_size (pos + size);
      mret (inl (pos + size, size'))
    else mret (inr (- ENODATA, 0))) (0, size).

Definition nval_used (swap : bool) (xb xb_size : Z) : prog mem Z :=
  size ← get_size swap xb;
  loop (S (Z.to_nat xb_size)) (λ '(pos, size),
    if (0 <? size) && (size <? xb_size) && (pos + size <? xb_size) then
      size' ← next_size swap xb xb_size (pos + size);
      mret (inl (pos + size, size'))
    else mret (inr pos)) (0, size).

Definition nval_del (swap : bool) (xb xb_size name : Z) : prog mem Z :=
  f ← nval_find swap xb xb_size name;
  let pos := f.1 in
  if (pos <? 0) || (xb_size <=? pos) then mret (- ENODATA) else
  size ← get_size swap (xb + pos);
  memcpy (xb + pos) (xb + pos + size) (xb_size - (pos + size));;
  memset (xb + (xb_size - size)) 0 size;;
  mret 0.

Definition nval_set (swap : bool) (xb xb_size name buf bsize flags : Z) : prog mem Z :=
  namelen ← strnlen name xb_size;
  f ← nval_find swap xb xb_size name;
  let '(pos, size_exist) := f in
  if negb (Z.land flags XATTR_CREATE =? 0) && (0 <=? pos) then mret (- EEXIST) else
  if negb (Z.land flags XATTR_REPLACE =? 0) && (pos <? 0) then mret (- ENODATA) else
  start ← nval_used swap xb xb_size;
  let space := xb_size - start + size_exist in
  let reclen := s32 (u32 (4 + namelen + 1 + bsize)) in
  if space <? reclen then mret (- ENOSPC) else
  start ← (if 0 <=? pos then nval_del swap xb xb_size name;; nval_used swap xb xb_size else mret start);
  let pos := start in
  be32enc (xb + pos) (u32 (yaffs_do_endian_s32 swap reclen));;
  let pos := pos + 4 in
  strncpy (xb + pos) name reclen;;
  let pos := pos + (namelen + 1) in
  memcpy (xb + pos) buf bsize;;
  mret 0.

(** The loop [while (xb[pos] && size > 0 && pos < xb_size)]. *)
Definition skip_name (xb xb_size pos size : Z) : prog mem (Z * Z) :=
  loop (S (Z.to_nat size)) (λ '(pos, size),
    c ← load8 (xb + pos);
    mret (if negb (c =? 0) && (0 <? size) && (pos <? xb_size) then inl (pos + 1, size - 1) else inr (pos, size)))
  (pos, size).

Definition nval_get (swap : bool) (xb xb_size name buf bsize : Z) : prog mem Z :=
  f ← nval_find swap xb xb_size name;
  let pos := f.1 in
  if (0 <=? pos) && (pos <? xb_size) then
    size ← get_size swap (xb + pos);
    p ← skip_name xb xb_size (pos + 4) (s32 (u32 (size - 4)));
    let pos := p.1 + 1 in
    let size := p.2 - 1 in
    if bsize =? 0 then mret size else
    if size <=? bsize then memcpy buf (xb + pos) (u32 size);; mret size else
    mret (if 0 <=? pos then - ERANGE else - ENODATA)
  else mret (if 0 <=? pos then - ERANGE else - ENODATA).

(** The locals of [nval_list]: [pos], [size], [buf], [ncopied] and [filled]. *)
Definition nval_list (swap : bool) (xb xb_size buf bsize : Z) : prog mem Z :=
  size ← get_size swap xb;
  loop (S (Z.to_nat xb_size)) (λ '(pos, size, buf, ncopied, filled),
    if (4 <? size) && (size <=? xb_size) && (pos + size <? xb_size) && negb filled then
      let pos := pos + 4 in
      let size := s32 (u32 (size - 4)) in
      name_len ← strnlen (xb + pos) size;
      b ← (if ncopied + name_len + 1 <? bsize
           then memcpy buf (xb + pos) name_len;; store8 (buf + name_len) 0;;
                mret (buf + name_len + 1, ncopied + (name_len + 1), false)
           else mret (buf, ncopied, true));
      size' ← next_size swap xb xb_size (pos + size);
      mret (inl (pos + size, size', b.1.1, b.1.2, b.2))
    else mret (inr ncopied)) (0, size, buf, 0, false).

Definition nval_hasvalues (swap : bool) (xb xb_size : Z) : prog mem bool :=
  used ← nval_used swap xb xb_size;
  mret (0 <? used).

(** ** The attributes of a buffer *)

(** The characters of a name and the bytes of its value. *)
Abbreviation attr := (list Z * list Z)%type.

Definition reclen (r : attr) : Z := 4 + zlen r.1 + 1 + zlen r.2.

Definition rec_bytes (swap : bool) (r : attr) : list Z :=
  digits BE 4 (u32 (yaffs_do_endian_s32 swap (reclen r))) ++ r.1 ++ 0 :: r.2.

Definition image (swap : bool) (recs : list attr) : list Z := recs ≫= rec_bytes swap.

Definition contents (swap : bool) (n : nat) (recs : list attr) : list Z :=
  image swap recs ++ replicate (n - length (image swap recs)) 0.

Definition attr_ok (r : attr) : Prop := Forall (λ c, 0 < c < 256) r.1 ∧ all_u8 r.2.

(** The buffer of [n] bytes at [xb] holds the attributes [recs]; the last byte is not part
    of a record, since the functions look only at records that end before it. *)
Record stored (swap : bool) (m : mem) (xb : Z) (n : nat) (recs : list attr) : Prop := {
  stored_bytes : bytes m xb (contents swap n recs);
  stored_room : (length (image swap recs) < n)%nat;
  stored_size : (4 ≤ n)%nat ∧ Z.of_nat n < 2 ^ 31;
  stored_ok : Forall attr_ok recs;
  stored_names : NoDup recs.*1;
}.

(** The operations on the list. *)
Fixpoint value_of (name : list Z) (recs : list attr) : option (list Z) :=
  match recs with
  | [] => None
  | r :: rs => if decide (r.1 = name) then Some r.2 else value_of name rs
  end.

Definition without (name : list Z) (recs : list attr) : list attr := filter (λ r, r.1 ≠ name) recs.

(** The names that fit in [n] bytes, each with its terminator and one byte to spare. *)
Fixpoint listing (n : Z) (recs : list attr) : list Z :=
  match recs with
  | [] => []
  | r :: rs => if zlen r.1 + 1 <? n then r.1 ++ 0 :: listing (n - (zlen r.1 + 1)) rs else []
  end.

#[global] Arguments rec_bytes : simpl never.
#[global] Arguments reclen : simpl never.
#[global] Arguments contents : simpl never.
Implicit Types (swap : bool) (m : mem) (recs pre suf : list attr) (r : attr) (nm v : list Z) (n : nat).

(** ** Sizes *)

Definition size_bytes swap (x : Z) : list Z := digits BE 4 (u32 (yaffs_do_endian_s32 swap x)).

Lemma size_bytes_length swap x : length (size_bytes swap x) = 4%nat.
Proof. apply digits_length. Qed.

Lemma endian_s32_range swap x : in_s 32 x → in_s 32 (yaffs_do_endian_s32 swap x).
Proof. destruct swap; [intros _; by apply wraps_range|done]. Qed.

Lemma endian_s32_twice swap x : in_s 32 x → yaffs_do_endian_s32 swap (yaffs_do_endian_s32 swap x) = x.
Proof. intros Hx. destruct swap; [by apply swap_s32_twice|done]. Qed.

Lemma get_size_run swap m a x : bytes m a (size_bytes swap x) → in_s 32 x → get_size swap a m = Ok (x, m).
Proof.
  intros Hb Hx. unfold get_size.
  pose proof (dec32_spec BE a _ m Hb (size_bytes_length swap x) (digits_u8 _ _ _)) as H. cbn [dec] in H.
  prog_step H. unfold size_bytes. rewrite number_digits by (apply (wrapu_range 32); lia).
  by rewrite wraps_wrapu, wraps_id, endian_s32_twice by (done || by apply endian_s32_range).
Qed.

Lemma size_bytes_0 swap : size_bytes swap 0 = replicate 4 0.
Proof. by destruct swap. Qed.

Lemma rec_bytes_length swap r : zlen (rec_bytes swap r) = reclen r.
Proof. unfold rec_bytes, reclen. rewrite !length_app, digits_length. cbn [length]. lia. Qed.

Lemma reclen_pos r : 5 ≤ reclen r.
Proof. unfold reclen. lia. Qed.

Lemma image_app swap pre suf : image swap (pre ++ suf) = image swap pre ++ image swap suf.
Proof. apply bind_app. Qed.

Lemma image_cons swap r recs : image swap (r :: recs) = rec_bytes swap r ++ image swap recs.
Proof. done. Qed.

Lemma image_length swap pre r suf :
  zlen (image swap (pre ++ r :: suf)) = zlen (image swap pre) + reclen r + zlen (image swap suf).
Proof. rewrite image_app, image_cons, !length_app, <- (rec_bytes_length swap r). lia. Qed.

Lemma contents_length swap n recs : (length (image swap recs) ≤ n)%nat → length (contents swap n recs) = n.
Proof. intros. unfold contents. rewrite length_app, length_replicate. lia. Qed.

Lemma image_u8 swap recs : Forall attr_ok recs → all_u8 (image swap recs).
Proof.
  induction 1 as [|r recs [Hn Hv] _ IH]; [constructor|]. rewrite image_cons. unfold all_u8, rec_bytes.
  rewrite !Forall_app, Forall_cons. split_and!; [apply digits_u8| |by unfold in_u|done..].
  eapply Forall_impl; [exact Hn|]. intros c ?; cbn in *; unfold in_u; lia.
Qed.

Lemma contents_u8 swap n recs : Forall attr_ok recs → all_u8 (contents swap n recs).
Proof.
  intros H. apply Forall_app. split; [by apply image_u8|]. apply Forall_replicate. unfold in_u. lia.
Qed.

(** ** Reading a stored list *)

Definition size_at recs : Z := match recs with [] => 0 | r :: _ => reclen r end.

Lemma off_snoc swap pre r : zlen (image swap (pre ++ [r])) = zlen (image swap pre) + reclen r.
Proof. rewrite image_length. cbn [length image]. change (length (image swap [])) with 0%nat. lia. Qed.

Lemma image_recs swap recs : (length recs ≤ length (image swap recs))%nat.
Proof.
  induction recs as [|r l IH]; [done|]. rewrite image_cons, length_app. cbn [length].
  pose proof (rec_bytes_length swap r). pose proof (reclen_pos r). lia.
Qed.

(** Where a name is found. *)
Fixpoint search nm (pos : Z) suf : Z * Z :=
  match suf with
  | [] => (- ENODATA, 0)
  | r :: suf => if decide (r.1 = nm) then (pos, reclen r) else search nm (pos + reclen r) suf
  end.

Lemma compares_eq (k : nat) (s t : list Z) x : Forall (λ c, 0 < c < 256) s → Forall (λ c, 0 < c < 256) t →
  (length s < k)%nat → compares k s t x → (x =? 0) = bool_decide (s = t).
Proof.
  intros Hs Ht Hk [[E ->]|(i & c & d & Hi & E & Hc & Hd & Hne & ->)].
  - symmetry. apply bool_decide_eq_true. rewrite take_ge in E by lia. rewrite E.
    assert (length t < k)%nat; [|by rewrite take_ge by lia].
    apply (f_equal length) in E. rewrite length_take in E. lia.
  - assert (s ≠ t) as Hst' by (intros ->; congruence). rewrite bool_decide_eq_false_2 by done.
    assert (∀ l c, Forall (λ c, 0 < c < 256) l → (l ++ [0]) !! i = Some c → 0 ≤ c < 256) as Hr.
    { intros l c' Hl Hx. apply lookup_app_Some in Hx as [Hx|[_ Hx]].
      - apply (Forall_lookup_1 _ _ _ _ Hl) in Hx. lia.
      - apply list_lookup_singleton_Some in Hx as [_ <-]. lia. }
    apply Z.eqb_neq. intros E0. apply (proj1 (Z.sgn_null_iff _)) in E0. apply Hne, s8_inj; [exact (Hr _ _ Hs Hc)|exact (Hr _ _ Ht Hd)|lia].
Qed.

Section stored.
Context (swap : bool) (m : mem) (xb : Z) (n : nat) (recs : list attr) (Hst : stored swap m xb n recs).
#[local] Set Default Proof Using "All".

#[local] Notation off l := (zlen (image swap l)).

Lemma stored_at pre suf : recs = pre ++ suf →
  bytes m (xb + off pre) (image swap suf ++ replicate (n - length (image swap recs)) 0).
Proof.
  intros E. pose proof (stored_bytes _ _ _ _ _ Hst) as Hb. unfold contents in Hb.
  rewrite E, image_app, <- app_assoc in Hb. apply bytes_app in Hb as [_ Hb]. by rewrite E, image_app.
Qed.

Lemma stored_bounds pre r suf : recs = pre ++ r :: suf →
  off pre + reclen r + off suf < Z.of_nat n ∧ 5 ≤ reclen r < 2 ^ 31.
Proof.
  intros E. pose proof (stored_room _ _ _ _ _ Hst) as H. destruct (stored_size _ _ _ _ _ Hst) as [_ Hn].
  pose proof (image_length swap pre r suf). rewrite <- E in *. pose proof (reclen_pos r). lia.
Qed.

Lemma stored_rec pre r suf : recs = pre ++ r :: suf →
  bytes m (xb + off pre) (size_bytes swap (reclen r)) ∧
  cstring m (xb + off pre + 4) r.1 ∧ bytes m (xb + off pre + 4 + zlen r.1 + 1) r.2 ∧ all_u8 r.2.
Proof.
  intros E. pose proof (stored_at pre (r :: suf) E) as Hb. rewrite image_cons in Hb.
  unfold rec_bytes in Hb. rewrite <- !app_assoc in Hb. apply bytes_app in Hb as [Hs Hb].
  rewrite digits_length in Hb. pose proof (stored_ok _ _ _ _ _ Hst) as Hok. rewrite E in Hok.
  apply Forall_app in Hok as [_ [Hok _]%Forall_cons]. destruct Hok as [Hn Hv].
  change ((0 :: r.2) ++ image swap suf ++ replicate (n - length (image swap recs)) 0)
    with ([0] ++ r.2 ++ image swap suf ++ replicate (n - length (image swap recs)) 0) in Hb.
  rewrite (app_assoc r.1) in Hb. apply bytes_app in Hb as [Hc Hb]. rewrite length_app in Hb. cbn [length] in Hb.
  apply bytes_app in Hb as [Hv' _]. 
  split; [exact Hs|]. split; [by split|]. split; [|exact Hv].
  by replace (xb + off pre + 4 + zlen r.1 + 1) with (xb + off pre + Z.of_nat 4 + Z.of_nat (length r.1 + 1)) by lia.
Qed.

Lemma get_size_at pre suf : recs = pre ++ suf → off pre + 4 ≤ Z.of_nat n →
  get_size swap (xb + off pre) m = Ok (size_at suf, m).
Proof.
  intros E Hle. destruct suf as [|r suf].
  - apply get_size_run; [|by unfold in_s]. rewrite size_bytes_0. pose proof (stored_at pre [] E) as Hb.
    rewrite app_nil_r in E. subst pre. change (image swap []) with (@nil Z) in Hb. cbn [app] in Hb.
    replace (n - length (image swap recs))%nat with (4 + (n - length (image swap recs) - 4))%nat in Hb by lia.
    rewrite replicate_add in Hb. by apply bytes_app in Hb as [Hb _].
  - destruct (stored_rec _ _ _ E) as (Hb & _). apply get_size_run; [done|]. destruct (stored_bounds _ _ _ E) as [_ ?].
    unfold in_s, size_at. lia.
Qed.

Lemma first_size : get_size swap xb m = Ok (size_at recs, m).
Proof.
  pose proof (get_size_at [] recs eq_refl) as H. change (off []) with 0 in H. rewrite Z.add_0_r in H. apply H.
  destruct (stored_size _ _ _ _ _ Hst). lia.
Qed.

Lemma next_size_at pre suf : recs = pre ++ suf → next_size swap xb (Z.of_nat n) (off pre) m = Ok (size_at suf, m).
Proof.
  intros E. unfold next_size. destruct (stored_size _ _ _ _ _ Hst) as [Hn4 Hn].
  rewrite wraps_wrapu, wraps_id by (unfold in_s; lia). destruct (Z.ltb_spec (off pre) (Z.of_nat n - 4)) as [Hlt|Hge].
  - apply get_size_at; [done|lia].
  - destruct suf as [|r suf]; [done|]. pose proof (stored_bounds _ _ _ E). lia.
Qed.

(** The loops of the file test the size of a record in the same way. *)
Lemma size_test pre r suf : recs = pre ++ r :: suf →
  (0 <? reclen r) && (reclen r <? Z.of_nat n) && (off pre + reclen r <? Z.of_nat n) = true.
Proof.
  intros E. pose proof (stored_bounds _ _ _ E). rewrite !andb_true_iff, !Z.ltb_lt. lia.
Qed.

Lemma used_loop suf : ∀ pre (fuel : nat), recs = pre ++ suf → (length suf < fuel)%nat →
  loop fuel (λ '(pos, size),
    if (0 <? size) && (size <? Z.of_nat n) && (pos + size <? Z.of_nat n) then
      size' ← next_size swap xb (Z.of_nat n) (pos + size);
      mret (inl (pos + size, size'))
    else mret (inr pos)) (off pre, size_at suf) m = Ok (off recs, m).
Proof.
  induction suf as [|r suf IH]; intros pre [|fuel] E Hf; cbn [length] in Hf; try lia.
  - apply loop_exit. rewrite app_nil_r in E. by subst pre.
  - assert (recs = (pre ++ [r]) ++ suf) as E' by by rewrite <- app_assoc.
    rewrite (loop_next _ _ _ (off (pre ++ [r]), size_at suf) m m); [apply IH; [done|lia]|].
    cbn [size_at]. rewrite (size_test _ _ _ E), <- off_snoc. by prog_step (next_size_at _ _ E').
Qed.

Lemma recs_length : (length recs ≤ n)%nat.
Proof. pose proof (stored_room _ _ _ _ _ Hst). pose proof (image_recs swap recs). lia. Qed.

Lemma nval_used_run : nval_used swap xb (Z.of_nat n) m = Ok (off recs, m).
Proof.
  unfold nval_used. prog_step first_size. rewrite Nat2Z.id.
  apply (used_loop recs [] (S n) eq_refl). pose proof recs_length. lia.
Qed.


Lemma nval_find_loop nm name suf : cstring m name nm → name ≠ 0 → 0 < xb → ∀ pre (fuel : nat), recs = pre ++ suf → (length suf < fuel)%nat →
  loop fuel (λ '(pos, size),
    if (0 <? size) && (size <? Z.of_nat n) && (pos + size <? Z.of_nat n) then
      r ← strncmp (xb + pos + 4) name size;
      if r =? 0 then mret (inr (pos, size)) else
      size' ← next_size swap xb (Z.of_nat n) (pos + size);
      mret (inl (pos + size, size'))
    else mret (inr (- ENODATA, 0))) (off pre, size_at suf) m = Ok (search nm (off pre) suf, m).
Proof.
  intros Hnm Hname Hxb. induction suf as [|r suf IH]; intros pre [|fuel] E Hf; cbn [length] in Hf; try lia.
  - by apply loop_exit.
  - assert (recs = (pre ++ [r]) ++ suf) as E' by by rewrite <- app_assoc.
    destruct (stored_rec _ _ _ E) as (_ & Hc & _). pose proof (reclen_pos r).
    destruct (strncmp_run m (xb + off pre + 4) r.1 name nm (reclen r) Hc Hnm ltac:(lia) Hname ltac:(lia)) as (x & Hx & Hcmp).
    assert (length r.1 < Z.to_nat (reclen r))%nat as Hlen by (unfold reclen; lia).
    apply compares_eq in Hcmp; [|apply Hc|apply Hnm|done]. cbn [search size_at].
    case_decide as Hd.
    + apply loop_exit. rewrite (size_test _ _ _ E). prog_step Hx. rewrite Hcmp, bool_decide_eq_true_2 by done. done.
    + rewrite (loop_next _ _ _ (off (pre ++ [r]), size_at suf) m m); [rewrite (IH (pre ++ [r]) fuel E') by lia; by rewrite off_snoc|].
      rewrite (size_test _ _ _ E), <- off_snoc. prog_step Hx. rewrite Hcmp, bool_decide_eq_false_2 by done.
      by prog_step (next_size_at _ _ E').
Qed.

Lemma nval_find_run nm name : cstring m name nm → name ≠ 0 → 0 < xb →
  nval_find swap xb (Z.of_nat n) name m = Ok (search nm 0 recs, m).
Proof.
  intros Hnm Hname Hxb. unfold nval_find. prog_step first_size. rewrite Nat2Z.id.
  apply (nval_find_loop nm name recs Hnm Hname Hxb [] (S n) eq_refl). pose proof recs_length. lia.
Qed.
End stored.

Lemma without_cons nm r recs : without nm (r :: recs) = if decide (r.1 = nm) then without nm recs else r :: without nm recs.
Proof.
  unfold without. case_decide as H; [by rewrite filter_cons_False by naive_solver|by rewrite filter_cons_True].
Qed.

Lemma without_notin nm recs : nm ∉ recs.*1 → without nm recs = recs.
Proof.
  induction recs as [|r recs IH]; [done|]. rewrite fmap_cons, not_elem_of_cons, without_cons. intros [Hne Hni].
  by rewrite decide_False, IH.
Qed.

(** The name is absent, or the record of the first (and only) attribute of that name is found. *)
Lemma search_spec swap nm recs : ∀ pos : Z,
  (value_of nm recs = None ∧ search nm pos recs = (- ENODATA, 0) ∧ without nm recs = recs) ∨
  (∃ pre r suf, recs = pre ++ r :: suf ∧ r.1 = nm ∧ value_of nm recs = Some r.2 ∧
     search nm pos recs = (pos + zlen (image swap pre), reclen r) ∧ (NoDup recs.*1 → without nm recs = pre ++ suf)).
Proof.
  induction recs as [|r recs IH]; intros pos; [by left|]. cbn [value_of search]. case_decide as Hd.
  - right. exists [], r, recs. split_and!; [done|done|done|f_equal; cbn; lia|].
    rewrite fmap_cons, NoDup_cons. intros [Hni _]. rewrite without_cons, decide_True by done. cbn [app].
    apply without_notin. by rewrite <- Hd.
  - destruct (IH (pos + reclen r)) as [(Hv & Hs & Hw)|(pre & r' & suf & -> & Hr' & Hv & Hs & Hw)].
    + left. split_and!; [done..|]. by rewrite without_cons, decide_False, Hw by done.
    + right. exists (r :: pre), r', suf. split_and!; [done..| |].
      * rewrite Hs, image_cons, length_app, <- (rec_bytes_length swap r). f_equal. lia.
      * rewrite fmap_cons, NoDup_cons. intros [_ Hnd]. by rewrite without_cons, decide_False, Hw by done.
Qed.

Lemma value_of_notin nm recs : nm ∉ recs.*1 → value_of nm recs = None.
Proof.
  induction recs as [|r recs IH]; [done|]. rewrite fmap_cons, not_elem_of_cons. intros [Hne Hni]. cbn [value_of].
  by rewrite decide_False, IH.
Qed.

Lemma without_elem nm recs : nm ∉ (without nm recs).*1.
Proof.
  unfold without. intros H. apply list_elem_of_fmap in H as (r & E & Hr). apply list_elem_of_filter in Hr as [Hne _]. by subst.
Qed.

Lemma value_of_without nm recs : value_of nm (without nm recs) = None.
Proof. apply value_of_notin, without_elem. Qed.

Lemma value_of_snoc nm v recs : value_of nm recs = None → value_of nm (recs ++ [(nm, v)]) = Some v.
Proof.
  induction recs as [|r recs IH]; cbn [value_of app].
  - intros _. by rewrite decide_True.
  - case_decide; [done|done].
Qed.

Lemma value_of_other nm nm' v recs : nm' ≠ nm → value_of nm' (without nm recs ++ [(nm, v)]) = value_of nm' recs.
Proof.
  intros Hne. induction recs as [|r recs IH].
  - cbn. by rewrite decide_False.
  - rewrite without_cons. cbn [value_of]. case_decide as E1.
    + rewrite decide_False by congruence. exact IH.
    + cbn [app value_of]. by case_decide.
Qed.

(** ** Fetching a value *)

Lemma skip_name_run m (xb xb_size pos size : Z) nm : cstring m (xb + pos) nm → zlen nm ≤ size → pos + zlen nm ≤ xb_size →
  skip_name xb xb_size pos size m = Ok ((pos + zlen nm, size - zlen nm), m).
Proof.
  intros Hc Hs Hp. unfold skip_name. assert (length nm < S (Z.to_nat size))%nat as Hf by lia. revert Hf.
  generalize (S (Z.to_nat size)). intros fuel Hf. revert pos size fuel Hc Hs Hp Hf.
  induction nm as [|c nm IH]; intros pos size [|fuel] Hc Hs Hp Hf; cbn [length] in *; try lia.
  - replace (pos + Z.of_nat 0) with pos by lia. rewrite Z.sub_0_r. apply loop_exit. by prog_step (cstring_nil _ _ Hc).
  - apply cstring_cons in Hc as (Hl & Hne & _ & Hc).
    rewrite (loop_next _ _ _ (pos + 1, size - 1) m m).
    + rewrite IH; [do 3 f_equal; lia|by replace (xb + (pos + 1)) with (xb + pos + 1) by lia|lia..].
    + prog_step Hl. rewrite (proj2 (Z.eqb_neq c 0)), (proj2 (Z.ltb_lt 0 size)), (proj2 (Z.ltb_lt pos xb_size)) by lia. done.
Qed.

(** ** Storing *)

Lemma contents_split swap n pre r suf : (length (image swap (pre ++ r :: suf)) ≤ n)%nat →
  let l := image swap suf ++ replicate (n - length (image swap (pre ++ r :: suf))) 0 in
  contents swap n (pre ++ r :: suf) = image swap pre ++ rec_bytes swap r ++ l ∧
  contents swap n (pre ++ suf) = image swap pre ++ l ++ replicate (Z.to_nat (reclen r)) 0.
Proof.
  intros Hle l. unfold contents, l. split; [by rewrite image_app, image_cons, <- !app_assoc|].
  rewrite image_app, <- !app_assoc. f_equal. f_equal. rewrite <- replicate_add. f_equal.
  pose proof (image_length swap pre r suf). pose proof (reclen_pos r). rewrite length_app. lia.
Qed.

Section operations.
Context (swap : bool) (m : mem) (xb : Z) (n : nat) (recs : list attr) (Hst : stored swap m xb n recs).
Context (name : Z) (nm : list Z) (Hnm : cstring m name nm) (Hname : name ≠ 0) (Hxb : 0 < xb).
#[local] Set Default Proof Using "All".
#[local] Notation off l := (zlen (image swap l)).

Lemma nval_get_run (buf bsize : Z) : buf ≠ 0 → 0 ≤ bsize < 2 ^ 31 → mapped m buf (Z.to_nat bsize) →
  apart buf bsize xb (Z.of_nat n) →
  nval_get swap xb (Z.of_nat n) name buf bsize m = Ok match value_of nm recs with
    | None => (- ENODATA, m)
    | Some v => if bsize =? 0 then (zlen v, m) else if zlen v <=? bsize then (zlen v, upd m buf v) else (- ERANGE, m)
    end.
Proof.
  intros Hbuf Hbs Hm Ha. unfold nval_get. prog_step (nval_find_run swap m xb n recs Hst nm name Hnm Hname Hxb).
  destruct (search_spec swap nm recs 0) as [(Hv & Hs & _)|(pre & r & suf & E & Hr & Hv & Hs & _)]; rewrite Hs, Hv; [done|].
  rewrite Z.add_0_l. cbn [fst snd]. pose proof (stored_bounds swap m xb n recs Hst pre r suf E) as Hb.
  rewrite (proj2 (Z.leb_le 0 (off pre))), (proj2 (Z.ltb_lt (off pre) _)) by lia. cbn [andb].
  pose proof (get_size_at swap m xb n recs Hst pre (r :: suf) E ltac:(lia)) as Hg. prog_step Hg. cbn [size_at].
  destruct (stored_rec swap m xb n recs Hst pre r suf E) as (_ & Hc & Hval & Hu).
  rewrite wraps_wrapu, wraps_id by (unfold in_s; lia).
  assert (reclen r - 4 = zlen r.1 + 1 + zlen r.2) as Hrl by (unfold reclen; lia).
  rewrite (bind_Ok _ _ _ _ _ (skip_name_run m xb (Z.of_nat n) (off pre + 4) (reclen r - 4) r.1
    ltac:(by rewrite Z.add_assoc) ltac:(lia) ltac:(lia))). cbn [fst snd].
  replace (reclen r - 4 - zlen r.1 - 1) with (zlen r.2) by lia. prog_simpl.
  destruct (bsize =? 0) eqn:E0; [done|]. apply Z.eqb_neq in E0.
  destruct (Z.leb_spec (zlen r.2) bsize) as [Hle|Hgt].
  - rewrite wrapu_id by (unfold in_u; lia).
    replace (xb + (off pre + 4 + zlen r.1 + 1)) with (xb + off pre + 4 + zlen r.1 + 1) by lia.
    rewrite (bind_Ok _ _ _ _ _ (memcpy_run m buf (xb + off pre + 4 + zlen r.1 + 1) r.2 Hval Hu
      ltac:(eapply mapped_le; [exact Hm|lia]) ltac:(unfold apart in Ha; lia) Hbuf ltac:(lia))). done.
  - rewrite (proj2 (Z.leb_le 0 _)) by lia. done.
Qed.

Lemma stored_mapped : mapped m xb n.
Proof.
  pose proof (bytes_mapped _ _ _ (stored_bytes _ _ _ _ _ Hst)) as H. pose proof (stored_room _ _ _ _ _ Hst).
  by rewrite contents_length in H by lia.
Qed.

Lemma stored_upd recs' : (length (image swap recs') < n)%nat → Forall attr_ok recs' → NoDup recs'.*1 →
  stored swap (upd m xb (contents swap n recs')) xb n recs'.
Proof. intros. destruct Hst. split; [apply upd_bytes|done..]. Qed.

Lemma nval_del_run : nval_del swap xb (Z.of_nat n) name m = Ok match value_of nm recs with
    | None => (- ENODATA, m)
    | Some _ => (0, upd m xb (contents swap n (without nm recs)))
    end.
Proof.
  unfold nval_del. prog_step (nval_find_run swap m xb n recs Hst nm name Hnm Hname Hxb).
  destruct (search_spec swap nm recs 0) as [(Hv & Hs & _)|(pre & r & suf & E & Hr & Hv & Hs & Hw)]; rewrite Hs, Hv; [done|].
  rewrite Z.add_0_l. cbn [fst snd]. pose proof (stored_bounds swap m xb n recs Hst pre r suf E) as Hb.
  rewrite (proj2 (Z.ltb_ge (off pre) 0)), (proj2 (Z.leb_gt _ (off pre))) by lia. cbn [orb].
  prog_step (get_size_at swap m xb n recs Hst pre (r :: suf) E ltac:(lia)). cbn [size_at].
  rewrite (Hw (stored_names _ _ _ _ _ Hst)).
  pose proof (stored_room _ _ _ _ _ Hst) as Hroom. pose proof (stored_bytes _ _ _ _ _ Hst) as Hbytes.
  pose proof (stored_ok _ _ _ _ _ Hst) as Hok. pose proof stored_mapped as Hm.
  rewrite E in Hroom, Hbytes, Hok. destruct (contents_split swap n pre r suf ltac:(lia)) as [E1 E2].
  set (l := image swap suf ++ replicate (n - length (image swap (pre ++ r :: suf))) 0) in *.
  assert (zlen l = Z.of_nat n - (off pre + reclen r)) as Hl.
  { pose proof (contents_length swap n (pre ++ r :: suf) ltac:(lia)) as H. rewrite E1, !length_app in H.
    pose proof (rec_bytes_length swap r). lia. }
  assert (all_u8 l) as Hu.
  { pose proof (contents_u8 swap n _ Hok) as H. rewrite E1 in H. by apply Forall_app in H as [_ [_ H]%Forall_app]. }
  rewrite E1 in Hbytes. rewrite <- Hl.
  assert (bytes m (xb + off pre + reclen r) l) as Hbl.
  { rewrite app_assoc in Hbytes. apply bytes_app in Hbytes as [_ H]. rewrite length_app in H.
    pose proof (rec_bytes_length swap r). by replace (xb + off pre + reclen r) with (xb + Z.of_nat (length (image swap pre) + length (rec_bytes swap r))) by lia. }
  rewrite (bind_Ok _ _ _ _ _ (memcpy_run m (xb + off pre) (xb + off pre + reclen r) l Hbl Hu
    ltac:(intros i Hi; replace (xb + off pre + Z.of_nat i) with (xb + Z.of_nat (length (image swap pre) + i)) by lia; apply Hm; lia)
    ltac:(lia) ltac:(lia) ltac:(lia))).
  assert (mapped (upd m (xb + off pre) l) (xb + (Z.of_nat n - reclen r)) (Z.to_nat (reclen r))) as Hm2.
  { apply upd_mapped. intros i Hi. replace (xb + (Z.of_nat n - reclen r) + Z.of_nat i) with (xb + Z.of_nat (n - Z.to_nat (reclen r) + i)) by lia.
    apply Hm. lia. }
  pose proof (memset_run _ _ 0 _ Hm2) as Hset. rewrite Z2Nat.id in Hset by lia. rewrite (bind_Ok _ _ _ _ _ Hset).
  unfold filled. change (u8 0) with 0. rewrite E2, (upd_app (image swap pre)), (upd_id (image swap pre)) by (by apply bytes_app in Hbytes as [? _]).
  rewrite upd_app. replace (xb + (Z.of_nat n - reclen r)) with (xb + off pre + zlen l) by lia. done.
Qed.
End operations.

(** *** Setting *)

Lemma upd_twice (a : Z) (y y' : list Z) : (length y ≤ length y')%nat → ∀ m, upd (upd m a y) a y' = upd m a y'.
Proof.
  revert a y'. induction y as [|c y IH]; intros a [|c' y'] El m; cbn [length] in El; try lia; try done.
  cbn [upd]. rewrite insert_upd_before. cbn [upd]. rewrite insert_insert_eq. apply IH. lia.
Qed.

Lemma upd_over (a : Z) (x y y' z : list Z) : length y = length y' → ∀ m,
  upd (upd m a (x ++ y ++ z)) (a + zlen x) y' = upd m a (x ++ y' ++ z).
Proof.
  intros El m. rewrite !(upd_app x). set (m1 := upd m a x). clearbody m1. generalize (a + zlen x). clear a m x. intros a.
  revert a y' El m1. induction y as [|c y IH]; intros a [|c' y'] El m; try done.
  cbn [upd app]. rewrite <- (IH (a + 1) y' ltac:(cbn in El; lia)). f_equal.
  rewrite insert_upd_before. cbn [upd]. by rewrite insert_insert_eq.
Qed.

Lemma cstring_out m a l p s : cstring m p s → apart p (zlen s + 1) a (zlen l) → cstring (upd m a l) p s.
Proof. intros [Hb Hs] Ha. split; [|done]. apply upd_bytes_out; [done|]. rewrite length_app. cbn. unfold apart in Ha. lia. Qed.

(** The bytes that [nval_set] writes behind the records: the record, and the four bytes of
    padding by which the count of [strncpy] exceeds the room for the name and the value. *)
Definition write_rec (swap : bool) (a name buf : Z) (r : attr) : prog mem () :=
  be32enc a (u32 (yaffs_do_endian_s32 swap (reclen r)));;
  strncpy (a + 4) name (reclen r);;
  memcpy (a + 4 + (zlen r.1 + 1)) buf (zlen r.2);;
  mret ().

Lemma write_rec_run swap m (a name buf : Z) r : cstring m name r.1 → bytes m buf r.2 → all_u8 r.2 →
  mapped m a (Z.to_nat (reclen r + 4)) →
  apart name (zlen r.1 + 1) a (reclen r + 4) → apart buf (zlen r.2) a (reclen r + 4) → 0 < a → buf ≠ 0 →
  write_rec swap a name buf r m = Ok ((), upd m a (rec_bytes swap r ++ replicate 4 0)).
Proof.
  intros Hc Hb Hu Hm Han Hab Ha Hbuf. unfold write_rec. pose proof (reclen_pos r) as Hp.
  assert (reclen r = 4 + zlen r.1 + 1 + zlen r.2) as Hrl by done.
  set (sz := digits BE 4 (u32 (yaffs_do_endian_s32 swap (reclen r)))). assert (length sz = 4%nat) as Hsz by apply digits_length.
  rewrite (bind_Ok _ _ _ _ _ (enc32_spec BE a _ m (mapped_le _ _ _ 4 Hm ltac:(lia)))). fold sz.
  assert (mapped (upd m a sz) (a + 4) (Z.to_nat (reclen r))) as Hm1.
  { apply upd_mapped. intros i Hi. replace (a + 4 + Z.of_nat i) with (a + Z.of_nat (4 + i)) by lia. apply Hm. lia. }
  assert (cstring (upd m a sz) name r.1) as Hc1 by (apply cstring_out; [done|unfold apart in *; lia]).
  pose proof (strncpy_run _ (a + 4) name r.1 _ Hc1 Hm1 ltac:(unfold apart in *; lia)) as Hcp.
  rewrite Z2Nat.id in Hcp by lia. rewrite (bind_Ok _ _ _ _ _ Hcp).
  set (pad := replicate (length r.2) 0 ++ replicate 4 0).
  assert (take (Z.to_nat (reclen r)) (r.1 ++ replicate (Z.to_nat (reclen r)) 0) = r.1 ++ [0] ++ pad) as Et.
  { rewrite take_app, take_ge by lia. f_equal. rewrite take_replicate. unfold pad. rewrite <- replicate_add.
    change [0] with (replicate 1 0). rewrite <- replicate_add. f_equal. lia. }
  rewrite Et. replace (a + 4) with (a + zlen sz) by lia. rewrite <- upd_app.
  set (m1 := upd m a (sz ++ r.1 ++ [0] ++ pad)).
  assert (zlen (sz ++ r.1 ++ [0] ++ pad) = reclen r + 4) as Hlen.
  { unfold pad. rewrite !length_app, !length_replicate, Hsz. cbn [length]. lia. }
  assert (bytes m1 buf r.2) as Hb1 by (apply upd_bytes_out; [done|rewrite Hlen; unfold apart in Hab; lia]).
  assert (mapped m1 (a + zlen sz + (zlen r.1 + 1)) (length r.2)) as Hm2.
  { apply upd_mapped. intros i Hi. replace (a + zlen sz + (zlen r.1 + 1) + Z.of_nat i) with (a + Z.of_nat (4 + length r.1 + 1 + i)) by lia. apply Hm. lia. }
  rewrite (bind_Ok _ _ _ _ _ (memcpy_run m1 _ buf r.2 Hb1 Hu Hm2 ltac:(unfold apart in Hab; lia) ltac:(lia) Hbuf)).
  unfold mret, prog_ret. do 2 f_equal. unfold m1, pad.
  replace (sz ++ r.1 ++ [0] ++ replicate (length r.2) 0 ++ replicate 4 0)
    with ((sz ++ r.1 ++ [0]) ++ replicate (length r.2) 0 ++ replicate 4 0) by by rewrite <- !app_assoc.
  replace (a + zlen sz + (zlen r.1 + 1)) with (a + zlen (sz ++ r.1 ++ [0])) by (rewrite !length_app; cbn [length]; lia).
  rewrite upd_over by by rewrite length_replicate. unfold rec_bytes. fold sz.
  by rewrite <- !app_assoc.
Qed.

(** The padding vanishes in the zeros behind the records as far as they reach. *)
Lemma contents_snoc swap m (xb : Z) n recs r : stored swap m xb n recs →
  zlen (image swap recs) + reclen r ≤ Z.of_nat n →
  upd m (xb + zlen (image swap recs)) (rec_bytes swap r ++ replicate 4 0) =
  upd m xb (contents swap n (recs ++ [r]) ++ replicate (Z.to_nat (zlen (image swap recs) + reclen r + 4 - Z.of_nat n)) 0).
Proof.
  intros Hst Hle. pose proof (stored_bytes _ _ _ _ _ Hst) as Hb. unfold contents in *.
  apply bytes_app in Hb as [Hi Hz]. pose proof (rec_bytes_length swap r) as Hr.
  rewrite image_app, image_cons, app_nil_r. rewrite <- !app_assoc. rewrite (upd_app (image swap recs)), (upd_id (image swap recs)) by done.
  rewrite !(upd_app (rec_bytes swap r)). rewrite <- replicate_add, length_app.
  set (j := (n - (length (image swap recs) + length (rec_bytes swap r)))%nat).
  destruct (decide (4 ≤ j)%nat) as [Hj|Hj].
  - replace (j + _)%nat with (4 + (j - 4))%nat by lia. rewrite replicate_add, (upd_app (replicate 4 0)).
    symmetry. apply upd_id. apply upd_bytes_out; [|rewrite !length_replicate; lia]. apply upd_bytes_out; [|rewrite !length_replicate; lia].
    replace (n - length (image swap recs))%nat with (length (rec_bytes swap r) + (4 + (j - 4)))%nat in Hz by lia.
    rewrite replicate_add, replicate_add in Hz. apply bytes_app in Hz as [_ Hz]. apply bytes_app in Hz as [_ Hz].
    by rewrite length_replicate in Hz.
  - do 2 f_equal. lia.
Qed.

Section set.
Context (swap : bool) (m : mem) (xb : Z) (n : nat) (recs : list attr) (Hst : stored swap m xb n recs).
Context (name : Z) (nm : list Z) (Hnm : cstring m name nm) (Hname : name ≠ 0) (Hxb : 0 < xb).
Context (buf : Z) (v : list Z) (Hv : bytes m buf v) (Hu : all_u8 v) (Hbuf : buf ≠ 0).
Context (Hroom : mapped m xb (n + 4)) (Ho : Z.of_nat n + zlen v + 5 < 2 ^ 31).
Context (Han : apart name (zlen nm + 1) xb (Z.of_nat n + 4)) (Hab : apart buf (zlen v) xb (Z.of_nat n + 4)).
#[local] Set Default Proof Using "All".
#[local] Notation off l := (zlen (image swap l)).
#[local] Notation rest := (without nm recs).

Lemma rest_facts : Forall attr_ok rest ∧ NoDup rest.*1 ∧ (off rest ≤ off recs) ∧
  off recs - off rest = match value_of nm recs with None => 0 | Some w => reclen (nm, w) end.
Proof.
  pose proof (stored_ok _ _ _ _ _ Hst) as Hok. pose proof (stored_names _ _ _ _ _ Hst) as Hnd.
  destruct (search_spec swap nm recs 0) as [(E1 & _ & Hw)|(pre & r & suf & E & Hr & E1 & _ & Hw)]; rewrite E1.
  - rewrite Hw. split_and!; [done|done|lia|lia].
  - rewrite (Hw Hnd). rewrite E in Hok, Hnd |- *. rewrite Forall_app, Forall_cons in Hok.
    rewrite fmap_app, fmap_cons in Hnd. rewrite fmap_app, image_length.
    assert (reclen (nm, r.2) = reclen r) as -> by (unfold reclen; by rewrite <- Hr).
    rewrite image_app, length_app. pose proof (reclen_pos r). split_and!; [|..|lia|lia].
    + apply Forall_app. tauto.
    + apply NoDup_app in Hnd as (H1 & H2 & H3). apply NoDup_cons in H3 as [_ H3].
      apply NoDup_app. split_and!; [done| |done]. intros x Hx. specialize (H2 x Hx). set_solver.
Qed.

(** The old record is deleted, and the place of the new one is found. *)
Lemma delete_old : let m1 := upd m xb (contents swap n rest) in
  stored swap m1 xb n rest ∧
  (if 0 <=? (search nm 0 recs).1
   then nval_del swap xb (Z.of_nat n) name;; nval_used swap xb (Z.of_nat n) else mret (off recs)) m = Ok (off rest, m1).
Proof.
  intros m1. destruct rest_facts as (Hok & Hnd & Hle & _). pose proof (stored_room _ _ _ _ _ Hst) as Hr.
  assert (stored swap m1 xb n rest) as Hs1 by (apply (stored_upd swap m xb n recs Hst name nm Hnm Hname Hxb); [lia|done..]).
  split; [done|]. destruct (search_spec swap nm recs 0) as [(E1 & Hs & Hw)|(pre & r & suf & E & Hr' & E1 & Hs & Hw)]; rewrite Hs.
  - cbn. unfold mret, prog_ret. unfold m1. rewrite Hw. by rewrite upd_id by apply (stored_bytes _ _ _ _ _ Hst).
  - rewrite (proj2 (Z.leb_le 0 _)) by (cbn; lia).
    pose proof (nval_del_run swap m xb n recs Hst name nm Hnm Hname Hxb) as Hd. rewrite E1 in Hd.
    rewrite (bind_Ok _ _ _ _ _ Hd). by apply nval_used_run.
Qed.

Lemma nval_set_run flags : nval_set swap xb (Z.of_nat n) name buf (zlen v) flags m =
  if negb (Z.land flags XATTR_CREATE =? 0) && bool_decide (is_Some (value_of nm recs)) then Ok (- EEXIST, m) else
  if negb (Z.land flags XATTR_REPLACE =? 0) && bool_decide (value_of nm recs = None) then Ok (- ENODATA, m) else
  if Z.of_nat n <? off rest + reclen (nm, v) then Ok (- ENOSPC, m) else
  Ok (0, upd m xb (contents swap n (rest ++ [(nm, v)]) ++
                   replicate (Z.to_nat (off rest + reclen (nm, v) + 4 - Z.of_nat n)) 0)).
Proof.
  unfold nval_set. rewrite (bind_Ok _ _ _ _ _ (strnlen_run m name nm (Z.of_nat n) Hnm Hname ltac:(lia))).
  rewrite (bind_Ok _ _ _ _ _ (nval_find_run swap m xb n recs Hst nm name Hnm Hname Hxb)).
  destruct delete_old as [Hs1 Hdel]. destruct rest_facts as (_ & _ & Hle & Hdiff).
  assert ((0 <=? (search nm 0 recs).1) = bool_decide (is_Some (value_of nm recs)) ∧
    ((search nm 0 recs).1 <? 0) = bool_decide (value_of nm recs = None) ∧ (search nm 0 recs).2 = off recs - off rest) as (B1 & B2 & B3).
  { destruct (search_spec swap nm recs 0) as [(E1 & Hs & Hw)|(pre & r & suf & E & Hr' & E1 & Hs & Hw)]; rewrite Hs, Hdiff, E1; [done|].
    cbn [fst snd]. rewrite bool_decide_eq_true_2, bool_decide_eq_false_2 by naive_solver.
    split_and!; [apply Z.leb_le; lia|apply Z.ltb_ge; lia|]. unfold reclen. by rewrite <- Hr'. }
  destruct (search nm 0 recs) as [pos size_exist] eqn:Esearch. cbn [fst snd] in *. subst size_exist. rewrite B1, B2.
  destruct (negb (Z.land flags XATTR_CREATE =? 0) && _); [done|].
  destruct (negb (Z.land flags XATTR_REPLACE =? 0) && _); [done|].
  rewrite (bind_Ok _ _ _ _ _ (nval_used_run swap m xb n recs Hst)). cbv zeta.
  pose proof (stored_room _ _ _ _ _ Hst) as Hr0. rewrite wraps_wrapu, wraps_id by (unfold in_s; lia).
  replace (Z.of_nat n - off recs + (off recs - off rest)) with (Z.of_nat n - off rest) by lia.
  assert (reclen (nm, v) = 4 + zlen nm + 1 + zlen v) as Hrl by done.
  destruct (Z.ltb_spec (Z.of_nat n) (off rest + reclen (nm, v))) as [Hbig|Hfit].
  { by rewrite (proj2 (Z.ltb_lt _ _)) by lia. }
  rewrite (proj2 (Z.ltb_ge _ _)) by lia. rewrite B1 in Hdel. rewrite (bind_Ok _ _ _ _ _ Hdel).
  rewrite Z.min_l by lia. rewrite <- Hrl. set (m1 := upd m xb (contents swap n rest)) in *.
  assert (length (contents swap n rest) = n) as Hcl by (apply contents_length; lia).
  assert (write_rec swap (xb + off rest) name buf (nm, v) m1
    = Ok ((), upd m1 (xb + off rest) (rec_bytes swap (nm, v) ++ replicate 4 0))) as Hw.
  { apply write_rec_run; cbn [fst snd]; [|..|lia|done].
    - apply cstring_out; [done|]. rewrite Hcl. unfold apart in *. lia.
    - apply upd_bytes_out; [done|]. rewrite Hcl. unfold apart in *. lia.
    - done.
    - apply upd_mapped. intros i Hi. replace (xb + off rest + Z.of_nat i) with (xb + Z.of_nat (length (image swap rest) + i)) by lia.
      apply Hroom. lia.
    - unfold apart in *. lia.
    - unfold apart in *. lia. }
  rewrite (contents_snoc swap m1 xb n rest (nm, v) Hs1 Hfit) in Hw.
  unfold m1 in Hw at 2. rewrite upd_twice in Hw by (rewrite length_app, Hcl, contents_length; [lia|
    pose proof (image_length swap rest (nm, v) []) as Hil; change (length (image swap [])) with 0%nat in Hil; lia]).
  unfold write_rec in Hw. cbn [fst snd] in Hw.
  replace (xb + (off rest + 4)) with (xb + off rest + 4) by lia.
  replace (xb + (off rest + 4 + (zlen nm + 1))) with (xb + off rest + 4 + (zlen nm + 1)) by lia.
  revert Hw. unfold mbind, prog_bind.
  destruct (be32enc _ _ m1) as [[]|]; [|done]. destruct (strncpy _ _ _ _) as [[]|]; [|done].
  destruct (memcpy _ _ _ _) as [[]|]; [|done]. by intros [= ->].
Qed.
End set.

(** *** Listing *)

Lemma stored_out swap m (xb : Z) n recs (a : Z) l : stored swap m xb n recs → apart a (zlen l) xb (Z.of_nat n) →
  stored swap (upd m a l) xb n recs.
Proof.
  intros [Hb Hr ? ? ?] Ha. split; [|done..]. apply upd_bytes_out; [done|]. rewrite contents_length by lia.
  unfold apart in Ha. lia.
Qed.

Section list.
Context (swap : bool) (m : mem) (xb : Z) (n : nat) (recs : list attr) (Hst : stored swap m xb n recs) (Hxb : 0 < xb).
Context (buf bsize : Z) (Hbuf : 0 < buf) (Hbs : 0 ≤ bsize) (Hm : mapped m buf (Z.to_nat bsize)).
Context (Ha : apart buf bsize xb (Z.of_nat n)).
#[local] Set Default Proof Using "All".
#[local] Notation off l := (zlen (image swap l)).

(** One name is copied. *)
Lemma copy_name pre r suf (out : list Z) : recs = pre ++ r :: suf → zlen out + zlen r.1 + 1 < bsize →
  memcpy (buf + zlen out) (xb + (off pre + 4)) (zlen r.1) (upd m buf out) = Ok (buf + zlen out, upd m buf (out ++ r.1)) ∧
  store8 (buf + zlen out + zlen r.1) 0 (upd m buf (out ++ r.1)) = Ok ((), upd m buf (out ++ r.1 ++ [0])).
Proof.
  intros E Hlt. assert (stored swap (upd m buf out) xb n recs) as Hs by (apply stored_out; [done|unfold apart in *; lia]).
  destruct (stored_rec _ _ _ _ _ Hs pre r suf E) as (_ & [Hc Hok] & _). apply bytes_app in Hc as [Hc _].
  rewrite Z.add_assoc. pose proof (stored_bounds _ _ _ _ _ Hs pre r suf E) as Hb.
  assert (reclen r = 4 + zlen r.1 + 1 + zlen r.2) as Hrl by done.
  split; [rewrite (memcpy_run _ (buf + zlen out) (xb + off pre + 4) r.1 Hc
    ltac:(eapply Forall_impl; [exact Hok|]; intros c ?; cbn in *; unfold in_u; lia)
    ltac:(apply upd_mapped; intros i Hi; replace (buf + zlen out + Z.of_nat i) with (buf + Z.of_nat (length out + i)) by lia; apply Hm; lia)
    ltac:(unfold apart in Ha; lia) ltac:(lia) ltac:(lia)); by rewrite <- upd_app|].
  rewrite <- Z.add_assoc, app_assoc.
  rewrite (store8_next m buf (Z.to_nat bsize) (out ++ r.1) 0 _ Hm); [done|rewrite length_app; lia|rewrite length_app; lia].
Qed.

Lemma list_loop suf : ∀ pre (out : list Z) (fuel : nat), recs = pre ++ suf → (length suf < fuel)%nat → zlen out ≤ bsize →
  loop fuel (λ '(pos, size, buf, ncopied, filled),
    if (4 <? size) && (size <=? Z.of_nat n) && (pos + size <? Z.of_nat n) && negb filled then
      let pos := pos + 4 in
      let size := s32 (u32 (size - 4)) in
      name_len ← strnlen (xb + pos) size;
      b ← (if ncopied + name_len + 1 <? bsize
           then memcpy buf (xb + pos) name_len;; store8 (buf + name_len) 0;;
                mret (buf + name_len + 1, ncopied + (name_len + 1), false)
           else mret (buf, ncopied, true));
      size' ← next_size swap xb (Z.of_nat n) (pos + size);
      mret (inl (pos + size, size', b.1.1, b.1.2, b.2))
    else mret (inr ncopied)) (off pre, size_at suf, buf + zlen out, zlen out, false) (upd m buf out)
  = Ok (zlen (out ++ listing (bsize - zlen out) suf), upd m buf (out ++ listing (bsize - zlen out) suf)).
Proof.
  cbv zeta.
  induction suf as [|r suf IH]; intros pre out [|fuel] E Hf Hout; cbn [length] in Hf; try lia.
  - cbn [listing]. rewrite app_nil_r. by apply loop_exit.
  - assert (recs = (pre ++ [r]) ++ suf) as E' by by rewrite <- app_assoc.
    assert (stored swap (upd m buf out) xb n recs) as Hs by (apply stored_out; [done|unfold apart in *; lia]).
    pose proof (stored_bounds _ _ _ _ _ Hs pre r suf E) as Hb. destruct (stored_rec _ _ _ _ _ Hs pre r suf E) as (_ & Hc & _).
    assert (reclen r = 4 + zlen r.1 + 1 + zlen r.2) as Hrl by done.
    pose proof (strnlen_run _ (xb + off pre + 4) r.1 (reclen r - 4) Hc ltac:(lia) ltac:(lia)) as Hn.
    rewrite Z.min_l in Hn by lia. cbn [listing size_at].
    assert ((4 <? reclen r) && (reclen r <=? Z.of_nat n) && (off pre + reclen r <? Z.of_nat n) && negb false = true) as Ht
      by (rewrite !andb_true_iff, !Z.ltb_lt, Z.leb_le; split_and!; [lia..|done]).
    assert (off pre + 4 + (reclen r - 4) = off (pre ++ [r])) as En by (rewrite off_snoc; lia).
    destruct (Z.ltb_spec (zlen out + zlen r.1 + 1) bsize) as [Hlt|Hge].
    + rewrite (proj2 (Z.ltb_lt (zlen r.1 + 1) _)) by lia.
      assert (stored swap (upd m buf (out ++ r.1 ++ [0])) xb n recs) as Hs1.
      { apply stored_out; [done|]. rewrite !length_app. cbn [length]. unfold apart in *. lia. }
      assert (zlen (out ++ r.1 ++ [0]) = zlen out + zlen r.1 + 1) as Hlen by (rewrite !length_app; cbn [length]; lia).
      rewrite (loop_next _ _ _ (off (pre ++ [r]), size_at suf, buf + zlen (out ++ r.1 ++ [0]), zlen (out ++ r.1 ++ [0]), false) _ (upd m buf (out ++ r.1 ++ [0]))).
      * rewrite (IH (pre ++ [r]) (out ++ r.1 ++ [0]) fuel E' ltac:(lia) ltac:(lia)).
        rewrite <- !app_assoc. cbn [app]. rewrite Hlen.
        by replace (bsize - (zlen out + zlen r.1 + 1)) with (bsize - zlen out - (zlen r.1 + 1)) by lia.
      * rewrite Ht. cbv zeta. rewrite wraps_wrapu, wraps_id by (unfold in_s; lia). rewrite Z.add_assoc. prog_step Hn.
        rewrite (proj2 (Z.ltb_lt _ bsize)) by lia. rewrite <- (Z.add_assoc xb).
        destruct (copy_name pre r suf out E Hlt) as [Hcp Hz]. rewrite En. prog_step Hcp. prog_step Hz.
        prog_step (next_size_at swap _ xb n recs Hs1 (pre ++ [r]) suf E'). cbn [fst snd]. unfold mret, prog_ret.
        rewrite Hlen. by rewrite <- !Z.add_assoc.
    + rewrite (proj2 (Z.ltb_ge (zlen r.1 + 1) _)) by lia. rewrite app_nil_r. destruct fuel as [|fuel]; [lia|].
      rewrite (loop_next _ _ _ (off (pre ++ [r]), size_at suf, buf + zlen out, zlen out, true) _ (upd m buf out)).
      * apply loop_exit. by rewrite andb_false_r.
      * rewrite Ht. cbv zeta. rewrite wraps_wrapu, wraps_id by (unfold in_s; lia). rewrite Z.add_assoc. prog_step Hn.
        rewrite (proj2 (Z.ltb_ge _ bsize)) by lia. prog_simpl. rewrite En.
        by prog_step (next_size_at swap _ xb n recs Hs (pre ++ [r]) suf E').
Qed.

Lemma nval_list_run : nval_list swap xb (Z.of_nat n) buf bsize m = Ok (zlen (listing bsize recs), upd m buf (listing bsize recs)).
Proof.
  unfold nval_list. prog_step (first_size swap m xb n recs Hst). rewrite Nat2Z.id.
  pose proof (list_loop recs [] [] (S n) eq_refl) as H. cbn [upd app] in H.
  change (zlen (@nil Z)) with 0 in H. rewrite Z.sub_0_r, Z.add_0_r in H. apply H; [|done].
  pose proof (recs_length swap m xb n recs Hst). lia.
Qed.
End list.

Lemma nval_hasvalues_run swap m (xb : Z) n recs : stored swap m xb n recs →
  nval_hasvalues swap xb (Z.of_nat n) m = Ok (bool_decide (recs ≠ []), m).
Proof.
  intros Hst. unfold nval_hasvalues. prog_step (nval_used_run swap m xb n recs Hst). unfold mret, prog_ret. do 2 f_equal.
  destruct recs as [|r recs]; [done|]. rewrite bool_decide_eq_true_2 by done. apply Z.ltb_lt.
  pose proof (image_length swap [] r recs) as H. cbn [app] in H. rewrite H. pose proof (reclen_pos r). lia.
Qed.

(** ** The contract *)

(** C15. The attribute buffer implements a list of attributes with distinct names. On a buffer
    that holds [recs], with the name [nm], a value and a result buffer apart from it: [nval_get]
    returns the length of the value (the value itself is copied when a result buffer is given
    and it fits), -ERANGE when it does not fit and -ENODATA when there is none; [nval_list] the names
    that fit; [nval_hasvalues] whether there are any; [nval_del] removes the attribute or returns
    -ENODATA; [nval_set] refuses to create an attribute that exists and to replace one that does
    not, returns -ENOSPC when the record does not fit next to the others, and otherwise replaces
    the attribute, at the end of the list, after which the buffer holds the new list if its last byte
    is left free. Calls that fail change nothing. A record that ends less than four bytes
    before the end of the buffer makes [nval_set] write up to four zeros behind it. *)
Theorem nval_refines swap m (xb : Z) n recs (name : Z) nm (buf : Z) v bsize flags :
  stored swap m xb n recs → cstring m name nm → name ≠ 0 → 0 < xb → 0 < buf →
  0 ≤ bsize < 2 ^ 31 → Z.of_nat n + zlen v + 5 < 2 ^ 31 →
  mapped m buf (Z.to_nat bsize) → apart buf bsize xb (Z.of_nat n) →
  mapped m xb (n + 4) → apart name (zlen nm + 1) xb (Z.of_nat n + 4) →
  bytes m buf v → all_u8 v → apart buf (zlen v) xb (Z.of_nat n + 4) →
  let rest := without nm recs in
  let used := zlen (image swap rest) + reclen (nm, v) in
  nval_get swap xb (Z.of_nat n) name buf bsize m = Ok match value_of nm recs with
    | None => (- ENODATA, m)
    | Some w => if bsize =? 0 then (zlen w, m) else if zlen w <=? bsize then (zlen w, upd m buf w) else (- ERANGE, m)
    end ∧
  nval_list swap xb (Z.of_nat n) buf bsize m = Ok (zlen (listing bsize recs), upd m buf (listing bsize recs)) ∧
  nval_hasvalues swap xb (Z.of_nat n) m = Ok (bool_decide (recs ≠ []), m) ∧
  nval_del swap xb (Z.of_nat n) name m = Ok match value_of nm recs with
    | None => (- ENODATA, m)
    | Some _ => (0, upd m xb (contents swap n rest))
    end ∧
  stored swap (upd m xb (contents swap n rest)) xb n rest ∧
  nval_set swap xb (Z.of_nat n) name buf (zlen v) flags m =
    (if negb (Z.land flags XATTR_CREATE =? 0) && bool_decide (is_Some (value_of nm recs)) then Ok (- EEXIST, m) else
     if negb (Z.land flags XATTR_REPLACE =? 0) && bool_decide (value_of nm recs = None) then Ok (- ENODATA, m) else
     if Z.of_nat n <? used then Ok (- ENOSPC, m) else
     Ok (0, upd m xb (contents swap n (rest ++ [(nm, v)]) ++ replicate (Z.to_nat (used + 4 - Z.of_nat n)) 0))) ∧
  (used < Z.of_nat n → stored swap
    (upd m xb (contents swap n (rest ++ [(nm, v)]) ++ replicate (Z.to_nat (used + 4 - Z.of_nat n)) 0)) xb n (rest ++ [(nm, v)])) ∧
  value_of nm (rest ++ [(nm, v)]) = Some v ∧ value_of nm rest = None ∧
  (∀ nm', nm' ≠ nm → value_of nm' (rest ++ [(nm, v)]) = value_of nm' recs).
Proof.
  intros Hst Hnm Hname Hxb Hbuf Hbs Ho Hm Ha Hroom Han Hv Hu Hab rest used.
  destruct (rest_facts swap m xb n recs Hst name nm Hnm Hname Hxb buf v Hv Hu ltac:(lia) Hroom Ho Han Hab) as (Hok & Hnd & Hle & _).
  fold rest in Hok, Hnd, Hle. pose proof (stored_room _ _ _ _ _ Hst) as Hr.
  assert (stored swap (upd m xb (contents swap n rest)) xb n rest) as Hs1
    by (apply (stored_upd swap m xb n recs Hst name nm Hnm Hname Hxb); [lia|done..]).
  split_and!.
  - apply (nval_get_run swap m xb n recs Hst name nm Hnm Hname Hxb); [lia|done..].
  - by apply (nval_list_run swap m xb n recs Hst Hxb buf bsize Hbuf ltac:(lia) Hm Ha).
  - by apply nval_hasvalues_run.
  - by apply (nval_del_run swap m xb n recs Hst name nm Hnm Hname Hxb).
  - done.
  - by apply (nval_set_run swap m xb n recs Hst name nm Hnm Hname Hxb buf v Hv Hu ltac:(lia) Hroom Ho Han Hab flags).
  - intros Hlt. pose proof (image_length swap rest (nm, v) []) as Hil. change (length (image swap [])) with 0%nat in Hil.
    unfold used in Hlt. rewrite upd_app. split; [|lia|apply (stored_size _ _ _ _ _ Hst)|..].
    + apply upd_bytes_out; [apply upd_bytes|]. rewrite contents_length by lia. lia.
    + apply Forall_app. split; [done|]. constructor; [|done]. split; [apply Hnm|done].
    + rewrite fmap_app. apply NoDup_app. split_and!; [done| |apply NoDup_singleton].
      intros x Hx. cbn. intros ->%list_elem_of_singleton. by apply (without_elem nm recs).
  - apply value_of_snoc, value_of_without.
  - apply value_of_without.
  - intros nm' Hne. by apply value_of_other.
Qed.

(** A buffer of 32 bytes at 200 with one attribute, the name "b" at 100 and the value 7 8 at 300;
    [tail] bytes behind the buffer are mapped. *)
Definition sample_recs : list attr := [([97], [1; 2; 3])].

Definition sample_xattr : mem :=
  upd (upd (upd ∅ 200 (contents true 32 sample_recs ++ replicate 4 170)) 100 [98; 0]) 300 [7; 8].

Lemma sample_stored : stored true sample_xattr 200 32 sample_recs.
Proof.
  split; [|by vm_compute; lia|lia| |].
  - apply upd_bytes_out; [|by left; vm_compute]. apply upd_bytes_out; [|by right; vm_compute].
    apply (bytes_app _ _ _ (replicate 4 170)), upd_bytes.
  - repeat constructor; unfold in_u; cbn; lia.
  - apply NoDup_singleton.
Qed.

Lemma sample_name : cstring sample_xattr 100 [98].
Proof. split; [|repeat constructor; lia]. apply upd_bytes_out; [apply upd_bytes|cbn; lia]. Qed.

Lemma sample_room : mapped sample_xattr 200 36.
Proof.
  apply upd_mapped, upd_mapped. assert (length (contents true 32 sample_recs ++ replicate 4 170) = 36%nat) as <- by by vm_compute.
  apply bytes_mapped, upd_bytes.
Qed.

Example nval_refines_witness : nval_set true 200 32 100 300 2 XATTR_CREATE sample_xattr =
  Ok (0, upd sample_xattr 200 (contents true 32 (sample_recs ++ [([98], [7; 8])]))).
Proof.
  pose proof (nval_refines true sample_xattr 200 32 sample_recs 100 [98] 300 [7; 8] 2 XATTR_CREATE
    sample_stored sample_name ltac:(lia) ltac:(lia) ltac:(lia) ltac:(lia) ltac:(cbn; lia)
    (bytes_mapped _ _ _ (upd_bytes [7; 8] _ 300)) ltac:(unfold apart; lia) sample_room
    ltac:(unfold apart; cbn; lia) (upd_bytes [7; 8] _ 300) ltac:(repeat constructor; unfold in_u; lia)
    ltac:(unfold apart; cbn; lia)) as H.
  destruct H as (_ & _ & _ & _ & _ & Hset & _). refine (eq_trans Hset _). by vm_compute.
Defined.

(** A record of the whole buffer is stored, and not found any more. *)
Example nval_full_record_lost :
  let m := upd (upd (upd ∅ 200 (replicate 20 0)) 100 [98; 0]) 300 (replicate 10 7) in
  match nval_set false 200 16 100 300 10 0 m with
  | Ok (r, m') => r = 0 ∧ nval_get false 200 16 100 300 0 m' = Ok (- ENODATA, m')
  | Err _ => False
  end.
Proof. by vm_compute. Qed.

(** With a record that ends less than four bytes before the end of the buffer, bytes behind the
    buffer are written. *)
Example nval_set_overruns :
  let m := upd (upd (upd ∅ 200 (replicate 16 0)) 100 [98; 0]) 300 (replicate 10 7) in
  nval_set false 200 16 100 300 8 0 m = Err FUndef.
Proof. by vm_compute. Qed.
