(* ===== verification/YaffsDev.v ===== *)
(** * YAFFS: the device, its blocks and chunks

    The block level of [fs/yaffs2/_private]: [yaffs_bitmap.c], [yaffs_getblockinfo.h],
    [yaffs_nand.c], [yaffs_tagscompat.c], [yaffs_tagsmarshall.c], [yaffs_summary.c] and
    the parts of [yaffs_guts.c] and [yaffs_yaffs2.c] that allocate, write, delete and
    erase. What [struct yaffs_dev] fixes when it is mounted is a class of parameters,
    the rest is the state of the programs. The driver's functions, which a port of
    YAFFS supplies, are a class of functions on a type of flashes.

    A [struct yaffs_block_info *] is the number of its block: two pointers to one
    block are one number, and every access reads the block as it is then. *)

From S2P Require Import Prelude Memory Endian YaffsEcc YaffsTags.

Definition YAFFS_OK : Z := 1.
Definition YAFFS_FAIL : Z := 0.
Definition YAFFS_SEQUENCE_BAD_BLOCK : Z := 0xffff0000.
Definition YAFFS_N_TEMP_BUFFERS : nat := 6.

(** ** What a mounted device fixes *)

Class yaffs_config := {
  (* struct yaffs_param *)
  inband_tags : bool;
  total_bytes_per_chunk : Z;
  chunks_per_block : Z;
  start_block : Z;
  end_block : Z;
  n_reserved_blocks : Z;
  use_nand_ecc : bool;
  no_tags_ecc : bool;
  is_yaffs2 : bool;
  refresh_period : Z;
  skip_checkpt_wr : bool;
  always_check_erased : bool;
  disable_bad_block_marking : bool;
  (* struct yaffs_dev *)
  data_bytes_per_chunk : Z;
  tnode_size : Z;
  swap_endian : bool;
  read_only : bool;
  internal_start_block : Z;
  internal_end_block : Z;
  block_offset : Z;
  chunk_offset : Z;
  chunk_bit_stride : Z;
  chunks_per_summary : Z;
  (* what a temporary buffer holds when it is handed out: [total_bytes_per_chunk]
     bytes that some earlier use left *)
  temp_bytes : list Z;
  (* variables of yaffsfs.c, and the bits of [yaffs_trace_mask] that are tested *)
  yaffs_wr_attempts : Z;
  skip_verification : bool;
  trace_erase : bool
}.

(** [struct yaffs_driver]: a read returns the contents of the buffers that it was
    given, of the lengths asked for, after the call. *)
Class yaffs_driver (F : Type) := {
  drv_write_chunk_fn : Z → option (list Z) → Z → option (list Z) → F → Z * F;
  drv_read_chunk_fn : Z → option Z → option Z → F → (Z * list Z * list Z * yaffs_ecc_result) * F;
  drv_erase_fn : Z → F → Z * F;
  drv_mark_bad_fn : Z → F → Z * F;
  drv_check_bad_fn : Z → F → Z * F
}.

(** ** State *)

Inductive yaffs_block_state : Type :=
  | YAFFS_BLOCK_STATE_UNKNOWN
  | YAFFS_BLOCK_STATE_SCANNING
  | YAFFS_BLOCK_STATE_NEEDS_SCAN
  | YAFFS_BLOCK_STATE_EMPTY
  | YAFFS_BLOCK_STATE_ALLOCATING
  | YAFFS_BLOCK_STATE_FULL
  | YAFFS_BLOCK_STATE_DIRTY
  | YAFFS_BLOCK_STATE_CHECKPOINT
  | YAFFS_BLOCK_STATE_COLLECTING
  | YAFFS_BLOCK_STATE_DEAD.

#[global] Instance yaffs_block_state_eq_dec : EqDecision yaffs_block_state.
Proof. solve_decision. Defined.

(** The bit-fields of two values are booleans. *)
Record yaffs_block_info := mk_bi {
  soft_del_pages : Z;
  pages_in_use : Z;
  block_state : yaffs_block_state;
  needs_retiring : bool;
  skip_erased_check : bool;
  gc_prioritise : bool;
  chunk_error_strikes : Z;
  has_summary : bool;
  has_shrink_hdr : bool;
  bi_seq_number : Z
}.

Definition set_soft_del_pages (v : Z) (d : yaffs_block_info) : yaffs_block_info :=
  mk_bi v (pages_in_use d) (block_state d) (needs_retiring d) (skip_erased_check d)
    (gc_prioritise d) (chunk_error_strikes d) (has_summary d) (has_shrink_hdr d)
    (bi_seq_number d).
Definition set_pages_in_use (v : Z) (d : yaffs_block_info) : yaffs_block_info :=
  mk_bi (soft_del_pages d) v (block_state d) (needs_retiring d) (skip_erased_check d)
    (gc_prioritise d) (chunk_error_strikes d) (has_summary d) (has_shrink_hdr d)
    (bi_seq_number d).
Definition set_block_state (v : yaffs_block_state) (d : yaffs_block_info) : yaffs_block_info :=
  mk_bi (soft_del_pages d) (pages_in_use d) v (needs_retiring d) (skip_erased_check d)
    (gc_prioritise d) (chunk_error_strikes d) (has_summary d) (has_shrink_hdr d)
    (bi_seq_number d).
Definition set_needs_retiring (v : bool) (d : yaffs_block_info) : yaffs_block_info :=
  mk_bi (soft_del_pages d) (pages_in_use d) (block_state d) v (skip_erased_check d)
    (gc_prioritise d) (chunk_error_strikes d) (has_summary d) (has_shrink_hdr d)
    (bi_seq_number d).
Definition set_skip_erased_check (v : bool) (d : yaffs_block_info) : yaffs_block_info :=
  mk_bi (soft_del_pages d) (pages_in_use d) (block_state d) (needs_retiring d) v
    (gc_prioritise d) (chunk_error_strikes d) (has_summary d) (has_shrink_hdr d)
    (bi_seq_number d).
Definition set_gc_prioritise (v : bool) (d : yaffs_block_info) : yaffs_block_info :=
  mk_bi (soft_del_pages d) (pages_in_use d) (block_state d) (needs_retiring d)
    (skip_erased_check d) v (chunk_error_strikes d) (has_summary d) (has_shrink_hdr d)
    (bi_seq_number d).
Definition set_chunk_error_strikes (v : Z) (d : yaffs_block_info) : yaffs_block_info :=
  mk_bi (soft_del_pages d) (pages_in_use d) (block_state d) (needs_retiring d)
    (skip_erased_check d) (gc_prioritise d) v (has_summary d) (has_shrink_hdr d)
    (bi_seq_number d).
Definition set_has_summary (v : bool) (d : yaffs_block_info) : yaffs_block_info :=
  mk_bi (soft_del_pages d) (pages_in_use d) (block_state d) (needs_retiring d)
    (skip_erased_check d) (gc_prioritise d) (chunk_error_strikes d) v (has_shrink_hdr d)
    (bi_seq_number d).
Definition set_has_shrink_hdr (v : bool) (d : yaffs_block_info) : yaffs_block_info :=
  mk_bi (soft_del_pages d) (pages_in_use d) (block_state d) (needs_retiring d)
    (skip_erased_check d) (gc_prioritise d) (chunk_error_strikes d) (has_summary d) v
    (bi_seq_number d).
Definition set_bi_seq_number (v : Z) (d : yaffs_block_info) : yaffs_block_info :=
  mk_bi (soft_del_pages d) (pages_in_use d) (block_state d) (needs_retiring d)
    (skip_erased_check d) (gc_prioritise d) (chunk_error_strikes d) (has_summary d)
    (has_shrink_hdr d) v.

(** The fields of [struct yaffs_dev] that the allocation of chunks works on. *)
Record yaffs_blocks := mk_blocks {
  block_info : list yaffs_block_info;
  chunk_bits : list Z;
  n_erased_blocks : Z;
  alloc_block : Z;
  alloc_page : Z;
  alloc_block_finder : Z;
  n_free_chunks : Z;
  dev_seq_number : Z
}.

Definition set_block_info (v : list yaffs_block_info) (d : yaffs_blocks) : yaffs_blocks :=
  mk_blocks v (chunk_bits d) (n_erased_blocks d) (alloc_block d) (alloc_page d)
    (alloc_block_finder d) (n_free_chunks d) (dev_seq_number d).
Definition set_chunk_bits (v : list Z) (d : yaffs_blocks) : yaffs_blocks :=
  mk_blocks (block_info d) v (n_erased_blocks d) (alloc_block d) (alloc_page d)
    (alloc_block_finder d) (n_free_chunks d) (dev_seq_number d).
Definition set_n_erased_blocks (v : Z) (d : yaffs_blocks) : yaffs_blocks :=
  mk_blocks (block_info d) (chunk_bits d) v (alloc_block d) (alloc_page d)
    (alloc_block_finder d) (n_free_chunks d) (dev_seq_number d).
Definition set_alloc_block (v : Z) (d : yaffs_blocks) : yaffs_blocks :=
  mk_blocks (block_info d) (chunk_bits d) (n_erased_blocks d) v (alloc_page d)
    (alloc_block_finder d) (n_free_chunks d) (dev_seq_number d).
Definition set_alloc_page (v : Z) (d : yaffs_blocks) : yaffs_blocks :=
  mk_blocks (block_info d) (chunk_bits d) (n_erased_blocks d) (alloc_block d) v
    (alloc_block_finder d) (n_free_chunks d) (dev_seq_number d).
Definition set_alloc_block_finder (v : Z) (d : yaffs_blocks) : yaffs_blocks :=
  mk_blocks (block_info d) (chunk_bits d) (n_erased_blocks d) (alloc_block d) (alloc_page d) v
    (n_free_chunks d) (dev_seq_number d).
Definition set_n_free_chunks (v : Z) (d : yaffs_blocks) : yaffs_blocks :=
  mk_blocks (block_info d) (chunk_bits d) (n_erased_blocks d) (alloc_block d) (alloc_page d)
    (alloc_block_finder d) v (dev_seq_number d).
Definition set_dev_seq_number (v : Z) (d : yaffs_blocks) : yaffs_blocks :=
  mk_blocks (block_info d) (chunk_bits d) (n_erased_blocks d) (alloc_block d) (alloc_page d)
    (alloc_block_finder d) (n_free_chunks d) v.

(** Those of garbage collection. *)
Record yaffs_gc := mk_gc {
  has_pending_prioritised_gc : bool;
  gc_disable : bool;
  gc_block_finder : Z;
  gc_dirtiest : Z;
  gc_pages_in_use : Z;
  gc_not_done : Z;
  gc_block : Z;
  gc_chunk : Z;
  gc_skip : Z;
  n_clean_ups : Z;
  refresh_skip : Z;
  oldest_dirty_seq : Z;
  oldest_dirty_block : Z
}.

Definition set_has_pending_prioritised_gc (v : bool) (d : yaffs_gc) : yaffs_gc :=
  mk_gc v (gc_disable d) (gc_block_finder d) (gc_dirtiest d) (gc_pages_in_use d) (gc_not_done d)
    (gc_block d) (gc_chunk d) (gc_skip d) (n_clean_ups d) (refresh_skip d) (oldest_dirty_seq d)
    (oldest_dirty_block d).
Definition set_gc_disable (v : bool) (d : yaffs_gc) : yaffs_gc :=
  mk_gc (has_pending_prioritised_gc d) v (gc_block_finder d) (gc_dirtiest d) (gc_pages_in_use d)
    (gc_not_done d) (gc_block d) (gc_chunk d) (gc_skip d) (n_clean_ups d) (refresh_skip d)
    (oldest_dirty_seq d) (oldest_dirty_block d).
Definition set_gc_block_finder (v : Z) (d : yaffs_gc) : yaffs_gc :=
  mk_gc (has_pending_prioritised_gc d) (gc_disable d) v (gc_dirtiest d) (gc_pages_in_use d)
    (gc_not_done d) (gc_block d) (gc_chunk d) (gc_skip d) (n_clean_ups d) (refresh_skip d)
    (oldest_dirty_seq d) (oldest_dirty_block d).
Definition set_gc_dirtiest (v : Z) (d : yaffs_gc) : yaffs_gc :=
  mk_gc (has_pending_prioritised_gc d) (gc_disable d) (gc_block_finder d) v (gc_pages_in_use d)
    (gc_not_done d) (gc_block d) (gc_chunk d) (gc_skip d) (n_clean_ups d) (refresh_skip d)
    (oldest_dirty_seq d) (oldest_dirty_block d).
Definition set_gc_pages_in_use (v : Z) (d : yaffs_gc) : yaffs_gc :=
  mk_gc (has_pending_prioritised_gc d) (gc_disable d) (gc_block_finder d) (gc_dirtiest d) v
    (gc_not_done d) (gc_block d) (gc_chunk d) (gc_skip d) (n_clean_ups d) (refresh_skip d)
    (oldest_dirty_seq d) (oldest_dirty_block d).
Definition set_gc_not_done (v : Z) (d : yaffs_gc) : yaffs_gc :=
  mk_gc (has_pending_prioritised_gc d) (gc_disable d) (gc_block_finder d) (gc_dirtiest d)
    (gc_pages_in_use d) v (gc_block d) (gc_chunk d) (gc_skip d) (n_clean_ups d) (refresh_skip d)
    (oldest_dirty_seq d) (oldest_dirty_block d).
Definition set_gc_block (v : Z) (d : yaffs_gc) : yaffs_gc :=
  mk_gc (has_pending_prioritised_gc d) (gc_disable d) (gc_block_finder d) (gc_dirtiest d)
    (gc_pages_in_use d) (gc_not_done d) v (gc_chunk d) (gc_skip d) (n_clean_ups d)
    (refresh_skip d) (oldest_dirty_seq d) (oldest_dirty_block d).
Definition set_gc_chunk (v : Z) (d : yaffs_gc) : yaffs_gc :=
  mk_gc (has_pending_prioritised_gc d) (gc_disable d) (gc_block_finder d) (gc_dirtiest d)
    (gc_pages_in_use d) (gc_not_done d) (gc_block d) v (gc_skip d) (n_clean_ups d)
    (refresh_skip d) (oldest_dirty_seq d) (oldest_dirty_block d).
Definition set_gc_skip (v : Z) (d : yaffs_gc) : yaffs_gc :=
  mk_gc (has_pending_prioritised_gc d) (gc_disable d) (gc_block_finder d) (gc_dirtiest d)
    (gc_pages_in_use d) (gc_not_done d) (gc_block d) (gc_chunk d) v (n_clean_ups d)
    (refresh_skip d) (oldest_dirty_seq d) (oldest_dirty_block d).
Definition set_n_clean_ups (v : Z) (d : yaffs_gc) : yaffs_gc :=
  mk_gc (has_pending_prioritised_gc d) (gc_disable d) (gc_block_finder d) (gc_dirtiest d)
    (gc_pages_in_use d) (gc_not_done d) (gc_block d) (gc_chunk d) (gc_skip d) v (refresh_skip d)
    (oldest_dirty_seq d) (oldest_dirty_block d).
Definition set_refresh_skip (v : Z) (d : yaffs_gc) : yaffs_gc :=
  mk_gc (has_pending_prioritised_gc d) (gc_disable d) (gc_block_finder d) (gc_dirtiest d)
    (gc_pages_in_use d) (gc_not_done d) (gc_block d) (gc_chunk d) (gc_skip d) (n_clean_ups d) v
    (oldest_dirty_seq d) (oldest_dirty_block d).
Definition set_oldest_dirty_seq (v : Z) (d : yaffs_gc) : yaffs_gc :=
  mk_gc (has_pending_prioritised_gc d) (gc_disable d) (gc_block_finder d) (gc_dirtiest d)
    (gc_pages_in_use d) (gc_not_done d) (gc_block d) (gc_chunk d) (gc_skip d) (n_clean_ups d)
    (refresh_skip d) v (oldest_dirty_block d).
Definition set_oldest_dirty_block (v : Z) (d : yaffs_gc) : yaffs_gc :=
  mk_gc (has_pending_prioritised_gc d) (gc_disable d) (gc_block_finder d) (gc_dirtiest d)
    (gc_pages_in_use d) (gc_not_done d) (gc_block d) (gc_chunk d) (gc_skip d) (n_clean_ups d)
    (refresh_skip d) (oldest_dirty_seq d) v.

(** The temporary buffers: whether each is in use. *)
Record yaffs_temp := mk_temp {
  temp_buffer : list bool;
  temp_in_use : Z;
  max_temp : Z;
  unmanaged_buffer_allocs : Z;
  unmanaged_buffer_deallocs : Z
}.

Definition set_temp_buffer (v : list bool) (d : yaffs_temp) : yaffs_temp :=
  mk_temp v (temp_in_use d) (max_temp d) (unmanaged_buffer_allocs d)
    (unmanaged_buffer_deallocs d).
Definition set_temp_in_use (v : Z) (d : yaffs_temp) : yaffs_temp :=
  mk_temp (temp_buffer d) v (max_temp d) (unmanaged_buffer_allocs d)
    (unmanaged_buffer_deallocs d).
Definition set_max_temp (v : Z) (d : yaffs_temp) : yaffs_temp :=
  mk_temp (temp_buffer d) (temp_in_use d) v (unmanaged_buffer_allocs d)
    (unmanaged_buffer_deallocs d).
Definition set_unmanaged_buffer_allocs (v : Z) (d : yaffs_temp) : yaffs_temp :=
  mk_temp (temp_buffer d) (temp_in_use d) (max_temp d) v (unmanaged_buffer_deallocs d).
Definition set_unmanaged_buffer_deallocs (v : Z) (d : yaffs_temp) : yaffs_temp :=
  mk_temp (temp_buffer d) (temp_in_use d) (max_temp d) (unmanaged_buffer_allocs d) v.

Record yaffs_summary_tags := mk_summary_tags {
  st_obj_id : Z;
  st_chunk_id : Z;
  st_n_bytes : Z
}.

(** The counters of events. *)
Inductive stat : Type :=
  | N_page_writes | N_page_reads | N_erasures | N_bad_markings | N_erase_failures
  | N_retried_writes | N_retired_blocks | N_ecc_fixed | N_ecc_unfixed | N_tags_ecc_fixed
  | N_tags_ecc_unfixed | N_deletions | N_unmarked_deletions | Refresh_count
  | N_gc_blocks | Bg_gcs | Oldest_dirty_gc_count | All_gcs | Passive_gc_count | N_gc_copies | Cache_hits.

#[global] Instance stat_eq_dec : EqDecision stat.
Proof. solve_decision. Defined.

Record yaffs_dev (F : Type) := mk_dev {
  flash : F;
  blocks : yaffs_blocks;
  gc : yaffs_gc;
  temp : yaffs_temp;
  is_checkpointed : bool;
  blocks_in_checkpt : Z;
  checkpoint_blocks_required : Z;
  sum_tags : option (list yaffs_summary_tags);
  n_obj : Z;
  n_tnodes : Z;
  stats : stat → Z
}.
Arguments mk_dev {F}.
Arguments flash {F} _.
Arguments blocks {F} _.
Arguments gc {F} _.
Arguments temp {F} _.
Arguments is_checkpointed {F} _.
Arguments blocks_in_checkpt {F} _.
Arguments checkpoint_blocks_required {F} _.
Arguments sum_tags {F} _.
Arguments n_obj {F} _.
Arguments n_tnodes {F} _.
Arguments stats {F} _.

Definition set_flash {F} (v : F) (d : yaffs_dev F) : yaffs_dev F :=
  mk_dev v (blocks d) (gc d) (temp d) (is_checkpointed d) (blocks_in_checkpt d)
    (checkpoint_blocks_required d) (sum_tags d) (n_obj d) (n_tnodes d) (stats d).
Definition set_blocks {F} (v : yaffs_blocks) (d : yaffs_dev F) : yaffs_dev F :=
  mk_dev (flash d) v (gc d) (temp d) (is_checkpointed d) (blocks_in_checkpt d)
    (checkpoint_blocks_required d) (sum_tags d) (n_obj d) (n_tnodes d) (stats d).
Definition set_gc {F} (v : yaffs_gc) (d : yaffs_dev F) : yaffs_dev F :=
  mk_dev (flash d) (blocks d) v (temp d) (is_checkpointed d) (blocks_in_checkpt d)
    (checkpoint_blocks_required d) (sum_tags d) (n_obj d) (n_tnodes d) (stats d).
Definition set_temp {F} (v : yaffs_temp) (d : yaffs_dev F) : yaffs_dev F :=
  mk_dev (flash d) (blocks d) (gc d) v (is_checkpointed d) (blocks_in_checkpt d)
    (checkpoint_blocks_required d) (sum_tags d) (n_obj d) (n_tnodes d) (stats d).
Definition set_is_checkpointed {F} (v : bool) (d : yaffs_dev F) : yaffs_dev F :=
  mk_dev (flash d) (blocks d) (gc d) (temp d) v (blocks_in_checkpt d)
    (checkpoint_blocks_required d) (sum_tags d) (n_obj d) (n_tnodes d) (stats d).
Definition set_blocks_in_checkpt {F} (v : Z) (d : yaffs_dev F) : yaffs_dev F :=
  mk_dev (flash d) (blocks d) (gc d) (temp d) (is_checkpointed d) v
    (checkpoint_blocks_required d) (sum_tags d) (n_obj d) (n_tnodes d) (stats d).
Definition set_checkpoint_blocks_required {F} (v : Z) (d : yaffs_dev F) : yaffs_dev F :=
  mk_dev (flash d) (blocks d) (gc d) (temp d) (is_checkpointed d) (blocks_in_checkpt d) v
    (sum_tags d) (n_obj d) (n_tnodes d) (stats d).
Definition set_sum_tags {F} (v : option (list yaffs_summary_tags)) (d : yaffs_dev F) : yaffs_dev F :=
  mk_dev (flash d) (blocks d) (gc d) (temp d) (is_checkpointed d) (blocks_in_checkpt d)
    (checkpoint_blocks_required d) v (n_obj d) (n_tnodes d) (stats d).
Definition set_n_obj {F} (v : Z) (d : yaffs_dev F) : yaffs_dev F :=
  mk_dev (flash d) (blocks d) (gc d) (temp d) (is_checkpointed d) (blocks_in_checkpt d)
    (checkpoint_blocks_required d) (sum_tags d) v (n_tnodes d) (stats d).
Definition set_n_tnodes {F} (v : Z) (d : yaffs_dev F) : yaffs_dev F :=
  mk_dev (flash d) (blocks d) (gc d) (temp d) (is_checkpointed d) (blocks_in_checkpt d)
    (checkpoint_blocks_required d) (sum_tags d) (n_obj d) v (stats d).
Definition set_stats {F} (v : stat → Z) (d : yaffs_dev F) : yaffs_dev F :=
  mk_dev (flash d) (blocks d) (gc d) (temp d) (is_checkpointed d) (blocks_in_checkpt d)
    (checkpoint_blocks_required d) (sum_tags d) (n_obj d) (n_tnodes d) v.

Section dev.
Context {F : Type} {cfg : yaffs_config} {drv : yaffs_driver F}.
Abbreviation dev := (yaffs_dev F).
Abbreviation M := (prog (yaffs_dev F)).

Definition upd_blocks (f : yaffs_blocks → yaffs_blocks) : M () :=
  modify (λ d, set_blocks (f (blocks d)) d).
Definition upd_gc (f : yaffs_gc → yaffs_gc) : M () := modify (λ d, set_gc (f (gc d)) d).
Definition upd_temp (f : yaffs_temp → yaffs_temp) : M () := modify (λ d, set_temp (f (temp d)) d).

(** [dev->counter++] of an unsigned counter. *)
Definition bump_by (s : stat) (n : Z) : M () :=
  modify (λ d, set_stats (λ s', if decide (s' = s) then u32 (stats d s + n) else stats d s') d).
Definition bump (s : stat) : M () := bump_by s 1.

(** A call of the driver. *)
Definition on_flash {A} (f : F → A * F) : M A :=
  d ← get;
  let '(x, s) := f (flash d) in
  put (set_flash s d);;
  mret x.

(** ** Block information *)

(** [yaffs_get_block_info]: the pointer is the number of the block; [BUG()] returns
    to an access outside of the array. *)
Definition yaffs_get_block_info (blk : Z) : M Z :=
  if (blk <? internal_start_block) || (internal_end_block <? blk) then fail FBug else mret blk.

(** [*bi] and [bi->field = v]. *)
Definition bi_of (blk : Z) : M yaffs_block_info :=
  d ← get;
  defined (znth (block_info (blocks d)) (blk - internal_start_block)).

Definition upd_bi (blk : Z) (f : yaffs_block_info → yaffs_block_info) : M () :=
  d ← get;
  bi ← bi_of blk;
  l ← defined (zset (block_info (blocks d)) (blk - internal_start_block) (f bi));
  upd_blocks (set_block_info l).

(** ** Bitmap of the chunks in use: yaffs_bitmap.c *)

(** The result is the offset of the block's bits in [dev->chunk_bits]. *)
Definition yaffs_block_bits (blk : Z) : M Z :=
  if (blk <? internal_start_block) || (internal_end_block <? blk) then fail FBug
  else mret (chunk_bit_stride * (blk - internal_start_block)).

Definition yaffs_verify_chunk_bit_id (blk chunk : Z) : M () :=
  if (blk <? internal_start_block) || (internal_end_block <? blk) ||
     (chunk <? 0) || (chunks_per_block <=? chunk)
  then fail FBug else mret ().

Definition bits_byte (i : Z) : M Z := d ← get; defined (znth (chunk_bits (blocks d)) i).

Definition set_bits_byte (i b : Z) : M () :=
  d ← get;
  l ← defined (zset (chunk_bits (blocks d)) i b);
  upd_blocks (set_chunk_bits l).

(** [memset] of [n] bytes. *)
Fixpoint clear_bytes (n : nat) (i : Z) : M () :=
  match n with
  | O => mret ()
  | S n' => set_bits_byte i 0;; clear_bytes n' (i + 1)
  end.

Definition yaffs_clear_chunk_bits (blk : Z) : M () :=
  blk_bits ← yaffs_block_bits blk;
  clear_bytes (Z.to_nat chunk_bit_stride) blk_bits.

Definition yaffs_clear_chunk_bit (blk chunk : Z) : M () :=
  blk_bits ← yaffs_block_bits blk;
  yaffs_verify_chunk_bit_id blk chunk;;
  b ← bits_byte (blk_bits + chunk / 8);
  set_bits_byte (blk_bits + chunk / 8)
    (u8 (Z.land b (Z.lnot (Z.shiftl 1 (Z.land chunk 7))))).

Definition yaffs_set_chunk_bit (blk chunk : Z) : M () :=
  blk_bits ← yaffs_block_bits blk;
  yaffs_verify_chunk_bit_id blk chunk;;
  b ← bits_byte (blk_bits + chunk / 8);
  set_bits_byte (blk_bits + chunk / 8) (u8 (Z.lor b (Z.shiftl 1 (Z.land chunk 7)))).

Definition yaffs_check_chunk_bit (blk chunk : Z) : M bool :=
  blk_bits ← yaffs_block_bits blk;
  yaffs_verify_chunk_bit_id blk chunk;;
  b ← bits_byte (blk_bits + chunk / 8);
  mret (negb (Z.land b (Z.shiftl 1 (Z.land chunk 7)) =? 0)).

(** The loop of [yaffs_still_some_chunks] over [n] bytes from the offset [i]. *)
Fixpoint some_bits (n : nat) (i : Z) : M bool :=
  match n with
  | O => mret false
  | S n' =>
      b ← bits_byte i;
      if negb (b =? 0) then mret true else some_bits n' (i + 1)
  end.

Definition yaffs_still_some_chunks (blk : Z) : M bool :=
  blk_bits ← yaffs_block_bits blk;
  some_bits (Z.to_nat chunk_bit_stride) blk_bits.

Fixpoint count_bits (k : nat) (i n : Z) : M Z :=
  match k with
  | O => mret n
  | S k' =>
      b ← bits_byte i;
      count_bits k' (i + 1) (n + yaffs_hweight8 b)
  end.

Definition yaffs_count_chunk_bits (blk : Z) : M Z :=
  blk_bits ← yaffs_block_bits blk;
  count_bits (Z.to_nat chunk_bit_stride) blk_bits 0.

(** ** Temporary buffers *)

(** The first buffer that is not in use. *)
Fixpoint free_buffer (l : list bool) : option nat :=
  match l with
  | [] => None
  | in_use :: l' => if in_use then S <$> free_buffer l' else Some O
  end.

(** A buffer is managed ([Some i]) or allocated for this call ([None]); the
    allocation is taken to succeed. *)
Definition yaffs_get_temp_buffer : M (option nat) :=
  upd_temp (λ t, set_temp_in_use (temp_in_use t + 1) t);;
  upd_temp (λ t, if max_temp t <? temp_in_use t then set_max_temp (temp_in_use t) t else t);;
  d ← get;
  match free_buffer (temp_buffer (temp d)) with
  | Some i =>
      upd_temp (λ t, set_temp_buffer (<[i := true]> (temp_buffer t)) t);;
      mret (Some i)
  | None =>
      upd_temp (λ t, set_unmanaged_buffer_allocs (unmanaged_buffer_allocs t + 1) t);;
      mret None
  end.

Definition yaffs_release_temp_buffer (buffer : option nat) : M () :=
  upd_temp (λ t, set_temp_in_use (temp_in_use t - 1) t);;
  match buffer with
  | Some i => upd_temp (λ t, set_temp_buffer (<[i := false]> (temp_buffer t)) t)
  | None => upd_temp (λ t, set_unmanaged_buffer_deallocs (unmanaged_buffer_deallocs t + 1) t)
  end.

(** ** The oldest block with free space: yaffs_yaffs2.c *)

(** The loop over the blocks, from the block [i] on. *)
Fixpoint oldest_dirty_loop (l : list yaffs_block_info) (i seq block_no : Z) : Z * Z :=
  match l with
  | [] => (seq, block_no)
  | b :: l' =>
      if bool_decide (block_state b = YAFFS_BLOCK_STATE_FULL) &&
         (u32 (pages_in_use b - soft_del_pages b) <? chunks_per_block) &&
         (bi_seq_number b <? seq)
      then oldest_dirty_loop l' (i + 1) (bi_seq_number b) i
      else oldest_dirty_loop l' (i + 1) seq block_no
  end.

Definition yaffs_calc_oldest_dirty_seq : M () :=
  if negb is_yaffs2 then mret ()
  else
    d ← get;
    let '(seq, block_no) :=
      oldest_dirty_loop (block_info (blocks d)) internal_start_block
        (u32 (dev_seq_number (blocks d) + 1)) 0 in
    when (negb (block_no =? 0))
      (upd_gc (λ g, set_oldest_dirty_block block_no (set_oldest_dirty_seq seq g))).

Definition yaffs2_find_oldest_dirty_seq : M () :=
  if negb is_yaffs2 then mret ()
  else
    d ← get;
    when (oldest_dirty_seq (gc d) =? 0) yaffs_calc_oldest_dirty_seq.

(** [bi] is not null where it is called. *)
Definition yaffs2_clear_oldest_dirty_seq (bi : Z) : M () :=
  if negb is_yaffs2 then mret ()
  else
    b ← bi_of bi;
    d ← get;
    when (bi_seq_number b =? oldest_dirty_seq (gc d))
      (upd_gc (λ g, set_oldest_dirty_block 0 (set_oldest_dirty_seq 0 g))).

Definition yaffs2_update_oldest_dirty_seq (block_no bi : Z) : M () :=
  if negb is_yaffs2 then mret ()
  else
    d ← get;
    if oldest_dirty_seq (gc d) =? 0 then mret ()
    else
      b ← bi_of bi;
      when (bi_seq_number b <? oldest_dirty_seq (gc d))
        (upd_gc (λ g, set_oldest_dirty_block block_no (set_oldest_dirty_seq (bi_seq_number b) g))).

Definition yaffs_block_ok_for_gc (bi : Z) : M bool :=
  if negb is_yaffs2 then mret true
  else
    b ← bi_of bi;
    if negb (has_shrink_hdr b) then mret true
    else
      yaffs2_find_oldest_dirty_seq;;
      b ← bi_of bi;
      d ← get;
      mret (bi_seq_number b <=? oldest_dirty_seq (gc d)).

(** The loop of [yaffs2_find_refresh_block]. *)
Fixpoint refresh_loop (l : list yaffs_block_info) (b oldest oldest_seq : Z) : Z :=
  match l with
  | [] => oldest
  | bi :: l' =>
      if bool_decide (block_state bi = YAFFS_BLOCK_STATE_FULL) &&
         ((oldest <? 1) || (bi_seq_number bi <? oldest_seq))
      then refresh_loop l' (b + 1) b (bi_seq_number bi)
      else refresh_loop l' (b + 1) oldest oldest_seq
  end.

Definition yaffs2_find_refresh_block : M Z :=
  if negb is_yaffs2 then mret 0
  else if refresh_period <? 10 then mret 0
  else
    upd_gc (λ g, if refresh_period <? refresh_skip g then set_refresh_skip refresh_period g else g);;
    d ← get;
    if 0 <? refresh_skip (gc d) then mret 0
    else
      upd_gc (set_refresh_skip refresh_period);;
      bump Refresh_count;;
      mret (refresh_loop (block_info (blocks d)) internal_start_block 0 0).

(** ** Space for checkpoints *)

Definition YAFFS_CHECKPOINT_MIN_BLOCKS : Z := 60.

Definition yaffs2_checkpt_required : bool :=
  if negb is_yaffs2 then false
  else
    let nblocks := internal_end_block - internal_start_block + 1 in
    negb skip_checkpt_wr && negb read_only && (YAFFS_CHECKPOINT_MIN_BLOCKS <=? nblocks).

(** The sizes of the structures of a checkpoint: validity marker, device, block
    information, object. *)
Definition sizeof_checkpt_validity : Z := 16.
Definition sizeof_checkpt_dev : Z := 36.
Definition sizeof_block_info : Z := 8.
Definition sizeof_checkpt_obj : Z := 32.

Definition yaffs_calc_checkpt_blocks_required : M Z :=
  if negb is_yaffs2 then mret 0
  else
    d ← get;
    when ((checkpoint_blocks_required d =? 0) && yaffs2_checkpt_required) (
      let dev_blocks := end_block - start_block + 1 in
      let n_bytes :=
        sizeof_checkpt_validity + sizeof_checkpt_dev + dev_blocks * sizeof_block_info +
        dev_blocks * chunk_bit_stride + (sizeof_checkpt_obj + 4) * n_obj d +
        (tnode_size + 4) * n_tnodes d + sizeof_checkpt_validity + 4 in
      let n_blocks := n_bytes / (data_bytes_per_chunk * chunks_per_block) + 3 in
      modify (set_checkpoint_blocks_required n_blocks));;
    d ← get;
    let retval := checkpoint_blocks_required d - blocks_in_checkpt d in
    mret (if retval <? 0 then 0 else retval).

(** ** Tags of yaffs1: yaffs_tagscompat.c *)

(** The errors that the functions above report in [dev->n_tags_ecc_*]. *)
Definition count_tags_ecc (result : Z) : M () :=
  if 0 <? result then bump N_tags_ecc_fixed
  else when (result <? 0) (bump N_tags_ecc_unfixed).

Definition yaffs_wr_nand (nand_chunk : Z) (data : option (list Z)) (spare : yaffs_spare) : M Z :=
  on_flash (drv_write_chunk_fn nand_chunk data data_bytes_per_chunk (Some (spare_bytes spare))).

Definition yaffs_handle_rd_data_error (nand_chunk : Z) : M () :=
  let flash_block := u32 nand_chunk / chunks_per_block in
  bi ← yaffs_get_block_info (flash_block + block_offset);
  upd_bi bi (set_needs_retiring true).

(** The 16 bytes of the spare area as the structure. *)
Definition spare_of_bytes (l : list Z) : yaffs_spare :=
  let at_ i := nth i l 0 in
  mk_spare (at_ 0%nat) (at_ 1%nat) (at_ 2%nat) (at_ 3%nat) (at_ 4%nat) (at_ 5%nat) (at_ 6%nat)
    (at_ 7%nat) (Ecc3 (at_ 8%nat) (at_ 9%nat) (at_ 10%nat)) (at_ 11%nat) (at_ 12%nat)
    (Ecc3 (at_ 13%nat) (at_ 14%nat) (at_ 15%nat)).

Definition count_data_ecc (result : Z) : M () :=
  if 0 <? result then bump N_ecc_fixed
  else when (result <? 0) (bump N_ecc_unfixed).

(** The return value, the data and the spare area as the call leaves them, and
    what it stores in [*ecc_result], if anything. [want_data] is [data != NULL]. *)
Definition yaffs_rd_chunk_nand (nand_chunk : Z) (want_data correct_errors : bool)
  : M (Z * list Z * yaffs_spare * option yaffs_ecc_result) :=
  r ← on_flash (drv_read_chunk_fn nand_chunk
                  (if want_data then Some data_bytes_per_chunk else None) (Some 16));
  let '(ret_val, data, oob, ecc) := r in
  let spare := spare_of_bytes oob in
  if use_nand_ecc then mret (ret_val, data, spare, Some ecc)
  else if negb want_data || negb correct_errors then mret (ret_val, data, spare, None)
  else
    calc_ecc ← defined (yaffs_ecc_calc data);
    r1 ← defined (yaffs_ecc_correct data (ecc1 spare) calc_ecc);
    let '(ecc_result1, data, e1) := r1 in
    calc_ecc ← defined (yaffs_ecc_calc (drop 256 data));
    r2 ← defined (yaffs_ecc_correct (drop 256 data) (ecc2 spare) calc_ecc);
    let '(ecc_result2, data2, e2) := r2 in
    let data := take 256 data ++ data2 in
    let spare := set_spare_ecc e1 e2 spare in
    count_data_ecc ecc_result1;;
    count_data_ecc ecc_result2;;
    when (negb (ecc_result1 =? 0) || negb (ecc_result2 =? 0)) (yaffs_handle_rd_data_error nand_chunk);;
    let ecc :=
      if (ecc_result1 <? 0) || (ecc_result2 <? 0) then YAFFS_ECC_RESULT_UNFIXED
      else if (0 <? ecc_result1) || (0 <? ecc_result2) then YAFFS_ECC_RESULT_FIXED
      else YAFFS_ECC_RESULT_NO_ERROR in
    mret (ret_val, data, spare, Some ecc).

Definition yaffs_tags_compat_wr (nand_chunk : Z) (data : option (list Z)) (ext_tags : yaffs_ext_tags)
  : M Z :=
  let spare := yaffs_spare_init in
  spare ←
    (if negb (is_deleted ext_tags =? 0) then mret (set_page_status 0 spare)
     else
       (* [tags.ecc] is not set: the code is calculated with the field cleared *)
       let tags := mk_tags (wrapu 20 (chunk_id ext_tags)) (wrapu 2 (serial_number ext_tags))
                     (Z.land (n_bytes ext_tags) (1024 - 1)) (wrapu 18 (obj_id ext_tags)) 0
                     (if 1024 <=? data_bytes_per_chunk
                      then Z.land (Z.shiftr (n_bytes ext_tags) 10) 3 else 3) in
       spare ←
         (match data with
          | Some l =>
              if negb use_nand_ecc then
                e1 ← defined (yaffs_ecc_calc l);
                e2 ← defined (yaffs_ecc_calc (drop 256 l));
                mret (set_spare_ecc e1 e2 spare)
              else mret spare
          | None => mret spare
          end);
       mret (yaffs_load_tags_to_spare swap_endian spare tags));
  yaffs_wr_nand nand_chunk data spare.

(** The data and, unless the read fails, the tags: the fields that are not assigned
    keep the values of [t0]. *)
Definition yaffs_tags_compat_rd (nand_chunk : Z) (want_data : bool) (t0 : yaffs_ext_tags)
  : M (Z * list Z * yaffs_ext_tags) :=
  r ← yaffs_rd_chunk_nand nand_chunk want_data true;
  let '(ret, data, spare, ecc) := r in
  if ret =? 0 then mret (YAFFS_FAIL, data, t0)
  else
    let deleted := if yaffs_hweight8 (page_status spare) <? 7 then 1 else 0 in
    let ecc := default YAFFS_ECC_RESULT_UNKNOWN ecc in
    let used := negb (bool_decide (spare_bytes spare = spare_bytes yaffs_spare_init)) in
    if used then
      let '(result, tags) := yaffs_get_tags_from_spare swap_endian spare in
      count_tags_ecc result;;
      let n := tg_n_bytes_lsb tags in
      let n := if 1024 <=? data_bytes_per_chunk
               then Z.lor n (Z.shiftl (tg_n_bytes_msb tags) 10) else n in
      mret (YAFFS_OK, data,
        mk_ext_tags 1 (tg_obj_id tags) (tg_chunk_id tags) n ecc 0 deleted (tg_serial_number tags)
          (seq_number t0) (extra_available t0) (extra_parent_id t0) (extra_is_shrink t0)
          (extra_shadows t0) (extra_obj_type t0) (extra_file_size t0) (extra_equiv_id t0))
    else
      mret (YAFFS_OK, data,
        mk_ext_tags 0 (obj_id t0) (chunk_id t0) (n_bytes t0) ecc 0 deleted (serial_number t0)
          (seq_number t0) (extra_available t0) (extra_parent_id t0) (extra_is_shrink t0)
          (extra_shadows t0) (extra_obj_type t0) (extra_file_size t0) (extra_equiv_id t0)).

Definition yaffs_tags_compat_mark_bad (flash_block : Z) : M Z :=
  let spare := set_block_status 89 yaffs_spare_init in
  _ ← yaffs_wr_nand (flash_block * chunks_per_block) None spare;
  _ ← yaffs_wr_nand (flash_block * chunks_per_block + 1) None spare;
  mret YAFFS_OK.

(** The return value, [*state] and [*seq_number]. *)
Definition yaffs_tags_compat_query_block (block_no : Z) : M (Z * yaffs_block_state * Z) :=
  r0 ← yaffs_rd_chunk_nand (block_no * chunks_per_block) false false;
  r1 ← yaffs_rd_chunk_nand (block_no * chunks_per_block + 1) false false;
  let '(_, _, spare0, _) := r0 in
  let '(_, _, spare1, _) := r1 in
  let state :=
    if yaffs_hweight8 (Z.land (block_status spare0) (block_status spare1)) <? 7
    then YAFFS_BLOCK_STATE_DEAD
    else if bool_decide (spare_bytes spare0 = spare_bytes yaffs_spare_init)
    then YAFFS_BLOCK_STATE_EMPTY
    else YAFFS_BLOCK_STATE_NEEDS_SCAN in
  mret (YAFFS_OK, state, 0).

(** ** Tags of yaffs2: yaffs_tagsmarshall.c *)

(** [memcpy(p + off, b, ...)] into a buffer. *)
Definition overlay (l : list Z) (off : Z) (b : list Z) : option (list Z) :=
  if (0 <=? off) && (off + zlen b <=? zlen l)
  then Some (take (Z.to_nat off) l ++ b ++ drop (Z.to_nat off + length b) l) else None.

(** [struct yaffs_packed_tags2] in memory: the code is a byte, three bytes of
    padding, which the driver reads as they are, and two words. *)
Definition pt2_bytes (pad : list Z) (pt : yaffs_packed_tags2) : list Z :=
  ptt_bytes (pt_t pt) ++ [col_parity (pt_ecc pt)] ++ pad ++
  digits BE 4 (line_parity (pt_ecc pt)) ++ digits BE 4 (line_parity_prime (pt_ecc pt)).

Definition pt2_of_bytes (l : list Z) : yaffs_packed_tags2 :=
  mk_pt2 (ptt_of_bytes (take 16 l))
    (mk_ecc_other (nth 16 l 0) (number BE (take 4 (drop 20 l))) (number BE (take 4 (drop 24 l)))).

(** [sizeof(pt.t)] or [sizeof(pt)]. *)
Definition packed_tags_size : Z := if no_tags_ecc then 16 else 28.

Definition yaffs_tags_marshall_write (nand_chunk : Z) (data : option (list Z)) (tags : yaffs_ext_tags)
  : M Z :=
  match data with
  | None => fail FBug
  | Some l =>
      if inband_tags then
        l' ← defined (overlay l data_bytes_per_chunk
                        (ptt_bytes (yaffs_pack_tags2_tags_only swap_endian tags)));
        on_flash (drv_write_chunk_fn nand_chunk (Some l') total_bytes_per_chunk None)
      else
        pt ← defined (yaffs_pack_tags2 swap_endian
                        (mk_pt2 (mk_ptt 0 0 0 0) (mk_ecc_other 0 0 0)) tags (negb no_tags_ecc));
        on_flash (drv_write_chunk_fn nand_chunk data total_bytes_per_chunk
                    (Some (if no_tags_ecc then ptt_bytes (pt_t pt) else pt2_bytes [0; 0; 0] pt)))
  end.

(** The order of [enum yaffs_ecc_result]. *)
Definition ecc_Z (r : yaffs_ecc_result) : Z :=
  match r with
  | YAFFS_ECC_RESULT_UNKNOWN => 0
  | YAFFS_ECC_RESULT_NO_ERROR => 1
  | YAFFS_ECC_RESULT_FIXED => 2
  | YAFFS_ECC_RESULT_UNFIXED => 3
  end.

(** The return value, the data and the tags, which keep the values of [t0] when the
    driver fails. *)
Definition yaffs_tags_marshall_read (nand_chunk : Z) (want_data : bool) (t0 : yaffs_ext_tags)
  : M (Z * list Z * yaffs_ext_tags) :=
  let local_data := inband_tags && negb want_data in
  buffer ← (if local_data then b ← yaffs_get_temp_buffer; mret (Some b) else mret None);
  r ← on_flash
    (if inband_tags then drv_read_chunk_fn nand_chunk (Some total_bytes_per_chunk) None
     else drv_read_chunk_fn nand_chunk (if want_data then Some total_bytes_per_chunk else None)
            (Some packed_tags_size));
  let '(retval, data, spare_buffer, ecc) := r in
  if retval =? YAFFS_FAIL then mret (YAFFS_FAIL, data, t0)
  else
    tags ←
      (if inband_tags then
         mret (yaffs_unpack_tags2_tags_only swap_endian
                 (ptt_of_bytes (take 16 (drop (Z.to_nat data_bytes_per_chunk) data))))
       else
         u ← defined (yaffs_unpack_tags2 swap_endian (pt2_of_bytes spare_buffer) (negb no_tags_ecc));
         mret u.1);
    match buffer with Some b => yaffs_release_temp_buffer b | None => mret () end;;
    tags ←
      (match ecc with
       | YAFFS_ECC_RESULT_UNFIXED =>
           bump N_ecc_unfixed;; mret (set_ecc_result YAFFS_ECC_RESULT_UNFIXED tags)
       | YAFFS_ECC_RESULT_FIXED =>
           bump N_ecc_fixed;;
           mret (if ecc_Z (ecc_result tags) <=? 1
                 then set_ecc_result YAFFS_ECC_RESULT_FIXED tags else tags)
       | _ => mret tags
       end);
    mret (if ecc_Z ecc <? 3 then YAFFS_OK else YAFFS_FAIL, data, tags).

(** [t] is not initialised before the read. *)
Definition yaffs_tags_marshall_query_block (t : yaffs_ext_tags) (block_no : Z)
  : M (Z * yaffs_block_state * Z) :=
  retval ← on_flash (drv_check_bad_fn block_no);
  '(state, seq) ←
    (if retval =? YAFFS_FAIL then mret (YAFFS_BLOCK_STATE_DEAD, 0)
     else
       r ← yaffs_tags_marshall_read (block_no * chunks_per_block) false t;
       let '(_, _, t) := r in
       mret (if chunk_used t =? 0 then (YAFFS_BLOCK_STATE_EMPTY, 0)
             else (YAFFS_BLOCK_STATE_NEEDS_SCAN, seq_number t)));
  mret (if retval =? 0 then YAFFS_OK else YAFFS_FAIL, state, seq).

Definition yaffs_tags_marshall_mark_bad (block_no : Z) : M Z :=
  on_flash (drv_mark_bad_fn block_no).

(** ** The tags handler that [yaffs_tags_compat_install] and
    [yaffs_tags_marshall_install] choose, with no handler set before. *)

Definition write_chunk_tags_fn (nand_chunk : Z) (data : option (list Z)) (tags : yaffs_ext_tags) : M Z :=
  if is_yaffs2 then yaffs_tags_marshall_write nand_chunk data tags
  else yaffs_tags_compat_wr nand_chunk data tags.

Definition read_chunk_tags_fn (nand_chunk : Z) (want_data : bool) (t0 : yaffs_ext_tags)
  : M (Z * list Z * yaffs_ext_tags) :=
  if is_yaffs2 then yaffs_tags_marshall_read nand_chunk want_data t0
  else yaffs_tags_compat_rd nand_chunk want_data t0.

Definition query_block_fn (t : yaffs_ext_tags) (block_no : Z) : M (Z * yaffs_block_state * Z) :=
  if is_yaffs2 then yaffs_tags_marshall_query_block t block_no
  else yaffs_tags_compat_query_block block_no.

Definition mark_bad_fn (block_no : Z) : M Z :=
  if is_yaffs2 then yaffs_tags_marshall_mark_bad block_no
  else yaffs_tags_compat_mark_bad block_no.

(** ** Access to the flash: yaffs_nand.c *)

Definition apply_chunk_offset (chunk : Z) : Z := chunk - chunk_offset.

(** The block is marked for early collection, and for retirement after its fourth
    error. *)
Definition yaffs_handle_chunk_error (bi : Z) : M () :=
  b ← bi_of bi;
  if gc_prioritise b then mret ()
  else
    upd_bi bi (set_gc_prioritise true);;
    upd_gc (set_has_pending_prioritised_gc true);;
    upd_bi bi (λ b, set_chunk_error_strikes (wrapu 3 (chunk_error_strikes b + 1)) b);;
    b ← bi_of bi;
    when (3 <? chunk_error_strikes b) (upd_bi bi (set_needs_retiring true)).

(** The tags are those of the caller, or a local variable when it passes none. *)
Definition yaffs_rd_chunk_tags_nand (nand_chunk : Z) (want_data : bool) (t0 : yaffs_ext_tags)
  : M (Z * list Z * yaffs_ext_tags) :=
  bump N_page_reads;;
  r ← read_chunk_tags_fn (apply_chunk_offset nand_chunk) want_data t0;
  let '(_, _, tags) := r in
  when (1 <? ecc_Z (ecc_result tags)) (
    bi ← yaffs_get_block_info (u32 nand_chunk / chunks_per_block);
    yaffs_handle_chunk_error bi);;
  mret r.

Definition yaffs_mark_bad (block_no : Z) : M Z :=
  bump N_bad_markings;;
  if disable_bad_block_marking then mret YAFFS_OK
  else mark_bad_fn (block_no - block_offset).

Definition yaffs_query_init_block_state (t : yaffs_ext_tags) (block_no : Z)
  : M (Z * yaffs_block_state * Z) :=
  query_block_fn t (block_no - block_offset).

Definition yaffs_erase_block (block_no : Z) : M Z :=
  bump N_erasures;;
  on_flash (drv_erase_fn (block_no - block_offset)).

Definition yaffs_skip_rest_of_block : M () :=
  d ← get;
  if 0 <? alloc_block (blocks d) then
    bi ← yaffs_get_block_info (alloc_block (blocks d));
    b ← bi_of bi;
    when (bool_decide (block_state b = YAFFS_BLOCK_STATE_ALLOCATING)) (
      upd_bi bi (set_block_state YAFFS_BLOCK_STATE_FULL);;
      upd_blocks (set_alloc_block (-1)))
  else mret ().

(** ** Summaries: yaffs_summary.c

    The summary of a block holds the tags of its first [chunks_per_summary] chunks;
    it is written in the chunks after them when the last of these is written. *)

Definition YAFFS_SUMMARY_VERSION : Z := 1.
Definition YAFFS_OBJECTID_SUMMARY : Z := 0x10.

Definition summary_tags_zero : yaffs_summary_tags := mk_summary_tags 0 0 0.

Definition yaffs_summary_clear : M () :=
  d ← get;
  match sum_tags d with
  | None => mret ()
  | Some l => modify (set_sum_tags (Some (replicate (length l) summary_tags_zero)))
  end.

(** [(u8 * )dev->sum_tags]. *)
Definition summary_bytes (l : list yaffs_summary_tags) : list Z :=
  l ≫= λ s, [st_obj_id s; st_chunk_id s; st_n_bytes s] ≫= digits BE 4.

Definition yaffs_summary_sum (l : list yaffs_summary_tags) : Z :=
  foldl (λ sum b, u32 (sum + b)) 0 (summary_bytes l).

Record yaffs_summary_header := mk_summary_hdr {
  sh_version : Z;
  sh_block : Z;
  sh_seq : Z;
  sh_sum : Z
}.

Definition summary_header_bytes (h : yaffs_summary_header) : list Z :=
  [sh_version h; sh_block h; sh_seq h; sh_sum h] ≫= digits BE 4.

(** The loop of [yaffs_summary_write] with [wr] for [yaffs_wr_chunk_tags_nand]: the
    buffer, the bytes of the summary that are left and the position. *)
Definition summary_write_body (wr : Z → option (list Z) → yaffs_ext_tags → M Z) (blk : Z)
    (hdr : list Z) (v : list Z * list Z * Z * Z * Z) : M (list Z * list Z * Z * Z * Z + Z) :=
  let '(buffer, sum_buffer, chunk_in_nand, chunk_in_block, chunk) := v in
  let this_tx := Z.min (zlen sum_buffer) (data_bytes_per_chunk - 16) in
  buffer ← defined (overlay buffer 0 hdr);
  buffer ← defined (overlay buffer 16 (take (Z.to_nat this_tx) sum_buffer));
  let tags := mk_ext_tags 0 YAFFS_OBJECTID_SUMMARY chunk (this_tx + 16) YAFFS_ECC_RESULT_UNKNOWN
                0 0 0 0 0 0 0 0 0 0 0 in
  result ← wr chunk_in_nand (Some buffer) tags;
  if negb (result =? YAFFS_OK) then mret (inr result)
  else
    yaffs_set_chunk_bit blk chunk_in_block;;
    upd_bi blk (λ b, set_pages_in_use (wraps 10 (pages_in_use b + 1)) b);;
    upd_blocks (λ b, set_n_free_chunks (n_free_chunks b - 1) b);;
    let rest := drop (Z.to_nat this_tx) sum_buffer in
    mret (if 0 <? zlen rest
          then inl (buffer, rest, chunk_in_nand + 1, chunk_in_block + 1, chunk + 1) else inr result).

Definition yaffs_summary_write (wr : Z → option (list Z) → yaffs_ext_tags → M Z) (blk : Z) : M Z :=
  bi ← yaffs_get_block_info blk;
  buffer ← yaffs_get_temp_buffer;
  d ← get;
  l ← defined (sum_tags d);
  b ← bi_of bi;
  let hdr := summary_header_bytes
    (mk_summary_hdr YAFFS_SUMMARY_VERSION blk (bi_seq_number b) (yaffs_summary_sum l)) in
  result ← loop (S (length (summary_bytes l))) (summary_write_body wr blk hdr)
    (temp_bytes, summary_bytes l, alloc_block (blocks d) * chunks_per_block + chunks_per_summary,
     chunks_per_summary, 1);
  yaffs_release_temp_buffer buffer;;
  when (result =? YAFFS_OK) (upd_bi bi (set_has_summary true));;
  mret result.

Definition yaffs_summary_add (wr : Z → option (list Z) → yaffs_ext_tags → M Z)
    (tags : yaffs_ext_tags) (chunk_in_nand : Z) : M Z :=
  let block_in_nand := u32 chunk_in_nand / chunks_per_block in
  let chunk_in_block := u32 chunk_in_nand mod chunks_per_block in
  d ← get;
  match sum_tags d with
  | None => mret YAFFS_OK
  | Some l =>
      if (0 <=? chunk_in_block) && (chunk_in_block <? chunks_per_summary) then
        let t := yaffs_pack_tags2_tags_only swap_endian tags in
        l' ← defined (zset l chunk_in_block
                        (mk_summary_tags (pt_obj_id t) (pt_chunk_id t) (pt_n_bytes t)));
        modify (set_sum_tags (Some l'));;
        when (chunk_in_block =? chunks_per_summary - 1) (
          _ ← yaffs_summary_write wr block_in_nand;
          yaffs_summary_clear;;
          yaffs_skip_rest_of_block);;
        mret YAFFS_OK
      else mret YAFFS_OK
  end.

(** The tags with the sequence number and the mark of a used chunk. *)
Definition tags_for_write (seq : Z) (t : yaffs_ext_tags) : yaffs_ext_tags :=
  mk_ext_tags 1 (obj_id t) (chunk_id t) (n_bytes t) (ecc_result t) (block_bad t) (is_deleted t)
    (serial_number t) seq (extra_available t) (extra_parent_id t) (extra_is_shrink t)
    (extra_shadows t) (extra_obj_type t) (extra_file_size t) (extra_equiv_id t).

(** [yaffs_wr_chunk_tags_nand] writes the summary when it writes the last chunk that
    the summary covers, and the chunks of the summary through itself: these are
    beyond the chunks it covers, so a depth of two is enough. *)
Fixpoint wr_chunk_tags_nand (depth : nat) (nand_chunk : Z) (buffer : option (list Z))
    (tags : yaffs_ext_tags) : M Z :=
  match depth with
  | O => fail FFuel
  | S depth' =>
      bump N_page_writes;;
      d ← get;
      let tags := tags_for_write (dev_seq_number (blocks d)) tags in
      result ← write_chunk_tags_fn (apply_chunk_offset nand_chunk) buffer tags;
      _ ← yaffs_summary_add (wr_chunk_tags_nand depth') tags nand_chunk;
      mret result
  end.

Definition yaffs_wr_chunk_tags_nand : Z → option (list Z) → yaffs_ext_tags → M Z :=
  wr_chunk_tags_nand 2.

Definition yaffs_summary_fetch (seq : Z) (chunk_in_block : Z) : M (option yaffs_ext_tags) :=
  if (0 <=? chunk_in_block) && (chunk_in_block <? chunks_per_summary) then
    d ← get;
    l ← defined (sum_tags d);
    s ← defined (znth l chunk_in_block);
    (* [tags_only.seq_number] is not initialised: [seq] *)
    mret (Some (yaffs_unpack_tags2_tags_only swap_endian
                  (mk_ptt seq (st_obj_id s) (st_chunk_id s) (st_n_bytes s))))
  else mret None.

(** The loop of [yaffs_summary_gc] over [n] chunks from the chunk [i]. *)
Fixpoint summary_gc_loop (n : nat) (blk i : Z) : M () :=
  match n with
  | O => mret ()
  | S n' =>
      used ← yaffs_check_chunk_bit blk i;
      when used (
        yaffs_clear_chunk_bit blk i;;
        upd_bi blk (λ b, set_pages_in_use (wraps 10 (pages_in_use b - 1)) b);;
        upd_blocks (λ b, set_n_free_chunks (n_free_chunks b + 1) b));;
      summary_gc_loop n' blk (i + 1)
  end.

Definition yaffs_summary_gc (blk : Z) : M () :=
  bi ← yaffs_get_block_info blk;
  b ← bi_of bi;
  if negb (has_summary b) then mret ()
  else summary_gc_loop (Z.to_nat (chunks_per_block - chunks_per_summary)) blk chunks_per_summary.

(** ** Erased and written chunks: yaffs_guts.c *)

Definition yaffs_check_ff (buffer : list Z) : bool := forallb (λ b, b =? 0xff) buffer.

(** The tags of [yaffs_check_chunk_erased] and [yaffs_verify_chunk_written] are local
    variables: [t] is what they hold before the read. *)
Definition yaffs_check_chunk_erased (t : yaffs_ext_tags) (nand_chunk : Z) : M Z :=
  buffer ← yaffs_get_temp_buffer;
  r ← yaffs_rd_chunk_tags_nand nand_chunk true t;
  let '(result, data, tags) := r in
  let bad := (result =? YAFFS_FAIL) || (1 <? ecc_Z (ecc_result tags)) in
  let bad' := negb (yaffs_check_ff (take (Z.to_nat data_bytes_per_chunk) data)) ||
              negb (chunk_used tags =? 0) in
  yaffs_release_temp_buffer buffer;;
  mret (if bad || bad' then YAFFS_FAIL else YAFFS_OK).

Definition yaffs_verify_chunk_written (t : yaffs_ext_tags) (nand_chunk : Z) (data : option (list Z))
    (tags : yaffs_ext_tags) : M Z :=
  buffer ← yaffs_get_temp_buffer;
  r ← yaffs_rd_chunk_tags_nand nand_chunk true t;
  let '(result, read, temp_tags) := r in
  data ← defined data;
  let n := Z.to_nat data_bytes_per_chunk in
  let bad := (result =? YAFFS_FAIL) || negb (bool_decide (take n read = take n data)) ||
             negb (obj_id temp_tags =? obj_id tags) || negb (chunk_id temp_tags =? chunk_id tags) ||
             negb (n_bytes temp_tags =? n_bytes tags) in
  yaffs_release_temp_buffer buffer;;
  mret (if bad then YAFFS_FAIL else YAFFS_OK).

(** ** Allocation *)

Definition yaffs_check_alloc_available (n_chunks : Z) : M bool :=
  checkpt_blocks ← yaffs_calc_checkpt_blocks_required;
  let reserved_chunks := (n_reserved_blocks + checkpt_blocks) * chunks_per_block in
  d ← get;
  mret (reserved_chunks + n_chunks <? n_free_chunks (blocks d)).

(** A round of the loop of [yaffs_find_alloc_block]; [n] rounds are left. *)
Fixpoint find_alloc_loop (n : nat) : M Z :=
  match n with
  | O => mret (-1)
  | S n' =>
      upd_blocks (λ b, set_alloc_block_finder (alloc_block_finder b + 1) b);;
      upd_blocks (λ b,
        if (alloc_block_finder b <? internal_start_block) ||
           (internal_end_block <? alloc_block_finder b)
        then set_alloc_block_finder internal_start_block b else b);;
      d ← get;
      let finder := alloc_block_finder (blocks d) in
      bi ← yaffs_get_block_info finder;
      b ← bi_of bi;
      if decide (block_state b = YAFFS_BLOCK_STATE_EMPTY) then
        upd_bi bi (set_block_state YAFFS_BLOCK_STATE_ALLOCATING);;
        upd_blocks (λ b, set_dev_seq_number (u32 (dev_seq_number b + 1)) b);;
        d ← get;
        upd_bi bi (set_bi_seq_number (dev_seq_number (blocks d)));;
        upd_blocks (λ b, set_n_erased_blocks (n_erased_blocks b - 1) b);;
        mret finder
      else find_alloc_loop n'
  end.

Definition yaffs_find_alloc_block : M Z :=
  d ← get;
  if n_erased_blocks (blocks d) <? 1 then mret (-1)
  else find_alloc_loop (Z.to_nat (internal_end_block - internal_start_block + 1)).

(** The chunk and the block that [*block_ptr] is set to, if it is set. *)
Definition yaffs_alloc_chunk (use_reserver : bool) : M (Z * option Z) :=
  d ← get;
  when (alloc_block (blocks d) <? 0) (
    blk ← yaffs_find_alloc_block;
    upd_blocks (set_alloc_block blk);;
    upd_blocks (set_alloc_page 0));;
  ok ← (if use_reserver then mret true else yaffs_check_alloc_available 1);
  if negb (ok : bool) then mret (-1, None)
  else
    d ← get;
    let blk := alloc_block (blocks d) in
    let page := alloc_page (blocks d) in
    if 0 <=? blk then
      bi ← yaffs_get_block_info blk;
      let ret_val := blk * chunks_per_block + page in
      upd_bi bi (λ b, set_pages_in_use (wraps 10 (pages_in_use b + 1)) b);;
      yaffs_set_chunk_bit blk page;;
      upd_blocks (set_alloc_page (u32 (page + 1)));;
      upd_blocks (λ b, set_n_free_chunks (n_free_chunks b - 1) b);;
      d ← get;
      when (chunks_per_block <=? alloc_page (blocks d)) (
        upd_bi bi (set_block_state YAFFS_BLOCK_STATE_FULL);;
        upd_blocks (set_alloc_block (-1)));;
      mret (ret_val, Some bi)
    else mret (-1, None).

Definition yaffs_get_erased_chunks : M Z :=
  d ← get;
  let n := n_erased_blocks (blocks d) * chunks_per_block in
  mret (if 0 <? alloc_block (blocks d) then n + (chunks_per_block - alloc_page (blocks d)) else n).

(** ** Deletion *)

(** The loop of [yaffs_checkpt_erase] over [n] blocks from the block [i]. *)
Fixpoint checkpt_erase_loop (n : nat) (i : Z) : M () :=
  match n with
  | O => mret ()
  | S n' =>
      bi ← yaffs_get_block_info i;
      b ← bi_of bi;
      when (bool_decide (block_state b = YAFFS_BLOCK_STATE_CHECKPOINT)) (
        bump N_erasures;;
        result ← on_flash (drv_erase_fn (i - block_offset));
        if negb (result =? 0) then
          upd_bi bi (set_block_state YAFFS_BLOCK_STATE_EMPTY);;
          upd_blocks (λ b, set_n_erased_blocks (n_erased_blocks b + 1) b);;
          upd_blocks (λ b, set_n_free_chunks (n_free_chunks b + chunks_per_block) b)
        else
          _ ← on_flash (drv_mark_bad_fn (i - block_offset));
          upd_bi bi (set_block_state YAFFS_BLOCK_STATE_DEAD));;
      checkpt_erase_loop n' (i + 1)
  end.

Definition yaffs_checkpt_erase : M Z :=
  checkpt_erase_loop (Z.to_nat (internal_end_block - internal_start_block + 1)) internal_start_block;;
  modify (set_blocks_in_checkpt 0);;
  mret 1.

(** [sb_dirty_fn] is not set. *)
Definition yaffs2_checkpt_invalidate : M () :=
  d ← get;
  when (is_checkpointed d || (0 <? blocks_in_checkpt d)) (
    modify (set_is_checkpointed false);;
    _ ← yaffs_checkpt_erase;
    mret ()).

Definition yaffs_retire_block (flash_block : Z) : M () :=
  bi ← yaffs_get_block_info flash_block;
  yaffs2_checkpt_invalidate;;
  yaffs2_clear_oldest_dirty_seq bi;;
  marked ← yaffs_mark_bad flash_block;
  when (negb (marked =? YAFFS_OK)) (
    erased ← yaffs_erase_block flash_block;
    when (erased =? YAFFS_OK) (
      buffer ← yaffs_get_temp_buffer;
      data ← defined (overlay temp_bytes 0 (replicate (Z.to_nat data_bytes_per_chunk) 0xff));
      let tags := mk_ext_tags 0 0 0 0 YAFFS_ECC_RESULT_UNKNOWN 0 0 0 YAFFS_SEQUENCE_BAD_BLOCK
                    0 0 0 0 0 0 0 in
      _ ← write_chunk_tags_fn (flash_block * chunks_per_block - chunk_offset) (Some data) tags;
      yaffs_release_temp_buffer buffer));;
  upd_bi bi (set_block_state YAFFS_BLOCK_STATE_DEAD);;
  upd_bi bi (set_gc_prioritise false);;
  upd_bi bi (set_needs_retiring false);;
  bump N_retired_blocks.

(** The check of the erased chunks of a block that verification asks for; its
    result is only traced. *)
Fixpoint check_erased_loop (t : yaffs_ext_tags) (n : nat) (chunk : Z) : M () :=
  match n with
  | O => mret ()
  | S n' => _ ← yaffs_check_chunk_erased t chunk; check_erased_loop t n' (chunk + 1)
  end.

Definition yaffs_block_became_dirty (t : yaffs_ext_tags) (block_no : Z) : M () :=
  bi ← yaffs_get_block_info block_no;
  yaffs2_clear_oldest_dirty_seq bi;;
  upd_bi bi (set_block_state YAFFS_BLOCK_STATE_DIRTY);;
  upd_gc (λ g, if block_no =? gc_block g then set_gc_block 0 g else g);;
  upd_gc (λ g, if block_no =? gc_dirtiest g
               then set_gc_pages_in_use 0 (set_gc_dirtiest 0 g) else g);;
  b ← bi_of bi;
  erased_ok ←
    (if needs_retiring b then mret 0
     else
       yaffs2_checkpt_invalidate;;
       e ← yaffs_erase_block block_no;
       when (e =? 0) (bump N_erase_failures);;
       mret e);
  when (negb (erased_ok =? 0) && (trace_erase || negb skip_verification))
    (check_erased_loop t (Z.to_nat chunks_per_block) (block_no * chunks_per_block));;
  if erased_ok =? 0 then
    upd_blocks (λ b, set_n_free_chunks (n_free_chunks b - chunks_per_block) b);;
    yaffs_retire_block block_no
  else
    upd_bi bi (set_block_state YAFFS_BLOCK_STATE_EMPTY);;
    upd_bi bi (set_bi_seq_number 0);;
    upd_blocks (λ b, set_n_erased_blocks (n_erased_blocks b + 1) b);;
    upd_bi bi (set_pages_in_use 0);;
    upd_bi bi (set_soft_del_pages 0);;
    upd_bi bi (set_has_shrink_hdr false);;
    upd_bi bi (set_skip_erased_check true);;
    upd_bi bi (set_gc_prioritise false);;
    upd_bi bi (set_has_summary false);;
    yaffs_clear_chunk_bits block_no.

Definition yaffs_chunk_del (t : yaffs_ext_tags) (chunk : Z) (mark_flash : bool) : M () :=
  if chunk <=? 0 then mret ()
  else
    bump N_deletions;;
    let block := u32 chunk / chunks_per_block in
    let page := u32 chunk mod chunks_per_block in
    _ ← yaffs_check_chunk_bit block page;
    bi ← yaffs_get_block_info block;
    yaffs2_update_oldest_dirty_seq block bi;;
    b ← bi_of bi;
    (if negb is_yaffs2 && mark_flash &&
        negb (bool_decide (block_state b = YAFFS_BLOCK_STATE_COLLECTING)) then
       let tags := mk_ext_tags 0 0 0 0 YAFFS_ECC_RESULT_UNKNOWN 0 1 0 0 0 0 0 0 0 0 0 in
       _ ← yaffs_wr_chunk_tags_nand chunk None tags;
       mret ()
     else bump N_unmarked_deletions);;
    b ← bi_of bi;
    when (bool_decide (block_state b ∈ [YAFFS_BLOCK_STATE_ALLOCATING; YAFFS_BLOCK_STATE_FULL;
                         YAFFS_BLOCK_STATE_NEEDS_SCAN; YAFFS_BLOCK_STATE_COLLECTING])) (
      upd_blocks (λ b, set_n_free_chunks (n_free_chunks b + 1) b);;
      yaffs_clear_chunk_bit block page;;
      upd_bi bi (λ b, set_pages_in_use (wraps 10 (pages_in_use b - 1)) b);;
      b ← bi_of bi;
      when ((pages_in_use b =? 0) && negb (has_shrink_hdr b) &&
            negb (bool_decide (block_state b ∈ [YAFFS_BLOCK_STATE_ALLOCATING;
                                 YAFFS_BLOCK_STATE_NEEDS_SCAN])))
        (yaffs_block_became_dirty t block)).

Definition yaffs_soft_del_chunk (chunk : Z) : M () :=
  let block_no := u32 chunk / chunks_per_block in
  the_block ← yaffs_get_block_info block_no;
  upd_bi the_block (λ b, set_soft_del_pages (wraps 10 (soft_del_pages b + 1)) b);;
  upd_blocks (λ b, set_n_free_chunks (n_free_chunks b + 1) b);;
  yaffs2_update_oldest_dirty_seq block_no the_block.

(** ** Writing a new chunk *)

Definition yaffs_handle_chunk_wr_error (t : yaffs_ext_tags) (nand_chunk : Z) (erased_ok : Z) : M () :=
  bi ← yaffs_get_block_info (u32 nand_chunk / chunks_per_block);
  yaffs_handle_chunk_error bi;;
  when (negb (erased_ok =? 0)) (upd_bi bi (set_needs_retiring true));;
  yaffs_chunk_del t nand_chunk true;;
  yaffs_skip_rest_of_block.

(** The [while] of the loop of [yaffs_write_new_chunk]: another round, or out with
    the chunk and the number of attempts. *)
Definition write_again (chunk attempts write_ok : Z) : Z * Z + Z * Z * Z :=
  if negb (write_ok =? YAFFS_OK) &&
     ((yaffs_wr_attempts =? 0) || (attempts <=? yaffs_wr_attempts))
  then inl (attempts, write_ok) else inr (chunk, attempts, write_ok).

(** A round: [attempts] and [write_ok] are the variables of the loop. *)
Definition write_new_body (t : yaffs_ext_tags) (data : option (list Z)) (tags : yaffs_ext_tags)
    (use_reserver : bool) (v : Z * Z) : M (Z * Z + Z * Z * Z) :=
  let '(attempts, write_ok) := v in
  r ← yaffs_alloc_chunk use_reserver;
  let '(chunk, block_ptr) := r in
  if chunk <? 0 then mret (inr (chunk, attempts, write_ok))
  else
    let attempts := u32 (attempts + 1) in
    bi ← defined block_ptr;
    when always_check_erased (upd_bi bi (set_skip_erased_check false));;
    b ← bi_of bi;
    erased_ok ← (if skip_erased_check b then mret 0 else yaffs_check_chunk_erased t chunk);
    if negb (skip_erased_check b) && negb (erased_ok =? YAFFS_OK) then
      yaffs_chunk_del t chunk true;;
      yaffs_skip_rest_of_block;;
      mret (write_again chunk attempts write_ok)
    else
      write_ok ← yaffs_wr_chunk_tags_nand chunk data tags;
      b ← bi_of bi;
      write_ok ← (if skip_erased_check b then mret write_ok
                  else
                    d ← get;
                    yaffs_verify_chunk_written t chunk data
                      (tags_for_write (dev_seq_number (blocks d)) tags));
      if negb (write_ok =? YAFFS_OK) then
        yaffs_handle_chunk_wr_error t chunk erased_ok;;
        mret (write_again chunk attempts write_ok)
      else
        upd_bi bi (set_skip_erased_check true);;
        mret (write_again chunk attempts write_ok).

(** The chunk, or -1. [fuel] bounds the attempts, which [yaffs_wr_attempts] bounds
    unless it is 0. *)
Definition yaffs_write_new_chunk (fuel : nat) (t : yaffs_ext_tags) (data : option (list Z))
    (tags : yaffs_ext_tags) (use_reserver : bool) : M Z :=
  yaffs2_checkpt_invalidate;;
  r ← loop fuel (write_new_body t data tags use_reserver) (0, 0);
  let '(chunk, attempts, write_ok) := r in
  when (1 <? attempts) (bump_by N_retried_writes (attempts - 1));;
  mret (if write_ok =? 0 then -1 else chunk).

(** ** Counting *)

Definition chunks_free (b : yaffs_block_info) : Z :=
  if bool_decide (block_state b ∈ [YAFFS_BLOCK_STATE_EMPTY; YAFFS_BLOCK_STATE_ALLOCATING;
                    YAFFS_BLOCK_STATE_COLLECTING; YAFFS_BLOCK_STATE_FULL])
  then chunks_per_block - pages_in_use b + soft_del_pages b else 0.

(** The loop of [yaffs_count_free_chunks] runs over all of the array. *)
Definition yaffs_count_free_chunks (d : yaffs_dev F) : Z :=
  foldl (λ n b, n + chunks_free b) 0 (block_info (blocks d)).

Definition yaffs_count_blocks_by_state (s : yaffs_block_state) (d : yaffs_dev F) : Z :=
  zlen (filter (λ b, block_state b = s) (block_info (blocks d))).

(** The number of free chunks for the user; [n_dirty_caches] is counted over the
    cache and [n_deleted_files] is a field of the device. *)
Definition yaffs_get_n_free_chunks (n_dirty_caches n_deleted_files : Z) : M Z :=
  d ← get;
  blocks_for_checkpt ← yaffs_calc_checkpt_blocks_required;
  let n := n_free_chunks (blocks d) + n_deleted_files - n_dirty_caches -
           (n_reserved_blocks + 1) * chunks_per_block - blocks_for_checkpt * chunks_per_block in
  mret (if n <? 0 then 0 else n).
End dev.
