(* ===== verification/YaffsFlash.v ===== *)
(** * YAFFS: chunks and tags on a flash that remembers

    The driver's functions are parameters ([yaffs_driver]); [good_flash] is what their
    documentation promises of a flash without bad blocks and bit errors: a chunk that has been
    erased reads as ones, a chunk that was written reads as what was written, an erasure
    clears the chunks of one block. The lemmas give what the tags handlers of yaffs2 read
    and write on such a flash; the clients of this file are proved against the class. *)

From S2P Require Import Prelude Memory Endian YaffsEcc YaffsTags YaffsDev.

(** The contents of a chunk: the data and the spare bytes, or nothing after an erasure. *)
Abbreviation page := (option (list Z * list Z)).

Definition page_data (p : page) (len : Z) : list Z :=
  match p with Some (d, _) => take (Z.to_nat len) d | None => replicate (Z.to_nat len) 0xff end.
Definition page_oob (p : page) (len : Z) : list Z :=
  match p with Some (_, o) => take (Z.to_nat len) o | None => replicate (Z.to_nat len) 0xff end.

Definition asked (f : Z → list Z) (len : option Z) : list Z :=
  match len with Some n => f n | None => [] end.

Class good_flash (F : Type) (cfg : yaffs_config) (drv : yaffs_driver F) := {
  content : F → Z → page;
  good_read f n data_len oob_len : ∃ f', content f' = content f ∧
    drv_read_chunk_fn n data_len oob_len f =
      (YAFFS_OK, asked (page_data (content f n)) data_len, asked (page_oob (content f n)) oob_len,
       YAFFS_ECC_RESULT_NO_ERROR, f');
  good_write f n data len oob : Forall (in_u 8) oob → content f n = None → ∃ f',
    (∀ k, content f' k = if decide (k = n) then Some (data, oob) else content f k) ∧
    drv_write_chunk_fn n (Some data) len (Some oob) f = (YAFFS_OK, f');
  good_erase f b : ∃ f',
    (∀ k, content f' k = if decide (k / chunks_per_block = b) then None else content f k) ∧
    drv_erase_fn b f = (YAFFS_OK, f');
  good_check_bad f b : ∃ f', content f' = content f ∧ drv_check_bad_fn b f = (YAFFS_OK, f')
}.

(** What the configuration of the device has to be. *)
Class plain_device {cfg : yaffs_config} : Prop := {
  pd_yaffs2 : is_yaffs2 = true;
  pd_inband : inband_tags = false;
  pd_data : data_bytes_per_chunk = total_bytes_per_chunk;
  pd_size : 16 < data_bytes_per_chunk < 2 ^ 31;
  pd_offset : chunk_offset = block_offset * chunks_per_block;
  pd_end : internal_end_block + 1 < 2 ^ 28
}.

(** ** The spare bytes of a chunk with tags *)

Section flash.
Context {F : Type} {cfg : yaffs_config} {drv : yaffs_driver F}.

(** What [yaffs_tags_marshall_write] hands to the driver. *)
Definition tags_image (t : yaffs_ext_tags) : option (list Z) :=
  pt ← yaffs_pack_tags2 swap_endian (mk_pt2 (mk_ptt 0 0 0 0) (mk_ecc_other 0 0 0)) t (negb no_tags_ecc);
  Some (if no_tags_ecc then ptt_bytes (pt_t pt) else pt2_bytes [0; 0; 0] pt).

Lemma pt2_bytes_length pt : length (pt2_bytes [0; 0; 0] pt) = 28%nat.
Proof. unfold pt2_bytes. rewrite !length_app, ptt_bytes_length, !digits_length. done. Qed.

Lemma pt2_of_bytes_bytes pt : ptt_wf (pt_t pt) → in_u 32 (line_parity (pt_ecc pt)) →
  in_u 32 (line_parity_prime (pt_ecc pt)) → pt2_of_bytes (pt2_bytes [0; 0; 0] pt) = pt.
Proof.
  intros Hw Hl Hp. destruct pt as [t [c l p]]. cbn [pt_t pt_ecc line_parity line_parity_prime] in *.
  unfold pt2_of_bytes, pt2_bytes. cbn [pt_t pt_ecc col_parity line_parity line_parity_prime].
  pose proof (ptt_bytes_length t) as Hlen. unfold ptt_size in Hlen.
  assert (∀ (b : list Z), take 16 (ptt_bytes t ++ b) = ptt_bytes t) as -> by (intros; by apply take_app_length').
  rewrite ptt_of_bytes_bytes by done.
  assert (∀ (b : list Z), drop 20 (ptt_bytes t ++ [c] ++ [0; 0; 0] ++ b) = b) as ->.
  { intros b. rewrite (app_assoc [c]), app_assoc. apply drop_app_length'. rewrite length_app, Hlen. done. }
  assert (∀ (b : list Z), drop 24 (ptt_bytes t ++ [c] ++ [0; 0; 0] ++ digits BE 4 l ++ b) = b) as ->.
  { intros b. rewrite (app_assoc [c]), app_assoc, app_assoc. apply drop_app_length'.
    rewrite !length_app, Hlen, digits_length. done. }
  rewrite take_app_length' by by rewrite digits_length. rewrite take_ge by by rewrite digits_length.
  rewrite app_nth2, Hlen by lia. by rewrite !number_digits_32.
Qed.

Lemma tags_image_u8 t l : tags_image t = Some l → Forall (in_u 8) l.
Proof.
  unfold tags_image, yaffs_pack_tags2. destruct no_tags_ecc; cbn [negb].
  - intros H. injection H as <-. apply ptt_bytes_u8.
  - set (p := yaffs_pack_tags2_tags_only _ _). unfold yaffs_ecc_calc_other.
    destruct (parity_loop 32 ptt_size 0 (ptt_bytes p) (Parity 0 0 0)) as [q|] eqn:E; [|done]. intros H. injection H as <-.
    destruct (parity_loop_wf 32 ltac:(lia) ptt_size 0 (ptt_bytes p) (Parity 0 0 0) q (ptt_bytes_u8 p) ltac:(unfold parity_wf, in_u; cbn; lia) E) as (Hc & _ & _).
    unfold pt2_bytes. rewrite !Forall_app. split_and!; try apply digits_u8; [apply ptt_bytes_u8| |].
    + apply Forall_singleton. cbn [pt_ecc ecc_other_pack col_parity]. rewrite Z.land_comm.
      apply in_u_land_l; [lia|unfold in_u; lia|]. apply Z.shiftr_nonneg. unfold in_u in Hc. lia.
    + repeat constructor; unfold in_u; lia.
Qed.

Lemma tags_image_unpack t : tags2_ok t → ∃ l pt,
  tags_image t = Some l ∧ zlen l = packed_tags_size ∧
  yaffs_unpack_tags2 swap_endian (pt2_of_bytes l) (negb no_tags_ecc) = Some (tags2_stored YAFFS_ECC_RESULT_NO_ERROR t, pt).
Proof.
  intros Ht. destruct (pack_unpack_tags2 swap_endian (negb no_tags_ecc)
    (mk_pt2 (mk_ptt 0 0 0 0) (mk_ecc_other 0 0 0)) t Ht) as (pt & Hpack & Hun & Hwf & Hl & Hp).
  { cbn. unfold in_u. lia. } { cbn. unfold in_u. lia. }
  unfold tags_image, packed_tags_size. rewrite Hpack. cbn [mbind option_bind]. destruct no_tags_ecc eqn:E.
  - exists (ptt_bytes (pt_t pt)). eexists. split_and!; [done|by rewrite ptt_bytes_length|].
    cbn [negb] in *. unfold yaffs_unpack_tags2 in *. rewrite andb_false_r in *. unfold pt2_of_bytes. cbn [pt_t].
    rewrite take_ge by by rewrite ptt_bytes_length. rewrite ptt_of_bytes_bytes by done. by injection Hun as ->.
  - exists (pt2_bytes [0; 0; 0] pt), pt. split_and!; [done|by rewrite pt2_bytes_length|]. by rewrite pt2_of_bytes_bytes.
Qed.

(** ** Reading and writing a chunk of yaffs2 *)

Context {good : good_flash F cfg drv}.
Context (Hyaffs2 : is_yaffs2 = true) (Hinband : inband_tags = false).
#[local] Set Default Proof Using "All".

Lemma on_flash_run {A} (g : F → A * F) (d : yaffs_dev F) x f' : g (flash d) = (x, f') →
  on_flash g d = Ok (x, set_flash f' d).
Proof. intros H. unfold on_flash. prog_simpl. by rewrite H. Qed.

Lemma write_tags_run (d : yaffs_dev F) n data t : tags2_ok t → content (flash d) n = None →
  ∃ f' oob, tags_image t = Some oob ∧
    (∀ k, content f' k = if decide (k = n) then Some (data, oob) else content (flash d) k) ∧
    write_chunk_tags_fn n (Some data) t d = Ok (YAFFS_OK, set_flash f' d).
Proof.
  intros Ht Hc. destruct (tags_image_unpack t Ht) as (l & pt & Hl & _ & _).
  destruct (good_write (flash d) n data total_bytes_per_chunk l (tags_image_u8 t l Hl) Hc) as (f' & Hf & Hw).
  exists f', l. split_and!; [done|done|]. unfold write_chunk_tags_fn, yaffs_tags_marshall_write. rewrite Hyaffs2, Hinband.
  unfold tags_image in Hl. destruct (yaffs_pack_tags2 _ _ _ _) as [q|]; [|done]. cbn [mbind option_bind] in Hl.
  injection Hl as <-. rewrite run_bind_defined. by apply on_flash_run.
Qed.

(** What a read finds: tags, or an erased chunk. *)
Definition tags_read (p : page) (t : yaffs_ext_tags) : Prop :=
  match p with
  | Some (_, oob) => ∃ t', tags2_ok t' ∧ tags_image t' = Some oob ∧ t = tags2_stored YAFFS_ECC_RESULT_NO_ERROR t'
  | None => t = set_ecc_result YAFFS_ECC_RESULT_NO_ERROR ext_tags_zero
  end.

Lemma erased_unpack : ∃ pt, yaffs_unpack_tags2 swap_endian (pt2_of_bytes (replicate (Z.to_nat packed_tags_size) 0xff)) (negb no_tags_ecc)
  = Some (set_ecc_result YAFFS_ECC_RESULT_NO_ERROR ext_tags_zero, pt).
Proof. unfold packed_tags_size. destruct no_tags_ecc; eexists; reflexivity. Qed.

Lemma read_tags_run (d : yaffs_dev F) n want t0 t : tags_read (content (flash d) n) t →
  ∃ f', content f' = content (flash d) ∧
    read_chunk_tags_fn n want t0 d =
      Ok ((YAFFS_OK, if want then page_data (content (flash d) n) total_bytes_per_chunk else [], t), set_flash f' d).
Proof.
  intros Ht. unfold read_chunk_tags_fn, yaffs_tags_marshall_read. rewrite Hyaffs2, Hinband. cbn [andb]. prog_simpl.
  destruct (good_read (flash d) n (if want then Some total_bytes_per_chunk else None) (Some packed_tags_size)) as (f' & Hf & Hr).
  exists f'. split; [done|]. prog_step (on_flash_run _ d _ _ Hr). cbn [asked].
  assert (∃ pt, yaffs_unpack_tags2 swap_endian (pt2_of_bytes (page_oob (content (flash d) n) packed_tags_size)) (negb no_tags_ecc)
    = Some (t, pt)) as (pt & Hpt).
  { destruct (content (flash d) n) as [[data oob]|]; cbn [tags_read page_oob] in *.
    - destruct Ht as (t' & Hok & Him & ->). destruct (tags_image_unpack t' Hok) as (l & pt & Hl & Hlen & Hun).
      rewrite Him in Hl. injection Hl as <-. exists pt. by rewrite take_ge by lia.
    - subst t. apply erased_unpack. }
  rewrite Hpt. prog_simpl. by destruct want.
Qed.

Lemma query_block_run (d : yaffs_dev F) t0 t b : tags_read (content (flash d) (b * chunks_per_block)) t →
  ∃ f' st seq r, content f' = content (flash d) ∧ st ≠ YAFFS_BLOCK_STATE_DEAD ∧
    query_block_fn t0 b d = Ok ((r, st, seq), set_flash f' d).
Proof.
  intros Ht. unfold query_block_fn, yaffs_tags_marshall_query_block. rewrite Hyaffs2.
  destruct (good_check_bad (flash d) b) as (f1 & Hc1 & Hb). prog_step (on_flash_run _ d _ _ Hb).
  rewrite <- Hc1 in Ht. destruct (read_tags_run (set_flash f1 d) (b * chunks_per_block) false t0 t Ht) as (f2 & Hc2 & Hr).
  unfold read_chunk_tags_fn in Hr. rewrite Hyaffs2 in Hr. cbn [flash set_flash] in Hc2.
  change (YAFFS_OK =? YAFFS_FAIL) with false. prog_step Hr.
  destruct (chunk_used t =? 0); exists f2; do 3 eexists; (split_and!; [by rewrite Hc2| |reflexivity]); done.
Qed.
End flash.
