(* ===== verification/YaffsBlocks.v ===== *)
(** * YAFFS: the accounting of blocks and chunks

    The state of the blocks of [YaffsDev] is described by what each block holds: the
    chunks whose bits are set, the counts in its [struct yaffs_block_info] and the
    totals of the device. [blocks_wf] is the invariant that ties them together, and
    every operation that allocates, writes, deletes or erases is shown to keep it,
    whatever the driver answers. *)

From S2P Require Import Prelude Memory Endian YaffsEcc YaffsTags YaffsDev.

(** ** Counting *)

(** The number of [i < n] with [P i]. *)
Fixpoint count_upto (P : Z → bool) (n : nat) : Z :=
  match n with
  | O => 0
  | S n' => count_upto P n' + Z.b2z (P (Z.of_nat n'))
  end.

Lemma count_upto_bounds P n : 0 ≤ count_upto P n ≤ Z.of_nat n.
Proof. induction n as [|n IH]; cbn [count_upto]; [lia|]. destruct (P (Z.of_nat n)); cbn; lia. Qed.

Lemma count_upto_ext P Q n :
  (∀ i, 0 ≤ i < Z.of_nat n → P i = Q i) → count_upto P n = count_upto Q n.
Proof.
  induction n as [|n IH]; intros H; cbn [count_upto]; [done|].
  rewrite IH, H by (intros; apply H || lia; lia). done.
Qed.

Lemma count_upto_zero P n :
  count_upto P n = 0 ↔ ∀ i, 0 ≤ i < Z.of_nat n → P i = false.
Proof.
  induction n as [|n IH]; cbn [count_upto]; [split; [lia|done]|].
  pose proof (count_upto_bounds P n) as Hb. split.
  - intros H i Hi. assert (Z.b2z (P (Z.of_nat n)) = 0 ∧ count_upto P n = 0) as [H1 H2].
    { destruct (P (Z.of_nat n)); cbn in *; lia. }
    destruct (decide (i = Z.of_nat n)) as [->|]; [by destruct (P (Z.of_nat n))|].
    apply IH; [done|lia].
  - intros Hall. rewrite (proj2 IH) by (intros; apply Hall; lia).
    rewrite Hall by lia. done.
Qed.

(** One more, one less. *)
Lemma count_upto_set P Q n c :
  0 ≤ c < Z.of_nat n → P c = false → Q c = true →
  (∀ i, 0 ≤ i < Z.of_nat n → i ≠ c → Q i = P i) → count_upto Q n = count_upto P n + 1.
Proof.
  induction n as [|n IH]; intros Hc HP HQ Hne; cbn [count_upto]; [lia|].
  destruct (decide (c = Z.of_nat n)) as [->|].
  - rewrite (count_upto_ext Q P) by (intros; apply Hne; lia). rewrite HP, HQ. cbn. lia.
  - rewrite IH by (done || lia || (intros; apply Hne; lia)). rewrite (Hne (Z.of_nat n)) by lia. lia.
Qed.

Lemma count_upto_more P n k : (n ≤ k)%nat → (∀ i, Z.of_nat n ≤ i < Z.of_nat k → P i = false) →
  count_upto P k = count_upto P n.
Proof.
  induction 1 as [|k Hk IH]; intros H; [done|]. cbn [count_upto].
  rewrite IH by (intros; apply H; lia). rewrite H by lia. cbn. lia.
Qed.

(** The sum of [f] over a list. *)
Fixpoint zsum {A} (f : A → Z) (l : list A) : Z :=
  match l with [] => 0 | x :: l' => f x + zsum f l' end.

Lemma zsum_insert {A} (f : A → Z) l i x y :
  l !! i = Some x → zsum f (<[i := y]> l) = zsum f l - f x + f y.
Proof.
  revert i. induction l as [|z l IH]; intros [|i] H; cbn in *; simplify_eq; [lia|].
  etrans; [apply (f_equal (Z.add (f z)) (IH i H))|lia].
Qed.

Lemma zsum_app {A} (f : A → Z) l1 l2 : zsum f (l1 ++ l2) = zsum f l1 + zsum f l2.
Proof. induction l1; cbn; lia. Qed.

Lemma zsum_foldl {A} (f : A → Z) l n : foldl (λ n x, n + f x) n l = n + zsum f l.
Proof. revert n. induction l as [|x l IH]; intros n; cbn; [lia|]. rewrite IH. lia. Qed.

Lemma zsum_ext {A} (f g : A → Z) l : (∀ x, x ∈ l → f x = g x) → zsum f l = zsum g l.
Proof.
  induction l as [|x l IH]; intros H; [done|]. cbn. rewrite H, IH by set_solver. done.
Qed.

Lemma zsum_filter {A} (P : A → Prop) `{∀ x, Decision (P x)} l :
  zlen (filter P l) = zsum (λ x, if decide (P x) then 1 else 0) l.
Proof.
  induction l as [|x l IH]; [done|]. rewrite filter_cons. cbn [zsum].
  destruct (decide (P x)); cbn [length]; lia.
Qed.

Lemma zsum_bound {A} (f : A → Z) l a b :
  (∀ x, x ∈ l → a ≤ f x ≤ b) → a * zlen l ≤ zsum f l ≤ b * zlen l.
Proof.
  induction l as [|x l IH]; intros H; [cbn; lia|].
  pose proof (H x ltac:(set_solver)). specialize (IH ltac:(set_solver)).
  cbn [zsum length]. lia.
Qed.

Lemma alter_insert {A} (l : list A) i f x : l !! i = Some x → alter f i l = <[i := f x]> l.
Proof.
  intros H. apply list_eq. intros j. rewrite list_lookup_alter, list_lookup_insert.
  pose proof (lookup_lt_Some _ _ _ H).
  destruct (decide (i = j)) as [->|Hne].
  - by rewrite !decide_True, H by done.
  - repeat case_decide; naive_solver.
Qed.

Lemma alter_alter {A} (f g : A → A) i (l : list A) :
  alter g i (alter f i l) = alter (λ x, g (f x)) i l.
Proof.
  apply list_eq. intros j. rewrite !list_lookup_alter. case_decide as Hi; [|done].
  rewrite decide_True by done. by destruct (l !! _).
Qed.

(** ** The bitmap *)

Section bitmap.
Context {F : Type} {cfg : yaffs_config}.
Abbreviation M := (prog (yaffs_dev F)).
Implicit Types (d : yaffs_dev F) (b : yaffs_blocks).

Definition in_range (blk : Z) : Prop := internal_start_block ≤ blk ≤ internal_end_block.
Definition n_blocks : Z := internal_end_block - internal_start_block + 1.

#[export] Instance in_range_dec blk : Decision (in_range blk).
Proof. unfold in_range. apply _. Defined.

(** What [yaffs_guts_initialise] and [yaffs_init_blocks] establish: the first block is
    not block 0, the stride is that of the chunks, and the counts fit their bit-fields
    (10 bits, signed) and the numbers of chunks an [int]. *)
Class geometry : Prop := {
  geo_start : 1 ≤ internal_start_block;
  geo_end : internal_start_block ≤ internal_end_block;
  geo_chunks : 2 ≤ chunks_per_block ≤ 511;
  geo_stride : chunk_bit_stride = (chunks_per_block + 7) / 8;
  geo_ids : (internal_end_block + 1) * chunks_per_block < 2 ^ 31
}.

(** The bitmap has its size and holds bytes. *)
Record bitmap_wf (b : yaffs_blocks) : Prop := {
  wf_bits_length : zlen (chunk_bits b) = chunk_bit_stride * n_blocks;
  wf_bits_u8 : Forall (in_u 8) (chunk_bits b)
}.

Definition bit_index (blk c : Z) : Z := chunk_bit_stride * (blk - internal_start_block) + c / 8.

(** The bit of the chunk [c] of the block [blk]. *)
Definition bit_at (b : yaffs_blocks) (blk c : Z) : bool :=
  match chunk_bits b !! Z.to_nat (bit_index blk c) with
  | Some x => Z.testbit x (c mod 8)
  | None => false
  end.

Definition put_bit (v : bool) (c x : Z) : Z :=
  if v then u8 (Z.lor x (Z.shiftl 1 (Z.land c 7)))
  else u8 (Z.land x (Z.lnot (Z.shiftl 1 (Z.land c 7)))).

Definition b_bit (blk c : Z) (v : bool) (b : yaffs_blocks) : yaffs_blocks :=
  set_chunk_bits (alter (put_bit v c) (Z.to_nat (bit_index blk c)) (chunk_bits b)) b.

(** All bits of a block cleared. *)
Definition b_clear (blk : Z) (b : yaffs_blocks) : yaffs_blocks :=
  set_chunk_bits
    (take (Z.to_nat (chunk_bit_stride * (blk - internal_start_block))) (chunk_bits b) ++
     replicate (Z.to_nat chunk_bit_stride) 0 ++
     drop (Z.to_nat (chunk_bit_stride * (blk - internal_start_block) + chunk_bit_stride)) (chunk_bits b)) b.

Definition on_blocks (f : yaffs_blocks → yaffs_blocks) (d : yaffs_dev F) : yaffs_dev F :=
  set_blocks (f (blocks d)) d.

Context {Hgeo : geometry}.
#[local] Set Default Proof Using "Type*".

Lemma geo_stride_bounds : 1 ≤ chunk_bit_stride ∧ chunks_per_block ≤ 8 * chunk_bit_stride.
Proof.
  destruct Hgeo as [_ _ Hc Hs _]. rewrite Hs.
  pose proof (Z.div_mod (chunks_per_block + 7) 8 ltac:(lia)).
  pose proof (Z.mod_pos_bound (chunks_per_block + 7) 8 ltac:(lia)). lia.
Qed.

Lemma bit_index_range b blk c : bitmap_wf b → in_range blk → 0 ≤ c < 8 * chunk_bit_stride →
  0 ≤ bit_index blk c < zlen (chunk_bits b).
Proof.
  intros [Hl _] [H1 H2] Hc. rewrite Hl. unfold bit_index, n_blocks.
  destruct geo_stride_bounds as [Hs _].
  assert (0 ≤ c / 8 < chunk_bit_stride).
  { split; [apply Z.div_pos; lia|apply Z.div_lt_upper_bound; lia]. }
  nia.
Qed.

Lemma bit_index_inj blk c blk' c' :
  0 ≤ c < 8 * chunk_bit_stride → 0 ≤ c' < 8 * chunk_bit_stride →
  bit_index blk c = bit_index blk' c' → c mod 8 = c' mod 8 → blk = blk' ∧ c = c'.
Proof.
  intros Hc Hc' Hi Hm. unfold bit_index in Hi.
  assert (0 ≤ c / 8 < chunk_bit_stride).
  { split; [apply Z.div_pos; lia|apply Z.div_lt_upper_bound; lia]. }
  assert (0 ≤ c' / 8 < chunk_bit_stride).
  { split; [apply Z.div_pos; lia|apply Z.div_lt_upper_bound; lia]. }
  destruct (Z.div_mod_unique chunk_bit_stride (blk - internal_start_block)
    (blk' - internal_start_block) (c / 8) (c' / 8)) as [H1 H2]; [lia..|].
  split; [lia|]. rewrite (Z.div_mod c 8), (Z.div_mod c' 8) by lia. congruence.
Qed.

Lemma put_bit_spec v c x i : in_u 8 x → 0 ≤ i < 8 →
  Z.testbit (put_bit v c x) i = if decide (i = c mod 8) then v else Z.testbit x i.
Proof.
  intros Hx Hi. unfold put_bit. change 7 with (Z.ones 3).
  rewrite Z.land_ones by lia. change (2 ^ 3) with 8.
  pose proof (Z.mod_pos_bound c 8 ltac:(lia)).
  rewrite Z.shiftl_mul_pow2, Z.mul_1_l by lia.
  destruct v; rewrite wrapu_spec by lia; destruct (Z.ltb_spec i 8); try lia; cbn [andb].
  - rewrite Z.lor_spec, Z.pow2_bits_eqb by lia.
    destruct (decide (i = c mod 8)) as [->|]; [by rewrite Z.eqb_refl, orb_true_r|].
    destruct (Z.eqb_spec (c mod 8) i); [lia|]. apply orb_false_r.
  - rewrite Z.land_spec, Z.lnot_spec, Z.pow2_bits_eqb by lia.
    destruct (decide (i = c mod 8)) as [->|]; [by rewrite Z.eqb_refl, andb_false_r|].
    destruct (Z.eqb_spec (c mod 8) i); [lia|]. apply andb_true_r.
Qed.

Lemma put_bit_u8 v c x : in_u 8 (put_bit v c x).
Proof. unfold put_bit. destruct v; apply wrapu_range; lia. Qed.

Lemma bit_at_b_bit b blk c v blk' c' :
  bitmap_wf b → in_range blk → in_range blk' →
  0 ≤ c < 8 * chunk_bit_stride → 0 ≤ c' < 8 * chunk_bit_stride →
  bit_at (b_bit blk c v b) blk' c' =
  if decide (blk' = blk ∧ c' = c) then v else bit_at b blk' c'.
Proof.
  intros Hb Hr Hr' Hc Hc'. unfold bit_at, b_bit. cbn [chunk_bits set_chunk_bits].
  pose proof (bit_index_range b blk c Hb Hr Hc). pose proof (bit_index_range b blk' c' Hb Hr' Hc').
  destruct (lookup_lt_is_Some_2 (chunk_bits b) (Z.to_nat (bit_index blk' c'))) as [x Hx]; [lia|].
  assert (in_u 8 x) as Hx8 by (by apply (proj1 (Forall_lookup _ _) (wf_bits_u8 b Hb) _ _ Hx)).
  pose proof (Z.mod_pos_bound c' 8 ltac:(lia)).
  destruct (decide (bit_index blk' c' = bit_index blk c)) as [He|He].
  - rewrite <- He, list_lookup_alter, decide_True, Hx by done. cbn [fmap option_fmap option_map].
    rewrite put_bit_spec by (done || lia).
    destruct (decide (c' mod 8 = c mod 8)) as [Hm|Hm].
    + destruct (bit_index_inj blk' c' blk c) as [-> ->]; [done..|]. by rewrite decide_True.
    + rewrite decide_False; [done|]. by intros [-> ->].
  - rewrite list_lookup_alter, decide_False, Hx by lia. rewrite decide_False; [done|].
    by intros [-> ->].
Qed.

Lemma bitmap_wf_b_bit b blk c v : bitmap_wf b → bitmap_wf (b_bit blk c v b).
Proof.
  intros [Hl Hu]. split; unfold b_bit; cbn [chunk_bits set_chunk_bits].
  - by rewrite length_alter.
  - apply Forall_alter; [done|]. intros. apply put_bit_u8.
Qed.

(** ** The operations on the bitmap *)

Lemma on_blocks_eq f d : on_blocks f d = set_blocks (f (blocks d)) d.
Proof. done. Qed.

Lemma run_upd_blocks f d : upd_blocks f d = Ok ((), on_blocks f d).
Proof. done. Qed.

Lemma block_bits_run blk d : in_range blk →
  yaffs_block_bits blk d = Ok (chunk_bit_stride * (blk - internal_start_block), d).
Proof.
  intros [H1 H2]. unfold yaffs_block_bits.
  destruct (Z.ltb_spec blk internal_start_block); [lia|].
  destruct (Z.ltb_spec internal_end_block blk); [lia|]. done.
Qed.

Lemma verify_chunk_bit_id_run blk c d : in_range blk → 0 ≤ c < chunks_per_block →
  yaffs_verify_chunk_bit_id blk c d = Ok ((), d).
Proof.
  intros [H1 H2] Hc. unfold yaffs_verify_chunk_bit_id.
  destruct (Z.ltb_spec blk internal_start_block); [lia|].
  destruct (Z.ltb_spec internal_end_block blk); [lia|].
  destruct (Z.ltb_spec c 0); [lia|]. destruct (Z.leb_spec chunks_per_block c); [lia|]. done.
Qed.

Lemma bits_byte_run i d x : 0 ≤ i → chunk_bits (blocks d) !! Z.to_nat i = Some x →
  bits_byte i d = Ok (x, d).
Proof. intros Hi Hx. unfold bits_byte. prog_simpl. by rewrite znth_lookup, Hx by done. Qed.

Lemma set_bits_byte_run i v d : 0 ≤ i < zlen (chunk_bits (blocks d)) →
  set_bits_byte i v d =
  Ok ((), on_blocks (λ b, set_chunk_bits (<[Z.to_nat i := v]> (chunk_bits b)) b) d).
Proof. intros Hi. unfold set_bits_byte. prog_simpl. by rewrite zset_Some. Qed.

(** The index that the three operations compute. *)
Lemma bit_index_eq blk c :
  chunk_bit_stride * (blk - internal_start_block) + c / 8 = bit_index blk c.
Proof. done. Qed.

Lemma chunk_stride c : 0 ≤ c < chunks_per_block → 0 ≤ c < 8 * chunk_bit_stride.
Proof. pose proof geo_stride_bounds. lia. Qed.

Lemma bit_byte_lookup b blk c : bitmap_wf b → in_range blk → 0 ≤ c < 8 * chunk_bit_stride →
  ∃ x, chunk_bits b !! Z.to_nat (bit_index blk c) = Some x ∧ in_u 8 x ∧
       bit_at b blk c = Z.testbit x (c mod 8).
Proof.
  intros Hb Hr Hc. pose proof (bit_index_range b blk c Hb Hr Hc).
  destruct (lookup_lt_is_Some_2 (chunk_bits b) (Z.to_nat (bit_index blk c))) as [x Hx]; [lia|].
  exists x. split; [done|]. split.
  - by apply (proj1 (Forall_lookup _ _) (wf_bits_u8 b Hb) _ _ Hx).
  - unfold bit_at. by rewrite Hx.
Qed.

Lemma set_chunk_bit_run blk c d : bitmap_wf (blocks d) → in_range blk → 0 ≤ c < chunks_per_block →
  yaffs_set_chunk_bit blk c d = Ok ((), on_blocks (b_bit blk c true) d).
Proof.
  intros Hb Hr Hc. destruct (bit_byte_lookup _ blk c Hb Hr (chunk_stride c Hc)) as (x & Hx & _).
  pose proof (bit_index_range _ blk c Hb Hr (chunk_stride c Hc)).
  unfold yaffs_set_chunk_bit. prog_step (block_bits_run blk d Hr).
  prog_step (verify_chunk_bit_id_run blk c d Hr Hc). rewrite bit_index_eq.
  prog_step (bits_byte_run (bit_index blk c) d x ltac:(lia) Hx).
  rewrite set_bits_byte_run by done. unfold on_blocks, b_bit.
  by rewrite (alter_insert _ _ _ x Hx).
Qed.

Lemma clear_chunk_bit_run blk c d : bitmap_wf (blocks d) → in_range blk → 0 ≤ c < chunks_per_block →
  yaffs_clear_chunk_bit blk c d = Ok ((), on_blocks (b_bit blk c false) d).
Proof.
  intros Hb Hr Hc. destruct (bit_byte_lookup _ blk c Hb Hr (chunk_stride c Hc)) as (x & Hx & _).
  pose proof (bit_index_range _ blk c Hb Hr (chunk_stride c Hc)).
  unfold yaffs_clear_chunk_bit. prog_step (block_bits_run blk d Hr).
  prog_step (verify_chunk_bit_id_run blk c d Hr Hc). rewrite bit_index_eq.
  prog_step (bits_byte_run (bit_index blk c) d x ltac:(lia) Hx).
  rewrite set_bits_byte_run by done. unfold on_blocks, b_bit.
  by rewrite (alter_insert _ _ _ x Hx).
Qed.

Lemma check_chunk_bit_run blk c d : bitmap_wf (blocks d) → in_range blk → 0 ≤ c < chunks_per_block →
  yaffs_check_chunk_bit blk c d = Ok (bit_at (blocks d) blk c, d).
Proof.
  intros Hb Hr Hc. destruct (bit_byte_lookup _ blk c Hb Hr (chunk_stride c Hc)) as (x & Hx & Hu & Hbit).
  pose proof (bit_index_range _ blk c Hb Hr (chunk_stride c Hc)).
  unfold yaffs_check_chunk_bit. prog_step (block_bits_run blk d Hr).
  prog_step (verify_chunk_bit_id_run blk c d Hr Hc). rewrite bit_index_eq.
  prog_step (bits_byte_run (bit_index blk c) d x ltac:(lia) Hx).
  rewrite Hbit. change 7 with (Z.ones 3). rewrite Z.land_ones by lia. change (2 ^ 3) with 8.
  pose proof (Z.mod_pos_bound c 8 ltac:(lia)).
  rewrite Z.shiftl_mul_pow2, Z.mul_1_l, land_pow2_eqb, negb_involutive by lia. done.
Qed.

(** [memset]: the bytes from [i] on become zero. *)
Definition zero_bytes (n i : nat) (l : list Z) : list Z :=
  take i l ++ replicate n 0 ++ drop (i + n) l.

Lemma zero_bytes_S n i l : (i < length l)%nat →
  zero_bytes n (S i) (<[i := 0]> l) = zero_bytes (S n) i l.
Proof.
  intros Hi. unfold zero_bytes. rewrite (take_S_r _ _ 0) by (by apply list_lookup_insert_eq).
  rewrite take_insert_ge by lia. rewrite drop_insert_lt by lia.
  rewrite <- app_assoc. cbn [replicate app]. by rewrite Nat.add_succ_r.
Qed.

Lemma clear_bytes_run n i d : (i + n ≤ length (chunk_bits (blocks d)))%nat →
  clear_bytes n (Z.of_nat i) d =
  Ok ((), on_blocks (λ b, set_chunk_bits (zero_bytes n i (chunk_bits b)) b) d).
Proof.
  revert i d. induction n as [|n IH]; intros i d Hl; cbn [clear_bytes].
  - unfold zero_bytes, on_blocks. cbn. rewrite Nat.add_0_r, take_drop. by destruct d as [? []].
  - prog_step (set_bits_byte_run (Z.of_nat i) 0 d ltac:(lia)).
    replace (Z.of_nat i + 1) with (Z.of_nat (S i)) by lia.
    rewrite Nat2Z.id. rewrite IH by (cbn; rewrite length_insert; lia).
    cbn [on_blocks blocks chunk_bits set_blocks set_chunk_bits]. unfold on_blocks.
    cbn [blocks set_blocks chunk_bits set_chunk_bits].
    rewrite zero_bytes_S by lia. done.
Qed.

Lemma clear_chunk_bits_run blk d : bitmap_wf (blocks d) → in_range blk →
  yaffs_clear_chunk_bits blk d = Ok ((), on_blocks (b_clear blk) d).
Proof.
  intros Hb Hr. unfold yaffs_clear_chunk_bits. prog_step (block_bits_run blk d Hr).
  destruct geo_stride_bounds as [Hs _]. destruct Hr as [H1 H2].
  assert (0 ≤ chunk_bit_stride * (blk - internal_start_block)) by nia.
  assert (chunk_bit_stride * (blk - internal_start_block) + chunk_bit_stride
          ≤ zlen (chunk_bits (blocks d))).
  { rewrite (wf_bits_length _ Hb). unfold n_blocks. nia. }
  rewrite <- (Z2Nat.id (chunk_bit_stride * (blk - internal_start_block))) by lia.
  rewrite clear_bytes_run by lia. unfold on_blocks, b_clear, zero_bytes.
  do 3 f_equal. rewrite Z2Nat.inj_add by lia. done.
Qed.

Lemma bitmap_wf_b_clear b blk : bitmap_wf b → in_range blk → bitmap_wf (b_clear blk b).
Proof.
  intros [Hl Hu] [H1 H2]. destruct geo_stride_bounds as [Hs _].
  assert (0 ≤ chunk_bit_stride * (blk - internal_start_block)) by nia.
  assert (chunk_bit_stride * (blk - internal_start_block) + chunk_bit_stride ≤ zlen (chunk_bits b)).
  { rewrite Hl. unfold n_blocks. nia. }
  split; unfold b_clear; cbn [chunk_bits set_chunk_bits].
  - rewrite <- Hl, !length_app, length_take, length_replicate, length_drop. lia.
  - rewrite !Forall_app. repeat split; [by apply Forall_take| |by apply Forall_drop].
    apply Forall_replicate. unfold in_u. lia.
Qed.

Lemma bit_at_b_clear b blk blk' c : bitmap_wf b → in_range blk → in_range blk' →
  0 ≤ c < 8 * chunk_bit_stride →
  bit_at (b_clear blk b) blk' c = if decide (blk' = blk) then false else bit_at b blk' c.
Proof.
  intros Hb Hr Hr' Hc. pose proof (bit_index_range b blk' c Hb Hr' Hc) as Hi.
  destruct geo_stride_bounds as [Hs _].
  assert (0 ≤ c / 8 < chunk_bit_stride).
  { split; [apply Z.div_pos; lia|apply Z.div_lt_upper_bound; lia]. }
  assert (0 ≤ chunk_bit_stride * (blk - internal_start_block)) by (destruct Hr; nia).
  assert (chunk_bit_stride * (blk - internal_start_block) + chunk_bit_stride ≤ zlen (chunk_bits b)).
  { rewrite (wf_bits_length b Hb). unfold n_blocks. destruct Hr. nia. }
  unfold bit_at, b_clear. cbn [chunk_bits set_chunk_bits].
  set (o := chunk_bit_stride * (blk - internal_start_block)) in *.
  assert (bit_index blk' c - o = chunk_bit_stride * (blk' - blk) + c / 8) as Ho
    by (unfold bit_index, o; lia).
  destruct (decide (blk' = blk)) as [->|Hne].
  - replace (blk - blk) with 0 in Ho by lia.
    rewrite lookup_app_r by (rewrite length_take; lia).
    rewrite lookup_app_l by (rewrite length_take, length_replicate; lia).
    rewrite lookup_replicate_2 by (rewrite length_take; lia). by rewrite Z.bits_0.
  - assert (bit_index blk' c < o ∨ o + chunk_bit_stride ≤ bit_index blk' c) as [H'|H'].
    { destruct (decide (blk' < blk)); [left|right]; nia. }
    + rewrite lookup_app_l by (rewrite length_take; lia). by rewrite lookup_take_lt by lia.
    + rewrite lookup_app_r by (rewrite length_take; lia).
      rewrite lookup_app_r by (rewrite length_take, length_replicate; lia).
      rewrite lookup_drop, length_take, length_replicate.
      replace (_ + _)%nat with (Z.to_nat (bit_index blk' c)) by lia. done.
Qed.

(** Counting: a byte has as many set bits as the table of [yaffs_hweight8] says. *)
Lemma hweight8_count x : in_u 8 x → yaffs_hweight8 x = count_upto (Z.testbit x) 8.
Proof.
  intros Hx. apply Z.eqb_eq.
  apply (all_bytes_spec (λ x, yaffs_hweight8 x =? count_upto (Z.testbit x) 8)); [|done].
  vm_compute. reflexivity.
Qed.

Lemma count_upto_add P n m :
  count_upto P (n + m) = count_upto P n + count_upto (λ i, P (Z.of_nat n + i)) m.
Proof.
  induction m as [|m IH]; [rewrite Nat.add_0_r; cbn; lia|].
  rewrite Nat.add_succ_r. cbn [count_upto]. rewrite IH.
  replace (Z.of_nat (n + m)) with (Z.of_nat n + Z.of_nat m) by lia. lia.
Qed.

(** The byte [p] of a block. *)
Lemma block_byte b blk p : bitmap_wf b → in_range blk → 0 ≤ p < chunk_bit_stride →
  bit_index blk (8 * p) = chunk_bit_stride * (blk - internal_start_block) + p ∧
  0 ≤ bit_index blk (8 * p) < zlen (chunk_bits b) ∧
  ∃ x, chunk_bits b !! Z.to_nat (bit_index blk (8 * p)) = Some x ∧ in_u 8 x ∧
       count_upto (λ i, bit_at b blk (8 * p + i)) 8 = yaffs_hweight8 x.
Proof.
  intros Hb Hr Hp.
  assert (bit_index blk (8 * p) = chunk_bit_stride * (blk - internal_start_block) + p) as Hi.
  { unfold bit_index. rewrite (Z.mul_comm 8 p), Z.div_mul by lia. done. }
  split; [done|]. split; [apply bit_index_range; done || lia|].
  destruct (bit_byte_lookup b blk (8 * p)) as (x & Hx & Hu & _); [done..|lia|].
  exists x. split; [done|]. split; [done|]. rewrite (hweight8_count x Hu). apply count_upto_ext.
  intros i Hi8. unfold bit_at, bit_index.
  assert ((8 * p + i) / 8 = p ∧ (8 * p + i) mod 8 = i) as [-> ->].
  { split; symmetry; [apply (Z.div_unique_pos _ _ _ i)|apply (Z.mod_unique_pos _ _ p)]; lia. }
  by rewrite <- Hi, Hx.
Qed.

(** The bits of the first [k] bytes of a block. *)
Lemma count_bits_run blk k n d : bitmap_wf (blocks d) → in_range blk →
  Z.of_nat k ≤ chunk_bit_stride →
  count_bits k (chunk_bit_stride * (blk - internal_start_block) + (chunk_bit_stride - Z.of_nat k)) n d =
  Ok (n + count_upto (λ i, bit_at (blocks d) blk (8 * (chunk_bit_stride - Z.of_nat k) + i)) (8 * k), d).
Proof.
  intros Hb Hr. revert n. induction k as [|k IH]; intros n Hk; cbn [count_bits]; [by rewrite Z.add_0_r|].
  set (p := chunk_bit_stride - Z.of_nat (S k)).
  destruct (block_byte (blocks d) blk p Hb Hr ltac:(lia)) as (Hi & Hl & x & Hx & Hu & H8).
  rewrite <- Hi. prog_step (bits_byte_run (bit_index blk (8 * p)) d x ltac:(lia) Hx).
  replace (bit_index blk (8 * p) + 1)
    with (chunk_bit_stride * (blk - internal_start_block) + (chunk_bit_stride - Z.of_nat k)) by lia.
  rewrite IH by lia. do 2 f_equal.
  replace (8 * S k)%nat with (8 + 8 * k)%nat by lia. rewrite count_upto_add, H8.
  rewrite <- Z.add_assoc. do 2 f_equal. apply count_upto_ext. intros i _. f_equal. lia.
Qed.

Lemma some_bits_run blk k d : bitmap_wf (blocks d) → in_range blk →
  Z.of_nat k ≤ chunk_bit_stride →
  some_bits k (chunk_bit_stride * (blk - internal_start_block) + (chunk_bit_stride - Z.of_nat k)) d =
  Ok (negb (count_upto (λ i, bit_at (blocks d) blk (8 * (chunk_bit_stride - Z.of_nat k) + i)) (8 * k) =? 0), d).
Proof.
  intros Hb Hr. induction k as [|k IH]; intros Hk; cbn [some_bits]; [done|].
  set (p := chunk_bit_stride - Z.of_nat (S k)).
  destruct (block_byte (blocks d) blk p Hb Hr ltac:(lia)) as (Hi & Hl & x & Hx & Hu & H8').
  rewrite <- Hi. prog_step (bits_byte_run (bit_index blk (8 * p)) d x ltac:(lia) Hx).
  replace (8 * S k)%nat with (8 + 8 * k)%nat by lia.
  rewrite count_upto_add, H8', hweight8_count by done.
  rewrite (count_upto_ext _ (λ i, bit_at (blocks d) blk (8 * (chunk_bit_stride - Z.of_nat k) + i)) (8 * k))
    by (intros i _; f_equal; lia).
  set (m := count_upto _ (8 * k)). pose proof (count_upto_bounds (λ i, bit_at (blocks d) blk (8 * (chunk_bit_stride - Z.of_nat k) + i)) (8 * k)) as Hm.
  fold m in Hm. pose proof (count_upto_bounds (Z.testbit x) 8) as H8.
  destruct (Z.eqb_spec x 0) as [->|Hne]; cbn [negb].
  - rewrite (proj2 (count_upto_zero (Z.testbit 0) 8)) by (intros; apply Z.bits_0).
    replace (bit_index blk (8 * p) + 1)
      with (chunk_bit_stride * (blk - internal_start_block) + (chunk_bit_stride - Z.of_nat k)) by lia.
    rewrite IH by lia. done.
  - destruct (Z.eqb_spec (count_upto (Z.testbit x) 8 + m) 0) as [H0|]; [|done].
    destruct Hne. apply Z.bits_inj'. intros i Hi0. rewrite Z.bits_0.
    destruct (decide (i < 8)); [|apply (in_u_high 8); [done|lia]].
    apply (proj1 (count_upto_zero (Z.testbit x) 8)); lia.
Qed.

(** The set bits of a block, those that belong to no chunk included. *)
Definition bits_set (b : yaffs_blocks) (blk : Z) : Z :=
  count_upto (bit_at b blk) (8 * Z.to_nat chunk_bit_stride).

Lemma count_chunk_bits_run blk d : bitmap_wf (blocks d) → in_range blk →
  yaffs_count_chunk_bits blk d = Ok (bits_set (blocks d) blk, d).
Proof.
  intros Hb Hr. unfold yaffs_count_chunk_bits. prog_step (block_bits_run blk d Hr).
  pose proof (count_bits_run blk (Z.to_nat chunk_bit_stride) 0 d Hb Hr) as H.
  pose proof geo_stride_bounds. rewrite Z2Nat.id in H by lia.
  rewrite Z.sub_diag, Z.add_0_r in H. rewrite (H ltac:(lia)). do 2 f_equal.
Qed.

Lemma still_some_chunks_run blk d : bitmap_wf (blocks d) → in_range blk →
  yaffs_still_some_chunks blk d = Ok (negb (bits_set (blocks d) blk =? 0), d).
Proof.
  intros Hb Hr. unfold yaffs_still_some_chunks. prog_step (block_bits_run blk d Hr).
  pose proof (some_bits_run blk (Z.to_nat chunk_bit_stride) d Hb Hr) as H.
  pose proof geo_stride_bounds. rewrite Z2Nat.id in H by lia.
  rewrite Z.sub_diag, Z.add_0_r in H. rewrite (H ltac:(lia)). done.
Qed.

(** C27. The bitmap of the chunks in use: for every block and chunk of a device whose
    bitmap has its size, setting a bit makes its check true, clearing it makes the
    check false, clearing a block makes all of its checks false, and no other chunk's
    check changes; the count of a block is the number of its checks that are true and
    [yaffs_still_some_chunks] says whether it is not zero. Every call succeeds and
    leaves the rest of the device. *)
Theorem chunk_bitmap_spec blk c d :
  bitmap_wf (blocks d) → in_range blk → 0 ≤ c < chunks_per_block →
  (∀ v, ∃ d', (if (v : bool) then yaffs_set_chunk_bit blk c else yaffs_clear_chunk_bit blk c) d = Ok ((), d') ∧
     bitmap_wf (blocks d') ∧ d = set_blocks (set_chunk_bits (chunk_bits (blocks d)) (blocks d')) d' ∧
     ∀ blk' c', in_range blk' → 0 ≤ c' < chunks_per_block →
       yaffs_check_chunk_bit blk' c' d' =
       Ok (if decide (blk' = blk ∧ c' = c) then v else bit_at (blocks d) blk' c', d')) ∧
  (∃ d', yaffs_clear_chunk_bits blk d = Ok ((), d') ∧ bitmap_wf (blocks d') ∧
     yaffs_count_chunk_bits blk d' = Ok (0, d') ∧
     ∀ blk' c', in_range blk' → 0 ≤ c' < chunks_per_block →
       yaffs_check_chunk_bit blk' c' d' =
       Ok (if decide (blk' = blk) then false else bit_at (blocks d) blk' c', d')) ∧
  yaffs_check_chunk_bit blk c d = Ok (bit_at (blocks d) blk c, d) ∧
  yaffs_count_chunk_bits blk d = Ok (bits_set (blocks d) blk, d) ∧
  yaffs_still_some_chunks blk d = Ok (negb (bits_set (blocks d) blk =? 0), d).
Proof.
  intros Hb Hr Hc.
  assert (∀ v, (if (v : bool) then yaffs_set_chunk_bit blk c else yaffs_clear_chunk_bit blk c) d =
               Ok ((), on_blocks (b_bit blk c v) d)) as Hrun
    by (intros []; [by apply set_chunk_bit_run|by apply clear_chunk_bit_run]).
  split; [|split; [|split; [by apply check_chunk_bit_run|
                    split; [by apply count_chunk_bits_run|by apply still_some_chunks_run]]]].
  - intros v. eexists. split; [apply Hrun|].
    pose proof (bitmap_wf_b_bit (blocks d) blk c v Hb) as Hb'.
    split; [done|]. split; [by destruct d as [? []]|]. intros blk' c' Hr' Hc'.
    rewrite check_chunk_bit_run by done.
    cbn [on_blocks blocks set_blocks].
    by rewrite (bit_at_b_bit (blocks d)) by (done || by apply chunk_stride).
  - eexists. split; [by apply clear_chunk_bits_run|].
    pose proof (bitmap_wf_b_clear (blocks d) blk Hb Hr) as Hb'. split; [done|]. split.
    + rewrite count_chunk_bits_run by done. do 2 f_equal. apply count_upto_zero.
      intros i Hi. cbn [on_blocks blocks set_blocks].
      rewrite (bit_at_b_clear (blocks d)) by (done || lia). by rewrite decide_True.
    + intros blk' c' Hr' Hc'. rewrite check_chunk_bit_run by done.
      cbn [on_blocks blocks set_blocks].
      by rewrite (bit_at_b_clear (blocks d)) by (done || by apply chunk_stride).
Qed.
End bitmap.

(** ** Block information and the invariant *)

(** The states of a mounted device. *)
Definition live_states : list yaffs_block_state :=
  [YAFFS_BLOCK_STATE_EMPTY; YAFFS_BLOCK_STATE_ALLOCATING; YAFFS_BLOCK_STATE_FULL;
   YAFFS_BLOCK_STATE_COLLECTING; YAFFS_BLOCK_STATE_CHECKPOINT; YAFFS_BLOCK_STATE_DIRTY;
   YAFFS_BLOCK_STATE_DEAD].

(** Membership of a state in a list of states. *)
Ltac states :=
  unfold live_states in *; rewrite ?elem_of_cons, ?elem_of_nil in *;
  repeat match goal with H : context [_ ∈ (_ :: _)] |- _ => rewrite ?elem_of_cons, ?elem_of_nil in H end;
  intuition congruence.

Section accounting.
Context {F : Type} {cfg : yaffs_config} {drv : yaffs_driver F}.
Abbreviation M := (prog (yaffs_dev F)).
Implicit Types (d : yaffs_dev F) (b : yaffs_blocks) (x y : yaffs_block_info).

Definition info (b : yaffs_blocks) (blk : Z) : option yaffs_block_info :=
  block_info b !! Z.to_nat (blk - internal_start_block).

Definition b_bi (blk : Z) (f : yaffs_block_info → yaffs_block_info) (b : yaffs_blocks) : yaffs_blocks :=
  set_block_info (alter f (Z.to_nat (blk - internal_start_block)) (block_info b)) b.

(** The chunks of a block that are in use. *)
Definition used (b : yaffs_blocks) (blk : Z) : Z :=
  count_upto (bit_at b blk) (Z.to_nat chunks_per_block).

Definition is_empty (x : yaffs_block_info) : Z :=
  if decide (block_state x = YAFFS_BLOCK_STATE_EMPTY) then 1 else 0.

(** The arrays have their sizes. *)
Record shape (b : yaffs_blocks) : Prop := {
  shape_bits : bitmap_wf b;
  shape_info : zlen (block_info b) = n_blocks
}.

(** What the information of a block says of its chunks. *)
Record block_wf (b : yaffs_blocks) (blk : Z) (x : yaffs_block_info) : Prop := {
  bw_pages : pages_in_use x = used b blk;
  bw_soft : 0 ≤ soft_del_pages x ≤ pages_in_use x;
  bw_live : block_state x ∈ live_states;
  bw_unused : block_state x ∈ [YAFFS_BLOCK_STATE_EMPTY; YAFFS_BLOCK_STATE_CHECKPOINT;
                YAFFS_BLOCK_STATE_DIRTY] → pages_in_use x = 0;
  bw_alloc : block_state x = YAFFS_BLOCK_STATE_ALLOCATING → alloc_block b = blk
}.

(** The block that is being allocated, with no chunk in use from [p] on. *)
Record alloc_wf (p : Z) (b : yaffs_blocks) : Prop := {
  aw_range : in_range (alloc_block b);
  aw_page : 0 ≤ p ≤ chunks_per_block;
  aw_state : ∃ x, info b (alloc_block b) = Some x ∧ block_state x = YAFFS_BLOCK_STATE_ALLOCATING;
  aw_free : ∀ c, p ≤ c < chunks_per_block → bit_at b (alloc_block b) c = false
}.

(** The invariant. [delta] is what the count of free chunks is ahead of the blocks
    while a block is erased; it is 0 between two operations. *)
Record blocks_wf (p delta : Z) (b : yaffs_blocks) : Prop := {
  wf_shape : shape b;
  wf_pad : ∀ blk c, in_range blk → chunks_per_block ≤ c < 8 * chunk_bit_stride → bit_at b blk c = false;
  wf_block : ∀ blk x, in_range blk → info b blk = Some x → block_wf b blk x;
  wf_alloc : alloc_block b = -1 ∨ alloc_wf p b;
  wf_erased : n_erased_blocks b = zsum is_empty (block_info b);
  wf_free : n_free_chunks b = zsum chunks_free (block_info b) + delta
}.

(** Between two operations. *)
Definition blocks_ok (b : yaffs_blocks) : Prop :=
  blocks_wf (alloc_page b) 0 b ∧ (alloc_block b ≠ -1 → alloc_page b < chunks_per_block).

Context {Hgeo : geometry}.
#[local] Set Default Proof Using "Type*".

Lemma in_range_info b blk : shape b → in_range blk → ∃ x, info b blk = Some x.
Proof.
  intros [_ Hl] [H1 H2]. apply lookup_lt_is_Some_2. unfold n_blocks in Hl. lia.
Qed.

Lemma info_index_inj blk blk' : in_range blk → in_range blk' →
  Z.to_nat (blk - internal_start_block) = Z.to_nat (blk' - internal_start_block) → blk = blk'.
Proof. intros [H1 _] [H2 _] H. lia. Qed.

Lemma info_b_bi b blk f blk' : in_range blk → in_range blk' →
  info (b_bi blk f b) blk' = if decide (blk' = blk) then f <$> info b blk else info b blk'.
Proof.
  intros Hr Hr'. unfold info, b_bi. cbn [block_info set_block_info].
  rewrite list_lookup_alter. destruct (decide (blk' = blk)) as [->|Hne]; [by rewrite decide_True|].
  rewrite decide_False; [done|]. intros E. by apply Hne, info_index_inj.
Qed.

Lemma get_block_info_run blk d : in_range blk → yaffs_get_block_info blk d = Ok (blk, d).
Proof.
  intros [H1 H2]. unfold yaffs_get_block_info.
  destruct (Z.ltb_spec blk internal_start_block); [lia|].
  destruct (Z.ltb_spec internal_end_block blk); [lia|]. done.
Qed.

Lemma bi_of_run blk d x : in_range blk → info (blocks d) blk = Some x → bi_of blk d = Ok (x, d).
Proof.
  intros [H1 _] Hx. unfold bi_of. prog_simpl. rewrite znth_lookup by lia.
  unfold info in Hx. by rewrite Hx.
Qed.

Lemma upd_bi_run blk f d : shape (blocks d) → in_range blk →
  upd_bi blk f d = Ok ((), on_blocks (b_bi blk f) d).
Proof.
  intros Hs Hr. destruct (in_range_info _ blk Hs Hr) as [x Hx].
  unfold upd_bi. prog_simpl. prog_step (bi_of_run blk d x Hr Hx).
  destruct Hs as [_ Hl]. destruct Hr as [H1 H2]. unfold n_blocks in Hl.
  rewrite zset_Some by lia. prog_simpl.
  unfold on_blocks, b_bi, upd_blocks, modify. by rewrite (alter_insert _ _ _ x Hx).
Qed.

Lemma zsum_b_bi (g : yaffs_block_info → Z) b blk f x : info b blk = Some x →
  zsum g (block_info (b_bi blk f b)) = zsum g (block_info b) - g x + g (f x).
Proof.
  intros Hx. unfold b_bi. cbn [block_info set_block_info].
  rewrite (alter_insert _ _ _ x Hx). by apply zsum_insert.
Qed.

(** *** What the updates of single parts leave *)

Lemma b_bi_b_bi blk f g b : b_bi blk g (b_bi blk f b) = b_bi blk (λ x, g (f x)) b.
Proof using Type.
  unfold b_bi, set_block_info. cbn [block_info]. by rewrite alter_alter.
Qed.

Lemma shape_b_bi b blk f : shape b → shape (b_bi blk f b).
Proof. intros [[H1 H2] H3]. split; [by split|]. cbn. by rewrite length_alter. Qed.

Lemma shape_b_bit b blk c v : shape b → shape (b_bit blk c v b).
Proof. intros [H1 H3]. split; [by apply bitmap_wf_b_bit|done]. Qed.

Lemma shape_eq b b' : chunk_bits b = chunk_bits b' → block_info b = block_info b' →
  shape b → shape b'.
Proof. intros H1 H2 [[H3 H4] H5]. split; [split|]; congruence. Qed.

Lemma shape_n_free b v : shape b → shape (set_n_free_chunks v b).
Proof. by apply shape_eq. Qed.

Lemma shape_n_erased b v : shape b → shape (set_n_erased_blocks v b).
Proof. by apply shape_eq. Qed.

Lemma bit_at_eq b b' : chunk_bits b = chunk_bits b' → bit_at b = bit_at b'.
Proof using Type. intros H. unfold bit_at. by rewrite H. Qed.

Lemma used_ext b b' blk :
  (∀ c, 0 ≤ c < chunks_per_block → bit_at b blk c = bit_at b' blk c) → used b blk = used b' blk.
Proof. intros H. apply count_upto_ext. intros i Hi. apply H. destruct Hgeo. lia. Qed.

Lemma used_bounds b blk : 0 ≤ used b blk ≤ chunks_per_block.
Proof.
  pose proof (count_upto_bounds (bit_at b blk) (Z.to_nat chunks_per_block)) as H.
  destruct Hgeo. unfold used. lia.
Qed.

Lemma used_b_bit_set b blk c : bitmap_wf b → in_range blk → 0 ≤ c < chunks_per_block →
  bit_at b blk c = false → used (b_bit blk c true b) blk = used b blk + 1.
Proof.
  intros Hb Hr Hc H0. pose proof geo_stride_bounds as [_ ?].
  apply (count_upto_set _ _ _ c); [destruct Hgeo; lia|done| |].
  - rewrite bit_at_b_bit by (done || lia). by rewrite decide_True.
  - intros i Hi Hne. destruct Hgeo. rewrite bit_at_b_bit by (done || lia).
    rewrite decide_False; [done|]. by intros [? ?].
Qed.

Lemma used_b_bit_clear b blk c : bitmap_wf b → in_range blk → 0 ≤ c < chunks_per_block →
  bit_at b blk c = true → used (b_bit blk c false b) blk = used b blk - 1.
Proof.
  intros Hb Hr Hc H0. pose proof geo_stride_bounds as [_ ?].
  enough (used b blk = used (b_bit blk c false b) blk + 1) by lia.
  apply (count_upto_set _ _ _ c); [destruct Hgeo; lia| |done|].
  - rewrite bit_at_b_bit by (done || lia). by rewrite decide_True.
  - intros i Hi Hne. destruct Hgeo. rewrite bit_at_b_bit by (done || lia).
    rewrite decide_False; [done|]. by intros [? ?].
Qed.

Lemma used_b_bit_other b blk c v blk' : bitmap_wf b → in_range blk → in_range blk' →
  0 ≤ c < chunks_per_block → blk' ≠ blk → used (b_bit blk c v b) blk' = used b blk'.
Proof.
  intros Hb Hr Hr' Hc Hne. pose proof geo_stride_bounds as [_ ?]. apply used_ext. intros i Hi.
  rewrite bit_at_b_bit by (done || lia). rewrite decide_False; [done|]. by intros [? ?].
Qed.

Lemma used_lt b blk c : bitmap_wf b → in_range blk → 0 ≤ c < chunks_per_block →
  bit_at b blk c = false → used b blk < chunks_per_block.
Proof.
  intros Hb Hr Hc H0. pose proof (used_b_bit_set b blk c Hb Hr Hc H0).
  pose proof (used_bounds (b_bit blk c true b) blk). lia.
Qed.

(** *** Updates that keep the invariant *)

Lemma block_wf_other b b' blk x :
  block_wf b blk x → used b' blk = used b blk → (alloc_block b = blk → alloc_block b' = blk) →
  block_wf b' blk x.
Proof. intros [] Hu Ha. split; try done; [congruence|auto]. Qed.

(** An update of one block. *)
Lemma blocks_wf_update p delta p' delta' b b' blk x f :
  blocks_wf p delta b → in_range blk → info b blk = Some x → shape b' →
  block_info b' = block_info (b_bi blk f b) →
  (∀ blk' c, in_range blk' → 0 ≤ c < 8 * chunk_bit_stride → blk' ≠ blk → bit_at b' blk' c = bit_at b blk' c) →
  (∀ c, chunks_per_block ≤ c < 8 * chunk_bit_stride → bit_at b' blk c = false) →
  block_wf b' blk (f x) →
  (∀ blk', blk' ≠ blk → alloc_block b = blk' → in_range blk' → alloc_block b' = blk') →
  alloc_block b' = -1 ∨ alloc_wf p' b' →
  n_erased_blocks b' = n_erased_blocks b - is_empty x + is_empty (f x) →
  n_free_chunks b' - delta' = n_free_chunks b - delta - chunks_free x + chunks_free (f x) →
  blocks_wf p' delta' b'.
Proof.
  intros Hwf Hr Hx Hs Hi Hbits Hpad Hy Halloc Halloc' He Hf.
  assert (∀ g : yaffs_block_info → Z, zsum g (block_info b') = zsum g (block_info b) - g x + g (f x)) as Hsum.
  { intros g. rewrite Hi. by apply zsum_b_bi. }
  split; [done| | |done| |].
  - intros blk' c Hr' Hc. destruct (decide (blk' = blk)) as [->|Hne]; [by apply Hpad|].
    rewrite Hbits by (done || destruct Hgeo; lia). by apply (wf_pad _ _ _ Hwf).
  - intros blk' z Hr' Hz. unfold info in Hz. rewrite Hi in Hz.
    change (info (b_bi blk f b) blk' = Some z) in Hz. rewrite info_b_bi in Hz by done.
    destruct (decide (blk' = blk)) as [->|Hne]; [rewrite Hx in Hz; by simplify_eq/=|].
    apply (block_wf_other b); [by apply (wf_block _ _ _ Hwf)| |intros; by apply Halloc].
    apply used_ext. intros c Hc. pose proof geo_stride_bounds. apply Hbits; done || lia.
  - rewrite Hsum, <- (wf_erased _ _ _ Hwf). done.
  - rewrite Hsum. pose proof (wf_free _ _ _ Hwf). lia.
Qed.

(** [bi->pages_in_use++] and [--] on the signed bit-field of 10 bits. *)
Definition add_page (x : yaffs_block_info) : yaffs_block_info :=
  set_pages_in_use (wraps 10 (pages_in_use x + 1)) x.
Definition sub_page (x : yaffs_block_info) : yaffs_block_info :=
  set_pages_in_use (wraps 10 (pages_in_use x - 1)) x.

Lemma pages_bound p delta b blk x : blocks_wf p delta b → in_range blk → info b blk = Some x →
  0 ≤ pages_in_use x ≤ 511.
Proof.
  intros Hwf Hr Hx. rewrite (bw_pages _ _ _ (wf_block _ _ _ Hwf blk x Hr Hx)).
  pose proof (used_bounds b blk). destruct Hgeo. lia.
Qed.

Lemma wraps10 v : -512 ≤ v ≤ 511 → wraps 10 v = v.
Proof. intros. apply wraps_id; [lia|]. unfold in_s. change (2 ^ (10 - 1)) with 512. lia. Qed.

(** The count of free chunks of a block that is in use. *)
Lemma chunks_free_live x : block_state x ∈ [YAFFS_BLOCK_STATE_EMPTY; YAFFS_BLOCK_STATE_ALLOCATING;
    YAFFS_BLOCK_STATE_COLLECTING; YAFFS_BLOCK_STATE_FULL] →
  chunks_free x = chunks_per_block - pages_in_use x + soft_del_pages x.
Proof. intros. unfold chunks_free. by rewrite bool_decide_eq_true_2. Qed.

Lemma chunks_free_dead x : block_state x ∉ [YAFFS_BLOCK_STATE_EMPTY; YAFFS_BLOCK_STATE_ALLOCATING;
    YAFFS_BLOCK_STATE_COLLECTING; YAFFS_BLOCK_STATE_FULL] →
  chunks_free x = 0.
Proof. intros. unfold chunks_free. by rewrite bool_decide_eq_false_2. Qed.

Lemma is_empty_0 x : block_state x ≠ YAFFS_BLOCK_STATE_EMPTY → is_empty x = 0.
Proof. intros. unfold is_empty. by rewrite decide_False. Qed.

(** A chunk is taken into use: [yaffs_alloc_chunk] and [yaffs_summary_write]. *)
Definition use_chunk (blk c : Z) (b : yaffs_blocks) : yaffs_blocks :=
  set_n_free_chunks (n_free_chunks b - 1)
    (b_bit blk c true (b_bi blk add_page b)).

Lemma bit_at_use_chunk b blk c blk' c' : bitmap_wf b → in_range blk → in_range blk' →
  0 ≤ c < 8 * chunk_bit_stride → 0 ≤ c' < 8 * chunk_bit_stride →
  bit_at (use_chunk blk c b) blk' c' = if decide (blk' = blk ∧ c' = c) then true else bit_at b blk' c'.
Proof. intros. by rewrite <- (bit_at_b_bit b blk c true). Qed.

Lemma use_chunk_wf p b c : blocks_wf p 0 b → alloc_block b ≠ -1 → p ≤ c < chunks_per_block →
  blocks_wf (c + 1) 0 (use_chunk (alloc_block b) c b).
Proof.
  intros Hwf Ha Hc. destruct (wf_alloc _ _ _ Hwf) as [?|[Hr Hp (x & Hx & Hst) Hfree]]; [done|].
  pose proof geo_stride_bounds as [_ Hstride].
  pose proof (wf_block _ _ _ Hwf _ x Hr Hx) as Hbw.
  pose proof (shape_bits _ (wf_shape _ _ _ Hwf)) as Hbm.
  assert (bit_at b (alloc_block b) c = false) as Hbit by (by apply Hfree).
  assert (used (use_chunk (alloc_block b) c b) (alloc_block b) = used b (alloc_block b) + 1) as Hu
    by (rewrite <- (used_b_bit_set b (alloc_block b) c) by (done || lia); done).
  pose proof (used_bounds (use_chunk (alloc_block b) c b) (alloc_block b)) as Hub.
  rewrite Hu, <- (bw_pages _ _ _ Hbw) in Hub. destruct Hgeo as [_ _ Hcpb _ _].
  assert (pages_in_use (add_page x) = pages_in_use x + 1) as Hy by (apply wraps10; lia).
  pose proof (bw_soft _ _ _ Hbw).
  apply (blocks_wf_update p 0 (c + 1) 0 b _ (alloc_block b) x add_page); try done.
  - apply shape_n_free, shape_b_bit, shape_b_bi, Hwf.
  - intros blk' i Hr' Hi Hne. rewrite bit_at_use_chunk by (done || lia).
    rewrite decide_False; [done|]. by intros [? ?].
  - intros i Hi. rewrite bit_at_use_chunk by (done || lia).
    rewrite decide_False by lia. by apply (wf_pad _ _ _ Hwf).
  - split; rewrite ?Hy; [rewrite Hu, (bw_pages _ _ _ Hbw); done|cbn [soft_del_pages add_page set_pages_in_use]; lia
    |apply Hbw| |done].
    cbn [block_state add_page set_pages_in_use]. rewrite Hst. states.
  - right. split; [done|lia|exists (add_page x); split; [|done]|].
    + change (info (b_bi (alloc_block b) add_page b) (alloc_block b) = Some (add_page x)).
      rewrite info_b_bi by done. by rewrite decide_True, Hx by done.
    + intros i Hi. rewrite bit_at_use_chunk by (done || lia). rewrite decide_False by lia.
      apply Hfree. lia.
  - rewrite !is_empty_0 by (cbn [block_state add_page set_pages_in_use]; by rewrite Hst). cbn. lia.
  - rewrite !chunks_free_live by (cbn [block_state add_page set_pages_in_use]; rewrite Hst; states).
    rewrite Hy. cbn. lia.
Qed.

(** A chunk is no longer in use: [yaffs_chunk_del]. *)
Definition release_chunk (blk c : Z) (b : yaffs_blocks) : yaffs_blocks :=
  b_bi blk sub_page
    (b_bit blk c false (set_n_free_chunks (n_free_chunks b + 1) b)).

Lemma release_chunk_wf p b blk c x : blocks_wf p 0 b → in_range blk → 0 ≤ c < chunks_per_block →
  info b blk = Some x → bit_at b blk c = true → soft_del_pages x < pages_in_use x →
  block_state x ∈ [YAFFS_BLOCK_STATE_ALLOCATING; YAFFS_BLOCK_STATE_FULL; YAFFS_BLOCK_STATE_COLLECTING] →
  blocks_wf p 0 (release_chunk blk c b).
Proof.
  intros Hwf Hr Hc Hx Hbit Hsoft Hst.
  pose proof geo_stride_bounds as [_ Hstride].
  pose proof (wf_block _ _ _ Hwf _ x Hr Hx) as Hbw.
  pose proof (shape_bits _ (wf_shape _ _ _ Hwf)) as Hbm.
  assert (∀ blk' c', in_range blk' → 0 ≤ c' < 8 * chunk_bit_stride →
    bit_at (release_chunk blk c b) blk' c' = if decide (blk' = blk ∧ c' = c) then false else bit_at b blk' c')
    as Hbits by (intros; rewrite <- (bit_at_b_bit b blk c false) by (done || lia); done).
  assert (used (release_chunk blk c b) blk = used b blk - 1) as Hu
    by (rewrite <- (used_b_bit_clear b blk c) by (done || lia); done).
  pose proof (pages_bound _ _ _ _ _ Hwf Hr Hx). pose proof (bw_soft _ _ _ Hbw).
  assert (pages_in_use (sub_page x) = pages_in_use x - 1) as Hy by (apply wraps10; lia).
  apply (blocks_wf_update p 0 p 0 b _ blk x sub_page); try done.
  - apply shape_b_bi, shape_b_bit, shape_n_free, Hwf.
  - intros blk' i Hr' Hi Hne. rewrite Hbits by done. rewrite decide_False; [done|]. by intros [? ?].
  - intros i Hi. rewrite Hbits by (done || lia). rewrite decide_False by lia. by apply (wf_pad _ _ _ Hwf).
  - split; rewrite ?Hy; [rewrite Hu, (bw_pages _ _ _ Hbw); done|cbn [soft_del_pages sub_page set_pages_in_use]; lia
    |apply Hbw| |apply Hbw].
    cbn [block_state sub_page set_pages_in_use]. states.
  - destruct (wf_alloc _ _ _ Hwf) as [?|[Hr' Hp (z & Hz & Hzst) Hfree]]; [by left|right].
    split; [done|done| |].
    + change (alloc_block (release_chunk blk c b)) with (alloc_block b).
      unfold release_chunk. rewrite info_b_bi by done.
      change (info (b_bit blk c false (set_n_free_chunks (n_free_chunks b + 1) b))) with (info b).
      destruct (decide (alloc_block b = blk)) as [Eb|_]; [|by exists z].
      rewrite Hx. exists (sub_page x). split; [done|]. rewrite Eb in Hz. by simplify_eq.
    + intros i Hi. change (alloc_block (release_chunk blk c b)) with (alloc_block b).
      rewrite Hbits by (done || lia). destruct (decide _); [done|]. by apply Hfree.
  - rewrite !is_empty_0 by (cbn [block_state sub_page set_pages_in_use]; intros E; states).
    cbn. lia.
  - rewrite !chunks_free_live by (cbn [block_state sub_page set_pages_in_use]; states).
    rewrite Hy. cbn. lia.
Qed.

(** With no open block the page does not matter. *)
Lemma blocks_wf_closed p p' delta b : alloc_block b = -1 → blocks_wf p delta b → blocks_wf p' delta b.
Proof using Type. intros Ha []. split; try done. by left. Qed.

(** A block is closed: it takes no more chunks. *)
Definition close_block (b : yaffs_blocks) : yaffs_blocks :=
  set_alloc_block (-1) (b_bi (alloc_block b) (set_block_state YAFFS_BLOCK_STATE_FULL) b).

Lemma close_block_wf p p' b : blocks_wf p 0 b → alloc_block b ≠ -1 → blocks_wf p' 0 (close_block b).
Proof.
  intros Hwf Ha. destruct (wf_alloc _ _ _ Hwf) as [?|[Hr Hp (x & Hx & Hst) Hfree]]; [done|].
  pose proof (wf_block _ _ _ Hwf _ x Hr Hx) as Hbw.
  apply (blocks_wf_update p 0 p' 0 b _ (alloc_block b) x (set_block_state YAFFS_BLOCK_STATE_FULL)); try done.
  - apply (shape_eq (b_bi (alloc_block b) (set_block_state YAFFS_BLOCK_STATE_FULL) b)); [done..|].
    by apply shape_b_bi, Hwf.
  - intros i Hi. by apply (wf_pad _ _ _ Hwf).
  - destruct Hbw. split; try done; cbn [block_state set_block_state]; states.
  - by left.
  - rewrite !is_empty_0 by (cbn [block_state set_block_state]; congruence). cbn. lia.
  - rewrite !chunks_free_live by (cbn [block_state set_block_state]; states). cbn. lia.
Qed.

(** An erased block is opened for allocation. *)
Definition open_info (s : Z) (x : yaffs_block_info) : yaffs_block_info :=
  set_bi_seq_number s (set_block_state YAFFS_BLOCK_STATE_ALLOCATING x).

Lemma unused_bits p delta b blk x c : blocks_wf p delta b → in_range blk → info b blk = Some x →
  pages_in_use x = 0 → 0 ≤ c < 8 * chunk_bit_stride → bit_at b blk c = false.
Proof.
  intros Hwf Hr Hx H0 Hc. destruct (decide (c < chunks_per_block)); [|apply (wf_pad _ _ _ Hwf); done || lia].
  pose proof (bw_pages _ _ _ (wf_block _ _ _ Hwf _ x Hr Hx)) as Hu. rewrite H0 in Hu.
  apply (proj1 (count_upto_zero _ _) (eq_sym Hu)). lia.
Qed.

Lemma open_block_wf p b b' blk x s : blocks_wf p 0 b → alloc_block b = -1 → in_range blk →
  info b blk = Some x → block_state x = YAFFS_BLOCK_STATE_EMPTY →
  block_info b' = block_info (b_bi blk (open_info s) b) → chunk_bits b' = chunk_bits b →
  alloc_block b' = blk → n_erased_blocks b' = n_erased_blocks b - 1 →
  n_free_chunks b' = n_free_chunks b → blocks_wf 0 0 b'.
Proof.
  intros Hwf Ha Hr Hx Hst Hi Hc Ha' He Hf. pose proof (wf_block _ _ _ Hwf _ x Hr Hx) as Hbw.
  assert (pages_in_use x = 0) as H0 by (apply Hbw; states).
  pose proof geo_stride_bounds. destruct Hgeo as [Hg1 _ Hg3 _ _].
  pose proof (bit_at_eq b' b Hc) as Hbit.
  apply (blocks_wf_update p 0 0 0 b _ blk x (open_info s)); try done.
  - apply (shape_eq (b_bi blk (open_info s) b)); [by symmetry..|]. by apply shape_b_bi, Hwf.
  - intros. by rewrite Hbit.
  - intros i Hi'. rewrite Hbit. by apply (wf_pad _ _ _ Hwf).
  - destruct Hbw. split; try done; [by unfold used; rewrite Hbit
      |cbn [block_state set_block_state open_info set_bi_seq_number]; states..].
  - intros blk' Hne E [? _]. lia.
  - right. split; rewrite ?Ha'; [done|lia| |].
    + exists (open_info s x). split; [|done]. unfold info. rewrite Hi.
      change (info (b_bi blk (open_info s) b) blk = Some (open_info s x)).
      rewrite info_b_bi by done. by rewrite decide_True, Hx by done.
    + intros c Hc'. rewrite Hbit. apply (unused_bits p 0 b blk x c); done || lia.
  - rewrite (is_empty_0 (open_info s x)) by done.
    replace (is_empty x) with 1 by (unfold is_empty; by rewrite decide_True). lia.
  - rewrite !chunks_free_live by (cbn [block_state set_block_state open_info set_bi_seq_number]; states).
    cbn. lia.
Qed.

(** A block that is not being allocated changes its state. *)
Lemma blocks_wf_state p delta delta' b b' blk x f :
  blocks_wf p delta b → in_range blk → info b blk = Some x →
  chunk_bits b' = chunk_bits b → block_info b' = block_info (b_bi blk f b) →
  alloc_block b' = alloc_block b → pages_in_use (f x) = pages_in_use x →
  soft_del_pages (f x) = soft_del_pages x ∨ 0 ≤ soft_del_pages (f x) ≤ pages_in_use x →
  block_state x ≠ YAFFS_BLOCK_STATE_ALLOCATING → block_state (f x) ≠ YAFFS_BLOCK_STATE_ALLOCATING →
  block_state (f x) ∈ live_states →
  (block_state (f x) ∈ [YAFFS_BLOCK_STATE_EMPTY; YAFFS_BLOCK_STATE_CHECKPOINT; YAFFS_BLOCK_STATE_DIRTY] →
     pages_in_use x = 0) →
  n_erased_blocks b' = n_erased_blocks b - is_empty x + is_empty (f x) →
  n_free_chunks b' - delta' = n_free_chunks b - delta - chunks_free x + chunks_free (f x) →
  blocks_wf p delta' b'.
Proof.
  intros Hwf Hr Hx Hc Hi Ha Hp Hs Hst Hst' Hlive Hun He Hf.
  pose proof (wf_block _ _ _ Hwf _ x Hr Hx) as Hbw.
  apply (blocks_wf_update p delta p delta' b b' blk x f); try done.
  - apply (shape_eq (b_bi blk f b)); [by symmetry..|]. by apply shape_b_bi, Hwf.
  - intros blk' c _ _ _. by rewrite (bit_at_eq b' b).
  - intros c Hc'. rewrite (bit_at_eq b' b) by done. by apply (wf_pad _ _ _ Hwf).
  - split; rewrite ?Hp; [|destruct Hbw; lia|done|done|done].
    unfold used. rewrite (bit_at_eq b' b) by done. apply Hbw.
  - intros blk' Hne E _. congruence.
  - destruct (wf_alloc _ _ _ Hwf) as [?|[Hr' Hpg (z & Hz & Hzst) Hfree]]; [left; congruence|right].
    split; rewrite ?Ha; [done|done| |].
    + exists z. split; [|done]. unfold info. rewrite Hi.
      change (info (b_bi blk f b) (alloc_block b) = Some z).
      rewrite info_b_bi by done. rewrite decide_False; [done|]. intros E. congruence.
    + by rewrite (bit_at_eq b' b).
Qed.

(** A block has lost its last chunk; while it is dirty its chunks are not counted. *)
Lemma dirty_wf p b blk x : blocks_wf p 0 b → in_range blk → info b blk = Some x →
  block_state x ∈ [YAFFS_BLOCK_STATE_FULL; YAFFS_BLOCK_STATE_COLLECTING] → pages_in_use x = 0 →
  blocks_wf p chunks_per_block (b_bi blk (set_block_state YAFFS_BLOCK_STATE_DIRTY) b).
Proof.
  intros Hwf Hr Hx Hst H0. pose proof (wf_block _ _ _ Hwf _ x Hr Hx) as Hbw.
  apply (blocks_wf_state p 0 chunks_per_block b _ blk x (set_block_state YAFFS_BLOCK_STATE_DIRTY));
    cbn [block_state set_block_state]; try done; [by left|states|states| |].
  - rewrite !is_empty_0 by (cbn [block_state set_block_state]; states). cbn. lia.
  - rewrite (chunks_free_live x), (chunks_free_dead (set_block_state _ x))
      by (cbn [block_state set_block_state]; states).
    destruct Hbw. cbn. lia.
Qed.

(** It cannot be erased. *)
Definition dead_info (x : yaffs_block_info) : yaffs_block_info :=
  set_needs_retiring false (set_gc_prioritise false (set_block_state YAFFS_BLOCK_STATE_DEAD x)).

Lemma dead_wf p delta b blk x : blocks_wf p delta b → in_range blk → info b blk = Some x →
  block_state x = YAFFS_BLOCK_STATE_DIRTY → blocks_wf p delta (b_bi blk dead_info b).
Proof.
  intros Hwf Hr Hx Hst.
  apply (blocks_wf_state p delta delta b _ blk x dead_info); try done; [by left|by rewrite Hst|..].
  - cbn. states.
  - cbn. states.
  - rewrite !is_empty_0 by (cbn; states). cbn. lia.
  - rewrite !chunks_free_dead by (cbn; states). cbn. lia.
Qed.

(** The count of free chunks moves away from the blocks, and back. *)
Lemma n_free_wf p delta k b : blocks_wf p delta b →
  blocks_wf p (delta - k) (set_n_free_chunks (n_free_chunks b - k) b).
Proof.
  intros []. split; try done.
  - by apply shape_n_free.
  - intros blk x Hr Hx. destruct (wf_block0 blk x Hr Hx). by split.
  - destruct wf_alloc0 as [?|[]]; [by left|right; by split].
  - cbn. lia.
Qed.

(** It is erased. *)
Definition erased_info (x : yaffs_block_info) : yaffs_block_info :=
  set_has_summary false (set_gc_prioritise false (set_skip_erased_check true
    (set_has_shrink_hdr false (set_soft_del_pages 0 (set_pages_in_use 0
      (set_bi_seq_number 0 (set_block_state YAFFS_BLOCK_STATE_EMPTY x))))))).

Lemma erased_wf p b b' blk x : blocks_wf p chunks_per_block b → in_range blk → info b blk = Some x →
  block_state x = YAFFS_BLOCK_STATE_DIRTY →
  block_info b' = block_info (b_bi blk erased_info b) → chunk_bits b' = chunk_bits (b_clear blk b) →
  alloc_block b' = alloc_block b → n_erased_blocks b' = n_erased_blocks b + 1 →
  n_free_chunks b' = n_free_chunks b → blocks_wf p 0 b'.
Proof.
  intros Hwf Hr Hx Hst Hi Hc Ha He Hf. pose proof (wf_block _ _ _ Hwf _ x Hr Hx) as Hbw.
  assert (pages_in_use x = 0) as H0 by (apply Hbw; states).
  pose proof (shape_bits _ (wf_shape _ _ _ Hwf)) as Hbm. pose proof geo_stride_bounds.
  assert (∀ blk' c, in_range blk' → 0 ≤ c < 8 * chunk_bit_stride → bit_at b' blk' c = bit_at b blk' c) as Hbits.
  { intros blk' c Hr' Hc'. rewrite (bit_at_eq b' (b_clear blk b)), bit_at_b_clear by done.
    destruct (decide (blk' = blk)) as [->|]; [|done].
    symmetry. by apply (unused_bits p chunks_per_block b blk x). }
  destruct Hgeo as [_ _ Hcpb _ _].
  apply (blocks_wf_update p chunks_per_block p 0 b b' blk x erased_info); try done.
  - apply (shape_eq (b_bi blk erased_info (b_clear blk b))); [by symmetry..|].
    apply shape_b_bi. split; [by apply bitmap_wf_b_clear|apply Hwf].
  - intros blk' c Hr' Hc' _. by apply Hbits.
  - intros c Hc'. rewrite Hbits by (done || lia). by apply (wf_pad _ _ _ Hwf).
  - split; cbn; [|lia|states|done|done].
    rewrite (used_ext b' b) by (intros; apply Hbits; done || lia). rewrite <- H0. apply Hbw.
  - intros blk' Hne E _. congruence.
  - destruct (wf_alloc _ _ _ Hwf) as [?|[Hr' Hpg (z & Hz & Hzst) Hfree]]; [left; congruence|right].
    split; rewrite ?Ha; [done|done| |].
    + exists z. split; [|done]. unfold info. rewrite Hi.
      change (info (b_bi blk erased_info b) (alloc_block b) = Some z).
      rewrite info_b_bi by done. rewrite decide_False; [done|]. intros E. congruence.
    + intros c Hc'. rewrite Hbits by (done || lia). by apply Hfree.
  - rewrite (is_empty_0 x) by states. replace (is_empty (erased_info x)) with 1; [lia|].
    unfold is_empty. by rewrite decide_True.
  - rewrite (chunks_free_live (erased_info x)) by (cbn; states).
    rewrite (chunks_free_dead x) by states. cbn. lia.
Qed.

(** The data of a chunk is given up before the chunk is deleted: [yaffs_soft_del_chunk]. *)
Definition soft_del (x : yaffs_block_info) : yaffs_block_info :=
  set_soft_del_pages (wraps 10 (soft_del_pages x + 1)) x.

Lemma soft_del_wf p b blk x : blocks_wf p 0 b → in_range blk → info b blk = Some x →
  soft_del_pages x < pages_in_use x →
  block_state x ∈ [YAFFS_BLOCK_STATE_ALLOCATING; YAFFS_BLOCK_STATE_FULL; YAFFS_BLOCK_STATE_COLLECTING] →
  blocks_wf p 0 (set_n_free_chunks (n_free_chunks b + 1) (b_bi blk soft_del b)).
Proof.
  intros Hwf Hr Hx Hs Hst. pose proof (wf_block _ _ _ Hwf _ x Hr Hx) as Hbw.
  pose proof (pages_bound _ _ _ _ _ Hwf Hr Hx). pose proof (bw_soft _ _ _ Hbw).
  assert (soft_del_pages (soft_del x) = soft_del_pages x + 1) as Hy by (apply wraps10; lia).
  apply (blocks_wf_update p 0 p 0 b _ blk x soft_del); try done.
  - apply shape_n_free, shape_b_bi, Hwf.
  - intros c Hc. by apply (wf_pad _ _ _ Hwf).
  - destruct Hbw. split; try done. rewrite Hy. cbn. lia.
  - destruct (wf_alloc _ _ _ Hwf) as [?|[Hr' Hpg (z & Hz & Hzst) Hfree]]; [by left|right].
    split; [done|done| |done].
    change (∃ x, info (b_bi blk soft_del b) (alloc_block b) = Some x ∧
                 block_state x = YAFFS_BLOCK_STATE_ALLOCATING).
    rewrite info_b_bi by done.
    destruct (decide (alloc_block b = blk)) as [E|]; [|by exists z].
    rewrite E in Hz. exists (soft_del z). rewrite Hz. done.
  - rewrite !is_empty_0 by (cbn; states). cbn. lia.
  - rewrite !chunks_free_live by (cbn; states). rewrite Hy. cbn. lia.
Qed.

(** A block of a checkpoint is erased, or is dead. *)
Lemma checkpt_erased_wf p delta b blk x : blocks_wf p delta b → in_range blk → info b blk = Some x →
  block_state x = YAFFS_BLOCK_STATE_CHECKPOINT →
  blocks_wf p delta (set_n_free_chunks (n_free_chunks b + chunks_per_block)
    (set_n_erased_blocks (n_erased_blocks b + 1) (b_bi blk (set_block_state YAFFS_BLOCK_STATE_EMPTY) b))).
Proof.
  intros Hwf Hr Hx Hst. pose proof (wf_block _ _ _ Hwf _ x Hr Hx) as Hbw.
  assert (pages_in_use x = 0) as H0 by (apply Hbw; states). pose proof (bw_soft _ _ _ Hbw).
  apply (blocks_wf_state p delta delta b _ blk x (set_block_state YAFFS_BLOCK_STATE_EMPTY));
    cbn [block_state set_block_state]; try done; [by left|by rewrite Hst|states| |].
  - rewrite (is_empty_0 x) by states.
    replace (is_empty (set_block_state YAFFS_BLOCK_STATE_EMPTY x)) with 1
      by (unfold is_empty; by rewrite decide_True). cbn. lia.
  - rewrite (chunks_free_dead x), (chunks_free_live (set_block_state _ x))
      by (cbn [block_state set_block_state]; states). cbn. lia.
Qed.

Lemma checkpt_dead_wf p delta b blk x : blocks_wf p delta b → in_range blk → info b blk = Some x →
  block_state x = YAFFS_BLOCK_STATE_CHECKPOINT →
  blocks_wf p delta (b_bi blk (set_block_state YAFFS_BLOCK_STATE_DEAD) b).
Proof.
  intros Hwf Hr Hx Hst.
  apply (blocks_wf_state p delta delta b _ blk x (set_block_state YAFFS_BLOCK_STATE_DEAD));
    cbn [block_state set_block_state]; try done; [by left|by rewrite Hst|states|states| |].
  - rewrite !is_empty_0 by (cbn [block_state set_block_state]; states). cbn. lia.
  - rewrite !chunks_free_dead by (cbn [block_state set_block_state]; states). cbn. lia.
Qed.

(** ** Blocks that agree on the accounting

    Reading, and most of the handling of errors, changes the rest of the information
    of a block: the marks for collection and retirement, of a summary, and the strikes. *)

#[local] Set Default Proof Using "Type".

Definition acct (x : yaffs_block_info) : Z * Z * yaffs_block_state * bool * Z :=
  (soft_del_pages x, pages_in_use x, block_state x, has_shrink_hdr x, bi_seq_number x).

Record acct_eq (b b' : yaffs_blocks) : Prop := {
  ae_info : acct <$> block_info b = acct <$> block_info b';
  ae_bits : chunk_bits b = chunk_bits b';
  ae_erased : n_erased_blocks b = n_erased_blocks b';
  ae_alloc : alloc_block b = alloc_block b';
  ae_page : alloc_page b = alloc_page b';
  ae_free : n_free_chunks b = n_free_chunks b';
  ae_seq : dev_seq_number b = dev_seq_number b'
}.

#[export] Instance acct_eq_equiv : Equivalence acct_eq.
Proof.
  split.
  - by split.
  - intros ? ? []. by split.
  - intros ? ? ? [] []. split; congruence.
Qed.

Lemma acct_eq_info b b' blk : acct_eq b b' → acct <$> info b blk = acct <$> info b' blk.
Proof. intros [H _ _ _ _ _ _]. unfold info. by rewrite <- !list_lookup_fmap, H. Qed.

Lemma acct_eq_info_Some b b' blk x : acct_eq b b' → info b' blk = Some x →
  ∃ y, info b blk = Some y ∧ acct y = acct x.
Proof.
  intros H Hx. pose proof (acct_eq_info _ _ blk H) as E. rewrite Hx in E.
  destruct (info b blk) as [y|]; [|done]. exists y. split; [done|]. exact (Some_inj _ _ E).
Qed.

Lemma acct_eq_zsum (g : yaffs_block_info → Z) b b' : acct_eq b b' →
  (∀ x y, acct x = acct y → g x = g y) → zsum g (block_info b) = zsum g (block_info b').
Proof.
  intros [H _ _ _ _ _ _] Hg. revert H. generalize (block_info b') as l'.
  induction (block_info b) as [|x l IH]; intros [|y l'] H; try done.
  cbn in H |- *. injection H as H1 H2. rewrite (Hg x y), (IH l'); [done|done|].
  unfold acct. congruence.
Qed.

Lemma acct_eq_shape b b' : acct_eq b b' → shape b → shape b'.
Proof.
  intros [Hi Hb _ _ _ _ _] [[H1 H2] H3]. rewrite Hb in H1, H2. split; [by split|].
  rewrite <- H3, <- (length_fmap acct (block_info b)), Hi, length_fmap. done.
Qed.

Lemma acct_eq_bit b b' : acct_eq b b' → bit_at b = bit_at b'.
Proof. intros []. by apply bit_at_eq. Qed.

Lemma acct_eq_blocks_wf p delta b b' : acct_eq b b' → blocks_wf p delta b → blocks_wf p delta b'.
Proof.
  intros Hae Hwf. pose proof (acct_eq_bit b b' Hae) as Hbit.
  split.
  - eapply acct_eq_shape; [done|apply Hwf].
  - rewrite <- Hbit. apply Hwf.
  - intros blk x Hr Hx. destruct (acct_eq_info_Some b b' blk x Hae Hx) as (y & Hy & E).
    destruct (wf_block _ _ _ Hwf blk y Hr Hy) as [E1 E2 E3 E4 E5]. unfold acct in E.
    injection E as Es Ep Est _ _. rewrite Es, Ep in *. rewrite Est in *.
    split; rewrite <- ?(ae_alloc b b' Hae); try done.
    unfold used. by rewrite <- Hbit.
  - rewrite <- (ae_alloc b b' Hae). destruct (wf_alloc _ _ _ Hwf) as [?|[Hr Hp (x & Hx & Hst) Hf]]; [by left|right].
    split; rewrite <- ?(ae_alloc b b' Hae); [done|done| |by rewrite <- Hbit].
    destruct (acct_eq_info_Some b' b (alloc_block b) x) as (y & Hy & E); [by symmetry|done|].
    exists y. split; [done|]. unfold acct in E. congruence.
  - rewrite <- (ae_erased b b' Hae), (wf_erased _ _ _ Hwf). apply acct_eq_zsum; [done|].
    unfold acct, is_empty. intros x y E. by injection E as _ _ -> _ _.
  - rewrite <- (ae_free b b' Hae), (wf_free _ _ _ Hwf). f_equal. apply acct_eq_zsum; [done|].
    unfold acct, chunks_free. intros x y E. by injection E as -> -> -> _ _.
Qed.

#[export] Instance blocks_wf_proper p delta : Proper (acct_eq ==> iff) (blocks_wf p delta).
Proof. intros b b' H. split; apply acct_eq_blocks_wf; [done|by symmetry]. Qed.

#[export] Instance shape_proper : Proper (acct_eq ==> iff) shape.
Proof. intros b b' H. split; apply acct_eq_shape; [done|by symmetry]. Qed.

#[export] Instance blocks_ok_proper : Proper (acct_eq ==> iff) blocks_ok.
Proof. intros b b' H. unfold blocks_ok. by rewrite (ae_alloc _ _ H), (ae_page _ _ H), H. Qed.

(** A change of the other fields of a block. *)
Lemma b_bi_acct b blk f : (∀ x, acct (f x) = acct x) → acct_eq b (b_bi blk f b).
Proof.
  intros Hf. split; try done. cbn. apply list_eq. intros i.
  rewrite !list_lookup_fmap, list_lookup_alter. destruct (decide _) as [->|]; [|done].
  destruct (block_info b !! _); [|done]. cbn. by rewrite Hf.
Qed.
End accounting.

(** ** A small device

    Three blocks of 16 chunks: one that is being allocated with a chunk in use, one
    that is erased, and a full one with two chunks in use, one of them deleted softly. *)

Definition demo_cfg : yaffs_config := {|
  inband_tags := false; total_bytes_per_chunk := 32; chunks_per_block := 16;
  start_block := 1; end_block := 3; n_reserved_blocks := 0; use_nand_ecc := true;
  no_tags_ecc := false; is_yaffs2 := true; refresh_period := 0; skip_checkpt_wr := false;
  always_check_erased := false; disable_bad_block_marking := false;
  data_bytes_per_chunk := 32; tnode_size := 32; swap_endian := false; read_only := false;
  internal_start_block := 1; internal_end_block := 3; block_offset := 0; chunk_offset := 0;
  chunk_bit_stride := 2; chunks_per_summary := 8; temp_bytes := replicate 32 0;
  yaffs_wr_attempts := 0; skip_verification := true; trace_erase := false |}.

#[local] Existing Instance demo_cfg.

Lemma demo_geometry : geometry.
Proof. split; [done|done|done|done|done]. Qed.

Definition demo_bi (soft pages : Z) (st : yaffs_block_state) : yaffs_block_info :=
  mk_bi soft pages st false false false 0 false false 0x1000.

Definition demo_blocks : yaffs_blocks :=
  mk_blocks [demo_bi 0 1 YAFFS_BLOCK_STATE_ALLOCATING; demo_bi 0 0 YAFFS_BLOCK_STATE_EMPTY;
             demo_bi 1 2 YAFFS_BLOCK_STATE_FULL]
    [1; 0; 0; 0; 3; 0] 1 1 1 1 46 0x1001.

Lemma demo_bitmap_wf : bitmap_wf demo_blocks.
Proof. split; [done|]. unfold demo_blocks, in_u; cbn. repeat constructor; lia. Qed.

Lemma demo_in_range blk : in_range blk → blk = 1 ∨ blk = 2 ∨ blk = 3.
Proof. unfold in_range. cbn. lia. Qed.

Lemma demo_blocks_ok : blocks_ok demo_blocks.
Proof.
  split; [|done]. split; [split; [apply demo_bitmap_wf|done]| | | |done|done].
  - intros blk c _ Hc. cbn in Hc. lia.
  - intros blk x [-> | [-> | ->]]%demo_in_range Hx; injection Hx as <-;
      (split; [reflexivity|cbn; lia|vm_compute; set_solver| |]); cbn; try done; set_solver.
  - right. split; [done|done|by eexists|]. intros c Hc. cbn in Hc.
    assert (Forall (λ c, bit_at demo_blocks 1 c = false) (seqZ 1 15)) as Hall
      by (apply (bool_decide_eq_true_1 _); by vm_compute).
    apply (proj1 (Forall_forall _ _) Hall), elem_of_seqZ. lia.
Qed.

Definition demo_dev : yaffs_dev () :=
  mk_dev () demo_blocks (mk_gc false false 1 0 0 0 0 0 0 0 0 0 0)
    (mk_temp (replicate YAFFS_N_TEMP_BUFFERS false) 0 0 0 0) false 0 0 None 0 0 (λ _, 0).

Example chunk_bitmap_spec_witness : yaffs_check_chunk_bit 3 1 demo_dev = Ok (true, demo_dev) ∧
  yaffs_count_chunk_bits 3 demo_dev = Ok (2, demo_dev).
Proof.
  pose proof (@chunk_bitmap_spec () demo_cfg demo_geometry 3 1 demo_dev demo_bitmap_wf
    ltac:(split; cbn; lia) ltac:(cbn; lia)) as (_ & _ & H1 & H2 & _).
  split; [exact H1|exact H2].
Defined.
