(* ===== verification/YaffsAlloc.v ===== *)
(** * YAFFS: allocation, writing, deletion and erasure keep the accounts

    The operations of [YaffsDev] on a device of yaffs2 whose blocks satisfy the
    invariant [blocks_ok] of [YaffsBlocks]: each of them runs without a fault whatever
    the driver answers, and leaves a device that satisfies it. *)

From S2P Require Import Prelude Memory Endian YaffsEcc YaffsTags YaffsDev YaffsBlocks.

(** What the driver promises: the spare area that it reads is made of bytes, and a
    write is answered by [YAFFS_OK] or by [YAFFS_FAIL]. *)
Class driver_ok (F : Type) {cfg : yaffs_config} {drv : yaffs_driver F} : Prop := {
  read_spare_bytes : ∀ chunk dl ol f,
    Forall (in_u 8) (drv_read_chunk_fn chunk dl ol f).1.1.2;
  write_answers : ∀ chunk data len oob f,
    (drv_write_chunk_fn chunk data len oob f).1 = YAFFS_OK ∨
    (drv_write_chunk_fn chunk data len oob f).1 = YAFFS_FAIL
}.

(** A temporary buffer is as long as a chunk, with room for the tags that are kept in
    it and for the header of a summary. *)
Class buffers_ok {cfg : yaffs_config} : Prop := {
  bo_temp : zlen temp_bytes = total_bytes_per_chunk;
  bo_data : 16 < data_bytes_per_chunk;
  bo_total : data_bytes_per_chunk + (if inband_tags then 16 else 0) ≤ total_bytes_per_chunk
}.

(** ** Tags can always be packed and unpacked *)

Lemma ecc_calc_other_total p : ∃ e, yaffs_ecc_calc_other (ptt_bytes p) ptt_size = Some e ∧ 0 ≤ line_parity e.
Proof.
  destruct (parity_loop_total 32 ltac:(lia) ptt_size 0 (ptt_bytes p) (Parity 0 0 0)) as [q Hq];
    [by rewrite ptt_bytes_length|].
  exists (ecc_other_pack q). unfold yaffs_ecc_calc_other. rewrite Hq. split; [done|].
  assert (parity_wf 32 q) as Hw.
  { eapply (parity_loop_wf 32); [lia|apply ptt_bytes_u8| |exact Hq]. repeat split; vm_compute; done. }
  unfold ecc_other_pack. cbn [line_parity]. apply Hw.
Qed.

Lemma pack_tags2_total sw pt t b : ∃ p, yaffs_pack_tags2 sw pt t b = Some p.
Proof.
  unfold yaffs_pack_tags2. destruct b; [|by eexists].
  destruct (ecc_calc_other_total (yaffs_pack_tags2_tags_only sw t)) as (e & He & _).
  rewrite He. by eexists.
Qed.

Lemma unpack_tags2_total sw pt b : 0 ≤ line_parity (pt_ecc pt) →
  ∃ r, yaffs_unpack_tags2 sw pt b = Some r.
Proof.
  intros Hl. unfold yaffs_unpack_tags2. destruct (_ && _); [|by eexists].
  destruct (ecc_calc_other_total (pt_t pt)) as (e & He & Hel). rewrite He.
  cbn [mbind option_bind].
  enough (∃ r, yaffs_ecc_correct_other (ptt_bytes (pt_t pt)) ptt_size (pt_ecc pt) e = Some r)
    as [[[result data] e'] ->] by by eexists.
  unfold yaffs_ecc_correct_other. destruct (_ =? 0); [by eexists|].
  destruct (_ && _); [|destruct (_ =? 1); by eexists].
  set (dl := Z.lxor (line_parity (pt_ecc pt)) (line_parity e)).
  assert (0 ≤ dl) by (apply Z.lxor_nonneg; lia).
  destruct (Z.leb_spec (Z.of_nat ptt_size) dl); [by eexists|].
  pose proof (ptt_bytes_length (pt_t pt)) as Hlen. unfold xor_at.
  destruct (znth_Some (ptt_bytes (pt_t pt)) dl) as (x & -> & _); [lia|].
  rewrite zset_Some by lia. by eexists.
Qed.

Lemma number_nonneg o l : Forall (in_u 8) l → 0 ≤ number o l.
Proof.
  intros Hl. destruct o; [apply (le_val_range (rev l)); by apply Forall_rev|by apply (le_val_range l)].
Qed.

Section alloc.
Context {F : Type} {cfg : yaffs_config} {drv : yaffs_driver F} `{!driver_ok F}.
Context `{!buffers_ok}.
Context {Hgeo : geometry} (Hy2 : is_yaffs2 = true).
Abbreviation M := (prog (yaffs_dev F)).
Implicit Types (d : yaffs_dev F) (b : yaffs_blocks).
#[local] Set Default Proof Using "Type*".

(** ** Programs that leave the accounts alone *)

Definition quiet (d d' : yaffs_dev F) : Prop :=
  acct_eq (blocks d) (blocks d') ∧ sum_tags d = sum_tags d'.

#[export] Instance quiet_equiv : Equivalence quiet.
Proof.
  split.
  - by split.
  - intros ? ? []. by split.
  - intros ? ? ? [] []. split; [by etrans|congruence].
Qed.

(** The program ends, whatever the state of a device with arrays of the right sizes,
    and the accounts are what they were. *)
Definition quietly {A} (m : M A) : Prop :=
  ∀ d, shape (blocks d) → ∃ x d', m d = Ok (x, d') ∧ quiet d d'.

Lemma quietly_ret {A} (x : A) : quietly (mret x).
Proof. intros d _. by exists x, d. Qed.

Lemma quietly_bind {A B} (m : M A) (k : A → M B) :
  quietly m → (∀ x, quietly (k x)) → quietly (m ≫= k).
Proof.
  intros Hm Hk d Hd. destruct (Hm d Hd) as (x & d1 & H1 & Hq1).
  assert (shape (blocks d1)) as Hd1 by (rewrite <- (proj1 Hq1); done).
  destruct (Hk x d1 Hd1) as (y & d2 & H2 & Hq2).
  exists y, d2. rewrite (bind_Ok _ _ _ _ _ H1). split; [done|]. by etrans.
Qed.

Lemma quietly_modify f : (∀ d, quiet d (f d)) → quietly (modify f).
Proof. intros Hf d _. exists (), (f d). split; [done|apply Hf]. Qed.

Lemma quietly_get : quietly get.
Proof. intros d _. by exists d, d. Qed.

Lemma quietly_when (c : bool) m : quietly m → quietly (when c m).
Proof. destruct c; [done|intros _; apply quietly_ret]. Qed.

Lemma quietly_if {A} (c : bool) (m1 m2 : M A) : quietly m1 → quietly m2 → quietly (if c then m1 else m2).
Proof. by destruct c. Qed.

Lemma quietly_defined {A} (o : option A) : is_Some o → quietly (defined o).
Proof. intros [x ->]. apply quietly_ret. Qed.

Lemma quietly_on_flash {A} (f : F → A * F) : quietly (on_flash f).
Proof.
  intros d _. unfold on_flash. prog_simpl. destruct (f (flash d)) as [x s].
  exists x, (set_flash s d). prog_simpl. done.
Qed.

Lemma bind_on_flash {A B} (f : F → A * F) (k : A → M B) d :
  (on_flash f ≫= k) d = k (f (flash d)).1 (set_flash (f (flash d)).2 d).
Proof using Type. unfold on_flash. prog_simpl. by destruct (f (flash d)). Qed.

Lemma bind_upd_bi {B} blk f (k : () → M B) d : shape (blocks d) → in_range blk →
  (upd_bi blk f ≫= k) d = k () (on_blocks (b_bi blk f) d).
Proof. intros Hs Hr. apply bind_Ok, (upd_bi_run blk f d Hs Hr). Qed.

Lemma bind_upd_blocks {B} f (k : () → M B) d : (upd_blocks f ≫= k) d = k () (on_blocks f d).
Proof using Type. done. Qed.

(** A call of the driver whose result satisfies [P]. *)
Lemma quietly_on_flash_bind {A B} (f : F → A * F) (k : A → M B) (P : A → Prop) :
  (∀ s, P (f s).1) → (∀ x, P x → quietly (k x)) → quietly (on_flash f ≫= k).
Proof.
  intros Hf Hk d Hd. unfold on_flash. prog_simpl. specialize (Hf (flash d)).
  destruct (f (flash d)) as [x s]. prog_simpl. by apply (Hk x Hf (set_flash s d)).
Qed.

Lemma quietly_get_block_info blk : in_range blk → quietly (yaffs_get_block_info blk).
Proof. intros Hr d _. exists blk, d. by rewrite get_block_info_run. Qed.

(** The pointer that it returns is the number of the block. *)
Lemma quietly_get_block_info_bind {B} blk (k : Z → M B) : in_range blk → quietly (k blk) →
  quietly (yaffs_get_block_info blk ≫= k).
Proof. intros Hr Hk d Hd. prog_step (get_block_info_run blk d Hr). by apply Hk. Qed.

Lemma quietly_defined_bind {A B} (x : A) (k : A → M B) : quietly (k x) → quietly (defined (Some x) ≫= k).
Proof using Type. done. Qed.

Lemma quietly_bi_of blk : in_range blk → quietly (bi_of blk).
Proof.
  intros Hr d Hd. destruct (in_range_info _ blk Hd Hr) as [x Hx].
  exists x, d. by rewrite (bi_of_run blk d x).
Qed.

Lemma quietly_upd_bi blk f : in_range blk → (∀ x, acct (f x) = acct x) → quietly (upd_bi blk f).
Proof.
  intros Hr Hf d Hd. exists (), (on_blocks (b_bi blk f) d). rewrite upd_bi_run by done.
  split; [done|]. split; [by apply b_bi_acct|done].
Qed.

Lemma quietly_bump_by s n : quietly (bump_by s n).
Proof. by apply quietly_modify. Qed.
Lemma quietly_bump s : quietly (bump s).
Proof. apply quietly_bump_by. Qed.
Lemma quietly_upd_gc f : quietly (upd_gc f).
Proof. by apply quietly_modify. Qed.
Lemma quietly_upd_temp f : quietly (upd_temp f).
Proof. by apply quietly_modify. Qed.

Create HintDb quiet.
#[local] Hint Resolve quietly_ret quietly_get quietly_when quietly_on_flash
  quietly_bi_of quietly_upd_bi quietly_bump quietly_bump_by quietly_upd_gc quietly_upd_temp : quiet.

Ltac quiet :=
  repeat first
    [ match goal with |- ∀ _, _ => intros ? end | progress auto with quiet
    | apply quietly_get_block_info_bind; [done|] | apply quietly_defined_bind | apply quietly_when | apply quietly_if
    | apply quietly_bind
    | match goal with |- quietly (match ?x with _ => _ end) => destruct x end ].

Lemma quietly_get_temp_buffer : quietly yaffs_get_temp_buffer.
Proof. unfold yaffs_get_temp_buffer. quiet. Qed.
Lemma quietly_release_temp_buffer o : quietly (yaffs_release_temp_buffer o).
Proof. unfold yaffs_release_temp_buffer. quiet. Qed.
Lemma quietly_defined_Some {A} (x : A) : quietly (defined (Some x)).
Proof. by apply quietly_defined. Qed.
#[local] Hint Resolve quietly_defined_Some quietly_get_temp_buffer quietly_release_temp_buffer : quiet.

Lemma quietly_marshall_read chunk want t0 : quietly (yaffs_tags_marshall_read chunk want t0).
Proof.
  unfold yaffs_tags_marshall_read. apply quietly_bind; [quiet|]. intros buffer.
  apply (quietly_on_flash_bind _ _ (λ r, Forall (in_u 8) r.1.2)).
  { intros s. destruct inband_tags; apply read_spare_bytes. }
  intros [[[retval data] spare] ecc] Hspare. cbn in Hspare.
  destruct (retval =? YAFFS_FAIL); [quiet|]. apply quietly_bind.
  { destruct inband_tags; [quiet|]. apply quietly_bind; [|quiet].
    apply quietly_defined, unpack_tags2_total. cbn [pt2_of_bytes pt_ecc line_parity].
    by apply number_nonneg, Forall_take, Forall_drop. }
  quiet.
Qed.

Lemma quietly_handle_chunk_error bi : in_range bi → quietly (yaffs_handle_chunk_error bi).
Proof. intros Hr. unfold yaffs_handle_chunk_error. quiet. Qed.
#[local] Hint Resolve quietly_handle_chunk_error : quiet.

(** The number of a chunk of a block. *)
Definition chunk_of (blk c : Z) : Z := blk * chunks_per_block + c.

Lemma chunk_of_u32 blk c : in_range blk → 0 ≤ c < chunks_per_block →
  u32 (chunk_of blk c) = chunk_of blk c ∧ 0 < chunk_of blk c.
Proof.
  intros [H1 H2] Hc. destruct Hgeo as [Hs He Hp _ Hid]. unfold chunk_of.
  assert (0 < blk * chunks_per_block + c < 2 ^ 31) by nia.
  split; [|lia]. apply wrapu_id. unfold in_u. change (2 ^ 32) with (2 * 2 ^ 31). lia.
Qed.

Lemma chunk_of_div blk c : in_range blk → 0 ≤ c < chunks_per_block →
  u32 (chunk_of blk c) / chunks_per_block = blk ∧ u32 (chunk_of blk c) mod chunks_per_block = c.
Proof.
  intros Hr Hc. rewrite (proj1 (chunk_of_u32 blk c Hr Hc)). unfold chunk_of.
  split; symmetry; [apply (Z.div_unique_pos _ _ _ c)|apply (Z.mod_unique_pos _ _ blk)]; lia.
Qed.

Lemma quietly_rd_chunk_tags blk c want t0 : in_range blk → 0 ≤ c < chunks_per_block →
  quietly (yaffs_rd_chunk_tags_nand (chunk_of blk c) want t0).
Proof.
  intros Hr Hc. unfold yaffs_rd_chunk_tags_nand, read_chunk_tags_fn. rewrite Hy2.
  rewrite (proj1 (chunk_of_div blk c Hr Hc)).
  apply quietly_bind; [quiet|]. intros _. apply quietly_bind; [apply quietly_marshall_read|]. quiet.
Qed.

Lemma quietly_check_chunk_erased t blk c : in_range blk → 0 ≤ c < chunks_per_block →
  quietly (yaffs_check_chunk_erased t (chunk_of blk c)).
Proof.
  intros Hr Hc. unfold yaffs_check_chunk_erased. apply quietly_bind; [quiet|]. intros buffer.
  apply quietly_bind; [by apply quietly_rd_chunk_tags|]. quiet.
Qed.

Lemma quietly_verify_chunk_written t blk c l tags : in_range blk → 0 ≤ c < chunks_per_block →
  quietly (yaffs_verify_chunk_written t (chunk_of blk c) (Some l) tags).
Proof.
  intros Hr Hc. unfold yaffs_verify_chunk_written. apply quietly_bind; [quiet|]. intros buffer.
  apply quietly_bind; [by apply quietly_rd_chunk_tags|]. quiet.
Qed.

(** ** Checkpoints are erased *)

(** The blocks that can be opened, now or when the checkpoint is erased. *)
Definition openable (x : yaffs_block_info) : Z :=
  if decide (block_state x ∈ [YAFFS_BLOCK_STATE_EMPTY; YAFFS_BLOCK_STATE_CHECKPOINT]) then 1 else 0.
Definition n_openable (b : yaffs_blocks) : Z := zsum openable (block_info b).

(** The chunks in use, the block that is being allocated, and every block that is
    not part of a checkpoint are what they were. *)
Record steady (d d' : yaffs_dev F) : Prop := {
  st_sum : sum_tags d = sum_tags d';
  st_bits : chunk_bits (blocks d) = chunk_bits (blocks d');
  st_alloc : alloc_block (blocks d) = alloc_block (blocks d');
  st_page : alloc_page (blocks d) = alloc_page (blocks d');
  st_info : ∀ blk x, in_range blk → info (blocks d) blk = Some x →
    block_state x ≠ YAFFS_BLOCK_STATE_CHECKPOINT →
    ∃ x', info (blocks d') blk = Some x' ∧ acct x' = acct x;
  st_open : n_openable (blocks d') ≤ n_openable (blocks d)
}.

Lemma openable_0 x : block_state x ∉ [YAFFS_BLOCK_STATE_EMPTY; YAFFS_BLOCK_STATE_CHECKPOINT] →
  openable x = 0.
Proof using Type. intros. unfold openable. by rewrite decide_False. Qed.

Lemma acct_state x x' : acct x' = acct x → block_state x' = block_state x.
Proof using Type. unfold acct. congruence. Qed.

Lemma openable_acct x y : acct x = acct y → openable x = openable y.
Proof using Type. intros E. unfold openable. by rewrite (acct_state _ _ E). Qed.

Lemma n_openable_block b b' blk x f : info b blk = Some x →
  block_info b' = block_info (b_bi blk f b) → n_openable b' = n_openable b - openable x + openable (f x).
Proof. intros Hx Hi. unfold n_openable. rewrite Hi. by apply zsum_b_bi. Qed.

#[export] Instance steady_preorder : PreOrder steady.
Proof.
  split.
  - intros d. split; try done. intros blk x _ Hx _. by exists x.
  - intros d1 d2 d3 [H1 H2 H3 H4 H5 H6] [G1 G2 G3 G4 G5 G6]. split; [congruence..| |lia].
    intros blk x Hr Hx Hst. destruct (H5 blk x Hr Hx Hst) as (x' & Hx' & E).
    destruct (G5 blk x' Hr Hx') as (x'' & Hx'' & E'); [by rewrite (acct_state _ _ E)|].
    exists x''. split; [done|congruence].
Qed.

Lemma quiet_steady d d' : quiet d d' → steady d d'.
Proof.
  intros [Hae Hs]. split; [done|apply Hae..| |].
  - intros blk x Hr Hx _. symmetry in Hae. destruct (acct_eq_info_Some _ _ blk x Hae Hx) as (y & Hy & E).
    by exists y.
  - unfold n_openable. rewrite (acct_eq_zsum openable _ _ Hae); [done|apply openable_acct].
Qed.

(** The program keeps the invariant, whatever it is ahead by. *)
Definition keeps {A} (m : M A) : Prop :=
  ∀ d p delta, blocks_wf p delta (blocks d) →
  ∃ x d', m d = Ok (x, d') ∧ blocks_wf p delta (blocks d') ∧ steady d d'.

Lemma quietly_keeps {A} (m : M A) : quietly m → keeps m.
Proof.
  intros Hm d p delta Hwf. destruct (Hm d (wf_shape _ _ _ Hwf)) as (x & d' & Hrun & Hq).
  exists x, d'. split; [done|]. split; [by rewrite <- (proj1 Hq)|by apply quiet_steady].
Qed.

Lemma keeps_bind {A B} (m : M A) (k : A → M B) : keeps m → (∀ x, keeps (k x)) → keeps (m ≫= k).
Proof.
  intros Hm Hk d p delta Hwf. destruct (Hm d p delta Hwf) as (x & d1 & H1 & Hwf1 & Hs1).
  destruct (Hk x d1 p delta Hwf1) as (y & d2 & H2 & Hwf2 & Hs2).
  exists y, d2. rewrite (bind_Ok _ _ _ _ _ H1). split; [done|]. split; [done|]. by etrans.
Qed.

(** One block of a checkpoint changes its state. *)
Lemma checkpt_block_steady d d' blk x f :
  in_range blk → info (blocks d) blk = Some x → block_state x = YAFFS_BLOCK_STATE_CHECKPOINT →
  block_info (blocks d') = block_info (b_bi blk f (blocks d)) →
  chunk_bits (blocks d') = chunk_bits (blocks d) → alloc_block (blocks d') = alloc_block (blocks d) →
  alloc_page (blocks d') = alloc_page (blocks d) → sum_tags d' = sum_tags d → steady d d'.
Proof.
  intros Hr Hx Hst Hi Hb Ha Hp Hs. split; try done.
  - intros blk' z Hr' Hz Hzst. exists z. split; [|done]. unfold info. rewrite Hi.
    change (info (b_bi blk f (blocks d)) blk' = Some z). rewrite info_b_bi by done.
    destruct (decide (blk' = blk)) as [->|]; [congruence|done].
  - rewrite (n_openable_block _ _ _ _ _ Hx Hi).
    assert (openable x = 1) as -> by (unfold openable; rewrite decide_True by states; done).
    unfold openable. destruct (decide _); lia.
Qed.

Lemma checkpt_erase_loop_run n : ∀ i, internal_start_block ≤ i → i + Z.of_nat n ≤ internal_end_block + 1 →
  keeps (checkpt_erase_loop n i).
Proof.
  induction n as [|n IH]; intros i Hi Hn; cbn [checkpt_erase_loop]; [apply quietly_keeps, quietly_ret|].
  assert (in_range i) as Hr by (unfold in_range; lia).
  intros d p delta Hwf. prog_step (get_block_info_run i d Hr).
  destruct (in_range_info _ i (wf_shape _ _ _ Hwf) Hr) as [x Hx].
  prog_step (bi_of_run i d x Hr Hx).
  assert (∀ d1, blocks_wf p delta (blocks d1) → steady d d1 →
    ∃ u d', checkpt_erase_loop n (i + 1) d1 = Ok (u, d') ∧ blocks_wf p delta (blocks d') ∧ steady d d') as Hrest.
  { intros d1 Hwf1 Hs1. destruct (IH (i + 1) ltac:(lia) ltac:(lia) d1 p delta Hwf1) as (u & d' & H1 & H2 & H3).
    exists u, d'. split; [done|]. split; [done|]. by etrans. }
  destruct (bool_decide_reflect (block_state x = YAFFS_BLOCK_STATE_CHECKPOINT)) as [Hst|Hst];
    cbn [when]; [|prog_simpl; by apply Hrest].
  unfold bump, bump_by. prog_simpl. rewrite bind_on_flash.
  destruct (drv_erase_fn _ _) as [result fl]. cbn [fst snd]. destruct (negb (result =? 0)).
  - prog_simpl. rewrite bind_upd_bi by first [exact Hr|exact (wf_shape _ _ _ Hwf)].
    prog_simpl. rewrite !bind_upd_blocks. apply Hrest.
    + apply (checkpt_erased_wf p delta (blocks d) i x Hwf Hr Hx Hst).
    + by apply (checkpt_block_steady d _ i x (set_block_state YAFFS_BLOCK_STATE_EMPTY)).
  - prog_simpl. rewrite bind_on_flash. destruct (drv_mark_bad_fn _ _) as [r2 fl2]. cbn [fst snd].
    rewrite bind_upd_bi by first [exact Hr|exact (wf_shape _ _ _ Hwf)]. apply Hrest.
    + apply (checkpt_dead_wf p delta (blocks d) i x Hwf Hr Hx Hst).
    + by apply (checkpt_block_steady d _ i x (set_block_state YAFFS_BLOCK_STATE_DEAD)).
Qed.

Lemma keeps_invalidate : keeps yaffs2_checkpt_invalidate.
Proof.
  unfold yaffs2_checkpt_invalidate. apply keeps_bind; [apply quietly_keeps, quietly_get|]. intros d0.
  destruct (_ || _); cbn [when]; [|apply quietly_keeps, quietly_ret].
  apply keeps_bind; [by apply quietly_keeps, quietly_modify|]. intros _.
  apply keeps_bind; [|intros; apply quietly_keeps, quietly_ret]. unfold yaffs_checkpt_erase.
  apply keeps_bind.
  - destruct Hgeo. apply checkpt_erase_loop_run; lia.
  - intros _. apply keeps_bind; [by apply quietly_keeps, quietly_modify|].
    intros _. apply quietly_keeps, quietly_ret.
Qed.

(** ** Runs that end

    [ends m d Q]: from the device [d] the program ends, and [Q] holds of its result. *)

Lemma ends_upd_blocks f d (Q : () → yaffs_dev F → Prop) : Q () (on_blocks f d) → ends (upd_blocks f) d Q.
Proof using Type. intros HQ. by exists (), (on_blocks f d). Qed.

Lemma ends_upd_bi blk f d (Q : () → yaffs_dev F → Prop) : shape (blocks d) → in_range blk →
  Q () (on_blocks (b_bi blk f) d) → ends (upd_bi blk f) d Q.
Proof. intros Hs Hr HQ. exists (), (on_blocks (b_bi blk f) d). by rewrite upd_bi_run. Qed.

Ltac shapes :=
  cbn [on_blocks blocks set_blocks]; repeat first [apply shape_b_bi|apply shape_n_erased|apply shape_n_free];
  assumption.

Lemma ends_get_block_info blk d (Q : Z → yaffs_dev F → Prop) : in_range blk → Q blk d →
  ends (yaffs_get_block_info blk) d Q.
Proof. intros Hr HQ. exists blk, d. by rewrite get_block_info_run. Qed.

Lemma ends_bi_of blk d x (Q : yaffs_block_info → yaffs_dev F → Prop) : in_range blk →
  info (blocks d) blk = Some x → Q x d → ends (bi_of blk) d Q.
Proof. intros Hr Hx HQ. exists x, d. by rewrite (bi_of_run blk d x). Qed.

Lemma ends_quiet {A} (m : M A) d (Q : A → yaffs_dev F → Prop) : quietly m → shape (blocks d) →
  (∀ x d1, quiet d d1 → Q x d1) → ends m d Q.
Proof using Type. intros Hm Hs HQ. destruct (Hm d Hs) as (x & d1 & H1 & Hq). exists x, d1. eauto. Qed.

Lemma ends_keeps {A} (m : M A) p delta d (Q : A → yaffs_dev F → Prop) : keeps m →
  blocks_wf p delta (blocks d) →
  (∀ x d1, blocks_wf p delta (blocks d1) → steady d d1 → Q x d1) → ends m d Q.
Proof using Type.
  intros Hm Hwf HQ. destruct (Hm d p delta Hwf) as (x & d1 & H1 & H2 & H3). exists x, d1. eauto.
Qed.

(** ** A block is erased *)

Lemma quietly_clear_oldest blk : in_range blk → quietly (yaffs2_clear_oldest_dirty_seq blk).
Proof. intros Hr. unfold yaffs2_clear_oldest_dirty_seq. rewrite Hy2. quiet. Qed.

Lemma quietly_update_oldest blk bi : in_range bi → quietly (yaffs2_update_oldest_dirty_seq blk bi).
Proof. intros Hr. unfold yaffs2_update_oldest_dirty_seq. rewrite Hy2. quiet. Qed.

Lemma quietly_erase_block blk : quietly (yaffs_erase_block blk).
Proof. unfold yaffs_erase_block. quiet. Qed.
#[local] Hint Resolve quietly_clear_oldest quietly_update_oldest quietly_erase_block : quiet.

Lemma overlay_Some (l m : list Z) off : 0 ≤ off → off + zlen m ≤ zlen l →
  ∃ l', overlay l off m = Some l' ∧ zlen l' = zlen l.
Proof using Type.
  intros H1 H2. unfold overlay. destruct (Z.leb_spec 0 off); [|lia].
  destruct (Z.leb_spec (off + zlen m) (zlen l)); [|lia]. eexists. split; [done|].
  rewrite !length_app, length_take, length_drop. lia.
Qed.

Lemma quietly_write_tags chunk l tags : zlen l = total_bytes_per_chunk →
  quietly (write_chunk_tags_fn chunk (Some l) tags).
Proof.
  intros Hl. unfold write_chunk_tags_fn, yaffs_tags_marshall_write. rewrite Hy2.
  pose proof bo_total as Ht. pose proof bo_data as Hd. destruct inband_tags.
  - destruct (overlay_Some l (ptt_bytes (yaffs_pack_tags2_tags_only swap_endian tags))
      data_bytes_per_chunk) as (l' & -> & _); [lia| |quiet].
    rewrite ptt_bytes_length. change (Z.of_nat ptt_size) with 16. lia.
  - destruct (pack_tags2_total swap_endian (mk_pt2 (mk_ptt 0 0 0 0) (mk_ecc_other 0 0 0)) tags
      (negb no_tags_ecc)) as [p ->]. quiet.
Qed.

Lemma write_tags_answer chunk l tags d r d' : write_chunk_tags_fn chunk (Some l) tags d = Ok (r, d') →
  r = YAFFS_OK ∨ r = YAFFS_FAIL.
Proof.
  unfold write_chunk_tags_fn, yaffs_tags_marshall_write, on_flash. rewrite Hy2.
  destruct inband_tags; [destruct (overlay _ _ _)|destruct (yaffs_pack_tags2 _ _ _ _)]; try done; prog_simpl;
    match goal with |- context [drv_write_chunk_fn ?a ?b ?c ?e ?f] =>
      pose proof (write_answers a b c e f) as Ha; destruct (drv_write_chunk_fn a b c e f) end;
    prog_simpl; intros; simplify_eq; exact Ha.
Qed.

#[local] Hint Extern 1 (quietly (write_chunk_tags_fn _ _ _)) => apply quietly_write_tags; lia : quiet.

Lemma quietly_mark_bad blk : quietly (yaffs_mark_bad blk).
Proof.
  unfold yaffs_mark_bad, mark_bad_fn, yaffs_tags_marshall_mark_bad. rewrite Hy2. quiet.
Qed.

Lemma quietly_check_erased_loop t blk n : ∀ c, in_range blk → 0 ≤ c → c + Z.of_nat n ≤ chunks_per_block →
  quietly (check_erased_loop t n (chunk_of blk c)).
Proof.
  induction n as [|n IH]; intros c Hr Hc Hn; cbn [check_erased_loop]; [apply quietly_ret|].
  apply quietly_bind; [apply quietly_check_chunk_erased; lia || done|]. intros _.
  replace (chunk_of blk c + 1) with (chunk_of blk (c + 1)) by (unfold chunk_of; lia).
  apply IH; lia || done.
Qed.

(** What erasing a block leaves. *)
Definition same_bits (b b' : yaffs_blocks) : Prop :=
  ∀ blk c, in_range blk → 0 ≤ c < 8 * chunk_bit_stride → bit_at b' blk c = bit_at b blk c.

Lemma same_bits_eq b b' : chunk_bits b = chunk_bits b' → same_bits b b'.
Proof using Type. intros E blk c _ _. by rewrite (bit_at_eq b b'). Qed.

(** At most [k] more blocks can be opened. *)
Record erases (k : Z) (d d' : yaffs_dev F) : Prop := {
  er_sum : sum_tags d = sum_tags d';
  er_bits : same_bits (blocks d) (blocks d');
  er_alloc : alloc_block (blocks d) = alloc_block (blocks d');
  er_page : alloc_page (blocks d) = alloc_page (blocks d');
  er_open : n_openable (blocks d') ≤ n_openable (blocks d) + k
}.

Lemma steady_erases d d' : steady d d' → erases 0 d d'.
Proof using Type. intros []. split; try done; [by apply same_bits_eq|lia]. Qed.

Lemma erases_trans k1 k2 k d1 d2 d3 : k1 + k2 ≤ k → erases k1 d1 d2 → erases k2 d2 d3 → erases k d1 d3.
Proof using Type.
  intros Hk [H1 H2 H3 H4 H5] [G1 G2 G3 G4 G5]. split; try congruence; [|lia].
  intros blk c Hr Hc. by rewrite G2, H2.
Qed.

(** One block changes its state, and its bits are what they were. *)
Lemma erases_block k d d' blk x f : info (blocks d) blk = Some x →
  block_info (blocks d') = block_info (b_bi blk f (blocks d)) →
  same_bits (blocks d) (blocks d') → alloc_block (blocks d') = alloc_block (blocks d) →
  alloc_page (blocks d') = alloc_page (blocks d) → sum_tags d' = sum_tags d →
  openable (f x) ≤ openable x + k → erases k d d'.
Proof.
  intros Hx Hi Hb Ha Hp Hs Ho. split; try done. rewrite (n_openable_block _ _ _ _ _ Hx Hi). lia.
Qed.

(** The writes to the flash of a block that cannot be erased. *)
Lemma quietly_write_bad_marker blk tags : quietly (
  buffer ← yaffs_get_temp_buffer;
  data ← defined (overlay temp_bytes 0 (replicate (Z.to_nat data_bytes_per_chunk) 0xff));
  _ ← write_chunk_tags_fn (blk * chunks_per_block - chunk_offset) (Some data) tags;
  yaffs_release_temp_buffer buffer).
Proof.
  pose proof bo_temp. pose proof bo_data. pose proof bo_total.
  destruct (overlay_Some temp_bytes (replicate (Z.to_nat data_bytes_per_chunk) 0xff) 0)
    as (l & -> & Hlen); [lia|rewrite length_replicate; destruct inband_tags; lia|].
  quiet.
Qed.

Lemma retire_dirty_run p delta d blk x :
  blocks_wf p delta (blocks d) → in_range blk → info (blocks d) blk = Some x →
  block_state x = YAFFS_BLOCK_STATE_DIRTY →
  ends (yaffs_retire_block blk) d (λ _ d', blocks_wf p delta (blocks d') ∧ erases 0 d d').
Proof.
  intros Hwf Hr Hx Hst. unfold yaffs_retire_block.
  apply ends_bind, ends_get_block_info; [done|].
  apply ends_bind, (ends_keeps _ p delta); [apply keeps_invalidate|done|]. intros _ d1 Hwf1 Hs1.
  apply ends_bind, (ends_keeps _ p delta); [by apply quietly_keeps, quietly_clear_oldest|done|].
  intros _ d2 Hwf2 Hs2.
  apply ends_bind, (ends_keeps _ p delta); [by apply quietly_keeps, quietly_mark_bad|done|].
  intros marked d3 Hwf3 Hs3.
  apply ends_bind, (ends_keeps _ p delta); [|done|].
  { apply quietly_keeps, quietly_when, quietly_bind; [quiet|]. intros e.
    apply quietly_when, quietly_write_bad_marker. }
  intros _ d4 Hwf4 Hs4.
  assert (steady d d4) as Hs by (by repeat (etrans; [eassumption|])).
  destruct (st_info _ _ Hs blk x Hr Hx) as (x4 & Hx4 & E); [by rewrite Hst|].
  apply ends_bind, ends_upd_bi; [apply Hwf4|done|].
  apply ends_bind, ends_upd_bi; [by apply shape_b_bi, Hwf4|done|].
  apply ends_bind, ends_upd_bi; [by do 2 apply shape_b_bi; apply Hwf4|done|].
  apply ends_modify.
  assert (block_state x4 = YAFFS_BLOCK_STATE_DIRTY) as Hst4 by (by rewrite (acct_state _ _ E)).
  pose proof (dead_wf p delta (blocks d4) blk x4 Hwf4 Hr Hx4 Hst4) as Hwf'.
  assert (blocks (on_blocks (b_bi blk (set_needs_retiring false)) (on_blocks
    (b_bi blk (set_gc_prioritise false)) (on_blocks (b_bi blk (set_block_state YAFFS_BLOCK_STATE_DEAD)) d4))) =
    b_bi blk dead_info (blocks d4)) as Hb by (cbn [on_blocks blocks set_blocks]; by rewrite !b_bi_b_bi).
  split; [by cbn [blocks set_stats]; rewrite Hb|].
  apply (erases_trans 0 0 0 d d4); [done|by apply steady_erases|].
  apply (erases_block 0 d4 _ blk x4 dead_info); cbn [blocks set_stats]; rewrite ?Hb; try done.
  rewrite (openable_0 (dead_info x4)), (openable_0 x4) by (cbn; states). done.
Qed.

(** The block is marked as dirty: it is still full in the count of free chunks. *)
Lemma mark_dirty_run p d blk x :
  blocks_wf p 0 (blocks d) → in_range blk → info (blocks d) blk = Some x →
  block_state x ∈ [YAFFS_BLOCK_STATE_FULL; YAFFS_BLOCK_STATE_COLLECTING] → pages_in_use x = 0 →
  ends (upd_bi blk (set_block_state YAFFS_BLOCK_STATE_DIRTY)) d (λ _ d', 
    blocks_wf p chunks_per_block (blocks d') ∧ erases 0 d d' ∧
    ∃ x', info (blocks d') blk = Some x' ∧ block_state x' = YAFFS_BLOCK_STATE_DIRTY).
Proof.
  intros Hwf Hr Hx Hst H0. apply ends_upd_bi; [apply Hwf|done|].
  split; [apply (dirty_wf p (blocks d) blk x Hwf Hr Hx Hst H0)|]. split.
  - apply (erases_block 0 d _ blk x (set_block_state YAFFS_BLOCK_STATE_DIRTY)); try done.
    rewrite (openable_0 (set_block_state _ x)), (openable_0 x)
      by (cbn [block_state set_block_state]; states). done.
  - exists (set_block_state YAFFS_BLOCK_STATE_DIRTY x). split; [|done].
    cbn [on_blocks blocks set_blocks]. rewrite info_b_bi by done. by rewrite decide_True, Hx.
Qed.

(** What is written into the information of an erased block. *)
Definition reset_block (blk : Z) : M () :=
  upd_bi blk (set_block_state YAFFS_BLOCK_STATE_EMPTY);;
  upd_bi blk (set_bi_seq_number 0);;
  upd_blocks (λ b, set_n_erased_blocks (n_erased_blocks b + 1) b);;
  upd_bi blk (set_pages_in_use 0);;
  upd_bi blk (set_soft_del_pages 0);;
  upd_bi blk (set_has_shrink_hdr false);;
  upd_bi blk (set_skip_erased_check true);;
  upd_bi blk (set_gc_prioritise false);;
  upd_bi blk (set_has_summary false);;
  yaffs_clear_chunk_bits blk.

Lemma reset_block_run p d blk x :
  blocks_wf p chunks_per_block (blocks d) → in_range blk → info (blocks d) blk = Some x →
  block_state x = YAFFS_BLOCK_STATE_DIRTY →
  ends (reset_block blk) d (λ _ d', blocks_wf p 0 (blocks d') ∧ erases 1 d d').
Proof.
  intros Hwf Hr Hx Hst. unfold reset_block. pose proof (wf_shape _ _ _ Hwf) as Hs.
  do 2 (apply ends_bind, ends_upd_bi; [shapes|done|]). apply ends_bind, ends_upd_blocks.
  do 6 (apply ends_bind, ends_upd_bi; [shapes|done|]).
  eexists (), _. split; [apply clear_chunk_bits_run; [|done]; apply shape_bits; shapes|].
  set (d' := on_blocks (b_clear blk) _).
  assert (block_info (blocks d') = block_info (b_bi blk erased_info (blocks d))) as Hi.
  { unfold d', b_bi. cbn [on_blocks blocks set_blocks b_clear set_chunk_bits block_info set_block_info
      set_n_erased_blocks]. by rewrite !alter_alter. }
  assert (chunk_bits (blocks d') = chunk_bits (b_clear blk (blocks d))) as Hc by done.
  split; [by apply (erased_wf p (blocks d) _ blk x)|].
  apply (erases_block 1 d d' blk x erased_info); try done.
  - intros blk' c Hr' Hc'. rewrite (bit_at_eq _ _ Hc), bit_at_b_clear by (done || apply Hs).
    destruct (decide (blk' = blk)) as [->|]; [|done]. symmetry.
    apply (unused_bits p chunks_per_block _ blk x c Hwf); try done.
    apply (wf_block _ _ _ Hwf blk x Hr Hx). states.
  - rewrite (openable_0 x) by states. unfold openable. destruct (decide _); lia.
Qed.

Lemma chunk_of_0 blk : blk * chunks_per_block = chunk_of blk 0.
Proof using Type. unfold chunk_of. lia. Qed.

(** [yaffs_block_became_dirty]: the block is erased, or retired when it cannot be. *)
Lemma became_dirty_run p d t blk x :
  blocks_wf p 0 (blocks d) → in_range blk → info (blocks d) blk = Some x →
  block_state x ∈ [YAFFS_BLOCK_STATE_FULL; YAFFS_BLOCK_STATE_COLLECTING] → pages_in_use x = 0 →
  ends (yaffs_block_became_dirty t blk) d (λ _ d', blocks_wf p 0 (blocks d') ∧ erases 1 d d').
Proof.
  intros Hwf Hr Hx Hst H0. unfold yaffs_block_became_dirty.
  apply ends_bind, ends_get_block_info; [done|].
  apply ends_bind, (ends_keeps _ p 0); [by apply quietly_keeps, quietly_clear_oldest|done|].
  intros _ d1 Hwf1 Hs1.
  destruct (st_info _ _ Hs1 blk x Hr Hx) as (x1 & Hx1 & E1); [states|].
  apply ends_bind. eapply ends_mono; [apply (mark_dirty_run p d1 blk x1); try done|].
  { by rewrite (acct_state _ _ E1). }
  { unfold acct in E1. congruence. }
  intros _ d2 (Hwf2 & He2 & x2 & Hx2 & Hst2).
  apply ends_bind, (ends_keeps _ p chunks_per_block); [apply quietly_keeps, quietly_upd_gc|done|].
  intros _ d3 Hwf3 Hs3.
  apply ends_bind, (ends_keeps _ p chunks_per_block); [apply quietly_keeps, quietly_upd_gc|done|].
  intros _ d4 Hwf4 Hs4.
  apply ends_bind, (ends_keeps _ p chunks_per_block); [by apply quietly_keeps, quietly_bi_of|done|].
  intros bb d5 Hwf5 Hs5.
  apply ends_bind, (ends_keeps _ p chunks_per_block); [|done|].
  { destruct (needs_retiring bb); [apply quietly_keeps, quietly_ret|].
    apply keeps_bind; [apply keeps_invalidate|]. intros _. apply quietly_keeps. quiet. }
  intros erased_ok d6 Hwf6 Hs6.
  apply ends_bind, (ends_keeps _ p chunks_per_block); [|done|].
  { apply quietly_keeps, quietly_when. rewrite chunk_of_0. destruct Hgeo.
    apply quietly_check_erased_loop; lia || done. }
  intros _ d7 Hwf7 Hs7.
  assert (steady d2 d7) as Hs by (by repeat (etrans; [eassumption|])).
  destruct (st_info _ _ Hs blk x2 Hr Hx2) as (x7 & Hx7 & E7); [by rewrite Hst2|].
  assert (block_state x7 = YAFFS_BLOCK_STATE_DIRTY) as Hst7 by (by rewrite (acct_state _ _ E7)).
  assert (erases 0 d d7) as He.
  { apply (erases_trans 0 0 0 d d1); [done|by apply steady_erases|].
    apply (erases_trans 0 0 0 d1 d2); [done|done|by apply steady_erases]. }
  destruct (erased_ok =? 0).
  - apply ends_bind, ends_upd_blocks.
    pose proof (n_free_wf p chunks_per_block chunks_per_block _ Hwf7) as Hwf8. rewrite Z.sub_diag in Hwf8.
    eapply ends_mono; [by apply (retire_dirty_run p 0 _ blk x7)|]. intros _ d8 [Hwf' He8].
    split; [done|]. apply (erases_trans 0 0 1 d d7); [done|done|].
    destruct He8. by split.
  - eapply ends_mono; [by apply (reset_block_run p d7 blk x7)|]. intros _ d8 [Hwf' He8].
    split; [done|]. by apply (erases_trans 0 1 1 d d7).
Qed.

(** ** Deletion *)

(** A chunk that can be deleted. *)
Definition del_ready (b : yaffs_blocks) (blk c : Z) : Prop :=
  bit_at b blk c = true ∧ ∃ x, info b blk = Some x ∧ soft_del_pages x < pages_in_use x ∧
    block_state x ∈ [YAFFS_BLOCK_STATE_ALLOCATING; YAFFS_BLOCK_STATE_FULL; YAFFS_BLOCK_STATE_COLLECTING].

#[export] Instance del_ready_proper : Proper (acct_eq ==> eq ==> eq ==> iff) del_ready.
Proof using Type.
  assert (∀ b b' blk c, acct_eq b b' → del_ready b blk c → del_ready b' blk c) as Hone.
  { intros b b' blk c Hae [Hbit (x & Hx & Hs & Hst)]. split; [by rewrite <- (acct_eq_bit _ _ Hae)|].
    symmetry in Hae. destruct (acct_eq_info_Some _ _ blk x Hae Hx) as (y & Hy & E).
    exists y. split; [done|]. unfold acct in E. injection E as -> -> -> _ _. done. }
  intros b b' Hae ? blk -> ? c ->. split; apply Hone; [done|by symmetry].
Qed.

Record deletes (blk c : Z) (d d' : yaffs_dev F) : Prop := {
  de_sum : sum_tags d = sum_tags d';
  de_bits : ∀ blk' c', in_range blk' → 0 ≤ c' < chunks_per_block →
    bit_at (blocks d') blk' c' = if decide (blk' = blk ∧ c' = c) then false else bit_at (blocks d) blk' c';
  de_alloc : alloc_block (blocks d) = alloc_block (blocks d');
  de_page : alloc_page (blocks d) = alloc_page (blocks d');
  de_open : n_openable (blocks d') ≤
    n_openable (blocks d) + if decide (alloc_block (blocks d) = blk) then 0 else 1
}.

(** The chunk leaves its block. *)
Lemma release_run p d blk c x : blocks_wf p 0 (blocks d) → in_range blk → 0 ≤ c < chunks_per_block →
  bit_at (blocks d) blk c = true → info (blocks d) blk = Some x → soft_del_pages x < pages_in_use x →
  block_state x ∈ [YAFFS_BLOCK_STATE_ALLOCATING; YAFFS_BLOCK_STATE_FULL; YAFFS_BLOCK_STATE_COLLECTING] →
  let d' := on_blocks (release_chunk blk c) d in
  blocks_wf p 0 (blocks d') ∧ info (blocks d') blk = Some (sub_page x) ∧
  sum_tags d = sum_tags d' ∧ alloc_block (blocks d) = alloc_block (blocks d') ∧
  alloc_page (blocks d) = alloc_page (blocks d') ∧ n_openable (blocks d') = n_openable (blocks d) ∧
  (∀ blk' c', in_range blk' → 0 ≤ c' < chunks_per_block →
    bit_at (blocks d') blk' c' = if decide (blk' = blk ∧ c' = c) then false else bit_at (blocks d) blk' c').
Proof.
  intros Hwf Hr Hc Hbit Hx Hs Hst. cbn [on_blocks blocks set_blocks].
  pose proof geo_stride_bounds as [_ Hstride].
  split; [by apply (release_chunk_wf p (blocks d) blk c x)|]. split.
  { unfold release_chunk. rewrite info_b_bi by done. rewrite decide_True by done.
    change (sub_page <$> info (blocks d) blk = Some (sub_page x)). by rewrite Hx. }
  do 3 (split; [done|]). split.
  { rewrite (n_openable_block (blocks d) _ blk x sub_page) by done.
    change (openable (sub_page x)) with (openable x). lia. }
  intros blk' c' Hr' Hc'. rewrite <- (bit_at_b_bit (blocks d) blk c false); try (done || lia).
  apply (wf_shape _ _ _ Hwf).
Qed.

Lemma chunk_del_run p d t blk c mark : blocks_wf p 0 (blocks d) → in_range blk → 0 ≤ c < chunks_per_block →
  del_ready (blocks d) blk c →
  ends (yaffs_chunk_del t (chunk_of blk c) mark) d (λ _ d', blocks_wf p 0 (blocks d') ∧ deletes blk c d d').
Proof.
  intros Hwf Hr Hc Hready. unfold yaffs_chunk_del.
  destruct (chunk_of_u32 blk c Hr Hc) as [_ Hpos]. destruct (Z.leb_spec (chunk_of blk c) 0); [lia|].
  destruct (chunk_of_div blk c Hr Hc) as [-> ->].
  apply ends_bind, ends_quiet; [apply quietly_bump|apply Hwf|]. intros _ d1 Hq1.
  assert (blocks_wf p 0 (blocks d1)) as Hwf1 by (by rewrite <- (proj1 Hq1)).
  apply ends_bind. eexists _, d1. split; [apply check_chunk_bit_run; try done; apply (wf_shape _ _ _ Hwf1)|].
  apply ends_bind, ends_get_block_info; [done|].
  apply ends_bind, ends_quiet; [by apply quietly_update_oldest|apply Hwf1|]. intros _ d2 Hq2.
  assert (blocks_wf p 0 (blocks d2)) as Hwf2 by (by rewrite <- (proj1 Hq2)).
  apply ends_bind, ends_quiet; [by apply quietly_bi_of|apply Hwf2|]. intros bb d3 Hq3.
  assert (blocks_wf p 0 (blocks d3)) as Hwf3 by (by rewrite <- (proj1 Hq3)).
  rewrite Hy2. cbn [negb andb].
  apply ends_bind, ends_quiet; [apply quietly_bump|apply Hwf3|]. intros _ d4 Hq4.
  assert (quiet d d4) as Hq by (by repeat (etrans; [eassumption|])).
  assert (blocks_wf p 0 (blocks d4)) as Hwf4 by (by rewrite <- (proj1 Hq4)).
  rewrite (proj1 Hq) in Hready. destruct Hready as [Hbit (x & Hx & Hsoft & Hst)].
  apply ends_bind, (ends_bi_of blk d4 x); [done..|].
  rewrite bool_decide_eq_true_2 by states. cbn [when].
  destruct (release_run p d4 blk c x Hwf4 Hr Hc Hbit Hx Hsoft Hst)
    as (Hwf5 & Hx5 & Hsum5 & Ha5 & Hp5 & Ho5 & Hb5).
  apply ends_bind, ends_upd_blocks.
  apply ends_bind. eexists (), _. split; [apply clear_chunk_bit_run; try done; apply shape_bits, shape_n_free, Hwf4|].
  apply ends_bind, ends_upd_bi; [apply shape_b_bit, shape_n_free, Hwf4|done|].
  match goal with |- ends _ ?d5 _ => change d5 with (on_blocks (release_chunk blk c) d4) end.
  set (d5 := on_blocks (release_chunk blk c) d4) in *. clearbody d5.
  assert (deletes blk c d d5) as Hdel.
  { destruct Hq as [Hae Hsum]. pose proof (quiet_steady d d4 (conj Hae Hsum)) as Hst4.
    split; [congruence| |rewrite (ae_alloc _ _ Hae); done|rewrite (ae_page _ _ Hae); done|].
    - intros blk' c' Hr' Hc'. rewrite Hb5 by done. by rewrite (acct_eq_bit _ _ Hae).
    - pose proof (st_open _ _ Hst4). destruct (decide _); lia. }
  apply ends_bind, (ends_bi_of blk d5 (sub_page x)); [done..|].
  apply ends_when; [|done]. intros Hcond. apply andb_true_iff in Hcond as [Hcond Hns].
  apply andb_true_iff in Hcond as [Hz _]. apply Z.eqb_eq in Hz.
  apply negb_true_iff, bool_decide_eq_false_1 in Hns.
  change (block_state (sub_page x)) with (block_state x) in Hns.
  eapply ends_mono; [apply (became_dirty_run p d5 t blk (sub_page x)); try done|].
  { change (block_state (sub_page x)) with (block_state x). states. }
  intros _ d6 [Hwf6 He6]. split; [done|]. destruct Hdel as [D1 D2 D3 D4 D5], He6 as [E1 E2 E3 E4 E5].
  pose proof geo_stride_bounds. split; [congruence| |congruence|congruence|].
  - intros blk' c' Hr' Hc'. rewrite E2 by (done || lia). by apply D2.
  - pose proof (st_open _ _ (quiet_steady _ _ Hq)).
    destruct (decide (alloc_block (blocks d) = blk)) as [Ha|]; [|lia].
    destruct (wf_alloc _ _ _ Hwf5) as [Hn|[_ _ (y & Hy & Hyst) _]].
    + rewrite <- Ha5 in Hn. rewrite (ae_alloc _ _ (proj1 Hq)) in Ha. destruct Hr, Hgeo. lia.
    + rewrite <- D3, Ha, Hx5 in Hy. simplify_eq. change (block_state (sub_page x)) with (block_state x) in Hyst.
      states.
Qed.

Lemma soft_del_chunk_run p d blk c x : blocks_wf p 0 (blocks d) → in_range blk → 0 ≤ c < chunks_per_block →
  info (blocks d) blk = Some x → soft_del_pages x < pages_in_use x →
  block_state x ∈ [YAFFS_BLOCK_STATE_ALLOCATING; YAFFS_BLOCK_STATE_FULL; YAFFS_BLOCK_STATE_COLLECTING] →
  ends (yaffs_soft_del_chunk (chunk_of blk c)) d (λ _ d', blocks_wf p 0 (blocks d') ∧
    chunk_bits (blocks d') = chunk_bits (blocks d) ∧ alloc_block (blocks d') = alloc_block (blocks d) ∧
    alloc_page (blocks d') = alloc_page (blocks d) ∧
    n_free_chunks (blocks d') = n_free_chunks (blocks d) + 1 ∧ sum_tags d' = sum_tags d).
Proof.
  intros Hwf Hr Hc Hx Hs Hst. unfold yaffs_soft_del_chunk. destruct (chunk_of_div blk c Hr Hc) as [-> _].
  apply ends_bind, ends_get_block_info; [done|].
  apply ends_bind, ends_upd_bi; [apply Hwf|done|]. apply ends_bind, ends_upd_blocks.
  pose proof (soft_del_wf p (blocks d) blk x Hwf Hr Hx Hs Hst) as Hwf'.
  pose proof (wf_shape _ _ _ Hwf) as Hsh.
  apply ends_quiet; [by apply quietly_update_oldest|shapes|]. intros _ d1 [Hae Hs1].
  split; [by rewrite <- Hae|]. destruct Hae as [_ E1 _ E3 E4 E5 _].
  rewrite <- E1, <- E3, <- E4, <- E5. by repeat (split; [done|]).
Qed.

(** The block that was being allocated, if any, is closed. *)
Definition closed (p' : Z) (d d' : yaffs_dev F) : Prop :=
  blocks_wf p' 0 (blocks d') ∧ alloc_block (blocks d') = -1 ∧
  chunk_bits (blocks d') = chunk_bits (blocks d) ∧ sum_tags d' = sum_tags d ∧
  n_openable (blocks d') = n_openable (blocks d) ∧
  n_free_chunks (blocks d') = n_free_chunks (blocks d) ∧
  ∀ blk c, in_range blk → del_ready (blocks d) blk c → del_ready (blocks d') blk c.

Lemma close_run p p' d : blocks_wf p 0 (blocks d) → alloc_block (blocks d) ≠ -1 →
  ends (upd_bi (alloc_block (blocks d)) (set_block_state YAFFS_BLOCK_STATE_FULL);;
        upd_blocks (set_alloc_block (-1))) d (λ _, closed p' d).
Proof.
  intros Hwf Hne. destruct (wf_alloc _ _ _ Hwf) as [?|[Hr Hp (x & Hx & Hst) Hf]]; [done|].
  apply ends_bind, ends_upd_bi; [apply Hwf|done|]. apply ends_upd_blocks.
  pose proof (close_block_wf p p' (blocks d) Hwf Hne) as Hwf'.
  split; [exact Hwf'|]. do 3 (split; [done|]). split.
  { rewrite (n_openable_block (blocks d) _ _ x (set_block_state YAFFS_BLOCK_STATE_FULL)) by done.
    rewrite (openable_0 x), (openable_0 (set_block_state _ x))
      by (cbn [block_state set_block_state]; states). lia. }
  split; [done|]. intros blk c Hrb [Hbit (y & Hy & Hys & Hyst)]. split; [done|].
  change (∃ x0, info (b_bi (alloc_block (blocks d)) (set_block_state YAFFS_BLOCK_STATE_FULL) (blocks d)) blk = Some x0 ∧
    soft_del_pages x0 < pages_in_use x0 ∧ block_state x0 ∈ [YAFFS_BLOCK_STATE_ALLOCATING;
      YAFFS_BLOCK_STATE_FULL; YAFFS_BLOCK_STATE_COLLECTING]).
  rewrite info_b_bi by done. destruct (decide (blk = alloc_block (blocks d))) as [->|Hnb].
  - rewrite Hy. eexists. split; [done|]. split; [done|]. cbn [block_state set_block_state]. states.
  - by exists y.
Qed.

(** [yaffs_skip_rest_of_block]. *)
Lemma skip_rest_run p p' d : blocks_wf p 0 (blocks d) →
  ends yaffs_skip_rest_of_block d (λ _, closed p' d).
Proof.
  intros Hwf. unfold yaffs_skip_rest_of_block. apply ends_bind, ends_get.
  destruct (wf_alloc _ _ _ Hwf) as [Ha|[Hr Hp (x & Hx & Hst) Hf]].
  - rewrite Ha. cbn [Z.ltb Z.compare]. apply ends_ret.
    split; [by apply (blocks_wf_closed p)|]. by do 5 (split; [done|]).
  - pose proof Hgeo as [Hg1 _ _ _ _]. pose proof Hr as [Hr1 Hr2].
    destruct (Z.ltb_spec 0 (alloc_block (blocks d))); [|lia].
    apply ends_bind, ends_get_block_info; [done|]. apply ends_bind, (ends_bi_of _ d x); [done..|].
    rewrite bool_decide_eq_true_2 by done. apply (close_run p); [done|lia].
Qed.

(** ** Allocation *)

(** The next block in the order of the search. *)
Definition next_block (i : Z) : Z :=
  if decide (in_range (i + 1)) then i + 1 else internal_start_block.

Lemma next_block_range i : in_range (next_block i).
Proof. unfold next_block. destruct (decide _); [done|]. destruct Hgeo. unfold in_range. lia. Qed.

Fixpoint nth_block (k : nat) (i : Z) : Z :=
  match k with O => i | S k' => nth_block k' (next_block i) end.

Lemma nth_block_forward k : ∀ i, in_range i → in_range (i + Z.of_nat k) → nth_block k i = i + Z.of_nat k.
Proof using Type.
  induction k as [|k IH]; intros i Hi Hk; cbn [nth_block]; [lia|].
  assert (in_range (i + 1)) as Hn by (unfold in_range in *; lia).
  unfold next_block. rewrite decide_True by done.
  rewrite IH by (done || unfold in_range in *; lia). lia.
Qed.

Lemma nth_block_add k l i : nth_block (k + l) i = nth_block l (nth_block k i).
Proof using Type. revert i. induction k as [|k IH]; intros i; [done|]. cbn [nth_block Nat.add]. apply IH. Qed.

(** As many steps as there are blocks visit every block. *)
Lemma nth_block_all i blk : in_range blk →
  ∃ k, (1 ≤ k ≤ Z.to_nat n_blocks)%nat ∧ nth_block k i = blk.
Proof.
  intros Hr. pose proof (next_block_range i) as Hs. set (s := next_block i) in *.
  assert (∀ k, nth_block (S k) i = nth_block k s) as HS by done.
  unfold n_blocks. destruct Hr as [H1 H2], Hs as [H3 H4].
  destruct (decide (s ≤ blk)).
  - exists (S (Z.to_nat (blk - s))). split; [lia|]. rewrite HS, nth_block_forward by (unfold in_range; lia). lia.
  - exists (S (Z.to_nat (internal_end_block - s) + S (Z.to_nat (blk - internal_start_block)))).
    split; [lia|]. rewrite HS, nth_block_add.
    rewrite (nth_block_forward (Z.to_nat (internal_end_block - s)) s) by (unfold in_range; lia).
    rewrite Z2Nat.id by lia. cbn [nth_block]. unfold next_block at 1.
    rewrite decide_False by (unfold in_range; lia).
    rewrite nth_block_forward by (unfold in_range; lia). lia.
Qed.

(** The device with only the position of the search changed. *)
Record searched (d d' : yaffs_dev F) : Prop := {
  se_sum : sum_tags d = sum_tags d';
  se_info : block_info (blocks d) = block_info (blocks d');
  se_bits : chunk_bits (blocks d) = chunk_bits (blocks d');
  se_erased : n_erased_blocks (blocks d) = n_erased_blocks (blocks d');
  se_alloc : alloc_block (blocks d) = alloc_block (blocks d');
  se_free : n_free_chunks (blocks d) = n_free_chunks (blocks d')
}.

(** The block [blk] of [d] was opened. *)
Definition opened (d d' : yaffs_dev F) (blk : Z) : Prop :=
  sum_tags d = sum_tags d' ∧ chunk_bits (blocks d') = chunk_bits (blocks d) ∧
  n_erased_blocks (blocks d') = n_erased_blocks (blocks d) - 1 ∧
  n_free_chunks (blocks d') = n_free_chunks (blocks d) ∧
  in_range blk ∧ ∃ x s, info (blocks d) blk = Some x ∧ block_state x = YAFFS_BLOCK_STATE_EMPTY ∧
    block_info (blocks d') = block_info (b_bi blk (open_info s) (blocks d)).

Lemma find_alloc_loop_run n : ∀ d, shape (blocks d) →
  ends (find_alloc_loop n) d (λ r d',
    (r = -1 ∧ searched d d' ∧ ∀ k x, (1 ≤ k ≤ n)%nat →
       info (blocks d) (nth_block k (alloc_block_finder (blocks d))) = Some x →
       block_state x ≠ YAFFS_BLOCK_STATE_EMPTY) ∨
    opened d d' r).
Proof.
  induction n as [|n IH]; intros d Hs; cbn [find_alloc_loop].
  - apply ends_ret. left. split; [done|]. split; [done|]. intros k x Hk. lia.
  - apply ends_bind, ends_upd_blocks, ends_bind, ends_upd_blocks, ends_bind, ends_get.
    set (d1 := on_blocks _ (on_blocks _ d)).
    assert (alloc_block_finder (blocks d1) = next_block (alloc_block_finder (blocks d)) ∧ searched d d1)
      as [Hf Hse].
    { split.
      - unfold d1, next_block. cbn [on_blocks blocks set_blocks alloc_block_finder set_alloc_block_finder].
        set (i := alloc_block_finder (blocks d) + 1).
        destruct (Z.ltb_spec i internal_start_block), (Z.ltb_spec internal_end_block i); cbn [orb];
          [rewrite decide_False; [done|]..|rewrite decide_True; [done|]]; unfold in_range; lia.
      - unfold d1. split; [done|..]; cbn [on_blocks blocks set_blocks]; destruct (_ || _); done. }
    clearbody d1. rewrite Hf. set (blk := next_block _) in *.
    assert (in_range blk) as Hr by apply next_block_range. destruct Hse as [S1 S2 S3 S4 S5 S6].
    assert (shape (blocks d1)) as Hs1 by (by apply (shape_eq (blocks d))).
    destruct (in_range_info _ blk Hs1 Hr) as [x Hx].
    assert (info (blocks d) blk = Some x) as Hx0 by (unfold info; by rewrite S2).
    apply ends_bind, ends_get_block_info; [done|]. apply ends_bind, (ends_bi_of blk d1 x); [done..|].
    destruct (decide (block_state x = YAFFS_BLOCK_STATE_EMPTY)) as [Hst|Hst].
    + apply ends_bind, ends_upd_bi; [done..|]. apply ends_bind, ends_upd_blocks, ends_bind, ends_get.
      apply ends_bind, ends_upd_bi; [|done|].
      { apply (shape_eq (b_bi blk (set_block_state YAFFS_BLOCK_STATE_ALLOCATING) (blocks d1))); [done..|].
        by apply shape_b_bi. }
      apply ends_bind, ends_upd_blocks, ends_ret. right.
      repeat split; [done|by cbn|cbn; lia|by cbn|apply Hr|apply Hr|].
      exists x, (u32 (dev_seq_number (blocks d1) + 1)). split; [done|]. split; [done|].
      unfold b_bi. cbn [on_blocks blocks set_blocks set_n_erased_blocks block_info set_block_info
        set_dev_seq_number dev_seq_number]. by rewrite alter_alter, <- S2.
    + eapply ends_mono; [by apply IH|]. intros r d' [(-> & [T1 T2 T3 T4 T5 T6] & Hall)|Hop].
      * left. split; [done|]. split; [split; congruence|]. intros k y Hk Hy.
        destruct k as [|[|k]]; [lia| |].
        -- cbn [nth_block] in Hy. fold blk in Hy. congruence.
        -- apply (Hall (S k) y); [lia|]. rewrite Hf. unfold info. rewrite <- S2. exact Hy.
      * right. destruct Hop as (T1 & T2 & T3 & T4 & T5 & y & s & Hy & Hyst & Hi).
        split; [congruence|]. split; [congruence|]. split; [congruence|]. split; [congruence|].
        split; [done|]. exists y, s. unfold info. rewrite S2. split; [done|]. split; [done|].
        rewrite Hi. unfold b_bi. cbn. by rewrite S2.
Qed.

(** [yaffs_find_alloc_block] opens a block unless there is no erased one. *)
Lemma find_alloc_block_run p d : blocks_wf p 0 (blocks d) →
  ends yaffs_find_alloc_block d (λ r d',
    (r = -1 ∧ n_erased_blocks (blocks d) < 1 ∧ searched d d') ∨ opened d d' r).
Proof.
  intros Hwf. unfold yaffs_find_alloc_block. apply ends_bind, ends_get.
  destruct (Z.ltb_spec (n_erased_blocks (blocks d)) 1); [apply ends_ret; left; by split|].
  eapply ends_mono; [apply find_alloc_loop_run, Hwf|].
  intros r d' [(-> & Hse & Hall)|Hop]; [left|by right]. exfalso.
  assert (zsum is_empty (block_info (blocks d)) ≤ 0); [|pose proof (wf_erased _ _ _ Hwf); lia].
  pose proof (shape_info _ (wf_shape _ _ _ Hwf)) as Hl.
  destruct (zsum_bound is_empty (block_info (blocks d)) 0 0) as [_ Hb]; [|lia].
  intros x Hx. apply list_elem_of_lookup in Hx as [i Hi].
  pose proof (lookup_lt_Some _ _ _ Hi) as Hlt.
  assert (in_range (internal_start_block + Z.of_nat i)) as Hr by (unfold in_range, n_blocks in *; lia).
  destruct (nth_block_all (alloc_block_finder (blocks d)) _ Hr) as (k & Hk & Hkb).
  rewrite is_empty_0; [lia|]. apply (Hall k x); [done|]. rewrite Hkb. unfold info.
  by replace (Z.to_nat (internal_start_block + Z.of_nat i - internal_start_block)) with i by lia.
Qed.

(** What is left to allocate from: the blocks that can be opened, and the open one,
    which counts twice once a chunk of it was handed out. *)
Definition pot (b : yaffs_blocks) : Z :=
  n_openable b +
  if decide (alloc_block b = -1) then 0 else 1 + if decide (alloc_page b = 0) then 0 else 1.

(** The first statement of [yaffs_alloc_chunk]. *)
Definition open_if_needed : M () :=
  d ← get;
  when (alloc_block (blocks d) <? 0) (
    blk ← yaffs_find_alloc_block;
    upd_blocks (set_alloc_block blk);;
    upd_blocks (set_alloc_page 0)).

Lemma alloc_block_sign p delta b : blocks_wf p delta b → alloc_block b < 0 ↔ alloc_block b = -1.
Proof.
  intros Hwf. destruct (wf_alloc _ _ _ Hwf) as [->|[[Hr _] _ _ _]]; [lia|]. destruct Hgeo. lia.
Qed.

Lemma open_if_needed_run d : blocks_ok (blocks d) →
  ends open_if_needed d (λ _ d1, blocks_ok (blocks d1) ∧ sum_tags d1 = sum_tags d ∧
    chunk_bits (blocks d1) = chunk_bits (blocks d) ∧ n_free_chunks (blocks d1) = n_free_chunks (blocks d) ∧
    (alloc_block (blocks d1) = -1 → alloc_block (blocks d) = -1 ∧ n_erased_blocks (blocks d) < 1) ∧
    (alloc_block (blocks d1) ≠ -1 →
       n_openable (blocks d1) + 1 + (if decide (alloc_page (blocks d1) = 0) then 0 else 1) ≤ pot (blocks d))).
Proof.
  intros [Hwf Hpage]. unfold open_if_needed. apply ends_bind, ends_get.
  pose proof (alloc_block_sign _ _ _ Hwf) as Hsign.
  destruct (Z.ltb_spec (alloc_block (blocks d)) 0) as [Ha|Ha]; cbn [when].
  - apply Hsign in Ha. apply ends_bind. eapply ends_mono; [apply (find_alloc_block_run _ d Hwf)|].
    intros r d1 [(-> & He & [S1 S2 S3 S4 S5 S6])|(O1 & O2 & O3 & O4 & Hr & x & s & Hx & Hst & Hi)].
    + apply ends_bind, ends_upd_blocks, ends_upd_blocks.
      split.
      { split; [|done]. destruct Hwf as [W1 W2 W3 W4 W5 W6].
        apply (blocks_wf_closed (alloc_page (blocks d))); [done|].
        split; cbn [on_blocks blocks set_blocks set_alloc_page set_alloc_block chunk_bits block_info
          n_erased_blocks n_free_chunks alloc_block alloc_page].
        - by apply (shape_eq (blocks d)).
        - intros blk c Hb Hc. rewrite (bit_at_eq _ (blocks d)) by done. by apply W2.
        - intros blk x Hb Hx. apply (block_wf_other (blocks d)).
          + apply W3; [done|]. unfold info. rewrite S2. exact Hx.
          + unfold used. by rewrite (bit_at_eq _ (blocks d)).
          + intros <-. by rewrite Ha.
        - by left.
        - by rewrite <- S4, <- S2.
        - by rewrite <- S6, <- S2. }
      do 3 (split; [done|]). split; [done|]. by intros [].
    + apply ends_bind, ends_upd_blocks, ends_upd_blocks.
      assert (r ≠ -1) as Hr1 by (destruct Hr, Hgeo; lia).
      split.
      { split; [|intros _; cbn; destruct Hgeo; lia].
        by apply (open_block_wf (alloc_page (blocks d)) (blocks d) _ r x s). }
      do 3 (split; [done|]). split; [by intros ?|]. intros _.
      cbn [on_blocks blocks set_blocks set_alloc_page set_alloc_block alloc_page].
      rewrite decide_True by done. unfold pot. rewrite decide_True by done.
      rewrite (n_openable_block (blocks d) _ r x (open_info s)) by done.
      rewrite (openable_0 (open_info s x)) by (cbn; states).
      assert (openable x = 1) as -> by (unfold openable; rewrite decide_True by states; done). lia.
  - apply ends_ret. split; [by split|]. do 3 (split; [done|]). split; [lia|]. intros Hne.
    unfold pot. rewrite (decide_False (P := alloc_block (blocks d) = -1)) by done. lia.
Qed.

(** A chunk was handed out. *)
Record allocated (d d' : yaffs_dev F) (blk c : Z) : Prop := {
  al_block : in_range blk;
  al_chunk : 0 ≤ c < chunks_per_block;
  al_ok : blocks_ok (blocks d');
  al_free : bit_at (blocks d) blk c = false;
  al_bits : ∀ blk' c', in_range blk' → 0 ≤ c' < chunks_per_block →
    bit_at (blocks d') blk' c' = if decide (blk' = blk ∧ c' = c) then true else bit_at (blocks d) blk' c';
  al_ready : del_ready (blocks d') blk c;
  al_sum : sum_tags d' = sum_tags d;
  al_more : c + 1 < chunks_per_block → alloc_block (blocks d') = blk ∧ alloc_page (blocks d') = c + 1;
  al_last : c + 1 = chunks_per_block → alloc_block (blocks d') = -1;
  al_pot : n_openable (blocks d') + 1 + (if decide (c = 0) then 0 else 1) ≤ pot (blocks d);
  al_count : n_free_chunks (blocks d') = n_free_chunks (blocks d) - 1
}.

Lemma quietly_calc_checkpt_blocks : quietly yaffs_calc_checkpt_blocks_required.
Proof.
  unfold yaffs_calc_checkpt_blocks_required. rewrite Hy2. cbn [negb].
  apply quietly_bind; [apply quietly_get|]. intros d0.
  apply quietly_bind; [apply quietly_when; by apply quietly_modify|]. intros _.
  apply quietly_bind; [apply quietly_get|]. intros d1. apply quietly_ret.
Qed.

Lemma quietly_check_alloc_available n : quietly (yaffs_check_alloc_available n).
Proof.
  unfold yaffs_check_alloc_available. apply quietly_bind; [apply quietly_calc_checkpt_blocks|].
  intros k. apply quietly_bind; [apply quietly_get|]. intros d0. apply quietly_ret.
Qed.

(** The statements of [yaffs_alloc_chunk] that take a chunk of the open block. *)
Definition take_chunk (blk page : Z) : M (Z * option Z) :=
  bi ← yaffs_get_block_info blk;
  let ret_val := blk * chunks_per_block + page in
  upd_bi bi (λ b : yaffs_block_info, set_pages_in_use (wraps 10 (pages_in_use b + 1)) b);;
  yaffs_set_chunk_bit blk page;;
  upd_blocks (set_alloc_page (u32 (page + 1)));;
  upd_blocks (λ b, set_n_free_chunks (n_free_chunks b - 1) b);;
  d ← get;
  when (chunks_per_block <=? alloc_page (blocks d)) (
    upd_bi bi (set_block_state YAFFS_BLOCK_STATE_FULL);;
    upd_blocks (set_alloc_block (-1)));;
  mret (ret_val, Some bi).

Lemma blocks_wf_page p delta b v : blocks_wf p delta b → blocks_wf p delta (set_alloc_page v b).
Proof using Type.
  intros []. split; try done.
  - destruct wf_shape as [[]]. by repeat split.
  - intros blk x Hr Hx. destruct (wf_block blk x Hr Hx). by split.
  - destruct wf_alloc as [?|[]]; [by left|right; by split].
Qed.

Lemma take_chunk_run d : blocks_ok (blocks d) → alloc_block (blocks d) ≠ -1 →
  let blk := alloc_block (blocks d) in let c := alloc_page (blocks d) in
  ends (take_chunk blk c) d (λ r d', r = (chunk_of blk c, Some blk) ∧
    in_range blk ∧ 0 ≤ c < chunks_per_block ∧ blocks_ok (blocks d') ∧
    bit_at (blocks d) blk c = false ∧
    (∀ blk' c', in_range blk' → 0 ≤ c' < chunks_per_block →
       bit_at (blocks d') blk' c' = if decide (blk' = blk ∧ c' = c) then true else bit_at (blocks d) blk' c') ∧
    del_ready (blocks d') blk c ∧ sum_tags d' = sum_tags d ∧
    (c + 1 < chunks_per_block → alloc_block (blocks d') = blk ∧ alloc_page (blocks d') = c + 1) ∧
    (c + 1 = chunks_per_block → alloc_block (blocks d') = -1) ∧
    n_openable (blocks d') = n_openable (blocks d) ∧
    n_free_chunks (blocks d') = n_free_chunks (blocks d) - 1).
Proof.
  intros [Hwf Hpage] Ha blk c. specialize (Hpage Ha). fold c in Hpage.
  destruct (wf_alloc _ _ _ Hwf) as [?|[Hr Hp (x & Hx & Hst) Hf]]; [done|].
  fold blk in Hr, Hx, Hf. fold c in Hp, Hf.
  pose proof (use_chunk_wf (alloc_page (blocks d)) (blocks d) c Hwf Ha ltac:(unfold c; lia)) as Hwf1.
  fold blk in Hwf1.
  pose proof geo_stride_bounds as [_ Hstride]. pose proof Hgeo as [_ _ Hcpb _ _].
  pose proof (wf_block _ _ _ Hwf blk x Hr Hx) as Hbw. pose proof (pages_bound _ _ _ _ _ Hwf Hr Hx).
  pose proof (bw_soft _ _ _ Hbw) as Hsoft.
  pose proof (used_lt (blocks d) blk c (shape_bits _ (wf_shape _ _ _ Hwf)) Hr ltac:(lia)
    (Hf c ltac:(lia))) as Hlt. rewrite <- (bw_pages _ _ _ Hbw) in Hlt.
  assert (u32 (c + 1) = c + 1) as Hu by (apply wrapu_id; unfold in_u; lia).
  unfold take_chunk.
  apply ends_bind, ends_get_block_info; [done|]. apply ends_bind, ends_upd_bi; [apply Hwf|done|].
  apply ends_bind. eexists (), _.
  split; [apply set_chunk_bit_run; try done; [apply shape_bits, shape_b_bi, Hwf|lia]|].
  apply ends_bind, ends_upd_blocks, ends_bind, ends_upd_blocks, ends_bind, ends_get. rewrite Hu.
  match goal with |- ends _ ?d1 _ =>
    assert (blocks d1 = set_alloc_page (c + 1) (use_chunk blk c (blocks d)) ∧ sum_tags d1 = sum_tags d)
      as [Hb1 Hs1] by done; set (d1' := d1) in *; clearbody d1' end.
  assert (blocks_wf (c + 1) 0 (blocks d1')) as Hwf2 by (rewrite Hb1; by apply blocks_wf_page).
  assert (alloc_block (blocks d1') = blk ∧ alloc_page (blocks d1') = c + 1) as [Ha1 Hp1] by (by rewrite Hb1).
  assert (info (blocks d1') blk = Some (add_page x)) as Hx1.
  { rewrite Hb1. change (info (b_bi blk add_page (blocks d)) blk = Some (add_page x)).
    rewrite info_b_bi by done. by rewrite decide_True, Hx. }
  assert (∀ blk' c', in_range blk' → 0 ≤ c' < chunks_per_block →
       bit_at (blocks d1') blk' c' = if decide (blk' = blk ∧ c' = c) then true else bit_at (blocks d) blk' c') as Hbits.
  { intros blk' c' Hr' Hc'. rewrite Hb1. rewrite <- (bit_at_use_chunk (blocks d) blk c) by (done || lia || apply Hwf).
    done. }
  assert (del_ready (blocks d1') blk c) as Hready.
  { split; [rewrite Hbits by (done || lia); by rewrite decide_True|]. exists (add_page x). split; [done|].
    assert (pages_in_use (add_page x) = pages_in_use x + 1) as -> by (apply wraps10; lia).
    change (soft_del_pages (add_page x)) with (soft_del_pages x).
    change (block_state (add_page x)) with (block_state x). split; [lia|states]. }
  assert (n_openable (blocks d1') = n_openable (blocks d)) as Ho.
  { rewrite (n_openable_block (blocks d) _ blk x add_page) by (done || by rewrite Hb1).
    change (openable (add_page x)) with (openable x). lia. }
  assert (n_free_chunks (blocks d1') = n_free_chunks (blocks d) - 1) as Hn by (by rewrite Hb1).
  clear Hb1. rewrite Hp1. apply ends_bind.
  destruct (Z.leb_spec chunks_per_block (c + 1)) as [Hlast|Hlast]; cbn [when].
  - rewrite <- Ha1 at 1. eapply ends_mono; [by apply (close_run (c + 1) 0); [|rewrite Ha1]|].
    intros _ d2 (Hwf3 & Ha3 & Hb3 & Hs3 & Ho3 & Hn3 & Hr3). apply ends_ret.
    split; [done|]. split; [done|]. split; [lia|]. split; [split; [|by intros []]|].
    { by apply (blocks_wf_closed 0). }
    split; [apply Hf; lia|]. split.
    { intros blk' c' Hr' Hc'. rewrite (bit_at_eq _ _ Hb3). by apply Hbits. }
    split; [by apply Hr3|]. split; [congruence|]. split; [lia|]. split; [done|]. split; lia.
  - apply ends_ret, ends_ret. split; [done|]. split; [done|]. split; [lia|].
    split; [split; [by rewrite Hp1|intros _; lia]|]. split; [apply Hf; lia|].
    do 4 (split; [done|]). split; [lia|]. done.
Qed.

Lemma alloc_chunk_eq use_reserver d : yaffs_alloc_chunk use_reserver d =
  (open_if_needed;;
   ok ← (if use_reserver then mret true else yaffs_check_alloc_available 1);
   if negb (ok : bool) then mret (-1, None)
   else d ← get;
     if 0 <=? alloc_block (blocks d) then take_chunk (alloc_block (blocks d)) (alloc_page (blocks d))
     else mret (-1, None)) d.
Proof using Type. unfold yaffs_alloc_chunk, open_if_needed, take_chunk. by prog_simpl. Qed.

(** What [yaffs_alloc_chunk] leaves when it fails. *)
Definition not_allocated (use_reserver : bool) (d d' : yaffs_dev F) : Prop :=
  blocks_ok (blocks d') ∧ same_bits (blocks d) (blocks d') ∧ sum_tags d' = sum_tags d ∧
  n_free_chunks (blocks d') = n_free_chunks (blocks d) ∧
  (use_reserver = true → alloc_block (blocks d) = -1 ∧ n_erased_blocks (blocks d) < 1).

Lemma take_if_open_run use_reserver d d2 : blocks_ok (blocks d2) → sum_tags d2 = sum_tags d →
  same_bits (blocks d) (blocks d2) → n_free_chunks (blocks d2) = n_free_chunks (blocks d) →
  (alloc_block (blocks d2) = -1 → alloc_block (blocks d) = -1 ∧ n_erased_blocks (blocks d) < 1) →
  (alloc_block (blocks d2) ≠ -1 →
     n_openable (blocks d2) + 1 + (if decide (alloc_page (blocks d2) = 0) then 0 else 1) ≤ pot (blocks d)) →
  ends (d ← get;
        if 0 <=? alloc_block (blocks d) then take_chunk (alloc_block (blocks d)) (alloc_page (blocks d))
        else mret (-1, None)) d2 (λ r d',
    (∃ blk c, r = (chunk_of blk c, Some blk) ∧ allocated d d' blk c) ∨
    (r = (-1, None) ∧ not_allocated use_reserver d d')).
Proof.
  intros Hok2 Hs2 Hb2 Hn2 Hc2 Hp2. apply ends_bind, ends_get.
  pose proof (alloc_block_sign _ _ _ (proj1 Hok2)) as Hsign.
  destruct (Z.leb_spec 0 (alloc_block (blocks d2))) as [Ha|Ha].
  - assert (alloc_block (blocks d2) ≠ -1) as Hne by lia. specialize (Hp2 Hne).
    eapply ends_mono; [by apply take_chunk_run|]. cbn zeta.
    intros r d' (-> & Hr & Hc & Hok' & Hfree & Hbits & Hready & Hsum & Hmore & Hlast & Ho & Hn). left.
    exists (alloc_block (blocks d2)), (alloc_page (blocks d2)). split; [done|].
    pose proof geo_stride_bounds as [_ Hstride].
    split; try done; [rewrite <- Hb2 by (done || lia); done| |congruence|lia|lia].
    intros blk' c' Hr' Hc'. rewrite Hbits by done. by rewrite Hb2 by (done || lia).
  - apply ends_ret. right. split; [done|]. repeat (split; [done|]). intros _. apply Hc2. lia.
Qed.

(** [yaffs_alloc_chunk] on a device whose blocks are accounted for: it hands out a
    chunk that was not in use and takes it into use, or it fails; with the reserve it
    fails only when no block is open and none is erased. *)
Lemma alloc_chunk_run use_reserver d : blocks_ok (blocks d) →
  ends (yaffs_alloc_chunk use_reserver) d (λ r d',
    (∃ blk c, r = (chunk_of blk c, Some blk) ∧ allocated d d' blk c) ∨
    (r = (-1, None) ∧ not_allocated use_reserver d d')).
Proof.
  intros Hok. unfold ends. rewrite alloc_chunk_eq. apply (ends_bind open_if_needed).
  eapply ends_mono; [by apply open_if_needed_run|]. intros _ d1 (Hok1 & Hs1 & Hb1 & Hn1 & Hc1 & Hp1).
  destruct use_reserver.
  - apply ends_bind, ends_ret. cbn [negb]. apply take_if_open_run; try done. by apply same_bits_eq.
  - apply ends_bind, ends_quiet; [apply quietly_check_alloc_available|apply Hok1|]. intros ok d2 [Hae Hs2].
    assert (blocks_ok (blocks d2)) as Hok2 by (by rewrite <- Hae).
    assert (same_bits (blocks d) (blocks d2)) as Hbits.
    { apply same_bits_eq. by rewrite <- (ae_bits _ _ Hae). }
    destruct ok; cbn [negb].
    + apply take_if_open_run; try done; [congruence|by rewrite <- (ae_free _ _ Hae)
        |by rewrite <- (ae_alloc _ _ Hae)|].
      rewrite <- (ae_alloc _ _ Hae), <- (ae_page _ _ Hae). intros Hne. specialize (Hp1 Hne).
      unfold n_openable in *. rewrite <- (acct_eq_zsum openable _ _ Hae); [done|apply openable_acct].
    + apply ends_ret. right. split; [done|]. split; [done|]. split; [done|]. split; [congruence|].
      split; [by rewrite <- (ae_free _ _ Hae)|done].
Qed.

(** ** Writing *)

(** The summary has the size that [yaffs_summary_init] gives it, and the chunks after
    those it covers can hold it. *)
Definition sum_ok (d : yaffs_dev F) : Prop :=
  match sum_tags d with
  | None => True
  | Some l => zlen l = chunks_per_summary ∧ 2 ≤ chunks_per_summary ∧
      12 * chunks_per_summary ≤ (chunks_per_block - chunks_per_summary) * (data_bytes_per_chunk - 16)
  end.

(** Nothing is lost: what was in use still is. *)
Record grows (d d' : yaffs_dev F) : Prop := {
  gr_sum : length <$> sum_tags d = length <$> sum_tags d';
  gr_bits : ∀ blk c, in_range blk → 0 ≤ c < chunks_per_block →
    bit_at (blocks d) blk c = true → bit_at (blocks d') blk c = true;
  gr_open : n_openable (blocks d') = n_openable (blocks d);
  gr_ready : ∀ blk c, in_range blk → 0 ≤ c < chunks_per_block →
    del_ready (blocks d) blk c → del_ready (blocks d') blk c
}.

#[export] Instance grows_preorder : PreOrder grows.
Proof using Type.
  split; [by split; eauto|].
  intros d1 d2 d3 [H1 H2 H3 H4] [G1 G2 G3 G4]. split; [congruence|eauto|lia|eauto].
Qed.

Lemma quiet_grows d d' : quiet d d' → grows d d'.
Proof.
  intros [Hae Hs]. split; [by rewrite Hs| | |].
  - by rewrite (acct_eq_bit _ _ Hae).
  - unfold n_openable. rewrite (acct_eq_zsum openable _ _ Hae); [done|apply openable_acct].
  - intros blk c _ _ H1. by rewrite <- Hae.
Qed.

Lemma closed_grows p d d' : closed p d d' → grows d d'.
Proof.
  intros (_ & _ & Hb & Hs & Ho & _ & Hr). split; [by rewrite Hs| |done|].
  - intros blk c _ _. by rewrite (bit_at_eq _ _ Hb).
  - intros blk c Hrb _. by apply Hr.
Qed.

Lemma sum_ok_grows d d' : grows d d' → sum_ok d → sum_ok d'.
Proof using Type.
  intros [Hs _ _ _]. unfold sum_ok. destruct (sum_tags d), (sum_tags d'); cbn in Hs; simplify_eq; try done.
  by rewrite Hs.
Qed.

(** A chunk of the open block is taken into use. *)
Lemma use_chunk_grows p d d' c : blocks_wf p 0 (blocks d) → alloc_block (blocks d) ≠ -1 →
  p ≤ c < chunks_per_block → blocks d' = use_chunk (alloc_block (blocks d)) c (blocks d) →
  sum_tags d' = sum_tags d → grows d d'.
Proof.
  intros Hwf Ha Hc Hb Hs. destruct (wf_alloc _ _ _ Hwf) as [?|[Hr Hp (x & Hx & Hst) Hf]]; [done|].
  set (blk := alloc_block (blocks d)) in *. pose proof geo_stride_bounds as [_ Hstride].
  pose proof (shape_bits _ (wf_shape _ _ _ Hwf)) as Hbm. pose proof Hgeo as [_ _ Hcpb _ _].
  pose proof (wf_block _ _ _ Hwf blk x Hr Hx) as Hbw. pose proof (bw_soft _ _ _ Hbw).
  pose proof (used_lt (blocks d) blk c Hbm Hr ltac:(lia) (Hf c ltac:(lia))) as Hlt.
  rewrite <- (bw_pages _ _ _ Hbw) in Hlt.
  assert (∀ blk' c', in_range blk' → 0 ≤ c' < chunks_per_block → bit_at (blocks d) blk' c' = true →
    bit_at (blocks d') blk' c' = true) as Hbits.
  { intros blk' c' Hr' Hc' Hbit. rewrite Hb, bit_at_use_chunk by (done || lia).
    by destruct (decide _). }
  split; [by rewrite Hs|done| |].
  - rewrite (n_openable_block (blocks d) _ blk x add_page) by (done || by rewrite Hb).
    change (openable (add_page x)) with (openable x). lia.
  - intros blk' c' Hr' Hc' [Hbit (y & Hy & Hys & Hyst)]. split; [by apply Hbits|].
    rewrite Hb. change (∃ x0, info (b_bi blk add_page (blocks d)) blk' = Some x0 ∧
      soft_del_pages x0 < pages_in_use x0 ∧ block_state x0 ∈ [YAFFS_BLOCK_STATE_ALLOCATING;
        YAFFS_BLOCK_STATE_FULL; YAFFS_BLOCK_STATE_COLLECTING]).
    rewrite info_b_bi by done. destruct (decide (blk' = blk)) as [->|]; [|by exists y].
    rewrite Hx in Hy |- *. simplify_eq. exists (add_page y). split; [done|].
    change (soft_del_pages (add_page y)) with (soft_del_pages y).
    change (block_state (add_page y)) with (block_state y). split; [|done].
    assert (pages_in_use (add_page y) = pages_in_use y + 1) as -> by (apply wraps10; lia). lia.
Qed.

(** A chunk after those that the summary covers is written without touching it. *)
Lemma quietly_wr_summary_chunk blk c l tags : in_range blk → 0 ≤ c < chunks_per_block →
  chunks_per_summary ≤ c → zlen l = total_bytes_per_chunk →
  quietly (wr_chunk_tags_nand 1 (chunk_of blk c) (Some l) tags).
Proof.
  intros Hr Hc Hcs Hl. cbn [wr_chunk_tags_nand]. apply quietly_bind; [quiet|]. intros _.
  apply quietly_bind; [quiet|]. intros d0. apply quietly_bind; [by apply quietly_write_tags|]. intros r.
  apply quietly_bind; [|intros; apply quietly_ret]. unfold yaffs_summary_add.
  destruct (chunk_of_div blk c Hr Hc) as [_ ->].
  apply quietly_bind; [quiet|]. intros d1. destruct (sum_tags d1); [|apply quietly_ret].
  destruct (Z.leb_spec 0 c), (Z.ltb_spec c chunks_per_summary); try lia; apply quietly_ret.
Qed.

(** One round of [yaffs_summary_write]. *)
Lemma summary_write_body_run blk hdr buf rest c k q d :
  zlen buf = total_bytes_per_chunk → zlen hdr = 16 →
  blocks_wf q 0 (blocks d) → alloc_block (blocks d) = blk → in_range blk → q ≤ c → 0 ≤ c →
  chunks_per_summary ≤ c → 0 < zlen rest →
  zlen rest ≤ (chunks_per_block - c) * (data_bytes_per_chunk - 16) →
  ends (summary_write_body (wr_chunk_tags_nand 1) blk hdr (buf, rest, chunk_of blk c, c, k)) d (λ r d',
    grows d d' ∧ alloc_block (blocks d') = alloc_block (blocks d) ∧
    match r with
    | inr _ => ∃ q', blocks_wf q' 0 (blocks d')
    | inl v => ∃ buf' rest', v = (buf', rest', chunk_of blk (c + 1), c + 1, k + 1) ∧
        zlen buf' = total_bytes_per_chunk ∧ blocks_wf (c + 1) 0 (blocks d') ∧
        0 < zlen rest' ∧ (length rest' < length rest)%nat ∧
        zlen rest' ≤ (chunks_per_block - (c + 1)) * (data_bytes_per_chunk - 16)
    end).
Proof.
  intros Hbuf Hhdr Hwf Ha Hr Hq Hc0 Hcs Hrest Hroom. unfold summary_write_body.
  pose proof bo_data. pose proof bo_total. pose proof (proj1 Hr). pose proof (geo_start (geometry := Hgeo)).
  assert (c < chunks_per_block) as Hc by nia.
  set (this_tx := Z.min (zlen rest) (data_bytes_per_chunk - 16)).
  destruct (overlay_Some buf hdr 0) as (b1 & -> & Hb1); [lia|destruct inband_tags; lia|].
  apply ends_bind, ends_ret.
  destruct (overlay_Some b1 (take (Z.to_nat this_tx) rest) 16) as (b2 & -> & Hb2);
    [lia|rewrite length_take; destruct inband_tags; lia|].
  apply ends_bind, ends_ret.
  apply ends_bind, ends_quiet; [apply quietly_wr_summary_chunk; done || lia|apply Hwf|].
  intros result d1 Hq1. pose proof (quiet_grows _ _ Hq1) as Hg1.
  assert (blocks_wf q 0 (blocks d1)) as Hwf1 by (by rewrite <- (proj1 Hq1)).
  assert (alloc_block (blocks d1) = blk) as Ha1 by (by rewrite <- (ae_alloc _ _ (proj1 Hq1))).
  destruct (result =? YAFFS_OK); cbn [negb]; [|apply ends_ret; split; [done|split; [congruence|by exists q]]].
  assert (alloc_block (blocks d1) ≠ -1) as Hne by lia.
  pose proof (use_chunk_wf q (blocks d1) c Hwf1 Hne ltac:(lia)) as Hwf2.
  pose proof (use_chunk_grows q d1 (on_blocks (use_chunk blk c) d1) c Hwf1 Hne ltac:(lia)) as Hg2.
  rewrite Ha1 in Hwf2, Hg2. specialize (Hg2 eq_refl eq_refl).
  apply ends_bind. eexists (), _.
  split; [apply set_chunk_bit_run; try done; apply shape_bits, (wf_shape _ _ _ Hwf1)|].
  apply ends_bind, ends_upd_bi; [apply shape_b_bit, (wf_shape _ _ _ Hwf1)|done|].
  apply ends_bind, ends_upd_blocks.
  match goal with |- ends _ ?d2 _ => change d2 with (on_blocks (use_chunk blk c) d1) end.
  set (d2 := on_blocks (use_chunk blk c) d1) in *.
  assert (grows d d2) as Hg by (by etrans).
  assert (alloc_block (blocks d2) = alloc_block (blocks d)) as Ha2 by (unfold d2; cbn; congruence).
  apply ends_ret. split; [done|]. split; [done|].
  destruct (Z.ltb_spec 0 (zlen (drop (Z.to_nat this_tx) rest))) as [Hmore|_]; [|by exists (c + 1)].
  rewrite length_drop in Hmore. exists b2, (drop (Z.to_nat this_tx) rest). rewrite length_drop.
  split; [do 3 f_equal; unfold chunk_of; lia|]. split; [congruence|]. split; [done|]. nia.
Qed.

Lemma summary_write_loop_run n : ∀ blk hdr buf rest c k q d,
  zlen buf = total_bytes_per_chunk → zlen hdr = 16 →
  blocks_wf q 0 (blocks d) → alloc_block (blocks d) = blk → in_range blk → q ≤ c → 0 ≤ c →
  chunks_per_summary ≤ c → 0 < zlen rest → (length rest < n)%nat →
  zlen rest ≤ (chunks_per_block - c) * (data_bytes_per_chunk - 16) →
  ends (loop n (summary_write_body (wr_chunk_tags_nand 1) blk hdr) (buf, rest, chunk_of blk c, c, k)) d
    (λ _ d', grows d d' ∧ alloc_block (blocks d') = alloc_block (blocks d) ∧
       ∃ q', blocks_wf q' 0 (blocks d')).
Proof.
  induction n as [|n IH]; intros blk hdr buf rest c k q d Hbuf Hhdr Hwf Ha Hr Hq Hc0 Hcs Hrest Hn Hroom; [lia|].
  destruct (summary_write_body_run blk hdr buf rest c k q d) as (r & d1 & H1 & Hg1 & Ha1 & Hr1); [done..|].
  destruct r as [v|x].
  - destruct Hr1 as (b' & rest' & -> & Hb' & Hwf' & Hp' & Hl' & Hroom').
    unfold ends. rewrite (loop_next _ _ _ _ _ _ H1).
    destruct (IH blk hdr b' rest' (c + 1) (k + 1) (c + 1) d1) as (y & d2 & H2 & Hg2 & Ha2 & Hq2);
      [done|done|done|congruence|done|lia|lia|lia|done|lia|done|].
    exists y, d2. split; [done|]. split; [by etrans|]. split; [congruence|done].
  - unfold ends. rewrite (loop_exit _ _ _ _ _ _ H1). by exists x, d1.
Qed.

Lemma summary_bytes_length l : zlen (summary_bytes l) = 12 * zlen l.
Proof using Type.
  induction l as [|s l IH]; [done|]. unfold summary_bytes in *. rewrite bind_cons, length_app, Nat2Z.inj_add, IH.
  cbn [mbind list_bind]. rewrite !length_app, !digits_length. cbn [length]. lia.
Qed.

Lemma summary_header_length h : zlen (summary_header_bytes h) = 16.
Proof using Type.
  unfold summary_header_bytes. cbn [mbind list_bind]. by rewrite !length_app, !digits_length.
Qed.

(** [yaffs_summary_write] on the open block, with the chunks that it covers handed out. *)
Lemma summary_write_run blk q d : blocks_wf q 0 (blocks d) → alloc_block (blocks d) = blk → in_range blk →
  q ≤ chunks_per_summary → sum_ok d → is_Some (sum_tags d) →
  ends (yaffs_summary_write (wr_chunk_tags_nand 1) blk) d
    (λ _ d', grows d d' ∧ alloc_block (blocks d') = alloc_block (blocks d) ∧
       ∃ q', blocks_wf q' 0 (blocks d')).
Proof.
  intros Hwf Ha Hr Hq Hsum [l Hl]. unfold sum_ok in Hsum. rewrite Hl in Hsum.
  destruct Hsum as (Hlen & Hcs & Hroom). unfold yaffs_summary_write.
  apply ends_bind, ends_get_block_info; [done|].
  apply ends_bind, ends_quiet; [apply quietly_get_temp_buffer|apply Hwf|]. intros buffer d1 [Hae Hs1].
  apply ends_bind, ends_get. rewrite <- Hs1, Hl. apply ends_bind, ends_ret.
  assert (blocks_wf q 0 (blocks d1)) as Hwf1 by (by rewrite <- Hae).
  assert (alloc_block (blocks d1) = blk) as Ha1 by (by rewrite <- (ae_alloc _ _ Hae)).
  destruct (in_range_info _ blk (wf_shape _ _ _ Hwf1) Hr) as [x Hx].
  apply ends_bind, (ends_bi_of blk d1 x); [done..|]. rewrite Ha1.
  fold (chunk_of blk chunks_per_summary). pose proof (summary_bytes_length l) as Hsb.
  apply ends_bind. eapply ends_mono.
  { apply (summary_write_loop_run _ blk _ _ _ _ _ q); try done;
      [apply bo_temp|lia..]. }
  intros result d2 (Hg2 & Ha2 & q' & Hwf2).
  assert (grows d d2) as Hg by (etrans; [by apply (quiet_grows d d1)|done]).
  apply ends_bind, ends_quiet; [apply quietly_release_temp_buffer|apply Hwf2|]. intros _ d3 [Hae3 Hs3].
  assert (grows d d3) as Hg3 by (etrans; [exact Hg|by apply quiet_grows]).
  assert (blocks_wf q' 0 (blocks d3)) as Hwf3 by (by rewrite <- Hae3).
  assert (alloc_block (blocks d3) = alloc_block (blocks d)) as Ha3
    by (rewrite <- (ae_alloc _ _ Hae3); congruence).
  apply ends_bind, ends_quiet; [apply quietly_when; by apply quietly_upd_bi|apply Hwf3|].
  intros _ d4 Hq4. apply ends_ret. destruct Hq4 as [Hae4 Hs4]. split; [|split].
  - etrans; [exact Hg3|by apply quiet_grows].
  - rewrite <- (ae_alloc _ _ Hae4). congruence.
  - exists q'. by rewrite <- Hae4.
Qed.

(** A chunk that was handed out, while it is being written. *)
Definition in_hand (blk c : Z) (d : yaffs_dev F) : Prop :=
  in_range blk ∧ 0 ≤ c < chunks_per_block ∧ blocks_ok (blocks d) ∧ sum_ok d ∧
  (alloc_block (blocks d) ≠ -1 → alloc_block (blocks d) = blk ∧ alloc_page (blocks d) = c + 1) ∧
  (alloc_block (blocks d) = -1 → c + 1 = chunks_per_block).

Lemma summary_clear_run d : ends yaffs_summary_clear d (λ _ d', grows d d' ∧ blocks d' = blocks d).
Proof.
  unfold yaffs_summary_clear. apply ends_bind, ends_get.
  destruct (sum_tags d) as [l|] eqn:Hl; [apply ends_modify|by apply ends_ret].
  split; [|done]. split; try done. cbn [sum_tags set_sum_tags]. rewrite Hl. cbn. by rewrite length_replicate.
Qed.

Lemma summary_add_run blk c tags d : in_hand blk c d →
  ends (yaffs_summary_add (wr_chunk_tags_nand 1) tags (chunk_of blk c)) d
    (λ _ d', grows d d' ∧ blocks_ok (blocks d') ∧
       (c = 0 → alloc_block (blocks d') = alloc_block (blocks d))).
Proof.
  intros (Hr & Hc & [Hwf Hpg] & Hsum & Hopen & Hclosed). unfold yaffs_summary_add.
  destruct (chunk_of_div blk c Hr Hc) as [-> ->].
  apply ends_bind, ends_get. destruct (sum_tags d) as [l|] eqn:Hl; [|by apply ends_ret].
  pose proof Hsum as Hsum'. unfold sum_ok in Hsum'. rewrite Hl in Hsum'.
  destruct Hsum' as (Hlen & Hcs & Hroom). pose proof bo_data.
  destruct (Z.leb_spec 0 c), (Z.ltb_spec c chunks_per_summary); cbn [andb]; try by apply ends_ret.
  rewrite zset_Some by lia. apply ends_bind, ends_ret, ends_bind, ends_modify.
  assert (chunks_per_summary < chunks_per_block) as Hlt by nia.
  assert (alloc_block (blocks d) ≠ -1) as Hne by (intros E; specialize (Hclosed E); lia).
  destruct (Hopen Hne) as [Ha Hp]. rewrite Hp in Hwf.
  match goal with |- ends _ ?d1 _ => set (d1' := d1) end.
  assert (grows d d1') as Hg1.
  { split; try done; cbn [sum_tags d1' set_sum_tags]. rewrite Hl. cbn. by rewrite length_insert. }
  apply ends_bind, ends_when; [|intros _; apply ends_ret; split; [done|];
    split; [change (blocks_ok (blocks d)); split; [by rewrite Hp|done]|done]].
  intros Hlast%Z.eqb_eq. apply ends_bind. eapply ends_mono.
  { pose proof (sum_ok_grows _ _ Hg1 Hsum). apply (summary_write_run blk (c + 1)); try done; lia. }
  intros _ d2 (Hg2 & Ha2 & q & Hwf2). apply ends_bind.
  eapply ends_mono; [apply summary_clear_run|]. intros _ d3 [Hg3 Hb3].
  eapply ends_mono; [apply (skip_rest_run q 0); by rewrite Hb3|]. intros [] d4 Hcl.
  pose proof (closed_grows _ _ _ Hcl) as Hg4. destruct Hcl as (Hwf4 & Ha4 & _). apply ends_ret.
  split; [by repeat (etrans; [eassumption|])|]. split; [split; [by apply (blocks_wf_closed 0)|by intros []]|lia].
Qed.

(** [yaffs_wr_chunk_tags_nand] on a chunk that was handed out: whatever it returns,
    nothing is lost and the accounts are right. *)
Lemma wr_chunk_tags_run blk c l tags d : in_hand blk c d → zlen l = total_bytes_per_chunk →
  ends (yaffs_wr_chunk_tags_nand (chunk_of blk c) (Some l) tags) d
    (λ r d', (r = YAFFS_OK ∨ r = YAFFS_FAIL) ∧ grows d d' ∧ blocks_ok (blocks d') ∧
       (c = 0 → alloc_block (blocks d') = alloc_block (blocks d))).
Proof.
  intros Hin Hl. unfold yaffs_wr_chunk_tags_nand. change (wr_chunk_tags_nand 2 (chunk_of blk c) (Some l) tags) with
    (bump N_page_writes;; d ← get;
     let tags := tags_for_write (dev_seq_number (blocks d)) tags in
     result ← write_chunk_tags_fn (apply_chunk_offset (chunk_of blk c)) (Some l) tags;
     _ ← yaffs_summary_add (wr_chunk_tags_nand 1) tags (chunk_of blk c);
     mret result).
  pose proof Hin as (Hr & Hc & [Hwf Hpg] & Hsum & Hopen & Hclosed).
  apply ends_bind, ends_quiet; [apply quietly_bump|apply Hwf|]. intros _ d1 Hq1. cbv zeta.
  apply ends_bind, ends_get.
  pose proof (quietly_write_tags (apply_chunk_offset (chunk_of blk c)) l
    (tags_for_write (dev_seq_number (blocks d1)) tags) Hl d1) as (result & d2 & H2 & Hq2);
    [rewrite <- (proj1 Hq1); apply Hwf|].
  pose proof (write_tags_answer _ _ _ _ _ _ H2) as Hres.
  apply ends_bind. exists result, d2. split; [done|]. assert (quiet d d2) as Hq by (by etrans).
  pose proof (quiet_grows _ _ Hq) as Hg2. destruct Hq as [Hae Hs].
  apply ends_bind. eapply ends_mono.
  { apply (summary_add_run blk c). unfold in_hand.
    rewrite <- (ae_alloc _ _ Hae), <- (ae_page _ _ Hae), <- Hae. repeat (split; [done|]).
    split; [by apply (sum_ok_grows d)|done]. }
  intros _ d3 (Hg3 & Hok3 & Ha3). apply ends_ret. split; [done|]. split; [by etrans|]. split; [done|].
  by rewrite (ae_alloc _ _ Hae).
Qed.

(** The chunks of [d] in use are in use in [d']. *)
Definition kept (d d' : yaffs_dev F) : Prop := ∀ blk c, in_range blk → 0 ≤ c < chunks_per_block →
  bit_at (blocks d) blk c = true → bit_at (blocks d') blk c = true.

(** [chunk] is a chunk of the device that is free in [d] and in use in [d']. *)
Definition got (d : yaffs_dev F) (chunk : Z) (d' : yaffs_dev F) : Prop :=
  ∃ blk c, chunk = chunk_of blk c ∧ in_range blk ∧ 0 ≤ c < chunks_per_block ∧
    bit_at (blocks d) blk c = false ∧ bit_at (blocks d') blk c = true.

#[export] Instance kept_preorder : PreOrder kept.
Proof using Type. split; [by intros d blk c|]. intros d1 d2 d3 H1 H2 blk c Hr Hc Hb. by apply H2, H1. Qed.

Lemma got_kept d d1 chunk d2 : kept d d1 → got d1 chunk d2 → got d chunk d2.
Proof using Type.
  intros Hk (blk & c & -> & Hr & Hc & Hf & Hu). exists blk, c. do 3 (split; [done|]). split; [|done].
  destruct (bit_at (blocks d) blk c) eqn:E; [|done]. rewrite (Hk blk c Hr Hc E) in Hf. done.
Qed.

(** A chunk that could not be written is given back, and the rest of its block is
    not used. *)
Lemma undo_run d d1 d2 t blk c : allocated d d1 blk c → sum_ok d → grows d1 d2 → blocks_ok (blocks d2) →
  (c = 0 → alloc_block (blocks d2) = alloc_block (blocks d1)) →
  ends (yaffs_chunk_del t (chunk_of blk c) true;; yaffs_skip_rest_of_block) d2 (λ _ d',
    blocks_ok (blocks d') ∧ sum_ok d' ∧ pot (blocks d') < pot (blocks d) ∧ kept d d').
Proof.
  intros [A1 A2 A3 A4 A5 A6 A7 A8 A9 A10 A11] Hsum Hg [Hwf Hpg] Hc0. pose proof Hgeo as [_ _ Hcpb _ _].
  apply ends_bind. eapply ends_mono; [apply (chunk_del_run (alloc_page (blocks d2))); try done|].
  { by apply (gr_ready _ _ Hg). }
  intros _ d3 [Hwf3 [D1 D2 D3 D4 D5]].
  eapply ends_mono; [by apply (skip_rest_run (alloc_page (blocks d2)) (alloc_page (blocks d2)))|].
  intros [] d4 Hcl. pose proof (closed_grows _ _ _ Hcl) as Hg4.
  destruct Hcl as (Hwf4 & Ha4 & Hb4 & Hs4 & Ho4 & _).
  split; [split; [by apply (blocks_wf_closed (alloc_page (blocks d2)))|by intros []]|]. split; [|split].
  - unfold sum_ok. rewrite Hs4, <- D1. apply (sum_ok_grows d1 d2 Hg). unfold sum_ok. by rewrite A7.
  - unfold pot at 1. rewrite decide_True by done. pose proof (gr_open _ _ Hg).
    destruct (decide (c = 0)) as [E|]; [|destruct (decide _); lia].
    rewrite decide_True in D5; [lia|]. rewrite (Hc0 E). apply A8. lia.
  - intros blk' c' Hr' Hc' Hbit. rewrite (bit_at_eq _ _ Hb4), D2 by done.
    rewrite decide_False; [|intros [-> ->]; congruence].
    apply (gr_bits _ _ Hg); [done..|]. rewrite A5 by done. by destruct (decide (blk' = blk ∧ c' = c)).
Qed.

(** What a round of the loop of [yaffs_write_new_chunk] leaves. *)
Definition round_post (d : yaffs_dev F) (v : Z * Z + Z * Z * Z) (d' : yaffs_dev F) : Prop :=
  blocks_ok (blocks d') ∧ sum_ok d' ∧ kept d d' ∧
  match v with
  | inl (_, w) => w = 0 ∧ pot (blocks d') < pot (blocks d)
  | inr (chunk, _, w) => w = 0 ∨ w = 1 ∧ got d chunk d'
  end.

Lemma again_run d d1 d2 t blk c a : allocated d d1 blk c → sum_ok d → grows d1 d2 → blocks_ok (blocks d2) →
  (c = 0 → alloc_block (blocks d2) = alloc_block (blocks d1)) →
  ends ((yaffs_chunk_del t (chunk_of blk c) true;; yaffs_skip_rest_of_block);;
        mret (write_again (chunk_of blk c) a 0)) d2 (round_post d).
Proof.
  intros Hal Hsum Hg Hok Hc0. apply ends_bind. eapply ends_mono; [by apply (undo_run d d1)|].
  intros _ d5 (H1 & H2 & H3 & H4). apply ends_ret. split; [done|]. split; [done|]. split; [done|].
  unfold write_again. cbn [Z.eqb negb andb YAFFS_OK]. destruct (_ || _); [done|by left].
Qed.

Lemma verify_answer t chunk l tags d w d' :
  yaffs_verify_chunk_written t chunk (Some l) tags d = Ok (w, d') → w = YAFFS_OK ∨ w = YAFFS_FAIL.
Proof using Type.
  unfold yaffs_verify_chunk_written. intros (buffer & d1 & _ & E)%bind_inv.
  apply bind_inv in E as ([[result read] temp_tags] & d2 & _ & E).
  revert E. cbn [defined]. rewrite run_bind_ret. intros (u & d3 & _ & E)%bind_inv.
  destruct (_ || _) in E; injection E as <- <-; [by right|by left].
Qed.

(** A write that failed. *)
Lemma write_failed_run d d1 d6 d7 t blk c erased a' : allocated d d1 blk c → sum_ok d → grows d1 d6 →
  blocks_ok (blocks d7) → (c = 0 → alloc_block (blocks d6) = alloc_block (blocks d1)) → quiet d6 d7 →
  ends (yaffs_handle_chunk_wr_error t (chunk_of blk c) erased;; mret (write_again (chunk_of blk c) a' YAFFS_FAIL))
    d7 (round_post d).
Proof.
  intros Hal Hsum Hg6 Hok7 Ha6 Hq7. pose proof Hal as [A1 A2 _ _ _ _ _ _ _ _ _].
  unfold yaffs_handle_chunk_wr_error. destruct (chunk_of_div blk c A1 A2) as [-> _].
  apply ends_bind, ends_bind, ends_get_block_info; [done|].
  apply ends_bind, ends_quiet; [by apply quietly_handle_chunk_error|apply Hok7|]. intros _ d8 Hq8.
  assert (blocks_ok (blocks d8)) as Hok8 by (by rewrite <- (proj1 Hq8)).
  apply ends_bind, ends_quiet; [apply quietly_when; by apply quietly_upd_bi|apply Hok8|]. intros _ d9 Hq9.
  assert (quiet d6 d9) as Hq69 by (etrans; [exact Hq7|]; by etrans).
  assert (blocks_ok (blocks d9)) as Hok9 by (by rewrite <- (proj1 Hq9)).
  eapply ends_mono; [apply (undo_run d d1 d9); try done|].
  - etrans; [exact Hg6|by apply quiet_grows].
  - intros E. by rewrite <- (ae_alloc _ _ (proj1 Hq69)), (Ha6 E).
  - intros _ d10 (H1 & H2 & H3 & H4). apply ends_ret. split; [done|]. split; [done|]. split; [done|].
    unfold write_again. cbn [Z.eqb negb andb YAFFS_OK YAFFS_FAIL]. destruct (_ || _); [done|by left].
Qed.

(** The part of a round after the check that the chunk is erased. *)
Definition write_in_hand (t : yaffs_ext_tags) (l : list Z) (tags : yaffs_ext_tags) (chunk bi erased a : Z)
  : M (Z * Z + Z * Z * Z) :=
  write_ok ← yaffs_wr_chunk_tags_nand chunk (Some l) tags;
  b ← bi_of bi;
  write_ok ← (if skip_erased_check b then mret write_ok
              else
                d ← get;
                yaffs_verify_chunk_written t chunk (Some l)
                  (tags_for_write (dev_seq_number (blocks d)) tags));
  if negb (write_ok =? YAFFS_OK) then
    yaffs_handle_chunk_wr_error t chunk erased;;
    mret (write_again chunk a write_ok)
  else
    upd_bi bi (set_skip_erased_check true);;
    mret (write_again chunk a write_ok).

Lemma write_in_hand_run d d1 d4 t l tags blk c erased a' : allocated d d1 blk c → quiet d1 d4 →
  sum_ok d → zlen l = total_bytes_per_chunk →
  ends (write_in_hand t l tags (chunk_of blk c) blk erased a') d4 (round_post d).
Proof.
  intros Hal Hq Hsum Hl. pose proof Hal as [A1 A2 A3 A4 A5 A6 A7 A8 A9 A10 A11].
  pose proof (quiet_grows _ _ Hq) as Hg4.
  assert (blocks_ok (blocks d4)) as Hok4 by (by rewrite <- (proj1 Hq)).
  assert (alloc_block (blocks d4) = alloc_block (blocks d1)) as Ha4 by (by rewrite (ae_alloc _ _ (proj1 Hq))).
  unfold write_in_hand.
  apply ends_bind. eapply ends_mono; [apply (wr_chunk_tags_run blk c); [|done]|].
  { repeat (split; [done|]). split; [|rewrite Ha4, <- (ae_page _ _ (proj1 Hq)); split; [|]].
    - apply (sum_ok_grows _ _ Hg4). unfold sum_ok. by rewrite A7.
    - intros Hne. apply A8. destruct (decide (c + 1 = chunks_per_block)); [by rewrite A9 in Hne|lia].
    - intros He. destruct (decide (c + 1 = chunks_per_block)); [done|].
      destruct A8 as [E _]; [lia|]. destruct A1, Hgeo. lia. }
  intros w d5 (Hw & Hg5 & Hok5 & Ha5).
  apply ends_bind, ends_quiet; [by apply quietly_bi_of|apply Hok5|]. intros b5 d6 Hq6.
  assert (grows d1 d6) as Hg6 by (etrans; [exact Hg4|]; etrans; [exact Hg5|by apply quiet_grows]).
  assert (blocks_ok (blocks d6)) as Hok6 by (by rewrite <- (proj1 Hq6)).
  assert (c = 0 → alloc_block (blocks d6) = alloc_block (blocks d1)) as Ha6
    by (intros; rewrite <- (ae_alloc _ _ (proj1 Hq6)), Ha5; done).
  apply ends_bind. eapply (ends_mono _ _ (λ w d', (w = YAFFS_OK ∨ w = YAFFS_FAIL) ∧ quiet d6 d')).
  { destruct (skip_erased_check b5); [by apply ends_ret|]. apply ends_bind, ends_get.
    destruct (quietly_verify_chunk_written t blk c l (tags_for_write (dev_seq_number (blocks d6)) tags) A1 A2 d6)
      as (w' & d7 & H7 & Hq7); [apply Hok6|].
    exists w', d7. split; [done|]. split; [by apply verify_answer in H7|done]. }
  clear w Hw. intros w d7 [Hw Hq7].
  assert (grows d1 d7) as Hg7 by (etrans; [exact Hg6|by apply quiet_grows]).
  assert (blocks_ok (blocks d7)) as Hok7 by (by rewrite <- (proj1 Hq7)).
  destruct Hw as [-> | ->]; cbn [Z.eqb YAFFS_OK YAFFS_FAIL negb Pos.eqb].
  - apply ends_bind, ends_quiet; [by apply quietly_upd_bi|apply Hok7|]. intros _ d8 Hq8. apply ends_ret.
    assert (grows d1 d8) as Hg8 by (etrans; [exact Hg7|by apply quiet_grows]).
    split; [by rewrite <- (proj1 Hq8)|]. split; [|split].
    + apply (sum_ok_grows _ _ Hg8). unfold sum_ok. by rewrite A7.
    + intros blk' c' Hr' Hc' Hbit. apply (gr_bits _ _ Hg8); [done..|]. rewrite A5 by done.
      by destruct (decide (blk' = blk ∧ c' = c)).
    + right. split; [done|]. exists blk, c. do 4 (split; [done|]).
      apply (gr_bits _ _ Hg8); [done..|]. rewrite A5 by done. by rewrite decide_True.
  - apply (write_failed_run d d1 d6 d7); done.
Qed.

(** One round of the loop of [yaffs_write_new_chunk]. *)
Lemma write_new_body_run t l tags use_reserver a d :
  blocks_ok (blocks d) → sum_ok d → zlen l = total_bytes_per_chunk →
  ends (write_new_body t (Some l) tags use_reserver (a, 0)) d (round_post d).
Proof.
  intros Hok Hsum Hl. unfold write_new_body. apply ends_bind.
  eapply ends_mono; [by apply alloc_chunk_run|].
  intros r d1 [(blk & c & -> & Hal)|(-> & Hok1 & Hb1 & Hs1 & _)].
  2: { apply ends_ret. split; [done|]. split; [unfold sum_ok in *; by rewrite Hs1|]. split; [|by left].
       intros blk c Hr Hc. pose proof geo_stride_bounds. rewrite (Hb1 blk c) by (done || lia). done. }
  pose proof Hal as [A1 A2 A3 A4 A5 A6 A7 A8 A9 A10 A11].
  destruct (chunk_of_u32 blk c A1 A2) as [_ Hpos]. destruct (Z.ltb_spec (chunk_of blk c) 0); [lia|].
  cbv zeta. set (a' := u32 (a + 1)). apply ends_bind, ends_ret.
  pose proof (proj1 A3) as Hwf1.
  apply ends_bind, ends_quiet; [apply quietly_when; by apply quietly_upd_bi|apply Hwf1|]. intros _ d2 Hq2.
  assert (shape (blocks d2)) as Hsh2 by (rewrite <- (proj1 Hq2); apply Hwf1).
  apply ends_bind, ends_quiet; [by apply quietly_bi_of|done|]. intros b d3 Hq3.
  assert (shape (blocks d3)) as Hsh3 by (by rewrite <- (proj1 Hq3)).
  apply ends_bind, ends_quiet; [apply quietly_if; [apply quietly_ret|by apply quietly_check_chunk_erased]|done|].
  intros erased d4 Hq4. assert (quiet d1 d4) as Hq by (by repeat (etrans; [eassumption|])).
  clear d2 d3 Hsh2 Hsh3 Hq2 Hq3 Hq4.
  destruct (_ && _).
  { apply ends_assoc, (again_run d d1); [done..|by apply quiet_grows|by rewrite <- (proj1 Hq)|].
    intros _. by rewrite (ae_alloc _ _ (proj1 Hq)). }
  by apply (write_in_hand_run d d1).
Qed.

Lemma pot_bound p delta b : blocks_wf p delta b → 0 ≤ pot b ≤ n_blocks + 2.
Proof.
  intros Hwf. pose proof (shape_info _ (wf_shape _ _ _ Hwf)) as Hl. unfold pot, n_openable.
  destruct (zsum_bound openable (block_info b) 0 1) as [H1 H2].
  { intros x _. unfold openable. destruct (decide _); lia. }
  destruct (decide (alloc_block b = -1)), (decide (alloc_page b = 0)); lia.
Qed.

(** [yaffs_write_new_chunk], whatever the driver answers and however many attempts it
    is given: it comes to an end, what was in use still is, and the chunk that it
    returns was free before and is in use now. *)
Lemma write_new_chunk_run fuel t l tags use_reserver d :
  blocks_ok (blocks d) → sum_ok d → zlen l = total_bytes_per_chunk → n_blocks + 2 < Z.of_nat fuel →
  ∃ r d', yaffs_write_new_chunk fuel t (Some l) tags use_reserver d = Ok (r, d') ∧
    blocks_ok (blocks d') ∧ sum_ok d' ∧ kept d d' ∧ (r = -1 ∨ got d r d').
Proof.
  intros [Hwf Hpg] Hsum Hl Hfuel. unfold yaffs_write_new_chunk.
  apply (ends_bind _ _ d (λ r d', _)), (ends_keeps _ (alloc_page (blocks d)) 0); [apply keeps_invalidate|done|].
  intros _ d1 Hwf1 [S1 S2 S3 S4 _ _].
  destruct (loop_total (λ v d2, v.2 = 0 ∧ blocks_ok (blocks d2) ∧ sum_ok d2 ∧ kept d d2)
    (λ _ d2, Z.to_nat (pot (blocks d2)))
    (λ v d2, blocks_ok (blocks d2) ∧ sum_ok d2 ∧ kept d d2 ∧ (v.2 = 0 ∨ v.2 = 1 ∧ got d v.1.1 d2))
    (write_new_body t (Some l) tags use_reserver)) with (fuel := fuel) (a := (0, 0)) (s := d1)
    as ([[chunk attempts] w] & d2 & Hloop & Hok2 & Hsum2 & Hin2 & Hres).
  - intros [a w] d2 (Hw & Hok2 & Hsum2 & Hin2). cbn in Hw. subst w.
    destruct (write_new_body_run t l tags use_reserver a d2 Hok2 Hsum2 Hl) as (v & d3 & H3 & Hok3 & Hsum3 & Hin3 & Hv).
    exists v, d3. split; [done|]. assert (kept d d3) as Hin by (by etrans).
    destruct v as [[a' w']|[[chunk a'] w']].
    + destruct Hv as [-> Hpot]. split; [done|]. pose proof (pot_bound _ _ _ (proj1 Hok2)).
      pose proof (pot_bound _ _ _ (proj1 Hok3)). lia.
    + split; [done|]. split; [done|]. split; [done|]. destruct Hv as [->|[-> Hg]]; [by left|right].
      split; [done|]. by apply (got_kept d d2).
  - split; [done|]. split; [split; [by rewrite <- S4|by rewrite <- S3, <- S4]|].
    split; [unfold sum_ok; by rewrite <- S1|]. intros blk c _ _. unfold bit_at, bit_index. by rewrite S2.
  - pose proof (pot_bound _ _ _ Hwf1). lia.
  - apply ends_bind. exists (chunk, attempts, w), d2. split; [done|]. cbn in Hres.
    apply ends_bind, ends_quiet; [apply quietly_when, quietly_bump_by|apply Hok2|]. intros _ d3 [Hae Hs3].
    apply ends_ret. split; [by rewrite <- Hae|]. split; [unfold sum_ok; by rewrite <- Hs3|].
    split; [intros blk c Hr Hc Hbit; rewrite <- (acct_eq_bit _ _ Hae); by apply Hin2|].
    destruct Hres as [->|[-> (blk & c & -> & Hr & Hc & Hf & Hu)]]; [by left|right].
    exists blk, c. do 4 (split; [done|]). by rewrite <- (acct_eq_bit _ _ Hae).
Qed.

(** ** What the operations promise *)

(** The chunk [c] of block [blk] can be deleted: it is in use, in a block that holds
    data of which not all is deleted softly. *)
Definition deletable (d : yaffs_dev F) (blk c : Z) : Prop :=
  in_range blk ∧ 0 ≤ c < chunks_per_block ∧ del_ready (blocks d) blk c.

(** The chunks of [d'] in use are those of [d], but for one that is [v]. *)
Definition one_changed (d d' : yaffs_dev F) (blk c : Z) (v : bool) : Prop :=
  ∀ blk' c', in_range blk' → 0 ≤ c' < chunks_per_block →
    bit_at (blocks d') blk' c' = if decide (blk' = blk ∧ c' = c) then v else bit_at (blocks d) blk' c'.

(** C26. Allocation: on a device whose accounts are right [yaffs_alloc_chunk] comes to
    an end without a fault and leaves the accounts right. Either it returns a chunk of
    the device that was free, with its block, the chunk is now in use, no other chunk
    has changed and there is one free chunk less; or it returns -1, nothing was
    allocated, and when the reserve may be used this is only because no block was open
    and none was erased. *)
Theorem alloc_chunk_spec use_reserver d : blocks_ok (blocks d) →
  ∃ r d', yaffs_alloc_chunk use_reserver d = Ok (r, d') ∧ blocks_ok (blocks d') ∧
    ((∃ blk c, r = (chunk_of blk c, Some blk) ∧ in_range blk ∧ 0 ≤ c < chunks_per_block ∧
        bit_at (blocks d) blk c = false ∧ one_changed d d' blk c true ∧
        n_free_chunks (blocks d') = n_free_chunks (blocks d) - 1) ∨
     (r = (-1, None) ∧ kept d d' ∧ kept d' d ∧ n_free_chunks (blocks d') = n_free_chunks (blocks d) ∧
        (use_reserver = true → alloc_block (blocks d) = -1 ∧ n_erased_blocks (blocks d) < 1))).
Proof.
  intros Hok. pose proof geo_stride_bounds as [_ Hst].
  destruct (alloc_chunk_run use_reserver d Hok) as (r & d' & Hrun & [(blk & c & -> & Hal)|(-> & Hna)]).
  - exists (chunk_of blk c, Some blk), d'. destruct Hal. split; [done|]. split; [done|]. left. by exists blk, c.
  - exists (-1, None), d'. destruct Hna as (Hok' & Hb & Hs & Hn & Hwhy). split; [done|]. split; [done|]. right.
    split; [done|]. split; [|split; [|done]]; intros blk c Hr Hc; rewrite (Hb blk c) by (done || lia); done.
Qed.

(** C33. Deletion: a chunk that is in use can be deleted whatever the driver answers:
    the call comes to an end without a fault, the accounts stay right, this chunk is
    free, and no other chunk has changed (the erasure of a block whose last chunk is
    deleted, its retirement, the loss of the checkpoint and the choice of the block
    with the oldest sequence number included). *)
Theorem chunk_del_spec t blk c mark d : blocks_ok (blocks d) → deletable d blk c →
  ∃ d', yaffs_chunk_del t (chunk_of blk c) mark d = Ok ((), d') ∧ blocks_ok (blocks d') ∧
    one_changed d d' blk c false ∧ alloc_block (blocks d') = alloc_block (blocks d).
Proof.
  intros [Hwf Hpg] (Hr & Hc & Hready).
  destruct (chunk_del_run _ d t blk c mark Hwf Hr Hc Hready) as ([] & d' & Hrun & Hwf' & [_ D2 D3 D4 _]).
  exists d'. split; [done|]. split; [|done]. unfold blocks_ok; by rewrite <- D4, <- D3.
Qed.

(** C11. A page is written: on a device whose accounts and summary are right, and for
    data of the size of a chunk, [yaffs_write_new_chunk] comes to an end without a fault
    whatever the driver answers, after fewer rounds than there are blocks and three,
    also when [yaffs_wr_attempts] is 0 and the number of attempts is not bounded. The
    accounts are right again, every chunk that was in use still is, and the result is -1
    or a chunk that was free and is in use now. *)
Theorem write_new_chunk_ends fuel t l tags use_reserver d :
  blocks_ok (blocks d) → sum_ok d → zlen l = total_bytes_per_chunk → n_blocks + 2 < Z.of_nat fuel →
  ∃ r d', yaffs_write_new_chunk fuel t (Some l) tags use_reserver d = Ok (r, d') ∧
    blocks_ok (blocks d') ∧ sum_ok d' ∧ kept d d' ∧ (r = -1 ∨ got d r d').
Proof. apply write_new_chunk_run. Qed.

(** A step of the traffic on a mounted device. *)
Inductive dev_step : yaffs_dev F → yaffs_dev F → Prop :=
  | step_invalidate d d' : yaffs2_checkpt_invalidate d = Ok ((), d') → dev_step d d'
  | step_alloc use_reserver r d d' : yaffs_alloc_chunk use_reserver d = Ok (r, d') → dev_step d d'
  | step_write fuel t l tags use_reserver r d d' : zlen l = total_bytes_per_chunk →
      n_blocks + 2 < Z.of_nat fuel →
      yaffs_write_new_chunk fuel t (Some l) tags use_reserver d = Ok (r, d') → dev_step d d'
  | step_del t blk c mark d d' : deletable d blk c →
      yaffs_chunk_del t (chunk_of blk c) mark d = Ok ((), d') → dev_step d d'
  | step_soft_del blk c d d' : deletable d blk c →
      yaffs_soft_del_chunk (chunk_of blk c) d = Ok ((), d') → dev_step d d'
  | step_skip d d' : yaffs_skip_rest_of_block d = Ok ((), d') → dev_step d d'.

Definition accounted (d : yaffs_dev F) : Prop := blocks_ok (blocks d) ∧ sum_ok d.

Lemma dev_step_accounted d d' : dev_step d d' → accounted d → accounted d'.
Proof.
  intros Hstep [[Hwf Hpg] Hsum]. destruct Hstep as
    [d d' H1|ur r d d' H1|fuel t l tags ur r d d' Hl Hf H1|t blk c mark d d' (Hr & Hc & Hd) H1|
     blk c d d' (Hr & Hc & [_ (x & Hx & Hs & Hst)]) H1|d d' H1].
  - destruct (keeps_invalidate d _ _ Hwf) as (? & d2 & H2 & Hwf2 & [S1 _ S3 S4 _ _]).
    assert (d2 = d') as -> by congruence.
    split; [split; [by rewrite <- S4|by rewrite <- S3, <- S4]|unfold sum_ok; by rewrite <- S1].
  - destruct (ends_inv _ _ _ _ _ (alloc_chunk_run ur d (conj Hwf Hpg)) H1) as [(blk & c & _ & Hal)|(_ & Hna)].
    + destruct Hal. split; [done|]. unfold sum_ok. by rewrite al_sum0.
    + destruct Hna as (? & _ & Hs & _). split; [done|]. unfold sum_ok. by rewrite Hs.
  - destruct (write_new_chunk_run fuel t l tags ur d) as (? & d2 & H2 & ? & ? & _); [done..|].
    by assert (d2 = d') as -> by congruence.
  - destruct (ends_inv _ _ _ _ _ (chunk_del_run _ d t blk c mark Hwf Hr Hc Hd) H1) as [Hwf' [D1 _ D3 D4 _]].
    split; [unfold blocks_ok; by rewrite <- D4, <- D3|unfold sum_ok; by rewrite <- D1].
  - destruct (ends_inv _ _ _ _ _ (soft_del_chunk_run _ d blk c x Hwf Hr Hc Hx Hs Hst) H1)
      as (Hwf' & _ & E1 & E2 & _ & E3).
    split; [unfold blocks_ok; by rewrite E1, E2|unfold sum_ok; by rewrite E3].
  - destruct (ends_inv _ _ _ _ _ (skip_rest_run _ 0 d Hwf) H1) as (Hwf' & E1 & _ & E2 & _).
    split; [split; [by apply (blocks_wf_closed 0)|by intros []]|unfold sum_ok; by rewrite E2].
Qed.

Lemma count_free_zsum d : yaffs_count_free_chunks d = zsum chunks_free (block_info (blocks d)).
Proof using Type.
  unfold yaffs_count_free_chunks. enough (∀ l n, foldl (λ n x, n + chunks_free x) n l = n + zsum chunks_free l) as Hf
    by apply Hf. induction l as [|x l IH]; intros n; cbn [foldl zsum]; [lia|rewrite IH; lia].
Qed.

Lemma count_empty_zsum d :
  yaffs_count_blocks_by_state YAFFS_BLOCK_STATE_EMPTY d = zsum is_empty (block_info (blocks d)).
Proof using Type.
  unfold yaffs_count_blocks_by_state. induction (block_info (blocks d)) as [|x l IH]; [done|].
  cbn [zsum]. rewrite filter_cons. unfold is_empty at 1. destruct (decide _); cbn [length]; lia.
Qed.

(** C7. The incremental accounts agree with recounts: after any traffic of
    allocations, writes, deletions, soft deletions and losses of the checkpoint, however
    the driver answers, the device's count of free chunks is what
    [yaffs_count_free_chunks] counts over the blocks, its count of erased blocks is what
    [yaffs_count_blocks_by_state] counts, and the pages that each block says are in use
    are the bits that [yaffs_count_chunk_bits] counts in its bitmap. *)
Theorem accounts_agree d d' : accounted d → rtc dev_step d d' →
  yaffs_count_free_chunks d' = n_free_chunks (blocks d') ∧
  yaffs_count_blocks_by_state YAFFS_BLOCK_STATE_EMPTY d' = n_erased_blocks (blocks d') ∧
  ∀ blk x, in_range blk → info (blocks d') blk = Some x →
    yaffs_count_chunk_bits blk d' = Ok (pages_in_use x, d').
Proof.
  intros Hd Hsteps. assert (accounted d') as [[Hwf _] _].
  { induction Hsteps; [done|]. eauto using dev_step_accounted. }
  rewrite count_free_zsum, count_empty_zsum, (wf_free _ _ _ Hwf), (wf_erased _ _ _ Hwf).
  split; [lia|]. split; [done|]. intros blk x Hr Hx.
  rewrite count_chunk_bits_run; [|apply Hwf|done]. rewrite (bw_pages _ _ _ (wf_block _ _ _ Hwf blk x Hr Hx)).
  do 2 f_equal. pose proof geo_stride_bounds as [_ Hst]. unfold bits_set, used. pose proof Hgeo as [_ _ Hcpb _ _].
  apply count_upto_more; [lia|]. intros i Hi. apply (wf_pad _ _ _ Hwf); [done|lia].
Qed.
End alloc.

(** ** The small device *)

#[local] Existing Instances demo_cfg demo_geometry.

(** A driver without a flash: reads see erased pages and all calls succeed. *)
Definition demo_drv : yaffs_driver () := {|
  drv_write_chunk_fn _ _ _ _ s := (YAFFS_OK, s);
  drv_read_chunk_fn _ dl ol s :=
    ((YAFFS_OK, replicate (Z.to_nat (default 0 dl)) 0xff, replicate (Z.to_nat (default 0 ol)) 0xff,
      YAFFS_ECC_RESULT_NO_ERROR), s);
  drv_erase_fn _ s := (YAFFS_OK, s);
  drv_mark_bad_fn _ s := (YAFFS_OK, s);
  drv_check_bad_fn _ s := (YAFFS_OK, s) |}.

#[local] Existing Instance demo_drv.

Lemma demo_y2 : is_yaffs2 = true.
Proof. done. Qed.

Lemma demo_driver_ok : driver_ok ().
Proof. split; [|by left]. intros. cbn. apply Forall_replicate. done. Qed.

Lemma demo_buffers_ok : buffers_ok.
Proof. by split. Qed.

#[local] Existing Instances demo_driver_ok demo_buffers_ok.

Definition demo_tags : yaffs_ext_tags := sample_tags.

Example alloc_chunk_spec_witness : ∃ r d', yaffs_alloc_chunk true demo_dev = Ok (r, d') ∧ r = (17, Some 1).
Proof.
  destruct (alloc_chunk_spec demo_y2 true demo_dev demo_blocks_ok) as (r & d' & H & _).
  exists r, d'. split; [exact H|]. vm_compute in H. injection H as <- _. reflexivity.
Defined.

Lemma demo_deletable : deletable demo_dev 3 0.
Proof.
  split; [split; cbn; lia|]. split; [done|]. split; [by vm_compute|].
  exists (demo_bi 1 2 YAFFS_BLOCK_STATE_FULL). split; [done|]. split; [done|]. set_solver.
Qed.

Example chunk_del_spec_witness :
  ∃ d', yaffs_chunk_del demo_tags 48 true demo_dev = Ok ((), d') ∧ blocks_ok (blocks d').
Proof.
  destruct (chunk_del_spec demo_y2 demo_tags 3 0 true demo_dev demo_blocks_ok demo_deletable)
    as (d' & H & Hok & _).
  exists d'. exact (conj H Hok).
Defined.

Example write_new_chunk_ends_witness : ∃ r d',
  yaffs_write_new_chunk 6 demo_tags (Some (replicate 32 7)) demo_tags false demo_dev = Ok (r, d') ∧
  blocks_ok (blocks d').
Proof.
  destruct (write_new_chunk_ends demo_y2 6 demo_tags (replicate 32 7) demo_tags false demo_dev demo_blocks_ok I
    eq_refl eq_refl) as (r & d' & H & Hok & _).
  exists r, d'. exact (conj H Hok).
Defined.

Example accounts_agree_witness : ∃ d', yaffs_chunk_del demo_tags 48 true demo_dev = Ok ((), d') ∧
  yaffs_count_free_chunks d' = n_free_chunks (blocks d').
Proof.
  destruct (yaffs_chunk_del demo_tags 48 true demo_dev) as [[[] d']|] eqn:E; [|by vm_compute in E].
  exists d'. split; [reflexivity|].
  apply (accounts_agree demo_y2 demo_dev d'); [exact (conj demo_blocks_ok I)|].
  eapply rtc_l; [|apply rtc_refl]. exact (step_del demo_tags 3 0 true _ _ demo_deletable E).
Defined.
