(* ===== verification/YaffsStore.v ===== *)
(** * YAFFS: the device as a store of chunks

    What the block level of [YaffsDev] is for the files above it, on a flash that remembers
    ([good_flash]): the chunks in use are a store that [yaffs_write_new_chunk] adds to, that
    [yaffs_chunk_del] takes from and that is read back by [yaffs_rd_chunk_tags_nand]. A block
    that is erased has no chunk in use, a chunk that is allocated has been erased, the summary of a
    block is written where no chunk is in use: so the chunks in use keep their data and tags. *)

From S2P Require Import Prelude Memory Endian YaffsEcc YaffsTags YaffsDev YaffsFlash YaffsBlocks YaffsAlloc.

(** What is kept in the device: the data and the tags of the chunks in use by what is above, by the
    numbers of the chunks. *)
Abbreviation chunk_map := (gmap Z (list Z * yaffs_ext_tags)).

Section store.
Context {F : Type} {cfg : yaffs_config} {drv : yaffs_driver F} {good : good_flash F cfg drv}.
Context {Hdrv : driver_ok F} {Hbuf : buffers_ok} {Hgeo : geometry} {Hplain : plain_device}.
Abbreviation M := (prog (yaffs_dev F)).
Implicit Types (d : yaffs_dev F) (b : yaffs_blocks).
#[local] Set Default Proof Using "All".

(** ** Programs that only read *)

(** All but the counters, the buffers, the state of the collection, the estimate of the space for a
    checkpoint and the state of the flash that cannot be read. *)
Record alike d d' : Prop := mk_alike {
  al_content : content (flash d') = content (flash d);
  al_blocks : blocks d' = blocks d;
  al_checkpt : is_checkpointed d' = is_checkpointed d;
  al_in_checkpt : blocks_in_checkpt d' = blocks_in_checkpt d;
  al_tags : sum_tags d' = sum_tags d
}.
#[export] Instance alike_equiv : Equivalence alike.
Proof. split; [done|intros ?? []; by split|intros ??? [] []; split; congruence]. Qed.

Definition addr (blk c : Z) : Z := apply_chunk_offset (chunk_of blk c).

Lemma addr_block blk c : 0 ≤ c < chunks_per_block → addr blk c / chunks_per_block = blk - block_offset.
Proof.
  intros Hc. unfold addr, apply_chunk_offset, chunk_of. rewrite pd_offset.
  replace (blk * chunks_per_block + c - block_offset * chunks_per_block) with (c + (blk - block_offset) * chunks_per_block) by lia.
  rewrite Z.div_add by lia. rewrite Z.div_small; lia.
Qed.

Lemma addr_inj blk c blk' c' : 0 ≤ c < chunks_per_block → 0 ≤ c' < chunks_per_block → addr blk c = addr blk' c' → blk = blk' ∧ c = c'.
Proof.
  intros Hc Hc' E. pose proof (addr_block blk c Hc) as H1. pose proof (addr_block blk' c' Hc') as H2. rewrite E, H2 in H1.
  assert (blk = blk') as -> by lia. split; [done|]. unfold addr, apply_chunk_offset, chunk_of in E. lia.
Qed.

Lemma get_temp_alike : within alike yaffs_get_temp_buffer.
Proof. unfold yaffs_get_temp_buffer, upd_temp. repeat within_step; by split. Qed.
Lemma release_temp_alike o : within alike (yaffs_release_temp_buffer o).
Proof. unfold yaffs_release_temp_buffer, upd_temp. repeat within_step; by split. Qed.

Lemma get_temp_run d : ends yaffs_get_temp_buffer d (λ _ d', alike d d').
Proof.
  assert (∃ x d', yaffs_get_temp_buffer d = Ok (x, d')) as (x & d' & H).
  { unfold yaffs_get_temp_buffer, upd_temp. prog_simpl. destruct (free_buffer _); by do 2 eexists. }
  exists x, d'. split; [done|]. by eapply get_temp_alike.
Qed.
Lemma release_temp_run o d : ends (yaffs_release_temp_buffer o) d (λ _ d', alike d d').
Proof.
  assert (∃ x d', yaffs_release_temp_buffer o d = Ok (x, d')) as (x & d' & H).
  { unfold yaffs_release_temp_buffer, upd_temp. prog_simpl. destruct o; by do 2 eexists. }
  exists x, d'. split; [done|]. by eapply release_temp_alike.
Qed.

Lemma tags_read_ecc p t : tags_read p t → ecc_result t = YAFFS_ECC_RESULT_NO_ERROR.
Proof.
  destruct p as [[l oob]|]; cbn; [|by intros ->]. intros (t' & _ & _ & ->). unfold tags2_stored. by destruct (yaffs_check_tags_extra_packable _).
Qed.

(** Reading a chunk that was erased, or written with its tags. *)
Lemma rd_chunk_run d chunk want t0 t : tags_read (content (flash d) (apply_chunk_offset chunk)) t →
  ends (yaffs_rd_chunk_tags_nand chunk want t0) d (λ r d',
    r = (YAFFS_OK, if want then page_data (content (flash d) (apply_chunk_offset chunk)) total_bytes_per_chunk else [], t) ∧ alike d d').
Proof.
  intros Ht. unfold yaffs_rd_chunk_tags_nand. apply ends_bind, ends_modify. set (d1 := set_stats _ d).
  destruct (read_tags_run pd_yaffs2 pd_inband d1 (apply_chunk_offset chunk) want t0 t Ht) as (f' & Hf & Hrd).
  eexists _, _. split; [rewrite (bind_Ok _ _ _ _ _ Hrd); cbn iota beta|].
  - rewrite (tags_read_ecc _ _ Ht). reflexivity.
  - split; [done|]. by split.
Qed.

(** The checks of a chunk before and after it is written. *)
Lemma check_erased_run t d chunk : content (flash d) (apply_chunk_offset chunk) = None →
  ends (yaffs_check_chunk_erased t chunk) d (λ r d', r = YAFFS_OK ∧ alike d d').
Proof.
  intros Hc. unfold yaffs_check_chunk_erased. eapply ends_seq; [apply get_temp_run|]. intros buffer d1 H1.
  eapply ends_seq; [apply (rd_chunk_run d1 chunk true t (set_ecc_result YAFFS_ECC_RESULT_NO_ERROR ext_tags_zero))|].
  { rewrite (al_content _ _ H1), Hc. done. }
  intros r d2 [-> H2]. eapply ends_seq; [apply release_temp_run|]. intros u d3 H3.
  apply ends_ret. split; [|exact (transitivity (transitivity H1 H2) H3)].
  rewrite (al_content _ _ H1), Hc. cbn [page_data]. rewrite take_replicate. unfold yaffs_check_ff.
  assert (∀ n, forallb (λ x, x =? 255) (replicate n 255) = true) as -> by (intros n; induction n; cbn; congruence). done.
Qed.

Definition same_ids (t t' : yaffs_ext_tags) : Prop := obj_id t' = obj_id t ∧ chunk_id t' = chunk_id t ∧ n_bytes t' = n_bytes t.

Lemma verify_run t d chunk data oob tags : content (flash d) (apply_chunk_offset chunk) = Some (data, oob) → zlen data = total_bytes_per_chunk →
  tags2_ok tags → tags_image tags = Some oob → same_ids tags (tags2_stored YAFFS_ECC_RESULT_NO_ERROR tags) →
  ends (yaffs_verify_chunk_written t chunk (Some data) tags) d (λ r d', r = YAFFS_OK ∧ alike d d').
Proof.
  intros Hc Hlen Hok Him (E1 & E2 & E3). unfold yaffs_verify_chunk_written. eapply ends_seq; [apply get_temp_run|]. intros buffer d1 H1.
  eapply ends_seq; [apply (rd_chunk_run d1 chunk true t (tags2_stored YAFFS_ECC_RESULT_NO_ERROR tags))|].
  { rewrite (al_content _ _ H1), Hc. cbn. by exists tags. }
  intros r d2 [-> H2]. apply ends_bind, (ends_defined _ data); [done|]. eapply ends_seq; [apply release_temp_run|]. intros u d3 H3.
  apply ends_ret. split; [|exact (transitivity (transitivity H1 H2) H3)].
  rewrite (al_content _ _ H1), Hc. cbn [page_data]. rewrite (take_ge data (Z.to_nat total_bytes_per_chunk)) by lia.
  rewrite bool_decide_true by done. by rewrite E1, E2, E3, !Z.eqb_refl.
Qed.

(** ** The chunks in use and the erased ones *)

(** The states of a block whose chunks are in use by what is above. *)
Definition data_states : list yaffs_block_state :=
  [YAFFS_BLOCK_STATE_ALLOCATING; YAFFS_BLOCK_STATE_FULL; YAFFS_BLOCK_STATE_COLLECTING].

Record live d (blk c : Z) : Prop := mk_live {
  lv_block : in_range blk;
  lv_chunk : 0 ≤ c < chunks_per_block;
  lv_bit : bit_at (blocks d) blk c = true;
  lv_state : ∃ x, info (blocks d) blk = Some x ∧ block_state x ∈ data_states
}.

(** A chunk that a write may be given without an erasure. *)
Definition blank_at b (blk c : Z) : Prop :=
  (∃ x, info b blk = Some x ∧ block_state x = YAFFS_BLOCK_STATE_EMPTY) ∨ (alloc_block b = blk ∧ alloc_page b ≤ c).

(** A device without errors and without chunks of files that are being deleted: what may be written
    is erased. *)
Record sound d : Prop := mk_sound {
  so_ok : blocks_ok (blocks d);
  so_sum : sum_ok d;
  so_info blk x : in_range blk → info (blocks d) blk = Some x → needs_retiring x = false ∧ soft_del_pages x = 0;
  so_seq : in_u 32 (dev_seq_number (blocks d));
  so_clean blk c : in_range blk → 0 ≤ c < chunks_per_block → blank_at (blocks d) blk c → content (flash d) (addr blk c) = None
}.

(** A chunk in use is still in use and holds what it held. *)
Definition stays d d' (blk c : Z) : Prop :=
  live d' blk c ∧ content (flash d') (addr blk c) = content (flash d) (addr blk c).

Lemma stays_trans d1 d2 d3 blk c : stays d1 d2 blk c → stays d2 d3 blk c → stays d1 d3 blk c.
Proof. intros [_ H2] [H3 H4]. split; [done|congruence]. Qed.

Lemma sum_ok_eq d d' : sum_tags d' = sum_tags d → sum_ok d → sum_ok d'.
Proof. unfold sum_ok. by intros ->. Qed.

Lemma alike_sound d d' : alike d d' → sound d → sound d'.
Proof.
  intros [H1 H2 H3 H4 H5] [S1 S2 S3 S4 S5]. split; rewrite ?H2; try done.
  - by apply (sum_ok_eq d).
  - intros blk c Hr Hc Hb. rewrite H1. by apply S5.
Qed.

Lemma alike_live d d' blk c : alike d d' → live d blk c → live d' blk c.
Proof. intros H [L1 L2 L3 L4]. split; rewrite ?(al_blocks _ _ H); done. Qed.

Lemma alike_stays d d' blk c : alike d d' → live d blk c → stays d d' blk c.
Proof. intros H L. split; [by apply (alike_live d)|by rewrite (al_content _ _ H)]. Qed.

Lemma alike_quiet d d' : alike d d' → quiet d d'.
Proof. intros [_ H2 _ _ H5]. split; [by rewrite H2|done]. Qed.

(** ** Programs on the information of the blocks *)

(** The health of a block and what it is for: it can be opened and closed. *)
Definition info_le (x x' : yaffs_block_info) : Prop :=
  needs_retiring x' = needs_retiring x ∧ soft_del_pages x' = soft_del_pages x ∧
  (block_state x' = block_state x ∨ block_state x' ∈ [YAFFS_BLOCK_STATE_ALLOCATING; YAFFS_BLOCK_STATE_FULL]).

#[export] Instance info_le_preorder : PreOrder info_le.
Proof.
  split; [intros x; split_and!; auto|]. intros x y z (H1 & H2 & H3) (G1 & G2 & G3). split_and!; [congruence|congruence|].
  destruct G3 as [->|?]; auto.
Qed.

(** What the allocation of chunks and the summaries do to the blocks. *)
Definition carves d d' : Prop := Forall2 info_le (block_info (blocks d)) (block_info (blocks d')).
#[export] Instance carves_preorder : PreOrder carves.
Proof. split; [intros d; unfold carves; reflexivity|]. intros d1 d2 d3 H1 H2. unfold carves in *. by etrans. Qed.

Lemma carves_info d d' blk x' : carves d d' → info (blocks d') blk = Some x' → ∃ x, info (blocks d) blk = Some x ∧ info_le x x'.
Proof. intros H Hx. destruct (Forall2_lookup_r _ _ _ _ _ H Hx) as (x & Hx0 & Hle). by exists x. Qed.
Lemma carves_info_to d d' blk x : carves d d' → info (blocks d) blk = Some x → ∃ x', info (blocks d') blk = Some x' ∧ info_le x x'.
Proof. intros H Hx. destruct (Forall2_lookup_l _ _ _ _ _ H Hx) as (x' & Hx' & Hle). by exists x'. Qed.

Lemma carves_state d d' blk : carves d d' →
  (∃ x, info (blocks d) blk = Some x ∧ block_state x ∈ data_states) →
  ∃ x, info (blocks d') blk = Some x ∧ block_state x ∈ data_states.
Proof.
  intros H (x & Hx & Hst). destruct (carves_info_to d d' blk x H Hx) as (x' & Hx' & _ & _ & E). exists x'. split; [done|].
  unfold data_states in *. destruct E as [->|E]; [done|states].
Qed.

Lemma carves_same d d' : block_info (blocks d') = block_info (blocks d) → carves d d'.
Proof. intros H. unfold carves. rewrite H. reflexivity. Qed.
Lemma alike_carves d d' : alike d d' → carves d d'.
Proof. intros H. apply carves_same. by rewrite (al_blocks _ _ H). Qed.

Lemma get_block_info_carves blk : within carves (yaffs_get_block_info blk).
Proof. unfold yaffs_get_block_info. repeat within_step. Qed.
Lemma bi_of_carves blk : within carves (bi_of blk).
Proof. unfold bi_of. repeat within_step. Qed.
Lemma upd_blocks_carves f : (∀ b, block_info (f b) = block_info b) → within carves (upd_blocks f).
Proof. intros Hf. unfold upd_blocks. within_step. apply carves_same, Hf. Qed.
Lemma on_flash_carves {A} (f : F → A * F) : within carves (on_flash f).
Proof. intros d x d'. unfold on_flash. prog_simpl. destruct (f (flash d)). prog_simpl. intros [= <- <-]. by apply carves_same. Qed.

Lemma upd_bi_carves blk f : (∀ x, info_le x (f x)) → within carves (upd_bi blk f).
Proof.
  intros Hf d u d'. unfold upd_bi, bi_of. prog_simpl. intros H.
  destruct (znth (block_info (blocks d)) (blk - internal_start_block)) as [x|] eqn:Ex; [|done]. rewrite run_bind_defined in H.
  destruct (zset (block_info (blocks d)) (blk - internal_start_block) (f x)) as [l|] eqn:El; [|done]. rewrite run_bind_defined in H.
  injection H as <- <-. unfold carves. cbn [blocks set_blocks block_info set_block_info].
  unfold znth in Ex. unfold zset in El. destruct (_ && _); [|done]. injection El as <-. destruct (_ <? _); [done|].
  rewrite <- (list_insert_id _ _ _ Ex) at 1. apply Forall2_insert; [reflexivity|apply Hf].
Qed.

Lemma bump_carves s : within carves (bump s).
Proof. unfold bump, bump_by. within_step. by apply carves_same. Qed.
Lemma upd_temp_carves f : within carves (upd_temp f).
Proof. unfold upd_temp. within_step. by apply carves_same. Qed.
Lemma set_bits_byte_carves i v : within carves (set_bits_byte i v).
Proof. unfold set_bits_byte. repeat first [apply upd_blocks_carves; done|within_step]. Qed.

Ltac carve := repeat first
  [ apply get_block_info_carves | apply bi_of_carves | apply bump_carves | apply upd_temp_carves | apply on_flash_carves | apply set_bits_byte_carves
  | apply upd_blocks_carves; intros ?; first [done|by case_match]
  | apply upd_bi_carves; intros ?; split_and!; [done|done|first [by left|right; cbn; set_solver]]
  | match goal with |- carves _ _ => by apply carves_same end | within_step ].

Lemma find_alloc_block_carves : within carves yaffs_find_alloc_block.
Proof.
  unfold yaffs_find_alloc_block. repeat within_step. generalize (Z.to_nat (internal_end_block - internal_start_block + 1)) as n.
  intros n. induction n as [|n IH]; cbn [find_alloc_loop]; [within_step|]. carve. apply IH.
Qed.

Lemma set_chunk_bit_carves blk c : within carves (yaffs_set_chunk_bit blk c).
Proof. unfold yaffs_set_chunk_bit, yaffs_block_bits, yaffs_verify_chunk_bit_id, bits_byte. carve. Qed.

Lemma alloc_chunk_carves use_reserver : within carves (yaffs_alloc_chunk use_reserver).
Proof.
  unfold yaffs_alloc_chunk, yaffs_check_alloc_available, yaffs_calc_checkpt_blocks_required.
  repeat first [apply find_alloc_block_carves|apply set_chunk_bit_carves|progress carve].
Qed.

Lemma skip_rest_carves : within carves yaffs_skip_rest_of_block.
Proof. unfold yaffs_skip_rest_of_block. carve. Qed.

Lemma summary_write_carves wr blk : (∀ chunk data t, within carves (wr chunk data t)) → within carves (yaffs_summary_write wr blk).
Proof.
  intros Hwr. unfold yaffs_summary_write, yaffs_get_temp_buffer, yaffs_release_temp_buffer, summary_write_body.
  repeat first [apply set_chunk_bit_carves|apply Hwr|progress carve].
Qed.

Lemma wr_chunk_tags_carves n chunk data t : within carves (wr_chunk_tags_nand n chunk data t).
Proof.
  revert chunk data t. induction n as [|n IH]; intros chunk data t; cbn [wr_chunk_tags_nand]; [apply within_fail|].
  unfold write_chunk_tags_fn, yaffs_tags_marshall_write, yaffs_tags_compat_wr, yaffs_wr_nand, yaffs_summary_add, yaffs_summary_clear.
  repeat first [apply summary_write_carves; apply IH|apply skip_rest_carves|progress carve].
Qed.

(** ** Allocation *)

Lemma ends_and {A} (m : M A) d (P Q : A → yaffs_dev F → Prop) : ends m d P → ends m d Q → ends m d (λ x d', P x d' ∧ Q x d').
Proof. intros (x & d' & H1 & HP) HQ. exists x, d'. split; [done|]. split; [done|]. by eapply ends_inv. Qed.
Lemma ends_within {A} (R : yaffs_dev F → yaffs_dev F → Prop) (m : M A) d (P : A → yaffs_dev F → Prop) :
  within R m → ends m d P → ends m d (λ x d', P x d' ∧ R d d').
Proof. intros HR (x & d' & H1 & HP). exists x, d'. split; [done|]. split; [done|]. by eapply HR. Qed.

(** The sequence number and the number of erased blocks, which change when a block is opened. *)
Definition counts d : Z * Z := (dev_seq_number (blocks d), n_erased_blocks (blocks d)).

Lemma counts_inv d d' : counts d' = counts d →
  dev_seq_number (blocks d') = dev_seq_number (blocks d) ∧ n_erased_blocks (blocks d') = n_erased_blocks (blocks d).
Proof. unfold counts. intros [=]. done. Qed.

(** The flash is not used and no block is opened. *)
Definition idle d d' : Prop := flash d' = flash d ∧ counts d' = counts d.
#[export] Instance idle_preorder : PreOrder idle.
Proof. split; [done|]. intros d1 d2 d3 [] []. split; congruence. Qed.

Lemma upd_bi_idle blk f : within idle (upd_bi blk f).
Proof. unfold upd_bi, bi_of, upd_blocks. repeat first [match goal with |- idle _ _ => done end|within_step]. Qed.
Lemma bi_of_idle blk : within idle (bi_of blk).
Proof. unfold bi_of. repeat within_step. Qed.
Lemma get_block_info_idle blk : within idle (yaffs_get_block_info blk).
Proof. unfold yaffs_get_block_info. repeat within_step. Qed.
Lemma take_chunk_idle blk page : within idle (take_chunk blk page).
Proof.
  unfold take_chunk, yaffs_set_chunk_bit, yaffs_block_bits, yaffs_verify_chunk_bit_id, bits_byte, set_bits_byte, upd_blocks.
  repeat first [apply upd_bi_idle|apply get_block_info_idle|match goal with |- idle _ _ => done end|within_step].
Qed.
Lemma check_available_run n d : ends (yaffs_check_alloc_available n) d (λ _ d', alike d d').
Proof.
  assert (∃ x d', yaffs_check_alloc_available n d = Ok (x, d') ∧ alike d d') as (x & d' & H & Ha); [|by exists x, d'].
  unfold yaffs_check_alloc_available, yaffs_calc_checkpt_blocks_required. destruct (negb is_yaffs2); prog_simpl; [by do 2 eexists|].
  destruct (_ && _); cbn [when]; prog_simpl; do 2 eexists; (split; [reflexivity|by split]).
Qed.

(** At most one block is opened, which gets the next sequence number. *)
Definition numbered d d' : Prop := flash d' = flash d ∧
  (counts d' = counts d ∨ counts d' = (u32 ((counts d).1 + 1), (counts d).2 - 1)).

Lemma idle_numbered d1 d2 d3 : idle d1 d2 → numbered d2 d3 → numbered d1 d3.
Proof. intros [E1 E2] [H1 H2]. split; [congruence|]. by rewrite <- E2. Qed.
Lemma numbered_idle d1 d2 d3 : numbered d1 d2 → idle d2 d3 → numbered d1 d3.
Proof. intros [H1 H2] [E1 E2]. split; [congruence|]. by rewrite E2. Qed.

Lemma find_alloc_numbered n : within numbered (find_alloc_loop n).
Proof.
  induction n as [|n IH]; intros d x d'; cbn [find_alloc_loop]; [intros [= <- <-]; split; [done|by left]|].
  rewrite !bind_upd_blocks. set (d1 := on_blocks _ (on_blocks _ d)).
  assert (idle d d1) as H1 by (unfold d1; split; [done|]; unfold counts; cbn [on_blocks blocks set_blocks]; by destruct (_ || _)).
  clearbody d1. intros (d1' & d1'' & [= <- <-] & H)%bind_inv.
  apply bind_inv in H as (bi & d2 & H2%get_block_info_idle & H). apply bind_inv in H as (b & d3 & H3%bi_of_idle & H).
  assert (idle d d3) as H03 by exact (transitivity (transitivity H1 H2) H3).
  destruct (decide _) as [_|_]; [|by apply (idle_numbered d d3), (IH d3 x)].
  apply bind_inv in H as (u & d4 & H4%upd_bi_idle & H). rewrite bind_upd_blocks in H.
  apply bind_inv in H as (d5 & d5' & [= <- <-] & H). apply bind_inv in H as (u2 & d6 & H6%upd_bi_idle & H).
  rewrite bind_upd_blocks in H. injection H as <- <-.
  destruct (transitivity H03 H4) as [E1 E2], H6 as [E3 E4]. apply counts_inv in E2 as [E2 E2'], E4 as [E4 E4'].
  cbn [on_blocks blocks set_blocks flash dev_seq_number set_dev_seq_number n_erased_blocks] in E3, E4, E4'.
  split; [cbn; congruence|right]. unfold counts.
  cbn [on_blocks blocks set_blocks dev_seq_number n_erased_blocks set_n_erased_blocks fst snd]. by rewrite E4, E4', E2, E2'.
Qed.

Lemma open_numbered : within numbered open_if_needed.
Proof.
  intros d x d' H. unfold open_if_needed in H. apply bind_inv in H as (d0 & d0' & [= <- <-] & H).
  destruct (_ <? _) in H; cbn [when] in H; [|injection H as <- <-; split; [done|by left]].
  apply bind_inv in H as (blk & d1 & H1 & H). injection H as <- <-. apply (numbered_idle d d1); [|done].
  unfold yaffs_find_alloc_block in H1. apply bind_inv in H1 as (d0 & d0' & [= <- <-] & H1).
  destruct (_ <? _) in H1; [injection H1 as <- <-; split; [done|by left]|]. by eapply find_alloc_numbered.
Qed.

(** What may be written after a block was opened could be written before. *)
Lemma open_blank d : blocks_ok (blocks d) → ends open_if_needed d (λ _ d1, ∀ blk c, in_range blk → 0 ≤ c →
  blank_at (blocks d1) blk c → blank_at (blocks d) blk c).
Proof.
  intros [Hwf _]. unfold open_if_needed. apply ends_bind, ends_get.
  destruct (Z.ltb_spec (alloc_block (blocks d)) 0) as [Ha|Ha]; cbn [when]; [|by apply ends_ret].
  eapply ends_seq; [apply (find_alloc_block_run pd_yaffs2 _ d Hwf)|].
  intros r d1 [(-> & _ & [S1 S2 S3 S4 S5 S6])|(O1 & O2 & O3 & O4 & Hr & x & s & Hx & Hst & Hi)];
    apply ends_bind, ends_upd_blocks, ends_upd_blocks; cbn [on_blocks blocks set_blocks]; intros blk c Hb Hc.
  - intros [(y & Hy & Hyst)|[Hy _]]; [left|cbn in Hy; destruct Hb, Hgeo; lia]. exists y. split; [|done]. unfold info. by rewrite S2.
  - intros [(y & Hy & Hyst)|[Hy _]].
    + left. assert (info (b_bi r (open_info s) (blocks d)) blk = Some y) as Hy'.
      { rewrite <- Hy. unfold info. cbn [set_alloc_page set_alloc_block block_info]. by rewrite Hi. }
      rewrite info_b_bi in Hy' by done. destruct (decide (blk = r)) as [->|_]; [|by exists y].
      rewrite Hx in Hy'. injection Hy' as <-. by exists x.
    + cbn in Hy. subst blk. left. by exists x.
Qed.

Lemma chunk_of_inj blk c blk' c' : 0 ≤ c < chunks_per_block → 0 ≤ c' < chunks_per_block → chunk_of blk c = chunk_of blk' c' → blk = blk' ∧ c = c'.
Proof. intros Hc Hc' E. apply addr_inj; [done..|]. unfold addr. by rewrite E. Qed.

Lemma carves_empty d d' blk x' : carves d d' → info (blocks d') blk = Some x' → block_state x' = YAFFS_BLOCK_STATE_EMPTY →
  ∃ x, info (blocks d) blk = Some x ∧ block_state x = YAFFS_BLOCK_STATE_EMPTY.
Proof.
  intros H Hx Hst. destruct (carves_info _ _ _ _ H Hx) as (x & Hx0 & _ & _ & [E|E]); [exists x; split; [done|congruence]|states].
Qed.

(** Where the chunk comes from that is handed out. *)
Definition taken d (r : Z * option Z) d' : Prop :=
  match r.2 with
  | Some blk => ∃ c, r.1 = chunk_of blk c ∧ 0 ≤ c < chunks_per_block ∧ in_range blk ∧ ∀ c', c ≤ c' → blank_at (blocks d) blk c'
  | None => ∀ blk c, in_range blk → 0 ≤ c → blank_at (blocks d') blk c → blank_at (blocks d) blk c
  end.

Lemma alloc_taken use_reserver d : blocks_ok (blocks d) → ends (yaffs_alloc_chunk use_reserver) d (taken d).
Proof.
  intros Hok. unfold ends. rewrite alloc_chunk_eq. eapply (ends_seq open_if_needed);
    [exact (ends_and _ _ _ _ (open_blank d Hok) (open_if_needed_run pd_yaffs2 d Hok))|]. intros _ d1 [Hb1 (Hok1 & _)].
  apply ends_bind. eapply (ends_mono _ _ (λ _ d', blocks d' = blocks d1)).
  { destruct use_reserver; [by apply ends_ret|]. eapply ends_mono; [apply check_available_run|]. intros x d' H. by apply al_blocks. }
  intros ok d2 E2. destruct ok; cbn [negb]; [|apply ends_ret; unfold taken; cbn; by rewrite E2].
  apply ends_bind, ends_get. destruct (Z.leb_spec 0 (alloc_block (blocks d2))) as [Ha|Ha]; [|apply ends_ret; unfold taken; cbn; by rewrite E2].
  eapply ends_mono; [apply (take_chunk_run pd_yaffs2 d2); [by rewrite E2|lia]|].
  intros r d' (-> & Hr & Hc & _). exists (alloc_page (blocks d2)). split_and!; try done; [lia..|].
  intros c' Hc'. apply Hb1; [done|lia|]. rewrite <- E2. by right.
Qed.

Lemma alloc_numbered use_reserver : within numbered (yaffs_alloc_chunk use_reserver).
Proof.
  intros d r d'. rewrite alloc_chunk_eq. intros (u & d1 & H1%open_numbered & H)%bind_inv. apply (numbered_idle d d1); [done|].
  revert H. apply within_bind; [apply _| |].
  - intros d2 ok d3 H. destruct use_reserver; [by injection H as _ <-|].
    pose proof (ends_inv _ _ _ _ _ (check_available_run 1 d2) H) as Ha. split; [|unfold counts; by rewrite (al_blocks _ _ Ha)].
    unfold yaffs_check_alloc_available, yaffs_calc_checkpt_blocks_required in H. destruct (negb is_yaffs2); autorewrite with prog in H; [by injection H as _ <-|].
    destruct (_ && _); cbn [when] in H; autorewrite with prog in H; by injection H as _ <-.
  - intros ok. destruct (negb ok); repeat first [apply take_chunk_idle|within_step].
Qed.

(** No chunk may be taken without the reserve, or none at all. *)
Definition short d : Prop :=
  (∃ d', yaffs_check_alloc_available 1 d = Ok (false, d')) ∨ alloc_block (blocks d) = -1 ∧ n_erased_blocks (blocks d) < 1.

Lemma check_available_again n d (ok : bool) d' : yaffs_check_alloc_available n d = Ok (ok, d') → ∃ d'', yaffs_check_alloc_available n d' = Ok (ok, d'').
Proof.
  unfold yaffs_check_alloc_available, yaffs_calc_checkpt_blocks_required. destruct (negb is_yaffs2); prog_simpl.
  { intros [= <- <-]. by eexists. }
  set (n_blocks := _ / _ + 3).
  destruct (checkpoint_blocks_required d =? 0) eqn:E1, yaffs2_checkpt_required eqn:E2; cbn [andb when]; prog_simpl; intros [= <- <-];
    cbn [checkpoint_blocks_required set_checkpoint_blocks_required blocks_in_checkpt blocks]; rewrite ?E1; cbn [andb when];
    try (eexists; prog_simpl; reflexivity).
  destruct (n_blocks =? 0); cbn [andb when]; prog_simpl; eexists; reflexivity.
Qed.

(** Without the reserve there may be no chunk. *)
Lemma alloc_short d : blocks_ok (blocks d) → ends (yaffs_alloc_chunk false) d (λ r d', r.1 < 0 → short d').
Proof.
  intros Hok. unfold ends. rewrite alloc_chunk_eq. eapply (ends_seq open_if_needed);
    [exact (ends_within _ _ _ _ open_numbered (open_if_needed_run pd_yaffs2 d Hok))|]. intros _ d1 [(Hok1 & _ & _ & _ & Hno & _) [_ Hn]].
  apply ends_bind. destruct (check_available_run 1 d1) as (ok & d2 & H2 & Hal). exists ok, d2. split; [exact H2|].
  pose proof (al_blocks _ _ Hal) as E2. destruct ok; cbn [negb].
  - apply ends_bind, ends_get. destruct (Z.leb_spec 0 (alloc_block (blocks d2))) as [Ha|Ha].
    + eapply ends_mono; [apply (take_chunk_run pd_yaffs2 d2); [by rewrite E2|lia]|]. intros r d' (-> & Hr & Hc & _). cbn [fst].
      intros Hneg. destruct (chunk_of_u32 pd_yaffs2 _ _ Hr Hc). lia.
    + apply ends_ret. intros _. right. rewrite E2 in *. pose proof (alloc_block_sign pd_yaffs2 _ _ _ (proj1 Hok1)) as Hsign.
      assert (alloc_block (blocks d1) = -1) as E by (apply Hsign; lia). split; [done|]. destruct (Hno E) as [_ Hlt]. unfold counts in Hn.
      destruct Hn as [Hn|Hn]; injection Hn as _ ->; cbn; lia.
  - apply ends_ret. intros _. left. by eapply check_available_again.
Qed.

(** [yaffs_alloc_chunk] hands out a chunk that is erased. *)
Lemma alloc_run use_reserver d : blocks_ok (blocks d) → ends (yaffs_alloc_chunk use_reserver) d (λ r d',
  numbered d d' ∧ carves d d' ∧ (∀ blk c, in_range blk → 0 ≤ c → blank_at (blocks d') blk c → blank_at (blocks d) blk c) ∧
  ((∃ blk c, r = (chunk_of blk c, Some blk) ∧ allocated d d' blk c ∧ ∀ c', c ≤ c' → blank_at (blocks d) blk c') ∨
   (r = (-1, None) ∧ not_allocated use_reserver d d' ∧ (use_reserver = false → short d')))).
Proof.
  intros Hok. pose proof (ends_and _ _ _ _ (alloc_chunk_run pd_yaffs2 use_reserver d Hok) (alloc_taken use_reserver d Hok)) as H.
  apply (ends_within _ _ _ _ (alloc_chunk_carves use_reserver)), (ends_within _ _ _ _ (alloc_numbered use_reserver)) in H.
  destruct H as (r & d' & Hrun & [[Hr Ht] Hca] & Hn). exists r, d'. split; [done|]. split; [done|]. split; [done|].
  destruct Hr as [(blk & c & -> & Hal)|[-> Hna]].
  2: { split; [exact Ht|right; split; [done|]; split; [done|]]. intros ->. by apply (ends_inv _ _ _ _ _ (alloc_short d Hok) Hrun). }
  destruct Ht as (c' & Ec & Hc' & Hb & Hblank). cbn in Ec. pose proof (al_chunk _ _ _ _ Hal) as Hc.
  destruct (chunk_of_inj _ _ _ _ Hc Hc' Ec) as [_ <-]. split; [|left; by exists blk, c].
  intros blk' c' Hb' Hc0 [(x & Hx & Hst)|[Ea Hp]]; [left; by eapply carves_empty|].
  destruct (decide (c + 1 = chunks_per_block)) as [E|E].
  - rewrite (al_last _ _ _ _ Hal E) in Ea. destruct Hb', Hgeo. lia.
  - destruct (al_more _ _ _ _ Hal ltac:(lia)) as [Ea' Ep']. rewrite <- Ea, Ea'. apply Hblank. lia.
Qed.

(** ** Writing *)

(** Only the chunks of a block from [c] on are written. *)
Definition spills (blk c : Z) d d' : Prop := counts d' = counts d ∧
  ∀ k, (∀ c', c ≤ c' < chunks_per_block → k ≠ addr blk c') → content (flash d') k = content (flash d) k.

#[export] Instance spills_preorder blk c : PreOrder (spills blk c).
Proof. split; [done|]. intros d1 d2 d3 [H1 H2] [G1 G2]. split; [congruence|]. intros k Hk. by rewrite G2, H2. Qed.
Lemma spills_le blk c c1 d d' : c1 ≤ c → spills blk c d d' → spills blk c1 d d'.
Proof. intros Hle [H1 H2]. split; [done|]. intros k Hk. apply H2. intros c' Hc'. apply Hk. lia. Qed.
Lemma idle_spills blk c d d' : idle d d' → spills blk c d d'.
Proof. intros [H1 H2]. split; [done|]. intros k _. by rewrite H1. Qed.

Definition clear_from (blk c : Z) d : Prop := ∀ c', c ≤ c' < chunks_per_block → content (flash d) (addr blk c') = None.

Lemma spills_clear blk c d d' : 0 ≤ c → spills blk c d d' → ∀ c', 0 ≤ c' < c → c ≤ chunks_per_block → content (flash d') (addr blk c') = content (flash d) (addr blk c').
Proof. intros Hc0 [_ H] c' Hc' Hle. apply H. intros c1 Hc1 E. apply addr_inj in E as [_ E]; lia. Qed.

(** A program of the driver's writes one chunk. *)
Definition puts (blk c : Z) (p : page) d d' : Prop := blocks d' = blocks d ∧ sum_tags d' = sum_tags d ∧
  ∀ k, content (flash d') k = if decide (k = addr blk c) then p else content (flash d) k.

Lemma puts_spills blk c p d d' : 0 ≤ c < chunks_per_block → puts blk c p d d' → spills blk c d d'.
Proof. intros Hc (H1 & H2 & H3). split; [unfold counts; by rewrite H1|]. intros k Hk. rewrite H3, decide_False; [done|]. apply Hk. lia. Qed.
Lemma puts_clear blk c p d d' : 0 ≤ c → puts blk c p d d' → clear_from blk c d → clear_from blk (c + 1) d'.
Proof.
  intros Hc0 (_ & _ & H) Hc c' Hc'. rewrite H, decide_False; [apply Hc; lia|]. intros E. apply addr_inj in E as [_ E]; lia.
Qed.

Lemma write_puts d blk c l t : tags2_ok t → content (flash d) (addr blk c) = None →
  ends (write_chunk_tags_fn (apply_chunk_offset (chunk_of blk c)) (Some l) t) d (λ r d',
    r = YAFFS_OK ∧ ∃ oob, tags_image t = Some oob ∧ puts blk c (Some (l, oob)) d d').
Proof.
  intros Ht Hc. destruct (write_tags_run pd_yaffs2 pd_inband d (addr blk c) l t Ht Hc) as (f' & oob & Him & Hf & Hrun).
  exists YAFFS_OK, (set_flash f' d). split; [exact Hrun|]. split; [done|]. by exists oob.
Qed.

Lemma write_body_eq n chunk l t d : wr_chunk_tags_nand (S n) chunk (Some l) t d =
  (bump N_page_writes;; d ← get;
   result ← write_chunk_tags_fn (apply_chunk_offset chunk) (Some l) (tags_for_write (dev_seq_number (blocks d)) t);
   _ ← yaffs_summary_add (wr_chunk_tags_nand n) (tags_for_write (dev_seq_number (blocks d)) t) chunk;
   mret result) d.
Proof. done. Qed.

(** A chunk of a summary. *)
Lemma wr_summary_chunk_run d blk c l t : in_range blk → 0 ≤ c < chunks_per_block → chunks_per_summary ≤ c →
  content (flash d) (addr blk c) = None → tags2_ok (tags_for_write (dev_seq_number (blocks d)) t) →
  ends (wr_chunk_tags_nand 1 (chunk_of blk c) (Some l) t) d (λ r d', r = YAFFS_OK ∧ ∃ p, puts blk c p d d').
Proof.
  intros Hr Hc Hcs Hn Ht. unfold ends. rewrite write_body_eq. apply (ends_bind (bump N_page_writes)), ends_modify, ends_bind, ends_get.
  cbn [blocks set_stats]. eapply ends_seq; [by apply write_puts|]. intros r d2 [-> (oob & _ & Hp)].
  apply ends_bind. unfold yaffs_summary_add. destruct (chunk_of_div pd_yaffs2 blk c Hr Hc) as [_ ->]. apply ends_bind, ends_get.
  assert (∃ p, puts blk c p d d2) as HQ by (by eexists).
  destruct (sum_tags d2); [|by do 2 apply ends_ret]. destruct (Z.leb_spec 0 c), (Z.ltb_spec c chunks_per_summary); try lia.
  by do 2 apply ends_ret.
Qed.

Definition numbers_ok d : Prop := 0 ≤ dev_seq_number (blocks d) < 0xffffffff.

Lemma summary_tags_ok s chunk n : 0 ≤ s < 0xffffffff → in_u 31 chunk → in_u 32 n →
  tags2_ok (tags_for_write s (mk_ext_tags 0 YAFFS_OBJECTID_SUMMARY chunk n YAFFS_ECC_RESULT_UNKNOWN 0 0 0 0 0 0 0 0 0 0 0)).
Proof. intros Hs Hc Hn. split; cbn; unfold in_u in *; try done; lia. Qed.

(** One round of the writing of a summary. *)
Lemma summary_body_spills blk hdr buf rest c k d :
  zlen buf = total_bytes_per_chunk → zlen hdr = 16 → in_range blk → 0 ≤ c < chunks_per_block → chunks_per_summary ≤ c →
  0 < zlen rest → numbers_ok d → in_u 31 k → clear_from blk c d → shape (blocks d) →
  ends (summary_write_body (wr_chunk_tags_nand 1) blk hdr (buf, rest, chunk_of blk c, c, k)) d (λ r d',
    spills blk c d d' ∧ clear_from blk (c + 1) d').
Proof.
  intros Hlb Hhdr Hr Hc Hcs Hrest Hnum Hk Hcl Hsh. unfold summary_write_body. pose proof bo_data as Hd0. pose proof bo_total as Ht0.
  rewrite pd_inband in Ht0. pose proof pd_size as Hsz.
  set (this_tx := Z.min (zlen rest) (data_bytes_per_chunk - 16)).
  destruct (overlay_Some buf hdr 0) as (b1 & -> & Hb1); [lia|lia|]. apply ends_bind, ends_ret.
  destruct (overlay_Some b1 (take (Z.to_nat this_tx) rest) 16) as (b2 & -> & Hb2); [lia|rewrite length_take; lia|]. apply ends_bind, ends_ret.
  eapply ends_seq; [apply wr_summary_chunk_run; try done; [apply Hcl; lia|apply summary_tags_ok; try done; unfold in_u, this_tx; lia]|].
  intros r d1 [-> (p & Hp)]. cbn [negb Z.eqb YAFFS_OK Pos.eqb].
  assert (shape (blocks d1)) as Hsh1 by (by rewrite (proj1 Hp)).
  apply ends_bind. eexists (), _. split; [apply set_chunk_bit_run; try done; by apply shape_bits|].
  apply ends_bind, (ends_upd_bi pd_yaffs2); [by apply shape_b_bit|done|]. apply ends_bind, ends_upd_blocks, ends_ret.
  split; [etrans; [by eapply puts_spills|by apply idle_spills]|]. by eapply (puts_clear _ _ _ d d1); [lia|..].
Qed.

Lemma summary_loop_spills n : ∀ blk hdr buf rest c k q d, zlen buf = total_bytes_per_chunk → zlen hdr = 16 →
  blocks_wf q 0 (blocks d) → alloc_block (blocks d) = blk → in_range blk → q ≤ c → 0 ≤ c → chunks_per_summary ≤ c →
  0 < zlen rest → (length rest < n)%nat → zlen rest ≤ (chunks_per_block - c) * (data_bytes_per_chunk - 16) →
  numbers_ok d → 0 ≤ k ≤ c + 1 → clear_from blk c d →
  ends (loop n (summary_write_body (wr_chunk_tags_nand 1) blk hdr) (buf, rest, chunk_of blk c, c, k)) d (λ _ d', spills blk c d d').
Proof.
  induction n as [|n IH]; intros blk hdr buf rest c k q d Hb Hh Hwf Ha Hr Hq Hc0 Hcs Hrest Hn Hroom Hnum Hk Hcl; [lia|].
  pose proof bo_data. assert (c < chunks_per_block) as Hc by nia. pose proof Hgeo as [_ _ Hcpb _ _].
  destruct (ends_and _ _ _ _ (summary_write_body_run pd_yaffs2 blk hdr buf rest c k q d Hb Hh Hwf Ha Hr Hq Hc0 Hcs Hrest Hroom)
    (summary_body_spills blk hdr buf rest c k d Hb Hh Hr ltac:(lia) Hcs Hrest Hnum ltac:(unfold in_u; lia) Hcl (wf_shape _ _ _ Hwf)))
    as (r & d1 & H1 & (Hg1 & Ha1 & Hr1) & Hs1 & Hcl1).
  destruct r as [v|x].
  - destruct Hr1 as (b' & rest' & -> & Hb' & Hwf' & Hp' & Hl' & Hroom'). unfold ends. rewrite (loop_next _ _ _ _ _ _ H1).
    eapply ends_mono; [apply (IH blk hdr b' rest' (c + 1) (k + 1) (c + 1) d1); try done; [congruence|lia..| |lia]|].
    { unfold numbers_ok. by rewrite (proj1 (counts_inv _ _ (proj1 Hs1))). }
    intros y d2 H2. etrans; [done|]. apply (spills_le blk (c + 1)); [lia|done].
  - unfold ends. rewrite (loop_exit _ _ _ _ _ _ H1). by exists x, d1.
Qed.

Lemma alike_spills blk c d d' : alike d d' → spills blk c d d'.
Proof. intros H. split; [unfold counts; by rewrite (al_blocks _ _ H)|]. intros k _. by rewrite (al_content _ _ H). Qed.
Lemma skip_rest_idle : within idle yaffs_skip_rest_of_block.
Proof.
  unfold yaffs_skip_rest_of_block, upd_blocks.
  repeat first [apply upd_bi_idle|apply bi_of_idle|apply get_block_info_idle|match goal with |- idle _ _ => done end|within_step].
Qed.
Lemma summary_clear_idle : within idle yaffs_summary_clear.
Proof. unfold yaffs_summary_clear. repeat first [match goal with |- idle _ _ => done end|within_step]. Qed.

(** [yaffs_summary_write] writes chunks after those that it covers. *)
Lemma summary_write_spills blk q d : blocks_wf q 0 (blocks d) → alloc_block (blocks d) = blk → in_range blk →
  q ≤ chunks_per_summary → sum_ok d → is_Some (sum_tags d) → numbers_ok d → clear_from blk chunks_per_summary d →
  ends (yaffs_summary_write (wr_chunk_tags_nand 1) blk) d (λ _ d', spills blk chunks_per_summary d d').
Proof.
  intros Hwf Ha Hr Hq Hsum [l Hl] Hnum Hcl. unfold sum_ok in Hsum. rewrite Hl in Hsum. destruct Hsum as (Hlen & Hcs & Hroom).
  unfold yaffs_summary_write. apply ends_bind, (ends_get_block_info pd_yaffs2); [done|].
  eapply ends_seq; [apply get_temp_run|]. intros buffer d1 Hal.
  pose proof (al_blocks _ _ Hal) as Eb. apply ends_bind, ends_get. rewrite (al_tags _ _ Hal), Hl. apply ends_bind, ends_ret.
  destruct (in_range_info (blocks d1) blk) as [x Hx]; [rewrite Eb; apply Hwf|done|].
  apply ends_bind, (ends_bi_of pd_yaffs2 blk d1 x); [done..|]. rewrite Eb, Ha. fold (chunk_of blk chunks_per_summary).
  pose proof (summary_bytes_length l) as Hsb.
  eapply (ends_seq _ _ _ (λ _ d', spills blk chunks_per_summary d1 d' ∧ ∃ q', blocks_wf q' 0 (blocks d'))).
  { apply (ends_and _ _ (λ _ d', spills blk chunks_per_summary d1 d') (λ _ d', ∃ q', blocks_wf q' 0 (blocks d'))); [|eapply ends_mono].
    - apply (summary_loop_spills _ blk _ _ _ _ _ q); rewrite ?Eb; try done; [apply bo_temp|lia..|unfold numbers_ok; by rewrite Eb|lia|].
      intros c' Hc'. rewrite (al_content _ _ Hal). by apply Hcl.
    - apply (summary_write_loop_run pd_yaffs2 _ blk _ _ _ _ _ q); rewrite ?Eb; try done; [apply bo_temp|lia..].
    - intros r d' (_ & _ & Hq'). exact Hq'. }
  intros result d2 [Hs2 (q' & Hwf2)].
  eapply ends_seq; [apply release_temp_run|]. intros u d3 Hal3.
  assert (spills blk chunks_per_summary d d3) as Hs3.
  { etrans; [exact (alike_spills _ _ _ _ Hal)|]. etrans; [exact Hs2|exact (alike_spills _ _ _ _ Hal3)]. }
  apply ends_bind, ends_when; [intros _; apply (ends_upd_bi pd_yaffs2); [rewrite (al_blocks _ _ Hal3); apply Hwf2|done|]|intros _]; by apply ends_ret.
Qed.

(** What is left of the block after a chunk of it was written. *)
Definition spilt (blk c : Z) d d' : Prop := spills blk c d d' ∧
  (alloc_block (blocks d') = -1 ∨ blocks d' = blocks d ∧ content (flash d') = content (flash d)).

Lemma summary_add_spilt blk c t d : in_hand blk c d → numbers_ok d → clear_from blk (c + 1) d →
  ends (yaffs_summary_add (wr_chunk_tags_nand 1) t (chunk_of blk c)) d (λ _ d', spilt blk (c + 1) d d').
Proof.
  intros (Hr & Hc & [Hwf Hpg] & Hsum & Hopen & Hclosed) Hnum Hcl. unfold yaffs_summary_add.
  destruct (chunk_of_div pd_yaffs2 blk c Hr Hc) as [-> ->].
  assert (∀ d', blocks d' = blocks d → flash d' = flash d → spilt blk (c + 1) d d') as Hsame.
  { intros d' E1 E2. split; [by apply idle_spills; split; unfold counts; rewrite ?E1|right; by rewrite E2]. }
  apply ends_bind, ends_get. destruct (sum_tags d) as [l|] eqn:Hl; [|by apply ends_ret, Hsame].
  pose proof Hsum as Hsum'. unfold sum_ok in Hsum'. rewrite Hl in Hsum'. destruct Hsum' as (Hlen & Hcs & Hroom). pose proof bo_data.
  destruct (Z.leb_spec 0 c), (Z.ltb_spec c chunks_per_summary); cbn [andb]; try by apply ends_ret, Hsame.
  rewrite zset_Some by lia. apply ends_bind, ends_ret, ends_bind, ends_modify.
  assert (chunks_per_summary < chunks_per_block) as Hlt by nia.
  assert (alloc_block (blocks d) ≠ -1) as Hne by (intros E; specialize (Hclosed E); lia).
  destruct (Hopen Hne) as [Ha Hp]. rewrite Hp in Hwf.
  match goal with |- ends _ ?d1 _ => set (d1' := d1) end.
  assert (sum_ok d1') as Hsum1 by (unfold sum_ok, d1'; cbn; by rewrite length_insert).
  apply ends_bind, ends_when; [|intros _; by apply ends_ret, Hsame].
  intros Hlast%Z.eqb_eq. replace (c + 1) with chunks_per_summary in * by lia.
  eapply (ends_seq _ _ _ (λ _ d', spills blk chunks_per_summary d1' d' ∧ ∃ q', blocks_wf q' 0 (blocks d'))).
  { apply (ends_and _ _ (λ _ d', spills blk chunks_per_summary d1' d') (λ _ d', ∃ q', blocks_wf q' 0 (blocks d'))); [by apply (summary_write_spills blk chunks_per_summary d1')|].
    eapply ends_mono; [by apply (summary_write_run pd_yaffs2 blk chunks_per_summary d1')|]. intros x d' (_ & _ & Hq). exact Hq. }
  intros _ d2 [Hs2 (q & Hwf2)]. eapply ends_seq; [eapply ends_within; [apply summary_clear_idle|apply (summary_clear_run pd_yaffs2)]|].
  intros _ d3 [[_ Hb3] Hid3].
  eapply ends_mono; [eapply ends_within; [apply skip_rest_idle|apply (skip_rest_run pd_yaffs2 q 0); by rewrite Hb3]|]. intros [] d4 [Hclo Hid4].
  apply ends_ret. split; [|left; apply Hclo]. etrans; [exact Hs2|apply idle_spills; by etrans].
Qed.

(** [yaffs_wr_chunk_tags_nand] on an erased chunk that was handed out. *)
Record writes (blk c : Z) (l : list Z) (t : yaffs_ext_tags) d d' : Prop := mk_writes {
  ws_image : ∃ oob, tags_image t = Some oob ∧ content (flash d') (addr blk c) = Some (l, oob);
  ws_spills : spills blk c d d';
  ws_left : alloc_block (blocks d') = -1 ∨ blocks d' = blocks d ∧ clear_from blk (c + 1) d';
  ws_carves : carves d d';
  ws_grows : grows d d';
  ws_ok : blocks_ok (blocks d')
}.

Lemma wr_chunk_run blk c l t d : in_hand blk c d → zlen l = total_bytes_per_chunk → numbers_ok d → clear_from blk c d →
  tags2_ok (tags_for_write (dev_seq_number (blocks d)) t) →
  ends (yaffs_wr_chunk_tags_nand (chunk_of blk c) (Some l) t) d (λ r d',
    r = YAFFS_OK ∧ writes blk c l (tags_for_write (dev_seq_number (blocks d)) t) d d').
Proof.
  intros Hin Hl Hnum Hcl Ht. set (t' := tags_for_write (dev_seq_number (blocks d)) t) in *.
  assert (ends (yaffs_wr_chunk_tags_nand (chunk_of blk c) (Some l) t) d (λ r d', r = YAFFS_OK ∧
    ∃ d2 oob, tags_image t' = Some oob ∧ puts blk c (Some (l, oob)) d d2 ∧ clear_from blk (c + 1) d2 ∧ spilt blk (c + 1) d2 d')) as Hrun.
  { pose proof Hin as (Hr & Hc & Hok & Hsum & Hopen & Hclosed).
    unfold yaffs_wr_chunk_tags_nand, ends. rewrite write_body_eq. apply (ends_bind (bump N_page_writes)), ends_modify, ends_bind, ends_get.
    cbn [blocks set_stats]. eapply ends_seq; [apply write_puts; [done|apply Hcl; lia]|]. intros r d2 [-> (oob & Him & Hp)].
    assert (clear_from blk (c + 1) d2) as Hcl2 by (eapply (puts_clear _ _ _ d); [lia|exact Hp|done]).
    apply ends_bind. eapply ends_mono; [apply summary_add_spilt; [|by unfold numbers_ok; rewrite (proj1 Hp)|done]|].
    { unfold in_hand. destruct Hp as (-> & Hs & _). unfold sum_ok. rewrite Hs. exact Hin. }
    intros x d3 H3. apply ends_ret. split; [done|]. by exists d2, oob. }
  apply (ends_within _ _ _ _ (wr_chunk_tags_carves 2 _ _ _)) in Hrun.
  eapply ends_mono; [exact (ends_and _ _ _ _ Hrun (wr_chunk_tags_run pd_yaffs2 blk c l t d Hin Hl))|].
  intros r d' [[[-> (d2 & oob & Him & Hp & Hcl2 & Hsp & Hleft)] Hca] (_ & Hg & Hok & _)]. split; [done|].
  pose proof Hin as (Hr & Hc & _). split; [|etrans; [by eapply puts_spills|by apply (spills_le _ (c + 1)); [lia|]]| |done|done|done].
  - exists oob. split; [done|]. rewrite (spills_clear blk (c + 1) d2 d') by (done || lia). destruct Hp as (_ & _ & Hp).
    by rewrite Hp, decide_True.
  - destruct Hleft as [?|[E1 E2]]; [by left|right]. split; [rewrite E1; apply Hp|]. intros c' Hc'. rewrite E2. by apply Hcl2.
Qed.

(** Changes that do not matter here: of buffers, counters and the marks of a block. *)
Record calm d d' : Prop := mk_calm {
  cm_quiet : quiet d d';
  cm_content : content (flash d') = content (flash d);
  cm_carves : carves d d'
}.
#[export] Instance store_quiet_equiv : Equivalence quiet := quiet_equiv pd_yaffs2.
#[export] Instance calm_preorder : PreOrder calm.
Proof.
  split; [intros d; split; done || reflexivity|]. intros d1 d2 d3 [H1 H2 H3] [G1 G2 G3]. split; [by etrans|congruence|by etrans].
Qed.

Lemma alike_calm d d' : alike d d' → calm d d'.
Proof. intros H. split; [by apply alike_quiet|apply H|by apply alike_carves]. Qed.

Lemma upd_bi_calm blk f d : shape (blocks d) → in_range blk → (∀ x, acct (f x) = acct x ∧ needs_retiring (f x) = needs_retiring x) →
  ends (upd_bi blk f) d (λ _ d', calm d d').
Proof.
  intros Hs Hr Hf. assert (∀ x, info_le x (f x)) as Hle.
  { intros x. destruct (Hf x) as [E1 E2]. unfold acct in E1. injection E1 as Es _ Est _ _. split_and!; [done|done|by left]. }
  eapply ends_mono; [eapply ends_within; [exact (upd_bi_carves blk f Hle)|]|].
  { apply (ends_upd_bi pd_yaffs2 blk f d (λ _ d', d' = on_blocks (b_bi blk f) d)); done. }
  intros u d' [-> Hca]. split; [|done|done]. split; [|done]. apply b_bi_acct. intros x. apply Hf.
Qed.

Lemma quiet_state d d' blk x : quiet d d' → info (blocks d) blk = Some x →
  ∃ y, info (blocks d') blk = Some y ∧ block_state y = block_state x.
Proof.
  intros [H _] Hx. symmetry in H. destruct (acct_eq_info_Some _ _ _ _ H Hx) as (y & Hy & E). exists y. split; [done|].
  by apply acct_state.
Qed.

Lemma quiet_blank d d' blk c : quiet d d' → blank_at (blocks d') blk c → blank_at (blocks d) blk c.
Proof.
  intros H [(x & Hx & Hst)|[Ha Hp]].
  - left. symmetry in H. destruct (quiet_state d' d blk x H Hx) as (y & Hy & E). exists y. split; [done|congruence].
  - right. destruct H as [H _]. by rewrite (ae_alloc _ _ H), (ae_page _ _ H).
Qed.

Lemma calm_sound d d' : calm d d' → sound d → sound d'.
Proof.
  intros [Hq Hc Hca] [S1 S2 S3 S4 S5]. pose proof Hq as [Hae Hs]. split.
  - by rewrite <- Hae.
  - by apply (sum_ok_eq d).
  - intros blk x Hr Hx. destruct (carves_info _ _ _ _ Hca Hx) as (y & Hy & -> & -> & _). by eapply S3.
  - by rewrite <- (ae_seq _ _ Hae).
  - intros blk c Hr Hc' Hb. rewrite Hc. apply S5; [done..|]. by apply (quiet_blank d d').
Qed.

Lemma calm_live d d' blk c : calm d d' → live d blk c → live d' blk c.
Proof.
  intros [Hq Hc Hca] [L1 L2 L3 (x & Hx & Hst)]. split; [done|done|by rewrite <- (acct_eq_bit _ _ (proj1 Hq))|].
  destruct (quiet_state d d' blk x Hq Hx) as (y & Hy & E). exists y. by rewrite E.
Qed.

Lemma calm_stays d d' blk c : calm d d' → live d blk c → stays d d' blk c.
Proof. intros H L. split; [by apply (calm_live d)|by rewrite (cm_content _ _ H)]. Qed.

(** What may be written is not in use. *)
Lemma blank_not_live d blk c : blocks_ok (blocks d) → live d blk c → ¬ blank_at (blocks d) blk c.
Proof.
  intros [Hwf _] [L1 L2 L3 (x & Hx & Hst)] [(y & Hy & Hyst)|[Ha Hp]].
  - rewrite Hx in Hy. injection Hy as <-. unfold data_states in Hst. states.
  - destruct (wf_alloc _ _ _ Hwf) as [E|[_ _ _ Hf]]; [destruct L1, Hgeo; lia|]. rewrite Ha in Hf. rewrite Hf in L3 by lia. done.
Qed.

(** ** A new chunk *)

(** The chunk [chunk] was not in use and holds [l] and [t] now; nothing else has changed. *)
Definition added (l : list Z) (t : yaffs_ext_tags) (chunk : Z) d d' : Prop := ∃ blk c oob,
  chunk = chunk_of blk c ∧ ¬ live d blk c ∧ live d' blk c ∧
  tags_image t = Some oob ∧ content (flash d') (addr blk c) = Some (l, oob).

(** A chunk that was handed out and has not been written. *)
Record handed (blk c : Z) d d4 : Prop := mk_handed {
  hd_sound : sound d;
  hd_blank : ∀ c', c ≤ c' → blank_at (blocks d) blk c';
  hd_alloc : ∃ d1, allocated d d1 blk c ∧ calm d1 d4;
  hd_content : content (flash d4) = content (flash d);
  hd_carves : carves d d4;
  hd_numbers : numbers_ok d4
}.

Lemma handed_in_hand blk c d d4 : handed blk c d d4 → in_hand blk c d4.
Proof.
  intros [Hso _ (d1 & Hal & Hcm) _ _ _]. pose proof Hal as [A1 A2 A3 A4 A5 A6 A7 A8 A9 A10 A11].
  destruct (cm_quiet _ _ Hcm) as [Hae Hs]. split; [done|]. split; [done|]. split; [by rewrite <- Hae|].
  split; [apply (sum_ok_eq d); [congruence|apply Hso]|]. rewrite <- (ae_alloc _ _ Hae), <- (ae_page _ _ Hae). split.
  - intros Hne. apply A8. destruct (decide (c + 1 = chunks_per_block)); [by rewrite A9 in Hne|lia].
  - intros He. destruct (decide (c + 1 = chunks_per_block)); [done|]. destruct A8 as [E _]; [lia|]. destruct A1, Hgeo. lia.
Qed.

Lemma handed_clear blk c d d4 : handed blk c d d4 → clear_from blk c d4.
Proof.
  intros [Hso Hb (d1 & Hal & _) Hc _ _] c' Hc'. rewrite Hc. apply Hso; [apply Hal|pose proof (al_chunk _ _ _ _ Hal); lia|].
  apply Hb. lia.
Qed.

Section written.
Variables (blk c : Z) (l : list Z) (t : yaffs_ext_tags) (d d4 d5 : yaffs_dev F).
Hypothesis (Hh : handed blk c d d4) (Hw : writes blk c l t d4 d5).

Lemma written_carves : carves d d5.
Proof. etrans; [apply Hh|apply Hw]. Qed.

Lemma written_bits blk' c' : in_range blk' → 0 ≤ c' < chunks_per_block → bit_at (blocks d) blk' c' = true → bit_at (blocks d5) blk' c' = true.
Proof.
  intros Hr Hc Hbit. destruct Hh as [_ _ (d1 & Hal & Hcm) _ _ _]. apply (gr_bits _ _ (ws_grows _ _ _ _ _ _ Hw)); [done..|].
  rewrite <- (acct_eq_bit _ _ (proj1 (cm_quiet _ _ Hcm))), (al_bits _ _ _ _ Hal) by done. by destruct (decide _).
Qed.

Lemma written_live : live d5 blk c.
Proof.
  destruct Hh as [_ _ (d1 & Hal & Hcm) _ _ _]. pose proof (al_ready _ _ _ _ Hal) as Hd. rewrite (proj1 (cm_quiet _ _ Hcm)) in Hd.
  destruct Hd as [Hbit (x & Hx & _ & Hst)]. split; [apply Hal|apply Hal| |].
  - apply (gr_bits _ _ (ws_grows _ _ _ _ _ _ Hw)); [apply Hal|apply Hal|done].
  - eapply (carves_state d4 d5); [apply Hw|]. by exists x.
Qed.

Lemma written_stays blk' c' : live d blk' c' → stays d d5 blk' c'.
Proof.
  intros L. pose proof L as [L1 L2 L3 L4]. split.
  - split; [done|done|by apply written_bits|]. eapply (carves_state d d5); [apply written_carves|done].
  - rewrite <- (hd_content _ _ _ _ Hh). apply (proj2 (ws_spills _ _ _ _ _ _ Hw)). intros c1 Hc1 E. apply addr_inj in E as [-> ->].
    + apply (blank_not_live d blk c1 (so_ok _ (hd_sound _ _ _ _ Hh)) L). apply Hh. lia.
    + done.
    + destruct Hh as [_ _ (d1 & Hal & _) _ _ _]. pose proof (al_chunk _ _ _ _ Hal). lia.
Qed.

Lemma written_sound : sound d5.
Proof.
  pose proof Hh as [Hso Hb (d1 & Hal & Hcm) Hc4 Hca4 Hnum]. pose proof (al_chunk _ _ _ _ Hal) as Hc. split.
  - apply Hw.
  - eapply sum_ok_grows; [apply Hw|apply (handed_in_hand blk c d d4 Hh)].
  - intros b x Hr Hx. destruct (carves_info _ _ _ _ written_carves Hx) as (y & Hy & -> & -> & _). by eapply Hso.
  - rewrite (proj1 (counts_inv _ _ (proj1 (ws_spills _ _ _ _ _ _ Hw)))). unfold numbers_ok in Hnum. unfold in_u. lia.
  - intros b c' Hr Hc' [(x & Hx & Hst)|[Ha Hp]].
    + rewrite (proj2 (ws_spills _ _ _ _ _ _ Hw)).
      * rewrite Hc4. apply Hso; [done..|]. left. by eapply carves_empty; [apply written_carves|..].
      * intros c1 Hc1 E. apply addr_inj in E as [-> ->]; [|done|lia]. destruct (lv_state _ _ _ written_live) as (z & Hz & Hzst).
        rewrite Hz in Hx. injection Hx as ->. unfold data_states in Hzst. states.
    + destruct (ws_left _ _ _ _ _ _ Hw) as [E|[Eb Hcl]]; [rewrite E in Ha; destruct Hr, Hgeo; lia|].
      rewrite Eb in Ha, Hp. destruct (cm_quiet _ _ Hcm) as [Hae _]. rewrite <- (ae_alloc _ _ Hae) in Ha. rewrite <- (ae_page _ _ Hae) in Hp.
      destruct (decide (c + 1 = chunks_per_block)) as [E|]; [rewrite (al_last _ _ _ _ Hal E) in Ha; destruct Hr, Hgeo; lia|].
      destruct (al_more _ _ _ _ Hal ltac:(lia)) as [Ea Ep]. rewrite <- Ha, Ea. apply Hcl. lia.
Qed.
End written.

(** The result of a round that writes the chunk. *)
Lemma write_in_hand_good blk c l t t0 d d4 erased a : handed blk c d d4 → zlen l = total_bytes_per_chunk →
  let t' := tags_for_write (dev_seq_number (blocks d4)) t in
  tags2_ok t' → same_ids t' (tags2_stored YAFFS_ECC_RESULT_NO_ERROR t') →
  ends (write_in_hand t0 l t (chunk_of blk c) blk erased a) d4 (λ r d', r = inr (chunk_of blk c, a, 1) ∧ sound d' ∧
    added l t' (chunk_of blk c) d d' ∧ counts d' = counts d4 ∧
    ∀ blk' c', live d blk' c' → stays d d' blk' c').
Proof.
  intros Hh Hl t' Ht Hid. pose proof (handed_in_hand _ _ _ _ Hh) as Hin. pose proof (handed_clear _ _ _ _ Hh) as Hcl.
  pose proof Hin as (Hr & Hc & _). unfold write_in_hand.
  eapply ends_seq; [by apply (wr_chunk_run blk c l t d4); [..|apply Hh|done|done]|]. intros w d5 [-> Hw].
  pose proof (ws_ok _ _ _ _ _ _ Hw) as [Hwf5 _]. pose proof (proj1 (ws_spills _ _ _ _ _ _ Hw)) as Hcnt5. destruct (counts_inv _ _ Hcnt5) as [Hseq5 _].
  destruct (in_range_info (blocks d5) blk (wf_shape _ _ _ Hwf5) Hr) as [x Hx].
  apply ends_bind, (ends_bi_of pd_yaffs2 blk d5 x); [done..|].
  destruct (ws_image _ _ _ _ _ _ Hw) as (oob & Him & Hcont).
  eapply (ends_seq _ _ _ (λ w d', w = YAFFS_OK ∧ calm d5 d')).
  { destruct (skip_erased_check x); [by apply ends_ret|]. apply ends_bind, ends_get. rewrite Hseq5.
    eapply ends_mono; [by apply (verify_run t0 d5 (chunk_of blk c) l oob t')|]. intros w d' [-> H]. split; [done|by apply alike_calm]. }
  intros w d6 [-> Hcm6]. cbn [Z.eqb YAFFS_OK negb Pos.eqb].
  assert (shape (blocks d6)) as Hsh6 by (rewrite <- (proj1 (cm_quiet _ _ Hcm6)); apply Hwf5).
  eapply ends_seq; [by apply (upd_bi_calm blk (set_skip_erased_check true) d6)|]. intros u d7 Hcm7. apply ends_ret.
  assert (calm d5 d7) as Hcm by exact (transitivity Hcm6 Hcm7).
  split; [done|]. split; [eapply calm_sound; [exact Hcm|by eapply written_sound]|].
  pose proof (written_live _ _ _ _ _ _ _ Hh Hw) as Hlive.
  split; [|split; [unfold counts in *; rewrite <- (ae_seq _ _ (proj1 (cm_quiet _ _ Hcm))), <- (ae_erased _ _ (proj1 (cm_quiet _ _ Hcm))); done|]].
  - exists blk, c, oob. split; [done|]. split; [|split; [by eapply calm_live|]; split; [done|by rewrite (cm_content _ _ Hcm)]].
    intros L. eapply (blank_not_live d); [apply Hh|exact L|]. apply Hh. lia.
  - intros blk' c' L. pose proof (written_stays _ _ _ _ _ _ _ Hh Hw _ _ L) as Hs. eapply stays_trans; [exact Hs|].
    eapply calm_stays; [exact Hcm|apply Hs].
Qed.

(** What [yaffs_write_new_chunk] leaves: the chunk that it returns holds the data, with the sequence
    number of its block, or it returns -1; what was in use is not touched. *)
Definition stored (use_reserver : bool) (l : list Z) (t : yaffs_ext_tags) d (r : Z) d' : Prop :=
  sound d' ∧ (∀ blk c, live d blk c → stays d d' blk c) ∧
  (dev_seq_number (blocks d) ≤ dev_seq_number (blocks d') ≤ dev_seq_number (blocks d) + 1 ∧
   n_erased_blocks (blocks d) - 1 ≤ n_erased_blocks (blocks d')) ∧
  (added l (tags_for_write (dev_seq_number (blocks d')) t) r d d' ∨
   r = -1 ∧ (use_reserver = true → alloc_block (blocks d) = -1 ∧ n_erased_blocks (blocks d) < 1) ∧
   (use_reserver = false → short d')).

(** The tags of a write can be packed and are verified. *)
Definition tags_good (t : yaffs_ext_tags) : Prop := ∀ s, 0 ≤ s < 0xffffffff →
  tags2_ok (tags_for_write s t) ∧
  same_ids (tags_for_write s t) (tags2_stored YAFFS_ECC_RESULT_NO_ERROR (tags_for_write s t)).

Lemma not_allocated_sound use_reserver d d' : sound d → numbered d d' → carves d d' → not_allocated use_reserver d d' →
  (∀ blk c, in_range blk → 0 ≤ c → blank_at (blocks d') blk c → blank_at (blocks d) blk c) →
  sound d' ∧ ∀ blk c, live d blk c → stays d d' blk c.
Proof.
  intros Hso [Hf Hn] Hca (Hok & Hb & Hs & _) Hblank. split.
  - split; [done|by apply (sum_ok_eq d); [|apply Hso]| | |].
    + intros blk x Hr Hx. destruct (carves_info _ _ _ _ Hca Hx) as (y & Hy & -> & -> & _). by eapply Hso.
    + unfold counts in Hn. destruct Hn as [Hn|Hn]; injection Hn as -> _; [apply Hso|apply wrapu_range; lia].
    + intros blk c Hr Hc Hbl. rewrite Hf. apply Hso; [done..|]. apply Hblank; [done|lia|done].
  - intros blk c [L1 L2 L3 L4]. pose proof geo_stride_bounds. split; [split; [done|done| |]|by rewrite Hf].
    + rewrite (Hb blk c) by (done || lia). done.
    + by eapply carves_state.
Qed.

Lemma write_round_good l t t0 use_reserver a d : sound d → dev_seq_number (blocks d) + 1 < 0xffffffff →
  zlen l = total_bytes_per_chunk → tags_good t →
  ends (write_new_body t0 (Some l) t use_reserver (a, 0)) d (λ r d', ∃ chunk a' w,
    r = inr (chunk, a', w) ∧ (w = 0 ∧ a' = a ∨ w ≠ 0 ∧ 0 ≤ chunk) ∧ stored use_reserver l t d (if w =? 0 then -1 else chunk) d').
Proof.
  intros Hso Hseq Hl Ht. pose proof (so_seq _ Hso) as Hu. unfold in_u in Hu. unfold write_new_body.
  eapply ends_seq; [apply (alloc_run use_reserver d), Hso|]. intros r d1 (Hn & Hca & Hbl & Hr).
  assert (dev_seq_number (blocks d) ≤ dev_seq_number (blocks d1) ≤ dev_seq_number (blocks d) + 1 ∧
    n_erased_blocks (blocks d) - 1 ≤ n_erased_blocks (blocks d1)) as Hseq1.
  { unfold counts in Hn. destruct Hn as [_ [Hn|Hn]]; injection Hn as -> ->; cbn; [lia|]. rewrite wrapu_id by (unfold in_u; lia). lia. }
  destruct Hr as [(blk & c & -> & Hal & Hb)|(-> & Hna & Hshort)].
  2: { apply ends_ret. exists (-1), a, 0. split; [done|]. destruct (not_allocated_sound _ _ _ Hso Hn Hca Hna Hbl) as [H1 H2].
       split; [by left|]. split; [done|]. split; [done|]. split; [done|]. right. split; [done|]. split; [apply Hna|done]. }
  pose proof Hal as [A1 A2 A3 A4 A5 A6 A7 A8 A9 A10 A11].
  destruct (chunk_of_u32 pd_yaffs2 blk c A1 A2) as [_ Hpos]. destruct (Z.ltb_spec (chunk_of blk c) 0); [lia|].
  cbv zeta. set (a' := u32 (a + 1)). apply ends_bind, ends_ret.
  eapply (ends_seq _ _ _ (λ _ d2, calm d1 d2)).
  { apply ends_when; [intros _; apply upd_bi_calm; [apply A3|done|done]|done]. }
  intros _ d2 Hc2. pose proof (proj1 A3) as Hwf1.
  assert (shape (blocks d2)) as Hsh2 by (rewrite <- (proj1 (cm_quiet _ _ Hc2)); apply Hwf1).
  destruct (in_range_info (blocks d2) blk Hsh2 A1) as [x Hx].
  apply ends_bind, (ends_bi_of pd_yaffs2 blk d2 x); [done..|].
  assert (content (flash d2) = content (flash d)) as Ec2 by (rewrite (cm_content _ _ Hc2); by rewrite (proj1 Hn)).
  eapply (ends_seq _ _ _ (λ e d4, calm d1 d4 ∧ negb (skip_erased_check x) && negb (e =? YAFFS_OK) = false)).
  { destruct (skip_erased_check x); [by apply ends_ret|]. eapply ends_mono; [apply check_erased_run|].
    - rewrite Ec2. change (content (flash d) (addr blk c) = None). apply Hso; [done|done|]. apply Hb. lia.
    - intros e d4 [-> H4]. split; [|done]. exact (transitivity Hc2 (alike_calm _ _ H4)). }
  intros e d4 [Hc4 ->]. assert (handed blk c d d4) as Hh.
  { split; [done|done|by exists d1| | |].
    - rewrite (cm_content _ _ Hc4). by rewrite (proj1 Hn).
    - exact (transitivity Hca (cm_carves _ _ Hc4)).
    - unfold numbers_ok. rewrite <- (ae_seq _ _ (proj1 (cm_quiet _ _ Hc4))). lia. }
  destruct (Ht _ (hd_numbers _ _ _ _ Hh)) as [Ht1 Ht2].
  eapply ends_mono; [by apply (write_in_hand_good blk c l t t0 d d4 e a')|].
  intros r d' (-> & H1 & H2 & H3 & H4). exists (chunk_of blk c), a', 1. split; [done|]. split; [right; lia|]. cbn [Z.eqb].
  apply counts_inv in H3 as [H3 H5]. pose proof (ae_seq _ _ (proj1 (cm_quiet _ _ Hc4))). pose proof (ae_erased _ _ (proj1 (cm_quiet _ _ Hc4))).
  split; [done|]. split; [done|]. split; [split; lia|]. left. by rewrite H3.
Qed.

(** ** The loss of a checkpoint *)

Definition block_clear (blk : Z) d : Prop := ∀ c, 0 ≤ c < chunks_per_block → content (flash d) (addr blk c) = None.

(** Of the blocks with [keep], those of the checkpoint are erased and the others are not touched. *)
Record dropped (keep : Z → Prop) d d' : Prop := mk_dropped {
  dr_seq : dev_seq_number (blocks d') = dev_seq_number (blocks d);
  dr_alloc : alloc_block (blocks d') = alloc_block (blocks d);
  dr_page : alloc_page (blocks d') = alloc_page (blocks d);
  dr_erased : n_erased_blocks (blocks d) ≤ n_erased_blocks (blocks d');
  dr_other blk x : keep blk → in_range blk → info (blocks d) blk = Some x → block_state x ≠ YAFFS_BLOCK_STATE_CHECKPOINT →
    info (blocks d') blk = Some x ∧ ∀ c, 0 ≤ c < chunks_per_block → content (flash d') (addr blk c) = content (flash d) (addr blk c);
  dr_checkpt blk x : keep blk → in_range blk → info (blocks d) blk = Some x → block_state x = YAFFS_BLOCK_STATE_CHECKPOINT →
    ∃ x', info (blocks d') blk = Some x' ∧ needs_retiring x' = needs_retiring x ∧ soft_del_pages x' = soft_del_pages x ∧
      (block_state x' = YAFFS_BLOCK_STATE_CHECKPOINT ∨ block_state x' = YAFFS_BLOCK_STATE_EMPTY ∧ block_clear blk d')
}.

#[export] Instance dropped_preorder keep : PreOrder (dropped keep).
Proof.
  split.
  - intros d. split; try done. intros blk x _ _ Hx Hst. exists x. auto.
  - intros d1 d2 d3 [H1 H2 H3 H4 H5 H6] [G1 G2 G3 G4 G5 G6]. split; [congruence..|lia| |].
    + intros blk x Hk Hr Hx Hst. destruct (H5 blk x Hk Hr Hx Hst) as [Hx2 Hc2]. destruct (G5 blk x Hk Hr Hx2 Hst) as [Hx3 Hc3].
      split; [done|]. intros c Hc. by rewrite Hc3, Hc2.
    + intros blk x Hk Hr Hx Hst. destruct (H6 blk x Hk Hr Hx Hst) as (x2 & Hx2 & E1 & E2 & [Hs|[Hs Hcl]]).
      * destruct (G6 blk x2 Hk Hr Hx2 Hs) as (x3 & Hx3 & F1 & F2 & F3). exists x3. split_and!; [done|congruence|congruence|done].
      * destruct (G5 blk x2 Hk Hr Hx2) as [Hx3 Hc3]; [by rewrite Hs|]. exists x2. split_and!; [done|done|done|]. right.
        split; [done|]. intros c Hc. rewrite Hc3 by done. by apply Hcl.
Qed.

Lemma same_dropped keep d d' : blocks d' = blocks d → content (flash d') = content (flash d) → dropped keep d d'.
Proof.
  intros E1 E2. split; rewrite ?E1; try done.
  - intros blk x _ Hr Hx Hst. split; [done|]. intros c Hc. by rewrite E2.
  - intros blk x _ Hr Hx Hst. exists x. auto.
Qed.
Lemma dropped_weaken (keep keep' : Z → Prop) d d' : (∀ blk, keep' blk → keep blk) → dropped keep d d' → dropped keep' d d'.
Proof. intros Hk []. split; eauto. Qed.

Definition every (_ : Z) : Prop := True.

(** An erasure clears the chunks of a block. *)
Definition erased_at (blk : Z) d d' : Prop :=
  block_clear blk d' ∧ ∀ blk' c, 0 ≤ c < chunks_per_block → blk' ≠ blk → content (flash d') (addr blk' c) = content (flash d) (addr blk' c).

Lemma erase_flash_run blk d : ends (on_flash (drv_erase_fn (blk - block_offset))) d (λ r d',
  r = YAFFS_OK ∧ blocks d' = blocks d ∧ sum_tags d' = sum_tags d ∧ erased_at blk d d').
Proof.
  destruct (good_erase (flash d) (blk - block_offset)) as (f' & Hf & Hrun).
  exists YAFFS_OK, (set_flash f' d). split; [by apply (on_flash_run pd_yaffs2 pd_inband)|]. split_and!; [done|done|done|split].
  - intros c Hc. cbn [flash set_flash]. by rewrite Hf, addr_block, decide_True.
  - intros blk' c Hc Hne. cbn [flash set_flash]. rewrite Hf, addr_block, decide_False by lia. done.
Qed.

Lemma checkpt_erase_loop_dropped n : ∀ i d, internal_start_block ≤ i → i + Z.of_nat n ≤ internal_end_block + 1 → shape (blocks d) →
  ends (checkpt_erase_loop n i) d (λ _ d', dropped every d d').
Proof.
  induction n as [|n IH]; intros i d Hi Hn Hs; cbn [checkpt_erase_loop]; [by apply ends_ret|].
  assert (in_range i) as Hr by (unfold in_range; lia). apply ends_bind, (ends_get_block_info pd_yaffs2); [done|].
  destruct (in_range_info _ i Hs Hr) as [x Hx]. apply ends_bind, (ends_bi_of pd_yaffs2 i d x); [done..|].
  eapply (ends_seq _ _ _ (λ _ d', dropped every d d' ∧ shape (blocks d'))).
  { apply ends_when; [intros Hst%bool_decide_eq_true_1|done]. apply ends_bind, ends_modify.
    eapply ends_seq; [apply erase_flash_run|]. intros r d2 (-> & Eb & _ & Hcl & Hot). cbn [negb Z.eqb YAFFS_OK].
    assert (blocks d2 = blocks d) as Eb' by (by rewrite Eb).
    apply ends_bind, (ends_upd_bi pd_yaffs2); [by rewrite Eb'|done|]. apply ends_bind, ends_upd_blocks, ends_upd_blocks.
    cbn [on_blocks blocks set_blocks]. rewrite Eb'. split; [|by apply shape_n_free, shape_n_erased, shape_b_bi].
    set (f := set_block_state YAFFS_BLOCK_STATE_EMPTY). pose proof (λ blk (H : in_range blk), info_b_bi (blocks d) i f blk Hr H) as Hinfo.
    split; cbn [on_blocks blocks set_blocks]; rewrite ?Eb'; try done; [cbn; lia| |].
    - intros blk y _ Hr' Hy Hyst. split; [|intros c Hc; apply Hot; [done|congruence]].
      change (info (b_bi i f (blocks d)) blk = Some y). rewrite Hinfo, decide_False by (done || congruence). done.
    - intros blk y _ Hr' Hy Hyst. change (∃ x', info (b_bi i f (blocks d)) blk = Some x' ∧ needs_retiring x' = needs_retiring y ∧
        soft_del_pages x' = soft_del_pages y ∧ (block_state x' = YAFFS_BLOCK_STATE_CHECKPOINT ∨ block_state x' = YAFFS_BLOCK_STATE_EMPTY ∧ block_clear blk d2)).
      rewrite Hinfo by done. destruct (decide (blk = i)) as [->|]; [|exists y; auto]. rewrite Hy. exists (f y). split_and!; [done|done|done|by right]. }
  intros _ d1 [H1 Hs1]. eapply ends_mono; [apply IH; [lia|lia|done]|]. intros u d2 H2. exact (transitivity H1 H2).
Qed.

Lemma invalidate_run p delta d : blocks_wf p delta (blocks d) → ends yaffs2_checkpt_invalidate d (λ _ d',
  blocks_wf p delta (blocks d') ∧ steady d d' ∧ dropped every d d').
Proof.
  intros Hwf. eapply (ends_mono _ _ (λ _ d', (blocks_wf p delta (blocks d') ∧ steady d d') ∧ dropped every d d')); [|tauto].
  apply (ends_and _ _ (λ _ d', blocks_wf p delta (blocks d') ∧ steady d d') (λ _ d', dropped every d d')); [by apply (keeps_invalidate pd_yaffs2)|].
  unfold yaffs2_checkpt_invalidate. apply ends_bind, ends_get, ends_when; [intros _|done].
  apply ends_bind, ends_modify. unfold yaffs_checkpt_erase. eapply ends_seq; [|intros x d2 H2; apply ends_ret; exact H2].
  pose proof Hgeo as [_ ? _ _ _].
  eapply ends_seq; [apply checkpt_erase_loop_dropped; [lia|lia|apply Hwf]|]. intros u d1 H1. apply ends_bind, ends_modify, ends_ret.
  assert (dropped every d1 (set_blocks_in_checkpt 0 d1)) as H2 by (by apply same_dropped).
  assert (dropped every d (set_is_checkpointed false d)) as H0 by (by apply same_dropped).
  exact (transitivity H0 (transitivity H1 H2)).
Qed.

Lemma dropped_stays (keep : Z → Prop) d d' blk c : dropped keep d d' → keep blk → bit_at (blocks d') blk c = true → live d blk c → stays d d' blk c.
Proof.
  intros H Hk Hb [L1 L2 L3 (x & Hx & Hst)]. destruct (dr_other _ _ _ H blk x Hk L1 Hx) as [Hx' Hc]; [unfold data_states in Hst; intros E; states|].
  split; [|by apply Hc]. split; [done|done|done|by exists x].
Qed.

Lemma alloc_state p delta d blk : blocks_wf p delta (blocks d) → in_range blk → alloc_block (blocks d) = blk →
  ∃ x, info (blocks d) blk = Some x ∧ block_state x = YAFFS_BLOCK_STATE_ALLOCATING.
Proof.
  intros Hwf Hr Ea. destruct (wf_alloc _ _ _ Hwf) as [E|[_ _ Hx _]]; [destruct Hr, Hgeo; lia|]. by rewrite Ea in Hx.
Qed.

(** What becomes blank was erased. *)
Lemma dropped_clean (keep : Z → Prop) p delta d d' blk c : blocks_wf p delta (blocks d) → dropped keep d d' → keep blk → in_range blk →
  0 ≤ c < chunks_per_block → blank_at (blocks d') blk c →
  content (flash d') (addr blk c) = None ∨ blank_at (blocks d) blk c ∧ content (flash d') (addr blk c) = content (flash d) (addr blk c).
Proof.
  intros Hwf H Hk Hr Hc Hb. destruct (in_range_info _ blk (wf_shape _ _ _ Hwf) Hr) as [x Hx].
  destruct (decide (block_state x = YAFFS_BLOCK_STATE_CHECKPOINT)) as [Est|Est].
  - destruct (dr_checkpt _ _ _ H blk x Hk Hr Hx Est) as (x' & Hx' & _ & _ & [Hst|[Hst Hcl]]); [|left; by apply Hcl].
    destruct Hb as [(y & Hy & Hyst)|[Ea _]]; [congruence|]. rewrite (dr_alloc _ _ _ H) in Ea.
    destruct (alloc_state _ _ d blk Hwf Hr Ea) as (z & Hz & Hzst). congruence.
  - destruct (dr_other _ _ _ H blk x Hk Hr Hx Est) as [Hx' Hcc]. right. split; [|by apply Hcc].
    destruct Hb as [(y & Hy & Hyst)|[Ea Hp]]; [left; exists y; split; [congruence|done]|right].
    by rewrite <- (dr_alloc _ _ _ H), <- (dr_page _ _ _ H).
Qed.

Lemma dropped_info (keep : Z → Prop) d d' blk x' : shape (blocks d) → dropped keep d d' → keep blk → in_range blk → info (blocks d') blk = Some x' →
  ∃ x, info (blocks d) blk = Some x ∧ needs_retiring x' = needs_retiring x ∧ soft_del_pages x' = soft_del_pages x.
Proof.
  intros Hs H Hk Hr Hx'. destruct (in_range_info _ blk Hs Hr) as [x Hx]. exists x. split; [done|].
  destruct (decide (block_state x = YAFFS_BLOCK_STATE_CHECKPOINT)) as [Est|Est].
  - destruct (dr_checkpt _ _ _ H blk x Hk Hr Hx Est) as (y & Hy & E1 & E2 & _). rewrite Hx' in Hy. injection Hy as ->. done.
  - destruct (dr_other _ _ _ H blk x Hk Hr Hx Est) as [Hy _]. rewrite Hx' in Hy. injection Hy as ->. done.
Qed.

Lemma dropped_sound (keep : Z → Prop) {Hdec : ∀ blk, Decision (keep blk)} d d' : sound d → dropped keep d d' →
  blocks_wf (alloc_page (blocks d)) 0 (blocks d') → sum_tags d = sum_tags d' →
  (∀ blk x, in_range blk → ¬ keep blk → info (blocks d') blk = Some x →
    (∀ c, 0 ≤ c < chunks_per_block → blank_at (blocks d') blk c → content (flash d') (addr blk c) = None) ∧ needs_retiring x = false ∧ soft_del_pages x = 0) →
  sound d'.
Proof.
  intros [[Hwf Hpg] S2 S3 S4 S5] H Hwf' Hs Hout. split.
  - split; [by rewrite (dr_page _ _ _ H)|]. by rewrite (dr_alloc _ _ _ H), (dr_page _ _ _ H).
  - by apply (sum_ok_eq d).
  - intros blk x Hr Hx. destruct (decide (keep blk)) as [Hk|Hk]; [|by destruct (Hout blk x Hr Hk Hx)].
    destruct (dropped_info _ _ _ _ _ (wf_shape _ _ _ Hwf) H Hk Hr Hx) as (y & Hy & -> & ->). by eapply S3.
  - by rewrite (dr_seq _ _ _ H).
  - intros blk c Hr Hc Hb. destruct (decide (keep blk)) as [Hk|Hk].
    + destruct (dropped_clean keep _ _ d d' blk c Hwf H Hk Hr Hc Hb) as [E|[Hb' E]]; [done|]. rewrite E. by apply S5.
    + destruct (in_range_info _ blk (wf_shape _ _ _ Hwf') Hr) as [x Hx]. by apply (Hout blk x Hr Hk Hx).
Qed.

Lemma invalidate_sound d d' : sound d → blocks_wf (alloc_page (blocks d)) 0 (blocks d') → steady d d' → dropped every d d' →
  sound d' ∧ ∀ blk c, live d blk c → stays d d' blk c.
Proof.
  intros Hso Hwf Hst Hdr. split.
  - assert (∀ blk, Decision (every blk)) by (intros; by left). apply (dropped_sound every d d' Hso Hdr Hwf); [apply Hst|].
    intros blk x _ Hn. by destruct Hn.
  - intros blk c L. apply (dropped_stays every); [done|done| |done]. rewrite <- (bit_at_eq _ _ (st_bits _ _ Hst)). apply L.
Qed.

(** [yaffs_write_new_chunk] on a flash that remembers. *)
Lemma write_new_good fuel t0 l t use_reserver d : sound d → dev_seq_number (blocks d) + 1 < 0xffffffff →
  zlen l = total_bytes_per_chunk → tags_good t → (0 < fuel)%nat →
  ends (yaffs_write_new_chunk fuel t0 (Some l) t use_reserver) d (stored use_reserver l t d).
Proof.
  intros Hso Hseq Hl Ht Hfuel. unfold yaffs_write_new_chunk. destruct fuel as [|fuel]; [lia|].
  eapply ends_seq; [apply (invalidate_run (alloc_page (blocks d)) 0), Hso|]. intros u d1 (Hwf1 & Hst & Hdr).
  destruct (invalidate_sound d d1 Hso Hwf1 Hst Hdr) as [Hso1 Hstay].
  destruct (write_round_good l t t0 use_reserver 0 d1) as (v & d2 & Hrun & chunk & a & w & -> & Ha & Hs); [done|by rewrite (dr_seq _ _ _ Hdr)|done|done|].
  apply ends_bind. unfold ends at 1. rewrite (loop_exit _ _ _ _ _ _ Hrun). eexists _, d2. split; [done|].
  eapply (ends_seq _ _ _ (λ _ d', alike d2 d' ∧ (w = 0 → d' = d2)));
    [apply ends_when; [intros H1; apply ends_modify; split; [done|]; intros ->; by destruct Ha as [[_ ->]|[? _]]|done]|].
  intros x d3 [Hal Hsame]. apply ends_ret. destruct Hs as (S1 & S2 & S3 & S4). rewrite (dr_seq _ _ _ Hdr) in S3.
  pose proof (al_blocks _ _ Hal) as Eb. pose proof (dr_erased _ _ _ Hdr) as Her.
  split; [by apply (alike_sound d2)|]. split; [|split; [rewrite Eb; lia|]].
  - intros blk c L. pose proof (Hstay blk c L) as H1.
    eapply stays_trans; [exact H1|]. eapply stays_trans; [apply S2, H1|]. eapply alike_stays; [done|]. apply S2, H1.
  - destruct S4 as [(blk & c & oob & Ec & Hn & Hl2 & Him & Hc)|(E & Hfull & Hsh)]; [left|right].
    + rewrite Ec. exists blk, c, oob. split; [done|]. split; [|split; [by eapply alike_live|]; split; [by rewrite Eb|by rewrite (al_content _ _ Hal)]].
      intros L. apply Hn. by apply Hstay.
    + split; [done|]. split.
      * intros Hur. destruct (Hfull Hur) as [E1 E2]. rewrite (dr_alloc _ _ _ Hdr) in E1. split; [done|lia].
      * intros Hur. destruct (Z.eqb_spec w 0) as [Hw|Hw]; [by rewrite Hsame; [apply Hsh|]|]. destruct Ha as [[? _]|[_ ?]]; lia.
Qed.

(** ** Deletion *)

Lemma quietly_alike {A} (m : M A) d : quietly m → within alike m → shape (blocks d) → ends m d (λ _ d', alike d d').
Proof. intros Hq Hw Hs. destruct (Hq d Hs) as (x & d' & H & _). exists x, d'. split; [done|]. by eapply Hw. Qed.

Ltac alikes := repeat first [match goal with |- alike _ _ => by split end|within_step].
Lemma clear_oldest_alike blk : within alike (yaffs2_clear_oldest_dirty_seq blk).
Proof. unfold yaffs2_clear_oldest_dirty_seq, bi_of, upd_gc. alikes. Qed.
Lemma update_oldest_alike blk bi : within alike (yaffs2_update_oldest_dirty_seq blk bi).
Proof. unfold yaffs2_update_oldest_dirty_seq, bi_of, upd_gc. alikes. Qed.

Definition but (blk : Z) (blk' : Z) : Prop := blk' ≠ blk.

(** One block changes. *)
Lemma block_dropped blk f d d' : in_range blk → block_info (blocks d') = block_info (b_bi blk f (blocks d)) →
  dev_seq_number (blocks d') = dev_seq_number (blocks d) → alloc_block (blocks d') = alloc_block (blocks d) →
  alloc_page (blocks d') = alloc_page (blocks d) → n_erased_blocks (blocks d) ≤ n_erased_blocks (blocks d') →
  content (flash d') = content (flash d) → dropped (but blk) d d'.
Proof.
  intros Hr Hi H1 H2 H3 H4 Hc.
  assert (∀ n x, but blk n → in_range n → info (blocks d) n = Some x → info (blocks d') n = Some x) as Hinfo.
  { intros n x Hne Hb Hx. unfold info. rewrite Hi. change (info (b_bi blk f (blocks d)) n = Some x). by rewrite info_b_bi, decide_False. }
  split; try done.
  - intros n x Hne Hb Hx _. split; [by apply Hinfo|]. intros c _. by rewrite Hc.
  - intros n x Hne Hb Hx Hst. exists x. auto.
Qed.

Lemma erased_dropped blk d d' : blocks d' = blocks d → erased_at blk d d' → dropped (but blk) d d'.
Proof.
  intros Eb [_ Hc]. split; rewrite ?Eb; try done.
  - intros n x Hne Hb Hx _. split; [done|]. intros c Hcc. by apply Hc.
  - intros n x Hne Hb Hx Hst. exists x. auto.
Qed.

Lemma check_loop_alike t blk n : ∀ c d, 0 ≤ c → c + Z.of_nat n ≤ chunks_per_block → block_clear blk d →
  ends (check_erased_loop t n (chunk_of blk c)) d (λ _ d', alike d d').
Proof.
  induction n as [|n IH]; intros c d Hc Hn Hcl; cbn [check_erased_loop]; [by apply ends_ret|].
  eapply ends_seq; [apply check_erased_run, Hcl; lia|]. intros r d1 [_ H1].
  replace (chunk_of blk c + 1) with (chunk_of blk (c + 1)) by (unfold chunk_of; lia).
  eapply ends_mono; [apply IH; [lia|lia|]|]; [|intros u d2 H2; exact (transitivity H1 H2)].
  intros c' Hc'. rewrite (al_content _ _ H1). by apply Hcl.
Qed.

Lemma reset_block_good blk d : shape (blocks d) → in_range blk →
  ends (reset_block blk) d (λ _ d', block_info (blocks d') = block_info (b_bi blk erased_info (blocks d)) ∧ dropped (but blk) d d' ∧
    content (flash d') = content (flash d)).
Proof.
  intros Hs Hr. unfold reset_block.
  do 2 (apply ends_bind, (ends_upd_bi pd_yaffs2); [cbn [on_blocks blocks set_blocks]; repeat apply shape_b_bi; assumption|done|]). apply ends_bind, ends_upd_blocks.
  do 6 (apply ends_bind, (ends_upd_bi pd_yaffs2);
    [cbn [on_blocks blocks set_blocks]; repeat first [apply shape_b_bi|apply shape_n_erased]; assumption|done|]).
  eexists (), _. split; [apply clear_chunk_bits_run; [|done]; apply shape_bits; cbn [on_blocks blocks set_blocks]; repeat first [apply shape_b_bi|apply shape_n_erased]; assumption|].
  set (d' := on_blocks (b_clear blk) _).
  assert (block_info (blocks d') = block_info (b_bi blk erased_info (blocks d))) as Hi.
  { unfold d', b_bi. cbn [on_blocks blocks set_blocks b_clear set_chunk_bits block_info set_block_info set_n_erased_blocks]. by rewrite !alter_alter. }
  split; [done|]. split; [|done]. apply (block_dropped blk erased_info); try done. unfold d'. cbn. lia.
Qed.

(** The block is erased. *)
Lemma became_dirty_good p t blk x d : blocks_wf p 0 (blocks d) → in_range blk → info (blocks d) blk = Some x →
  block_state x ∈ [YAFFS_BLOCK_STATE_FULL; YAFFS_BLOCK_STATE_COLLECTING] → pages_in_use x = 0 → needs_retiring x = false →
  ends (yaffs_block_became_dirty t blk) d (λ _ d', dropped (but blk) d d' ∧ block_clear blk d' ∧
    ∃ x', info (blocks d') blk = Some x' ∧ needs_retiring x' = false ∧ soft_del_pages x' = 0).
Proof.
  intros Hwf Hr Hx Hst H0 Hret. unfold yaffs_block_became_dirty. pose proof Hgeo as [_ _ Hcpb _ _].
  apply ends_bind, (ends_get_block_info pd_yaffs2); [done|].
  eapply ends_seq; [apply quietly_alike; [by apply (quietly_clear_oldest pd_yaffs2)|apply clear_oldest_alike|apply Hwf]|]. intros u d1 H1.
  apply ends_bind, (ends_upd_bi pd_yaffs2); [rewrite (al_blocks _ _ H1); apply Hwf|done|]. apply ends_bind, ends_modify, ends_bind, ends_modify.
  match goal with |- ends _ ?d4 _ => set (d4' := d4); assert (blocks d4' = b_bi blk (set_block_state YAFFS_BLOCK_STATE_DIRTY) (blocks d)) as E4
    by (cbn; by rewrite (al_blocks _ _ H1)); assert (content (flash d4') = content (flash d)) as Ec4 by (rewrite <- (al_content _ _ H1); done) end.
  clearbody d4'. assert (dropped (but blk) d d4') as Hd4 by (apply (block_dropped blk (set_block_state YAFFS_BLOCK_STATE_DIRTY)); by rewrite ?E4).
  assert (blocks_wf p chunks_per_block (blocks d4')) as Hwf4 by (rewrite E4; by apply (dirty_wf p (blocks d) blk x)).
  set (x4 := set_block_state YAFFS_BLOCK_STATE_DIRTY x).
  assert (info (blocks d4') blk = Some x4) as Hx4 by (by rewrite E4, info_b_bi, decide_True, Hx).
  apply ends_bind, (ends_bi_of pd_yaffs2 blk d4' x4); [done..|]. cbn [needs_retiring x4 set_block_state]. rewrite Hret.
  eapply (ends_seq _ _ _ (λ e d6, e = YAFFS_OK ∧ dropped (but blk) d4' d6 ∧ block_clear blk d6 ∧ info (blocks d6) blk = Some x4 ∧ shape (blocks d6))).
  { eapply ends_seq; [by apply (invalidate_run p chunks_per_block)|]. intros u' d5 (Hwf5 & _ & Hd5).
    destruct (dr_other _ _ _ Hd5 blk x4 I Hr Hx4 ltac:(done)) as [Hx5 _]. unfold yaffs_erase_block. apply ends_bind, ends_bind, ends_modify.
    eapply ends_mono; [apply erase_flash_run|]. intros r d6 (-> & E6 & _ & Her). cbn [Z.eqb YAFFS_OK when]. apply ends_bind, ends_ret, ends_ret.
    split; [done|]. split; [|split; [apply Her|rewrite E6; split; [done|apply Hwf5]]].
    etrans; [by apply (dropped_weaken every); [|exact Hd5]|]. by apply erased_dropped. }
  intros e d6 (-> & Hd6 & Hcl6 & Hx6 & Hs6). cbn [negb Z.eqb YAFFS_OK andb].
  eapply (ends_seq _ _ _ (λ _ d7, alike d6 d7)).
  { apply ends_when; [intros _|done]. rewrite chunk_of_0. apply check_loop_alike; [lia|lia|done]. }
  intros u'' d7 Hal7. pose proof (al_blocks _ _ Hal7) as E7.
  eapply ends_mono; [apply (reset_block_good blk d7); [by rewrite E7|done]|]. intros u3 d8 (Hi8 & Hd8 & Hc8). split; [|split].
  - refine (transitivity Hd4 (transitivity Hd6 (transitivity _ Hd8))). apply same_dropped; [done|apply Hal7].
  - intros c Hc. rewrite Hc8, (al_content _ _ Hal7). by apply Hcl6.
  - exists (erased_info x4). split; [|done]. unfold info. rewrite Hi8. change (info (b_bi blk erased_info (blocks d7)) blk = Some (erased_info x4)).
    by rewrite info_b_bi, decide_True, E7, Hx6.
Qed.

(** What is left of the block of a chunk that is deleted: the block, or an erased one when the chunk
    was the last that was in use. *)
Definition block_left (blk c : Z) d d' : Prop := ∃ x', info (blocks d') blk = Some x' ∧ needs_retiring x' = false ∧ soft_del_pages x' = 0 ∧
  ((∃ x, info (blocks d) blk = Some x ∧ block_state x' = block_state x) ∧ content (flash d') = content (flash d) ∨
   block_clear blk d' ∧ ∀ c', 0 ≤ c' < chunks_per_block → c' ≠ c → bit_at (blocks d) blk c' = false).

Lemma live_ready d blk c : sound d → live d blk c → del_ready (blocks d) blk c.
Proof.
  intros Hso [L1 L2 L3 (x & Hx & Hst)]. split; [done|]. exists x. split; [done|]. split; [|done].
  destruct (so_info _ Hso blk x L1 Hx) as [_ ->]. destruct (so_ok _ Hso) as [Hwf _].
  pose proof (pages_bound _ _ _ _ _ Hwf L1 Hx). destruct (decide (pages_in_use x = 0)) as [E|]; [|lia].
  pose proof geo_stride_bounds. rewrite (unused_bits _ _ _ _ _ c Hwf L1 Hx E) in L3 by lia. done.
Qed.

Lemma chunk_del_left t blk c mark d : sound d → live d blk c → ends (yaffs_chunk_del t (chunk_of blk c) mark) d (λ _ d',
  dropped (but blk) d d' ∧ block_left blk c d d').
Proof.
  intros Hso L. pose proof (live_ready d blk c Hso L) as [Hbit (x & Hx & Hsoft & Hst)]. pose proof L as [Hr Hc _ _].
  destruct (so_ok _ Hso) as [Hwf _]. destruct (so_info _ Hso blk x Hr Hx) as [Hret Hs0]. pose proof (wf_shape _ _ _ Hwf) as Hsh.
  unfold yaffs_chunk_del. destruct (chunk_of_u32 pd_yaffs2 blk c Hr Hc) as [_ Hpos]. destruct (Z.leb_spec (chunk_of blk c) 0); [lia|].
  destruct (chunk_of_div pd_yaffs2 blk c Hr Hc) as [-> ->].
  apply ends_bind, ends_modify. apply ends_bind. eexists _, _. split; [apply check_chunk_bit_run; try done; apply Hsh|].
  apply ends_bind, (ends_get_block_info pd_yaffs2); [done|].
  eapply ends_seq; [apply quietly_alike; [by apply (quietly_update_oldest pd_yaffs2)|apply update_oldest_alike|apply Hsh]|]. intros u d2 H2.
  pose proof (al_blocks _ _ H2) as E2. pose proof (al_content _ _ H2) as C2. cbn [blocks set_stats flash] in E2, C2.
  apply ends_bind, (ends_bi_of pd_yaffs2 blk d2 x); [done|by rewrite E2|]. rewrite pd_yaffs2. cbn [negb andb].
  apply ends_bind, ends_modify, ends_bind, (ends_bi_of pd_yaffs2 blk _ x); [done|cbn [blocks set_stats]; by rewrite E2|].
  rewrite bool_decide_eq_true_2 by states. cbn [when].
  apply ends_bind, ends_upd_blocks.
  apply ends_bind. eexists (), _. split; [apply clear_chunk_bit_run; try done; apply shape_bits; cbn [on_blocks blocks set_blocks set_stats]; rewrite E2; by apply shape_n_free|].
  apply ends_bind, (ends_upd_bi pd_yaffs2); [cbn [on_blocks blocks set_blocks set_stats]; rewrite E2; by apply shape_b_bit, shape_n_free|done|].
  match goal with |- ends _ ?d5 _ => set (d5' := d5); assert (blocks d5' = release_chunk blk c (blocks d)) as E5 by (unfold d5'; cbn [on_blocks blocks set_blocks set_stats]; by rewrite E2);
    assert (content (flash d5') = content (flash d)) as C5 by (unfold d5'; cbn; by rewrite C2) end. clearbody d5'.
  destruct (release_run pd_yaffs2 _ d blk c x Hwf Hr Hc Hbit Hx Hsoft Hst) as (Hwf5 & Hx5 & _ & _ & _ & _ & Hb5).
  cbn [on_blocks blocks set_blocks] in Hwf5, Hx5, Hb5. rewrite <- E5 in Hwf5, Hx5, Hb5.
  assert (dropped (but blk) d d5') as Hd5 by (apply (block_dropped blk sub_page); by rewrite ?E5).
  apply ends_bind, (ends_bi_of pd_yaffs2 blk d5' (sub_page x)); [done..|].
  apply ends_when; [|intros _; split; [done|]; exists (sub_page x); split; [done|]; split; [done|]; split; [done|]; left; split; [by exists x|done]].
  intros Hcond. apply andb_true_iff in Hcond as [Hcond Hns]. apply andb_true_iff in Hcond as [Hz _]. apply Z.eqb_eq in Hz.
  apply negb_true_iff, bool_decide_eq_false_1 in Hns. change (block_state (sub_page x)) with (block_state x) in Hns.
  eapply ends_mono; [apply (became_dirty_good (alloc_page (blocks d)) t blk (sub_page x) d5'); try done|].
  { change (block_state (sub_page x)) with (block_state x). states. }
  intros u' d6 (Hd6 & Hcl & x' & Hx' & Hr' & Hs'). split; [exact (transitivity Hd5 Hd6)|]. exists x'. split; [done|]. split; [done|]. split; [done|]. right.
  split; [done|]. intros c' Hc' Hne. pose proof geo_stride_bounds. pose proof (unused_bits _ _ _ _ _ c' Hwf5 Hr Hx5 Hz ltac:(lia)) as Hu.
  rewrite Hb5, decide_False in Hu by (done || naive_solver). done.
Qed.

(** [yaffs_chunk_del] on a flash that remembers: this chunk is given up, the others keep what they hold. *)
Lemma chunk_del_good t blk c mark d : sound d → live d blk c → ends (yaffs_chunk_del t (chunk_of blk c) mark) d (λ _ d',
  sound d' ∧ ¬ live d' blk c ∧
  (dev_seq_number (blocks d') = dev_seq_number (blocks d) ∧ n_erased_blocks (blocks d) ≤ n_erased_blocks (blocks d')) ∧
  ∀ blk' c', ¬ (blk' = blk ∧ c' = c) → live d blk' c' → stays d d' blk' c').
Proof.
  intros Hso L. pose proof (live_ready d blk c Hso L) as Hready. pose proof L as [Hr Hc _ _]. pose proof (so_ok _ Hso) as [Hwf _].
  eapply ends_mono; [exact (ends_and _ _ _ _ (chunk_del_left t blk c mark d Hso L) (chunk_del_run pd_yaffs2 _ d t blk c mark Hwf Hr Hc Hready))|].
  intros u d' [[Hd (x' & Hx' & Hret & Hs & Hleft)] [Hwf' [D1 D2 D3 D4 _]]].
  assert (∀ blk', Decision (but blk blk')) by (intros; unfold but; apply _).
  split; [|split; [|split; [split; apply Hd|]]].
  - apply (dropped_sound (but blk) d d' Hso Hd Hwf' D1). intros blk' y Hr' Hk Hy. assert (blk' = blk) as -> by (unfold but in Hk; lia).
    rewrite Hx' in Hy. injection Hy as <-. split; [|done]. intros c' Hc' Hb. destruct Hleft as [[(x & Hx & Est) Ec]|[Hcl _]]; [|by apply Hcl].
    rewrite Ec. apply Hso; [done|done|]. destruct Hb as [(y & Hy & Hyst)|[Ea Hp]]; [left; exists x; split; [done|congruence]|right].
    by rewrite D3, D4.
  - intros [_ _ Hb _]. rewrite D2, decide_True in Hb by done. done.
  - intros blk' c' Hne L'. pose proof L' as [L1 L2 L3 (z & Hz & Hzst)].
    assert (bit_at (blocks d') blk' c' = true) as Hb by (rewrite D2, decide_False by done; done).
    destruct (decide (blk' = blk)) as [->|Hnb]; [|by apply (dropped_stays (but blk))].
    destruct Hleft as [[(x & Hx & Est) Ec]|[_ Hcl]]; [|rewrite Hcl in L3; [done|done|naive_solver]].
    split; [|by rewrite Ec]. split; [done|done|done|]. exists x'. split; [done|]. rewrite Est. congruence.
Qed.

(** ** The store *)

(** The chunk holds the data and the tags. *)
Definition holds_at d (chunk : Z) (l : list Z) (t : yaffs_ext_tags) : Prop := ∃ blk c oob,
  chunk = chunk_of blk c ∧ live d blk c ∧ content (flash d) (addr blk c) = Some (l, oob) ∧
  tags_image t = Some oob ∧ tags2_ok t ∧ zlen l = total_bytes_per_chunk.

Definition holds d (m : chunk_map) : Prop := sound d ∧ ∀ chunk l t, m !! chunk = Some (l, t) → holds_at d chunk l t.

Inductive store_op : Type :=
  | StWrite (l : list Z) (t : yaffs_ext_tags) (use_reserver : bool)
  | StDel (chunk : Z) (mark_flash : bool)
  | StRead (chunk : Z) (want_data : bool).

Inductive store_result : Type :=
  | StChunk (chunk : Z)
  | StDone
  | StData (result : Z) (data : list Z) (tags : yaffs_ext_tags).

(** [t0] is what the local variables for tags hold before they are read into. *)
Definition store_exec (fuel : nat) (t0 : yaffs_ext_tags) (op : store_op) : M store_result :=
  match op with
  | StWrite l t use_reserver => chunk ← yaffs_write_new_chunk fuel t0 (Some l) t use_reserver; mret (StChunk chunk)
  | StDel chunk mark_flash => yaffs_chunk_del t0 chunk mark_flash;; mret StDone
  | StRead chunk want_data =>
      r ← yaffs_rd_chunk_tags_nand chunk want_data t0;
      let '(result, data, tags) := r in mret (StData result data tags)
  end.

(** What the operations promise of the store. *)
Inductive store_step : chunk_map → store_op → store_result → chunk_map → Prop :=
  | step_written m l t use_reserver chunk s : m !! chunk = None →
      store_step m (StWrite l t use_reserver) (StChunk chunk) (<[chunk := (l, tags_for_write s t)]> m)
  | step_full m l t use_reserver : store_step m (StWrite l t use_reserver) (StChunk (-1)) m
  | step_deleted m chunk mark_flash : is_Some (m !! chunk) → store_step m (StDel chunk mark_flash) StDone (delete chunk m)
  | step_read m chunk want_data l t : m !! chunk = Some (l, t) →
      store_step m (StRead chunk want_data)
        (StData YAFFS_OK (if want_data then l else []) (tags2_stored YAFFS_ECC_RESULT_NO_ERROR t)) m.

(** When an operation may be asked for: the data is a chunk, the tags fit, and there is a sequence
    number left for another block. *)
Definition store_ready d (m : chunk_map) (op : store_op) : Prop :=
  match op with
  | StWrite l t _ => zlen l = total_bytes_per_chunk ∧ tags_good t ∧ dev_seq_number (blocks d) + 1 < 0xffffffff
  | StDel chunk _ | StRead chunk _ => is_Some (m !! chunk)
  end.

(** A write finds no space: with the reserve only when no block is open and none is erased, without it
    when [yaffs_check_alloc_available] says so. *)
Definition full_for d d' (op : store_op) : Prop :=
  match op with
  | StWrite _ _ use_reserver => if use_reserver then alloc_block (blocks d) = -1 ∧ n_erased_blocks (blocks d) < 1 else short d'
  | _ => False
  end.

Lemma stays_holds_at d d' chunk l t : holds_at d chunk l t → (∀ blk c, chunk = chunk_of blk c → live d blk c → stays d d' blk c) →
  holds_at d' chunk l t.
Proof.
  intros (blk & c & oob & -> & L & Hc & Hrest) Hs. destruct (Hs blk c eq_refl L) as [L' E]. exists blk, c, oob.
  split; [done|]. split; [done|]. split; [by rewrite E|done].
Qed.

(** C3. The flash keeps what is written until it is deleted, whatever else is written and deleted: on a device
    without errors the writing of new chunks, the deletion of chunks and the reading of chunks,
    with the allocation and the erasure of blocks, the writing of summaries and the loss of the
    checkpoint in them, are the operations of a finite map. *)
Theorem chunk_store_refines fuel t0 d m op : (0 < fuel)%nat → holds d m → store_ready d m op →
  ends (store_exec fuel t0 op) d (λ r d', ∃ m', store_step m op r m' ∧ holds d' m' ∧
    dev_seq_number (blocks d') ≤ dev_seq_number (blocks d) + 1 ∧ (r = StChunk (-1) → full_for d d' op)).
Proof.
  intros Hfuel [Hso Hm] Hready. destruct op as [l t use_reserver|chunk mark_flash|chunk want]; cbn [store_exec store_ready full_for] in *.
  - destruct Hready as (Hl & Ht & Hseq). eapply ends_seq; [by apply write_new_good|]. intros r d' (S1 & S2 & S3 & S4). apply ends_ret.
    assert (∀ chunk l' t', m !! chunk = Some (l', t') → holds_at d' chunk l' t') as Hm'
      by (intros; eapply stays_holds_at; [by apply Hm|intros blk c _; apply S2]).
    destruct S4 as [(blk & c & oob & -> & Hn & L & Him & Hc)|[-> Hfull]].
    + set (s := dev_seq_number (blocks d')) in *. pose proof (so_seq _ Hso) as Hu. unfold in_u in Hu.
      destruct (Ht s ltac:(lia)) as [Htok _]. exists (<[chunk_of blk c := (l, tags_for_write s t)]> m). split; [|split; [split; [done|]|split; [lia|]]].
      * apply step_written. destruct (m !! chunk_of blk c) as [[l' t']|] eqn:E; [|done]. destruct (Hm _ _ _ E) as (blk' & c' & _ & Ec & L' & _).
        destruct (chunk_of_inj blk c blk' c') as [-> ->]; [apply L|apply L'|done|done].
      * intros chunk l' t'. destruct (decide (chunk = chunk_of blk c)) as [->|]; [|rewrite lookup_insert_ne by done; apply Hm'].
        rewrite lookup_insert_eq. intros [= <- <-]. by exists blk, c, oob.
      * intros [= E]. pose proof L as [L1 L2 _ _]. destruct (chunk_of_u32 pd_yaffs2 blk c L1 L2). lia.
    + exists m. split; [apply step_full|]. split; [by split|]. split; [lia|]. intros _. destruct Hfull, use_reserver; auto.
  - destruct Hready as [[l t] Hx]. destruct (Hm _ _ _ Hx) as (blk & c & _ & Ec & L & _). subst chunk.
    eapply ends_seq; [by apply chunk_del_good|]. intros u d' (D1 & D2 & D3 & D4). apply ends_ret. exists (delete (chunk_of blk c) m).
    split; [by apply step_deleted|]. split; [split; [done|]|split; [lia|done]].
    intros chunk l' t' [Hne Hx']%lookup_delete_Some. eapply stays_holds_at; [by apply Hm|]. intros blk' c' -> L'. apply D4; [|done]. by intros [-> ->].
  - destruct Hready as [[l t] Hx]. destruct (Hm _ _ _ Hx) as (blk & c & oob & Ec & L & Hc & Him & Hok & Hl). subst chunk.
    eapply ends_seq; [apply (rd_chunk_run d (chunk_of blk c) want t0 (tags2_stored YAFFS_ECC_RESULT_NO_ERROR t))|].
    { change (tags_read (content (flash d) (addr blk c)) (tags2_stored YAFFS_ECC_RESULT_NO_ERROR t)). rewrite Hc. by exists t. }
    intros r d' [-> Hal]. apply ends_ret. exists m. change (apply_chunk_offset (chunk_of blk c)) with (addr blk c). rewrite Hc. cbn [page_data].
    rewrite (take_ge l (Z.to_nat total_bytes_per_chunk)) by lia. split; [by apply step_read|]. split; [split; [by apply (alike_sound d)|]|split; [by rewrite (al_blocks _ _ Hal); lia|done]].
    intros chunk l' t' Hx'. eapply stays_holds_at; [by apply Hm|]. intros blk' c' _ L'. by apply alike_stays.
Qed.
End store.

(** ** A store on a small device

    A block that is open, with one chunk in use; its next chunk is the last that its summary covers. The
    second block is erased, the third holds two chunks of a file. *)

Definition store_driver : yaffs_driver (Z → page) := {|
  drv_write_chunk_fn n data _ oob f :=
    (YAFFS_OK, λ k, if decide (k = n) then Some (default [] data, default [] oob) else f k);
  drv_read_chunk_fn n data_len oob_len f :=
    ((YAFFS_OK, asked (page_data (f n)) data_len, u8 <$> asked (page_oob (f n)) oob_len, YAFFS_ECC_RESULT_NO_ERROR), f);
  drv_erase_fn b f := (YAFFS_OK, λ k, if decide (k / 16 = b) then None else f k);
  drv_mark_bad_fn _ f := (YAFFS_OK, f);
  drv_check_bad_fn _ f := (YAFFS_OK, f) |}.

#[local] Existing Instances demo_cfg store_driver.

(** A spare byte has 8 bits. *)
Definition page_u8 (p : page) : page := match p with Some (l, oob) => Some (l, u8 <$> oob) | None => None end.

Lemma u8_ids l : Forall (in_u 8) l → u8 <$> l = l.
Proof. induction 1 as [|x l Hx _ IH]; [done|]. cbn. rewrite IH. by rewrite wrapu_id. Qed.

Lemma page_u8_data p n : page_data (page_u8 p) n = page_data p n.
Proof. by destruct p as [[]|]. Qed.
Lemma page_u8_oob p n : page_oob (page_u8 p) n = u8 <$> page_oob p n.
Proof.
  destruct p as [[l oob]|]; cbn [page_u8 page_oob]; [by rewrite fmap_take|].
  symmetry. apply u8_ids, Forall_replicate. unfold in_u. lia.
Qed.

Lemma store_flash : good_flash (Z → page) demo_cfg store_driver.
Proof.
  refine {| content := λ (f : Z → page) k, page_u8 (f k) |}.
  - intros f n data_len oob_len. exists f. split; [done|]. cbn. destruct data_len, oob_len; cbn; by rewrite ?page_u8_data, ?page_u8_oob.
  - intros f n data len oob Hoob _. eexists. split; [|reflexivity]. intros k. cbn. destruct (decide (k = n)); [|done]. cbn. by rewrite u8_ids.
  - intros f b. eexists. split; [|reflexivity]. intros k. cbn. change chunks_per_block with 16. by destruct (decide _).
  - intros f b. by exists f.
Defined.

Lemma store_driver_ok : driver_ok (Z → page).
Proof.
  split; [|by left]. intros. cbn. apply Forall_fmap, Forall_true. intros x. apply wrapu_range. lia.
Qed.

Lemma store_plain : plain_device.
Proof. by split. Qed.

#[local] Existing Instances demo_geometry store_driver_ok demo_buffers_ok store_flash store_plain.

Definition demo_file_chunk : yaffs_ext_tags := mk_ext_tags 1 257 1 32 YAFFS_ECC_RESULT_UNKNOWN 0 0 0 0x1000 0 0 0 0 0 0 0.

Definition store_flash_0 : Z → page := λ k,
  if k =? 16 then Some (replicate 32 9, default [] (tags_image demo_file_chunk))
  else if (k =? 48) || (k =? 49) then Some (replicate 32 7, default [] (tags_image demo_file_chunk)) else None.

Definition store_dev : yaffs_dev (Z → page) :=
  mk_dev store_flash_0
    (mk_blocks [demo_bi 0 1 YAFFS_BLOCK_STATE_ALLOCATING; demo_bi 0 0 YAFFS_BLOCK_STATE_EMPTY; demo_bi 0 2 YAFFS_BLOCK_STATE_FULL]
      [1; 0; 0; 0; 3; 0] 1 1 7 1 45 0x1001)
    (mk_gc false false 1 0 0 0 0 0 0 0 0 0 0) (mk_temp (replicate YAFFS_N_TEMP_BUFFERS false) 0 0 0 0)
    false 0 0 (Some (replicate 8 summary_tags_zero)) 0 0 (λ _, 0).

Definition store_0 : chunk_map := {[48 := (replicate 32 7, demo_file_chunk)]}.

Lemma store_blocks_ok : blocks_ok (blocks store_dev).
Proof.
  split; [|done]. split.
  - split; [split; [done|]|done]. cbn. unfold in_u. repeat constructor; lia.
  - intros blk c _ Hc. cbn in Hc. lia.
  - intros blk x [-> | [-> | ->]]%demo_in_range Hx; injection Hx as <-;
      (split; [reflexivity|cbn; lia|vm_compute; set_solver| |]); cbn; try done; set_solver.
  - right. split; [done|done|by eexists|]. intros c Hc. cbn in Hc.
    assert (Forall (λ c, bit_at (blocks store_dev) 1 c = false) (seqZ 7 9)) as Hall by (apply (bool_decide_eq_true_1 _); by vm_compute).
    apply (proj1 (Forall_forall _ _) Hall), elem_of_seqZ. lia.
  - done.
  - done.
Qed.

Lemma store_sound : sound store_dev.
Proof.
  split; [apply store_blocks_ok|split; [done|by vm_compute]| |done|].
  - intros blk x [-> | [-> | ->]]%demo_in_range Hx; injection Hx as <-; done.
  - intros blk c Hr Hc Hb. unfold addr, apply_chunk_offset, chunk_of. change chunks_per_block with 16 in *. change chunk_offset with 0.
    cbn [content store_flash flash store_dev]. unfold store_flash_0.
    apply demo_in_range in Hr as [-> | [-> | ->]].
    + destruct Hb as [(x & Hx & Hst)|[_ Hp]]; [injection Hx as <-; done|]. cbn in Hp. rewrite !(proj2 (Z.eqb_neq _ _)) by lia. done.
    + rewrite !(proj2 (Z.eqb_neq _ _)) by lia. done.
    + destruct Hb as [(x & Hx & Hst)|[Ha _]]; [injection Hx as <-; done|done].
Qed.

Lemma store_holds : holds store_dev store_0.
Proof.
  split; [apply store_sound|]. intros chunk l t H. unfold store_0 in H. apply lookup_singleton_Some in H as [<- [= <- <-]].
  exists 3, 0, (default [] (tags_image demo_file_chunk)). split; [done|]. split; [|split; [by vm_compute|split; [by vm_compute|split; [|done]]]].
  - split; [split; cbn; lia|done|by vm_compute|]. eexists. split; [reflexivity|]. cbn. unfold data_states. set_solver.
  - split; unfold in_u; cbn; lia.
Qed.

Definition demo_new_tags : yaffs_ext_tags := mk_ext_tags 0 258 3 20 YAFFS_ECC_RESULT_UNKNOWN 0 0 0 0 0 0 0 0 0 0 0.

Lemma demo_tags_good : tags_good demo_new_tags.
Proof. intros s Hs. split; [split; unfold in_u; cbn; lia|done]. Qed.

(** The chunk that is written is the last of those of the summary, which is written too and closes the block. *)
Example chunk_store_refines_witness : ∃ d' m',
  store_exec 4 demo_tags (StWrite (replicate 32 5) demo_new_tags true) store_dev = Ok (StChunk 23, d') ∧
  holds d' m' ∧ m' !! 48 = Some (replicate 32 7, demo_file_chunk) ∧ m' !! 23 ≠ None.
Proof.
  destruct (chunk_store_refines 4 demo_tags store_dev store_0 (StWrite (replicate 32 5) demo_new_tags true) ltac:(lia) store_holds
    (conj eq_refl (conj demo_tags_good eq_refl))) as (r & d' & Hrun & m' & Hstep & Hh & _).
  assert (r = StChunk 23) as -> by (vm_compute in Hrun; injection Hrun as <- _; reflexivity).
  exists d', m'. split; [exact Hrun|]. split; [exact Hh|]. inversion Hstep; subst. split.
  - rewrite lookup_insert_ne by done. done.
  - by rewrite lookup_insert_eq.
Defined.
