(* ===== verification/YaffsTnode.v ===== *)
(** * YAFFS: the tree of a file

    The tnodes of [yaffs_guts.c] and their allocator in [yaffs_allocator.c]. A tnode is
    a block of words of 32 bits that is read either as eight pointers or, at level 0, as
    an array of 16 fields of [tnode_width] bits each with the number of a group of
    chunks; the store maps the address of a tnode to its words, so a pointer is a word
    like any other and [NULL] is 0. A file is then a map from chunk numbers to groups
    of chunks, which the operations on the tree read and update. *)

From S2P Require Import Prelude YaffsDev.

Definition YAFFS_TNODES_LEVEL0_BITS : Z := 4.
Definition YAFFS_TNODES_LEVEL0_MASK : Z := 0xf.
Definition YAFFS_NTNODES_LEVEL0 : nat := 16.
Definition YAFFS_NTNODES_INTERNAL : nat := 8.
Definition YAFFS_TNODES_INTERNAL_BITS : Z := 3.
Definition YAFFS_TNODES_INTERNAL_MASK : Z := 0x7.
Definition YAFFS_TNODES_MAX_LEVEL : Z := 8.
Definition YAFFS_TNODES_MAX_BITS : Z :=
  YAFFS_TNODES_LEVEL0_BITS + YAFFS_TNODES_INTERNAL_BITS * YAFFS_TNODES_MAX_LEVEL.
Definition YAFFS_MAX_CHUNK_ID : Z := Z.shiftl 1 YAFFS_TNODES_MAX_BITS - 1.
Definition YAFFS_ALLOCATION_NTNODES : nat := 100.

(** ** The sizes that mounting fixes *)

(** The [while] of [calc_shifts_ceiling]; 32 rounds are enough for a [u32]. *)
Fixpoint ceiling_loop (n : nat) (x extra_bits shifts : Z) : Z * Z :=
  match n with
  | O => (extra_bits, shifts)
  | S n' =>
      if 1 <? x then
        ceiling_loop n' (Z.shiftr x 1) (if Z.land x 1 =? 0 then extra_bits else extra_bits + 1) (shifts + 1)
      else (extra_bits, shifts)
  end.

Definition calc_shifts_ceiling (x : Z) : Z :=
  let '(extra_bits, shifts) := ceiling_loop 32 x 0 0 in
  if extra_bits =? 0 then shifts else shifts + 1.

Fixpoint shifts_loop (n : nat) (x shifts : Z) : Z :=
  match n with
  | O => shifts
  | S n' => if Z.land x 1 =? 0 then shifts_loop n' (Z.shiftr x 1) (shifts + 1) else shifts
  end.

Definition calc_shifts (x : Z) : Z := if x =? 0 then 0 else shifts_loop 32 x 0.

(** The geometry of the tnodes. *)
Record tnode_params := mk_tnp {
  tp_width : Z;
  tp_mask : Z;
  tp_grp_bits : Z;
  tp_size : Z
}.

(** The statements of [yaffs_guts_initialise] that fix it; [n_chunks] is the number of
    chunks up to the last block. *)
Definition tnode_setup (n_chunks : Z) (wide_tnodes_disabled : bool) : tnode_params :=
  let bits := calc_shifts_ceiling n_chunks in
  let '(bits, width) :=
    if negb wide_tnodes_disabled then
      let bits := if Z.land bits 1 =? 0 then bits else bits + 1 in
      (bits, if bits <? 16 then 16 else bits)
    else (bits, 16) in
  let mask := u32 (s32 (Z.shiftl 1 width) - 1) in
  let grp_bits := if bits <=? width then 0 else bits - width in
  let size := width * Z.of_nat YAFFS_NTNODES_LEVEL0 / 8 in
  mk_tnp width mask grp_bits (if size <? 32 then 32 else size).

Lemma ceiling_loop_spec n : ∀ x e s, 1 ≤ x < 2 ^ Z.of_nat n → 0 ≤ e →
  ∃ e' k, ceiling_loop n x e s = (e', s + k) ∧ 0 ≤ k ∧ e ≤ e' ∧ 2 ^ k ≤ x < 2 ^ (k + 1) ∧ (e' = e ↔ x = 2 ^ k).
Proof.
  induction n as [|n IH]; intros x e s Hx He; cbn [ceiling_loop]; [cbn in Hx; lia|].
  destruct (Z.ltb_spec 1 x).
  - rewrite Z.shiftr_div_pow2 by lia. change (2 ^ 1) with 2.
    assert (Z.land x 1 = x mod 2) as -> by (by apply (Z.land_ones x 1)).
    pose proof (Z.div_mod x 2). pose proof (Z.mod_pos_bound x 2).
    rewrite Nat2Z.inj_succ, Z.pow_succ_r in Hx by lia.
    destruct (IH (x / 2) (if x mod 2 =? 0 then e else e + 1) (s + 1)) as (e' & k & -> & Hk & Hee & Hb & Hiff);
      [lia|destruct (_ =? _); lia|].
    exists e', (k + 1). rewrite <- Z.add_assoc, (Z.add_comm 1 k). split; [done|]. split; [lia|].
    rewrite !(Z.add_1_r (k + 1)), !(Z.add_1_r k) in *. rewrite !Z.pow_succ_r in * by lia.
    destruct (Z.eqb_spec (x mod 2) 0); [|]; (split; [lia|]); (split; [lia|]); lia.
  - assert (x = 1) as -> by lia. exists e, 0. rewrite Z.add_0_r. repeat split; lia.
Qed.

(** [calc_shifts_ceiling] is the logarithm rounded up. *)
Lemma calc_shifts_ceiling_log2 x : 1 ≤ x < 2 ^ 32 → calc_shifts_ceiling x = Z.log2_up x.
Proof.
  intros Hx. unfold calc_shifts_ceiling.
  destruct (ceiling_loop_spec 32 x 0 0) as (e & k & -> & Hk & He & Hb & Hiff); [done|lia|].
  destruct (Z.eqb_spec e 0) as [->|Hne].
  - assert (x = 2 ^ k) as -> by (by apply Hiff). by rewrite Z.log2_up_pow2.
  - symmetry. apply Z.log2_up_unique; [lia|].
    assert (x ≠ 2 ^ k) by (intros E; apply Hne; by apply Hiff).
    replace (Z.pred (0 + k + 1)) with k by lia. rewrite Z.add_0_l. lia.
Qed.

(** What the rest relies on; [tnode_setup] gives it on a device of at most 2^30 chunks
    with a word size of 32 bits. *)
Class tnode_geo (tp : tnode_params) : Prop := {
  tg_width : 16 ≤ tp_width tp ≤ 30;
  tg_even : tp_width tp mod 2 = 0;
  tg_mask : tp_mask tp = Z.ones (tp_width tp);
  tg_grp : 0 ≤ tp_grp_bits tp ≤ 14;
  tg_size : tp_size tp = Z.max (2 * tp_width tp) 32
}.

Lemma tnode_setup_geo n_chunks wide : 1 ≤ n_chunks ≤ 2 ^ 30 → tnode_geo (tnode_setup n_chunks wide).
Proof.
  intros Hn. unfold tnode_setup. rewrite calc_shifts_ceiling_log2 by lia.
  assert (0 ≤ Z.log2_up n_chunks ≤ 30) as Hb.
  { split; [apply Z.log2_up_nonneg|]. change 30 with (Z.log2_up (2 ^ 30)). apply Z.log2_up_le_mono. lia. }
  generalize dependent (Z.log2_up n_chunks). intros bits Hb.
  assert (bits ∈ seqZ 0 31) as Hin by (apply elem_of_seqZ; lia). clear Hb.
  revert bits Hin. apply Forall_forall. destruct wide; cbv [seqZ seq fmap list_fmap Z.to_nat Pos.to_nat
    Pos.iter_op Nat.add Z.of_nat Z.add Pos.of_succ_nat Pos.succ]; repeat constructor; vm_compute; intuition congruence.
Qed.

(** ** The fields of a tnode of level 0 *)

Section level0.
Context (tp : tnode_params).
#[local] Set Default Proof Using "Type*".

(** The two loads of [yaffs_get_group_base] and the stores of [yaffs_load_tnode_0] on
    the words of the tnode. *)
Definition group_base_words (map : list Z) (pos : Z) : option Z :=
  let pos := Z.land pos YAFFS_TNODES_LEVEL0_MASK in
  let bit_in_map := u32 (pos * tp_width tp) in
  let word_in_map := bit_in_map / 32 in
  let bit_in_word := Z.land bit_in_map 31 in
  w ← znth map word_in_map;
  let val := Z.shiftr w bit_in_word in
  val ← (if 32 - bit_in_word <? tp_width tp then
           w ← znth map (word_in_map + 1);
           Some (Z.lor val (u32 (Z.shiftl w (32 - bit_in_word))))
         else Some val);
  Some (u32 (Z.shiftl (Z.land val (tp_mask tp)) (tp_grp_bits tp))).

(** [map[word] &= ~mask; map[word] |= mask & v]. *)
Definition merge_word (map : list Z) (word mask v : Z) : option (list Z) :=
  w ← znth map word;
  zset map word (Z.lor (Z.land w (notu 32 mask)) (Z.land mask v)).

Definition load_tnode_words (map : list Z) (pos val : Z) : option (list Z) :=
  let pos := Z.land pos YAFFS_TNODES_LEVEL0_MASK in
  let val := Z.shiftr val (tp_grp_bits tp) in
  let bit_in_map := u32 (pos * tp_width tp) in
  let word_in_map := bit_in_map / 32 in
  let bit_in_word := Z.land bit_in_map 31 in
  map ← merge_word map word_in_map (u32 (Z.shiftl (tp_mask tp) bit_in_word))
          (u32 (Z.shiftl val bit_in_word));
  if 32 - bit_in_word <? tp_width tp then
    merge_word map (word_in_map + 1) (Z.shiftr (tp_mask tp) (32 - bit_in_word))
      (Z.shiftr val (32 - bit_in_word))
  else Some map.

(** The bit [b] of an array of words. *)
Definition map_bit (map : list Z) (b : Z) : bool :=
  match map !! Z.to_nat (b / 32) with Some w => Z.testbit w (b mod 32) | None => false end.

Context `{!tnode_geo tp}.

Definition words_ok (map : list Z) : Prop := 4 * zlen map = tp_size tp ∧ Forall (in_u 32) map.

Lemma words_room map : words_ok map → 16 * tp_width tp ≤ 32 * zlen map ∧ 8 ≤ zlen map.
Proof. intros [Hl _]. destruct tnode_geo0. lia. Qed.

(** Where the field [pos] begins. *)
Lemma field_place pos : 0 ≤ pos < 16 →
  Z.land pos YAFFS_TNODES_LEVEL0_MASK = pos ∧ u32 (pos * tp_width tp) = pos * tp_width tp ∧
  Z.land (pos * tp_width tp) 31 = (pos * tp_width tp) mod 32.
Proof.
  intros Hp. destruct tnode_geo0. split; [|split].
  - unfold YAFFS_TNODES_LEVEL0_MASK. change 0xf with (Z.ones 4). rewrite Z.land_ones by lia.
    apply Z.mod_small. done.
  - apply wrapu_id. unfold in_u. nia.
  - change 31 with (Z.ones 5). by rewrite Z.land_ones by lia.
Qed.

Lemma map_bit_word map w i : map !! Z.to_nat w = Some i → 0 ≤ w →
  ∀ j, 0 ≤ j < 32 → map_bit map (32 * w + j) = Z.testbit i j.
Proof using Type.
  intros Hw Hw0 j Hj. unfold map_bit.
  replace ((32 * w + j) / 32) with w by (apply (Z.div_unique_pos _ _ _ j); lia).
  replace ((32 * w + j) mod 32) with j by (apply (Z.mod_unique_pos _ _ w); lia). by rewrite Hw.
Qed.

Lemma group_base_words_spec map pos : words_ok map → 0 ≤ pos < 16 →
  ∃ v, group_base_words map pos = Some (u32 (Z.shiftl v (tp_grp_bits tp))) ∧ in_u (tp_width tp) v ∧
    ∀ j, 0 ≤ j < tp_width tp → Z.testbit v j = map_bit map (pos * tp_width tp + j).
Proof.
  intros Hm Hp. destruct (words_room map Hm) as [Hroom _]. destruct Hm as [_ Hu].
  unfold group_base_words. destruct (field_place pos Hp) as (-> & -> & ->).
  pose proof tnode_geo0 as [Hw He Hmask Hg _]. set (w := tp_width tp) in *. set (s := pos * w).
  assert (0 ≤ s ∧ s + w ≤ 32 * zlen map) as Hs by (unfold s; nia).
  pose proof (Z.div_mod s 32 ltac:(done)) as Hdm. pose proof (Z.mod_pos_bound s 32 ltac:(done)) as Hr.
  set (q := s / 32) in *. set (r := s mod 32) in *. clearbody s q r. subst s.
  destruct (znth_Some map q) as (w0 & -> & Hw0); [lia|]. cbn [mbind option_bind].
  assert (in_u 32 w0) as Hu0 by (by apply (Forall_lookup_1 _ _ _ _ Hu Hw0)).
  destruct (Z.ltb_spec (32 - r) w) as [Hlt|Hge].
  - destruct (znth_Some map (q + 1)) as (w1 & -> & Hw1); [lia|]. cbn [mbind option_bind].
    eexists. split; [done|]. rewrite Hmask. split.
    { rewrite Z.land_ones by lia. apply (wrapu_range w). lia. }
    intros j Hj. rewrite <- Z.add_assoc. bits_push.
    destruct (Z.ltb_spec j w); [|lia]. destruct (Z.ltb_spec j 32); [|lia]. bits_push.
    destruct (Z.ltb_spec (r + j) 32).
    + rewrite (map_bit_word map q w0) by (done || lia).
      rewrite (Z.testbit_neg_r w1) by lia. rewrite orb_false_r. f_equal. lia.
    + replace (32 * q + (r + j)) with (32 * (q + 1) + (r + j - 32)) by lia.
      rewrite (map_bit_word map (q + 1) w1) by (done || lia).
      rewrite (in_u_high 32 w0) by (done || lia). cbn [orb]. f_equal. lia.
  - eexists. split; [done|]. rewrite Hmask. split.
    { rewrite Z.land_ones by lia. apply (wrapu_range w). lia. }
    intros j Hj. rewrite <- Z.add_assoc. rewrite (map_bit_word map q w0) by (done || lia). bits_push.
    destruct (Z.ltb_spec j w); [|lia]. bits_push. f_equal. lia.
Qed.

(** [map[word] &= ~mask; map[word] |= mask & v] on a mask of the bits from [lo] on up to
    [hi]. *)
Lemma merge_word_spec map word mask v lo hi : Forall (in_u 32) map → 0 ≤ word < zlen map →
  0 ≤ lo ≤ hi → hi ≤ 32 →
  (∀ j, 0 ≤ j → Z.testbit mask j = (lo <=? j) && (j <? hi)) → 0 ≤ v →
  ∃ map', merge_word map word mask v = Some map' ∧ zlen map' = zlen map ∧ Forall (in_u 32) map' ∧
    ∀ b, 0 ≤ b → map_bit map' b =
      if decide (32 * word + lo ≤ b < 32 * word + hi) then Z.testbit v (b - 32 * word) else map_bit map b.
Proof using Type.
  intros Hu Hw Hlo Hhi Hmask Hv. unfold merge_word.
  destruct (znth_Some map word) as (x & -> & Hx); [lia|]. cbn [mbind option_bind].
  rewrite zset_Some by lia. eexists. split; [done|].
  assert (in_u 32 x) as Hux by (by apply (Forall_lookup_1 _ _ _ _ Hu Hx)).
  set (y := Z.lor (Z.land x (notu 32 mask)) (Z.land mask v)).
  assert (0 ≤ notu 32 mask) by (apply wrapu_range; lia).
  assert (∀ j, 0 ≤ j < 32 → Z.testbit y j = if decide (lo ≤ j < hi) then Z.testbit v j else Z.testbit x j) as Hy.
  { intros j Hj. unfold y, notu. bits_push. rewrite Hmask by lia.
    destruct (Z.ltb_spec j 32); [|lia].
    destruct (Z.leb_spec lo j), (Z.ltb_spec j hi); try lia; cbn [negb andb];
      first [rewrite decide_True by lia|rewrite decide_False by lia];
      by destruct (Z.testbit x j), (Z.testbit v j). }
  assert (in_u 32 y) as Huy.
  { apply in_u_bits; [lia| |].
    - apply Z.lor_nonneg. split; apply Z.land_nonneg; unfold in_u in Hux; lia.
    - intros i Hi. unfold y. bits_push. rewrite (in_u_high 32 x), Hmask by (done || lia).
      destruct (Z.ltb_spec i hi); [lia|]. by rewrite andb_false_r. }
  split; [by rewrite length_insert|]. split; [by apply Forall_insert|].
  intros b Hb. pose proof (Z.div_mod b 32 ltac:(done)) as Hdm. pose proof (Z.mod_pos_bound b 32 ltac:(done)).
  unfold map_bit. destruct (decide (b / 32 = word)) as [E|E].
  - rewrite E, list_lookup_insert_eq by lia. rewrite Hy by lia. rewrite E in Hdm.
    destruct (decide (lo ≤ b mod 32 < hi)).
    + rewrite decide_True by lia. f_equal. lia.
    + rewrite decide_False by lia. by rewrite Hx.
  - rewrite list_lookup_insert_ne by lia. by rewrite decide_False by lia.
Qed.

Lemma load_tnode_words_spec map pos val : words_ok map → 0 ≤ pos < 16 → 0 ≤ val →
  ∃ map', load_tnode_words map pos val = Some map' ∧ words_ok map' ∧
    ∀ b, 0 ≤ b → map_bit map' b =
      if decide (pos * tp_width tp ≤ b < pos * tp_width tp + tp_width tp)
      then Z.testbit (Z.shiftr val (tp_grp_bits tp)) (b - pos * tp_width tp) else map_bit map b.
Proof.
  intros Hm Hp Hv. destruct (words_room map Hm) as [Hroom _]. destruct Hm as [Hlen Hu].
  unfold load_tnode_words. destruct (field_place pos Hp) as (-> & -> & ->).
  pose proof tnode_geo0 as [Hw He Hmask Hg _]. set (w := tp_width tp) in *. set (s := pos * w).
  assert (0 ≤ s ∧ s + w ≤ 32 * zlen map) as Hs by (unfold s; nia).
  pose proof (Z.div_mod s 32 ltac:(done)) as Hdm. pose proof (Z.mod_pos_bound s 32 ltac:(done)) as Hr.
  set (q := s / 32) in *. set (r := s mod 32) in *. clearbody s q r. subst s. rewrite Hmask.
  assert (0 ≤ Z.shiftr val (tp_grp_bits tp)) as Hx by (apply Z.shiftr_nonneg; lia).
  set (x := Z.shiftr val (tp_grp_bits tp)) in *. clearbody x.
  destruct (merge_word_spec map q (u32 (Z.shiftl (Z.ones w) r)) (u32 (Z.shiftl x r)) r (Z.min 32 (r + w)))
    as (map1 & -> & Hl1 & Hu1 & Hb1); [done|lia|lia|lia| |apply wrapu_range; lia|].
  { intros j Hj. bits_push. destruct (Z.ltb_spec j 32), (Z.leb_spec r j), (Z.ltb_spec j (Z.min 32 (r + w)));
      try lia; cbn [andb]; first [done | by apply Z.testbit_neg_r; lia
      | rewrite Z.testbit_ones_nonneg by lia; first [apply Z.ltb_lt; lia | apply Z.ltb_ge; lia]]. }
  cbn [mbind option_bind].
  assert (∀ b, 32 * q + r ≤ b < 32 * q + Z.min 32 (r + w) →
    Z.testbit (u32 (Z.shiftl x r)) (b - 32 * q) = Z.testbit x (b - (32 * q + r))) as Hlow.
  { intros b Hb. bits_push. destruct (Z.ltb_spec (b - 32 * q) 32); [|lia]. cbn [andb]. f_equal. lia. }
  destruct (Z.ltb_spec (32 - r) w) as [Hlt|Hge].
  - destruct (merge_word_spec map1 (q + 1) (Z.shiftr (Z.ones w) (32 - r)) (Z.shiftr x (32 - r)) 0 (w - (32 - r)))
      as (map2 & -> & Hl2 & Hu2 & Hb2); [done|lia|lia|lia| |apply Z.shiftr_nonneg; lia|].
    { intros j Hj. rewrite Z.shiftr_spec, Z.testbit_ones_nonneg by lia.
      destruct (Z.leb_spec 0 j); [|lia]. cbn [andb].
      destruct (Z.ltb_spec (j + (32 - r)) w), (Z.ltb_spec j (w - (32 - r))); (done || lia). }
    exists map2. split; [done|]. split; [split; [lia|done]|]. intros b Hb. rewrite Hb2 by done.
    destruct (decide (32 * (q + 1) + 0 ≤ b < 32 * (q + 1) + (w - (32 - r)))).
    + rewrite decide_True by lia. rewrite Z.shiftr_spec by lia. f_equal. lia.
    + rewrite Hb1 by done. destruct (decide (32 * q + r ≤ b < 32 * q + Z.min 32 (r + w))).
      * rewrite decide_True by lia. by apply Hlow.
      * by rewrite decide_False by lia.
  - exists map1. split; [done|]. split; [split; [lia|done]|]. intros b Hb. rewrite Hb1 by done.
    destruct (decide (32 * q + r ≤ b < 32 * q + Z.min 32 (r + w))).
    + rewrite decide_True by lia. by apply Hlow.
    + by rewrite decide_False by lia.
Qed.

(** The group of the field [pos]. *)
Definition group_at (map : list Z) (pos : Z) : Z := default 0 (group_base_words map pos).

(** What a field can hold of a number. *)
Definition group_round (val : Z) : Z :=
  u32 (Z.shiftl (wrapu (tp_width tp) (Z.shiftr val (tp_grp_bits tp))) (tp_grp_bits tp)).

Lemma group_base_words_Some map pos : words_ok map → 0 ≤ pos < 16 →
  group_base_words map pos = Some (group_at map pos).
Proof.
  intros Hm Hp. destruct (group_base_words_spec map pos Hm Hp) as (v & Hv & _).
  unfold group_at. by rewrite Hv.
Qed.

Lemma group_at_load map map' pos val pos' : words_ok map → 0 ≤ pos < 16 → 0 ≤ pos' < 16 → 0 ≤ val →
  load_tnode_words map pos val = Some map' →
  group_at map' pos' = if decide (pos' = pos) then group_round val else group_at map pos'.
Proof.
  intros Hm Hp Hp' Hv Hl. pose proof tnode_geo0 as [Hw _ _ _ _].
  destruct (load_tnode_words_spec map pos val Hm Hp Hv) as (map2 & Hl2 & Hm' & Hb). simplify_eq.
  destruct (group_base_words_spec map' pos' Hm' Hp') as (v' & E' & Hr' & Hb').
  unfold group_at at 1. rewrite E'. cbn [default]. unfold from_option, id.
  destruct (decide (pos' = pos)) as [->|Hne].
  - unfold group_round. do 2 f_equal. apply Z.bits_inj'. intros j Hj. bits_push.
    destruct (Z.ltb_spec j (tp_width tp)); [|by rewrite (in_u_high (tp_width tp)) by (done || lia)].
    rewrite Hb', Hb by nia. rewrite decide_True by lia. cbn [andb].
    replace (pos * tp_width tp + j - pos * tp_width tp) with j by lia. by rewrite Z.shiftr_spec.
  - destruct (group_base_words_spec map pos' Hm Hp') as (v & E & Hr & Hbv).
    unfold group_at. rewrite E. cbn. do 2 f_equal. apply Z.bits_inj'. intros j Hj.
    destruct (Z.ltb_spec j (tp_width tp)); [|by rewrite !(in_u_high (tp_width tp)) by (done || lia)].
    rewrite Hb', Hbv, Hb by nia. by rewrite decide_False by nia.
Qed.

Lemma group_at_zero n pos : words_ok (replicate n 0) → 0 ≤ pos < 16 → group_at (replicate n 0) pos = 0.
Proof.
  intros Hm Hp. destruct (group_base_words_spec _ pos Hm Hp) as (v & E & Hr & Hb).
  pose proof tnode_geo0 as [Hw _ _ _ _].
  unfold group_at. rewrite E. cbn. assert (v = 0) as ->; [|by rewrite Z.shiftl_0_l].
  apply Z.bits_inj'. intros j Hj. rewrite Z.bits_0.
  destruct (Z.ltb_spec j (tp_width tp)); [|by rewrite (in_u_high (tp_width tp)) by (done || lia)].
  rewrite Hb by done. unfold map_bit. destruct (replicate n 0 !! _) eqn:Hx; [|done].
  apply lookup_replicate in Hx as [-> _]. apply Z.bits_0.
Qed.

(** The number of a group is kept whole. *)
Lemma group_round_id val : 0 ≤ val < 2 ^ (tp_width tp + tp_grp_bits tp) → val < 2 ^ 32 →
  val mod 2 ^ tp_grp_bits tp = 0 → group_round val = val.
Proof.
  intros Hv H32 Hm. pose proof tnode_geo0 as [Hw _ _ Hg _]. unfold group_round.
  rewrite Z.shiftr_div_pow2 by lia. pose proof (Z.div_mod val (2 ^ tp_grp_bits tp) ltac:(lia)).
  rewrite (wrapu_id (tp_width tp)).
  - rewrite Z.shiftl_mul_pow2 by lia. rewrite wrapu_id; unfold in_u; lia.
  - rewrite Z.pow_add_r in Hv by lia. split; [apply Z.div_pos; lia|].
    apply Z.div_lt_upper_bound; lia.
Qed.

Lemma pos_land pos : 0 ≤ pos → 0 ≤ Z.land pos YAFFS_TNODES_LEVEL0_MASK < 16 ∧
  Z.land (Z.land pos YAFFS_TNODES_LEVEL0_MASK) YAFFS_TNODES_LEVEL0_MASK = Z.land pos YAFFS_TNODES_LEVEL0_MASK.
Proof using Type.
  intros Hp. unfold YAFFS_TNODES_LEVEL0_MASK. change 0xf with (Z.ones 4).
  split; [rewrite Z.land_ones by lia; by apply Z.mod_pos_bound|]. by rewrite <- Z.land_assoc, Z.land_diag.
Qed.

Lemma group_base_words_land map pos : 0 ≤ pos →
  group_base_words map pos = group_base_words map (Z.land pos YAFFS_TNODES_LEVEL0_MASK).
Proof using Type. intros Hp. unfold group_base_words. by rewrite (proj2 (pos_land pos Hp)). Qed.

Lemma load_tnode_words_land map pos val : 0 ≤ pos →
  load_tnode_words map pos val = load_tnode_words map (Z.land pos YAFFS_TNODES_LEVEL0_MASK) val.
Proof using Type. intros Hp. unfold load_tnode_words. by rewrite (proj2 (pos_land pos Hp)). Qed.
End level0.

(** ** The store, the allocator and the device *)

(** [kmalloc] and [kfree] of the kernel's heap: the address of a block, 0 when there is
    none, with the words that it happens to hold. *)
Class kernel_mem (K : Type) := {
  kmalloc : Z → K → Z * list Z * K;
  kfree : Z → K → K
}.

(** The tnodes' part of [struct yaffs_allocator]; [alloc_tnode_list] has the address of
    each node of that list with the block of tnodes that it holds. *)
Record yaffs_allocator := mk_alloc {
  n_tnodes_created : Z;
  free_tnodes : Z;
  n_free_tnodes : Z;
  alloc_tnode_list : list (Z * Z)
}.

Record yaffs_fs (F K : Type) := mk_fs {
  fs_dev : yaffs_dev F;
  allocator : option yaffs_allocator;
  store : gmap Z (list Z);
  kmem : K
}.
Arguments mk_fs {F K}.
Arguments fs_dev {F K} _.
Arguments allocator {F K} _.
Arguments store {F K} _.
Arguments kmem {F K} _.

Definition set_fs_dev {F K} (v : yaffs_dev F) (s : yaffs_fs F K) : yaffs_fs F K :=
  mk_fs v (allocator s) (store s) (kmem s).
Definition set_allocator {F K} (v : option yaffs_allocator) (s : yaffs_fs F K) : yaffs_fs F K :=
  mk_fs (fs_dev s) v (store s) (kmem s).
Definition set_store {F K} (v : gmap Z (list Z)) (s : yaffs_fs F K) : yaffs_fs F K :=
  mk_fs (fs_dev s) (allocator s) v (kmem s).
Definition set_kmem {F K} (v : K) (s : yaffs_fs F K) : yaffs_fs F K :=
  mk_fs (fs_dev s) (allocator s) (store s) v.

(** [struct yaffs_file_var]. *)
Record yaffs_file_var := mk_file_var {
  file_size : Z;
  stored_size : Z;
  shrink_size : Z;
  top_level : Z;
  top : Z
}.

Definition set_top (level p : Z) (f : yaffs_file_var) : yaffs_file_var :=
  mk_file_var (file_size f) (stored_size f) (shrink_size f) level p.

Section tnodes.
Context {F K : Type} {km : kernel_mem K} (tp : tnode_params).
Abbreviation M := (prog (yaffs_fs F K)).

Definition on_dev {A} (m : prog (yaffs_dev F) A) : M A := zoom fs_dev set_fs_dev m.

(** [dev->checkpoint_blocks_required = 0] and [dev->n_tnodes += n]. *)
Definition clear_blocks_required : M () := on_dev (modify (set_checkpoint_blocks_required 0)).
Definition add_n_tnodes (n : Z) : M () := on_dev (modify (λ d, set_n_tnodes (n_tnodes d + n) d)).

(** [*tn], [tn->internal[x]] and the assignments to them. *)
Definition tn_words (tn : Z) : M (list Z) := s ← get; defined (store s !! tn).
Definition set_tn_words (tn : Z) (ws : list Z) : M () :=
  _ ← tn_words tn; modify (λ s, set_store (<[tn := ws]> (store s)) s).
Definition internal (tn x : Z) : M Z := ws ← tn_words tn; defined (znth ws x).
Definition set_internal (tn x v : Z) : M () :=
  ws ← tn_words tn;
  ws ← defined (zset ws x v);
  set_tn_words tn ws.

(** [dev->allocator]; the [BUG()] when there is none. *)
Definition get_allocator : M yaffs_allocator :=
  s ← get; match allocator s with Some a => mret a | None => fail FBug end.
Definition put_allocator (a : yaffs_allocator) : M () := modify (set_allocator (Some a)).

Definition call_kmalloc (size : Z) : M (Z * list Z) :=
  s ← get;
  let '(p, ws, k) := kmalloc size (kmem s) in
  put (set_kmem k s);;
  mret (p, ws).
Definition call_kfree (p : Z) : M () := modify (λ s, set_kmem (kfree p (kmem s)) s).

(** The block that [kmalloc] returned is read as [n] tnodes from here on. *)
Definition tnode_words : nat := Z.to_nat (tp_size tp / 4).
Fixpoint carve (n : nat) (mem : Z) (ws : list Z) : gmap Z (list Z) :=
  match n with
  | O => ∅
  | S n' => <[mem := take tnode_words ws]> (carve n' (mem + tp_size tp) (drop tnode_words ws))
  end.

(** The loop that links the [n + 1] tnodes from [curr] on; the result is the last. *)
Fixpoint link_loop (n : nat) (curr : Z) : M Z :=
  match n with
  | O => mret curr
  | S n' => set_internal curr 0 (curr + tp_size tp);; link_loop n' (curr + tp_size tp)
  end.

Definition yaffs_create_tnodes (n : nat) : M Z :=
  a ← get_allocator;
  if (Z.of_nat n <? 1) then mret YAFFS_OK
  else
    r ← call_kmalloc (Z.of_nat n * tp_size tp);
    let '(mem, ws) := r in
    if mem =? 0 then mret YAFFS_FAIL
    else
      modify (λ s, set_store (carve n mem ws ∪ store s) s);;
      last ← link_loop (n - 1) mem;
      set_internal last 0 (free_tnodes a);;
      let a := mk_alloc (n_tnodes_created a + Z.of_nat n) mem (n_free_tnodes a + Z.of_nat n)
                 (alloc_tnode_list a) in
      put_allocator a;;
      r ← call_kmalloc 8;
      let '(tnl, _) := r in
      if tnl =? 0 then mret YAFFS_FAIL
      else
        put_allocator (mk_alloc (n_tnodes_created a) (free_tnodes a) (n_free_tnodes a)
          ((tnl, mem) :: alloc_tnode_list a));;
        mret YAFFS_OK.

Definition yaffs_alloc_raw_tnode : M Z :=
  a ← get_allocator;
  (if free_tnodes a =? 0 then _ ← yaffs_create_tnodes YAFFS_ALLOCATION_NTNODES; mret () else mret ());;
  a ← get_allocator;
  if free_tnodes a =? 0 then mret 0
  else
    let tn := free_tnodes a in
    next ← internal tn 0;
    put_allocator (mk_alloc (n_tnodes_created a) next (n_free_tnodes a - 1) (alloc_tnode_list a));;
    mret tn.

Definition yaffs_free_raw_tnode (tn : Z) : M () :=
  a ← get_allocator;
  (if tn =? 0 then mret ()
   else
     set_internal tn 0 (free_tnodes a);;
     put_allocator (mk_alloc (n_tnodes_created a) tn (n_free_tnodes a + 1) (alloc_tnode_list a)));;
  clear_blocks_required.

Fixpoint free_blocks (l : list (Z * Z)) : M () :=
  match l with
  | [] => mret ()
  | (tnl, tnodes) :: l' => call_kfree tnodes;; call_kfree tnl;; free_blocks l'
  end.

Definition yaffs_deinit_raw_tnodes : M () :=
  a ← get_allocator;
  free_blocks (alloc_tnode_list a);;
  put_allocator (mk_alloc 0 0 0 []).

Definition yaffs_init_raw_tnodes : M () :=
  _ ← get_allocator; put_allocator (mk_alloc 0 0 0 []).

Definition yaffs_get_tnode : M Z :=
  tn ← yaffs_alloc_raw_tnode;
  (if tn =? 0 then mret ()
   else set_tn_words tn (replicate tnode_words 0);; add_n_tnodes 1);;
  clear_blocks_required;;
  mret tn.

Definition yaffs_free_tnode (tn : Z) : M () :=
  yaffs_free_raw_tnode tn;;
  add_n_tnodes (-1);;
  clear_blocks_required.

Definition yaffs_load_tnode_0 (tn pos val : Z) : M () :=
  ws ← tn_words tn;
  ws ← defined (load_tnode_words tp ws pos val);
  set_tn_words tn ws.

Definition yaffs_get_group_base (tn pos : Z) : M Z :=
  ws ← tn_words tn;
  defined (group_base_words tp ws pos).

(** ** The tree *)

(** The depth that a chunk number needs; 10 rounds are enough for 28 bits. *)
Fixpoint depth_loop (n : nat) (i required_depth : Z) : Z :=
  match n with
  | O => required_depth
  | S n' =>
      if i =? 0 then required_depth
      else depth_loop n' (Z.shiftr i YAFFS_TNODES_INTERNAL_BITS) (required_depth + 1)
  end.
Definition required_depth (chunk_id : Z) : Z :=
  depth_loop 10 (Z.shiftr chunk_id YAFFS_TNODES_LEVEL0_BITS) 0.

(** The index of the child at level [l + 1]. *)
Definition tn_index (l : nat) (chunk_id : Z) : Z :=
  Z.land (Z.shiftr chunk_id (YAFFS_TNODES_LEVEL0_BITS + Z.of_nat l * YAFFS_TNODES_INTERNAL_BITS))
    YAFFS_TNODES_INTERNAL_MASK.

(** The [while] of [yaffs_find_tnode_0]; [l] is the level. *)
Fixpoint find_walk (l : nat) (tn chunk_id : Z) : M Z :=
  match l with
  | O => mret tn
  | S l' =>
      if tn =? 0 then mret tn
      else tn ← internal tn (tn_index l' chunk_id); find_walk l' tn chunk_id
  end.

Definition yaffs_find_tnode_0 (f : yaffs_file_var) (chunk_id : Z) : M Z :=
  if (top_level f <? 0) || (YAFFS_TNODES_MAX_LEVEL <? top_level f) then mret 0
  else if YAFFS_MAX_CHUNK_ID <? chunk_id then mret 0
  else if top_level f <? required_depth chunk_id then mret 0
  else find_walk (Z.to_nat (top_level f)) (top f) chunk_id.

(** The [for] of [yaffs_add_find_tnode_0] that adds [n] levels; [false] when there is no
    tnode left. *)
Fixpoint grow_loop (n : nat) (f : yaffs_file_var) : M (bool * yaffs_file_var) :=
  match n with
  | O => mret (true, f)
  | S n' =>
      tn ← yaffs_get_tnode;
      if tn =? 0 then mret (false, f)
      else
        set_internal tn 0 (top f);;
        grow_loop n' (set_top (top_level f + 1) tn f)
  end.

(** Its [while]; [passed_tn] is 0 when no tnode is passed. *)
Fixpoint add_walk (l : nat) (tn chunk_id passed_tn : Z) : M Z :=
  match l with
  | O => mret tn
  | S l' =>
      if tn =? 0 then mret tn
      else
        let x := tn_index l' chunk_id in
        child ← internal tn x;
        ok ← match l' with
             | S _ =>
                 if child =? 0 then
                   t ← yaffs_get_tnode; set_internal tn x t;; mret (negb (t =? 0))
                 else mret true
             | O =>
                 if negb (passed_tn =? 0) then
                   (if child =? 0 then mret () else yaffs_free_tnode child);;
                   set_internal tn x passed_tn;; mret true
                 else if child =? 0 then
                   t ← yaffs_get_tnode; set_internal tn x t;; mret (negb (t =? 0))
                 else mret true
             end;
        if negb (ok : bool) then mret 0
        else tn ← internal tn x; add_walk l' tn chunk_id passed_tn
  end.

(** The tnode, and the file's root, which may be new. *)
Definition yaffs_add_find_tnode_0 (f : yaffs_file_var) (chunk_id passed_tn : Z) : M (Z * yaffs_file_var) :=
  if (top_level f <? 0) || (YAFFS_TNODES_MAX_LEVEL <? top_level f) then mret (0, f)
  else if YAFFS_MAX_CHUNK_ID <? chunk_id then mret (0, f)
  else
    r ← (if top_level f <? required_depth chunk_id
         then grow_loop (Z.to_nat (required_depth chunk_id - top_level f)) f
         else mret (true, f));
    let '(ok, f) := (r : bool * yaffs_file_var) in
    if negb ok then mret (0, f)
    else if 0 <? top_level f then
      tn ← add_walk (Z.to_nat (top_level f)) (top f) chunk_id passed_tn; mret (tn, f)
    else
      (if passed_tn =? 0 then mret ()
       else
         from ← tn_words passed_tn;
         to ← tn_words (top f);
         let n := Z.to_nat (tp_width tp * 16 / 8 / 4) in
         set_tn_words (top f) (take n from ++ drop n to);;
         yaffs_free_tnode passed_tn);;
      mret (top f, f).

(** The [for] over the children of [yaffs_prune_worker]. *)
Fixpoint prune_children (rec : Z → bool → M Z) (tn : Z) (del0 : bool) (n : nat) (i has_data : Z) : M Z :=
  match n with
  | O => mret has_data
  | S n' =>
      t ← internal tn i;
      (if t =? 0 then mret ()
       else t ← rec t (if i =? 0 then del0 else true); set_internal tn i t);;
      t ← internal tn i;
      prune_children rec tn del0 n' (i + 1) (if t =? 0 then has_data else has_data + 1)
  end.

Fixpoint yaffs_prune_worker (l : nat) (tn : Z) (del0 : bool) : M Z :=
  if tn =? 0 then mret tn
  else
    has_data ← match l with
               | S l' => prune_children (yaffs_prune_worker l') tn del0 YAFFS_NTNODES_INTERNAL 0 0
               | O =>
                   map ← tn_words tn;
                   mret (if forallb (λ w, w =? 0) (take tnode_words map) then 0 else 1)
               end;
    if (has_data =? 0) && del0 then yaffs_free_tnode tn;; mret 0 else mret tn.

(** Whether [tn->internal[i]] to [tn->internal[7]] hold something. *)
Fixpoint has_children (n : nat) (tn i : Z) : M bool :=
  match n with
  | O => mret false
  | S n' => t ← internal tn i; r ← has_children n' tn (i + 1); mret (negb (t =? 0) || r)
  end.

(** The [while] of [yaffs_prune_tree]; [n] is the level. *)
Fixpoint lower_loop (n : nat) (f : yaffs_file_var) : M yaffs_file_var :=
  match n with
  | O => mret f
  | S n' =>
      let tn := top f in
      has_data ← has_children 7 tn 1;
      if has_data : bool then mret f
      else
        t ← internal tn 0;
        let f := set_top (top_level f - 1) t f in
        yaffs_free_tnode tn;;
        lower_loop n' f
  end.

Definition yaffs_prune_tree (f : yaffs_file_var) : M yaffs_file_var :=
  if top_level f <? 1 then mret f
  else
    t ← yaffs_prune_worker (Z.to_nat (top_level f)) (top f) false;
    lower_loop (Z.to_nat (top_level f)) (set_top (top_level f) t f).
End tnodes.
