(* ===== verification/YaffsTree.v ===== *)
(** * YAFFS: what the trees of files promise

    The allocator of tnodes hands out tnodes that are not in use, a file's tree is a map
    from chunk numbers to groups of chunks, and the operations of [YaffsTnode] on it run
    without faults, own what they change, and keep the rest of the store. *)

From S2P Require Import Prelude YaffsDev YaffsTnode.

(** What the kernel's heap promises: a block that it returns lies in the address space,
    overlaps none that is owned, and holds words. *)
Class kernel_mem_ok (K : Type) {km : kernel_mem K} := {
  owned : K → Z → Prop;
  kmalloc_owned : ∀ size k x, owned k x → owned (kmalloc size k).2 x;
  kmalloc_block : ∀ size k, 0 ≤ size →
    let '(p, ws, k') := kmalloc size k in
    p = 0 ∨ (0 < p ∧ p + size ≤ 2 ^ 32 ∧ zlen ws = size / 4 ∧ Forall (in_u 32) ws ∧
             ∀ x, p ≤ x < p + size → ¬ owned k x ∧ owned k' x)
}.

Section tnode_specs.
Context {F K : Type} {km : kernel_mem K} `{!kernel_mem_ok K} (tp : tnode_params) `{Htg : !tnode_geo tp}.
Abbreviation M := (prog (yaffs_fs F K)).
Implicit Types (s : yaffs_fs F K) (h : gmap Z (list Z)) (A R : list Z).
#[local] Set Default Proof Using "Type*".

(** ** Ownership of tnodes *)

(** The tnodes on the free list that starts at [p]. *)
Fixpoint free_list h (p : Z) (l : list Z) : Prop :=
  match l with
  | [] => p = 0
  | a :: l' => p = a ∧ ∃ ws next, h !! a = Some ws ∧ ws !! 0%nat = Some next ∧ free_list h next l'
  end.

(** [A] has the tnodes that are in use: they and the free ones are different tnodes. *)
Record good s A : Prop := {
  g_free : ∃ a l, allocator s = Some a ∧ free_list (store s) (free_tnodes a) l ∧
             n_free_tnodes a = zlen l ∧ NoDup (A ++ l);
  g_words : ∀ p ws, store s !! p = Some ws → 0 < p < 2 ^ 32 ∧ words_ok tp ws ∧ owned (kmem s) p;
  g_dom : ∀ p, p ∈ A → is_Some (store s !! p)
}.

(** The device but for the count of its tnodes, and the tnodes of [A], are kept. *)
Record same A s s' : Prop := {
  same_store : ∀ p, p ∈ A → store s' !! p = store s !! p;
  same_dev : set_n_tnodes 0 (set_checkpoint_blocks_required 0 (fs_dev s')) =
             set_n_tnodes 0 (set_checkpoint_blocks_required 0 (fs_dev s))
}.

#[export] Instance same_preorder A : PreOrder (same A).
Proof using Type.
  split; [by split|]. intros s1 s2 s3 [H1 G1] [H2 G2]. split; [|congruence].
  intros p Hp. rewrite H2 by done. by apply H1.
Qed.

Lemma same_mono A A' s s' : A' ⊆ A → same A s s' → same A' s s'.
Proof. intros HA [H1 H2]. split; [|done]. intros p Hp. by apply H1, HA. Qed.

Lemma good_perm s A A' : A ≡ₚ A' → good s A → good s A'.
Proof.
  intros HA [(a & l & H1 & H2 & H3 & H4) H5 H6]. split; [|done|].
  - exists a, l. by rewrite <- HA.
  - intros p Hp. apply H6. by rewrite HA.
Qed.

Lemma good_nodup s A : good s A → NoDup A.
Proof. intros [(a & l & _ & _ & _ & H) _ _]. by apply NoDup_app in H as [? _]. Qed.

Lemma good_word s A p : good s A → p ∈ A → ∃ ws, store s !! p = Some ws ∧ words_ok tp ws ∧ 0 < p < 2 ^ 32.
Proof.
  intros Hg Hp. destruct (g_dom _ _ Hg p Hp) as [ws Hws]. exists ws. split; [done|].
  by destruct (g_words _ _ Hg p ws Hws) as (? & ? & _).
Qed.

Lemma free_list_insert h p l q ws : q ∉ l → free_list h p l → free_list (<[q := ws]> h) p l.
Proof using tp Htg.
  revert p. induction l as [|a l IH]; intros p Hq Hl; [done|].
  destruct Hl as (-> & ws' & next & H1 & H2 & H3). split; [done|]. exists ws', next.
  rewrite lookup_insert_ne by set_solver. split; [done|]. split; [done|]. apply IH; [set_solver|done].
Qed.

(** A tnode in use is written. *)
Lemma good_write s A p ws : good s A → p ∈ A → words_ok tp ws → good (set_store (<[p := ws]> (store s)) s) A.
Proof.
  intros Hg Hp Hws. destruct (good_word s A p Hg Hp) as (ws0 & Hws0 & _).
  destruct Hg as [(a & l & H1 & H2 & H3 & H4) H5 H6]. split; cbn [store allocator kmem set_store].
  - exists a, l. split; [done|]. split; [|done]. apply free_list_insert; [|done].
    apply NoDup_app in H4 as (_ & H4 & _). by apply H4.
  - intros q ws' Hq. destruct (decide (q = p)) as [->|Hne].
    + rewrite lookup_insert_eq in Hq. simplify_eq. destruct (H5 p ws0 Hws0) as (? & _ & ?). done.
    + rewrite lookup_insert_ne in Hq by done. by apply H5.
  - intros q Hq. destruct (decide (q = p)) as [->|Hne]; [rewrite lookup_insert_eq; eauto|].
    rewrite lookup_insert_ne by done. by apply H6.
Qed.

Lemma words_ok_insert ws (x : nat) v : words_ok tp ws → in_u 32 v → words_ok tp (<[x := v]> ws).
Proof. intros [H1 H2] Hv. split; [by rewrite length_insert|by apply Forall_insert]. Qed.

Lemma words_ok_lookup ws x v : words_ok tp ws → ws !! x = Some v → in_u 32 v.
Proof. intros [_ H] Hx. by apply (Forall_lookup_1 _ _ _ _ H Hx). Qed.

Lemma ends_tn_words p ws s (Q : list Z → yaffs_fs F K → Prop) : store s !! p = Some ws → Q ws s →
  ends (tn_words p) s Q.
Proof. intros Hp HQ. unfold tn_words. apply ends_bind, ends_get. rewrite Hp. by apply ends_ret. Qed.

Lemma ends_set_tn_words p ws ws0 s (Q : () → yaffs_fs F K → Prop) : store s !! p = Some ws0 →
  Q () (set_store (<[p := ws]> (store s)) s) → ends (set_tn_words p ws) s Q.
Proof. intros Hp HQ. unfold set_tn_words. by eapply ends_bind, ends_tn_words, ends_modify. Qed.

Lemma ends_internal p ws (x : Z) v s (Q : Z → yaffs_fs F K → Prop) : store s !! p = Some ws →
  0 ≤ x → ws !! Z.to_nat x = Some v → Q v s → ends (internal p x) s Q.
Proof.
  intros Hp Hx Hv HQ. unfold internal. eapply ends_bind, ends_tn_words; [done|].
  rewrite znth_lookup, Hv by done. by apply ends_ret.
Qed.

Lemma ends_set_internal p ws (x v : Z) s (Q : () → yaffs_fs F K → Prop) : store s !! p = Some ws →
  words_ok tp ws → 0 ≤ x < 8 →
  Q () (set_store (<[p := <[Z.to_nat x := v]> ws]> (store s)) s) → ends (set_internal p x v) s Q.
Proof.
  intros Hp Hws Hx HQ. unfold set_internal. eapply ends_bind, ends_tn_words; [done|].
  destruct (words_room tp ws Hws). rewrite zset_Some by lia. apply ends_bind, ends_ret.
  by eapply ends_set_tn_words.
Qed.

(** ** The allocator *)

Fixpoint addrs (n : nat) (p : Z) : list Z :=
  match n with O => [] | S n' => p :: addrs n' (p + tp_size tp) end.

Lemma elem_addrs n : ∀ p q, q ∈ addrs n p ↔ ∃ i, (i < n)%nat ∧ q = p + Z.of_nat i * tp_size tp.
Proof using Type.
  induction n as [|n IH]; intros p q; cbn [addrs].
  - split; [by intros ?%elem_of_nil|intros (i & Hi & _); lia].
  - rewrite elem_of_cons, IH. split.
    + intros [->|(i & Hi & ->)]; [exists O; split; lia|exists (S i); split; lia].
    + intros ([|i] & Hi & ->); [left; lia|right; exists i; split; lia].
Qed.

Lemma size_bound : 32 ≤ tp_size tp ≤ 60 ∧ tp_size tp mod 4 = 0 ∧ Z.of_nat (tnode_words tp) = tp_size tp / 4.
Proof.
  destruct Htg as [Hw He _ _ Hs]. unfold tnode_words. pose proof (Z.div_mod (tp_width tp) 2 ltac:(done)).
  rewrite He in H. assert (32 ≤ tp_size tp ≤ 60) as Hb by lia. split; [done|]. split.
  - rewrite Hs. destruct (Z.max_spec (2 * tp_width tp) 32) as [[_ ->]|[_ ->]]; [done|].
    replace (2 * tp_width tp) with (tp_width tp / 2 * 4) by lia. by apply Z.mod_mul.
  - assert (0 ≤ tp_size tp / 4) by (apply Z.div_pos; lia). lia.
Qed.

Lemma addrs_nodup n p : NoDup (addrs n p).
Proof.
  revert p. induction n as [|n IH]; intros p; cbn [addrs]; constructor; [|done].
  rewrite elem_addrs. intros (i & Hi & E). pose proof size_bound as [? _]. nia.
Qed.

Lemma length_addrs n p : length (addrs n p) = n.
Proof using Type. revert p. induction n; intros; cbn; auto. Qed.

Lemma words_ok_length ws : words_ok tp ws → length ws = (tnode_words tp).
Proof. intros [H _]. destruct size_bound as (_ & Hm & Hw). pose proof (Z.div_mod (tp_size tp) 4 ltac:(done)). lia. Qed.

Lemma words_ok_zero : words_ok tp (replicate (tnode_words tp) 0).
Proof.
  destruct size_bound as (Hb & Hm & Hw). pose proof (Z.div_mod (tp_size tp) 4 ltac:(done)).
  split; [rewrite length_replicate; lia|]. apply Forall_replicate. done.
Qed.

(** The block as tnodes. *)
Lemma carve_spec n : ∀ mem ws, length ws = (n * (tnode_words tp))%nat → Forall (in_u 32) ws →
  (∀ p, p ∈ addrs n mem → ∃ w, carve tp n mem ws !! p = Some w ∧ words_ok tp w) ∧
  (∀ p, p ∉ addrs n mem → carve tp n mem ws !! p = None).
Proof.
  destruct size_bound as (Hb & Hm & Hw). pose proof (Z.div_mod (tp_size tp) 4 ltac:(done)).
  induction n as [|n IH]; intros mem ws Hl Hu; cbn [carve addrs].
  - split; [by intros p ?%elem_of_nil|]. intros. apply lookup_empty.
  - destruct (IH (mem + tp_size tp) (drop (tnode_words tp) ws)) as [IH1 IH2];
      [rewrite length_drop; lia|by apply Forall_drop|].
    split; intros p Hp.
    + destruct (decide (p = mem)) as [->|Hne].
      * rewrite lookup_insert_eq. eexists. split; [done|]. split; [rewrite length_take; lia|by apply Forall_take].
      * rewrite lookup_insert_ne by done. apply IH1. set_solver.
    + rewrite lookup_insert_ne by set_solver. apply IH2. set_solver.
Qed.

(** The block is linked: it becomes a free list. *)
Lemma link_run n : ∀ curr s,
  (∀ q, q ∈ addrs (S n) curr → ∃ ws, store s !! q = Some ws ∧ words_ok tp ws) →
  0 < curr → curr + Z.of_nat n * tp_size tp < 2 ^ 32 →
  ends (link_loop tp n curr) s (λ last s1, ends (set_internal last 0 0) s1 (λ _ s', ∃ h',
    s' = set_store h' s ∧ (∀ q, q ∉ addrs (S n) curr → h' !! q = store s !! q) ∧
    (∀ q, q ∈ addrs (S n) curr → ∃ ws, h' !! q = Some ws ∧ words_ok tp ws) ∧
    free_list h' curr (addrs (S n) curr))).
Proof.
  destruct size_bound as (Hb & _). induction n as [|n IH]; intros curr s Hs H0 Hu; cbn [link_loop].
  - apply ends_ret. destruct (Hs curr) as (ws & Hws & Hok); [set_solver|].
    eapply ends_set_internal; [done|done|lia|]. destruct (words_room tp ws Hok) as [_ Hlen].
    eexists. split; [done|]. split; [|split].
    + intros q Hq. apply lookup_insert_ne. set_solver.
    + intros q Hq. cbn in Hq. apply list_elem_of_singleton in Hq as ->. rewrite lookup_insert_eq.
      eexists. split; [done|]. by apply words_ok_insert.
    + cbn. split; [done|]. exists (<[0%nat := 0]> ws), 0. rewrite lookup_insert_eq. split; [done|].
      split; [by apply list_lookup_insert_eq; lia|done].
  - destruct (Hs curr) as (ws & Hws & Hok); [set_solver|]. destruct (words_room tp ws Hok) as [_ Hlen].
    apply ends_bind. eapply ends_set_internal; [done|done|lia|].
    set (s1 := set_store _ s). assert (curr ∉ addrs (S n) (curr + tp_size tp)) as Hn.
    { rewrite elem_addrs. intros (i & Hi & E). nia. }
    eapply ends_mono; [apply (IH (curr + tp_size tp) s1)|].
    + intros q Hq. assert (q ≠ curr) by congruence. destruct (Hs q) as (w & Hw & Hwok); [set_solver|].
      exists w. cbn. by rewrite lookup_insert_ne.
    + lia.
    + lia.
    + intros last s2 Hend. eapply ends_mono; [exact Hend|]. clear Hend last s2. intros _ s2 (h' & -> & H1 & H2 & H3).
      exists h'. split; [done|]. assert (h' !! curr = Some (<[Z.to_nat 0 := curr + tp_size tp]> ws)) as Hcurr.
      { rewrite H1 by done. cbn. apply lookup_insert_eq. }
      split; [|split].
      * intros q Hq. cbn [addrs] in Hq. rewrite H1 by set_solver. cbn. apply lookup_insert_ne. set_solver.
      * intros q Hq. destruct (decide (q = curr)) as [->|Hne]; [|apply H2; cbn [addrs] in *; set_solver].
        eexists. split; [done|]. apply words_ok_insert; [done|unfold in_u; lia].
      * cbn [addrs free_list]. split; [done|]. eexists _, (curr + tp_size tp). split; [done|].
        split; [apply list_lookup_insert_eq; lia|exact H3].
Qed.

(** A free list of new tnodes is a good one. *)
Lemma block_added s s' A a n mem c t : good s A → n_free_tnodes a = 0 →
  (∀ p, p ∈ addrs n mem → store s !! p = None ∧ owned (kmem s') p ∧ 0 < p < 2 ^ 32) →
  (∀ x, owned (kmem s) x → owned (kmem s') x) →
  allocator s' = Some (mk_alloc c mem (n_free_tnodes a + Z.of_nat n) t) →
  (∀ q, q ∉ addrs n mem → store s' !! q = store s !! q) →
  (∀ q, q ∈ addrs n mem → ∃ ws, store s' !! q = Some ws ∧ words_ok tp ws) →
  free_list (store s') mem (addrs n mem) → fs_dev s' = fs_dev s → good s' A ∧ same A s s'.
Proof.
  intros Hg Hcount Hnew Hk Hal Hold L2 L3 Hdev.
  assert (∀ q, q ∈ A → q ∉ addrs n mem) as Hdisj.
  { intros q Hq Hq'. destruct (g_dom _ _ Hg q Hq). destruct (Hnew q Hq') as [? _]. congruence. }
  split; [split|split].
  - eexists _, (addrs n mem). split; [exact Hal|]. cbn [free_tnodes n_free_tnodes].
    split; [done|]. rewrite length_addrs, Hcount. split; [lia|]. apply NoDup_app.
    split; [by apply good_nodup in Hg|]. split; [done|]. apply addrs_nodup.
  - intros p w Hp. destruct (decide (p ∈ addrs n mem)) as [Hin'|Hni].
    + destruct (L2 p Hin') as (w' & Hw' & Hok). simplify_eq. destruct (Hnew p Hin') as (_ & ? & ?). auto.
    + rewrite Hold in Hp by done. destruct (g_words _ _ Hg p w Hp) as (? & ? & ?). auto.
  - intros p Hp. rewrite Hold by auto. by apply (g_dom _ _ Hg).
  - intros p Hp. by rewrite Hold by auto.
  - by rewrite Hdev.
Qed.

(** The kernel has no block for [n] tnodes. *)
Definition no_memory (n : nat) : Prop := ∃ k, (kmalloc (Z.of_nat n * tp_size tp) k).1.1 = 0.

(** The block that [kmalloc] returns is new and becomes the free list. *)
Lemma create_tnodes_run n s A a : good s A → allocator s = Some a → free_tnodes a = 0 → (1 ≤ n)%nat →
  ends (yaffs_create_tnodes tp n) s (λ _ s', good s' A ∧ same A s s' ∧
    (no_memory n ∨ ∃ a', allocator s' = Some a' ∧ free_tnodes a' ≠ 0)).
Proof.
  intros Hg Ha Hf Hn. pose proof size_bound as (Hb & Hm & Hw).
  destruct (g_free _ _ Hg) as (a' & l & Ha' & Hl & Hcount & Hnd). simplify_eq.
  assert (l = []) as ->.
  { destruct l as [|q l]; [done|]. destruct Hl as (E & ws & next & Hq & _). rewrite Hf in E. subst q.
    destruct (g_words _ _ Hg 0 ws Hq). lia. }
  rewrite app_nil_r in Hnd. unfold yaffs_create_tnodes.
  apply ends_bind. unfold get_allocator. apply ends_bind, ends_get. rewrite Ha. apply ends_ret.
  destruct (Z.ltb_spec (Z.of_nat n) 1); [lia|].
  apply ends_bind. unfold call_kmalloc. apply ends_bind, ends_get.
  pose proof (kmalloc_block (Z.of_nat n * tp_size tp) (kmem s) ltac:(lia)) as Hblock.
  pose proof (kmalloc_owned (Z.of_nat n * tp_size tp) (kmem s)) as Hown.
  destruct (kmalloc _ (kmem s)) as [[mem ws] k] eqn:Hkm. cbn [snd] in Hown. apply ends_bind, ends_put, ends_ret.
  destruct (Z.eqb_spec mem 0) as [->|Hne].
  { apply ends_ret. split; [|split; [by split|by left; exists (kmem s); rewrite Hkm]]. split; [|intros p w Hp|intros p Hp; by apply (g_dom _ _ Hg)].
    - exists a, []. rewrite Hf. split; [done|]. split; [done|]. split; [done|]. by rewrite app_nil_r.
    - destruct (g_words _ _ Hg p w Hp) as (? & ? & ?). split; [done|]. split; [done|]. by apply Hown. }
  destruct Hblock as [?|(H0 & Hend & Hlen & Hu & Hfresh)]; [done|].
  destruct (carve_spec n mem ws) as [Hc1 Hc2]; [|done|].
  { pose proof (Z.div_mod (tp_size tp) 4 ltac:(done)).
    replace (Z.of_nat n * tp_size tp) with (Z.of_nat n * (tp_size tp / 4) * 4) in Hlen by nia.
    rewrite Z.div_mul in Hlen by done. nia. }
  assert (∀ p, p ∈ addrs n mem → store s !! p = None ∧ owned k p ∧ 0 < p < 2 ^ 32) as Hnew.
  { intros p (i & Hi & ->)%elem_addrs. assert (mem ≤ mem + Z.of_nat i * tp_size tp < mem + Z.of_nat n * tp_size tp) by nia.
    destruct (Hfresh (mem + Z.of_nat i * tp_size tp)) as [B1 B2]; [done|].
    split; [|split; [done|lia]]. destruct (store s !! _) as [w|] eqn:E; [|done].
    destruct (g_words _ _ Hg _ _ E) as (_ & _ & ?). done. }
  apply ends_bind, ends_modify. set (s1 := set_store _ _). destruct n as [|n]; [lia|].
  replace (S n - 1)%nat with n by lia.
  assert (∀ q, q ∈ addrs (S n) mem → store s1 !! q = carve tp (S n) mem ws !! q) as Hin.
  { intros q Hq. destruct (Hc1 q Hq) as (w & Hw' & _). change (store s1) with (carve tp (S n) mem ws ∪ store s).
    rewrite Hw'. by apply lookup_union_Some_l. }
  assert (∀ q, q ∉ addrs (S n) mem → store s1 !! q = store s !! q) as Hout.
  { intros q Hq. change (store s1) with (carve tp (S n) mem ws ∪ store s). by apply lookup_union_r, Hc2. }
  apply ends_bind. eapply ends_mono; [apply (link_run n mem s1)|].
  { intros q Hq. rewrite Hin by done. by apply Hc1. }
  { done. }
  { nia. }
  intros last s2 Hrun. apply ends_bind. rewrite Hf. eapply ends_mono; [exact Hrun|]. clear Hrun last s2.
  intros _ s2 (h' & -> & L1 & L2 & L3).
  assert (∀ q, q ∉ addrs (S n) mem → h' !! q = store s !! q) as Hold by (intros q Hq; rewrite L1; auto).
  apply ends_bind, ends_modify. apply ends_bind. unfold call_kmalloc. apply ends_bind, ends_get.
  cbn [kmem set_allocator set_store set_kmem s1].
  pose proof (kmalloc_owned 8 k) as Hown2. destruct (kmalloc 8 k) as [[tnl ws2] k2]. cbn [snd] in Hown2.
  apply ends_bind, ends_put, ends_ret.
  destruct (tnl =? 0); [apply ends_ret|apply ends_bind, ends_modify, ends_ret];
    (apply and_assoc; split; [|right; by eexists];
     eapply (block_added s _ A a (S n) mem); try done; [intros p Hp; destruct (Hnew p Hp) as (? & ? & ?); auto|auto]).
Qed.

(** A tnode is taken, with what it happens to hold, or there is none. *)
Lemma alloc_raw_tnode_run s A : good s A →
  ends (yaffs_alloc_raw_tnode tp) s (λ r s', same A s s' ∧
    if r =? 0 then good s' A ∧ no_memory YAFFS_ALLOCATION_NTNODES else good s' (r :: A)).
Proof.
  intros Hg. unfold yaffs_alloc_raw_tnode.
  destruct (g_free _ _ Hg) as (a0 & l0 & Ha0 & _).
  apply ends_bind. unfold get_allocator at 1. apply ends_bind, ends_get. rewrite Ha0. apply ends_ret.
  eapply (ends_seq _ _ _ (λ _ s1, good s1 A ∧ same A s s1 ∧ (no_memory YAFFS_ALLOCATION_NTNODES ∨
    ∃ a', allocator s1 = Some a' ∧ free_tnodes a' ≠ 0))).
  { destruct (Z.eqb_spec (free_tnodes a0) 0); [|apply ends_ret; split; [done|split; [done|right; by exists a0]]].
    eapply ends_seq; [apply (create_tnodes_run YAFFS_ALLOCATION_NTNODES s A a0); try done; unfold YAFFS_ALLOCATION_NTNODES; lia|].
    intros ? s1 H1. by apply ends_ret. }
  intros _ s1 (Hg1 & Hs1 & Hmem). destruct (g_free _ _ Hg1) as (a & l & Ha & Hl & Hcount & Hnd).
  apply ends_bind. unfold get_allocator. apply ends_bind, ends_get. rewrite Ha. apply ends_ret.
  destruct (Z.eqb_spec (free_tnodes a) 0) as [Hz|Hnz].
  { apply ends_ret. split; [done|]. split; [done|]. destruct Hmem as [?|(a' & Ha' & Hf)]; [done|]. congruence. }
  destruct l as [|q l]; [done|]. destruct Hl as (Hq & ws & next & Hws & Hnext & Hl). rewrite Hq.
  apply ends_bind. eapply (ends_internal q ws 0 next); [done|lia|done|].
  apply ends_bind, ends_modify, ends_ret. split.
  { etrans; [exact Hs1|]. by split. }
  destruct (Z.eqb_spec q 0); [congruence|]. split.
  - eexists _, l. split; [done|]. cbn [free_tnodes n_free_tnodes store set_allocator].
    split; [done|]. split; [rewrite Hcount; cbn [length]; lia|].
    rewrite <- app_comm_cons. apply NoDup_cons. rewrite NoDup_app in Hnd.
    destruct Hnd as (H1 & H2 & H3). apply NoDup_cons in H3 as [H3 H4].
    split; [|apply NoDup_app; split; [done|split; [|done]]; set_solver]. rewrite elem_of_app.
    intros [Hin|Hin]; [|done]. apply (H2 q Hin). set_solver.
  - apply (g_words _ _ Hg1).
  - intros p [->|Hp]%elem_of_cons; [by eexists|]. by apply (g_dom _ _ Hg1).
Qed.

(** The new tnode is zero. *)
Lemma get_tnode_run s A : good s A →
  ends (yaffs_get_tnode tp) s (λ r s', same A s s' ∧
    if r =? 0 then good s' A ∧ no_memory YAFFS_ALLOCATION_NTNODES
    else good s' (r :: A) ∧ store s' !! r = Some (replicate (tnode_words tp) 0)).
Proof.
  intros Hg. unfold yaffs_get_tnode. eapply ends_seq; [by apply (alloc_raw_tnode_run s A)|].
  intros r s1 [Hs1 Hg1]. destruct (Z.eqb_spec r 0) as [->|Hne].
  - apply ends_bind, ends_ret. apply ends_bind, ends_zoom, ends_modify, ends_ret.
    split; [etrans; [exact Hs1|by split]|]. cbn. destruct Hg1 as [[G1 G2 G3] Hmem]. by split.
  - apply ends_bind. destruct (good_word s1 _ r Hg1) as (ws & Hws & _); [set_solver|].
    apply ends_bind. eapply ends_set_tn_words; [done|]. apply ends_zoom, ends_modify.
    apply ends_bind, ends_zoom, ends_modify, ends_ret. destruct (Z.eqb_spec r 0); [done|].
    pose proof (good_write s1 _ r (replicate (tnode_words tp) 0) Hg1 ltac:(set_solver) words_ok_zero) as [G1 G2 G3].
    split; [|split; [by split|apply lookup_insert_eq]].
    etrans; [exact Hs1|]. split; [|done]. intros p Hp. cbn. apply lookup_insert_ne.
    apply good_nodup, NoDup_cons in Hg1 as [Hr _]. set_solver.
Qed.

Lemma free_tnode_run s A p : good s (p :: A) →
  ends (yaffs_free_tnode (F:=F) (K:=K) p) s (λ _ s', good s' A ∧ same A s s').
Proof.
  intros Hg. destruct (g_free _ _ Hg) as (a & l & Ha & Hl & Hcount & Hnd).
  destruct (good_word s _ p Hg) as (ws & Hws & Hok & Hp0); [set_solver|].
  destruct (words_room tp ws Hok) as [_ Hlen].
  assert (in_u 32 (free_tnodes a)) as Hfree.
  { destruct l as [|q l]; [cbn in Hl; rewrite Hl; done|]. destruct Hl as (-> & w & next & Hw & _).
    destruct (g_words _ _ Hg q w Hw) as (? & _). unfold in_u. lia. }
  assert (p ∉ A ∧ p ∉ l ∧ NoDup (A ++ l)) as (HpA & Hpl & Hnd').
  { cbn [app] in Hnd. apply NoDup_cons in Hnd as [Hn Hnd]. rewrite elem_of_app in Hn. split; [tauto|]. split; [tauto|done]. }
  unfold yaffs_free_tnode, yaffs_free_raw_tnode, get_allocator. apply ends_bind, ends_bind, ends_bind, ends_get.
  rewrite Ha. apply ends_ret. apply ends_bind. destruct (Z.eqb_spec p 0); [lia|].
  apply ends_bind. eapply ends_set_internal; [done|done|lia|]. apply ends_modify.
  apply ends_zoom, ends_modify, ends_bind, ends_zoom, ends_modify, ends_zoom, ends_modify.
  pose proof (good_write s (p :: A) p _ Hg ltac:(set_solver) (words_ok_insert ws (Z.to_nat 0) _ Hok Hfree)) as [_ G2 G3].
  split.
  - split; [|exact G2|intros q Hq; apply G3; set_solver].
    eexists _, (p :: l). split; [done|]. cbn [free_tnodes n_free_tnodes].
    split; [|split; [rewrite Hcount; cbn [length]; lia|]].
    + split; [done|]. eexists _, (free_tnodes a). split; [apply lookup_insert_eq|].
      split; [apply list_lookup_insert_eq; lia|]. by apply free_list_insert.
    + rewrite <- Permutation_middle. by apply NoDup_cons; rewrite elem_of_app; split; [tauto|].
  - split; [|done]. intros q Hq. cbn. apply lookup_insert_ne. set_solver.
Qed.

(** ** Trees *)

#[local] Set Default Proof Using "All".

Definition child h (p : Z) (x : nat) : Z := default 0 (h !! p ≫= λ ws, ws !! x).

(** The tnodes of the tree of level [l] at [p]. *)
Fixpoint nodes h (l : nat) (p : Z) : list Z :=
  if p =? 0 then []
  else p :: match l with
            | O => []
            | S l' => seq 0 8 ≫= λ x, nodes h l' (child h p x)
            end.

(** The tnode of level 0 with the field of [id]. *)
Fixpoint leaf_at h (l : nat) (p id : Z) : Z :=
  if p =? 0 then 0
  else match l with
       | O => p
       | S l' => leaf_at h l' (child h p (Z.to_nat (tn_index l' id))) id
       end.

(** The group of chunks of [id], 0 when it has none. *)
Definition group_of h (l : nat) (p id : Z) : Z :=
  default 0 (h !! leaf_at h l p id ≫= λ ws, group_base_words tp ws id).

(** The tnodes under the children but for the child [x]. *)
Definition others h (l : nat) (p : Z) (x : nat) : list Z :=
  (seq 0 x ++ seq (S x) (7 - x)) ≫= λ y, nodes h l (child h p y).

Lemma tn_index_range l id : 0 ≤ id → 0 ≤ tn_index l id < 8.
Proof.
  intros Hid. unfold tn_index, YAFFS_TNODES_INTERNAL_MASK. change 0x7 with (Z.ones 3).
  rewrite Z.land_ones by lia. by apply Z.mod_pos_bound.
Qed.

Lemma nodes_0 h l : nodes h l 0 = [].
Proof. by destruct l. Qed.

Lemma leaf_at_0 h l id : leaf_at h l 0 id = 0.
Proof. by destruct l. Qed.

Lemma nodes_S h l p : p ≠ 0 → nodes h (S l) p = p :: (seq 0 8 ≫= λ x, nodes h l (child h p x)).
Proof. intros Hp. cbn [nodes]. by destruct (Z.eqb_spec p 0). Qed.

Lemma leaf_at_S h l p id : p ≠ 0 → leaf_at h (S l) p id = leaf_at h l (child h p (Z.to_nat (tn_index l id))) id.
Proof. intros Hp. cbn [leaf_at]. by destruct (Z.eqb_spec p 0). Qed.

Lemma nodes_split h l p x : p ≠ 0 → (x < 8)%nat →
  nodes h (S l) p ≡ₚ nodes h l (child h p x) ++ p :: others h l p x.
Proof.
  intros Hp Hx. rewrite nodes_S by done. unfold others.
  assert (seq 0 8 = seq 0 x ++ x :: seq (S x) (7 - x)) as ->.
  { replace 8%nat with (x + S (7 - x))%nat by lia. by rewrite seq_app. }
  rewrite !bind_app, bind_cons. rewrite <- !Permutation_middle.
  constructor. rewrite !(Permutation_app_swap_app (nodes h l (child h p x))). by rewrite !app_assoc.
Qed.

(** A store that keeps the tnodes of a tree keeps the tree. *)
Lemma nodes_agree h h' l : ∀ p, (∀ a, a ∈ nodes h l p → h' !! a = h !! a) →
  nodes h' l p = nodes h l p ∧ ∀ id, leaf_at h' l p id = leaf_at h l p id.
Proof.
  induction l as [|l IH]; intros p Hh; [done|]. cbn [nodes leaf_at] in *.
  destruct (Z.eqb_spec p 0) as [|Hp]; [done|].
  assert (∀ x, child h' p x = child h p x) as Hc by (intros x; unfold child; by rewrite (Hh p) by set_solver).
  assert (∀ x, (x < 8)%nat → nodes h' l (child h p x) = nodes h l (child h p x) ∧
    ∀ id, leaf_at h' l (child h p x) id = leaf_at h l (child h p x) id) as Hx.
  { intros x Hx. apply IH. intros a Ha. apply Hh. apply elem_of_cons. right.
    apply list_elem_of_bind. exists x. split; [done|]. apply elem_of_seq. lia. }
  split.
  - f_equal. apply list_bind_ext_in. intros x Hin. apply elem_of_seq in Hin. rewrite Hc. apply Hx. lia.
  - intros id. rewrite Hc. unfold tn_index, YAFFS_TNODES_INTERNAL_MASK.
    apply Hx. change 0x7 with (Z.ones 3). rewrite Z.land_ones by lia.
    pose proof (Z.mod_pos_bound (Z.shiftr id (YAFFS_TNODES_LEVEL0_BITS + Z.of_nat l * YAFFS_TNODES_INTERNAL_BITS)) (2 ^ 3) ltac:(done)) as Hb.
    change (2 ^ 3) with 8 in *. lia.
Qed.

Lemma bind_agree h h' l p (xs : list nat) :
  (∀ a, a ∈ (xs ≫= λ y, nodes h l (child h p y)) → h' !! a = h !! a) →
  (∀ y, y ∈ xs → child h' p y = child h p y) →
  (xs ≫= λ y, nodes h' l (child h' p y)) = (xs ≫= λ y, nodes h l (child h p y)) ∧
  ∀ y, y ∈ xs → ∀ id, leaf_at h' l (child h' p y) id = leaf_at h l (child h p y) id.
Proof.
  intros Hh Hc. assert (∀ y, y ∈ xs → nodes h' l (child h p y) = nodes h l (child h p y) ∧
    ∀ id, leaf_at h' l (child h p y) id = leaf_at h l (child h p y) id) as Hy.
  { intros y Hy. apply nodes_agree. intros a Ha. apply Hh, list_elem_of_bind. by exists y. }
  split; [apply list_bind_ext_in|]; intros y Hin; rewrite (Hc y Hin); by apply Hy.
Qed.

(** The child [x] of [p] is now [c'], and the rest of the tree is kept. *)
Lemma subtree_changed h h' l p x ws c' : p ≠ 0 → (x < 8)%nat → h !! p = Some ws → (x < length ws)%nat →
  h' !! p = Some (<[x := c']> ws) → (∀ a, a ∈ others h l p x → h' !! a = h !! a) →
  nodes h' (S l) p ≡ₚ nodes h' l c' ++ p :: others h l p x ∧
  ∀ id, 0 ≤ id → leaf_at h' (S l) p id =
    if decide (Z.to_nat (tn_index l id) = x) then leaf_at h' l c' id else leaf_at h (S l) p id.
Proof.
  intros Hp Hx Hws Hlen Hws' Hoth.
  assert (∀ y, child h' p y = if decide (y = x) then c' else child h p y) as Hc.
  { intros y. unfold child. rewrite Hws', Hws. cbn [mbind option_bind].
    destruct (decide (y = x)) as [->|]; [by rewrite list_lookup_insert_eq|].
    by rewrite list_lookup_insert_ne by done. }
  destruct (bind_agree h h' l p (seq 0 x ++ seq (S x) (7 - x))) as [E1 E2]; [exact Hoth| |].
  { intros y Hy. rewrite Hc. rewrite elem_of_app, !elem_of_seq in Hy. by rewrite decide_False by lia. }
  split.
  - rewrite (nodes_split h' l p x) by done. rewrite (Hc x), decide_True by done.
    unfold others at 1. by rewrite E1.
  - intros id Hid. rewrite !leaf_at_S by done. pose proof (tn_index_range l id Hid).
    destruct (decide _) as [->|Hne]; [by rewrite Hc, decide_True|].
    apply E2. rewrite elem_of_app, !elem_of_seq. lia.
Qed.

(** A tnode that holds only zeros has no groups below it. *)
Lemma zero_node h l c id : h !! c = Some (replicate (tnode_words tp) 0) → h !! 0 = None → 0 ≤ id →
  nodes h l c = [c] ∧ group_of h l c id = 0.
Proof.
  intros Hc H0 Hid. assert (c ≠ 0) as Hc0 by congruence.
  assert (∀ x, child h c x = 0) as Hch.
  { intros x. unfold child. rewrite Hc. cbn. destruct (replicate _ 0 !! x) eqn:E; [|done].
    by apply lookup_replicate in E as [-> _]. }
  unfold group_of. destruct l as [|l].
  - cbn [nodes leaf_at]. destruct (Z.eqb_spec c 0); [done|]. split; [done|]. rewrite Hc. cbn [mbind option_bind].
    rewrite group_base_words_land by done. apply (group_at_zero tp); [apply words_ok_zero|by apply pos_land].
  - rewrite nodes_S, leaf_at_S by done. rewrite Hch, leaf_at_0, H0. split; [|done]. f_equal.
    rewrite (list_bind_ext_in _ (λ _, [])); [by induction (seq 0 8)|]. intros x _. by rewrite Hch, nodes_0.
Qed.

Lemma good_0 s A : good s A → store s !! 0 = None.
Proof.
  intros Hg. destruct (store s !! 0) as [ws|] eqn:E; [|done]. destruct (g_words _ _ Hg 0 ws E). lia.
Qed.

Lemma good_child s A p x v : good s A → p ∈ A → child (store s) p x = v → v = 0 ∨ in_u 32 v.
Proof.
  intros Hg Hp <-. unfold child. destruct (good_word s A p Hg Hp) as (ws & -> & Hok & _). cbn.
  destruct (ws !! x) eqn:E; [|by left]. right. by eapply words_ok_lookup.
Qed.

Lemma leaf_in_nodes h l : ∀ p id, 0 ≤ id → leaf_at h l p id = 0 ∨ leaf_at h l p id ∈ nodes h l p.
Proof.
  induction l as [|l IH]; intros p id Hid; cbn [leaf_at nodes]; destruct (p =? 0); [by left|right; set_solver|by left|].
  pose proof (tn_index_range l id Hid). destruct (IH (child h p (Z.to_nat (tn_index l id))) id Hid) as [->|Hin]; [by left|right].
  apply elem_of_cons. right. apply list_elem_of_bind. eexists. split; [exact Hin|]. apply elem_of_seq. lia.
Qed.

Lemma leaf_in_others h l p x id : p ≠ 0 → 0 ≤ id → Z.to_nat (tn_index l id) ≠ x →
  leaf_at h (S l) p id = 0 ∨ leaf_at h (S l) p id ∈ others h l p x.
Proof.
  intros Hp Hid Hne. rewrite leaf_at_S by done. pose proof (tn_index_range l id Hid).
  destruct (leaf_in_nodes h l (child h p (Z.to_nat (tn_index l id))) id Hid) as [->|Hin]; [by left|right].
  apply list_elem_of_bind. eexists. split; [exact Hin|]. rewrite elem_of_app, !elem_of_seq. lia.
Qed.

(** What an operation on the tree of level [l] at [p] leaves: the tree has its tnodes,
    those of [R] are kept, and every chunk has its group. *)
Record retree l p R s p' s' : Prop := {
  rt_good : good s' (nodes (store s') l p' ++ R);
  rt_same : same R s s';
  rt_group : ∀ id, 0 ≤ id → group_of (store s') l p' id = group_of (store s) l p id
}.

Lemma retree_trans l p1 p2 p3 R s1 s2 s3 :
  retree l p1 R s1 p2 s2 → retree l p2 R s2 p3 s3 → retree l p1 R s1 p3 s3.
Proof.
  intros [G1 G2 G3] [H1 H2 H3]. split; [done|by etrans|]. intros id Hid. by rewrite H3, G3.
Qed.

(** The tree below the child [x] of [p] was changed. *)
Lemma retree_child l p x ws c s s' R : p ≠ 0 → (x < 8)%nat → good s (nodes (store s) (S l) p ++ R) →
  store s !! p = Some ws → store s' !! p = Some (<[x := c]> ws) →
  good s' (nodes (store s') l c ++ p :: others (store s) l p x ++ R) →
  same (others (store s) l p x ++ R) s s' →
  (∀ id, 0 ≤ id → group_of (store s') l c id = group_of (store s) l (child (store s) p x) id) →
  retree (S l) p R s p s' ∧
  ∀ id, 0 ≤ id → leaf_at (store s') (S l) p id =
    if decide (Z.to_nat (tn_index l id) = x) then leaf_at (store s') l c id else leaf_at (store s) (S l) p id.
Proof.
  intros Hp Hx Hg Hws Hws' G1 G2 G3.
  assert (x < length ws)%nat as Hlen.
  { destruct (g_words _ _ Hg p ws Hws) as (_ & Hok & _). destruct (words_room tp ws Hok). lia. }
  destruct (subtree_changed (store s) (store s') l p x ws c) as [E1 E2]; [done..| |].
  { intros a Ha. apply (same_store _ _ _ G2). set_solver. }
  split; [|done]. split.
  - eapply good_perm, G1. rewrite E1. by rewrite <- app_assoc.
  - eapply same_mono, G2. set_solver.
  - intros id Hid. unfold group_of. rewrite E2 by done.
    destruct (decide (Z.to_nat (tn_index l id) = x)) as [<-|Hne].
    + specialize (G3 id Hid). unfold group_of in *. by rewrite G3, leaf_at_S.
    + f_equal. f_equal. destruct (leaf_in_others (store s) l p x id Hp Hid Hne) as [->|Hin].
      { by rewrite (good_0 s _ Hg), (good_0 s' _ G1). }
      apply (same_store _ _ _ G2). set_solver.
Qed.

(** A child is there, or there is no memory for it. *)
Lemma ensure_child_run l p x ws c s R : p ≠ 0 → 0 ≤ x < 8 → good s (nodes (store s) (S l) p ++ R) →
  store s !! p = Some ws → ws !! Z.to_nat x = Some c →
  ends (if c =? 0 then t ← yaffs_get_tnode tp; set_internal p x t;; mret (negb (t =? 0)) else mret true) s
    (λ ok s1, ∃ c', store s1 !! p = Some (<[Z.to_nat x := c']> ws) ∧
       same (others (store s) l p (Z.to_nat x) ++ R) s s1 ∧
       good s1 (nodes (store s1) l c' ++ p :: others (store s) l p (Z.to_nat x) ++ R) ∧
       (∀ id, 0 ≤ id → group_of (store s1) l c' id = group_of (store s) l (child (store s) p (Z.to_nat x)) id) ∧
       (c ≠ 0 → c' = c ∧ s1 = s) ∧
       if (ok : bool) then c' ≠ 0 else c' = 0 ∧ no_memory YAFFS_ALLOCATION_NTNODES).
Proof.
  intros Hp Hx Hg Hws Hc. assert (Z.to_nat x < 8)%nat as Hx8 by lia. pose proof Hg as Hg'.
  assert (child (store s) p (Z.to_nat x) = c) as Hchild by (unfold child; rewrite Hws; cbn; by rewrite Hc).
  destruct (g_words _ _ Hg p ws Hws) as (_ & Hok & _). destruct (words_room tp ws Hok) as [_ Hlen].
  apply (good_perm _ _ _ (Permutation_app_tail R (nodes_split (store s) l p (Z.to_nat x) Hp Hx8))) in Hg'.
  rewrite Hchild, <- app_assoc in Hg'. cbn [app] in Hg'. rewrite Hchild.
  destruct (Z.eqb_spec c 0) as [->|Hc0].
  2: { apply ends_ret. exists c. by rewrite list_insert_id. }
  rewrite nodes_0 in Hg'. cbn [app] in Hg'. set (R' := others (store s) l p (Z.to_nat x) ++ R) in *.
  eapply ends_seq; [apply (get_tnode_run s _ Hg')|]. intros t s1 [Hs1 Ht].
  assert (store s1 !! p = Some ws) as Hws1 by (rewrite (same_store _ _ _ Hs1) by set_solver; done).
  apply ends_bind. eapply ends_set_internal; [done|done|lia|]. apply ends_ret. exists t.
  set (s2 := set_store _ s1). split; [apply lookup_insert_eq|]. split.
  { etrans; [eapply same_mono, Hs1; set_solver|]. split; [|done]. intros q Hq. cbn. apply lookup_insert_ne.
    apply good_nodup, NoDup_cons in Hg' as [? _]. set_solver. }
  destruct (Z.eqb_spec t 0) as [->|Ht0]; cbn [negb].
  - destruct Ht as [Hg1 Hmem]. assert (good s2 (p :: R')) as Hg2.
    { apply (good_write s1); [done|set_solver|]. by apply words_ok_insert. }
    rewrite nodes_0. split; [done|]. split; [|split; [by intros []|done]]. intros id Hid.
    unfold group_of. by rewrite !leaf_at_0, (good_0 s _ Hg), (good_0 s2 _ Hg2).
  - destruct Ht as [Hg1 Hzero]. assert (t ≠ p ∧ in_u 32 t) as [Htp Htu].
    { split; [apply good_nodup, NoDup_cons in Hg1 as [? _]; set_solver|].
      destruct (g_words _ _ Hg1 t _ Hzero) as (? & _). unfold in_u. lia. }
    assert (good s2 (t :: p :: R')) as Hg2.
    { apply (good_write s1); [done|set_solver|]. by apply words_ok_insert. }
    assert (∀ id, 0 ≤ id → nodes (store s2) l t = [t] ∧ group_of (store s2) l t id = 0) as Hz.
    { intros id. apply zero_node; [cbn; by rewrite lookup_insert_ne|by apply (good_0 s2 _ Hg2)]. }
    rewrite (proj1 (Hz 0 ltac:(done))). split; [done|]. split; [|split; [by intros []|done]]. intros id Hid.
    rewrite (proj2 (Hz id Hid)). unfold group_of. by rewrite leaf_at_0, (good_0 s _ Hg).
Qed.

(** The walk of [yaffs_add_find_tnode_0] to the tnode of a chunk. *)
Lemma add_walk_run l : ∀ p id s R, 0 ≤ id → good s (nodes (store s) l p ++ R) →
  ends (add_walk tp l p id 0) s (λ r s', retree l p R s p s' ∧
    (r = 0 → p = 0 ∨ no_memory YAFFS_ALLOCATION_NTNODES) ∧ (r ≠ 0 → leaf_at (store s') l p id = r) ∧
    (∀ id', 0 ≤ id' → leaf_at (store s) l p id' ≠ 0 → leaf_at (store s') l p id' = leaf_at (store s) l p id')).
Proof.
  induction l as [|l IH]; intros p id s R Hid Hg.
  { cbn [add_walk]. apply ends_ret. split; [by split|]. split; [by left|]. split; [|done]. intros Hp. cbn.
    by destruct (Z.eqb_spec p 0). }
  cbn [add_walk]. destruct (Z.eqb_spec p 0) as [->|Hp].
  { apply ends_ret. split; [by split|]. split; [by left|]. done. }
  pose proof (tn_index_range l id Hid) as Hx. set (x := tn_index l id) in *.
  assert (p ∈ nodes (store s) (S l) p ++ R) as Hin by (rewrite nodes_S by done; set_solver).
  destruct (good_word s _ p Hg Hin) as (ws & Hws & Hok & Hp0). destruct (words_room tp ws Hok) as [_ Hlen].
  destruct (lookup_lt_is_Some_2 ws (Z.to_nat x)) as [c Hc]; [lia|].
  apply ends_bind. eapply ends_internal; [done|lia|done|].
  match goal with |- ends (?m ≫= ?k) s _ => replace m with
    (if c =? 0 then t ← yaffs_get_tnode tp; set_internal p x t;; mret (negb (t =? 0)) else mret true :
     prog (yaffs_fs F K) bool)
    by (destruct l; by destruct (c =? 0)) end.
  eapply ends_seq; [by apply (ensure_child_run l p x ws c s R)|]. assert (Z.to_nat x < 8)%nat as Hx8 by lia.
  intros ok s1 (c' & Hws1 & Hs1 & Hg1 & Hgr & Hsame & Hok1).
  assert (child (store s) p (Z.to_nat x) = c) as Hchild by (unfold child; rewrite Hws; cbn; by rewrite Hc).
  assert (∀ id', leaf_at (store s) (S l) p id' = leaf_at (store s) l (child (store s) p (Z.to_nat (tn_index l id'))) id') as HS
    by (intros; by apply leaf_at_S).
  destruct ok; cbn [negb].
  - apply ends_bind. eapply ends_internal; [exact Hws1|lia|apply list_lookup_insert_eq; lia|].
    eapply ends_mono; [apply (IH c' id s1 _ Hid Hg1)|]. intros r s' ([G1 G2 G3] & Hr0 & Hr1 & Hr2).
    destruct (retree_child l p (Z.to_nat x) ws c' s s' R Hp Hx8 Hg Hws) as [Hres Hleaf]; [|done| |intros; by rewrite G3, Hgr|].
    { rewrite (same_store _ _ _ G2) by set_solver. done. }
    { etrans; [exact Hs1|]. eapply same_mono, G2. set_solver. }
    split; [done|]. split; [intros E; destruct (Hr0 E); [done|by right]|]. split.
    + intros Hr. rewrite Hleaf, decide_True by done. by apply Hr1.
    + intros id' Hid' Hne. rewrite Hleaf by done. destruct (decide _) as [Ex|]; [|done].
      rewrite HS, Ex, Hchild in Hne |- *. destruct Hsame as [-> ->]; [by intros ->; rewrite leaf_at_0 in Hne|].
      by apply Hr2.
  - destruct Hok1 as [-> Hmem]. apply ends_ret.
    destruct (retree_child l p (Z.to_nat x) ws 0 s s1 R Hp Hx8 Hg Hws) as [Hres Hleaf]; try done.
    split; [done|]. split; [by right|]. split; [done|].
    intros id' Hid' Hne. rewrite Hleaf by done. destruct (decide _) as [Ex|]; [|done].
    rewrite HS, Ex, Hchild in Hne. destruct Hsame as [Hz _]; [intros E; by rewrite E, leaf_at_0 in Hne|].
    by rewrite <- Hz, leaf_at_0 in Hne.
Qed.

(** ** Chunk numbers *)

Lemma depth_loop_spec n : ∀ i d k, 0 ≤ i < 8 ^ Z.of_nat n → 0 ≤ k →
  depth_loop n i d ≤ d + k ↔ i < 8 ^ k.
Proof.
  induction n as [|n IH]; intros i d k Hi Hk; cbn [depth_loop].
  - change (8 ^ Z.of_nat 0) with 1 in Hi. assert (0 < 8 ^ k) by lia. lia.
  - destruct (Z.eqb_spec i 0) as [->|Hne]; [assert (0 < 8 ^ k) by lia; lia|].
    rewrite Z.shiftr_div_pow2 by (unfold YAFFS_TNODES_INTERNAL_BITS; lia). change (2 ^ YAFFS_TNODES_INTERNAL_BITS) with 8.
    pose proof (Z.div_mod i 8 ltac:(done)). pose proof (Z.mod_pos_bound i 8 ltac:(done)).
    rewrite Nat2Z.inj_succ, Z.pow_succ_r in Hi by lia.
    destruct (decide (k = 0)) as [->|].
    + change (8 ^ 0) with 1. assert (d + 1 ≤ depth_loop n (i / 8) (d + 1)); [|lia].
      clear. revert d. generalize (i / 8). induction n as [|n IH]; intros i' d; cbn [depth_loop]; [lia|].
      destruct (i' =? 0); [lia|]. specialize (IH (Z.shiftr i' YAFFS_TNODES_INTERNAL_BITS) (d + 1)). lia.
    + replace (d + k) with (d + 1 + (k - 1)) by lia. rewrite IH by lia.
      replace (8 ^ k) with (8 * 8 ^ (k - 1)) by (rewrite <- Z.pow_succ_r by lia; f_equal; lia). lia.
Qed.

(** The chunks that a tree of level [l] has fields for. *)
Definition reach (l : nat) : Z := 16 * 8 ^ Z.of_nat l.

Lemma required_depth_spec id l : 0 ≤ id ≤ YAFFS_MAX_CHUNK_ID →
  required_depth id ≤ Z.of_nat l ↔ id < reach l.
Proof.
  intros Hid. change YAFFS_MAX_CHUNK_ID with (2 ^ 28 - 1) in Hid. unfold required_depth, reach, YAFFS_TNODES_LEVEL0_BITS.
  rewrite Z.shiftr_div_pow2 by lia. change (2 ^ 4) with 16.
  rewrite <- (Z.add_0_l (Z.of_nat l)) at 1. rewrite depth_loop_spec; [| |lia].
  - pose proof (Z.div_mod id 16 ltac:(done)). pose proof (Z.mod_pos_bound id 16 ltac:(done)). lia.
  - split; [apply Z.div_pos; lia|]. apply Z.div_lt_upper_bound; [lia|]. change (16 * 8 ^ Z.of_nat 10) with (2 ^ 34). lia.
Qed.

Lemma required_depth_bound id : 0 ≤ id ≤ YAFFS_MAX_CHUNK_ID → 0 ≤ required_depth id ≤ 8.
Proof.
  intros Hid. split.
  - unfold required_depth. generalize (Z.shiftr id YAFFS_TNODES_LEVEL0_BITS), 10%nat.
    enough (∀ n i d, 0 ≤ d → d ≤ depth_loop n i d) as H by (intros i n; by apply H).
    induction n as [|n IH]; intros i d Hd; cbn [depth_loop]; [lia|]. destruct (i =? 0); [lia|].
    specialize (IH (Z.shiftr i YAFFS_TNODES_INTERNAL_BITS) (d + 1)). lia.
  - apply (required_depth_spec id 8 Hid). unfold reach. change (16 * 8 ^ Z.of_nat 8) with (2 ^ 28).
    change YAFFS_MAX_CHUNK_ID with (2 ^ 28 - 1) in Hid. lia.
Qed.

Lemma tn_index_div l id : tn_index l id = id / reach l mod 8.
Proof.
  unfold tn_index, reach, YAFFS_TNODES_INTERNAL_MASK, YAFFS_TNODES_LEVEL0_BITS, YAFFS_TNODES_INTERNAL_BITS.
  change 0x7 with (Z.ones 3). rewrite Z.land_ones by lia. rewrite Z.shiftr_div_pow2 by lia.
  rewrite Z.pow_add_r by lia. rewrite (Z.mul_comm (Z.of_nat l)), Z.pow_mul_r by lia. done.
Qed.

Lemma reach_S l : reach (S l) = 8 * reach l.
Proof. unfold reach. rewrite Nat2Z.inj_succ, Z.pow_succ_r by lia. lia. Qed.

Lemma reach_pos l : 0 < reach l.
Proof. unfold reach. assert (0 < 8 ^ Z.of_nat l) by lia. lia. Qed.

(** Two chunks of a tree are the same when they have the same path and field. *)
Lemma path_inj l id id' : 0 ≤ id < reach l → 0 ≤ id' < reach l → (∀ j, (j < l)%nat → tn_index j id = tn_index j id') →
  id mod 16 = id' mod 16 → id = id'.
Proof.
  intros Hid Hid' Hix Hm. enough (∀ k, (k ≤ l)%nat → id mod reach k = id' mod reach k) as H.
  { specialize (H l ltac:(done)). by rewrite !Z.mod_small in H. }
  induction k as [|k IH]; intros Hk; [by unfold reach|].
  specialize (IH ltac:(lia)). specialize (Hix k ltac:(lia)). rewrite !tn_index_div in Hix.
  rewrite reach_S, (Z.mul_comm 8). pose proof (reach_pos k).
  rewrite !Z.rem_mul_r by lia. by rewrite IH, Hix.
Qed.

(** ** The file *)

Definition level_of (f : yaffs_file_var) : nat := Z.to_nat (top_level f).

Definition file_nodes s (f : yaffs_file_var) : list Z := nodes (store s) (level_of f) (top f).

(** The groups of the file's chunks. *)
Definition file_group s (f : yaffs_file_var) (id : Z) : Z :=
  if decide (id < reach (level_of f)) then group_of (store s) (level_of f) (top f) id else 0.

(** The file's tree is well-formed and shares no tnode with [R] or with the free list. *)
Definition file_ok s (f : yaffs_file_var) R : Prop :=
  0 ≤ top_level f ≤ YAFFS_TNODES_MAX_LEVEL ∧ good s (file_nodes s f ++ R).

Lemma find_walk_run l : ∀ p id s A, 0 ≤ id → good s A → (∀ q, q ∈ nodes (store s) l p → q ∈ A) →
  find_walk l p id s = Ok (leaf_at (store s) l p id, s).
Proof.
  induction l as [|l IH]; intros p id s A Hid Hg HA; cbn [find_walk leaf_at].
  { by destruct (Z.eqb_spec p 0) as [->|]. }
  destruct (Z.eqb_spec p 0) as [->|Hp]; [done|]. pose proof (tn_index_range l id Hid) as Hx.
  destruct (good_word s A p Hg) as (ws & Hws & Hok & _); [apply HA; rewrite nodes_S by done; set_solver|].
  destruct (words_room tp ws Hok) as [_ Hlen].
  destruct (lookup_lt_is_Some_2 ws (Z.to_nat (tn_index l id))) as [c Hc]; [lia|].
  unfold internal, tn_words. prog_simpl. rewrite Hws. cbn [defined]. prog_simpl.
  rewrite znth_lookup, Hc by lia. cbn [defined]. prog_simpl.
  assert (child (store s) p (Z.to_nat (tn_index l id)) = c) as Hch by (unfold child; rewrite Hws; cbn; by rewrite Hc).
  rewrite Hch. apply (IH c id s A); [done|done|]. intros q Hq. apply HA.
  rewrite (nodes_split _ l p (Z.to_nat (tn_index l id))) by (done || lia). rewrite Hch. set_solver.
Qed.

Lemma find_tnode_0_run f id s R : 0 ≤ id → file_ok s f R →
  yaffs_find_tnode_0 f id s =
  Ok (if decide (id ≤ YAFFS_MAX_CHUNK_ID ∧ id < reach (level_of f))
      then leaf_at (store s) (level_of f) (top f) id else 0, s).
Proof.
  intros Hid [Hlev Hg]. unfold yaffs_find_tnode_0.
  destruct (Z.ltb_spec (top_level f) 0), (Z.ltb_spec YAFFS_TNODES_MAX_LEVEL (top_level f)); try lia. cbn [orb].
  destruct (Z.ltb_spec YAFFS_MAX_CHUNK_ID id); [by rewrite decide_False by lia|].
  pose proof (required_depth_spec id (level_of f) ltac:(lia)) as Hrd. unfold level_of in Hrd. rewrite Z2Nat.id in Hrd by lia.
  destruct (Z.ltb_spec (top_level f) (required_depth id)).
  - rewrite decide_False; [done|]. unfold level_of. intros [_ ?]. apply Hrd in H3. lia.
  - rewrite decide_True by (unfold level_of; tauto).
    apply (find_walk_run _ _ _ _ (file_nodes s f ++ R)); [done|done|]. unfold file_nodes. set_solver.
Qed.

(** A new root over the old one. *)
Lemma new_root l t p s s2 R : t ≠ 0 → good s2 (t :: nodes (store s) l p ++ R) →
  store s2 !! t = Some (<[0%nat := p]> (replicate (tnode_words tp) 0)) →
  (∀ a, a ∈ nodes (store s) l p → store s2 !! a = store s !! a) →
  good s2 (nodes (store s2) (S l) t ++ R) ∧
  ∀ id, 0 ≤ id → leaf_at (store s2) (S l) t id = if decide (tn_index l id = 0) then leaf_at (store s) l p id else 0.
Proof.
  intros Ht Hg Hws Hagree. destruct (nodes_agree (store s) (store s2) l p Hagree) as [E1 E2].
  assert (8 ≤ zlen (replicate (tnode_words tp) 0)) as Hlen.
  { destruct (words_room tp _ words_ok_zero). lia. }
  assert (∀ x, child (store s2) t x = if decide (x = O) then p else 0) as Hc.
  { intros x. unfold child. rewrite Hws. cbn [mbind option_bind].
    destruct (decide (x = O)) as [->|]; [by rewrite list_lookup_insert_eq by lia|].
    rewrite list_lookup_insert_ne by done. destruct (replicate _ 0 !! x) eqn:E; [|done].
    by apply lookup_replicate in E as [-> _]. }
  split.
  - eapply good_perm, Hg. rewrite nodes_S by done. change (seq 0 8) with (0%nat :: seq 1 7).
    rewrite bind_cons, Hc, decide_True, E1 by done.
    rewrite (list_bind_ext_in _ (λ _, []) (seq 1 7)).
    + assert (seq 1 7 ≫= (λ _ : nat, []) = ([] : list Z)) as -> by done. by rewrite app_nil_r, <- app_comm_cons.
    + intros x Hx%elem_of_seq. rewrite Hc, decide_False by lia. apply nodes_0.
  - intros id Hid. rewrite leaf_at_S by done. pose proof (tn_index_range l id Hid). rewrite Hc.
    destruct (decide (tn_index l id = 0)) as [->|]; [by rewrite decide_True by done|].
    rewrite decide_False by lia. apply leaf_at_0.
Qed.

Lemma good_root s l p R : good s (nodes (store s) l p ++ R) → in_u 32 p.
Proof.
  intros Hg. destruct (decide (p = 0)) as [->|Hp]; [done|].
  destruct (good_word s _ p Hg) as (_ & _ & _ & ?); [|unfold in_u; lia].
  destruct l; cbn [nodes]; destruct (Z.eqb_spec p 0); [done|set_solver|done|set_solver].
Qed.

(** One level more changes no group. *)
Lemma file_group_grow l t p s s2 id : 0 ≤ id →
  store s !! 0 = None → store s2 !! 0 = None →
  (∀ a, a ∈ nodes (store s) l p → store s2 !! a = store s !! a) →
  (leaf_at (store s2) (S l) t id = if decide (tn_index l id = 0) then leaf_at (store s) l p id else 0) →
  (if decide (id < reach (S l)) then group_of (store s2) (S l) t id else 0) =
  (if decide (id < reach l) then group_of (store s) l p id else 0).
Proof.
  intros Hid H0 H20 Hagree Hleaf. pose proof (reach_pos l). rewrite reach_S.
  unfold group_of. rewrite Hleaf, tn_index_div.
  destruct (decide (id < reach l)).
  - rewrite decide_True by lia. rewrite Z.div_small by lia. rewrite decide_True by done.
    destruct (leaf_in_nodes (store s) l p id Hid) as [->|Hin]; [by rewrite H0, H20|]. by rewrite Hagree.
  - destruct (decide (id < 8 * reach l)); [|done].
    assert (1 ≤ id / reach l < 8) as Hq.
    { split; [apply Z.div_le_lower_bound; lia|apply Z.div_lt_upper_bound; lia]. }
    rewrite Z.mod_small by lia. rewrite decide_False by lia. by rewrite H20.
Qed.

(** The file has the tnode of its first chunks. *)
Definition rooted s (f : yaffs_file_var) : Prop := leaf_at (store s) (level_of f) (top f) 0 ≠ 0.

(** The levels that [yaffs_add_find_tnode_0] adds. *)
Lemma grow_loop_run n : ∀ f s R, file_ok s f R → top_level f + Z.of_nat n ≤ YAFFS_TNODES_MAX_LEVEL →
  ends (grow_loop tp n f) s (λ r s', file_ok s' r.2 R ∧ same R s s' ∧
    (∀ id, 0 ≤ id → file_group s' r.2 id = file_group s f id) ∧
    (top f ≠ 0 → top r.2 ≠ 0) ∧ (rooted s f → rooted s' r.2) ∧
    if r.1 then top_level r.2 = top_level f + Z.of_nat n else no_memory YAFFS_ALLOCATION_NTNODES).
Proof.
  induction n as [|n IH]; intros f s R [Hlev Hg] Hn; cbn [grow_loop].
  { apply ends_ret. split; [done|]. split; [done|]. split; [done|]. cbn. split; [done|]. split; [done|lia]. }
  eapply ends_seq; [by apply (get_tnode_run s _ Hg)|]. intros t s1 [Hs1 Ht].
  assert (∀ a, a ∈ file_nodes s f → store s1 !! a = store s !! a) as Hk
    by (intros a Ha; apply (same_store _ _ _ Hs1); set_solver).
  destruct (Z.eqb_spec t 0) as [->|Ht0].
  { apply ends_ret. destruct Ht as [Hg1 Hmem]. cbn [fst snd].
    destruct (nodes_agree _ (store s1) _ _ Hk) as [E1 E2].
    assert (rooted s f → rooted s1 f) by (unfold rooted; by rewrite E2).
    split; [split; [done|unfold file_nodes in *; by rewrite E1]|].
    split; [eapply same_mono, Hs1; set_solver|]. split; [|done]. intros id Hid.
    unfold file_group, group_of. destruct (decide _); [|done]. rewrite E2. do 2 f_equal.
    destruct (leaf_in_nodes (store s) (level_of f) (top f) id Hid) as [->|Hin]; [|by apply Hk].
    by rewrite (good_0 s _ Hg), (good_0 s1 _ Hg1). }
  destruct Ht as [Hg1 Hzero]. pose proof (good_root s _ _ _ Hg) as Htop.
  apply ends_bind. eapply ends_set_internal; [exact Hzero|apply words_ok_zero|lia|].
  set (s2 := set_store _ s1).
  assert (good s2 (t :: file_nodes s f ++ R)) as Hg2.
  { apply (good_write s1); [done|set_solver|]. apply words_ok_insert; [apply words_ok_zero|done]. }
  assert (∀ a, a ∈ file_nodes s f ++ R → store s2 !! a = store s !! a) as Hk2.
  { intros a Ha. cbn. rewrite lookup_insert_ne; [by apply (same_store _ _ _ Hs1)|].
    apply good_nodup, NoDup_cons in Hg1 as [? _]. set_solver. }
  destruct (new_root (level_of f) t (top f) s s2 R Ht0 Hg2) as [Hg3 Hleaf];
    [apply lookup_insert_eq|intros a Ha; apply Hk2; unfold file_nodes; set_solver|].
  assert (level_of (set_top (top_level f + 1) t f) = S (level_of f)) as Hl.
  { unfold level_of. cbn [top_level set_top]. lia. }
  eapply ends_mono; [apply (IH (set_top (top_level f + 1) t f) s2 R)|].
  { split; [cbn [top_level set_top]; lia|]. unfold file_nodes. by rewrite Hl. }
  { cbn [top_level set_top]. lia. }
  intros [ok f'] s3 (H1 & H2 & H3 & H4 & H5 & H6). cbn [fst snd top top_level set_top] in *.
  split; [done|]. split; [|split; [|split; [|split]]].
  - etrans; [eapply same_mono, Hs1; set_solver|]. etrans; [|exact H2]. split; [|done].
    intros a Ha. cbn. apply lookup_insert_ne. apply good_nodup, NoDup_cons in Hg1 as [? _]. set_solver.
  - intros id Hid. rewrite H3 by done. unfold file_group. rewrite Hl.
    apply (file_group_grow (level_of f) t (top f) s s2 id Hid);
      [by apply (good_0 s _ Hg)|by apply (good_0 s2 _ Hg2)|intros a Ha; apply Hk2; unfold file_nodes; set_solver|by apply Hleaf].
  - intros _. by apply H4.
  - intros Hroot. apply H5. unfold rooted in *. rewrite Hl. cbn [top set_top]. rewrite (Hleaf 0) by done.
    by rewrite tn_index_div, Z.div_0_l by (pose proof (reach_pos (level_of f)); lia).
  - destruct ok; [lia|done].
Qed.

Lemma retree_file f p l R s s' : l = level_of f → p = top f → file_ok s f R → retree l p R s p s' →
  file_ok s' f R ∧ same R s s' ∧ ∀ id, 0 ≤ id → file_group s' f id = file_group s f id.
Proof.
  intros -> -> [Hlev Hg] [G1 G2 G3]. split; [by split|]. split; [done|]. intros id Hid.
  unfold file_group. destruct (decide _); [by apply G3|done].
Qed.

(** [yaffs_add_find_tnode_0] without a tnode passed: it never faults, it changes no
    group, and it returns the tnode that [yaffs_find_tnode_0] finds from then on, or
    [NULL] when the number is too large, when the file has no root, or when the kernel
    has no memory. *)
Lemma add_find_tnode_0_run f id s R : 0 ≤ id → file_ok s f R →
  ends (yaffs_add_find_tnode_0 tp f id 0) s (λ r s', let '(tn, f') := r in
    file_ok s' f' R ∧ same R s s' ∧
    (∀ id', 0 ≤ id' → file_group s' f' id' = file_group s f id') ∧
    (tn ≠ 0 → 0 ≤ id ≤ YAFFS_MAX_CHUNK_ID ∧ id < reach (level_of f') ∧
       leaf_at (store s') (level_of f') (top f') id = tn) ∧
    (tn = 0 → YAFFS_MAX_CHUNK_ID < id ∨ top f = 0 ∨ no_memory YAFFS_ALLOCATION_NTNODES) ∧
    (rooted s f → rooted s' f')).
Proof.
  intros Hid Hf. pose proof Hf as [Hlev Hg]. unfold yaffs_add_find_tnode_0.
  destruct (Z.ltb_spec (top_level f) 0), (Z.ltb_spec YAFFS_TNODES_MAX_LEVEL (top_level f)); try lia. cbn [orb].
  destruct (Z.ltb_spec YAFFS_MAX_CHUNK_ID id) as [|Hmax].
  { apply ends_ret. split; [done|]. split; [done|]. split; [done|]. split; [done|]. split; [by left|done]. }
  pose proof (required_depth_bound id ltac:(lia)) as Hrd.
  eapply (ends_seq _ _ _ (λ (r : bool * yaffs_file_var) s1, file_ok s1 r.2 R ∧ same R s s1 ∧
    (∀ id', 0 ≤ id' → file_group s1 r.2 id' = file_group s f id') ∧ (top f ≠ 0 → top r.2 ≠ 0) ∧ (rooted s f → rooted s1 r.2) ∧
    if r.1 then required_depth id ≤ top_level r.2 else no_memory YAFFS_ALLOCATION_NTNODES)).
  { destruct (Z.ltb_spec (top_level f) (required_depth id)).
    - eapply ends_mono; [apply (grow_loop_run _ f s R Hf); unfold YAFFS_TNODES_MAX_LEVEL; lia|].
      intros [ok f'] s1 (H3 & H4 & H5 & H6 & H8 & H7). cbn [fst snd] in *.
      do 5 (split; [done|]). destruct ok; [lia|done].
    - apply ends_ret. done. }
  intros [ok f'] s1 (Hf1 & Hs1 & Hgr1 & Htop & Hroot & Hok). cbn [fst snd] in *. pose proof Hf1 as [Hlev1 Hg1].
  destruct ok; cbn [negb].
  2: { apply ends_ret. do 3 (split; [done|]). split; [done|]. split; [by right; right|done]. }
  assert (id < reach (level_of f')) as Hreach.
  { apply (required_depth_spec id); [lia|]. unfold level_of. lia. }
  destruct (Z.ltb_spec 0 (top_level f')).
  - apply ends_bind. eapply ends_mono; [apply (add_walk_run _ (top f') id s1 R Hid Hg1)|].
    intros r s2 (Hrt & Hr0 & Hr1 & Hr2). apply ends_ret.
    destruct (retree_file f' (top f') _ R s1 s2 eq_refl eq_refl Hf1 Hrt) as (H3 & H4 & H5).
    split; [done|]. split; [by etrans|]. split; [intros; rewrite H5; auto|]. split.
    + intros Hr. split; [lia|]. split; [done|]. by apply Hr1.
    + split; [|intros Hr%Hroot; unfold rooted in *; by rewrite (Hr2 0)].
      intros E. right. destruct (Hr0 E) as [Hz|]; [left|by right]. destruct (decide (top f = 0)); [done|]. by apply Htop in n.
  - apply (ends_bind (mret ())), ends_ret, ends_ret. do 3 (split; [done|]).
    assert (level_of f' = O) as Hl by (unfold level_of; lia). split.
    + intros Hr. split; [lia|]. split; [done|]. rewrite Hl. cbn. by destruct (Z.eqb_spec (top f') 0).
    + split; [|done]. intros E. right. left. destruct (decide (top f = 0)); [done|]. by apply Htop in n.
Qed.

(** ** Memory for tnodes *)

(** The kernel's heap has room for [n] more blocks of tnodes. *)
Fixpoint plenty (n : nat) (k : K) : Prop :=
  match n with
  | O => True
  | S n' =>
      let r := kmalloc (Z.of_nat YAFFS_ALLOCATION_NTNODES * tp_size tp) k in
      r.1.1 ≠ 0 ∧ plenty n' (kmalloc 8 r.2).2
  end.

Lemma plenty_S n : ∀ k, plenty (S n) k → plenty n k.
Proof using Type.
  induction n as [|n IH]; intros k H; [done|]. destruct H as [H1 H2]. split; [done|]. by apply IH.
Qed.

Lemma plenty_le m n k : (n ≤ m)%nat → plenty m k → plenty n k.
Proof using Type. induction 1 as [|m Hle IH]; [done|]. intros Hk%plenty_S. auto. Qed.

(** The heap is not used. *)
Definition heap_kept s s' : Prop := kmem s' = kmem s.
#[local] Instance heap_kept_preorder : PreOrder heap_kept.
Proof using Type. unfold heap_kept. split; [done|]. intros ??? -> ?. done. Qed.

Ltac heap := repeat first [match goal with |- heap_kept _ _ => done end|within_step].
Lemma tn_words_heap p : within heap_kept (tn_words p).
Proof using Type. unfold tn_words. heap. Qed.
Lemma set_internal_heap p x v : within heap_kept (set_internal p x v).
Proof using Type. unfold set_internal, set_tn_words. repeat first [apply tn_words_heap|progress heap]. Qed.
Lemma link_loop_heap n : ∀ c, within heap_kept (link_loop tp n c).
Proof using Type. induction n as [|n IH]; intros c; cbn [link_loop]; repeat first [apply set_internal_heap|apply IH|within_step]. Qed.
Lemma internal_heap p x : within heap_kept (internal p x).
Proof using Type. unfold internal. repeat first [apply tn_words_heap|progress heap]. Qed.
Lemma get_allocator_heap : within heap_kept get_allocator.
Proof using Type. unfold get_allocator. heap. Qed.
Lemma put_allocator_heap a : within heap_kept (put_allocator a).
Proof using Type. unfold put_allocator. heap. Qed.
Lemma on_dev_heap {X : Type} (m : prog (yaffs_dev F) X) : within heap_kept (on_dev m).
Proof using Type. intros s x s' H. unfold on_dev, zoom in H. destruct (m _) as [[]|]; [|done]. by injection H as <- <-. Qed.

Lemma free_tnode_heap p : within heap_kept (yaffs_free_tnode p).
Proof using Type.
  unfold yaffs_free_tnode, yaffs_free_raw_tnode, add_n_tnodes, clear_blocks_required.
  repeat first [apply set_internal_heap|apply get_allocator_heap|apply put_allocator_heap|apply on_dev_heap|progress heap].
Qed.
Lemma prune_children_heap rec p del0 n : (∀ t b, within heap_kept (rec t b)) → ∀ i has, within heap_kept (prune_children rec p del0 n i has).
Proof using Type.
  intros Hrec. induction n as [|n IH]; intros i has; cbn [prune_children];
    repeat first [apply Hrec|apply IH|apply internal_heap|apply set_internal_heap|within_step].
Qed.
Lemma prune_worker_heap l : ∀ p del0, within heap_kept (yaffs_prune_worker tp l p del0).
Proof using Type.
  induction l as [|l IH]; intros p del0; cbn [yaffs_prune_worker];
    repeat first [apply prune_children_heap; exact IH|apply free_tnode_heap|apply tn_words_heap|within_step].
Qed.
Lemma has_children_heap n p : ∀ i, within heap_kept (has_children n p i).
Proof using Type. induction n as [|n IH]; intros i; cbn [has_children]; repeat first [apply IH|apply internal_heap|within_step]. Qed.
Lemma lower_loop_heap n : ∀ f, within heap_kept (lower_loop n f).
Proof using Type.
  induction n as [|n IH]; intros f; cbn [lower_loop]; repeat first [apply IH|apply has_children_heap|apply internal_heap|apply free_tnode_heap|within_step].
Qed.
Lemma prune_tree_heap f : within heap_kept (yaffs_prune_tree tp f).
Proof using Type. unfold yaffs_prune_tree. repeat first [apply prune_worker_heap|apply lower_loop_heap|within_step]. Qed.

(** With room for a block a tnode is found. *)
Definition finds (n : nat) (m : M Z) : Prop := ∀ s x s' k, m s = Ok (x, s') → plenty (n + k) (kmem s) → x ≠ 0 ∧ plenty k (kmem s').

Lemma call_kmalloc_inv size s r s' : call_kmalloc size s = Ok (r, s') → r = (kmalloc size (kmem s)).1 ∧ kmem s' = (kmalloc size (kmem s)).2 ∧ allocator s' = allocator s.
Proof using Type. unfold call_kmalloc. prog_simpl. destruct (kmalloc size (kmem s)) as [[p ws] k]. intros [= <- <-]. done. Qed.

Lemma get_allocator_inv s a s' : get_allocator s = Ok (a, s') → s' = s ∧ allocator s = Some a.
Proof using Type. unfold get_allocator. prog_simpl. destruct (allocator s); [intros [= -> ->]; done|done]. Qed.

Lemma create_tnodes_finds s x s' k : yaffs_create_tnodes tp YAFFS_ALLOCATION_NTNODES s = Ok (x, s') → plenty (S k) (kmem s) →
  plenty k (kmem s') ∧ ∃ a, allocator s' = Some a ∧ free_tnodes a ≠ 0.
Proof using Type.
  unfold yaffs_create_tnodes. intros (a & s1 & [-> Ha]%get_allocator_inv & H)%bind_inv [Hne Hk].
  change (Z.of_nat YAFFS_ALLOCATION_NTNODES <? 1) with false in H. cbn iota in H.
  set (n := YAFFS_ALLOCATION_NTNODES) in *. clearbody n.
  apply bind_inv in H as (r & s1 & (-> & Hk1 & Ha1)%call_kmalloc_inv & H).
  destruct (kmalloc _ (kmem s)) as [[mem ws] k1]. cbn [fst snd] in *. destruct (Z.eqb_spec mem 0); [done|].
  rewrite run_bind_modify in H. apply bind_inv in H as (last & s3 & H3%link_loop_heap & H).
  apply bind_inv in H as (u & s4 & H4%set_internal_heap & H). unfold put_allocator in H. rewrite run_bind_modify in H.
  apply bind_inv in H as (r & s6 & (-> & Hk6 & Ha6)%call_kmalloc_inv & H).
  unfold heap_kept in H3, H4. cbn [kmem set_allocator allocator set_store] in *. rewrite H4, H3, Hk1 in Hk6.
  destruct (kmalloc 8 _) as [[tnl ws2] k2] eqn:E2 in H. rewrite <- Hk6 in Hk.
  cbn [fst snd] in H. destruct (tnl =? 0); [injection H as <- <-; split; [done|by eexists]|].
  rewrite run_bind_modify in H. injection H as <- <-. split; [done|by eexists].
Qed.

Lemma alloc_raw_finds : finds 1 (yaffs_alloc_raw_tnode tp).
Proof using Type.
  intros s x s' k. unfold yaffs_alloc_raw_tnode. intros (a & s1 & [-> Ha]%get_allocator_inv & H)%bind_inv Hk.
  apply bind_inv in H as (u & s1 & H1 & H).
  assert (plenty k (kmem s1) ∧ ∃ a', allocator s1 = Some a' ∧ free_tnodes a' ≠ 0) as (Hk1 & a' & Ha' & Hf).
  { destruct (Z.eqb_spec (free_tnodes a) 0) as [E|E].
    - apply bind_inv in H1 as (y & s2 & H1 & H2). injection H2 as <- <-. by eapply create_tnodes_finds.
    - injection H1 as <- <-. split; [by apply plenty_S|]. by exists a. }
  apply bind_inv in H as (a2 & s2 & [-> Ha2]%get_allocator_inv & H). assert (a2 = a') as -> by congruence.
  destruct (Z.eqb_spec (free_tnodes a') 0); [done|].
  apply bind_inv in H as (next & s2 & H2%internal_heap & H). apply bind_inv in H as (u2 & s3 & H3%put_allocator_heap & H).
  injection H as <- <-. split; [done|]. unfold heap_kept in *. by rewrite H3, H2.
Qed.

Lemma get_tnode_finds : finds 1 (yaffs_get_tnode tp).
Proof using Type.
  intros s x s' k. unfold yaffs_get_tnode. intros (tn & s1 & H1 & H)%bind_inv Hk. destruct (alloc_raw_finds _ _ _ _ H1 Hk) as [Hne Hk1].
  apply bind_inv in H as (u & s2 & H2 & H). apply bind_inv in H as (u3 & s3 & H3%on_dev_heap & H). injection H as <- <-. split; [done|].
  unfold heap_kept in H3. rewrite H3. destruct (Z.eqb_spec tn 0); [done|]. apply bind_inv in H2 as (u4 & s4 & H4 & H5%on_dev_heap).
  unfold heap_kept in H5. rewrite H5. enough (heap_kept s1 s4) as -> by done.
  revert H4. unfold set_tn_words. apply within_bind; [apply _|apply tn_words_heap|intros _; heap].
Qed.

(** What was stored is read. *)
Lemma set_internal_inv p x v s s' y s'' u : set_internal p x v s = Ok (u, s') → internal p x s' = Ok (y, s'') → y = v ∧ s'' = s'.
Proof using Type.
  unfold set_internal, internal, set_tn_words, tn_words. prog_simpl. destruct (store s !! p) as [ws|] eqn:E; [|done]. prog_simpl.
  unfold zset. destruct (_ && _) eqn:Hb; [|done]. prog_simpl. rewrite E. prog_simpl. intros [= _ <-].
  cbn [store set_store]. rewrite lookup_insert_eq. prog_simpl. unfold znth. apply andb_true_iff in Hb as [Hb1%Z.leb_le Hb2%Z.ltb_lt].
  destruct (Z.ltb_spec x 0); [lia|]. rewrite list_lookup_insert_eq by lia. intros [= <- <-]. done.
Qed.

Lemma internal_inv p x s y s' : internal p x s = Ok (y, s') → s' = s.
Proof using Type.
  unfold internal, tn_words. prog_simpl. destruct (store s !! p); [|done]. prog_simpl. destruct (znth _ _); [|done]. intros [= _ <-]. done.
Qed.

Lemma add_walk_finds l : ∀ p id, p ≠ 0 → finds l (add_walk tp l p id 0).
Proof using Type.
  induction l as [|l IH]; intros p id Hp s x s' k; cbn [add_walk]; [intros [= <- <-]; auto|].
  destruct (Z.eqb_spec p 0); [done|]. intros (child & s1 & H1 & H)%bind_inv Hk. pose proof (internal_inv _ _ _ _ _ H1) as ->.
  apply bind_inv in H as (ok & s2 & H2 & H).
  assert (ok = true ∧ plenty (l + k) (kmem s2) ∧ ∀ y s3, internal p (tn_index l id) s2 = Ok (y, s3) → y ≠ 0 ∧ s3 = s2) as (-> & Hk2 & Hy).
  { assert (∀ s2 ok, (if child =? 0 then t ← yaffs_get_tnode tp; set_internal p (tn_index l id) t;; mret (negb (t =? 0)) else mret true) s = Ok (ok, s2) →
      ok = true ∧ plenty (l + k) (kmem s2) ∧ ∀ y s3, internal p (tn_index l id) s2 = Ok (y, s3) → y ≠ 0 ∧ s3 = s2) as Hget.
    { clear s2 ok H H2. intros s2 ok H. destruct (Z.eqb_spec child 0) as [E|E].
      - apply bind_inv in H as (t & s3 & H3 & H). destruct (get_tnode_finds _ _ _ (l + k)%nat H3 Hk) as [Ht Hk3].
        apply bind_inv in H as (u & s4 & H4 & H). injection H as <- <-. destruct (Z.eqb_spec t 0); [done|]. split; [done|].
        split; [by rewrite (set_internal_heap _ _ _ _ _ _ H4)|]. intros y s5 H5. by destruct (set_internal_inv _ _ _ _ _ _ _ _ H4 H5) as [-> ->].
      - injection H as <- <-. split; [done|]. split; [by apply plenty_S|]. intros y s3 H3. rewrite H1 in H3. by injection H3 as <- <-. }
    destruct l; [change (negb (0 =? 0)) with false in H2; cbn iota in H2|]; by apply Hget in H2. }
  cbn [negb] in H. apply bind_inv in H as (tn & s3 & H3 & H). destruct (Hy _ _ H3) as [Htn ->]. by eapply IH.
Qed.

Lemma grow_loop_finds n : ∀ f s b f' s' k, top f ≠ 0 → grow_loop tp n f s = Ok ((b, f'), s') → plenty (n + k) (kmem s) →
  b = true ∧ top f' ≠ 0 ∧ plenty k (kmem s').
Proof using Type.
  induction n as [|n IH]; intros f s b f' s' k Hf; cbn [grow_loop]; [intros [= <- <- <-]; auto|].
  intros (tn & s1 & H1 & H)%bind_inv Hk. destruct (get_tnode_finds _ _ _ (n + k)%nat H1 Hk) as [Htn Hk1]. destruct (Z.eqb_spec tn 0); [done|].
  apply bind_inv in H as (u & s2 & H2%set_internal_heap & H). eapply IH; [|exact H|by rewrite H2]. done.
Qed.

(** [yaffs_add_find_tnode_0] needs at most 16 blocks. *)
Lemma add_find_finds f id s tn f' s' k : 0 ≤ top_level f ≤ YAFFS_TNODES_MAX_LEVEL → 0 ≤ id ≤ YAFFS_MAX_CHUNK_ID → top f ≠ 0 →
  yaffs_add_find_tnode_0 tp f id 0 s = Ok ((tn, f'), s') → plenty (16 + k) (kmem s) → tn ≠ 0 ∧ plenty k (kmem s').
Proof.
  intros Hlev Hid Hf. unfold yaffs_add_find_tnode_0. unfold YAFFS_TNODES_MAX_LEVEL in *.
  destruct (Z.ltb_spec (top_level f) 0), (Z.ltb_spec 8 (top_level f)); try lia. cbn [orb].
  destruct (Z.ltb_spec YAFFS_MAX_CHUNK_ID id) as [|_]; [lia|]. pose proof (required_depth_bound id Hid) as Hdep.
  intros ([ok f1] & s1 & R1 & R2)%bind_inv Hk.
  assert (ok = true ∧ top f1 ≠ 0 ∧ plenty (8 + k) (kmem s1) ∧ (top_level f1 ≤ 8)) as (-> & Hf1 & Hk1 & Hl1).
  { destruct (Z.ltb_spec (top_level f) (required_depth id)).
    - assert (∀ n f s b f' s', grow_loop tp n f s = Ok ((b, f'), s') → top_level f' ≤ top_level f + Z.of_nat n) as Hlev'.
      { clear. induction n as [|n IH]; intros f s b f' s'; cbn [grow_loop]; [intros [= <- <- <-]; lia|].
        intros (t & s1 & _ & H)%bind_inv. destruct (t =? 0); [injection H as <- <- <-; lia|].
        apply bind_inv in H as (u & s2 & _ & H). apply IH in H. cbn in H. lia. }
      pose proof (Hlev' _ _ _ _ _ _ R1).
      destruct (grow_loop_finds _ _ _ _ _ _ (16 - Z.to_nat (required_depth id - top_level f) + k)%nat Hf R1) as (-> & ? & Hk1).
      { eapply plenty_le; [|exact Hk]. lia. }
      split; [done|]. split; [done|]. split; [eapply plenty_le; [|exact Hk1]; lia|lia].
    - injection R1 as <- <- <-. split; [done|]. split; [done|]. split; [eapply plenty_le; [|exact Hk]; lia|lia]. }
  cbn [negb] in R2. destruct (Z.ltb_spec 0 (top_level f1)).
  - apply bind_inv in R2 as (t & s2 & R2 & R3). injection R3 as <- <- <-.
    eapply add_walk_finds; [exact Hf1|exact R2|]. eapply plenty_le; [|exact Hk1]. lia.
  - apply bind_inv in R2 as (u & s2 & R2 & R3). injection R3 as <- <- <-. injection R2 as _ <-. split; [done|].
    eapply plenty_le; [|exact Hk1]. lia.
Qed.

(** A tnode of level 0 is written: the shape of the tree is kept. *)
Lemma leaf_write h w l : ∀ p id, 0 ≤ id → NoDup (nodes h l p) → leaf_at h l p id ≠ 0 →
  (∀ q, q ∈ nodes h l p → is_Some (h !! q)) → (∀ q x, q ∈ nodes h l p → h !! q = Some x → (8 ≤ length x)%nat) →
  nodes (<[leaf_at h l p id := w]> h) l p ≡ₚ nodes h l p ∧
  ∀ id', 0 ≤ id' → leaf_at (<[leaf_at h l p id := w]> h) l p id' = leaf_at h l p id'.
Proof.
  induction l as [|l IH]; intros p id Hid Hnd Hleaf Hdom Hlen; [by split|].
  assert (p ≠ 0) as Hp by (intros ->; by rewrite leaf_at_0 in Hleaf).
  rewrite leaf_at_S in * by done. pose proof (tn_index_range l id Hid) as Hx.
  set (x := Z.to_nat (tn_index l id)) in *. assert (x < 8)%nat as Hx8 by lia.
  pose proof (nodes_split h l p x Hp Hx8) as Hsplit. rewrite Hsplit in Hnd.
  apply NoDup_app in Hnd as (Hnd1 & Hdisj & Hnd2). apply NoDup_cons in Hnd2 as [Hpo Hnd2].
  destruct (leaf_in_nodes h l (child h p x) id Hid) as [?|Hin]; [done|].
  destruct (IH (child h p x) id Hid Hnd1 Hleaf) as [E1 E2].
  { intros q Hq. apply Hdom. rewrite Hsplit. set_solver. }
  { intros q y Hq. apply Hlen. rewrite Hsplit. set_solver. }
  set (tn := leaf_at h l (child h p x) id) in *. assert (tn ≠ p ∧ tn ∉ others h l p x) as [Htp Hto].
  { specialize (Hdisj tn Hin). set_solver. }
  destruct (Hdom p) as [ws Hws]; [rewrite nodes_S by done; set_solver|].
  pose proof (Hlen p ws) as Hl8. rewrite nodes_S in Hl8 by done. specialize (Hl8 ltac:(set_solver) Hws).
  assert (ws !! x = Some (child h p x)) as Hwx.
  { unfold child. rewrite Hws. cbn. destruct (lookup_lt_is_Some_2 ws x) as [v ->]; [lia|done]. }
  destruct (subtree_changed h (<[tn := w]> h) l p x ws (child h p x)) as [F1 F2]; [done|done|done|lia| | |].
  { rewrite lookup_insert_ne by done. by rewrite list_insert_id. }
  { intros a Ha. apply lookup_insert_ne. congruence. }
  split; [by rewrite F1, E1, Hsplit|]. intros id' Hid'. rewrite F2 by done.
  destruct (decide _) as [<-|]; [|done]. by rewrite E2, leaf_at_S.
Qed.

(** Two chunks in one tnode have one path. *)
Lemma leaf_inj h l : ∀ p id id', 0 ≤ id → 0 ≤ id' → NoDup (nodes h l p) → leaf_at h l p id ≠ 0 →
  leaf_at h l p id = leaf_at h l p id' → ∀ j, (j < l)%nat → tn_index j id = tn_index j id'.
Proof.
  induction l as [|l IH]; intros p id id' Hid Hid' Hnd Hleaf E j Hj; [lia|].
  assert (p ≠ 0) as Hp by (intros ->; by rewrite leaf_at_0 in Hleaf).
  pose proof (tn_index_range l id Hid). pose proof (tn_index_range l id' Hid').
  assert (Z.to_nat (tn_index l id) < 8)%nat as Hx8 by lia.
  pose proof (nodes_split h l p _ Hp Hx8) as Hsplit. rewrite Hsplit in Hnd.
  destruct (decide (tn_index l id' = tn_index l id)) as [Ei|Hne].
  - destruct (decide (j = l)) as [->|]; [done|]. rewrite !leaf_at_S, Ei in E by done.
    rewrite leaf_at_S in Hleaf by done. apply NoDup_app in Hnd as [Hnd _].
    apply (IH _ id id' Hid Hid' Hnd Hleaf E). lia.
  - exfalso. destruct (leaf_in_others h l p (Z.to_nat (tn_index l id)) id' Hp Hid') as [Hz|Hin]; [lia|congruence|].
    rewrite <- E in Hin. rewrite leaf_at_S in * by done.
    destruct (leaf_in_nodes h l (child h p (Z.to_nat (tn_index l id))) id Hid) as [?|Hin']; [done|].
    apply NoDup_app in Hnd as (_ & Hd & _). apply (Hd _ Hin'). set_solver.
Qed.

Lemma group_of_at s A l p id tn : 0 ≤ id → good s A → (∀ q, q ∈ nodes (store s) l p → q ∈ A) →
  leaf_at (store s) l p id = tn → tn ≠ 0 →
  ∃ ws, store s !! tn = Some ws ∧ words_ok tp ws ∧ tn ∈ A ∧
    group_of (store s) l p id = group_at tp ws (Z.land id YAFFS_TNODES_LEVEL0_MASK).
Proof.
  intros Hid Hg HA <- Htn. destruct (leaf_in_nodes (store s) l p id Hid) as [?|Hin]; [done|].
  destruct (good_word s A _ Hg (HA _ Hin)) as (ws & Hws & Hok & _). exists ws.
  split; [done|]. split; [done|]. split; [by apply HA|]. unfold group_of, group_at. rewrite Hws. cbn [mbind option_bind].
  by rewrite group_base_words_land.
Qed.

(** [yaffs_get_group_base] at the tnode of a chunk. *)
Lemma get_group_base_run f id s R tn : 0 ≤ id < reach (level_of f) → file_ok s f R →
  leaf_at (store s) (level_of f) (top f) id = tn → tn ≠ 0 →
  yaffs_get_group_base tp tn id s = Ok (file_group s f id, s).
Proof.
  intros Hid [Hlev Hg] Hleaf Htn.
  destruct (group_of_at s _ (level_of f) (top f) id tn ltac:(lia) Hg) as (ws & Hws & Hok & _ & E);
    [unfold file_nodes; set_solver|done|done|].
  unfold yaffs_get_group_base, tn_words. prog_simpl. rewrite Hws. cbn [defined]. prog_simpl.
  rewrite group_base_words_land by lia.
  rewrite (group_base_words_Some tp) by (done || by apply pos_land; lia). cbn [defined].
  unfold file_group. rewrite decide_True, E by lia. done.
Qed.

(** [yaffs_load_tnode_0] at the tnode of a chunk changes the group of this chunk only. *)
Lemma load_tnode_0_run f id val s R tn : 0 ≤ id < reach (level_of f) → 0 ≤ val → file_ok s f R →
  leaf_at (store s) (level_of f) (top f) id = tn → tn ≠ 0 →
  ends (yaffs_load_tnode_0 tp tn id val) s (λ _ s', file_ok s' f R ∧ same R s s' ∧
    (∀ id', 0 ≤ id' → leaf_at (store s') (level_of f) (top f) id' = leaf_at (store s) (level_of f) (top f) id') ∧
    ∀ id', 0 ≤ id' → file_group s' f id' = if decide (id' = id) then group_round tp val else file_group s f id').
Proof.
  intros Hid Hval [Hlev Hg] Hleaf Htn. set (l := level_of f) in *. set (p := top f) in *.
  assert (∀ q, q ∈ nodes (store s) l p → q ∈ file_nodes s f ++ R) as HA by (unfold file_nodes; set_solver).
  destruct (group_of_at s _ l p id tn ltac:(lia) Hg HA Hleaf Htn) as (ws & Hws & Hok & Hin & E).
  pose proof (pos_land id ltac:(lia)) as [Hpos _].
  destruct (load_tnode_words_spec tp ws _ val Hok Hpos Hval) as (ws' & Hload & Hok' & _).
  unfold yaffs_load_tnode_0. eapply ends_bind, ends_tn_words; [done|]. apply ends_bind.
  eapply ends_defined; [rewrite load_tnode_words_land by lia; exact Hload|]. eapply ends_set_tn_words; [done|].
  pose proof (good_write s _ tn ws' Hg Hin Hok') as Hg'. set (s' := set_store _ s) in *.
  pose proof (good_nodup _ _ Hg) as Hnd. unfold file_nodes in Hnd. fold l p in Hnd. apply NoDup_app in Hnd as (Hnd & Hdisj & _).
  destruct (leaf_write (store s) ws' l p id ltac:(lia) Hnd) as [E1 E2].
  { congruence. }
  { intros q Hq. by apply (g_dom _ _ Hg), HA. }
  { intros q x _ Hx. destruct (g_words _ _ Hg q x Hx) as (_ & Hxok & _). destruct (words_room tp x Hxok). lia. }
  rewrite Hleaf in E1, E2. change (<[tn := ws']> (store s)) with (store s') in E1, E2.
  destruct (leaf_in_nodes (store s) l p id ltac:(lia)) as [?|Hinn]; [congruence|]. rewrite Hleaf in Hinn.
  split; [|split; [|split; [done|]]].
  - split; [done|]. eapply good_perm, Hg'. unfold file_nodes. fold l p. by rewrite E1.
  - split; [|done]. intros q Hq. cbn. apply lookup_insert_ne. intros ->. by apply (Hdisj q).
  - intros id' Hid'. unfold file_group. fold l p. pose proof (pos_land id' Hid') as [Hpos' _].
    destruct (decide (id' < reach l)) as [Hlt|Hge]; [|rewrite decide_False by lia; done].
    unfold group_of. rewrite E2 by done.
    destruct (decide (leaf_at (store s) l p id' = tn)) as [Etn|Hne].
    + rewrite Etn. cbn [store set_store s']. rewrite lookup_insert_eq, Hws. cbn [mbind option_bind].
      rewrite !(group_base_words_land _ _ id') by done.
      change (group_at tp ws' (Z.land id' YAFFS_TNODES_LEVEL0_MASK) = if decide (id' = id) then group_round tp val
        else group_at tp ws (Z.land id' YAFFS_TNODES_LEVEL0_MASK)).
      rewrite (group_at_load tp ws ws' _ val _ Hok Hpos Hpos' Hval Hload).
      destruct (decide (id' = id)) as [->|Hidne]; [by rewrite decide_True|]. rewrite decide_False; [done|].
      intros Epos. apply Hidne. unfold YAFFS_TNODES_LEVEL0_MASK in Epos. change 0xf with (Z.ones 4) in Epos.
      rewrite !Z.land_ones in Epos by lia.
      apply (path_inj l); [lia|lia| |exact Epos]. intros j Hj.
      apply (leaf_inj (store s) l p); [lia|lia|done|congruence|congruence|done].
    + rewrite decide_False by congruence. cbn [store set_store s']. by rewrite lookup_insert_ne.
Qed.

(** ** Pruning *)

Lemma tree_frame h h' l p : h !! 0 = None → h' !! 0 = None → (∀ a, a ∈ nodes h l p → h' !! a = h !! a) →
  nodes h' l p = nodes h l p ∧ ∀ id, 0 ≤ id → leaf_at h' l p id = leaf_at h l p id ∧ group_of h' l p id = group_of h l p id.
Proof.
  intros H0 H0' Hh. destruct (nodes_agree h h' l p Hh) as [E1 E2]. split; [done|]. intros id Hid.
  split; [done|]. unfold group_of. rewrite E2. f_equal. f_equal.
  destruct (leaf_in_nodes h l p id Hid) as [->|Hin]; [by rewrite H0, H0'|by apply Hh].
Qed.

(** The specification of [yaffs_prune_worker] at one level; without [del0] the root and
    the way to the first chunks stay. *)
Definition prunes (l : nat) (rec : Z → bool → M Z) : Prop := ∀ p del0 s R, p ≠ 0 →
  good s (nodes (store s) l p ++ R) →
  ends (rec p del0) s (λ r s', retree l p R s r s' ∧
    (del0 = false → r = p ∧ (leaf_at (store s) l p 0 ≠ 0 → leaf_at (store s') l p 0 ≠ 0))).

Lemma good_internal s l p R ws (x : nat) : p ≠ 0 → (x < 8)%nat → good s (nodes (store s) (S l) p ++ R) →
  store s !! p = Some ws → ws !! x = Some (child (store s) p x).
Proof.
  intros Hp Hx Hg Hws. destruct (g_words _ _ Hg p ws Hws) as (_ & Hok & _).
  destruct (words_room tp ws Hok) as [_ Hlen]. unfold child. rewrite Hws. cbn.
  destruct (lookup_lt_is_Some_2 ws x) as [v ->]; [lia|done].
Qed.

Lemma good_split s l p R (x : nat) : p ≠ 0 → (x < 8)%nat → good s (nodes (store s) (S l) p ++ R) →
  good s (nodes (store s) l (child (store s) p x) ++ p :: others (store s) l p x ++ R).
Proof.
  intros Hp Hx Hg. eapply good_perm, Hg. rewrite (nodes_split (store s) l p x) by done. by rewrite <- app_assoc.
Qed.

(** One child. *)
Lemma prune_child_run l rec p (x : Z) del0 t s R : prunes l rec → p ≠ 0 → 0 ≤ x < 8 →
  good s (nodes (store s) (S l) p ++ R) → t = child (store s) p (Z.to_nat x) →
  ends (if t =? 0 then mret ()
        else t ← rec t (if x =? 0 then del0 else true); set_internal p x t) s (λ _ s',
    retree (S l) p R s p s' ∧
    (∀ y, y ≠ Z.to_nat x → child (store s') p y = child (store s) p y) ∧
    (del0 = false → leaf_at (store s) (S l) p 0 ≠ 0 → leaf_at (store s') (S l) p 0 ≠ 0)).
Proof.
  intros Hrec Hp Hx Hg Ht. assert (Z.to_nat x < 8)%nat as Hx8 by lia.
  destruct (Z.eqb_spec t 0) as [Hz|Hnz]; [by apply ends_ret|].
  pose proof (good_split s l p R _ Hp Hx8 Hg) as Hg1. rewrite <- Ht in Hg1.
  destruct (good_word s _ p Hg) as (ws & Hws & Hok & _); [rewrite nodes_S by done; set_solver|].
  destruct (words_room tp ws Hok) as [_ Hlen].
  eapply ends_seq; [by apply (Hrec t (if x =? 0 then del0 else true) s _ Hnz Hg1)|].
  intros r s1 [[G1 G2 G3] Hroot].
  assert (store s1 !! p = Some ws) as Hws1 by (rewrite (same_store _ _ _ G2) by set_solver; done).
  eapply ends_set_internal; [exact Hws1|done|lia|]. set (s2 := set_store _ s1).
  assert (good s2 (nodes (store s1) l r ++ p :: others (store s) l p (Z.to_nat x) ++ R)) as Hg2.
  { apply (good_write s1); [done|set_solver|]. apply words_ok_insert; [done|]. by apply good_root in G1. }
  assert (p ∉ nodes (store s1) l r ∧ p ∉ others (store s) l p (Z.to_nat x) ++ R) as [Hpn Hpo].
  { apply good_nodup in G1. rewrite <- Permutation_middle in G1. apply NoDup_cons in G1 as [Hn _].
    rewrite elem_of_app in Hn. tauto. }
  destruct (tree_frame (store s1) (store s2) l r) as [E1 E2];
    [by apply (good_0 s1 _ G1)|by apply (good_0 s2 _ Hg2)|intros a Ha; cbn; apply lookup_insert_ne; congruence|].
  destruct (retree_child l p (Z.to_nat x) ws r s s2 R Hp Hx8 Hg Hws) as [Hrt Hleaf].
  { apply lookup_insert_eq. }
  { by rewrite E1. }
  { etrans; [eapply same_mono, G2; set_solver|]. split; [|done]. intros q Hq. cbn. apply lookup_insert_ne. congruence. }
  { intros id Hid. rewrite (proj2 (E2 id Hid)), G3, Ht by done. done. }
  split; [done|]. split.
  - intros y Hy. unfold child. cbn [store set_store s2]. rewrite lookup_insert_eq, Hws. cbn [mbind option_bind].
    by rewrite list_lookup_insert_ne.
  - intros Hdel Hl0. rewrite Hleaf by done. destruct (decide _) as [Ei|]; [|done].
    rewrite (proj1 (E2 0 ltac:(done))). rewrite leaf_at_S, Ei, <- Ht in Hl0 by done.
    assert (tn_index l 0 = 0) as Hi0 by (rewrite tn_index_div, Z.div_0_l by (pose proof (reach_pos l); lia); done).
    rewrite Hi0 in Ei. destruct (Z.eqb_spec x 0); [|lia]. destruct (Hroot Hdel) as [-> Hr]. by apply Hr.
Qed.

Lemma prune_children_run l rec p del0 R n : prunes l rec → p ≠ 0 → ∀ i has s, i + Z.of_nat n = 8 → 0 ≤ i → 0 ≤ has →
  good s (nodes (store s) (S l) p ++ R) → (has = 0 → ∀ y, (y < Z.to_nat i)%nat → child (store s) p y = 0) →
  ends (prune_children rec p del0 n i has) s (λ has' s', retree (S l) p R s p s' ∧
    (has' = 0 → ∀ y, (y < 8)%nat → child (store s') p y = 0) ∧
    (del0 = false → leaf_at (store s) (S l) p 0 ≠ 0 → leaf_at (store s') (S l) p 0 ≠ 0)).
Proof.
  intros Hrec Hp. induction n as [|n IH]; intros i has s Hin Hi Hhas Hg Hzero; cbn [prune_children].
  - apply ends_ret. split; [by split|]. split; [|done]. intros E y Hy. apply Hzero; [done|lia].
  - destruct (good_word s _ p Hg) as (ws & Hws & Hok & _); [rewrite nodes_S by done; set_solver|].
    apply ends_bind. eapply ends_internal; [done|lia|by eapply (good_internal s l p R ws); [|lia|..]|].
    eapply ends_seq; [apply (prune_child_run l rec p i del0 _ s R); done || lia|].
    intros [] s1 (Hrt & Hch & Hleaf). pose proof Hrt as [G1 _ _].
    destruct (good_word s1 _ p G1) as (ws1 & Hws1 & Hok1 & _); [rewrite nodes_S by done; set_solver|].
    apply ends_bind. eapply ends_internal; [done|lia|by eapply (good_internal s1 l p R ws1); [|lia|..]|].
    set (t := child (store s1) p (Z.to_nat i)).
    eapply ends_mono; [apply (IH (i + 1) (if t =? 0 then has else has + 1) s1)|].
    + lia.
    + lia.
    + destruct (t =? 0); lia.
    + done.
    + destruct (Z.eqb_spec t 0) as [Ht|]; [|lia]. intros E y Hy.
      destruct (decide (y = Z.to_nat i)) as [->|]; [done|]. rewrite Hch by done. apply Hzero; [done|lia].
    + intros has' s2 (Hrt2 & H2 & H3). split; [by eapply retree_trans|]. split; [done|]. auto.
Qed.

Lemma all_zero (ws : list Z) : forallb (λ w, w =? 0) ws = true → ws = replicate (length ws) 0.
Proof.
  induction ws as [|w ws IH]; [done|]. cbn [forallb length replicate]. intros [H1%Z.eqb_eq H2]%andb_prop.
  rewrite H1. f_equal. by apply IH.
Qed.

(** A tnode without children is alone in its tree, and no chunk has a group there. *)
Lemma no_children h l p : p ≠ 0 → h !! 0 = None → (∀ y, (y < 8)%nat → child h p y = 0) →
  nodes h (S l) p = [p] ∧ ∀ id, 0 ≤ id → group_of h (S l) p id = 0.
Proof.
  intros Hp H0 Hch. split.
  - rewrite nodes_S by done. f_equal. rewrite (list_bind_ext_in _ (λ _, [])); [done|].
    intros x Hx%elem_of_seq. rewrite Hch by lia. apply nodes_0.
  - intros id Hid. pose proof (tn_index_range l id Hid). unfold group_of. rewrite leaf_at_S by done.
    rewrite Hch, leaf_at_0, H0 by lia. done.
Qed.

(** An empty tree is given back. *)
Lemma free_empty l p R s0 s : nodes (store s) l p = [p] → (∀ id, 0 ≤ id → group_of (store s) l p id = 0) →
  retree l p R s0 p s → ends (yaffs_free_tnode p;; mret 0) s (λ r s', r = 0 ∧ retree l p R s0 0 s').
Proof.
  intros Hn Hz Hrt. pose proof Hrt as [G1 G2 G3]. rewrite Hn in G1. cbn [app] in G1.
  eapply ends_seq; [by apply (free_tnode_run s R p)|]. intros [] s' [Hg' Hs']. apply ends_ret. split; [done|].
  split; [by rewrite nodes_0|by etrans|]. intros id Hid. rewrite <- G3, Hz by done.
  unfold group_of. by rewrite leaf_at_0, (good_0 s' _ Hg').
Qed.

Lemma prune_worker_run l : prunes l (yaffs_prune_worker tp l).
Proof.
  induction l as [|l IH]; intros p del0 s R Hp Hg; cbn [yaffs_prune_worker]; destruct (Z.eqb_spec p 0); try done.
  - assert (nodes (store s) 0 p = [p]) as Hn by (cbn; by destruct (Z.eqb_spec p 0)).
    destruct (good_word s _ p Hg) as (ws & Hws & Hok & _); [rewrite Hn; set_solver|].
    apply ends_bind. eapply ends_bind, ends_tn_words; [done|]. apply ends_ret.
    rewrite take_ge by (by rewrite (words_ok_length ws)).
    destruct (forallb _ ws) eqn:Hall; cbn [Z.eqb andb]; [|by apply ends_ret].
    apply all_zero in Hall. rewrite (words_ok_length ws Hok) in Hall. subst ws.
    destruct del0; [|by apply ends_ret].
    eapply ends_mono; [apply (free_empty 0 p R s s Hn); [|by split]|by intros r s' [-> H]].
    intros id Hid. by apply (zero_node _ 0 p id Hws (good_0 s _ Hg) Hid).
  - eapply ends_seq; [apply (prune_children_run l _ p del0 R 8 IH Hp 0 0 s); try done; lia|].
    intros has s1 (Hrt & Hz & Hleaf). destruct (Z.eqb_spec has 0) as [Hh|]; cbn [andb]; [|by apply ends_ret; auto].
    destruct del0; [|by apply ends_ret; auto]. pose proof Hrt as [G1 _ _].
    destruct (no_children (store s1) l p Hp (good_0 s1 _ G1) (Hz Hh)) as [Hn Hg0].
    eapply ends_mono; [by apply (free_empty (S l) p R s s1 Hn)|by intros r s' [-> H]].
Qed.

Lemma has_children_run l p R n : p ≠ 0 → ∀ i s, good s (nodes (store s) (S l) p ++ R) → 0 ≤ i → i + Z.of_nat n = 8 →
  ∃ b, has_children n p i s = Ok (b, s) ∧
    (b = false → ∀ y, (Z.to_nat i ≤ y < 8)%nat → child (store s) p y = 0).
Proof.
  intros Hp. induction n as [|n IH]; intros i s Hg Hi Hin; cbn [has_children].
  - exists false. split; [done|]. lia.
  - destruct (good_word s _ p Hg) as (ws & Hws & Hok & _); [rewrite nodes_S by done; set_solver|].
    unfold internal, tn_words. prog_simpl. rewrite Hws. cbn [defined]. prog_simpl.
    rewrite znth_lookup by done. rewrite (good_internal s l p R ws) by (done || lia). cbn [defined]. prog_simpl.
    destruct (IH (i + 1) s Hg ltac:(lia) ltac:(lia)) as (b & H1 & H2). rewrite (bind_Ok _ _ _ _ _ H1).
    eexists. split; [done|]. intros [Ht%negb_false_iff%Z.eqb_eq Hb]%orb_false_elim y Hy.
    destruct (decide (y = Z.to_nat i)) as [->|]; [done|]. apply H2; [done|lia].
Qed.

(** The levels that [yaffs_prune_tree] takes away. *)
Lemma lower_loop_run n : ∀ f s R, level_of f = n → file_ok s f R → rooted s f →
  ends (lower_loop n f) s (λ f' s', file_ok s' f' R ∧ rooted s' f' ∧ same R s s' ∧
    ∀ id, 0 ≤ id → file_group s' f' id = file_group s f id).
Proof.
  induction n as [|n IH]; intros f s R Hl [Hlev Hg] Hroot; cbn [lower_loop].
  { apply ends_ret. done. }
  unfold file_nodes, rooted in *. rewrite Hl in *. set (p := top f) in *.
  assert (p ≠ 0) as Hp by (intros E; by rewrite E, leaf_at_0 in Hroot).
  destruct (has_children_run n p R 7 Hp 1 s Hg ltac:(lia) ltac:(lia)) as (b & Hb & Hch).
  apply ends_bind. exists b, s. split; [done|]. destruct b.
  { apply ends_ret. split; [split; [done|by unfold file_nodes; rewrite Hl]|]. by rewrite Hl. }
  specialize (Hch eq_refl). pose proof (good_split s n p R 0 Hp ltac:(lia) Hg) as Hg1.
  destruct (good_word s _ p Hg) as (ws & Hws & Hok & _); [rewrite nodes_S by done; set_solver|].
  apply ends_bind. eapply (ends_internal p ws 0); [done|lia|by eapply (good_internal s n p R ws); [|lia|..]|].
  change (Z.to_nat 0) with O. set (t := child (store s) p 0) in *.
  assert (others (store s) n p 0 = []) as Ho.
  { unfold others. rewrite (list_bind_ext_in _ (λ _, [])); [done|]. cbn [seq app Nat.sub].
    intros y Hy. rewrite Hch, nodes_0; [done|]. apply (elem_of_seq 1 7) in Hy. lia. }
  rewrite Ho in Hg1. apply ends_bind.
  eapply ends_mono; [apply (free_tnode_run s (nodes (store s) n t ++ R) p)|].
  { eapply good_perm, Hg1. cbn [app]. by rewrite Permutation_middle. }
  intros [] s1 [Hg2 Hs1].
  destruct (tree_frame (store s) (store s1) n t) as [E1 E2];
    [by apply (good_0 s _ Hg)|by apply (good_0 s1 _ Hg2)|intros a Ha; apply (same_store _ _ _ Hs1); set_solver|].
  set (f1 := set_top (top_level f - 1) t f). assert (level_of f1 = n) as Hl1 by (unfold level_of, f1 in *; cbn; lia).
  assert (∀ id, leaf_at (store s) (S n) p id = if decide (tn_index n id = 0) then leaf_at (store s) n t id
    else leaf_at (store s) n (child (store s) p (Z.to_nat (tn_index n id))) id) as Hleaf.
  { intros id. rewrite leaf_at_S by done. by destruct (decide (tn_index n id = 0)) as [->|]. }
  eapply ends_mono; [apply (IH f1 s1 R Hl1)|].
  { split; [unfold f1; cbn; unfold level_of in Hl; lia|]. unfold file_nodes. rewrite Hl1. cbn [top f1 set_top]. by rewrite E1. }
  { unfold rooted. rewrite Hl1. cbn [top f1 set_top]. rewrite (proj1 (E2 0 ltac:(done))).
    rewrite Hleaf in Hroot. by rewrite decide_True in Hroot
      by (rewrite tn_index_div, Z.div_0_l by (pose proof (reach_pos n); lia); done). }
  intros f' s' (H1 & H2 & H3 & H4). split; [done|]. split; [done|].
  split; [etrans; [eapply same_mono, Hs1; set_solver|done]|]. intros id Hid. rewrite H4 by done.
  unfold file_group. rewrite Hl1, Hl. cbn [top f1 set_top]. fold p. symmetry.
  apply (file_group_grow n p t s1 s id Hid);
    [by apply (good_0 s1 _ Hg2)|by apply (good_0 s _ Hg)| |].
  - intros a Ha. rewrite E1 in Ha. symmetry. apply (same_store _ _ _ Hs1). set_solver.
  - rewrite Hleaf, (proj1 (E2 id Hid)). pose proof (tn_index_range n id Hid).
    destruct (decide (tn_index n id = 0)); [done|]. rewrite Hch by lia. apply leaf_at_0.
Qed.

Lemma prune_tree_run f s R : file_ok s f R → rooted s f →
  ends (yaffs_prune_tree tp f) s (λ f' s', file_ok s' f' R ∧ rooted s' f' ∧ same R s s' ∧
    ∀ id, 0 ≤ id → file_group s' f' id = file_group s f id).
Proof.
  intros Hf Hroot. pose proof Hf as [Hlev Hg]. unfold yaffs_prune_tree.
  destruct (Z.ltb_spec (top_level f) 1); [by apply ends_ret|].
  assert (top f ≠ 0) as Hp by (intros E; unfold rooted in Hroot; by rewrite E, leaf_at_0 in Hroot).
  eapply ends_seq; [by apply (prune_worker_run (level_of f) (top f) false s R Hp)|].
  intros t s1 [Hrt Hkeep]. destruct (Hkeep eq_refl) as [-> Hleaf].
  destruct (retree_file f (top f) _ R s s1 eq_refl eq_refl Hf Hrt) as (H1 & H2 & H3).
  assert (set_top (top_level f) (top f) f = f) as -> by (by destruct f).
  eapply ends_mono; [apply (lower_loop_run _ f s1 R eq_refl H1); by apply Hleaf|].
  intros f' s' (G1 & G2 & G3 & G4). split; [done|]. split; [done|]. split; [by etrans|].
  intros id Hid. by rewrite G4, H3.
Qed.

(** C6. The tree of a file is a map from chunk numbers to groups of chunks. On a file
    whose tree is well-formed, [yaffs_add_find_tnode_0] ends without a fault whatever the
    kernel's heap answers, changes no entry of the map and touches no other tnode in use;
    it returns [NULL] only when the number is too large, when the file has no root, or
    when the heap has no room for 16 blocks of tnodes. Otherwise it returns the tnode in which
    [yaffs_load_tnode_0] sets the entry of this chunk, to the number rounded down to a
    group, and no other entry, and where [yaffs_find_tnode_0] and
    [yaffs_get_group_base] find it again. *)
Theorem tnode_tree_is_a_map f id val s R : 0 ≤ id → 0 ≤ val → file_ok s f R →
  ∃ tn f' s', yaffs_add_find_tnode_0 tp f id 0 s = Ok ((tn, f'), s') ∧
    file_ok s' f' R ∧ same R s s' ∧ (rooted s f → rooted s' f') ∧
    (∀ id', 0 ≤ id' → file_group s' f' id' = file_group s f id') ∧
    (tn = 0 → YAFFS_MAX_CHUNK_ID < id ∨ top f = 0 ∨ ¬ plenty 16 (kmem s)) ∧
    (tn ≠ 0 → ∃ s'', yaffs_load_tnode_0 tp tn id val s' = Ok ((), s'') ∧
       file_ok s'' f' R ∧ same R s s'' ∧
       (∀ id', 0 ≤ id' →
          file_group s'' f' id' = if decide (id' = id) then group_round tp val else file_group s f id') ∧
       yaffs_find_tnode_0 f' id s'' = Ok (tn, s'') ∧
       yaffs_get_group_base tp tn id s'' = Ok (group_round tp val, s'')).
Proof.
  intros Hid Hval Hf.
  destruct (add_find_tnode_0_run f id s R Hid Hf) as ([tn f'] & s' & H1 & Hf' & Hs' & Hgr & Htn & Hz & Hroot).
  exists tn, f', s'. do 5 (split; [done|]). split.
  { intros ->. destruct (decide (YAFFS_MAX_CHUNK_ID < id)), (decide (top f = 0)); [by left|by left|by right; left|right; right].
    intros Hk. by destruct (add_find_finds f id s 0 f' s' 0 (proj1 Hf) ltac:(lia) n0 H1 Hk) as [[] _]. }
  intros Hne. destruct (Htn Hne) as (Hmax & Hreach & Hleaf).
  destruct (load_tnode_0_run f' id val s' R tn ltac:(lia) Hval Hf' Hleaf Hne)
    as ([] & s'' & H2 & Hf'' & Hs'' & Hleaf' & Hgr').
  exists s''. split; [done|]. split; [done|]. split; [by etrans|].
  split; [intros id' Hid'; rewrite Hgr' by done; destruct (decide _); auto|]. split.
  - rewrite (find_tnode_0_run f' id s'' R) by done. rewrite decide_True by lia. by rewrite Hleaf', Hleaf.
  - rewrite (get_group_base_run f' id s'' R tn) by (done || lia || by rewrite Hleaf').
    by rewrite Hgr', decide_True.
Qed.

(** C21. Pruning gives memory back and nothing else: on a file with a well-formed tree
    that has the tnode of its first chunks, [yaffs_prune_tree] ends without following a
    null pointer, leaves such a file, touches no other tnode in use, and every chunk of
    the file keeps its group. *)
Theorem prune_tree_spec f s R : file_ok s f R → rooted s f →
  ∃ f' s', yaffs_prune_tree tp f s = Ok (f', s') ∧ file_ok s' f' R ∧ rooted s' f' ∧ same R s s' ∧
    ∀ id, 0 ≤ id → file_group s' f' id = file_group s f id.
Proof. apply prune_tree_run. Qed.
End tnode_specs.

(** What [tnode_setup] leaves room for. *)
Lemma tnode_setup_room n_chunks wide : 1 ≤ n_chunks ≤ 2 ^ 30 →
  n_chunks ≤ 2 ^ (tp_width (tnode_setup n_chunks wide) + tp_grp_bits (tnode_setup n_chunks wide)) ∧
  (wide = false → tp_grp_bits (tnode_setup n_chunks wide) = 0).
Proof.
  intros Hn. assert (n_chunks ≤ 2 ^ Z.log2_up n_chunks) as Hle.
  { destruct (decide (n_chunks = 1)) as [->|]; [done|]. by apply (Z.log2_up_spec n_chunks); lia. }
  unfold tnode_setup. rewrite calc_shifts_ceiling_log2 by lia.
  assert (0 ≤ Z.log2_up n_chunks ≤ 30) as Hb.
  { split; [apply Z.log2_up_nonneg|]. change 30 with (Z.log2_up (2 ^ 30)). apply Z.log2_up_le_mono. lia. }
  generalize dependent (Z.log2_up n_chunks). intros bits Hle Hb.
  assert (∀ w g, bits ≤ w + g → n_chunks ≤ 2 ^ (w + g)) as Hup.
  { intros w g Hwg. etrans; [exact Hle|]. apply Z.pow_le_mono_r; lia. }
  destruct wide; cbn [negb].
  - cbn [tp_width tp_grp_bits]. split; [|done]. apply Hup. destruct (Z.leb_spec bits 16); lia.
  - set (b := if Z.land bits 1 =? 0 then bits else bits + 1).
    assert (bits ≤ b) by (unfold b; destruct (_ =? 0); lia).
    set (w := if b <? 16 then 16 else b). assert (b ≤ w) by (unfold w; destruct (Z.ltb_spec b 16); lia).
    cbn [tp_width tp_grp_bits]. destruct (Z.leb_spec b w); [|lia]. split; [|done]. apply Hup. lia.
Qed.

(** The fields of a tnode hold every chunk of the device: with the geometry that
    mounting computes for a device of at most 2^30 chunks, what
    [yaffs_load_tnode_0] stores at a position [yaffs_get_group_base] returns from it, rounded
    down to the group of the chunk, exactly when wide tnodes are not disabled; the other
    15 fields of the tnode keep their values. *)
Theorem tnode_fields_fit n_chunks wide map pos pos' val :
  let tp := tnode_setup n_chunks wide in
  1 ≤ n_chunks ≤ 2 ^ 30 → words_ok tp map → 0 ≤ pos < 16 → 0 ≤ pos' < 16 → 0 ≤ val < n_chunks →
  ∃ map', load_tnode_words tp map pos val = Some map' ∧ words_ok tp map' ∧
    group_base_words tp map' pos =
      Some (if wide then val - val mod 2 ^ tp_grp_bits tp else val) ∧
    (pos' ≠ pos → group_base_words tp map' pos' = group_base_words tp map pos').
Proof.
  intros tp Hn Hm Hp Hp' Hv. pose proof (tnode_setup_geo n_chunks wide Hn) as Hgeo. fold tp in Hgeo.
  destruct (tnode_setup_room n_chunks wide Hn) as [Hroom Hgrp]. fold tp in Hroom, Hgrp.
  destruct (load_tnode_words_spec tp map pos val Hm Hp ltac:(lia)) as (map' & Hl & Hm' & _).
  exists map'. split; [done|]. split; [done|].
  rewrite !(group_base_words_Some tp) by done.
  rewrite !(group_at_load tp map map' pos val) by (done || lia). rewrite decide_True by done. split.
  - f_equal. pose proof (tg_grp (tp := tp)) as Hg. pose proof (tg_width (tp := tp)) as Hw.
    set (g := tp_grp_bits tp) in *.
    assert (group_round tp val = val - val mod 2 ^ g) as ->.
    { assert (0 < 2 ^ g) by lia.
      assert (group_round tp val = group_round tp (val - val mod 2 ^ g)) as ->.
      { unfold group_round. fold g. do 3 f_equal. rewrite !Z.shiftr_div_pow2 by lia.
        pose proof (Z.div_mod val (2 ^ g) ltac:(lia)).
        replace (val - val mod 2 ^ g) with (val / 2 ^ g * 2 ^ g) by lia. by rewrite Z.div_mul by lia. }
      assert (0 ≤ val mod 2 ^ g ≤ val).
      { split; [by apply Z.mod_pos_bound|by apply Z.mod_le; lia]. }
      assert (0 ≤ val - val mod 2 ^ g ≤ val) as Hle by lia.
      apply (group_round_id tp); fold g; [lia|lia|].
      by rewrite Zminus_mod_idemp_r, Z.sub_diag. }
    destruct wide; [done|]. rewrite Hgrp by done. rewrite Z.mod_1_r. lia.
  - intros Hne. by rewrite decide_False.
Qed.

(** ** A small file *)

(** A heap that hands out one block after the other. *)
Definition demo_mem : kernel_mem Z := {|
  kmalloc size k :=
    if (0 <? k) && (0 <=? size) && (k + size <=? 2 ^ 32)
    then (k, replicate (Z.to_nat (size / 4)) 0xa5a5a5a5, k + size) else (0, [], k);
  kfree _ k := k |}.
#[local] Existing Instance demo_mem.

Definition demo_mem_ok : kernel_mem_ok Z.
Proof.
  refine {| owned k x := x < k |}.
  - intros size k x Hx. unfold kmalloc, demo_mem. destruct (Z.leb_spec 0 size); [|by rewrite andb_false_r].
    destruct (_ && _ && _); cbn; lia.
  - intros size k Hs. unfold kmalloc, demo_mem.
    destruct (Z.ltb_spec 0 k), (Z.leb_spec 0 size), (Z.leb_spec (k + size) (2 ^ 32)); cbn [andb]; try (by left).
    right. rewrite length_replicate. assert (0 ≤ size / 4) by (apply Z.div_pos; lia).
    split; [lia|]. split; [lia|]. split; [lia|]. split; [by apply Forall_replicate|]. intros x Hx. lia.
Defined.
#[local] Existing Instance demo_mem_ok.

(** A device of 3 blocks of 16 chunks: fields of 16 bits. *)
Definition demo_tp : tnode_params := tnode_setup 64 false.

Definition demo_file : yaffs_file_var := mk_file_var 0 0 0 0 4096.

Definition demo_fs : yaffs_fs () Z :=
  mk_fs (mk_dev () (mk_blocks [] [] 0 0 0 0 0 0) (mk_gc false false 0 0 0 0 0 0 0 0 0 0 0) (mk_temp [] 0 0 0 0)
           false 0 0 None 0 1 (λ _, 0))
    (Some (mk_alloc 0 0 0 [])) {[4096 := replicate 8 0]} 4128.

Lemma demo_tp_geo : tnode_geo demo_tp.
Proof. by apply tnode_setup_geo. Qed.
#[local] Existing Instance demo_tp_geo.

Lemma demo_file_ok : file_ok demo_tp demo_fs demo_file [].
Proof.
  split; [done|]. split.
  - exists (mk_alloc 0 0 0 []), []. split; [done|]. split; [done|]. split; [done|].
    change (NoDup [4096]). apply NoDup_singleton.
  - intros p ws Hp. cbn in Hp. apply lookup_singleton_Some in Hp as [<- <-]. split; [done|]. split; [|done].
    split; [done|]. by repeat constructor.
  - intros p Hp. change (p ∈ [4096]) in Hp. apply list_elem_of_singleton in Hp as ->. by eexists.
Qed.

Lemma demo_rooted : rooted demo_fs demo_file.
Proof. done. Qed.

Example tnode_tree_is_a_map_witness : ∃ tn f' s' s'',
  yaffs_add_find_tnode_0 demo_tp demo_file 100 0 demo_fs = Ok ((tn, f'), s') ∧
  yaffs_load_tnode_0 demo_tp tn 100 37 s' = Ok ((), s'') ∧ file_group demo_tp s'' f' 100 = 37.
Proof.
  destruct (tnode_tree_is_a_map demo_tp demo_file 100 37 demo_fs [] ltac:(done) ltac:(done) demo_file_ok)
    as (tn & f' & s' & H1 & _ & _ & _ & _ & H2 & H3).
  destruct (decide (tn = 0)) as [E|Hne].
  - exfalso. destruct (H2 E) as [H|[H|H]]; [done|done|]. apply H. vm_compute. by repeat split.
  - destruct (H3 Hne) as (s'' & H4 & _ & _ & H5 & _). exists tn, f', s', s''. split; [exact H1|]. split; [exact H4|].
    rewrite H5 by done. by vm_compute.
Defined.

Example prune_tree_spec_witness : ∃ f' s', yaffs_prune_tree demo_tp demo_file demo_fs = Ok (f', s') ∧
  rooted s' f'.
Proof.
  destruct (prune_tree_spec demo_tp demo_file demo_fs [] demo_file_ok demo_rooted) as (f' & s' & H1 & _ & H2 & _).
  exists f', s'. split; [exact H1|exact H2].
Defined.

Example tnode_fields_fit_witness : ∃ map',
  load_tnode_words demo_tp (replicate 8 0) 3 37 = Some map' ∧ group_base_words demo_tp map' 3 = Some 37.
Proof.
  destruct (tnode_fields_fit 64 false (replicate 8 0) 3 3 37) as (map' & H1 & _ & H2 & _);
    [lia|split; [reflexivity|by apply Forall_replicate]|lia|lia|lia|].
  exists map'. split; [exact H1|exact H2].
Defined.
