(* ===== verification/YaffsFile.v ===== *)
(** * YAFFS: the data of files

    The part of [yaffs_guts.c] between the calls of a file and the chunks of the device: the
    position of a byte, the chunk of a file in its tree, writing and reading a chunk of a
    file, the collection of garbage, the cache of chunks, reading, writing and truncation. An
    object is known by its address, which is 0 for [NULL]; an element of the cache by its index in
    the array. Names and directories are not part of it: what these functions ask of the objects'
    own part, to write the header of an object and to delete one, is the class [yaffs_objects]. *)

From S2P Require Import Prelude Memory Endian YaffsEcc YaffsTags YaffsDev YaffsTnode.

Definition YAFFS_NOBJECT_BUCKETS : Z := 256.
Definition YAFFS_OBJECTID_UNLINKED : Z := 3.
Definition YAFFS_OBJECTID_DELETED : Z := 4.
Definition YAFFS_GC_GOOD_ENOUGH : Z := 2.
Definition YAFFS_GC_PASSIVE_THRESHOLD : Z := 4.

(** ** State *)

(** The fields of [struct yaffs_obj] that these functions use; [ob_parent] has the number of the
    parent, if there is one. *)
Record yaffs_obj := mk_obj {
  ob_deleted : bool;
  ob_soft_del : bool;
  ob_dirty : bool;
  ob_defered_free : bool;
  ob_is_shadowed : bool;
  ob_serial : Z;
  ob_parent : option Z;
  ob_hdr_chunk : Z;
  ob_n_data_chunks : Z;
  ob_obj_id : Z;
  ob_variant_type : Z;
  file_variant : yaffs_file_var
}.

Definition set_ob_dirty (v : bool) (o : yaffs_obj) : yaffs_obj :=
  mk_obj (ob_deleted o) (ob_soft_del o) v (ob_defered_free o) (ob_is_shadowed o) (ob_serial o) (ob_parent o)
    (ob_hdr_chunk o) (ob_n_data_chunks o) (ob_obj_id o) (ob_variant_type o) (file_variant o).
Definition set_ob_hdr (chunk serial : Z) (o : yaffs_obj) : yaffs_obj :=
  mk_obj (ob_deleted o) (ob_soft_del o) (ob_dirty o) (ob_defered_free o) (ob_is_shadowed o) serial (ob_parent o)
    chunk (ob_n_data_chunks o) (ob_obj_id o) (ob_variant_type o) (file_variant o).
Definition set_ob_n_data_chunks (v : Z) (o : yaffs_obj) : yaffs_obj :=
  mk_obj (ob_deleted o) (ob_soft_del o) (ob_dirty o) (ob_defered_free o) (ob_is_shadowed o) (ob_serial o)
    (ob_parent o) (ob_hdr_chunk o) v (ob_obj_id o) (ob_variant_type o) (file_variant o).
Definition set_file_variant (v : yaffs_file_var) (o : yaffs_obj) : yaffs_obj :=
  mk_obj (ob_deleted o) (ob_soft_del o) (ob_dirty o) (ob_defered_free o) (ob_is_shadowed o) (ob_serial o)
    (ob_parent o) (ob_hdr_chunk o) (ob_n_data_chunks o) (ob_obj_id o) (ob_variant_type o) v.

Definition set_file_size (v : Z) (f : yaffs_file_var) : yaffs_file_var :=
  mk_file_var v (stored_size f) (shrink_size f) (top_level f) (top f).
Definition set_stored_size (v : Z) (f : yaffs_file_var) : yaffs_file_var :=
  mk_file_var (file_size f) v (shrink_size f) (top_level f) (top f).

(** [struct yaffs_cache]. *)
Record yaffs_cache := mk_cache {
  ca_object : Z;
  ca_chunk_id : Z;
  ca_last_use : Z;
  ca_dirty : bool;
  ca_n_bytes : Z;
  ca_locked : bool;
  ca_data : list Z
}.

Definition set_ca_object (v : Z) (c : yaffs_cache) : yaffs_cache :=
  mk_cache v (ca_chunk_id c) (ca_last_use c) (ca_dirty c) (ca_n_bytes c) (ca_locked c) (ca_data c).
Definition set_ca_last_use (v : Z) (c : yaffs_cache) : yaffs_cache :=
  mk_cache (ca_object c) (ca_chunk_id c) v (ca_dirty c) (ca_n_bytes c) (ca_locked c) (ca_data c).
Definition set_ca_dirty (v : bool) (c : yaffs_cache) : yaffs_cache :=
  mk_cache (ca_object c) (ca_chunk_id c) (ca_last_use c) v (ca_n_bytes c) (ca_locked c) (ca_data c).
Definition set_ca_n_bytes (v : Z) (c : yaffs_cache) : yaffs_cache :=
  mk_cache (ca_object c) (ca_chunk_id c) (ca_last_use c) (ca_dirty c) v (ca_locked c) (ca_data c).
Definition set_ca_locked (v : bool) (c : yaffs_cache) : yaffs_cache :=
  mk_cache (ca_object c) (ca_chunk_id c) (ca_last_use c) (ca_dirty c) (ca_n_bytes c) v (ca_data c).
Definition set_ca_data (v : list Z) (c : yaffs_cache) : yaffs_cache :=
  mk_cache (ca_object c) (ca_chunk_id c) (ca_last_use c) (ca_dirty c) (ca_n_bytes c) (ca_locked c) v.

(** The device with its objects: [objs] has them by their addresses, [obj_bucket] the addresses
    on the list of each bucket. *)
Record yaffs_vol (F K : Type) := mk_vol {
  vol_fs : yaffs_fs F K;
  objs : gmap Z yaffs_obj;
  obj_bucket : gmap Z (list Z);
  cache : list yaffs_cache;
  cache_last_use : Z;
  gc_cleanup_list : list Z;
  n_deleted_files : Z
}.
Arguments mk_vol {F K}.
Arguments vol_fs {F K} _.
Arguments objs {F K} _.
Arguments obj_bucket {F K} _.
Arguments cache {F K} _.
Arguments cache_last_use {F K} _.
Arguments gc_cleanup_list {F K} _.
Arguments n_deleted_files {F K} _.

Definition set_vol_fs {F K} (x : yaffs_fs F K) (v : yaffs_vol F K) : yaffs_vol F K :=
  mk_vol x (objs v) (obj_bucket v) (cache v) (cache_last_use v) (gc_cleanup_list v) (n_deleted_files v).
Definition set_objs {F K} (x : gmap Z yaffs_obj) (v : yaffs_vol F K) : yaffs_vol F K :=
  mk_vol (vol_fs v) x (obj_bucket v) (cache v) (cache_last_use v) (gc_cleanup_list v) (n_deleted_files v).
Definition set_cache {F K} (x : list yaffs_cache) (v : yaffs_vol F K) : yaffs_vol F K :=
  mk_vol (vol_fs v) (objs v) (obj_bucket v) x (cache_last_use v) (gc_cleanup_list v) (n_deleted_files v).
Definition set_cache_last_use {F K} (x : Z) (v : yaffs_vol F K) : yaffs_vol F K :=
  mk_vol (vol_fs v) (objs v) (obj_bucket v) (cache v) x (gc_cleanup_list v) (n_deleted_files v).
Definition set_gc_cleanup_list {F K} (x : list Z) (v : yaffs_vol F K) : yaffs_vol F K :=
  mk_vol (vol_fs v) (objs v) (obj_bucket v) (cache v) (cache_last_use v) x (n_deleted_files v).
Definition set_n_deleted_files {F K} (x : Z) (v : yaffs_vol F K) : yaffs_vol F K :=
  mk_vol (vol_fs v) (objs v) (obj_bucket v) (cache v) (cache_last_use v) (gc_cleanup_list v) x.

(** What the application chooses: the length of the cache, whether whole chunks are written around it,
    and a function that says whether garbage may be collected. *)
Class file_config (F : Type) := {
  n_caches : nat;
  cache_bypass_aligned : bool;
  gc_control_fn : option (yaffs_dev F → Z)
}.

(** [yaffs_update_oh] with its arguments [force], [is_shrink] and [shadows], without a new name and
    without attributes, and [yaffs_generic_obj_del]. *)
Class yaffs_objects (F K : Type) := {
  yaffs_update_oh : Z → bool → bool → Z → prog (yaffs_vol F K) Z;
  yaffs_generic_obj_del : Z → prog (yaffs_vol F K) Z
}.

Section file.
Context {F K : Type} {cfg : yaffs_config} {drv : yaffs_driver F} {km : kernel_mem K}.
Context {fc : file_config F} {ol : yaffs_objects F K} (tp : tnode_params).
Abbreviation M := (prog (yaffs_vol F K)).

(** The attempts of [yaffs_write_new_chunk] are bounded by [yaffs_wr_attempts]; [u] is what the local
    variables for tags hold before something is read into them. *)
Context (fuel : nat) (u : yaffs_ext_tags).

Definition in_fs {A} (m : prog (yaffs_fs F K) A) : M A := zoom vol_fs set_vol_fs m.
Definition in_dev {A} (m : prog (yaffs_dev F) A) : M A := in_fs (on_dev m).

(** [*in] and [in->field = v]. *)
Definition the_obj (p : Z) : M yaffs_obj := v ← get; defined (objs v !! p).
Definition upd_obj (p : Z) (f : yaffs_obj → yaffs_obj) : M () :=
  o ← the_obj p; modify (λ v, set_objs (<[p := f o]> (objs v)) v).
Definition upd_file (p : Z) (f : yaffs_file_var → yaffs_file_var) : M () :=
  upd_obj p (λ o, set_file_variant (f (file_variant o)) o).

(** ** Positions *)

Definition chunk_shift : Z := calc_shifts data_bytes_per_chunk.
Definition chunk_div : Z := Z.shiftr data_bytes_per_chunk chunk_shift.
Definition chunk_mask : Z := u32 (s32 (Z.shiftl 1 chunk_shift) - 1).

(** The chunk, which is counted from 0 here, and the offset in it. *)
Definition yaffs_addr_to_chunk (addr : Z) : Z * Z :=
  let chunk := s32 (u32 (Z.shiftr addr chunk_shift)) in
  if chunk_div =? 1 then (chunk, u32 (Z.land addr chunk_mask))
  else
    let chunk := s32 (u32 chunk / chunk_div) in
    let chunk_base := s64 (chunk * data_bytes_per_chunk) in
    (chunk, u32 (addr - chunk_base)).

(** ** Objects by number *)

Definition yaffs_hash_fn (n : Z) : Z := Z.rem (if n <? 0 then s32 (- n) else n) YAFFS_NOBJECT_BUCKETS.

(** The [list_for_each] of [yaffs_find_by_number]. *)
Fixpoint bucket_loop (l : list Z) (number : Z) : M Z :=
  match l with
  | [] => mret 0
  | p :: l' =>
      o ← the_obj p;
      if ob_obj_id o =? number then mret (if ob_defered_free o then 0 else p)
      else bucket_loop l' number
  end.

Definition yaffs_find_by_number (number : Z) : M Z :=
  v ← get;
  bucket_loop (default [] (obj_bucket v !! yaffs_hash_fn (s32 number))) number.

(** ** The chunks of a file *)

Definition chunk_grp_size : Z := Z.shiftl 1 (tp_grp_bits tp).

Definition yaffs_tags_match (t : yaffs_ext_tags) (obj chunk_obj : Z) : bool :=
  (chunk_id t =? u32 chunk_obj) && (obj_id t =? u32 obj) && (is_deleted t =? 0).

(** The loop over the [n] chunks of the group that are left; the chunk, or -1, and the tags. *)
Fixpoint group_loop (n : nat) (the_chunk obj inode_chunk : Z) (t : yaffs_ext_tags) : M (Z * yaffs_ext_tags) :=
  match n with
  | O => mret (-1, t)
  | S n' =>
      if the_chunk =? 0 then mret (-1, t)
      else
        used ← in_dev (yaffs_check_chunk_bit (u32 the_chunk / chunks_per_block) (u32 the_chunk mod chunks_per_block));
        if (used : bool) && (chunk_grp_size =? 1) then mret (the_chunk, t)
        else
          t ← (if used then
                 r ← in_dev (yaffs_rd_chunk_tags_nand the_chunk false t); mret r.2
               else mret t);
          if used && yaffs_tags_match t obj inode_chunk then mret (the_chunk, t)
          else group_loop n' (the_chunk + 1) obj inode_chunk t
  end.

Definition yaffs_find_chunk_in_group (the_chunk : Z) (t : yaffs_ext_tags) (obj inode_chunk : Z) : M (Z * yaffs_ext_tags) :=
  group_loop (Z.to_nat chunk_grp_size) the_chunk obj inode_chunk t.

(** The caller's tags, or those of a local variable, hold [t]. *)
Definition yaffs_find_chunk_in_file (p inode_chunk : Z) (t : yaffs_ext_tags) : M (Z * yaffs_ext_tags) :=
  o ← the_obj p;
  tn ← in_fs (yaffs_find_tnode_0 (file_variant o) inode_chunk);
  if tn =? 0 then mret (-1, t)
  else
    the_chunk ← in_fs (yaffs_get_group_base tp tn inode_chunk);
    yaffs_find_chunk_in_group (s32 the_chunk) t (ob_obj_id o) inode_chunk.

Definition yaffs_find_del_file_chunk (p inode_chunk : Z) (t : yaffs_ext_tags) : M Z :=
  o ← the_obj p;
  tn ← in_fs (yaffs_find_tnode_0 (file_variant o) inode_chunk);
  if tn =? 0 then mret (-1)
  else
    the_chunk ← in_fs (yaffs_get_group_base tp tn inode_chunk);
    r ← yaffs_find_chunk_in_group (s32 the_chunk) t (ob_obj_id o) inode_chunk;
    when (negb (r.1 =? -1)) (in_fs (yaffs_load_tnode_0 tp tn inode_chunk 0));;
    mret r.1.

(** The part of [yaffs_put_chunk_in_file] for scanning: the chunk that is kept is the newer one;
    whether [nand_chunk] goes into the tree. *)
Definition put_in_scan (p inode_chunk nand_chunk in_scan existing : Z) : M (Z * bool) :=
  if (in_scan =? 0) || negb (0 <? existing) then mret (existing, true)
  else
    r ← (if 0 <? in_scan then
           r ← in_dev (yaffs_rd_chunk_tags_nand nand_chunk false u);
           e ← yaffs_find_chunk_in_file p inode_chunk u;
           mret (e.1, serial_number r.2, serial_number e.2)
         else mret (existing, 0, 0));
    let '(existing, new_serial, existing_serial) := (r : Z * Z * Z) in
    if (0 <? in_scan) && ((existing <=? 0) || (Z.land (u32 (existing_serial + 1)) 3 =? new_serial)) then
      in_dev (yaffs_chunk_del u existing true);; mret (existing, true)
    else
      in_dev (yaffs_chunk_del u nand_chunk true);; mret (existing, false).

Definition yaffs_put_chunk_in_file (p inode_chunk nand_chunk in_scan : Z) : M Z :=
  o ← the_obj p;
  if negb (ob_variant_type o =? YAFFS_OBJECT_TYPE_FILE) then
    if in_scan =? 0 then fail FBug
    else in_dev (yaffs_chunk_del u nand_chunk true);; mret YAFFS_OK
  else
    r ← in_fs (yaffs_add_find_tnode_0 tp (file_variant o) inode_chunk 0);
    let '(tn, f) := (r : Z * yaffs_file_var) in
    upd_file p (λ _, f);;
    if tn =? 0 then mret YAFFS_FAIL
    else if nand_chunk =? 0 then mret YAFFS_OK
    else
      existing ← in_fs (yaffs_get_group_base tp tn inode_chunk);
      r ← put_in_scan p inode_chunk nand_chunk in_scan (s32 existing);
      let '(existing, go_on) := (r : Z * bool) in
      if negb go_on then mret YAFFS_OK
      else
        when (existing =? 0) (upd_obj p (λ o, set_ob_n_data_chunks (ob_n_data_chunks o + 1) o));;
        in_fs (yaffs_load_tnode_0 tp tn inode_chunk nand_chunk);;
        mret YAFFS_OK.

(** [memcpy] from the offset [off] of a buffer. *)
Definition slice (l : list Z) (off n : Z) : option (list Z) :=
  if (0 <=? off) && (0 <=? n) && (off + n <=? zlen l) then Some (take (Z.to_nat n) (drop (Z.to_nat off) l)) else None.

(** [yaffs_rd_data_obj]: the result, and [buffer] with the chunk, or with zeros, in its first bytes. *)
Definition yaffs_rd_data_obj (p inode_chunk : Z) (buffer : list Z) : M (Z * list Z) :=
  r ← yaffs_find_chunk_in_file p inode_chunk u;
  let nand_chunk := r.1 in
  if 0 <=? nand_chunk then
    r ← in_dev (yaffs_rd_chunk_tags_nand nand_chunk true u);
    let '(result, data, _) := r in
    buffer ← defined (overlay buffer 0 data);
    mret (result, buffer)
  else
    buffer ← defined (overlay buffer 0 (replicate (Z.to_nat data_bytes_per_chunk) 0));
    mret (0, buffer).

(** ** The choice of a block to collect *)

(** The search for a block that is marked for collection, in the [n] blocks from [i] on: the block or
    0, and whether there are marked ones. *)
Fixpoint prioritised_loop (n : nat) (i : Z) (marked : bool) : prog (yaffs_dev F) (Z * bool) :=
  match n with
  | O => mret (0, marked)
  | S n' =>
      b ← bi_of i;
      if gc_prioritise b then
        ok ← (if bool_decide (block_state b = YAFFS_BLOCK_STATE_FULL) then yaffs_block_ok_for_gc i else mret false);
        if ok && negb (i =? 0) then mret (i, true) else prioritised_loop n' (i + 1) true
      else prioritised_loop n' (i + 1) marked
  end.

(** The search for the block with the fewest chunks in use in at most [n] blocks. *)
Fixpoint dirtiest_loop (n : nat) : prog (yaffs_dev F) () :=
  match n with
  | O => mret ()
  | S n' =>
      d ← get;
      if (gc_dirtiest (gc d) <? 1) || (YAFFS_GC_GOOD_ENOUGH <? gc_pages_in_use (gc d)) then
        upd_gc (λ g, set_gc_block_finder (u32 (gc_block_finder g + 1)) g);;
        upd_gc (λ g,
          if (gc_block_finder g <? internal_start_block) || (internal_end_block <? gc_block_finder g)
          then set_gc_block_finder internal_start_block g else g);;
        d ← get;
        let finder := gc_block_finder (gc d) in
        bi ← yaffs_get_block_info finder;
        b ← bi_of bi;
        let pages_used := u32 (pages_in_use b - soft_del_pages b) in
        ok ← (if bool_decide (block_state b = YAFFS_BLOCK_STATE_FULL) && (pages_used <? chunks_per_block) &&
                 ((gc_dirtiest (gc d) <? 1) || (pages_used <? gc_pages_in_use (gc d)))
              then yaffs_block_ok_for_gc bi else mret false);
        when ok (upd_gc (λ g, set_gc_pages_in_use pages_used (set_gc_dirtiest finder g)));;
        dirtiest_loop n'
      else mret ()
  end.

(** The threshold and the number of blocks to look at. *)
Definition gc_effort (aggressive background : bool) (not_done : Z) : Z * Z :=
  let n_blocks := internal_end_block - internal_start_block + 1 in
  if aggressive then (chunks_per_block, n_blocks)
  else
    let max_threshold := Z.max (if background then chunks_per_block / 2 else chunks_per_block / 8) YAFFS_GC_PASSIVE_THRESHOLD in
    let threshold := Z.max (if background then u32 ((not_done + 2) * 2) else 0) YAFFS_GC_PASSIVE_THRESHOLD in
    (Z.min threshold max_threshold, Z.min (n_blocks / 16 + 1) 100).

Definition select_prioritised (aggressive : bool) : prog (yaffs_dev F) Z :=
  d ← get;
  if has_pending_prioritised_gc (gc d) && negb aggressive then
    upd_gc (set_gc_dirtiest 0);;
    r ← prioritised_loop (Z.to_nat (internal_end_block - internal_start_block + 1)) internal_start_block false;
    let '(selected, marked) := (r : Z * bool) in
    d ← get;
    let selected := if marked && (selected =? 0) && (0 <? oldest_dirty_block (gc d)) then oldest_dirty_block (gc d)
                    else selected in
    when (negb marked) (upd_gc (set_has_pending_prioritised_gc false));;
    mret selected
  else mret 0.

Definition select_dirtiest (aggressive background : bool) : prog (yaffs_dev F) Z :=
  d ← get;
  let '(threshold, iterations) := gc_effort aggressive background (gc_not_done (gc d)) in
  dirtiest_loop (Z.to_nat iterations);;
  d ← get;
  mret (if (0 <? gc_dirtiest (gc d)) && (gc_pages_in_use (gc d) <=? threshold) then gc_dirtiest (gc d) else 0).

Definition select_oldest (background : bool) : prog (yaffs_dev F) Z :=
  d ← get;
  if is_yaffs2 && ((if background then 10 else 20) <=? gc_not_done (gc d)) then
    yaffs2_find_oldest_dirty_seq;;
    d ← get;
    if 0 <? oldest_dirty_block (gc d) then
      let selected := oldest_dirty_block (gc d) in
      upd_gc (set_gc_dirtiest selected);;
      bump Oldest_dirty_gc_count;;
      bi ← yaffs_get_block_info selected;
      b ← bi_of bi;
      upd_gc (set_gc_pages_in_use (u32 (pages_in_use b - soft_del_pages b)));;
      mret selected
    else upd_gc (set_gc_not_done 0);; mret 0
  else mret 0.

Definition yaffs_find_gc_block (aggressive background : bool) : prog (yaffs_dev F) Z :=
  selected ← select_prioritised aggressive;
  selected ← (if selected =? 0 then select_dirtiest aggressive background else mret selected);
  selected ← (if selected =? 0 then select_oldest background else mret selected);
  (if negb (selected =? 0) then
     bump N_gc_blocks;;
     when background (bump Bg_gcs);;
     upd_gc (λ g, set_gc_not_done 0 (set_gc_pages_in_use 0 (set_gc_dirtiest 0 g)));;
     upd_gc (λ g, if 0 <? refresh_skip g then set_refresh_skip (refresh_skip g - 1) g else g)
   else upd_gc (λ g, set_gc_not_done (u32 (gc_not_done g + 1)) g));;
  mret selected.

(** ** Collection *)

(** The offsets of the fields of [struct yaffs_obj_hdr] that a collection changes in the buffer. *)
Definition oh_file_size_low_off : Z := 292.
Definition oh_inband_shadowed_off : Z := 488.
Definition oh_file_size_high_off : Z := 496.
Definition oh_shadows_off : Z := 504.
Definition oh_is_shrink_off : Z := 508.

Definition poke32 (off v : Z) (buffer : list Z) : option (list Z) := overlay buffer off (digits BE 4 (u32 v)).

Definition yaffs_oh_size_load (fsize : Z) (do_endian : bool) (buffer : list Z) : option (list Z) :=
  let endian v := if do_endian then yaffs_do_endian_u32 swap_endian v else v in
  buffer ← poke32 oh_file_size_low_off (endian (u32 fsize)) buffer;
  poke32 oh_file_size_high_off (endian (u32 (Z.shiftr fsize 32))) buffer.

Definition set_serial (v : Z) (t : yaffs_ext_tags) : yaffs_ext_tags :=
  mk_ext_tags (chunk_used t) (obj_id t) (chunk_id t) (n_bytes t) (ecc_result t) (block_bad t) (is_deleted t)
    v (seq_number t) (extra_available t) (extra_parent_id t) (extra_is_shrink t)
    (extra_shadows t) (extra_obj_type t) (extra_file_size t) (extra_equiv_id t).
Definition set_extra (is_shrink shadows file_size : Z) (t : yaffs_ext_tags) : yaffs_ext_tags :=
  mk_ext_tags (chunk_used t) (obj_id t) (chunk_id t) (n_bytes t) (ecc_result t) (block_bad t) (is_deleted t)
    (serial_number t) (seq_number t) (extra_available t) (extra_parent_id t) is_shrink
    shadows (extra_obj_type t) file_size (extra_equiv_id t).

(** The header of an object as it is copied: it neither shrinks the file nor shadows an object. *)
Definition gc_header (o : yaffs_obj) (buffer : list Z) (t : yaffs_ext_tags) : option (list Z * yaffs_ext_tags) :=
  buffer ← poke32 oh_is_shrink_off 0 buffer;
  buffer ← poke32 oh_shadows_off 0 buffer;
  buffer ← poke32 oh_inband_shadowed_off 0 buffer;
  if ob_variant_type o =? YAFFS_OBJECT_TYPE_FILE then
    buffer ← yaffs_oh_size_load (stored_size (file_variant o)) true buffer;
    Some (buffer, set_extra 0 0 (stored_size (file_variant o)) t)
  else Some (buffer, set_extra 0 0 (extra_file_size t) t).

(** The check that verification asks for; its result is only traced. *)
Definition gc_match (object : Z) (t : yaffs_ext_tags) : M () :=
  if (object =? 0) || skip_verification then mret ()
  else
    o ← the_obj object;
    when (negb (chunk_id t =? 0) && negb (ob_soft_del o)) (
      _ ← yaffs_find_chunk_in_file object (chunk_id t) u; mret ()).

(** A chunk of a file that is being deleted is given up; the file is noted with its last one. *)
Definition gc_give_up (bi object : Z) (t : yaffs_ext_tags) : M () :=
  in_dev (upd_blocks (λ b, set_n_free_chunks (n_free_chunks b - 1) b));;
  in_dev (upd_bi bi (λ b, set_soft_del_pages (wraps 10 (soft_del_pages b - 1)) b));;
  upd_obj object (λ o, set_ob_n_data_chunks (ob_n_data_chunks o - 1) o);;
  o ← the_obj object;
  when (ob_n_data_chunks o <=? 0) (
    d ← in_dev get;
    v ← get;
    l ← defined (zset (gc_cleanup_list v) (n_clean_ups (gc d)) (obj_id t));
    modify (set_gc_cleanup_list l);;
    in_dev (upd_gc (λ g, set_n_clean_ups (u32 (n_clean_ups g + 1)) g))).

(** Any other chunk is copied. *)
Definition gc_copy (object : Z) (buffer : list Z) (t : yaffs_ext_tags) : M Z :=
  let t := set_serial (u32 (serial_number t + 1)) t in
  in_dev (bump N_gc_copies);;
  o ← the_obj object;
  r ← (if chunk_id t =? 0 then defined (gc_header o buffer t) else mret (buffer, t));
  let '(buffer, t) := (r : list Z * yaffs_ext_tags) in
  new_chunk ← in_dev (yaffs_write_new_chunk fuel u (Some buffer) t true);
  if new_chunk <? 0 then mret YAFFS_FAIL
  else
    (if chunk_id t =? 0 then upd_obj object (set_ob_hdr new_chunk (u8 (serial_number t)))
     else _ ← yaffs_put_chunk_in_file object (s32 (chunk_id t)) new_chunk 0; mret ());;
    mret YAFFS_OK.

Definition yaffs_gc_process_chunk (bi old_chunk : Z) : M Z :=
  r ← in_dev (yaffs_rd_chunk_tags_nand old_chunk true ext_tags_zero);
  let '(_, buffer, t) := r in
  object ← yaffs_find_by_number (obj_id t);
  gc_match object t;;
  r ← (if object =? 0 then mret (YAFFS_OK, true)
       else
         o ← the_obj object;
         if ob_deleted o && ob_soft_del o && negb (chunk_id t =? 0) then
           gc_give_up bi object t;; mret (YAFFS_OK, false)
         else ret_val ← gc_copy object buffer t; mret (ret_val, true));
  let '(ret_val, mark_flash) := (r : Z * bool) in
  when (ret_val =? YAFFS_OK) (in_dev (yaffs_chunk_del u old_chunk mark_flash));;
  mret ret_val.

(** A round of the loop over the chunks of the block; its local variables are [old_chunk],
    [max_copies] and [ret_val]. *)
Definition gc_round (block bi : Z) (a : Z * Z * Z) : M (Z * Z * Z + Z) :=
  let '(old_chunk, max_copies, ret_val) := a in
  d ← in_dev get;
  b ← in_dev (bi_of bi);
  if (ret_val =? YAFFS_OK) && (gc_chunk (gc d) <? chunks_per_block) &&
     bool_decide (block_state b = YAFFS_BLOCK_STATE_COLLECTING) && (0 <? max_copies) then
    used ← in_dev (yaffs_check_chunk_bit block (gc_chunk (gc d)));
    r ← (if used : bool then
           ret_val ← yaffs_gc_process_chunk bi old_chunk; mret (max_copies - 1, ret_val)
         else mret (max_copies, ret_val));
    in_dev (upd_gc (λ g, set_gc_chunk (u32 (gc_chunk g + 1)) g));;
    mret (inl (old_chunk + 1, r.1, r.2))
  else mret (inr ret_val).

(** The loop over [dev->gc_cleanup_list] from the index [i] on. *)
Fixpoint cleanup_loop (n : nat) (i : Z) : M () :=
  match n with
  | O => mret ()
  | S n' =>
      v ← get;
      number ← defined (znth (gc_cleanup_list v) i);
      object ← yaffs_find_by_number number;
      when (negb (object =? 0)) (
        o ← the_obj object;
        in_fs (yaffs_free_tnode (top (file_variant o)));;
        upd_file object (λ f, set_top (top_level f) 0 f);;
        _ ← yaffs_generic_obj_del object;
        modify (λ v, set_n_deleted_files (n_deleted_files v - 1) v));;
      cleanup_loop n' (i + 1)
  end.

Definition yaffs_gc_block (block : Z) (whole_block : bool) : M Z :=
  bi ← in_dev (yaffs_get_block_info block);
  b ← in_dev (bi_of bi);
  when (bool_decide (block_state b = YAFFS_BLOCK_STATE_FULL))
    (in_dev (upd_bi bi (set_block_state YAFFS_BLOCK_STATE_COLLECTING)));;
  in_dev (upd_bi bi (set_has_shrink_hdr false));;
  in_dev (upd_gc (set_gc_disable true));;
  in_dev (yaffs_summary_gc block);;
  some ← (if bool_decide (block_state b = YAFFS_BLOCK_STATE_CHECKPOINT) then mret false
          else in_dev (yaffs_still_some_chunks block));
  ret_val ←
    (if negb (some : bool) then in_dev (yaffs_block_became_dirty u block);; mret YAFFS_OK
     else
       buffer ← in_dev yaffs_get_temp_buffer;
       d ← in_dev get;
       ret_val ← loop (S (Z.to_nat chunks_per_block)) (gc_round block bi)
                   (block * chunks_per_block + gc_chunk (gc d), if whole_block then chunks_per_block else 5, YAFFS_OK);
       in_dev (yaffs_release_temp_buffer buffer);;
       mret ret_val);
  b ← in_dev (bi_of bi);
  (if bool_decide (block_state b = YAFFS_BLOCK_STATE_COLLECTING) then
     in_dev (upd_bi bi (set_block_state YAFFS_BLOCK_STATE_FULL))
   else
     d ← in_dev get;
     cleanup_loop (Z.to_nat (n_clean_ups (gc d))) 0;;
     in_dev (upd_gc (λ g, set_n_clean_ups 0 (set_gc_chunk 0 (set_gc_block 0 g)))));;
  in_dev (upd_gc (set_gc_disable false));;
  mret ret_val.

(** The part of a round of [yaffs_check_gc] that decides: [None] to leave the loop, else whether to
    be aggressive. *)
Definition gc_decide (background : bool) : prog (yaffs_dev F) (option bool) :=
  checkpt_block_adjust ← yaffs_calc_checkpt_blocks_required;
  d ← get;
  let min_erased := n_reserved_blocks + checkpt_block_adjust + 1 in
  let erased_chunks := n_erased_blocks (blocks d) * chunks_per_block in
  if n_erased_blocks (blocks d) <? min_erased then mret (Some true)
  else if negb background && (Z.quot (n_free_chunks (blocks d)) 4 <? erased_chunks) then mret None
  else
    upd_gc (λ g, if 20 <? gc_skip g then set_gc_skip 20 g else g);;
    d ← get;
    if (erased_chunks <? Z.quot (n_free_chunks (blocks d)) 2) || (gc_skip (gc d) <? 1) || background
    then mret (Some false)
    else upd_gc (λ g, set_gc_skip (gc_skip g - 1) g);; mret None.

(** [dev->gc_block = ...; dev->gc_chunk = 0; dev->n_clean_ups = 0]. *)
Definition set_gc_target (block : Z) : prog (yaffs_dev F) () :=
  upd_gc (λ g, set_n_clean_ups 0 (set_gc_chunk 0 (set_gc_block block g))).

Definition gc_target (aggressive background : bool) : prog (yaffs_dev F) () :=
  upd_gc (set_gc_skip 5);;
  d ← get;
  (if (gc_block (gc d) <? 1) && negb aggressive then
     blk ← yaffs2_find_refresh_block; set_gc_target blk
   else mret ());;
  d ← get;
  if gc_block (gc d) <? 1 then blk ← yaffs_find_gc_block aggressive background; set_gc_target blk
  else mret ().

(** A round: [gc_ok], [max_tries] and [aggressive]. *)
Definition check_gc_round (background : bool) (a : Z * Z * bool) : M (Z * Z * bool + Z) :=
  let '(gc_ok, max_tries, aggressive) := a in
  let result (gc_ok : Z) (aggressive : bool) := if aggressive then gc_ok else YAFFS_OK in
  decision ← in_dev (gc_decide background);
  match decision with
  | None => mret (inr (result gc_ok aggressive))
  | Some aggressive =>
      in_dev (gc_target aggressive background);;
      d ← in_dev get;
      gc_ok ← (if 0 <? gc_block (gc d) then
                 in_dev (bump All_gcs);;
                 in_dev (when (negb aggressive) (bump Passive_gc_count));;
                 yaffs_gc_block (gc_block (gc d)) aggressive
               else mret gc_ok);
      d ← in_dev get;
      if (n_erased_blocks (blocks d) <? n_reserved_blocks) && (0 <? gc_block (gc d)) && (max_tries + 1 <? 2)
      then mret (inl (gc_ok, max_tries + 1, aggressive))
      else mret (inr (result gc_ok aggressive))
  end.

Definition yaffs_check_gc (background : bool) : M Z :=
  d ← in_dev get;
  if (match gc_control_fn with Some f => Z.land (f d) 1 =? 0 | None => false end) then mret YAFFS_OK
  else if gc_disable (gc d) then mret YAFFS_OK
  else loop 2 (check_gc_round background) (YAFFS_OK, 0, false).

(** [urgency] is only traced. *)
Definition yaffs_bg_gc : M Z :=
  d ← in_dev get;
  let erased_chunks := n_erased_blocks (blocks d) * chunks_per_block in
  _ ← yaffs_check_gc true;
  d ← in_dev get;
  mret (if Z.quot (n_free_chunks (blocks d)) 2 <? erased_chunks then 1 else 0).

(** ** Writing a chunk of a file *)

Definition file_tags (obj inode_chunk n serial : Z) : yaffs_ext_tags :=
  mk_ext_tags 0 obj inode_chunk n YAFFS_ECC_RESULT_UNKNOWN 0 0 serial 0 0 0 0 0 0 0 0.

Definition yaffs_wr_data_obj (p inode_chunk : Z) (buffer : list Z) (n : Z) (use_reserve : bool) : M Z :=
  _ ← yaffs_check_gc false;
  r ← yaffs_find_chunk_in_file p inode_chunk u;
  let '(prev_chunk_id, prev_tags) := (r : Z * yaffs_ext_tags) in
  ok ← (if prev_chunk_id <? 1 then yaffs_put_chunk_in_file p inode_chunk 0 0 else mret YAFFS_OK);
  if ok =? 0 then mret 0
  else
    o ← the_obj p;
    let new_tags := file_tags (ob_obj_id o) (u32 inode_chunk) (u32 n)
                      (if 0 <? prev_chunk_id then u32 (serial_number prev_tags + 1) else 1) in
    if (n <? 1) || (s32 data_bytes_per_chunk <? n) then fail FBug
    else
      (if 0 <? inode_chunk then
         let endpos := u32 ((inode_chunk - 1) * data_bytes_per_chunk + n) in
         upd_file p (λ f, if stored_size f <? endpos then set_stored_size endpos f else f)
       else mret ());;
      new_chunk_id ← in_dev (yaffs_write_new_chunk fuel u (Some buffer) new_tags use_reserve);
      (if 0 <? new_chunk_id then
         _ ← yaffs_put_chunk_in_file p inode_chunk new_chunk_id 0;
         if 0 <? prev_chunk_id then in_dev (yaffs_chunk_del u prev_chunk_id true) else mret ()
       else mret ());;
      mret new_chunk_id.

(** ** The cache *)

(** [dev->cache[i]] and [dev->cache[i].field = v]. *)
Definition cache_of (i : nat) : M yaffs_cache := v ← get; defined (cache v !! i).
Definition upd_cache (i : nat) (f : yaffs_cache → yaffs_cache) : M () :=
  c ← cache_of i; modify (λ v, set_cache (<[i := f c]> (cache v)) v).

(** The first [i] with a property, from [i] on in an array. *)
Fixpoint first_cache (P : yaffs_cache → bool) (l : list yaffs_cache) : option nat :=
  match l with
  | [] => None
  | c :: l' => if P c then Some O else S <$> first_cache P l'
  end.

Definition caches (v : yaffs_vol F K) : list yaffs_cache := take n_caches (cache v).

Definition yaffs_obj_cache_dirty (p : Z) : M bool :=
  v ← get;
  mret (bool_decide (is_Some (first_cache (λ c, (ca_object c =? p) && ca_dirty c) (caches v)))).

Definition yaffs_flush_single_cache (i : nat) (discard : bool) : M () :=
  c ← cache_of i;
  if ca_locked c then mret ()
  else
    when (ca_dirty c) (
      _ ← yaffs_wr_data_obj (ca_object c) (ca_chunk_id c) (ca_data c) (ca_n_bytes c) true;
      upd_cache i (set_ca_dirty false));;
    when discard (upd_cache i (set_ca_object 0)).

(** The loop over the [n] elements from [i] on. *)
Fixpoint flush_file_loop (n i : nat) (p : Z) (discard : bool) : M () :=
  match n with
  | O => mret ()
  | S n' =>
      c ← cache_of i;
      when (ca_object c =? p) (yaffs_flush_single_cache i discard);;
      flush_file_loop n' (S i) p discard
  end.

Definition yaffs_flush_file_cache (p : Z) (discard : bool) : M () := flush_file_loop n_caches 0 p discard.

(** The [do] of [yaffs_flush_whole_cache]; every round but the last leaves one dirty element less. *)
Definition flush_whole_round (discard : bool) (_ : ()) : M (() + ()) :=
  v ← get;
  match first_cache (λ c, negb (ca_object c =? 0) && ca_dirty c) (caches v) with
  | Some i => c ← cache_of i; yaffs_flush_file_cache (ca_object c) discard;; mret (inl ())
  | None => mret (inr ())
  end.

Definition yaffs_flush_whole_cache (discard : bool) : M () := loop (S n_caches) (flush_whole_round discard) ().

Definition yaffs_grab_chunk_worker : M (option nat) :=
  v ← get; mret (first_cache (λ c, ca_object c =? 0) (caches v)).

(** The element that has not been used for the longest time, in the elements from [i] on. *)
Fixpoint oldest_cache (l : list yaffs_cache) (i : nat) (usage : Z) (found : option nat) : option nat :=
  match l with
  | [] => found
  | c :: l' =>
      if negb (ca_object c =? 0) && negb (ca_locked c) &&
         ((ca_last_use c <? usage) || bool_decide (found = None))
      then oldest_cache l' (S i) (ca_last_use c) (Some i)
      else oldest_cache l' (S i) usage found
  end.

Definition yaffs_grab_chunk_cache : M (option nat) :=
  if (n_caches <? 1)%nat then mret None
  else
    c ← yaffs_grab_chunk_worker;
    match c with
    | Some i => mret (Some i)
    | None =>
        v ← get;
        let c := oldest_cache (caches v) 0 (-1) None in
        match c with Some i => yaffs_flush_single_cache i true | None => mret () end;;
        mret c
    end.

Definition yaffs_find_chunk_cache (p chunk : Z) : M (option nat) :=
  if (n_caches <? 1)%nat then mret None
  else
    v ← get;
    match first_cache (λ c, (ca_object c =? p) && (ca_chunk_id c =? chunk)) (caches v) with
    | Some i => in_dev (bump Cache_hits);; mret (Some i)
    | None => mret None
    end.

Definition yaffs_use_cache (i : nat) (is_write : bool) : M () :=
  if (n_caches <? 1)%nat then mret ()
  else
    v ← get;
    when ((cache_last_use v <? 0) || (100000000 <? cache_last_use v)) (
      modify (λ v, set_cache (imap (λ j c, if decide (1 ≤ j < n_caches)%nat then set_ca_last_use 0 c else c) (cache v)) v);;
      modify (set_cache_last_use 0));;
    modify (λ v, set_cache_last_use (cache_last_use v + 1) v);;
    v ← get;
    upd_cache i (set_ca_last_use (cache_last_use v));;
    when is_write (upd_cache i (set_ca_dirty true)).

Definition yaffs_invalidate_chunk_cache (p chunk : Z) : M () :=
  when (0 <? n_caches)%nat (
    c ← yaffs_find_chunk_cache p chunk;
    match c with Some i => upd_cache i (set_ca_object 0) | None => mret () end).

Definition yaffs_invalidate_whole_cache (p : Z) : M () :=
  modify (λ v, set_cache (imap (λ j c, if decide (j < n_caches)%nat
                                       then (if ca_object c =? p then set_ca_object 0 c else c) else c) (cache v)) v).

(** [cache->object = in; cache->chunk_id = chunk; cache->dirty = 0; cache->locked = 0] and the reading of
    the chunk. *)
Definition load_cache (i : nat) (p chunk : Z) : M () :=
  upd_cache i (λ c, mk_cache p chunk (ca_last_use c) false (ca_n_bytes c) false (ca_data c));;
  c ← cache_of i;
  r ← yaffs_rd_data_obj p chunk (ca_data c);
  upd_cache i (set_ca_data r.2).

(** ** Reading a file *)

(** The length of the copy from or to a chunk of the [n] bytes that are left. *)
Definition copy_len (start n : Z) : Z :=
  if u32 (start + n) <? data_bytes_per_chunk then n else data_bytes_per_chunk - start.

(** The bytes of a chunk that are asked for, through the cache or a buffer. *)
Definition read_through_cache (c : option nat) (p chunk start n : Z) : M (list Z) :=
  c ← (match c with
       | Some i => mret (Some i)
       | None =>
           c ← yaffs_grab_chunk_cache;
           i ← defined c;
           load_cache i p chunk;;
           upd_cache i (set_ca_n_bytes 0);;
           mret (Some i)
       end);
  i ← defined c;
  yaffs_use_cache i false;;
  upd_cache i (set_ca_locked true);;
  c ← cache_of i;
  upd_cache i (set_ca_locked false);;
  defined (slice (ca_data c) start n).

Definition read_through_buffer (p chunk start n : Z) : M (list Z) :=
  buffer ← in_dev yaffs_get_temp_buffer;
  r ← yaffs_rd_data_obj p chunk temp_bytes;
  in_dev (yaffs_release_temp_buffer buffer);;
  defined (slice r.2 start n).

(** A round: the buffer that is left, which is [buffer] of the code, with the bytes that were read
    before it, [offset] and [n]. *)
Definition file_rd_round (p : Z) (a : list Z * list Z * Z * Z) : M (list Z * list Z * Z * Z + list Z) :=
  let '(done, buffer, offset, n) := a in
  if n <=? 0 then mret (inr (done ++ buffer))
  else
    let '(chunk, start) := yaffs_addr_to_chunk offset in
    let chunk := chunk + 1 in
    let n_copy := copy_len start n in
    c ← yaffs_find_chunk_cache p chunk;
    buffer ←
      (if bool_decide (is_Some c) || negb (n_copy =? data_bytes_per_chunk) || inband_tags then
         l ← (if (0 <? n_caches)%nat then read_through_cache c p chunk start n_copy
              else read_through_buffer p chunk start n_copy);
         defined (overlay buffer 0 l)
       else r ← yaffs_rd_data_obj p chunk buffer; mret r.2);
    mret (inl (done ++ take (Z.to_nat n_copy) buffer, drop (Z.to_nat n_copy) buffer, offset + n_copy, n - n_copy)).

(** The number of bytes, and the buffer after the call. *)
Definition yaffs_file_rd (p : Z) (buffer : list Z) (offset n_bytes : Z) : M (Z * list Z) :=
  buffer ← loop (S (Z.to_nat n_bytes)) (file_rd_round p) ([], buffer, offset, n_bytes);
  mret (Z.max 0 n_bytes, buffer).

(** ** Writing a file *)

(** The length of the chunk after the write of the [n] bytes that are left. *)
Definition writeback_len (size chunk start n : Z) : Z :=
  let chunk_start := (chunk - 1) * data_bytes_per_chunk in
  let n_bytes_read := if size <? chunk_start then 0 else u32 (size - chunk_start) in
  let n_bytes_read := if data_bytes_per_chunk <? n_bytes_read then data_bytes_per_chunk else n_bytes_read in
  s32 (if u32 (start + n) <? n_bytes_read then n_bytes_read else u32 (start + n)).

(** The element of the cache for the write, if there is space for the chunk in the device. *)
Definition cache_for_write (p chunk : Z) : M (option nat) :=
  c ← yaffs_find_chunk_cache p chunk;
  match c with
  | None =>
      ok ← in_dev (yaffs_check_alloc_available 1);
      if ok : bool then
        c ← yaffs_grab_chunk_cache;
        i ← defined c;
        load_cache i p chunk;;
        mret (Some i)
      else mret None
  | Some i =>
      c ← cache_of i;
      if ca_dirty c then mret (Some i)
      else
        ok ← in_dev (yaffs_check_alloc_available 1);
        mret (if ok : bool then Some i else None)
  end.

(** The write of [l] at [start] in a chunk, through the cache or a buffer: [chunk_written]. *)
Definition write_through_cache (p chunk start : Z) (l : list Z) (n_writeback chunk_written : Z) (write_through : bool) : M Z :=
  c ← cache_for_write p chunk;
  match c with
  | None => mret (-1)
  | Some i =>
      yaffs_use_cache i true;;
      upd_cache i (set_ca_locked true);;
      c ← cache_of i;
      data ← defined (overlay (ca_data c) start l);
      upd_cache i (set_ca_data data);;
      upd_cache i (set_ca_locked false);;
      upd_cache i (set_ca_n_bytes n_writeback);;
      if write_through then
        c ← cache_of i;
        chunk_written ← yaffs_wr_data_obj (ca_object c) (ca_chunk_id c) (ca_data c) (ca_n_bytes c) true;
        upd_cache i (set_ca_dirty false);;
        mret chunk_written
      else mret chunk_written
  end.

Definition write_through_buffer (p chunk start : Z) (l : list Z) (n_writeback : Z) : M Z :=
  buffer ← in_dev yaffs_get_temp_buffer;
  r ← yaffs_rd_data_obj p chunk temp_bytes;
  data ← defined (overlay r.2 start l);
  chunk_written ← yaffs_wr_data_obj p chunk data n_writeback false;
  in_dev (yaffs_release_temp_buffer buffer);;
  mret chunk_written.

(** A round: the bytes that are left, [offset], [n], [n_done] and [chunk_written]. *)
Definition file_wr_round (p : Z) (write_through : bool) (a : list Z * Z * Z * Z * Z)
    : M (list Z * Z * Z * Z * Z + Z) :=
  let '(buffer, offset, n, n_done, chunk_written) := a in
  if (0 <? n) && (0 <=? chunk_written) then
    let '(chunk, start) := yaffs_addr_to_chunk offset in
    let chunk := chunk + 1 in
    o ← the_obj p;
    let short := u32 (start + n) <? data_bytes_per_chunk in
    let n_copy := copy_len start n in
    let n_writeback := if short then writeback_len (file_size (file_variant o)) chunk start n else data_bytes_per_chunk in
    if short && ((n_writeback <? 0) || (data_bytes_per_chunk <? n_writeback)) then fail FBug
    else
      l ← defined (slice buffer 0 n_copy);
      chunk_written ←
        (if negb (n_copy =? data_bytes_per_chunk) || negb cache_bypass_aligned || inband_tags then
           if (0 <? n_caches)%nat then write_through_cache p chunk start l n_writeback chunk_written write_through
           else write_through_buffer p chunk start l n_writeback
         else
           chunk_written ← yaffs_wr_data_obj p chunk l data_bytes_per_chunk false;
           yaffs_invalidate_chunk_cache p chunk;;
           mret chunk_written);
      if 0 <=? chunk_written then
        mret (inl (drop (Z.to_nat n_copy) buffer, offset + n_copy, n - n_copy, n_done + n_copy, chunk_written))
      else mret (inl (buffer, offset, n, n_done, chunk_written))
  else mret (inr n_done).

Definition yaffs_do_file_wr (p : Z) (buffer : list Z) (offset n_bytes : Z) (write_through : bool) : M Z :=
  n_done ← loop (2 + Z.to_nat n_bytes) (file_wr_round p write_through) (buffer, offset, n_bytes, 0, 0);
  upd_file p (λ f, if file_size f <? offset + n_done then set_file_size (offset + n_done) f else f);;
  upd_obj p (set_ob_dirty true);;
  mret n_done.

(** ** Truncation *)

(** The loop of [yaffs_prune_chunks] over [n] chunks from [i] down. *)
Fixpoint prune_loop (n : nat) (p i : Z) : M () :=
  match n with
  | O => mret ()
  | S n' =>
      chunk ← yaffs_find_del_file_chunk p i u;
      when (1 <=? chunk) (
        if (u32 chunk <? internal_start_block * chunks_per_block) ||
           ((internal_end_block + 1) * chunks_per_block <=? u32 chunk) then mret ()
        else
          upd_obj p (λ o, set_ob_n_data_chunks (ob_n_data_chunks o - 1) o);;
          in_dev (yaffs_chunk_del u chunk true));;
      prune_loop n' p (i - 1)
  end.

Definition yaffs_prune_chunks (p new_size : Z) : M () :=
  o ← the_obj p;
  let old_size := file_size (file_variant o) in
  let last_del := (if 0 <? old_size then (yaffs_addr_to_chunk (old_size - 1)).1 else 0) + 1 in
  let start_del := (yaffs_addr_to_chunk (new_size + data_bytes_per_chunk - 1)).1 + 1 in
  prune_loop (Z.to_nat (last_del - start_del + 1)) p last_del.

Definition yaffs_resize_file_down (p new_size : Z) : M () :=
  let '(new_full, new_partial) := yaffs_addr_to_chunk new_size in
  yaffs_prune_chunks p new_size;;
  when (negb (new_partial =? 0)) (
    let last_chunk := 1 + new_full in
    buffer ← in_dev yaffs_get_temp_buffer;
    r ← yaffs_rd_data_obj p last_chunk temp_bytes;
    data ← defined (overlay r.2 new_partial (replicate (Z.to_nat (data_bytes_per_chunk - new_partial)) 0));
    _ ← yaffs_wr_data_obj p last_chunk data new_partial true;
    in_dev (yaffs_release_temp_buffer buffer));;
  upd_file p (λ f, set_stored_size new_size (set_file_size new_size f));;
  o ← the_obj p;
  f ← in_fs (yaffs_prune_tree tp (file_variant o));
  upd_file p (λ _, f).

(** ** Holes and the change of the size *)

Definition YAFFS_SMALL_HOLE_THRESHOLD : Z := 4.

(** The object has a header in the flash that is kept up to date. *)
Definition has_parent (o : yaffs_obj) : bool :=
  match ob_parent o with
  | Some q => negb (q =? YAFFS_OBJECTID_UNLINKED) && negb (q =? YAFFS_OBJECTID_DELETED)
  | None => false
  end.

(** A round of the filling of a small hole: [pos], [increase]; whether all was written. *)
Definition hole_round (p : Z) (zeros : list Z) (a : Z * Z) : M (Z * Z + bool) :=
  let '(pos, increase) := a in
  if 0 <? increase then
    let this_write := if data_bytes_per_chunk <? increase then data_bytes_per_chunk else increase in
    written ← yaffs_do_file_wr p zeros pos this_write false;
    if written =? this_write then mret (inl (pos + this_write, increase - this_write)) else mret (inr false)
  else mret (inr true).

Definition yaffs2_handle_hole (p new_size : Z) : M Z :=
  if p =? 0 then mret YAFFS_FAIL
  else
    o ← the_obj p;
    let old_file_size := file_size (file_variant o) in
    let increase := new_size - old_file_size in
    if negb (ob_variant_type o =? YAFFS_OBJECT_TYPE_FILE) then mret YAFFS_FAIL
    else if negb is_yaffs2 || (new_size <=? old_file_size) then mret YAFFS_OK
    else
      small_hole ← (if increase <? YAFFS_SMALL_HOLE_THRESHOLD * data_bytes_per_chunk
                    then in_dev (yaffs_check_alloc_available (YAFFS_SMALL_HOLE_THRESHOLD + 1)) else mret false);
      small_increase_ok ←
        (if small_hole : bool then
           buffer ← in_dev yaffs_get_temp_buffer;
           zeros ← defined (overlay temp_bytes 0 (replicate (Z.to_nat data_bytes_per_chunk) 0));
           ok ← loop (S (Z.to_nat increase)) (hole_round p zeros) (old_file_size, increase);
           in_dev (yaffs_release_temp_buffer buffer);;
           (if ok : bool then mret () else yaffs_resize_file_down p old_file_size);;
           mret ok
         else mret false);
      o ← the_obj p;
      (if negb (small_increase_ok : bool) && has_parent o then
         _ ← yaffs_update_oh p false true 0; mret ()
       else mret ());;
      mret YAFFS_OK.

Definition yaffs_wr_file (p : Z) (buffer : list Z) (offset n_bytes : Z) (write_through : bool) : M Z :=
  _ ← yaffs2_handle_hole p offset;
  yaffs_do_file_wr p buffer offset n_bytes write_through.

(** The end of [yaffs_resize_file]: the header of the object is written. *)
Definition resize_header (p : Z) : M Z :=
  o ← the_obj p;
  (if has_parent o && negb (ob_is_shadowed o) then _ ← yaffs_update_oh p false false 0; mret () else mret ());;
  mret YAFFS_OK.

Definition yaffs_resize_file (p new_size : Z) : M Z :=
  o ← the_obj p;
  let old_size := file_size (file_variant o) in
  yaffs_flush_file_cache p true;;
  yaffs_invalidate_whole_cache p;;
  _ ← yaffs_check_gc false;
  o ← the_obj p;
  if negb (ob_variant_type o =? YAFFS_OBJECT_TYPE_FILE) then mret YAFFS_FAIL
  else if new_size =? old_size then mret YAFFS_OK
  else
    (if old_size <? new_size then
       _ ← yaffs2_handle_hole p new_size;
       upd_file p (set_file_size new_size)
     else yaffs_resize_file_down p new_size);;
    resize_header p.
End file.
