(* ===== verification/YaffsFiles.v ===== *)
(** * YAFFS: files as arrays of bytes

    What the operations of [YaffsFile] are for the user of a file, on a flash that remembers: every
    file is an array of bytes, which a write changes where it says and a read returns, through the
    cache of chunks, the trees of tnodes, the chunks of the device and their allocation. The
    chunks of all files are different chunks of the device and carry the number of their file and
    their place in it; a chunk in the cache that is not dirty is the one in the flash. *)

From S2P Require Import Prelude Memory Endian YaffsEcc YaffsTags YaffsDev YaffsFlash YaffsBlocks YaffsAlloc YaffsStore.
From S2P Require Import YaffsTnode YaffsTree YaffsFile.

(** ** The trees of all files *)

Section trees.
Context {F K : Type} {km : kernel_mem K} {Hkm : kernel_mem_ok K} (tp : tnode_params) {Htg : tnode_geo tp}.
Implicit Types (s : yaffs_fs F K) (o : yaffs_obj) (m : gmap Z yaffs_obj).
#[local] Set Default Proof Using "Type*".

Definition is_file o : Prop := ob_variant_type o = YAFFS_OBJECT_TYPE_FILE.

Definition obj_nodes s o : list Z := if decide (is_file o) then file_nodes s (file_variant o) else [].
Definition forest s m : list Z := map_to_list m ≫= λ po, obj_nodes s po.2.

Lemma forest_delete s m p o : m !! p = Some o → forest s m ≡ₚ obj_nodes s o ++ forest s (delete p m).
Proof. intros H. unfold forest. by rewrite <- (map_to_list_delete m p o H). Qed.

Lemma forest_insert s m p o : forest s (<[p := o]> m) ≡ₚ obj_nodes s o ++ forest s (delete p m).
Proof. rewrite (forest_delete s (<[p := o]> m) p o) by apply lookup_insert_eq. by rewrite delete_insert_eq. Qed.

Lemma forest_elem s m p o a : m !! p = Some o → a ∈ obj_nodes s o → a ∈ forest s m.
Proof. intros H Ha. rewrite (forest_delete s m p o H). apply elem_of_app. by left. Qed.

(** The chunk of the device that holds the chunk [id] of the object at [p], or 0. *)
Definition slot s m (p id : Z) : Z :=
  match m !! p with
  | Some o => if decide (is_file o ∧ 0 ≤ id) then file_group tp s (file_variant o) id else 0
  | None => 0
  end.

(** The trees are well-formed and share no tnode. *)
Record trees_ok s m : Prop := mk_trees {
  tr_good : YaffsTree.good tp s (forest s m);
  tr_file p o : m !! p = Some o → is_file o → 0 ≤ top_level (file_variant o) ≤ YAFFS_TNODES_MAX_LEVEL ∧ rooted s (file_variant o)
}.

Lemma good_null s A : YaffsTree.good tp s A → store s !! 0 = None.
Proof. intros H. destruct (store s !! 0) as [ws|] eqn:E; [|done]. destruct (g_words _ _ _ H _ _ E). lia. Qed.

Lemma trees_file s m p o : trees_ok s m → m !! p = Some o → is_file o → file_ok tp s (file_variant o) (forest s (delete p m)).
Proof.
  intros [H1 H2] Hp Ho. destruct (H2 p o Hp Ho) as [Hl Hr]. split; [done|].
  refine (good_perm tp _ _ _ _ H1). rewrite (forest_delete s m p o Hp). unfold obj_nodes. by rewrite decide_True.
Qed.

(** A tree whose tnodes are kept. *)
Lemma file_frame s s' f : store s !! 0 = None → store s' !! 0 = None → (∀ a, a ∈ file_nodes s f → store s' !! a = store s !! a) →
  file_nodes s' f = file_nodes s f ∧ (rooted s f → rooted s' f) ∧ ∀ id, 0 ≤ id → file_group tp s' f id = file_group tp s f id.
Proof.
  intros H0 H0' Ha. destruct (tree_frame (F:=F) tp (store s) (store s') (level_of f) (top f) H0 H0' Ha) as [E1 E2].
  split; [done|]. split; [unfold rooted; by rewrite (proj1 (E2 0 ltac:(lia)))|].
  intros id Hid. unfold file_group. by rewrite (proj2 (E2 id Hid)).
Qed.

Lemma forest_frame s s' m : store s !! 0 = None → store s' !! 0 = None → (∀ a, a ∈ forest s m → store s' !! a = store s !! a) →
  forest s' m = forest s m ∧ ∀ p id, slot s' m p id = slot s m p id.
Proof.
  intros H0 H0' Ha. split.
  - unfold forest. apply list_bind_ext_in. intros [p o] Hpo%elem_of_map_to_list. cbn [snd]. unfold obj_nodes.
    destruct (decide (is_file o)) as [Ho|]; [|done]. apply file_frame; [done|done|]. intros a Hin. apply Ha.
    eapply (forest_elem s m p o); [done|]. unfold obj_nodes. by rewrite decide_True.
  - intros p id. unfold slot. destruct (m !! p) as [o|] eqn:Hp; [|done]. destruct (decide (is_file o ∧ 0 ≤ id)) as [[Ho Hid]|]; [|done].
    apply file_frame; [done|done| |done]. intros a Hin. apply Ha. eapply (forest_elem s m p o); [done|]. unfold obj_nodes. by rewrite decide_True.
Qed.

(** The tree of one file changes. *)
Lemma trees_step s s' m p o o' : trees_ok s m → m !! p = Some o → is_file o → is_file o' →
  file_ok tp s' (file_variant o') (forest s (delete p m)) → same (forest s (delete p m)) s s' → rooted s' (file_variant o') →
  trees_ok s' (<[p := o']> m) ∧
  (∀ id, 0 ≤ id → slot s' (<[p := o']> m) p id = file_group tp s' (file_variant o') id) ∧
  (∀ q id, q ≠ p → slot s' (<[p := o']> m) q id = slot s m q id).
Proof.
  intros Ht Hp Ho Ho' [Hl Hg] [Hs _] Hr. pose proof (good_null _ _ (tr_good _ _ Ht)) as H0. pose proof (good_null _ _ Hg) as H0'.
  destruct (forest_frame s s' (delete p m) H0 H0' Hs) as [E1 E2]. split; [|split].
  - split.
    + refine (good_perm tp _ _ _ _ Hg). rewrite forest_insert, E1. unfold obj_nodes. by rewrite decide_True.
    + intros q x Hq Hx. destruct (decide (q = p)) as [->|Hne]; [rewrite lookup_insert_eq in Hq; by injection Hq as <-|].
      rewrite lookup_insert_ne in Hq by done. destruct (tr_file _ _ Ht q x Hq Hx) as [Hlx Hrx]. split; [done|].
      eapply (file_frame s); [done|done| |done]. intros a Ha. apply Hs. eapply (forest_elem s _ q x); [by rewrite lookup_delete_ne|].
      unfold obj_nodes. by rewrite decide_True.
  - intros id Hid. unfold slot. rewrite lookup_insert_eq. by rewrite decide_True.
  - intros q id Hne. unfold slot. rewrite lookup_insert_ne by done.
    destruct (m !! q) as [x|] eqn:Hq; [|done]. destruct (decide (is_file x ∧ 0 ≤ id)) as [[Hx Hid]|]; [|done].
    eapply (file_frame s); [done|done| |done]. intros a Ha. apply Hs. eapply (forest_elem s _ q x); [by rewrite lookup_delete_ne|].
    unfold obj_nodes. by rewrite decide_True.
Qed.

(** Fields of an object that are not its tree. *)
Lemma trees_obj s m p o o' : trees_ok s m → m !! p = Some o → (is_file o' ↔ is_file o) →
  top_level (file_variant o') = top_level (file_variant o) → top (file_variant o') = top (file_variant o) →
  trees_ok s (<[p := o']> m) ∧ ∀ q id, slot s (<[p := o']> m) q id = slot s m q id.
Proof.
  intros [H1 H2] Hp Ho E1 E2.
  assert (∀ id, file_group tp s (file_variant o') id = file_group tp s (file_variant o) id) as Eg by (intros; unfold file_group, level_of; by rewrite E1, E2).
  split; [split|].
  - refine (good_perm tp _ _ _ _ H1). rewrite forest_insert, (forest_delete s m p o Hp). f_equiv. unfold obj_nodes, file_nodes, level_of.
    rewrite E1, E2. by destruct (decide (is_file o)), (decide (is_file o')); try tauto.
  - intros q x Hq Hx. destruct (decide (q = p)) as [->|Hne]; [|rewrite lookup_insert_ne in Hq by done; by eapply H2].
    rewrite lookup_insert_eq in Hq. injection Hq as <-. destruct (H2 p o Hp) as [Hl Hr]; [by apply Ho|]. rewrite E1. split; [done|].
    unfold rooted, level_of in *. by rewrite E1, E2.
  - intros q id. unfold slot. destruct (decide (q = p)) as [->|Hne]; [|by rewrite lookup_insert_ne by done].
    rewrite lookup_insert_eq, Hp. destruct (decide (is_file o' ∧ 0 ≤ id)), (decide (is_file o ∧ 0 ≤ id)); try tauto. apply Eg.
Qed.

Lemma trees_null s m : trees_ok s m → ∀ p o, m !! p = Some o → is_file o → top (file_variant o) ≠ 0.
Proof.
  intros H p o Hp Ho E. destruct (tr_file _ _ H p o Hp Ho) as [_ Hr]. unfold rooted in Hr. rewrite E in Hr. by rewrite (leaf_at_0 (F:=F) tp) in Hr.
Qed.
End trees.

(** ** The chunks of all files in the device *)

Section chunks.
Context {F : Type} {cfg : yaffs_config} {drv : yaffs_driver F} {good : good_flash F cfg drv}.
Context {Hdrv : driver_ok F} {Hbuf : buffers_ok} {Hgeo : geometry} {Hplain : plain_device}.
Implicit Types (d : yaffs_dev F) (sl : Z → Z → Z) (num : Z → Z).
#[local] Set Default Proof Using "All".

(** [sl] says where the chunks of the objects are and [num] what their numbers are. *)
Record held d sl num : Prop := mk_held {
  he_sound : sound d;
  he_at p id : sl p id ≠ 0 → ∃ l t, holds_at d (sl p id) l t ∧ obj_id t = num p ∧ chunk_id t = id;
  he_inj p id q id' : sl p id ≠ 0 → sl p id = sl q id' → p = q ∧ id = id'
}.

Definition chunk_data d (k : Z) : list Z :=
  if decide (k = 0) then replicate (Z.to_nat data_bytes_per_chunk) 0
  else page_data (content (flash d) (apply_chunk_offset k)) total_bytes_per_chunk.

Definition set_slot (p id k : Z) sl : Z → Z → Z := λ q id', if decide (q = p ∧ id' = id) then k else sl q id'.

Lemma held_ext d sl sl' num num' : (∀ p id, sl' p id = sl p id) → (∀ p id, sl p id ≠ 0 → num' p = num p) → held d sl num → held d sl' num'.
Proof.
  intros Hs Hn [H1 H2 H3]. split; [done| |].
  - intros p id. rewrite Hs. intros Hne. rewrite (Hn p id Hne). by apply H2.
  - intros p id q id'. rewrite !Hs. apply H3.
Qed.

(** A chunk in use has a number that is not 0, and its bit is set. *)
Lemma holds_at_chunk d k l t : holds_at d k l t → sound d →
  0 < k < (internal_end_block + 1) * chunks_per_block ∧ k < 2 ^ 31 ∧
  yaffs_check_chunk_bit (u32 k / chunks_per_block) (u32 k mod chunks_per_block) d = Ok (true, d).
Proof.
  intros (blk & c & oob & -> & L & _) Hso. pose proof L as [Hr Hc Hbit _]. destruct (chunk_of_u32 pd_yaffs2 blk c Hr Hc) as [E Hpos].
  destruct (chunk_of_div pd_yaffs2 blk c Hr Hc) as [-> ->]. split; [|split].
  - split; [done|]. unfold chunk_of. destruct Hr, Hgeo. nia.
  - unfold chunk_of. destruct Hr, Hgeo. nia.
  - rewrite check_chunk_bit_run; [by rewrite Hbit|apply (wf_shape _ _ _ (proj1 (so_ok _ Hso)))|done|done].
Qed.

Lemma holds_at_first d k l t : holds_at d k l t → internal_start_block * chunks_per_block ≤ k.
Proof. intros (blk & c & oob & -> & [Hr Hc _ _] & _). unfold chunk_of. destruct Hr, Hgeo. nia. Qed.

Lemma holds_at_data d k l t : holds_at d k l t → sound d → chunk_data d k = l.
Proof.
  intros H Hso. destruct (holds_at_chunk d k l t H Hso) as [Hk _]. destruct H as (blk & c & oob & -> & L & Hc & _ & _ & Hl).
  unfold chunk_data. rewrite decide_False by lia. change (apply_chunk_offset (chunk_of blk c)) with (addr blk c). rewrite Hc. cbn [page_data].
  apply take_ge. lia.
Qed.

Lemma holds_at_length d k l t : holds_at d k l t → zlen l = data_bytes_per_chunk.
Proof. intros (blk & c & oob & _ & _ & _ & _ & _ & Hl). by rewrite pd_data. Qed.

Lemma held_data_length d sl num p id : held d sl num → zlen (chunk_data d (sl p id)) = data_bytes_per_chunk.
Proof.
  intros H. destruct (decide (sl p id = 0)) as [E|E].
  - rewrite E. unfold chunk_data. rewrite decide_True, length_replicate by done. pose proof pd_size. lia.
  - destruct (he_at _ _ _ H p id E) as (l & t & Hh & _). rewrite (holds_at_data _ _ _ _ Hh (he_sound _ _ _ H)). by eapply holds_at_length.
Qed.

(** The chunks in use stay. *)
Lemma held_stays d d' sl num : held d sl num → sound d' →
  (∀ p id blk c, sl p id ≠ 0 → sl p id = chunk_of blk c → live d blk c → stays d d' blk c) →
  held d' sl num ∧ ∀ p id, chunk_data d' (sl p id) = chunk_data d (sl p id).
Proof.
  intros [H1 H2 H3] Hso Hs.
  assert (∀ p id l t, sl p id ≠ 0 → holds_at d (sl p id) l t → holds_at d' (sl p id) l t) as Hh.
  { intros p id l t Hne Hat. eapply stays_holds_at; [exact Hat|]. intros blk c E L. by eapply Hs. }
  split; [split; [done| |done]|].
  - intros p id Hne. destruct (H2 p id Hne) as (l & t & Hat & Ht). exists l, t. split; [by apply Hh|done].
  - intros p id. destruct (decide (sl p id = 0)) as [->|Hne]; [done|]. destruct (H2 p id Hne) as (l & t & Hat & _).
    rewrite (holds_at_data d _ l t) by done. apply (holds_at_data d' _ l t); [by apply Hh|done].
Qed.

Lemma held_alike d d' sl num : alike d d' → held d sl num →
  held d' sl num ∧ ∀ p id, chunk_data d' (sl p id) = chunk_data d (sl p id).
Proof.
  intros Ha H. apply held_stays; [done|eapply alike_sound; [done|apply H]|]. intros p id blk c _ _ L. by apply alike_stays.
Qed.

Lemma held_set d sl num p id k l t : held d sl num → k ≠ 0 → holds_at d k l t → (∀ q id', sl q id' ≠ k) →
  obj_id t = num p → chunk_id t = id → held d (set_slot p id k sl) num.
Proof.
  intros [H1 H2 H3] Hk Hat Hf Ht1 Ht2. split; [done| |]; unfold set_slot.
  - intros q id' Hne. destruct (decide (q = p ∧ id' = id)) as [[-> ->]|]; [by exists l, t|by apply H2].
  - intros q id' q' id2. destruct (decide (q = p ∧ id' = id)) as [[-> ->]|], (decide (q' = p ∧ id2 = id)) as [[-> ->]|]; intros Hne E; try done.
    + by destruct (Hf q' id2).
    + by destruct (Hf q id').
    + by apply H3.
Qed.

Lemma held_clear d sl num p id : held d sl num → held d (set_slot p id 0 sl) num.
Proof.
  intros [H1 H2 H3]. split; [done| |]; unfold set_slot.
  - intros q id' Hne. destruct (decide (q = p ∧ id' = id)); [done|by apply H2].
  - intros q id' q' id2 Hne E. destruct (decide (q = p ∧ id' = id)); [done|]. destruct (decide (q' = p ∧ id2 = id)); [congruence|by apply H3].
Qed.

(** What the writes and deletions of [YaffsStore] leave. *)
Definition spent (n : Z) d d' : Prop :=
  dev_seq_number (blocks d') ≤ dev_seq_number (blocks d) + n ∧ n_erased_blocks (blocks d) - n ≤ n_erased_blocks (blocks d').

Lemma held_write d sl num l t use_reserve fuel u : (0 < fuel)%nat → held d sl num → dev_seq_number (blocks d) + 1 < 0xffffffff →
  zlen l = data_bytes_per_chunk → tags_good t →
  ends (yaffs_write_new_chunk fuel u (Some l) t use_reserve) d (λ r d', held d' sl num ∧
    (∀ p id, chunk_data d' (sl p id) = chunk_data d (sl p id)) ∧ spent 1 d d' ∧
    ((0 < r ∧ (∀ p id, sl p id ≠ r) ∧ ∃ t', holds_at d' r l t' ∧ obj_id t' = obj_id t ∧ chunk_id t' = chunk_id t) ∨
     (r = -1 ∧ if use_reserve then n_erased_blocks (blocks d) < 1 else short d'))).
Proof.
  intros Hfuel H Hseq Hl Ht. pose proof (he_sound _ _ _ H) as Hso.
  eapply ends_mono; [apply (write_new_good fuel u l t use_reserve d); try done; by rewrite <- pd_data|].
  intros r d' (S1 & S2 & [S3 S4] & S5). destruct (held_stays d d' sl num H S1) as [Hd' Hdata]; [intros p id blk c _ _ L; by apply S2|].
  split; [done|]. split; [done|]. split; [split; lia|].
  destruct S5 as [(blk & c & oob & -> & Hn & L & Him & Hc)|(-> & Hf1 & Hf2)]; [left|right].
  - pose proof L as [Hr Hc' _ _]. destruct (chunk_of_u32 pd_yaffs2 blk c Hr Hc') as [_ Hpos]. split; [done|]. split.
    + intros p id E. destruct (he_at _ _ _ H p id) as (l' & t' & (blk' & c' & oob' & E' & L' & _) & _); [lia|].
      rewrite E in E'. destruct (chunk_of_inj blk c blk' c' Hc') as [-> ->]; [apply L'|done|done].
    + pose proof (so_seq _ Hso) as Hu. unfold in_u in Hu. set (s := dev_seq_number (blocks d')) in *. destruct (Ht s ltac:(lia)) as [Htok _].
      exists (tags_for_write s t). split; [|done]. exists blk, c, oob. by rewrite <- pd_data.
  - split; [done|]. destruct use_reserve; [by apply Hf1|by apply Hf2].
Qed.

Lemma held_del d sl num k l t u mark : held d sl num → holds_at d k l t → (∀ p id, sl p id ≠ k) →
  ends (yaffs_chunk_del u k mark) d (λ _ d', held d' sl num ∧
    (∀ p id, chunk_data d' (sl p id) = chunk_data d (sl p id)) ∧ spent 0 d d').
Proof.
  intros H (blk & c & oob & -> & L & _) Hf. eapply ends_mono; [apply (chunk_del_good u blk c mark d); [apply H|done]|].
  intros x d' (S1 & S2 & [S3 S4] & S5). apply and_assoc. split; [|split; lia]. apply held_stays; [done|done|].
  intros p id blk' c' Hne E L'. apply S5; [|done]. intros [-> ->]. by destruct (Hf p id).
Qed.

Lemma held_read d sl num p id u : held d sl num → sl p id ≠ 0 →
  ends (yaffs_rd_chunk_tags_nand (sl p id) true u) d (λ r d', r.1.2 = chunk_data d (sl p id) ∧ alike d d').
Proof.
  intros H Hne. destruct (he_at _ _ _ H p id Hne) as (l & t & (blk & c & oob & E & L & Hc & Him & Hok & Hl) & _). rewrite E in *.
  eapply ends_mono; [apply (rd_chunk_run d (chunk_of blk c) true u (tags2_stored YAFFS_ECC_RESULT_NO_ERROR t))|].
  - change (tags_read (content (flash d) (addr blk c)) (tags2_stored YAFFS_ECC_RESULT_NO_ERROR t)). rewrite Hc. by exists t.
  - intros r d' [-> Ha]. split; [|done]. cbn [fst snd]. unfold chunk_data. by rewrite decide_False.
Qed.
End chunks.

(** ** Positions *)

Section positions.
Context {cfg : yaffs_config} {Hplain : plain_device}.
#[local] Set Default Proof Using "All".

Lemma shifts_loop_spec n : ∀ x s, 1 ≤ x < 2 ^ Z.of_nat n → ∃ k y, shifts_loop n x s = s + k ∧ 0 ≤ k ∧ 1 ≤ y ∧ x = y * 2 ^ k.
Proof.
  induction n as [|n IH]; intros x s Hx; [cbn in Hx; lia|]. cbn [shifts_loop].
  change 1 with (Z.ones 1) at 1. rewrite Z.land_ones by lia. change (2 ^ 1) with 2. pose proof (Z.div_mod x 2 ltac:(lia)) as Hdm.
  destruct (Z.eqb_spec (x mod 2) 0) as [E|E].
  - rewrite Z.shiftr_div_pow2 by lia. change (2 ^ 1) with 2. replace (2 ^ Z.of_nat (S n)) with (2 * 2 ^ Z.of_nat n) in Hx.
    + destruct (IH (x / 2) (s + 1)) as (k & y & -> & Hk & Hy & Exy); [lia|]. exists (k + 1), y. split; [lia|]. split; [lia|]. split; [done|].
      rewrite Z.pow_add_r by lia. lia.
    + rewrite Nat2Z.inj_succ, Z.pow_succ_r by lia. done.
  - exists 0, x. split; [lia|]. lia.
Qed.

(** The positions whose chunk [yaffs_addr_to_chunk] finds. *)
Definition addressable (x : Z) : Prop := 0 ≤ x ≤ YAFFS_MAX_CHUNK_ID * data_bytes_per_chunk ∧ x < 2 ^ 31 * 2 ^ chunk_shift.

Lemma addressable_le x y : 0 ≤ x ≤ y → addressable y → addressable x.
Proof. intros Hxy [H1 H2]. split; lia. Qed.

Lemma addr_to_chunk_run x : addressable x →
  yaffs_addr_to_chunk x = (x / data_bytes_per_chunk, x mod data_bytes_per_chunk) ∧
  0 ≤ x mod data_bytes_per_chunk < data_bytes_per_chunk ∧ 0 ≤ x / data_bytes_per_chunk ≤ YAFFS_MAX_CHUNK_ID.
Proof.
  intros [Hx Hs]. pose proof pd_size as Hsz. set (D := data_bytes_per_chunk) in *.
  pose proof (Z.mod_pos_bound x D ltac:(lia)) as Hm. pose proof (Z.div_pos x D ltac:(lia) ltac:(lia)) as Hd.
  assert (x / D ≤ YAFFS_MAX_CHUNK_ID) as Hd2 by (apply Z.div_le_upper_bound; lia). split; [|lia].
  destruct (shifts_loop_spec 32 D 0) as (k & y & E & Hk & Hy & ED); [change (2 ^ Z.of_nat 32) with (2 ^ 32); lia|].
  assert (chunk_shift = k) as Ek by (unfold chunk_shift, calc_shifts; fold D; destruct (Z.eqb_spec D 0); [lia|]; by rewrite E, Z.add_0_l).
  pose proof (Z.pow_pos_nonneg 2 k ltac:(lia) Hk) as Hpow.
  assert (chunk_div = y) as Ey by (unfold chunk_div; fold D; rewrite Ek, Z.shiftr_div_pow2, ED, Z.div_mul by lia; done).
  unfold yaffs_addr_to_chunk. rewrite Ek, Ey in *. rewrite Z.shiftr_div_pow2 by lia.
  assert (0 ≤ x / 2 ^ k < 2 ^ 31) as Hq by (split; [apply Z.div_pos; lia|apply Z.div_lt_upper_bound; lia]).
  rewrite (wrapu_id 32 (x / 2 ^ k)) by (unfold in_u; lia). rewrite (wraps_id 32 (x / 2 ^ k)) by (unfold in_s; cbn; lia).
  assert (k < 31) as Hk31 by (apply (Z.pow_lt_mono_r_iff 2); nia).
  destruct (Z.eqb_spec y 1) as [->|Hy1].
  - rewrite Z.mul_1_l in ED. rewrite ED. f_equal. unfold chunk_mask. rewrite Ek, Z.shiftl_1_l.
    rewrite (wraps_id 32) by (unfold in_s; cbn; lia). rewrite (wrapu_id 32 (2 ^ k - 1)) by (unfold in_u; lia).
    replace (2 ^ k - 1) with (Z.ones k) by (rewrite Z.ones_equiv; lia). rewrite Z.land_ones, <- ED by lia. apply wrapu_id. unfold in_u. lia.
  - rewrite (wrapu_id 32 (x / 2 ^ k)) by (unfold in_u; lia). rewrite Z.div_div by lia. replace (2 ^ k * y) with D by lia.
    assert (YAFFS_MAX_CHUNK_ID < 2 ^ 28) as Hmax by done.
    rewrite (wraps_id 32 (x / D)) by (unfold in_s; cbn; lia). rewrite (wraps_id 64) by (unfold in_s; cbn; nia).
    f_equal. rewrite Z.mod_eq, (Z.mul_comm D) by lia. apply wrapu_id. rewrite <- Z.mul_comm, <- Z.mod_eq by lia. unfold in_u. lia.
Qed.
End positions.

(** ** Chunks of files *)

Section files.
Context {F K : Type} {cfg : yaffs_config} {drv : yaffs_driver F} {good : good_flash F cfg drv}.
Context {Hdrv : driver_ok F} {Hbuf : buffers_ok} {Hgeo : geometry} {Hplain : plain_device}.
Context {km : kernel_mem K} {Hkm : kernel_mem_ok K} {fc : file_config F} {ol : yaffs_objects F K}.
Context (tp : tnode_params) {Htg : tnode_geo tp} (fuel : nat) (u : yaffs_ext_tags).

(** The numbers of the chunks fit into the tnodes, and the application does not let garbage be
    collected now. *)
Context (Hfuel : (0 < fuel)%nat) (Hgrp : tp_grp_bits tp = 0)
  (Hfit : (internal_end_block + 1) * chunks_per_block ≤ 2 ^ tp_width tp)
  (Hoff : ∃ f, gc_control_fn = Some f ∧ ∀ d : yaffs_dev F, Z.land (f d) 1 = 0).
Abbreviation M := (prog (yaffs_vol F K)).
Implicit Types (v : yaffs_vol F K) (s : yaffs_fs F K) (d : yaffs_dev F) (o : yaffs_obj) (m : gmap Z yaffs_obj).
#[local] Set Default Proof Using "All".

Definition dev_of v : yaffs_dev F := fs_dev (vol_fs v).
Definition with_dev d v : yaffs_vol F K := set_vol_fs (set_fs_dev d (vol_fs v)) v.
Definition slots v : Z → Z → Z := slot tp (vol_fs v) (objs v).
Definition number v (p : Z) : Z := match objs v !! p with Some o => ob_obj_id o | None => 0 end.

(** The chunk [id] of the object at [p] in the flash. *)
Definition disk v (p id : Z) : list Z := chunk_data (dev_of v) (slots v p id).

Record files_ok v : Prop := mk_files {
  fo_trees : trees_ok tp (vol_fs v) (objs v);
  fo_held : held (dev_of v) (slots v) (number v);
  fo_id p o : objs v !! p = Some o → is_file o → in_u 28 (ob_obj_id o);
  fo_null : objs v !! 0 = None
}.

Definition file_at v (p : Z) : Prop := ∃ o, objs v !! p = Some o ∧ is_file o.

(** *** Programs on parts of the volume *)

Lemma ends_in_fs {A} (m : prog (yaffs_fs F K) A) v (Q : A → yaffs_vol F K → Prop) :
  ends m (vol_fs v) (λ x s, Q x (set_vol_fs s v)) → ends (in_fs m) v Q.
Proof. apply ends_zoom. Qed.

Lemma ends_in_dev {A} (m : prog (yaffs_dev F) A) v (Q : A → yaffs_vol F K → Prop) :
  ends m (dev_of v) (λ x d, Q x (with_dev d v)) → ends (in_dev m) v Q.
Proof. intros H. apply ends_in_fs. unfold on_dev. by apply ends_zoom. Qed.

Lemma ends_the_obj p o v (Q : yaffs_obj → yaffs_vol F K → Prop) : objs v !! p = Some o → Q o v → ends (the_obj p) v Q.
Proof. intros Hp HQ. unfold the_obj. apply ends_bind, ends_get. rewrite Hp. by apply ends_ret. Qed.

Lemma ends_upd_obj p o f v (Q : () → yaffs_vol F K → Prop) : objs v !! p = Some o →
  Q () (set_objs (<[p := f o]> (objs v)) v) → ends (upd_obj p f) v Q.
Proof. intros Hp HQ. unfold upd_obj. eapply ends_bind, ends_the_obj; [done|]. by apply ends_modify. Qed.

Lemma in_fs_same {A} (m : prog (yaffs_fs F K) A) v x : m (vol_fs v) = Ok (x, vol_fs v) → in_fs m v = Ok (x, v).
Proof. intros H. unfold in_fs. rewrite (zoom_Ok _ _ _ _ _ _ H). by destruct v. Qed.

Lemma in_dev_same {A} (m : prog (yaffs_dev F) A) v x : m (dev_of v) = Ok (x, dev_of v) → in_dev m v = Ok (x, v).
Proof.
  intros H. apply in_fs_same. unfold on_dev. rewrite (zoom_Ok fs_dev set_fs_dev m (vol_fs v) x _ H). unfold dev_of. by destruct (vol_fs v).
Qed.

(** *** What reading leaves *)

Lemma good_dev s d A : YaffsTree.good tp s A → YaffsTree.good tp (set_fs_dev d s) A.
Proof. intros [H1 H2 H3]. by split. Qed.

Definition still v v' : Prop := ∃ d', v' = with_dev d' v ∧ alike (dev_of v) d'.
#[export] Instance still_preorder : PreOrder still.
Proof.
  split.
  - intros v. exists (dev_of v). split; [destruct v as [[] ? ? ? ? ? ?]; done|done].
  - intros v1 v2 v3 (d2 & -> & H2) (d3 & -> & H3). exists d3. split; [done|]. by etrans.
Qed.

Lemma trees_dev s m d : trees_ok tp s m → trees_ok tp (set_fs_dev d s) m.
Proof. intros [H1 H2]. split; [by apply good_dev|done]. Qed.

Lemma with_dev_ok d v : files_ok v → held d (slots v) (number v) → files_ok (with_dev d v).
Proof. intros [H1 H2 H3 H4] H. split; [by apply trees_dev|exact H|done|done]. Qed.

Lemma still_ok v v' : files_ok v → still v v' → files_ok v' ∧ ∀ p id, disk v' p id = disk v p id.
Proof.
  intros H (d' & -> & Ha). destruct (held_alike _ _ _ _ Ha (fo_held _ H)) as [H1 H2].
  split; [by apply with_dev_ok|]. intros p id. apply H2.
Qed.

Lemma in_dev_still {A} (m : prog (yaffs_dev F) A) v (P : A → Prop) : ends m (dev_of v) (λ x d, P x ∧ alike (dev_of v) d) →
  ends (in_dev m) v (λ x v', P x ∧ still v v').
Proof. intros H. apply ends_in_dev. eapply ends_mono; [exact H|]. intros x d [Hx Ha]. split; [done|]. by exists d. Qed.

(** *** The chunk of a file *)

Lemma slot_reach v p o id : files_ok v → objs v !! p = Some o → is_file o → 0 ≤ id → slots v p id ≠ 0 →
  slots v p id = file_group tp (vol_fs v) (file_variant o) id ∧ id < reach (level_of (file_variant o)) ∧
  leaf_at (store (vol_fs v)) (level_of (file_variant o)) (top (file_variant o)) id ≠ 0.
Proof.
  intros H Hp Ho Hid. unfold slots, slot. rewrite Hp, decide_True by done. intros Hne. split; [done|].
  unfold file_group in Hne. destruct (decide (id < _)) as [Hr|]; [|done]. split; [done|]. intros E.
  unfold group_of in Hne. rewrite E in Hne. by rewrite (good_null tp _ _ (tr_good _ _ _ (fo_trees _ H))) in Hne.
Qed.

Lemma slot_file v p o id : objs v !! p = Some o → is_file o → 0 ≤ id → slots v p id = file_group tp (vol_fs v) (file_variant o) id.
Proof. intros Hp Ho Hid. unfold slots, slot. rewrite Hp. by rewrite decide_True. Qed.

Lemma level_reach v p o : files_ok v → objs v !! p = Some o → is_file o → reach (level_of (file_variant o)) ≤ YAFFS_MAX_CHUNK_ID + 1.
Proof.
  intros H Hp Ho. destruct (tr_file _ _ _ (fo_trees _ H) p o Hp Ho) as [Hl _]. unfold level_of, reach, YAFFS_TNODES_MAX_LEVEL in *.
  rewrite Z2Nat.id by lia. change (YAFFS_MAX_CHUNK_ID + 1) with (16 * 8 ^ 8).
  pose proof (Z.pow_le_mono_r 8 (top_level (file_variant o)) 8 ltac:(lia) ltac:(lia)). lia.
Qed.

Lemma slot_s32 v p id : files_ok v → s32 (slots v p id) = slots v p id ∧ 0 ≤ slots v p id ∧
  (slots v p id ≠ 0 → yaffs_check_chunk_bit (u32 (slots v p id) / chunks_per_block) (u32 (slots v p id) mod chunks_per_block) (dev_of v) = Ok (true, dev_of v)).
Proof.
  intros H. destruct (decide (slots v p id = 0)) as [->|Hne]; [done|].
  destruct (he_at _ _ _ (fo_held _ H) p id Hne) as (l & t & Hat & _).
  destruct (holds_at_chunk _ _ _ _ Hat (he_sound _ _ _ (fo_held _ H))) as (H1 & H2 & H3). split; [|split; [lia|by intros _]].
  apply wraps_id; [done|]. unfold in_s. cbn. lia.
Qed.

Lemma group_size : chunk_grp_size tp = 1.
Proof. unfold chunk_grp_size. by rewrite Hgrp. Qed.

Lemma find_chunk_in_group_run v p id t obj inode_chunk : files_ok v →
  yaffs_find_chunk_in_group tp (slots v p id) t obj inode_chunk v =
  Ok ((if decide (slots v p id = 0) then -1 else slots v p id, t), v).
Proof.
  intros H. unfold yaffs_find_chunk_in_group. rewrite group_size. change (Z.to_nat 1) with 1%nat. cbn [group_loop].
  destruct (Z.eqb_spec (slots v p id) 0) as [E|E]; [by rewrite E|]. rewrite (decide_False (P := slots v p id = 0)) by done.
  destruct (slot_s32 v p id H) as (_ & _ & Hbit). rewrite (bind_Ok _ _ _ _ _ (in_dev_same _ v _ (Hbit E))). by rewrite group_size.
Qed.

Lemma find_chunk_in_file_run v p id t : files_ok v → file_at v p → 0 ≤ id →
  yaffs_find_chunk_in_file tp p id t v = Ok ((if decide (slots v p id = 0) then -1 else slots v p id, t), v).
Proof.
  intros H (o & Hp & Ho) Hid. unfold yaffs_find_chunk_in_file, the_obj. prog_simpl. rewrite Hp. prog_simpl.
  pose proof (trees_file tp _ _ p o (fo_trees _ H) Hp Ho) as Hf.
  rewrite (bind_Ok _ _ _ _ _ (in_fs_same _ v _ (find_tnode_0_run tp _ id _ _ Hid Hf))).
  pose proof (slot_file v p o id Hp Ho Hid) as Es. pose proof (level_reach v p o H Hp Ho) as Hlr.
  destruct (decide (slots v p id = 0)) as [Ez|Hne].
  - destruct (decide (id ≤ YAFFS_MAX_CHUNK_ID ∧ id < reach (level_of (file_variant o)))) as [[Hm Hr]|]; [|done].
    set (tn := leaf_at _ _ _ _). destruct (Z.eqb_spec tn 0) as [|Hn]; [done|].
    rewrite (bind_Ok _ _ _ _ _ (in_fs_same _ v _ (get_group_base_run tp _ id _ _ tn (conj Hid Hr) Hf eq_refl Hn))).
    rewrite <- Es. rewrite (proj1 (slot_s32 v p id H)), find_chunk_in_group_run by done. by rewrite decide_True.
  - destruct (slot_reach v p o id H Hp Ho Hid Hne) as (_ & Hr & Hn). rewrite decide_True by lia.
    destruct (Z.eqb_spec (leaf_at (store (vol_fs v)) (level_of (file_variant o)) (top (file_variant o)) id) 0) as [|_]; [done|].
    rewrite (bind_Ok _ _ _ _ _ (in_fs_same _ v _ (get_group_base_run tp _ id _ _ _ (conj Hid Hr) Hf eq_refl Hn))).
    rewrite <- Es. rewrite (proj1 (slot_s32 v p id H)), find_chunk_in_group_run by done. by rewrite decide_False.
Qed.

(** [yaffs_rd_data_obj] puts the chunk into the first bytes of the buffer. *)
Lemma rd_data_obj_run v p id buffer : files_ok v → file_at v p → 0 ≤ id → data_bytes_per_chunk ≤ zlen buffer →
  ends (yaffs_rd_data_obj tp u p id buffer) v (λ r v',
    r.2 = disk v p id ++ drop (Z.to_nat data_bytes_per_chunk) buffer ∧ still v v').
Proof.
  intros H Hp Hid Hl. unfold yaffs_rd_data_obj. pose proof pd_size as Hsz.
  apply ends_bind. eexists _, v. split; [by apply find_chunk_in_file_run|]. cbn [fst].
  assert (∀ l, zlen l = data_bytes_per_chunk → overlay buffer 0 l = Some (l ++ drop (Z.to_nat data_bytes_per_chunk) buffer)) as Hov.
  { intros l Hl'. unfold overlay. destruct (Z.leb_spec 0 0), (Z.leb_spec (0 + zlen l) (zlen buffer)); try lia.
    by rewrite <- Hl', Nat2Z.id. }
  destruct (slot_s32 v p id H) as (_ & Hpos & _). destruct (decide (slots v p id = 0)) as [E|E].
  - destruct (Z.leb_spec 0 (-1)); [lia|]. rewrite Hov by (rewrite length_replicate; lia).
    apply ends_bind, ends_ret, ends_ret. cbn [snd]. split; [|done]. f_equal. unfold disk, chunk_data. by rewrite E, decide_True.
  - destruct (Z.leb_spec 0 (slots v p id)); [|lia].
    eapply ends_seq; [apply in_dev_still, (held_read _ _ _ p id u (fo_held _ H) E)|]. intros [[result data] t] v' [Hd Hst].
    cbn [fst snd] in Hd. subst data. rewrite Hov by (by eapply held_data_length, fo_held).
    apply ends_bind, ends_ret, ends_ret. done.
Qed.

(** *** A chunk enters the tree of a file *)

(** What the writing of a chunk keeps of an object. *)
Definition obj_like o o' : Prop :=
  ob_obj_id o' = ob_obj_id o ∧ ob_variant_type o' = ob_variant_type o ∧ file_size (file_variant o') = file_size (file_variant o).
Definition objs_like v v' : Prop := ∀ q, option_Forall2 obj_like (objs v !! q) (objs v' !! q).
#[export] Instance objs_like_preorder : PreOrder objs_like.
Proof.
  split.
  - intros v q. destruct (objs v !! q); constructor. done.
  - intros v1 v2 v3 H1 H2 q. specialize (H1 q). specialize (H2 q).
    destruct H1 as [o1 o2 (E1 & E2 & E3)|]; inversion H2 as [? o3 (G1 & G2 & G3)|]; subst; constructor.
    split; [congruence|]. split; congruence.
Qed.

Lemma objs_like_insert v p o o' : objs v !! p = Some o → obj_like o o' →
  ∀ q, option_Forall2 obj_like (objs v !! q) (<[p := o']> (objs v) !! q).
Proof.
  intros Hp Ho q. destruct (decide (q = p)) as [->|Hne].
  - rewrite lookup_insert_eq, Hp. by constructor.
  - rewrite lookup_insert_ne by done. destruct (objs v !! q); by constructor.
Qed.

Lemma objs_like_file v v' p : objs_like v v' → file_at v p → file_at v' p.
Proof.
  intros H (o & Hp & Ho). specialize (H p). rewrite Hp in H. inversion H as [? o' (_ & E & _) E1 E2|]; subst.
  exists o'. split; [done|]. unfold is_file in *. congruence.
Qed.

Lemma objs_like_number v v' p : objs_like v v' → number v' p = number v p.
Proof. intros H. specialize (H p). unfold number. inversion H as [o o' (E & _) E1 E2|E1 E2]; [by rewrite <- E|done]. Qed.

(** What is beside the files. *)
Definition beside v v' : Prop := cache v' = cache v ∧ cache_last_use v' = cache_last_use v.
#[export] Instance beside_preorder : PreOrder beside.
Proof. split; [done|]. intros v1 v2 v3 [] []. split; congruence. Qed.

(** The trees and the objects change, the device does not. *)
Record tree_step v v' : Prop := mk_tree_step {
  ts_trees : trees_ok tp (vol_fs v') (objs v');
  ts_objs : objs_like v v';
  ts_dev : alike (dev_of v) (dev_of v');
  ts_beside : beside v v'
}.

Lemma tree_step_ok v v' sl : files_ok v → tree_step v v' → (∀ p id, slots v' p id = sl p id) → held (dev_of v') sl (number v) → files_ok v'.
Proof.
  intros [H1 H2 H3 H4] [T1 T2 T3 T4] Hsl Hh. split; [done| | |].
  - eapply held_ext; [exact Hsl| |exact Hh]. intros p id _. by apply objs_like_number.
  - intros p o' Hp Ho. specialize (T2 p). rewrite Hp in T2. inversion T2 as [o ? (E & E2 & _) E1|]; subst. rewrite E.
    apply (H3 p); [done|]. unfold is_file in *. congruence.
  - specialize (T2 0). rewrite H4 in T2. by inversion T2.
Qed.

Definition tops f f' : Prop := f' = set_top (top_level f') (top f') f.

Lemma grow_loop_tops n : ∀ f s b f' s', grow_loop tp n f s = Ok ((b, f'), s') → tops f f'.
Proof.
  induction n as [|n IH]; intros f s b f' s'; cbn [grow_loop]; [intros [= _ <- _]; by destruct f|].
  intros (t & s1 & _ & H)%bind_inv. destruct (t =? 0); [injection H as _ <- _; by destruct f|].
  apply bind_inv in H as (x & s2 & _ & H). apply IH in H. unfold tops in *. rewrite H. by destruct f.
Qed.

Lemma add_find_tops f id s tn f' s' : yaffs_add_find_tnode_0 tp f id 0 s = Ok ((tn, f'), s') → tops f f'.
Proof.
  unfold yaffs_add_find_tnode_0. destruct (_ || _); [intros [= _ <- _]; by destruct f|]. destruct (_ <? _); [intros [= _ <- _]; by destruct f|].
  intros ([ok f1] & s1 & H1 & H)%bind_inv.
  assert (tops f f1) as Ht by (destruct (_ <? _) in H1; [by eapply grow_loop_tops|injection H1 as _ <- _; by destruct f]).
  destruct ok; cbn [negb] in H; [|by injection H as _ <- _].
  destruct (_ <? _) in H; apply bind_inv in H as (t & s2 & _ & H); by injection H as _ <- _.
Qed.

Lemma load_tnode_heap tn pos val s x s' : yaffs_load_tnode_0 tp tn pos val s = Ok (x, s') → kmem s' = kmem s.
Proof.
  unfold yaffs_load_tnode_0, set_tn_words, tn_words. prog_simpl. destruct (store s !! tn); [|done]. prog_simpl.
  destruct (load_tnode_words _ _ _ _); [|done]. prog_simpl. destruct (store s !! tn); [|done]. by intros [= _ <-].
Qed.

Lemma same_alike A s s' : same A s s' → alike (fs_dev s) (fs_dev s').
Proof.
  intros [_ H]. destruct (fs_dev s) as [f1 b1 g1 t1 c1 i1 r1 m1 o1 n1 st1], (fs_dev s') as [f2 b2 g2 t2 c2 i2 r2 m2 o2 n2 st2].
  cbn in H. injection H as -> -> -> -> -> -> -> -> ->. by split.
Qed.

(** The object with another tree in a volume with other trees. *)
Definition with_tree s p o v : yaffs_vol F K := set_objs (<[p := o]> (objs v)) (set_vol_fs s v).

Lemma with_tree_step s p o o' v : files_ok v → objs v !! p = Some o → is_file o → obj_like o o' →
  file_ok tp s (file_variant o') (forest (vol_fs v) (delete p (objs v))) → same (forest (vol_fs v) (delete p (objs v))) (vol_fs v) s →
  rooted s (file_variant o') →
  tree_step v (with_tree s p o' v) ∧
  (∀ id, 0 ≤ id → slots (with_tree s p o' v) p id = file_group tp s (file_variant o') id) ∧
  (∀ q id, q ≠ p → slots (with_tree s p o' v) q id = slots v q id).
Proof.
  intros H Hp Ho Hlike Hf Hs Hr. pose proof Hlike as (_ & E & _). assert (is_file o') as Ho' by (unfold is_file in *; congruence).
  destruct (trees_step tp _ _ _ p o o' (fo_trees _ H) Hp Ho Ho' Hf Hs Hr) as (H1 & H2 & H3). split; [|done].
  split; [done|intros q; by apply (objs_like_insert v p o)|by eapply same_alike|done].
Qed.

(** Other fields of an object. *)
Lemma obj_step p o o' v : files_ok v → objs v !! p = Some o → obj_like o o' →
  top_level (file_variant o') = top_level (file_variant o) → top (file_variant o') = top (file_variant o) →
  tree_step v (set_objs (<[p := o']> (objs v)) v) ∧ ∀ q id, slots (set_objs (<[p := o']> (objs v)) v) q id = slots v q id.
Proof.
  intros H Hp Hlike E1 E2. pose proof Hlike as (_ & E & _).
  destruct (trees_obj tp (vol_fs v) (objs v) p o o' (fo_trees _ H) Hp) as [H1 H2]; [unfold is_file; by rewrite E|done|done|].
  split; [|exact H2]. split; [done|intros q; by apply (objs_like_insert v p o)|done|done].
Qed.

Lemma slot_neg v p id : id < 0 → slots v p id = 0.
Proof. intros Hid. unfold slots, slot. destruct (objs v !! p); [|done]. rewrite decide_False; [done|lia]. Qed.

(** The beginning of [yaffs_put_chunk_in_file]: the tnode is there and no chunk has moved. *)
Lemma put_begin v p o id k : files_ok v → objs v !! p = Some o → is_file o → 0 ≤ id ≤ YAFFS_MAX_CHUNK_ID →
  plenty tp (16 + k) (kmem (vol_fs v)) → ∃ tn f s1,
  yaffs_add_find_tnode_0 tp (file_variant o) id 0 (vol_fs v) = Ok ((tn, f), s1) ∧ tn ≠ 0 ∧ plenty tp k (kmem s1) ∧
  let o1 := set_file_variant f o in let v1 := with_tree s1 p o1 v in
  tree_step v v1 ∧ (∀ q id, slots v1 q id = slots v q id) ∧ obj_like o o1 ∧
  file_ok tp s1 f (forest (vol_fs v) (delete p (objs v))) ∧ same (forest (vol_fs v) (delete p (objs v))) (vol_fs v) s1 ∧ rooted s1 f ∧
  id < reach (level_of f) ∧ leaf_at (store s1) (level_of f) (top f) id = tn.
Proof.
  intros H Hp Ho Hid Hk. pose proof (trees_file tp _ _ p o (fo_trees _ H) Hp Ho) as Hf.
  destruct (tr_file _ _ _ (fo_trees _ H) p o Hp Ho) as [Hlev Hroot].
  destruct (add_find_tnode_0_run tp (file_variant o) id (vol_fs v) _ (proj1 Hid) Hf) as ([tn f] & s1 & Hrun & Hf1 & Hs1 & Hgr & Hne & _ & Hr1).
  destruct (add_find_finds tp _ _ _ _ _ _ k Hlev Hid (trees_null tp _ _ (fo_trees _ H) p o Hp Ho) Hrun Hk) as [Htn Hk1].
  destruct (Hne Htn) as (_ & Hreach & Hleaf). exists tn, f, s1. split; [done|]. split; [done|]. split; [done|]. cbv zeta.
  pose proof (add_find_tops _ _ _ _ _ _ Hrun) as Ht.
  assert (obj_like o (set_file_variant f o)) as Hlike by (split; [done|]; split; [done|]; cbn; by rewrite Ht).
  destruct (with_tree_step s1 p o (set_file_variant f o) v H Hp Ho Hlike Hf1 Hs1 (Hr1 Hroot)) as (T1 & T2 & T3).
  split; [done|]. split; [|by auto 10].
  intros q id'. destruct (decide (id' < 0)); [by rewrite !slot_neg|]. destruct (decide (q = p)) as [->|]; [|by apply T3].
  rewrite T2 by lia. cbn [file_variant set_file_variant]. rewrite Hgr by lia. symmetry. apply (slot_file v p o); [done|done|lia].
Qed.

Lemma put_find_run v p id k : files_ok v → file_at v p → 0 ≤ id ≤ YAFFS_MAX_CHUNK_ID → plenty tp (16 + k) (kmem (vol_fs v)) →
  ends (yaffs_put_chunk_in_file tp u p id 0 0) v (λ r v', r = YAFFS_OK ∧ tree_step v v' ∧
    (∀ q id', slots v' q id' = slots v q id') ∧ plenty tp k (kmem (vol_fs v'))).
Proof.
  intros H (o & Hp & Ho) Hid Hk. destruct (put_begin v p o id k H Hp Ho Hid Hk) as (tn & f & s1 & Hrun & Htn & Hk1 & T & Hsl & _).
  unfold yaffs_put_chunk_in_file. eapply ends_bind, ends_the_obj; [done|]. rewrite Ho. cbn [negb Z.eqb Pos.eqb YAFFS_OBJECT_TYPE_FILE].
  apply ends_bind, ends_in_fs. eexists _, _. split; [exact Hrun|]. apply ends_bind. unfold upd_file.
  eapply (ends_upd_obj p o); [done|]. destruct (Z.eqb_spec tn 0); [done|]. by apply ends_ret.
Qed.

Lemma put_store_run v p id n k : files_ok v → file_at v p → 0 ≤ id ≤ YAFFS_MAX_CHUNK_ID → plenty tp (16 + k) (kmem (vol_fs v)) →
  0 < n < (internal_end_block + 1) * chunks_per_block →
  ends (yaffs_put_chunk_in_file tp u p id n 0) v (λ r v', r = YAFFS_OK ∧ tree_step v v' ∧
    (∀ q id', slots v' q id' = set_slot p id n (slots v) q id') ∧ plenty tp k (kmem (vol_fs v'))).
Proof.
  intros H (o & Hp & Ho) Hid Hk Hn. destruct (put_begin v p o id k H Hp Ho Hid Hk) as (tn & f & s1 & Hrun & Htn & Hk1 & T & Hsl & Hlike & Hf1 & Hs1 & Hr1 & Hreach & Hleaf).
  set (o1 := set_file_variant f o) in *. set (v1 := with_tree s1 p o1 v) in *.
  unfold yaffs_put_chunk_in_file. eapply ends_bind, ends_the_obj; [done|]. rewrite Ho. cbn [negb Z.eqb Pos.eqb YAFFS_OBJECT_TYPE_FILE].
  apply ends_bind, ends_in_fs. eexists _, _. split; [exact Hrun|]. apply ends_bind. unfold upd_file.
  eapply (ends_upd_obj p o); [done|]. destruct (Z.eqb_spec tn 0); [done|]. destruct (Z.eqb_spec n 0); [lia|].
  fold o1. change (set_objs (<[p := o1]> (objs (set_vol_fs s1 v))) (set_vol_fs s1 v)) with v1.
  pose proof (get_group_base_run tp f id s1 _ tn (conj (proj1 Hid) Hreach) Hf1 Hleaf Htn) as Hg.
  apply ends_bind, ends_in_fs. eexists _, _. split; [exact Hg|]. change (set_vol_fs s1 v1) with v1.
  cbv beta. unfold put_in_scan. cbn [orb Z.eqb]. apply ends_bind, ends_ret. cbv beta iota. cbn [negb].
  set (c := file_group tp s1 f id).
  eapply (ends_seq _ _ _ (λ _ v2, ∃ o2, v2 = with_tree s1 p o2 v ∧ file_variant o2 = f ∧ obj_like o o2)).
  { apply ends_when; intros _; [|by exists o1]. eapply (ends_upd_obj p o1); [apply lookup_insert_eq|].
    exists (set_ob_n_data_chunks (ob_n_data_chunks o1 + 1) o1). split; [|by split]. unfold v1, with_tree. cbn [objs set_objs set_vol_fs]. by rewrite insert_insert_eq. }
  intros _ v2 (o2 & -> & Ho2 & Hlike2).
  destruct (load_tnode_0_run tp f id n s1 _ tn (conj (proj1 Hid) Hreach) ltac:(lia) Hf1 Hleaf Htn) as (x & s2 & Hload & Hf2 & Hs2 & Hleaf2 & Hg2).
  apply ends_bind, ends_in_fs. exists x, s2. split; [exact Hload|]. apply ends_ret. split; [done|].
  change (set_vol_fs s2 (with_tree s1 p o2 v)) with (with_tree s2 p o2 v). rewrite <- Ho2 in Hf2, Hg2, Hleaf2.
  assert (same (forest (vol_fs v) (delete p (objs v))) (vol_fs v) s2) as Hs02 by (etrans; [exact Hs1|exact Hs2]).
  assert (rooted s2 (file_variant o2)) as Hr2 by (unfold rooted; rewrite Hleaf2 by lia; rewrite Ho2; exact Hr1).
  destruct (with_tree_step s2 p o o2 v H Hp Ho Hlike2 Hf2 Hs02 Hr2) as (T1 & T2 & T3). split; [done|].
  assert (group_round tp n = n) as Hround.
  { apply (group_round_id tp); rewrite ?Hgrp, ?Z.add_0_r; [lia| |by rewrite Z.mod_1_r]. destruct Hgeo. lia. }
  split.
  - intros q id'. unfold set_slot. destruct (decide (id' < 0)); [rewrite !slot_neg, decide_False by lia; done|].
    destruct (decide (q = p)) as [->|]; [|rewrite decide_False by tauto; by apply T3]. rewrite T2, Hg2 by lia.
    destruct (decide (id' = id)) as [->|]; [by rewrite decide_True|]. rewrite decide_False by tauto.
    rewrite <- (Hsl p id'). symmetry. rewrite Ho2. apply (slot_file v1 p o1); [apply lookup_insert_eq|done|lia].
  - change (kmem (vol_fs (with_tree s2 p o2 v))) with (kmem s2). by rewrite (load_tnode_heap _ _ _ _ _ _ Hload).
Qed.

(** *** Writing a chunk of a file *)

(** What [n] writes need: memory for tnodes, sequence numbers and erased blocks. *)
Definition budget (n : nat) v : Prop :=
  plenty tp (32 * n) (kmem (vol_fs v)) ∧ dev_seq_number (blocks (dev_of v)) + Z.of_nat n < 0xffffffff ∧
  Z.of_nat n ≤ n_erased_blocks (blocks (dev_of v)).

Lemma budget_le n n' v : (n' ≤ n)%nat → budget n v → budget n' v.
Proof. intros Hle (H1 & H2 & H3). split; [eapply plenty_le; [|exact H1]; lia|lia]. Qed.

Lemma budget_still n v v' : still v v' → budget n v → budget n v'.
Proof. intros (d & -> & Ha) (H1 & H2 & H3). pose proof (al_blocks _ _ Ha) as Hb. split; [done|]. unfold dev_of at 1 2. cbn. by rewrite Hb. Qed.

Lemma same_slots_ok v v' : files_ok v → tree_step v v' → (∀ p id, slots v' p id = slots v p id) →
  files_ok v' ∧ ∀ p id, disk v' p id = disk v p id.
Proof.
  intros H T Hsl. destruct (held_alike _ _ _ _ (ts_dev _ _ T) (fo_held _ H)) as [Hh Hd].
  split; [by eapply tree_step_ok|]. intros p id. unfold disk. by rewrite Hsl, Hd.
Qed.

Lemma check_gc_off b v : yaffs_check_gc tp fuel u b v = Ok (YAFFS_OK, v).
Proof.
  destruct Hoff as (f & E & Hf). unfold yaffs_check_gc.
  rewrite (bind_Ok _ _ _ _ _ (in_dev_same get v (dev_of v) eq_refl)). by rewrite E, Hf.
Qed.

Lemma file_tags_good obj id n serial : in_u 28 obj → 1 ≤ id ≤ YAFFS_MAX_CHUNK_ID → in_u 31 n → tags_good (file_tags obj id n serial).
Proof.
  intros Ho Hid Hn s Hs. unfold YAFFS_MAX_CHUNK_ID in Hid. change (Z.shiftl 1 YAFFS_TNODES_MAX_BITS - 1) with 268435455 in Hid.
  split; [split; cbn; unfold in_u in *; try done; lia|].
  unfold tags2_stored, yaffs_check_tags_extra_packable. cbn. destruct (Z.eqb_spec id 0); [lia|]. done.
Qed.

(** The chunk of the file that was written. *)
Definition wrote (p id : Z) (l : list Z) v v' : Prop :=
  ∀ q id', disk v' q id' = if decide (q = p ∧ id' = id) then l else disk v q id'.

(** The new chunk replaces the old one. *)
Lemma replace_run n v p id k l t : files_ok v → file_at v p → 1 ≤ id ≤ YAFFS_MAX_CHUNK_ID → plenty tp (16 + n) (kmem (vol_fs v)) →
  0 < k → holds_at (dev_of v) k l t → (∀ q id', slots v q id' ≠ k) → obj_id t = number v p → chunk_id t = id →
  ends (_ ← yaffs_put_chunk_in_file tp u p id k 0;
        if 0 <? (if decide (slots v p id = 0) then -1 else slots v p id)
        then in_dev (yaffs_chunk_del u (if decide (slots v p id = 0) then -1 else slots v p id) true) else mret ()) v
    (λ _ v', files_ok v' ∧ objs_like v v' ∧ beside v v' ∧ wrote p id l v v' ∧ plenty tp n (kmem (vol_fs v')) ∧ spent 0 (dev_of v) (dev_of v')).
Proof.
  intros H Hp Hid Hk Hpos Hat Hf Ht1 Ht2. pose proof (he_sound _ _ _ (fo_held _ H)) as Hso.
  destruct (holds_at_chunk _ _ _ _ Hat Hso) as (Hkb & _ & _).
  eapply ends_seq; [apply (put_store_run v p id k n H Hp ltac:(lia) Hk Hkb)|]. intros r v1 (_ & T & Hsl & Hk1).
  pose proof (held_set _ _ _ p id k l t (fo_held _ H) ltac:(lia) Hat Hf Ht1 Ht2) as Hset.
  destruct (held_alike _ _ _ _ (ts_dev _ _ T) Hset) as [Hh1 Hd1].
  pose proof (tree_step_ok v v1 _ H T Hsl Hh1) as H1.
  assert (wrote p id l v v1) as Hw1.
  { intros q id'. unfold disk. rewrite Hsl, Hd1. unfold set_slot. destruct (decide (q = p ∧ id' = id)); [|done]. by eapply holds_at_data. }
  assert (spent 0 (dev_of v) (dev_of v1)) as Hsp by (unfold spent; rewrite (al_blocks _ _ (ts_dev _ _ T)); lia).
  destruct (slot_s32 v p id H) as (_ & H0 & _). destruct (decide (slots v p id = 0)) as [E|E].
  { apply ends_ret. split; [done|]. split; [apply T|]. split; [apply T|]. done. }
  destruct (Z.ltb_spec 0 (slots v p id)); [|lia].
  destruct (he_at _ _ _ (fo_held _ H) p id E) as (l0 & t0 & Hat0 & _).
  assert (holds_at (dev_of v1) (slots v p id) l0 t0) as Hat1.
  { eapply stays_holds_at; [exact Hat0|]. intros blk c _ L. by apply (alike_stays _ _ _ _ (ts_dev _ _ T)). }
  assert (∀ q id', slots v1 q id' ≠ slots v p id) as Hfr.
  { intros q id'. rewrite Hsl. unfold set_slot. destruct (decide (q = p ∧ id' = id)) as [|Hne]; [intros E'; by apply (Hf p id)|].
    intros E'. apply Hne. symmetry in E'. by destruct (he_inj _ _ _ (fo_held _ H) p id q id' E E') as [-> ->]. }
  apply ends_in_dev. eapply ends_mono; [apply (held_del _ _ _ _ _ _ u true (fo_held _ H1) Hat1 Hfr)|].
  intros x d2 (Hh2 & Hd2 & Hs2). split; [by apply with_dev_ok|]. split; [apply T|]. split; [apply T|]. split; [|split; [done|]].
  - intros q id'. rewrite <- (Hw1 q id'). apply Hd2.
  - unfold spent in *. change (dev_of (with_dev d2 v1)) with d2. lia.
Qed.

Lemma wr_data_obj_run n v p id l nb use_reserve : files_ok v → file_at v p → 1 ≤ id ≤ YAFFS_MAX_CHUNK_ID →
  zlen l = data_bytes_per_chunk → 1 ≤ nb ≤ data_bytes_per_chunk → budget (S n) v →
  ends (yaffs_wr_data_obj tp fuel u p id l nb use_reserve) v (λ r v',
    files_ok v' ∧ objs_like v v' ∧ beside v v' ∧ budget n v' ∧
    ((0 < r ∧ wrote p id l v v') ∨
     (r = -1 ∧ use_reserve = false ∧ short (dev_of v') ∧ ∀ q id', disk v' q id' = disk v q id'))).
Proof.
  intros H Hp Hid Hl Hnb (Hmem & Hseq & Her). pose proof pd_size as Hsz. unfold yaffs_wr_data_obj.
  apply ends_bind. eexists _, v. split; [apply check_gc_off|]. apply ends_bind. eexists _, v. split; [apply find_chunk_in_file_run; [done|done|lia]|].
  cbv beta iota. set (prev := if decide (slots v p id = 0) then -1 else slots v p id).
  eapply (ends_seq _ _ _ (λ r v1, r = YAFFS_OK ∧ tree_step v v1 ∧ (∀ q id', slots v1 q id' = slots v q id') ∧ plenty tp (16 + 32 * n) (kmem (vol_fs v1)))).
  { destruct (prev <? 1).
    - apply put_find_run; [done|done|lia|]. eapply plenty_le; [|exact Hmem]. lia.
    - apply ends_ret. split; [done|]. split; [split; done || apply H|]. split; [done|]. eapply plenty_le; [|exact Hmem]. lia. }
  intros r v1 (-> & T1 & Hsl1 & Hm1). cbn [Z.eqb YAFFS_OK].
  destruct (same_slots_ok v v1 H T1 Hsl1) as [H1 Hd1]. pose proof (objs_like_file _ _ p (ts_objs _ _ T1) Hp) as (o1 & Hp1 & Ho1).
  eapply ends_bind, ends_the_obj; [exact Hp1|]. rewrite (wraps_id 32 data_bytes_per_chunk) by (unfold in_s; cbn; lia).
  destruct (Z.ltb_spec nb 1) as [|_], (Z.ltb_spec data_bytes_per_chunk nb) as [|_]; try lia. cbn [orb]. destruct (Z.ltb_spec 0 id) as [_|]; [|lia].
  apply ends_bind. unfold upd_file. eapply (ends_upd_obj p o1); [exact Hp1|].
  set (endpos := u32 ((id - 1) * data_bytes_per_chunk + nb)).
  set (o2 := set_file_variant _ o1). set (v2 := set_objs _ v1).
  assert (tree_step v1 v2 ∧ ∀ q id', slots v2 q id' = slots v1 q id') as [T2 Hsl2].
  { apply (obj_step p o1); [done|done| | |]; unfold o2; cbn [file_variant set_file_variant]; destruct (_ <? endpos); done. }
  destruct (same_slots_ok v1 v2 H1 T2 Hsl2) as [H2 Hd2].
  assert (blocks (dev_of v2) = blocks (dev_of v)) as Eb by (rewrite (al_blocks _ _ (ts_dev _ _ T2)), (al_blocks _ _ (ts_dev _ _ T1)); done).
  assert (ob_obj_id o1 = number v1 p) as Enum by (unfold number; by rewrite Hp1).
  assert (number v2 p = number v1 p) as Enum2 by (apply objs_like_number, T2).
  pose proof (fo_id _ H1 p o1 Hp1 Ho1) as Hobj. unfold YAFFS_MAX_CHUNK_ID in Hid. change (Z.shiftl 1 YAFFS_TNODES_MAX_BITS - 1) with 268435455 in Hid.
  rewrite (wrapu_id 32 id), (wrapu_id 32 nb) by (unfold in_u; lia).
  apply ends_bind, ends_in_dev. eapply ends_mono; [apply (held_write _ _ _ l _ use_reserve fuel u Hfuel (fo_held _ H2))|].
  { rewrite Eb. lia. } { done. } { apply file_tags_good; [done|done|unfold in_u; lia]. }
  intros new d3 (Hh3 & Hd3 & Hs3 & Hres). set (v3 := with_dev d3 v2).
  assert (files_ok v3) as H3 by (by apply with_dev_ok).
  assert (file_at v3 p) as Hp3 by (apply (objs_like_file v1 v2); [apply T2|by exists o1]).
  assert (∀ q id', disk v3 q id' = disk v q id') as Hdisk by (intros q id'; rewrite <- Hd1, <- Hd2; apply Hd3).
  assert (spent 1 (dev_of v) d3) as Hsp by (unfold spent in *; rewrite Eb in Hs3; done).
  destruct Hres as [(Hpos & Hfr & t' & Hat & Et1 & Et2)|[-> Hfull]].
  - destruct (Z.ltb_spec 0 new); [|lia]. assert (prev = if decide (slots v3 p id = 0) then -1 else slots v3 p id) as Eprev.
    { unfold prev. change (slots v3 p id) with (slots v2 p id). by rewrite Hsl2, Hsl1. }
    rewrite Eprev. eapply ends_seq; [apply (replace_run (32 * n) v3 p id new l t' H3 Hp3); try done|].
    + rewrite Et1. change (number v3 p) with (number v2 p). cbn. congruence.
    + intros x v4 (H4 & T4 & B4 & W4 & P4 & S4). apply ends_ret. split; [done|].
      split; [etrans; [apply T1|]; etrans; [apply T2|exact T4]|].
      split; [etrans; [apply T1|]; etrans; [apply T2|exact B4]|]. split; [|left; split; [done|]].
      * split; [done|]. unfold spent in *. change (dev_of v3) with d3 in S4. lia.
      * intros q id'. rewrite W4. by rewrite Hdisk.
  - cbn [Z.ltb Z.compare]. apply ends_bind, ends_ret, ends_ret. split; [done|]. split; [etrans; [apply T1|apply T2]|].
    split; [etrans; [apply T1|apply T2]|]. split.
    + split; [eapply plenty_le; [|exact Hm1]; lia|]. unfold spent in *. change (dev_of v3) with d3. lia.
    + right. split; [done|]. destruct use_reserve; [exfalso; rewrite Eb in Hfull; lia|]. split; [done|]. split; [exact Hfull|exact Hdisk].
Qed.

(** ** The cache *)

(** An element but for the time of its last use. *)
Definition ca_body (c : yaffs_cache) : yaffs_cache := set_ca_last_use 0 c.
Definition is_for (p id : Z) (c : yaffs_cache) : Prop := ca_object c = p ∧ ca_chunk_id c = id.
#[local] Instance is_for_dec p id c : Decision (is_for p id c).
Proof using Type. unfold is_for. apply _. Defined.

Lemma body_inv c c' : ca_body c' = ca_body c → ca_object c' = ca_object c ∧ ca_chunk_id c' = ca_chunk_id c ∧ ca_dirty c' = ca_dirty c ∧
  ca_n_bytes c' = ca_n_bytes c ∧ ca_locked c' = ca_locked c ∧ ca_data c' = ca_data c.
Proof using Type. destruct c, c'. by intros [=]. Qed.

Lemma first_cache_Some P l i : first_cache P l = Some i → ∃ c, l !! i = Some c ∧ P c = true.
Proof using Type.
  revert i. induction l as [|c l IH]; intros i; cbn [first_cache]; [done|]. destruct (P c) eqn:E; [intros [= <-]; by exists c|].
  destruct (first_cache P l) as [j|]; [|done]. intros [= <-]. by apply IH.
Qed.

Lemma first_cache_None P l : first_cache P l = None → ∀ i c, l !! i = Some c → P c = false.
Proof using Type.
  induction l as [|c l IH]; cbn [first_cache]; [done|]. destruct (P c) eqn:E; [done|]. destruct (first_cache P l); [done|].
  intros _ [|i] c' H; [by injection H as <-|]. by apply (IH eq_refl i).
Qed.

(** The data of a chunk: that in the cache, or else that in the flash. *)
Definition view v (p id : Z) : list Z :=
  from_option ca_data (disk v p id) (first_cache (λ c, (ca_object c =? p) && (ca_chunk_id c =? id)) (cache v) ≫= λ i, cache v !! i).

Lemma view_spec v p id :
  (∃ i c, cache v !! i = Some c ∧ is_for p id c ∧ view v p id = ca_data c) ∨
  ((∀ i c, cache v !! i = Some c → ¬ is_for p id c) ∧ view v p id = disk v p id).
Proof using Type.
  unfold view. destruct (first_cache _ (cache v)) as [i|] eqn:E.
  - left. destruct (first_cache_Some _ _ _ E) as (c & Hc & [H1%Z.eqb_eq H2%Z.eqb_eq]%andb_true_iff). exists i, c. cbn. by rewrite Hc.
  - right. split; [|done]. intros i c Hc [H1 H2]. pose proof (first_cache_None _ _ E i c Hc) as H. cbn in H.
    by rewrite H1, H2, !Z.eqb_refl in H.
Qed.

Definition entry_ok v (c : yaffs_cache) : Prop :=
  ca_locked c = false ∧ zlen (ca_data c) = data_bytes_per_chunk ∧
  (ca_object c ≠ 0 → file_at v (ca_object c) ∧ 1 ≤ ca_chunk_id c ≤ YAFFS_MAX_CHUNK_ID ∧
    if ca_dirty c then 1 ≤ ca_n_bytes c ≤ data_bytes_per_chunk else ca_data c = disk v (ca_object c) (ca_chunk_id c)).

(** No chunk is in two elements, and an element that is not dirty is the chunk in the flash. *)
Record cache_ok v : Prop := mk_cache_ok {
  co_len : length (cache v) = n_caches;
  co_entry i c : cache v !! i = Some c → entry_ok v c;
  co_uniq i j c c' : cache v !! i = Some c → cache v !! j = Some c' → ca_object c ≠ 0 →
    is_for (ca_object c) (ca_chunk_id c) c' → i = j
}.

Lemma view_hit v i c : cache_ok v → cache v !! i = Some c → ca_object c ≠ 0 → view v (ca_object c) (ca_chunk_id c) = ca_data c.
Proof using Type.
  intros H Hc Hne. destruct (view_spec v (ca_object c) (ca_chunk_id c)) as [(j & c' & Hc' & Hf & ->)|[Hn _]]; [|by destruct (Hn i c Hc)].
  assert (i = j) as -> by (by eapply co_uniq). congruence.
Qed.

Lemma view_length v p id : files_ok v → cache_ok v → zlen (view v p id) = data_bytes_per_chunk.
Proof.
  intros H Hc. destruct (view_spec v p id) as [(i & c & Hi & _ & ->)|[_ ->]]; [by apply (co_entry _ Hc i c)|].
  eapply held_data_length, H.
Qed.

(** The element [i], which was [c0], is now [c], and only its chunk may have been written. *)
Record recached (i : nat) (c0 c : yaffs_cache) v v' : Prop := mk_recached {
  rc_old : cache v !! i = Some c0;
  rc_len : length (cache v') = length (cache v);
  rc_cache j : ca_body <$> cache v' !! j = ca_body <$> (if decide (j = i) then Some c else cache v !! j);
  rc_objs : objs_like v v';
  rc_disk q id : ¬ is_for q id c0 → disk v' q id = disk v q id
}.

Lemma body_some (a b : option yaffs_cache) x : ca_body <$> a = ca_body <$> b → a = Some x → ∃ y, b = Some y ∧ ca_body x = ca_body y.
Proof using Type. intros E ->. destruct b as [y|]; [|done]. exists y. split; [done|]. by apply (inj Some) in E. Qed.

Lemma recached_lookup i c0 c v v' j x : recached i c0 c v v' → cache v' !! j = Some x →
  ∃ y, (if decide (j = i) then Some c else cache v !! j) = Some y ∧ ca_body x = ca_body y.
Proof using Type. intros H. by apply body_some, H. Qed.

Lemma recached_at i c0 c v v' j y : recached i c0 c v v' → (if decide (j = i) then Some c else cache v !! j) = Some y →
  ∃ x, cache v' !! j = Some x ∧ ca_body y = ca_body x.
Proof using Type. intros H. by apply body_some, eq_sym, H. Qed.

Lemma recached_self i c0 c v v' : recached i c0 c v v' → ∃ x, cache v' !! i = Some x ∧ ca_body c = ca_body x.
Proof using Type. intros H. eapply recached_at; [exact H|]. by rewrite decide_True. Qed.

Lemma entry_ok_body v v' x y : ca_body x = ca_body y → objs_like v v' →
  (ca_object y ≠ 0 → disk v' (ca_object y) (ca_chunk_id y) = disk v (ca_object y) (ca_chunk_id y)) → entry_ok v y → entry_ok v' x.
Proof.
  intros Hb Ho Hd (E1 & E2 & E3). destruct (body_inv _ _ Hb) as (B1 & B2 & B3 & B4 & B5 & B6).
  unfold entry_ok. rewrite B1, B2, B3, B4, B5, B6. split; [done|]. split; [done|]. intros Hne. destruct (E3 Hne) as (F1 & F2 & F3).
  split; [by eapply objs_like_file|]. split; [done|]. by destruct (ca_dirty y); rewrite ?Hd.
Qed.

Lemma recached_ok i c0 c v v' : cache_ok v → recached i c0 c v v' → entry_ok v' c →
  (ca_object c ≠ 0 → ∀ j x, j ≠ i → cache v !! j = Some x → ¬ is_for (ca_object c) (ca_chunk_id c) x) → cache_ok v'.
Proof.
  intros [C1 C2 C3] Hr Hc Hu. pose proof Hr as [Ho Hlen _ Hob Hd]. split; [congruence| |].
  - intros j x Hx. destruct (recached_lookup _ _ _ _ _ j x Hr Hx) as (y & Hy & Hb). destruct (decide (j = i)) as [->|Hne].
    + apply (inj Some) in Hy as <-. eapply entry_ok_body; [exact Hb|reflexivity|done|done].
    + eapply entry_ok_body; [exact Hb|done| |by eapply C2]. intros Hy0. apply Hd. intros [E1 E2].
      apply Hne. eapply (C3 j i y c0); [done|done|done|by split].
  - intros j1 j2 x1 x2 H1 H2 Hne Hf. destruct (recached_lookup _ _ _ _ _ j1 x1 Hr H1) as (y1 & Y1 & B1).
    destruct (recached_lookup _ _ _ _ _ j2 x2 Hr H2) as (y2 & Y2 & B2).
    destruct (body_inv _ _ B1) as (E1 & E2 & _), (body_inv _ _ B2) as (E3 & E4 & _).
    unfold is_for in Hf. rewrite E1, E2, E3, E4 in Hf. rewrite E1 in Hne. destruct Hf as [F1 F2].
    destruct (decide (j1 = i)) as [->|N1], (decide (j2 = i)) as [->|N2]; [done| | |by eapply C3].
    + apply (inj Some) in Y1 as <-. by destruct (Hu Hne j2 y2 N2 Y2).
    + apply (inj Some) in Y2 as <-. destruct (Hu ltac:(congruence) j1 y1 N1 Y1). by split.
Qed.

Lemma recached_view i c0 c v v' : cache_ok v → cache_ok v' → recached i c0 c v v' → ∀ q id, q ≠ 0 →
  view v' q id = if decide (is_for q id c) then ca_data c else if decide (is_for q id c0) then disk v' q id else view v q id.
Proof.
  intros Hok Hok' Hr q id Hq. pose proof (rc_old _ _ _ _ _ Hr) as Hc0. destruct (decide (is_for q id c)) as [[F1 F2]|Hf].
  - destruct (recached_self _ _ _ _ _ Hr) as (y & Hy & Hb).
    destruct (body_inv _ _ Hb) as (E1 & E2 & _ & _ & _ & E6). rewrite E6, <- (view_hit v' i y) by (done || congruence). congruence.
  - destruct (view_spec v' q id) as [(j & x & Hx & [F1 F2] & ->)|[Hn ->]].
    + destruct (recached_lookup _ _ _ _ _ j x Hr Hx) as (y & Hy & Hb). destruct (body_inv _ _ Hb) as (E1 & E2 & _ & _ & _ & E6).
      destruct (decide (j = i)) as [->|Hji]; [apply (inj Some) in Hy as <-; destruct Hf; split; congruence|].
      rewrite decide_False; [rewrite E6, <- (view_hit v j y) by (done || congruence); congruence|].
      intros [G1 G2]. apply Hji. eapply (co_uniq _ Hok j i y c0); [done|done|congruence|]. split; congruence.
    + destruct (decide (is_for q id c0)) as [|Hf0]; [done|]. rewrite (rc_disk _ _ _ _ _ Hr) by done.
      destruct (view_spec v q id) as [(j & x & Hx & [F1 F2] & _)|[_ ->]]; [|done]. exfalso.
      assert (j ≠ i) as Hji by (intros ->; destruct Hf0; split; congruence).
      destruct (recached_at _ _ _ _ _ j x Hr) as (y & Hy & Hb); [by rewrite decide_False|].
      destruct (body_inv _ _ Hb) as (E1 & E2 & _). apply (Hn j y Hy). split; congruence.
Qed.

(** *** Changes of an element *)

Definition core v v' : Prop := vol_fs v' = vol_fs v ∧ objs v' = objs v.

#[export] Instance core_preorder : PreOrder core.
Proof using Type. split; [done|]. intros v1 v2 v3 [] []. split; congruence. Qed.

Lemma core_ok v v' : core v v' → files_ok v → files_ok v'.
Proof. intros [E1 E2] [H1 H2 H3 H4]. unfold dev_of, slots, number in *. split; unfold dev_of, slots, number; rewrite ?E1, ?E2; done. Qed.

Lemma core_disk v v' : core v v' → ∀ q id, disk v' q id = disk v q id.
Proof. intros [E1 E2] q id. unfold disk, dev_of, slots. by rewrite E1, E2. Qed.

Lemma core_objs v v' : core v v' → objs_like v v'.
Proof. intros [_ E]. intros q. rewrite E. destruct (objs v !! q); by constructor. Qed.

Lemma core_budget n v v' : core v v' → budget n v → budget n v'.
Proof. intros [E _]. unfold budget, dev_of. by rewrite E. Qed.

Lemma recached_refl i c v : cache v !! i = Some c → recached i c c v v.
Proof. intros H. split; [done|done| |done|done]. intros j. destruct (decide (j = i)) as [->|]; [by rewrite H|done]. Qed.

(** What is done beside the cache, to the chunk of the element at most. *)
Lemma recached_step i c0 c v v1 v2 : recached i c0 c v v1 → cache v2 = cache v1 → objs_like v1 v2 →
  (∀ q id, ¬ is_for q id c0 → disk v2 q id = disk v1 q id) → recached i c0 c v v2.
Proof.
  intros [R1 R2 R3 R4 R5] E Ho Hd. split; [done|by rewrite E|by rewrite E|by etrans|]. intros q id Hf. by rewrite Hd, R5.
Qed.

Lemma recached_still i c0 c v v1 v2 : recached i c0 c v v1 → files_ok v1 → still v1 v2 → recached i c0 c v v2.
Proof.
  intros Hr H Hs. destruct (still_ok v1 v2 H Hs) as [_ Hd]. destruct Hs as (d & -> & _).
  eapply recached_step; [done|done| |intros; apply Hd]. intros q. destruct (objs v1 !! q) eqn:E; cbn; rewrite E; by constructor.
Qed.

(** The times of the last use change. *)
Lemma recached_body i c0 c v v1 l n : recached i c0 c v v1 → (∀ j, ca_body <$> l !! j = ca_body <$> cache v1 !! j) →
  recached i c0 c v (set_cache_last_use n (set_cache l v1)).
Proof.
  intros [R1 R2 R3 R4 R5] Hl. split; [done| | |done|done].
  - rewrite <- R2. cbn. apply (Nat.le_antisymm (length l) (length (cache v1))).
    + apply Nat.nlt_ge. intros Hlt. destruct (lookup_lt_is_Some_2 l (length (cache v1)) Hlt) as [x Hx].
      specialize (Hl (length (cache v1))). rewrite Hx, (lookup_ge_None_2 (cache v1)) in Hl by done. done.
    + apply Nat.nlt_ge. intros Hlt. destruct (lookup_lt_is_Some_2 (cache v1) (length l) Hlt) as [x Hx].
      specialize (Hl (length l)). rewrite Hx, (lookup_ge_None_2 l) in Hl by done. done.
  - intros j. cbn. by rewrite Hl.
Qed.

Lemma ends_cache_of i c0 c v v1 (Q : yaffs_cache → yaffs_vol F K → Prop) : recached i c0 c v v1 →
  (∀ x, cache v1 !! i = Some x → ca_body c = ca_body x → Q x v1) → ends (cache_of i) v1 Q.
Proof.
  intros Hr HQ. destruct (recached_self _ _ _ _ _ Hr) as (x & Hx & Hb).
  unfold cache_of. apply ends_bind, ends_get. rewrite Hx. by apply ends_ret, HQ.
Qed.

(** [f] does not read the time of the last use. *)
Definition untimed (f : yaffs_cache → yaffs_cache) : Prop := ∀ x, ca_body (f x) = ca_body (f (ca_body x)).

Lemma ends_upd_cache i c0 c f v v1 (Q : () → yaffs_vol F K → Prop) : recached i c0 c v v1 → untimed f →
  (∀ v2, recached i c0 (f c) v v2 → core v1 v2 → Q () v2) → ends (upd_cache i f) v1 Q.
Proof.
  intros Hr Hf HQ. unfold upd_cache. apply ends_bind. eapply ends_cache_of; [exact Hr|]. intros x Hx Hb. apply ends_modify, HQ; [|done].
  destruct Hr as [R1 R2 R3 R4 R5]. split; [done| | |done|done]; cbn [cache set_cache].
  - by rewrite length_insert.
  - intros j. destruct (decide (j = i)) as [->|Hne].
    + rewrite list_lookup_insert_eq by (eapply lookup_lt_Some, Hx). cbn. by rewrite Hf, <- Hb, <- Hf.
    + rewrite list_lookup_insert_ne by done. by rewrite R3, decide_False.
Qed.

Lemma ends_use_cache i (w : bool) c0 c v v1 (Q : () → yaffs_vol F K → Prop) : cache_ok v → recached i c0 c v v1 →
  (∀ v2, recached i c0 (if w then set_ca_dirty true c else c) v v2 → core v1 v2 → Q () v2) → ends (yaffs_use_cache i w) v1 Q.
Proof.
  intros Hok Hr HQ. unfold yaffs_use_cache. pose proof (lookup_lt_Some _ _ _ (rc_old _ _ _ _ _ Hr)) as Hi. rewrite (co_len _ Hok) in Hi.
  rewrite (proj2 (Nat.ltb_ge _ 1)) by lia. apply ends_bind, ends_get.
  assert (∀ n (l : list yaffs_cache), (∀ j, ca_body <$> l !! j = ca_body <$> cache v1 !! j) →
    ends (modify (λ v : yaffs_vol F K, set_cache_last_use (cache_last_use v + 1) v);;
          v ← (get : M _); upd_cache i (set_ca_last_use (cache_last_use v));; when w (upd_cache i (set_ca_dirty true)))
      (set_cache_last_use n (set_cache l v1)) Q) as Hend.
  { intros n l Hl. apply ends_bind, ends_modify, ends_bind, ends_get, ends_bind. cbn [cache_last_use set_cache_last_use].
    change (set_cache_last_use (n + 1) (set_cache_last_use n (set_cache l v1))) with (set_cache_last_use (n + 1) (set_cache l v1)).
    eapply ends_upd_cache; [eapply recached_body; [exact Hr|exact Hl]|done|]. intros v2 Hr2 Hc2.
    assert (recached i c0 c v v2) as Hr2' by (destruct Hr2 as [R1 R2 R3 R4 R5]; split; [done|done| |done|done]; intros j; rewrite R3; by destruct (decide (j = i))).
    apply ends_when; intros ->; [|by apply HQ].
    eapply ends_upd_cache; [exact Hr2'|done|]. intros v3 Hr3 Hc3. apply HQ; [done|]. exact (transitivity Hc2 Hc3). }
  apply ends_bind, ends_when; intros _.
  - apply ends_bind, ends_modify, ends_modify. apply Hend. intros j. rewrite list_lookup_imap, <- option_fmap_compose.
    destruct (cache v1 !! j); [|done]. cbn. by destruct (decide _).
  - destruct v1. by apply (Hend _ _ (λ j, eq_refl)).
Qed.

(** ** What the operations of the cache do to the data *)

Record cached (n : nat) v : Prop := mk_cached {
  ch_files : files_ok v;
  ch_cache : cache_ok v;
  ch_budget : budget n v
}.

(** The chunk [id] of the object at [p] has the data [l], all other data is kept. *)
Definition settled v v' : Prop := objs_like v v' ∧ ∀ q id, q ≠ 0 → view v' q id = view v q id.
Definition changed (p id : Z) (l : list Z) v v' : Prop :=
  objs_like v v' ∧ ∀ q id', q ≠ 0 → view v' q id' = if decide (q = p ∧ id' = id) then l else view v q id'.

#[export] Instance settled_preorder : PreOrder settled.
Proof.
  split; [done|]. intros v1 v2 v3 [O1 V1] [O2 V2]. split; [by etrans|]. intros q id Hq. by rewrite V2, V1.
Qed.

Lemma cached_le n n' v : (n' ≤ n)%nat → cached n v → cached n' v.
Proof. intros Hle [H1 H2 H3]. split; [done|done|by eapply budget_le]. Qed.

Lemma file_not_null v p : files_ok v → file_at v p → p ≠ 0.
Proof. intros H (o & Hp & _) ->. by rewrite (fo_null _ H) in Hp. Qed.

Lemma still_cached n v v' : cached n v → still v v' → cached n v' ∧ settled v v' ∧ cache v' = cache v.
Proof.
  intros [H1 H2 H3] Hs. destruct (still_ok v v' H1 Hs) as [H1' Hd]. pose proof (budget_still n v v' Hs H3) as H3'.
  destruct Hs as (d & -> & _). assert (objs_like v (with_dev d v)) as Ho by (change (objs_like v v); done).
  split; [split; [done| |done]|split; [|done]].
  - destruct H2 as [C1 C2 C3]. split; [done| |done]. intros i c Hc. eapply entry_ok_body; [reflexivity|done| |by eapply C2]. intros _. apply Hd.
  - split; [done|]. intros q id _. unfold view. by rewrite Hd.
Qed.

(** No element is for the chunk [id] of the object at [p]. *)
Definition uncached v (p id : Z) : Prop := ∀ j c, cache v !! j = Some c → ¬ is_for p id c.

Lemma uncached_view v p id : uncached v p id → view v p id = disk v p id.
Proof using Type. intros H. destruct (view_spec v p id) as [(j & c & Hc & Hf & _)|[_ ->]]; [by destruct (H j c Hc)|done]. Qed.

Lemma recached_uncached i c0 c v v' p id : recached i c0 c v v' → ¬ is_for p id c → uncached v p id → uncached v' p id.
Proof.
  intros Hr Hc H j x Hx [F1 F2]. destruct (recached_lookup _ _ _ _ _ j x Hr Hx) as (y & Hy & Hb).
  destruct (body_inv _ _ Hb) as (E1 & E2 & _). destruct (decide (j = i)); [apply (inj Some) in Hy as <-|apply (H j y Hy)].
  - apply Hc. split; congruence.
  - split; congruence.
Qed.

Lemma caches_all v : cache_ok v → caches v = cache v.
Proof using Type. intros H. unfold caches. apply take_ge. by rewrite (co_len _ H). Qed.

(** An element for the same chunk, or for none. *)
Lemma rekeyed n i c0 c v v' : cache_ok v → recached i c0 c v v' → files_ok v' → budget n v' → entry_ok v' c →
  (ca_object c ≠ 0 → is_for (ca_object c) (ca_chunk_id c) c0) → cached n v'.
Proof.
  intros Hok Hr Hf Hb He Hk. split; [done| |done]. eapply recached_ok; [exact Hok|exact Hr|done|].
  intros Hne j x Hji Hx Hfx. apply Hji. destruct (Hk Hne) as [K1 K2]. symmetry.
  eapply (co_uniq _ Hok i j c0 x); [apply Hr|done|congruence|]. by rewrite K1, K2.
Qed.

(** The element is for the same chunk, with the same data. *)
Lemma same_data n i c0 c v v' : cache_ok v → recached i c0 c v v' → files_ok v' → budget n v' → entry_ok v' c →
  is_for (ca_object c) (ca_chunk_id c) c0 → ca_data c = ca_data c0 → cached n v' ∧ settled v v'.
Proof.
  intros Hok Hr Hf Hb He Hk Hd. assert (cached n v') as Hch by (by eapply rekeyed). split; [done|]. split; [apply Hr|]. intros q id Hq.
  rewrite (recached_view _ _ _ _ _ Hok (ch_cache _ _ Hch) Hr q id Hq). destruct Hk as [K1 K2].
  destruct (decide (is_for q id c)) as [[F1 F2]|Fn]; [|rewrite decide_False; [done|intros [F1 F2]; apply Fn; split; congruence]].
  rewrite Hd, <- (view_hit v i c0); [congruence|done|apply Hr|congruence].
Qed.

(** *** Writing an element to the flash *)

Lemma flush_single_run n v i c0 discard : cached (S n) v → cache v !! i = Some c0 → ca_object c0 ≠ 0 →
  ends (yaffs_flush_single_cache tp fuel u i discard) v (λ _ v', cached n v' ∧ settled v v' ∧
    ∃ c, recached i c0 c v v' ∧ ca_dirty c = false ∧ ca_object c = (if discard then 0 else ca_object c0) ∧ ca_chunk_id c = ca_chunk_id c0).
Proof.
  intros [H Hok Hb] Hc0 Hne. destruct (co_entry _ Hok i c0 Hc0) as (Hl & Hlen & Hent). destruct (Hent Hne) as (Hp & Hid & Hdat).
  unfold yaffs_flush_single_cache. eapply ends_bind, ends_cache_of; [by apply recached_refl|]. intros x Hx _.
  assert (x = c0) as -> by congruence. clear Hx. rewrite Hl.
  eapply (ends_seq _ _ _ (λ _ v1, ∃ c, recached i c0 c v v1 ∧ files_ok v1 ∧ budget n v1 ∧ c = set_ca_dirty false c0 ∧
    ca_data c0 = disk v1 (ca_object c0) (ca_chunk_id c0))).
  { apply ends_when; intros Hd; rewrite Hd in Hdat.
    - eapply ends_seq; [apply (wr_data_obj_run n v); [done|done|done|done|done|exact Hb]|].
      intros r v1 (H1 & Ho1 & B1 & Hb1 & [[_ W]|(_ & [=] & _)]).
      assert (recached i c0 c0 v v1) as Hr1.
      { eapply recached_step; [by apply recached_refl|apply B1|done|]. intros q id Hf. rewrite W, decide_False; [done|].
        intros [-> ->]. by apply Hf. }
      eapply ends_upd_cache; [exact Hr1|done|]. intros v2 Hr2 Hc2. exists (set_ca_dirty false c0). split; [done|].
      split; [by eapply core_ok|]. split; [by eapply core_budget|]. split; [done|]. rewrite (core_disk _ _ Hc2), W. by rewrite decide_True.
    - exists c0. split; [by apply recached_refl|]. split; [done|]. split; [eapply budget_le; [|exact Hb]; lia|]. split; [|done].
      destruct c0. cbn in Hd. by rewrite Hd. }
  intros _ v1 (c & Hr1 & H1 & Hb1 & -> & Hd1).
  assert (∀ c v2, recached i c0 c v v2 → core v1 v2 → entry_ok v2 c → ca_object c = (if discard then 0 else ca_object c0) →
    ca_chunk_id c = ca_chunk_id c0 → ca_data c = ca_data c0 → cached n v2 ∧ settled v v2) as Hend.
  { intros c v2 Hr2 Hc2 He Eo Ei Ed. assert (cached n v2) as Hch.
    { eapply rekeyed; [exact Hok|exact Hr2|by eapply core_ok|by eapply core_budget|done|]. rewrite Eo, Ei. by destruct discard. }
    split; [done|]. split; [apply Hr2|]. intros q id Hq. rewrite (recached_view _ _ _ _ _ Hok (ch_cache _ _ Hch) Hr2 q id Hq).
    destruct (decide (is_for q id c)) as [[F1 F2]|_].
    - destruct discard; [congruence|]. rewrite Ed, <- (view_hit v i c0) by done. congruence.
    - destruct (decide (is_for q id c0)) as [[<- <-]|]; [|done].
      rewrite (core_disk _ _ Hc2), <- Hd1. symmetry. by apply (view_hit v i). }
  assert (file_at v1 (ca_object c0)) as Hp1 by (by eapply objs_like_file; [apply Hr1|]).
  apply ends_when; intros Hdc; rewrite Hdc in *.
  - eapply ends_upd_cache; [exact Hr1|done|]. intros v2 Hr2 Hc2.
    destruct (Hend _ v2 Hr2 Hc2) as [E1 E2]; [by split|done|done|done|]. split; [done|]. split; [done|]. eexists. by split.
  - destruct (Hend _ v1 Hr1 (reflexivity _)) as [E1 E2]; [split; [done|]; split; [done|]; done|done|done|done|].
    split; [done|]. split; [done|]. eexists. by split.
Qed.

(** The elements before [i] have no data of the object at [p] that the flash does not have; with
    [discard] none at all. *)
Definition flushed (i : nat) (p : Z) (discard : bool) v : Prop :=
  ∀ j c, (j < i)%nat → cache v !! j = Some c → ca_object c = p → discard = false ∧ ca_dirty c = false.

Lemma flushed_recached i c0 c p discard v v' : recached i c0 c v v' → flushed i p discard v →
  (ca_object c = p → discard = false ∧ ca_dirty c = false) → flushed (S i) p discard v'.
Proof.
  intros Hr Hf Hc j x Hj Hx Hp. destruct (recached_lookup _ _ _ _ _ j x Hr Hx) as (y & Hy & Hb).
  destruct (body_inv _ _ Hb) as (E1 & _ & E3 & _). rewrite E1 in Hp. rewrite E3.
  destruct (decide (j = i)); [apply (inj Some) in Hy as <-; by apply Hc|]. eapply (Hf j y); [lia|done|done].
Qed.

Lemma flush_file_loop_run n p discard : p ≠ 0 → ∀ k i v, cached (k + n) v → (i + k = n_caches)%nat → flushed i p discard v →
  ends (flush_file_loop tp fuel u k i p discard) v (λ _ v', cached n v' ∧ settled v v' ∧ flushed n_caches p discard v').
Proof.
  intros Hp0. induction k as [|k IH]; intros i v Hch Hik Hfl; cbn [flush_file_loop].
  - apply ends_ret. split; [done|]. split; [done|]. replace n_caches with i by lia. done.
  - destruct (lookup_lt_is_Some_2 (cache v) i) as [c Hc]; [rewrite (co_len _ (ch_cache _ _ Hch)); lia|].
    apply ends_bind. eapply ends_cache_of; [by apply recached_refl|]. intros x Hx _. assert (x = c) as -> by congruence. clear Hx.
    eapply (ends_seq _ _ _ (λ _ v1, cached (k + n) v1 ∧ settled v v1 ∧ flushed (S i) p discard v1)).
    + apply ends_when; intros Ho.
      * apply Z.eqb_eq in Ho. eapply ends_mono; [apply (flush_single_run (k + n) v i c discard Hch Hc); congruence|].
        intros _ v1 (H1 & S1 & c1 & Hr & Hd & Ec & _). split; [done|]. split; [done|].
        eapply flushed_recached; [exact Hr|done|]. intros E. split; [|done]. destruct discard; [congruence|done].
      * apply Z.eqb_neq in Ho. split; [eapply cached_le; [|exact Hch]; lia|]. split; [done|].
        intros j x Hj Hx Hxp. destruct (decide (j = i)) as [->|]; [congruence|]. eapply (Hfl j x); [lia|done|done].
    + intros _ v1 (H1 & S1 & F1). eapply ends_mono; [apply (IH (S i) v1 H1); [lia|done]|].
      intros _ v2 (H2 & S2 & F2). split; [done|]. split; [by etrans|done].
Qed.

Lemma flush_file_run n v p discard : cached (n_caches + n) v → p ≠ 0 →
  ends (yaffs_flush_file_cache tp fuel u p discard) v (λ _ v', cached n v' ∧ settled v v' ∧ flushed n_caches p discard v').
Proof. intros H Hp. apply flush_file_loop_run; [done|done|done|]. intros j c Hj. lia. Qed.

(** After the flush the flash has all data of the file. *)
Lemma flushed_disk v p discard id : cache_ok v → p ≠ 0 → flushed n_caches p discard v → disk v p id = view v p id.
Proof.
  intros H Hp Hf. destruct (view_spec v p id) as [(i & c & Hc & [E1 E2] & ->)|[_ ->]]; [|done].
  destruct (Hf i c) as [_ Hd]; [rewrite <- (co_len _ H); by eapply lookup_lt_Some|done|done|].
  destruct (co_entry _ H i c Hc) as (_ & _ & He). destruct He as (_ & _ & He); [congruence|]. rewrite Hd in He. by rewrite He, E1, E2.
Qed.

(** *** A free element *)

Lemma oldest_cache_Some l i usage found r : oldest_cache l i usage found = Some r →
  (∃ j c, r = (i + j)%nat ∧ l !! j = Some c ∧ ca_object c ≠ 0) ∨ found = Some r.
Proof.
  revert i usage found. induction l as [|c l IH]; intros i usage found; cbn [oldest_cache]; [by right|].
  assert (∀ usage', oldest_cache l (S i) usage' found = Some r → (∃ j c', r = (i + j)%nat ∧ (c :: l) !! j = Some c' ∧ ca_object c' ≠ 0) ∨ found = Some r) as Hskip.
  { intros usage' H. destruct (IH _ _ _ H) as [(j & c' & -> & Hj & Hne)|]; [left|by right]. exists (S j), c'. split; [lia|done]. }
  destruct (negb (ca_object c =? 0) && negb (ca_locked c) && _) eqn:E; [|apply Hskip].
  intros H. destruct (IH _ _ _ H) as [(j & c' & -> & Hj & Hne)|[= <-]]; left.
  - exists (S j), c'. split; [lia|done].
  - exists 0%nat, c. split; [lia|]. split; [done|]. apply andb_true_iff in E as [[E%negb_true_iff _]%andb_true_iff _]. by apply Z.eqb_neq.
Qed.

Lemma oldest_cache_found l i usage r : is_Some (oldest_cache l i usage (Some r)).
Proof. revert i usage r. induction l as [|c l IH]; intros i usage r; cbn [oldest_cache]; [by eexists|]. destruct (_ && _); apply IH. Qed.

Lemma oldest_cache_any v : cache_ok v → (0 < n_caches)%nat → (∀ i c, cache v !! i = Some c → ca_object c ≠ 0) →
  is_Some (oldest_cache (cache v) 0 (-1) None).
Proof.
  intros H Hn Hne. destruct (cache v) as [|c l] eqn:E.
  - pose proof (co_len _ H) as Hl. rewrite E in Hl. cbn in Hl. lia.
  - cbn [oldest_cache]. pose proof (Hne 0%nat c eq_refl) as Hc. destruct (co_entry _ H 0%nat c) as (Hlk & _); [by rewrite E|].
    rewrite Hlk, (proj2 (Z.eqb_neq _ _) Hc), (bool_decide_true (None = None)), orb_true_r by done. cbn. apply oldest_cache_found.
Qed.

Lemma grab_run n v : cached (S n) v → (0 < n_caches)%nat →
  ends (yaffs_grab_chunk_cache tp fuel u) v (λ r v', cached n v' ∧ settled v v' ∧
    (∀ p id, p ≠ 0 → uncached v p id → uncached v' p id) ∧ ∃ i c, r = Some i ∧ cache v' !! i = Some c ∧ ca_object c = 0).
Proof.
  intros Hch Hn. pose proof (ch_cache _ _ Hch) as Hok. unfold yaffs_grab_chunk_cache. rewrite (proj2 (Nat.ltb_ge _ 1)) by lia.
  unfold yaffs_grab_chunk_worker. apply ends_bind, ends_bind, ends_get, ends_ret. rewrite caches_all by done.
  destruct (first_cache (λ c, ca_object c =? 0) (cache v)) as [i|] eqn:E.
  - destruct (first_cache_Some _ _ _ E) as (c & Hc & H0%Z.eqb_eq). apply ends_ret. split; [eapply cached_le; [|exact Hch]; lia|].
    split; [done|]. split; [done|]. by exists i, c.
  - assert (∀ i c, cache v !! i = Some c → ca_object c ≠ 0) as Hne by (intros i c Hc; by apply Z.eqb_neq, (first_cache_None _ _ E i c)).
    apply ends_bind, ends_get. rewrite caches_all by done. destruct (oldest_cache_any v Hok Hn Hne) as [i Hi]. rewrite Hi.
    destruct (oldest_cache_Some _ _ _ _ _ Hi) as [(j & c & -> & Hc & Hc0)|[=]].
    eapply ends_seq; [apply (flush_single_run n v j c true Hch Hc Hc0)|]. intros _ v1 (H1 & S1 & c1 & Hr & _ & E0 & _).
    apply ends_ret. split; [done|]. split; [done|]. split.
    + intros p id Hp. apply (recached_uncached _ _ _ _ _ p id Hr). intros [F1 _]. congruence.
    + destruct (recached_self _ _ _ _ _ Hr) as (x & Hx & Hb). exists j, x. split; [done|]. split; [done|].
      destruct (body_inv _ _ Hb) as (B & _). congruence.
Qed.

(** *** The element for a chunk *)

(** What the space in the device depends on. *)
Definition room d : yaffs_blocks * Z * Z * Z * Z := (blocks d, checkpoint_blocks_required d, blocks_in_checkpt d, n_obj d, n_tnodes d).

(** What [yaffs_find_chunk_cache] answers. *)
Definition hit v (p chunk : Z) (r : option nat) : Prop :=
  match r with Some i => ∃ c, cache v !! i = Some c ∧ is_for p chunk c | None => uncached v p chunk end.

Lemma find_chunk_cache_run v p chunk : length (cache v) = n_caches →
  ends (yaffs_find_chunk_cache p chunk) v (λ r v', still v v' ∧ room (dev_of v') = room (dev_of v) ∧ hit v p chunk r).
Proof.
  intros Hlen. unfold yaffs_find_chunk_cache. destruct (Nat.ltb_spec0 (@n_caches F fc) 1) as [Hn|Hn].
  - apply ends_ret. split; [done|]. split; [done|]. intros j c Hc. apply lookup_lt_Some in Hc. lia.
  - apply ends_bind, ends_get. unfold caches. rewrite take_ge by lia. destruct (first_cache _ (cache v)) as [i|] eqn:E.
    + destruct (first_cache_Some _ _ _ E) as (c & Hc & [F1%Z.eqb_eq F2%Z.eqb_eq]%andb_true_iff).
      eapply (ends_seq _ _ _ (λ _ v1, still v v1 ∧ room (dev_of v1) = room (dev_of v))).
      { apply ends_in_dev, ends_modify. split; [eexists; split; [done|by split]|done]. }
      intros _ v1 [Hs Hroom]. apply ends_ret. split; [done|]. split; [done|]. by exists c.
    + apply ends_ret. split; [done|]. split; [done|]. intros j c Hc [F1 F2].
      pose proof (first_cache_None _ _ E j c Hc) as Hf. cbn in Hf. by rewrite F1, F2, !Z.eqb_refl in Hf.
Qed.

Lemma load_cache_run n v i c0 p chunk : cached n v → cache v !! i = Some c0 → ca_object c0 = 0 → file_at v p →
  1 ≤ chunk ≤ YAFFS_MAX_CHUNK_ID → uncached v p chunk →
  ends (load_cache tp u i p chunk) v (λ _ v', cached n v' ∧ settled v v' ∧
    ∃ c, cache v' !! i = Some c ∧ is_for p chunk c ∧ ca_dirty c = false).
Proof.
  intros [H Hok Hb] Hc0 H0 Hp Hid Hun. destruct (co_entry _ Hok i c0 Hc0) as (Hl & Hlen & _).
  unfold load_cache. apply ends_bind. eapply ends_upd_cache; [by apply recached_refl|done|]. intros v1 Hr1 Hc1.
  apply ends_bind. eapply ends_cache_of; [exact Hr1|]. intros x _ Hx. destruct (body_inv _ _ (eq_sym Hx)) as (_ & _ & _ & _ & _ & ->).
  cbn [ca_data]. assert (files_ok v1) as H1 by (by eapply core_ok). assert (file_at v1 p) as Hp1 by (eapply objs_like_file; [by apply core_objs|done]).
  eapply ends_seq; [apply (rd_data_obj_run v1 p chunk (ca_data c0)); [done|done|lia|lia]|]. intros r v2 [Hr Hs].
  rewrite drop_ge, app_nil_r in Hr by lia.
  pose proof (recached_still _ _ _ _ _ _ Hr1 H1 Hs) as Hr2. destruct (still_ok v1 v2 H1 Hs) as [H2 Hd2].
  eapply ends_upd_cache; [exact Hr2|done|]. intros v3 Hr3 Hc3. rewrite Hr in Hr3.
  set (c3 := set_ca_data _ _) in Hr3.
  assert (∀ q id, disk v3 q id = disk v q id) as Hd3 by (intros; by rewrite (core_disk _ _ Hc3), Hd2, (core_disk _ _ Hc1)).
  assert (disk v1 p chunk = disk v p chunk) as Hd1 by apply (core_disk _ _ Hc1).
  assert (entry_ok v3 c3) as He.
  { split; [done|]. split; [cbn; eapply held_data_length, fo_held; exact H1|]. intros _. cbn. split; [by eapply objs_like_file; [apply Hr3|]|].
    split; [done|]. by rewrite Hd3. }
  assert (cached n v3) as Hch3.
  { split; [by eapply core_ok| |].
    - eapply recached_ok; [exact Hok|exact Hr3|done|]. intros _ j y _ Hy. exact (Hun j y Hy).
    - eapply core_budget; [done|]. eapply budget_still; [done|]. by eapply core_budget. }
  split; [done|]. split; [split; [apply Hr3|]|].
  - intros q id Hq. rewrite (recached_view _ _ _ _ _ Hok (ch_cache _ _ Hch3) Hr3 q id Hq). destruct (decide (is_for q id c3)) as [[<- <-]|].
    + cbn. rewrite Hd1. symmetry. by apply uncached_view.
    + rewrite decide_False; [done|]. intros [E _]. congruence.
  - destruct (recached_self _ _ _ _ _ Hr3) as (y & Hy & Hb3). exists y. split; [done|].
    destruct (body_inv _ _ Hb3) as (E1 & E2 & E3 & _). rewrite <- E3. split; [|done]. split; [by rewrite <- E1|by rewrite <- E2].
Qed.

(** An element is found or loaded. *)
Lemma cache_in_run n v p chunk : cached (S n) v → (0 < n_caches)%nat → file_at v p → 1 ≤ chunk ≤ YAFFS_MAX_CHUNK_ID → uncached v p chunk →
  ends (c ← yaffs_grab_chunk_cache tp fuel u; i ← defined c; load_cache tp u i p chunk;; mret (Some i)) v (λ r v', cached n v' ∧ settled v v' ∧
    ∃ i c, r = Some i ∧ cache v' !! i = Some c ∧ is_for p chunk c).
Proof.
  intros Hch Hn Hp Hid Hun. eapply ends_seq; [by apply (grab_run n v)|]. intros r v1 (H1 & S1 & U1 & i & c & -> & Hc & H0).
  apply ends_bind, ends_ret. eapply ends_seq; [apply (load_cache_run n v1 i c p chunk); [done|done|done| |done|]|].
  - eapply objs_like_file; [apply S1|done].
  - apply U1; [|done]. by eapply file_not_null; [apply Hch|].
  - intros _ v2 (H2 & S2 & c2 & Hc2 & Hf & _). apply ends_ret. split; [done|]. split; [by etrans|]. by exists i, c2.
Qed.

(** *** Reading a part of a chunk *)

Lemma slice_Some l off n : 0 ≤ off → 0 ≤ n → off + n ≤ zlen l → slice l off n = Some (take (Z.to_nat n) (drop (Z.to_nat off) l)).
Proof. intros H1 H2 H3. unfold slice. by rewrite !(proj2 (Z.leb_le _ _)) by lia. Qed.

Definition part (l : list Z) (off n : Z) : list Z := take (Z.to_nat n) (drop (Z.to_nat off) l).

(** The element [i] has the chunk: its data is copied. *)
Lemma copy_out_run n v i c0 p chunk start len : cached n v → cache v !! i = Some c0 → is_for p chunk c0 → p ≠ 0 → 0 ≤ start → 0 ≤ len →
  start + len ≤ data_bytes_per_chunk →
  ends (yaffs_use_cache i false;; upd_cache i (set_ca_locked true);; c ← cache_of i; upd_cache i (set_ca_locked false);;
        defined (slice (ca_data c) start len)) v (λ l v', cached n v' ∧ settled v v' ∧ l = part (view v p chunk) start len).
Proof.
  intros [H Hok Hb] Hc0 [Ep Ec] Hp H1 H2 H3. subst p chunk. destruct (co_entry _ Hok i c0 Hc0) as (Hl & Hlen & Hent).
  apply ends_bind. eapply ends_use_cache; [exact Hok|by apply recached_refl|]. intros v1 Hr1 Hc1.
  apply ends_bind. eapply ends_upd_cache; [exact Hr1|done|]. intros v2 Hr2 Hc2.
  apply ends_bind. eapply ends_cache_of; [exact Hr2|]. intros x _ Hx. destruct (body_inv _ _ (eq_sym Hx)) as (_ & _ & _ & _ & _ & ->).
  apply ends_bind. eapply ends_upd_cache; [exact Hr2|done|]. intros v3 Hr3 Hc3.
  assert (set_ca_locked false (set_ca_locked true c0) = c0) as Ec by (destruct c0; cbn in Hl; by subst). rewrite Ec in Hr3.
  assert (core v v3) as Hc by (etrans; [exact Hc1|]; etrans; [exact Hc2|exact Hc3]).
  destruct (same_data n i c0 c0 v v3) as [G1 G2]; [done|done|by eapply core_ok|by eapply core_budget| |by split|done|].
  { eapply (entry_ok_body v v3 c0 c0); [done|apply Hr3| |by eapply co_entry]. intros _. by apply core_disk. }
  cbn [ca_data set_ca_locked]. eapply ends_defined; [apply slice_Some; lia|]. split; [done|]. split; [done|].
  unfold part. by rewrite (view_hit v i c0).
Qed.

(** The length of a chunk that is not dirty is of no use. *)
Lemma clean_n_bytes_run n v i c k : cached n v → cache v !! i = Some c → ca_dirty c = false →
  ends (upd_cache i (set_ca_n_bytes k)) v (λ _ v', cached n v' ∧ settled v v' ∧
    ∃ x, cache v' !! i = Some x ∧ is_for (ca_object c) (ca_chunk_id c) x).
Proof.
  intros [H Hok Hb] Hc Hd. destruct (co_entry _ Hok i c Hc) as (Hl & Hlen & Hent).
  eapply ends_upd_cache; [by apply recached_refl|done|]. intros v1 Hr1 Hc1.
  destruct (same_data n i c (set_ca_n_bytes k c) v v1) as [G1 G2]; [done|done|by eapply core_ok|by eapply core_budget| |by split|done|].
  { split; [done|]. split; [done|]. intros Hne. destruct (Hent Hne) as (E1 & E2 & E3). cbn in *. rewrite Hd in *.
    split; [by eapply objs_like_file; [apply Hr1|]|]. split; [done|]. by rewrite (core_disk _ _ Hc1). }
  split; [done|]. split; [done|]. destruct (recached_self _ _ _ _ _ Hr1) as (x & Hx & Hbx). exists x. split; [done|].
  destruct (body_inv _ _ Hbx) as (B1 & B2 & _). split; symmetry; [exact B1|exact B2].
Qed.

Lemma read_through_cache_run n v c p chunk start len : cached (S n) v → (0 < n_caches)%nat → file_at v p → 1 ≤ chunk ≤ YAFFS_MAX_CHUNK_ID →
  hit v p chunk c → 0 ≤ start → 0 ≤ len → start + len ≤ data_bytes_per_chunk →
  ends (read_through_cache tp fuel u c p chunk start len) v (λ l v', cached n v' ∧ settled v v' ∧ l = part (view v p chunk) start len).
Proof.
  intros Hch Hn Hp Hid Hhit H1 H2 H3. pose proof (file_not_null v p (ch_files _ _ Hch) Hp) as Hp0. unfold read_through_cache.
  eapply (ends_seq _ _ _ (λ r v1, cached n v1 ∧ settled v v1 ∧ ∃ i x, r = Some i ∧ cache v1 !! i = Some x ∧ is_for p chunk x)).
  - destruct c as [i|].
    + apply ends_ret. destruct Hhit as (x & Hx & Hf). split; [eapply cached_le; [|exact Hch]; lia|]. split; [done|]. by exists i, x.
    + eapply ends_seq; [by apply (grab_run n v)|]. intros r v1 (G1 & S1 & U1 & i & x & -> & Hc & H0). apply ends_bind, ends_ret.
      eapply ends_seq; [apply (load_cache_run n v1 i x p chunk); [done|done|done| |done|by apply U1]|].
      { eapply objs_like_file; [apply S1|done]. }
      intros _ v2 (G2 & S2 & y & Hy & [E1 E2] & Hd). eapply ends_bind, ends_mono; [apply (clean_n_bytes_run n v2 i y 0 G2 Hy Hd)|].
      intros _ v3 (G3 & S3 & z & Hz & Hfz). apply ends_ret. split; [done|]. split; [etrans; [exact S1|]; by etrans|].
      exists i, z. by rewrite <- E1, <- E2.
  - intros r v1 (G1 & S1 & i & x & -> & Hx & Hf). apply ends_bind, ends_ret. eapply ends_mono; [by apply (copy_out_run n v1 i x p chunk)|].
    intros l v2 (G2 & S2 & ->). split; [done|]. split; [by etrans|]. by rewrite (proj2 S1).
Qed.

Lemma read_through_buffer_run n v p chunk start len : cached n v → file_at v p → 1 ≤ chunk → uncached v p chunk →
  0 ≤ start → 0 ≤ len → start + len ≤ data_bytes_per_chunk →
  ends (read_through_buffer tp u p chunk start len) v (λ l v', cached n v' ∧ settled v v' ∧ l = part (view v p chunk) start len).
Proof.
  intros Hch Hp Hid Hun H1 H2 H3. unfold read_through_buffer.
  eapply ends_seq; [apply (in_dev_still _ v (λ _, True)); eapply ends_mono; [apply get_temp_run|done]|]. intros b v1 [_ Hs1].
  destruct (still_cached n v v1 Hch Hs1) as (G1 & S1 & C1).
  pose proof bo_temp as Ht.
  eapply ends_seq; [apply (rd_data_obj_run v1 p chunk temp_bytes); [apply G1|by eapply objs_like_file; [apply S1|]|lia|rewrite Ht, <- pd_data; lia]|].
  intros r v2 [Hr Hs2]. rewrite drop_ge, app_nil_r in Hr by (rewrite pd_data; lia). rewrite Hr.
  destruct (still_cached n v1 v2 G1 Hs2) as (G2 & S2 & C2).
  eapply ends_seq; [apply (in_dev_still _ v2 (λ _, True)); eapply ends_mono; [apply release_temp_run|done]|]. intros [] v3 [_ Hs3].
  destruct (still_cached n v2 v3 G2 Hs3) as (G3 & S3 & C3).
  assert (disk v1 p chunk = view v p chunk) as E.
  { rewrite (uncached_view v p chunk Hun). by apply (still_ok v v1 (ch_files _ _ Hch) Hs1). }
  eapply ends_defined; [apply slice_Some; [done|done|]|].
  - rewrite E, view_length by apply Hch. done.
  - split; [done|]. split; [etrans; [exact S1|]; etrans; [exact S2|exact S3]|]. unfold part. by rewrite E.
Qed.

(** *** Writing a part of a chunk *)

Lemma check_short_run v : ends (in_dev (yaffs_check_alloc_available 1)) v (λ ok v', still v v' ∧ (ok = false → short (dev_of v'))).
Proof.
  apply ends_in_dev. destruct (check_available_run 1 (dev_of v)) as (ok & d & E & Ha). exists ok, d. split; [done|].
  split; [by exists d|]. intros ->. left. by destruct (check_available_again _ _ _ _ E) as [d' ?]; exists d'.
Qed.

Lemma cache_for_write_run n v p chunk : cached (S n) v → (0 < n_caches)%nat → file_at v p → 1 ≤ chunk ≤ YAFFS_MAX_CHUNK_ID →
  ends (cache_for_write tp fuel u p chunk) v (λ r v', cached n v' ∧ settled v v' ∧
    match r with Some i => ∃ c, cache v' !! i = Some c ∧ is_for p chunk c | None => short (dev_of v') end).
Proof.
  intros Hch Hn Hp Hid. unfold cache_for_write.
  eapply ends_seq; [apply (find_chunk_cache_run v p chunk), Hch|]. intros r v1 (Hs1 & _ & Hh).
  destruct (still_cached (S n) v v1 Hch Hs1) as (G1 & S1 & C1).
  assert (cached n v1) as G1' by (eapply cached_le; [|exact G1]; lia).
  destruct r as [i|].
  - destruct Hh as (c & Hc & Hf). rewrite <- C1 in Hc. apply ends_bind. eapply ends_cache_of; [by apply recached_refl|].
    intros x Hx _. assert (x = c) as -> by congruence. destruct (ca_dirty c).
    + apply ends_ret. split; [done|]. split; [done|]. by exists c.
    + eapply ends_seq; [apply check_short_run|]. intros ok v2 [Hs2 Hok]. destruct (still_cached n v1 v2 G1' Hs2) as (G2 & S2 & C2).
      apply ends_ret. split; [done|]. split; [by etrans|]. destruct ok; [|by apply Hok]. exists c. by rewrite C2.
  - eapply ends_seq; [apply check_short_run|]. intros ok v2 [Hs2 Hok]. destruct (still_cached (S n) v1 v2 G1 Hs2) as (G2 & S2 & C2).
    destruct ok.
    + eapply ends_mono; [apply (cache_in_run n v2 p chunk G2 Hn); [|done|]|].
      * eapply objs_like_file; [etrans; [apply S1|apply S2]|done].
      * intros j c Hc. apply (Hh j c). congruence.
      * intros r v3 (G3 & S3 & i & c & -> & Hc & Hf). split; [done|]. split; [etrans; [exact S1|]; by etrans|]. by exists c.
    + apply ends_ret. split; [eapply cached_le; [|exact G2]; lia|]. split; [by etrans|by apply Hok].
Qed.

(** The data of a chunk with [l] from [start] on. *)
Definition pasted (data : list Z) (start : Z) (l : list Z) : list Z :=
  take (Z.to_nat start) data ++ l ++ drop (Z.to_nat start + length l) data.

Lemma overlay_pasted data start l : 0 ≤ start → start + zlen l ≤ zlen data → overlay data start l = Some (pasted data start l).
Proof. intros H1 H2. unfold overlay. by rewrite !(proj2 (Z.leb_le _ _)) by lia. Qed.

Lemma pasted_length data start l : 0 ≤ start → start + zlen l ≤ zlen data → zlen (pasted data start l) = zlen data.
Proof. intros H1 H2. unfold pasted. rewrite !length_app, length_take, length_drop. lia. Qed.

Lemma settled_changed p id l v1 v2 v3 : settled v1 v2 → changed p id l v2 v3 → changed p id l v1 v3.
Proof. intros [O1 V1] [O2 V2]. split; [by etrans|]. intros q id' Hq. rewrite V2 by done. destruct (decide _); [done|by apply V1]. Qed.

(** The bytes [l] are copied to the element [i], which is for the chunk. *)
Lemma ends_copy_in {A} n v i c0 start l nb (k : M A) (Q : A → yaffs_vol F K → Prop) : cached n v → cache v !! i = Some c0 → ca_object c0 ≠ 0 →
  0 ≤ start → start + zlen l ≤ data_bytes_per_chunk → 1 ≤ nb ≤ data_bytes_per_chunk →
  (∀ v', cached n v' → changed (ca_object c0) (ca_chunk_id c0) (pasted (ca_data c0) start l) v v' →
    (∃ c, cache v' !! i = Some c ∧ is_for (ca_object c0) (ca_chunk_id c0) c ∧ ca_dirty c = true) → ends k v' Q) →
  ends (yaffs_use_cache i true;; upd_cache i (set_ca_locked true);; c ← cache_of i; data ← defined (overlay (ca_data c) start l);
        upd_cache i (set_ca_data data);; upd_cache i (set_ca_locked false);; upd_cache i (set_ca_n_bytes nb);; k) v Q.
Proof.
  intros [H Hok Hb] Hc0 Hne H1 H2 Hnb HQ. destruct (co_entry _ Hok i c0 Hc0) as (Hl & Hlen & Hent). destruct (Hent Hne) as (Hp & Hid & _).
  apply ends_bind. eapply ends_use_cache; [exact Hok|by apply recached_refl|]. intros v1 Hr1 Hc1.
  apply ends_bind. eapply ends_upd_cache; [exact Hr1|done|]. intros v2 Hr2 Hc2.
  apply ends_bind. eapply ends_cache_of; [exact Hr2|]. intros x _ Hx. destruct (body_inv _ _ (eq_sym Hx)) as (_ & _ & _ & _ & _ & ->).
  cbn [ca_data set_ca_locked set_ca_dirty]. apply ends_bind. eapply ends_defined; [apply overlay_pasted; lia|].
  apply ends_bind. eapply ends_upd_cache; [exact Hr2|done|]. intros v3 Hr3 Hc3.
  apply ends_bind. eapply ends_upd_cache; [exact Hr3|done|]. intros v4 Hr4 Hc4.
  apply ends_bind. eapply ends_upd_cache; [exact Hr4|done|]. intros v5 Hr5 Hc5. set (data := pasted _ _ _) in *. set (c5 := set_ca_n_bytes nb _) in *.
  assert (core v v5) as Hc by (etrans; [exact Hc1|]; etrans; [exact Hc2|]; etrans; [exact Hc3|]; etrans; [exact Hc4|exact Hc5]).
  assert (cached n v5) as Hch5.
  { eapply rekeyed; [exact Hok|exact Hr5|by eapply core_ok|by eapply core_budget| |by split].
    split; [done|]. split; [cbn; unfold data; by rewrite pasted_length by lia|]. intros _. split; [by eapply objs_like_file; [apply Hr5|]|done]. }
  apply HQ; [done|split; [apply Hr5|]|].
  - intros q id Hq. rewrite (recached_view _ _ _ _ _ Hok (ch_cache _ _ Hch5) Hr5 q id Hq).
    destruct (decide (q = ca_object c0 ∧ id = ca_chunk_id c0)) as [[-> ->]|Hn]; [by rewrite decide_True|].
    rewrite !decide_False; [done| |]; intros [F1 F2]; apply Hn; by split.
  - destruct (recached_self _ _ _ _ _ Hr5) as (y & Hy & Hby). exists y. split; [done|].
    destruct (body_inv _ _ Hby) as (B1 & B2 & B3 & _). split; [split; symmetry; [exact B1|exact B2]|]. symmetry. exact B3.
Qed.

(** The element is written to the flash at once. *)
Lemma write_out_run n v i c0 p chunk : cached (S n) v → cache v !! i = Some c0 → is_for p chunk c0 → p ≠ 0 → ca_dirty c0 = true →
  ends (c ← cache_of i; chunk_written ← yaffs_wr_data_obj tp fuel u (ca_object c) (ca_chunk_id c) (ca_data c) (ca_n_bytes c) true;
        upd_cache i (set_ca_dirty false);; mret chunk_written) v (λ r v', 0 ≤ r ∧ cached n v' ∧ settled v v').
Proof.
  intros [H Hok Hb] Hc0 [<- <-] Hne Hdirty. destruct (co_entry _ Hok i c0 Hc0) as (Hl & Hlen & Hent). destruct (Hent Hne) as (Hp & Hid & Hnb).
  rewrite Hdirty in Hnb. apply ends_bind. eapply ends_cache_of; [by apply recached_refl|]. intros x Hx _. assert (x = c0) as -> by congruence.
  eapply ends_seq; [apply (wr_data_obj_run n v); [done|done|done|done|done|exact Hb]|].
  intros r v1 (H1 & Ho1 & B1 & Hb1 & [[Hr W]|(_ & [=] & _)]).
  assert (recached i c0 c0 v v1) as Hr1.
  { eapply recached_step; [by apply recached_refl|apply B1|done|]. intros q id Hf. rewrite W, decide_False; [done|]. intros [-> ->]. by apply Hf. }
  apply ends_bind. eapply ends_upd_cache; [exact Hr1|done|]. intros v2 Hr2 Hc2. apply ends_ret. split; [lia|].
  apply (same_data n i c0 (set_ca_dirty false c0)); [done|done|by eapply core_ok|by eapply core_budget| |by split|done].
  split; [done|]. split; [done|]. intros _. split; [by eapply objs_like_file; [apply Hr2|]|]. split; [done|].
  cbn. rewrite (core_disk _ _ Hc2), W. by rewrite decide_True.
Qed.

(** *** The write of a part of a chunk *)

Lemma room_short d d' : room d' = room d → short d → short d'.
Proof.
  unfold room. intros E [[d1 Hd]|[Ha Hn]]; [left|right; by (injection E as -> _ _ _ _)]. revert Hd.
  unfold yaffs_check_alloc_available, yaffs_calc_checkpt_blocks_required. injection E as E1 E2 E3 E4 E5.
  destruct (negb is_yaffs2); prog_simpl; rewrite ?E1, ?E2, ?E4, ?E5; [intros [= -> _]; by eexists|].
  destruct (checkpoint_blocks_required d =? 0), yaffs2_checkpt_required; cbn [andb when]; prog_simpl;
    cbn [checkpoint_blocks_required set_checkpoint_blocks_required blocks_in_checkpt blocks]; rewrite ?E1, ?E2, ?E3; intros [= -> _]; by eexists.
Qed.

Lemma release_temp_room buf : within (λ d d', room d' = room d) (yaffs_release_temp_buffer (F := F) buf).
Proof.
  assert (PreOrder (λ d d' : yaffs_dev F, room d' = room d)) as Hpre by (split; [done|intros ?????; congruence]).
  unfold yaffs_release_temp_buffer, upd_temp. repeat within_step; done.
Qed.


Lemma release_temp_short buf v : ends (in_dev (yaffs_release_temp_buffer buf)) v (λ _ v', still v v' ∧ (short (dev_of v) → short (dev_of v'))).
Proof.
  apply ends_in_dev. eapply ends_mono; [apply (ends_within (λ d d', room d' = room d)); [apply release_temp_room|apply release_temp_run]|].
  intros x d [Ha Hr]. split; [by exists d|]. by apply room_short.
Qed.

(** The chunk has the bytes, or the device is short of space and the chunk is as it was; a chunk that
    is written [around] the cache may then also be the one in the flash. *)
Definition written_or_short (around : bool) (p chunk start : Z) (l : list Z) v (r : Z) v' : Prop :=
  (0 ≤ r ∧ changed p chunk (pasted (view v p chunk) start l) v v') ∨
  (r = -1 ∧ short (dev_of v') ∧ ∃ l', changed p chunk l' v v' ∧ (around = false → l' = view v p chunk)).

Lemma changed_settled p id l v1 v2 v3 : changed p id l v1 v2 → settled v2 v3 → changed p id l v1 v3.
Proof. intros [O1 V1] [O2 V2]. split; [by etrans|]. intros q id' Hq. by rewrite V2, V1. Qed.

Lemma settled_same p id v v' : settled v v' → changed p id (view v p id) v v'.
Proof. intros [O V]. split; [done|]. intros q id' Hq. rewrite V by done. by destruct (decide _) as [[-> ->]|]. Qed.

Lemma write_through_cache_run n v p chunk start l nb cw wt : cached (2 + n) v → (0 < n_caches)%nat → file_at v p → 1 ≤ chunk ≤ YAFFS_MAX_CHUNK_ID →
  0 ≤ start → start + zlen l ≤ data_bytes_per_chunk → 1 ≤ nb ≤ data_bytes_per_chunk → 0 ≤ cw →
  ends (write_through_cache tp fuel u p chunk start l nb cw wt) v (λ r v', cached n v' ∧ written_or_short false p chunk start l v r v').
Proof.
  intros Hch Hn Hp Hid H1 H2 Hnb Hcw. pose proof (file_not_null v p (ch_files _ _ Hch) Hp) as Hp0. unfold write_through_cache.
  eapply ends_seq; [by apply (cache_for_write_run (S n) v p chunk)|]. intros [i|] v1 (G1 & S1 & Hr).
  - destruct Hr as (c & Hc & [E1 E2]).
    assert (ca_data c = view v p chunk) as Ed by (rewrite <- (proj2 S1), <- E1, <- E2 by done; symmetry; apply (view_hit v1 i); [apply G1|done|congruence]).
    eapply (ends_copy_in (S n)); [done|exact Hc|congruence|done|done|done|]. rewrite E1, E2, Ed. intros v2 G2 C2 (y & Hy & Hf & Hd).
    pose proof (settled_changed _ _ _ _ _ _ S1 C2) as C02. destruct wt.
    + eapply ends_mono; [apply (write_out_run n v2 i y p chunk G2 Hy Hf Hp0 Hd)|]. intros r v3 (Hr & G3 & S3). split; [done|].
      left. split; [done|]. by eapply changed_settled.
    + apply ends_ret. split; [eapply cached_le; [|exact G2]; lia|]. by left.
  - apply ends_ret. split; [eapply cached_le; [|exact G1]; lia|]. right. split; [done|]. split; [done|].
    exists (view v p chunk). split; [by apply settled_same|done].
Qed.

(** A chunk that no element is for is written to the flash. *)
Lemma wrote_changed n n' v v' p id l : cached n v → uncached v p id → files_ok v' → objs_like v v' → beside v v' → budget n' v' →
  wrote p id l v v' → cached n' v' ∧ changed p id l v v' ∧ uncached v' p id.
Proof.
  intros [H [C1 C2 C3] Hb] Hun H' Ho [B1 B2] Hb' W.
  assert (uncached v' p id) as Hun' by (unfold uncached; by rewrite B1).
  assert (cache_ok v') as Hok'.
  { split; rewrite ?B1; [done| |done]. intros i c Hc. eapply (entry_ok_body v v' c c); [done|done| |by eapply C2]. intros _.
    rewrite W, decide_False; [done|]. intros [E1 E2]. by apply (Hun i c Hc). }
  split; [done|]. split; [|done]. split; [done|]. intros q id' Hq. destruct (decide (q = p ∧ id' = id)) as [[-> ->]|Hn].
  - rewrite (uncached_view v' p id Hun'), W. by rewrite decide_True.
  - unfold view. rewrite B1, W. by rewrite decide_False.
Qed.

Lemma write_through_buffer_run n v p chunk start l nb : cached (S n) v → uncached v p chunk → file_at v p → 1 ≤ chunk ≤ YAFFS_MAX_CHUNK_ID →
  0 ≤ start → start + zlen l ≤ data_bytes_per_chunk → 1 ≤ nb ≤ data_bytes_per_chunk →
  ends (write_through_buffer tp fuel u p chunk start l nb) v (λ r v', cached n v' ∧ written_or_short false p chunk start l v r v').
Proof.
  intros Hch Hun Hp Hid H1 H2 Hnb. unfold write_through_buffer.
  eapply ends_seq; [apply (in_dev_still _ v (λ _, True)); eapply ends_mono; [apply get_temp_run|done]|]. intros b v1 [_ Hs1].
  destruct (still_cached (S n) v v1 Hch Hs1) as (G1 & S1 & C1).
  pose proof bo_temp as Ht.
  eapply ends_seq; [apply (rd_data_obj_run v1 p chunk temp_bytes); [apply G1|by eapply objs_like_file; [apply S1|]|lia|rewrite Ht, <- pd_data; lia]|].
  intros r v2 [Hr Hs2]. rewrite drop_ge, app_nil_r in Hr by (rewrite pd_data; lia). rewrite Hr.
  destruct (still_cached (S n) v1 v2 G1 Hs2) as (G2 & S2 & C2).
  assert (disk v1 p chunk = view v p chunk) as E.
  { rewrite (uncached_view v p chunk Hun). by apply (still_ok v v1 (ch_files _ _ Hch) Hs1). }
  rewrite E. pose proof (view_length v p chunk (ch_files _ _ Hch) (ch_cache _ _ Hch)) as Hlen.
  apply ends_bind. eapply ends_defined; [apply overlay_pasted; lia|].
  assert (settled v v2) as S02 by (by etrans). assert (uncached v2 p chunk) as Hun2 by (unfold uncached; by rewrite C2, C1).
  eapply ends_seq; [apply (wr_data_obj_run n v2); [apply G2|by eapply objs_like_file; [apply S02|]|done|by rewrite pasted_length by lia|done|apply G2]|].
  intros w v3 (H3 & Ho3 & B3 & Hb3 & W).
  eapply ends_seq; [apply release_temp_short|]. intros [] v4 [Hs4 Hshort]. apply ends_ret. destruct W as [[Hw W]|(-> & _ & Hsh & W)].
  - destruct (wrote_changed (S n) n v2 v3 p chunk _ G2 Hun2 H3 Ho3 B3 Hb3 W) as (G3 & C3 & _).
    destruct (still_cached n v3 v4 G3 Hs4) as (G4 & S4 & _). split; [done|]. left. split; [lia|].
    eapply changed_settled; [|exact S4]. by eapply settled_changed.
  - destruct (wrote_changed (S n) n v2 v3 p chunk (disk v2 p chunk) G2 Hun2 H3 Ho3 B3 Hb3) as (G3 & C3 & _).
    { intros q id'. rewrite W. by destruct (decide _) as [[-> ->]|]. }
    destruct (still_cached n v3 v4 G3 Hs4) as (G4 & S4 & _). split; [done|]. right. split; [done|]. split; [by apply Hshort|].
    exists (view v p chunk). split; [|done]. rewrite <- (proj2 S02), (uncached_view v2 p chunk Hun2) by (by eapply file_not_null; [apply Hch|]).
    eapply changed_settled; [|exact S4]. by eapply settled_changed.
Qed.

(** The chunk that was written around the cache is dropped from it. *)
Lemma invalidate_chunk_run n v v1 p chunk l : cached (S n) v → files_ok v1 → objs_like v v1 → beside v v1 → budget n v1 → wrote p chunk l v v1 → p ≠ 0 →
  ends (yaffs_invalidate_chunk_cache p chunk) v1 (λ _ v', cached n v' ∧ changed p chunk l v v' ∧ room (dev_of v') = room (dev_of v1)).
Proof.
  intros Hch H1 Ho B Hb W Hp. pose proof Hch as [_ Hok _]. assert (length (cache v1) = n_caches) as Hlen by (rewrite (proj1 B); apply Hok).
  unfold yaffs_invalidate_chunk_cache. apply ends_when; intros Hn.
  - eapply ends_seq; [by apply find_chunk_cache_run|]. intros r v2 (Hs & Hroom & Hh). destruct r as [i|].
    + destruct Hh as (c0 & Hc0 & Hf). rewrite (proj1 B) in Hc0. pose proof Hf as [F1 F2].
      assert (recached i c0 c0 v v1) as Hr1.
      { eapply recached_step; [by apply recached_refl|apply B|done|]. intros q id Hq. rewrite W, decide_False; [done|]. intros [-> ->]. by apply Hq. }
      pose proof (recached_still _ _ _ _ _ _ Hr1 H1 Hs) as Hr2. destruct (still_ok v1 v2 H1 Hs) as [H2 Hd2].
      eapply ends_upd_cache; [exact Hr2|done|]. intros v3 Hr3 Hc3. destruct (co_entry _ Hok i c0 Hc0) as (E1 & E2 & _).
      assert (cached n v3) as Hch3.
      { eapply rekeyed; [exact Hok|exact Hr3|by eapply core_ok|by eapply core_budget, budget_still| |done]. by split. }
      split; [done|]. split; [split; [apply Hr3|]|by rewrite <- Hroom; unfold dev_of; rewrite (proj1 Hc3)].
      intros q id Hq. rewrite (recached_view _ _ _ _ _ Hok (ch_cache _ _ Hch3) Hr3 q id Hq). rewrite decide_False by (intros [E _]; by cbn in E).
      destruct (decide (q = p ∧ id = chunk)) as [[-> ->]|Hne].
      * rewrite decide_True by done. rewrite (core_disk _ _ Hc3), Hd2, W. by rewrite decide_True.
      * rewrite decide_False; [done|]. intros [<- <-]. by apply Hne.
    + assert (uncached v p chunk) as Hun by (unfold uncached; rewrite <- (proj1 B); exact Hh).
      destruct (wrote_changed (S n) n v v1 p chunk l Hch Hun H1 Ho B Hb W) as (G1 & C1 & _).
      destruct (still_cached n v1 v2 G1 Hs) as (G2 & S2 & _). apply ends_ret. split; [done|]. split; [by eapply changed_settled|done].
  - assert (uncached v p chunk) as Hun.
    { intros j c Hc. apply Nat.ltb_ge in Hn. apply lookup_lt_Some in Hc. rewrite <- (proj1 B) in Hc. lia. }
    destruct (wrote_changed (S n) n v v1 p chunk l Hch Hun H1 Ho B Hb W) as (G1 & C1 & _). done.
Qed.

Lemma pasted_all data l : zlen l = zlen data → pasted data 0 l = l.
Proof. intros E. unfold pasted. cbn. rewrite drop_ge, app_nil_r by lia. done. Qed.

Lemma write_around_run n v p chunk l : cached (S n) v → file_at v p → 1 ≤ chunk ≤ YAFFS_MAX_CHUNK_ID →
  zlen l = data_bytes_per_chunk →
  ends (chunk_written ← yaffs_wr_data_obj tp fuel u p chunk l data_bytes_per_chunk false;
        yaffs_invalidate_chunk_cache p chunk;; mret chunk_written) v (λ r v', cached n v' ∧ written_or_short true p chunk 0 l v r v').
Proof.
  intros Hch Hp Hid Hl. pose proof (file_not_null v p (ch_files _ _ Hch) Hp) as Hp0. pose proof pd_size as Hsz.
  eapply ends_seq; [apply (wr_data_obj_run n v); [apply Hch|done|done|done|lia|apply Hch]|].
  intros r v1 (H1 & Ho & B & Hb & W). unfold written_or_short. rewrite pasted_all by (rewrite view_length by apply Hch; done).
  destruct W as [[Hr W]|(-> & _ & Hsh & W)].
  - eapply ends_seq; [by apply (invalidate_chunk_run n v v1 p chunk l)|]. intros _ v2 (G2 & C2 & _). apply ends_ret. split; [done|]. left. split; [lia|done].
  - eapply ends_seq; [apply (invalidate_chunk_run n v v1 p chunk (disk v p chunk)); [done..| |done]|].
    { intros q id'. rewrite W. by destruct (decide _) as [[-> ->]|]. }
    intros _ v2 (G2 & C2 & Hroom). apply ends_ret. split; [done|]. right. split; [done|]. split; [by eapply room_short|].
    by exists (disk v p chunk).
Qed.

(** ** Files as arrays of bytes *)

Definition byte_at v (p x : Z) : Z :=
  default 0 (view v p (x / data_bytes_per_chunk + 1) !! Z.to_nat (x mod data_bytes_per_chunk)).
Definition file_bytes v (p off n : Z) : list Z := byte_at v p <$> seqZ off n.

Lemma file_bytes_length v p off n : 0 ≤ n → zlen (file_bytes v p off n) = n.
Proof. intros Hn. unfold file_bytes. rewrite length_fmap, length_seqZ. lia. Qed.

Lemma file_bytes_app v p off w n : 0 ≤ w ≤ n → file_bytes v p off n = file_bytes v p off w ++ file_bytes v p (off + w) (n - w).
Proof.
  intros H. unfold file_bytes. rewrite <- fmap_app. f_equal. replace n with (w + (n - w)) at 1 by lia. rewrite seqZ_app by lia. done.
Qed.

Lemma file_bytes_settled v v' p off n : settled v v' → p ≠ 0 → file_bytes v' p off n = file_bytes v p off n.
Proof. intros [_ V] Hp. unfold file_bytes, byte_at. apply list_fmap_ext. intros i x _. by rewrite V. Qed.

Lemma same_chunk x w : 0 ≤ w → x mod data_bytes_per_chunk + w < data_bytes_per_chunk →
  (x + w) / data_bytes_per_chunk = x / data_bytes_per_chunk ∧ (x + w) mod data_bytes_per_chunk = x mod data_bytes_per_chunk + w.
Proof.
  intros Hm Hlt. pose proof pd_size as Hsz. set (D := data_bytes_per_chunk) in *.
  pose proof (Z.div_mod x D ltac:(lia)) as E. pose proof (Z.mod_pos_bound x D ltac:(lia)) as B.
  assert (x + w = D * (x / D) + (x mod D + w)) as E2 by lia.
  split; [symmetry; eapply Z.div_unique; [left|exact E2]; lia|symmetry; eapply Z.mod_unique; [left|exact E2]; lia].
Qed.

(** The bytes that lie in one chunk. *)
Lemma part_bytes v p off n : files_ok v → cache_ok v → 0 ≤ off → 0 ≤ n → off mod data_bytes_per_chunk + n ≤ data_bytes_per_chunk →
  part (view v p (off / data_bytes_per_chunk + 1)) (off mod data_bytes_per_chunk) n = file_bytes v p off n.
Proof.
  intros H Hok Hoff0 Hn Hle. pose proof pd_size as Hsz. pose proof (view_length v p (off / data_bytes_per_chunk + 1) H Hok) as Hlen.
  assert (0 ≤ off mod data_bytes_per_chunk) as B by (apply Z.mod_pos_bound; lia).
  set (l := view _ _ _) in *. apply list_eq. intros i. unfold file_bytes, part. rewrite list_lookup_fmap.
  destruct (decide (Z.of_nat i < n)) as [Hi|Hi].
  - rewrite lookup_take_lt by lia. rewrite lookup_drop, lookup_seqZ_lt by lia. cbn. unfold byte_at.
    destruct (same_chunk off (Z.of_nat i)) as [-> ->]; [lia|lia|]. fold l.
    replace (Z.to_nat (off mod data_bytes_per_chunk + Z.of_nat i)) with (Z.to_nat (off mod data_bytes_per_chunk) + i)%nat by lia.
    destruct (lookup_lt_is_Some_2 l (Z.to_nat (off mod data_bytes_per_chunk) + i)) as [x Hx]; [lia|]. by rewrite Hx.
  - rewrite lookup_take_ge, lookup_seqZ_ge by lia. done.
Qed.

(** The chunks that [n] bytes from [off] on lie in. *)
Definition chunks_of (off n : Z) : nat :=
  if n <=? 0 then O else Z.to_nat ((off + n - 1) / data_bytes_per_chunk - off / data_bytes_per_chunk + 1).

Lemma chunks_of_S off n : 0 ≤ off → 0 < n → ∃ k, chunks_of off n = S k ∧
  let w := Z.min n (data_bytes_per_chunk - off mod data_bytes_per_chunk) in chunks_of (off + w) (n - w) = k.
Proof.
  intros Hoff0 Hn. pose proof pd_size as Hsz. set (D := data_bytes_per_chunk) in *. cbv zeta.
  pose proof (Z.div_mod off D ltac:(lia)) as E. pose proof (Z.mod_pos_bound off D ltac:(lia)) as B.
  pose proof (Z.div_le_mono off (off + n - 1) D ltac:(lia) ltac:(lia)) as Hle.
  unfold chunks_of. fold D. destruct (Z.leb_spec n 0); [lia|].
  exists (Z.to_nat ((off + n - 1) / D - off / D)). split; [lia|]. destruct (Z.leb_spec (n - Z.min n (D - off mod D)) 0).
  - assert ((off + n - 1) / D = off / D) as ->; [|by rewrite Z.sub_diag]. symmetry. apply (Z.div_unique _ _ _ (off mod D + n - 1)); lia.
  - replace (off + Z.min n (D - off mod D)) with (D * (off / D + 1)) by lia. rewrite (Z.mul_comm D), Z.div_mul by lia.
    f_equal. replace ((off / D + 1) * D + (n - Z.min n (D - off mod D)) - 1) with (off + n - 1) by lia. lia.
Qed.

Lemma copy_len_run start n : 0 ≤ start < data_bytes_per_chunk → 0 < n < 2 ^ 31 → copy_len start n = Z.min n (data_bytes_per_chunk - start).
Proof.
  intros H1 H2. pose proof pd_size as Hsz. unfold copy_len. rewrite wrapu_id by (unfold in_u; lia). destruct (Z.ltb_spec (start + n) data_bytes_per_chunk); lia.
Qed.

(** *** Reading *)

(** The bytes come to the front of the buffer. *)
Lemma fetch_run k v p buffer chunk start w : cached (S k) v → file_at v p → 1 ≤ chunk ≤ YAFFS_MAX_CHUNK_ID → 0 ≤ start → 0 ≤ w → w ≤ zlen buffer →
  start + w ≤ data_bytes_per_chunk →
  ends (c ← yaffs_find_chunk_cache p chunk;
        if bool_decide (is_Some c) || negb (w =? data_bytes_per_chunk) || inband_tags then
          l ← (if (0 <? n_caches)%nat then read_through_cache tp fuel u c p chunk start w else read_through_buffer tp u p chunk start w);
          defined (overlay buffer 0 l)
        else r ← yaffs_rd_data_obj tp u p chunk buffer; mret r.2) v (λ b v', cached k v' ∧ settled v v' ∧
    b = part (view v p chunk) start w ++ drop (Z.to_nat w) buffer).
Proof.
  intros Hch Hp Hid H1 H2 Hm Hle. eapply ends_seq; [apply (find_chunk_cache_run v p chunk), Hch|]. intros c v1 (Hs1 & _ & Hh).
  destruct (still_cached (S k) v v1 Hch Hs1) as (G1 & S1 & C1).
  assert (hit v1 p chunk c) as Hh1 by (unfold hit, uncached in *; by rewrite C1).
  assert (file_at v1 p) as Hp1 by (by eapply objs_like_file; [apply S1|]). pose proof (file_not_null v p (ch_files _ _ Hch) Hp) as Hp0.
  assert (view v1 p chunk = view v p chunk) as Ev by (by apply S1).
  assert ((n_caches <= 0)%nat → uncached v1 p chunk) as Hno.
  { intros Hn j x Hx. apply lookup_lt_Some in Hx. rewrite (co_len _ (ch_cache _ _ G1)) in Hx. lia. }
  pose proof (view_length v p chunk (ch_files _ _ Hch) (ch_cache _ _ Hch)) as Hlen.
  assert (zlen (part (view v p chunk) start w) = w) as Hpl by (unfold part; rewrite length_take, length_drop; lia).
  rewrite pd_inband, orb_false_r. destruct (bool_decide (is_Some c) || _) eqn:Eb.
  - eapply (ends_seq _ _ _ (λ l v2, cached k v2 ∧ settled v1 v2 ∧ l = part (view v p chunk) start w)).
    + rewrite <- Ev. destruct (Nat.ltb_spec 0 (@n_caches F fc)) as [Hn|Hn]; [by apply read_through_cache_run|].
      apply read_through_buffer_run; [eapply cached_le; [|exact G1]; lia|done|lia|by apply Hno|done|done|done].
    + intros l v2 (G2 & S2 & ->). eapply ends_defined; [apply overlay_pasted; lia|]. split; [done|]. split; [by etrans|].
      unfold pasted. change (Z.to_nat 0) with O. rewrite take_0. cbn [app Nat.add]. do 2 f_equal. lia.
  - apply orb_false_iff in Eb as [Ec%bool_decide_eq_false Em%negb_false_iff%Z.eqb_eq]. assert (start = 0) as -> by lia.
    destruct c as [i|]; [by destruct Ec|]. eapply ends_seq; [apply (rd_data_obj_run v1 p chunk buffer); [apply G1|done|lia|lia]|].
    intros r v2 [Hr Hs2]. destruct (still_cached (S k) v1 v2 G1 Hs2) as (G2 & S2 & _). apply ends_ret.
    split; [eapply cached_le; [|exact G2]; lia|]. split; [by etrans|]. rewrite Hr, Em, <- Ev, (uncached_view v1 p chunk Hh1).
    unfold part. change (Z.to_nat 0) with O. rewrite drop_0, take_ge; [done|]. rewrite <- (uncached_view v1 p chunk Hh1), Ev. lia.
Qed.

Lemma file_rd_round_run k v p out buffer off n : cached (S k) v → file_at v p → 0 ≤ off → 0 < n < 2 ^ 31 → addressable (off + n) → n ≤ zlen buffer →
  let w := Z.min n (data_bytes_per_chunk - off mod data_bytes_per_chunk) in
  ends (file_rd_round tp fuel u p (out, buffer, off, n)) v (λ r v', cached k v' ∧ settled v v' ∧
    r = inl (out ++ file_bytes v p off w, drop (Z.to_nat w) buffer, off + w, n - w)).
Proof.
  intros Hch Hp H1 Hn Ha Hb w. unfold file_rd_round. destruct (Z.leb_spec n 0); [lia|].
  destruct (addr_to_chunk_run off) as (-> & Hm & Hd); [eapply addressable_le; [|exact Ha]; lia|].
  rewrite copy_len_run by lia. fold w. pose proof pd_size as Hsz.
  assert (off / data_bytes_per_chunk + 1 ≤ YAFFS_MAX_CHUNK_ID) as Hid.
  { enough (off / data_bytes_per_chunk < YAFFS_MAX_CHUNK_ID) by lia. apply Z.div_lt_upper_bound; [lia|]. destruct Ha. lia. }
  apply ends_assoc. eapply ends_seq; [apply (fetch_run k v p buffer (off / data_bytes_per_chunk + 1) (off mod data_bytes_per_chunk) w); try done; lia|].
  intros b v' (G & S1 & ->). apply ends_ret. split; [done|]. split; [done|].
  rewrite part_bytes by (apply Hch || lia). pose proof (file_bytes_length v p off w ltac:(lia)) as Hl.
  rewrite take_app_length', drop_app_length' by lia. done.
Qed.

(** The loop reads [n] bytes. *)
Lemma file_rd_loop_run p rest : ∀ j k fuel' v out buffer off n, (chunks_of off n ≤ j)%nat → cached (j + k) v → file_at v p → 0 ≤ off → 0 ≤ n < 2 ^ 31 →
  addressable (off + n) → n ≤ zlen buffer → drop (Z.to_nat n) buffer = rest → (Z.to_nat n < fuel')%nat →
  ends (loop fuel' (file_rd_round tp fuel u p) (out, buffer, off, n)) v (λ r v', cached k v' ∧ settled v v' ∧ r = out ++ file_bytes v p off n ++ rest).
Proof.
  induction j as [|j IH]; intros k fuel' v out buffer off n Hj Hch Hp Hoff0 Hn Ha Hb Hr Hf; (destruct fuel' as [|fuel']; [lia|]);
    (destruct (Z.leb_spec n 0) as [H0|H0]; [assert (n = 0) as -> by lia|]).
  1,3: exists (out ++ buffer), v; (split; [by apply loop_exit|]); (split; [eapply cached_le; [|exact Hch]; lia|]); (split; [done|]); by subst rest.
  { destruct (chunks_of_S off n) as (k' & E & _); lia. }
  destruct (chunks_of_S off n Hoff0 H0) as (k' & E & Ek). cbv zeta in Ek. pose proof (file_rd_round_run (j + k) v p out buffer off n Hch Hp Hoff0 ltac:(lia) Ha Hb) as Hround.
  cbv zeta in Hround. set (w := Z.min _ _) in *. destruct Hround as (r & v1 & Hrun & G1 & S1 & ->).
  pose proof pd_size as Hsz. assert (0 < w ≤ n) as Hw.
  { pose proof (Z.mod_pos_bound off data_bytes_per_chunk). lia. }
  unfold ends. rewrite (loop_next _ _ _ _ _ _ Hrun).
  destruct (IH k fuel' v1 (out ++ file_bytes v p off w) (drop (Z.to_nat w) buffer) (off + w) (n - w)) as (r & v2 & Hrun2 & G2 & S2 & ->).
  - lia.
  - done.
  - by eapply objs_like_file; [apply S1|].
  - lia.
  - lia.
  - by replace (off + w + (n - w)) with (off + n) by lia.
  - rewrite length_drop. lia.
  - rewrite drop_drop. by replace (Z.to_nat w + Z.to_nat (n - w))%nat with (Z.to_nat n) by lia.
  - lia.
  - eexists _, v2. split; [exact Hrun2|]. split; [done|]. split; [by etrans|].
    rewrite (file_bytes_settled v v1) by (done || by eapply file_not_null; [apply Hch|]).
    rewrite (file_bytes_app v p off w n) by lia. by rewrite <- !app_assoc.
Qed.

Lemma file_rd_run k v p buffer off n : cached (chunks_of off n + k) v → file_at v p → 0 ≤ off → 0 ≤ n < 2 ^ 31 → addressable (off + n) → n ≤ zlen buffer →
  ends (yaffs_file_rd tp fuel u p buffer off n) v (λ r v', cached k v' ∧ settled v v' ∧ r = (n, file_bytes v p off n ++ drop (Z.to_nat n) buffer)).
Proof.
  intros Hch Hp Hoff0 Hn Ha Hb. unfold yaffs_file_rd.
  eapply ends_seq; [apply (file_rd_loop_run p (drop (Z.to_nat n) buffer) (chunks_of off n) k (S (Z.to_nat n)) v [] buffer off n); try done; lia|].
  intros r v' (G & S1 & ->). apply ends_ret. rewrite Z.max_r by lia. done.
Qed.

(** *** Writing *)

Lemma writeback_len_range size chunk start n : 0 ≤ start → 0 < n → start + n < data_bytes_per_chunk →
  1 ≤ writeback_len size chunk start n ≤ data_bytes_per_chunk.
Proof.
  intros H1 H2 H3. pose proof pd_size as Hsz. unfold writeback_len. rewrite (wrapu_id 32 (start + n)) by (unfold in_u; lia).
  set (k := if size <? _ then 0 else _). assert (0 ≤ k) as Hk by (unfold k; destruct (_ <? _); [done|]; by apply wrapu_range).
  destruct (Z.ltb_spec data_bytes_per_chunk k), (Z.ltb_spec (start + n) data_bytes_per_chunk); try lia;
    try (destruct (Z.ltb_spec (start + n) k)); rewrite wraps_id by (unfold in_s; cbn; lia); lia.
Qed.

(** [f] with the bytes [l] from [off] on. *)
Definition patched (off : Z) (l : list Z) (f : Z → Z) (x : Z) : Z :=
  if decide (off ≤ x < off + zlen l) then default 0 (l !! Z.to_nat (x - off)) else f x.

Lemma pasted_lookup data start l i : 0 ≤ start → start + zlen l ≤ zlen data →
  pasted data start l !! i = if decide (start ≤ Z.of_nat i < start + zlen l) then l !! (i - Z.to_nat start)%nat else data !! i.
Proof.
  intros H1 H2. unfold pasted. destruct (decide (Z.of_nat i < start)) as [Hi|Hi].
  - rewrite lookup_app_l by (rewrite length_take; lia). rewrite lookup_take_lt by lia. rewrite decide_False; [done|lia].
  - rewrite lookup_app_r by (rewrite length_take; lia). rewrite length_take, Nat.min_l by lia.
    destruct (decide (Z.of_nat i < start + zlen l)) as [Hi2|Hi2].
    + rewrite lookup_app_l by lia. rewrite decide_True; [done|lia].
    + rewrite lookup_app_r by lia. rewrite lookup_drop, decide_False by lia. f_equal. lia.
Qed.

(** A position of a chunk. *)
Lemma position x : 0 ≤ x → x = x / data_bytes_per_chunk * data_bytes_per_chunk + x mod data_bytes_per_chunk ∧ 0 ≤ x mod data_bytes_per_chunk < data_bytes_per_chunk.
Proof. intros Hx. pose proof pd_size as Hsz. split; [rewrite Z.mul_comm; apply Z.div_mod; lia|apply Z.mod_pos_bound; lia]. Qed.

Lemma changed_bytes v v' p off l : files_ok v → cache_ok v → p ≠ 0 → 0 ≤ off → off mod data_bytes_per_chunk + zlen l ≤ data_bytes_per_chunk →
  changed p (off / data_bytes_per_chunk + 1) (pasted (view v p (off / data_bytes_per_chunk + 1)) (off mod data_bytes_per_chunk) l) v v' →
  ∀ x, 0 ≤ x → byte_at v' p x = patched off l (byte_at v p) x.
Proof.
  intros H Hok Hp Hoff0 Hl [_ V] x Hx. unfold byte_at. rewrite V by done. set (chunk := off / data_bytes_per_chunk + 1) in *.
  pose proof (view_length v p chunk H Hok) as Hlen. destruct (position off Hoff0) as [Eo Bo], (position x Hx) as [Ex Bx].
  unfold patched. destruct (decide (p = p ∧ x / data_bytes_per_chunk + 1 = chunk)) as [[_ E]|Hn].
  - assert (x / data_bytes_per_chunk = off / data_bytes_per_chunk) as E' by (unfold chunk in E; lia). rewrite E' in Ex.
    rewrite pasted_lookup by lia. rewrite !Z2Nat.id by lia.
    destruct (decide (off ≤ x < off + zlen l)) as [Hin|Hin].
    + rewrite decide_True by lia. do 2 f_equal. lia.
    + rewrite decide_False by lia. by rewrite E.
  - rewrite decide_False; [done|]. intros Hin. apply Hn. split; [done|]. unfold chunk. f_equal.
    destruct (same_chunk off (x - off)) as [E _]; [lia|lia|]. by replace (off + (x - off)) with x in E by lia.
Qed.

Lemma changed_other v v' p chunk l : changed p chunk l v v' → ∀ q x, q ≠ 0 → (q ≠ p ∨ x / data_bytes_per_chunk + 1 ≠ chunk) → byte_at v' q x = byte_at v q x.
Proof. intros [_ V] q x Hq Hn. unfold byte_at. rewrite V, decide_False by (done || tauto). done. Qed.

Lemma settled_bytes v v' : settled v v' → ∀ q x, q ≠ 0 → byte_at v' q x = byte_at v q x.
Proof. intros [_ V] q x Hq. unfold byte_at. by rewrite V. Qed.

(** What a write of [l] at [off] leaves when [k] bytes are written: those that are not written are as
    they were, if they are not in a chunk that is written around the cache. *)
Definition stored_bytes (p off : Z) (l : list Z) (k : Z) v v' : Prop :=
  objs_like v v' ∧ 0 ≤ k ≤ zlen l ∧ (k = zlen l ∨ short (dev_of v')) ∧
  ∀ q x, q ≠ 0 → 0 ≤ x →
    q = p ∧ off ≤ x < off + k ∧ byte_at v' q x = default 0 (l !! Z.to_nat (x - off)) ∨
    q = p ∧ off + k ≤ x < off + zlen l ∧ cache_bypass_aligned = true ∨
    ¬ (q = p ∧ off ≤ x < off + k) ∧ byte_at v' q x = byte_at v q x.

Lemma stored_nothing p off l v v' : settled v v' → zlen l = 0 → stored_bytes p off l 0 v v'.
Proof.
  intros S1 E. split; [apply S1|]. split; [lia|]. split; [by left|]. intros q x Hq Hx. right; right. split; [lia|by apply settled_bytes].
Qed.

(** One chunk of a write. *)
Lemma written_bytes k v p off l around r v' : cached k v → p ≠ 0 → 0 ≤ off → 0 < zlen l → off mod data_bytes_per_chunk + zlen l ≤ data_bytes_per_chunk →
  (around = true → zlen l = data_bytes_per_chunk ∧ cache_bypass_aligned = true) →
  written_or_short around p (off / data_bytes_per_chunk + 1) (off mod data_bytes_per_chunk) l v r v' →
  (0 ≤ r ∧ stored_bytes p off l (zlen l) v v') ∨ (r = -1 ∧ short (dev_of v') ∧ stored_bytes p off l 0 v v').
Proof.
  intros Hch Hp0 Hoff0 Hl Hle Har [[Hr C]|(-> & Hsh & l' & C & Hl')]; destruct (position off Hoff0) as [Eo Bo]; [left|right].
  - split; [done|]. split; [apply C|]. split; [lia|]. split; [by left|]. intros q x Hq Hx.
    destruct (decide (q = p ∧ off ≤ x < off + zlen l)) as [[-> Hin]|Hn].
    + left. split; [done|]. split; [done|]. rewrite (changed_bytes v v' p off l) by (apply Hch || done). unfold patched. by rewrite decide_True.
    + right; right. split; [done|]. destruct (decide (q = p)) as [->|Hqp]; [|eapply changed_other; [exact C|done|by left]].
      rewrite (changed_bytes v v' p off l) by (apply Hch || done). unfold patched. rewrite decide_False; [done|tauto].
  - split; [done|]. split; [done|]. split; [apply C|]. split; [lia|]. split; [by right|]. intros q x Hq Hx. destruct around.
    + destruct (Har eq_refl) as [E Hby]. destruct (decide (q = p ∧ off ≤ x < off + zlen l)) as [[-> Hin]|Hn]; [right; left; split; [done|split; [lia|done]]|].
      right; right. split; [lia|]. eapply changed_other; [exact C|done|]. destruct (decide (q = p)) as [->|]; [right|by left].
      intros E2. apply Hn. split; [done|]. destruct (position x Hx) as [Ex Bx]. assert (x / data_bytes_per_chunk = off / data_bytes_per_chunk) as E3 by lia.
      rewrite E3 in Ex. lia.
    + right; right. split; [lia|]. unfold byte_at. rewrite (proj2 C) by done. destruct (decide _) as [[-> E]|]; [|done]. by rewrite Hl', E.
Qed.

(** The statement of a round that stores a part of a chunk. *)
Definition store_part p chunk start w l nb cw wt : M Z :=
  if negb (w =? data_bytes_per_chunk) || negb cache_bypass_aligned || inband_tags then
    if (0 <? n_caches)%nat then write_through_cache tp fuel u p chunk start l nb cw wt
    else write_through_buffer tp fuel u p chunk start l nb
  else
    chunk_written ← yaffs_wr_data_obj tp fuel u p chunk l data_bytes_per_chunk false;
    yaffs_invalidate_chunk_cache p chunk;;
    mret chunk_written.

Lemma store_part_run k v p off w l nb cw wt : cached (2 + k) v → zlen l = w → file_at v p → 0 ≤ off → off / data_bytes_per_chunk + 1 ≤ YAFFS_MAX_CHUNK_ID →
  0 < zlen l → off mod data_bytes_per_chunk + zlen l ≤ data_bytes_per_chunk → 1 ≤ nb ≤ data_bytes_per_chunk → 0 ≤ cw →
  ends (store_part p (off / data_bytes_per_chunk + 1) (off mod data_bytes_per_chunk) w l nb cw wt) v (λ r v', cached k v' ∧
    ((0 ≤ r ∧ stored_bytes p off l (zlen l) v v') ∨ (r = -1 ∧ short (dev_of v') ∧ stored_bytes p off l 0 v v'))).
Proof.
  intros Hch <- Hp Hoff0 Hid Hl Hle Hnb Hcw. destruct (position off Hoff0) as [Eo Bo]. pose proof (file_not_null v p (ch_files _ _ Hch) Hp) as Hp0.
  assert (0 ≤ off / data_bytes_per_chunk) as Hd by (apply Z.div_pos; lia).
  unfold store_part. rewrite pd_inband, orb_false_r. destruct (negb (zlen l =? _) || _) eqn:Eb.
  - destruct (Nat.ltb_spec 0 (@n_caches F fc)) as [Hn|Hn].
    + eapply ends_mono; [apply (write_through_cache_run k v); [done|done|done|lia|lia|lia|done|done]|]. intros r v' [G W]. split; [done|]. eapply (written_bytes (2 + k)); [exact Hch|done|done|done|done| |exact W]; done.
    + eapply ends_mono; [apply (write_through_buffer_run k v); [eapply cached_le; [|exact Hch]; lia| |done|lia|lia|lia|done]|].
      * intros j x Hx. apply lookup_lt_Some in Hx. rewrite (co_len _ (ch_cache _ _ Hch)) in Hx. lia.
      * intros r v' [G W]. split; [done|]. eapply (written_bytes (2 + k)); [exact Hch|done|done|done|done| |exact W]; done.
  - apply orb_false_iff in Eb as [E1%negb_false_iff%Z.eqb_eq E2%negb_false_iff]. assert (off mod data_bytes_per_chunk = 0) as E0 by lia. rewrite E0 in *.
    eapply ends_mono; [apply (write_around_run k v); [eapply cached_le; [|exact Hch]; lia|done|lia|done]|].
    intros r v' [G W]. split; [done|]. eapply (written_bytes (2 + k)); [exact Hch|done|done|done|lia| |rewrite E0; exact W]; done.
Qed.

Lemma stored_app p off l1 l2 k v v1 v2 : stored_bytes p off l1 (zlen l1) v v1 → stored_bytes p (off + zlen l1) l2 k v1 v2 →
  stored_bytes p off (l1 ++ l2) (zlen l1 + k) v v2.
Proof.
  intros (O1 & _ & _ & B1) (O2 & K2 & S2 & B2). split; [by etrans|]. rewrite length_app. split; [lia|]. split; [destruct S2; [left; lia|by right]|].
  intros q x Hq Hx. destruct (B2 q x Hq Hx) as [(-> & Hin & ->)|[(-> & Hin & Hby)|[Hn ->]]].
  - left. split; [done|]. split; [lia|]. rewrite lookup_app_r by lia. do 2 f_equal. lia.
  - right; left. split; [done|]. split; [lia|done].
  - destruct (B1 q x Hq Hx) as [(-> & Hin & ->)|[(-> & Hin & _)|[Hn1 ->]]].
    + left. split; [done|]. split; [lia|]. by rewrite lookup_app_l by lia.
    + lia.
    + right; right. split; [|done]. intros [-> Hin]. destruct (decide (x < off + zlen l1)); [apply Hn1|apply Hn]; split; done || lia.
Qed.

Lemma stored_none p off l1 l2 v v1 : short (dev_of v1) → stored_bytes p off l1 0 v v1 → stored_bytes p off (l1 ++ l2) 0 v v1.
Proof.
  intros Hsh (O1 & _ & _ & B1). split; [done|]. rewrite length_app. split; [lia|]. split; [by right|]. intros q x Hq Hx.
  destruct (B1 q x Hq Hx) as [(-> & Hin & ->)|[(-> & Hin & Hby)|[Hn1 ->]]]; [lia| |].
  - right; left. split; [done|]. split; [lia|done].
  - right; right. split; [lia|done].
Qed.

Lemma file_wr_round_run k v p wt buffer off n n_done cw : cached (2 + k) v → file_at v p → 0 ≤ off → 0 < n < 2 ^ 31 → addressable (off + n) →
  zlen buffer = n → 0 ≤ cw → let w := Z.min n (data_bytes_per_chunk - off mod data_bytes_per_chunk) in let l := take (Z.to_nat w) buffer in
  ends (file_wr_round tp fuel u p wt (buffer, off, n, n_done, cw)) v (λ r v', cached k v' ∧
    ((∃ cw', 0 ≤ cw' ∧ r = inl (drop (Z.to_nat w) buffer, off + w, n - w, n_done + w, cw') ∧ stored_bytes p off l (zlen l) v v') ∨
     (r = inl (buffer, off, n, n_done, -1) ∧ short (dev_of v') ∧ stored_bytes p off l 0 v v'))).
Proof.
  intros Hch Hp Hoff0 Hn Ha Hb Hcw w l. unfold file_wr_round. rewrite (proj2 (Z.ltb_lt 0 n)), (proj2 (Z.leb_le 0 cw)) by lia. cbn [andb].
  destruct (addr_to_chunk_run off) as (-> & Hm & Hd); [eapply addressable_le; [|exact Ha]; lia|]. pose proof pd_size as Hsz.
  rewrite copy_len_run by lia. fold w. destruct Hp as (o & Hpo & Ho). eapply ends_bind, ends_the_obj; [exact Hpo|].
  assert (off / data_bytes_per_chunk + 1 ≤ YAFFS_MAX_CHUNK_ID) as Hid.
  { enough (off / data_bytes_per_chunk < YAFFS_MAX_CHUNK_ID) by lia. apply Z.div_lt_upper_bound; [lia|]. destruct Ha. lia. }
  rewrite (wrapu_id 32) by (unfold in_u; lia).
  set (nb := if off mod _ + n <? _ then _ else _). assert (1 ≤ nb ≤ data_bytes_per_chunk) as Hnb.
  { unfold nb. destruct (Z.ltb_spec (off mod data_bytes_per_chunk + n) data_bytes_per_chunk); [apply writeback_len_range|]; lia. }
  rewrite (proj2 (Z.ltb_ge nb 0)), (proj2 (Z.ltb_ge data_bytes_per_chunk nb)), andb_false_r by lia.
  apply ends_bind. eapply ends_defined; [apply slice_Some; lia|]. change (Z.to_nat 0) with O. rewrite drop_0. fold l.
  assert (zlen l = w) as Hl by (unfold l; rewrite length_take; lia).
  eapply ends_seq; [apply (store_part_run k v p off w l nb cw wt); [done|done|by exists o|done|done|lia|lia|done|done]|].
  intros r v' [G [[Hr S1]|(-> & Hsh & S1)]].
  - rewrite (proj2 (Z.leb_le 0 r)) by lia. apply ends_ret. split; [done|]. left. by exists r.
  - apply ends_ret. split; [done|]. by right.
Qed.

(** The loop writes until all is written or there is no space. *)
Lemma file_wr_loop_run p wt : ∀ j k fuel' v buffer off n n_done cw, (chunks_of off n ≤ j)%nat → cached (2 * j + k) v → file_at v p → 0 ≤ off → 0 ≤ n < 2 ^ 31 →
  addressable (off + n) → zlen buffer = n → 0 ≤ cw → (1 + Z.to_nat n < fuel')%nat →
  ends (loop fuel' (file_wr_round tp fuel u p wt) (buffer, off, n, n_done, cw)) v (λ r v', cached k v' ∧
    ∃ w, r = n_done + w ∧ stored_bytes p off buffer w v v').
Proof.
  induction j as [|j IH]; intros k fuel' v buffer off n n_done cw Hj Hch Hp Hoff0 Hn Ha Hb Hcw Hf; (destruct fuel' as [|fuel']; [lia|]);
    (destruct (Z.leb_spec n 0) as [H0|H0]; [assert (n = 0) as -> by lia|]).
  1,3: exists n_done, v; (split; [by apply loop_exit|]); (split; [eapply cached_le; [|exact Hch]; lia|]); exists 0; (split; [lia|]); by apply stored_nothing.
  { destruct (chunks_of_S off n) as (k' & E & _); lia. }
  destruct (chunks_of_S off n Hoff0 H0) as (k' & E & Ek). cbv zeta in Ek.
  pose proof (file_wr_round_run (2 * j + k) v p wt buffer off n n_done cw ltac:(eapply cached_le; [|exact Hch]; lia) Hp Hoff0 ltac:(lia) Ha Hb Hcw) as Hround.
  cbv zeta in Hround. set (w := Z.min _ _) in *. destruct Hround as (r & v1 & Hrun & G1 & Hres).
  pose proof pd_size as Hsz. destruct (position off Hoff0) as [_ Bo]. assert (0 < w ≤ n) as Hw by lia.
  pose proof (take_drop (Z.to_nat w) buffer) as Etd. set (l := take (Z.to_nat w) buffer) in *. assert (zlen l = w) as Hl by (unfold l; rewrite length_take; lia).
  unfold ends. destruct Hres as [(cw' & Hcw' & -> & S1)|(-> & Hsh & S1)]; rewrite (loop_next _ _ _ _ _ _ Hrun).
  - destruct (IH k fuel' v1 (drop (Z.to_nat w) buffer) (off + w) (n - w) (n_done + w) cw') as (r & v2 & Hrun2 & G2 & w2 & -> & S2);
      [lia|done|by eapply objs_like_file; [apply S1|]|lia|lia| |rewrite length_drop; lia|done|lia|].
    { by replace (off + w + (n - w)) with (off + n) by lia. }
    exists (n_done + w + w2), v2. split; [done|]. split; [done|]. exists (w + w2). split; [lia|]. rewrite <- Etd, <- Hl.
    eapply stored_app; [exact S1|]. by rewrite Hl.
  - destruct fuel' as [|fuel']; [lia|]. exists n_done, v1. split; [apply loop_exit; unfold file_wr_round; by rewrite andb_false_r|].
    split; [eapply cached_le; [|exact G1]; lia|]. exists 0. split; [lia|]. rewrite <- Etd. by apply stored_none.
Qed.

(** *** The size *)

Definition size_of v (p : Z) : Z := match objs v !! p with Some o => file_size (file_variant o) | None => 0 end.

Lemma objs_like_size v v' q : objs_like v v' → size_of v' q = size_of v q.
Proof. intros H. specialize (H q). unfold size_of. by destruct H as [o o' (_ & _ & E)|]. Qed.

(** Changes of an object that neither its tree nor its number show. *)
Definition kept_obj o o' : Prop := ob_obj_id o' = ob_obj_id o ∧ ob_variant_type o' = ob_variant_type o ∧
  top_level (file_variant o') = top_level (file_variant o) ∧ top (file_variant o') = top (file_variant o).

Lemma file_at_insert v p o o' q : objs v !! p = Some o → kept_obj o o' → file_at v q → file_at (set_objs (<[p := o']> (objs v)) v) q.
Proof.
  intros Hp (_ & E & _) (x & Hq & Hx). unfold file_at. cbn [objs set_objs]. destruct (decide (q = p)) as [->|Hne].
  - exists o'. rewrite lookup_insert_eq. split; [done|]. unfold is_file in *. congruence.
  - exists x. by rewrite lookup_insert_ne.
Qed.

Lemma upd_obj_kept_files v p o o' : files_ok v → objs v !! p = Some o → kept_obj o o' → let v' := set_objs (<[p := o']> (objs v)) v in
  files_ok v' ∧ ∀ q id, disk v' q id = disk v q id.
Proof.
  intros [T Hh Hid H0] Hp Hk. pose proof Hk as (E1 & E2 & E3 & E4). cbv zeta. set (v' := set_objs _ v).
  destruct (trees_obj tp (vol_fs v) (objs v) p o o' T Hp) as [T' Hsl]; [unfold is_file; by rewrite E2|done|done|].
  split; [|intros q id; unfold disk; f_equal; apply Hsl]. split; [exact T'| | |].
  - eapply held_ext; [exact Hsl| |exact Hh]. intros q id _. unfold number. cbn. destruct (decide (q = p)) as [->|].
    + by rewrite lookup_insert_eq, Hp.
    + by rewrite lookup_insert_ne.
  - intros q x Hq Hx. cbn in Hq. destruct (decide (q = p)) as [->|].
    + rewrite lookup_insert_eq in Hq. injection Hq as <-. rewrite E1. apply (Hid p); [done|]. unfold is_file in *. congruence.
    + rewrite lookup_insert_ne in Hq by done. by apply (Hid q).
  - cbn. rewrite lookup_insert_ne; [done|]. intros ->. congruence.
Qed.

Lemma upd_obj_kept k v p o o' : cached k v → objs v !! p = Some o → kept_obj o o' → let v' := set_objs (<[p := o']> (objs v)) v in
  cached k v' ∧ ∀ q id, view v' q id = view v q id.
Proof.
  intros [H [C1 C2 C3] Hb] Hp Hk. destruct (upd_obj_kept_files v p o o' H Hp Hk) as [H' Hd]. cbv zeta in *. set (v' := set_objs _ v) in *.
  split; [|intros q id; unfold view; by rewrite Hd]. split; [done| |exact Hb].
  split; [done| |done]. intros i c Hc. destruct (C2 i c Hc) as (L1 & L2 & L3). split; [done|]. split; [done|]. intros Hne.
  destruct (L3 Hne) as (F1 & F2 & F3). split; [by eapply file_at_insert|]. split; [done|]. by rewrite Hd.
Qed.

Lemma upd_obj_run k v p o f : cached k v → objs v !! p = Some o → kept_obj o (f o) →
  ends (upd_obj p f) v (λ _ v', cached k v' ∧ objs v' = <[p := f o]> (objs v) ∧ vol_fs v' = vol_fs v ∧ ∀ q id, view v' q id = view v q id).
Proof.
  intros Hch Hp Hk. eapply ends_upd_obj; [exact Hp|]. destruct (upd_obj_kept k v p o (f o) Hch Hp Hk) as [G V]. done.
Qed.

(** What [yaffs_do_file_wr] leaves when it answers [k]. *)
Record wrote_file (p off : Z) (l : list Z) (k : Z) v v' : Prop := mk_wrote_file {
  wf_count : 0 ≤ k ≤ zlen l;
  wf_all : k = zlen l ∨ short (dev_of v');
  wf_others q : q ≠ p → option_Forall2 obj_like (objs v !! q) (objs v' !! q);
  wf_file : file_at v' p;
  wf_size : size_of v' p = Z.max (size_of v p) (off + k);
  wf_bytes q x : q ≠ 0 → 0 ≤ x →
    q = p ∧ off ≤ x < off + k ∧ byte_at v' q x = default 0 (l !! Z.to_nat (x - off)) ∨
    q = p ∧ off + k ≤ x < off + zlen l ∧ cache_bypass_aligned = true ∨
    ¬ (q = p ∧ off ≤ x < off + k) ∧ byte_at v' q x = byte_at v q x
}.

Lemma do_file_wr_run k v p l off wt : cached (2 * chunks_of off (zlen l) + k) v → file_at v p → 0 ≤ off → zlen l < 2 ^ 31 → addressable (off + zlen l) →
  ends (yaffs_do_file_wr tp fuel u p l off (zlen l) wt) v (λ r v', cached k v' ∧ wrote_file p off l r v v').
Proof.
  intros Hch Hp Hoff0 Hl Ha. unfold yaffs_do_file_wr.
  eapply ends_seq; [apply (file_wr_loop_run p wt (chunks_of off (zlen l)) k); try done; lia|].
  intros r v1 (G1 & w & -> & O1 & K1 & A1 & B1). rewrite Z.add_0_l.
  pose proof (objs_like_file v v1 p O1 Hp) as (o & Hpo & Ho).
  eapply ends_seq; [unfold upd_file; eapply (upd_obj_run k v1 p o); [done|done|]|].
  { unfold kept_obj. cbn. by destruct (_ <? _). }
  intros _ v2 (G2 & E2 & F2 & V2). assert (objs v2 !! p = Some (set_file_variant
    (if file_size (file_variant o) <? off + w then set_file_size (off + w) (file_variant o) else file_variant o) o)) as Hp2 by (by rewrite E2, lookup_insert_eq).
  eapply ends_seq; [eapply (upd_obj_run k v2 p); [done|exact Hp2|done]|]. intros _ v3 (G3 & E3 & F3 & V3). rewrite E2, insert_insert_eq in E3.
  apply ends_ret. split; [done|]. assert (dev_of v3 = dev_of v1) as Ed by (unfold dev_of; by rewrite F3, F2). split; [done| | | | |].
  - by rewrite Ed.
  - intros q Hq. rewrite E3, lookup_insert_ne by done. apply O1.
  - eexists. rewrite E3, lookup_insert_eq. split; [done|exact Ho].
  - unfold size_of at 1. rewrite E3, lookup_insert_eq. rewrite <- (objs_like_size v v1 p O1). unfold size_of. rewrite Hpo. cbn.
    destruct (Z.ltb_spec (file_size (file_variant o)) (off + w)); cbn; lia.
  - intros q x Hq Hx. replace (byte_at v3 q x) with (byte_at v1 q x); [by apply B1|]. unfold byte_at. by rewrite V3, V2.
Qed.

(** ** Files of bytes

    The abstract state has the size and the bytes of every file; a step of it is what the user of
    the file sees. *)

Record file := mk_file {
  fl_size : Z;
  fl_byte : Z → Z
}.

Inductive file_op :=
  | FileRead (p off n : Z) (buffer : list Z)
  | FileWrite (p off : Z) (l : list Z) (write_through : bool)
  | FileFlush (p : Z) (discard : bool).

(** The number that the call answers and the buffer after it. *)
Definition file_exec (op : file_op) : M (Z * list Z) :=
  match op with
  | FileRead p off n buffer => yaffs_file_rd tp fuel u p buffer off n
  | FileWrite p off l write_through => k ← yaffs_do_file_wr tp fuel u p l off (zlen l) write_through; mret (k, [])
  | FileFlush p discard => yaffs_flush_file_cache tp fuel u p discard;; mret (0, [])
  end.

Definition represents v (a : gmap Z file) : Prop := ∀ p,
  match a !! p with
  | Some f => file_at v p ∧ size_of v p = fl_size f ∧ ∀ x, 0 ≤ x → byte_at v p x = fl_byte f x
  | None => ¬ file_at v p
  end.

Definition op_file (op : file_op) : Z :=
  match op with FileRead p _ _ _ | FileWrite p _ _ _ | FileFlush p _ => p end.

(** The writes of chunks to the flash that an operation may cause. *)
Definition op_cost (op : file_op) : nat :=
  match op with
  | FileRead _ off n _ => chunks_of off n
  | FileWrite _ off l _ => 2 * chunks_of off (zlen l)
  | FileFlush _ _ => n_caches
  end.

Definition op_ok (op : file_op) : Prop :=
  match op with
  | FileRead _ off n buffer => 0 ≤ off ∧ 0 ≤ n < 2 ^ 31 ∧ addressable (off + n) ∧ n ≤ zlen buffer
  | FileWrite _ off l _ => 0 ≤ off ∧ zlen l < 2 ^ 31 ∧ addressable (off + zlen l)
  | FileFlush _ _ => True
  end.

(** What an operation does to the file [f], and what it answers. A write may write less: the bytes that
    are not written stay, but for those of a chunk that was to be written around the cache. *)
Definition op_step (op : file_op) (f : file) (r : Z * list Z) (f' : file) : Prop :=
  match op with
  | FileRead _ off n buffer => r = (n, (fl_byte f <$> seqZ off n) ++ drop (Z.to_nat n) buffer) ∧ f' = f
  | FileWrite _ off l _ => ∃ k, r = (k, []) ∧ 0 ≤ k ≤ zlen l ∧ fl_size f' = Z.max (fl_size f) (off + k) ∧
      ∀ x, 0 ≤ x → fl_byte f' x = patched off (take (Z.to_nat k) l) (fl_byte f) x ∨
                   off + k ≤ x < off + zlen l ∧ cache_bypass_aligned = true
  | FileFlush _ _ => r = (0, []) ∧ f' = f
  end.

(** Less is written only if the device is short of space; what is flushed is in the flash. *)
Definition op_left (op : file_op) (r : Z * list Z) v' : Prop :=
  match op with
  | FileRead _ _ _ _ => True
  | FileWrite _ _ l _ => r.1 = zlen l ∨ short (dev_of v')
  | FileFlush p _ => ∀ id, disk v' p id = view v' p id
  end.

Lemma represents_at v a p f : represents v a → a !! p = Some f → file_at v p ∧ size_of v p = fl_size f ∧ ∀ x, 0 ≤ x → byte_at v p x = fl_byte f x.
Proof. intros H E. specialize (H p). by rewrite E in H. Qed.

Lemma objs_like_file_iff v v' p : option_Forall2 obj_like (objs v !! p) (objs v' !! p) → file_at v' p ↔ file_at v p.
Proof.
  intros H. unfold file_at, is_file. inversion H as [o o' (_ & E & _) E1 E2|E1 E2]; subst; split; intros (x & Hx & Hf); try done.
  - exists o. injection Hx as <-. split; [done|congruence].
  - exists o'. injection Hx as <-. split; [done|congruence].
Qed.

(** A file is replaced, the others stay. *)
Lemma represents_update v v' a p f' : represents v a → files_ok v → (∀ q, q ≠ p → option_Forall2 obj_like (objs v !! q) (objs v' !! q)) →
  (∀ q x, q ≠ p → q ≠ 0 → 0 ≤ x → byte_at v' q x = byte_at v q x) →
  file_at v' p → size_of v' p = fl_size f' → (∀ x, 0 ≤ x → byte_at v' p x = fl_byte f' x) → represents v' (<[p := f']> a).
Proof.
  intros H Hok Ho Hb H1 H2 H3 q. destruct (decide (q = p)) as [->|Hne]; [by rewrite lookup_insert_eq|]. rewrite lookup_insert_ne by done.
  specialize (H q). specialize (Ho q Hne). destruct (a !! q) as [f|]; [|by rewrite (objs_like_file_iff v v' q Ho)].
  destruct H as (F1 & F2 & F3). split; [by apply (objs_like_file_iff v v' q Ho)|]. split.
  - rewrite <- F2. unfold size_of. by destruct Ho as [o o' (_ & _ & E)|].
  - intros x Hx. rewrite Hb; [by apply F3|done| |done]. by eapply file_not_null.
Qed.

Lemma represents_settled v v' a p f : represents v a → files_ok v → settled v v' → a !! p = Some f → represents v' (<[p := f]> a).
Proof.
  intros H Hok S1 Hp. destruct (represents_at v a p f H Hp) as (F1 & F2 & F3). pose proof (file_not_null v p Hok F1) as Hp0.
  apply (represents_update v); try done.
  - intros q _. apply S1.
  - intros q x _ Hq _. by apply settled_bytes.
  - by eapply objs_like_file; [apply S1|].
  - by rewrite (objs_like_size v v' p (proj1 S1)).
  - intros x Hx. rewrite (settled_bytes v v' S1) by done. by apply F3.
Qed.

Lemma wrote_step p off l wt k v v' f : wrote_file p off l k v v' → p ≠ 0 → size_of v p = fl_size f → (∀ x, 0 ≤ x → byte_at v p x = fl_byte f x) →
  op_step (FileWrite p off l wt) f (k, []) (mk_file (size_of v' p) (byte_at v' p)).
Proof.
  intros [W1 W2 W3 W4 W5 W6] Hp Hs Hb. exists k. split; [done|]. split; [done|]. cbn. split; [by rewrite W5, Hs|]. intros x Hx.
  unfold patched. rewrite length_take, Nat.min_l by lia. rewrite Z2Nat.id by lia.
  destruct (W6 p x Hp Hx) as [(_ & Hin & ->)|[(_ & Hin & Hby)|[Hn ->]]].
  - left. rewrite decide_True by done. rewrite lookup_take_lt by lia. done.
  - by right.
  - left. rewrite decide_False by tauto. by apply Hb.
Qed.

(** C2. The files of a volume are arrays of bytes. From a well-formed volume with enough memory, sequence
    numbers and erased blocks for the writes that an operation may cause, every read, write and flush
    of a file ends without a fault and is a step of that abstract file, with the cache, the trees and
    the chunks of the device in between: a read answers its bytes, a write changes its bytes and
    extends its size, a flush changes nothing; other files keep their size and bytes. A write is only
    cut short if the device is short of space, and what is flushed is in the flash. *)
Theorem files_are_arrays_of_bytes k v a op f : cached (op_cost op + k) v → represents v a → a !! op_file op = Some f → op_ok op →
  ends (file_exec op) v (λ r v', ∃ f', op_step op f r f' ∧ represents v' (<[op_file op := f']> a) ∧ cached k v' ∧ op_left op r v').
Proof.
  intros Hch Hrep Hf Hop. destruct (represents_at v a _ f Hrep Hf) as (F1 & F2 & F3). pose proof (ch_files _ _ Hch) as Hok.
  pose proof (file_not_null v _ Hok F1) as Hp0. destruct op as [p off n buffer|p off l wt|p discard]; cbn in *.
  - destruct Hop as (H1 & H2 & H3 & H4). eapply ends_mono; [by apply (file_rd_run k v p buffer off n)|].
    intros r v' (G & S1 & ->). exists f. split; [split; [|done]|by split; [eapply represents_settled|]]. do 2 f_equal.
    unfold file_bytes. apply list_fmap_ext. intros i x Hx. apply F3. apply lookup_seqZ in Hx. lia.
  - destruct Hop as (H1 & H2 & H3). eapply ends_seq; [by apply (do_file_wr_run k v p l off wt)|].
    intros r v' [G W]. apply ends_ret. exists (mk_file (size_of v' p) (byte_at v' p)). split; [by eapply (wrote_step p off l wt)|]. split; [|split; [done|apply W]].
    apply (represents_update v); try done; [apply W| |apply W]. intros q x Hqp Hq Hx.
    by destruct (wf_bytes _ _ _ _ _ _ W q x Hq Hx) as [(-> & _)|[(-> & _)|[_ ->]]].
  - eapply ends_seq; [by apply (flush_file_run k v p discard)|]. intros _ v' (G & S1 & Hfl). apply ends_ret. exists f. split; [done|].
    split; [by eapply represents_settled|]. split; [done|]. intros id. eapply flushed_disk; [apply G|done|exact Hfl].
Qed.

(** ** Truncation *)

Lemma still_objs v v' : still v v' → objs_like v v' ∧ beside v v'.
Proof. intros (d & -> & _). split; [change (objs_like v v); done|by split]. Qed.

Lemma tree_step_refl v : files_ok v → tree_step v v.
Proof. intros H. split; [apply H|done|done|done]. Qed.

(** A chunk leaves the tree of a file. *)
Lemma find_del_run v p id : files_ok v → file_at v p → 0 ≤ id →
  ends (yaffs_find_del_file_chunk tp p id u) v (λ r v', r = (if decide (slots v p id = 0) then -1 else slots v p id) ∧ tree_step v v' ∧
    (∀ q id', slots v' q id' = set_slot p id 0 (slots v) q id') ∧ kmem (vol_fs v') = kmem (vol_fs v)).
Proof.
  intros H (o & Hp & Ho) Hid. unfold yaffs_find_del_file_chunk. eapply ends_bind, ends_the_obj; [exact Hp|].
  pose proof (trees_file tp _ _ p o (fo_trees _ H) Hp Ho) as Hf.
  apply ends_bind. eexists _, v. split; [apply (in_fs_same _ v _ (find_tnode_0_run tp _ id _ _ Hid Hf))|].
  pose proof (slot_file v p o id Hp Ho Hid) as Es. pose proof (level_reach v p o H Hp Ho) as Hlr.
  assert (slots v p id = 0 → -1 = (if decide (slots v p id = 0) then -1 else slots v p id) ∧ tree_step v v ∧
    (∀ q id', slots v q id' = set_slot p id 0 (slots v) q id') ∧ kmem (vol_fs v) = kmem (vol_fs v)) as Hnone.
  { intros Ez. rewrite decide_True by done. split; [done|]. split; [by apply tree_step_refl|]. split; [|done].
    intros q id'. unfold set_slot. by destruct (decide _) as [[-> ->]|]. }
  destruct (decide (id ≤ YAFFS_MAX_CHUNK_ID ∧ id < reach (level_of (file_variant o)))) as [[Hm Hr]|Hn].
  2: { apply ends_ret, Hnone. destruct (decide (slots v p id = 0)) as [|Hne]; [done|].
       destruct (slot_reach v p o id H Hp Ho Hid Hne) as (_ & Hr & _). lia. }
  set (tn := leaf_at _ _ _ _). destruct (Z.eqb_spec tn 0) as [Et|Hn].
  { apply ends_ret, Hnone. destruct (decide (slots v p id = 0)) as [|Hne]; [done|]. by destruct (slot_reach v p o id H Hp Ho Hid Hne) as (_ & _ & ?). }
  apply ends_bind. eexists _, v. split; [apply (in_fs_same _ v _ (get_group_base_run tp _ id _ _ tn (conj Hid Hr) Hf eq_refl Hn))|].
  rewrite <- Es, (proj1 (slot_s32 v p id H)). apply ends_bind. eexists _, v. split; [by apply find_chunk_in_group_run|]. cbn [fst].
  destruct (decide (slots v p id = 0)) as [Ez|Hne].
  { apply ends_bind, ends_ret, ends_ret. cbn [fst]. destruct (Hnone Ez) as (_ & Hrest). by split. }
  destruct (slot_s32 v p id H) as (_ & H0 & _). destruct (Z.eqb_spec (slots v p id) (-1)) as [|_]; [lia|]. cbn [negb when].
  destruct (load_tnode_0_run tp (file_variant o) id 0 _ _ tn (conj Hid Hr) ltac:(lia) Hf eq_refl Hn) as (x & s2 & Hload & Hf2 & Hs2 & Hleaf2 & Hg2).
  apply ends_bind, ends_in_fs. exists x, s2. split; [exact Hload|]. apply ends_ret. split; [done|].
  assert (set_vol_fs s2 v = with_tree s2 p o v) as ->.
  { unfold with_tree. cbn [objs set_vol_fs]. rewrite insert_id by done. by destruct v. }
  assert (rooted s2 (file_variant o)) as Hr2.
  { unfold rooted. rewrite Hleaf2 by lia. by apply (tr_file _ _ _ (fo_trees _ H) p o). }
  destruct (with_tree_step s2 p o o v H Hp Ho ltac:(done) Hf2 Hs2 Hr2) as (T1 & T2 & T3). split; [done|].
  split; [|exact (load_tnode_heap _ _ _ _ _ _ Hload)].
  assert (group_round tp 0 = 0) as Hround.
  { apply (group_round_id tp); rewrite ?Hgrp; [|lia|done]. split; [lia|]. apply Z.pow_pos_nonneg; [lia|]. destruct Htg; lia. }
  intros q id'. unfold set_slot. destruct (decide (id' < 0)); [rewrite !slot_neg by lia; by destruct (decide _)|].
  destruct (decide (q = p)) as [->|]; [|rewrite decide_False by tauto; by apply T3]. rewrite T2, Hg2 by lia.
  destruct (decide (id' = id)) as [->|]; [by rewrite decide_True|]. rewrite decide_False by tauto.
  symmetry. apply (slot_file v p o); [done|done|lia].
Qed.

(** The loop of [yaffs_prune_chunks]. *)
Lemma prune_one_run n v p id : files_ok v → file_at v p → 0 ≤ id → budget n v →
  ends (chunk ← yaffs_find_del_file_chunk tp p id u;
        when (1 <=? chunk) (
          if (u32 chunk <? internal_start_block * chunks_per_block) || ((internal_end_block + 1) * chunks_per_block <=? u32 chunk) then mret ()
          else upd_obj p (λ o, set_ob_n_data_chunks (ob_n_data_chunks o - 1) o);; in_dev (yaffs_chunk_del u chunk true))) v (λ _ v',
    files_ok v' ∧ objs_like v v' ∧ beside v v' ∧ budget n v' ∧ wrote p id (replicate (Z.to_nat data_bytes_per_chunk) 0) v v').
Proof.
  intros H Hp Hid (Hmem & Hseq & Her). pose proof (fo_held _ H) as Hh.
  eapply ends_seq; [by apply (find_del_run v p id)|]. intros r v1 (-> & T1 & Hsl1 & Hm1).
  pose proof (ts_dev _ _ T1) as Ha1. pose proof (al_blocks _ _ Ha1) as Eb1.
  destruct (held_alike _ _ _ _ Ha1 (held_clear _ _ _ p id Hh)) as [Hh1 Hd1].
  pose proof (tree_step_ok v v1 _ H T1 Hsl1 Hh1) as H1.
  assert (wrote p id (replicate (Z.to_nat data_bytes_per_chunk) 0) v v1) as W1.
  { intros q id'. unfold disk. rewrite Hsl1, Hd1. unfold set_slot. by destruct (decide (q = p ∧ id' = id)). }
  assert (budget n v1) as Hb1 by (split; [by rewrite Hm1|]; by rewrite Eb1).
  destruct (slot_s32 v p id H) as (_ & H0 & _). destruct (decide (slots v p id = 0)) as [E|E].
  { apply ends_ret. split; [done|]. split; [apply T1|]. split; [apply T1|]. done. }
  rewrite (proj2 (Z.leb_le 1 _)) by lia. cbn [when].
  destruct (he_at _ _ _ Hh p id E) as (l0 & t0 & Hat0 & _). destruct (holds_at_chunk _ _ _ _ Hat0 (he_sound _ _ _ Hh)) as (Hk & Hk31 & _).
  pose proof (holds_at_first _ _ _ _ Hat0) as Hfirst. rewrite wrapu_id by (unfold in_u; lia).
  rewrite (proj2 (Z.ltb_ge _ (internal_start_block * _))), (proj2 (Z.leb_gt _ _)) by lia. cbn [orb].
  pose proof (objs_like_file v v1 p (ts_objs _ _ T1) Hp) as (o & Hpo & Ho).
  apply ends_bind. eapply ends_upd_obj; [exact Hpo|]. set (v2 := set_objs _ v1).
  assert (tree_step v1 v2 ∧ ∀ q id', slots v2 q id' = slots v1 q id') as [T2 Hsl2] by (by apply (obj_step p o)).
  destruct (same_slots_ok v1 v2 H1 T2 Hsl2) as [H2 Hd2].
  assert (holds_at (dev_of v2) (slots v p id) l0 t0) as Hat2.
  { eapply stays_holds_at; [exact Hat0|]. intros blk c _ L. apply (alike_stays _ _ _ _ (transitivity Ha1 (ts_dev _ _ T2)) L). }
  assert (∀ q id', slots v2 q id' ≠ slots v p id) as Hfr.
  { intros q id'. rewrite Hsl2, Hsl1. unfold set_slot. destruct (decide (q = p ∧ id' = id)) as [|Hne]; [intros E'; by rewrite <- E' in E|].
    intros E'. apply Hne. symmetry in E'. by destruct (he_inj _ _ _ Hh p id q id' E E') as [-> ->]. }
  apply ends_in_dev. eapply ends_mono; [apply (held_del _ _ _ _ _ _ u true (fo_held _ H2) Hat2 Hfr)|].
  intros x d3 (Hh3 & Hd3 & Hs3). split; [by apply with_dev_ok|]. split; [etrans; [apply T1|apply T2]|]. split; [etrans; [apply T1|apply T2]|]. split.
  - split; [by rewrite <- Hm1 in Hmem|]. unfold spent in Hs3. change (blocks (dev_of v2)) with (blocks (dev_of v1)) in Hs3. rewrite Eb1 in Hs3.
    change (dev_of (with_dev d3 v2)) with d3. lia.
  - intros q id'. rewrite <- (W1 q id'), <- Hd2. apply Hd3.
Qed.

Abbreviation zeros := (replicate (Z.to_nat data_bytes_per_chunk) 0).

(** The chunks in the range are gone. *)
Definition cleared (p from to : Z) v v' : Prop :=
  ∀ q id, disk v' q id = if decide (q = p ∧ from ≤ id < to) then zeros else disk v q id.

Lemma prune_loop_run n p : ∀ k i v, files_ok v → file_at v p → Z.of_nat k ≤ i + 1 → budget n v →
  ends (prune_loop tp u k p i) v (λ _ v', files_ok v' ∧ objs_like v v' ∧ beside v v' ∧ budget n v' ∧ cleared p (i + 1 - Z.of_nat k) (i + 1) v v').
Proof.
  induction k as [|k IH]; intros i v H Hp Hi Hb; cbn [prune_loop].
  - apply ends_ret. split; [done|]. split; [done|]. split; [done|]. split; [done|]. intros q id. rewrite decide_False; [done|lia].
  - apply ends_assoc. eapply ends_seq; [apply (prune_one_run n v p i); [done|done|lia|done]|]. intros _ v1 (H1 & O1 & B1 & Hb1 & W1).
    eapply ends_mono; [apply (IH (i - 1) v1 H1); [by eapply objs_like_file|lia|done]|]. intros _ v2 (H2 & O2 & B2 & Hb2 & C2).
    split; [done|]. split; [by etrans|]. split; [by etrans|]. split; [done|]. intros q id. rewrite C2, W1.
    destruct (decide (q = p ∧ i - 1 + 1 - Z.of_nat k ≤ id < i - 1 + 1)); [rewrite decide_True by lia; done|].
    destruct (decide (q = p ∧ id = i)); [rewrite decide_True by lia; done|]. rewrite decide_False; [done|lia].
Qed.

(** [yaffs_prune_chunks] takes the chunks away that begin at the new size or behind it. *)
Lemma prune_chunks_run n v p new_size : files_ok v → file_at v p → budget n v → 0 ≤ new_size < size_of v p → addressable (size_of v p + data_bytes_per_chunk) →
  ends (yaffs_prune_chunks tp u p new_size) v (λ _ v', files_ok v' ∧ objs_like v v' ∧ beside v v' ∧ budget n v' ∧
    cleared p ((new_size + data_bytes_per_chunk - 1) / data_bytes_per_chunk + 1) ((size_of v p - 1) / data_bytes_per_chunk + 2) v v').
Proof.
  intros H Hp Hb Hn Ha. pose proof pd_size as Hsz. unfold yaffs_prune_chunks. pose proof Hp as (o & Hpo & Ho).
  eapply ends_bind, ends_the_obj; [exact Hpo|]. assert (file_size (file_variant o) = size_of v p) as Es by (unfold size_of; by rewrite Hpo).
  rewrite Es. rewrite (proj2 (Z.ltb_lt 0 (size_of v p))) by lia.
  destruct (addr_to_chunk_run (size_of v p - 1)) as (-> & _ & Hd1); [eapply addressable_le; [|exact Ha]; lia|].
  destruct (addr_to_chunk_run (new_size + data_bytes_per_chunk - 1)) as (-> & _ & Hd2); [eapply addressable_le; [|exact Ha]; lia|]. cbn [fst].
  set (a := (new_size + _ - 1) / _) in *. set (b := (size_of v p - 1) / _) in *.
  assert (0 ≤ a ≤ b + 1) as Hab.
  { split; [lia|]. unfold a, b. replace (new_size + data_bytes_per_chunk - 1) with (new_size - 1 + 1 * data_bytes_per_chunk) by lia.
    rewrite Z.div_add by lia. pose proof (Z.div_le_mono (new_size - 1) (size_of v p - 1) data_bytes_per_chunk). lia. }
  eapply ends_mono; [apply (prune_loop_run n p _ (b + 1) v H Hp); [lia|done]|]. intros _ v' (H1 & O1 & B1 & Hb1 & C1).
  split; [done|]. split; [done|]. split; [done|]. split; [done|]. intros q id. rewrite C1.
  destruct (decide (q = p ∧ a + 1 ≤ id < b + 2)) as [E|E]; [rewrite decide_True by lia; done|rewrite decide_False by lia; done].
Qed.

(** The last chunk, of which [m] bytes are kept. *)
Lemma cut_chunk_run n v p id w : files_ok v → file_at v p → 1 ≤ id ≤ YAFFS_MAX_CHUNK_ID → budget (S n) v → 0 < w < data_bytes_per_chunk →
  ends (buffer ← in_dev yaffs_get_temp_buffer;
        r ← yaffs_rd_data_obj tp u p id temp_bytes;
        data ← defined (overlay r.2 w (replicate (Z.to_nat (data_bytes_per_chunk - w)) 0));
        _ ← yaffs_wr_data_obj tp fuel u p id data w true;
        in_dev (yaffs_release_temp_buffer buffer)) v (λ _ v', files_ok v' ∧ objs_like v v' ∧ beside v v' ∧ budget n v' ∧
    wrote p id (take (Z.to_nat w) (disk v p id) ++ replicate (Z.to_nat (data_bytes_per_chunk - w)) 0) v v').
Proof.
  intros H Hp Hid Hb Hw. pose proof pd_size as Hsz. pose proof bo_temp as Ht.
  eapply ends_seq; [apply (in_dev_still _ v (λ _, True)); eapply ends_mono; [apply get_temp_run|done]|]. intros b v1 [_ Hs1].
  destruct (still_ok v v1 H Hs1) as [H1 Hd1]. pose proof (still_objs _ _ Hs1) as [O1 B1].
  eapply ends_seq; [apply (rd_data_obj_run v1 p id temp_bytes H1); [by eapply objs_like_file|lia|rewrite Ht, <- pd_data; lia]|].
  intros r v2 [Hr Hs2]. rewrite drop_ge, app_nil_r in Hr by (rewrite pd_data; lia). rewrite Hr, Hd1.
  destruct (still_ok v1 v2 H1 Hs2) as [H2 Hd2]. pose proof (still_objs _ _ Hs2) as [O2 B2].
  assert (zlen (disk v p id) = data_bytes_per_chunk) as Hlen by (eapply held_data_length, fo_held, H).
  apply ends_bind. eapply ends_defined; [apply overlay_pasted; [lia|rewrite length_replicate; lia]|].
  assert (pasted (disk v p id) w (replicate (Z.to_nat (data_bytes_per_chunk - w)) 0) =
          take (Z.to_nat w) (disk v p id) ++ replicate (Z.to_nat (data_bytes_per_chunk - w)) 0) as ->.
  { unfold pasted. rewrite drop_ge by (rewrite length_replicate; lia). by rewrite app_nil_r. }
  eapply ends_seq; [apply (wr_data_obj_run n v2); [done|by eapply objs_like_file; [etrans; [exact O1|exact O2]|]|done| |lia|by eapply budget_still, budget_still]|].
  { rewrite length_app, length_take, length_replicate. lia. }
  intros r' v3 (H3 & O3 & B3 & Hb3 & [[_ W]|(_ & [=] & _)]).
  eapply ends_mono; [apply (in_dev_still _ v3 (λ _, True)); eapply ends_mono; [apply release_temp_run|done]|]. intros [] v4 [_ Hs4].
  destruct (still_ok v3 v4 H3 Hs4) as [H4 Hd4]. pose proof (still_objs _ _ Hs4) as [O4 B4].
  split; [done|]. split; [etrans; [exact O1|]; etrans; [exact O2|]; by etrans|]. split; [etrans; [exact B1|]; etrans; [exact B2|]; by etrans|].
  split; [by eapply budget_still|]. intros q id'. rewrite Hd4, W, Hd2, Hd1. done.
Qed.

(** The data of the chunk [id] when a file of [size] bytes is cut to [new_size]. *)
Definition cut_chunk (new_size size id : Z) (l : list Z) : list Z :=
  if decide ((new_size + data_bytes_per_chunk - 1) / data_bytes_per_chunk + 1 ≤ id < (size - 1) / data_bytes_per_chunk + 2) then zeros
  else if decide (id = new_size / data_bytes_per_chunk + 1 ∧ new_size mod data_bytes_per_chunk ≠ 0) then
    take (Z.to_nat (new_size mod data_bytes_per_chunk)) l ++ replicate (Z.to_nat (data_bytes_per_chunk - new_size mod data_bytes_per_chunk)) 0
  else l.

Lemma lower_loop_size n : ∀ f s f' s', lower_loop n f s = Ok (f', s') → file_size f' = file_size f.
Proof.
  induction n as [|n IH]; intros f s f' s'; cbn [lower_loop]; [by intros [= <- _]|].
  intros (b & s1 & _ & E)%bind_inv. destruct b; [by injection E as <- _|]. apply bind_inv in E as (t & s2 & _ & E).
  apply bind_inv in E as (x & s3 & _ & E). by apply IH in E.
Qed.

Lemma prune_tree_size f s f' s' : yaffs_prune_tree tp f s = Ok (f', s') → file_size f' = file_size f.
Proof.
  unfold yaffs_prune_tree. destruct (_ <? _); [by intros [= <- _]|]. intros (t & s1 & _ & E)%bind_inv. by apply lower_loop_size in E.
Qed.

(** The tree of a file is pruned. *)
Lemma prune_file_run n v p : files_ok v → file_at v p → budget n v →
  ends (o ← the_obj p; f ← in_fs (yaffs_prune_tree tp (file_variant o)); upd_file p (λ _, f)) v (λ _ v',
    files_ok v' ∧ objs_like v v' ∧ beside v v' ∧ budget n v' ∧ ∀ q id, disk v' q id = disk v q id).
Proof.
  intros H (o & Hp & Ho) Hb. eapply ends_bind, ends_the_obj; [exact Hp|].
  pose proof (trees_file tp _ _ p o (fo_trees _ H) Hp Ho) as Hf. destruct (tr_file _ _ _ (fo_trees _ H) p o Hp Ho) as [Hlev Hroot].
  destruct (prune_tree_run tp (file_variant o) _ _ Hf Hroot) as (f & s & Hrun & Hf' & Hr' & Hs & Hg).
  apply ends_bind, ends_in_fs. exists f, s. split; [exact Hrun|]. unfold upd_file. eapply (ends_upd_obj p o); [exact Hp|].
  set (o' := set_file_variant f o). change (set_objs _ _) with (with_tree s p o' v).
  assert (obj_like o o') as Hlike by (split; [done|]; split; [done|]; exact (prune_tree_size _ _ _ _ Hrun)).
  destruct (with_tree_step s p o o' v H Hp Ho Hlike Hf' Hs Hr') as (T1 & T2 & T3).
  destruct (same_slots_ok v _ H T1) as [H1 Hd].
  { intros q id. destruct (decide (id < 0)); [by rewrite !slot_neg|]. destruct (decide (q = p)) as [->|]; [|by apply T3].
    rewrite T2 by lia. cbn [file_variant o' set_file_variant]. rewrite Hg by lia. symmetry. apply (slot_file v p o); [done|done|lia]. }
  split; [done|]. split; [apply T1|]. split; [apply T1|]. split; [|done].
  pose proof (prune_tree_heap tp (file_variant o) _ _ _ Hrun) as Hk. unfold heap_kept in Hk.
  destruct Hb as (B1 & B2 & B3). pose proof (al_blocks _ _ (ts_dev _ _ T1)) as Eb. split; [|by rewrite Eb].
  change (vol_fs (with_tree s p o' v)) with s. by rewrite Hk.
Qed.

(** What a change of one file leaves of the others. *)
Definition others_like (p : Z) v v' : Prop := ∀ q, q ≠ p → option_Forall2 obj_like (objs v !! q) (objs v' !! q).

Lemma others_trans p v1 v2 v3 : others_like p v1 v2 → objs_like v2 v3 → others_like p v1 v3.
Proof.
  intros H1 H2 q Hq. specialize (H1 q Hq). specialize (H2 q).
  destruct H1 as [o1 o2 (E1 & E2 & E3)|]; inversion H2 as [? o3 (G1 & G2 & G3)|]; subst; constructor. split; [congruence|]. split; congruence.
Qed.

(** The size of a file is set. *)
Lemma set_sizes_run n v p new_size : files_ok v → file_at v p → budget n v →
  ends (upd_file p (λ f, set_stored_size new_size (set_file_size new_size f))) v (λ _ v',
    files_ok v' ∧ others_like p v v' ∧ file_at v' p ∧ size_of v' p = new_size ∧ beside v v' ∧ budget n v' ∧ ∀ q id, disk v' q id = disk v q id).
Proof.
  intros H Hp Hb. pose proof Hp as (o & Hpo & Ho). unfold upd_file. eapply ends_upd_obj; [exact Hpo|].
  set (o' := set_file_variant _ o). assert (kept_obj o o') as Hk by done.
  destruct (upd_obj_kept_files v p o o' H Hpo Hk) as [H' Hd]. split; [done|].
  split; [|split; [by apply (file_at_insert v p o o')|split; [|split; [done|split; [done|done]]]]].
  - intros q Hq. cbn. rewrite lookup_insert_ne by done. by destruct (objs v !! q); constructor.
  - unfold size_of. cbn. by rewrite lookup_insert_eq.
Qed.

Lemma resize_file_down_run n v p new_size : files_ok v → file_at v p → budget (S n) v → 0 ≤ new_size < size_of v p →
  addressable (size_of v p + data_bytes_per_chunk) →
  ends (yaffs_resize_file_down tp fuel u p new_size) v (λ _ v', files_ok v' ∧ others_like p v v' ∧ file_at v' p ∧ size_of v' p = new_size ∧
    beside v v' ∧ budget n v' ∧ ∀ q id, disk v' q id = if decide (q = p) then cut_chunk new_size (size_of v p) id (disk v p id) else disk v q id).
Proof.
  intros H Hp Hb Hn Ha. pose proof pd_size as Hsz. unfold yaffs_resize_file_down.
  destruct (addr_to_chunk_run new_size) as (-> & Hm & Hd0); [eapply addressable_le; [|exact Ha]; lia|].
  eapply ends_seq; [by apply (prune_chunks_run (S n) v p new_size)|]. intros _ v1 (H1 & O1 & B1 & Hb1 & C1).
  set (full := new_size / data_bytes_per_chunk) in *. set (w := new_size mod data_bytes_per_chunk) in *.
  assert (full + 1 ≤ YAFFS_MAX_CHUNK_ID) as Hid.
  { enough (full < YAFFS_MAX_CHUNK_ID) by lia. apply Z.div_lt_upper_bound; [lia|]. destruct Ha. lia. }
  eapply (ends_seq _ _ _ (λ _ v2, files_ok v2 ∧ objs_like v1 v2 ∧ beside v1 v2 ∧ budget n v2 ∧
    ∀ q id, disk v2 q id = if decide (q = p) then cut_chunk new_size (size_of v p) id (disk v p id) else disk v q id)).
  - apply ends_when.
    + intros Hw%negb_true_iff%Z.eqb_neq. rewrite (Z.add_comm 1 full).
      eapply ends_mono; [apply (cut_chunk_run n v1 p (full + 1) w H1); [by eapply objs_like_file|lia|done|lia]|].
      intros _ v2 (H2 & O2 & B2 & Hb2 & W2). split; [done|]. split; [done|]. split; [done|]. split; [done|].
      assert (full + 1 < (new_size + data_bytes_per_chunk - 1) / data_bytes_per_chunk + 1) as Hlt.
      { enough ((new_size + data_bytes_per_chunk - 1) / data_bytes_per_chunk = full + 1) by lia. symmetry.
        apply (Z.div_unique _ _ _ (w - 1)); [lia|]. destruct (position new_size) as [E _]; [lia|]. fold full w in E. lia. }
      intros q id. rewrite W2. unfold cut_chunk. fold full w. destruct (decide (q = p)) as [->|Hq].
      * destruct (decide (p = p ∧ id = full + 1)) as [[_ ->]|Hne].
        -- rewrite decide_False by lia. rewrite decide_True by done. by rewrite C1, decide_False by lia.
        -- rewrite C1. destruct (decide (_ ≤ id < _)); [by rewrite decide_True|]. rewrite decide_False by tauto. rewrite decide_False; [done|]. tauto.
      * rewrite decide_False by tauto. by rewrite C1, decide_False by tauto.
    + intros Hw%negb_false_iff%Z.eqb_eq. split; [done|]. split; [done|]. split; [done|]. split; [eapply budget_le; [|exact Hb1]; lia|].
      intros q id. rewrite C1. unfold cut_chunk. fold full w. destruct (decide (q = p)) as [->|Hq]; [|by rewrite decide_False by tauto].
      destruct (decide (_ ≤ id < _)) as [Hin|Hin]; [by rewrite decide_True|]. rewrite decide_False by tauto. rewrite decide_False; [done|]. tauto.
  - intros _ v2 (H2 & O2 & B2 & Hb2 & D2). pose proof (transitivity O1 O2) as O12.
    eapply ends_seq; [apply (set_sizes_run n v2 p new_size H2); [by eapply objs_like_file|done]|]. intros _ v3 (H3 & O3 & F3 & S3 & B3 & Hb3 & D3).
    eapply ends_mono; [by apply (prune_file_run n v3 p)|]. intros _ v4 (H4 & O4 & B4 & Hb4 & D4).
    split; [done|]. split; [|split; [by eapply objs_like_file|split; [by rewrite (objs_like_size v3 v4)|split; [|split; [done|]]]]].
    + apply (others_trans p v v3); [|done]. intros q Hq. specialize (O3 q Hq). specialize (O12 q).
      destruct O12 as [o1 o2 (E1 & E2 & E3)|]; inversion O3 as [? o3 (G1 & G2 & G3)|]; subst; constructor. split; [congruence|]. split; congruence.
    + etrans; [exact B1|]. etrans; [exact B2|]. by etrans.
    + intros q id. by rewrite D4, D3, D2.
Qed.

Lemma others_like_trans p v1 v2 v3 : objs_like v1 v2 → others_like p v2 v3 → others_like p v1 v3.
Proof.
  intros H1 H2 q Hq. specialize (H1 q). specialize (H2 q Hq).
  destruct H1 as [o1 o2 (E1 & E2 & E3)|]; inversion H2 as [? o3 (G1 & G2 & G3)|]; subst; constructor. split; [congruence|]. split; congruence.
Qed.

(** *** The bytes of a file that is cut *)

Lemma div_ceil x : 0 < x → (x + data_bytes_per_chunk - 1) / data_bytes_per_chunk = (x - 1) / data_bytes_per_chunk + 1.
Proof.
  intros Hx. pose proof pd_size as Hsz. replace (x + data_bytes_per_chunk - 1) with (x - 1 + 1 * data_bytes_per_chunk) by lia.
  rewrite Z.div_add by lia. done.
Qed.

Lemma zeros_lookup n i : default 0 (replicate n (0 : Z) !! i) = 0.
Proof. destruct (replicate n 0 !! i) as [x|] eqn:E; [|done]. by apply lookup_replicate in E as [-> _]. Qed.

Lemma cut_byte new_size size x l : 0 ≤ new_size < size → 0 ≤ x → zlen l = data_bytes_per_chunk →
  let b := default 0 (cut_chunk new_size size (x / data_bytes_per_chunk + 1) l !! Z.to_nat (x mod data_bytes_per_chunk)) in
  let b0 := default 0 (l !! Z.to_nat (x mod data_bytes_per_chunk)) in
  (x < new_size → b = b0) ∧ (new_size ≤ x < size → b = 0) ∧ (b = 0 ∨ b = b0).
Proof.
  intros Hn Hx Hl b b0. pose proof pd_size as Hsz. destruct (position x Hx) as [Ex Bx], (position new_size) as [En Bn]; [lia|].
  unfold b, cut_chunk. clear b. set (id := x / data_bytes_per_chunk + 1) in *. set (full := new_size / data_bytes_per_chunk) in *.
  set (w := new_size mod data_bytes_per_chunk) in *. set (r := x mod data_bytes_per_chunk) in *.
  assert (x < new_size → id < (new_size + data_bytes_per_chunk - 1) / data_bytes_per_chunk + 1) as H1.
  { intros Hlt. rewrite div_ceil by lia. pose proof (Z.div_le_mono x (new_size - 1) data_bytes_per_chunk). unfold id. lia. }
  assert (x < size → id < (size - 1) / data_bytes_per_chunk + 2) as H2.
  { intros Hlt. pose proof (Z.div_le_mono x (size - 1) data_bytes_per_chunk). unfold id. lia. }
  destruct (decide (_ ≤ id < _)) as [Hin|Hin]; [rewrite zeros_lookup; split; [lia|split; [done|by left]]|].
  destruct (decide (id = full + 1 ∧ w ≠ 0)) as [[Eid Hw]|Hne].
  - assert (x - new_size = r - w) as Exn by (unfold id in Eid; nia). destruct (decide (r < w)) as [Hlt|Hge].
    + rewrite lookup_app_l by (rewrite length_take; lia). rewrite lookup_take_lt by lia. split; [done|]. split; [lia|by right].
    + rewrite lookup_app_r by (rewrite length_take; lia). rewrite zeros_lookup. split; [lia|]. split; [done|by left].
  - split; [done|]. split; [|by right]. intros Hr. exfalso. apply Hin. split; [|apply H2; lia].
    assert (full ≤ x / data_bytes_per_chunk) as Hle by (apply Z.div_le_mono; lia).
    destruct (decide (w = 0)) as [Ew|Ew].
    + enough ((new_size + data_bytes_per_chunk - 1) / data_bytes_per_chunk = full) by (unfold id; lia). symmetry.
      apply (Z.div_unique _ _ _ (data_bytes_per_chunk - 1)); lia.
    + enough ((new_size + data_bytes_per_chunk - 1) / data_bytes_per_chunk = full + 1) as ->.
      { assert (id ≠ full + 1) by tauto. unfold id in *. lia. }
      symmetry. apply (Z.div_unique _ _ _ (w - 1)); lia.
Qed.

(** A file that no element of the cache is for. *)
Definition no_elements v (p : Z) : Prop := ∀ i c, cache v !! i = Some c → ca_object c ≠ p.

Lemma no_elements_view v p id : no_elements v p → view v p id = disk v p id.
Proof. intros H. apply uncached_view. intros j c Hc [E _]. by apply (H j c). Qed.

Lemma beside_cached k k' v v' p : cached k v → no_elements v p → files_ok v' → budget k' v' → others_like p v v' → beside v v' →
  (∀ q id, q ≠ p → disk v' q id = disk v q id) → cached k' v' ∧ no_elements v' p ∧ ∀ q id, q ≠ p → view v' q id = view v q id.
Proof.
  intros [H [C1 C2 C3] Hb] Hno H' Hb' Ho [B1 B2] Hd. split; [|split].
  - split; [done| |done]. split; rewrite ?B1; [done| |done]. intros i c Hc. destruct (C2 i c Hc) as (L1 & L2 & L3).
    split; [done|]. split; [done|]. intros Hne. destruct (L3 Hne) as (F1 & F2 & F3). pose proof (Hno i c Hc) as Hcp.
    split; [by apply (objs_like_file_iff v v' _ (Ho _ Hcp))|]. split; [done|]. by rewrite Hd.
  - intros i c. rewrite B1. apply Hno.
  - intros q id Hq. unfold view. rewrite B1. by rewrite Hd.
Qed.

Lemma invalidate_whole_none v p : no_elements v p → yaffs_invalidate_whole_cache p v = Ok ((), v).
Proof.
  intros Hno. unfold yaffs_invalidate_whole_cache, modify. do 2 f_equal. replace (imap _ (cache v)) with (cache v); [by destruct v|].
  apply list_eq. intros i. rewrite list_lookup_imap. destruct (cache v !! i) as [c|] eqn:Hc; [|done]. cbn. f_equal.
  destruct (decide _); [|done]. by rewrite (proj2 (Z.eqb_neq _ _) (Hno i c Hc)).
Qed.

(** C4. Truncation. From a well-formed volume with room for what it may have to write,
    [yaffs_resize_file] to a smaller size gets to the writing of the header without a fault, whatever
    the object's own part then does: by then the file has the new size, the bytes below it are
    kept, those between the new and the old size read as zero whatever the size is set to later,
    no element of the cache is for it, and the other files are as they were. *)
Theorem resize_file_cuts k v p new_size : cached (n_caches + S k) v → file_at v p → 0 ≤ new_size < size_of v p →
  addressable (size_of v p + data_bytes_per_chunk) →
  ∃ v', yaffs_resize_file tp fuel u p new_size v = resize_header p v' ∧ cached k v' ∧ file_at v' p ∧ size_of v' p = new_size ∧
    no_elements v' p ∧ others_like p v v' ∧
    (∀ x, 0 ≤ x < new_size → byte_at v' p x = byte_at v p x) ∧
    (∀ x, new_size ≤ x < size_of v p → byte_at v' p x = 0) ∧
    (∀ q x, q ≠ p → q ≠ 0 → 0 ≤ x → byte_at v' q x = byte_at v q x).
Proof.
  intros Hch Hp Hn Ha. pose proof (file_not_null v p (ch_files _ _ Hch) Hp) as Hp0. pose proof Hp as (o & Hpo & Ho).
  assert (file_size (file_variant o) = size_of v p) as Es by (unfold size_of; by rewrite Hpo).
  destruct (flush_file_run (S k) v p true Hch Hp0) as ([] & v1 & Hfl & G1 & [O1 V1] & F1).
  assert (no_elements v1 p) as N1.
  { intros i c Hc E. destruct (F1 i c) as [[=] _]; [|done..]. rewrite <- (co_len _ (ch_cache _ _ G1)). by eapply lookup_lt_Some. }
  pose proof (objs_like_file v v1 p O1 Hp) as Hp1. pose proof Hp1 as (o1 & Hpo1 & Ho1). rewrite <- (objs_like_size v v1 p O1) in *.
  destruct (resize_file_down_run k v1 p new_size (ch_files _ _ G1) Hp1 (ch_budget _ _ G1) Hn Ha) as ([] & v2 & Hrd & H2 & O2 & F2 & S2 & B2 & Hb2 & D2).
  destruct (beside_cached (S k) k v1 v2 p G1 N1 H2 Hb2 O2 B2) as (G2 & N2 & V2); [intros q id Hq; by rewrite D2, decide_False|].
  exists v2. split; [|split; [done|split; [done|split; [done|split; [done|]]]]].
  - unfold yaffs_resize_file, the_obj. prog_simpl. rewrite Hpo. prog_simpl. rewrite (bind_Ok _ _ _ _ _ Hfl), (bind_Ok _ _ _ _ _ (invalidate_whole_none v1 p N1)).
    rewrite (bind_Ok _ _ _ _ _ (check_gc_off false v1)). prog_simpl. rewrite Hpo1. prog_simpl. rewrite Ho1. cbn [negb Z.eqb Pos.eqb YAFFS_OBJECT_TYPE_FILE].
    rewrite Es, (proj2 (Z.eqb_neq _ _)), (proj2 (Z.ltb_ge _ _)) by lia. by rewrite (bind_Ok _ _ _ _ _ Hrd).
  - assert (∀ x, 0 ≤ x → let b := byte_at v2 p x in let b0 := byte_at v p x in
      (x < new_size → b = b0) ∧ (new_size ≤ x < size_of v1 p → b = 0) ∧ (b = 0 ∨ b = b0)) as Hbyte.
    { intros x Hx. unfold byte_at. rewrite (no_elements_view v2), D2, decide_True by done. rewrite <- V1, (no_elements_view v1) by done.
      apply cut_byte; [done|done|]. eapply held_data_length, fo_held, G1. }
    split; [intros q Hq; by eapply (others_like_trans p v v1)|]. split; [intros x [Hx Hlt]; by destruct (Hbyte x Hx) as (E & _ & _); apply E|].
    split; [intros x Hx; destruct (Hbyte x ltac:(lia)) as (_ & E & _); by apply E|].
    intros q x Hq Hq0 Hx. unfold byte_at. by rewrite V2, V1.
Qed.
End files.

(** ** A file on a small device

    The device of [YaffsStore] with three more erased blocks; the file at 8192 has one chunk, which is
    chunk 48 of the device, and the cache two elements, which are free. *)

Definition vol_cfg : yaffs_config := {|
  inband_tags := false; total_bytes_per_chunk := 32; chunks_per_block := 16;
  start_block := 1; end_block := 6; n_reserved_blocks := 0; use_nand_ecc := true;
  no_tags_ecc := false; is_yaffs2 := true; refresh_period := 0; skip_checkpt_wr := false;
  always_check_erased := false; disable_bad_block_marking := false;
  data_bytes_per_chunk := 32; tnode_size := 32; swap_endian := false; read_only := false;
  internal_start_block := 1; internal_end_block := 6; block_offset := 0; chunk_offset := 0;
  chunk_bit_stride := 2; chunks_per_summary := 8; temp_bytes := replicate 32 0;
  yaffs_wr_attempts := 0; skip_verification := true; trace_erase := false |}.

#[local] Existing Instances vol_cfg store_driver.

Lemma vol_geometry : geometry.
Proof. by split. Qed.
Lemma vol_buffers : buffers_ok.
Proof. by split. Qed.
Lemma vol_plain : plain_device.
Proof. by split. Qed.
Lemma vol_driver : driver_ok (Z → page).
Proof. split; [|by left]. intros. cbn. apply Forall_fmap, Forall_true. intros x. apply wrapu_range. lia. Qed.
Lemma vol_flash : good_flash (Z → page) vol_cfg store_driver.
Proof.
  refine {| content := λ (f : Z → page) k, page_u8 (f k) |}.
  - intros f n data_len oob_len. exists f. split; [done|]. cbn. destruct data_len, oob_len; cbn; by rewrite ?page_u8_data, ?page_u8_oob.
  - intros f n data len oob Hoob _. eexists. split; [|reflexivity]. intros k. cbn. destruct (decide (k = n)); [|done]. cbn. by rewrite u8_ids.
  - intros f b. eexists. split; [|reflexivity]. intros k. cbn. change chunks_per_block with 16. by destruct (decide _).
  - intros f b. by exists f.
Defined.

Definition vol_files : file_config (Z → page) := {| n_caches := 2; cache_bypass_aligned := false; gc_control_fn := Some (λ _, 0) |}.
Definition vol_objects : yaffs_objects (Z → page) Z := {| yaffs_update_oh _ _ _ _ := mret 0; yaffs_generic_obj_del _ := mret 0 |}.
#[local] Existing Instances vol_geometry vol_buffers vol_plain vol_driver vol_flash vol_files vol_objects demo_mem demo_mem_ok demo_tp_geo.

Definition vol_dev : yaffs_dev (Z → page) :=
  mk_dev store_flash_0
    (mk_blocks [demo_bi 0 1 YAFFS_BLOCK_STATE_ALLOCATING; demo_bi 0 0 YAFFS_BLOCK_STATE_EMPTY; demo_bi 0 2 YAFFS_BLOCK_STATE_FULL;
                demo_bi 0 0 YAFFS_BLOCK_STATE_EMPTY; demo_bi 0 0 YAFFS_BLOCK_STATE_EMPTY; demo_bi 0 0 YAFFS_BLOCK_STATE_EMPTY]
      [1; 0; 0; 0; 3; 0; 0; 0; 0; 0; 0; 0] 4 1 7 1 93 0x1001)
    (mk_gc false false 1 0 0 0 0 0 0 0 0 0 0) (mk_temp (replicate YAFFS_N_TEMP_BUFFERS false) 0 0 0 0)
    false 0 0 (Some (replicate 8 summary_tags_zero)) 1 1 (λ _, 0).

Definition vol_fs_0 : yaffs_fs (Z → page) Z := mk_fs vol_dev (Some (mk_alloc 0 0 0 [])) {[4096 := [Z.shiftl 48 16; 0; 0; 0; 0; 0; 0; 0]]} 4128.

Definition vol_file : yaffs_obj :=
  mk_obj false false false false false 0 None 0 1 257 YAFFS_OBJECT_TYPE_FILE (mk_file_var 32 32 0 0 4096).

Definition vol : yaffs_vol (Z → page) Z :=
  mk_vol vol_fs_0 {[8192 := vol_file]} {[1 := [8192]]} (replicate 2 (mk_cache 0 0 0 false 0 false (replicate 32 0))) 0 [] 0.

Lemma vol_in_range blk : in_range blk → blk ∈ [1; 2; 3; 4; 5; 6].
Proof. unfold in_range. cbn. intros H. assert (blk = 1 ∨ blk = 2 ∨ blk = 3 ∨ blk = 4 ∨ blk = 5 ∨ blk = 6) as E by lia. set_solver. Qed.

(** A property of the information on the six blocks. *)
Lemma vol_infos (P : Z → yaffs_block_info → Prop) :
  Forall (λ blk, from_option (P blk) True (info (blocks vol_dev) blk)) [1; 2; 3; 4; 5; 6] →
  ∀ blk x, in_range blk → info (blocks vol_dev) blk = Some x → P blk x.
Proof. intros H blk x Hr Hx. pose proof (proj1 (Forall_forall _ _) H blk (vol_in_range blk Hr)) as Hp. cbn beta in Hp. by rewrite Hx in Hp. Qed.

Lemma vol_blocks_ok : blocks_ok (blocks vol_dev).
Proof.
  split; [|done]. split.
  - split; [split; [done|]|done]. cbn. unfold in_u. repeat constructor; lia.
  - intros blk c _ Hc. cbn in Hc. lia.
  - intros blk x Hr%vol_in_range Hx. repeat (apply elem_of_cons in Hr as [->|Hr]); [injection Hx as <-..|by apply not_elem_of_nil in Hr];
      (split; [reflexivity|cbn; lia|vm_compute; set_solver| |]); cbn; try done; set_solver.
  - right. split; [done|done|by eexists|]. intros c Hc. cbn in Hc.
    assert (Forall (λ c, bit_at (blocks vol_dev) 1 c = false) (seqZ 7 9)) as Hall by (apply (bool_decide_eq_true_1 _); by vm_compute).
    apply (proj1 (Forall_forall _ _) Hall), elem_of_seqZ. lia.
  - done.
  - done.
Qed.

Lemma vol_sound : sound vol_dev.
Proof.
  split; [apply vol_blocks_ok|split; [done|by vm_compute]| |done|].
  - apply vol_infos. by repeat constructor.
  - intros blk c Hr Hc Hb. unfold addr, apply_chunk_offset, chunk_of. change chunks_per_block with 16 in *. change chunk_offset with 0.
    cbn [content vol_flash flash vol_dev]. unfold store_flash_0.
    assert (blk * 16 + c - 0 ≠ 16 ∧ blk * 16 + c - 0 ≠ 48 ∧ blk * 16 + c - 0 ≠ 49) as (N1 & N2 & N3);
      [|by rewrite !(proj2 (Z.eqb_neq _ _)) by lia].
    destruct Hb as [(x & Hx & Hst)|[Ha Hp]]; [|cbn in Ha, Hp; lia].
    assert (blk ≠ 1 ∧ blk ≠ 3) as [B1 B3] by (split; intros ->; injection Hx as <-; done). lia.
Qed.

(** The only chunk that a file has. *)
Lemma vol_slots p id : slots demo_tp vol p id = if decide (p = 8192 ∧ id = 1) then 48 else 0.
Proof.
  unfold slots, slot. cbn [objs vol]. destruct (decide (p = 8192)) as [->|Hp].
  - rewrite lookup_singleton_eq. destruct (decide (is_file vol_file ∧ 0 ≤ id)) as [[_ Hid]|Hid].
    + unfold file_group. destruct (decide (id < reach (level_of (file_variant vol_file)))) as [Hr|Hr].
      * change (reach _) with 16 in Hr.
        assert (Forall (λ id, group_of demo_tp (store vol_fs_0) (level_of (file_variant vol_file)) (top (file_variant vol_file)) id = if decide (8192 = 8192 ∧ id = 1) then 48 else 0)
          (seqZ 0 16)) as Hall by (apply (bool_decide_eq_true_1 _); by vm_compute).
        apply (proj1 (Forall_forall _ _) Hall), elem_of_seqZ. lia.
      * rewrite decide_False; [done|]. intros [_ ->]. by apply Hr.
    + rewrite decide_False; [done|]. intros [_ ->]. by apply Hid.
  - rewrite lookup_singleton_ne by done. by rewrite decide_False by tauto.
Qed.

Lemma vol_held : held vol_dev (slots demo_tp vol) (number vol).
Proof.
  split; [apply vol_sound| |].
  - intros p id. rewrite vol_slots. destruct (decide _) as [[-> ->]|]; [|done]. intros _.
    exists (replicate 32 7), demo_file_chunk. split; [|done]. exists 3, 0, (default [] (tags_image demo_file_chunk)).
    split; [done|]. split; [|split; [by vm_compute|split; [by vm_compute|split; [|done]]]].
    + split; [split; cbn; lia|done|by vm_compute|]. eexists. split; [reflexivity|]. cbn. unfold data_states. set_solver.
    + split; unfold in_u; cbn; lia.
  - intros p id q id'. rewrite !vol_slots. repeat destruct (decide _) as [[-> ->]|]; done.
Qed.

Lemma vol_files_ok : files_ok demo_tp vol.
Proof.
  split; [split|apply vol_held| |done].
  - split.
    + exists (mk_alloc 0 0 0 []), []. split; [done|]. split; [done|]. split; [done|]. change (NoDup [4096]). apply NoDup_singleton.
    + intros p ws Hp. cbn in Hp. apply lookup_singleton_Some in Hp as [<- <-]. split; [done|]. split; [|done]. split; [done|]. by repeat constructor.
    + intros p Hp. change (p ∈ [4096]) in Hp. apply list_elem_of_singleton in Hp as ->. by eexists.
  - intros p o Hp _. cbn in Hp. apply lookup_singleton_Some in Hp as [<- <-]. done.
  - intros p o Hp _. cbn in Hp. by apply lookup_singleton_Some in Hp as [<- <-].
Qed.

Lemma vol_cached : cached demo_tp 4 vol.
Proof.
  split; [apply vol_files_ok| |].
  - split; [done| |].
    + intros i c [-> _]%lookup_replicate. by split.
    + intros i j c c' [-> _]%lookup_replicate. done.
  - split; [vm_compute; by repeat split|done].
Qed.

Definition vol_abs : gmap Z file := {[8192 := mk_file 32 (byte_at demo_tp vol 8192)]}.

Lemma vol_represents : represents demo_tp vol vol_abs.
Proof.
  intros p. unfold vol_abs. destruct (decide (p = 8192)) as [->|Hp].
  - rewrite lookup_singleton_eq. split; [by exists vol_file|done].
  - rewrite lookup_singleton_ne by done. intros (o & Ho & _). cbn in Ho. by rewrite lookup_singleton_ne in Ho.
Qed.

(** Twenty bytes are written over the end of the first chunk. *)
Example files_are_arrays_of_bytes_witness : ∃ v' f',
  file_exec demo_tp 4 demo_tags (FileWrite 8192 20 (replicate 20 5) false) vol = Ok ((20, []), v') ∧
  represents demo_tp v' (<[8192 := f']> vol_abs) ∧ fl_size f' = 40 ∧ fl_byte f' 19 = 7 ∧ fl_byte f' 39 = 5.
Proof.
  destruct (files_are_arrays_of_bytes demo_tp 4 demo_tags ltac:(lia) eq_refl ltac:(done) ltac:(by eexists) 0 vol vol_abs
    (FileWrite 8192 20 (replicate 20 5) false) (mk_file 32 (byte_at demo_tp vol 8192)) vol_cached vol_represents eq_refl
    ltac:(by vm_compute)) as (r & v' & Hrun & f' & Hstep & Hrep & _).
  assert (r = (20, [])) as -> by (vm_compute in Hrun; by injection Hrun as <- _).
  exists v', f'. split; [exact Hrun|]. split; [exact Hrep|]. destruct Hstep as (k & E & _ & Hs & Hb). injection E as <-.
  split; [exact Hs|]. split.
  - destruct (Hb 19 ltac:(lia)) as [->|[? _]]; [by vm_compute|lia].
  - destruct (Hb 39 ltac:(lia)) as [->|[? _]]; [by vm_compute|lia].
Defined.

(** The file of 32 bytes is cut to 20, and its bytes 20 to 31 are zero. *)
Example resize_file_cuts_witness : ∃ v',
  yaffs_resize_file demo_tp 4 demo_tags 8192 20 vol = resize_header 8192 v' ∧
  match yaffs_resize_file demo_tp 4 demo_tags 8192 20 vol with Ok (r, _) => r = YAFFS_OK | _ => False end ∧
  size_of v' 8192 = 20 ∧ byte_at demo_tp v' 8192 19 = 7 ∧ byte_at demo_tp v' 8192 31 = 0.
Proof.
  destruct (resize_file_cuts demo_tp 4 demo_tags ltac:(lia) eq_refl ltac:(done) ltac:(by eexists) 1 vol 8192 20 vol_cached
    ltac:(by exists vol_file) ltac:(by vm_compute) ltac:(by vm_compute)) as (v' & Hrun & _ & _ & Hsz & _ & _ & Hkept & Hzero & _).
  exists v'. split; [exact Hrun|]. split; [clear; vm_compute; reflexivity|]. split; [exact Hsz|]. split.
  - rewrite (Hkept 19) by (clear; lia). clear. vm_compute. reflexivity.
  - apply Hzero. clear. by vm_compute.
Defined.
