(* ===== verification/YaffsCheckpt.v ===== *)
(** * YAFFS: the checkpoint stream

    [fs/yaffs2/_private/yaffs_checkptrw.c]: a stream of bytes that is written to, and read
    back from, the chunks of blocks that are taken for it. The fields of [struct yaffs_dev]
    that belong to the stream are a record beside the device of [YaffsDev]; a program of the
    device is run with [on_dev]. The buffers that [kmalloc] returns are arguments of
    [yaffs2_checkpt_open]; the handlers that it tests for are there.

    [checkpt_roundtrip] shows, on a flash that remembers ([YaffsFlash]), that what was written
    is read back, whatever the sizes of the calls and the numbers of chunks and blocks that
    the stream takes. *)

From stdpp Require Import sorting.
From S2P Require Import Prelude Memory Endian YaffsTags YaffsDev YaffsFlash YaffsBlocks.

Definition YAFFS_CHECKPOINT_VERSION : Z := 8.
Definition YAFFS_SEQUENCE_CHECKPOINT_DATA : Z := 0x21.

Record yaffs_checkpt := mk_checkpt {
  checkpt_open_write : bool;
  checkpt_buffer : option (list Z);
  checkpt_page_seq : Z;
  checkpt_byte_count : Z;
  checkpt_byte_offs : Z;
  checkpt_cur_chunk : Z;
  checkpt_cur_block : Z;
  checkpt_next_block : Z;
  checkpt_block_list : option (list Z);
  checkpt_max_blocks : Z;
  checkpt_sum : Z;
  checkpt_xor : Z
}.

Definition set_checkpt_open_write (v : bool) (d : yaffs_checkpt) : yaffs_checkpt :=
  mk_checkpt v (checkpt_buffer d) (checkpt_page_seq d) (checkpt_byte_count d)
    (checkpt_byte_offs d) (checkpt_cur_chunk d) (checkpt_cur_block d) (checkpt_next_block d)
    (checkpt_block_list d) (checkpt_max_blocks d) (checkpt_sum d) (checkpt_xor d).
Definition set_checkpt_buffer (v : option (list Z)) (d : yaffs_checkpt) : yaffs_checkpt :=
  mk_checkpt (checkpt_open_write d) v (checkpt_page_seq d) (checkpt_byte_count d)
    (checkpt_byte_offs d) (checkpt_cur_chunk d) (checkpt_cur_block d) (checkpt_next_block d)
    (checkpt_block_list d) (checkpt_max_blocks d) (checkpt_sum d) (checkpt_xor d).
Definition set_checkpt_page_seq (v : Z) (d : yaffs_checkpt) : yaffs_checkpt :=
  mk_checkpt (checkpt_open_write d) (checkpt_buffer d) v (checkpt_byte_count d)
    (checkpt_byte_offs d) (checkpt_cur_chunk d) (checkpt_cur_block d) (checkpt_next_block d)
    (checkpt_block_list d) (checkpt_max_blocks d) (checkpt_sum d) (checkpt_xor d).
Definition set_checkpt_byte_count (v : Z) (d : yaffs_checkpt) : yaffs_checkpt :=
  mk_checkpt (checkpt_open_write d) (checkpt_buffer d) (checkpt_page_seq d) v
    (checkpt_byte_offs d) (checkpt_cur_chunk d) (checkpt_cur_block d) (checkpt_next_block d)
    (checkpt_block_list d) (checkpt_max_blocks d) (checkpt_sum d) (checkpt_xor d).
Definition set_checkpt_byte_offs (v : Z) (d : yaffs_checkpt) : yaffs_checkpt :=
  mk_checkpt (checkpt_open_write d) (checkpt_buffer d) (checkpt_page_seq d)
    (checkpt_byte_count d) v (checkpt_cur_chunk d) (checkpt_cur_block d) (checkpt_next_block d)
    (checkpt_block_list d) (checkpt_max_blocks d) (checkpt_sum d) (checkpt_xor d).
Definition set_checkpt_cur_chunk (v : Z) (d : yaffs_checkpt) : yaffs_checkpt :=
  mk_checkpt (checkpt_open_write d) (checkpt_buffer d) (checkpt_page_seq d)
    (checkpt_byte_count d) (checkpt_byte_offs d) v (checkpt_cur_block d) (checkpt_next_block d)
    (checkpt_block_list d) (checkpt_max_blocks d) (checkpt_sum d) (checkpt_xor d).
Definition set_checkpt_cur_block (v : Z) (d : yaffs_checkpt) : yaffs_checkpt :=
  mk_checkpt (checkpt_open_write d) (checkpt_buffer d) (checkpt_page_seq d)
    (checkpt_byte_count d) (checkpt_byte_offs d) (checkpt_cur_chunk d) v (checkpt_next_block d)
    (checkpt_block_list d) (checkpt_max_blocks d) (checkpt_sum d) (checkpt_xor d).
Definition set_checkpt_next_block (v : Z) (d : yaffs_checkpt) : yaffs_checkpt :=
  mk_checkpt (checkpt_open_write d) (checkpt_buffer d) (checkpt_page_seq d)
    (checkpt_byte_count d) (checkpt_byte_offs d) (checkpt_cur_chunk d) (checkpt_cur_block d) v
    (checkpt_block_list d) (checkpt_max_blocks d) (checkpt_sum d) (checkpt_xor d).
Definition set_checkpt_block_list (v : option (list Z)) (d : yaffs_checkpt) : yaffs_checkpt :=
  mk_checkpt (checkpt_open_write d) (checkpt_buffer d) (checkpt_page_seq d)
    (checkpt_byte_count d) (checkpt_byte_offs d) (checkpt_cur_chunk d) (checkpt_cur_block d)
    (checkpt_next_block d) v (checkpt_max_blocks d) (checkpt_sum d) (checkpt_xor d).
Definition set_checkpt_max_blocks (v : Z) (d : yaffs_checkpt) : yaffs_checkpt :=
  mk_checkpt (checkpt_open_write d) (checkpt_buffer d) (checkpt_page_seq d)
    (checkpt_byte_count d) (checkpt_byte_offs d) (checkpt_cur_chunk d) (checkpt_cur_block d)
    (checkpt_next_block d) (checkpt_block_list d) v (checkpt_sum d) (checkpt_xor d).
Definition set_checkpt_sum (v : Z) (d : yaffs_checkpt) : yaffs_checkpt :=
  mk_checkpt (checkpt_open_write d) (checkpt_buffer d) (checkpt_page_seq d)
    (checkpt_byte_count d) (checkpt_byte_offs d) (checkpt_cur_chunk d) (checkpt_cur_block d)
    (checkpt_next_block d) (checkpt_block_list d) (checkpt_max_blocks d) v (checkpt_xor d).
Definition set_checkpt_xor (v : Z) (d : yaffs_checkpt) : yaffs_checkpt :=
  mk_checkpt (checkpt_open_write d) (checkpt_buffer d) (checkpt_page_seq d)
    (checkpt_byte_count d) (checkpt_byte_offs d) (checkpt_cur_chunk d) (checkpt_cur_block d)
    (checkpt_next_block d) (checkpt_block_list d) (checkpt_max_blocks d) (checkpt_sum d) v.

(** [struct yaffs_checkpt_chunk_hdr] *)
Record yaffs_checkpt_chunk_hdr := mk_chunk_hdr {
  hdr_version : Z;
  hdr_seq : Z;
  hdr_sum : Z;
  hdr_xor : Z
}.

Definition sizeof_chunk_hdr : Z := 16.

(** The structure in memory: an [int] is stored as the word of its bits. *)
Definition chunk_hdr_bytes (h : yaffs_checkpt_chunk_hdr) : list Z :=
  [u32 (hdr_version h); u32 (hdr_seq h); hdr_sum h; hdr_xor h] ≫= digits BE 4.

Definition chunk_hdr_of_bytes (l : list Z) : yaffs_checkpt_chunk_hdr :=
  let word i := number BE (take 4 (drop (4 * i) l)) in
  mk_chunk_hdr (s32 (word 0%nat)) (s32 (word 1%nat)) (word 2%nat) (word 3%nat).

Section checkpt.
Context {F : Type} {cfg : yaffs_config} {drv : yaffs_driver F}.

Abbreviation state := (yaffs_checkpt * yaffs_dev F)%type.
Abbreviation C := (prog state).

Definition on_dev {A} (m : prog (yaffs_dev F) A) : C A := zoom snd (λ d s, (s.1, d)) m.
Definition upd_cp (f : yaffs_checkpt → yaffs_checkpt) : C () := modify (λ s, (f s.1, s.2)).
Definition the_cp : C yaffs_checkpt := gets fst.
Definition the_dev : C (yaffs_dev F) := gets snd.

Definition apply_block_offset (block : Z) : Z := block - block_offset.

Definition yaffs2_do_endian_hdr (hdr : yaffs_checkpt_chunk_hdr) : yaffs_checkpt_chunk_hdr :=
  if negb swap_endian then hdr
  else mk_chunk_hdr (swap_s32 (hdr_version hdr)) (swap_s32 (hdr_seq hdr))
         (swap_u32 (hdr_sum hdr)) (swap_u32 (hdr_xor hdr)).

Definition yaffs2_checkpt_init_chunk_hdr : C () :=
  c ← the_cp;
  let hdr := mk_chunk_hdr YAFFS_CHECKPOINT_VERSION (checkpt_page_seq c) (checkpt_sum c) (checkpt_xor c) in
  upd_cp (set_checkpt_byte_offs sizeof_chunk_hdr);;
  buf ← defined (checkpt_buffer c);
  buf ← defined (overlay buf 0 (chunk_hdr_bytes (yaffs2_do_endian_hdr hdr)));
  upd_cp (set_checkpt_buffer (Some buf)).

Definition yaffs2_checkpt_check_chunk_hdr : C bool :=
  c ← the_cp;
  buf ← defined (checkpt_buffer c);
  let hdr := yaffs2_do_endian_hdr (chunk_hdr_of_bytes (take 16 buf)) in
  upd_cp (set_checkpt_byte_offs sizeof_chunk_hdr);;
  mret ((hdr_version hdr =? YAFFS_CHECKPOINT_VERSION) && (hdr_seq hdr =? checkpt_page_seq c) &&
        (hdr_sum hdr =? checkpt_sum c) && (hdr_xor hdr =? checkpt_xor c)).

Definition yaffs2_checkpt_space_ok : C bool :=
  d ← the_dev;
  mret (negb (n_erased_blocks (blocks d) - n_reserved_blocks <=? 0)).

(** The loop over the blocks from [i] on: the first one that is empty. *)
Fixpoint find_erased_loop (n : nat) (i : Z) : C (option Z) :=
  match n with
  | O => mret None
  | S n' =>
      bi ← on_dev (yaffs_get_block_info i);
      b ← on_dev (bi_of bi);
      if bool_decide (block_state b = YAFFS_BLOCK_STATE_EMPTY) then mret (Some i)
      else find_erased_loop n' (i + 1)
  end.

Definition no_block : C () := upd_cp (set_checkpt_next_block (-1));; upd_cp (set_checkpt_cur_block (-1)).

Definition yaffs2_checkpt_find_erased_block : C () :=
  c ← the_cp;
  d ← the_dev;
  let blocks_avail := n_erased_blocks (blocks d) - n_reserved_blocks in
  let next := checkpt_next_block c in
  r ← (if (0 <=? next) && (next <=? internal_end_block) && (0 <? blocks_avail)
       then find_erased_loop (Z.to_nat (internal_end_block - next + 1)) next else mret None);
  match r with
  | Some i => upd_cp (set_checkpt_next_block (i + 1));; upd_cp (set_checkpt_cur_block i)
  | None => no_block
  end.

(** The loop over the blocks from [i] on: one whose first chunk is part of a checkpoint. The
    tags are those of the last read; [t1] are the tags of [query_block_fn] before its read. *)
Fixpoint find_checkpt_loop (t1 : yaffs_ext_tags) (n : nat) (i : Z) (t : yaffs_ext_tags) : C (option (Z * yaffs_ext_tags)) :=
  match n with
  | O => mret None
  | S n' =>
      r ← on_dev (read_chunk_tags_fn (apply_chunk_offset (i * chunks_per_block)) false t);
      let '(_, _, tags) := r in
      if negb (seq_number tags =? YAFFS_SEQUENCE_CHECKPOINT_DATA) then find_checkpt_loop t1 n' (i + 1) tags else
      q ← on_dev (query_block_fn t1 (apply_block_offset i));
      let '(_, st, _) := q in
      if bool_decide (st = YAFFS_BLOCK_STATE_DEAD) then find_checkpt_loop t1 n' (i + 1) tags
      else mret (Some (i, tags))
  end.

(** [checkpt_next_block] is taken as an [u32] at the start of the loop. *)
Definition yaffs2_checkpt_find_block (t0 t1 : yaffs_ext_tags) : C () :=
  c ← the_cp;
  d ← the_dev;
  let next := u32 (checkpt_next_block c) in
  r ← (if blocks_in_checkpt d <? checkpt_max_blocks c
       then find_checkpt_loop t1 (Z.to_nat (internal_end_block - next + 1)) next t0 else mret None);
  match r with
  | Some (i, tags) =>
      upd_cp (set_checkpt_next_block (s32 (obj_id tags)));;
      upd_cp (set_checkpt_cur_block i);;
      l ← defined (checkpt_block_list c);
      l ← defined (zset l (blocks_in_checkpt d) i);
      upd_cp (set_checkpt_block_list (Some l));;
      on_dev (modify (set_blocks_in_checkpt (u32 (blocks_in_checkpt d + 1))))
  | None => no_block
  end.

(** [kbuf] and [klist] are the blocks that [kmalloc] returns for the buffer and the list. *)
Definition yaffs2_checkpt_open (kbuf klist : option (list Z)) (writing : bool) : C Z :=
  upd_cp (set_checkpt_open_write writing);;
  ok ← (if writing then yaffs2_checkpt_space_ok else mret true);
  if negb ok then mret 0 else
  c ← the_cp;
  match (match checkpt_buffer c with Some b => Some b | None => kbuf end) with
  | None => upd_cp (set_checkpt_buffer None);; mret 0
  | Some buf =>
      upd_cp (set_checkpt_buffer (Some buf));;
      upd_cp (set_checkpt_page_seq 0);;
      upd_cp (set_checkpt_byte_count 0);;
      upd_cp (set_checkpt_sum 0);;
      upd_cp (set_checkpt_xor 0);;
      upd_cp (set_checkpt_cur_block (-1));;
      upd_cp (set_checkpt_cur_chunk (-1));;
      upd_cp (set_checkpt_next_block internal_start_block);;
      if writing then
        buf ← defined (overlay buf 0 (replicate (Z.to_nat data_bytes_per_chunk) 0));
        upd_cp (set_checkpt_buffer (Some buf));;
        yaffs2_checkpt_init_chunk_hdr;;
        on_dev yaffs_checkpt_erase
      else
        upd_cp (set_checkpt_byte_offs data_bytes_per_chunk);;
        on_dev (modify (set_blocks_in_checkpt 0));;
        let max_blocks := u32 (internal_end_block - internal_start_block) / 16 + 2 in
        upd_cp (set_checkpt_max_blocks max_blocks);;
        match (match checkpt_block_list c with Some l => Some l | None => klist end) with
        | None => upd_cp (set_checkpt_block_list None);; mret 0
        | Some l =>
            l ← defined (overlay l 0 (replicate (Z.to_nat max_blocks) (-1)));
            upd_cp (set_checkpt_block_list (Some l));;
            mret 1
        end
  end.

Definition yaffs2_get_checkpt_sum : C Z :=
  c ← the_cp;
  mret (Z.lor (u32 (Z.shiftl (checkpt_sum c) 8)) (Z.land (checkpt_xor c) 0xff)).

(** The tags that are written; [t0] is the local variable before the assignments. *)
Definition checkpt_tags (t0 : yaffs_ext_tags) (obj chunk : Z) : yaffs_ext_tags :=
  mk_ext_tags (chunk_used t0) obj chunk data_bytes_per_chunk (ecc_result t0) (block_bad t0) 0
    (serial_number t0) YAFFS_SEQUENCE_CHECKPOINT_DATA (extra_available t0) (extra_parent_id t0)
    (extra_is_shrink t0) (extra_shadows t0) (extra_obj_type t0) (extra_file_size t0) (extra_equiv_id t0).

Definition yaffs2_checkpt_flush_buffer (t0 : yaffs_ext_tags) : C bool :=
  c ← the_cp;
  when (checkpt_cur_block c <? 0) (yaffs2_checkpt_find_erased_block;; upd_cp (set_checkpt_cur_chunk 0));;
  c ← the_cp;
  if checkpt_cur_block c <? 0 then mret false else
  let tags := checkpt_tags t0 (u32 (checkpt_next_block c)) (u32 (checkpt_page_seq c + 1)) in
  when (checkpt_cur_chunk c =? 0) (
    bi ← on_dev (yaffs_get_block_info (checkpt_cur_block c));
    on_dev (upd_bi bi (set_block_state YAFFS_BLOCK_STATE_CHECKPOINT));;
    on_dev (modify (λ d, set_blocks_in_checkpt (u32 (blocks_in_checkpt d + 1)) d)));;
  let chunk := checkpt_cur_block c * chunks_per_block + checkpt_cur_chunk c in
  on_dev (bump N_page_writes);;
  buf ← defined (checkpt_buffer c);
  _ ← on_dev (write_chunk_tags_fn (apply_chunk_offset chunk) (Some buf) tags);
  upd_cp (set_checkpt_page_seq (checkpt_page_seq c + 1));;
  upd_cp (set_checkpt_cur_chunk (checkpt_cur_chunk c + 1));;
  when (chunks_per_block <=? checkpt_cur_chunk c + 1) (
    upd_cp (set_checkpt_cur_chunk 0);;
    upd_cp (set_checkpt_cur_block (-1)));;
  buf ← defined (overlay buf 0 (replicate (Z.to_nat data_bytes_per_chunk) 0));
  upd_cp (set_checkpt_buffer (Some buf));;
  yaffs2_checkpt_init_chunk_hdr;;
  mret true.

(** The loop over the bytes of [data]; the result is the number of bytes taken. *)
Fixpoint checkpt_wr_loop (t0 : yaffs_ext_tags) (data : list Z) (i : Z) : C Z :=
  match data with
  | [] => mret i
  | x :: data =>
      c ← the_cp;
      buf ← defined (checkpt_buffer c);
      buf ← defined (zset buf (checkpt_byte_offs c) x);
      upd_cp (set_checkpt_buffer (Some buf));;
      upd_cp (set_checkpt_sum (u32 (checkpt_sum c + x)));;
      upd_cp (set_checkpt_xor (Z.lxor (checkpt_xor c) x));;
      upd_cp (set_checkpt_byte_offs (checkpt_byte_offs c + 1));;
      upd_cp (set_checkpt_byte_count (checkpt_byte_count c + 1));;
      let offs := checkpt_byte_offs c + 1 in
      ok ← (if (offs <? 0) || (data_bytes_per_chunk <=? offs) then yaffs2_checkpt_flush_buffer t0 else mret true);
      if ok : bool then checkpt_wr_loop t0 data (i + 1) else mret (i + 1)
  end.

Definition yaffs2_checkpt_wr (t0 : yaffs_ext_tags) (data : list Z) : C Z :=
  c ← the_cp;
  match checkpt_buffer c with
  | None => mret 0
  | Some _ => if negb (checkpt_open_write c) then mret (-1) else checkpt_wr_loop t0 data 0
  end.

(** The chunk that the next byte is read from: [false] when there is none, or it is not the
    next one of the stream. *)
Definition checkpt_next_chunk (t0 t1 : yaffs_ext_tags) : C bool :=
  c ← the_cp;
  when (checkpt_cur_block c <? 0) (yaffs2_checkpt_find_block t0 t1;; upd_cp (set_checkpt_cur_chunk 0));;
  c ← the_cp;
  if checkpt_cur_block c <? 0 then mret false else
  let chunk := checkpt_cur_block c * chunks_per_block + checkpt_cur_chunk c in
  on_dev (bump N_page_reads);;
  r ← on_dev (read_chunk_tags_fn (apply_chunk_offset chunk) true t0);
  let '(_, data, tags) := r in
  buf ← defined (checkpt_buffer c);
  buf ← defined (overlay buf 0 data);
  upd_cp (set_checkpt_buffer (Some buf));;
  if negb (chunk_id tags =? u32 (checkpt_page_seq c + 1)) || (2 <? ecc_Z (ecc_result tags)) ||
     negb (seq_number tags =? YAFFS_SEQUENCE_CHECKPOINT_DATA) then mret false else
  ok ← yaffs2_checkpt_check_chunk_hdr;
  if negb ok then mret false else
  upd_cp (set_checkpt_page_seq (checkpt_page_seq c + 1));;
  upd_cp (set_checkpt_cur_chunk (checkpt_cur_chunk c + 1));;
  when (chunks_per_block <=? checkpt_cur_chunk c + 1) (upd_cp (set_checkpt_cur_block (-1)));;
  mret true.

(** The bytes that were read: their number is the return value. *)
Fixpoint checkpt_rd_loop (t0 t1 : yaffs_ext_tags) (n : nat) : C (list Z) :=
  match n with
  | O => mret []
  | S n' =>
      c ← the_cp;
      ok ← (if (checkpt_byte_offs c <? 0) || (data_bytes_per_chunk <=? checkpt_byte_offs c)
            then checkpt_next_chunk t0 t1 else mret true);
      if negb ok then mret [] else
      c ← the_cp;
      buf ← defined (checkpt_buffer c);
      x ← defined (znth buf (checkpt_byte_offs c));
      upd_cp (set_checkpt_sum (u32 (checkpt_sum c + x)));;
      upd_cp (set_checkpt_xor (Z.lxor (checkpt_xor c) x));;
      upd_cp (set_checkpt_byte_offs (checkpt_byte_offs c + 1));;
      upd_cp (set_checkpt_byte_count (checkpt_byte_count c + 1));;
      l ← checkpt_rd_loop t0 t1 n';
      mret (x :: l)
  end.

Definition yaffs2_checkpt_rd (t0 t1 : yaffs_ext_tags) (n_bytes : Z) : C (Z * list Z) :=
  c ← the_cp;
  match checkpt_buffer c with
  | None => mret (0, [])
  | Some _ =>
      if checkpt_open_write c then mret (-1, [])
      else l ← checkpt_rd_loop t0 t1 (Z.to_nat n_bytes); mret (zlen l, l)
  end.

(** The blocks of the list that are thought to be empty are those of the checkpoint. *)
Fixpoint mark_checkpt_blocks (n : nat) (l : list Z) : C () :=
  match n, l with
  | S n', blk :: l =>
      if blk <? 0 then mret () else
      when ((internal_start_block <=? blk) && (blk <=? internal_end_block)) (
        bi ← on_dev (yaffs_get_block_info blk);
        b ← on_dev (bi_of bi);
        when (bool_decide (block_state b = YAFFS_BLOCK_STATE_EMPTY))
          (on_dev (upd_bi bi (set_block_state YAFFS_BLOCK_STATE_CHECKPOINT))));;
      mark_checkpt_blocks n' l
  | S _, [] => fail FUndef
  | O, _ => mret ()
  end.

(** [sizeof(sizeof(struct yaffs_checkpt_chunk_hdr))] is the size of a [size_t]. *)
Definition yaffs_checkpt_close (t0 : yaffs_ext_tags) : C Z :=
  c ← the_cp;
  d ← the_dev;
  (if checkpt_open_write c then
     when (negb (checkpt_byte_offs c =? 4)) (_ ← yaffs2_checkpt_flush_buffer t0; mret ())
   else
     match checkpt_block_list c with
     | Some l => mark_checkpt_blocks (Z.to_nat (blocks_in_checkpt d)) l
     | None => mret ()
     end);;
  d ← the_dev;
  on_dev (upd_blocks (λ b, set_n_free_chunks (n_free_chunks b - blocks_in_checkpt d * chunks_per_block) b));;
  on_dev (upd_blocks (λ b, set_n_erased_blocks (n_erased_blocks b - blocks_in_checkpt d) b));;
  c ← the_cp;
  mret (match checkpt_buffer c with Some _ => 1 | None => 0 end).

Definition yaffs2_checkpt_invalidate_stream : C Z := on_dev yaffs_checkpt_erase.
End checkpt.

#[global] Arguments chunk_hdr_bytes : simpl never.
#[global] Arguments chunk_hdr_of_bytes : simpl never.

(** ** The pages of a stream *)

(** The running sums of the stream. *)
Definition stream_sum (s : list Z) : Z := foldl (λ a x, u32 (a + x)) 0 s.
Definition stream_xor (s : list Z) : Z := foldl Z.lxor 0 s.

Lemma stream_sum_snoc s x : stream_sum (s ++ [x]) = u32 (stream_sum s + x).
Proof. unfold stream_sum. by rewrite foldl_app. Qed.
Lemma stream_xor_snoc s x : stream_xor (s ++ [x]) = Z.lxor (stream_xor s) x.
Proof. unfold stream_xor. by rewrite foldl_app. Qed.

Lemma stream_sum_u32 s : in_u 32 (stream_sum s).
Proof.
  induction s as [|x s _] using rev_ind; [done|]. rewrite stream_sum_snoc. apply wrapu_range. lia.
Qed.

Lemma stream_xor_u32 s : all_u8 s → in_u 32 (stream_xor s).
Proof.
  induction s as [|x s IH] using rev_ind; [done|]. intros [Hs Hx]%Forall_app. apply Forall_inv in Hx.
  rewrite stream_xor_snoc. apply in_u_lxor; [lia|by apply IH|]. unfold in_u in *. lia.
Qed.

Section stream.
Context {F : Type} {cfg : yaffs_config} {drv : yaffs_driver F}.

(** The bytes of the stream that fit in a chunk, and the chunks of a block. *)
Definition cap : nat := Z.to_nat (data_bytes_per_chunk - 16).
Definition cpb : nat := Z.to_nat chunks_per_block.

Definition page_hdr (k : nat) (s : list Z) : yaffs_checkpt_chunk_hdr :=
  mk_chunk_hdr YAFFS_CHECKPOINT_VERSION (Z.of_nat k) (stream_sum (take (k * cap) s)) (stream_xor (take (k * cap) s)).

Definition chunk_of (k : nat) (s : list Z) : list Z := take cap (drop (k * cap) s).

(** The chunk number [k] of the stream [s]. *)
Definition page_bytes (k : nat) (s : list Z) : list Z :=
  chunk_hdr_bytes (yaffs2_do_endian_hdr (page_hdr k s)) ++ chunk_of k s ++ replicate (cap - length (chunk_of k s)) 0.

Lemma chunk_hdr_length h : length (chunk_hdr_bytes h) = 16%nat.
Proof. unfold chunk_hdr_bytes. cbn [mbind list_bind]. by rewrite !length_app, !digits_length. Qed.

Lemma chunk_of_length k s : (length (chunk_of k s) ≤ cap)%nat.
Proof. unfold chunk_of. rewrite length_take. lia. Qed.

Lemma page_bytes_length k s : length (page_bytes k s) = (16 + cap)%nat.
Proof.
  unfold page_bytes. rewrite !length_app, chunk_hdr_length, length_replicate. pose proof (chunk_of_length k s). lia.
Qed.

Lemma page_bytes_app k s t : ((k + 1) * cap ≤ length s)%nat → page_bytes k (s ++ t) = page_bytes k s.
Proof.
  intros Hl. unfold page_bytes, page_hdr, chunk_of.
  rewrite (take_app_le s t (k * cap)), (drop_app_le s t) by lia.
  by rewrite (take_app_le (drop (k * cap) s)) by (rewrite length_drop; lia).
Qed.

Lemma hdr_words a b c d : in_u 32 a → in_u 32 b → in_u 32 c → in_u 32 d →
  let l := [a; b; c; d] ≫= digits BE 4 in
  number BE (take 4 (drop 0 l)) = a ∧ number BE (take 4 (drop 4 l)) = b ∧
  number BE (take 4 (drop 8 l)) = c ∧ number BE (take 4 (drop 12 l)) = d.
Proof.
  intros Ha Hb Hc Hd l. pose proof (ptt_of_bytes_bytes (mk_ptt a b c d)) as H.
  specialize (H (conj Ha (conj Hb (conj Hc Hd)))). unfold ptt_of_bytes in H. injection H as H1 H2 H3 H4.
  split_and!; assumption.
Qed.

(** The header survives the bytes and the byte order. *)
Lemma page_hdr_read k s : all_u8 s → Z.of_nat k < 2 ^ 31 →
  yaffs2_do_endian_hdr (chunk_hdr_of_bytes (take 16 (page_bytes k s))) = page_hdr k s.
Proof.
  intros Hu Hk. unfold page_bytes. rewrite take_app_length' by by rewrite chunk_hdr_length.
  pose proof (stream_sum_u32 (take (k * cap) s)) as Hs.
  assert (in_u 32 (stream_xor (take (k * cap) s))) as Hx by (apply stream_xor_u32; by apply Forall_take).
  assert (∀ h, in_s 32 (hdr_version h) → in_s 32 (hdr_seq h) → in_u 32 (hdr_sum h) → in_u 32 (hdr_xor h) →
    chunk_hdr_of_bytes (chunk_hdr_bytes h) = h) as Hb.
  { intros [v q su x] Hv Hq Hsu Hxo. cbn [hdr_version hdr_seq hdr_sum hdr_xor] in *.
    destruct (hdr_words (u32 v) (u32 q) su x ltac:(apply wrapu_range; lia) ltac:(apply wrapu_range; lia) Hsu Hxo)
      as (H1 & H2 & H3 & H4).
    unfold chunk_hdr_of_bytes, chunk_hdr_bytes. cbn [Nat.mul Nat.add]. cbn [hdr_version hdr_seq hdr_sum hdr_xor].
    rewrite H1, H2, H3, H4, !wraps_wrapu, !wraps_id by (done || lia). done. }
  assert (in_s 32 (Z.of_nat k)) as Hq by (unfold in_s; lia).
  unfold yaffs2_do_endian_hdr at 2. unfold page_hdr. destruct swap_endian eqn:E; cbn [negb].
  - rewrite Hb; cbn [hdr_version hdr_seq hdr_sum hdr_xor]; [|by apply wraps_range|by apply wraps_range|apply swap_u32_range|apply swap_u32_range].
    unfold yaffs2_do_endian_hdr. rewrite E. cbn [negb hdr_version hdr_seq hdr_sum hdr_xor].
    by rewrite !swap_s32_twice, !swap_u32_twice by done.
  - rewrite Hb by done. unfold yaffs2_do_endian_hdr. by rewrite E.
Qed.
End stream.

(** ** Programs on the stream and on the device *)

Section runs.
Context {F : Type} {cfg : yaffs_config} {drv : yaffs_driver F}.
Implicit Types (c : yaffs_checkpt) (d : yaffs_dev F).

Lemma on_dev_run {A} (m : prog (yaffs_dev F) A) c d x d' : m d = Ok (x, d') →
  on_dev m (c, d) = Ok (x, (c, d')).
Proof. intros H. unfold on_dev, zoom. cbn [snd fst]. by rewrite H. Qed.

Lemma run_bind_upd_cp {B} f (k : () → prog (yaffs_checkpt * yaffs_dev F) B) c d :
  (upd_cp f ≫= k) (c, d) = k () (f c, d).
Proof. done. Qed.
Lemma run_upd_cp f c d : upd_cp (F := F) f (c, d) = Ok ((), (f c, d)).
Proof. done. Qed.
Lemma run_bind_the_cp {B} (k : yaffs_checkpt → prog (yaffs_checkpt * yaffs_dev F) B) c d :
  (the_cp ≫= k) (c, d) = k c (c, d).
Proof. done. Qed.
Lemma run_bind_the_dev {B} (k : yaffs_dev F → prog (yaffs_checkpt * yaffs_dev F) B) c d :
  (the_dev ≫= k) (c, d) = k d (c, d).
Proof. done. Qed.
Lemma run_bind_on_modify {B} f (k : () → prog (yaffs_checkpt * yaffs_dev F) B) c d :
  (on_dev (modify f) ≫= k) (c, d) = k () (c, f d).
Proof. done. Qed.
Lemma run_bind_on_bump {B} x (k : () → prog (yaffs_checkpt * yaffs_dev F) B) c d :
  (on_dev (bump x) ≫= k) (c, d) = k () (c, set_stats (λ s', if decide (s' = x) then u32 (stats d x + 1) else stats d s') d).
Proof. done. Qed.
End runs.
#[export] Hint Rewrite @run_bind_upd_cp @run_upd_cp @run_bind_the_cp @run_bind_the_dev @run_bind_on_modify
  @run_bind_on_bump : prog.

Lemma overlay_full l b : length b = length l → overlay l 0 b = Some b.
Proof.
  intros H. unfold overlay. change (0 <=? 0) with true. rewrite (proj2 (Z.leb_le _ _)) by lia. cbn [andb Z.to_nat take app].
  rewrite drop_ge by lia. by rewrite app_nil_r.
Qed.

Lemma overlay_head l h t b : l = h ++ t → length b = length h → overlay l 0 b = Some (b ++ t).
Proof.
  intros -> H. unfold overlay. change (0 <=? 0) with true. rewrite length_app, (proj2 (Z.leb_le _ _)) by lia.
  cbn [andb Z.to_nat take app]. change (0 + length b)%nat with (length b). by rewrite drop_app_length'.
Qed.

Lemma succ_div_mod (p n : nat) : (0 < n)%nat →
  (S (p mod n) = n ∧ S p / n = S (p / n) ∧ S p mod n = 0)%nat ∨ (S (p mod n) < n ∧ S p / n = p / n ∧ S p mod n = S (p mod n))%nat.
Proof.
  intros Hn. pose proof (Nat.div_mod_eq p n). pose proof (Nat.mod_upper_bound p n ltac:(lia)).
  destruct (decide (S (p mod n) = n)) as [Hs|Hs]; [left|right]; split_and!; try lia; symmetry.
  - apply (Nat.div_unique _ _ _ 0); lia.
  - apply (Nat.mod_unique _ _ (S (p / n))); lia.
  - apply (Nat.div_unique _ _ _ (S (p mod n))); lia.
  - apply (Nat.mod_unique _ _ (p / n)); lia.
Qed.

(** ** The blocks of a stream *)

Section blocks.
Context {F : Type} {cfg : yaffs_config} {drv : yaffs_driver F} {good : good_flash F cfg drv}.
Context (Hyaffs2 : is_yaffs2 = true) (Hinband : inband_tags = false) {Hgeo : geometry}.
(** A chunk holds its data only, and has room for more than the header; the offsets are those
    of one block; the number of a block fits in the tags. *)
Context (Hdata : data_bytes_per_chunk = total_bytes_per_chunk) (Hsize : 16 < data_bytes_per_chunk < 2 ^ 31).
Context (Hoffset : chunk_offset = block_offset * chunks_per_block) (Hend : internal_end_block + 1 < 2 ^ 28).
(** The blocks [E] that can be taken, in order. *)
Context (E : list Z) (HE : Forall in_range E) (Hsorted : StronglySorted Z.lt E).
(** The stream [all]. *)
Context (all : list Z) (Hall : all_u8 all).
#[local] Set Default Proof Using "All".

Definition nth_block (m : nat) : Z := nth m E 0.
(** Where the search for the block number [m] starts. *)
Definition search_from (m : nat) : Z := match m with O => internal_start_block | S j => nth_block j + 1 end.
(** The chunks there are, and the address of the chunk number [k]. *)
Definition room : nat := length E * cpb.
Definition address (k : nat) : Z :=
  nth_block (k / cpb) * chunks_per_block + Z.of_nat (k mod cpb) - chunk_offset.
Definition page_tags (k : nat) : yaffs_ext_tags :=
  checkpt_tags ext_tags_zero (search_from (S (k / cpb))) (Z.of_nat k + 1).

Lemma cpb_pos : (2 ≤ cpb)%nat ∧ Z.of_nat cpb = chunks_per_block.
Proof. destruct Hgeo as [? ? Hc ? ?]. unfold cpb. lia. Qed.

Lemma cap_pos : (0 < cap)%nat ∧ Z.of_nat cap = data_bytes_per_chunk - 16.
Proof. unfold cap. lia. Qed.

Lemma nth_block_in m : (m < length E)%nat → nth_block m ∈ E ∧ in_range (nth_block m).
Proof.
  intros Hm. destruct (lookup_lt_is_Some_2 E m Hm) as [b Hb]. unfold nth_block. rewrite (nth_lookup_Some _ _ _ _ Hb).
  split; [by eapply list_elem_of_lookup_2|]. by eapply (Forall_lookup_1 _ _ _ _ HE).
Qed.

Lemma nth_block_lt i j : (i < j < length E)%nat → nth_block i < nth_block j.
Proof.
  intros [Hij Hj]. destruct (lookup_lt_is_Some_2 E i ltac:(lia)) as [x Hx]. destruct (lookup_lt_is_Some_2 E j Hj) as [y Hy].
  unfold nth_block. rewrite (nth_lookup_Some _ _ _ _ Hx), (nth_lookup_Some _ _ _ _ Hy).
  revert i j x y Hij Hj Hx Hy. clear -Hsorted. induction Hsorted as [|a l Hs IH Ha]; [done|].
  intros [|i] [|j] x y Hij Hj Hx Hy; try lia; cbn in *.
  - injection Hx as <-. by eapply (Forall_lookup_1 _ _ _ _ Ha).
  - eapply (IH Hs i j); eauto; lia.
Qed.

Lemma div_lt_room k : (k < room)%nat → (k / cpb < length E)%nat.
Proof. pose proof cpb_pos. intros Hk. apply Nat.Div0.div_lt_upper_bound. unfold room in Hk. lia. Qed.

Lemma address_inj j k : (j < room)%nat → (k < room)%nat → address j = address k → j = k.
Proof.
  intros Hj Hk H. pose proof cpb_pos as [Hc Hz]. unfold address in H.
  pose proof (Nat.mod_upper_bound j cpb ltac:(lia)). pose proof (Nat.mod_upper_bound k cpb ltac:(lia)).
  assert (nth_block (j / cpb) = nth_block (k / cpb)) as Hb by nia.
  assert (j / cpb = k / cpb)%nat as Hd.
  { apply div_lt_room in Hj, Hk. destruct (Nat.lt_trichotomy (j / cpb) (k / cpb)) as [Hl|[->|Hl]]; [|done|].
    - pose proof (nth_block_lt (j / cpb) (k / cpb) ltac:(lia)). lia.
    - pose proof (nth_block_lt (k / cpb) (j / cpb) ltac:(lia)). lia. }
  rewrite (Nat.div_mod_eq j cpb), (Nat.div_mod_eq k cpb), Hd. rewrite Hb in H. nia.
Qed.

(** No block before the next one is one of the blocks. *)
Lemma search_from_le m : (m < length E)%nat → internal_start_block ≤ search_from m ≤ nth_block m.
Proof.
  intros Hm. destruct (nth_block_in m Hm) as [_ [H1 H2]]. destruct m as [|m]; cbn [search_from]; [lia|].
  pose proof (nth_block_lt m (S m) ltac:(lia)). destruct (nth_block_in m ltac:(lia)) as [_ [? ?]]. lia.
Qed.

Lemma search_skips m i : (m < length E)%nat → search_from m ≤ i < nth_block m → i ∉ E.
Proof.
  intros Hm [H1 H2] [j Hj]%list_elem_of_lookup. pose proof (lookup_lt_Some _ _ _ Hj) as Hlt.
  assert (nth_block j = i) as Hn by (unfold nth_block; by rewrite (nth_lookup_Some _ _ _ _ Hj)).
  destruct (Nat.lt_trichotomy j m) as [Hl|[->|Hl]]; [|lia|].
  - destruct m as [|m]; [lia|]. cbn [search_from] in H1. destruct (decide (j = m)) as [->|]; [lia|].
    pose proof (nth_block_lt j m ltac:(lia)). lia.
  - pose proof (nth_block_lt m j ltac:(lia)). lia.
Qed.

Lemma page_tags_ok k : (k < room)%nat → Z.of_nat k + 1 < 2 ^ 31 → tags2_ok (page_tags k).
Proof.
  intros Hk Hb. pose proof (proj2 (nth_block_in _ (div_lt_room k Hk))) as [H1 H2]. destruct Hgeo as [? ? ? ? ?].
  unfold page_tags, checkpt_tags. cbn [search_from]. split; cbn; unfold in_u in *; unfold YAFFS_SEQUENCE_CHECKPOINT_DATA; lia.
Qed.

(** The fields of the local variable that are not assigned do not reach the flash. *)
Lemma checkpt_tags_written (d : yaffs_dev F) n data t0 obj chunk : chunk ≠ 0 →
  write_chunk_tags_fn n data (checkpt_tags t0 obj chunk) d = write_chunk_tags_fn n data (checkpt_tags ext_tags_zero obj chunk) d.
Proof.
  intros H. unfold write_chunk_tags_fn, yaffs_tags_marshall_write. rewrite Hyaffs2, Hinband.
  unfold yaffs_pack_tags2, yaffs_pack_tags2_tags_only, yaffs_check_tags_extra_packable.
  cbn [checkpt_tags chunk_id]. by rewrite (proj2 (Z.eqb_neq _ _) H).
Qed.

(** ** Writing *)

(** The blocks that [k] chunks take. *)
Definition taken (k : nat) : nat := k / cpb + (if decide (k mod cpb = 0)%nat then 0 else 1).

Lemma taken_S k : taken (S k) = S (k / cpb).
Proof.
  pose proof cpb_pos as [Hc _]. unfold taken. destruct (succ_div_mod k cpb ltac:(lia)) as [(_ & -> & ->)|(_ & -> & ->)].
  - rewrite decide_True by done. lia.
  - rewrite decide_False by lia. lia.
Qed.

(** The flash after [k] chunks of the stream, [f0] before the first. *)
Record written (f0 : F) (k : nat) (f : F) : Prop := mk_written {
  wr_pages j : (j < k)%nat → content f (address j) = pair (page_bytes j all) <$> tags_image (page_tags j);
  wr_blank j : (k ≤ j < room)%nat → content f (address j) = None;
  wr_other a : (∀ j, (j < room)%nat → a ≠ address j) → content f a = content f0 a
}.

Definition empties (m : nat) (d : yaffs_dev F) : Prop := ∀ i x,
  in_range i → info (blocks d) i = Some x → block_state x = YAFFS_BLOCK_STATE_EMPTY ↔ i ∈ drop m E.

Record writing (f0 : F) (k : nat) (c : yaffs_checkpt) (d : yaffs_dev F) : Prop := mk_writing {
  w_open : checkpt_open_write c = true;
  w_flash : written f0 k (flash d);
  w_shape : shape (blocks d);
  w_avail : 0 < n_erased_blocks (blocks d) - n_reserved_blocks;
  w_empty : empties (taken k) d;
  w_next : checkpt_next_block c = search_from (taken k);
  w_cur : if decide (k mod cpb = 0)%nat then checkpt_cur_block c = -1
          else checkpt_cur_block c = nth_block (k / cpb) ∧ checkpt_cur_chunk c = Z.of_nat (k mod cpb);
  w_seq : checkpt_page_seq c = Z.of_nat k
}.

Lemma drop_nth_block m : (m < length E)%nat → drop m E = nth_block m :: drop (S m) E.
Proof.
  intros Hm. destruct (lookup_lt_is_Some_2 E m Hm) as [b Hb]. unfold nth_block. rewrite (nth_lookup_Some _ _ _ _ Hb).
  by apply drop_S.
Qed.

Lemma drop_skips m i : (m < length E)%nat → search_from m ≤ i < nth_block m → i ∉ drop m E.
Proof. intros Hm Hi Hin. apply (search_skips m i Hm Hi). by apply (subseteq_drop m E). Qed.

Lemma nth_block_not_after m : (m < length E)%nat → nth_block m ∉ drop (S m) E.
Proof.
  intros Hm [j Hj]%list_elem_of_lookup. rewrite lookup_drop in Hj. pose proof (lookup_lt_Some _ _ _ Hj).
  pose proof (nth_block_lt m (S m + j) ltac:(lia)) as H'. unfold nth_block at 2 in H'.
  rewrite (nth_lookup_Some _ _ _ _ Hj) in H'. lia.
Qed.

Lemma find_erased_run m (d : yaffs_dev F) c n i : (m < length E)%nat → shape (blocks d) → empties m d →
  search_from m ≤ i ≤ nth_block m → nth_block m - i < Z.of_nat n →
  find_erased_loop n i (c, d) = Ok (Some (nth_block m), (c, d)).
Proof.
  intros Hm Hs He. pose proof (search_from_le m Hm) as [Hlo _]. destruct (nth_block_in m Hm) as [_ [_ Hhi]].
  revert i. induction n as [|n IH]; intros i Hi Hn; [lia|]. cbn [find_erased_loop].
  assert (in_range i) as Hr by (split; lia). destruct (in_range_info _ i Hs Hr) as [x Hx].
  prog_step (on_dev_run _ c d _ _ (get_block_info_run i d Hr)).
  prog_step (on_dev_run _ c d _ _ (bi_of_run i d x Hr Hx)).
  destruct (decide (i = nth_block m)) as [->|Hne].
  - rewrite bool_decide_true; [done|]. apply (He _ _ Hr Hx). rewrite drop_nth_block by done. by left.
  - rewrite bool_decide_false by (intros Hst; apply (drop_skips m i Hm); [lia|by apply (He i x)]). apply IH; lia.
Qed.

(** The fields that the choice of a chunk sets. *)
Definition cursor (b q n : Z) (c : yaffs_checkpt) : yaffs_checkpt :=
  set_checkpt_cur_chunk q (set_checkpt_cur_block b (set_checkpt_next_block n c)).

Lemma choose_run f0 k c d : writing f0 k c d → (k < room)%nat →
  when (checkpt_cur_block c <? 0) (yaffs2_checkpt_find_erased_block;; upd_cp (set_checkpt_cur_chunk 0)) (c, d) =
    Ok ((), (cursor (nth_block (k / cpb)) (Z.of_nat (k mod cpb)) (search_from (S (k / cpb))) c, d)).
Proof.
  intros [_ _ Hs Ha He Hn Hc _] Hk. apply div_lt_room in Hk. pose proof (nth_block_in _ Hk) as [_ [Hb1 Hb2]].
  unfold taken in *. destruct Hgeo as [Hst _ _ _ _]. destruct (decide _) as [Hq|Hq].
  - rewrite Nat.add_0_r in *. rewrite Hc, Hq. cbn [when Z.ltb Z.compare]. unfold yaffs2_checkpt_find_erased_block. prog_simpl.
    rewrite Hn. pose proof (search_from_le _ Hk) as [Hl1 Hl2].
    rewrite (proj2 (Z.leb_le 0 _)), (proj2 (Z.leb_le (search_from _) _)), (proj2 (Z.ltb_lt 0 _)) by lia. cbn [andb].
    assert (search_from (k / cpb) ≤ search_from (k / cpb) ≤ nth_block (k / cpb)) as Hi by lia.
    prog_step (find_erased_run _ d c (Z.to_nat (internal_end_block - search_from (k / cpb) + 1)) _ Hk Hs He Hi ltac:(lia)). done.
  - destruct Hc as [Hc1 Hc2]. rewrite (proj2 (Z.ltb_ge _ _)) by lia. cbn [when].
    rewrite Nat.add_1_r in *. rewrite <- Hc1, <- Hc2, <- Hn. by destruct c.
Qed.

Lemma mark_run f0 k c d : writing f0 k c d → (k < room)%nat → ∀ c', checkpt_cur_block c' = nth_block (k / cpb) → ∃ d',
  when (Z.of_nat (k mod cpb) =? 0) (
    bi ← on_dev (yaffs_get_block_info (checkpt_cur_block c'));
    on_dev (upd_bi bi (set_block_state YAFFS_BLOCK_STATE_CHECKPOINT));;
    on_dev (modify (λ d, set_blocks_in_checkpt (u32 (blocks_in_checkpt d + 1)) d))) (c', d) = Ok ((), (c', d')) ∧
  flash d' = flash d ∧ shape (blocks d') ∧ n_erased_blocks (blocks d') = n_erased_blocks (blocks d) ∧
  empties (S (k / cpb)) d'.
Proof.
  intros [_ _ Hs Ha He _ _ _] Hk c' Hc'. apply div_lt_room in Hk. pose proof (nth_block_in _ Hk) as [_ Hr].
  unfold taken in *. destruct (decide _) as [Hq|Hq].
  - rewrite Hq, Nat.add_0_r, Hc' in *. change (Z.of_nat 0 =? 0) with true. cbn [when].
    prog_step (on_dev_run _ c' d _ _ (get_block_info_run _ d Hr)).
    prog_step (on_dev_run _ c' d _ _ (upd_bi_run _ (set_block_state YAFFS_BLOCK_STATE_CHECKPOINT) d Hs Hr)).
    eexists. split; [by apply on_dev_run|]. cbn [flash blocks set_blocks_in_checkpt on_blocks].
    split_and!; [done|by apply shape_b_bi|done|]. intros i x Hi Hx. cbn [blocks set_blocks_in_checkpt] in Hx.
    rewrite on_blocks_eq in Hx. cbn [blocks set_blocks] in Hx. rewrite info_b_bi in Hx by done.
    destruct (decide (i = nth_block (k / cpb))) as [->|Hne].
    + apply fmap_Some in Hx as (y & _ & ->). split; [done|]. intros Hin. by apply nth_block_not_after in Hin.
    + rewrite (He i x Hi Hx), drop_nth_block by done. set_solver.
  - rewrite (proj2 (Z.eqb_neq _ _)) by lia. exists d. rewrite Nat.add_1_r in He. split_and!; done.
Qed.

Lemma written_S f0 k f f' : (k < room)%nat → written f0 k f →
  (∀ a, content f' a = if decide (a = address k) then pair (page_bytes k all) <$> tags_image (page_tags k) else content f a) →
  written f0 (S k) f'.
Proof.
  intros Hk [Hp Hb Ho] Hf. split.
  - intros j Hj. rewrite Hf. case_decide as Ha; [apply address_inj in Ha; [by subst j|lia|lia]|].
    apply Hp. destruct (decide (j = k)) as [->|]; [done|lia].
  - intros j Hj. rewrite Hf, decide_False; [apply Hb; lia|]. intros Ha. apply address_inj in Ha; lia.
  - intros a Ha. rewrite Hf, decide_False by by apply Ha. by apply Ho.
Qed.

(** The header that the next chunk begins with. *)
Definition next_header (k : nat) (sum xor : Z) : list Z :=
  chunk_hdr_bytes (yaffs2_do_endian_hdr (mk_chunk_hdr YAFFS_CHECKPOINT_VERSION (Z.of_nat k) sum xor)).

Lemma init_hdr_run (d : yaffs_dev F) c k h : checkpt_page_seq c = Z.of_nat k → length h = 16%nat →
  checkpt_buffer c = Some (h ++ replicate cap 0) →
  yaffs2_checkpt_init_chunk_hdr (c, d) = Ok ((),
    (set_checkpt_buffer (Some (next_header k (checkpt_sum c) (checkpt_xor c) ++ replicate cap 0))
       (set_checkpt_byte_offs 16 c), d)).
Proof.
  intros Hk Hh Hb. unfold yaffs2_checkpt_init_chunk_hdr. prog_simpl. rewrite Hb, run_bind_defined, Hk.
  rewrite (overlay_head _ h (replicate cap 0)) by (rewrite ?chunk_hdr_length; done). by rewrite run_bind_defined.
Qed.

Lemma zero_page : replicate (Z.to_nat data_bytes_per_chunk) 0 = replicate 16 0 ++ replicate cap 0.
Proof. pose proof cap_pos. rewrite <- replicate_add. f_equal. lia. Qed.

(** What a flush stores, and what it leaves in the buffer. *)
Definition flushed (f0 : F) (k : nat) (c : yaffs_checkpt) (s : yaffs_checkpt * yaffs_dev F) : Prop :=
  writing f0 (S k) s.1 s.2 ∧
  checkpt_buffer s.1 = Some (next_header (S k) (checkpt_sum c) (checkpt_xor c) ++ replicate cap 0) ∧
  checkpt_byte_offs s.1 = 16 ∧ checkpt_sum s.1 = checkpt_sum c ∧ checkpt_xor s.1 = checkpt_xor c.

Lemma flush_run f0 k c d t0 : writing f0 k c d → (k < room)%nat → Z.of_nat k + 1 < 2 ^ 31 →
  checkpt_buffer c = Some (page_bytes k all) →
  ∃ s, yaffs2_checkpt_flush_buffer t0 (c, d) = Ok (true, s) ∧ flushed f0 k c s.
Proof.
  intros Hw Hk Hk31 Hbuf. pose proof cpb_pos as [Hc2 Hcpb]. pose proof (proj2 (nth_block_in _ (div_lt_room k Hk))) as [Hb1 Hb2].
  pose proof (Nat.mod_upper_bound k cpb ltac:(lia)) as Hq.
  unfold yaffs2_checkpt_flush_buffer. rewrite run_bind_the_cp. prog_step (choose_run f0 k c d Hw Hk).
  set (c1 := cursor _ _ _ c). destruct (mark_run f0 k c d Hw Hk c1 eq_refl) as (d1 & Hm & Hf1 & Hs1 & Hn1 & He1).
  destruct Hw as [Hopen Hfl Hs Ha He Hn Hcur Hseq]. destruct Hgeo as [Hst _ _ _ _].
  change (checkpt_cur_block c1) with (nth_block (k / cpb)) at 1. rewrite (proj2 (Z.ltb_ge _ _)) by lia. cbv zeta.
  change (checkpt_cur_chunk c1) with (Z.of_nat (k mod cpb)) at 1. prog_step Hm.
  change (checkpt_buffer c1) with (checkpt_buffer c). rewrite Hbuf, run_bind_defined.
  set (d2 := set_stats _ d1).
  assert (content (flash d2) (address k) = None) as Hblank.
  { change (flash d2) with (flash d1). rewrite Hf1. apply Hfl. lia. }
  destruct (write_tags_run Hyaffs2 Hinband d2 (address k) (page_bytes k all) (page_tags k) (page_tags_ok k Hk Hk31) Hblank)
    as (f2 & oob & Him & Hf2 & Hwr).
  assert (write_chunk_tags_fn (apply_chunk_offset (checkpt_cur_block c1 * chunks_per_block + checkpt_cur_chunk c1)) (Some (page_bytes k all))
    (checkpt_tags t0 (u32 (checkpt_next_block c1)) (u32 (checkpt_page_seq c1 + 1))) d2 = Ok (YAFFS_OK, set_flash f2 d2)) as Hwr'.
  { change (checkpt_page_seq c1) with (checkpt_page_seq c). rewrite Hseq, (wrapu_id 32 (Z.of_nat k + 1)) by (unfold in_u; lia).
    rewrite checkpt_tags_written by lia. change (checkpt_next_block c1) with (search_from (S (k / cpb))).
    rewrite wrapu_id by (cbn [search_from]; unfold in_u; lia). exact Hwr. }
  prog_step (on_dev_run _ c1 d2 _ _ Hwr').
  set (c2 := set_checkpt_cur_chunk _ (set_checkpt_page_seq _ c1)).
  set (full := chunks_per_block <=? checkpt_cur_chunk c1 + 1).
  assert (when full (upd_cp (set_checkpt_cur_chunk 0);; upd_cp (set_checkpt_cur_block (-1))) (c2, set_flash f2 d2) =
    Ok ((), (if full then set_checkpt_cur_block (-1) (set_checkpt_cur_chunk 0 c2) else c2, set_flash f2 d2))) as Hfull
    by by destruct full.
  prog_step Hfull. set (c3 := if full then _ else _).
  rewrite overlay_full by (rewrite length_replicate, page_bytes_length; pose proof cap_pos as [_ ?]; lia).
  rewrite run_bind_defined. prog_simpl. rewrite zero_page.
  assert (checkpt_page_seq c3 = Z.of_nat (S k)) as Hseq3.
  { transitivity (checkpt_page_seq c + 1); [by unfold c3; destruct full|lia]. }
  prog_step (init_hdr_run (set_flash f2 d2) (set_checkpt_buffer (Some (replicate 16 0 ++ replicate cap 0)) c3) (S k) (replicate 16 0)
    Hseq3 eq_refl eq_refl).
  eexists. split; [reflexivity|]. unfold flushed. cbn [fst snd].
  assert (checkpt_sum c3 = checkpt_sum c ∧ checkpt_xor c3 = checkpt_xor c ∧ checkpt_open_write c3 = checkpt_open_write c ∧
    checkpt_next_block c3 = search_from (S (k / cpb))) as (E1 & E2 & E3 & E4) by (unfold c3; by destruct full).
  split; [|by rewrite <- E1, <- E2]. rewrite <- (taken_S k) in *. split; try done.
  - cbn. congruence.
  - cbn [flash set_flash]. apply (written_S f0 k (flash d2)); [done| |].
    + change (flash d2) with (flash d1). by rewrite Hf1.
    + intros a. rewrite Hf2, Him. done.
  - change (0 < n_erased_blocks (blocks d1) - n_reserved_blocks). lia.
  - change (checkpt_cur_block _) with (checkpt_cur_block c3). change (checkpt_cur_chunk _) with (checkpt_cur_chunk c3).
    unfold c3, full. change (checkpt_cur_chunk c1) with (Z.of_nat (k mod cpb)).
    destruct (succ_div_mod k cpb ltac:(lia)) as [(Hr & -> & ->)|(Hr & -> & ->)].
    + rewrite (proj2 (Z.leb_le _ _)) by lia. by rewrite decide_True.
    + rewrite (proj2 (Z.leb_gt _ _)) by lia. rewrite decide_False by lia. split; [done|].
      change (Z.of_nat (k mod cpb) + 1 = Z.of_nat (S (k mod cpb))). lia.
Qed.

(** The stream after the byte number [p]: the last chunk is in the buffer. *)
Record stream_at (p : nat) (c : yaffs_checkpt) : Prop := mk_stream_at {
  at_buffer : checkpt_buffer c = Some (page_bytes (p / cap) (take p all));
  at_offs : checkpt_byte_offs c = 16 + Z.of_nat (p mod cap);
  at_sum : checkpt_sum c = stream_sum (take p all);
  at_xor : checkpt_xor c = stream_xor (take p all)
}.

Lemma chunk_of_take k r : (r ≤ cap)%nat → chunk_of k (take (k * cap + r) all) = take r (drop (k * cap) all).
Proof.
  intros Hr. unfold chunk_of. rewrite <- take_drop_commute, take_take. f_equal. lia.
Qed.

Lemma page_hdr_take k p : (k * cap ≤ p)%nat → page_hdr k (take p all) = page_hdr k all.
Proof. intros H. unfold page_hdr. rewrite take_take. by rewrite Nat.min_l by done. Qed.

(** A byte is stored. *)
Lemma put_byte k r x : (r < cap)%nat → all !! (k * cap + r)%nat = Some x →
  zset (page_bytes k (take (k * cap + r) all)) (16 + Z.of_nat r) x = Some (page_bytes k (take (k * cap + S r) all)).
Proof.
  intros Hr Hx. pose proof (page_bytes_length k (take (k * cap + r) all)) as Hl.
  pose proof (lookup_lt_Some _ _ _ Hx) as Hlt.
  rewrite zset_Some by lia. f_equal. unfold page_bytes. rewrite !chunk_of_take by lia. rewrite !page_hdr_take by lia.
  rewrite (take_S_r (drop (k * cap) all) r x) by by rewrite lookup_drop.
  assert (length (take r (drop (k * cap) all)) = r) as Hlr by (rewrite length_take, length_drop; lia).
  replace (Z.to_nat (16 + Z.of_nat r)) with (16 + r)%nat by lia.
  rewrite insert_app_r_alt by (rewrite chunk_hdr_length; lia). f_equal. rewrite chunk_hdr_length, Nat.add_comm, Nat.add_sub.
  rewrite insert_app_r_alt by lia. rewrite Hlr, Nat.sub_diag, <- (app_assoc _ [x]). f_equal.
  rewrite length_app, Hlr. cbn [length]. by replace (cap - r)%nat with (S (cap - (r + 1))) by lia.
Qed.

(** The page that the stream fills is that of the whole stream. *)
Lemma page_full k : (k * cap + cap ≤ length all)%nat → page_bytes k (take (k * cap + cap) all) = page_bytes k all.
Proof.
  intros H. rewrite <- (take_drop (k * cap + cap) all) at 2. rewrite page_bytes_app; [done|].
  rewrite length_take. lia.
Qed.

Lemma page_next k : (k * cap + cap ≤ length all)%nat → let s := take (k * cap + cap) all in
  next_header (S k) (stream_sum s) (stream_xor s) ++ replicate cap 0 = page_bytes (S k) s.
Proof.
  intros H s. unfold next_header, page_bytes, page_hdr. assert (length s = S k * cap)%nat as Hs by (subst s; rewrite length_take; lia).
  rewrite (take_ge s) by lia. unfold chunk_of. rewrite drop_ge, take_nil by lia. cbn [app length]. by rewrite Nat.sub_0_r.
Qed.

Lemma writing_ext f0 k c c' d : writing f0 k c d → checkpt_open_write c' = checkpt_open_write c →
  checkpt_next_block c' = checkpt_next_block c → checkpt_cur_block c' = checkpt_cur_block c →
  checkpt_cur_chunk c' = checkpt_cur_chunk c → checkpt_page_seq c' = checkpt_page_seq c → writing f0 k c' d.
Proof. intros [] E1 E2 E3 E4 E5. by split; rewrite ?E1, ?E2, ?E3, ?E4, ?E5. Qed.

(** The chunks of the whole stream fit, and its length is an [int]. *)
Context (Hroom : (length all / cap < room)%nat) (Hlen : zlen all + 1 < 2 ^ 31).

Definition writer (f0 : F) (p : nat) (s : yaffs_checkpt * yaffs_dev F) : Prop :=
  writing f0 (p / cap) s.1 s.2 ∧ stream_at p s.1.

Lemma pages_fit p : (p ≤ length all)%nat → (p / cap < room)%nat ∧ Z.of_nat (p / cap) + 1 < 2 ^ 31.
Proof.
  intros Hp. pose proof cap_pos as [Hc _]. pose proof (Nat.Div0.div_le_mono p (length all) cap Hp).
  pose proof (Nat.Div0.div_le_upper_bound p cap p ltac:(nia)). lia.
Qed.

(** The fields that storing a byte sets. *)
Definition stored (buf : list Z) (x : Z) (c : yaffs_checkpt) : yaffs_checkpt :=
  set_checkpt_byte_count (checkpt_byte_count c + 1) (set_checkpt_byte_offs (checkpt_byte_offs c + 1)
    (set_checkpt_xor (Z.lxor (checkpt_xor c) x) (set_checkpt_sum (u32 (checkpt_sum c + x)) (set_checkpt_buffer (Some buf) c)))).

Lemma wr_byte_run f0 p c d t0 x : writer f0 p (c, d) → all !! p = Some x →
  ∃ buf, zset (default [] (checkpt_buffer c)) (checkpt_byte_offs c) x = Some buf ∧
  ∃ s, (if (checkpt_byte_offs c + 1 <? 0) || (data_bytes_per_chunk <=? checkpt_byte_offs c + 1)
        then yaffs2_checkpt_flush_buffer t0 else mret true) (stored buf x c, d) = Ok (true, s) ∧ writer f0 (S p) s.
Proof.
  intros [Hw [Hb Ho Hs Hx]] Hp. cbn [fst snd] in *. pose proof cap_pos as [Hc0 Hc]. pose proof (lookup_lt_Some _ _ _ Hp) as Hlt.
  pose proof (Nat.div_mod_eq p cap) as Hdm. pose proof (Nat.mod_upper_bound p cap ltac:(lia)) as Hmod.
  assert (take p all ++ [x] = take (S p) all) as Htake by by rewrite (take_S_r _ _ _ Hp).
  rewrite Hb, Ho. set (k := (p / cap)%nat) in *. set (r := (p mod cap)%nat) in *.
  assert (p = k * cap + r)%nat as Hpk by lia. rewrite Hpk in Hp.
  eexists. split; [cbn [default]; rewrite Hpk; apply (put_byte k r x); [lia|done]|].
  assert (stream_sum (take (S p) all) = u32 (stream_sum (take p all) + x)) as Hsum by by rewrite <- Htake, stream_sum_snoc.
  assert (stream_xor (take (S p) all) = Z.lxor (stream_xor (take p all)) x) as Hxor by by rewrite <- Htake, stream_xor_snoc.
  set (c1 := stored _ x c). assert (writing f0 k c1 d) as Hw1 by by eapply writing_ext.
  rewrite (proj2 (Z.ltb_ge _ 0)) by lia. cbn [orb].
  destruct (succ_div_mod p cap ltac:(lia)) as [(Hr & Hd & Hm)|(Hr & Hd & Hm)]; fold k r in Hr, Hd, Hm.
  - rewrite (proj2 (Z.leb_le _ _)) by lia. destruct (pages_fit p ltac:(lia)) as [Hf1 Hf2]. fold k in Hf1, Hf2.
    assert (S p = k * cap + cap)%nat as Hpk' by lia.
    assert (checkpt_buffer c1 = Some (page_bytes k all)) as Hb1.
    { cbn. by rewrite Hr, page_full by lia. }
    destruct (flush_run f0 k c1 d t0 Hw1 Hf1 Hf2 Hb1) as (s & Hrun & Hs1 & Hs2 & Hs3 & Hs4 & Hs5).
    exists s. split; [done|]. unfold writer. rewrite Hd. split; [done|].
    change (checkpt_sum c1) with (u32 (checkpt_sum c + x)) in *. change (checkpt_xor c1) with (Z.lxor (checkpt_xor c) x) in *.
    rewrite Hs, <- Hsum, Hx, <- Hxor, Hpk' in *. split; rewrite ?Hm; rewrite ?Hs3; try done. rewrite Hs2, Hd. f_equal. by apply page_next; lia.
  - rewrite (proj2 (Z.leb_gt _ _)) by lia. eexists. split; [reflexivity|]. unfold writer. cbn [fst snd]. rewrite Hd.
    split; [done|]. split; rewrite ?Hd, ?Hm.
    + cbn. do 3 f_equal. lia.
    + cbn. rewrite Ho. lia.
    + cbn. by rewrite Hsum, Hs.
    + cbn. by rewrite Hxor, Hx.
Qed.

Lemma wr_loop_run f0 t0 data rest : ∀ p i s, writer f0 p s → drop p all = data ++ rest →
  ∃ s', checkpt_wr_loop t0 data i s = Ok (i + zlen data, s') ∧ writer f0 (p + length data) s'.
Proof.
  induction data as [|x data IH]; intros p i [c d] Hw Hd; cbn [checkpt_wr_loop].
  { exists (c, d). cbn [length]. rewrite Z.add_0_r, Nat.add_0_r. done. }
  assert (all !! p = Some x) as Hx by (rewrite <- (Nat.add_0_r p), <- lookup_drop, Hd; done).
  destruct (wr_byte_run f0 p c d t0 x Hw Hx) as (buf & Hset & s1 & Hrun & Hw1).
  pose proof (at_buffer _ _ (proj2 Hw)) as Hb. cbn [fst] in Hb. rewrite run_bind_the_cp, Hb in *. rewrite run_bind_defined. cbn [default id from_option] in Hset. rewrite Hset, run_bind_defined.
  rewrite !run_bind_upd_cp. cbv zeta. fold (stored buf x c). rewrite (bind_Ok _ _ _ _ _ Hrun).
  destruct (IH (S p) (i + 1) s1 Hw1) as (s2 & Hrun2 & Hw2).
  { rewrite <- (Nat.add_1_r p), <- drop_drop, Hd. done. }
  exists s2. rewrite Hrun2. cbn [length]. split; [do 2 f_equal; lia|]. by rewrite Nat.add_succ_r, <- Nat.add_succ_l.
Qed.

(** ** Opening and closing the stream for writing *)

Definition blank (f : F) (i : Z) : Prop := ∀ q, 0 ≤ q < chunks_per_block → content f (i * chunks_per_block + q - chunk_offset) = None.

(** The blocks [E] are those that are erased, and those of an earlier checkpoint. *)
Record available (d : yaffs_dev F) : Prop := mk_available {
  av_shape : shape (blocks d);
  av_blocks i x : in_range i → info (blocks d) i = Some x →
    block_state x = YAFFS_BLOCK_STATE_EMPTY ∨ block_state x = YAFFS_BLOCK_STATE_CHECKPOINT ↔ i ∈ E;
  av_blank i x : in_range i → info (blocks d) i = Some x → block_state x = YAFFS_BLOCK_STATE_EMPTY → blank (flash d) i
}.

(** The erasure of the blocks of an earlier checkpoint has come to the block [i]. *)
Record erased_to (d0 : yaffs_dev F) (i : Z) (d : yaffs_dev F) : Prop := mk_erased_to {
  et_shape : shape (blocks d);
  et_count : n_erased_blocks (blocks d0) ≤ n_erased_blocks (blocks d);
  et_done b x : in_range b → b < i → info (blocks d) b = Some x →
    (block_state x = YAFFS_BLOCK_STATE_EMPTY ↔ b ∈ E) ∧ (b ∈ E → blank (flash d) b);
  et_rest b : in_range b → i ≤ b → info (blocks d) b = info (blocks d0) b;
  et_none a : content (flash d0) a = None → content (flash d) a = None;
  et_other a : (∀ j, (j < room)%nat → a ≠ address j) → content (flash d) a = content (flash d0) a
}.

Lemma block_address i a : i ∈ E → a / chunks_per_block = i - block_offset → ∃ j, (j < room)%nat ∧ a = address j.
Proof.
  intros [m Hm]%list_elem_of_lookup Ha. pose proof (lookup_lt_Some _ _ _ Hm) as Hlt. pose proof cpb_pos as [Hc Hz].
  assert (0 < chunks_per_block) as Hp by lia.
  pose proof (Z.mod_pos_bound a _ Hp) as Hq. pose proof (Z.div_mod a chunks_per_block) as Hdm.
  set (q := Z.to_nat (a mod chunks_per_block)). exists (m * cpb + q)%nat. split; [unfold room; nia|].
  unfold address. rewrite <- (Nat.div_unique (m * cpb + q) cpb m q), <- (Nat.mod_unique (m * cpb + q) cpb m q) by lia.
  unfold nth_block. rewrite (nth_lookup_Some _ _ _ _ Hm). rewrite Hoffset. nia.
Qed.

Lemma address_block j : (j < room)%nat → ∃ i q, i ∈ E ∧ 0 ≤ q < chunks_per_block ∧ address j = i * chunks_per_block + q - chunk_offset.
Proof.
  intros Hj. pose proof cpb_pos as [Hc Hz]. pose proof (Nat.mod_upper_bound j cpb ltac:(lia)).
  exists (nth_block (j / cpb)), (Z.of_nat (j mod cpb)). split_and!; [|lia|lia|done].
  apply nth_block_in, div_lt_room, Hj.
Qed.

Lemma block_chunk i q : 0 ≤ q < chunks_per_block → (i * chunks_per_block + q - chunk_offset) / chunks_per_block = i - block_offset.
Proof. intros Hq. rewrite Hoffset. symmetry. apply (Z.div_unique _ _ _ q); lia. Qed.

Lemma erase_skip d0 i d x : available d0 → erased_to d0 i d → in_range i → info (blocks d) i = Some x →
  block_state x ≠ YAFFS_BLOCK_STATE_CHECKPOINT → erased_to d0 (i + 1) d.
Proof.
  intros [Hs0 Hb0 Hk0] [Hs Hc Hd Hr Hn Ho] Hi Hx Hst. split; try done; [|by intros b Hb Hle; apply Hr; [|lia]].
  intros b y Hb Hlt Hy. destruct (decide (b = i)) as [->|]; [|apply Hd; [done|lia|done]].
  rewrite Hx in Hy. injection Hy as <-. pose proof Hx as Hx0. rewrite Hr in Hx0 by (done || lia).
  assert (block_state x = YAFFS_BLOCK_STATE_EMPTY ↔ i ∈ E) as Hiff by (rewrite <- (Hb0 i x Hi Hx0); tauto).
  split; [done|]. intros Hin q Hq. apply Hn. apply (Hk0 i x Hi Hx0); [by apply Hiff|done].
Qed.

Lemma erase_one d0 i d x : available d0 → erased_to d0 i d → in_range i → info (blocks d) i = Some x →
  block_state x = YAFFS_BLOCK_STATE_CHECKPOINT → ∀ f' d',
  (∀ k, content f' k = if decide (k / chunks_per_block = i - block_offset) then None else content (flash d) k) →
  flash d' = f' → shape (blocks d') → n_erased_blocks (blocks d) ≤ n_erased_blocks (blocks d') →
  (∀ b, in_range b → info (blocks d') b = info (b_bi i (set_block_state YAFFS_BLOCK_STATE_EMPTY) (blocks d)) b) →
  erased_to d0 (i + 1) d'.
Proof.
  intros [Hs0 Hb0 Hk0] [Hs Hc Hd Hr Hn Ho] Hi Hx Hst f' d' Hf Hfl Hs' Hc' Hinfo.
  pose proof Hx as Hx0. rewrite Hr in Hx0 by (done || lia).
  assert (i ∈ E) as HiE by (apply (Hb0 i x Hi Hx0); auto).
  assert (∀ a, content (flash d) a = None → content f' a = None) as Hmono by (intros a Ha; rewrite Hf; by case_decide).
  split; rewrite ?Hfl; [done|lia| | | |].
  - intros b y Hb Hlt Hy. rewrite Hinfo, info_b_bi in Hy by done. destruct (decide (b = i)) as [->|].
    + apply fmap_Some in Hy as (z & _ & ->). split; [done|]. intros _ q Hq. rewrite Hf, decide_True; [done|by apply block_chunk].
    + destruct (Hd b y Hb ltac:(lia) Hy) as [H1 H2]. split; [done|]. intros Hin q Hq. apply Hmono. by apply H2.
  - intros b Hb Hle. rewrite Hinfo, info_b_bi, decide_False by (done || lia). apply Hr; [done|lia].
  - intros a Ha. by apply Hmono, Hn.
  - intros a Ha. rewrite Hf, decide_False; [by apply Ho|]. intros Hdiv.
    destruct (block_address i a HiE Hdiv) as (j & Hj & ->). by apply (Ha j).
Qed.

Lemma erase_loop_run d0 n : ∀ i d, available d0 → erased_to d0 i d → internal_start_block ≤ i →
  i + Z.of_nat n = internal_end_block + 1 →
  ∃ d', checkpt_erase_loop n i d = Ok ((), d') ∧ erased_to d0 (internal_end_block + 1) d'.
Proof.
  induction n as [|n IH]; intros i d Hav He Hi Hn.
  { exists d. split; [done|]. by replace (internal_end_block + 1) with i by lia. }
  cbn [checkpt_erase_loop]. assert (in_range i) as Hr by (split; lia).
  destruct (in_range_info _ i (et_shape _ _ _ He) Hr) as [x Hx].
  prog_step (get_block_info_run i d Hr). prog_step (bi_of_run i d x Hr Hx).
  destruct (decide (block_state x = YAFFS_BLOCK_STATE_CHECKPOINT)) as [Hst|Hst].
  - rewrite bool_decide_true by done. cbn [when].
    destruct (good_erase (flash d) (i - block_offset)) as (f' & Hf & Hrun).
    set (d1 := set_stats (λ s', if decide (s' = N_erasures) then u32 (stats d N_erasures + 1) else stats d s') d).
    assert (bump N_erasures d = Ok ((), d1)) as Hbump by done.
    rewrite !run_bind_bind. rewrite (bind_Ok _ _ _ _ _ Hbump).
    rewrite !run_bind_bind, (bind_Ok _ _ _ _ _ (on_flash_run Hyaffs2 Hinband _ d1 _ _ Hrun)). change (negb (YAFFS_OK =? 0)) with true. cbn iota.
    set (d2 := set_flash f' d1). pose proof (et_shape _ _ _ He) as Hs.
    rewrite !run_bind_bind, (bind_Ok _ _ _ _ _ (upd_bi_run i (set_block_state YAFFS_BLOCK_STATE_EMPTY) d2 Hs Hr)).
    rewrite !run_bind_bind. rewrite (bind_Ok _ _ _ _ _ (run_upd_blocks _ _)), (bind_Ok _ _ _ _ _ (run_upd_blocks _ _)).
    apply IH; [done| |lia|lia].
    apply (erase_one d0 i d x Hav He Hr Hx Hst f'); [done|done| | |done].
    + by apply shape_n_free, shape_n_erased, shape_b_bi.
    + cbn. lia.
  - rewrite bool_decide_false by done. cbn [when]. rewrite run_bind_ret. apply IH; [done| |lia|lia].
    by apply (erase_skip d0 i d x).
Qed.

Lemma erase_run d0 : available d0 → ∃ d', yaffs_checkpt_erase d0 = Ok (1, d') ∧ erased_to d0 (internal_end_block + 1) d'.
Proof.
  intros Hav. destruct Hgeo as [? ? ? ? ?].
  destruct (erase_loop_run d0 (Z.to_nat (internal_end_block - internal_start_block + 1)) internal_start_block d0 Hav) as (d' & Hrun & He);
    [|lia|lia|].
  { split; [apply Hav|lia| |done|done|done]. intros b x [? ?] ?. lia. }
  exists (set_blocks_in_checkpt 0 d'). split; [unfold yaffs_checkpt_erase; by prog_step Hrun|].
  destruct He. by split.
Qed.

(** The stream before its first byte. *)
Definition room_for_buffer (c : yaffs_checkpt) (kbuf : option (list Z)) : Prop :=
  ∃ b, match checkpt_buffer c with Some b => Some b | None => kbuf end = Some b ∧ zlen b = data_bytes_per_chunk.

Lemma open_write_run c d kbuf klist : available d → 0 < n_erased_blocks (blocks d) - n_reserved_blocks →
  room_for_buffer c kbuf → ∃ s, yaffs2_checkpt_open kbuf klist true (c, d) = Ok (1, s) ∧ writer (flash d) 0 s.
Proof.
  intros Hav Hn (b & Hb & Hl). unfold yaffs2_checkpt_open, yaffs2_checkpt_space_ok. prog_simpl.
  rewrite (proj2 (Z.leb_gt _ _)) by lia. cbn [negb]. prog_simpl.
  change (checkpt_buffer (set_checkpt_open_write true c)) with (checkpt_buffer c). rewrite Hb. prog_simpl.
  rewrite overlay_full by (rewrite length_replicate; lia). rewrite run_bind_defined. prog_simpl. rewrite zero_page.
  match goal with |- ∃ s, (yaffs2_checkpt_init_chunk_hdr ≫= _) (?c', _) = _ ∧ _ => set (c1 := c') end.
  prog_step (init_hdr_run d c1 0 (replicate 16 0) eq_refl eq_refl eq_refl).
  destruct (erase_run d Hav) as (d' & Hrun & [Hs Hc Hd Hr Hno Ho]).
  eexists. split; [by apply on_dev_run|]. pose proof cap_pos as [Hcap _]. pose proof cpb_pos as [Hcpb _].
  unfold writer. rewrite Nat.Div0.div_0_l. cbn [fst snd]. split.
  - assert (taken 0 = 0%nat) as Ht by (unfold taken; rewrite Nat.Div0.div_0_l, decide_True by apply Nat.Div0.mod_0_l; lia).
    split; rewrite ?Ht; try done.
    + split; [lia| |done]. intros j [_ Hj]. destruct (address_block j Hj) as (i & q & HiE & Hq & ->).
      pose proof (proj1 (Forall_forall _ _) HE i HiE) as Hir. destruct (in_range_info _ i Hs Hir) as [x Hx].
      destruct (Hd i x Hir ltac:(destruct Hir; lia) Hx) as [_ Hbl]. by apply Hbl.
    + lia.
    + intros i x Hir Hx. apply (Hd i x Hir ltac:(destruct Hir; lia) Hx).
    + by rewrite decide_True by apply Nat.Div0.mod_0_l.
  - split; [|by rewrite Nat.Div0.mod_0_l|done|done]. rewrite Nat.Div0.div_0_l. cbn.
    unfold page_bytes, page_hdr, chunk_of. rewrite Nat.mul_0_l, !take_0, drop_0, take_nil. cbn [app length]. by rewrite Nat.sub_0_r.
Qed.

(** What the device holds when the stream is closed. *)
Lemma close_write_run f0 c d t0 : writer f0 (length all) (c, d) →
  ∃ s, yaffs_checkpt_close t0 (c, d) = Ok (1, s) ∧ written f0 (S (length all / cap)) (flash s.2).
Proof.
  intros [Hw [Hb Ho Hs Hx]]. cbn [fst snd] in *. destruct (pages_fit (length all) ltac:(lia)) as [Hk Hk31].
  rewrite take_ge in Hb by done.
  destruct (flush_run f0 _ c d t0 Hw Hk Hk31 Hb) as ([c' d'] & Hrun & Hw' & Hb' & _).
  unfold yaffs_checkpt_close. prog_simpl. rewrite (w_open _ _ _ _ Hw), Ho. rewrite (proj2 (Z.eqb_neq _ 4)) by lia. cbn [negb when].
  rewrite run_bind_bind, (bind_Ok _ _ _ _ _ Hrun). prog_simpl.
  rewrite (bind_Ok _ _ _ _ _ (on_dev_run _ c' d' _ _ (run_upd_blocks _ _))).
  rewrite (bind_Ok _ _ _ _ _ (on_dev_run _ c' _ _ _ (run_upd_blocks _ _))). prog_simpl. cbn [fst] in Hb'. rewrite Hb'.
  eexists. split; [reflexivity|]. apply Hw'.
Qed.

Lemma wr_run f0 t0 data rest p s : writer f0 p s → drop p all = data ++ rest →
  ∃ s', yaffs2_checkpt_wr t0 data s = Ok (zlen data, s') ∧ writer f0 (p + length data) s'.
Proof.
  intros Hw Hd. destruct (wr_loop_run f0 t0 data rest p 0 s Hw Hd) as (s' & Hrun & Hw'). exists s'. split; [|done].
  destruct s as [c d]. unfold yaffs2_checkpt_wr. rewrite run_bind_the_cp.
  pose proof (at_buffer _ _ (proj2 Hw)) as Hb. cbn [fst] in Hb. rewrite Hb.
  pose proof (w_open _ _ _ _ (proj1 Hw)) as Ho. cbn [fst] in Ho. by rewrite Ho.
Qed.

(** ** Reading *)

(** The flash [f1] holds the stream; the blocks that are not of the stream hold other data. *)
Definition n_pages : nat := S (length all / cap).
Context (f0 f1 : F) (Hf1 : written f0 n_pages f1).
Context (Hother : ∀ i, in_range i → i ∉ E →
  ∃ t, tags_read (content f0 (i * chunks_per_block - chunk_offset)) t ∧ seq_number t ≠ YAFFS_SEQUENCE_CHECKPOINT_DATA).

Record reading (k : nat) (c : yaffs_checkpt) (d : yaffs_dev F) : Prop := mk_reading {
  r_open : checkpt_open_write c = false;
  r_flash : content (flash d) = content f1;
  r_next : checkpt_next_block c = search_from (taken k);
  r_cur : if decide (k mod cpb = 0)%nat then checkpt_cur_block c = -1
          else checkpt_cur_block c = nth_block (k / cpb) ∧ checkpt_cur_chunk c = Z.of_nat (k mod cpb);
  r_seq : checkpt_page_seq c = Z.of_nat k;
  r_blocks : blocks_in_checkpt d = Z.of_nat (taken k);
  r_list : ∃ l, checkpt_block_list c = Some l ∧ checkpt_max_blocks c ≤ zlen l;
  r_max : Z.of_nat (taken n_pages) ≤ checkpt_max_blocks c < 2 ^ 32
}.

Lemma page_tags_read k : (k < n_pages)%nat →
  tags_read (content f1 (address k)) (tags2_stored YAFFS_ECC_RESULT_NO_ERROR (page_tags k)) ∧
  page_data (content f1 (address k)) total_bytes_per_chunk = page_bytes k all.
Proof.
  intros Hk. destruct (pages_fit (length all) ltac:(lia)) as [H1 H2]. unfold n_pages in Hk.
  assert (tags2_ok (page_tags k)) as Hok by (apply page_tags_ok; lia).
  destruct (tags_image_unpack _ Hok) as (l & _ & Hl & _). rewrite (wr_pages _ _ _ Hf1 k Hk), Hl. cbn [fmap option_fmap option_map].
  split; [by exists (page_tags k)|]. cbn [page_data]. apply take_ge. rewrite page_bytes_length. pose proof cap_pos. lia.
Qed.

Lemma page_tags_stored k : let t := tags2_stored YAFFS_ECC_RESULT_NO_ERROR (page_tags k) in
  obj_id t = search_from (S (k / cpb)) ∧ chunk_id t = Z.of_nat k + 1 ∧
  seq_number t = YAFFS_SEQUENCE_CHECKPOINT_DATA ∧ ecc_result t = YAFFS_ECC_RESULT_NO_ERROR.
Proof.
  unfold tags2_stored, yaffs_check_tags_extra_packable. cbn [page_tags checkpt_tags chunk_id].
  rewrite (proj2 (Z.eqb_neq _ _)) by lia. done.
Qed.

Lemma first_chunk m : (m < length E)%nat → nth_block m * chunks_per_block - chunk_offset = address (m * cpb).
Proof.
  intros Hm. pose proof cpb_pos as [? ?]. unfold address. rewrite Nat.div_mul, Nat.Div0.mod_mul by lia. lia.
Qed.

Lemma other_first_chunk i : in_range i → i ∉ E → ∃ t,
  tags_read (content f1 (i * chunks_per_block - chunk_offset)) t ∧ seq_number t ≠ YAFFS_SEQUENCE_CHECKPOINT_DATA.
Proof.
  intros Hi HiE. destruct (Hother i Hi HiE) as (t & Ht & Hs). exists t. split; [|done].
  rewrite (wr_other _ _ _ Hf1); [done|]. intros j Hj Ha. destruct (address_block j Hj) as (b & q & Hb & Hq & Haj).
  rewrite Haj in Ha. assert (i = b) as -> by nia. done.
Qed.

Lemma find_checkpt_run m t1 c n : ∀ (d : yaffs_dev F) i t, (m * cpb < n_pages)%nat → content (flash d) = content f1 →
  search_from m ≤ i ≤ nth_block m → nth_block m - i < Z.of_nat n →
  ∃ f', content f' = content f1 ∧ find_checkpt_loop t1 n i t (c, d) =
    Ok (Some (nth_block m, tags2_stored YAFFS_ECC_RESULT_NO_ERROR (page_tags (m * cpb))), (c, set_flash f' d)).
Proof.
  intros d i t Hm. destruct (pages_fit (length all) ltac:(lia)) as [Hrm _]. pose proof cpb_pos as [Hcpb _].
  assert (m < length E)%nat as HmE by (unfold n_pages, room in *; nia).
  pose proof (search_from_le m HmE) as [Hlo _]. destruct (nth_block_in m HmE) as [HinE [Hb1 Hb2]].
  revert d i t. induction n as [|n IH]; intros d i t Hfl Hi Hn; [lia|]. cbn [find_checkpt_loop].
  assert (apply_chunk_offset (i * chunks_per_block) = i * chunks_per_block - chunk_offset) as Haddr by done.
  destruct (decide (i = nth_block m)) as [->|Hne].
  - destruct (page_tags_read (m * cpb) Hm) as [Htr _]. destruct (page_tags_stored (m * cpb)) as (_ & _ & Hseq & _).
    rewrite <- (first_chunk m HmE) in Htr. rewrite <- Hfl in Htr.
    destruct (read_tags_run Hyaffs2 Hinband d _ false t _ Htr) as (f' & Hf' & Hr). rewrite Haddr.
    rewrite (bind_Ok _ _ _ _ _ (on_dev_run _ c d _ _ Hr)). cbn iota beta. rewrite Hseq. cbn [Z.eqb negb]. rewrite Z.eqb_refl. cbn [negb].
    assert (nth_block m * chunks_per_block - chunk_offset = apply_block_offset (nth_block m) * chunks_per_block) as Hq
      by (unfold apply_block_offset; rewrite Hoffset; lia).
    rewrite Hq in Htr. rewrite <- Hf' in Htr.
    destruct (query_block_run Hyaffs2 Hinband (set_flash f' d) t1 _ _ Htr) as (f'' & st & seq & r & Hf'' & Hst & Hqr).
    rewrite (bind_Ok _ _ _ _ _ (on_dev_run _ c _ _ _ Hqr)). cbn iota beta. rewrite bool_decide_false by done.
    exists f''. split; [by rewrite Hf'', <- Hfl|done].
  - assert (in_range i) as Hir by (split; lia).
    destruct (other_first_chunk i Hir ltac:(apply (search_skips m i HmE); lia)) as (t' & Htr & Hseq).
    rewrite <- Hfl in Htr. destruct (read_tags_run Hyaffs2 Hinband d _ false t _ Htr) as (f' & Hf' & Hr). rewrite Haddr.
    rewrite (bind_Ok _ _ _ _ _ (on_dev_run _ c d _ _ Hr)). cbn iota beta. rewrite (proj2 (Z.eqb_neq _ _) Hseq). cbn [negb].
    destruct (IH (set_flash f' d) (i + 1) t') as (f'' & Hf'' & Hrun); [by rewrite <- Hfl|lia|lia|].
    exists f''. by rewrite Hrun.
Qed.

Lemma taken_mono j k : (j ≤ k)%nat → (taken j ≤ taken k)%nat.
Proof.
  intros Hjk. destruct (decide (j = k)) as [->|]; [done|]. destruct k as [|k]; [lia|]. rewrite taken_S.
  pose proof (Nat.Div0.div_le_mono j k cpb ltac:(lia)). unfold taken. destruct (decide _) as [|Hq]; lia.
Qed.

Lemma choose_read_run k c d t0 t1 : reading k c d → (k < n_pages)%nat → ∃ l d',
  when (checkpt_cur_block c <? 0) (yaffs2_checkpt_find_block t0 t1;; upd_cp (set_checkpt_cur_chunk 0)) (c, d) =
    Ok ((), (set_checkpt_block_list (Some l) (cursor (nth_block (k / cpb)) (Z.of_nat (k mod cpb)) (search_from (S (k / cpb))) c), d')) ∧
  content (flash d') = content f1 ∧ blocks_in_checkpt d' = Z.of_nat (S (k / cpb)) ∧ checkpt_max_blocks c ≤ zlen l.
Proof.
  intros [_ Hfl Hn Hc _ Hb (l & Hl & Hlen') Hmax] Hk. pose proof (taken_mono (S k) n_pages Hk) as Htk. rewrite taken_S in Htk.
  destruct (pages_fit (length all) ltac:(lia)) as [Hrm _]. pose proof cpb_pos as [Hcpb _].
  assert (k < room)%nat as Hkr by (unfold n_pages in Hk; lia). pose proof (div_lt_room k Hkr) as HmE.
  pose proof (search_from_le _ HmE) as [Hl1 Hl2]. destruct (nth_block_in _ HmE) as [_ [Hb1 Hb2]]. destruct Hgeo as [Hst _ _ _ _].
  unfold taken in *. destruct (decide (k mod cpb = 0)%nat) as [Hq|Hq].
  - rewrite Nat.add_0_r in *. rewrite Hc, Hq. cbn [when Z.ltb Z.compare]. unfold yaffs2_checkpt_find_block. prog_simpl.
    rewrite Hn, (wrapu_id 32 (search_from _)) by (unfold in_u; lia). rewrite Hb, (proj2 (Z.ltb_lt (Z.of_nat _) _)) by lia.
    assert (k / cpb * cpb = k)%nat as Hkm by (pose proof (Nat.div_mod_eq k cpb); lia).
    destruct (find_checkpt_run (k / cpb) t1 c (Z.to_nat (internal_end_block - search_from (k / cpb) + 1)) d (search_from (k / cpb)) t0)
      as (f' & Hf' & Hrun); [by rewrite Hkm|done|lia|lia|].
    prog_step Hrun. rewrite Hkm. destruct (page_tags_stored k) as (Ho & _ & _ & _). rewrite Ho.
    rewrite wraps_id by (done || (unfold in_s; cbn [search_from]; lia)).
    change (checkpt_block_list _) with (checkpt_block_list c). rewrite Hl, run_bind_defined, zset_Some by lia. prog_simpl.
    do 2 eexists. split; [reflexivity|]. cbn [flash blocks_in_checkpt set_blocks_in_checkpt set_flash]. split_and!; [done| |by rewrite length_insert].
    rewrite wrapu_id by (unfold in_u; lia). lia.
  - destruct Hc as [Hc1 Hc2]. rewrite (proj2 (Z.ltb_ge _ _)) by lia. cbn [when]. rewrite Nat.add_1_r in *. exists l, d.
    split_and!; [|done|done|done]. unfold cursor. rewrite <- Hc1, <- Hc2, <- Hn, <- Hl. by destruct c.
Qed.

(** A chunk is read into the buffer. *)
Lemma next_chunk_run k c d t0 t1 : reading k c d → (k < n_pages)%nat →
  (∃ b, checkpt_buffer c = Some b ∧ zlen b = data_bytes_per_chunk) →
  checkpt_sum c = stream_sum (take (k * cap) all) → checkpt_xor c = stream_xor (take (k * cap) all) →
  ∃ c' d', checkpt_next_chunk t0 t1 (c, d) = Ok (true, (c', d')) ∧ reading (S k) c' d' ∧
    checkpt_buffer c' = Some (page_bytes k all) ∧ checkpt_byte_offs c' = 16 ∧
    checkpt_sum c' = checkpt_sum c ∧ checkpt_xor c' = checkpt_xor c.
Proof.
  intros Hr Hk (b & Hb & Hbl) Hsum Hxor. destruct (choose_read_run k c d t0 t1 Hr Hk) as (l & d1 & Hch & Hf & Hbc & Hl).
  destruct Hr as [Hop _ _ _ Hseq _ _ Hmax]. pose proof cap_pos as [_ Hcap]. pose proof cpb_pos as [Hcpb Hcz].
  destruct (pages_fit (length all) ltac:(lia)) as [Hrm H31]. unfold n_pages in Hk.
  destruct (nth_block_in _ (div_lt_room k ltac:(lia))) as [_ [Hb1 _]]. destruct Hgeo as [Hst _ _ _ _].
  unfold checkpt_next_chunk. rewrite run_bind_the_cp. prog_step Hch. set (c1 := set_checkpt_block_list _ _).
  change (checkpt_cur_block c1) with (nth_block (k / cpb)). rewrite (proj2 (Z.ltb_ge _ 0)) by lia. cbv zeta.
  change (checkpt_cur_chunk c1) with (Z.of_nat (k mod cpb)). set (d2 := set_stats _ d1).
  destruct (page_tags_read k Hk) as [Htr Hpd]. rewrite <- Hf in Htr, Hpd.
  destruct (read_tags_run Hyaffs2 Hinband d2 _ true t0 _ Htr) as (f2 & Hf2 & Hrd).
  change (content (flash d2)) with (content (flash d1)) in Hrd. rewrite Hpd in Hrd.
  change (apply_chunk_offset (nth_block (k / cpb) * chunks_per_block + Z.of_nat (k mod cpb))) with (address k).
  rewrite (bind_Ok _ _ _ _ _ (on_dev_run _ c1 d2 _ _ Hrd)). cbn iota beta.
  change (checkpt_buffer c1) with (checkpt_buffer c). rewrite Hb, run_bind_defined.
  rewrite overlay_full by (rewrite page_bytes_length; lia). rewrite run_bind_defined, run_bind_upd_cp.
  destruct (page_tags_stored k) as (_ & -> & -> & ->). change (checkpt_page_seq c1) with (checkpt_page_seq c).
  rewrite Hseq, wrapu_id by (unfold in_u; lia). rewrite !Z.eqb_refl. cbn [negb orb ecc_Z].
  change (2 <? 1) with false. cbn [orb].
  assert (∀ c2 (d3 : yaffs_dev F), checkpt_buffer c2 = Some (page_bytes k all) → checkpt_page_seq c2 = Z.of_nat k →
    checkpt_sum c2 = checkpt_sum c → checkpt_xor c2 = checkpt_xor c →
    yaffs2_checkpt_check_chunk_hdr (c2, d3) = Ok (true, (set_checkpt_byte_offs 16 c2, d3))) as Hck.
  { intros c2 d3 E1 E2 E3 E4. unfold yaffs2_checkpt_check_chunk_hdr. prog_simpl. rewrite E1, run_bind_defined.
    rewrite page_hdr_read by (done || lia). prog_simpl. cbn [page_hdr hdr_version hdr_seq hdr_sum hdr_xor].
    by rewrite E2, E3, E4, Hsum, Hxor, !Z.eqb_refl. }
  rewrite (bind_Ok _ _ _ _ _ (Hck (set_checkpt_buffer (Some (page_bytes k all)) c1) _ eq_refl Hseq eq_refl eq_refl)). cbn [negb]. rewrite !run_bind_upd_cp.
  set (c3 := set_checkpt_cur_chunk _ _). set (full := chunks_per_block <=? _).
  assert (when full (upd_cp (set_checkpt_cur_block (-1))) (c3, set_flash f2 d2) =
    Ok ((), (if full then set_checkpt_cur_block (-1) c3 else c3, set_flash f2 d2))) as Hfull by by destruct full.
  prog_step Hfull. do 2 eexists. split; [reflexivity|]. set (c4 := if full then _ else _).
  assert (checkpt_buffer c4 = Some (page_bytes k all) ∧ checkpt_byte_offs c4 = 16 ∧ checkpt_sum c4 = checkpt_sum c ∧
    checkpt_xor c4 = checkpt_xor c) as Hc4 by (unfold c4; by destruct full).
  split; [|exact Hc4]. assert (checkpt_open_write c4 = checkpt_open_write c ∧ checkpt_next_block c4 = search_from (S (k / cpb)) ∧
    checkpt_page_seq c4 = Z.of_nat k + 1 ∧ checkpt_block_list c4 = Some l ∧ checkpt_max_blocks c4 = checkpt_max_blocks c)
    as (E1 & E2 & E3 & E4 & E5) by (unfold c4; by destruct full).
  split; rewrite ?taken_S, ?E1, ?E2, ?E3, ?E5; try done; [rewrite <- Hf; exact Hf2| |lia|by exists l].
  unfold c4, full. destruct (succ_div_mod k cpb ltac:(lia)) as [(Hr & -> & ->)|(Hr & -> & ->)].
  - rewrite (proj2 (Z.leb_le _ _)) by (cbn; lia). by rewrite decide_True.
  - rewrite (proj2 (Z.leb_gt _ _)) by (cbn; lia). rewrite decide_False by lia. split; [done|]. cbn. lia.
Qed.

Lemma get_byte k r x : (r < cap)%nat → all !! (k * cap + r)%nat = Some x →
  znth (page_bytes k all) (16 + Z.of_nat r) = Some x.
Proof.
  intros Hr Hx. pose proof (lookup_lt_Some _ _ _ Hx). rewrite znth_lookup by lia.
  replace (Z.to_nat (16 + Z.of_nat r)) with (16 + r)%nat by lia. unfold page_bytes.
  rewrite lookup_app_r by (rewrite chunk_hdr_length; lia). rewrite chunk_hdr_length, Nat.add_comm, Nat.add_sub.
  unfold chunk_of. rewrite lookup_app_l by (rewrite length_take, length_drop; lia).
  by rewrite lookup_take_lt, lookup_drop by lia.
Qed.

(** The reader before the byte number [p]: [r] bytes of the last of [k] chunks are read. *)
Record reader (p : nat) (s : yaffs_checkpt * yaffs_dev F) : Prop := mk_reader {
  rd_pos : ∃ k r, (p + cap = k * cap + r)%nat ∧ (0 < r ≤ cap)%nat ∧ reading k s.1 s.2 ∧
    checkpt_byte_offs s.1 = 16 + Z.of_nat r ∧
    ∃ b, checkpt_buffer s.1 = Some b ∧ zlen b = data_bytes_per_chunk ∧ ((0 < k)%nat → b = page_bytes (k - 1) all);
  rd_sum : checkpt_sum s.1 = stream_sum (take p all);
  rd_xor : checkpt_xor s.1 = stream_xor (take p all)
}.

Lemma reading_ext k c c' d : reading k c d → checkpt_open_write c' = checkpt_open_write c →
  checkpt_next_block c' = checkpt_next_block c → checkpt_cur_block c' = checkpt_cur_block c →
  checkpt_cur_chunk c' = checkpt_cur_chunk c → checkpt_page_seq c' = checkpt_page_seq c →
  checkpt_block_list c' = checkpt_block_list c → checkpt_max_blocks c' = checkpt_max_blocks c → reading k c' d.
Proof. intros [] E1 E2 E3 E4 E5 E6 E7. by split; rewrite ?E1, ?E2, ?E3, ?E4, ?E5, ?E6, ?E7. Qed.

(** Before a byte is taken, the buffer has the chunk that it is in. *)
Lemma refill_run p c d t0 t1 : reader p (c, d) → (p < length all)%nat → ∃ c' d' k r, 
  (if (checkpt_byte_offs c <? 0) || (data_bytes_per_chunk <=? checkpt_byte_offs c)
   then checkpt_next_chunk t0 t1 else mret true) (c, d) = Ok (true, (c', d')) ∧
  p = (k * cap + r)%nat ∧ (r < cap)%nat ∧ reading (S k) c' d' ∧ checkpt_byte_offs c' = 16 + Z.of_nat r ∧
  checkpt_buffer c' = Some (page_bytes k all) ∧ checkpt_sum c' = checkpt_sum c ∧ checkpt_xor c' = checkpt_xor c.
Proof.
  intros [(k & r & Hp & Hr & Hrd & Ho & b & Hb & Hbl & Hbk) Hs Hx] Hpl. cbn [fst snd] in *. pose proof cap_pos as [Hc0 Hc].
  rewrite Ho, (proj2 (Z.ltb_ge _ 0)) by lia. cbn [orb]. destruct (decide (r = cap)) as [->|Hne].
  - rewrite (proj2 (Z.leb_le _ _)) by lia. assert (p = k * cap)%nat as -> by lia.
    assert (k < n_pages)%nat as Hk.
    { unfold n_pages. apply Nat.lt_succ_r. apply Nat.div_le_lower_bound; [lia|]. lia. }
    destruct (next_chunk_run k c d t0 t1 Hrd Hk ltac:(by exists b) Hs Hx) as (c' & d' & Hrun & H1 & H2 & H3 & H4 & H5).
    exists c', d', k, 0%nat. split_and!; try done; lia.
  - rewrite (proj2 (Z.leb_gt _ _)) by lia. destruct k as [|k]; [lia|].
    exists c, d, k, r. rewrite Hb, (Hbk ltac:(lia)). replace (S k - 1)%nat with k by lia. split_and!; try done; lia.
Qed.

Lemma rd_loop_run t0 t1 data rest : ∀ p s, reader p s → drop p all = data ++ rest →
  ∃ s', checkpt_rd_loop t0 t1 (length data) s = Ok (data, s') ∧ reader (p + length data) s'.
Proof.
  induction data as [|x data IH]; intros p [c d] Hr Hd; cbn [length checkpt_rd_loop].
  { exists (c, d). by rewrite Nat.add_0_r. }
  assert (all !! p = Some x) as Hx by (rewrite <- (Nat.add_0_r p), <- lookup_drop, Hd; done).
  pose proof (lookup_lt_Some _ _ _ Hx) as Hlt.
  destruct (refill_run p c d t0 t1 Hr Hlt) as (c1 & d1 & k & r & Hrun & -> & Hrc & Hrd & Ho & Hb & Hs & Hxo).
  rewrite run_bind_the_cp, (bind_Ok _ _ _ _ _ Hrun). cbn [negb]. rewrite run_bind_the_cp, Hb, run_bind_defined, Ho.
  rewrite (get_byte k r x) by done. rewrite run_bind_defined, !run_bind_upd_cp.
  match goal with |- ∃ s', (checkpt_rd_loop _ _ _ ≫= _) (?c', _) = _ ∧ _ => set (c2 := c') end.
  destruct (IH (S (k * cap + r)) (c2, d1)) as (s2 & Hrun2 & Hr2).
  - destruct Hr as [_ Hs0 Hx0]. cbn [fst] in Hs0, Hx0. split; cbn [fst snd].
    + exists (S k), (S r). split_and!; [lia|lia|lia|by eapply reading_ext|cbn; lia|].
      exists (page_bytes k all). pose proof cap_pos. rewrite page_bytes_length. split_and!; [done|lia|].
      intros _. by replace (S k - 1)%nat with k by lia.
    + rewrite (take_S_r _ _ _ Hx), stream_sum_snoc, <- Hs0, <- Hs. done.
    + rewrite (take_S_r _ _ _ Hx), stream_xor_snoc, <- Hx0, <- Hxo. done.
  - rewrite <- (Nat.add_1_r (k * cap + r)), <- drop_drop, Hd. done.
  - exists s2. rewrite (bind_Ok _ _ _ _ _ Hrun2). split; [done|].
    by replace (k * cap + r + S (length data))%nat with (S (k * cap + r) + length data)%nat by lia.
Qed.

(** The limits of the reader: the list has room for the blocks, and they are not too many. *)
Definition max_blocks : Z := u32 (internal_end_block - internal_start_block) / 16 + 2.
Definition room_for_list (c : yaffs_checkpt) (klist : option (list Z)) : Prop :=
  ∃ l, match checkpt_block_list c with Some l => Some l | None => klist end = Some l ∧ max_blocks ≤ zlen l.

Lemma open_read_run c d kbuf klist : content (flash d) = content f1 → room_for_buffer c kbuf → room_for_list c klist →
  Z.of_nat (taken n_pages) ≤ max_blocks →
  ∃ s, yaffs2_checkpt_open kbuf klist false (c, d) = Ok (1, s) ∧ reader 0 s.
Proof.
  intros Hfl (b & Hb & Hbl) (l & Hl & Hll) Hmax. destruct Hgeo as [? ? ? ? ?]. pose proof cap_pos as [Hc0 Hc]. pose proof cpb_pos as [Hcpb _].
  assert (0 ≤ max_blocks < 2 ^ 32) as Hmb.
  { unfold max_blocks. rewrite wrapu_id by (unfold in_u; lia).
    assert (0 ≤ internal_end_block - internal_start_block < 2 ^ 28) as Hw by lia. revert Hw.
    generalize (internal_end_block - internal_start_block). intros w Hw. pose proof (Z.div_mod w 16). pose proof (Z.mod_pos_bound w 16). lia. }
  unfold yaffs2_checkpt_open. prog_simpl. cbn [negb]. prog_simpl.
  change (checkpt_buffer (set_checkpt_open_write false c)) with (checkpt_buffer c). rewrite Hb. prog_simpl.
  change (checkpt_block_list (set_checkpt_open_write false c)) with (checkpt_block_list c). cbv zeta. rewrite Hl. prog_simpl.
  fold max_blocks. unfold overlay. change (0 <=? 0) with true. rewrite length_replicate, (proj2 (Z.leb_le _ _)) by lia. cbn [andb].
  rewrite run_bind_defined. prog_simpl. eexists. split; [reflexivity|]. assert (taken 0 = 0%nat) as Ht0.
  { unfold taken. by rewrite Nat.Div0.div_0_l, decide_True by apply Nat.Div0.mod_0_l. }
  split; [|done|done]. cbn [fst snd]. exists 0%nat, cap. split_and!; [lia|lia|lia| |cbn; lia|exists b; split_and!; [done|done|intros; lia]].
  split; rewrite ?Ht0; try done; [by rewrite decide_True by apply Nat.Div0.mod_0_l| |cbn; lia].
  eexists. split; [reflexivity|]. rewrite !length_app, length_replicate. change (max_blocks ≤ Z.of_nat (length (take (Z.to_nat 0) l) + (Z.to_nat max_blocks + length (drop (Z.to_nat 0 + Z.to_nat max_blocks) l)))). lia.
Qed.

Lemma rd_run t0 t1 data rest p s : reader p s → drop p all = data ++ rest →
  ∃ s', yaffs2_checkpt_rd t0 t1 (zlen data) s = Ok ((zlen data, data), s') ∧ reader (p + length data) s'.
Proof.
  intros Hr Hd. destruct (rd_loop_run t0 t1 data rest p s Hr Hd) as (s' & Hrun & Hr'). exists s'. split; [|done].
  destruct s as [c d]. unfold yaffs2_checkpt_rd. rewrite run_bind_the_cp.
  destruct Hr as [(k & r & _ & _ & Hrd & _ & b & Hb & _) _ _]. cbn [fst snd] in *. rewrite Hb, (r_open _ _ _ Hrd), Nat2Z.id.
  by prog_step Hrun.
Qed.
End blocks.

Section script.
Context {F : Type} {cfg : yaffs_config} {drv : yaffs_driver F}.
Abbreviation C := (prog (yaffs_checkpt * yaffs_dev F)).

(** A stream that is written by a sequence of calls, and one that is read; the checksum is asked for at the end. *)
Definition save_stream (kbuf klist : option (list Z)) (t0 : yaffs_ext_tags) (ds : list (list Z)) : C (Z * list Z * Z * Z) :=
  ok ← yaffs2_checkpt_open kbuf klist true;
  ns ← mapM (yaffs2_checkpt_wr t0) ds;
  sum ← yaffs2_get_checkpt_sum;
  e ← yaffs_checkpt_close t0;
  mret (ok, ns, sum, e).

Definition restore_stream (kbuf klist : option (list Z)) (t0 t1 : yaffs_ext_tags) (sizes : list Z)
  : C (Z * list (Z * list Z) * Z) :=
  ok ← yaffs2_checkpt_open kbuf klist false;
  ds ← mapM (yaffs2_checkpt_rd t0 t1) sizes;
  sum ← yaffs2_get_checkpt_sum;
  mret (ok, ds, sum).

(** The blocks that a stream can take: the erased ones and those of an earlier checkpoint. *)
Definition can_take (d : yaffs_dev F) (i : Z) : bool :=
  match info (blocks d) i with
  | Some x => bool_decide (block_state x = YAFFS_BLOCK_STATE_EMPTY) || bool_decide (block_state x = YAFFS_BLOCK_STATE_CHECKPOINT)
  | None => false
  end.
Definition blocks_to_take (d : yaffs_dev F) : list Z := filter (λ i, can_take d i) (seqZ internal_start_block n_blocks).

Lemma blocks_to_take_in d i : i ∈ blocks_to_take d ↔ in_range i ∧ can_take d i.
Proof. unfold blocks_to_take, in_range, n_blocks. rewrite list_elem_of_filter, elem_of_seqZ. split; intros; naive_solver lia. Qed.

Lemma filter_sorted (P : Z → Prop) `{∀ x, Decision (P x)} l : StronglySorted Z.lt l → StronglySorted Z.lt (filter P l).
Proof.
  induction 1 as [|x l Hs IH Hx]; [constructor|]. rewrite filter_cons. case_decide; [|done].
  constructor; [done|]. apply Forall_forall. intros y [_ Hy]%list_elem_of_filter. by apply (proj1 (Forall_forall _ _) Hx).
Qed.

Lemma seqZ_sorted m n : StronglySorted Z.lt (seqZ m n).
Proof.
  destruct (Z.le_gt_cases n 0) as [Hn|Hn]; [rewrite seqZ_nil by lia; constructor|].
  rewrite <- (Z2Nat.id n) by lia. generalize (Z.to_nat n). clear. intros n. revert m.
  induction n as [|n IH]; intros m; [constructor|]. rewrite seqZ_cons, Nat2Z.inj_succ, Z.pred_succ by lia.
  constructor; [apply IH|]. apply Forall_forall. intros y Hy%elem_of_seqZ. lia.
Qed.

(** What the theorem asks of the device before the stream is written. *)
Record stream_ready {good : good_flash F cfg drv} (d : yaffs_dev F) : Prop := mk_stream_ready {
  sr_shape : shape (blocks d);
  sr_avail : 0 < n_erased_blocks (blocks d) - n_reserved_blocks;
  sr_blank i x : in_range i → info (blocks d) i = Some x → block_state x = YAFFS_BLOCK_STATE_EMPTY → blank (flash d) i;
  sr_other i : in_range i → can_take d i = false → ∃ t,
    tags_read (content (flash d) (i * chunks_per_block - chunk_offset)) t ∧ seq_number t ≠ YAFFS_SEQUENCE_CHECKPOINT_DATA
}.

(** The stream [all] fits in the blocks, and in what the reader looks at. *)
Definition stream_fits (d : yaffs_dev F) (all : list Z) : Prop :=
  (length all / cap < length (blocks_to_take d) * cpb)%nat ∧ Z.of_nat (taken (S (length all / cap))) ≤ max_blocks ∧
  zlen all + 1 < 2 ^ 31.

Context {good : good_flash F cfg drv} {Hgeo : geometry} {Hplain : plain_device}.
#[local] Set Default Proof Using "All".

(** A call for each part of a stream, each with what it does at a position. *)
Lemma calls_run {X R} (call : X → C R) (Inv : nat → yaffs_checkpt * yaffs_dev F → Prop) all (arg : list Z → X) (res : list Z → R) :
  (∀ data rest p s, Inv p s → drop p all = data ++ rest →
    ∃ s', call (arg data) s = Ok (res data, s') ∧ Inv (p + length data)%nat s') →
  ∀ ds p s rest, Inv p s → drop p all = concat ds ++ rest →
  ∃ s', mapM call (arg <$> ds) s = Ok (res <$> ds, s') ∧ Inv (p + length (concat ds))%nat s'.
Proof.
  intros Hone. induction ds as [|data ds IH]; intros p s rest Hw Hd.
  { exists s. by rewrite Nat.add_0_r. }
  cbn [concat] in Hd. rewrite <- app_assoc in Hd. destruct (Hone _ _ _ _ Hw Hd) as (s1 & Hrun & Hw1).
  destruct (IH _ s1 rest Hw1) as (s2 & Hrun2 & Hw2); [by rewrite <- drop_drop, Hd, drop_app_length|].
  exists s2. cbn [mapM concat fmap list_fmap]. prog_step Hrun. prog_step Hrun2. by rewrite length_app, Nat.add_assoc.
Qed.

Lemma blocks_to_take_wf d : Forall in_range (blocks_to_take d) ∧ StronglySorted Z.lt (blocks_to_take d).
Proof.
  split; [|apply filter_sorted, seqZ_sorted]. apply Forall_forall. intros i Hi. exact (proj1 (proj1 (blocks_to_take_in d i) Hi)).
Qed.

Lemma ready_available d : stream_ready d → available (blocks_to_take d) d.
Proof.
  intros [Hs _ Hb _]. split; [done| |done]. intros i x Hi Hx. rewrite blocks_to_take_in. unfold can_take. rewrite Hx.
  rewrite orb_True, !bool_decide_spec. tauto.
Qed.

(** What a stream is written as. *)
Lemma save_run c d kbuf klist t0 ds : stream_ready d → room_for_buffer c kbuf → all_u8 (concat ds) → stream_fits d (concat ds) →
  ∃ s, save_stream kbuf klist t0 ds (c, d) =
    Ok ((1, (λ data, zlen data) <$> ds,
         Z.lor (u32 (Z.shiftl (stream_sum (concat ds)) 8)) (Z.land (stream_xor (concat ds)) 0xff), 1), s) ∧
    written (blocks_to_take d) (concat ds) (flash d) (S (length (concat ds) / cap)) (flash s.2).
Proof.
  intros Hr Hbuf Hu8 (Hfit & Hmax & Hlen). destruct Hplain as [P1 P2 P3 P4 P5 P6]. destruct (blocks_to_take_wf d) as [W1 W2].
  set (E := blocks_to_take d) in *. set (all := concat ds) in *.
  destruct (open_write_run P1 P2 P3 P4 P5 P6 E W1 W2 all Hu8 Hfit Hlen c d kbuf klist (ready_available d Hr) (sr_avail _ Hr) Hbuf)
    as (s1 & Hopen & Hw1).
  unfold save_stream. prog_step Hopen.
  destruct (calls_run (yaffs2_checkpt_wr t0) (writer E all (flash d)) all id (λ data, zlen data)
    (λ data rest p s, wr_run P1 P2 P3 P4 P5 P6 E W1 W2 all Hu8 Hfit Hlen (flash d) t0 data rest p s) ds 0 s1 [] Hw1) as (s2 & Hwr & Hw2);
    [by rewrite app_nil_r|].
  rewrite list_fmap_id in Hwr. prog_step Hwr. destruct s2 as [c2 d2]. cbn [Nat.add] in Hw2.
  destruct (close_write_run P1 P2 P3 P4 P5 P6 E W1 W2 all Hu8 Hfit Hlen (flash d) c2 d2 t0 Hw2) as (s3 & Hclose & Hf3).
  destruct Hw2 as [_ [_ _ Hs Hx]]. cbn [fst snd] in *. rewrite take_ge in Hs, Hx by done.
  unfold yaffs2_get_checkpt_sum. prog_simpl. prog_step Hclose. exists s3. by rewrite Hs, Hx.
Qed.

(** ... and how it is read. *)
Lemma restore_run d0 f1 c d kbuf klist t0 t1 ds : stream_ready d0 → all_u8 (concat ds) → stream_fits d0 (concat ds) →
  written (blocks_to_take d0) (concat ds) (flash d0) (S (length (concat ds) / cap)) f1 →
  content (flash d) = content f1 → room_for_buffer c kbuf → room_for_list c klist →
  ∃ s, restore_stream kbuf klist t0 t1 ((λ data, zlen data) <$> ds) (c, d) =
    Ok ((1, (λ data, (zlen data, data)) <$> ds,
         Z.lor (u32 (Z.shiftl (stream_sum (concat ds)) 8)) (Z.land (stream_xor (concat ds)) 0xff)), s).
Proof.
  intros Hr Hu8 (Hfit & Hmax & Hlen) Hf1 Hfl Hbuf Hlist. destruct Hplain as [P1 P2 P3 P4 P5 P6]. destruct (blocks_to_take_wf d0) as [W1 W2].
  assert (∀ i, in_range i → i ∉ blocks_to_take d0 → ∃ t,
    tags_read (content (flash d0) (i * chunks_per_block - chunk_offset)) t ∧ seq_number t ≠ YAFFS_SEQUENCE_CHECKPOINT_DATA) as Ho.
  { intros i Hi Hn. apply (sr_other _ Hr i Hi). apply not_true_is_false. intros Hc. apply Hn, blocks_to_take_in.
    split; [done|by apply Is_true_true]. }
  set (E := blocks_to_take d0) in *. set (all := concat ds) in *.
  destruct (open_read_run P1 P2 P3 P4 P5 P6 E W1 W2 all Hu8 Hfit Hlen (flash d0) f1 Hf1 Ho c d kbuf klist Hfl Hbuf Hlist Hmax) as (s1 & Hopen & Hr1).
  unfold restore_stream. prog_step Hopen.
  destruct (calls_run (yaffs2_checkpt_rd t0 t1) (reader E all f1) all (λ data, zlen data) (λ data, (zlen data, data))
    (λ data rest p s, rd_run P1 P2 P3 P4 P5 P6 E W1 W2 all Hu8 Hfit Hlen (flash d0) f1 Hf1 Ho t0 t1 data rest p s) ds 0 s1 [] Hr1)
    as (s2 & Hrd & Hr2); [by rewrite app_nil_r|].
  prog_step Hrd. destruct s2 as [c2 d2]. destruct Hr2 as [_ Hs Hx]. cbn [fst Nat.add] in Hs, Hx. rewrite take_ge in Hs, Hx by done.
  unfold yaffs2_get_checkpt_sum. prog_simpl. exists (c2, d2). by rewrite Hs, Hx.
Qed.

(** C5. The checkpoint stream of yaffs2 is a round trip. On a flash that keeps what it is given, a stream
    that is opened, written with any sequence of calls and closed reports success for every call; then
    whatever device has the same contents of the flash, and whatever the buffers and the local variables
    of the code hold, opening the stream and reading with calls of the same sizes gives back the same
    bytes and the same checksum. The stream may take several chunks and blocks, of those that were
    erased or part of an earlier checkpoint, while other data is in the blocks between them; it has to
    fit ([stream_fits]): the blocks that are free to take have room for it, it takes no more of them than
    the reader looks at, [max_blocks], and its length is in the range of an [int]. The writer has no such limit on
    the blocks: a longer stream is written with success and cannot be read. *)
Theorem checkpt_roundtrip c d kbuf klist t0 ds :
  stream_ready d → room_for_buffer c kbuf → all_u8 (concat ds) → stream_fits d (concat ds) →
  ∃ sum s, save_stream kbuf klist t0 ds (c, d) = Ok ((1, (λ data, zlen data) <$> ds, sum, 1), s) ∧
    ∀ c' d' kbuf' klist' u0 u1, content (flash d') = content (flash s.2) → room_for_buffer c' kbuf' → room_for_list c' klist' →
    ∃ s', restore_stream kbuf' klist' u0 u1 ((λ data, zlen data) <$> ds) (c', d') =
      Ok ((1, (λ data, (zlen data, data)) <$> ds, sum), s').
Proof.
  intros Hr Hbuf Hu8 Hfit. destruct (save_run c d kbuf klist t0 ds Hr Hbuf Hu8 Hfit) as (s & Hsave & Hw).
  exists (Z.lor (u32 (Z.shiftl (stream_sum (concat ds)) 8)) (Z.land (stream_xor (concat ds)) 0xff)), s. split; [exact Hsave|].
  intros c' d' kbuf' klist' u0 u1 Hfl Hbuf' Hlist'.
  by apply (restore_run d (flash s.2) c' d' kbuf' klist' u0 u1 ds Hr Hu8 Hfit Hw).
Qed.
End script.

(** ** A stream on a small device

    The device of [YaffsBlocks] with an earlier checkpoint in its first block and a file in its
    third; the flash is a function from the chunks to their contents. *)

Definition demo_driver : yaffs_driver (Z → page) := {|
  drv_write_chunk_fn n data _ oob f :=
    (YAFFS_OK, λ k, if decide (k = n) then Some (default [] data, default [] oob) else f k);
  drv_read_chunk_fn n data_len oob_len f :=
    ((YAFFS_OK, asked (page_data (f n)) data_len, asked (page_oob (f n)) oob_len, YAFFS_ECC_RESULT_NO_ERROR), f);
  drv_erase_fn b f := (YAFFS_OK, λ k, if decide (k / 16 = b) then None else f k);
  drv_mark_bad_fn _ f := (YAFFS_OK, f);
  drv_check_bad_fn _ f := (YAFFS_OK, f) |}.

#[local] Existing Instances demo_cfg demo_driver.

Lemma demo_flash : good_flash (Z → page) demo_cfg demo_driver.
Proof.
  refine {| content := λ f : Z → page, f |}.
  - intros f n data_len oob_len. by exists f.
  - intros f n data len oob _ _. eexists. split; [|reflexivity]. done.
  - intros f b. eexists. split; [|reflexivity]. done.
  - intros f b. by exists f.
Defined.

Lemma demo_plain : plain_device.
Proof. by split. Qed.

(** The first chunk of the file. *)
Definition demo_file_tags : yaffs_ext_tags :=
  mk_ext_tags 1 257 1 32 YAFFS_ECC_RESULT_UNKNOWN 0 0 0 0x1000 0 0 0 0 0 0 0.
Definition demo_flash_0 : Z → page := λ k,
  if k =? 48 then Some (replicate 32 7, default [] (tags_image demo_file_tags))
  else if k =? 16 then Some (replicate 32 9, []) else None.
Definition demo_checkpt_dev : yaffs_dev (Z → page) :=
  mk_dev demo_flash_0
    (mk_blocks [demo_bi 0 0 YAFFS_BLOCK_STATE_CHECKPOINT; demo_bi 0 0 YAFFS_BLOCK_STATE_EMPTY;
                demo_bi 0 16 YAFFS_BLOCK_STATE_FULL] [0; 0; 0; 0; 255; 255] 1 (-1) 0 1 16 0x1001)
    (mk_gc false false 1 0 0 0 0 0 0 0 0 0 0) (mk_temp (replicate YAFFS_N_TEMP_BUFFERS false) 0 0 0 0)
    false 0 0 None 0 0 (λ _, 0).
Definition demo_checkpt : yaffs_checkpt := mk_checkpt false None 0 0 0 0 0 0 None 0 0 0.

Lemma demo_ready : stream_ready (good := demo_flash) demo_checkpt_dev.
Proof.
  split.
  - split; [split; [done|]|done]. repeat constructor; unfold in_u; cbn; lia.
  - done.
  - intros i x [-> | [-> | ->]]%demo_in_range Hx; injection Hx as <-; try done. intros _ q Hq.
    change chunks_per_block with 16 in *. change chunk_offset with 0. cbn [content demo_flash flash demo_checkpt_dev].
    unfold demo_flash_0. rewrite !(proj2 (Z.eqb_neq _ _)) by lia. done.
  - intros i [-> | [-> | ->]]%demo_in_range Hc; try done. exists (tags2_stored YAFFS_ECC_RESULT_NO_ERROR demo_file_tags). split; [|done].
    exists demo_file_tags. split_and!; [|by vm_compute|done]. split; unfold in_u; cbn; lia.
Qed.

Definition demo_data : list (list Z) := [[1; 2; 3]; []; replicate 300 5; [250]].

Example checkpt_roundtrip_witness : ∃ sum s,
  save_stream (Some (replicate 32 0)) None ext_tags_zero demo_data (demo_checkpt, demo_checkpt_dev) = Ok ((1, [3; 0; 300; 1], sum, 1), s) ∧
  ∃ s', restore_stream (Some (replicate 32 0xff)) (Some [0; 0]) demo_file_tags demo_file_tags [3; 0; 300; 1] (demo_checkpt, s.2) =
    Ok ((1, [(3, [1; 2; 3]); (0, []); (300, replicate 300 5); (1, [250])], sum), s').
Proof.
  destruct (@checkpt_roundtrip _ demo_cfg demo_driver demo_flash demo_geometry demo_plain demo_checkpt demo_checkpt_dev
    (Some (replicate 32 0)) None ext_tags_zero demo_data demo_ready) as (sum & s & Hsave & Hrestore).
  - by exists (replicate 32 0).
  - repeat (rewrite Forall_app || split). all: repeat constructor; lia.
  - split_and!; [apply Nat.ltb_lt; by vm_compute|apply Z.leb_le; by vm_compute|apply Z.ltb_lt; by vm_compute].
  - exists sum, s. split; [exact Hsave|]. apply Hrestore; [done| |].
    + exists (replicate 32 0xff). split; reflexivity.
    + exists [0; 0]. split; [reflexivity|]. apply Z.leb_le. reflexivity.
Defined.

(** When there is no block left, the chunk in the buffer is not stored and stays full: the first call
    reports all of its bytes as written, and the next one stores a byte past the buffer. *)
Example wr_past_the_buffer : ∃ s,
  (_ ← yaffs2_checkpt_open (Some (replicate 32 0)) None true; yaffs2_checkpt_wr ext_tags_zero (replicate 528 1))
    (demo_checkpt, demo_checkpt_dev) = Ok (528, s) ∧
  yaffs2_checkpt_wr ext_tags_zero [1] s = Err FUndef.
Proof. eexists. split; [vm_compute; reflexivity|vm_compute; reflexivity]. Qed.

(** A stream that ends with its chunk is followed by one more chunk, without data: the size that
    [yaffs_checkpt_close] compares the offset with is 4, and not that of the header. *)
Example close_stores_an_empty_chunk : ∃ s,
  save_stream (Some (replicate 32 0)) None ext_tags_zero [replicate 16 1] (demo_checkpt, demo_checkpt_dev) =
    Ok ((1, [16], 4096, 1), s) ∧ checkpt_page_seq s.1 = 2.
Proof. eexists. split; [vm_compute; reflexivity|vm_compute; reflexivity]. Qed.
